(* ===== verification/_CoqProject ===== *)
-Q . S2P
Prelude.v
Io.v
Packed.v
PackedSpec.v
ReadLimiter.v
Segments.v
Serialize.v
SerializeSpec.v
NoAlloc.v
NoAllocSpec.v
FramingProps.v
Mem.v
WirePointer.v
Arena.v
Readers.v
ReadersSafe.v
ReadingProps.v
Allocators.v
AllocatorsOk.v
BuilderArena.v
Builders.v
BuilderArenaOk.v
BuilderOps.v
BuilderObjects.v
BuilderProps.v
AsyncIo.v
AsyncPacked.v
AsyncPackedOk.v
AsyncSerialize.v
AsyncSerializeOk.v
AsyncProps.v
RpcTables.v
RpcTypes.v
RpcConn.v
RpcProtocol.v
RpcAgree.v
RpcSafe.v
RpcRefine.v
RpcNet.v
RpcProps.v
SenderQueue.v
Queued.v
QueuedSafe.v
QueuedProps.v
Reconnect.v
Local.v
TaskSet.v
FlowControl.v
FlowProps.v
WriteQueue.v
QueueStreamProps.v
TwoParty.v
RpcStreams.v
Canonical.v
CanonicalSafe.v
CanonicalForm.v
CanonicalPacked.v
CanonicalProps.v
Introspect.v
ListIter.v
TypedLists.v
TypedPointers.v
PrimitiveList.v
EnumList.v
StructList.v
PointerList.v
PointerLists.v
TypedProps.v
SchemaCapnp.v
Schema.v
DynamicValue.v
DynamicSafe.v
DynamicProps.v
DynamicBuilder.v
DynamicRoundtrip.v
CodegenText.v
Codegen.v
CodegenProps.v
CodegenFields.v
CodegenFieldsProps.v
