(* ===== verification/Prelude.v ===== *)
(** * Cap'n Proto for Rust: a verification development

    The library under capnp/src (the wire format of Cap'n Proto messages, the
    readers that traverse messages nobody has validated, the builders that
    write messages into segments, and the framing that moves messages through
    streams), its asynchronous counterpart under capnp-futures/src, and the
    RPC system under capnp-rpc/src.  The definitions below are translations of
    the Rust functions of the same name, executable, and the theorems are
    about them.

    ** How Rust is modelled

    A call returns an [outcome]: [Ok], [Err] with the code's [ErrorKind],
    [Panic] (a failed assertion, [unwrap], slice index, or integer overflow:
    the model keeps overflow checks on) or [UB] (a load or store outside
    allocated memory).  Code with state is [ST S A], a function from a state
    to an outcome and the new state; the state survives errors, as it does in
    the code.  [wp] is total correctness: no panic, no [UB], no lack of fuel.
    Integers are [Z] with their width written out ([wrap32], [uadd 64], ...),
    and [usize] has 64 bits.  Loops without a structural measure take fuel;
    the theorems show that the fuel given is enough ([OutOfFuel] is excluded
    by every [wp]).

    ** Files

    - [Prelude]: errors, outcomes, integers, the state monad and its rules.
    - [Io] (io.rs): the traits [Read], [BufRead], [Write] as classes, their
      instances for slices and vectors, and what a lawful buffered reader is
      ([BufReadSpec]), with one that delivers its input in arbitrary chunks.
    - [Packed], [PackedSpec] (serialize_packed.rs): the packed
      codec byte for byte, then the reference functions [unpack] and [pack]
      and the proofs that the code computes them.
    - [ReadLimiter] (private/read_limiter.rs): the limiter, and in [Sync] the
      atomic limiter as a step relation over interleaved loads and stores.
    - [Segments] (message.rs): options, [ReaderSegments], [message::Reader].
    - [Serialize] (serialize.rs), [SerializeSpec]: framing;
      what it does on well-formed messages ([frame]); what it does on any
      input.
    - [NoAlloc], [NoAllocSpec] (serialize/no_alloc_buffer_segments.rs): the
      same without allocation.
    - [FramingProps]: framing over the packed codec, and the theorems about
      all of the above.
    - [Mem]: memory, a finite map from addresses to bytes; loads and stores
      are aligned and in bounds or [UB].
    - [WirePointer] (private/layout.rs): the bit fields of a pointer word.
    - [Arena] (private/arena.rs): the segments of a message as regions of
      memory, with the bounds checks; [ArenaOk] is the interface the readers
      are verified against, and its instances are the implementations.
    - [Readers] (private/layout.rs): the reader half of layout.rs.
    - [ReadersSafe]: safety of every reader operation on
      arbitrary bytes; termination and cost of [total_size].
    - [ReadingProps]: the theorems about reading.
    - [Allocators] (message.rs): the heap, the trait [Allocator] as a class and
      its three implementations; [AllocatorsOk]: the contract [AllocatorOk]
      builders are verified against, that the three keep it, and what that
      means for any client.
    - [BuilderArena] (private/arena.rs): the segments of a message being
      built; [BuilderArenaOk]: its invariant [world_ok].
    - [Builders] (private/layout.rs, message.rs, text.rs): the builder half of
      layout.rs, copies and canonical copies included.
    - [BuilderOps], [BuilderObjects]: what the stores, allocations and object
      initialisers do to the world ([evolves]), and that readers see it.
    - [BuilderProps]: the theorems about building.
    - [AsyncIo]: polling; the traits and helpers of futures-io and
      futures-util as classes with laws ([AsyncReadSpec], [AsyncWriteSpec],
      ...), and instances of all of them.
    - [AsyncPacked] (capnp-futures/src/serialize_packed.rs): the packed reader
      and writer as state machines between polls; [AsyncPackedOk]: they are
      lawful, by invariants on their stages.
    - [AsyncSerialize] (capnp-futures/src/serialize.rs), [AsyncSerializeOk]:
      the asynchronous framing, and that it agrees with the synchronous one.
    - [AsyncProps]: the theorems about the asynchronous code.
    - [RpcTables] (capnp-rpc/src/rpc.rs, like the next two files): the table
      that gives out ids, with a finite map as its specification.
    - [RpcTypes]: the messages, capabilities and tables of a connection; the
      record [ConnectionState].  The objects that Rust keeps behind [Rc] and
      [Weak] (clients, pipelines, question references) are entries of finite
      maps in the state, and a weak reference is an address that may be gone.
      Capabilities that do not belong to the connection are addresses; what
      the code asks of them is the class [Hooks].
    - [RpcConn]: one definition per function of rpc.rs: exporting and
      importing capabilities, requests, results, pipelines and promises, a
      handler for each message, the destructors, and disconnecting.
    - [RpcProtocol]: the specification: two abstract vats that keep reference
      counts, questions and answers, connected by two FIFO channels, as a step
      relation; [RpcAgree]: every step keeps the two sides in agreement
      ([Agree]: each count is accounted for by the peer's references and the
      messages under way); [RpcSafe]: the invariant [Inv], and what it gives.
    - [RpcRefine]: the connection implements an abstract vat
      ([Good], [abs]); every operation is one of its actions, and returns [Ok]
      on the messages a vat in agreement can receive.
    - [RpcNet]: two connections and the messages between them, with the
      operations either application may do; [RpcProps]: the theorems.
    - [SenderQueue], [Queued] (capnp-rpc/src/sender_queue.rs, queued.rs): the
      queue of pending promises, and the hooks for capabilities that are still
      promises, over a heap of [RefCell]s; [QueuedSafe]: their
      invariants; [QueuedProps]: the theorems.
    - [Reconnect] (capnp-rpc/src/reconnect.rs): clients that ask for a new
      target when theirs has disconnected; [Local] (capnp-rpc/src/local.rs):
      calls on the capabilities of one process and their results, over the
      heap of [Queued].  Each holds its theorems as well.
    - [TaskSet], [FlowControl] (capnp-rpc/src/task_set.rs, flow_control.rs):
      the set of tasks of a connection and the window of a stream;
      [FlowProps]: the theorems.
    - [WriteQueue] (capnp-futures/src/write_queue.rs, read_stream.rs): the
      queue of messages to write and the stream of messages read;
      [QueueStreamProps]: the theorems.
    - [TwoParty] (capnp-rpc/src/twoparty.rs, lib.rs): the network of two vats
      over these, with the handles of its connection, and in [RpcSystem] the
      tasks of a vat; then the theorems: what is sent arrives, and a system has
      one connection at a time.
    - [RpcStreams] (capnp-rpc/src/rpc.rs): streaming calls, which put a
      connection and the flow controllers of its clients together; the results
      of a call ([set_pipeline], tail calls); [Disconnector]; the theorems.
    - [Canonical] (layout.rs, message.rs): the check that a message is
      canonical, and making one so; [CanonicalSafe]: the check is
      safe on any bytes; [CanonicalForm]: what a message
      says, how a canonical message lays it out, and that there is one way to
      do so; [CanonicalPacked]: a message that passes the check is laid out in
      that way; [CanonicalProps]: the theorems.
    - [ListIter], [TypedLists] (traits.rs): iteration over lists, and the
      traits of typed values as classes; [TypedPointers] (text.rs, data.rs,
      any_pointer.rs): their instances for pointers; [PrimitiveList],
      [EnumList], [StructList], [PointerList] (list_list.rs),
      [PointerLists] (text_list.rs, data_list.rs, any_pointer_list.rs,
      capability_list.rs): the typed lists; [TypedProps]: the theorems.
    - [Introspect] (introspect.rs): the types of values, and what generated
      code provides, as the class [GeneratedCode]; [SchemaCapnp]
      (schema_capnp.rs): the generated accessors of schemas that reflection
      uses; [Schema] (schema.rs): schemas and their fields, found by index, by
      discriminant and by name.
    - [DynamicValue], [DynamicBuilder] (dynamic_value.rs, dynamic_struct.rs,
      dynamic_list.rs): dynamic values, read and built.  [DynamicSafe]: the
      promises of generated code ([GeneratedOk]) and the type of a value
      ([has_type]), which reading preserves; [DynamicProps]: the search for a
      name, and the theorems about reading; [DynamicRoundtrip]: what a reader
      sees depends only on the memory it reads, so that static schemas read
      the same while a message is built; the theorem about setting fields.
    - [CodegenText], [Codegen] (capnpc/src/codegen.rs, codegen_types.rs): the
      names the code generator makes (a [String] is a list of code points; what
      Unicode says of letters is the class [Unicode]), its context, types,
      defaults, and the tables of fields it emits; [CodegenProps]: the
      theorems about these.  [CodegenFields] (with pointer_constants.rs): the
      accessors of fields, [format!] included; [CodegenFieldsProps]: what their
      text means as operations on structs.

    ** What the theorems show

    Framing: writing and reading back is the identity, plain, packed, from
    slices and without allocation; arbitrary input yields an error or a
    message within the traversal limit; the optimised packed loops are the
    simple codec.  Reading: for a message of arbitrary bytes every pointer
    the readers follow is checked, so no operation panics or leaves memory;
    the readers that result satisfy the invariants ([pr_ok], [sr_ok],
    [lr_ok]) that the next operation needs; the cost of a traversal is
    charged to the limiter.  Building: over any allocator that keeps its
    contract, structs, text, data and lists initialised at a null pointer get
    zeroed words of their own, change nothing else, and are what a reader of
    the same message finds; fields and elements behave like variables; the
    three allocators keep the contract and get every segment back.
    Asynchronous code: whatever the timing of reads and writes, the framing
    does what the synchronous code does, and the packed streams deliver the
    bytes they were given, under conditions that are stated (reads and writes
    of whole words, runs of at most 255 words); runs of the model show what
    happens without them.  RPC: two connections that exchange settled capabilities
    by the operations of [NetOp] (asking for the bootstrap capability, calls on
    imports, results, drops of clients, imports and questions, messages, in any
    order) do not fail while these are [enabled]; they implement the abstract
    protocol, so reference counts agree, a capability stays what it was while
    it is referred to, calls reach their target, returns resolve their
    question, and nothing is left when all is dropped.  Calls on promised
    answers, capabilities that resolve, tail calls and the loss of a connection
    are modelled but are not operations of [NetOp].
    A message that passes the check for canonical form is determined by its
    content, byte for byte.  Calls on a promise keep their order and reach
    what it resolves to; a stream blocks exactly when its window is full, and
    lets go, also of every send that waits when the connection is lost; a
    reconnecting client asks for a target exactly when a call on the current
    one has failed by disconnecting; a local call gives its caller
    what the server set, once, errors of streams included; a write queue
    writes what it was sent, in order, and the other side of a connection
    receives that, however either vat is run.  Typed lists give back the values they were set
    from.  Reading through a schema is type safe: every value has the type its
    schema gives it; the search for a field's name finds what a scan finds; a
    plain field that is set in a dynamic struct is what is read back, is the
    member of its union that is set, and leaves every other bit as it was.  The tables the generator emits are
    those that the search needs: sorted, complete, with one name per field; the
    accessors generated for a field of the data section are the calls of its
    type, offset and default, and the setter writes what the getter reads.
    What a connection does with inputs outside that contract (a hostile
    [Return], a promise resolved to itself, a call whose results are kept) is
    stated on its own.

    ** Bounds and fuel

    [read_exact_loop] runs at most one round per byte; [total_size] recurses
    at most [nesting_limit] deep; the packed loops consume at least a byte
    per round; the fuel is computed from these measures.  Segment sizes are
    below [2^32] words, the number of segments below 512, as the code checks.
    The recursive builder operations (zeroing and copying objects) take a
    fuel computed from the memory ([world_fuel], [copy_fuel]).  A poll of
    [PackedRead] takes at most 13 rounds of its loop and one of [PackedWrite]
    at most 32 for each byte it is given and 32 more ([rounds_left], [work]);
    how often a lawful reader or writer is pending is bounded by its
    [patience].  The loops of rpc.rs that follow [get_resolved] have no bound;
    the model gives them the fuel [chain_bound], and when every capability is
    settled ([Settled]) one round is enough; queued clients take a round for each
    client of the heap.  [enabled] asks that no count or
    id of the next operation reaches [2^32].  The binary search for a name
    gets one round more than the table has entries; [clear] and [set] of a
    dynamic struct take as fuel how deep groups nest.

    ** Not modelled

    Of the code generator, [generate_node], which puts the texts together;
    [stringify.rs] and the [Debug] instances, which print values.  Of generated
    code only what reflection over schemas and the generator read.  Of the RPC
    system, the promises that wait for a client or a pipeline to be resolved;
    [RpcConn] is not composed with [TwoParty], whose messages are bytes. *)

From stdpp Require Export base tactics list numbers option.
From coqutil Require Export Byte.
From coqutil Require Export Word.LittleEndianList.
From Stdlib Require Export ZArith Lia.

#[global] Open Scope Z_scope.

(** ** Errors: [capnp::ErrorKind] (capnp/src/lib.rs)

    [NotInSchema] carries a [u16], [Utf8Error] is the standard library's pair
    of a valid prefix length and an optional error length. *)

Record Utf8Error := { valid_up_to : Z; error_len : option Z }.

Inductive ErrorKind :=
| Failed
| Overloaded
| Disconnected
| Unimplemented
| BufferNotLargeEnough
| CannotCreateACanonicalMessageWithACapability
| CannotSetAnyPointerFieldToAPrimitiveValue
| CantHandleNonStructInlineComposite
| EmptyBuffer
| EmptySlice
| EnumValueOrUnionDiscriminantNotPresent (value : Z)
| ExistingListPointerIsNotByteSized
| ExistingListValueIsIncompatibleWithExpectedType
| ExistingPointerIsNotAList
| ExpectedAListOrBlob
| ExpectedAPointerListButGotAListOfDataOnlyStructs
| ExpectedAPrimitiveListButGotAListOfPointerOnlyStructs
| FailedToFillTheWholeBuffer
| FieldAndDefaultMismatch
| FieldNotFound
| FoundBitListWhereStructListWasExpected
| FoundStructListWhereBitListWasExpected
| FourByteLengthTooBigForUSize
| FourByteSegmentLengthTooBigForUSize
| GroupFieldButTypeIsNotStruct
| InitIsOnlyValidForStructAndAnyPointerFields
| InitnIsOnlyValidForListTextOrDataFields
| InlineCompositeListWithNonStructElementsNotSupported
| InlineCompositeListsElementsOverrunItsWordCount
| InlineCompositeListsOfNonStructTypeAreNotSupported
| InvalidNumberOfSegments (count : Z)
| InvalidSegmentId (id : Z)
| ListAnyPointerNotSupported
| ListCapabilityNotSupported
| MalformedDoubleFarPointer
| MessageContainsInvalidCapabilityPointer
| MessageContainsListPointerOfNonBytesWhereDataWasExpected
| MessageContainsListPointerOfNonBytesWhereTextWasExpected
| MessageContainsListWithIncompatibleElementType
| MessageContainsNonCapabilityPointerWhereCapabilityPointerWasExpected
| MessageContainsNonStructPointerWhereStructPointerWasExpected
| MessageContainsNonListPointerWhereDataWasExpected
| MessageContainsNonListPointerWhereListPointerWasExpected
| MessageContainsNonListPointerWhereTextWasExpected
| MessageContainsNullCapabilityPointer
| MessageContainsOutOfBoundsPointer
| MessageContainsTextThatIsNotNULTerminated
| MessageEndsPrematurely (expected : Z) (got : Z)
| MessageIsTooDeeplyNested
| MessageIsTooDeeplyNestedOrContainsCycles
| MessageNotAlignedBy8BytesBoundary
| MessageSizeOverflow
| MessageTooLarge (words : Z)
| NestingLimitExceeded
| NotAStruct
| OnlyOneOfTheSectionPointersIsPointingToOurself
| PackedInputDidNotEndCleanlyOnASegmentBoundary
| PrematureEndOfFile
| PrematureEndOfPackedInput
| ReadLimitExceeded
| SettingDynamicCapabilitiesIsUnsupported
| StructReaderHadBitwidthOtherThan1
| TextBlobMissingNULTerminator
| TextContainsNonUtf8Data (e : Utf8Error)
| TriedToReadFromNullArena
| TypeMismatch
| UnalignedSegment
| UnexpectedFarPointer
| UnknownPointerType.

#[export] Instance Utf8Error_eq_dec : EqDecision Utf8Error.
Proof. solve_decision. Defined.
#[export] Instance ErrorKind_eq_dec : EqDecision ErrorKind.
Proof. solve_decision. Defined.

(** ** Outcomes of Rust code

    A call returns normally ([Ok]), returns [Result::Err] ([Err]), panics
    (a failed assertion, [unwrap], slice indexing, or an arithmetic operation
    that overflows: the model keeps overflow checks on), or performs an
    invalid memory access ([UB]).  [OutOfFuel] is not an outcome of the code:
    it marks a model run whose recursion bound was too small, and the
    theorems about fuelled definitions exclude it. *)

Inductive outcome (A : Type) : Type :=
| Ok (a : A)
| Err (e : ErrorKind)
| Panic
| UB
| OutOfFuel.
Arguments Ok {A} a.
Arguments Err {A} e.
Arguments Panic {A}.
Arguments UB {A}.
Arguments OutOfFuel {A}.

(** Monads, with stdpp's notation [x ← c; k] read in a scope of its own (the
    computation comes first, so the type of [x] is known in [k]). *)
Class Monad (M : Type -> Type) := {
  ret : forall {A}, A -> M A;
  bind : forall {A B}, M A -> (A -> M B) -> M B
}.
Declare Scope rust_scope.
Delimit Scope rust_scope with rust.
Notation "x ← y ; z" := (bind y (fun x => z)) (only parsing) : rust_scope.
Notation "' x ← y ; z" := (bind y (fun x => z)) (only parsing) : rust_scope.
Notation "y ;; z" := (bind y (fun _ => z)) (only parsing) : rust_scope.
#[global] Open Scope rust_scope.

#[export] Instance outcome_monad : Monad outcome := {
  ret A a := Ok a;
  bind A B c k :=
    match c with
    | Ok a => k a
    | Err e => Err e
    | Panic => Panic
    | UB => UB
    | OutOfFuel => OutOfFuel
    end
}.

(** [benign c]: the run did not panic, touch invalid memory or run out of
    fuel; it returned a value or an error. *)
Definition benign {A} (c : outcome A) : Prop :=
  match c with Ok _ | Err _ => True | _ => False end.

Definition is_ok {A} (c : outcome A) : bool :=
  match c with Ok _ => true | _ => false end.

(** [assert!(b)] *)
Definition rust_assert (b : bool) : outcome unit := if b then Ok tt else Panic.

(** [opt.ok_or_else(|| e)], [opt.unwrap()] *)
Definition ok_or {A} (o : option A) (e : ErrorKind) : outcome A :=
  match o with Some a => Ok a | None => Err e end.
Definition unwrap {A} (o : option A) : outcome A :=
  match o with Some a => Ok a | None => Panic end.

Lemma benign_bind {A B} (c : outcome A) (k : A -> outcome B) :
  benign c -> (forall a, c = Ok a -> benign (k a)) -> benign (bind c k).
Proof. destruct c; simpl; intros H Hk; auto. Qed.

Lemma outcome_bind_ok {A B} (c : outcome A) (k : A -> outcome B) b :
  (bind c k) = Ok b -> exists a, c = Ok a /\ k a = Ok b.
Proof. destruct c; simpl; try discriminate; eauto. Qed.

Lemma outcome_bind_assoc {A B C} (c : outcome A) (f : A -> outcome B) (g : B -> outcome C) :
  bind (bind c f) g = bind c (fun a => bind (f a) g).
Proof. by destruct c. Qed.

(** ** Machine integers

    A [w]-bit unsigned integer is a [Z] in [0, 2^w).  [wrapN] is the cast
    [as uN]; [as_i32] is the cast [u32 as i32].  The arithmetic operators
    panic on overflow. *)

Definition wrap (w : Z) (x : Z) : Z := x `mod` 2 ^ w.
Definition wrap8 (x : Z) : Z := wrap 8 x.
Definition wrap16 (x : Z) : Z := wrap 16 x.
Definition wrap32 (x : Z) : Z := wrap 32 x.
Definition wrap64 (x : Z) : Z := wrap 64 x.

Definition as_i32 (x : Z) : Z := if x <? 2 ^ 31 then x else x - 2 ^ 32.

Definition in_width (w : Z) (x : Z) : Prop := 0 <= x < 2 ^ w.
Definition u16 (x : Z) : Prop := in_width 16 x.
Definition u32 (x : Z) : Prop := in_width 32 x.
Definition u64 (x : Z) : Prop := in_width 64 x.

(** [a + b], [a - b] and [a * b] at type [uN] *)
Definition uadd (w a b : Z) : outcome Z :=
  if a + b <? 2 ^ w then Ok (a + b) else Panic.
Definition usub (a b : Z) : outcome Z :=
  if b <=? a then Ok (a - b) else Panic.
Definition umul (w a b : Z) : outcome Z :=
  if a * b <? 2 ^ w then Ok (a * b) else Panic.

(** [a.checked_add(b)] and [a.checked_mul(b)] at [usize] *)
Definition checked_add (a b : Z) : option Z :=
  if a + b <? 2 ^ 64 then Some (a + b) else None.
Definition checked_mul (a b : Z) : option Z :=
  if a * b <? 2 ^ 64 then Some (a * b) else None.

(** ** Stateful code

    [ST S A]: a call that threads a state of type [S] and produces an
    [outcome A].  The state survives an error, as it does in the code.  The
    monad notation is stdpp's: [x ← c; k]. *)

Definition ST (S A : Type) : Type := S -> outcome A * S.

#[export] Instance ST_monad {S} : Monad (ST S) := {
  ret A a s := (Ok a, s);
  bind A B c k s :=
    match c s with
    | (Ok a, s') => k a s'
    | (Err e, s') => (Err e, s')
    | (Panic, s') => (Panic, s')
    | (UB, s') => (UB, s')
    | (OutOfFuel, s') => (OutOfFuel, s')
    end
}.

Definition lift {S A} (c : outcome A) : ST S A := fun s => (c, s).
Definition fails {S A} (e : ErrorKind) : ST S A := lift (Err e).
Definition get_state {S} : ST S S := fun s => (Ok s, s).
Definition put_state {S} (s : S) : ST S unit := fun _ => (Ok tt, s).

(** [x.unwrap()] and [x.expect(..)] of a [Result] *)
Definition unwrap_result {S A} (c : ST S A) : ST S A := fun s =>
  match c s with (Err _, s) => (Panic, s) | r => r end.

(** [for i in lo..lo+n { body }] *)
Fixpoint iter_range {S} (n : nat) (lo : Z) (body : Z -> ST S unit) : ST S unit :=
  match n with
  | O => ret tt
  | Datatypes.S n => body lo ;; iter_range n (lo + 1) body
  end.

(** [let mut acc = acc; for i in lo..lo+n { acc = body(i, acc) }] *)
Fixpoint fold_range {S A} (n : nat) (lo : Z) (acc : A) (body : Z -> A -> ST S A) : ST S A :=
  match n with
  | O => ret acc
  | Datatypes.S n => acc ← body lo acc; fold_range n (lo + 1) acc body
  end.

(** [for i in lo..lo+n { if !body(i)? { return Ok(false) } } Ok(true)] *)
Fixpoint all_range {S} (n : nat) (lo : Z) (body : Z -> ST S bool) : ST S bool :=
  match n with
  | O => ret true
  | Datatypes.S n => b ← body lo; if b then all_range n (lo + 1) body else ret false
  end.

(** Total correctness: from [s], [c] returns a value satisfying [Q] or an
    error satisfying [E]; it does not panic, touch invalid memory or run out
    of fuel. *)
Definition wp {S A} (c : ST S A) (Q : A -> S -> Prop) (E : ErrorKind -> S -> Prop)
    (s : S) : Prop :=
  match c s with
  | (Ok a, s') => Q a s'
  | (Err e, s') => E e s'
  | _ => False
  end.

(** ** Tactics *)

(** Linear arithmetic after turning [/] and [mod] by constants into
    equations. *)
Ltac zlia := Z.div_mod_to_equations; lia.

(** Case analysis on every boolean integer comparison and [if] in the
    context or the goal. *)
Ltac case_bool :=
  match goal with
  | |- context [Z.ltb ?a ?b] => destruct (Z.ltb_spec a b)
  | |- context [Z.leb ?a ?b] => destruct (Z.leb_spec a b)
  | |- context [Z.eqb ?a ?b] => destruct (Z.eqb_spec a b)
  | |- context [Nat.ltb ?a ?b] => destruct (Nat.ltb_spec a b)
  | |- context [Nat.leb ?a ?b] => destruct (Nat.leb_spec a b)
  | |- context [Nat.eqb ?a ?b] => destruct (Nat.eqb_spec a b)
  | H : context [Z.ltb ?a ?b] |- _ => destruct (Z.ltb_spec a b)
  | H : context [Z.leb ?a ?b] |- _ => destruct (Z.leb_spec a b)
  | H : context [Z.eqb ?a ?b] |- _ => destruct (Z.eqb_spec a b)
  | H : context [Nat.ltb ?a ?b] |- _ => destruct (Nat.ltb_spec a b)
  | H : context [Nat.leb ?a ?b] |- _ => destruct (Nat.leb_spec a b)
  | H : context [Nat.eqb ?a ?b] |- _ => destruct (Nat.eqb_spec a b)
  end.
Ltac case_bools := repeat (case_bool; simpl in *; try lia; try congruence).

(** Splits every successful [bind] among the hypotheses into its steps. *)
Ltac inv_bind :=
  repeat match goal with
  | H : (bind _ _) = Ok _ |- _ =>
      let a := fresh "a" in let Ha := fresh "Ha" in
      apply outcome_bind_ok in H as (a & Ha & H)
  | H : Ok _ = Ok _ |- _ => injection H as H; subst
  | H : Err _ = Ok _ |- _ => discriminate H
  | H : Panic = Ok _ |- _ => discriminate H
  | H : UB = Ok _ |- _ => discriminate H
  | H : OutOfFuel = Ok _ |- _ => discriminate H
  end.

(** ** Integers *)

Lemma uadd_ok w a b : a + b < 2 ^ w -> uadd w a b = Ok (a + b).
Proof. intros H. unfold uadd. case_bools. Qed.
Lemma usub_ok a b : b <= a -> usub a b = Ok (a - b).
Proof. intros H. unfold usub. case_bools. Qed.
Lemma umul_ok w a b : a * b < 2 ^ w -> umul w a b = Ok (a * b).
Proof. intros H. unfold umul. case_bools. Qed.
Lemma wrap_small w x : 0 <= x < 2 ^ w -> wrap w x = x.
Proof. apply Z.mod_small. Qed.
Lemma wrap32_small x : 0 <= x < 2 ^ 32 -> wrap32 x = x.
Proof. apply Z.mod_small. Qed.
Lemma wrap64_small x : 0 <= x < 2 ^ 64 -> wrap64 x = x.
Proof. apply Z.mod_small. Qed.
Lemma wrap_range w x : 0 <= w -> 0 <= wrap w x < 2 ^ w.
Proof. intros Hw. apply Z.mod_pos_bound. lia. Qed.
Lemma wrap8_range x : 0 <= wrap8 x < 256.
Proof. by apply (wrap_range 8). Qed.
Lemma wrap16_range x : 0 <= wrap16 x < 2 ^ 16.
Proof. by apply (wrap_range 16). Qed.
Lemma wrap32_range x : 0 <= wrap32 x < 2 ^ 32.
Proof. by apply (wrap_range 32). Qed.
Lemma wrap64_range x : 0 <= wrap64 x < 2 ^ 64.
Proof. by apply (wrap_range 64). Qed.

Lemma checked_add_ok a b : a + b < 2 ^ 64 -> checked_add a b = Some (a + b).
Proof. intros H. unfold checked_add. case_bools. Qed.
Lemma checked_mul_ok a b : a * b < 2 ^ 64 -> checked_mul a b = Some (a * b).
Proof. intros H. unfold checked_mul. case_bools. Qed.

Create HintDb ints.
Create Rewrite HintDb ints.
#[export] Hint Resolve wrap8_range wrap16_range wrap32_range wrap64_range : ints.
#[export] Hint Rewrite uadd_ok usub_ok umul_ok using lia : ints.

(** ** Rules for [wp] *)

Section wp_rules.
Context {S : Type}.
Implicit Types (s : S).

Lemma wp_ret {A} (a : A) Q E s : Q a s -> wp (ret a : ST S A) Q E s.
Proof. done. Qed.

Lemma wp_bind {A B} (c : ST S A) (k : A -> ST S B) Q E s :
  wp c (fun a => wp (k a) Q E) E s -> wp (bind c k) Q E s.
Proof.
  unfold wp, bind; simpl. destruct (c s) as [[] s']; simpl; tauto.
Qed.

Lemma wp_mono {A} (c : ST S A) (Q Q' : A -> S -> Prop) (E E' : ErrorKind -> S -> Prop) s :
  wp c Q E s ->
  (forall a s', Q a s' -> Q' a s') -> (forall e s', E e s' -> E' e s') ->
  wp c Q' E' s.
Proof. unfold wp. destruct (c s) as [[] s']; simpl; auto. Qed.

Lemma wp_lift {A} (c : outcome A) Q E s :
  match c with Ok a => Q a s | Err e => E e s | _ => False end ->
  wp (lift c) Q E s.
Proof. unfold wp, lift. by destruct c. Qed.

Lemma wp_fails {A} e (Q : A -> S -> Prop) (E : ErrorKind -> S -> Prop) s : E e s -> wp (fails e) Q E s.
Proof. done. Qed.

Lemma wp_if {A} (b : bool) (c d : ST S A) Q E s :
  (b = true -> wp c Q E s) -> (b = false -> wp d Q E s) ->
  wp (if b then c else d) Q E s.
Proof. destruct b; auto. Qed.

Lemma wp_iter_range (I : Z -> S -> Prop) n lo (body : Z -> ST S unit)
    (E : ErrorKind -> S -> Prop) s :
  I lo s ->
  (forall i s, lo <= i < lo + Z.of_nat n -> I i s -> wp (body i) (fun _ => I (i + 1)) E s) ->
  wp (iter_range n lo body) (fun _ => I (lo + Z.of_nat n)) E s.
Proof.
  revert lo s. induction n as [|n IH]; intros lo s HI Hb; cbn [iter_range].
  { apply wp_ret. by rewrite Z.add_0_r. }
  apply wp_bind. eapply wp_mono; [apply (Hb lo s); [lia|done]| |done].
  intros [] s' HI'. eapply wp_mono; [apply (IH (lo + 1) s' HI')| |done].
  - intros i s'' Hi. apply Hb. lia.
  - intros [] s''. by replace (lo + 1 + Z.of_nat n) with (lo + Z.of_nat (Datatypes.S n)) by lia.
Qed.

Lemma wp_fold_range {A} (I : Z -> A -> S -> Prop) n lo acc (body : Z -> A -> ST S A)
    (E : ErrorKind -> S -> Prop) s :
  I lo acc s ->
  (forall i a s, lo <= i < lo + Z.of_nat n -> I i a s -> wp (body i a) (fun a => I (i + 1) a) E s) ->
  wp (fold_range n lo acc body) (fun a => I (lo + Z.of_nat n) a) E s.
Proof.
  revert lo acc s. induction n as [|n IH]; intros lo acc s HI Hb; cbn [fold_range].
  { apply wp_ret. by rewrite Z.add_0_r. }
  apply wp_bind. eapply wp_mono; [apply (Hb lo acc s); [lia|done]| |done].
  intros a1 s' HI'. eapply wp_mono; [apply (IH (lo + 1) a1 s' HI')| |done].
  - intros i a' s'' Hi. apply Hb. lia.
  - intros b s''. by replace (lo + 1 + Z.of_nat n) with (lo + Z.of_nat (Datatypes.S n)) by lia.
Qed.

Lemma wp_all_range (I : Z -> S -> Prop) (F : S -> Prop) n lo (body : Z -> ST S bool)
    (E : ErrorKind -> S -> Prop) s :
  I lo s ->
  (forall i s, lo <= i < lo + Z.of_nat n -> I i s ->
     wp (body i) (fun b s' => if b then I (i + 1) s' else F s') E s) ->
  wp (all_range n lo body)
     (fun b s' => if b then I (lo + Z.of_nat n) s' else F s') E s.
Proof.
  revert lo s. induction n as [|n IH]; intros lo s HI Hb; cbn [all_range].
  { apply wp_ret. by rewrite Z.add_0_r. }
  apply wp_bind. eapply wp_mono; [apply (Hb lo s); [lia|done]| |done].
  intros [] s' HI'; [|done].
  eapply wp_mono; [apply (IH (lo + 1) s' HI')| |done].
  - intros i s'' Hi. apply Hb. lia.
  - intros b s''. by replace (lo + 1 + Z.of_nat n) with (lo + Z.of_nat (Datatypes.S n)) by lia.
Qed.

Lemma wp_benign {A} (c : ST S A) Q E s : wp c Q E s -> benign (fst (c s)).
Proof. unfold wp. by destruct (c s) as [[] s']. Qed.

Lemma ST_bind_ok {A B} (c : ST S A) (k : A -> ST S B) s a s' :
  c s = (Ok a, s') -> (bind c k) s = k a s'.
Proof. unfold bind; simpl. by intros ->. Qed.

Lemma ST_bind_ext {A B} (c : ST S A) (k k' : A -> ST S B) s :
  (forall a s', k a s' = k' a s') -> bind c k s = bind c k' s.
Proof. intros Hk. unfold bind; simpl. destruct (c s) as [[] s']; auto. Qed.

Lemma ST_bind_inv {A B} (c : ST S A) (k : A -> ST S B) s b s' :
  bind c k s = (Ok b, s') -> exists a s1, c s = (Ok a, s1) /\ k a s1 = (Ok b, s').
Proof. unfold bind; simpl. destruct (c s) as [[a| | | |] s1]; try discriminate. eauto. Qed.

Lemma lift_inv {A} (c : outcome A) s a s' : lift c s = (Ok a, s') -> c = Ok a /\ s' = s.
Proof. unfold lift. by intros [= -> ->]. Qed.

Lemma ST_bind_ret {A} (c : ST S A) s : bind c ret s = c s.
Proof. unfold bind; simpl. by destruct (c s) as [[] s']. Qed.

Lemma ST_ret_bind {A B} (a : A) (k : A -> ST S B) s : bind (ret a) k s = k a s.
Proof. done. Qed.

Lemma lift_bind_ok {A B} (c : outcome A) (k : A -> ST S B) s a :
  c = Ok a -> bind (lift c) k s = k a s.
Proof. by intros ->. Qed.

Lemma ST_bind_assoc {A B C} (c : ST S A) (f : A -> ST S B) (g : B -> ST S C) s :
  bind (bind c f) g s = bind c (fun a => bind (f a) g) s.
Proof. unfold bind; simpl. by destruct (c s) as [[] s']. Qed.
End wp_rules.

(** One symbolic step of a [wp] goal. *)
Ltac wp_step :=
  lazymatch goal with
  | |- wp (bind _ _) _ _ _ => apply wp_bind
  | |- wp (ret _) _ _ _ => apply wp_ret
  | |- wp (lift (uadd _ _ _)) _ _ _ => rewrite uadd_ok; [apply wp_lift|]
  | |- wp (lift (usub _ _)) _ _ _ => rewrite usub_ok; [apply wp_lift|]
  | |- wp (lift (umul _ _ _)) _ _ _ => rewrite umul_ok; [apply wp_lift|]
  | |- wp (lift _) _ _ _ => apply wp_lift
  | |- wp (fails _) _ _ _ => apply wp_fails
  | |- wp (if ?b then _ else _) _ _ _ => apply wp_if; intros
  | |- wp (let '(_, _) := ?p in _) _ _ _ => destruct p
  end.
Ltac wp_steps := repeat (wp_step; simpl).

(** [inv_bind] for stateful code. *)
Ltac inv_ST :=
  repeat match goal with
  | H : (bind _ _) _ = (Ok _, _) |- _ =>
      let a := fresh "a" in let s := fresh "s" in let Ha := fresh "Ha" in
      apply ST_bind_inv in H as (a & s & Ha & H)
  | H : lift _ _ = (Ok _, _) |- _ => apply lift_inv in H as [H ->]
  | H : ret _ _ = (Ok _, _) |- _ => injection H as H; subst
  | H : fails _ _ = (Ok _, _) |- _ => discriminate H
  end.
