(* ===== verification/Io.v ===== *)
(** * The I/O traits of capnp/src/io.rs

    [Read], [BufRead] and [Write] as type classes over the state of the
    reader or writer, with the default method [read_exact]; the instances the
    crate gives for byte slices and vectors; and what the framing and packing
    layers rely on: a lawful [BufRead] ([BufReadSpec]) and a reader that
    delivers given chunks of bytes ([Delivers]).  The theorems about
    serialization are proved against these two interfaces. *)

From S2P Require Import Prelude.
(** ** The traits *)

(** [read r n] is [r.read(buf)] for a buffer of [n] bytes.  It returns the
    bytes it stored at the front of the buffer, so [Ok bs] stands for
    [Ok(bs.len())]. *)
Class Read (R : Type) := read : nat -> ST R (list byte).

(** [Read::read_exact]: the default method.  A [read] that returns [0] ends
    the loop. Each other round stores at least one byte, so [n] rounds are
    enough. *)
Fixpoint read_exact_loop {R} `{Read R} (fuel n : nat) (acc : list byte) : ST R (list byte) :=
  match fuel with
  | O => lift OutOfFuel
  | S fuel =>
      if (n =? 0)%nat then ret acc
      else
        bs ← read n;
        if (length bs =? 0)%nat then fails FailedToFillTheWholeBuffer
        else read_exact_loop fuel (n - length bs) (acc ++ bs)
  end.
Definition read_exact {R} `{Read R} (n : nat) : ST R (list byte) :=
  read_exact_loop (S n) n [].

Class BufRead (R : Type) `{Read R} := {
  fill_buf : ST R (list byte);
  consume : nat -> ST R unit
}.

Class Write (W : Type) := write_all : list byte -> ST W unit.

(** ** Byte slices and vectors *)

(** [impl Read for &[u8]] *)
#[export] Instance slice_read : Read (list byte) := fun n s =>
  (Ok (take n s), drop n s).

(** [impl BufRead for &[u8]]; [&self[amt..]] panics past the end. *)
#[export] Instance slice_bufread : BufRead (list byte) := {|
  fill_buf := fun s => (Ok s, s);
  consume := fun amt s =>
    if (amt <=? length s)%nat then (Ok tt, drop amt s) else (Panic, s)
|}.

(** [impl Write for Vec<u8>] *)
Record Vec := { vec : list byte }.
#[export] Instance vec_write : Write Vec := fun bs w =>
  (Ok tt, {| vec := vec w ++ bs |}).

(** [impl Write for &mut [u8]]: [space] is what is left of the slice,
    [stored] what has been written to its front. *)
Record MutSlice := { stored : list byte; space : nat }.
#[export] Instance mut_slice_write : Write MutSlice := fun bs w =>
  if (space w <? length bs)%nat then (Err BufferNotLargeEnough, w)
  else (Ok tt, {| stored := stored w ++ bs; space := space w - length bs |}).

(** A [BufRead] that hands out its input in chunks, as a [std::io::BufReader]
    over a socket or file does: each [fill_buf] with an empty buffer takes the
    next chunk, and an empty chunk list is the end of the stream. *)
Record Chunked := { cur : list byte; pending : list (list byte) }.

Fixpoint next_chunk (cs : list (list byte)) : Chunked :=
  match cs with
  | [] => {| cur := []; pending := [] |}
  | c :: cs => if (length c =? 0)%nat then next_chunk cs else {| cur := c; pending := cs |}
  end.
Definition refill (r : Chunked) : Chunked :=
  if (length (cur r) =? 0)%nat then next_chunk (pending r) else r.

#[export] Instance chunked_read : Read Chunked := fun n r =>
  let r := refill r in
  (Ok (take n (cur r)), {| cur := drop n (cur r); pending := pending r |}).
#[export] Instance chunked_bufread : BufRead Chunked := {|
  fill_buf := fun r => let r := refill r in (Ok (cur r), r);
  consume := fun amt r =>
    if (amt <=? length (cur r))%nat
    then (Ok tt, {| cur := drop amt (cur r); pending := pending r |})
    else (Panic, r)
|}.

(** ** Lawful buffered readers

    [contents r] are the bytes [r] has still to deliver and [buffered r] how
    many of them the last [fill_buf] exposed. *)
Class BufReadSpec (R : Type) `{BufRead R} := {
  contents : R -> list byte;
  buffered : R -> nat;
  fill_buf_spec : forall r, exists b r',
    fill_buf r = (Ok b, r') /\ contents r' = contents r /\
    (exists q, contents r = b ++ q) /\ buffered r' = length b /\
    (b = [] -> contents r = []);
  consume_spec : forall r n, (n <= buffered r)%nat ->
    exists r', consume n r = (Ok tt, r') /\ contents r' = drop n (contents r);
  read_spec : forall r n, (0 < n)%nat -> exists b r',
    read n r = (Ok b, r') /\ (length b <= n)%nat /\ contents r = b ++ contents r' /\
    (b = [] -> contents r = [])
}.

#[export] Program Instance slice_bufread_spec : BufReadSpec (list byte) := {|
  contents := fun s => s;
  buffered := fun s => length s
|}.
Next Obligation.
  intros r. exists r, r. repeat split; auto. exists []. by rewrite app_nil_r.
Qed.
Next Obligation.
  intros r n Hn. simpl in *. eexists. by case_bools.
Qed.
Next Obligation.
  intros r n Hn. exists (take n r), (drop n r). split; [done|].
  split; [rewrite length_take; lia|]. split; [by rewrite take_drop|].
  intros Hb. apply (f_equal length) in Hb. rewrite length_take in Hb. simpl in Hb.
  destruct r; [done|simpl in Hb; lia].
Qed.

Definition chunked_contents (r : Chunked) : list byte := cur r ++ concat (pending r).

Lemma next_chunk_contents cs : chunked_contents (next_chunk cs) = concat cs.
Proof. induction cs as [|[|b c] cs IH]; simpl; auto. Qed.
Lemma next_chunk_cur_nil cs : cur (next_chunk cs) = [] -> concat cs = [].
Proof. induction cs as [|[|b c] cs IH]; simpl; auto. discriminate. Qed.
Lemma refill_contents r : chunked_contents (refill r) = chunked_contents r.
Proof.
  unfold refill. case_bools.
  rewrite next_chunk_contents. unfold chunked_contents.
  by destruct (cur r).
Qed.
Lemma refill_cur_nil r : cur (refill r) = [] -> chunked_contents r = [].
Proof.
  unfold refill, chunked_contents. destruct (cur r) as [|b c] eqn:Ec; simpl.
  - apply next_chunk_cur_nil.
  - rewrite Ec. discriminate.
Qed.

#[export] Program Instance chunked_bufread_spec : BufReadSpec Chunked := {|
  contents := chunked_contents;
  buffered := fun r => length (cur r)
|}.
Next Obligation.
  intros r. exists (cur (refill r)), (refill r). split; [done|].
  rewrite refill_contents. split; [done|]. split; [|split; [done|apply refill_cur_nil]].
  rewrite <- refill_contents. by eexists.
Qed.
Next Obligation.
  intros r n Hn. simpl in *. eexists. case_bools. split; [done|].
  unfold chunked_contents; simpl. by rewrite drop_app_le.
Qed.
Next Obligation.
  intros r n Hn. eexists _, _. split; [done|].
  split; [rewrite length_take; lia|]. unfold chunked_contents at 2; simpl.
  rewrite app_assoc, take_drop. split; [by rewrite <- refill_contents|].
  intros Hb. apply refill_cur_nil.
  destruct (cur (refill r)) as [|b c]; [done|]. destruct n; [lia|discriminate].
Qed.

(** ** Delivery of chunks

    [delivers r cs]: the next reads of [r] return the chunks [cs], in order,
    provided they stop at chunk boundaries. *)
Class Delivers (R : Type) `{Read R} := {
  delivers : R -> list (list byte) -> Prop;
  delivers_skip : forall r cs, delivers r ([] :: cs) -> delivers r cs;
  delivers_read : forall r cs1 cs2,
    concat cs1 <> [] -> delivers r (cs1 ++ cs2) ->
    exists b b' r', read (length (concat cs1)) r = (Ok b, r') /\
      concat cs1 = b ++ b' /\ b <> [] /\ delivers r' (b' :: cs2)
}.

(** A lawful buffered reader that is used unpacked delivers any split of a
    prefix of its contents. *)
#[export] Program Instance bufread_delivers {R} `{BufReadSpec R} : Delivers R := {|
  delivers := fun r cs => exists q, contents r = concat cs ++ q
|}.
Next Obligation. intros R ? ? ? r cs [q Hq]. by exists q. Qed.
Next Obligation.
  intros R ? ? ? r cs1 cs2 Hne [q Hq].
  destruct (read_spec r (length (concat cs1))) as (b & r' & Hr & Hl & Hc & Hn).
  { destruct (concat cs1); [done|simpl; lia]. }
  rewrite concat_app, <- app_assoc in Hq.
  exists b, (drop (length b) (concat cs1)), r'. split; [done|].
  assert (Hb : take (length b) (concat cs1) = b).
  { apply (f_equal (take (length b))) in Hc. rewrite Hq in Hc.
    rewrite take_app_le in Hc by lia. rewrite Hc. by apply take_app_length. }
  split; [by rewrite <- Hb at 1; rewrite take_drop|].
  split.
  { intros ->. specialize (Hn eq_refl). rewrite Hn in Hq. by destruct (concat cs1). }
  exists q. simpl. rewrite Hq in Hc.
  apply (f_equal (drop (length b))) in Hc.
  rewrite drop_app_le in Hc by lia. rewrite drop_app_length in Hc.
  by rewrite <- Hc, <- app_assoc.
Qed.

Section read_exact.
Context {R} `{Delivers R}.

Lemma delivers_skips (r : R) cs1 cs2 :
  concat cs1 = [] -> delivers r (cs1 ++ cs2) -> delivers r cs2.
Proof.
  induction cs1 as [|c cs1 IH]; simpl; [done|].
  intros Hc Hd. apply app_eq_nil in Hc as [-> Hc]. apply IH; [done|].
  by apply delivers_skip.
Qed.

Lemma read_exact_loop_delivers fuel : forall n acc (r : R) cs1 cs2,
  n = length (concat cs1) -> (n < fuel)%nat -> delivers r (cs1 ++ cs2) ->
  exists r', read_exact_loop fuel n acc r = (Ok (acc ++ concat cs1), r') /\ delivers r' cs2.
Proof.
  induction fuel as [|fuel IH]; intros n acc r cs1 cs2 Hn Hf Hd; [lia|].
  cbn [read_exact_loop]. destruct (Nat.eqb_spec n 0) as [->|Hn0].
  - exists r. apply symmetry, nil_length_inv in Hn. rewrite Hn, app_nil_r.
    split; [done|]. by eapply delivers_skips.
  - destruct (delivers_read r cs1 cs2) as (b & b' & r' & Hr & Hc & Hb & Hd'); [|done|].
    { intros E. rewrite E in Hn. simpl in Hn. lia. }
    subst n. unfold bind; simpl. rewrite Hr.
    destruct b as [|x b]; [done|]. cbn [length Nat.eqb].
    assert (Hlen : length (concat cs1) = (S (length b) + length b')%nat).
    { rewrite Hc, length_app. done. }
    destruct (IH (length (concat cs1) - S (length b))%nat (acc ++ x :: b) r' [b'] cs2)
      as (r'' & Hr' & Hd''); [simpl; rewrite app_nil_r; lia|lia|done|].
    exists r''. split; [|done]. rewrite Hr'. simpl. rewrite app_nil_r, Hc.
    by rewrite <- app_assoc.
Qed.

Lemma read_exact_delivers (r : R) cs1 cs2 :
  delivers r (cs1 ++ cs2) ->
  exists r', read_exact (length (concat cs1)) r = (Ok (concat cs1), r') /\ delivers r' cs2.
Proof.
  exact (read_exact_loop_delivers (S (length (concat cs1))) _ [] r cs1 cs2 eq_refl
           (Nat.lt_succ_diag_r _)).
Qed.
End read_exact.

(** ** Writers that never fail

    A [Sink] appends what it is given; [sink_bytes] are the bytes it holds. *)
Class Sink (W : Type) `{Write W} := {
  sink_bytes : W -> list byte;
  sink_spec : forall bs w, exists w',
    write_all bs w = (Ok tt, w') /\ sink_bytes w' = sink_bytes w ++ bs
}.

#[export] Program Instance vec_sink : Sink Vec := {| sink_bytes := vec |}.
Next Obligation. intros bs w. by eexists. Qed.

(** A writer that stores an encoding of the word-aligned chunks it is given:
    [encode] is what a chunk becomes on its way to the sink. *)
Class EncodedWrite (W : Type) `{Write W} := {
  written : W -> list byte;
  encode : list byte -> list byte;
  write_all_spec : forall bs w, (length bs mod 8 = 0)%nat ->
    exists w', write_all bs w = (Ok tt, w') /\ written w' = written w ++ encode bs
}.

#[export] Program Instance sink_encoded {W} `{Sink W} : EncodedWrite W := {|
  written := sink_bytes;
  encode := fun bs => bs
|}.
Next Obligation. intros W ? ? bs w _. apply sink_spec. Qed.

(** A sequence of [write_all] calls. *)
Fixpoint write_chunks {W} `{Write W} (cs : list (list byte)) : ST W unit :=
  match cs with
  | [] => ret tt
  | c :: cs => write_all c ;; write_chunks cs
  end.

Definition aligned (c : list byte) : Prop := (length c mod 8 = 0)%nat.

Lemma aligned_app c1 c2 : aligned c1 -> aligned c2 -> aligned (c1 ++ c2).
Proof.
  unfold aligned. rewrite length_app. intros H1 H2.
  by rewrite Nat.Div0.add_mod, H1, H2.
Qed.
Lemma aligned_concat cs : Forall aligned cs -> aligned (concat cs).
Proof. induction 1; simpl; [done|by apply aligned_app]. Qed.

Lemma write_chunks_spec {W} `{EncodedWrite W} cs w :
  Forall aligned cs ->
  exists w', write_chunks cs w = (Ok tt, w') /\
             written w' = written w ++ concat (map encode cs).
Proof.
  intros Hcs. revert w. induction Hcs as [|c cs Hc _ IH]; intros w; simpl.
  - exists w. by rewrite app_nil_r.
  - destruct (write_all_spec c w Hc) as (w1 & Hw1 & Hs1). rewrite Hw1.
    destruct (IH w1) as (w2 & Hw2 & Hs2). exists w2.
    split; [done|]. by rewrite Hs2, Hs1, app_assoc.
Qed.

Lemma write_chunks_app {W} `{Write W} cs1 cs2 (w : W) :
  write_chunks (cs1 ++ cs2) w = bind (write_chunks cs1) (fun _ => write_chunks cs2) w.
Proof.
  revert w. induction cs1 as [|c cs1 IH]; intros w; [done|].
  cbn [write_chunks app]. rewrite ST_bind_assoc.
  unfold bind at 1 2; simpl. destruct (write_all c w) as [[] w']; auto.
Qed.
