(* ===== verification/Packed.v ===== *)
(** * The packed encoding: capnp/src/serialize_packed.rs

    [PackedRead] and [PackedWrite] as the code has them: pointers into the
    input buffer become indices, every dereference and every unchecked array
    access is guarded (out of range is [UB]), the [assert!]s are kept.  The
    two loops carry fuel; [PackedProofs] proves it is always enough. *)

From S2P Require Import Prelude.
From S2P Require Import Io.
(** [1u8 << i & tag != 0] *)
Definition tag_bit (tag : Z) (i : nat) : bool := Z.testbit tag (Z.of_nat i).

(** Reads [*p] for a pointer [i] bytes into [b]. *)
Definition deref (b : list byte) (i : nat) : outcome byte :=
  match b !! i with Some x => Ok x | None => UB end.
(** Reads [n] bytes from [i]. *)
Definition deref_slice (b : list byte) (i n : nat) : outcome (list byte) :=
  if (i + n <=? length b)%nat then Ok (take n (drop i b)) else UB.

(** ** PackedRead *)

Record PackedRead (R : Type) := { inner : R }.
Arguments inner {R} _.
Arguments Build_PackedRead {R} _.

(** The input pointers of [read]: [rbuf] is the buffer that starts at
    [buffer_begin] (so [size] is its length and [in_end] its end), [in_ptr]
    the offset of [in_ptr] in it. *)
Record cursor := { rbuf : list byte; in_ptr : nat }.

Definition in_avail (c : cursor) : nat := length (rbuf c) - in_ptr c.
Definition advance (n : nat) (c : cursor) : cursor :=
  {| rbuf := rbuf c; in_ptr := in_ptr c + n |}.

(** Stores [b] at [*out]; [out] holds the bytes stored so far. *)
Definition put (len : nat) (out : list byte) (b : byte) : outcome (list byte) :=
  if (length out <? len)%nat then Ok (out ++ [b]) else UB.
Definition put_slice (len : nat) (out bs : list byte) : outcome (list byte) :=
  if (length out + length bs <=? len)%nat then Ok (out ++ bs) else UB.

Section read.
Context {R : Type} `{BufRead R}.

(** [get_read_buffer] *)
Definition get_read_buffer : ST R cursor :=
  b ← fill_buf; ret {| rbuf := b; in_ptr := 0 |}.

(** The macro [refresh_buffer!] *)
Definition refresh_buffer (c : cursor) : ST R cursor :=
  consume (length (rbuf c)) ;;
  c ← get_read_buffer;
  if (length (rbuf c) =? 0)%nat then fails PrematureEndOfPackedInput else ret c.

(** The slow decoding of a word: bits [i .. i+n) of the tag. *)
Fixpoint slow_word (len : nat) (tag : Z) (n i : nat) (c : cursor) (out : list byte)
    : ST R (cursor * list byte) :=
  match n with
  | O => ret (c, out)
  | S n =>
      if tag_bit tag i then
        c ← (if (in_avail c =? 0)%nat then refresh_buffer c else ret c);
        b ← lift (deref (rbuf c) (in_ptr c));
        out ← lift (put len out b);
        slow_word len tag n (S i) (advance 1 c) out
      else
        out ← lift (put len out Byte.x00);
        slow_word len tag n (S i) c out
  end.

(** The fast decoding, without bounds checks:
    the input byte is masked with [(-i8::from(is_nonzero)) as u8]. *)
Fixpoint fast_word (len : nat) (tag : Z) (n i : nat) (c : cursor) (out : list byte)
    : ST R (cursor * list byte) :=
  match n with
  | O => ret (c, out)
  | S n =>
      let is_nonzero := tag_bit tag i in
      b ← lift (deref (rbuf c) (in_ptr c));
      out ← lift (put len out (byte.of_Z (Z.land (byte.unsigned b) (wrap8 (- Z.b2z is_nonzero)))));
      fast_word len tag n (S i) (advance (if is_nonzero then 1 else 0) c) out
  end.

(** The tag and the word it describes. *)
Definition read_word (len : nat) (c : cursor) (out : list byte)
    : ST R (Z * cursor * list byte) :=
  tagb ← lift (deref (rbuf c) (in_ptr c));
  let tag := byte.unsigned tagb in
  let slow := (in_avail c <? 10)%nat in
  let c := advance 1 c in
  if slow then
    '(c, out) ← slow_word len tag 8 0 c out;
    c ← (if (in_avail c =? 0)%nat && ((tag =? 0) || (tag =? 255)) then refresh_buffer c
         else ret c);
    ret (tag, c, out)
  else
    '(c, out) ← fast_word len tag 8 0 c out;
    ret (tag, c, out).

(** The run-length byte that follows a tag 0x00 or 0xff. *)
Definition read_run_length (len : nat) (c : cursor) (out : list byte) : ST R (nat * cursor) :=
  lift (rust_assert (0 <? in_avail c)%nat) ;;
  b ← lift (deref (rbuf c) (in_ptr c));
  let run_length := (Z.to_nat (byte.unsigned b) * 8)%nat in
  if (len - length out <? run_length)%nat
  then fails PackedInputDidNotEndCleanlyOnASegmentBoundary
  else ret (run_length, advance 1 c).

(** The end of a round: [inr] is [return Ok(len)], [inl] goes round again. *)
Definition end_round (len : nat) (c : cursor) (out : list byte)
    : ST R (cursor * list byte + list byte) :=
  if (length out =? len)%nat then consume (in_ptr c) ;; ret (inr out)
  else ret (inl (c, out)).

(** The run of uncompressed words after a tag 0xff. *)
Definition literal_run (len run_length : nat) (c : cursor) (out : list byte)
    : ST R (cursor * list byte + list byte) :=
  let in_remaining := in_avail c in
  if (run_length <=? in_remaining)%nat then
    bs ← lift (deref_slice (rbuf c) (in_ptr c) run_length);
    out ← lift (put_slice len out bs);
    end_round len (advance run_length c) out
  else
    bs ← lift (deref_slice (rbuf c) (in_ptr c) in_remaining);
    out ← lift (put_slice len out bs);
    consume (length (rbuf c)) ;;
    bs ← read_exact (run_length - in_remaining);
    out ← lift (put_slice len out bs);
    if (length out =? len)%nat then ret (inr out)
    else c ← get_read_buffer; ret (inl (c, out)).

(** The body of [loop]. *)
Definition read_step (len : nat) (c : cursor) (out : list byte)
    : ST R (cursor * list byte + list byte) :=
  lift (rust_assert (length out mod 8 =? 0)%nat) ;;
  if (in_avail c =? 0)%nat then c ← refresh_buffer c; ret (inl (c, out))
  else
    '(tag, c, out) ← read_word len c out;
    if tag =? 0 then
      '(run_length, c) ← read_run_length len c out;
      out ← lift (put_slice len out (repeat Byte.x00 run_length));
      end_round len c out
    else if tag =? 255 then
      '(run_length, c) ← read_run_length len c out;
      literal_run len run_length c out
    else end_round len c out.

Fixpoint read_loop (fuel len : nat) (c : cursor) (out : list byte) : ST R (list byte) :=
  match fuel with
  | O => lift OutOfFuel
  | S fuel =>
      r ← read_step len c out;
      match r with
      | inr out => ret out
      | inl (c, out) => read_loop fuel len c out
      end
  end.

(** A round that does not fill the buffer stores at least one word, and
    each word needs at most one round more to refresh the buffer. *)
Definition read_fuel (len : nat) : nat := len + 2.

(** [PackedRead::read], on the reader it wraps *)
Definition packed_read (len : nat) : ST R (list byte) :=
  if (len =? 0)%nat then ret []
  else
    lift (rust_assert (len mod 8 =? 0)%nat) ;;
    c ← get_read_buffer;
    if (length (rbuf c) =? 0)%nat then ret []
    else read_loop (read_fuel len) len c [].
End read.

#[export] Instance packed_read_instance {R} `{BufRead R} : Read (PackedRead R) :=
  fun n r => let '(o, r) := packed_read n (inner r) in (o, {| inner := r |}).

(** ** PackedWrite *)

Record PackedWrite (W : Type) := { sink : W }.
Arguments sink {W} _.
Arguments Build_PackedWrite {W} _.

(** The local variables of [write_all]: the 64-byte buffer and its index. *)
Record wbuf := { buf : list byte; buf_idx : nat }.

(** [*buf.get_unchecked_mut(i) = b] *)
Definition set_unchecked (b : list byte) (i : nat) (x : byte) : outcome (list byte) :=
  if (i <? length b)%nat then Ok (<[i := x]> b) else UB.

Definition is_zero_byte (b : byte) : bool := byte.unsigned b =? 0.
Definition is_zero_word (w : list byte) : bool := forallb is_zero_byte w.

Section write.
Context {W : Type} `{Write W}.

(** One of the eight unrolled steps, [n] of them from bit [i]: copy the
    byte, keep it only if it is not zero, and set its bit in the tag. *)
Fixpoint pack_bytes (inb : list byte) (n i p : nat) (tag : Z) (s : wbuf)
    : outcome (Z * wbuf) :=
  match n with
  | O => Ok (tag, s)
  | S n =>
      b ← deref inb p;
      let bit := Z.b2z (negb (is_zero_byte b)) in
      bf ← set_unchecked (buf s) (buf_idx s) b;
      pack_bytes inb n (S i) (S p) (Z.lor tag (Z.shiftl bit (Z.of_nat i)))
        {| buf := bf; buf_idx := buf_idx s + Z.to_nat bit |}
  end.

(** [while in_word < limit && *in_word == [0; 8]]: words are counted from
    [p]; [n] is [limit - in_word]. *)
Fixpoint count_zero_words (inb : list byte) (n p : nat) : outcome nat :=
  match n with
  | O => Ok 0%nat
  | S n =>
      w ← deref_slice inb p 8;
      if is_zero_word w then k ← count_zero_words inb n (p + 8); Ok (S k) else Ok 0%nat
  end.

Definition zero_bytes (w : list byte) : nat := length (filter (fun b => Is_true (is_zero_byte b)) w).

(** [while in_ptr < limit]: the words with at most one zero byte. *)
Fixpoint count_verbatim_words (inb : list byte) (n p : nat) : outcome nat :=
  match n with
  | O => Ok 0%nat
  | S n =>
      w ← deref_slice inb p 8;
      if (2 <=? zero_bytes w)%nat then Ok 0%nat
      else k ← count_verbatim_words inb n (p + 8); Ok (S k)
  end.

(** [self.inner.write_all(&buf[..buf_idx])] *)
Definition flush (s : wbuf) : ST W unit := write_all (take (buf_idx s) (buf s)).

(** The body of [while in_ptr < in_end]; [p] is [in_ptr]. *)
Definition write_step (inb : list byte) (p : nat) (s : wbuf) : ST W (nat * wbuf) :=
  s ← (if (length (buf s) <? buf_idx s + 10)%nat
       then flush s ;; ret {| buf := buf s; buf_idx := 0 |} else ret s);
  let tag_pos := buf_idx s in
  '(tag, s) ← lift (pack_bytes inb 8 0 p 0 {| buf := buf s; buf_idx := buf_idx s + 1 |});
  let p := (p + 8)%nat in
  bf ← lift (set_unchecked (buf s) tag_pos (byte.of_Z tag));
  let s := {| buf := bf; buf_idx := buf_idx s |} in
  let words := Nat.min 255 ((length inb - p) / 8) in
  if tag =? 0 then
    k ← lift (count_zero_words inb words p);
    bf ← lift (set_unchecked (buf s) (buf_idx s) (byte.of_Z (Z.of_nat k)));
    ret ((p + k * 8)%nat, {| buf := bf; buf_idx := buf_idx s + 1 |})
  else if tag =? 255 then
    let rest := Nat.min (255 * 8) (length inb - p) in
    k ← lift (count_verbatim_words inb ((rest + 7) / 8) p);
    bf ← lift (set_unchecked (buf s) (buf_idx s) (byte.of_Z (Z.of_nat k)));
    flush {| buf := bf; buf_idx := buf_idx s + 1 |} ;;
    run ← lift (deref_slice inb p (k * 8));
    write_all run ;;
    ret ((p + k * 8)%nat, {| buf := bf; buf_idx := 0 |})
  else ret (p, s).

Fixpoint write_loop (fuel : nat) (inb : list byte) (p : nat) (s : wbuf) : ST W unit :=
  if (p <? length inb)%nat then
    match fuel with
    | O => lift OutOfFuel
    | S fuel => '(p, s) ← write_step inb p s; write_loop fuel inb p s
    end
  else flush s.

(** [PackedWrite::write_all], on the writer it wraps.  Every round consumes
    at least one word. *)
Definition packed_write (inb : list byte) : ST W unit :=
  write_loop (length inb) inb 0 {| buf := repeat Byte.x00 64; buf_idx := 0 |}.
End write.

#[export] Instance packed_write_instance {W} `{Write W} : Write (PackedWrite W) :=
  fun bs w => let '(o, w) := packed_write bs (sink w) in (o, {| sink := w |}).
