(* ===== verification/PackedSpec.v ===== *)
(** * Specification of the packed encoding, and [PackedRead] implements it

    [unpack] is the decoder as a function on a list of bytes: no buffers, no
    refills.  [packed_read_refines] shows that [PackedRead::read] computes it
    over every lawful [BufRead], however the input is cut into buffers. *)

From S2P Require Import Prelude Io Packed.

(** ** The decoder *)

(** The word described by bits [i .. i+n) of a tag. *)
Fixpoint spec_word (tag : Z) (n i : nat) (inp : list byte) : option (list byte * list byte) :=
  match n with
  | O => Some ([], inp)
  | S n =>
      if tag_bit tag i then
        match inp with
        | [] => None
        | b :: inp => match spec_word tag n (S i) inp with
                      | Some (w, inp) => Some (b :: w, inp) | None => None end
        end
      else match spec_word tag n (S i) inp with
           | Some (w, inp) => Some (Byte.x00 :: w, inp) | None => None end
  end.

(** One group: a tag, its word, and the run that follows a tag 0x00 or 0xff.
    [n] is the number of bytes still wanted; a run may not exceed it. *)
Definition unpack_group (n : nat) (inp : list byte) : outcome (list byte * list byte) :=
  match inp with
  | [] => Err PrematureEndOfPackedInput
  | tagb :: inp =>
      let tag := byte.unsigned tagb in
      match spec_word tag 8 0 inp with
      | None => Err PrematureEndOfPackedInput
      | Some (w, inp) =>
          if (tag =? 0) || (tag =? 255) then
            match inp with
            | [] => Err PrematureEndOfPackedInput
            | kb :: inp =>
                let run := (Z.to_nat (byte.unsigned kb) * 8)%nat in
                if (n - 8 <? run)%nat then Err PackedInputDidNotEndCleanlyOnASegmentBoundary
                else if tag =? 0 then Ok (w ++ repeat Byte.x00 run, inp)
                else if (length inp <? run)%nat then Err FailedToFillTheWholeBuffer
                else Ok (w ++ take run inp, drop run inp)
            end
          else Ok (w, inp)
      end
  end.

(** Unpacks exactly [n] bytes; returns them and the rest of the input. *)
Fixpoint unpack_fuel (fuel n : nat) (inp : list byte) : outcome (list byte * list byte) :=
  match fuel with
  | O => OutOfFuel
  | S fuel =>
      if (n =? 0)%nat then Ok ([], inp)
      else
        '(g, inp) ← unpack_group n inp;
        '(o, inp) ← unpack_fuel fuel (n - length g) inp;
        Ok (g ++ o, inp)
  end.
Definition unpack (n : nat) (inp : list byte) : outcome (list byte * list byte) :=
  unpack_fuel (S n) n inp.

Lemma spec_word_length tag n : forall i inp w rest,
  spec_word tag n i inp = Some (w, rest) -> length w = n.
Proof.
  induction n as [|n IH]; intros i inp w rest; cbn [spec_word].
  - by intros [= <- <-].
  - repeat case_match; intros [= <- <-]; simpl; eauto.
Qed.

Lemma unpack_group_length n inp g rest :
  unpack_group n inp = Ok (g, rest) ->
  exists m, length g = (8 * S m)%nat /\ ((8 <= n)%nat -> (length g <= n)%nat).
Proof.
  unfold unpack_group. destruct inp as [|tagb inp]; [done|].
  destruct (spec_word _ 8 0 inp) as [[w inp']|] eqn:Ew; [|done].
  apply spec_word_length in Ew.
  destruct (_ || _); [|intros [= <- <-]; exists 0%nat; split; [done|by rewrite Ew]].
  destruct inp' as [|kb inp']; [done|]. set (k := Z.to_nat (byte.unsigned kb)).
  destruct (Nat.ltb_spec (n - 8) (k * 8)) as [|Hk]; [done|].
  destruct (byte.unsigned tagb =? 0).
  - intros [= <- <-]. exists k. rewrite length_app, repeat_length. lia.
  - destruct (Nat.ltb_spec (length inp') (k * 8)) as [|Hi]; [done|].
    intros [= <- <-]. exists k. rewrite length_app, length_take. lia.
Qed.

Lemma unpack_fuel_irrel f1 : forall f2 n inp,
  (n < f1)%nat -> (n < f2)%nat -> unpack_fuel f1 n inp = unpack_fuel f2 n inp.
Proof.
  induction f1 as [|f1 IH]; intros [|f2] n inp H1 H2; try lia.
  cbn [unpack_fuel]. destruct (Nat.eqb_spec n 0) as [|Hn]; [done|].
  destruct (unpack_group n inp) as [[g rest]| | | |] eqn:Eg; simpl; try done.
  apply unpack_group_length in Eg as (m & Hm & _). by rewrite (IH f2) by lia.
Qed.

Lemma unpack_unfold n inp : (0 < n)%nat ->
  unpack n inp = ('(g, inp) ← unpack_group n inp;
                  '(o, inp) ← unpack (n - length g) inp;
                  Ok (g ++ o, inp)).
Proof.
  intros Hn. unfold unpack at 1. cbn [unpack_fuel].
  destruct (Nat.eqb_spec n 0) as [|_]; [lia|].
  destruct (unpack_group n inp) as [[g rest]| | | |] eqn:Eg; simpl; try done.
  apply unpack_group_length in Eg as (m & Hm & _). unfold unpack.
  by rewrite (unpack_fuel_irrel n (S (n - length g))) by lia.
Qed.

Lemma unpack_0 inp : unpack 0 inp = Ok ([], inp).
Proof. done. Qed.

(** ** Cursors of a lawful reader *)

Section refinement.
Context {R : Type} `{BufReadSpec R}.

(** The cursor [c] points into what the last [fill_buf] of [r] returned. *)
Definition cursor_ok (r : R) (c : cursor) : Prop :=
  (exists q, contents r = rbuf c ++ q) /\ buffered r = length (rbuf c) /\
  (in_ptr c <= length (rbuf c))%nat.

(** The input the decoder has still to see. *)
Definition remaining (r : R) (c : cursor) : list byte := drop (in_ptr c) (contents r).

Lemma cursor_ok_advance r c n :
  cursor_ok r c -> (n <= in_avail c)%nat ->
  cursor_ok r (advance n c) /\ remaining r (advance n c) = drop n (remaining r c).
Proof.
  intros (Hq & Hb & Hp) Hn. unfold in_avail in Hn.
  split; [split; [done|split; [done|simpl; lia]]|].
  unfold remaining; simpl. by rewrite drop_drop.
Qed.

Lemma remaining_buf r c : cursor_ok r c ->
  exists q, remaining r c = drop (in_ptr c) (rbuf c) ++ q /\
            length (drop (in_ptr c) (rbuf c)) = in_avail c.
Proof.
  intros ((q & Hq) & Hb & Hp). exists q. unfold remaining.
  rewrite Hq, drop_app_le by lia. split; [done|]. by rewrite length_drop.
Qed.

Lemma deref_spec r c : cursor_ok r c -> (0 < in_avail c)%nat ->
  exists b q, remaining r c = b :: q /\ deref (rbuf c) (in_ptr c) = Ok b.
Proof.
  intros Hc Ha. destruct (remaining_buf r c Hc) as (q & Hr & Hl).
  destruct (drop (in_ptr c) (rbuf c)) as [|b t] eqn:E; [simpl in Hl; lia|].
  exists b, (t ++ q). split; [done|].
  unfold deref. apply (f_equal (fun l : list byte => l !! 0%nat)) in E.
  rewrite lookup_drop, Nat.add_0_r in E. by rewrite E.
Qed.

Lemma deref_slice_spec r c n : cursor_ok r c -> (n <= in_avail c)%nat ->
  deref_slice (rbuf c) (in_ptr c) n = Ok (take n (remaining r c)).
Proof.
  intros Hc Hn. destruct (remaining_buf r c Hc) as (q & Hr & Hl).
  destruct Hc as (_ & _ & Hp). unfold deref_slice.
  destruct (Nat.leb_spec (in_ptr c + n) (length (rbuf c))); [|unfold in_avail in Hn; lia].
  f_equal. rewrite Hr, take_app_le by lia. done.
Qed.

(** Running [c] from [r]: the outcome and the final state. *)
Definition yields {A} (m : ST R A) (r : R) (P : A -> R -> Prop) : Prop :=
  exists a r', m r = (Ok a, r') /\ P a r'.
Definition rejects {A} (m : ST R A) (r : R) (e : ErrorKind) : Prop :=
  exists r', m r = (Err e, r').

Lemma yields_bind {A B} (m : ST R A) (k : A -> ST R B) r a r' P :
  m r = (Ok a, r') -> yields (k a) r' P -> yields (bind m k) r P.
Proof. intros Hm (b & r'' & Hk & HP). exists b, r''. split; [|done]. by rewrite (ST_bind_ok _ _ _ _ _ Hm). Qed.
Lemma rejects_bind {A B} (m : ST R A) (k : A -> ST R B) r a r' e :
  m r = (Ok a, r') -> rejects (k a) r' e -> rejects (bind m k) r e.
Proof. intros Hm (r'' & Hk). exists r''. by rewrite (ST_bind_ok _ _ _ _ _ Hm). Qed.
Lemma rejects_here {A B} (m : ST R A) (k : A -> ST R B) r e :
  rejects m r e -> rejects (bind m k) r e.
Proof. intros (r' & Hm). exists r'. unfold bind; simpl. by rewrite Hm. Qed.

(** What a run of [m] that leaves output [o] and input [rest] looks like,
    given what the decoder says. *)
Lemma get_read_buffer_spec r :
  yields get_read_buffer r (fun c r' =>
    cursor_ok r' c /\ remaining r' c = contents r /\ in_ptr c = 0%nat /\
    (rbuf c = [] -> contents r = [])).
Proof.
  destruct (fill_buf_spec r) as (b & r' & Hf & Hc & (q & Hq) & Hb & Hn).
  unfold get_read_buffer. eapply yields_bind; [done|]. eexists _, _. split; [done|].
  repeat split; simpl; try done; try lia; unfold remaining; simpl; rewrite ?drop_0; try done.
  exists q. by rewrite Hc.
Qed.

Lemma refresh_buffer_spec r c : cursor_ok r c -> in_avail c = 0%nat ->
  match remaining r c with
  | [] => rejects (refresh_buffer c) r PrematureEndOfPackedInput
  | _ => yields (refresh_buffer c) r (fun c' r' =>
           cursor_ok r' c' /\ remaining r' c' = remaining r c /\ (0 < in_avail c')%nat)
  end.
Proof.
  intros ((q & Hq) & Hb & Hp) Ha. unfold in_avail in Ha.
  destruct (consume_spec r (length (rbuf c))) as (r1 & Hr1 & Hc1); [lia|].
  destruct (get_read_buffer_spec r1) as (c' & r2 & Hg & Hok & Hrem & Hp' & Hnil).
  assert (Hremc : remaining r c = contents r1).
  { unfold remaining. rewrite Hc1. f_equal. lia. }
  destruct (rbuf c') as [|b l] eqn:Eb.
  - rewrite Hremc, (Hnil eq_refl). unfold refresh_buffer.
    eapply rejects_bind; [done|]. eapply rejects_bind; [done|]. rewrite Eb. by eexists.
  - destruct (remaining r c) as [|x rest] eqn:Er.
    { exfalso. destruct Hok as ((q' & Hq') & _).
      unfold remaining in Hrem. rewrite Hp', drop_0, Hq', Eb, <- Hremc in Hrem. done. }
    unfold refresh_buffer. eapply yields_bind; [done|]. eapply yields_bind; [done|].
    rewrite Eb. eexists _, _. split; [done|]. split; [done|].
    split; [by rewrite Hrem, <- Hremc|]. unfold in_avail. rewrite Eb, Hp'. simpl. lia.
Qed.

Lemma put_ok len out b : (length out < len)%nat -> put len out b = Ok (out ++ [b]).
Proof. intros Hl. unfold put. case_bools. Qed.

Lemma slow_word_spec len tag n : forall i c out r,
  cursor_ok r c -> (length out + n <= len)%nat ->
  match spec_word tag n i (remaining r c) with
  | Some (w, rest) => yields (slow_word len tag n i c out) r (fun p r' =>
      cursor_ok r' p.1 /\ remaining r' p.1 = rest /\ p.2 = out ++ w)
  | None => rejects (slow_word len tag n i c out) r PrematureEndOfPackedInput
  end.
Proof.
  induction n as [|n IH]; intros i c out r Hc Hl; cbn [spec_word slow_word].
  { eexists _, _. split; [done|]. simpl. by rewrite app_nil_r. }
  destruct (tag_bit tag i).
  - (* the byte is present: refill if needed, then copy it *)
    assert (Hfill : match remaining r c with
      | [] => rejects (if (in_avail c =? 0)%nat then refresh_buffer c else ret c) r
                PrematureEndOfPackedInput
      | _ => yields (if (in_avail c =? 0)%nat then refresh_buffer c else ret c) r
               (fun c' r' => cursor_ok r' c' /\ remaining r' c' = remaining r c /\
                             (0 < in_avail c')%nat)
      end).
    { destruct (Nat.eqb_spec (in_avail c) 0); [by apply refresh_buffer_spec|].
      destruct (deref_spec r c Hc) as (b & q & Hr & _); [lia|]. rewrite Hr.
      eexists _, _. split; [done|]. split; [done|]. split; [done|lia]. }
    destruct (remaining r c) as [|b inp] eqn:Er; [by apply rejects_here|].
    destruct Hfill as (c' & r' & Hfill & Hc' & Hr' & Ha').
    destruct (deref_spec r' c' Hc' Ha') as (b' & q & Hrb & Hd).
    rewrite Hr' in Hrb. injection Hrb as <- <-.
    destruct (cursor_ok_advance r' c' 1 Hc' Ha') as (Hc'' & Hr'').
    rewrite Hr' in Hr''. simpl in Hr''. rewrite drop_0 in Hr''.
    specialize (IH (S i) (advance 1 c') (out ++ [b]) r' Hc'').
    rewrite length_app, Hr'' in IH. specialize (IH ltac:(simpl; lia)).
    destruct (spec_word tag n (S i) inp) as [[w rest]|].
    + destruct IH as (p & r3 & Hrun & Hp1 & Hp2 & Hp3).
      eapply yields_bind; [done|].
      eapply yields_bind; [by unfold lift; rewrite Hd|].
      eapply yields_bind; [by unfold lift; rewrite put_ok by lia|].
      exists p, r3. rewrite Hp3, <- app_assoc. done.
    + eapply rejects_bind; [done|].
      eapply rejects_bind; [by unfold lift; rewrite Hd|].
      eapply rejects_bind; [by unfold lift; rewrite put_ok by lia|done].
  - specialize (IH (S i) c (out ++ [Byte.x00]) r Hc).
    rewrite length_app in IH. specialize (IH ltac:(simpl; lia)).
    destruct (spec_word tag n (S i) _) as [[w rest]|].
    + destruct IH as (p & r3 & Hrun & Hp1 & Hp2 & Hp3).
      eapply yields_bind; [by unfold lift; rewrite put_ok by lia|].
      exists p, r3. rewrite Hp3, <- app_assoc. done.
    + eapply rejects_bind; [by unfold lift; rewrite put_ok by lia|done].
Qed.

Lemma masked_byte b (k : bool) :
  byte.of_Z (Z.land (byte.unsigned b) (wrap8 (- Z.b2z k))) = if k then b else Byte.x00.
Proof.
  destruct k; [|by rewrite Z.land_0_r].
  change (wrap8 (- Z.b2z true)) with (Z.ones 8).
  rewrite Z.land_ones, Z.mod_small by (try apply byte.unsigned_range; lia).
  apply byte.of_Z_unsigned.
Qed.

Lemma fast_word_spec len tag n : forall i c out r,
  cursor_ok r c -> (length out + n <= len)%nat -> (n <= in_avail c)%nat ->
  exists w rest, spec_word tag n i (remaining r c) = Some (w, rest) /\
    exists c', fast_word len tag n i c out r = (Ok (c', out ++ w), r) /\
      cursor_ok r c' /\ remaining r c' = rest /\ (in_avail c <= in_avail c' + n)%nat.
Proof.
  induction n as [|n IH]; intros i c out r Hc Hl Ha; cbn [spec_word fast_word].
  { exists [], (remaining r c). split; [done|]. exists c. rewrite app_nil_r. split; [done|].
    split; [done|]. split; [done|lia]. }
  destruct (deref_spec r c Hc ltac:(lia)) as (b & q & Hr & Hd).
  set (k := tag_bit tag i).
  destruct (cursor_ok_advance r c (if k then 1 else 0) Hc) as (Hc' & Hr'); [destruct k; lia|].
  destruct (IH (S i) (advance (if k then 1 else 0) c) (out ++ [if k then b else Byte.x00]) r Hc')
    as (w & rest & Hw & c' & Hrun & Hc'' & Hrest & Hav).
  { rewrite length_app. simpl. lia. }
  { unfold in_avail, advance in *; simpl. destruct k; lia. }
  exists ((if k then b else Byte.x00) :: w), rest. split.
  { rewrite Hr' in Hw. destruct k; rewrite Hr in *; simpl in Hw; rewrite ?drop_0 in Hw.
    - by rewrite Hw. - by rewrite Hw. }
  exists c'. split; [|split; [done|split; [done|]]].
  - rewrite (lift_bind_ok _ _ _ _ Hd), masked_byte. fold k.
    rewrite (lift_bind_ok _ _ _ _ (put_ok len out _ ltac:(lia))), Hrun, <- app_assoc. done.
  - unfold in_avail, advance in *; simpl in *. destruct k; lia.
Qed.

(** The tags that a run follows. *)
Abbreviation has_run tag := ((tag =? 0) || (tag =? 255)).

Lemma read_word_spec len c out r :
  cursor_ok r c -> (0 < in_avail c)%nat -> (length out + 8 <= len)%nat ->
  exists tagb inp, remaining r c = tagb :: inp /\
  let tag := byte.unsigned tagb in
  match spec_word tag 8 0 inp with
  | None => rejects (read_word len c out) r PrematureEndOfPackedInput
  | Some (w, rest) =>
      (has_run tag = true /\ rest = [] /\
         rejects (read_word len c out) r PrematureEndOfPackedInput) \/
      yields (read_word len c out) r (fun p r' =>
        p.1.1 = tag /\ cursor_ok r' p.1.2 /\ remaining r' p.1.2 = rest /\
        p.2 = out ++ w /\ (has_run tag = true -> (0 < in_avail p.1.2)%nat))
  end.
Proof.
  intros Hc Ha Hl. destruct (deref_spec r c Hc Ha) as (tagb & inp & Hr & Hd).
  exists tagb, inp. split; [done|]. intros tag.
  destruct (cursor_ok_advance r c 1 Hc Ha) as (Hc1 & Hr1).
  rewrite Hr in Hr1. simpl in Hr1. rewrite drop_0 in Hr1. unfold read_word, yields, rejects.
  rewrite (lift_bind_ok _ _ _ _ Hd). fold tag.
  destruct (Nat.ltb_spec (in_avail c) 10) as [Hslow|Hfast].
  - pose proof (slow_word_spec len tag 8 0 (advance 1 c) out r Hc1 Hl) as Hw.
    rewrite Hr1 in Hw. destruct (spec_word tag 8 0 inp) as [[w rest]|]; [|by apply rejects_here].
    destruct Hw as ([c2 out2] & r2 & Hrun & Hc2 & Hr2 & Ho). cbn [fst snd] in *. subst out2.
    rewrite (ST_bind_ok _ _ _ _ _ Hrun).
    destruct (Nat.eqb_spec (in_avail c2) 0) as [E0|E0]; cbn [andb].
    + destruct (has_run tag) eqn:Ehr.
      * pose proof (refresh_buffer_spec r2 c2 Hc2 E0) as Hf. rewrite Hr2 in Hf.
        destruct rest as [|b rest]; [left; split; [done|split; [done|by apply rejects_here]]|right].
        destruct Hf as (c3 & r3 & Hf & Hc3 & Hr3 & Ha3).
        rewrite (ST_bind_ok _ _ _ _ _ Hf). by exists (tag, c3, out ++ w), r3.
      * right. by exists (tag, c2, out ++ w), r2.
    + right. exists (tag, c2, out ++ w), r2. repeat split; simpl; try done; try apply Hc2.
      intros _. lia.
  - destruct (fast_word_spec len tag 8 0 (advance 1 c) out r Hc1 Hl)
      as (w & rest & Hw & c2 & Hrun & Hc2 & Hr2 & Hav).
    { unfold in_avail, advance in *; cbn [rbuf in_ptr] in *. lia. }
    rewrite Hr1 in Hw. rewrite Hw. right. rewrite (ST_bind_ok _ _ _ _ _ Hrun).
    exists (tag, c2, out ++ w), r. repeat split; simpl; try done; try apply Hc2.
    intros _. unfold in_avail, advance in *; cbn [rbuf in_ptr] in *. lia.
Qed.

Lemma read_run_length_spec len c out r :
  cursor_ok r c -> (0 < in_avail c)%nat ->
  exists kb inp, remaining r c = kb :: inp /\
  let run := (Z.to_nat (byte.unsigned kb) * 8)%nat in
  read_run_length len c out r =
    if (len - length out <? run)%nat
    then (Err PackedInputDidNotEndCleanlyOnASegmentBoundary, r)
    else (Ok (run, advance 1 c), r).
Proof.
  intros Hc Ha. destruct (deref_spec r c Hc Ha) as (kb & inp & Hr & Hd).
  exists kb, inp. split; [done|]. intros run. unfold read_run_length.
  destruct (Nat.ltb_spec 0 (in_avail c)); [|lia]. simpl.
  rewrite Hd. subst run. by destruct (_ <? _)%nat.
Qed.

(** Reading on into the buffer and past its end. *)
Lemma read_exact_loop_spec fuel : forall n acc r, (n < fuel)%nat ->
  if (length (contents r) <? n)%nat
  then rejects (read_exact_loop fuel n acc) r FailedToFillTheWholeBuffer
  else yields (read_exact_loop fuel n acc) r (fun bs r' =>
         bs = acc ++ take n (contents r) /\ contents r' = drop n (contents r)).
Proof.
  induction fuel as [|fuel IH]; intros n acc r Hf; [lia|]. cbn [read_exact_loop].
  destruct (Nat.eqb_spec n 0) as [->|Hn].
  { destruct (Nat.ltb_spec (length (contents r)) 0); [lia|].
    eexists _, _. split; [done|]. by rewrite take_0, drop_0, app_nil_r. }
  destruct (read_spec r n ltac:(lia)) as (b & r' & Hr & Hl & Hc & Hnil).
  destruct b as [|x b].
  { rewrite (Hnil eq_refl). simpl. destruct (Nat.ltb_spec 0 n); [|lia].
    eapply rejects_bind; [done|]. by eexists. }
  specialize (IH (n - length (x :: b))%nat (acc ++ x :: b) r' ltac:(simpl; lia)).
  rewrite Hc, length_app.
  destruct (Nat.ltb_spec (length (contents r')) (n - length (x :: b)));
  destruct (Nat.ltb_spec (length (x :: b) + length (contents r')) n); try lia.
  - eapply rejects_bind; [done|done].
  - destruct IH as (bs & r'' & Hrun & -> & Hc'). eapply yields_bind; [done|].
    eexists _, r''. split; [done|].
    rewrite take_app_ge, drop_app_ge, <- app_assoc by lia. done.
Qed.

Lemma put_slice_ok len out bs : (length out + length bs <= len)%nat ->
  put_slice len out bs = Ok (out ++ bs).
Proof. intros Hl. unfold put_slice. case_bools. Qed.

(** What a round of the loop leaves, after it produced the bytes [g] of the
    [n] still wanted and left the input [rest]. *)
Definition round_post (n : nat) (out g rest : list byte)
    (res : cursor * list byte + list byte) (r' : R) : Prop :=
  match res with
  | inr out' => out' = out ++ g /\ n = length g /\ contents r' = rest
  | inl (c', out') => out' = out ++ g /\ (length g < n)%nat /\
                      cursor_ok r' c' /\ remaining r' c' = rest
  end.

(** The end of a round: return, or go round again. *)
Lemma finish_spec len out g c r n rest :
  n = (len - length out)%nat -> (length g <= n)%nat -> (0 < n)%nat ->
  cursor_ok r c -> remaining r c = rest ->
  yields (end_round len c (out ++ g)) r (round_post n out g rest).
Proof.
  intros Hn Hg Hn0 Hc Hr. unfold end_round. rewrite length_app.
  destruct (Nat.eqb_spec (length out + length g) len) as [E|E].
  - destruct Hc as (Hq & Hb & Hp).
    destruct (consume_spec r (in_ptr c)) as (r' & Hcons & Hc'); [lia|].
    eapply yields_bind; [done|]. eexists _, _. split; [done|]. simpl.
    split; [done|]. split; [lia|]. by rewrite Hc', <- Hr.
  - eexists _, _. split; [done|]. simpl. repeat split; try done; try lia; apply Hc.
Qed.

Lemma literal_run_spec len run c out w r n :
  cursor_ok r c -> n = (len - length out)%nat -> (0 < n)%nat ->
  (length w + run <= n)%nat ->
  let inp := remaining r c in
  if (length inp <? run)%nat
  then rejects (literal_run len run c (out ++ w)) r FailedToFillTheWholeBuffer
  else yields (literal_run len run c (out ++ w)) r
         (round_post n out (w ++ take run inp) (drop run inp)).
Proof.
  intros Hc Hn Hn0 Hrun inp. unfold literal_run, yields, rejects.
  destruct (remaining_buf r c Hc) as (q & Hq & Hlq). fold inp in Hq.
  assert (Hlen : length inp = (in_avail c + length q)%nat) by (by rewrite Hq, length_app, Hlq).
  destruct (Nat.leb_spec run (in_avail c)) as [Hle|Hgt].
  - destruct (Nat.ltb_spec (length inp) run); [lia|].
    rewrite (lift_bind_ok _ _ _ _ (deref_slice_spec r c run Hc Hle)). fold inp.
    assert (Hlt : length (take run inp) = run) by (rewrite length_take; lia).
    erewrite lift_bind_ok by (apply put_slice_ok; rewrite length_app; lia).
    destruct (cursor_ok_advance r c run Hc Hle) as (Hc' & Hr').
    rewrite <- app_assoc.
    apply finish_spec; try done. rewrite length_app. lia.
  - rewrite (lift_bind_ok _ _ _ _ (deref_slice_spec r c _ Hc (Nat.le_refl _))). fold inp.
    assert (Ht : take (in_avail c) inp = drop (in_ptr c) (rbuf c)).
    { rewrite Hq, <- Hlq. apply take_app_length. }
    rewrite Ht.
    erewrite lift_bind_ok by (apply put_slice_ok; rewrite length_app, Hlq; lia).
    destruct Hc as ((q' & Hq') & Hb & Hp).
    destruct (consume_spec r (length (rbuf c))) as (r1 & Hr1 & Hc1); [lia|].
    assert (Hq1 : contents r1 = q).
    { rewrite Hc1, Hq', drop_app_length. unfold inp, remaining in Hq.
      rewrite Hq', drop_app_le in Hq by lia. by apply app_inv_head in Hq. }
    rewrite (ST_bind_ok _ _ _ _ _ Hr1).
    pose proof (read_exact_loop_spec (S (run - in_avail c)) (run - in_avail c) [] r1
                  (Nat.lt_succ_diag_r _)) as Hex.
    rewrite Hq1 in Hex.
    destruct (Nat.ltb_spec (length q) (run - in_avail c));
    destruct (Nat.ltb_spec (length inp) run); try lia; [by apply rejects_here|].
    destruct Hex as (bs & r2 & Hex & -> & Hc2). rewrite (ST_bind_ok _ _ _ _ _ Hex).
    assert (Hg : ((out ++ w) ++ drop (in_ptr c) (rbuf c)) ++ take (run - in_avail c) q
                 = out ++ w ++ take run inp).
    { rewrite Hq, take_app_ge, Hlq by lia. by rewrite <- !app_assoc. }
    assert (Hd : drop run inp = contents r2).
    { rewrite Hq, drop_app_ge, Hlq by lia. done. }
    assert (Hltake : length (take run inp) = run) by (rewrite length_take; lia).
    cbn [app].
    erewrite lift_bind_ok by (apply put_slice_ok; rewrite !length_app, Hlq, length_take; lia). rewrite Hg.
    rewrite !length_app, Hltake.
    destruct (Nat.eqb_spec (length out + (length w + run)) len) as [E|E].
    + eexists _, r2. split; [done|]. simpl. rewrite length_app, Hltake.
      split; [done|]. split; [lia|done].
    + destruct (get_read_buffer_spec r2) as (c3 & r3 & Hg3 & Hok3 & Hrem3 & _ & _).
      rewrite (ST_bind_ok _ _ _ _ _ Hg3). eexists _, r3. split; [done|]. simpl.
      rewrite length_app, Hltake, Hd, <- Hrem3. repeat split; try done; try lia; apply Hok3.
Qed.

(** One round decodes one group. *)
Lemma read_step_spec len c out r n :
  cursor_ok r c -> (0 < in_avail c)%nat -> n = (len - length out)%nat ->
  (8 <= n)%nat -> (length out mod 8 = 0)%nat ->
  match unpack_group n (remaining r c) with
  | Ok (g, rest) => yields (read_step len c out) r (round_post n out g rest)
  | Err e => rejects (read_step len c out) r e
  | _ => False
  end.
Proof.
  intros Hc Ha Hn Hn8 Hm. unfold read_step, yields, rejects.
  rewrite (lift_bind_ok _ _ _ tt) by (rewrite Hm; done).
  destruct (Nat.eqb_spec (in_avail c) 0) as [|_]; [lia|].
  destruct (read_word_spec len c out r Hc Ha ltac:(lia)) as (tagb & inp & Hr & Hw).
  rewrite Hr. unfold unpack_group. cbn zeta in Hw |- *.
  set (tag := byte.unsigned tagb) in *.
  destruct (spec_word tag 8 0 inp) as [[w rest]|] eqn:Ew; [|by apply rejects_here].
  apply spec_word_length in Ew.
  destruct Hw as [(Ht & -> & Hrej)|([[tag' c1] out1] & r1 & Hrun & Htag & Hc1 & Hr1 & Ho & Ha1)].
  { rewrite Ht. by apply rejects_here. }
  cbn [fst snd] in *. subst tag' out1. rewrite (ST_bind_ok _ _ _ _ _ Hrun).
  destruct (Z.eqb_spec tag 0) as [E0|E0]; [|destruct (Z.eqb_spec tag 255) as [E1|E1]];
    cbn [orb] in *.
  - destruct (read_run_length_spec len c1 (out ++ w) r1 Hc1 (Ha1 eq_refl)) as (kb & inp2 & Hr2 & Hrl).
    rewrite Hr1 in Hr2. rewrite Hr2 in Hr1 |- *. clear Hr2. cbn zeta in Hrl.
    set (run := (Z.to_nat (byte.unsigned kb) * 8)%nat) in *. rewrite length_app in Hrl. replace (len - (length out + length w))%nat with (n - 8)%nat in Hrl by lia.
    destruct (Nat.ltb_spec (n - 8) run) as [Hlt|Hle].
    { apply rejects_here. by eexists. }
    destruct (cursor_ok_advance r1 c1 1 Hc1 (Ha1 eq_refl)) as (Hc2 & Hr2).
    rewrite Hr1 in Hr2. cbn [drop] in Hr2. rewrite drop_0 in Hr2.
    rewrite (ST_bind_ok _ _ _ _ _ Hrl).
    erewrite lift_bind_ok by (apply put_slice_ok; rewrite length_app, repeat_length; lia).
    rewrite <- app_assoc. apply finish_spec; try done; try lia.
    rewrite length_app, repeat_length. lia.
  - destruct (read_run_length_spec len c1 (out ++ w) r1 Hc1 (Ha1 eq_refl)) as (kb & inp2 & Hr2 & Hrl).
    rewrite Hr1 in Hr2. rewrite Hr2 in Hr1 |- *. clear Hr2. cbn zeta in Hrl.
    set (run := (Z.to_nat (byte.unsigned kb) * 8)%nat) in *. rewrite length_app in Hrl. replace (len - (length out + length w))%nat with (n - 8)%nat in Hrl by lia.
    destruct (Nat.ltb_spec (n - 8) run) as [Hlt|Hle].
    { apply rejects_here. by eexists. }
    destruct (cursor_ok_advance r1 c1 1 Hc1 (Ha1 eq_refl)) as (Hc2 & Hr2).
    rewrite Hr1 in Hr2. cbn [drop] in Hr2. rewrite drop_0 in Hr2.
    rewrite (ST_bind_ok _ _ _ _ _ Hrl).
    pose proof (literal_run_spec len run (advance 1 c1) out w r1 n Hc2 Hn ltac:(lia) ltac:(lia)) as Hlit.
    cbn zeta in Hlit. rewrite Hr2 in Hlit. by destruct (length inp2 <? run)%nat.
  - apply finish_spec; try done; lia.
Qed.

Lemma read_loop_spec fuel : forall len c out r n,
  cursor_ok r c -> n = (len - length out)%nat -> (0 < n)%nat ->
  (length out mod 8 = 0)%nat -> (len mod 8 = 0)%nat ->
  (n + (if (in_avail c =? 0)%nat then 1 else 0) < fuel)%nat ->
  match unpack n (remaining r c) with
  | Ok (o, rest) => yields (read_loop fuel len c out) r
                      (fun res r' => res = out ++ o /\ contents r' = rest)
  | Err e => rejects (read_loop fuel len c out) r e
  | _ => False
  end.
Proof.
  induction fuel as [|fuel IH]; intros len c out r n Hc Hn Hn0 Ho Hl Hf; [lia|].
  assert (Hn8 : (8 <= n)%nat).
  { pose proof (Nat.Div0.div_mod len 8). pose proof (Nat.Div0.div_mod (length out) 8). lia. }
  cbn [read_loop].
  destruct (Nat.eqb_spec (in_avail c) 0) as [E0|E0].
  - (* an empty buffer is refilled *)
    assert (Hstep : read_step len c out r = bind (refresh_buffer c) (fun c => ret (inl (c, out))) r).
    { unfold read_step. rewrite (lift_bind_ok _ _ _ tt) by (rewrite Ho; done). by rewrite E0. }
    pose proof (refresh_buffer_spec r c Hc E0) as Href.
    destruct (remaining r c) as [|b inp] eqn:Er.
    + rewrite unpack_unfold by lia. apply rejects_here. unfold rejects. rewrite Hstep.
      by apply rejects_here.
    + destruct Href as (c' & r' & Href & Hc' & Hr' & Ha').
      assert (Hs : read_step len c out r = (Ok (inl (c', out)), r')).
      { rewrite Hstep. by rewrite (ST_bind_ok _ _ _ _ _ Href). }
      specialize (IH len c' out r' n Hc' Hn Hn0 Ho Hl).
      destruct (Nat.eqb_spec (in_avail c') 0); [lia|]. specialize (IH ltac:(lia)).
      rewrite Hr' in IH. unfold yields, rejects in *.
      by rewrite (ST_bind_ok _ _ _ _ _ Hs).
  - pose proof (read_step_spec len c out r n Hc ltac:(lia) Hn Hn8 Ho) as Hs.
    rewrite unpack_unfold by lia.
    destruct (unpack_group n (remaining r c)) as [[g rest]|e| | |] eqn:Eg; try done;
      [|by apply rejects_here].
    destruct (unpack_group_length _ _ _ _ Eg) as (m & Hgm & Hgn).
    destruct Hs as ([[c' out']|out'] & r' & Hs & Hpost); unfold yields, rejects;
      rewrite (ST_bind_ok _ _ _ _ _ Hs); cbn [round_post bind outcome_monad] in *.
    + destruct Hpost as (-> & Hlt & Hc' & Hr').
      specialize (IH len c' (out ++ g) r' (n - length g)%nat Hc'
                    ltac:(rewrite length_app; lia) ltac:(lia)).
      rewrite Hr' in IH. specialize (IH ltac:(rewrite length_app, Hgm, Nat.mul_comm, Nat.Div0.mod_add; done) Hl).
      specialize (IH ltac:(case_bools)).
      destruct (unpack (n - length g) rest) as [[o rest']| | | |]; try done.
      destruct IH as (res & r'' & Hrun & -> & Hrest). exists (out ++ g ++ o), r''.
      by rewrite app_assoc.
    + destruct Hpost as (-> & -> & Hr'). rewrite Nat.sub_diag, unpack_0.
      cbn [bind outcome_monad]. rewrite app_nil_r. by exists (out ++ g), r'.
Qed.

(** [PackedRead::read] decodes what the whole input describes. *)
Lemma packed_read_spec len r :
  (len mod 8 = 0)%nat -> len <> 0%nat -> contents r <> [] ->
  match unpack len (contents r) with
  | Ok (o, rest) => yields (packed_read len) r (fun res r' => res = o /\ contents r' = rest)
  | Err e => rejects (packed_read len) r e
  | _ => False
  end.
Proof.
  intros Hm Hl Hne. unfold packed_read, yields, rejects.
  destruct (Nat.eqb_spec len 0) as [|_]; [done|].
  rewrite (lift_bind_ok _ _ _ tt) by (rewrite Hm; done).
  destruct (get_read_buffer_spec r) as (c & r1 & Hg & Hok & Hrem & Hp & Hnil).
  rewrite (ST_bind_ok _ _ _ _ _ Hg).
  destruct (rbuf c) as [|b l] eqn:Eb; [by specialize (Hnil eq_refl)|]. cbn [length Nat.eqb].
  pose proof (read_loop_spec (read_fuel len) len c [] r1 len Hok ltac:(simpl; lia) ltac:(lia)
                eq_refl Hm) as Hloop.
  rewrite Hrem in Hloop. apply Hloop. unfold read_fuel. case_bools.
Qed.

Lemma packed_read_eof len r :
  (len mod 8 = 0)%nat -> contents r = [] ->
  exists r', packed_read len r = (Ok [], r') /\ contents r' = [].
Proof.
  intros Hm Hne. unfold packed_read.
  destruct (Nat.eqb_spec len 0) as [|_]; [by exists r|].
  rewrite (lift_bind_ok _ _ _ tt) by (rewrite Hm; done).
  destruct (get_read_buffer_spec r) as (c & r1 & Hg & ((q & Hq) & _) & Hrem & Hp & Hnil).
  rewrite (ST_bind_ok _ _ _ _ _ Hg).
  unfold remaining in Hrem. rewrite Hp, drop_0 in Hrem. rewrite Hrem, Hne in Hq.
  destruct (rbuf c) eqn:Eb; [|done]. exists r1. rewrite Hrem. done.
Qed.
End refinement.

(** ** [PackedWrite] packs, and [PackedRead] unpacks what it packed

    [pack] is the encoder as a function on a list of bytes.  The file shows
    that [PackedWrite::write_all] computes it without touching memory outside
    its 64-byte buffer or its input, that [unpack] inverts it, and that a
    packed reader over a stream of packed chunks delivers the chunks. *)

(** ** The encoder *)

Definition nonzero (w : list byte) : list byte :=
  List.filter (fun b => negb (is_zero_byte b)) w.

(** Bit [i + j] tells whether byte [j] of [w] is not zero. *)
Fixpoint word_tag (w : list byte) (i : nat) : Z :=
  match w with
  | [] => 0
  | b :: w => Z.lor (Z.shiftl (Z.b2z (negb (is_zero_byte b))) (Z.of_nat i)) (word_tag w (S i))
  end.

(** The number of leading words, [n] at most, that satisfy [f]. *)
Fixpoint leading_words (f : list byte -> bool) (n : nat) (inp : list byte) : nat :=
  match n with
  | O => 0
  | S n => if f (take 8 inp) then S (leading_words f n (drop 8 inp)) else 0
  end.

Definition verbatim_word (w : list byte) : bool := negb (2 <=? zero_bytes w)%nat.

Fixpoint pack_fuel (fuel : nat) (inp : list byte) : list byte :=
  match fuel with
  | O => []
  | S fuel =>
      match inp with
      | [] => []
      | _ =>
          let w := take 8 inp in
          let inp := drop 8 inp in
          let n := Nat.min 255 (length inp / 8) in
          let tag := word_tag w 0 in
          byte.of_Z tag :: nonzero w ++
          (if tag =? 0 then
             let k := leading_words is_zero_word n inp in
             byte.of_Z (Z.of_nat k) :: pack_fuel fuel (drop (8 * k) inp)
           else if tag =? 255 then
             let k := leading_words verbatim_word n inp in
             byte.of_Z (Z.of_nat k) :: take (8 * k) inp ++ pack_fuel fuel (drop (8 * k) inp)
           else pack_fuel fuel inp)
      end
  end.
Definition pack (inp : list byte) : list byte := pack_fuel (length inp) inp.

Lemma pack_fuel_irrel f1 : forall f2 inp,
  (length inp <= f1)%nat -> (length inp <= f2)%nat -> pack_fuel f1 inp = pack_fuel f2 inp.
Proof.
  assert (H0 : forall f (inp : list byte), (length inp <= 0)%nat -> pack_fuel f inp = []).
  { intros [|f] [|b inp] Hl; simpl in *; done || lia. }
  induction f1 as [|f1 IH]; intros [|f2] inp H1 H2; rewrite ?(H0 _ inp) by lia; try done.
  cbn [pack_fuel]. destruct inp as [|b inp]; [done|]. cbn [length] in H1, H2.
  assert (Hd : forall n, pack_fuel f1 (drop n (drop 8 (b :: inp))) =
                         pack_fuel f2 (drop n (drop 8 (b :: inp)))).
  { intros n. apply IH; rewrite !length_drop; simpl; lia. }
  rewrite !Hd. specialize (Hd 0%nat). rewrite !drop_0 in Hd. by rewrite Hd.
Qed.

(** ** Tags *)

Lemma word_tag_bit w : forall i j,
  Z.testbit (word_tag w i) (Z.of_nat j) =
  match w !! (j - i)%nat with
  | Some b => (i <=? j)%nat && negb (is_zero_byte b)
  | None => false
  end.
Proof.
  induction w as [|b w IH]; intros i j; cbn [word_tag].
  { by rewrite Z.bits_0. }
  rewrite Z.lor_spec, Z.shiftl_spec, IH by lia.
  destruct (Nat.leb_spec i j) as [Hij|Hij].
  - destruct (Nat.eq_dec i j) as [->|Hne].
    + rewrite Z.sub_diag, Nat.sub_diag. cbn [lookup list_lookup].
      replace (S j <=? j)%nat with false by (symmetry; apply Nat.leb_gt; lia).
      rewrite (proj2 (Nat.sub_0_le j (S j))) by lia.
      destruct w; cbn; by destruct (negb (is_zero_byte b)).
    + replace (j - i)%nat with (S (j - S i)) by lia. cbn [lookup list_lookup].
      replace (S i <=? j)%nat with true by (symmetry; apply Nat.leb_le; lia).
      replace (Z.testbit _ (Z.of_nat j - Z.of_nat i)) with false; [done|].
      destruct (negb (is_zero_byte b)); [|by rewrite Z.bits_0].
      symmetry. apply Z.bits_above_log2; simpl; lia.
  - replace (S i <=? j)%nat with false by (symmetry; apply Nat.leb_gt; lia).
    rewrite (Z.testbit_neg_r _ (Z.of_nat j - Z.of_nat i)) by lia.
    cbn [orb andb]. by do 2 case_match.
Qed.

Lemma word_tag_nonneg w : forall i, 0 <= word_tag w i.
Proof.
  induction w as [|b w IH]; intros i; simpl; [done|].
  apply Z.lor_nonneg. split; [apply Z.shiftl_nonneg|done].
  by destruct (negb (is_zero_byte b)).
Qed.

Lemma word_tag_range w : length w = 8%nat -> 0 <= word_tag w 0 < 256.
Proof.
  intros Hl. pose proof (word_tag_nonneg w 0) as Hn. split; [done|].
  destruct (Z.eq_dec (word_tag w 0) 0) as [->|Hz]; [done|].
  change 256 with (2 ^ 8). apply Z.log2_lt_pow2; [lia|].
  destruct (Z.lt_ge_cases (Z.log2 (word_tag w 0)) 8) as [|Hge]; [done|].
  pose proof (Z.bit_log2 (word_tag w 0) ltac:(lia)) as Hb.
  rewrite <- (Z2Nat.id (Z.log2 (word_tag w 0))) in Hb by lia.
  rewrite word_tag_bit, (lookup_ge_None_2 w) in Hb by lia. done.
Qed.

Lemma word_tag_byte w : length w = 8%nat -> byte.unsigned (byte.of_Z (word_tag w 0)) = word_tag w 0.
Proof.
  intros Hl. rewrite byte.unsigned_of_Z. apply Z.mod_small.
  by apply word_tag_range.
Qed.

Lemma spec_word_nonzero T w : forall i q,
  (forall j b, w !! j = Some b -> tag_bit T (i + j) = negb (is_zero_byte b)) ->
  spec_word T (length w) i (nonzero w ++ q) = Some (w, q).
Proof.
  induction w as [|b w IH]; intros i q HT; [done|].
  assert (Hw : spec_word T (length w) (S i) (nonzero w ++ q) = Some (w, q)).
  { apply IH. intros j b' Hj. replace (S i + j)%nat with (i + S j)%nat by lia. by apply HT. }
  pose proof (HT 0%nat b eq_refl) as Hb. rewrite Nat.add_0_r in Hb.
  cbn [length spec_word]. unfold nonzero; cbn [List.filter]; fold (nonzero w).
  rewrite Hb. destruct (is_zero_byte b) eqn:Ez; cbn [negb app]; rewrite Hw; [|done].
  unfold is_zero_byte in Ez. apply Z.eqb_eq in Ez.
  by rewrite <- (byte.of_Z_unsigned b), Ez.
Qed.

Lemma spec_word_tag w q : length w = 8%nat ->
  spec_word (word_tag w 0) 8 0 (nonzero w ++ q) = Some (w, q).
Proof.
  intros Hl. rewrite <- Hl. apply spec_word_nonzero. intros j b Hj. cbn [Nat.add].
  unfold tag_bit. by rewrite word_tag_bit, Nat.sub_0_r, Hj.
Qed.

(** ** Runs *)

Lemma leading_words_le f n inp : (leading_words f n inp <= n)%nat.
Proof. revert inp. induction n as [|n IH]; intros inp; simpl; [done|]. case_match; [|lia]. apply le_n_S, IH. Qed.

Lemma leading_zero_words n : forall inp, (8 * n <= length inp)%nat ->
  take (8 * leading_words is_zero_word n inp) inp =
  repeat Byte.x00 (8 * leading_words is_zero_word n inp).
Proof.
  induction n as [|n IH]; intros inp Hl; cbn [leading_words]; [by rewrite Nat.mul_0_r|].
  destruct (is_zero_word (take 8 inp)) eqn:Ez; [|by rewrite Nat.mul_0_r].
  set (k := leading_words _ _ _) in *.
  replace (8 * S k)%nat with (8 + 8 * k)%nat by lia.
  rewrite <- (take_drop 8 inp) at 1.
  assert (H8 : length (take 8 inp) = 8%nat) by (rewrite length_take; lia).
  rewrite <- H8 at 1. rewrite take_app_add, repeat_app.
  unfold k. rewrite IH by (rewrite length_drop; lia). fold k. f_equal.
  rewrite <- H8 at 2. clear -Ez. unfold is_zero_word in Ez.
  induction (take 8 inp) as [|b w IHw]; [done|]. simpl in Ez.
  apply andb_prop in Ez as [Eb Ew]. simpl. rewrite <- IHw by done. f_equal.
  unfold is_zero_byte in Eb. apply Z.eqb_eq in Eb. by rewrite <- (byte.of_Z_unsigned b), Eb.
Qed.

Lemma run_byte k : (k <= 255)%nat -> Z.to_nat (byte.unsigned (byte.of_Z (Z.of_nat k))) = k.
Proof.
  intros Hk. rewrite byte.unsigned_of_Z. unfold byte.wrap. rewrite Z.mod_small; lia.
Qed.

(** ** [unpack] inverts [pack] *)

(** The encoding of a word and the words after it, given that of what
    follows the run. *)
Definition pack_word (rec : list byte -> list byte) (w inp : list byte) : list byte :=
  let n := Nat.min 255 (length inp / 8) in
  let tag := word_tag w 0 in
  byte.of_Z tag :: nonzero w ++
    (if tag =? 0 then
       let k := leading_words is_zero_word n inp in
       byte.of_Z (Z.of_nat k) :: rec (drop (8 * k) inp)
     else if tag =? 255 then
       let k := leading_words verbatim_word n inp in
       byte.of_Z (Z.of_nat k) :: take (8 * k) inp ++ rec (drop (8 * k) inp)
     else rec inp).

Lemma pack_fuel_word f w inp : length w = 8%nat ->
  pack_fuel (S f) (w ++ inp) = pack_word (pack_fuel f) w inp.
Proof.
  intros Hw.
  assert (Ht : take 8 (w ++ inp) = w) by (rewrite <- Hw; apply take_app_length).
  assert (Hd : drop 8 (w ++ inp) = inp) by (rewrite <- Hw; apply drop_app_length).
  transitivity (pack_word (pack_fuel f) (take 8 (w ++ inp)) (drop 8 (w ++ inp))).
  - destruct w; [done|reflexivity].
  - by rewrite Ht, Hd.
Qed.

Lemma pack_unfold w inp : length w = 8%nat -> pack (w ++ inp) = pack_word pack w inp.
Proof.
  intros Hw. unfold pack at 1. rewrite length_app, Hw.
  change (8 + length inp)%nat with (S (7 + length inp)). rewrite pack_fuel_word by done.
  assert (Hp : forall n, pack_fuel (7 + length inp) (drop n inp) = pack (drop n inp)).
  { intros n. apply pack_fuel_irrel; rewrite ?length_drop; lia. }
  assert (Hp0 := Hp 0%nat). rewrite !drop_0 in Hp0.
  unfold pack_word. by rewrite !Hp, Hp0.
Qed.

Lemma aligned_cons_word inp : aligned inp -> inp <> [] ->
  exists w r, inp = w ++ r /\ length w = 8%nat /\ aligned r.
Proof.
  unfold aligned. intros Ha Hn.
  pose proof (Nat.Div0.div_mod (length inp) 8).
  assert (length inp <> 0%nat) by (destruct inp; simpl; congruence).
  exists (take 8 inp), (drop 8 inp). rewrite take_drop, length_take, length_drop.
  split; [done|]. split; [lia|].
  replace (length inp - 8)%nat with ((length inp / 8 - 1) * 8)%nat by lia.
  apply Nat.Div0.mod_mul.
Qed.

Lemma aligned_drop k inp : aligned inp -> (8 * k <= length inp)%nat -> aligned (drop (8 * k) inp).
Proof.
  unfold aligned. intros Ha Hk. rewrite length_drop.
  pose proof (Nat.Div0.div_mod (length inp) 8).
  replace (length inp - 8 * k)%nat with ((length inp / 8 - k) * 8)%nat by lia.
  apply Nat.Div0.mod_mul.
Qed.

(** The group [pack] makes of a word and the run after it. *)
Lemma unpack_group_pack w inp q n : length w = 8%nat -> aligned inp ->
  (8 + length inp <= n)%nat ->
  exists k, (8 * k <= length inp)%nat /\
    unpack_group n (pack (w ++ inp) ++ q) =
    Ok (w ++ take (8 * k) inp, pack (drop (8 * k) inp) ++ q).
Proof.
  intros Hw Ha Hn. rewrite pack_unfold by done. unfold pack_word.
  set (T := word_tag w 0). set (m := Nat.min 255 (length inp / 8)).
  assert (Hm : (8 * m <= length inp)%nat).
  { pose proof (Nat.Div0.div_mod (length inp) 8). lia. }
  assert (HT : byte.unsigned (byte.of_Z T) = T) by by apply word_tag_byte.
  assert (Hs : forall q, spec_word T 8 0 (nonzero w ++ q) = Some (w, q)) by (intros; by apply spec_word_tag).
  clearbody T. cbn [app]. unfold unpack_group. rewrite <- app_assoc, HT, Hs.
  destruct (Z.eqb_spec T 0) as [E0|E0]; [|destruct (Z.eqb_spec T 255) as [E1|E1]]; cbn [orb].
  - pose proof (leading_words_le is_zero_word m inp) as Hk.
    set (k := leading_words is_zero_word m inp) in *. exists k. split; [lia|].
    cbn [app]. rewrite run_byte by lia.
    destruct (Nat.ltb_spec (n - 8) (k * 8)); [lia|].
    assert (Hz : take (8 * k) inp = repeat Byte.x00 (8 * k)) by by apply leading_zero_words.
    by rewrite Hz, (Nat.mul_comm 8).
  - pose proof (leading_words_le verbatim_word m inp) as Hk.
    set (k := leading_words verbatim_word m inp) in *. exists k. split; [lia|].
    cbn [app]. rewrite run_byte by lia.
    destruct (Nat.ltb_spec (n - 8) (k * 8)); [lia|].
    rewrite <- app_assoc, (Nat.mul_comm k).
    assert (Hl : length (take (8 * k) inp) = (8 * k)%nat) by (rewrite length_take; lia).
    rewrite length_app, Hl. destruct (Nat.ltb_spec (8 * k + length (pack (drop (8 * k) inp) ++ q)) (8 * k)); [lia|].
    by rewrite take_app_length', drop_app_length'.
  - exists 0%nat. split; [lia|]. by rewrite Nat.mul_0_r, take_0, drop_0, app_nil_r.
Qed.

Lemma unpack_pack_app n : forall inp m q, (length inp <= n)%nat -> aligned inp ->
  unpack (length inp + m) (pack inp ++ q) =
  ('(o, rest) ← unpack m q; Ok (inp ++ o, rest)).
Proof.
  induction n as [|n IH]; intros inp m q Hl Ha.
  { destruct inp; [|simpl in Hl; lia]. simpl. by destruct (unpack m q) as [[]| | | |]. }
  destruct (decide (inp = [])) as [->|Hne].
  { simpl. by destruct (unpack m q) as [[]| | | |]. }
  destruct (aligned_cons_word inp Ha Hne) as (w & r & -> & Hw & Har).
  rewrite length_app, Hw in Hl |- *.
  destruct (unpack_group_pack w r q (8 + length r + m) Hw Har ltac:(lia)) as (k & Hk & Hg).
  rewrite unpack_unfold by lia. rewrite Hg. cbn [bind outcome_monad].
  assert (Ht : length (take (8 * k) r) = (8 * k)%nat) by (rewrite length_take; lia).
  replace (8 + length r + m - length (w ++ take (8 * k) r))%nat
    with (length (drop (8 * k) r) + m)%nat by (rewrite length_app, length_drop, Ht, Hw; lia).
  rewrite IH; [|rewrite length_drop; lia|by apply aligned_drop].
  destruct (unpack m q) as [[o rest]| | | |]; cbn [bind outcome_monad]; try done.
  by rewrite <- !app_assoc, (app_assoc (take _ _)), take_drop.
Qed.

Lemma unpack_pack inp q : aligned inp -> unpack (length inp) (pack inp ++ q) = Ok (inp, q).
Proof.
  intros Ha. rewrite <- (Nat.add_0_r (length inp)).
  rewrite (unpack_pack_app (length inp)) by done. rewrite unpack_0. cbn.
  by rewrite app_nil_r.
Qed.

Lemma unpack_pack_chunks cs q : Forall aligned cs ->
  unpack (length (concat cs)) (concat (map pack cs) ++ q) = Ok (concat cs, q).
Proof.
  induction 1 as [|c cs Hc _ IH]; [done|].
  cbn [concat map]. rewrite length_app, <- app_assoc.
  rewrite (unpack_pack_app (length c)) by done. by rewrite IH.
Qed.

(** ** [PackedWrite::write_all] computes [pack] *)

Lemma deref_slice_ok b i n : (i + n <= length b)%nat ->
  deref_slice b i n = Ok (take n (drop i b)).
Proof. intros H. unfold deref_slice. case_bools. Qed.

(** The eight unrolled steps: from index [buf_idx s] on, the buffer gets the
    non-zero bytes of the word. *)
Lemma pack_bytes_spec inb n : forall i p tag s,
  (p + n <= length inb)%nat -> (buf_idx s + n <= length (buf s))%nat ->
  let w := take n (drop p inb) in
  exists b',
    pack_bytes inb n i p tag s =
      Ok (Z.lor tag (word_tag w i), {| buf := b'; buf_idx := buf_idx s + length (nonzero w) |}) /\
    length b' = length (buf s) /\
    take (buf_idx s + length (nonzero w)) b' = take (buf_idx s) (buf s) ++ nonzero w.
Proof.
  induction n as [|n IH]; intros i p tag s Hp Hb; cbn zeta; cbn [pack_bytes].
  { rewrite take_0. simpl. rewrite Z.lor_0_r, Nat.add_0_r, app_nil_r.
    exists (buf s). by destruct s. }
  destruct (drop p inb) as [|b rest] eqn:Ed.
  { apply (f_equal length) in Ed. rewrite length_drop in Ed. simpl in Ed. lia. }
  assert (Hlk : inb !! p = Some b).
  { apply (f_equal (fun l : list byte => l !! 0%nat)) in Ed.
    by rewrite lookup_drop, Nat.add_0_r in Ed. }
  assert (Hd : drop (S p) inb = rest).
  { rewrite <- Nat.add_1_r, <- drop_drop, Ed. done. }
  unfold deref. rewrite Hlk. cbn [bind outcome_monad].
  unfold set_unchecked. destruct (Nat.ltb_spec (buf_idx s) (length (buf s))); [|lia].
  set (nz := negb (is_zero_byte b)).
  destruct (IH (S i) (S p) (Z.lor tag (Z.shiftl (Z.b2z nz) (Z.of_nat i)))
              {| buf := <[buf_idx s := b]> (buf s); buf_idx := buf_idx s + Z.to_nat (Z.b2z nz) |})
    as (b' & Hrun & Hl & Ht); [lia|cbn [buf buf_idx]; rewrite length_insert; destruct nz; simpl; lia|].
  exists b'. cbn [buf buf_idx] in Hrun, Hl, Ht. rewrite Hd in Hrun, Ht.
  rewrite length_insert in Hl. unfold nonzero in *. cbn [take word_tag List.filter].
  fold nz. rewrite Z.lor_assoc. cbn [bind outcome_monad] in *. rewrite Hrun. split; [|split; [done|]].
  - f_equal. f_equal. f_equal. destruct nz; simpl; lia.
  - destruct nz; cbn [Z.b2z length] in Ht |- *.
    + change (Z.to_nat 1) with 1%nat in Ht.
      match goal with |- take (buf_idx s + S ?l) _ = _ =>
        replace (buf_idx s + S l)%nat with (buf_idx s + 1 + l)%nat by lia end.
      rewrite Ht, Nat.add_1_r, (take_S_r _ _ b) by (by apply list_lookup_insert_eq).
      by rewrite take_insert_ge, <- app_assoc by lia.
    + rewrite Nat.add_0_r in Ht. rewrite Ht. by rewrite take_insert_ge by lia.
Qed.

Lemma count_zero_words_spec inb n : forall p, (p + 8 * n <= length inb)%nat ->
  count_zero_words inb n p = Ok (leading_words is_zero_word n (drop p inb)).
Proof.
  induction n as [|n IH]; intros p Hp; [done|]. cbn [count_zero_words leading_words].
  rewrite deref_slice_ok by lia. cbn [bind outcome_monad].
  destruct (is_zero_word _); [|done]. rewrite IH by lia. cbn [bind outcome_monad].
  by rewrite drop_drop.
Qed.

Lemma count_verbatim_words_spec inb n : forall p, (p + 8 * n <= length inb)%nat ->
  count_verbatim_words inb n p = Ok (leading_words verbatim_word n (drop p inb)).
Proof.
  induction n as [|n IH]; intros p Hp; [done|]. cbn [count_verbatim_words leading_words].
  rewrite deref_slice_ok by lia. cbn [bind outcome_monad]. unfold verbatim_word at 1.
  destruct (2 <=? _)%nat; [done|]. rewrite IH by lia. cbn [bind outcome_monad negb].
  by rewrite drop_drop.
Qed.

Lemma set_unchecked_ok b i x : (i < length b)%nat -> set_unchecked b i x = Ok (<[i := x]> b).
Proof. intros H. unfold set_unchecked. case_bools. Qed.

Section write.
Context {W : Type} `{Sink W}.

(** The bytes sent so far, those in the buffer included. *)
Definition sent (w : W) (s : wbuf) : list byte := sink_bytes w ++ take (buf_idx s) (buf s).

Definition wbuf_ok (s : wbuf) : Prop := length (buf s) = 64%nat /\ (buf_idx s <= 64)%nat.

Lemma flush_spec s w : exists w', flush s w = (Ok tt, w') /\ sink_bytes w' = sent w s.
Proof. apply sink_spec. Qed.

(** Making room for a group. *)
Lemma make_room_spec s w : wbuf_ok s ->
  exists s' w',
    (if (length (buf s) <? buf_idx s + 10)%nat
     then flush s ;; ret {| buf := buf s; buf_idx := 0 |} else ret s) w = (Ok s', w') /\
    length (buf s') = 64%nat /\ (buf_idx s' + 10 <= 64)%nat /\ sent w' s' = sent w s.
Proof.
  intros [Hl Hi]. rewrite Hl. destruct (Nat.ltb_spec 64 (buf_idx s + 10)).
  - destruct (flush_spec s w) as (w' & Hw & Hb).
    eexists _, w'. rewrite (ST_bind_ok _ _ _ _ _ Hw). split; [done|]. cbn [buf buf_idx].
    split; [done|]. split; [lia|]. unfold sent at 1. cbn [buf buf_idx]. by rewrite take_0, app_nil_r.
  - exists s, w. done.
Qed.

(** After the eight steps and the store of the tag, the buffer holds the
    tag and the non-zero bytes. *)
Lemma group_bytes_spec inb p s w r :
  drop p inb = w ++ r -> length w = 8%nat ->
  length (buf s) = 64%nat -> (buf_idx s + 10 <= 64)%nat ->
  exists b1 b2,
    pack_bytes inb 8 0 p 0 {| buf := buf s; buf_idx := buf_idx s + 1 |} =
      Ok (word_tag w 0, {| buf := b1; buf_idx := buf_idx s + 1 + length (nonzero w) |}) /\
    set_unchecked b1 (buf_idx s) (byte.of_Z (word_tag w 0)) = Ok b2 /\
    length b2 = 64%nat /\ (length (nonzero w) <= 8)%nat /\
    take (buf_idx s + 1 + length (nonzero w)) b2 =
      take (buf_idx s) (buf s) ++ byte.of_Z (word_tag w 0) :: nonzero w.
Proof.
  intros Hd Hw Hl Hi.
  assert (Hp : (p + 8 <= length inb)%nat).
  { apply (f_equal length) in Hd. rewrite length_drop, length_app in Hd. lia. }
  destruct (pack_bytes_spec inb 8 0 p 0 {| buf := buf s; buf_idx := buf_idx s + 1 |} Hp)
    as (b1 & Hrun & Hl1 & Ht1); [cbn [buf buf_idx]; lia|].
  assert (Hwt : take 8 (drop p inb) = w) by (rewrite Hd; by apply take_app_length').
  rewrite Hwt in Hrun, Ht1. rewrite Z.lor_0_l in Hrun. cbn [buf buf_idx] in Hrun, Hl1, Ht1.
  assert (Hnz : (length (nonzero w) <= 8)%nat).
  { rewrite <- Hw. unfold nonzero. apply filter_length_le. }
  exists b1, (<[buf_idx s := byte.of_Z (word_tag w 0)]> b1).
  split; [done|]. split; [apply set_unchecked_ok; lia|].
  split; [by rewrite length_insert, Hl1|]. split; [done|].
  destruct (lookup_lt_is_Some_2 (buf s) (buf_idx s)) as [y Hy]; [lia|].
  rewrite take_insert_lt by lia. rewrite Ht1, Nat.add_1_r, (take_S_r _ _ y Hy), <- app_assoc.
  rewrite <- (Nat.add_0_r (buf_idx s)) at 1.
  replace (buf_idx s) with (length (take (buf_idx s) (buf s))) at 1
    by (rewrite length_take; lia).
  by rewrite insert_app_r.
Qed.

(** Appending the run-length byte to the buffer. *)
Lemma push_byte b i x t : (i < length b)%nat -> take i b = t ->
  set_unchecked b i x = Ok (<[i := x]> b) /\ length (<[i := x]> b) = length b /\
  take (i + 1) (<[i := x]> b) = t ++ [x].
Proof.
  intros Hi <-. split; [by apply set_unchecked_ok|]. split; [apply length_insert|].
  rewrite Nat.add_1_r, (take_S_r _ _ x) by (by apply list_lookup_insert_eq).
  by rewrite take_insert_ge.
Qed.

Definition progress (inb : list byte) (p : nat) (total : list byte)
    (res : nat * wbuf) (w' : W) : Prop :=
  let '(p', s') := res in
  (p < p' <= length inb)%nat /\ aligned (drop p' inb) /\ wbuf_ok s' /\
  sent w' s' ++ pack (drop p' inb) = total.

Lemma write_step_spec inb p s w :
  (p < length inb)%nat -> aligned (drop p inb) -> wbuf_ok s ->
  exists res w', write_step inb p s w = (Ok res, w') /\
    progress inb p (sent w s ++ pack (drop p inb)) res w'.
Proof.
  intros Hp Ha Hs.
  destruct (aligned_cons_word (drop p inb) Ha) as (wd & r & Hd & Hw & Har).
  { intros E. apply (f_equal length) in E. rewrite length_drop in E. simpl in E. lia. }
  assert (Hlr : length inb = (p + 8 + length r)%nat).
  { apply (f_equal length) in Hd. rewrite length_drop, length_app in Hd. lia. }
  assert (Hr : drop (p + 8) inb = r).
  { rewrite <- drop_drop, Hd. by apply drop_app_length'. }
  destruct (make_room_spec s w Hs) as (s1 & w1 & Hroom & Hl1 & Hi1 & Hsent1).
  destruct (group_bytes_spec inb p s1 wd r Hd Hw Hl1 Hi1) as (b1 & b2 & Hpb & Hsu & Hl2 & Hnz & Ht2).
  unfold write_step. rewrite (ST_bind_ok _ _ _ _ _ Hroom), (lift_bind_ok _ _ _ _ Hpb).
  cbn [buf buf_idx]. rewrite (lift_bind_ok _ _ _ _ Hsu). cbn [buf buf_idx].
  set (i := (buf_idx s1 + 1 + length (nonzero wd))%nat) in *.
  set (m := Nat.min 255 (length r / 8)).
  assert (Hm : (8 * m <= length r)%nat) by (pose proof (Nat.Div0.div_mod (length r) 8); lia).
  replace (length inb - (p + 8))%nat with (length r) by lia. fold m.
  rewrite <- Hsent1, Hd, pack_unfold by done. unfold pack_word. fold m.
  set (T := word_tag wd 0) in *.
  assert (Hsent2 : sent w1 {| buf := b2; buf_idx := i |}
                   = sent w1 s1 ++ byte.of_Z T :: nonzero wd).
  { unfold sent. cbn [buf buf_idx]. by rewrite Ht2, app_assoc. }
  assert (Hdrop : forall k, drop (p + 8 + 8 * k) inb = drop (8 * k) r).
  { intros k. by rewrite <- drop_drop, Hr. }
  destruct (Z.eqb_spec T 0) as [E0|E0]; [|destruct (Z.eqb_spec T 255) as [E1|E1]].
  - pose proof (leading_words_le is_zero_word m r) as Hk.
    set (k := leading_words is_zero_word m r) in *.
    rewrite (lift_bind_ok _ _ _ k) by (rewrite count_zero_words_spec, Hr by lia; done).
    destruct (push_byte b2 i (byte.of_Z (Z.of_nat k)) _ ltac:(lia) eq_refl) as (Hp1 & Hp2 & Hp3).
    rewrite (lift_bind_ok _ _ _ _ Hp1). eexists _, w1. split; [done|].
    rewrite (Nat.mul_comm k). split; [lia|]. rewrite Hdrop.
    split; [apply aligned_drop; done || lia|].
    split; [split; cbn [buf buf_idx]; lia|].
    unfold sent at 1. cbn [buf buf_idx]. rewrite Hp3, app_assoc. fold (sent w1 {| buf := b2; buf_idx := i |}).
    change (sink_bytes w1 ++ take i b2) with (sent w1 {| buf := b2; buf_idx := i |}).
    rewrite Hsent2. by rewrite <- !app_assoc.
  - pose proof (leading_words_le verbatim_word m r) as Hk.
    set (k := leading_words verbatim_word m r) in *.
    assert (Hwords : ((Nat.min (255 * 8) (length r) + 7) / 8)%nat = m).
    { unfold aligned in Har. unfold m. pose proof (Nat.Div0.div_mod (length r) 8) as Hdm.
      rewrite Har in Hdm. set (n := (length r / 8)%nat) in *. rewrite Hdm.
      replace (Nat.min (255 * 8) (8 * n + 0) + 7)%nat with (7 + Nat.min 255 n * 8)%nat by lia.
      by rewrite Nat.div_add. }
    rewrite Hwords, (lift_bind_ok _ _ _ k) by (rewrite count_verbatim_words_spec, Hr by lia; done).
    destruct (push_byte b2 i (byte.of_Z (Z.of_nat k)) _ ltac:(lia) eq_refl) as (Hp1 & Hp2 & Hp3).
    rewrite (lift_bind_ok _ _ _ _ Hp1).
    destruct (flush_spec {| buf := <[i := byte.of_Z (Z.of_nat k)]> b2; buf_idx := i + 1 |} w1)
      as (w2 & Hf & Hw2).
    rewrite (ST_bind_ok _ _ _ _ _ Hf), (lift_bind_ok _ _ _ (take (8 * k) r))
      by (rewrite deref_slice_ok, Hr, (Nat.mul_comm k) by lia; done).
    destruct (sink_spec (take (8 * k) r) w2) as (w3 & Hwr & Hw3).
    rewrite (ST_bind_ok _ _ _ _ _ Hwr). eexists _, w3. split; [done|].
    rewrite (Nat.mul_comm k). split; [lia|]. rewrite Hdrop.
    split; [apply aligned_drop; done || lia|].
    split; [split; cbn [buf buf_idx]; lia|].
    unfold sent at 1. cbn [buf buf_idx]. rewrite take_0, app_nil_r, Hw3, Hw2.
    unfold sent at 1. cbn [buf buf_idx]. rewrite Hp3, app_assoc.
    change (sink_bytes w1 ++ take i b2) with (sent w1 {| buf := b2; buf_idx := i |}).
    rewrite Hsent2. by rewrite <- !app_assoc.
  - eexists _, w1. split; [done|]. split; [lia|]. rewrite Hr. split; [done|].
    split; [split; cbn [buf buf_idx]; lia|]. rewrite Hsent2. by rewrite <- app_assoc.
Qed.

Lemma write_loop_spec fuel : forall inb p s w,
  (p <= length inb)%nat -> (length inb - p <= fuel)%nat -> aligned (drop p inb) -> wbuf_ok s ->
  exists w', write_loop fuel inb p s w = (Ok tt, w') /\
    sink_bytes w' = sent w s ++ pack (drop p inb).
Proof.
  induction fuel as [|fuel IH]; intros inb p s w Hp Hf Ha Hs; cbn [write_loop];
    destruct (Nat.ltb_spec p (length inb)) as [Hlt|Hge]; try lia.
  2: { destruct (write_step_spec inb p s w Hlt Ha Hs) as ([p' s'] & w1 & Hstep & Hp' & Ha' & Hs' & Htot).
       rewrite (ST_bind_ok _ _ _ _ _ Hstep).
       destruct (IH inb p' s' w1) as (w2 & Hrun & Hw2); [lia|lia|done|done|].
       exists w2. split; [done|]. by rewrite Hw2, Htot. }
  all: rewrite drop_ge by done; rewrite app_nil_r; apply flush_spec.
Qed.

Lemma packed_write_spec inb w : aligned inb ->
  exists w', packed_write inb w = (Ok tt, w') /\ sink_bytes w' = sink_bytes w ++ pack inb.
Proof.
  intros Ha.
  destruct (write_loop_spec (length inb) inb 0 {| buf := repeat Byte.x00 64; buf_idx := 0 |} w)
    as (w' & Hw & Hs); [lia|lia|by rewrite drop_0|split; [apply repeat_length|simpl; lia]|].
  exists w'. split; [done|]. rewrite Hs, drop_0. unfold sent; simpl. by rewrite app_nil_r.
Qed.
End write.

#[export] Program Instance packed_encoded {W} `{Sink W} : EncodedWrite (PackedWrite W) := {|
  written := fun w => sink_bytes (sink w);
  encode := pack
|}.
Next Obligation.
  intros W ? ? bs [w] Ha. unfold write_all, packed_write_instance. simpl.
  destruct (packed_write_spec bs w Ha) as (w' & Hw & Hs). rewrite Hw. by eexists.
Qed.

(** A packed reader over packed chunks delivers the chunks. *)
#[export] Program Instance packed_delivers {R} `{BufReadSpec R} : Delivers (PackedRead R) := {|
  delivers := fun r cs =>
    Forall aligned cs /\ exists q, contents (inner r) = concat (map pack cs) ++ q
|}.
Next Obligation.
  intros R ? ? ? r cs [Hal [q Hq]]. inversion Hal; subst. split; [done|]. by exists q.
Qed.
Next Obligation.
  intros R ? ? ? [r] cs1 cs2 Hne [Hal [q Hq]]. cbn [inner] in Hq.
  apply Forall_app in Hal as [Hal1 Hal2].
  rewrite map_app, concat_app, <- app_assoc in Hq.
  pose proof (packed_read_spec (length (concat cs1)) r (aligned_concat cs1 Hal1)) as Hspec.
  rewrite Hq, unpack_pack_chunks in Hspec by done.
  destruct Hspec as (res & r' & Hr & -> & Hc).
  { by destruct (concat cs1). }
  { intros E. destruct (concat cs1) as [|x l] eqn:Ec; [done|].
    pose proof (unpack_pack_chunks cs1 (concat (map pack cs2) ++ q) Hal1) as Hu.
    rewrite E, Ec in Hu. done. }
  exists (concat cs1), [], {| inner := r' |}. unfold read, packed_read_instance. cbn [inner].
  rewrite Hr. split; [done|]. split; [by rewrite app_nil_r|]. split; [done|].
  split; [by constructor|]. by exists q.
Qed.
