(* ===== verification/ReadLimiter.v ===== *)
(** * The read limiter: capnp/src/private/read_limiter.rs

    The single-threaded limiter ([Unsync], a [Cell<usize>]) as a state
    transition, and the [sync_reader] one ([Sync], an [AtomicUsize]) as a step
    relation in which the load and the store of different threads
    interleave. *)

From S2P Require Import Prelude.
Definition USIZE_MAX : Z := 2 ^ 64 - 1.

Record ReadLimiter := {
  limit : Z;
  error_on_limit_exceeded : bool
}.

(** [ReadLimiter::new] *)
Definition ReadLimiter_new (lim : option Z) : ReadLimiter :=
  match lim with
  | Some value => {| limit := value; error_on_limit_exceeded := true |}
  | None => {| limit := USIZE_MAX; error_on_limit_exceeded := false |}
  end.

Definition set_limit (v : Z) (l : ReadLimiter) : ReadLimiter :=
  {| limit := v; error_on_limit_exceeded := error_on_limit_exceeded l |}.

(** [usize::wrapping_sub] *)
Definition wrapping_sub (a b : Z) : Z := wrap64 (a - b).

(** The check both versions make. *)
Definition refuses (l : ReadLimiter) (current amount : Z) : bool :=
  (current <? amount) && error_on_limit_exceeded l.

(** [unsync::ReadLimiter::can_read] *)
Definition can_read (amount : Z) : ST ReadLimiter unit :=
  l ← get_state;
  let current := limit l in
  if refuses l current amount then fails ReadLimitExceeded
  else put_state (set_limit (wrapping_sub current amount) l).

Definition limiter_ok (l : ReadLimiter) : Prop := u64 (limit l).

Lemma ReadLimiter_new_ok lim : (forall v, lim = Some v -> u64 v) -> limiter_ok (ReadLimiter_new lim).
Proof.
  unfold limiter_ok. destruct lim as [v|]; simpl; [auto|].
  intros _. unfold u64, in_width, USIZE_MAX. lia.
Qed.

(** How much of its budget a limiter that enforces one has used. *)
Definition charged (l l' : ReadLimiter) : Z := limit l - limit l'.

Lemma can_read_spec amount l : limiter_ok l -> 0 <= amount ->
  can_read amount l =
    if refuses l (limit l) amount then (Err ReadLimitExceeded, l)
    else (Ok tt, set_limit (wrapping_sub (limit l) amount) l).
Proof. intros _ _. unfold can_read, get_state, bind; simpl. by destruct (refuses _ _ _). Qed.

Lemma can_read_ok amount l l' : limiter_ok l -> 0 <= amount ->
  can_read amount l = (Ok tt, l') ->
  limiter_ok l' /\ error_on_limit_exceeded l' = error_on_limit_exceeded l /\
  (error_on_limit_exceeded l = true -> charged l l' = amount).
Proof.
  unfold limiter_ok, charged. intros Hl Ha. rewrite can_read_spec by done.
  unfold refuses. destruct (Z.ltb_spec (limit l) amount); destruct (error_on_limit_exceeded l) eqn:E;
    simpl; intros [= <-]; simpl; rewrite ?E; (split; [apply wrap64_range|split; [done|]]); try done;
    intros _; unfold wrapping_sub; rewrite wrap64_small; unfold u64, in_width in *; lia.
Qed.

(** ** The [sync_reader] limiter

    [can_read] is a relaxed load, the check, and a relaxed store of what was
    loaded less the amount; [loaded] holds the threads between the two. *)
Module Sync.
Record state := {
  limiter : ReadLimiter;
  loaded : list (Z * Z)  (** (current, amount) per thread that passed the check *)
}.

Inductive step : state -> state -> Prop :=
| step_load s amount :
    0 <= amount ->
    refuses (limiter s) (limit (limiter s)) amount = false ->
    step s {| limiter := limiter s;
              loaded := (limit (limiter s), amount) :: loaded s |}
| step_refuse s amount :
    refuses (limiter s) (limit (limiter s)) amount = true ->
    step s s
| step_store s l1 current amount l2 :
    loaded s = l1 ++ (current, amount) :: l2 ->
    step s {| limiter := set_limit (wrapping_sub current amount) (limiter s);
              loaded := l1 ++ l2 |}.

Inductive reachable (lim : option Z) : state -> Prop :=
| reach_new : reachable lim {| limiter := ReadLimiter_new lim; loaded := [] |}
| reach_step s s' : reachable lim s -> step s s' -> reachable lim s'.

(** What holds of every reachable state of a limiter that enforces [v]. *)
Definition inv (v : Z) (s : state) : Prop :=
  error_on_limit_exceeded (limiter s) = true /\
  0 <= limit (limiter s) <= v /\
  Forall (fun '(current, amount) => 0 <= amount <= current /\ current <= v) (loaded s).

Lemma inv_step v s s' : v < 2 ^ 64 -> inv v s -> step s s' -> inv v s'.
Proof.
  intros Hv (He & Hl & Hf) Hs. destruct Hs as [s amount Ha Hr|s amount Hr|s l1 current amount l2 Heq].
  - unfold refuses in Hr. rewrite He, andb_true_r in Hr. apply Z.ltb_ge in Hr.
    split; [done|]. split; [done|]. constructor; [lia|done].
  - done.
  - rewrite Heq in Hf. apply Forall_app in Hf as [Hf1 Hf2].
    inversion Hf2 as [|? ? Hc Hf3]; subst. split; [done|]. simpl. split.
    + unfold wrapping_sub. rewrite wrap64_small; lia.
    + by apply Forall_app.
Qed.

Lemma reachable_inv v s : 0 <= v < 2 ^ 64 -> reachable (Some v) s -> inv v s.
Proof.
  intros Hv. induction 1 as [|s s' _ IH Hs].
  - repeat split; simpl; try lia. constructor.
  - eapply inv_step; eauto. lia.
Qed.
End Sync.
