(* ===== verification/Segments.v ===== *)
(** * Segments and readers: capnp/src/message.rs

    [ReaderOptions], the trait [ReaderSegments] with its instances for slices
    of segments, and [message::Reader] with the arena it owns.  A segment is
    the list of its bytes here; the arena layer gives it an address. *)

From S2P Require Import Prelude.
From S2P Require Import ReadLimiter.
Definition BYTES_PER_WORD : Z := 8.

(** ** Options *)

Record ReaderOptions := {
  traversal_limit_in_words : option Z;
  nesting_limit : Z
}.

Definition DEFAULT_READER_OPTIONS : ReaderOptions := {|
  traversal_limit_in_words := Some (8 * 1024 * 1024);
  nesting_limit := 64
|}.

Definition with_nesting_limit (v : Z) (o : ReaderOptions) : ReaderOptions :=
  {| traversal_limit_in_words := traversal_limit_in_words o; nesting_limit := v |}.
Definition with_traversal_limit (v : option Z) (o : ReaderOptions) : ReaderOptions :=
  {| traversal_limit_in_words := v; nesting_limit := nesting_limit o |}.

(** ** [ReaderSegments] *)

(** [get_segment] may panic where an implementation indexes a slice. *)
Class ReaderSegments (S : Type) := {
  get_segment : S -> Z -> outcome (option (list byte));
  segments_len : S -> outcome Z
}.

(** The default method [len]: the first index with no segment. *)
Fixpoint default_len {S} (get : S -> Z -> outcome (option (list byte))) (s : S)
    (fuel : nat) (i : Z) : outcome Z :=
  match fuel with
  | O => OutOfFuel
  | Datatypes.S fuel =>
      o ← get s (wrap32 i);
      match o with
      | None => Ok i
      | Some _ => default_len get s fuel (i + 1)
      end
  end.

(** [self.segments.get(id as usize)] *)
Definition nth_segment (l : list (list byte)) (id : Z) : option (list byte) := l !! Z.to_nat id.

(** [SegmentArray], and the instances for [[I]] and [Vec<I>]: a list of
    segments. *)
#[export] Instance list_segments : ReaderSegments (list (list byte)) := {|
  get_segment := fun l id => Ok (nth_segment l id);
  segments_len := fun l => Ok (Z.of_nat (length l))
|}.

(** [&buf[lo..hi]]: panics when the range is not in the slice. *)
Definition slice_index (b : list byte) (lo hi : Z) : outcome (list byte) :=
  if (lo <=? hi) && (hi <=? Z.of_nat (length b))
  then Ok (take (Z.to_nat (hi - lo)) (drop (Z.to_nat lo) b)) else Panic.

Lemma slice_index_ok b lo hi : 0 <= lo <= hi -> hi <= Z.of_nat (length b) ->
  slice_index b lo hi = Ok (take (Z.to_nat (hi - lo)) (drop (Z.to_nat lo) b)).
Proof. intros H1 H2. unfold slice_index. case_bools. Qed.

(** [s] holds exactly the segments [l]. *)
Definition represents {S} `{ReaderSegments S} (s : S) (l : list (list byte)) : Prop :=
  segments_len s = Ok (Z.of_nat (length l)) /\
  forall id, u32 id -> get_segment s id = Ok (nth_segment l id).

Lemma list_represents l : represents l l.
Proof. split; done. Qed.

(** The default [len] computes the number of segments. *)
Lemma default_len_spec {S} `{ReaderSegments S} (s : S) l :
  represents s l -> Z.of_nat (length l) < 2 ^ 32 ->
  forall i, (i <= length l)%nat ->
  default_len get_segment s (Datatypes.S (length l - i)) (Z.of_nat i) = Ok (Z.of_nat (length l)).
Proof.
  intros [_ Hget] Hl i Hi. remember (length l - i)%nat as d eqn:Hd.
  revert i Hi Hd. induction d as [|d IH]; intros i Hi Hd; cbn [default_len];
    rewrite wrap32_small, Hget by (unfold u32, in_width; lia); unfold nth_segment; rewrite Nat2Z.id;
    cbn [bind outcome_monad].
  - rewrite lookup_ge_None_2 by lia. f_equal. lia.
  - destruct (lookup_lt_is_Some_2 l i) as [x ->]; [lia|].
    specialize (IH (Datatypes.S i) ltac:(lia) ltac:(lia)).
    rewrite Nat2Z.inj_succ in IH. by rewrite <- Z.add_1_r in IH.
Qed.

(** ** [message::Reader] *)

(** [ReaderArenaImpl<S>] *)
Record ReaderArenaImpl (S : Type) := {
  arena_segments : S;
  read_limiter : ReadLimiter;
  arena_nesting_limit : Z
}.
Arguments arena_segments {S} _.
Arguments read_limiter {S} _.
Arguments arena_nesting_limit {S} _.

(** [ReaderArenaImpl::new] *)
Definition ReaderArenaImpl_new {S} (segments : S) (options : ReaderOptions) : ReaderArenaImpl S :=
  {| arena_segments := segments;
     read_limiter := ReadLimiter_new (traversal_limit_in_words options);
     arena_nesting_limit := nesting_limit options |}.

(** [message::Reader<S>]: its only field is the arena. *)
Record Reader (S : Type) := { arena : ReaderArenaImpl S }.
Arguments arena {S} _.

Definition Reader_new {S} (segments : S) (options : ReaderOptions) : Reader S :=
  {| arena := ReaderArenaImpl_new segments options |}.

(** [Reader::into_segments] *)
Definition into_segments {S} (r : Reader S) : S := arena_segments (arena r).
