(* ===== verification/Serialize.v ===== *)
(** * Stream framing: capnp/src/serialize.rs

    The segment table, reading a message from a [Read] or from a flat slice,
    writing one to a [Write] or to a vector.  The code-level definitions; what
    they compute is in SerializeSpec. *)

From S2P Require Import Prelude.
From S2P Require Import Io.
From S2P Require Import ReadLimiter.
From S2P Require Import Segments.
Definition SEGMENTS_COUNT_LIMIT : Z := 512.

(** [u32::from_le_bytes(buf[lo..lo+4].try_into().unwrap())] *)
Definition from_le_bytes (buf : list byte) (lo : Z) : outcome Z :=
  s ← slice_index buf lo (lo + 4); Ok (le_combine s).

(** [x.to_le_bytes()] for a [u32] *)
Definition to_le_bytes (x : Z) : list byte := le_split 4 x.

(** [buf[lo..lo + bs.len()].copy_from_slice(bs)] *)
Definition copy_from_slice (buf : list byte) (lo : Z) (bs : list byte) : outcome (list byte) :=
  let lo := Z.to_nat lo in
  if (lo + length bs <=? length buf)%nat
  then Ok (take lo buf ++ bs ++ drop (lo + length bs) buf) else Panic.

Definition zeros (n : Z) : list byte := repeat Byte.x00 (Z.to_nat n).

(** ** Segment containers *)

(** [SegmentLengthsBuilder]: start and end of each segment, in words *)
Record SegmentLengthsBuilder := {
  lengths_indices : list (Z * Z);
  total_words : Z
}.

Definition SegmentLengthsBuilder_with_capacity : SegmentLengthsBuilder :=
  {| lengths_indices := []; total_words := 0 |}.

Definition try_push_segment (length_in_words : Z) (b : SegmentLengthsBuilder) :
    outcome SegmentLengthsBuilder :=
  new_total_words ← ok_or (checked_add (total_words b) length_in_words) MessageSizeOverflow;
  Ok {| lengths_indices := lengths_indices b ++ [(total_words b, new_total_words)];
        total_words := new_total_words |}.

(** [OwnedSegments]; [owned_space] as bytes *)
Record OwnedSegments := {
  owned_indices : list (Z * Z);
  owned_space : list byte
}.

Definition into_owned_segments (b : SegmentLengthsBuilder) : OwnedSegments :=
  {| owned_indices := lengths_indices b;
     owned_space := zeros (8 * total_words b) |}.

(** [BufferSegments<T>], with [SliceSegments] the case of a borrowed slice *)
Record BufferSegments := {
  buffer : list byte;
  segment_table_bytes_len : Z;
  segment_indices : list (Z * Z)
}.

(** [segment_indices[id]], for an [id] below [segment_indices.len() as u32] *)
Definition indices_get (indices : list (Z * Z)) (id : Z) : option (Z * Z) :=
  if id <? wrap32 (Z.of_nat (length indices)) then indices !! Z.to_nat id else None.

#[export] Instance OwnedSegments_segments : ReaderSegments OwnedSegments := {|
  get_segment := fun s id =>
    match indices_get (owned_indices s) id with
    | Some (a, b) =>
        seg ← slice_index (owned_space s) (a * BYTES_PER_WORD) (b * BYTES_PER_WORD);
        Ok (Some seg)
    | None => Ok None
    end;
  segments_len := fun s => Ok (Z.of_nat (length (owned_indices s)))
|}.

#[export] Instance BufferSegments_segments : ReaderSegments BufferSegments := {|
  get_segment := fun s id =>
    match indices_get (segment_indices s) id with
    | Some (a, b) =>
        seg ← slice_index (buffer s) (segment_table_bytes_len s + a * BYTES_PER_WORD)
                (segment_table_bytes_len s + b * BYTES_PER_WORD);
        Ok (Some seg)
    | None => Ok None
    end;
  segments_len := fun s => Ok (Z.of_nat (length (segment_indices s)))
|}.

Definition into_slice_segments (b : SegmentLengthsBuilder) (slice : list byte) (table_len : Z) :
    outcome BufferSegments :=
  n ← umul 64 (total_words b) BYTES_PER_WORD;
  rust_assert (n <=? Z.of_nat (length slice)) ;;
  Ok {| buffer := slice; segment_table_bytes_len := table_len;
        segment_indices := lengths_indices b |}.

(** ** Reading *)

(** [for idx in 0..n]: the remaining segment lengths, from [sizes] *)
Definition push_lengths (sizes : list byte) (n : nat) (b : SegmentLengthsBuilder) :
    ST unit SegmentLengthsBuilder :=
  fold_range n 0 b (fun idx b =>
    segment_len ← lift (from_le_bytes sizes (idx * 4));
    lift (try_push_segment segment_len b)).

(** [lift], from code without state into code with one *)
Definition stateless {S A} (c : ST unit A) : ST S A := lift (fst (c tt)).

(** The first eight bytes of a message: [None] at a clean end of the
    stream. *)
Definition read_first_word {R} `{Read R} : ST R (option (list byte)) :=
  bs ← read 8;
  if (length bs =? 0)%nat then ret None
  else if (length bs <? 8)%nat then
    rest ← read_exact (8 - length bs); ret (Some (bs ++ rest))
  else ret (Some bs).

Definition check_traversal_limit (options : ReaderOptions) (words : Z) : outcome unit :=
  match traversal_limit_in_words options with
  | Some limit => if limit <? words then Err (MessageTooLarge words) else Ok tt
  | None => Ok tt
  end.

Definition read_segment_table {R} `{Read R} (options : ReaderOptions) :
    ST R (option SegmentLengthsBuilder) :=
  first ← read_first_word;
  match first with
  | None => ret None
  | Some buf =>
      count1 ← lift (from_le_bytes buf 0);
      let segment_count := wrap32 (count1 + 1) in
      if (SEGMENTS_COUNT_LIMIT <=? segment_count) || (segment_count =? 0)
      then fails (InvalidNumberOfSegments segment_count)
      else
        len0 ← lift (from_le_bytes buf 4);
        b ← lift (try_push_segment len0 SegmentLengthsBuilder_with_capacity);
        b ← (if 1 <? segment_count then
               let n := Z.to_nat (segment_count - 1) in
               if segment_count <? 4 then
                 buf ← read_exact 8;
                 stateless (push_lengths buf n b)
               else
                 segment_sizes ← read_exact (Z.to_nat (Z.ldiff segment_count 1 * 4));
                 stateless (push_lengths segment_sizes n b)
             else ret b);
        lift (check_traversal_limit options (total_words b)) ;;
        ret (Some b)
  end.

(** [read_segments]: fills the owned space *)
Definition read_segments {R} `{Read R} (owned : OwnedSegments) (options : ReaderOptions) :
    ST R (Reader OwnedSegments) :=
  bytes ← read_exact (length (owned_space owned));
  ret (Reader_new {| owned_indices := owned_indices owned; owned_space := bytes |} options).

Definition read_message {R} `{Read R} (options : ReaderOptions) : ST R (Reader OwnedSegments) :=
  t ← read_segment_table options;
  match t with
  | None => fails PrematureEndOfFile
  | Some b => read_segments (into_owned_segments b) options
  end.

Definition try_read_message {R} `{Read R} (options : ReaderOptions) :
    ST R (option (Reader OwnedSegments)) :=
  t ← read_segment_table options;
  match t with
  | None => ret None
  | Some b => m ← read_segments (into_owned_segments b) options; ret (Some m)
  end.

(** [read_message_from_flat_slice]: the state is the caller's slice, updated
    only on success. *)
Definition read_message_from_flat_slice (options : ReaderOptions) :
    ST (list byte) (Reader BufferSegments) :=
  all_bytes ← get_state;
  let '(t, bytes) := read_segment_table options all_bytes in
  t ← lift t;
  match t with
  | None => fails EmptySlice
  | Some b =>
      table_len ← lift (usub (Z.of_nat (length all_bytes)) (Z.of_nat (length bytes)));
      lift (rust_assert (table_len mod BYTES_PER_WORD =? 0)) ;;
      let num_words := total_words b in
      body_bytes ← lift (slice_index all_bytes table_len (Z.of_nat (length all_bytes)));
      let body_words := Z.of_nat (length body_bytes) / BYTES_PER_WORD in
      if body_words <? num_words
      then fails (MessageEndsPrematurely num_words body_words)
      else
        n ← lift (umul 64 num_words BYTES_PER_WORD);
        rest ← lift (slice_index body_bytes n (Z.of_nat (length body_bytes)));
        put_state rest ;;
        segments ← lift (into_slice_segments b all_bytes table_len);
        ret (Reader_new segments options)
  end.

Definition BufferSegments_new (buf : list byte) (options : ReaderOptions) :
    outcome BufferSegments :=
  let '(t, segment_bytes) := read_segment_table options buf in
  t ← t;
  match t with
  | None => Err EmptyBuffer
  | Some b =>
      table_len ← usub (Z.of_nat (length buf)) (Z.of_nat (length segment_bytes));
      n ← umul 64 (total_words b) 8;
      rust_assert (n <=? Z.of_nat (length buf)) ;;
      Ok {| buffer := buf; segment_table_bytes_len := table_len;
            segment_indices := lengths_indices b |}
  end.

(** ** Writing *)

Section write.
Context {S : Type} `{ReaderSegments S}.

(** [segments.get_segment(idx).unwrap()] *)
Definition segment_at (segments : S) (idx : Z) : outcome (list byte) :=
  o ← get_segment segments (wrap32 idx); unwrap o.

(** [((segments.get_segment(idx).unwrap().len() / 8) as u32).to_le_bytes()] *)
Definition segment_len_bytes (segments : S) (idx : Z) : outcome (list byte) :=
  segment ← segment_at segments idx;
  Ok (to_le_bytes (wrap32 (Z.of_nat (length segment) / BYTES_PER_WORD))).

(** [for idx in 1..segment_count]: lengths into [buf] *)
Definition put_lengths (segments : S) (segment_count : Z) (buf : list byte) :
    outcome (list byte) :=
  fst (fold_range (Z.to_nat (segment_count - 1)) 1 buf
    (fun idx buf => bs ← lift (segment_len_bytes segments idx);
                    lift (copy_from_slice buf ((idx - 1) * 4) bs)) tt).

Definition write_segment_table_internal {W} `{Write W} (segments : S) : ST W unit :=
  segment_count ← lift (segments_len segments);
  count1 ← lift (usub (wrap32 segment_count) 1);
  buf ← lift (copy_from_slice (zeros 8) 0 (to_le_bytes count1));
  len0 ← lift (segment_len_bytes segments 0);
  buf ← lift (copy_from_slice buf 4 len0);
  write_all buf ;;
  if 1 <? segment_count then
    if segment_count <? 4 then
      buf ← lift (put_lengths segments segment_count buf);
      buf ← (if segment_count =? 2 then lift (copy_from_slice buf 4 (zeros 4)) else ret buf);
      write_all buf
    else
      buf ← lift (put_lengths segments segment_count (zeros (Z.ldiff segment_count 1 * 4)));
      buf ← (if segment_count mod 2 =? 0
             then
               start_idx ← lift (usub (Z.of_nat (length buf)) 4);
               lift (copy_from_slice buf start_idx (zeros 4))
             else ret buf);
      write_all buf
  else ret tt.

(** [for i in 0..]: until a segment is missing *)
Fixpoint write_segments_from {W} `{Write W} (fuel : nat) (segments : S) (i : Z) : ST W unit :=
  match fuel with
  | O => lift OutOfFuel
  | Datatypes.S fuel =>
      o ← lift (get_segment segments i);
      match o with
      | Some segment =>
          write_all segment ;;
          i ← lift (uadd 32 i 1);
          write_segments_from fuel segments i
      | None => ret tt
      end
  end.

(** The bound on the rounds is one more than the number of segments. *)
Definition write_segments {W} `{Write W} (segments : S) : ST W unit :=
  n ← lift (segments_len segments);
  write_segments_from (Datatypes.S (Z.to_nat n)) segments 0.

Definition write_message_segments {W} `{Write W} (segments : S) : ST W unit :=
  write_segment_table_internal segments ;;
  write_segments segments.

Definition compute_serialized_size (segments : S) : outcome Z :=
  len ← segments_len segments;
  n ← umul 64 (len / 2 + 1) BYTES_PER_WORD;
  fst (fold_range (Z.to_nat len) 0 n (fun i size =>
    segment ← lift (segment_at segments i);
    lift (uadd 64 size (Z.of_nat (length segment)))) tt).

(** [flatten_segments]: the table goes to the front of the vector through
    [&mut result[..]], the segments are appended.  The closing assertion
    says that the vector did not outgrow the capacity it was created
    with. *)
Definition flatten_segments (segments : S) : outcome (list byte) :=
  word_count ← compute_serialized_size segments;
  segment_count ← segments_len segments;
  let table_size := segment_count / 2 + 1 in
  n ← umul 64 table_size BYTES_PER_WORD;
  result ← (match write_segment_table_internal segments {| stored := []; space := Z.to_nat n |} with
            | (Ok _, w) => Ok (stored w ++ repeat Byte.x00 (space w))
            | (Err _, _) => Panic
            | (Panic, _) => Panic
            | (UB, _) => UB
            | (OutOfFuel, _) => OutOfFuel
            end);
  result ← fst (fold_range (Z.to_nat segment_count) 0 result (fun i result =>
    segment ← lift (segment_at segments i);
    ret (result ++ segment)) tt);
  rust_assert (Z.of_nat (length result) <=? word_count) ;;
  Ok result.

(** [write_message_segments_to_words] *)
Definition write_message_segments_to_words (segments : S) : outcome (list byte) :=
  flatten_segments segments.
End write.
