(* ===== verification/SerializeSpec.v ===== *)
(** * What framing computes

    [frame_chunks l] is the sequence of [write_all] arguments of a message
    with segments [l]; [frame l] the bytes of the message.  Writing is exactly
    that sequence, for every writer; reading recovers [l] from every reader
    that delivers it. *)

From S2P Require Import Prelude Io Packed PackedSpec ReadLimiter Segments Serialize.

(** ** The format *)

Definition word_len (s : list byte) : Z := Z.of_nat (length s) / 8.

(** The lengths of the segments after the first, padded to a word. *)
Definition more_lengths (l : list (list byte)) : list byte :=
  concat (map (fun s => le_split 4 (word_len s)) (tail l)) ++
  (if (length l mod 2 =? 0)%nat then zeros 4 else []).

Definition first_word (l : list (list byte)) : list byte :=
  le_split 4 (Z.of_nat (length l) - 1) ++ le_split 4 (word_len (hd [] l)).

Definition table_chunks (l : list (list byte)) : list (list byte) :=
  first_word l :: (if (length l <=? 1)%nat then [] else [more_lengths l]).

Definition frame_chunks (l : list (list byte)) : list (list byte) := table_chunks l ++ l.
Definition frame (l : list (list byte)) : list byte := concat (frame_chunks l).

Definition total_len (l : list (list byte)) : Z := foldr (fun s n => word_len s + n) 0 l.

(** The segment lists the format can express. *)
Definition frameable (l : list (list byte)) : Prop :=
  l <> [] /\ Z.of_nat (length l) < 2 ^ 32 /\
  Forall (fun s => aligned s /\ word_len s < 2 ^ 32) l.

Lemma length_zeros n : length (zeros n) = Z.to_nat n.
Proof. apply repeat_length. Qed.
Lemma drop_zeros n k : drop k (zeros n) = zeros (n - Z.of_nat k).
Proof.
  unfold zeros. replace (Z.to_nat (n - Z.of_nat k)) with (Z.to_nat n - k)%nat by lia.
  generalize (Z.to_nat n) as m. revert k.
  induction k as [|k IH]; intros m; [by rewrite drop_0, Nat.sub_0_r|].
  destruct m as [|m]; [done|]. apply IH.
Qed.
Lemma word_len_nonneg s : 0 <= word_len s.
Proof. unfold word_len. zlia. Qed.
Lemma total_len_nonneg l : 0 <= total_len l.
Proof. induction l as [|s l IH]; simpl; [lia|]. pose proof (word_len_nonneg s). lia. Qed.
Lemma aligned_word_len s : aligned s -> Z.of_nat (length s) = 8 * word_len s.
Proof.
  unfold aligned, word_len. intros H.
  apply Nat.Div0.mod_divides in H as [k Hk]. rewrite Hk. zlia.
Qed.
Lemma total_len_concat l : Forall aligned l -> Z.of_nat (length (concat l)) = 8 * total_len l.
Proof.
  induction 1 as [|s l Hs _ IH]; simpl; [done|].
  rewrite length_app, Nat2Z.inj_add, IH, (aligned_word_len s) by done. lia.
Qed.
Lemma word_len_32 w : 0 <= w < 2 ^ 32 -> le_combine (le_split 4 w) = w.
Proof. intros H. rewrite le_combine_split. apply Z.mod_small. lia. Qed.

Lemma frameable_aligned l : frameable l -> Forall aligned l.
Proof. intros (_ & _ & H). eapply Forall_impl; [|exact H]. by intros s [Hs _]. Qed.

(** ** Little-endian words in a buffer *)

Lemma from_le_bytes_mid pre w post :
  0 <= w < 2 ^ 32 ->
  from_le_bytes (pre ++ le_split 4 w ++ post) (Z.of_nat (length pre)) = Ok w.
Proof.
  intros Hw. unfold from_le_bytes. rewrite slice_index_ok.
  2: lia. 2: { rewrite !length_app, length_le_split. lia. }
  cbn [bind outcome_monad]. f_equal. rewrite Nat2Z.id, drop_app_length.
  replace (Z.to_nat _) with (length (le_split 4 w)) by (rewrite length_le_split; lia).
  rewrite take_app_length. by apply word_len_32.
Qed.

Lemma copy_from_slice_mid pre mid post bs :
  length mid = length bs ->
  copy_from_slice (pre ++ mid ++ post) (Z.of_nat (length pre)) bs = Ok (pre ++ bs ++ post).
Proof.
  intros Hl. unfold copy_from_slice. rewrite Nat2Z.id, !length_app.
  case_bools. f_equal. rewrite take_app_length. f_equal. f_equal.
  rewrite <- Hl, drop_app_add, drop_app_length. done.
Qed.

Definition le_words (ws : list Z) : list byte := concat (map (le_split 4) ws).
Lemma length_le_words ws : length (le_words ws) = (4 * length ws)%nat.
Proof.
  unfold le_words. induction ws as [|w ws IH]; [done|]. cbn [map concat length].
  rewrite length_app, length_le_split, IH. lia.
Qed.
Lemma le_words_cons w ws : le_words (w :: ws) = le_split 4 w ++ le_words ws.
Proof. done. Qed.
Lemma le_words_app ws1 ws2 : le_words (ws1 ++ ws2) = le_words ws1 ++ le_words ws2.
Proof. unfold le_words. by rewrite map_app, concat_app. Qed.
Lemma more_lengths_words l :
  more_lengths l = le_words (map word_len (tail l)) ++
    (if (length l mod 2 =? 0)%nat then zeros 4 else []).
Proof. unfold more_lengths, le_words. by rewrite map_map. Qed.

Lemma ldiff_1 n : 0 <= n -> Z.ldiff n 1 = 2 * (n / 2).
Proof.
  intros Hn. change (Z.ldiff n 1) with (Z.ldiff n (Z.ones 1)).
  rewrite Z.ldiff_ones_r, Z.shiftr_div_pow2, Z.shiftl_mul_pow2 by lia. change (2 ^ 1) with 2. lia.
Qed.

Lemma even_case n : (n mod 2 = 0 /\ n = 2 * (n / 2) \/ n mod 2 = 1 /\ n = 2 * (n / 2) + 1)%nat.
Proof. pose proof (Nat.div_mod_eq n 2). assert (n mod 2 < 2)%nat by (by apply Nat.mod_upper_bound). lia. Qed.

(** The length table is a whole number of words. *)
Lemma length_more_lengths l : l <> [] ->
  Z.of_nat (length (more_lengths l)) = Z.ldiff (Z.of_nat (length l)) 1 * 4.
Proof.
  intros Hl. rewrite more_lengths_words, length_app, length_le_words, length_map, ldiff_1 by lia.
  destruct l as [|s l]; [done|]. cbn [tail].
  destruct (even_case (length (s :: l))) as [[-> He]|[-> He]]; cbn [Nat.eqb];
    rewrite ?length_zeros; cbn [length] in *; zlia.
Qed.

(** ** Writing is the sequence of chunks *)

(** [for idx in lo + 1..] that copies the words [ws] one after the other *)
Lemma fold_range_copy {S} (f : Z -> outcome (list byte)) ws : forall lo pre mid post (st : S),
  length mid = (4 * length ws)%nat -> length pre = (4 * lo)%nat ->
  (forall j w, ws !! j = Some w -> f (Z.of_nat (lo + 1 + j)) = Ok (le_split 4 w)) ->
  fold_range (length ws) (Z.of_nat (lo + 1)) (pre ++ mid ++ post)
    (fun idx buf => bs ← lift (f idx); lift (copy_from_slice buf ((idx - 1) * 4) bs)) st =
  (Ok (pre ++ le_words ws ++ post), st).
Proof.
  induction ws as [|w ws IH]; intros lo pre mid post st Hm Hp Hf.
  { apply nil_length_inv in Hm as ->. done. }
  cbn [length fold_range]. specialize (Hf 0%nat w eq_refl) as Hw.
  rewrite Nat.add_0_r in Hw. rewrite ST_bind_assoc, (lift_bind_ok _ _ _ _ Hw).
  rewrite <- (take_drop 4 mid), <- app_assoc.
  replace ((Z.of_nat (lo + 1) - 1) * 4) with (Z.of_nat (length pre)) by lia.
  cbn [length] in Hm.
  erewrite lift_bind_ok by (apply copy_from_slice_mid; rewrite length_take, length_le_split; lia).
  replace (Z.of_nat (lo + 1) + 1) with (Z.of_nat (Datatypes.S lo + 1)) by lia.
  rewrite (app_assoc pre).
  rewrite IH; [|rewrite length_drop; lia|rewrite length_app, length_le_split; lia|].
  - by rewrite le_words_cons, <- !app_assoc.
  - intros j w' Hj. replace (Datatypes.S lo + 1 + j)%nat with (lo + 1 + Datatypes.S j)%nat by lia.
    by apply Hf.
Qed.

Lemma mut_slice_write_chunks cs : forall st n,
  write_chunks cs {| stored := st; space := length (concat cs) + n |} =
  (Ok tt, {| stored := st ++ concat cs; space := n |}).
Proof.
  induction cs as [|c cs IH]; intros st n; cbn [write_chunks concat].
  { by rewrite app_nil_r. }
  unfold bind, write_all, mut_slice_write; cbn [ST_monad space stored].
  rewrite length_app.
  destruct (Nat.ltb_spec (length c + length (concat cs) + n) (length c)); [lia|].
  replace (length c + length (concat cs) + n - length c)%nat with (length (concat cs) + n)%nat by lia.
  by rewrite IH, <- app_assoc.
Qed.

Section frameable.
Context (l : list (list byte)) (Hfr : frameable l).

Lemma hd_lookup : l !! 0%nat = Some (hd [] l).
Proof. destruct Hfr as [Hne _]. by destruct l. Qed.
Lemma length_pos : (0 < length l)%nat.
Proof. destruct Hfr as [Hne _]. destruct l; [done|simpl; lia]. Qed.

Lemma table_chunks_length :
  Z.of_nat (length (concat (table_chunks l))) = 8 * (Z.of_nat (length l) / 2 + 1).
Proof.
  pose proof length_pos as Hpos. unfold table_chunks. cbn [concat].
  rewrite length_app. change (length (first_word l)) with 8%nat.
  destruct (Nat.leb_spec (length l) 1).
  - replace (length l) with 1%nat by lia. done.
  - cbn [concat]. rewrite app_nil_r, Nat2Z.inj_add, length_more_lengths by (by destruct Hfr).
    rewrite ldiff_1 by lia. lia.
Qed.

Lemma frame_length :
  Z.of_nat (length (frame l)) = 8 * (Z.of_nat (length l) / 2 + 1) + Z.of_nat (length (concat l)).
Proof.
  unfold frame, frame_chunks.
  rewrite concat_app, length_app, Nat2Z.inj_add, table_chunks_length. done.
Qed.

End frameable.

Lemma concat_take_S {A} (l : list (list A)) i s : l !! i = Some s ->
    concat (take (Datatypes.S i) l) = concat (take i l) ++ s.
  Proof. intros Hi. rewrite (take_S_r _ _ _ Hi), concat_app. simpl. by rewrite app_nil_r. Qed.

Section write.
Context {S : Type} `{ReaderSegments S}.
Context (segments : S) (l : list (list byte)).
Context (Hrep : represents segments l) (Hfr : frameable l).

Lemma represents_len : segments_len segments = Ok (Z.of_nat (length l)).
Proof. apply Hrep. Qed.

Lemma represents_get i s : l !! i = Some s ->
  get_segment segments (Z.of_nat i) = Ok (Some s).
Proof.
  intros Hi. apply lookup_lt_Some in Hi as Hlt. destruct Hfr as (_ & Hlen & _).
  rewrite (proj2 Hrep) by (unfold u32, in_width; lia).
  unfold nth_segment. by rewrite Nat2Z.id, Hi.
Qed.

Lemma segment_at_ok i s : l !! i = Some s -> segment_at segments (Z.of_nat i) = Ok s.
Proof.
  intros Hi. apply lookup_lt_Some in Hi as Hlt. destruct Hfr as (_ & Hlen & _).
  unfold segment_at. rewrite wrap32_small by lia. by rewrite (represents_get i s Hi).
Qed.

Lemma segment_len_bytes_ok i s : l !! i = Some s ->
  segment_len_bytes segments (Z.of_nat i) = Ok (le_split 4 (word_len s)).
Proof.
  intros Hi. unfold segment_len_bytes. rewrite (segment_at_ok i s Hi). cbn [bind outcome_monad].
  destruct Hfr as (_ & _ & Hf). apply (Forall_lookup_1 _ _ _ _ Hf) in Hi as [_ Hw].
  pose proof (word_len_nonneg s). unfold word_len in *. by rewrite wrap32_small.
Qed.

Lemma put_lengths_ok mid post :
  length mid = (4 * (length l - 1))%nat ->
  put_lengths segments (Z.of_nat (length l)) (mid ++ post) =
  Ok (le_words (map word_len (tail l)) ++ post).
Proof.
  intros Hm. unfold put_lengths.
  assert (Hn : Z.to_nat (Z.of_nat (length l) - 1) = length (map word_len (tail l))).
  { rewrite length_map, length_tl. lia. }
  rewrite Hn. change 1 with (Z.of_nat (0 + 1)) at 1. change (mid ++ post) with ([] ++ mid ++ post).
  rewrite fold_range_copy; [done|rewrite Hm; lia|done|].
  intros j w Hj. rewrite list_lookup_fmap in Hj.
  destruct (tail l !! j) as [s|] eqn:Et; [|done]. injection Hj as <-.
  apply segment_len_bytes_ok. by rewrite lookup_tail in Et.
Qed.

Lemma first_word_ok :
  (count1 ← usub (wrap32 (Z.of_nat (length l))) 1;
   buf ← copy_from_slice (zeros 8) 0 (to_le_bytes count1);
   len0 ← segment_len_bytes segments 0;
   copy_from_slice buf 4 len0) = Ok (first_word l).
Proof.
  pose proof (length_pos l Hfr). destruct Hfr as (_ & Hlen & _).
  rewrite wrap32_small, usub_ok by lia. cbn [bind outcome_monad].
  change (zeros 8) with ([] ++ zeros 4 ++ zeros 4). change 0 with (Z.of_nat (length (@nil byte))).
  rewrite copy_from_slice_mid by done. cbn [bind outcome_monad].
  change (Z.of_nat (length [])) with (Z.of_nat 0).
  rewrite (segment_len_bytes_ok 0 _ (hd_lookup l Hfr)). cbn [bind outcome_monad].
  unfold first_word. rewrite <- (app_nil_r (zeros 4)).
  change 4 with (Z.of_nat (length (to_le_bytes (Z.of_nat (length l) - 1)))) at 2.
  rewrite app_nil_l, copy_from_slice_mid by done. by rewrite app_nil_r.
Qed.

(** The second table chunk, for two or three segments. *)
Lemma small_table_ok buf : (1 < length l < 4)%nat -> length buf = 8%nat ->
  (buf ← put_lengths segments (Z.of_nat (length l)) buf;
   if Z.of_nat (length l) =? 2 then copy_from_slice buf 4 (zeros 4) else Ok buf) =
  Ok (more_lengths l).
Proof.
  intros Hl Hb. rewrite <- (take_drop (4 * (length l - 1)) buf).
  rewrite put_lengths_ok by (rewrite length_take; lia). cbn [bind outcome_monad].
  rewrite more_lengths_words.
  assert (Hd : length (drop (4 * (length l - 1)) buf) = (8 - 4 * (length l - 1))%nat)
    by (rewrite length_drop; lia).
  assert (Hw : length (le_words (map word_len (tail l))) = (4 * (length l - 1))%nat)
    by (rewrite length_le_words, length_map, length_tl; done).
  destruct (Z.eqb_spec (Z.of_nat (length l)) 2) as [H2|H2].
  - assert (E : length l = 2%nat) by lia.
    replace (length l mod 2 =? 0)%nat with true by (by rewrite E).
    rewrite <- (app_nil_r (drop _ buf)).
    replace 4 with (Z.of_nat (length (le_words (map word_len (tail l))))) at 1 by lia.
    rewrite copy_from_slice_mid by (rewrite Hd, length_zeros; lia). by rewrite app_nil_r.
  - assert (E : length l = 3%nat) by lia.
    replace (length l mod 2 =? 0)%nat with false by (by rewrite E).
    rewrite E in Hd. apply nil_length_inv in Hd. by rewrite E, Hd.
Qed.

(** For four segments or more. *)
Lemma large_table_ok : (4 <= length l)%nat ->
  (buf ← put_lengths segments (Z.of_nat (length l)) (zeros (Z.ldiff (Z.of_nat (length l)) 1 * 4));
   if Z.of_nat (length l) mod 2 =? 0
   then start_idx ← usub (Z.of_nat (length buf)) 4; copy_from_slice buf start_idx (zeros 4)
   else Ok buf) = Ok (more_lengths l).
Proof.
  intros Hl. rewrite ldiff_1 by lia. rewrite <- (take_drop (4 * (length l - 1)) (zeros _)).
  pose proof (even_case (length l)) as Hev.
  rewrite put_lengths_ok by (rewrite length_take, length_zeros; zlia). cbn [bind outcome_monad].
  rewrite more_lengths_words, drop_zeros.
  assert (Hw : length (le_words (map word_len (tail l))) = (4 * (length l - 1))%nat)
    by (rewrite length_le_words, length_map, length_tl; done).
  replace (Z.of_nat (length l) mod 2) with (Z.of_nat (length l mod 2)) by zlia.
  destruct Hev as [[-> He]|[-> He]]; cbn [Z.of_nat Z.eqb Nat.eqb Pos.of_succ_nat].
  - replace (2 * (Z.of_nat (length l) / 2) * 4 - Z.of_nat (4 * (length l - 1))) with 4 by zlia.
    rewrite usub_ok by (rewrite length_app, length_zeros; lia). cbn [bind outcome_monad].
    replace (_ - 4) with (Z.of_nat (length (le_words (map word_len (tail l)))))
      by (rewrite length_app, length_zeros; lia).
    rewrite <- (app_nil_r (zeros 4)) at 1. by rewrite copy_from_slice_mid, app_nil_r.
  - by replace (2 * (Z.of_nat (length l) / 2) * 4 - Z.of_nat (4 * (length l - 1))) with 0 by zlia.
Qed.

Lemma write_table_ok {W} `{Write W} (w : W) :
  write_segment_table_internal segments w = write_chunks (table_chunks l) w.
Proof.
  pose proof (length_pos l Hfr) as Hpos. pose proof first_word_ok as Hfirst. inv_bind.
  unfold write_segment_table_internal.
  rewrite (lift_bind_ok _ _ _ _ represents_len).
  rewrite (lift_bind_ok _ _ _ _ Ha), (lift_bind_ok _ _ _ _ Ha0), (lift_bind_ok _ _ _ _ Ha1).
  rewrite (lift_bind_ok _ _ _ _ Hfirst). clear Ha Ha0 Ha1 Hfirst.
  unfold table_chunks. cbn [write_chunks]. apply ST_bind_ext; intros [] w1.
  destruct (Nat.leb_spec (length l) 1), (Z.ltb_spec 1 (Z.of_nat (length l))); try lia; [done|].
  cbn [write_chunks].
  transitivity (write_all (more_lengths l) w1).
  2: { rewrite <- ST_bind_ret. by apply ST_bind_ext; intros [] w2. }
  destruct (Z.ltb_spec (Z.of_nat (length l)) 4).
  - pose proof (small_table_ok (first_word l) ltac:(lia) eq_refl) as Hs. inv_bind.
    rewrite (lift_bind_ok _ _ _ _ Ha).
    destruct (Z.of_nat (length l) =? 2); [by rewrite (lift_bind_ok _ _ _ _ Hs)|].
    by inv_bind.
  - pose proof (large_table_ok ltac:(lia)) as Hs. inv_bind.
    rewrite (lift_bind_ok _ _ _ _ Ha).
    destruct (Z.of_nat (length l) mod 2 =? 0); inv_bind; [|done].
    by rewrite ST_bind_assoc, (lift_bind_ok _ _ _ _ Ha0), (lift_bind_ok _ _ _ _ Hs).
Qed.

Lemma write_segments_from_ok {W} `{Write W} k : forall fuel (w : W),
  (k <= length l)%nat -> (length l - k < fuel)%nat ->
  write_segments_from fuel segments (Z.of_nat k) w = write_chunks (drop k l) w.
Proof.
  intros fuel. revert k. induction fuel as [|fuel IH]; intros k w Hk Hf; [lia|].
  destruct Hfr as (_ & Hlen & _). cbn [write_segments_from].
  destruct (l !! k) as [s|] eqn:Ek.
  - rewrite (lift_bind_ok _ _ _ _ (represents_get k s Ek)).
    rewrite (drop_S _ _ _ Ek). cbn [write_chunks]. apply ST_bind_ext; intros [] w1.
    apply lookup_lt_Some in Ek as Hlt.
    rewrite uadd_ok by lia. rewrite (lift_bind_ok _ _ _ _ eq_refl).
    replace (Z.of_nat k + 1) with (Z.of_nat (Datatypes.S k)) by lia. apply IH; lia.
  - apply lookup_ge_None in Ek as Hge. rewrite drop_ge by done.
    rewrite (lift_bind_ok _ _ _ None); [done|].
    rewrite (proj2 Hrep) by (unfold u32, in_width; lia).
    unfold nth_segment. by rewrite Nat2Z.id, Ek.
Qed.

Lemma write_message_segments_ok {W} `{Write W} (w : W) :
  write_message_segments segments w = write_chunks (frame_chunks l) w.
Proof.
  unfold frame_chunks. rewrite write_chunks_app. unfold write_message_segments.
  unfold bind; cbn [ST_monad]. rewrite write_table_ok.
  destruct (write_chunks (table_chunks l) w) as [[] w1]; try done.
  unfold write_segments. rewrite (lift_bind_ok _ _ _ _ represents_len).
  rewrite (write_segments_from_ok 0) by lia. by rewrite drop_0.
Qed.

Definition small_frame : Prop := Z.of_nat (length (frame l)) < 2 ^ 64.

(** A loop over all segments, from the first. *)
Lemma fold_segments {A} (f : list byte -> A -> outcome A) (g : nat -> A) :
  (forall i s, l !! i = Some s -> f s (g i) = Ok (g (Datatypes.S i))) ->
  fold_range (length l) 0 (g 0%nat)
    (fun i acc => segment ← lift (segment_at segments i); lift (f segment acc)) tt =
  (Ok (g (length l)), tt).
Proof.
  intros Hf. change 0 with (Z.of_nat 0).
  assert (Hgen : forall n k, (k + n)%nat = length l ->
    fold_range n (Z.of_nat k) (g k)
      (fun i acc => segment ← lift (segment_at segments i); lift (f segment acc)) tt =
    (Ok (g (length l)), tt)); [|by apply Hgen].
  induction n as [|n IH]; intros k Hk; cbn [fold_range].
  { rewrite Nat.add_0_r in Hk. by rewrite <- Hk. }
  destruct (lookup_lt_is_Some_2 l k) as [s Hs]; [lia|].
  rewrite ST_bind_assoc, (lift_bind_ok _ _ _ _ (segment_at_ok k s Hs)).
  rewrite (lift_bind_ok _ _ _ _ (Hf k s Hs)).
  replace (Z.of_nat k + 1) with (Z.of_nat (Datatypes.S k)) by lia. apply IH. lia.
Qed.

Lemma compute_serialized_size_ok : small_frame ->
  compute_serialized_size segments = Ok (Z.of_nat (length (frame l))).
Proof.
  unfold small_frame. rewrite (frame_length l Hfr). intros Hs. unfold compute_serialized_size.
  rewrite represents_len. cbn [bind outcome_monad].
  unfold BYTES_PER_WORD. rewrite umul_ok by lia. cbn [bind outcome_monad].
  assert (Hfold := fold_segments (fun s size => uadd 64 size (Z.of_nat (length s)))
    (fun i => (Z.of_nat (length l) / 2 + 1) * 8 + Z.of_nat (length (concat (take i l))))).
  cbn beta in Hfold. cbn [take concat length] in Hfold. rewrite Z.add_0_r in Hfold.
  rewrite Nat2Z.id, Hfold; [cbn [fst]; rewrite take_ge by lia; f_equal; lia|].
  intros i s Hi.
  assert (Hle : (length (concat (take (Datatypes.S i) l)) <= length (concat l))%nat).
  { rewrite <- (take_drop (Datatypes.S i) l) at 2. rewrite concat_app, length_app. lia. }
  rewrite (concat_take_S l i s Hi), length_app in *. rewrite uadd_ok by lia. f_equal. lia.
Qed.

Lemma flatten_segments_ok : small_frame -> flatten_segments segments = Ok (frame l).
Proof.
  intros Hs. unfold flatten_segments. rewrite compute_serialized_size_ok by done.
  cbn [bind outcome_monad]. rewrite represents_len. cbn [bind outcome_monad].
  unfold small_frame in Hs. pose proof (frame_length l Hfr) as Hfl.
  unfold BYTES_PER_WORD. rewrite umul_ok by lia. cbn [bind outcome_monad].
  rewrite write_table_ok.
  assert (Hw : write_chunks (table_chunks l)
      {| stored := []; space := Z.to_nat ((Z.of_nat (length l) / 2 + 1) * 8) |} =
    (Ok tt, {| stored := concat (table_chunks l); space := 0 |})).
  { pose proof (table_chunks_length l Hfr) as Ht.
    assert (E : Z.to_nat ((Z.of_nat (length l) / 2 + 1) * 8) = (length (concat (table_chunks l)) + 0)%nat)
      by lia.
    rewrite E. apply (mut_slice_write_chunks _ [] 0). }
  rewrite Hw. cbn [bind outcome_monad stored space repeat]. rewrite app_nil_r.
  assert (Hfold : fold_range (length l) 0 (concat (table_chunks l)) (fun i result =>
      segment ← lift (segment_at segments i); ret (result ++ segment)) tt =
    (Ok (concat (table_chunks l) ++ concat l), tt)).
  { pose proof (fold_segments (fun s result => Ok (result ++ s))
      (fun i => concat (table_chunks l) ++ concat (take i l))) as Hf.
    cbn beta in Hf. cbn [take concat] in Hf. rewrite app_nil_r, (take_ge l) in Hf by lia.
    apply Hf. intros i s Hi. by rewrite (concat_take_S l i s Hi), app_assoc. }
  rewrite Nat2Z.id, Hfold. cbn [fst bind outcome_monad].
  unfold frame, frame_chunks. rewrite concat_app. unfold rust_assert. by rewrite Z.leb_refl.
Qed.
End write.

(** ** Segment indices *)

Fixpoint indices_from (start : Z) (l : list (list byte)) : list (Z * Z) :=
  match l with
  | [] => []
  | s :: l => (start, start + word_len s) :: indices_from (start + word_len s) l
  end.

Lemma length_indices_from l : forall start, length (indices_from start l) = length l.
Proof. induction l as [|s l IH]; intros start; simpl; auto. Qed.

Lemma indices_from_lookup l : forall start i,
  indices_from start l !! i =
  (fun s => (start + total_len (take i l), start + total_len (take i l) + word_len s)) <$> l !! i.
Proof.
  induction l as [|s l IH]; intros start [|i]; [done|done| |].
  - simpl. by rewrite Z.add_0_r.
  - cbn [indices_from lookup list_lookup take total_len foldr]. 
    change (@lookup nat _ _ list_lookup i ?x) with (x !! i). rewrite IH.
    destruct (l !! i); [|done]. simpl. f_equal. fold (total_len (take i l)). f_equal; lia.
Qed.

Lemma total_len_app l1 l2 : total_len (l1 ++ l2) = total_len l1 + total_len l2.
Proof. induction l1 as [|s l1 IH]; simpl; [done|]. fold (total_len (l1 ++ l2)). fold (total_len l1). lia. Qed.

(** The bytes of segment [i] among the concatenated segments. *)
Lemma segment_slice pre l post i s : Forall aligned l -> l !! i = Some s ->
  slice_index (pre ++ concat l ++ post)
    (Z.of_nat (length pre) + total_len (take i l) * 8)
    (Z.of_nat (length pre) + (total_len (take i l) + word_len s) * 8) = Ok s.
Proof.
  intros Ha Hi. pose proof (Forall_take _ i l Ha) as Ht.
  apply total_len_concat in Ht. pose proof (Forall_lookup_1 _ _ _ _ Ha Hi) as Hs.
  apply aligned_word_len in Hs. pose proof (word_len_nonneg s).
  assert (Hc : concat l = concat (take i l) ++ s ++ concat (drop (S i) l)).
  { rewrite <- (take_drop_middle l i s Hi) at 1. by rewrite concat_app. }
  rewrite Hc. rewrite slice_index_ok; [|lia|rewrite !length_app; lia].
  f_equal. replace (Z.to_nat (_ - _)) with (length s) by lia.
  replace (Z.to_nat _) with (length pre + (length (concat (take i l)) + 0))%nat by lia.
  rewrite drop_app_add, <- !app_assoc, drop_app_add, drop_0. apply take_app_length.
Qed.

Lemma indices_get_nth l id : Z.of_nat (length l) < 2 ^ 32 -> 0 <= id ->
  indices_get (indices_from 0 l) id = indices_from 0 l !! Z.to_nat id.
Proof.
  intros Hl Hid. unfold indices_get. rewrite length_indices_from, wrap32_small by lia.
  case_bools. symmetry. apply lookup_ge_None. rewrite length_indices_from. lia.
Qed.

Lemma owned_represents l : frameable l ->
  represents {| owned_indices := indices_from 0 l; owned_space := concat l |} l.
Proof.
  intros Hf. pose proof (frameable_aligned _ Hf) as Ha. destruct Hf as (_ & Hl & _).
  split; cbn [get_segment segments_len OwnedSegments_segments owned_indices owned_space].
  { by rewrite length_indices_from. }
  intros id [Hid _]. rewrite indices_get_nth, indices_from_lookup by done. unfold nth_segment.
  destruct (l !! Z.to_nat id) as [s|] eqn:Es; [|done]. cbn [fmap option_fmap option_map].
  pose proof (segment_slice [] l [] _ _ Ha Es) as H.
  rewrite app_nil_l, app_nil_r in H. change (Z.of_nat (length [])) with 0 in H.
  unfold BYTES_PER_WORD. rewrite !Z.add_0_l in *. by rewrite H.
Qed.

Lemma buffer_represents l pre post : frameable l ->
  represents {| buffer := pre ++ concat l ++ post;
                segment_table_bytes_len := Z.of_nat (length pre);
                segment_indices := indices_from 0 l |} l.
Proof.
  intros Hf. pose proof (frameable_aligned _ Hf) as Ha. destruct Hf as (_ & Hl & _).
  split; cbn [get_segment segments_len BufferSegments_segments buffer segment_indices
              segment_table_bytes_len].
  { by rewrite length_indices_from. }
  intros id [Hid _]. rewrite indices_get_nth, indices_from_lookup by done. unfold nth_segment.
  destruct (l !! Z.to_nat id) as [s|] eqn:Es; [|done]. cbn [fmap option_fmap option_map].
  unfold BYTES_PER_WORD. rewrite !Z.add_0_l. by rewrite (segment_slice pre l post _ _ Ha Es).
Qed.

(** ** Reading the segment table *)

Lemma push_lengths_ok ls : forall lo pre post b,
  length pre = (4 * lo)%nat ->
  Forall (fun s => word_len s < 2 ^ 32) ls ->
  total_words b + total_len ls < 2 ^ 64 ->
  fold_range (length ls) (Z.of_nat lo) b (fun idx b =>
    segment_len ← lift (from_le_bytes (pre ++ le_words (map word_len ls) ++ post) (idx * 4));
    lift (try_push_segment segment_len b)) tt =
  (Ok {| lengths_indices := lengths_indices b ++ indices_from (total_words b) ls;
         total_words := total_words b + total_len ls |}, tt).
Proof.
  induction ls as [|s ls IH]; intros lo pre post b Hp Hf Ht.
  { cbn. rewrite app_nil_r, Z.add_0_r. by destruct b. }
  inversion Hf as [|? ? Hs Hf']; subst. pose proof (word_len_nonneg s).
  pose proof (total_len_nonneg ls). cbn [total_len foldr] in Ht. fold (total_len ls) in Ht.
  cbn [length fold_range]. rewrite ST_bind_assoc. cbn [map]. rewrite le_words_cons, <- app_assoc.
  replace (Z.of_nat lo * 4) with (Z.of_nat (length pre)) by lia.
  rewrite (lift_bind_ok _ _ _ _ (from_le_bytes_mid pre (word_len s) _ ltac:(lia))).
  unfold try_push_segment at 1. rewrite checked_add_ok by lia. cbn [bind ok_or outcome_monad].
  rewrite (lift_bind_ok _ _ _ _ eq_refl).
  replace (Z.of_nat lo + 1) with (Z.of_nat (S lo)) by lia. rewrite (app_assoc pre).
  rewrite IH; [|rewrite length_app, length_le_split; lia|done|cbn [total_words]; lia].
  cbn [lengths_indices total_words indices_from total_len foldr].
  fold (total_len ls). rewrite <- app_assoc, Z.add_assoc. done.
Qed.

Lemma first_word_count l : frameable l ->
  from_le_bytes (first_word l) 0 = Ok (Z.of_nat (length l) - 1).
Proof.
  intros (Hne & Hl & _). assert (length l <> 0)%nat by (by destruct l).
  apply (from_le_bytes_mid [] (Z.of_nat (length l) - 1)). lia.
Qed.
Lemma first_word_len l : frameable l ->
  from_le_bytes (first_word l) 4 = Ok (word_len (hd [] l)).
Proof.
  intros (Hne & _ & Hf). destruct l as [|s l]; [done|]. inversion Hf as [|? ? [_ Hs] _]; subst.
  pose proof (word_len_nonneg s). unfold first_word. cbn [hd].
  rewrite <- (app_nil_r (le_split 4 (word_len s))).
  apply (from_le_bytes_mid (le_split 4 _)). lia.
Qed.

Definition table_of (l : list (list byte)) : SegmentLengthsBuilder :=
  {| lengths_indices := indices_from 0 l; total_words := total_len l |}.

(** A message a reader with [options] accepts. *)
Definition readable (options : ReaderOptions) (l : list (list byte)) : Prop :=
  frameable l /\ Z.of_nat (length l) < SEGMENTS_COUNT_LIMIT.

Lemma readable_total options l : readable options l -> total_len l < 2 ^ 42.
Proof.
  intros [(_ & _ & Hf) Hl]. unfold SEGMENTS_COUNT_LIMIT in Hl.
  assert (total_len l <= Z.of_nat (length l) * 2 ^ 32); [|lia].
  clear Hl. induction Hf as [|s l [_ Hs] _ IH]; cbn [total_len foldr length]; [lia|].
  fold (total_len l). lia.
Qed.

Lemma frame_chunks_aligned options l : readable options l -> Forall aligned (frame_chunks l).
Proof.
  intros Hread. apply Forall_app. split; [|apply frameable_aligned, Hread]. unfold table_chunks.
  constructor; [done|]. destruct (Nat.leb_spec (length l) 1); [constructor|].
  constructor; [|constructor]. unfold aligned.
  pose proof (length_more_lengths l (proj1 (proj1 Hread))) as Hm. rewrite ldiff_1 in Hm by lia.
  replace (length (more_lengths l)) with (Z.to_nat (Z.of_nat (length l) / 2) * 8)%nat by lia.
  apply Nat.Div0.mod_mul.
Qed.

Section read.
Context {R : Type} `{Delivers R}.

Lemma read_first_word_ok (r : R) c cs :
  length c = 8%nat -> delivers r (c :: cs) ->
  exists r', read_first_word r = (Ok (Some c), r') /\ delivers r' cs.
Proof.
  intros Hc Hd. destruct (delivers_read r [c] cs) as (b & b' & r1 & Hr & Hb & Hne & Hd'); [|done|].
  { simpl. rewrite app_nil_r. by destruct c. }
  cbn [concat] in Hr, Hb. rewrite app_nil_r in Hr, Hb. rewrite Hc in Hr.
  unfold read_first_word. rewrite (ST_bind_ok _ _ _ _ _ Hr).
  assert (Hlen : (length b + length b' = 8)%nat) by (rewrite <- length_app, <- Hb; done).
  destruct (Nat.eqb_spec (length b) 0) as [E|_]; [by apply nil_length_inv in E|].
  destruct (Nat.ltb_spec (length b) 8).
  - destruct (read_exact_delivers r1 [b'] cs Hd') as (r2 & Hr2 & Hd2).
    cbn [concat] in Hr2. rewrite app_nil_r in Hr2.
    replace (8 - length b)%nat with (length b') by lia.
    rewrite (ST_bind_ok _ _ _ _ _ Hr2), <- Hb. by exists r2.
  - assert (b' = []) as -> by (apply nil_length_inv; lia). rewrite app_nil_r in Hb. subst c.
    exists r1. split; [done|]. by apply delivers_skip.
Qed.

Lemma read_exact_chunk (r : R) c cs n : n = length c -> delivers r (c :: cs) ->
  exists r', read_exact n r = (Ok c, r') /\ delivers r' cs.
Proof.
  intros -> Hd. pose proof (read_exact_delivers r [c] cs Hd) as Hx.
  cbn [concat] in Hx. by rewrite app_nil_r in Hx.
Qed.

Lemma push_more_lengths l s b : frameable (s :: l) -> total_words b + total_len l < 2 ^ 64 ->
  fst (push_lengths (more_lengths (s :: l)) (length l) b tt) =
  Ok {| lengths_indices := lengths_indices b ++ indices_from (total_words b) l;
        total_words := total_words b + total_len l |}.
Proof.
  intros (_ & _ & Hf) Ht. inversion Hf as [|? ? _ Hf']; subst.
  rewrite more_lengths_words. cbn [tail]. unfold push_lengths.
  assert (Hw : Forall (fun s => word_len s < 2 ^ 32) l)
    by (eapply Forall_impl; [|exact Hf']; by intros ? []).
  exact (f_equal fst (push_lengths_ok l 0 [] _ b eq_refl Hw Ht)).
Qed.

Lemma read_segment_table_ok options l (r : R) cs :
  readable options l -> delivers r (table_chunks l ++ cs) ->
  exists r', read_segment_table options r =
    (match check_traversal_limit options (total_len l) with
     | Err e => Err e | _ => Ok (Some (table_of l)) end, r') /\ delivers r' cs.
Proof.
  intros Hread Hd. pose proof (readable_total _ _ Hread) as Htot.
  destruct Hread as [Hfr Hcount]. unfold SEGMENTS_COUNT_LIMIT in Hcount.
  destruct (read_first_word_ok r (first_word l) ((if (length l <=? 1)%nat then [] else [more_lengths l]) ++ cs))
    as (r1 & Hr1 & Hd1); [done|exact Hd|].
  unfold read_segment_table. rewrite (ST_bind_ok _ _ _ _ _ Hr1).
  rewrite (lift_bind_ok _ _ _ _ (first_word_count l Hfr)). cbv zeta.
  assert (Hpos : (0 < length l)%nat) by (destruct Hfr as [Hne _]; destruct l; [done|simpl; lia]).
  rewrite Z.sub_add, wrap32_small by lia. unfold SEGMENTS_COUNT_LIMIT.
  destruct (Z.leb_spec 512 (Z.of_nat (length l))), (Z.eqb_spec (Z.of_nat (length l)) 0); try lia.
  cbn [orb]. rewrite (lift_bind_ok _ _ _ _ (first_word_len l Hfr)).
  destruct l as [|s l]; [done|]. pose proof (word_len_nonneg s). pose proof (total_len_nonneg l).
  cbn [total_len foldr] in Htot. fold (total_len l) in Htot.
  cbn [hd]. unfold try_push_segment, SegmentLengthsBuilder_with_capacity at 1. cbn [total_words].
  rewrite checked_add_ok by lia. cbn [bind ok_or outcome_monad lengths_indices app].
  rewrite (lift_bind_ok _ _ _ _ eq_refl). rewrite Z.add_0_l.
  set (b0 := {| lengths_indices := [(0, word_len s)]; total_words := word_len s |}).
  assert (Hpush := push_more_lengths l s b0 Hfr ltac:(cbn [b0 total_words]; lia)).
  cbn [b0 lengths_indices total_words app] in Hpush.
  assert (Hstep : exists r2,
    (if 1 <? Z.of_nat (length (s :: l)) then
       let n := Z.to_nat (Z.of_nat (length (s :: l)) - 1) in
       if Z.of_nat (length (s :: l)) <? 4 then
         buf ← read_exact 8; stateless (push_lengths buf n b0)
       else
         segment_sizes ← read_exact (Z.to_nat (Z.ldiff (Z.of_nat (length (s :: l))) 1 * 4));
         stateless (push_lengths segment_sizes n b0)
     else ret b0) r1 = (Ok (table_of (s :: l)), r2) /\ delivers r2 cs).
  { revert Hd1. pose proof (length_more_lengths (s :: l) ltac:(done)) as Hml.
    replace (Z.to_nat (Z.of_nat (length (s :: l)) - 1)) with (length l) by (cbn [length]; lia).
    destruct (Nat.leb_spec (length (s :: l)) 1) as [Hle|Hle],
      (Z.ltb_spec 1 (Z.of_nat (length (s :: l)))); try lia; intros Hd1.
    - exists r1. destruct l; [|simpl in Hle; lia]. split; [|exact Hd1].
      unfold table_of. cbn. by rewrite Z.add_0_r.
    - cbv zeta.
      destruct (Z.ltb_spec (Z.of_nat (length (s :: l))) 4);
        (edestruct (read_exact_chunk r1 (more_lengths (s :: l)) cs) as (r2 & Hr2 & Hd2);
          [|exact Hd1|rewrite (ST_bind_ok _ _ _ _ _ Hr2)]).
      + apply Nat2Z.inj. rewrite Hml, ldiff_1 by lia. zlia.
      + exists r2. unfold stateless, lift. split; [f_equal; apply Hpush|done].
      + lia.
      + exists r2. unfold stateless, lift. split; [f_equal; apply Hpush|done]. }
  destruct Hstep as (r2 & Hstep & Hd2). rewrite (ST_bind_ok _ _ _ _ _ Hstep).
  exists r2. split; [|done]. cbn [table_of total_words].
  unfold check_traversal_limit. destruct (traversal_limit_in_words options); [|done].
  by destruct (z <? total_len (s :: l)).
Qed.

(** The limit check of a table the reader accepts. *)
Definition within_limit (options : ReaderOptions) (l : list (list byte)) : Prop :=
  forall v, traversal_limit_in_words options = Some v -> total_len l <= v.

Lemma check_within options l : within_limit options l ->
  check_traversal_limit options (total_len l) = Ok tt.
Proof.
  unfold within_limit, check_traversal_limit. destruct (traversal_limit_in_words options); [|done].
  intros Hl. specialize (Hl _ eq_refl). case_bools.
Qed.

Lemma read_segments_ok options l (r : R) cs : frameable l ->
  delivers r (l ++ cs) ->
  exists r', read_segments (into_owned_segments (table_of l)) options r =
    (Ok (Reader_new {| owned_indices := indices_from 0 l; owned_space := concat l |} options), r') /\
    delivers r' cs.
Proof.
  intros Hf Hd. destruct (read_exact_delivers r l cs Hd) as (r' & Hr & Hd'). exists r'.
  split; [|done]. unfold read_segments, into_owned_segments.
  cbn [table_of owned_space owned_indices lengths_indices total_words].
  rewrite length_zeros, <- total_len_concat, Nat2Z.id by (by apply frameable_aligned).
  by rewrite (ST_bind_ok _ _ _ _ _ Hr).
Qed.

Lemma try_read_message_ok options l (r : R) cs : readable options l -> within_limit options l ->
  delivers r (frame_chunks l ++ cs) ->
  exists r' m, try_read_message options r = (Ok (Some m), r') /\ delivers r' cs /\
    represents (into_segments m) l /\ arena m = ReaderArenaImpl_new (into_segments m) options.
Proof.
  intros Hread Hlim Hd. unfold frame_chunks in Hd. rewrite <- app_assoc in Hd.
  destruct (read_segment_table_ok options l r _ Hread Hd) as (r1 & Hr1 & Hd1).
  rewrite (check_within _ _ Hlim) in Hr1. destruct Hread as [Hfr _].
  destruct (read_segments_ok options l r1 cs Hfr Hd1) as (r2 & Hr2 & Hd2).
  exists r2, (Reader_new {| owned_indices := indices_from 0 l; owned_space := concat l |} options).
  unfold try_read_message. rewrite (ST_bind_ok _ _ _ _ _ Hr1), (ST_bind_ok _ _ _ _ _ Hr2).
  split; [done|]. split; [done|]. split; [by apply owned_represents|done].
Qed.

(** [read_message] is [try_read_message] with the end of the stream turned
    into an error. *)
Lemma read_message_try options (r : R) :
  read_message options r =
  bind (try_read_message options)
    (fun m => match m with Some m => ret m | None => fails PrematureEndOfFile end) r.
Proof.
  unfold read_message, try_read_message. rewrite ST_bind_assoc.
  apply ST_bind_ext. intros [b|] r1; [|done].
  rewrite ST_bind_assoc. unfold bind; simpl.
  by destruct (read_segments (into_owned_segments b) options r1) as [[] ?].
Qed.
End read.

(** The end of the stream where a message would start. *)
Lemma try_read_message_eof {R} `{BufReadSpec R} options (r : R) :
  contents r = [] -> exists r', try_read_message options r = (Ok None, r').
Proof.
  intros Hc. destruct (read_spec r 8 ltac:(lia)) as (b & r' & Hr & _ & Hb & _). exists r'.
  unfold try_read_message, read_segment_table, read_first_word.
  rewrite Hc in Hb. symmetry in Hb. apply app_eq_nil in Hb as [-> _].
  rewrite !ST_bind_assoc, (ST_bind_ok _ _ _ _ _ Hr). done.
Qed.

(** ** Flat slices *)

(** A slice delivers exactly its bytes. *)
Program Definition slice_exact : Delivers (list byte) := {| delivers := fun s cs => s = concat cs |}.
Next Obligation. done. Qed.
Next Obligation.
  intros r cs1 cs2 Hne ->. exists (concat cs1), [], (concat cs2).
  unfold read, slice_read. rewrite concat_app, take_app_length, drop_app_length.
  by rewrite app_nil_r.
Qed.

Section flat.
Context (options : ReaderOptions) (l : list (list byte)) (rest : list byte).
Context (Hread : readable options l).

Lemma frame_app : frame l ++ rest = concat (table_chunks l) ++ concat l ++ rest.
Proof. unfold frame, frame_chunks. by rewrite concat_app, <- app_assoc. Qed.

(** The slice that is left after the segment table. *)
Lemma flat_table tail :
  read_segment_table options (concat (table_chunks l) ++ tail) =
    (match check_traversal_limit options (total_len l) with
     | Err e => Err e | _ => Ok (Some (table_of l)) end, tail).
Proof.
  destruct (@read_segment_table_ok _ _ slice_exact options l
    (concat (table_chunks l) ++ tail) [tail] Hread) as (r' & Hr & Hd).
  { cbn [delivers slice_exact]. rewrite concat_app. cbn [concat]. by rewrite app_nil_r. }
  cbn [delivers slice_exact concat] in Hd. rewrite app_nil_r in Hd. by subst r'.
Qed.

Context (Hlim : within_limit options l).

Lemma read_message_from_flat_slice_ok :
  exists m, read_message_from_flat_slice options (frame l ++ rest) = (Ok m, rest) /\
    represents (into_segments m) l /\ arena m = ReaderArenaImpl_new (into_segments m) options.
Proof.
  pose proof Hread as [Hfr _].
  pose proof (table_chunks_length l Hfr) as Htl. pose proof (readable_total _ _ Hread) as Htot.
  pose proof (total_len_concat l (frameable_aligned _ Hfr)) as Hcl.
  pose proof (total_len_nonneg l) as Hpos.
  rewrite frame_app. set (pre := concat (table_chunks l)) in *.
  exists (Reader_new {| buffer := pre ++ concat l ++ rest;
                        segment_table_bytes_len := Z.of_nat (length pre);
                        segment_indices := indices_from 0 l |} options).
  split; [|split; [apply (buffer_represents l pre rest Hfr)|done]].
  unfold read_message_from_flat_slice.
  rewrite (ST_bind_ok get_state _ _ _ _ eq_refl). rewrite flat_table, check_within by done.
  rewrite (lift_bind_ok _ _ _ _ eq_refl).
  rewrite usub_ok by (rewrite !length_app; lia). rewrite (lift_bind_ok _ _ _ _ eq_refl).
  rewrite !length_app. replace (_ - _) with (Z.of_nat (length pre)) by lia.
  unfold rust_assert, BYTES_PER_WORD.
  replace (Z.of_nat (length pre) mod 8) with 0 by (rewrite Htl, Z.mul_comm, Z.mod_mul; lia).
  rewrite (lift_bind_ok _ _ _ tt eq_refl). cbn [table_of total_words lengths_indices].
  rewrite (lift_bind_ok _ _ _ (concat l ++ rest)).
  2: { rewrite slice_index_ok by (rewrite ?length_app; lia). f_equal.
       rewrite Nat2Z.id, drop_app_length. apply take_ge. rewrite length_app. lia. }
  rewrite length_app.
  destruct (Z.ltb_spec (Z.of_nat (length (concat l) + length rest) / 8) (total_len l)); [zlia|].
  rewrite umul_ok by lia. rewrite (lift_bind_ok _ _ _ _ eq_refl).
  rewrite (lift_bind_ok _ _ _ rest).
  2: { rewrite slice_index_ok by (rewrite ?length_app; lia). f_equal.
       replace (Z.to_nat (total_len l * 8)) with (length (concat l)) by lia.
       rewrite drop_app_length. apply take_ge. lia. }
  rewrite (ST_bind_ok (put_state rest) _ _ tt rest eq_refl).
  unfold into_slice_segments. cbn [table_of total_words].
  rewrite umul_ok by (unfold BYTES_PER_WORD; lia). unfold rust_assert, BYTES_PER_WORD.
  rewrite !length_app. cbn [bind outcome_monad].
  destruct (Z.leb_spec (total_len l * 8) (Z.of_nat (length pre + (length (concat l) + length rest)))); [|lia].
  done.
Qed.
End flat.

(** ** Framing on untrusted input

    Whatever a stream contains, reading a message from it returns a message
    within the traversal limit or an error.  [SafeRead] is what is asked of
    the stream; a lawful [BufRead] and a packed reader over one provide it. *)

(** A reader that never panics and never returns more than it was asked for.
    It may be asked for multiples of [granule] bytes only, and returns
    multiples of it: a packed reader deals in words. *)
Class SafeRead (R : Type) `{Read R} := {
  granule : nat;
  granule_word : (8 mod granule = 0 /\ granule <> 0)%nat;
  (** [taken r r' n]: [r'] is [r] with [n] more bytes read. *)
  taken : R -> R -> nat -> Prop;
  taken_refl : forall r, taken r r 0;
  taken_trans : forall r1 r2 r3 n m, taken r1 r2 n -> taken r2 r3 m -> taken r1 r3 (n + m);
  read_safe : forall n (r : R), (0 < n)%nat -> (n mod granule = 0)%nat ->
    wp (read n) (fun bs r' => (length bs <= n)%nat /\ (length bs mod granule = 0)%nat /\
                              taken r r' (length bs))
       (fun _ _ => True) r
}.

#[export] Program Instance bufread_safe {R} `{BufReadSpec R} : SafeRead R := {|
  granule := 1;
  taken := fun r r' n => exists bs, contents r = bs ++ contents r' /\ length bs = n
|}.
Next Obligation. done. Qed.
Next Obligation. intros R ? ? ? r. by exists []. Qed.
Next Obligation.
  intros R ? ? ? r1 r2 r3 n m (b1 & H1 & L1) (b2 & H2 & L2). exists (b1 ++ b2).
  by rewrite H1, H2, app_assoc, length_app, L1, L2.
Qed.
Next Obligation.
  intros R ? ? ? n r Hn _. destruct (read_spec r n Hn) as (b & r' & Hr & Hl & Hc & _).
  unfold wp. rewrite Hr. rewrite Nat.mod_1_r. split; [done|]. split; [done|]. by exists b.
Qed.

Lemma unpack_fuel_total fuel : forall n inp, (n < fuel)%nat -> (n mod 8 = 0)%nat ->
  match unpack_fuel fuel n inp with
  | Ok (o, _) => length o = n
  | Err _ => True
  | _ => False
  end.
Proof.
  induction fuel as [|fuel IH]; intros n inp Hf Hn; [lia|]. cbn [unpack_fuel].
  destruct (Nat.eqb_spec n 0) as [->|Hn0]; [done|].
  destruct (unpack_group n inp) as [[g rest]| | | |] eqn:Eg; cbn [bind outcome_monad].
  - apply unpack_group_length in Eg as (m & Hm & Hle).
    apply Nat.Div0.mod_divides in Hn as [k Hk]. specialize (Hle ltac:(lia)).
    specialize (IH (n - length g)%nat rest ltac:(lia)).
    destruct (unpack_fuel fuel (n - length g) rest) as [[o ?]| | | |]; cbn [bind outcome_monad];
      try (apply IH; replace (n - length g)%nat with (8 * (k - S m))%nat by lia;
           by rewrite Nat.mul_comm, Nat.Div0.mod_mul).
    rewrite length_app. rewrite IH; [lia|].
    replace (n - length g)%nat with (8 * (k - S m))%nat by lia.
    by rewrite Nat.mul_comm, Nat.Div0.mod_mul.
  - done.
  - unfold unpack_group in Eg. repeat case_match; done.
  - unfold unpack_group in Eg. repeat case_match; done.
  - unfold unpack_group in Eg. repeat case_match; done.
Qed.

(** The packed reader on arbitrary input. *)
Lemma packed_read_safe {R} `{BufReadSpec R} n (r : R) : (n mod 8 = 0)%nat ->
  wp (packed_read n) (fun bs _ => length bs = n \/ bs = []) (fun _ _ => True) r.
Proof.
  intros Hn. destruct (decide (n = 0%nat)) as [->|Hn0]; [by right|].
  destruct (decide (contents r = [])) as [Hc|Hc].
  { destruct (packed_read_eof n r Hn Hc) as (r' & Hr & _). unfold wp. rewrite Hr. by right. }
  pose proof (packed_read_spec n r Hn Hn0 Hc) as Hs.
  pose proof (unpack_fuel_total (S n) n (contents r) ltac:(lia) Hn) as Ht.
  unfold unpack in Hs. destruct (unpack_fuel (S n) n (contents r)) as [[o rest]| | | |]; try done.
  - destruct Hs as (res & r' & Hr & -> & _). unfold wp. rewrite Hr. by left.
  - destruct Hs as (r' & Hr). unfold wp. by rewrite Hr.
Qed.

#[export] Program Instance packed_safe {R} `{BufReadSpec R} : SafeRead (PackedRead R) :=
  {| granule := 8; taken := fun _ _ _ => True |}.
Next Obligation. done. Qed.
Next Obligation. done. Qed.
Next Obligation. done. Qed.
Next Obligation.
  intros R ? ? ? n [r] _ Hn. pose proof (packed_read_safe n r Hn) as Hp.
  unfold wp, read, packed_read_instance in *. cbn [inner].
  destruct (packed_read n r) as [[bs| | | |] r']; try done.
  by destruct Hp as [->| ->]; repeat split; simpl; lia || done.
Qed.

(** ** Tables *)

Definition sum_words (ws : list Z) : Z := foldr Z.add 0 ws.

Fixpoint word_indices (start : Z) (ws : list Z) : list (Z * Z) :=
  match ws with
  | [] => []
  | w :: ws => (start, start + w) :: word_indices (start + w) ws
  end.

Definition words_table (ws : list Z) : SegmentLengthsBuilder :=
  {| lengths_indices := word_indices 0 ws; total_words := sum_words ws |}.

Lemma sum_words_app ws1 ws2 : sum_words (ws1 ++ ws2) = sum_words ws1 + sum_words ws2.
Proof. induction ws1 as [|w ws1 IH]; simpl; lia. Qed.
Lemma word_indices_app ws1 : forall start ws2,
  word_indices start (ws1 ++ ws2) = word_indices start ws1 ++ word_indices (start + sum_words ws1) ws2.
Proof.
  induction ws1 as [|w ws1 IH]; intros start ws2; simpl; [by rewrite Z.add_0_r|].
  rewrite IH. do 3 f_equal. lia.
Qed.
Lemma word_indices_segments l : forall start,
  word_indices start (map word_len l) = indices_from start l.
Proof. induction l as [|s l IH]; intros start; simpl; [done|]. by rewrite IH. Qed.
Lemma sum_words_segments l : sum_words (map word_len l) = total_len l.
Proof. induction l as [|s l IH]; simpl; [done|]. by rewrite IH. Qed.
Lemma words_table_segments l : words_table (map word_len l) = table_of l.
Proof. unfold words_table, table_of. by rewrite word_indices_segments, sum_words_segments. Qed.

Lemma try_push_segment_spec w ws :
  try_push_segment w (words_table ws) =
  if sum_words ws + w <? 2 ^ 64 then Ok (words_table (ws ++ [w])) else Err MessageSizeOverflow.
Proof.
  unfold try_push_segment, words_table, checked_add. cbn [total_words lengths_indices].
  destruct (_ <? _); [|done]. cbn [bind outcome_monad ok_or].
  rewrite word_indices_app, sum_words_app. simpl. by rewrite Z.add_0_r.
Qed.

Definition lengths_ok (ws : list Z) : Prop := Forall (fun w => 0 <= w < 2 ^ 32) ws.

Lemma sum_words_nonneg ws : lengths_ok ws -> 0 <= sum_words ws.
Proof. induction 1; simpl; [lia|]. lia. Qed.

(** Cuts [bs] into segments of the given lengths. *)
Lemma cut_segments ws : forall bs, lengths_ok ws -> Z.of_nat (length bs) = 8 * sum_words ws ->
  exists l, map word_len l = ws /\ concat l = bs /\ Forall aligned l.
Proof.
  induction ws as [|w ws IH]; intros bs Hw Hb; simpl in Hb.
  { exists []. apply (nil_length_inv bs) in Hb || (assert (bs = []) as -> by (by destruct bs)). done. }
  inversion Hw as [|? ? Hw0 Hw']; subst. set (n := (8 * Z.to_nat w)%nat).
  pose proof (sum_words_nonneg _ Hw') as Hs.
  destruct (IH (drop n bs) Hw') as (l & Hl & Hc & Ha).
  { rewrite length_drop. lia. }
  assert (Hn : length (take n bs) = n) by (rewrite length_take; lia).
  exists (take n bs :: l). split; [|split].
  - simpl. rewrite Hl. f_equal. unfold word_len. rewrite Hn. unfold n. zlia.
  - simpl. by rewrite Hc, take_drop.
  - constructor; [|done]. unfold aligned. rewrite Hn. unfold n.
    by rewrite Nat.mul_comm, Nat.Div0.mod_mul.
Qed.

Lemma from_le_bytes_range buf lo : 0 <= lo -> lo + 4 <= Z.of_nat (length buf) ->
  exists w, from_le_bytes buf lo = Ok w /\ 0 <= w < 2 ^ 32.
Proof.
  intros Hlo Hl. unfold from_le_bytes. rewrite slice_index_ok by lia. cbn [bind outcome_monad].
  eexists. split; [done|]. set (bs := take _ _).
  assert (Hb : length bs = 4%nat) by (unfold bs; rewrite length_take, length_drop; lia).
  pose proof (le_combine_bound bs). rewrite Hb in *. lia.
Qed.

(** [b] is the table of [n] lengths. *)
Definition is_table (n : Z) (b : SegmentLengthsBuilder) : Prop :=
  exists ws, b = words_table ws /\ Z.of_nat (length ws) = n /\ lengths_ok ws.

Lemma try_push_segment_safe {S} w n b Q (s : S) : is_table n b -> 0 <= w < 2 ^ 32 ->
  (forall b', is_table (n + 1) b' -> Q b' s) ->
  wp (lift (try_push_segment w b)) Q (fun _ _ => True) s.
Proof.
  intros (ws & -> & Hl & Hw) H HQ. rewrite try_push_segment_spec. apply wp_lift.
  destruct (_ <? _); [|done]. apply HQ. exists (ws ++ [w]). split; [done|].
  rewrite length_app. cbn [length]. split; [lia|].
  apply Forall_app. split; [done|]. by constructor.
Qed.

Lemma from_le_bytes_safe {S} buf lo Q (E : ErrorKind -> S -> Prop) (s : S) :
  0 <= lo -> lo + 4 <= Z.of_nat (length buf) -> (forall w, 0 <= w < 2 ^ 32 -> Q w s) ->
  wp (lift (from_le_bytes buf lo)) Q E s.
Proof.
  intros Hlo Hl HQ. destruct (from_le_bytes_range buf lo Hlo Hl) as (w & Hw & Hr).
  rewrite Hw. by apply HQ.
Qed.

Lemma wp_stateless {S A} (c : ST unit A) Q E (s : S) :
  wp c (fun a _ => Q a s) (fun e _ => E e s) tt -> wp (stateless c) Q E s.
Proof. unfold wp, stateless, lift. by destruct (c tt) as [[] []]. Qed.

Lemma push_lengths_safe sizes n m b : (4 * n <= length sizes)%nat -> is_table m b ->
  wp (push_lengths sizes n b) (fun b _ => is_table (m + Z.of_nat n) b) (fun _ _ => True) tt.
Proof.
  intros Hl Hb. unfold push_lengths.
  apply (wp_fold_range (fun i b _ => is_table (m + i) b)); [by rewrite Z.add_0_r|].
  intros i b' [] Hi Hb'. wp_step. apply from_le_bytes_safe; [lia|lia|].
  intros w Hw. rewrite Z.add_assoc. by eapply try_push_segment_safe.
Qed.

(** ** Reading *)

Section safe.
Context {R : Type} `{SafeRead R}.

Lemma granule_sub n k : (n mod granule = 0 -> k mod granule = 0 -> k <= n ->
  (n - k) mod granule = 0)%nat.
Proof.
  intros Hn Hk Hle. destruct granule_word as [_ Hg].
  apply Nat.Div0.mod_divides in Hn as [a Ha], Hk as [b Hb].
  replace (n - k)%nat with (granule * (a - b))%nat by (rewrite Ha, Hb; apply Nat.mul_sub_distr_l).
  by rewrite Nat.mul_comm, Nat.Div0.mod_mul.
Qed.

Lemma granule_mul8 n : ((8 * n) mod granule = 0)%nat.
Proof.
  destruct granule_word as [H8 Hg]. by rewrite Nat.Div0.mul_mod, H8, Nat.Div0.mod_0_l.
Qed.

Lemma read_exact_loop_safe fuel : forall n acc (r : R),
  (n < fuel)%nat -> (n mod granule = 0)%nat ->
  wp (read_exact_loop fuel n acc)
     (fun bs r' => length bs = (length acc + n)%nat /\ taken r r' n) (fun _ _ => True) r.
Proof.
  induction fuel as [|fuel IH]; intros n acc r Hf Hn; [lia|]. cbn [read_exact_loop].
  destruct (Nat.eqb_spec n 0) as [->|Hn0]; [apply wp_ret; split; [lia|apply taken_refl]|]. wp_step.
  eapply wp_mono; [apply read_safe; [lia|done]|cbn beta|done]. intros bs r' (Hle & Hm & Ht).
  destruct (Nat.eqb_spec (length bs) 0) as [_|Hbs]; [done|].
  eapply wp_mono; [apply IH; [lia|by apply granule_sub]|cbn beta|done].
  intros bs' r'' [Hlen Ht']. rewrite Hlen, length_app. split; [lia|].
  replace n with (length bs + (n - length bs))%nat by lia. by eapply taken_trans.
Qed.

Lemma read_exact_safe n (r : R) : (n mod granule = 0)%nat ->
  wp (read_exact n) (fun bs r' => length bs = n /\ taken r r' n) (fun _ _ => True) r.
Proof. intros Hn. by apply (read_exact_loop_safe (S n) n [] r (Nat.lt_succ_diag_r n)). Qed.

Lemma read_first_word_safe (r : R) :
  wp read_first_word
     (fun o r' => forall bs, o = Some bs -> length bs = 8%nat /\ taken r r' 8) (fun _ _ => True) r.
Proof.
  unfold read_first_word. wp_step.
  eapply wp_mono; [apply read_safe; [lia|apply granule_word]|cbn beta|done]. intros bs r' (Hle & Hm & Ht).
  destruct (Nat.eqb_spec (length bs) 0) as [_|Hbs]; [by apply wp_ret|].
  destruct (Nat.ltb_spec (length bs) 8).
  - wp_step. eapply wp_mono; [apply read_exact_safe|cbn beta|done].
    { apply granule_sub; [apply granule_word|done|lia]. }
    intros rest r'' [Hrest Ht']. apply wp_ret. intros ? [= <-]. rewrite length_app. split; [lia|].
    replace 8%nat with (length bs + (8 - length bs))%nat by lia. by eapply taken_trans.
  - apply wp_ret. intros ? [= <-]. assert (E : length bs = 8%nat) by lia. split; [done|].
    by rewrite <- E.
Qed.

(** What a table that was read guarantees. *)
Definition good_table (options : ReaderOptions) (n : Z) (b : SegmentLengthsBuilder) : Prop :=
  is_table n b /\ 1 <= n < SEGMENTS_COUNT_LIMIT /\
  forall v, traversal_limit_in_words options = Some v -> total_words b <= v.

(** The lengths after the first, for a table of [n]. *)
Lemma read_more_lengths_safe n b0 (r : R) : 1 <= n -> is_table 1 b0 ->
  wp (if 1 <? n then
        let k := Z.to_nat (n - 1) in
        if n <? 4 then buf ← read_exact 8; stateless (push_lengths buf k b0)
        else segment_sizes ← read_exact (Z.to_nat (Z.ldiff n 1 * 4));
             stateless (push_lengths segment_sizes k b0)
      else ret b0)
     (fun b r' => is_table n b /\ taken r r' (8 * Z.to_nat (n / 2))) (fun _ _ => True) r.
Proof.
  intros Hn Hb0. rewrite ldiff_1 by lia. destruct (Z.ltb_spec 1 n) as [H1|H1].
  2: { apply wp_ret. replace n with 1 by lia. split; [done|]. apply taken_refl. }
  assert (Hpush : forall sizes (r' : R), (4 * Z.to_nat (n - 1) <= length sizes)%nat ->
    taken r r' (8 * Z.to_nat (n / 2)) ->
    wp (stateless (push_lengths sizes (Z.to_nat (n - 1)) b0))
       (fun b r' => is_table n b /\ taken r r' (8 * Z.to_nat (n / 2))) (fun _ _ => True) r').
  { intros sizes r' Hs Ht. apply wp_stateless.
    eapply wp_mono; [eapply push_lengths_safe; [exact Hs|exact Hb0]|cbn beta|done].
    intros b [] Hb. split; [|done]. by replace n with (1 + Z.of_nat (Z.to_nat (n - 1))) by lia. }
  cbv zeta. destruct (Z.ltb_spec n 4) as [H4|H4]; wp_step.
  - eapply wp_mono; [apply read_exact_safe; apply granule_word|cbn beta|done].
    intros sizes r' [Hs Ht]. apply Hpush; [lia|].
    by replace (Z.to_nat (n / 2)) with 1%nat by zlia.
  - replace (Z.to_nat (2 * (n / 2) * 4)) with (8 * Z.to_nat (n / 2))%nat by zlia.
    eapply wp_mono; [apply read_exact_safe; apply granule_mul8|cbn beta|done].
    intros sizes r' [Hs Ht]. apply Hpush; [zlia|done].
Qed.

Lemma read_segment_table_safe options (r : R) :
  wp (read_segment_table options)
     (fun o r' => forall b, o = Some b -> exists n, good_table options n b /\
        taken r r' (8 + 8 * Z.to_nat (n / 2))) (fun _ _ => True) r.
Proof.
  unfold read_segment_table. wp_step.
  eapply wp_mono; [apply read_first_word_safe|cbn beta|done]. intros [buf|] r1 Hb; [|by apply wp_ret].
  destruct (Hb _ eq_refl) as [Hl Ht1].
  wp_step. apply from_le_bytes_safe; [lia|lia|]. intros c Hc. cbv zeta.
  destruct (_ || _) eqn:Ebad; [by apply wp_fails|].
  apply orb_false_iff in Ebad as [E1 E2]. apply Z.leb_gt in E1. apply Z.eqb_neq in E2.
  unfold SEGMENTS_COUNT_LIMIT in E1.
  set (n := wrap32 (c + 1)) in *. pose proof (wrap32_range (c + 1)) as Hn. fold n in Hn.
  wp_step. apply from_le_bytes_safe; [lia|lia|]. intros w0 Hw0.
  wp_step. apply (try_push_segment_safe w0 0); [|done|].
  { exists []. repeat split. constructor. }
  intros b0 Hb0. wp_step.
  eapply wp_mono; [apply (read_more_lengths_safe n b0 r1 ltac:(lia) Hb0)|cbn beta|done].
  intros b r2 [Htab Ht2]. wp_step. unfold check_traversal_limit.
  assert (Hfin : (forall v, traversal_limit_in_words options = Some v -> total_words b <= v) ->
    wp (ret (Some b)) (fun o r' => forall b, o = Some b -> exists n, good_table options n b /\
          taken r r' (8 + 8 * Z.to_nat (n / 2))) (fun _ _ => True) r2).
  { intros Hv. apply wp_ret. intros ? [= <-]. exists n.
    split; [|by eapply taken_trans]. split; [done|]. split; [|done].
    unfold SEGMENTS_COUNT_LIMIT. lia. }
  destruct (traversal_limit_in_words options) as [v|] eqn:Ev; apply wp_lift; [|by apply Hfin].
  destruct (Z.ltb_spec v (total_words b)); [done|]. apply Hfin. by intros ? [= <-].
Qed.

(** A message that was read: its segments, within the limits. *)
Definition good_message (options : ReaderOptions) (segments : list (list byte)) : Prop :=
  readable options segments /\ within_limit options segments.

Lemma good_table_nonneg options n b : good_table options n b -> 0 <= total_words b.
Proof. intros ((ws & -> & _ & Hw) & _). by apply sum_words_nonneg. Qed.

Lemma good_table_cut options n b bs : good_table options n b ->
  Z.of_nat (length bs) = 8 * total_words b ->
  exists l, concat l = bs /\ b = table_of l /\ good_message options l.
Proof.
  intros ((ws & -> & Hn & Hw) & Hcount & Hlim) Hb.
  destruct (cut_segments ws bs Hw Hb) as (l & Hl & Hc & Ha). exists l.
  split; [done|]. subst ws. rewrite words_table_segments in *.
  rewrite length_map in Hn. split; [done|].
  unfold good_message, readable, frameable, SEGMENTS_COUNT_LIMIT in *.
  split; [split; [split; [|split]|]|exact Hlim]; [by intros ->; simpl in Hn; lia|lia| |lia].
  apply Forall_forall. intros s Hs. split; [by eapply Forall_forall in Ha|].
  unfold lengths_ok in Hw. rewrite Forall_map in Hw. by eapply Forall_forall in Hw as [_ Hw].
Qed.

Lemma try_read_message_safe options (r : R) :
  wp (try_read_message options)
     (fun o _ => forall m, o = Some m -> exists l,
        represents (into_segments m) l /\ good_message options l /\
        arena m = ReaderArenaImpl_new (into_segments m) options) (fun _ _ => True) r.
Proof.
  unfold try_read_message. wp_step.
  eapply wp_mono; [apply read_segment_table_safe|cbn beta|done].
  intros [b|] r1 Hb; [|by apply wp_ret]. destruct (Hb b eq_refl) as (n & Hgood & _).
  pose proof (good_table_nonneg _ _ _ Hgood).
  unfold read_segments. repeat wp_step. eapply wp_mono; [apply read_exact_safe|cbn beta|done].
  { unfold into_owned_segments. cbn [owned_space]. rewrite length_zeros, Z2Nat.inj_mul by lia.
    apply granule_mul8. }
  intros bs r2 [Hbs _]. repeat wp_step. intros m [= <-].
  unfold into_owned_segments in *. cbn [owned_space owned_indices] in *.
  rewrite length_zeros in Hbs.
  destruct (good_table_cut options n b bs Hgood) as (l & <- & -> & Hl).
  { lia. }
  exists l. split; [apply (owned_represents l); apply Hl|]. by split.
Qed.
End safe.

(** ** Flat slices and buffers *)

(** Reading the table of a slice: the table, a whole number of words, and the
    rest. *)
Lemma slice_table options (s : list byte) :
  match read_segment_table options s with
  | (Ok (Some b), s') => exists n table, good_table options n b /\ s = table ++ s' /\
                           Z.of_nat (length table) mod 8 = 0
  | (Ok None, _) | (Err _, _) => True
  | _ => False
  end.
Proof.
  pose proof (read_segment_table_safe options s) as Hs. unfold wp in Hs.
  destruct (read_segment_table options s) as [[[b|]| | | |] s']; try done.
  destruct (Hs b eq_refl) as (n & Hg & table & Heq & Hl). exists n, table.
  split; [done|]. split; [exact Heq|]. rewrite Hl.
  replace (Z.of_nat _) with ((1 + Z.of_nat (Z.to_nat (n / 2))) * 8) by lia. by apply Z.mod_mul.
Qed.

Lemma slice_index_mid (pre mid post : list byte) lo hi :
  lo = Z.of_nat (length pre) -> hi = lo + Z.of_nat (length mid) ->
  slice_index (pre ++ mid ++ post) lo hi = Ok mid.
Proof.
  intros -> ->. rewrite slice_index_ok by (rewrite ?length_app; lia). f_equal.
  rewrite Nat2Z.id, drop_app_length.
  replace (Z.to_nat _) with (length mid) by lia. apply take_app_length.
Qed.

Section flat.
Context (options : ReaderOptions).

(** What remains after the table holds the segments or too few bytes. *)
Lemma good_table_split n b body : good_table options n b ->
  total_words b <= Z.of_nat (length body) / 8 ->
  exists l rest, body = concat l ++ rest /\ b = table_of l /\ good_message options l /\
                 Z.of_nat (length (concat l)) = total_words b * 8.
Proof.
  intros Hg Hle. pose proof (good_table_nonneg _ _ _ Hg).
  set (k := Z.to_nat (8 * total_words b)).
  assert (Hk : length (take k body) = k) by (rewrite length_take; unfold k; zlia).
  destruct (good_table_cut options n b (take k body) Hg ltac:(lia)) as (l & Hc & Hb & Hl).
  exists l, (drop k body). rewrite Hc, take_drop. repeat split; try done; try apply Hl. lia.
Qed.

Lemma read_message_from_flat_slice_safe (s : list byte) :
  wp (read_message_from_flat_slice options)
     (fun m s' => exists table l, s = table ++ concat l ++ s' /\
        represents (into_segments m) l /\ good_message options l /\
        arena m = ReaderArenaImpl_new (into_segments m) options)
     (fun _ s' => s' = s) s.
Proof.
  unfold read_message_from_flat_slice. wp_step. unfold wp at 1, get_state.
  pose proof (slice_table options s) as Ht.
  destruct (read_segment_table options s) as [[[b|]| | | |] s']; try done;
    wp_step; apply wp_lift; try done.
  destruct Ht as (n & table & Hg & -> & Hm). cbv zeta.
  wp_step. rewrite usub_ok by (rewrite length_app; lia). apply wp_lift.
  rewrite length_app. replace (Z.of_nat (length table + length s') - Z.of_nat (length s'))
    with (Z.of_nat (length table)) by lia.
  wp_step. unfold BYTES_PER_WORD. rewrite Hm. apply wp_lift. cbn [rust_assert Z.eqb].
  wp_step. rewrite <- (app_nil_r s') at 1. rewrite (slice_index_mid table s' []) by lia.
  apply wp_lift.
  destruct (Z.ltb_spec (Z.of_nat (length s') / 8) (total_words b)) as [|Hle]; [done|].
  destruct (good_table_split n b s' Hg Hle) as (l & rest & -> & -> & Hl & Hlen).
  pose proof (readable_total _ _ (proj1 Hl)). cbn [table_of total_words] in *.
  wp_step. rewrite umul_ok by lia. apply wp_lift.
  wp_step. rewrite <- (app_nil_r (concat l ++ rest)) at 1. rewrite <- app_assoc.
  rewrite (slice_index_mid (concat l) rest []) by (rewrite ?length_app; lia). apply wp_lift.
  wp_step. unfold wp at 1, put_state. unfold into_slice_segments. cbn [table_of total_words].
  rewrite umul_ok by (unfold BYTES_PER_WORD; lia). unfold rust_assert, BYTES_PER_WORD.
  rewrite !length_app. cbn [bind outcome_monad].
  destruct (Z.leb_spec (total_len l * 8) (Z.of_nat (length table + (length (concat l) + length rest))));
    [|lia].
  wp_step. apply wp_lift. wp_step. exists table, l. split; [done|].
  split; [apply (buffer_represents l table rest); apply Hl|]. by split.
Qed.

(** The message refers to the caller's bytes. *)
Lemma flat_slice_buffer (s : list byte) :
  match read_message_from_flat_slice options s with
  | (Ok m, _) => buffer (into_segments m) = s
  | _ => True
  end.
Proof.
  destruct (read_message_from_flat_slice options s) as [[m| | | |] rest] eqn:E; try done.
  unfold read_message_from_flat_slice in E.
  rewrite (ST_bind_ok get_state _ _ _ _ eq_refl) in E.
  destruct (read_segment_table options s) as [[[b|]| | | |] s']; inv_ST; try discriminate;
    injection Ha as <-; [|discriminate E].
  cbv zeta in E. inv_ST.
  destruct (_ <? _); inv_ST. unfold into_slice_segments in *. by inv_bind.
Qed.

(** [BufferSegments::new] on a buffer that holds the whole message. *)
Lemma BufferSegments_new_complete (s : list byte) :
  match read_segment_table options s with
  | (Ok (Some b), s') => total_words b <= Z.of_nat (length s') / 8 ->
      exists seg l, BufferSegments_new s options = Ok seg /\ buffer seg = s /\
                    represents seg l /\ good_message options l
  | (Ok None, _) => BufferSegments_new s options = Err EmptyBuffer
  | (Err e, _) => BufferSegments_new s options = Err e
  | _ => False
  end.
Proof.
  pose proof (slice_table options s) as Ht. unfold BufferSegments_new.
  destruct (read_segment_table options s) as [[[b|]| | | |] s']; try done.
  destruct Ht as (n & table & Hg & -> & Hm). intros Hle.
  destruct (good_table_split n b s' Hg Hle) as (l & rest & -> & -> & Hl & Hlen).
  pose proof (readable_total _ _ (proj1 Hl)). cbn [table_of total_words] in *.
  exists {| buffer := table ++ concat l ++ rest; segment_table_bytes_len := Z.of_nat (length table);
            segment_indices := indices_from 0 l |}, l.
  split; [|split; [done|split; [apply (buffer_represents l table rest); apply Hl|done]]].
  cbn [bind outcome_monad]. rewrite usub_ok by (rewrite !length_app; lia).
  cbn [bind outcome_monad table_of total_words]. rewrite umul_ok by lia.
  cbn [bind outcome_monad]. unfold rust_assert. rewrite !length_app.
  destruct (Z.leb_spec (total_len l * 8) (Z.of_nat (length table + (length (concat l) + length rest))));
    [|lia].
  cbn [bind outcome_monad lengths_indices]. do 2 f_equal. lia.
Qed.
End flat.
