(* ===== verification/NoAlloc.v ===== *)
(** * Segments without allocation:
    capnp/src/serialize/no_alloc_buffer_segments.rs

    The definitions, and [try_read_message_no_alloc] of serialize.rs, which
    fills the caller's buffer.  A buffer is an address and its bytes. *)

From S2P Require Import Prelude.
From S2P Require Import Io.
From S2P Require Import ReadLimiter.
From S2P Require Import Segments.
From S2P Require Import Serialize.
Definition U32_LEN_IN_BYTES : Z := 4.

Record NoAllocSegmentTableInfo := {
  segments_count : Z;
  segment_table_length_bytes : Z;
  total_segments_length_bytes : Z
}.

(** [&[u8]]: where it starts, and what it holds *)
Record Slice := { addr : Z; bytes : list byte }.

Definition slice_len (s : Slice) : Z := Z.of_nat (length (bytes s)).

(** [ptr.align_offset(8) == 0] *)
Definition verify_alignment (ptr : Z) : outcome unit :=
  if ptr mod BYTES_PER_WORD =? 0 then Ok tt else Err MessageNotAlignedBy8BytesBoundary.

(** [read_u32_le]: the state is the slice that is left *)
Definition read_u32_le : ST (list byte) Z :=
  slice ← get_state;
  let len := Z.of_nat (length slice) in
  if len <? U32_LEN_IN_BYTES then fails (MessageEndsPrematurely U32_LEN_IN_BYTES len)
  else
    u32_buf ← lift (slice_index slice 0 U32_LEN_IN_BYTES);
    rest ← lift (slice_index slice U32_LEN_IN_BYTES len);
    put_state rest ;;
    ret (le_combine u32_buf).

(** [val.try_into()] to a 64-bit [usize] succeeds. *)
Definition u32_to_segments_count (val : Z) : outcome Z :=
  ok_or (checked_add val 1) FourByteLengthTooBigForUSize.

Definition u32_to_segment_length_bytes (val : Z) : outcome Z :=
  ok_or (checked_mul val BYTES_PER_WORD) FourByteSegmentLengthTooBigForUSize.

(** [None] when the offset does not fit; [unreachable!] and the assertion
    panic. *)
Definition calculate_data_offset (count : Z) : outcome (option Z) :=
  if count =? 0 then Ok None
  else
    match checked_add 0 U32_LEN_IN_BYTES with
    | None => Ok None
    | Some data_offset =>
        match checked_mul count U32_LEN_IN_BYTES with
        | None => Ok None
        | Some lengths_len =>
            match checked_add data_offset lengths_len with
            | None => Ok None
            | Some data_offset =>
                padding_len ← (if data_offset mod BYTES_PER_WORD =? 0 then Ok 0
                               else if data_offset mod BYTES_PER_WORD =? 4 then Ok 4
                               else Panic);
                match checked_add data_offset padding_len with
                | None => Ok None
                | Some data_offset =>
                    rust_assert (data_offset mod BYTES_PER_WORD =? 0) ;;
                    Ok (Some data_offset)
                end
            end
        end
    end.

(** The length of each segment is read and added up. *)
Definition sum_segment_lengths (count : Z) : ST (list byte) Z :=
  fold_range (Z.to_nat count) 0 0 (fun _ total =>
    len ← read_u32_le;
    segment_length_in_bytes ← lift (u32_to_segment_length_bytes len);
    lift (ok_or (checked_add total segment_length_in_bytes) MessageSizeOverflow)).

(** [no_alloc_buffer_segments::read_segment_table]; [remaining] is the state *)
Definition na_read_segment_table (slice : Slice) (options : ReaderOptions) :
    outcome NoAllocSegmentTableInfo :=
  fst ((
    lift (verify_alignment (addr slice)) ;;
    count ← read_u32_le;
    count ← lift (u32_to_segments_count count);
    if SEGMENTS_COUNT_LIMIT <=? count then fails (InvalidNumberOfSegments count)
    else
      total ← sum_segment_lengths count;
      lift (match traversal_limit_in_words options with
            | Some limit => if limit <? total / 8 then Err (MessageTooLarge (total / 8)) else Ok tt
            | None => Ok tt
            end) ;;
      (if count mod 2 =? 0 then read_u32_le ;; ret tt else ret tt) ;;
      offset ← lift (calculate_data_offset count);
      expected_data_offset ← lift (ok_or offset MessageSizeOverflow);
      remaining ← get_state;
      consumed_bytes ← lift (usub (slice_len slice) (Z.of_nat (length remaining)));
      lift (rust_assert (expected_data_offset =? consumed_bytes)) ;;
      let left := Z.of_nat (length remaining) in
      if left <? total
      then fails (MessageEndsPrematurely (total / BYTES_PER_WORD) (left / BYTES_PER_WORD))
      else ret {| segments_count := count;
                  segment_table_length_bytes := expected_data_offset;
                  total_segments_length_bytes := total |}) (bytes slice)).

Inductive NoAllocBufferSegmentType :=
| SingleSegment (length_bytes : Z)
| MultipleSegments.

Record NoAllocBufferSegments := {
  na_buffer : list byte;
  segment_type : NoAllocBufferSegmentType
}.

Definition from_segment_table_info (buf : list byte) (info : NoAllocSegmentTableInfo) :
    NoAllocBufferSegments :=
  if segments_count info =? 1
  then {| na_buffer := buf; segment_type := SingleSegment (total_segments_length_bytes info) |}
  else {| na_buffer := buf; segment_type := MultipleSegments |}.

(** [from_slice]: the caller's slice is the state *)
Definition from_slice (options : ReaderOptions) : ST Slice NoAllocBufferSegments :=
  slice ← get_state;
  info ← lift (na_read_segment_table slice options);
  message_length ← lift (uadd 64 (segment_table_length_bytes info) (total_segments_length_bytes info));
  message ← lift (slice_index (bytes slice) 0 message_length);
  rest ← lift (slice_index (bytes slice) message_length (slice_len slice));
  put_state {| addr := addr slice + message_length; bytes := rest |} ;;
  ret (from_segment_table_info message info).

Definition from_buffer (buf : Slice) (options : ReaderOptions) : outcome NoAllocBufferSegments :=
  info ← na_read_segment_table buf options;
  Ok (from_segment_table_info (bytes buf) info).

Definition na_get_segment (s : NoAllocBufferSegments) (idx : Z) : outcome (option (list byte)) :=
  match segment_type s with
  | SingleSegment length_bytes =>
      if idx =? 0 then
        hi ← uadd 64 8 length_bytes;
        seg ← slice_index (na_buffer s) 8 hi; Ok (Some seg)
      else Ok None
  | MultipleSegments =>
      fst ((
        count ← unwrap_result read_u32_le;
        count ← unwrap_result (lift (u32_to_segments_count count));
        if count <=? idx then ret None
        else
          offset ← lift (calculate_data_offset count);
          segment_offset ← lift (unwrap offset);
          segment_offset ← fold_range (Z.to_nat idx) 0 segment_offset (fun _ segment_offset =>
            len ← unwrap_result read_u32_le;
            len ← unwrap_result (lift (u32_to_segment_length_bytes len));
            lift (unwrap (checked_add segment_offset len)));
          len ← unwrap_result read_u32_le;
          segment_length ← unwrap_result (lift (u32_to_segment_length_bytes len));
          hi ← lift (uadd 64 segment_offset segment_length);
          seg ← lift (slice_index (na_buffer s) segment_offset hi);
          ret (Some seg)) (na_buffer s))
  end.

Definition na_len (s : NoAllocBufferSegments) : outcome Z :=
  match segment_type s with
  | SingleSegment _ => Ok 1
  | MultipleSegments =>
      fst ((count ← unwrap_result read_u32_le;
            unwrap_result (lift (u32_to_segments_count count))) (na_buffer s))
  end.

#[export] Instance NoAlloc_segments : ReaderSegments NoAllocBufferSegments := {|
  get_segment := na_get_segment;
  segments_len := na_len
|}.

(** [read_message_from_flat_slice_no_alloc] *)
Definition read_message_from_flat_slice_no_alloc (options : ReaderOptions) :
    ST Slice (Reader NoAllocBufferSegments) :=
  segments ← from_slice options;
  ret (Reader_new segments options).

(** ** [try_read_message_no_alloc]

    The state is the reader and the caller's buffer. *)

Section try_read.
Context {R : Type} `{Read R}.

(** [read.read(&mut buffer[lo..hi])] and [read_exact] *)
Definition read_into (exact : bool) (lo hi : Z) : ST (R * list byte) Z := fun '(r, buf) =>
  match slice_index buf lo hi with
  | Ok window =>
      match (if exact then read_exact (length window) r else read (length window) r) with
      | (Ok bs, r) =>
          match copy_from_slice buf lo bs with
          | Ok buf => (Ok (Z.of_nat (length bs)), (r, buf))
          | Err e => (Err e, (r, buf))
          | Panic => (Panic, (r, buf))
          | UB => (UB, (r, buf))
          | OutOfFuel => (OutOfFuel, (r, buf))
          end
      | (Err e, r) => (Err e, (r, buf))
      | (Panic, r) => (Panic, (r, buf))
      | (UB, r) => (UB, (r, buf))
      | (OutOfFuel, r) => (OutOfFuel, (r, buf))
      end
  | Err e => (Err e, (r, buf))
  | Panic => (Panic, (r, buf))
  | UB => (UB, (r, buf))
  | OutOfFuel => (OutOfFuel, (r, buf))
  end.

Definition u32_in_buffer (lo : Z) : ST (R * list byte) Z :=
  rb ← get_state; lift (from_le_bytes (snd rb) lo).

Definition buffer_len : ST (R * list byte) Z :=
  rb ← get_state; ret (Z.of_nat (length (snd rb))).

(** [while num_segment_counts_read < segment_count]: two lengths a round.
    What [read] returns is not looked at. *)
Fixpoint read_lengths (fuel : nat) (segment_count num total : Z) : ST (R * list byte) (Z * Z) :=
  match fuel with
  | O => lift OutOfFuel
  | S fuel =>
      if num <? segment_count then
        let start := (num + 1) * 4 in
        let end_ := start + 8 in
        len ← buffer_len;
        if len <? end_ then fails BufferNotLargeEnough
        else
          read_into false start end_ ;;
          w ← u32_in_buffer start;
          total ← lift (ok_or (checked_add total w) MessageSizeOverflow);
          let num := num + 1 in
          total ← (if num <? segment_count then
                     w ← u32_in_buffer (start + 4);
                     lift (ok_or (checked_add total w) MessageSizeOverflow)
                   else ret total);
          read_lengths fuel segment_count (num + 1) total
      else ret (num, total)
  end.

Definition try_read_message_no_alloc (buffer_addr : Z) (options : ReaderOptions) :
    ST (R * list byte) (option (Reader NoAllocBufferSegments)) :=
  if negb (buffer_addr mod BYTES_PER_WORD =? 0) then fails UnalignedSegment
  else
    len ← buffer_len;
    if len <? 8 then fails BufferNotLargeEnough
    else
      n ← read_into false 0 8;
      if n =? 0 then ret None
      else
        (if n <? 8 then read_into true n 8 ;; ret tt else ret tt) ;;
        count1 ← u32_in_buffer 0;
        let segment_count := wrap32 (count1 + 1) in
        if (SEGMENTS_COUNT_LIMIT <=? segment_count) || (segment_count =? 0)
        then fails (InvalidNumberOfSegments segment_count)
        else
          total ← u32_in_buffer 4;
          '(num, total) ← read_lengths (Z.to_nat segment_count) segment_count 1 total;
          lift (check_traversal_limit options total) ;;
          let start := (num + 1) * 4 in
          body ← lift (umul 64 total 8);
          end_ ← lift (uadd 64 start body);
          len ← buffer_len;
          if len <? end_ then fails BufferNotLargeEnough
          else
            read_into true start end_ ;;
            rb ← get_state;
            let info := {| segments_count := segment_count;
                           segment_table_length_bytes := start;
                           total_segments_length_bytes := body |} in
            ret (Some (Reader_new (from_segment_table_info (snd rb) info) options)).

Definition read_message_no_alloc (buffer_addr : Z) (options : ReaderOptions) :
    ST (R * list byte) (Reader NoAllocBufferSegments) :=
  m ← try_read_message_no_alloc buffer_addr options;
  match m with Some m => ret m | None => fails PrematureEndOfFile end.
End try_read.
