(* ===== verification/NoAllocSpec.v ===== *)
(** * Framing without allocation: what it promises

    A buffer that starts with a segment table and holds its segments
    ([in_place]) is a lawful [ReaderSegments]; reading one from a flat slice
    or from a stream yields such a buffer or an error, whatever the input. *)

From S2P Require Import Prelude.
From S2P Require Import Io.
From S2P Require Import ReadLimiter.
From S2P Require Import Segments.
From S2P Require Import Serialize.
From S2P Require Import SerializeSpec.
From S2P Require Import SerializeSpec.
From S2P Require Import NoAlloc.

(** ** Tables in place *)

(** [buf] is a table of the segments [l], the segments, and what follows.
    The padding of the table may hold anything. *)
Definition in_place (l : list (list byte)) (buf rest : list byte) : Prop :=
  exists pad, length pad = (if (length l mod 2 =? 0)%nat then 4 else 0)%nat /\
  buf = le_split 4 (Z.of_nat (length l) - 1) ++ le_words (map word_len l) ++ pad ++ concat l ++ rest.

Definition table_len (n : Z) : Z := 8 * (n / 2 + 1).

Lemma padded_table_len (l : list (list byte)) (pad : list byte) :
  length pad = (if (length l mod 2 =? 0)%nat then 4 else 0)%nat ->
  4 + 4 * Z.of_nat (length l) + Z.of_nat (length pad) = table_len (Z.of_nat (length l)).
Proof.
  intros ->. unfold table_len.
  destruct (even_case (length l)) as [[-> He]|[-> He]]; cbn [Nat.eqb]; zlia.
Qed.

Lemma calculate_data_offset_ok n : 0 < n < 2 ^ 32 ->
  calculate_data_offset n = Ok (Some (table_len n)).
Proof.
  intros Hn. unfold calculate_data_offset, U32_LEN_IN_BYTES, BYTES_PER_WORD, table_len.
  destruct (Z.eqb_spec n 0); [lia|]. rewrite checked_add_ok, checked_mul_ok, checked_add_ok by lia.
  assert (Hm : n mod 2 = 0 \/ n mod 2 = 1) by (pose proof (Z.mod_pos_bound n 2); lia).
  destruct Hm as [Hm|Hm].
  - replace ((0 + 4 + n * 4) mod 8) with 4 by zlia. cbn [Z.eqb Pos.eqb bind outcome_monad].
    rewrite checked_add_ok by lia. replace (_ mod 8) with 0 by zlia. cbn. do 2 f_equal. zlia.
  - replace ((0 + 4 + n * 4) mod 8) with 0 by zlia. cbn [Z.eqb Pos.eqb bind outcome_monad].
    rewrite checked_add_ok by lia. replace (_ mod 8) with 0 by zlia. cbn. do 2 f_equal. zlia.
Qed.

Lemma read_u32_word w (rest : list byte) : 0 <= w < 2 ^ 32 ->
  read_u32_le (le_split 4 w ++ rest) = (Ok w, rest).
Proof.
  intros Hw. unfold read_u32_le, U32_LEN_IN_BYTES. rewrite (ST_bind_ok get_state _ _ _ _ eq_refl).
  rewrite length_app, length_le_split.
  destruct (Z.ltb_spec (Z.of_nat (4 + length rest)) 4); [lia|].
  rewrite slice_index_ok by (rewrite ?length_app, ?length_le_split; lia).
  rewrite (lift_bind_ok _ _ _ _ eq_refl).
  rewrite slice_index_ok by (rewrite ?length_app, ?length_le_split; lia).
  rewrite (lift_bind_ok _ _ _ _ eq_refl). change (Z.to_nat (4 - 0)) with 4%nat.
  change (Z.to_nat 0) with 0%nat. change (Z.to_nat 4) with 4%nat.
  rewrite drop_0, take_app_length', drop_app_length' by (rewrite length_le_split; done).
  rewrite take_ge by lia. unfold bind; cbn. by rewrite word_len_32.
Qed.

(** Any four bytes are a word. *)
Lemma split_word (s : list byte) : (4 <= length s)%nat ->
  exists w rest, s = le_split 4 w ++ rest /\ 0 <= w < 2 ^ 32.
Proof.
  intros Hs. exists (le_combine (take 4 s)), (drop 4 s).
  assert (Hl : length (take 4 s) = 4%nat) by (rewrite length_take; lia). split.
  - rewrite <- Hl at 1. by rewrite split_le_combine, take_drop.
  - pose proof (le_combine_bound (take 4 s)). rewrite Hl in *. lia.
Qed.

Lemma read_u32_safe (s : list byte) :
  wp read_u32_le (fun w rest => 0 <= w < 2 ^ 32 /\ s = le_split 4 w ++ rest) (fun _ _ => True) s.
Proof.
  destruct (Nat.lt_ge_cases (length s) 4) as [Hs|Hs].
  - unfold wp, read_u32_le, U32_LEN_IN_BYTES. rewrite (ST_bind_ok get_state _ _ _ _ eq_refl).
    by destruct (Z.ltb_spec (Z.of_nat (length s)) 4); [|lia].
  - destruct (split_word s Hs) as (w & rest & -> & Hw). unfold wp. by rewrite read_u32_word.
Qed.

Lemma segment_length_bytes_ok w : 0 <= w < 2 ^ 32 -> u32_to_segment_length_bytes w = Ok (w * 8).
Proof. intros Hw. unfold u32_to_segment_length_bytes, BYTES_PER_WORD. by rewrite checked_mul_ok by lia. Qed.

Lemma segments_count_ok w : 0 <= w < 2 ^ 32 -> u32_to_segments_count w = Ok (w + 1).
Proof. intros Hw. unfold u32_to_segments_count. by rewrite checked_add_ok by lia. Qed.

(** ** The segment table *)

Definition table_info (ws : list Z) : NoAllocSegmentTableInfo :=
  let n := Z.of_nat (length ws) in
  {| segments_count := n; segment_table_length_bytes := table_len n;
     total_segments_length_bytes := 8 * sum_words ws |}.

Lemma sum_words_bound ws : lengths_ok ws -> sum_words ws <= Z.of_nat (length ws) * 2 ^ 32.
Proof. induction 1; cbn [sum_words foldr length]; [lia|]. fold (sum_words l). lia. Qed.

Lemma sum_lengths_ok ws (rest : list byte) : lengths_ok ws -> Z.of_nat (length ws) < SEGMENTS_COUNT_LIMIT ->
  sum_segment_lengths (Z.of_nat (length ws)) (le_words ws ++ rest) = (Ok (8 * sum_words ws), rest).
Proof.
  intros Hw Hn. unfold sum_segment_lengths, SEGMENTS_COUNT_LIMIT in *. rewrite Nat2Z.id.
  assert (Hgen : forall ws lo acc, lengths_ok ws -> 0 <= acc ->
    acc + 8 * sum_words ws < 2 ^ 64 ->
    fold_range (length ws) lo acc (fun _ total =>
      len ← read_u32_le;
      segment_length_in_bytes ← lift (u32_to_segment_length_bytes len);
      lift (ok_or (checked_add total segment_length_in_bytes) MessageSizeOverflow))
      (le_words ws ++ rest) = (Ok (acc + 8 * sum_words ws), rest)).
  { clear. induction ws as [|w ws IH]; intros lo acc Hw Ha Hb; cbn [length fold_range].
    - unfold le_words. cbn. do 2 f_equal. lia.
    - cbn [sum_words foldr] in *. fold (sum_words ws) in *.
      inversion Hw as [|? ? Hw0 Hw']; subst. pose proof (sum_words_nonneg _ Hw').
      rewrite ST_bind_assoc, le_words_cons, <- app_assoc.
      rewrite (ST_bind_ok _ _ _ _ _ (read_u32_word w _ Hw0)), ST_bind_assoc.
      rewrite (lift_bind_ok _ _ _ _ (segment_length_bytes_ok w Hw0)).
      rewrite checked_add_ok by lia. cbn [ok_or]. rewrite (lift_bind_ok _ _ _ _ eq_refl).
      rewrite IH by (done || lia). do 2 f_equal. lia. }
  rewrite Hgen; [do 2 f_equal; lia|done|lia|]. pose proof (sum_words_bound _ Hw). lia.
Qed.

Lemma sum_lengths_safe n (s : list byte) : (n < 512)%nat ->
  wp (sum_segment_lengths (Z.of_nat n))
     (fun total rest => exists ws, length ws = n /\ lengths_ok ws /\ total = 8 * sum_words ws /\
                         s = le_words ws ++ rest) (fun _ _ => True) s.
Proof.
  intros Hn. unfold sum_segment_lengths. rewrite Nat2Z.id.
  eapply wp_mono; [apply (wp_fold_range (fun i total rest => exists ws, Z.of_nat (length ws) = i /\
    lengths_ok ws /\ total = 8 * sum_words ws /\ s = le_words ws ++ rest))|cbn beta|done].
  - exists []. by repeat split; try constructor.
  - intros i total rest Hi (ws & Hl & Hw & -> & ->). wp_step.
    eapply wp_mono; [apply read_u32_safe|cbn beta|done]. intros w rest' [Hw0 ->].
    wp_step. rewrite segment_length_bytes_ok by done. apply wp_lift.
    pose proof (sum_words_bound _ Hw). rewrite checked_add_ok by lia. apply wp_lift.
    exists (ws ++ [w]). rewrite length_app, sum_words_app, le_words_app, <- app_assoc.
    split; [simpl; lia|]. split; [apply Forall_app_2; [done|by constructor; [|constructor]]|].
    split; [cbn [sum_words foldr]; lia|]. unfold le_words at 3. cbn [map concat].
    by rewrite app_nil_r.
  - intros total rest (ws & Hl & Hr). exists ws. split; [lia|done].
Qed.

Definition within_words (options : ReaderOptions) (total : Z) : Prop :=
  forall v, traversal_limit_in_words options = Some v -> total <= v.

(** The code after the lengths: limit, padding and the length of the rest. *)
Lemma na_table_ok options a ws (pad body : list byte) :
  a mod 8 = 0 -> ws <> [] -> Z.of_nat (length ws) < SEGMENTS_COUNT_LIMIT -> lengths_ok ws ->
  length pad = (if (length ws mod 2 =? 0)%nat then 4 else 0)%nat ->
  within_words options (sum_words ws) -> 8 * sum_words ws <= Z.of_nat (length body) ->
  na_read_segment_table
    {| addr := a; bytes := le_split 4 (Z.of_nat (length ws) - 1) ++ le_words ws ++ pad ++ body |}
    options = Ok (table_info ws).
Proof.
  intros Ha Hne Hn Hw Hpad Hlim Hbody. unfold na_read_segment_table, SEGMENTS_COUNT_LIMIT in *.
  assert (0 < Z.of_nat (length ws)) by (destruct ws; simpl; [done|lia]).
  pose proof (sum_words_nonneg _ Hw).
  cbn [addr bytes]. unfold verify_alignment, BYTES_PER_WORD. rewrite Ha.
  rewrite (lift_bind_ok _ _ _ tt eq_refl).
  erewrite ST_bind_ok by (apply read_u32_word; lia).
  rewrite (lift_bind_ok _ _ _ _ (segments_count_ok (Z.of_nat (length ws) - 1) ltac:(lia))).
  replace (Z.of_nat (length ws) - 1 + 1) with (Z.of_nat (length ws)) by lia.
  destruct (Z.leb_spec 512 (Z.of_nat (length ws))); [lia|].
  erewrite ST_bind_ok by (by apply sum_lengths_ok).
  rewrite (lift_bind_ok _ _ _ tt).
  2: { destruct (traversal_limit_in_words options) as [v|] eqn:E; [|done].
       specialize (Hlim v E). rewrite Z.mul_comm, Z.div_mul by done.
       by destruct (Z.ltb_spec v (sum_words ws)); [lia|]. }
  rewrite (ST_bind_ok _ _ _ tt body).
  2: { destruct (even_case (length ws)) as [[Hm He]|[Hm He]]; rewrite Hm in Hpad; cbn [Nat.eqb] in Hpad.
       - replace (Z.of_nat (length ws) mod 2) with 0 by zlia. cbn [Z.eqb].
         destruct (split_word pad) as (w & p & -> & Hw0); [lia|].
         rewrite length_app, length_le_split in Hpad. assert (p = []) as -> by (by destruct p; [|simpl in Hpad; lia]).
         rewrite app_nil_r. by rewrite (ST_bind_ok _ _ _ _ _ (read_u32_word w body Hw0)).
       - replace (Z.of_nat (length ws) mod 2) with 1 by zlia. by destruct pad. }
  rewrite (lift_bind_ok _ _ _ _ (calculate_data_offset_ok (Z.of_nat (length ws)) ltac:(lia))).
  cbn [ok_or]. rewrite (lift_bind_ok _ _ _ _ eq_refl). rewrite (ST_bind_ok get_state _ _ _ _ eq_refl).
  assert (Htl : slice_len {| addr := a; bytes := le_split 4 (Z.of_nat (length ws) - 1) ++ le_words ws ++ pad ++ body |}
          = table_len (Z.of_nat (length ws)) + Z.of_nat (length body)).
  { unfold slice_len. cbn [bytes]. rewrite !length_app, length_le_split, length_le_words, Hpad.
    unfold table_len. destruct (even_case (length ws)) as [[-> He]|[-> He]]; cbn [Nat.eqb]; zlia. }
  rewrite Htl. rewrite usub_ok by (unfold table_len; zlia). rewrite (lift_bind_ok _ _ _ _ eq_refl).
  replace (table_len _ + _ - _) with (table_len (Z.of_nat (length ws))) by lia. rewrite Z.eqb_refl.
  rewrite (lift_bind_ok _ _ _ tt eq_refl).
  by destruct (Z.ltb_spec (Z.of_nat (length body)) (8 * sum_words ws)); [lia|].
Qed.

(** A slice that starts with a segment table, and the words of its lengths. *)
Definition has_table (options : ReaderOptions) (s : list byte) (ws : list Z) (pad body : list byte) : Prop :=
  ws <> [] /\ Z.of_nat (length ws) < SEGMENTS_COUNT_LIMIT /\ lengths_ok ws /\
  length pad = (if (length ws mod 2 =? 0)%nat then 4 else 0)%nat /\
  within_words options (sum_words ws) /\ 8 * sum_words ws <= Z.of_nat (length body) /\
  s = le_split 4 (Z.of_nat (length ws) - 1) ++ le_words ws ++ pad ++ body.

Lemma na_table_length ws (pad body : list byte) :
  length pad = (if (length ws mod 2 =? 0)%nat then 4 else 0)%nat ->
  Z.of_nat (length (le_split 4 (Z.of_nat (length ws) - 1) ++ le_words ws ++ pad ++ body)) =
  table_len (Z.of_nat (length ws)) + Z.of_nat (length body).
Proof.
  intros Hpad. rewrite !length_app, length_le_split, length_le_words, Hpad. unfold table_len.
  destruct (even_case (length ws)) as [[-> He]|[-> He]]; cbn [Nat.eqb]; zlia.
Qed.

Lemma na_table_safe options (sl : Slice) :
  match na_read_segment_table sl options with
  | Ok info => addr sl mod 8 = 0 /\
      exists ws pad body, has_table options (bytes sl) ws pad body /\ info = table_info ws
  | Err _ => True
  | _ => False
  end.
Proof.
  destruct sl as [a s]. unfold na_read_segment_table. cbn [addr bytes].
  match goal with |- match fst (?c s) with _ => _ end =>
    enough (wp c (fun info _ => a mod 8 = 0 /\ exists ws pad body,
      has_table options s ws pad body /\ info = table_info ws) (fun _ _ => True) s) as Hwp
      by (unfold wp in Hwp; by destruct (c s) as [[] ?]) end.
  unfold SEGMENTS_COUNT_LIMIT, has_table, verify_alignment, BYTES_PER_WORD.
  wp_step. apply wp_lift. destruct (Z.eqb_spec (a mod 8) 0) as [Ha|_]; [|done].
  wp_step. eapply wp_mono; [apply read_u32_safe|cbn beta|done]. intros w s1 [Hw0 Hs1].
  wp_step. rewrite segments_count_ok by done. apply wp_lift.
  destruct (Z.leb_spec 512 (w + 1)); [done|]. wp_step.
  replace (w + 1) with (Z.of_nat (Z.to_nat (w + 1))) at 1 by lia.
  eapply wp_mono; [apply sum_lengths_safe; lia|cbn beta|done].
  intros total s2 (ws & Hn & Hw & -> & Hs2). wp_step. apply wp_lift.
  rewrite Z.mul_comm, Z.div_mul by done. rewrite <- Z.mul_comm.
  assert (Hlim : match traversal_limit_in_words options with
    | Some limit => if limit <? sum_words ws then Err (MessageTooLarge (sum_words ws)) else Ok tt
    | None => Ok tt end = Ok tt -> within_words options (sum_words ws)).
  { intros E v Hv. rewrite Hv in E. by destruct (Z.ltb_spec v (sum_words ws)). }
  destruct (match traversal_limit_in_words options with Some _ => _ | None => _ end) as [[]|e| | |] eqn:E.
  2: done. 2-4: destruct (traversal_limit_in_words options) as [v|]; [by destruct (v <? _)|done].
  specialize (Hlim eq_refl). clear E. wp_step.
  assert (Hws : w + 1 = Z.of_nat (length ws)) by lia. assert (ws <> []) by (intros ->; simpl in *; lia).
  eapply (wp_mono _ (fun _ body => exists pad, s2 = pad ++ body /\
    length pad = (if (length ws mod 2 =? 0)%nat then 4 else 0)%nat)); [|cbn beta|done].
  { destruct (even_case (length ws)) as [[-> He]|[-> He]]; cbn [Nat.eqb].
    - replace ((w + 1) mod 2) with 0 by zlia. cbn [Z.eqb]. wp_step.
      eapply wp_mono; [apply read_u32_safe|cbn beta|done]. intros w' body [_ ->]. wp_step.
      exists (le_split 4 w'). by rewrite length_le_split.
    - replace ((w + 1) mod 2) with 1 by zlia. cbn [Z.eqb]. wp_step. by exists []. }
  intros [] body (pad & Hs3 & Hpad). wp_step. rewrite calculate_data_offset_ok by lia. apply wp_lift.
  wp_step. apply wp_lift. cbn [ok_or]. wp_step. unfold wp at 1, get_state. wp_step.
  assert (Hs : s = le_split 4 (Z.of_nat (length ws) - 1) ++ le_words ws ++ pad ++ body).
  { rewrite Hs1, Hs2, Hs3, <- Hws. do 2 f_equal. lia. }
  assert (Hsl : slice_len {| addr := a; bytes := s |} = table_len (w + 1) + Z.of_nat (length body)).
  { unfold slice_len. cbn [bytes]. by rewrite Hs, na_table_length, Hws by done. }
  rewrite Hsl, usub_ok by (unfold table_len; zlia). apply wp_lift. wp_step.
  replace (_ + _ - _) with (table_len (w + 1)) by lia. rewrite Z.eqb_refl. apply wp_lift.
  cbn [rust_assert]. destruct (Z.ltb_spec (Z.of_nat (length body)) (8 * sum_words ws)); [done|].
  wp_step. split; [done|]. exists ws, pad, body.
  split; [by unfold SEGMENTS_COUNT_LIMIT; split_and!; try done; lia|]. unfold table_info. by rewrite Hws.
Qed.

(** ** The segments of a table *)

Lemma segments_of_table options s ws pad body : has_table options s ws pad body ->
  exists l rest, body = concat l ++ rest /\ ws = map word_len l /\ good_message options l /\
    Z.of_nat (length (concat l)) = 8 * sum_words ws.
Proof.
  intros (Hne & Hn & Hw & _ & Hlim & Hbody & _). pose proof (sum_words_nonneg _ Hw).
  unfold SEGMENTS_COUNT_LIMIT in *.
  set (k := Z.to_nat (8 * sum_words ws)).
  assert (Hk : Z.of_nat (length (take k body)) = 8 * sum_words ws).
  { rewrite length_take. unfold k. lia. }
  destruct (cut_segments ws (take k body) Hw Hk) as (l & Hl & Hc & Ha).
  exists l, (drop k body). rewrite Hc, take_drop. split_and!; try done.
  subst ws. rewrite length_map in Hn. unfold good_message, readable, frameable, within_limit.
  rewrite sum_words_segments in Hlim. unfold SEGMENTS_COUNT_LIMIT. split_and!; try done; try lia.
  - by intros ->.
  - apply Forall_forall. intros x Hx. split; [by eapply Forall_forall in Ha|].
    unfold lengths_ok in Hw. rewrite Forall_map in Hw. by eapply Forall_forall in Hw as [_ Hw].
Qed.

Lemma has_table_in_place options l (rest pad : list byte) : good_message options l ->
  length pad = (if (length l mod 2 =? 0)%nat then 4 else 0)%nat ->
  has_table options (le_split 4 (Z.of_nat (length l) - 1) ++ le_words (map word_len l) ++ pad ++ concat l ++ rest)
    (map word_len l) pad (concat l ++ rest).
Proof.
  intros [[(Hne & Hl & Hf) Hn] Hlim] Hpad.
  assert (Ha : Forall aligned l) by (eapply Forall_impl; [|exact Hf]; by intros ? []).
  pose proof (total_len_concat l Ha). unfold has_table.
  rewrite length_map, sum_words_segments, length_app. split_and!; try done; try lia.
  - by destruct l.
  - unfold lengths_ok. apply Forall_map. eapply Forall_impl; [|exact Hf].
    intros s [_ Hs]. cbn. pose proof (word_len_nonneg s). lia.
Qed.

Lemma read_lengths_upto ws (rest : list byte) i w acc : lengths_ok ws -> ws !! i = Some w ->
  0 <= acc -> acc + 8 * sum_words ws < 2 ^ 64 -> forall lo,
  fold_range i lo acc (fun _ segment_offset =>
    len ← unwrap_result read_u32_le;
    len ← unwrap_result (lift (u32_to_segment_length_bytes len));
    lift (unwrap (checked_add segment_offset len))) (le_words ws ++ rest) =
  (Ok (acc + 8 * sum_words (take i ws)), le_words (drop i ws) ++ rest).
Proof.
  revert ws acc. induction i as [|i IH]; intros ws acc Hw Hi Ha Hb lo.
  { cbn [fold_range take sum_words foldr]. rewrite Z.mul_0_r, Z.add_0_r. by rewrite drop_0. }
  destruct ws as [|w0 ws]; [done|]. inversion Hw as [|? ? Hw0 Hw']; subst.
  cbn [fold_range sum_words foldr take drop] in *. fold (sum_words ws) in *. fold (sum_words (take i ws)).
  pose proof (sum_words_nonneg _ Hw'). rewrite ST_bind_assoc, le_words_cons, <- app_assoc.
  assert (Hr : unwrap_result read_u32_le (le_split 4 w0 ++ le_words ws ++ rest) = (Ok w0, le_words ws ++ rest))
    by (unfold unwrap_result; by rewrite read_u32_word).
  rewrite (ST_bind_ok _ _ _ _ _ Hr), ST_bind_assoc.
  erewrite ST_bind_ok by (unfold unwrap_result, lift; by rewrite segment_length_bytes_ok).
  rewrite checked_add_ok by lia. cbn [unwrap]. rewrite (lift_bind_ok _ _ _ _ eq_refl).
  rewrite (IH ws) by (done || lia). do 2 f_equal. lia.
Qed.

Lemma good_lengths options l : good_message options l ->
  lengths_ok (map word_len l) /\ Forall aligned l /\ 0 < Z.of_nat (length l) < 512 /\ 0 <= total_len l < 2 ^ 42.
Proof.
  intros [Hread _]. pose proof (readable_total _ _ Hread). pose proof (total_len_nonneg l).
  destruct Hread as [(Hne & _ & Hf) Hn].
  unfold SEGMENTS_COUNT_LIMIT in Hn. assert (0 < Z.of_nat (length l)) by (destruct l; simpl; [done|lia]).
  split_and!; try done; try lia.
  - apply Forall_map. eapply Forall_impl; [|exact Hf]. intros s [_ Hs]. cbn.
    pose proof (word_len_nonneg s). lia.
  - eapply Forall_impl; [|exact Hf]. by intros ? [].
Qed.

(** A table in place yields its segments: no [unwrap] fails. *)
Lemma in_place_represents options l buf rest : good_message options l -> in_place l buf rest ->
  represents (from_segment_table_info buf (table_info (map word_len l))) l.
Proof.
  intros Hgood (pad & Hpad & Hbuf). destruct (good_lengths _ _ Hgood) as (Hw & Ha & Hn & Htot).
  pose proof (padded_table_len l pad Hpad) as Htl.
  set (pre := le_split 4 (Z.of_nat (length l) - 1) ++ le_words (map word_len l) ++ pad) in *.
  assert (Hpre : Z.of_nat (length pre) = table_len (Z.of_nat (length l))).
  { unfold pre. rewrite !length_app, length_le_split, length_le_words, length_map. lia. }
  assert (Hbuf' : buf = pre ++ concat l ++ rest) by (unfold pre; by rewrite Hbuf, <- !app_assoc).
  unfold from_segment_table_info, table_info. cbn [segments_count total_segments_length_bytes].
  rewrite length_map, sum_words_segments.
  destruct (Z.eqb_spec (Z.of_nat (length l)) 1) as [E|E]; split; cbn [segments_len get_segment NoAlloc_segments].
  - unfold na_len. cbn [segment_type]. by rewrite E.
  - intros id Hid. unfold na_get_segment. cbn [segment_type na_buffer].
    destruct l as [|s [|? ?]]; try done; try (cbn in E; lia).
    destruct (Z.eqb_spec id 0) as [->|Hid0].
    + rewrite uadd_ok by lia. cbn [bind outcome_monad].
      assert (Hs : slice_index buf 8 (8 + 8 * total_len [s]) = Ok s).
      { rewrite Hbuf'. rewrite <- (segment_slice pre [s] rest 0 s Ha eq_refl). rewrite Hpre.
        cbn [take total_len foldr length]. change (table_len (Z.of_nat 1)) with 8. f_equal; lia. }
      by rewrite Hs.
    + unfold nth_segment. rewrite lookup_ge_None_2; [done|]. unfold u32, in_width in Hid. cbn; lia.
  - unfold na_len. cbn [segment_type na_buffer]. rewrite Hbuf.
    erewrite ST_bind_ok by (unfold unwrap_result; by rewrite read_u32_word by lia).
    unfold unwrap_result, lift. rewrite segments_count_ok by lia. cbn. do 1 f_equal. lia.
  - intros id Hid. unfold na_get_segment. cbn [segment_type na_buffer]. rewrite Hbuf at 1.
    erewrite ST_bind_ok by (unfold unwrap_result; by rewrite read_u32_word by lia).
    erewrite ST_bind_ok by (unfold unwrap_result, lift; by rewrite segments_count_ok by lia).
    replace (Z.of_nat (length l) - 1 + 1) with (Z.of_nat (length l)) by lia.
    unfold nth_segment. destruct (Z.leb_spec (Z.of_nat (length l)) id) as [Hge|Hlt].
    { cbn. rewrite lookup_ge_None_2; [done|lia]. }
    rewrite (lift_bind_ok _ _ _ _ (calculate_data_offset_ok (Z.of_nat (length l)) ltac:(lia))).
    cbn [unwrap]. rewrite (lift_bind_ok _ _ _ _ eq_refl).
    unfold u32, in_width in Hid. destruct (lookup_lt_is_Some_2 l (Z.to_nat id)) as [s Hs]; [lia|].
    assert (Hws : map word_len l !! Z.to_nat id = Some (word_len s)) by (rewrite list_lookup_fmap, Hs; done).
    assert (Hwl : 0 <= word_len s < 2 ^ 32).
    { exact (Forall_lookup_1 _ _ _ _ Hw Hws). }
    erewrite ST_bind_ok.
    2: { apply (read_lengths_upto (map word_len l) _ _ _ _ Hw Hws);
           [unfold table_len; zlia|rewrite sum_words_segments; unfold table_len; zlia]. }
    rewrite (drop_S _ _ _ Hws), le_words_cons, <- app_assoc.
    erewrite ST_bind_ok by (unfold unwrap_result; by rewrite read_u32_word by lia).
    erewrite ST_bind_ok by (unfold unwrap_result, lift; by rewrite segment_length_bytes_ok by lia).
    rewrite firstn_map, sum_words_segments.
    assert (Hle : total_len (take (Z.to_nat id) l) <= total_len l).
    { rewrite <- (take_drop (Z.to_nat id) l) at 2. rewrite total_len_app.
      pose proof (total_len_nonneg (drop (Z.to_nat id) l)). lia. }
    pose proof (total_len_nonneg (take (Z.to_nat id) l)).
    rewrite uadd_ok by (unfold table_len; zlia). rewrite (lift_bind_ok _ _ _ _ eq_refl).
    rewrite (lift_bind_ok _ _ _ s); [by rewrite Hs|].
    rewrite Hbuf', <- (segment_slice pre l rest _ s Ha Hs), Hpre. f_equal; lia.
Qed.

(** ** Flat slices *)

Lemma slice_len_bytes a (s : list byte) : slice_len {| addr := a; bytes := s |} = Z.of_nat (length s).
Proof. done. Qed.

(** The slice is cut after the message, which is a table in place. *)
Lemma from_slice_table options a ws pad body s : a mod 8 = 0 -> has_table options s ws pad body ->
  exists l rest, body = concat l ++ rest /\ ws = map word_len l /\ good_message options l /\
  exists segments, from_slice options {| addr := a; bytes := s |} =
    (Ok segments, {| addr := a + (table_len (Z.of_nat (length l)) + 8 * total_len l); bytes := rest |}) /\
    represents segments l.
Proof.
  intros Ha Ht. destruct (segments_of_table _ _ _ _ _ Ht) as (l & rest & -> & -> & Hgood & Hlen).
  pose proof (good_lengths _ _ Hgood) as (Hw & Hal & Hn & Htot).
  destruct Ht as (Hne & Hlt & _ & Hpad & Hlim & Hbody & ->).
  rewrite sum_words_segments, length_map in *.
  exists l, rest. split; [done|]. split; [done|]. split; [done|].
  set (head := le_split 4 (Z.of_nat (length l) - 1) ++ le_words (map word_len l) ++ pad).
  assert (Hhead : Z.of_nat (length head) = table_len (Z.of_nat (length l))).
  { unfold head. rewrite !length_app, length_le_split, length_le_words, length_map.
    pose proof (padded_table_len l pad Hpad). lia. }
  exists (from_segment_table_info (head ++ concat l) (table_info (map word_len l))). split.
  - unfold from_slice. rewrite (ST_bind_ok get_state _ _ _ _ eq_refl).
    rewrite (lift_bind_ok _ _ _ (table_info (map word_len l))).
    2: { rewrite <- (length_map word_len l). apply na_table_ok; rewrite ?length_map, ?sum_words_segments; done. }
    cbn [table_info segment_table_length_bytes total_segments_length_bytes].
    rewrite length_map, sum_words_segments. rewrite uadd_ok by (unfold table_len; zlia).
    rewrite (lift_bind_ok _ _ _ _ eq_refl). rewrite slice_len_bytes. cbn [bytes addr].
    assert (Hs : le_split 4 (Z.of_nat (length l) - 1) ++ le_words (map word_len l) ++ pad ++ concat l ++ rest
      = (head ++ concat l) ++ rest) by (unfold head; by rewrite <- !app_assoc).
    rewrite Hs. rewrite (lift_bind_ok _ _ _ (head ++ concat l)).
    2: { apply (slice_index_mid [] (head ++ concat l) rest); rewrite ?length_app; cbn [length]; lia. }
    rewrite (lift_bind_ok _ _ _ rest).
    2: { rewrite <- (app_nil_r ((head ++ concat l) ++ rest)), <- (app_assoc _ rest).
         apply (slice_index_mid (head ++ concat l) rest []); rewrite !length_app; cbn [length]; lia. }
    reflexivity.
  - eapply (in_place_represents options l _ []); [done|]. exists pad. split; [done|].
    unfold head. by rewrite app_nil_r, <- !app_assoc.
Qed.

Lemma from_slice_safe options (sl : Slice) :
  match from_slice options sl with
  | (Ok segments, sl') => exists table l, bytes sl = table ++ concat l ++ bytes sl' /\
      addr sl' = addr sl + Z.of_nat (length (table ++ concat l)) /\
      represents segments l /\ good_message options l
  | (Err _, sl') => sl' = sl
  | _ => False
  end.
Proof.
  destruct sl as [a s]. pose proof (na_table_safe options {| addr := a; bytes := s |}) as Hs.
  destruct (na_read_segment_table {| addr := a; bytes := s |} options) as [info|e| | |] eqn:E; try done.
  - destruct Hs as (Ha & ws & pad & body & Ht & _). cbn [addr bytes] in *.
    destruct (from_slice_table options a ws pad body s Ha Ht)
      as (l & rest & -> & -> & Hgood & segments & -> & Hrep).
    destruct Ht as (_ & _ & _ & Hpad & _ & _ & ->). rewrite length_map in Hpad.
    exists (le_split 4 (Z.of_nat (length l) - 1) ++ le_words (map word_len l) ++ pad), l. cbn [bytes addr].
    rewrite length_map, <- !app_assoc. split; [done|].
    split; [|done]. pose proof (padded_table_len l pad Hpad).
    destruct (good_lengths _ _ Hgood) as (_ & Hal & _). pose proof (total_len_concat l Hal).
    rewrite !length_app, length_le_split, length_le_words, length_map. lia.
  - unfold from_slice. rewrite (ST_bind_ok get_state _ _ _ _ eq_refl). rewrite E. done.
Qed.

(** ** Streams into the caller's buffer *)

Section stream.
Context {R : Type} `{SafeRead R}.

Lemma read_into_safe exact pre t n (r : R) : (exact = false -> 0 < n)%nat -> (n <= length t)%nat ->
  (n mod granule = 0)%nat ->
  wp (read_into exact (Z.of_nat (length pre)) (Z.of_nat (length pre) + Z.of_nat n))
     (fun k rb => exists bs r', rb = (r', pre ++ bs ++ drop (length bs) t) /\ taken r r' (length bs) /\
        k = Z.of_nat (length bs) /\ (length bs <= n)%nat /\ (length bs mod granule = 0)%nat /\
        (exact = true -> length bs = n))
     (fun _ _ => True) (r, pre ++ t).
Proof.
  intros Hn0 Hn Hg.
  unfold wp, read_into. rewrite slice_index_ok by (rewrite ?length_app; lia).
  assert (Hw : length (take (Z.to_nat (Z.of_nat (length pre) + Z.of_nat n - Z.of_nat (length pre)))
    (drop (Z.to_nat (Z.of_nat (length pre))) (pre ++ t))) = n).
  { rewrite Nat2Z.id, drop_app_length, length_take. lia. }
  rewrite Hw.
  assert (Hrd : wp (if exact then read_exact n else read n) (fun bs r' => (length bs <= n)%nat /\
    (length bs mod granule = 0)%nat /\ taken r r' (length bs) /\ (exact = true -> length bs = n))
    (fun _ _ => True) r).
  { destruct exact.
    - eapply wp_mono; [by apply read_exact_safe|cbn beta|done]. intros bs r' [<- Ht]. by split_and!.
    - eapply wp_mono; [apply read_safe; [by apply Hn0|done]|cbn beta|done].
      intros bs r' (Hle & Hm & Ht). by split_and!. }
  assert (Hsel : forall b : bool, (if b then read_exact n r else read n r) = (if b then read_exact n else read n) r)
    by (by intros []).
  rewrite Hsel. unfold wp in Hrd. destruct ((if exact then read_exact n else read n) r) as [[bs|e| | |] r'];
    try done.
  destruct Hrd as (Hle & Hm & Ht & He). unfold copy_from_slice. rewrite Nat2Z.id, length_app.
  destruct (Nat.leb_spec (length pre + length bs) (length pre + length t)); [|lia].
  exists bs, r'. rewrite take_app_length, drop_app_add. by split_and!.
Qed.

(** The table words the buffer holds once [num] lengths have been read: an
    even number of segments takes one word of padding. *)
Definition words_read (count num total : Z) (len : nat) (buf : list byte) : Prop :=
  exists ws pad t, buf = le_split 4 (count - 1) ++ le_words ws ++ pad ++ t /\
  lengths_ok ws /\ total = sum_words ws /\ Z.of_nat (length ws) = Z.min num count /\
  Z.of_nat (length pad) = 4 * (num - Z.min num count) /\ length buf = len.

Lemma u32_in_buffer_ok pre w post lo (r : R) : 0 <= w < 2 ^ 32 -> lo = Z.of_nat (length pre) ->
  u32_in_buffer lo (r, pre ++ le_split 4 w ++ post) = (Ok w, (r, pre ++ le_split 4 w ++ post)).
Proof.
  intros Hw ->. unfold u32_in_buffer. rewrite (ST_bind_ok get_state _ _ _ _ eq_refl). cbn [snd].
  unfold lift. by rewrite from_le_bytes_mid by lia.
Qed.

Lemma wp_buffer_len (Q : Z -> R * list byte -> Prop) E rb :
  Q (Z.of_nat (length (snd rb))) rb -> wp buffer_len Q E rb.
Proof. done. Qed.

Lemma wp_u32_in_buffer (Q : Z -> R * list byte -> Prop) E pre w post lo r :
  0 <= w < 2 ^ 32 -> lo = Z.of_nat (length pre) -> Q w (r, pre ++ le_split 4 w ++ post) ->
  wp (u32_in_buffer lo) Q E (r, pre ++ le_split 4 w ++ post).
Proof. intros Hw Hlo HQ. unfold wp. by rewrite u32_in_buffer_ok. Qed.

Lemma round_words (s : list byte) : (8 <= length s)%nat ->
  exists w1 w2 rest, s = le_split 4 w1 ++ le_split 4 w2 ++ rest /\ 0 <= w1 < 2 ^ 32 /\ 0 <= w2 < 2 ^ 32.
Proof.
  intros Hs. destruct (split_word s) as (w1 & s1 & -> & H1); [lia|].
  rewrite length_app, length_le_split in Hs.
  destruct (split_word s1) as (w2 & s2 & -> & H2); [lia|]. by exists w1, w2, s2.
Qed.

Lemma read_lengths_safe fuel count num total len (r : R) buf :
  count - num + 2 <= 2 * Z.of_nat fuel -> 1 <= num -> num mod 2 = 1 -> num <= count + 1 -> count < 512 ->
  words_read count num total len buf ->
  wp (read_lengths fuel count num total)
     (fun '(num', total') rb => num' mod 2 = 1 /\ count <= num' <= count + 1 /\
        words_read count num' total' len (snd rb))
     (fun _ _ => True) (r, buf).
Proof.
  revert num total r buf. induction fuel as [|fuel IH]; intros num total r buf Hf Hn1 Hodd Hle Hc Hw.
  { lia. }
  cbn [read_lengths]. destruct (Z.ltb_spec num count) as [Hlt|Hge].
  2: { apply wp_ret. cbn [snd]. split_and!; try done; lia. }
  cbv zeta. destruct Hw as (ws & pad & t & Hbuf & Hws & -> & Hlw & Hpad & Hlen).
  rewrite Z.min_l in Hlw, Hpad by lia. assert (pad = []) as -> by (destruct pad; simpl in Hpad; [done|lia]).
  cbn [app] in Hbuf. set (pre := le_split 4 (count - 1) ++ le_words ws).
  assert (Hpre : Z.of_nat (length pre) = (num + 1) * 4).
  { unfold pre. rewrite length_app, length_le_split, length_le_words. lia. }
  assert (Hb : buf = pre ++ t) by (unfold pre; by rewrite Hbuf, <- app_assoc).
  apply wp_bind, wp_buffer_len. cbn [snd].
  destruct (Z.ltb_spec (Z.of_nat (length buf)) ((num + 1) * 4 + 8)) as [|Hroom]; [done|].
  assert (Ht : (8 <= length t)%nat).
  { rewrite Hb, length_app in Hroom. lia. }
  apply wp_bind. rewrite Hb, <- Hpre. change 8 with (Z.of_nat 8).
  eapply wp_mono; [apply read_into_safe; [lia|lia|apply granule_word]|cbn beta|done].
  intros k rb (bs & r' & -> & _ & _ & Hbs & _).
  assert (Hlen' : length (pre ++ bs ++ drop (length bs) t) = len).
  { rewrite <- Hlen, Hb, !length_app, length_drop. lia. }
  destruct (round_words (bs ++ drop (length bs) t)) as (w1 & w2 & t' & Esplit & Hw1 & Hw2).
  { rewrite length_app, length_drop. lia. }
  rewrite Esplit in Hlen' |- *. pose proof (sum_words_bound _ Hws). pose proof (sum_words_nonneg _ Hws).
  apply wp_bind, wp_u32_in_buffer; [done|lia|]. apply wp_bind, wp_lift.
  rewrite checked_add_ok by lia. cbn [ok_or].
  set (buf' := pre ++ le_split 4 w1 ++ le_split 4 w2 ++ t') in *.
  destruct (Z.ltb_spec (num + 1) count) as [Hmore|Hlast].
  - apply wp_bind. apply wp_bind. assert (Hbuf2 : buf' = (pre ++ le_split 4 w1) ++ le_split 4 w2 ++ t') by (by rewrite <- app_assoc).
    rewrite Hbuf2. apply wp_u32_in_buffer;
      [done|rewrite length_app, length_le_split; lia|]. apply wp_lift. rewrite <- Hbuf2. rewrite checked_add_ok by lia. cbn [ok_or].
    apply IH; [lia|lia|zlia|lia|done|].
    exists (ws ++ [w1; w2]), [], t'. rewrite le_words_app, !le_words_cons, length_app, sum_words_app.
    cbn [length app sum_words foldr]. rewrite Z.min_l by lia. split_and!; try done; try lia.
    + unfold buf', pre, le_words at 2. cbn [map concat]. by rewrite <- !app_assoc.
    + apply Forall_app_2; [done|]. by repeat (apply Forall_cons_2; [done|]).
  - apply wp_bind, wp_ret. apply IH; [lia|lia|zlia|lia|done|].
    exists (ws ++ [w1]), (le_split 4 w2), t'. rewrite le_words_app, !le_words_cons, length_app, sum_words_app.
    cbn [length app sum_words foldr]. rewrite length_le_split. split_and!; try done; try lia.
    + unfold buf', pre, le_words at 2. cbn [map concat]. by rewrite <- !app_assoc.
    + apply Forall_app_2; [done|]. by repeat (apply Forall_cons_2; [done|]).
Qed.

(** The segment table of the buffer once the loop is done. *)
Lemma words_read_table options count num total len buf : words_read count num total len buf ->
  1 <= count < SEGMENTS_COUNT_LIMIT -> num mod 2 = 1 -> count <= num <= count + 1 ->
  within_words options total -> (num + 1) * 4 + total * 8 <= Z.of_nat len ->
  exists ws pad t, has_table options buf ws pad t /\ count = Z.of_nat (length ws) /\ total = sum_words ws /\
    (num + 1) * 4 = table_len count.
Proof.
  intros (ws & pad & t & -> & Hws & -> & Hlw & Hpad & Hlen) Hc Hodd Hnum Hlim Hroom.
  rewrite Z.min_r in Hlw, Hpad by lia. subst count. exists ws, pad, t.
  assert (Hp : length pad = (if (length ws mod 2 =? 0)%nat then 4 else 0)%nat).
  { destruct (even_case (length ws)) as [[-> He]|[-> He]]; cbn [Nat.eqb]; zlia. }
  assert (Htl : (num + 1) * 4 = table_len (Z.of_nat (length ws))) by (unfold table_len; zlia).
  unfold SEGMENTS_COUNT_LIMIT in Hc.
  assert (Hl : Z.of_nat (length (le_split 4 (Z.of_nat (length ws) - 1) ++ le_words ws ++ pad ++ t)) =
    table_len (Z.of_nat (length ws)) + Z.of_nat (length t)) by (by apply na_table_length).
  unfold has_table, SEGMENTS_COUNT_LIMIT. split_and!; try done; try lia.
  intros ->. cbn in *. lia.
Qed.

Lemma wp_check_limit {S} options total (s : S) :
  wp (lift (check_traversal_limit options total)) (fun _ s' => s' = s /\ within_words options total)
     (fun _ _ => True) s.
Proof.
  apply wp_lift. unfold check_traversal_limit, within_words.
  destruct (traversal_limit_in_words options) as [v|]; [|done].
  destruct (Z.ltb_spec v total); [done|]. by split; [|intros ? [= <-]].
Qed.

(** [from_segment_table_info] of the table the loop read. *)
Lemma info_of_table options buf ws pad t : has_table options buf ws pad t ->
  exists l rest, in_place l buf rest /\ good_message options l /\ ws = map word_len l /\
    represents (from_segment_table_info buf (table_info ws)) l.
Proof.
  intros Ht. destruct (segments_of_table _ _ _ _ _ Ht) as (l & rest & -> & -> & Hgood & _).
  destruct Ht as (_ & _ & _ & Hpad & _ & _ & ->). rewrite length_map in *. exists l, rest.
  assert (Hip : in_place l (le_split 4 (Z.of_nat (length l) - 1) ++ le_words (map word_len l) ++
      pad ++ concat l ++ rest) rest) by (by exists pad).
  split_and!; try done. by eapply in_place_represents.
Qed.

Lemma try_read_message_no_alloc_safe a options (r : R) buf :
  wp (try_read_message_no_alloc a options)
     (fun o rb => forall m, o = Some m -> a mod 8 = 0 /\ length (snd rb) = length buf /\
        exists l rest, in_place l (snd rb) rest /\ represents (into_segments m) l /\ good_message options l)
     (fun _ _ => True) (r, buf).
Proof.
  unfold try_read_message_no_alloc, BYTES_PER_WORD.
  destruct (Z.eqb_spec (a mod 8) 0) as [Ha|_]; [cbn [negb]|done].
  apply wp_bind, wp_buffer_len. cbn [snd]. destruct (Z.ltb_spec (Z.of_nat (length buf)) 8); [done|].
  apply wp_bind. eapply wp_mono; [apply (read_into_safe false [] buf 8 r); [lia|lia|apply granule_word]|cbn beta|done].
  intros k rb (bs & r1 & -> & _ & -> & Hbs & Hg & _). cbn [app].
  destruct (Z.eqb_spec (Z.of_nat (length bs)) 0); [by apply wp_ret|]. apply wp_bind.
  assert (Hl1 : length (bs ++ drop (length bs) buf) = length buf) by (rewrite length_app, length_drop; lia).
  eapply (wp_mono _ (fun _ rb => length (snd rb) = length buf)); [|cbn beta|done].
  { destruct (Z.ltb_spec (Z.of_nat (length bs)) 8); [|by apply wp_ret]. apply wp_bind.
    replace 8 with (Z.of_nat (length bs) + Z.of_nat (8 - length bs)) by lia.
    eapply wp_mono; [apply read_into_safe; [done|rewrite length_drop; lia|]|cbn beta|done].
    { apply granule_sub; [apply granule_word|done|lia]. }
    intros k rb (bs' & r2 & -> & _ & _ & Hbs' & _). apply wp_ret. cbn [snd].
    rewrite !length_app, !length_drop. lia. }
  intros [] [r2 buf2] Hl2. cbn [snd] in Hl2.
  destruct (round_words buf2) as (c1 & w1 & t & -> & Hc1 & Hw1); [lia|].
  apply wp_bind, (wp_u32_in_buffer _ _ []); [done|done|]. cbn [app].
  destruct (Z.leb_spec SEGMENTS_COUNT_LIMIT (wrap32 (c1 + 1))) as [|Hlt]; [done|].
  destruct (Z.eqb_spec (wrap32 (c1 + 1)) 0) as [|Hnz]; [done|]. cbn [orb].
  assert (Hcount : wrap32 (c1 + 1) = c1 + 1).
  { unfold wrap32, wrap in *. destruct (Z.eq_dec (c1 + 1) (2 ^ 32)) as [E|]; [by rewrite E in Hnz|].
    apply Z.mod_small. lia. }
  rewrite Hcount in *. unfold SEGMENTS_COUNT_LIMIT in Hlt.
  apply wp_bind, wp_u32_in_buffer; [done|by rewrite length_le_split|]. apply wp_bind.
  eapply wp_mono; [apply (read_lengths_safe _ _ _ _ (length buf)); try lia; try done|cbn beta|done].
  { exists [w1], [], t. cbn [length sum_words foldr]. rewrite Z.min_l by lia.
    replace (c1 + 1 - 1) with c1 by lia. unfold le_words. cbn [map concat]. rewrite app_nil_r.
    split_and!; try done; try lia. by apply Forall_cons_2; [|]. }
  intros [num total] [r3 buf3] (Hodd & Hnum & Hw). cbn [snd] in Hw. apply wp_bind.
  eapply wp_mono; [apply wp_check_limit|cbn beta|done]. intros [] ? [-> Hlim]. cbv zeta.
  assert (Htot : 0 <= total < 2 ^ 42 /\ length buf3 = length buf).
  { destruct Hw as (ws & pad & t' & -> & Hws & -> & Hlw & _ & Hlen). split; [|done].
    pose proof (sum_words_bound _ Hws). pose proof (sum_words_nonneg _ Hws). lia. }
  destruct Htot as [Htot Hl3].
  apply wp_bind. rewrite umul_ok by lia. apply wp_lift.
  apply wp_bind. rewrite uadd_ok by lia. apply wp_lift.
  apply wp_bind, wp_buffer_len. cbn [snd].
  destruct (Z.ltb_spec (Z.of_nat (length buf3)) ((num + 1) * 4 + total * 8)) as [|Hroom]; [done|].
  destruct (words_read_table options _ _ _ _ _ Hw ltac:(unfold SEGMENTS_COUNT_LIMIT; lia) Hodd Hnum Hlim
    ltac:(lia)) as (ws & pad & t' & Ht & Hcw & -> & Htl).
  destruct Ht as (Hne & Hlt' & Hws & Hpad & Hlim' & Hbody & ->).
  set (table := le_split 4 (Z.of_nat (length ws) - 1) ++ le_words ws ++ pad).
  assert (Htab : Z.of_nat (length table) = (num + 1) * 4).
  { pose proof (na_table_length ws pad [] Hpad) as Hl. rewrite app_nil_r in Hl. fold table in Hl.
    rewrite Hl, Htl, Hcw. cbn. lia. }
  assert (Hb : le_split 4 (Z.of_nat (length ws) - 1) ++ le_words ws ++ pad ++ t' = table ++ t')
    by (unfold table; by rewrite <- !app_assoc).
  rewrite Hb in *. apply wp_bind. rewrite <- Htab.
  replace (sum_words ws * 8) with (Z.of_nat (8 * Z.to_nat (sum_words ws))) by lia.
  eapply wp_mono; [apply read_into_safe; [done|lia|apply granule_mul8]|cbn beta|done].
  intros k rb (bs' & r4 & -> & _ & _ & _ & _ & Hfull). specialize (Hfull eq_refl).
  apply wp_bind. unfold wp at 1, get_state. cbn [snd]. apply wp_ret.
  intros m Hm. apply (inj Some) in Hm as <-. split; [done|]. cbn [snd].
  assert (Ht : has_table options (table ++ bs' ++ drop (length bs') t') ws pad (bs' ++ drop (length bs') t')).
  { unfold has_table. split_and!; try done.
    - rewrite length_app. lia.
    - unfold table. by rewrite <- !app_assoc. }
  destruct (info_of_table _ _ _ _ _ Ht) as (l & rest & Hip & Hgood & Hl & Hrep).
  split; [rewrite length_app in Hl3; rewrite !length_app, length_drop; lia|].
  exists l, rest. split; [done|]. split; [|done].
  rewrite Htab, Htl, Hcw, Nat2Z.inj_mul, Z2Nat.id by lia. exact Hrep.
Qed.
End stream.

(** ** A reader that fills what it is given: [&[u8]] *)

Lemma read_into_slice exact pre t chunk (q : list byte) lo hi : (length chunk <= length t)%nat ->
  lo = Z.of_nat (length pre) -> hi = lo + Z.of_nat (length chunk) ->
  read_into exact lo hi (chunk ++ q, pre ++ t) =
    (Ok (Z.of_nat (length chunk)), (q, (pre ++ chunk) ++ drop (length chunk) t)).
Proof.
  intros Hn -> ->. unfold read_into. rewrite slice_index_ok by (rewrite ?length_app; lia).
  assert (Hw : length (take (Z.to_nat (Z.of_nat (length pre) + Z.of_nat (length chunk) - Z.of_nat (length pre)))
    (drop (Z.to_nat (Z.of_nat (length pre))) (pre ++ t))) = length chunk).
  { rewrite Nat2Z.id, drop_app_length, length_take. lia. }
  rewrite Hw.
  assert (Hrd : read (length chunk) (chunk ++ q) = (Ok chunk, q)).
  { unfold read, slice_read. by rewrite take_app_length, drop_app_length. }
  assert (Hex : read_exact (length chunk) (chunk ++ q) = (Ok chunk, q)).
  { unfold read_exact. cbn [read_exact_loop]. destruct chunk as [|b chunk]; cbn [length Nat.eqb]; [done|].
    rewrite (ST_bind_ok _ _ _ _ _ Hrd). cbn [length Nat.eqb].
    rewrite Nat.sub_diag. destruct (length chunk); cbn [read_exact_loop Nat.eqb]; done. }
  assert (Hsel : (if exact then read_exact (length chunk) (chunk ++ q) else read (length chunk) (chunk ++ q)) =
    (Ok chunk, q)) by (by destruct exact).
  rewrite Hsel. unfold copy_from_slice. rewrite Nat2Z.id, length_app.
  destruct (Nat.leb_spec (length pre + length chunk) (length pre + length t)); [|lia].
  rewrite take_app_length, drop_app_add, <- app_assoc. done.
Qed.

(** Two lengths, or a length and the padding *)
Lemma read_round w1 w2 count num total head t (q : list byte) fuel :
  0 <= w1 < 2 ^ 32 -> 0 <= w2 < 2 ^ 32 -> (8 <= length t)%nat -> num < count ->
  Z.of_nat (length head) = (num + 1) * 4 -> 0 <= total -> total + w1 + w2 < 2 ^ 64 ->
  read_lengths (S fuel) count num total (le_split 4 w1 ++ le_split 4 w2 ++ q, head ++ t) =
  read_lengths fuel count (num + 2) (total + w1 + (if num + 1 <? count then w2 else 0))
    (q, (head ++ le_split 4 w1 ++ le_split 4 w2) ++ drop 8 t).
Proof.
  intros Hw1 Hw2 Ht Hnum Hhead Htot Hsum. cbn [read_lengths].
  destruct (Z.ltb_spec num count); [|lia]. cbv zeta. set (chunk := le_split 4 w1 ++ le_split 4 w2).
  assert (Hc : length chunk = 8%nat) by (unfold chunk; by rewrite length_app, !length_le_split).
  assert (Hin : le_split 4 w1 ++ le_split 4 w2 ++ q = chunk ++ q) by (unfold chunk; by rewrite <- app_assoc).
  rewrite Hin. erewrite (ST_bind_ok buffer_len) by done. cbn [snd].
  destruct (Z.ltb_spec (Z.of_nat (length (head ++ t))) ((num + 1) * 4 + 8)) as [Hl|_];
    [rewrite length_app in Hl; lia|].
  erewrite ST_bind_ok by (apply read_into_slice; [lia|lia|lia]). rewrite Hc.
  assert (Hbuf : (head ++ chunk) ++ drop 8 t = head ++ le_split 4 w1 ++ le_split 4 w2 ++ drop 8 t)
    by (unfold chunk; by rewrite <- !app_assoc).
  rewrite Hbuf at 1. erewrite ST_bind_ok by (apply u32_in_buffer_ok; [done|lia]).
  rewrite checked_add_ok by lia. rewrite (lift_bind_ok _ _ _ (total + w1)) by done.
  rewrite <- Hbuf. replace (num + 1 + 1) with (num + 2) by lia.
  destruct (Z.ltb_spec (num + 1) count).
  - rewrite ST_bind_assoc.
    assert (Hbuf2 : (head ++ chunk) ++ drop 8 t = (head ++ le_split 4 w1) ++ le_split 4 w2 ++ drop 8 t)
      by (by rewrite Hbuf, <- app_assoc).
    rewrite Hbuf2 at 1. erewrite ST_bind_ok by (apply u32_in_buffer_ok; [done|
      rewrite length_app, length_le_split; lia]).
    rewrite checked_add_ok by lia. rewrite (lift_bind_ok _ _ _ (total + w1 + w2)) by done. by rewrite <- Hbuf2.
  - erewrite (ST_bind_ok (ret (total + w1))) by done. by rewrite Z.add_0_r.
Qed.

(** All the lengths that are left, [ws2], two a round *)
Lemma read_lengths_ok fuel : forall ws1 ws2 pad c t (q : list byte),
  lengths_ok (ws1 ++ ws2) -> Z.of_nat (length (ws1 ++ ws2)) < 512 ->
  Z.of_nat (length ws1) mod 2 = 1 -> (length ws2 + 1 < 2 * fuel)%nat ->
  length pad = (if (length (ws1 ++ ws2) mod 2 =? 0)%nat then 4 else 0)%nat ->
  (4 * length ws2 + length pad <= length t)%nat ->
  read_lengths fuel (Z.of_nat (length (ws1 ++ ws2))) (Z.of_nat (length ws1)) (sum_words ws1)
    (le_words ws2 ++ pad ++ q, (le_split 4 c ++ le_words ws1) ++ t) =
  (Ok (table_len (Z.of_nat (length (ws1 ++ ws2))) / 4 - 1, sum_words (ws1 ++ ws2)),
   (q, (le_split 4 c ++ le_words (ws1 ++ ws2) ++ pad) ++ drop (4 * length ws2 + length pad) t)).
Proof.
  induction fuel as [|fuel IH]; intros ws1 ws2 pad c t q Hw Hn Hodd Hf Hpad Ht; [lia|].
  pose proof (sum_words_bound _ Hw) as Hb. rewrite sum_words_app in Hb.
  assert (Hw' := Hw). apply Forall_app in Hw' as [Hw1 Hw2].
  pose proof (sum_words_nonneg _ Hw1). pose proof (sum_words_nonneg _ Hw2).
  rewrite length_app in *.
  destruct ws2 as [|w1 [|w2 ws2]].
  - rewrite !app_nil_r in *. cbn [length Nat.add] in *. rewrite Nat.add_0_r in *.
    destruct (even_case (length ws1)) as [[E He]|[E He]]; rewrite E in Hpad; [zlia|].
    destruct pad; [|done]. cbn [read_lengths length Nat.mul Nat.add drop app le_words map concat].
    rewrite Z.ltb_irrefl, app_nil_r. unfold table_len, ret; cbn. do 3 f_equal. zlia.
  - inversion Hw2 as [|? ? Hw10 _]; subst.
    destruct (even_case (length ws1 + 1)) as [[E He]|[E He]]; cbn [length] in *; rewrite E in Hpad; [|zlia].
    cbn [Nat.eqb] in Hpad. destruct (split_word pad) as (w2 & p & -> & Hw20); [lia|].
    rewrite length_app, length_le_split in Hpad. destruct p; [|cbn in Hpad; lia].
    rewrite !app_nil_r in *. rewrite length_le_split in Ht. cbn [sum_words foldr] in *.
    unfold le_words at 1. cbn [map concat]. rewrite app_nil_r.
    rewrite (read_round w1 w2) by (try done; try lia; rewrite length_app, length_le_split, length_le_words; lia).
    destruct (Z.ltb_spec (Z.of_nat (length ws1) + 1) (Z.of_nat (length ws1 + 1))); [lia|].
    destruct fuel; [lia|]. cbn [read_lengths].
    destruct (Z.ltb_spec (Z.of_nat (length ws1) + 2) (Z.of_nat (length ws1 + 1))); [lia|].
    unfold ret; cbn [ST_monad length]. rewrite sum_words_app, le_words_app, length_le_split, <- !app_assoc.
    unfold le_words at 3. cbn [map concat sum_words foldr app]. rewrite !app_nil_r.
    unfold table_len. do 3 f_equal; [zlia|lia].
  - inversion Hw2 as [|? ? Hw10 Hw2']; subst. inversion Hw2' as [|? ? Hw20 Hw2'']; subst.
    cbn [length sum_words foldr] in *. fold (sum_words ws2) in *.
    pose proof (sum_words_nonneg _ Hw2'').
    rewrite !le_words_cons, <- !app_assoc.
    rewrite (app_assoc (le_split 4 c)).
    rewrite (read_round w1 w2) by (try done; try lia; rewrite length_app, length_le_split, length_le_words; lia).
    destruct (Z.ltb_spec (Z.of_nat (length ws1) + 1) (Z.of_nat (length ws1 + S (S (length ws2))))); [|lia].
    specialize (IH (ws1 ++ [w1; w2]) ws2 pad c (drop 8 t) q).
    rewrite <- app_assoc in IH. cbn [app] in IH.
    assert (Hl : (length (ws1 ++ w1 :: w2 :: ws2) = length ws1 + S (S (length ws2)))%nat)
      by (by rewrite length_app).
    assert (Hl1 : (length (ws1 ++ [w1; w2]) = length ws1 + 2)%nat) by (by rewrite length_app).
    rewrite Hl, Hl1, length_drop in IH.
    specialize (IH Hw Hn).
    specialize (IH ltac:(zlia)). specialize (IH ltac:(lia)). specialize (IH Hpad). specialize (IH ltac:(lia)).
    rewrite sum_words_app, le_words_app in IH. cbn [sum_words foldr] in IH.
    replace (Z.of_nat (length ws1 + 2)) with (Z.of_nat (length ws1) + 2) in IH by lia.
    replace (sum_words ws1 + (w1 + (w2 + 0))) with (sum_words ws1 + w1 + w2) in IH by lia.
    unfold le_words at 3 in IH. cbn [map concat] in IH. rewrite app_nil_r, <- !app_assoc in IH.
    rewrite <- !app_assoc, IH, drop_drop.
    by replace (8 + (4 * length ws2 + length pad))%nat
      with (4 * S (S (length ws2)) + length pad)%nat by lia.
Qed.

Lemma frame_words l : l <> [] ->
  frame l = le_split 4 (Z.of_nat (length l) - 1) ++ le_words (map word_len l) ++
    (if (length l mod 2 =? 0)%nat then zeros 4 else []) ++ concat l.
Proof.
  intros Hne. unfold frame, frame_chunks, table_chunks, first_word. rewrite concat_app.
  destruct l as [|s l]; [done|]. cbn [hd map concat]. rewrite le_words_cons.
  destruct (Nat.leb_spec (length (s :: l)) 1) as [Hl|Hl].
  - destruct l; [|cbn in Hl; lia]. cbn [concat map length]. change (1 mod 2 =? 0)%nat with false.
    unfold le_words. cbn [map concat]. by rewrite !app_nil_r, <- !app_assoc.
  - rewrite more_lengths_words. cbn [tail concat]. by rewrite app_nil_r, <- !app_assoc.
Qed.

Lemma try_read_message_no_alloc_ok a options l buf (q : list byte) : a mod 8 = 0 ->
  readable options l -> within_limit options l -> (length (frame l) <= length buf)%nat ->
  exists m, try_read_message_no_alloc a options (frame l ++ q, buf) =
    (Ok (Some m), (q, frame l ++ drop (length (frame l)) buf)) /\ represents (into_segments m) l.
Proof.
  intros Ha Hread Hlim Hbuf. pose proof (conj Hread Hlim : good_message options l) as Hgood.
  destruct (good_lengths _ _ Hgood) as (Hw & Hal & Hn & Htot).
  pose proof (proj1 (proj1 Hread)) as Hne. rewrite (frame_words l Hne) in *.
  set (pad := if (length l mod 2 =? 0)%nat then zeros 4 else []) in *.
  assert (Hpad : length pad = (if (length l mod 2 =? 0)%nat then 4 else 0)%nat)
    by (unfold pad; by destruct (_ =? 0)%nat).
  pose proof (total_len_concat l Hal) as Hbody. remember (concat l) as body eqn:Ebody.
  destruct l as [|s l]; [done|]. cbn [map] in *. rewrite le_words_cons in *.
  set (c := Z.of_nat (length (s :: l)) - 1) in *. set (w := word_len s) in *.
  pose proof (Forall_inv Hw) as Hw0.
  set (first := le_split 4 c ++ le_split 4 w).
  assert (Hfirst : length first = 8%nat) by (unfold first; by rewrite length_app, !length_le_split).
  rewrite !length_app, !length_le_split in Hbuf.
  rewrite length_le_words, length_map in Hbuf.
  unfold try_read_message_no_alloc, BYTES_PER_WORD. rewrite Ha. cbn [Z.eqb negb].
  erewrite (ST_bind_ok buffer_len) by done. cbn [snd].
  destruct (Z.ltb_spec (Z.of_nat (length buf)) 8); [lia|].
  assert (Hin : (le_split 4 c ++ (le_split 4 w ++ le_words (map word_len l)) ++ pad ++ body) ++ q =
    first ++ le_words (map word_len l) ++ pad ++ body ++ q) by (unfold first; by rewrite <- !app_assoc).
  rewrite Hin.
  erewrite ST_bind_ok by (apply (read_into_slice false [] buf first); [lia|done|by rewrite Hfirst]).
  rewrite Hfirst. cbn [Z.of_nat Pos.of_succ_nat Z.eqb Z.ltb Z.compare app].
  change (Z.of_nat 8) with 8. cbn [Z.eqb Z.ltb Z.compare Pos.compare Pos.compare_cont].
  erewrite (ST_bind_ok (ret tt)) by done.
  set (tail := drop 8 buf).
  assert (Hb : first ++ tail = [] ++ le_split 4 c ++ le_split 4 w ++ tail) by (unfold first; by rewrite <- app_assoc).
  rewrite Hb. erewrite ST_bind_ok by (apply u32_in_buffer_ok; [cbn [length] in *; lia|done]). cbn [app].
  replace (c + 1) with (Z.of_nat (length (s :: l))) by lia.
  rewrite wrap32_small by lia. unfold SEGMENTS_COUNT_LIMIT.
  destruct (Z.leb_spec 512 (Z.of_nat (length (s :: l)))); [lia|].
  destruct (Z.eqb_spec (Z.of_nat (length (s :: l))) 0); [lia|]. cbn [orb].
  erewrite ST_bind_ok by (apply u32_in_buffer_ok; [done|by rewrite length_le_split]).
  pose proof (read_lengths_ok (length (s :: l)) [w] (map word_len l) pad c tail (body ++ q)) as Hrl.
  cbn [length app] in Hrl. rewrite length_map in Hrl.
  assert (Htl : (4 * length l + length pad <= length tail)%nat).
  { unfold tail. rewrite length_drop. clear - Hbuf. lia. }
  specialize (Hrl Hw ltac:(cbn [length] in *; lia) eq_refl ltac:(lia) Hpad Htl).
  unfold le_words at 2 in Hrl. cbn [map concat sum_words foldr] in Hrl.
  rewrite app_nil_r, Z.add_0_r, <- !app_assoc in Hrl.
  rewrite Nat2Z.id. cbn [length]. erewrite ST_bind_ok by (apply Hrl). clear Hrl.
  change (w + foldr Z.add 0 (map word_len l)) with (sum_words (map word_len (s :: l))).
  rewrite sum_words_segments, check_within by done. erewrite (lift_bind_ok (Ok tt)) by done.
  set (table := le_split 4 c ++ (le_split 4 w ++ le_words (map word_len l)) ++ pad).
  assert (Htab : Z.of_nat (length table) = table_len (Z.of_nat (S (length l)))).
  { pose proof (padded_table_len (s :: l) pad Hpad) as E. cbn [length] in E. rewrite <- E. unfold table.
    rewrite !length_app, !length_le_split, length_le_words, length_map. lia. }
  replace ((table_len (Z.of_nat (S (length l))) / 4 - 1 + 1) * 4) with (Z.of_nat (length table))
    by (rewrite Htab; unfold table_len; zlia).
  rewrite umul_ok by lia. erewrite (lift_bind_ok (Ok _)) by done.
  assert (Htlen : Z.of_nat (length table) < 2 ^ 32) by (rewrite Htab; unfold table_len; cbn [length] in Hn; zlia).
  rewrite uadd_ok by lia. erewrite (lift_bind_ok (Ok _)) by done.
  set (left := drop (4 * length l + length pad) tail).
  assert (Hb2 : le_split 4 c ++ (le_words (w :: map word_len l) ++ pad) ++ left = table ++ left)
    by (unfold table; rewrite le_words_cons; by rewrite <- !app_assoc).
  rewrite <- (app_assoc _ pad left) in Hb2. rewrite Hb2.
  assert (Hleft : (length body <= length left)%nat).
  { unfold left, tail. rewrite !length_drop. clear - Hbuf Hfirst. lia. }
  erewrite (ST_bind_ok buffer_len) by done. cbn [snd].
  destruct (Z.ltb_spec (Z.of_nat (length (table ++ left))) (Z.of_nat (length table) + total_len (s :: l) * 8));
    [rewrite length_app in *; lia|].
  erewrite ST_bind_ok by (apply read_into_slice; [exact Hleft|done|lia]).
  erewrite (ST_bind_ok get_state) by done. cbn [snd].
  eexists. split.
  - unfold ret; cbn [ST_monad]. do 2 f_equal. unfold table. rewrite <- !app_assoc. do 5 f_equal.
    unfold left, tail. rewrite !drop_drop. f_equal. rewrite !length_app, !length_le_split, length_le_words, length_map. lia.
  - unfold into_segments, Reader_new, ReaderArenaImpl_new. cbn [arena arena_segments].
    assert (Hinfo : {| segments_count := Z.of_nat (S (length l));
         segment_table_length_bytes := Z.of_nat (length table);
         total_segments_length_bytes := total_len (s :: l) * 8 |} = table_info (map word_len (s :: l))).
    { unfold table_info. rewrite length_map, sum_words_segments. cbn [length]. f_equal; [done|lia]. }
    rewrite Hinfo. apply (in_place_represents options _ _ (drop (length body) left) Hgood).
    exists pad. split; [done|]. cbn [map]. rewrite le_words_cons, <- Ebody. unfold table, c, w.
    by rewrite <- !app_assoc.
Qed.

(** A frame is a table in place. *)
Lemma frame_in_place options l (rest : list byte) : good_message options l ->
  has_table options (frame l ++ rest) (map word_len l)
    (if (length l mod 2 =? 0)%nat then zeros 4 else []) (concat l ++ rest) /\
  Z.of_nat (length (frame l)) = table_len (Z.of_nat (length l)) + 8 * total_len l.
Proof.
  intros Hgood. destruct (good_lengths _ _ Hgood) as (_ & Hal & Hn & _).
  set (pad := if (length l mod 2 =? 0)%nat then zeros 4 else []).
  assert (Hpad : length pad = (if (length l mod 2 =? 0)%nat then 4 else 0)%nat)
    by (unfold pad; by destruct (_ =? 0)%nat).
  rewrite frame_words by (apply Hgood). fold pad. split.
  - rewrite <- !app_assoc. by apply has_table_in_place.
  - pose proof (padded_table_len l pad Hpad). pose proof (total_len_concat l Hal).
    rewrite !length_app, length_le_split, length_le_words, length_map. lia.
Qed.

(** The lengths determine the segments. *)
Lemma frame_segments_unique options l l' (rest rest' : list byte) :
  good_message options l -> good_message options l' ->
  map word_len l = map word_len l' -> concat l ++ rest = concat l' ++ rest' -> l' = l /\ rest' = rest.
Proof.
  intros Hg Hg'. destruct (good_lengths _ _ Hg) as (_ & Ha & _), (good_lengths _ _ Hg') as (_ & Ha' & _).
  clear Hg Hg'. revert l' Ha'. induction Ha as [|s l Hs Ha IH]; intros [|s' l'] Ha' Hw Hc; try done.
  inversion Ha' as [|? ? Hs' Ha'']; subst. cbn [map concat] in *. injection Hw as Hw0 Hw.
  rewrite <- !app_assoc in Hc.
  assert (length s = length s') as Hl.
  { apply aligned_word_len in Hs, Hs'. lia. }
  apply app_inj_1 in Hc as [-> Hc]; [|done]. by destruct (IH l' Ha'' Hw Hc) as [-> ->].
Qed.
