(* ===== verification/FramingProps.v ===== *)
(** * Theorems about framing and packing

    What a user of serialize.rs and serialize_packed.rs relies on: messages
    survive a trip through a stream, a packed stream or a flat slice; nothing
    read from an untrusted source makes the library panic or exceed its
    limits; the optimised packed codec is the simple one. *)

From S2P Require Import Prelude Io Packed PackedSpec ReadLimiter Segments Serialize SerializeSpec NoAlloc.
From S2P Require Import NoAllocSpec.

(** ** Packed messages: the functions at the end of capnp/src/serialize_packed.rs

    Framing over the packed encoding, and the two exact instances of
    [Delivers] that say what is left of the input after a message. *)

Section read.
Context {R : Type} `{BufRead R}.

(** [let packed_read = PackedRead { inner: read }; f(packed_read)] *)
Definition on_packed {A} (f : ST (PackedRead R) A) : ST R A := fun r =>
  let '(o, p) := f {| inner := r |} in (o, inner p).

Definition packed_read_message (options : ReaderOptions) : ST R (Reader OwnedSegments) :=
  on_packed (read_message options).
Definition packed_try_read_message (options : ReaderOptions) :
    ST R (option (Reader OwnedSegments)) :=
  on_packed (try_read_message options).

Definition on_packed_buf {A} (f : ST (PackedRead R * list byte) A) : ST (R * list byte) A :=
  fun '(r, buf) => let '(o, (p, buf)) := f ({| inner := r |}, buf) in (o, (inner p, buf)).

Definition packed_read_message_no_alloc (buffer_addr : Z) (options : ReaderOptions) :
    ST (R * list byte) (Reader NoAllocBufferSegments) :=
  on_packed_buf (read_message_no_alloc buffer_addr options).
Definition packed_try_read_message_no_alloc (buffer_addr : Z) (options : ReaderOptions) :
    ST (R * list byte) (option (Reader NoAllocBufferSegments)) :=
  on_packed_buf (try_read_message_no_alloc buffer_addr options).
End read.

(** [serialize_packed::write_message], on the segments for output *)
Definition packed_write_message {W S} `{Write W} `{ReaderSegments S} (segments : S) : ST W unit :=
  fun w => let '(o, p) := write_message_segments segments {| sink := w |} in (o, sink p).

(** ** What is left *)

(** A reader that delivers exactly the chunks and then has [q] left. *)
Definition bufread_exact {R} `{BufReadSpec R} (q : list byte) : Delivers R.
Proof.
  refine {| delivers := fun r cs => contents r = concat cs ++ q |}.
  - intros r cs Hq. exact Hq.
  - intros r cs1 cs2 Hne Hq.
    destruct (read_spec r (length (concat cs1))) as (b & r' & Hr & Hl & Hc & Hn).
    { destruct (concat cs1); [done|simpl; lia]. }
    rewrite concat_app, <- app_assoc in Hq.
    exists b, (drop (length b) (concat cs1)), r'. split; [done|].
    assert (Hb : take (length b) (concat cs1) = b).
    { apply (f_equal (take (length b))) in Hc. rewrite Hq in Hc.
      rewrite take_app_le in Hc by lia. rewrite Hc. by apply take_app_length. }
    split; [by rewrite <- Hb at 1; rewrite take_drop|].
    split.
    { intros ->. specialize (Hn eq_refl). rewrite Hn in Hq. by destruct (concat cs1). }
    simpl. rewrite Hq in Hc. apply (f_equal (drop (length b))) in Hc.
    rewrite drop_app_le in Hc by lia. rewrite drop_app_length in Hc.
    by rewrite <- Hc, <- app_assoc.
Defined.

Definition packed_exact {R} `{BufReadSpec R} (q : list byte) : Delivers (PackedRead R).
Proof.
  refine {| delivers := fun r cs =>
    Forall aligned cs /\ contents (inner r) = concat (map pack cs) ++ q |}.
  - intros r cs [Hal Hq]. inversion Hal; subst. by split.
  - intros [r] cs1 cs2 Hne [Hal Hq]. cbn [inner] in Hq.
    apply Forall_app in Hal as [Hal1 Hal2].
    rewrite map_app, concat_app, <- app_assoc in Hq.
    pose proof (packed_read_spec (length (concat cs1)) r (aligned_concat cs1 Hal1)) as Hspec.
    rewrite Hq, unpack_pack_chunks in Hspec by done.
    destruct Hspec as (res & r' & Hr & -> & Hc).
    { by destruct (concat cs1). }
    { intros E. destruct (concat cs1) as [|x l] eqn:Ec; [done|].
      pose proof (unpack_pack_chunks cs1 (concat (map pack cs2) ++ q) Hal1) as Hu.
      rewrite E, Ec in Hu. done. }
    exists (concat cs1), [], {| inner := r' |}. unfold read, packed_read_instance. cbn [inner].
    rewrite Hr. split; [done|]. split; [by rewrite app_nil_r|]. split; [done|].
    split; [by constructor|done].
Defined.

(** Two segments, eight and sixteen bytes, used as the example message. *)
Definition example_segments : list (list byte) :=
  [ [Byte.x01; Byte.x00; Byte.x00; Byte.x00; Byte.x02; Byte.x00; Byte.x00; Byte.x00];
    [Byte.x00; Byte.x00; Byte.x00; Byte.x00; Byte.x00; Byte.x00; Byte.x00; Byte.x00;
     Byte.x11; Byte.x12; Byte.x13; Byte.x14; Byte.x15; Byte.x16; Byte.x17; Byte.x18] ].

(** C1: Writing any message (a list of word-aligned segments, fewer than 512
    and within the reader's traversal limit) to a vector appends its frame,
    and [read_message] on any lawful buffered reader that holds that frame
    returns the same segments and leaves exactly the bytes after it. *)
Theorem stream_roundtrip {S R} `{ReaderSegments S} `{BufReadSpec R}
    (segments : S) (l : list (list byte)) (options : ReaderOptions) (w : Vec) (r : R) rest :
  represents segments l -> readable options l -> within_limit options l ->
  contents r = frame l ++ rest ->
  write_message_segments segments w = (Ok tt, {| vec := vec w ++ frame l |}) /\
  exists m r', read_message options r = (Ok m, r') /\ contents r' = rest /\
    represents (into_segments m) l.
Proof.
  intros Hrep Hread Hlim Hr. split.
  - rewrite (write_message_segments_ok segments l Hrep (proj1 Hread)).
    assert (Hvec : forall cs v, write_chunks cs {| vec := v |} = (Ok tt, {| vec := v ++ concat cs |})).
    { induction cs as [|c cs IH]; intros v; cbn [write_chunks concat]; [by rewrite app_nil_r|].
      unfold bind; cbn. by rewrite IH, <- app_assoc. }
    destruct w as [v]. apply Hvec.
  - rewrite read_message_try.
    destruct (@try_read_message_ok _ _ (bufread_exact rest) options l r [] Hread Hlim)
      as (r' & m & Hm & Hd & Hseg & _).
    { cbn [delivers bufread_exact]. by rewrite app_nil_r. }
    exists m, r'. rewrite (ST_bind_ok _ _ _ _ _ Hm). by split.
Qed.

Lemma stream_roundtrip_witness :
  write_message_segments example_segments {| vec := [] |} =
    (Ok tt, {| vec := frame example_segments |}) /\
  exists m r', read_message DEFAULT_READER_OPTIONS
      {| cur := take 5 (frame example_segments); pending := [drop 5 (frame example_segments); [Byte.xff]] |}
      = (Ok m, r') /\ contents r' = [Byte.xff] /\ represents (into_segments m) example_segments.
Proof.
  apply (stream_roundtrip example_segments example_segments DEFAULT_READER_OPTIONS {| vec := [] |}
    {| cur := take 5 (frame example_segments); pending := [drop 5 (frame example_segments); [Byte.xff]] |}).
  - apply list_represents.
  - split; [split; [done|split; [done|repeat constructor]]|done].
  - intros v [= <-]. vm_compute. discriminate.
  - vm_compute. reflexivity.
Defined.

Lemma example_readable : readable DEFAULT_READER_OPTIONS example_segments.
Proof. split; [split; [done|split; [done|repeat constructor]]|done]. Qed.
Lemma example_within : within_limit DEFAULT_READER_OPTIONS example_segments.
Proof. intros v [= <-]. vm_compute. discriminate. Qed.

(** The same through the packed encoding: the writer packs each chunk, the
    packed reader over any lawful buffered reader (however its input is cut
    into buffers) returns the segments and stops exactly where the packed
    message ends. *)
Lemma packed_stream_roundtrip {S W R} `{ReaderSegments S} `{Sink W} `{BufReadSpec R}
    (segments : S) (l : list (list byte)) (options : ReaderOptions) (w : W) (r : R) rest :
  represents segments l -> readable options l -> within_limit options l ->
  contents r = concat (map pack (frame_chunks l)) ++ rest ->
  (exists w', packed_write_message segments w = (Ok tt, w') /\
              sink_bytes w' = sink_bytes w ++ concat (map pack (frame_chunks l))) /\
  exists m r', packed_read_message options r = (Ok m, r') /\ contents r' = rest /\
    represents (into_segments m) l.
Proof.
  intros Hrep Hread Hlim Hr.
  pose proof (frame_chunks_aligned options l Hread) as Hal.
  split.
  - destruct (write_chunks_spec (frame_chunks l) {| Packed.sink := w |} Hal) as (w' & Hw & Hs).
    exists (Packed.sink w'). unfold packed_write_message.
    rewrite (write_message_segments_ok segments l Hrep (proj1 Hread)), Hw. by split.
  - unfold packed_read_message, on_packed. rewrite read_message_try.
    destruct (@try_read_message_ok _ _ (packed_exact rest) options l {| inner := r |} [] Hread Hlim)
      as (r' & m & Hm & Hd & Hseg & _).
    { cbn [delivers packed_exact]. rewrite app_nil_r. by split. }
    exists m, (inner r'). rewrite (ST_bind_ok _ _ _ _ _ Hm). destruct Hd as [_ Hd]. by split.
Qed.

Lemma packed_stream_roundtrip_witness :
  (exists w', packed_write_message example_segments {| vec := [] |} = (Ok tt, w') /\
     sink_bytes w' = sink_bytes {| vec := [] |} ++ concat (map pack (frame_chunks example_segments))) /\
  exists m r', packed_read_message DEFAULT_READER_OPTIONS
      (concat (map pack (frame_chunks example_segments)) ++ [Byte.x2a]) = (Ok m, r') /\
    contents r' = [Byte.x2a] /\ represents (into_segments m) example_segments.
Proof.
  apply (packed_stream_roundtrip example_segments example_segments DEFAULT_READER_OPTIONS
           {| vec := [] |} (concat (map pack (frame_chunks example_segments)) ++ [Byte.x2a]) [Byte.x2a]).
  - apply list_represents.
  - apply example_readable.
  - apply example_within.
  - reflexivity.
Defined.

(** C2: Reading a message from a flat slice that starts with its frame returns
    the segments in place, without copying, and leaves the caller's slice at
    the first byte after the message. *)
Theorem flat_slice_roundtrip (options : ReaderOptions) (l : list (list byte)) (rest : list byte) :
  readable options l -> within_limit options l ->
  exists m, read_message_from_flat_slice options (frame l ++ rest) = (Ok m, rest) /\
    represents (into_segments m) l /\ buffer (into_segments m) = frame l ++ rest.
Proof.
  intros Hread Hlim. destruct (read_message_from_flat_slice_ok options l rest Hread Hlim)
    as (m & Hm & Hrep & _). exists m. split; [done|]. split; [done|].
  pose proof (flat_slice_buffer options (frame l ++ rest)) as Hb. by rewrite Hm in Hb.
Qed.

Lemma flat_slice_roundtrip_witness :
  exists m, read_message_from_flat_slice DEFAULT_READER_OPTIONS (frame example_segments ++ [Byte.x07])
      = (Ok m, [Byte.x07]) /\
    represents (into_segments m) example_segments /\
    buffer (into_segments m) = frame example_segments ++ [Byte.x07].
Proof. apply (flat_slice_roundtrip _ _ [Byte.x07]); [apply example_readable|apply example_within]. Defined.

(** Whatever bytes a stream holds, [try_read_message] (plain or packed)
    neither panics nor fails to terminate, and a message it returns has
    between 1 and 511 word-aligned segments whose total size is within the
    traversal limit: an attacker cannot make it allocate more. *)
Lemma untrusted_stream {R} `{SafeRead R} (options : ReaderOptions) (r : R) :
  match try_read_message options r with
  | (Ok (Some m), _) => exists l, represents (into_segments m) l /\
      readable options l /\ within_limit options l /\
      arena m = ReaderArenaImpl_new (into_segments m) options
  | (Ok None, _) | (Err _, _) => True
  | _ => False
  end.
Proof.
  pose proof (try_read_message_safe options r) as Hs. unfold wp in Hs.
  destruct (try_read_message options r) as [[[m|]| | | |] r']; try done.
  destruct (Hs m eq_refl) as (l & Hl & [Hg1 Hg2] & Ha). by exists l.
Qed.

(** A flat slice of arbitrary bytes: no panic; on an error the caller's
    slice is untouched; on success the slice is a segment table, the segments
    and the remainder the caller is left with. *)
Lemma untrusted_slice (options : ReaderOptions) (s : list byte) :
  match read_message_from_flat_slice options s with
  | (Ok m, rest) => exists table l, s = table ++ concat l ++ rest /\
      represents (into_segments m) l /\ readable options l /\ within_limit options l
  | (Err _, s') => s' = s
  | _ => False
  end.
Proof.
  pose proof (read_message_from_flat_slice_safe options s) as Hs. unfold wp in Hs.
  destruct (read_message_from_flat_slice options s) as [[m| | | |] s']; try done.
  destruct Hs as (table & l & Heq & Hrep & [Hg1 Hg2] & _). by exists table, l.
Qed.

(** C3: Whatever bytes arrive, on a stream (plain or packed) or in a flat
    slice, reading a message neither panics nor fails to terminate.  A message
    it returns has between 1 and 511 word-aligned segments whose total size is
    within the traversal limit, so an attacker cannot make the reader allocate
    more; an error leaves the caller's slice untouched, and a success cuts it
    after the segment table and the segments. *)
Theorem untrusted_input {R} `{SafeRead R} (options : ReaderOptions) (r : R) (s : list byte) :
  match try_read_message options r with
  | (Ok (Some m), _) => exists l, represents (into_segments m) l /\
      readable options l /\ within_limit options l /\
      arena m = ReaderArenaImpl_new (into_segments m) options
  | (Ok None, _) | (Err _, _) => True
  | _ => False
  end /\
  match read_message_from_flat_slice options s with
  | (Ok m, rest) => exists table l, s = table ++ concat l ++ rest /\
      represents (into_segments m) l /\ readable options l /\ within_limit options l
  | (Err _, s') => s' = s
  | _ => False
  end.
Proof. split; [apply untrusted_stream|apply untrusted_slice]. Qed.

(** [write_message_segments_to_words] produces exactly the bytes that
    [write_message_segments] sends to a writer, and their number is what
    [compute_serialized_size] announces. *)
Lemma flatten_is_write {S} `{ReaderSegments S} (segments : S) (l : list (list byte)) :
  represents segments l -> frameable l -> Z.of_nat (length (frame l)) < 2 ^ 64 ->
  write_message_segments_to_words segments = Ok (frame l) /\
  compute_serialized_size segments = Ok (Z.of_nat (length (frame l))) /\
  forall W (Hw : Write W) (w : W),
    write_message_segments segments w = write_chunks (frame_chunks l) w.
Proof.
  intros Hrep Hf Hs. split; [by apply flatten_segments_ok|].
  split; [by apply compute_serialized_size_ok|]. intros W Hw w. by apply write_message_segments_ok.
Qed.

Lemma flatten_is_write_witness :
  write_message_segments_to_words example_segments = Ok (frame example_segments) /\
  compute_serialized_size example_segments = Ok 40 /\
  forall W (Hw : Write W) (w : W),
    write_message_segments example_segments w = write_chunks (frame_chunks example_segments) w.
Proof.
  apply (flatten_is_write example_segments example_segments);
    [apply list_represents|apply example_readable|reflexivity].
Defined.

(** C4: [PackedRead::read] is the reference decoder: over any lawful buffered
    reader with input left, asking for [n] bytes (a multiple of 8) returns what
    [unpack] computes from the input and leaves what [unpack] leaves, or
    reports [unpack]'s error. *)
Theorem packed_read_is_unpack {R} `{BufReadSpec R} (n : nat) (r : R) :
  (n mod 8 = 0)%nat -> n <> 0%nat -> contents r <> [] ->
  match unpack n (contents r) with
  | Ok (out, rest) => exists r', packed_read n r = (Ok out, r') /\ contents r' = rest
  | Err e => exists r', packed_read n r = (Err e, r')
  | _ => False
  end.
Proof.
  intros Hn Hn0 Hc. pose proof (packed_read_spec n r Hn Hn0 Hc) as Hs.
  destruct (unpack n (contents r)) as [[out rest]| | | |]; try done.
  destruct Hs as (res & r' & Hr & -> & Hrest). by exists r'.
Qed.

Lemma packed_read_is_unpack_witness :
  exists r', packed_read 8 {| cur := [Byte.x05]; pending := [[Byte.x2a]; [Byte.x2b; Byte.xff]] |} =
      (Ok [Byte.x2a; Byte.x00; Byte.x2b; Byte.x00; Byte.x00; Byte.x00; Byte.x00; Byte.x00], r') /\
    contents r' = [Byte.xff].
Proof.
  exact (packed_read_is_unpack 8 {| cur := [Byte.x05]; pending := [[Byte.x2a]; [Byte.x2b; Byte.xff]] |}
           eq_refl ltac:(discriminate) ltac:(discriminate)).
Defined.

(** C5: [PackedWrite::write_all] on whole words sends the packed form of its
    input to the writer, and unpacking that form gives the input back, with
    whatever follows it left over. *)
Theorem packed_write_roundtrip {W} `{Sink W} (bs : list byte) (w : W) (q : list byte) :
  (length bs mod 8 = 0)%nat ->
  exists w', packed_write bs w = (Ok tt, w') /\ sink_bytes w' = sink_bytes w ++ pack bs /\
    unpack (length bs) (pack bs ++ q) = Ok (bs, q).
Proof.
  intros Hal. destruct (packed_write_spec bs w Hal) as (w' & Hw & Hs). exists w'.
  split; [done|]. split; [done|]. by apply unpack_pack.
Qed.

Lemma packed_write_roundtrip_witness :
  exists w', packed_write (repeat Byte.x00 24) {| vec := [] |} = (Ok tt, w') /\
    sink_bytes w' = sink_bytes {| vec := [] |} ++ pack (repeat Byte.x00 24) /\
    unpack 24 (pack (repeat Byte.x00 24) ++ [Byte.x01]) = Ok (repeat Byte.x00 24, [Byte.x01]).
Proof. apply (packed_write_roundtrip (repeat Byte.x00 24) {| vec := [] |} [Byte.x01]). reflexivity. Defined.

(** A message whose segments together exceed the traversal limit is
    refused with its size, before any segment is read. *)
Lemma over_limit_rejected {R} `{Delivers R} (options : ReaderOptions) (l : list (list byte))
    (limit : Z) (r : R) cs :
  readable options l -> traversal_limit_in_words options = Some limit -> limit < total_len l ->
  delivers r (table_chunks l ++ cs) ->
  exists r', try_read_message options r = (Err (MessageTooLarge (total_len l)), r') /\ delivers r' cs.
Proof.
  intros Hread Hlim Hover Hd.
  destruct (read_segment_table_ok options l r cs Hread Hd) as (r' & Hr & Hd').
  exists r'. split; [|done]. unfold try_read_message, bind. cbn [ST_monad]. rewrite Hr.
  unfold check_traversal_limit. rewrite Hlim. by destruct (Z.ltb_spec limit (total_len l)); [|lia].
Qed.

Lemma over_limit_rejected_witness :
  exists r', try_read_message (with_traversal_limit (Some 2) DEFAULT_READER_OPTIONS)
      (concat (table_chunks example_segments)) = (Err (MessageTooLarge 3), r') /\
    delivers r' [].
Proof.
  apply (over_limit_rejected (with_traversal_limit (Some 2) DEFAULT_READER_OPTIONS) example_segments 2
           (concat (table_chunks example_segments)) []).
  - apply example_readable.
  - reflexivity.
  - reflexivity.
  - exists []. reflexivity.
Defined.

(** At the end of the stream [try_read_message] returns [None] and
    [read_message] returns [PrematureEndOfFile]; elsewhere they agree. *)
Lemma end_of_stream {R} `{BufReadSpec R} (options : ReaderOptions) (r : R) :
  contents r = [] ->
  (exists r', try_read_message options r = (Ok None, r')) /\
  (exists r', read_message options r = (Err PrematureEndOfFile, r')).
Proof.
  intros Hc. destruct (try_read_message_eof options r Hc) as (r' & Hr).
  split; exists r'; [done|]. rewrite read_message_try. by rewrite (ST_bind_ok _ _ _ _ _ Hr).
Qed.

Lemma end_of_stream_witness :
  (exists r', try_read_message DEFAULT_READER_OPTIONS {| cur := []; pending := [[]] |} = (Ok None, r')) /\
  (exists r', read_message DEFAULT_READER_OPTIONS {| cur := []; pending := [[]] |}
              = (Err PrematureEndOfFile, r')).
Proof. apply (end_of_stream DEFAULT_READER_OPTIONS {| cur := []; pending := [[]] |}). reflexivity. Defined.

(** [BufferSegments::new] is safe on a buffer that holds its message, but
    its size assertion ignores the segment table: on a buffer cut short it
    panics, or succeeds and panics on the first access to a segment, where
    [read_message_from_flat_slice] returns [MessageEndsPrematurely]. *)
Lemma buffer_segments_truncated (a : byte) :
  let table n := [Byte.x00; Byte.x00; Byte.x00; Byte.x00; n; Byte.x00; Byte.x00; Byte.x00] in
  BufferSegments_new (table Byte.x03 ++ repeat a 8) DEFAULT_READER_OPTIONS = Panic /\
  (exists seg, BufferSegments_new (table Byte.x02 ++ repeat a 8) DEFAULT_READER_OPTIONS = Ok seg /\
     get_segment seg 0 = Panic) /\
  read_message_from_flat_slice DEFAULT_READER_OPTIONS (table Byte.x02 ++ repeat a 8) =
    (Err (MessageEndsPrematurely 2 1), table Byte.x02 ++ repeat a 8).
Proof.
  intros table. split; [reflexivity|]. split; [|reflexivity].
  eexists. split; reflexivity.
Qed.

(** [read_message_from_flat_slice_no_alloc] accepts an 8-byte aligned
    slice that starts with a frame: it returns the segments, found again by
    parsing the table on every access, and cuts the caller's slice after the
    message. *)
Lemma no_alloc_slice_roundtrip (options : ReaderOptions) (l : list (list byte)) (a : Z) (rest : list byte) :
  a mod 8 = 0 -> readable options l -> within_limit options l ->
  exists m, read_message_from_flat_slice_no_alloc options {| addr := a; bytes := frame l ++ rest |} =
    (Ok m, {| addr := a + Z.of_nat (length (frame l)); bytes := rest |}) /\
    represents (into_segments m) l.
Proof.
  intros Ha Hread Hlim. destruct (frame_in_place options l rest (conj Hread Hlim)) as (Ht & Hlen).
  destruct (from_slice_table options a _ _ _ _ Ha Ht) as (l' & rest' & Hb & Hl & Hg & segments & Hfs & Hrep).
  destruct (frame_segments_unique _ _ _ _ _ (conj Hread Hlim) Hg Hl Hb) as [-> ->].
  exists (Reader_new segments options). unfold read_message_from_flat_slice_no_alloc.
  rewrite (ST_bind_ok _ _ _ _ _ Hfs). split; [by rewrite Hlen|done].
Qed.

Lemma no_alloc_slice_roundtrip_witness :
  exists m, read_message_from_flat_slice_no_alloc DEFAULT_READER_OPTIONS
      {| addr := 64; bytes := frame example_segments ++ [Byte.x07] |} =
    (Ok m, {| addr := 64 + Z.of_nat (length (frame example_segments)); bytes := [Byte.x07] |}) /\
    represents (into_segments m) example_segments.
Proof.
  apply (no_alloc_slice_roundtrip DEFAULT_READER_OPTIONS example_segments 64 [Byte.x07]);
    [done|apply example_readable|apply example_within].
Defined.

(** A slice of arbitrary bytes, aligned or not: the parser without
    allocation returns an error and leaves the slice alone, or returns a
    message with no [unwrap] that can fail later. *)
Lemma untrusted_no_alloc_slice (options : ReaderOptions) (s : Slice) :
  match read_message_from_flat_slice_no_alloc options s with
  | (Ok m, s') => exists table l, bytes s = table ++ concat l ++ bytes s' /\
      addr s' = addr s + Z.of_nat (length (table ++ concat l)) /\
      represents (into_segments m) l /\ readable options l /\ within_limit options l
  | (Err _, s') => s' = s
  | _ => False
  end.
Proof.
  pose proof (from_slice_safe options s) as Hs. unfold read_message_from_flat_slice_no_alloc.
  unfold bind, ret; cbn [ST_monad].
  destruct (from_slice options s) as [[segments| | | |] s']; try done.
Qed.

(** [try_read_message_no_alloc] on a reader that fills the space it is
    given ([&[u8]]): the frame is stored in the caller's buffer, nothing after
    it is taken from the reader or changed in the buffer. *)
Lemma no_alloc_stream_roundtrip (options : ReaderOptions) (l : list (list byte)) (a : Z)
    (buf rest : list byte) :
  a mod 8 = 0 -> readable options l -> within_limit options l -> (length (frame l) <= length buf)%nat ->
  exists m, try_read_message_no_alloc a options (frame l ++ rest, buf) =
    (Ok (Some m), (rest, frame l ++ drop (length (frame l)) buf)) /\ represents (into_segments m) l.
Proof. apply try_read_message_no_alloc_ok. Qed.

Lemma no_alloc_stream_roundtrip_witness :
  exists m, try_read_message_no_alloc 0 DEFAULT_READER_OPTIONS
      (frame example_segments ++ [Byte.x07], repeat Byte.xff 48) =
    (Ok (Some m), ([Byte.x07], frame example_segments ++
                     drop (length (frame example_segments)) (repeat Byte.xff 48))) /\
    represents (into_segments m) example_segments.
Proof.
  apply (no_alloc_stream_roundtrip DEFAULT_READER_OPTIONS example_segments 0 (repeat Byte.xff 48) [Byte.x07]);
    [done|apply example_readable|apply example_within|vm_compute; lia].
Defined.

(** [try_read_message_no_alloc] on any stream and any buffer: an error, a
    clean end, or a message whose table and segments lie in the buffer and
    can all be accessed. *)
Lemma untrusted_no_alloc_stream {R} `{SafeRead R} (options : ReaderOptions) (a : Z) (r : R) (buf : list byte) :
  match try_read_message_no_alloc a options (r, buf) with
  | (Ok (Some m), (_, buf')) => length buf' = length buf /\
      exists l rest, in_place l buf' rest /\ represents (into_segments m) l /\
        readable options l /\ within_limit options l
  | (Ok None, _) | (Err _, _) => True
  | _ => False
  end.
Proof.
  pose proof (try_read_message_no_alloc_safe a options r buf) as Hs. unfold wp in Hs.
  destruct (try_read_message_no_alloc a options (r, buf)) as [[[m|]| | | |] [r' buf']]; try done.
  destruct (Hs m eq_refl) as (_ & Hl & l & rest & Hip & Hrep & Hg1 & Hg2). split; [done|]. by exists l, rest.
Qed.

(** Three segments of a word each, the second word of the table in two
    chunks *)
Definition split_table (b : byte) : list (list byte) := repeat (repeat b 8) 3.
Definition split_reader (b : byte) : Chunked :=
  let f := frame (split_table b) in
  {| cur := take 12 f; pending := [drop 12 f] |}.

(** C6: The parser without allocation accepts every frame within the limits.
    From an 8-byte aligned slice it returns the segments, found again by
    parsing the table on every access, and cuts the caller's slice after the
    message; from a reader that fills the space it is given ([&[u8]]) it stores
    the frame in the caller's buffer, and takes nothing after it from the
    reader and changes nothing after it in the buffer. *)
Theorem no_alloc_roundtrip (options : ReaderOptions) (l : list (list byte)) (a : Z)
    (buf rest : list byte) :
  a mod 8 = 0 -> readable options l -> within_limit options l ->
  (exists m, read_message_from_flat_slice_no_alloc options {| addr := a; bytes := frame l ++ rest |} =
     (Ok m, {| addr := a + Z.of_nat (length (frame l)); bytes := rest |}) /\
     represents (into_segments m) l) /\
  ((length (frame l) <= length buf)%nat ->
   exists m, try_read_message_no_alloc a options (frame l ++ rest, buf) =
     (Ok (Some m), (rest, frame l ++ drop (length (frame l)) buf)) /\ represents (into_segments m) l).
Proof.
  intros Ha Hr Hw. split; [by apply no_alloc_slice_roundtrip|intros; by apply no_alloc_stream_roundtrip].
Qed.

Lemma no_alloc_roundtrip_witness :
  (exists m, read_message_from_flat_slice_no_alloc DEFAULT_READER_OPTIONS
      {| addr := 64; bytes := frame example_segments ++ [Byte.x07] |} =
    (Ok m, {| addr := 64 + Z.of_nat (length (frame example_segments)); bytes := [Byte.x07] |}) /\
    represents (into_segments m) example_segments) /\
  exists m, try_read_message_no_alloc 64 DEFAULT_READER_OPTIONS
      (frame example_segments ++ [Byte.x07], repeat Byte.xff 48) =
    (Ok (Some m), ([Byte.x07], frame example_segments ++
                     drop (length (frame example_segments)) (repeat Byte.xff 48))) /\
    represents (into_segments m) example_segments.
Proof.
  destruct (no_alloc_roundtrip DEFAULT_READER_OPTIONS example_segments 64 (repeat Byte.xff 48) [Byte.x07])
    as [H1 H2]; [done|apply example_readable|apply example_within|].
  split; [exact H1|apply H2; vm_compute; lia].
Defined.

(** C7: The parser without allocation on arbitrary bytes, aligned or not, in a
    slice or read from a stream into a buffer: an error that leaves the slice
    alone, a clean end of the stream, or a message whose table and segments
    lie in the slice or buffer and can all be accessed: no [unwrap] fails
    later. *)
Theorem untrusted_no_alloc {R} `{SafeRead R} (options : ReaderOptions) (s : Slice) (a : Z) (r : R)
    (buf : list byte) :
  match read_message_from_flat_slice_no_alloc options s with
  | (Ok m, s') => exists table l, bytes s = table ++ concat l ++ bytes s' /\
      addr s' = addr s + Z.of_nat (length (table ++ concat l)) /\
      represents (into_segments m) l /\ readable options l /\ within_limit options l
  | (Err _, s') => s' = s
  | _ => False
  end /\
  match try_read_message_no_alloc a options (r, buf) with
  | (Ok (Some m), (_, buf')) => length buf' = length buf /\
      exists l rest, in_place l buf' rest /\ represents (into_segments m) l /\
        readable options l /\ within_limit options l
  | (Ok None, _) | (Err _, _) => True
  | _ => False
  end.
Proof. split; [apply untrusted_no_alloc_slice|apply untrusted_no_alloc_stream]. Qed.

(** [try_read_message_no_alloc] ignores how many bytes [read] returned
    for the later words of the table.  On a reader that delivers the table in
    two pieces, [try_read_message] returns the three segments that were
    written, and [try_read_message_no_alloc] reports success with segments
    that were not. *)
Lemma no_alloc_short_read (b : byte) :
  contents (split_reader b) = frame (split_table b) /\
  (exists m r', try_read_message DEFAULT_READER_OPTIONS (split_reader b) = (Ok (Some m), r') /\
     represents (into_segments m) (split_table b)) /\
  (exists m rb, try_read_message_no_alloc 0 DEFAULT_READER_OPTIONS (split_reader b, repeat Byte.x00 64) =
     (Ok (Some m), rb) /\
     get_segment (into_segments m) 0 =
       Ok (Some [Byte.x01; Byte.x00; Byte.x00; Byte.x00; b; b; b; b]) /\
     get_segment (into_segments m) 2 = Ok (Some [])).
Proof.
  split; [reflexivity|]. split.
  - destruct (@try_read_message_ok _ _ (bufread_exact []) DEFAULT_READER_OPTIONS (split_table b)
      (split_reader b) []) as (r' & m & Hm & _ & Hrep & _).
    + split; [split; [done|split; [done|repeat constructor]]|done].
    + intros v [= <-]. vm_compute. discriminate.
    + reflexivity.
    + by exists m, r'.
  - eexists _, _. split; [vm_compute; reflexivity|]. split; vm_compute; reflexivity.
Qed.
