(* ===== verification/Mem.v ===== *)
(** * Memory

    What the code reaches through raw pointers: a finite map from addresses to
    bytes.  An access outside the map, or of a type whose alignment the
    address does not have, is [UB]; computing an address is not.  Address 0 is
    the null pointer. *)

From S2P Require Import Prelude.
From stdpp Require Export gmap.
#[global] Open Scope Z_scope.
#[global] Open Scope rust_scope.

Abbreviation mem := (gmap Z byte).

(** [m] has the [n] bytes from [a]. *)
Definition valid (m : mem) (a n : Z) : Prop := forall i, a <= i < a + n -> is_Some (m !! i).

Fixpoint load_bytes_nat (m : mem) (a : Z) (n : nat) : option (list byte) :=
  match n with
  | O => Some []
  | S n => match m !! a, load_bytes_nat m (a + 1) n with
           | Some b, Some bs => Some (b :: bs)
           | _, _ => None
           end
  end.

(** [slice::from_raw_parts(a, n)] read as bytes *)
Definition load_bytes (m : mem) (a n : Z) : outcome (list byte) :=
  match load_bytes_nat m a (Z.to_nat n) with Some bs => Ok bs | None => UB end.

(** A little-endian load of [n] bytes at an [n]-aligned address: the
    [WireValue] and [Primitive] accesses. *)
Definition load (m : mem) (a n : Z) : outcome Z :=
  if a mod n =? 0 then bs ← load_bytes m a n; Ok (le_combine bs) else UB.

Fixpoint write_bytes (m : mem) (a : Z) (bs : list byte) : mem :=
  match bs with
  | [] => m
  | b :: bs => <[a := b]> (write_bytes m (a + 1) bs)
  end.

(** [valid] is decidable by scanning. *)
Fixpoint valid_nat (m : mem) (a : Z) (n : nat) : bool :=
  match n with
  | O => true
  | S n => match m !! a with Some _ => valid_nat m (a + 1) n | None => false end
  end.

(** Stores to memory the program does not own are [UB]. *)
Definition store_bytes (m : mem) (a : Z) (bs : list byte) : outcome mem :=
  if valid_nat m a (length bs) then Ok (write_bytes m a bs) else UB.

Definition store (m : mem) (a n v : Z) : outcome mem :=
  if a mod n =? 0 then store_bytes m a (le_split (Z.to_nat n) v) else UB.

(** ** Lemmas *)

Lemma valid_sub m a n b k : valid m a n -> a <= b -> b + k <= a + n -> valid m b k.
Proof. intros Hv Ha Hk i Hi. apply Hv. lia. Qed.
Lemma valid_0 m a n : n <= 0 -> valid m a n.
Proof. intros Hn i Hi. lia. Qed.
Lemma valid_app m a n k : valid m a n -> valid m (a + n) k -> valid m a (n + k).
Proof.
  intros H1 H2 i Hi. destruct (Z.lt_ge_cases i (a + n)); [apply H1|apply H2]; lia.
Qed.

Lemma valid_nat_iff m : forall n a, valid_nat m a n = true <-> valid m a (Z.of_nat n).
Proof.
  induction n as [|n IH]; intros a; cbn [valid_nat].
  { split; [|done]. intros _. by apply valid_0. }
  destruct (m !! a) as [b|] eqn:Ea.
  - rewrite IH. split; intros H i Hi.
    + destruct (Z.eq_dec i a) as [->|]; [by exists b|]. apply H. lia.
    + apply H. lia.
  - split; [done|]. intros H. destruct (H a ltac:(lia)) as [b Hb]. congruence.
Qed.

Lemma load_bytes_nat_ok m : forall n a, valid m a (Z.of_nat n) ->
  exists bs, load_bytes_nat m a n = Some bs /\ length bs = n /\
    forall k, (k < n)%nat -> bs !! k = m !! (a + Z.of_nat k).
Proof.
  induction n as [|n IH]; intros a Hv; cbn [load_bytes_nat].
  { exists []. repeat split. lia. }
  destruct (Hv a ltac:(lia)) as [b Hb]. rewrite Hb.
  destruct (IH (a + 1)) as (bs & Hbs & Hl & Hk); [apply (valid_sub m a (Z.of_nat (S n))); auto; lia|].
  rewrite Hbs. exists (b :: bs). split; [done|]. split; [simpl; lia|].
  intros [|k] Hlt; [by rewrite Z.add_0_r, Hb|]. simpl. rewrite Hk by lia. f_equal. lia.
Qed.

Lemma load_bytes_ok m a n : 0 <= n -> valid m a n ->
  exists bs, load_bytes m a n = Ok bs /\ Z.of_nat (length bs) = n /\
    forall k, (Z.of_nat k < n) -> bs !! k = m !! (a + Z.of_nat k).
Proof.
  intros Hn Hv. destruct (load_bytes_nat_ok m (Z.to_nat n) a) as (bs & Hbs & Hl & Hk).
  { by rewrite Z2Nat.id. }
  exists bs. unfold load_bytes. rewrite Hbs. split; [done|]. split; [lia|].
  intros k Hlt. apply Hk. lia.
Qed.

Lemma load_ok m a n : 0 < n -> a mod n = 0 -> valid m a n ->
  exists v, load m a n = Ok v /\ 0 <= v < 2 ^ (8 * n).
Proof.
  intros Hn Ha Hv. unfold load. rewrite Ha, Z.eqb_refl.
  destruct (load_bytes_ok m a n ltac:(lia) Hv) as (bs & -> & Hl & _). cbn [bind outcome_monad].
  eexists. split; [done|]. rewrite <- Hl. apply le_combine_bound.
Qed.

Lemma write_bytes_lookup m bs : forall a i,
  write_bytes m a bs !! i =
  if (a <=? i) && (i <? a + Z.of_nat (length bs)) then bs !! Z.to_nat (i - a) else m !! i.
Proof.
  induction bs as [|b bs IH]; intros a i; cbn [write_bytes].
  { simpl. rewrite Z.add_0_r. destruct (Z.leb_spec a i), (Z.ltb_spec i a); simpl; try done; lia. }
  destruct (Z.eq_dec i a) as [->|Hne].
  - rewrite lookup_insert_eq, Z.sub_diag. cbn [length].
    destruct (Z.leb_spec a a), (Z.ltb_spec a (a + Z.of_nat (S (length bs)))); try lia. done.
  - rewrite lookup_insert_ne by done. rewrite IH. cbn [length].
    destruct (Z.leb_spec (a + 1) i), (Z.ltb_spec i (a + 1 + Z.of_nat (length bs))),
      (Z.leb_spec a i), (Z.ltb_spec i (a + Z.of_nat (S (length bs)))); try lia; try done.
    cbn [andb]. by replace (Z.to_nat (i - a)) with (S (Z.to_nat (i - (a + 1)))) by lia.
Qed.

Lemma write_bytes_valid m a bs b n : valid m b n -> valid (write_bytes m a bs) b n.
Proof.
  intros Hv i Hi. rewrite write_bytes_lookup.
  destruct (_ && _) eqn:E; [|by apply Hv].
  apply andb_prop in E as [E1 E2]. apply lookup_lt_is_Some. lia.
Qed.

(** [m] and [m'] agree on the [n] bytes from [a]. *)
Definition same_at (m m' : mem) (a n : Z) : Prop := forall i, a <= i < a + n -> m' !! i = m !! i.

Lemma write_bytes_same m a bs b n :
  b + n <= a \/ a + Z.of_nat (length bs) <= b -> same_at m (write_bytes m a bs) b n.
Proof.
  intros H i Hi. rewrite write_bytes_lookup.
  destruct (Z.leb_spec a i), (Z.ltb_spec i (a + Z.of_nat (length bs))); simpl; try done. lia.
Qed.

Lemma load_bytes_nat_same m m' : forall n a, same_at m m' a (Z.of_nat n) ->
  load_bytes_nat m' a n = load_bytes_nat m a n.
Proof.
  induction n as [|n IH]; intros a Hs; [done|]. cbn [load_bytes_nat].
  rewrite (Hs a) by lia. rewrite IH; [done|]. intros i Hi. apply Hs. lia.
Qed.
Lemma load_bytes_same m m' a n : same_at m m' a n -> load_bytes m' a n = load_bytes m a n.
Proof.
  intros Hs. unfold load_bytes. destruct (Z.lt_ge_cases n 0).
  { by replace (Z.to_nat n) with 0%nat by lia. }
  rewrite (load_bytes_nat_same m m'); [done|]. by rewrite Z2Nat.id.
Qed.
Lemma load_same m m' a n : same_at m m' a n -> load m' a n = load m a n.
Proof. intros Hs. unfold load. by rewrite (load_bytes_same m m'). Qed.

Lemma load_bytes_nat_written m : forall bs a,
  load_bytes_nat (write_bytes m a bs) a (length bs) = Some bs.
Proof.
  induction bs as [|b bs IH]; intros a; [done|]. cbn [write_bytes length load_bytes_nat].
  rewrite lookup_insert_eq. rewrite (load_bytes_nat_same (write_bytes m (a + 1) bs)).
  { by rewrite IH. }
  intros i Hi. rewrite lookup_insert_ne; [done|lia].
Qed.
Lemma load_bytes_written m a bs n : n = Z.of_nat (length bs) ->
  load_bytes (write_bytes m a bs) a n = Ok bs.
Proof. intros ->. unfold load_bytes. by rewrite Nat2Z.id, load_bytes_nat_written. Qed.

Lemma store_ok m a n v : 0 < n -> a mod n = 0 -> valid m a n ->
  store m a n v = Ok (write_bytes m a (le_split (Z.to_nat n) v)).
Proof.
  intros Hn Ha Hv. unfold store, store_bytes. rewrite Ha, Z.eqb_refl, length_le_split.
  rewrite (proj2 (valid_nat_iff m (Z.to_nat n) a)); [done|]. by rewrite Z2Nat.id by lia.
Qed.
Lemma load_stored m a n v : 0 < n -> a mod n = 0 -> 0 <= v < 2 ^ (8 * n) ->
  load (write_bytes m a (le_split (Z.to_nat n) v)) a n = Ok v.
Proof.
  intros Hn Ha Hv. unfold load. rewrite Ha, Z.eqb_refl.
  rewrite load_bytes_written by (rewrite length_le_split; lia). cbn [bind outcome_monad].
  rewrite le_combine_split, Z2Nat.id by lia. rewrite Z.mod_small; [done|]. by rewrite Z.mul_comm.
Qed.

Lemma valid_load_bytes m a n bs : 0 <= n -> load_bytes m a n = Ok bs -> valid m a n.
Proof.
  intros Hn H. unfold load_bytes in H.
  assert (Hgen : forall k a bs, load_bytes_nat m a k = Some bs -> valid m a (Z.of_nat k)).
  { induction k as [|k IH]; intros c cs Hc; [by apply valid_0|]. cbn [load_bytes_nat] in Hc.
    destruct (m !! c) eqn:Ec; [|done]. destruct (load_bytes_nat m (c + 1) k) eqn:El; [|done].
    apply IH in El. intros i Hi. destruct (Z.eq_dec i c) as [->|]; [rewrite Ec; by eexists|]. apply El. lia. }
  destruct (load_bytes_nat m a (Z.to_nat n)) eqn:E; [|done]. apply Hgen in E.
  by rewrite Z2Nat.id in E.
Qed.
Lemma load_bytes_length m a n bs : 0 <= n -> load_bytes m a n = Ok bs -> Z.of_nat (length bs) = n.
Proof.
  intros Hn H. destruct (load_bytes_ok m a n Hn (valid_load_bytes _ _ _ _ Hn H)) as (bs' & E & Hl & _). congruence.
Qed.
Lemma load_range m a n v : 0 <= n -> load m a n = Ok v -> 0 <= v < 2 ^ (8 * n).
Proof.
  intros Hn H. unfold load in H. destruct (a mod n =? 0); [|done].
  apply outcome_bind_ok in H as (bs & E & [= <-]). rewrite <- (load_bytes_length m a n bs Hn E). apply le_combine_bound.
Qed.
