(* ===== verification/WirePointer.v ===== *)
(** * Element sizes and wire pointers: the head of capnp/src/private/layout.rs

    A [WirePointer] is its two 32-bit halves.  The methods that only look at
    them are pure; the ones that also use the pointer's address take it as
    [this_addr].  The second part proves that each setter is inverted by its
    getters and leaves the other half alone. *)

From S2P Require Import Prelude.
Inductive ElementSize :=
| Void | Bit | Byte | TwoBytes | FourBytes | EightBytes | Pointer | InlineComposite.
#[export] Instance ElementSize_eq_dec : EqDecision ElementSize.
Proof. solve_decision. Defined.

(** [element_size as u32] *)
Definition ElementSize_as_u32 (s : ElementSize) : Z :=
  match s with
  | Void => 0 | Bit => 1 | Byte => 2 | TwoBytes => 3
  | FourBytes => 4 | EightBytes => 5 | Pointer => 6 | InlineComposite => 7
  end.

(** [ElementSize::from]; [None] is the panic on any other byte. *)
Definition ElementSize_from (val : Z) : option ElementSize :=
  match val with
  | 0 => Some Void | 1 => Some Bit | 2 => Some Byte | 3 => Some TwoBytes
  | 4 => Some FourBytes | 5 => Some EightBytes | 6 => Some Pointer | 7 => Some InlineComposite
  | _ => None
  end.

Definition data_bits_per_element (size : ElementSize) : Z :=
  match size with
  | Void => 0 | Bit => 1 | Byte => 8 | TwoBytes => 16 | FourBytes => 32 | EightBytes => 64
  | Pointer => 0 | InlineComposite => 0
  end.

Definition pointers_per_element (size : ElementSize) : Z :=
  match size with Pointer => 1 | _ => 0 end.

Record StructSize := { data : Z; pointers : Z }.

(** [StructSize::total] *)
Definition StructSize_total (s : StructSize) : Z := data s + pointers s.

Inductive WirePointerKind := Struct | List | Far | Other.
#[export] Instance WirePointerKind_eq_dec : EqDecision WirePointerKind.
Proof. solve_decision. Defined.

Definition WirePointerKind_as_u32 (k : WirePointerKind) : Z :=
  match k with Struct => 0 | List => 1 | Far => 2 | Other => 3 end.

Definition WirePointerKind_from (val : Z) : option WirePointerKind :=
  match val with
  | 0 => Some Struct | 1 => Some List | 2 => Some Far | 3 => Some Other | _ => None
  end.

Record WirePointer := { offset_and_kind : Z; upper32bits : Z }.

Definition set_offset_and_kind (v : Z) (p : WirePointer) : WirePointer :=
  {| offset_and_kind := v; upper32bits := upper32bits p |}.
Definition set_upper32bits (v : Z) (p : WirePointer) : WirePointer :=
  {| offset_and_kind := offset_and_kind p; upper32bits := v |}.

(** ** Methods *)

(** [WirePointerKind::from(self.offset_and_kind.get() as u8 & 3)]; the
    default stands for the panic, which [kind_from] excludes. *)
Definition kind (p : WirePointer) : WirePointerKind :=
  default Other (WirePointerKind_from (Z.land (wrap8 (offset_and_kind p)) 3)).

Definition is_positional (p : WirePointer) : bool := Z.land (offset_and_kind p) 2 =? 0.
Definition is_capability (p : WirePointer) : bool :=
  offset_and_kind p =? WirePointerKind_as_u32 Other.

(** [(self.offset_and_kind.get() as i32) >> 2] *)
Definition signed_offset (p : WirePointer) : Z := Z.shiftr (as_i32 (offset_and_kind p)) 2.

(** [target], [mut_target]: the address the offset names *)
Definition target (this_addr : Z) (p : WirePointer) : Z := this_addr + 8 * (1 + signed_offset p).
Definition mut_target (this_addr : Z) (p : WirePointer) : Z :=
  wrap64 (this_addr + 8 * (1 + signed_offset p)).

(** [a as i32] for a wider integer *)
Definition to_i32 (x : Z) : Z := as_i32 (wrap32 x).
(** [a - b] at type [i32] *)
Definition isub32 (a b : Z) : outcome Z :=
  if (- 2 ^ 31 <=? a - b) && (a - b <? 2 ^ 31) then Ok (a - b) else Panic.

Definition set_kind_and_target (this_addr : Z) (k : WirePointerKind) (target_addr : Z)
    (p : WirePointer) : outcome WirePointer :=
  off ← isub32 (to_i32 (Z.quot (target_addr - this_addr) 8)) 1;
  Ok (set_offset_and_kind (Z.lor (wrap32 (Z.shiftl off 2)) (WirePointerKind_as_u32 k)) p).

Definition set_kind_with_zero_offset (k : WirePointerKind) (p : WirePointer) : WirePointer :=
  set_offset_and_kind (WirePointerKind_as_u32 k) p.

Definition set_kind_and_target_for_empty_struct (p : WirePointer) : WirePointer :=
  set_offset_and_kind 0xfffffffc p.

Definition inline_composite_list_element_count (p : WirePointer) : Z :=
  Z.shiftr (offset_and_kind p) 2.

Definition set_kind_and_inline_composite_list_element_count (k : WirePointerKind) (count : Z)
    (p : WirePointer) : WirePointer :=
  set_offset_and_kind (Z.lor (wrap32 (Z.shiftl count 2)) (WirePointerKind_as_u32 k)) p.

Definition far_position_in_segment (p : WirePointer) : Z := Z.shiftr (offset_and_kind p) 3.

Definition is_double_far (p : WirePointer) : bool :=
  negb (Z.land (Z.shiftr (offset_and_kind p) 2) 1 =? 0).

Definition set_far (double_far : bool) (pos : Z) (p : WirePointer) : WirePointer :=
  set_offset_and_kind
    (Z.lor (Z.lor (wrap32 (Z.shiftl pos 3)) (Z.shiftl (Z.b2z double_far) 2))
           (WirePointerKind_as_u32 Far)) p.

Definition set_cap (index : Z) (p : WirePointer) : WirePointer :=
  set_upper32bits index (set_offset_and_kind (WirePointerKind_as_u32 Other) p).

Definition struct_data_size (p : WirePointer) : Z := wrap16 (upper32bits p).
Definition struct_ptr_count (p : WirePointer) : Z := wrap16 (Z.shiftr (upper32bits p) 16).
Definition struct_word_size (p : WirePointer) : Z := struct_data_size p + struct_ptr_count p.

Definition set_struct_size (size : StructSize) (p : WirePointer) : WirePointer :=
  set_upper32bits (Z.lor (data size) (wrap32 (Z.shiftl (pointers size) 16))) p.
Definition set_struct_size_from_pieces (ds rc : Z) (p : WirePointer) : WirePointer :=
  set_struct_size {| data := ds; pointers := rc |} p.

(** [ElementSize::from(self.upper32bits.get() as u8 & 7)]; see
    [list_element_size_from]. *)
Definition list_element_size (p : WirePointer) : ElementSize :=
  default InlineComposite (ElementSize_from (Z.land (wrap8 (upper32bits p)) 7)).
Definition list_element_count (p : WirePointer) : Z := Z.shiftr (upper32bits p) 3.
Definition list_inline_composite_word_count (p : WirePointer) : Z := list_element_count p.

Definition set_list_size_and_count (es : ElementSize) (ec : Z) (p : WirePointer) :
    outcome WirePointer :=
  rust_assert (ec <? Z.shiftl 1 29) ;;
  Ok (set_upper32bits (Z.lor (wrap32 (Z.shiftl ec 3)) (ElementSize_as_u32 es)) p).
Definition set_list_inline_composite (wc : Z) (p : WirePointer) : outcome WirePointer :=
  rust_assert (wc <? Z.shiftl 1 29) ;;
  Ok (set_upper32bits (Z.lor (wrap32 (Z.shiftl wc 3)) (ElementSize_as_u32 InlineComposite)) p).

Definition far_segment_id (p : WirePointer) : Z := upper32bits p.
Definition set_far_segment_id (si : Z) (p : WirePointer) : WirePointer := set_upper32bits si p.
Definition cap_index (p : WirePointer) : Z := upper32bits p.
Definition set_cap_index (index : Z) (p : WirePointer) : WirePointer := set_upper32bits index p.

Definition is_null (p : WirePointer) : bool := (offset_and_kind p =? 0) && (upper32bits p =? 0).

(** ** Facts *)

Definition wp_ok (p : WirePointer) : Prop := u32 (offset_and_kind p) /\ u32 (upper32bits p).

Lemma land_mask x k : 0 <= k -> Z.land x (Z.ones k) = x mod 2 ^ k.
Proof. apply Z.land_ones. Qed.
Lemma land_3 x : Z.land x 3 = x mod 4.
Proof. exact (Z.land_ones x 2 ltac:(lia)). Qed.
Lemma land_7 x : Z.land x 7 = x mod 8.
Proof. exact (Z.land_ones x 3 ltac:(lia)). Qed.
Lemma land_1 x : Z.land x 1 = x mod 2.
Proof. exact (Z.land_ones x 1 ltac:(lia)). Qed.

(** Disjoint bit fields: [or] adds. *)
Lemma lor_add a b k : 0 <= k -> 0 <= b < 2 ^ k -> Z.lor (a * 2 ^ k) b = a * 2 ^ k + b.
Proof.
  intros Hk Hb. rewrite <- Z.shiftl_mul_pow2 by done.
  rewrite <- (Z.add_lor_land (Z.shiftl a k) b) at 1.
  assert (E : Z.land (Z.shiftl a k) b = 0); [|lia].
  apply Z.bits_inj'. intros n Hn. rewrite Z.land_spec, Z.bits_0, Z.shiftl_spec by done.
  destruct (Z.lt_ge_cases n k); [by rewrite Z.testbit_neg_r by lia|].
  destruct (Z.eq_dec b 0) as [->|]; [by rewrite Z.bits_0, andb_false_r|].
  rewrite (Z.bits_above_log2 b n), andb_false_r; [done|lia|].
  apply Z.lt_le_trans with k; [|done]. apply Z.log2_lt_pow2; lia.
Qed.

Lemma wrap_wrap8 x : wrap8 x mod 4 = x mod 4 /\ wrap8 x mod 8 = x mod 8.
Proof. unfold wrap8, wrap. change (2 ^ 8) with 256. zlia. Qed.

Lemma kind_from p : WirePointerKind_from (Z.land (wrap8 (offset_and_kind p)) 3) = Some (kind p).
Proof.
  unfold kind. rewrite land_3. pose proof (Z.mod_pos_bound (wrap8 (offset_and_kind p)) 4 ltac:(lia)).
  set (x := _ mod 4) in *. clearbody x.
  assert (x = 0 \/ x = 1 \/ x = 2 \/ x = 3) as [->|[->|[->| ->]]] by lia; done.
Qed.
Lemma list_element_size_from p :
  ElementSize_from (Z.land (wrap8 (upper32bits p)) 7) = Some (list_element_size p).
Proof.
  unfold list_element_size. rewrite land_7.
  pose proof (Z.mod_pos_bound (wrap8 (upper32bits p)) 8 ltac:(lia)).
  set (x := _ mod 8) in *. clearbody x.
  assert (x = 0 \/ x = 1 \/ x = 2 \/ x = 3 \/ x = 4 \/ x = 5 \/ x = 6 \/ x = 7)
    as [->|[->|[->|[->|[->|[->|[->| ->]]]]]]] by lia; done.
Qed.

(** The getters in arithmetic. *)
Lemma kind_mod p : WirePointerKind_as_u32 (kind p) = offset_and_kind p mod 4.
Proof.
  pose proof (kind_from p) as H. rewrite land_3, (proj1 (wrap_wrap8 _)) in H.
  pose proof (Z.mod_pos_bound (offset_and_kind p) 4 ltac:(lia)).
  set (x := _ mod 4) in *. clearbody x.
  assert (x = 0 \/ x = 1 \/ x = 2 \/ x = 3) as [->|[->|[->| ->]]] by lia; by injection H as <-.
Qed.
Lemma kind_eq p k : offset_and_kind p mod 4 = WirePointerKind_as_u32 k -> kind p = k.
Proof. rewrite <- kind_mod. by destruct (kind p), k. Qed.
Lemma list_element_size_mod p : ElementSize_as_u32 (list_element_size p) = upper32bits p mod 8.
Proof.
  pose proof (list_element_size_from p) as H. rewrite land_7, (proj2 (wrap_wrap8 _)) in H.
  pose proof (Z.mod_pos_bound (upper32bits p) 8 ltac:(lia)).
  set (x := _ mod 8) in *. clearbody x.
  assert (x = 0 \/ x = 1 \/ x = 2 \/ x = 3 \/ x = 4 \/ x = 5 \/ x = 6 \/ x = 7)
    as [->|[->|[->|[->|[->|[->|[->| ->]]]]]]] by lia; by injection H as <-.
Qed.
Lemma list_element_size_eq p s :
  upper32bits p mod 8 = ElementSize_as_u32 s -> list_element_size p = s.
Proof. rewrite <- list_element_size_mod. by destruct (list_element_size p), s. Qed.

Lemma shiftr_div x k : 0 <= k -> Z.shiftr x k = x / 2 ^ k.
Proof. apply Z.shiftr_div_pow2. Qed.
Lemma list_element_count_div p : list_element_count p = upper32bits p / 8.
Proof. unfold list_element_count. by rewrite shiftr_div. Qed.
Lemma struct_ptr_count_div p : struct_ptr_count p = upper32bits p / 65536 mod 65536.
Proof. unfold struct_ptr_count. by rewrite shiftr_div. Qed.
Lemma struct_data_size_mod p : struct_data_size p = upper32bits p mod 65536.
Proof. done. Qed.
Lemma far_position_div p : far_position_in_segment p = offset_and_kind p / 8.
Proof. unfold far_position_in_segment. by rewrite shiftr_div. Qed.
Lemma is_double_far_mod p : is_double_far p = (offset_and_kind p / 4 mod 2 =? 1).
Proof.
  unfold is_double_far. rewrite shiftr_div, land_1 by done. change (2 ^ 2) with 4.
  pose proof (Z.mod_pos_bound (offset_and_kind p / 4) 2 ltac:(lia)).
  destruct (Z.eqb_spec (offset_and_kind p / 4 mod 2) 0), (Z.eqb_spec (offset_and_kind p / 4 mod 2) 1);
    try done; lia.
Qed.
Lemma signed_offset_div p : signed_offset p = as_i32 (offset_and_kind p) / 4.
Proof. unfold signed_offset. by rewrite shiftr_div. Qed.

(** Bounds on what the getters return *)
Lemma list_element_count_range p : wp_ok p -> 0 <= list_element_count p < 2 ^ 29.
Proof. intros [_ Hu]. rewrite list_element_count_div. unfold u32, in_width in Hu. zlia. Qed.
Lemma element_count_range p : wp_ok p -> 0 <= inline_composite_list_element_count p < 2 ^ 30.
Proof.
  intros [Ho _]. unfold inline_composite_list_element_count. rewrite shiftr_div by done.
  unfold u32, in_width in Ho. change (2 ^ 2) with 4. zlia.
Qed.
Lemma struct_data_size_range p : 0 <= struct_data_size p < 2 ^ 16.
Proof. apply wrap16_range. Qed.
Lemma struct_ptr_count_range p : 0 <= struct_ptr_count p < 2 ^ 16.
Proof. apply wrap16_range. Qed.
Lemma signed_offset_range p : wp_ok p -> - 2 ^ 29 <= signed_offset p < 2 ^ 29.
Proof.
  intros [Ho _]. rewrite signed_offset_div. unfold as_i32, u32, in_width in *.
  destruct (Z.ltb_spec (offset_and_kind p) (2 ^ 31)); zlia.
Qed.
Lemma far_position_range p : wp_ok p -> 0 <= far_position_in_segment p < 2 ^ 29.
Proof. intros [Ho _]. rewrite far_position_div. unfold u32, in_width in Ho. zlia. Qed.

(** ** Setters *)

(** A value above a [k]-bit field: [wrap32 (x << k) | f]. *)
Lemma field_value x f k : 0 <= k <= 32 -> 0 <= f < 2 ^ k ->
  Z.lor (wrap32 (Z.shiftl x k)) f = (x mod 2 ^ (32 - k)) * 2 ^ k + f.
Proof.
  intros Hk Hf. unfold wrap32, wrap. rewrite Z.shiftl_mul_pow2 by lia.
  replace (2 ^ 32) with (2 ^ (32 - k) * 2 ^ k) by (rewrite <- Z.pow_add_r by lia; f_equal; lia).
  rewrite Z.mul_mod_distr_r by lia. apply lor_add; lia.
Qed.

Lemma kind_bound k : 0 <= WirePointerKind_as_u32 k < 2 ^ 2.
Proof. destruct k; simpl; lia. Qed.
Lemma size_bound s : 0 <= ElementSize_as_u32 s < 2 ^ 3.
Proof. destruct s; simpl; lia. Qed.

Lemma set_kind_and_target_spec this k t p :
  t - this = 8 * ((t - this) / 8) -> - 2 ^ 29 <= (t - this) / 8 - 1 < 2 ^ 29 ->
  exists p', set_kind_and_target this k t p = Ok p' /\
    upper32bits p' = upper32bits p /\ u32 (offset_and_kind p') /\
    kind p' = k /\ target this p' = t.
Proof.
  intros Hal Hr. set (d := (t - this) / 8) in *. unfold set_kind_and_target.
  rewrite Hal, Z.mul_comm, Z.quot_mul by lia.
  assert (E : to_i32 d = d).
  { unfold to_i32, as_i32, wrap32, wrap. destruct (Z.lt_ge_cases d 0).
    - replace (d mod 2 ^ 32) with (d + 2 ^ 32) by zlia. case_bools.
    - rewrite Z.mod_small by lia. case_bools. }
  rewrite E. unfold isub32.
  destruct (Z.leb_spec (- 2 ^ 31) (d - 1)), (Z.ltb_spec (d - 1) (2 ^ 31)); try lia.
  cbn [andb bind outcome_monad]. eexists. split; [done|].
  rewrite (field_value _ _ 2) by (apply kind_bound || lia).
  pose proof (kind_bound k) as Hk. change (2 ^ (32 - 2)) with 1073741824. change (2 ^ 2) with 4 in *.
  split; [done|]. split; [unfold u32, in_width; cbn [offset_and_kind set_offset_and_kind]; zlia|].
  split; [apply kind_eq; cbn [offset_and_kind set_offset_and_kind]; zlia|].
  unfold target. rewrite signed_offset_div. cbn [offset_and_kind set_offset_and_kind].
  replace ((((d - 1) mod 1073741824) * 4 + WirePointerKind_as_u32 k)) with
    (if d - 1 <? 0 then (d - 1) * 4 + 2 ^ 32 + WirePointerKind_as_u32 k
     else (d - 1) * 4 + WirePointerKind_as_u32 k) by (destruct (Z.ltb_spec (d - 1) 0); zlia).
  unfold as_i32. destruct (Z.ltb_spec (d - 1) 0) as [Hn|Hn].
  - destruct (Z.ltb_spec ((d - 1) * 4 + 2 ^ 32 + WirePointerKind_as_u32 k) (2 ^ 31)); [lia|].
    zlia.
  - destruct (Z.ltb_spec ((d - 1) * 4 + WirePointerKind_as_u32 k) (2 ^ 31)); [zlia|lia].
Qed.

Lemma set_far_spec df pos p : 0 <= pos < 2 ^ 29 ->
  let p' := set_far df pos p in
  kind p' = Far /\ is_double_far p' = df /\ far_position_in_segment p' = pos /\
  upper32bits p' = upper32bits p /\ u32 (offset_and_kind p').
Proof.
  intros Hpos p'. assert (E : offset_and_kind p' = pos * 8 + Z.b2z df * 4 + 2).
  { unfold p', set_far. cbn [offset_and_kind set_offset_and_kind].
    rewrite <- Z.lor_assoc.
    replace (Z.lor (Z.shiftl (Z.b2z df) 2) (WirePointerKind_as_u32 Far)) with (Z.b2z df * 4 + 2)
      by (by destruct df).
    rewrite (field_value _ _ 3) by (destruct df; simpl; lia).
    rewrite Z.mod_small by lia. destruct df; simpl; lia. }
  split; [apply kind_eq; rewrite E; cbn [WirePointerKind_as_u32]; zlia|].
  rewrite is_double_far_mod, far_position_div. unfold u32, in_width. rewrite E.
  destruct df; cbn [Z.b2z]; repeat split; try (apply Z.eqb_eq || apply Z.eqb_neq); zlia.
Qed.

Lemma set_struct_size_spec size p : u16 (data size) -> u16 (pointers size) ->
  let p' := set_struct_size size p in
  struct_data_size p' = data size /\ struct_ptr_count p' = pointers size /\
  offset_and_kind p' = offset_and_kind p /\ u32 (upper32bits p').
Proof.
  intros Hd Hp p'. unfold u16, in_width in *.
  assert (E : upper32bits p' = pointers size * 65536 + data size).
  { unfold p', set_struct_size. cbn [upper32bits set_upper32bits].
    rewrite Z.lor_comm, (field_value _ _ 16) by lia. rewrite Z.mod_small by lia. done. }
  rewrite struct_data_size_mod, struct_ptr_count_div. unfold u32, in_width. rewrite E.
  repeat split; zlia.
Qed.

Lemma set_list_size_and_count_spec es ec p : 0 <= ec < 2 ^ 29 ->
  exists p', set_list_size_and_count es ec p = Ok p' /\
    list_element_size p' = es /\ list_element_count p' = ec /\
    offset_and_kind p' = offset_and_kind p /\ u32 (upper32bits p').
Proof.
  intros Hec. unfold set_list_size_and_count. change (Z.shiftl 1 29) with (2 ^ 29).
  destruct (Z.ltb_spec ec (2 ^ 29)); [|lia]. cbn [rust_assert bind outcome_monad].
  eexists. split; [done|]. pose proof (size_bound es). change (2 ^ 3) with 8 in *.
  rewrite list_element_count_div. cbn [upper32bits set_upper32bits offset_and_kind].
  assert (E : Z.lor (wrap32 (Z.shiftl ec 3)) (ElementSize_as_u32 es) = ec * 8 + ElementSize_as_u32 es).
  { rewrite (field_value _ _ 3) by (change (2 ^ 3) with 8; lia). by rewrite Z.mod_small by lia. }
  rewrite E. split; [apply list_element_size_eq; cbn [upper32bits set_upper32bits]; zlia|].
  unfold u32, in_width. repeat split; zlia.
Qed.

Lemma set_list_inline_composite_eq wc p :
  set_list_inline_composite wc p = set_list_size_and_count InlineComposite wc p.
Proof. done. Qed.

Lemma set_inline_composite_count_spec k count p : 0 <= count < 2 ^ 30 ->
  let p' := set_kind_and_inline_composite_list_element_count k count p in
  kind p' = k /\ inline_composite_list_element_count p' = count /\
  upper32bits p' = upper32bits p /\ u32 (offset_and_kind p').
Proof.
  intros Hc p'. pose proof (kind_bound k) as Hk. change (2 ^ 2) with 4 in *.
  assert (E : offset_and_kind p' = count * 4 + WirePointerKind_as_u32 k).
  { unfold p'. cbn [offset_and_kind set_offset_and_kind set_kind_and_inline_composite_list_element_count].
    rewrite (field_value _ _ 2) by (change (2 ^ 2) with 4; lia). by rewrite Z.mod_small by lia. }
  split; [apply kind_eq; rewrite E; zlia|].
  unfold inline_composite_list_element_count. rewrite shiftr_div by done. change (2 ^ 2) with 4.
  unfold u32, in_width. rewrite E. repeat split; zlia.
Qed.

Lemma is_null_empty_struct p : is_null (set_kind_and_target_for_empty_struct p) = false /\
  kind (set_kind_and_target_for_empty_struct p) = Struct /\
  signed_offset (set_kind_and_target_for_empty_struct p) = -1.
Proof. repeat split. Qed.
