(* ===== verification/Arena.v ===== *)
(** * Reader arenas: capnp/src/private/arena.rs

    The trait [ReaderArena] as a record of operations (a reader holds a
    [&dyn ReaderArena]), with the implementations for a message's segments,
    for default values and for generated code, and the law [ArenaOk] that
    makes an arena safe to read from.  The arena of a message being built is
    in BuilderArena.

    The state of an operation is the read limiter, the only thing reading
    changes. *)

From S2P Require Import Prelude.
From S2P Require Import Mem.
From S2P Require Import ReadLimiter.
From S2P Require Import Segments.
(** [&[u8]]: where it starts, and what it holds *)
Record SliceAt := { as_ptr : Z; slice_bytes : list byte }.

Record ReaderArena := {
  arena_get_segment : Z -> outcome (Z * Z);
  check_offset : Z -> Z -> Z -> outcome Z;
  contains_interval : Z -> Z -> Z -> ST ReadLimiter unit;
  amplified_read : Z -> ST ReadLimiter unit;
  get_nesting_limit : Z;
  arena_size_in_words : outcome Z
}.

(** [x as i64], and [a + b] at type [i64] *)
Definition as_i64 (x : Z) : Z := if x <? 2 ^ 63 then x else x - 2 ^ 64.
Definition iadd64 (a b : Z) : outcome Z :=
  if (- 2 ^ 63 <=? a + b) && (a + b <? 2 ^ 63) then Ok (a + b) else Panic.

(** The default method [check_offset].  The sum is cast to [usize], so a
    negative one is larger than any segment. *)
Definition default_check_offset (get : Z -> outcome (Z * Z)) (segment_id start offset_in_words : Z) :
    outcome Z :=
  '(segment_start, segment_len) ← get segment_id;
  this_size ← umul 64 segment_len BYTES_PER_WORD;
  let offset := offset_in_words * BYTES_PER_WORD in
  if start <? segment_start then Err MessageContainsOutOfBoundsPointer
  else
    sum ← iadd64 (as_i64 (start - segment_start)) offset;
    if this_size <? wrap64 sum then Err MessageContainsOutOfBoundsPointer
    else Ok (start + offset).

(** The interval check that [ReaderArenaImpl] and [GeneratedCodeArena]
    share: [Ok] when the words from [start] are in the segment. *)
Definition in_segment (get : Z -> outcome (Z * Z)) (id start size_in_words : Z) : outcome unit :=
  '(segment_start, segment_len) ← get id;
  this_size ← umul 64 segment_len BYTES_PER_WORD;
  size ← umul 64 size_in_words BYTES_PER_WORD;
  if segment_start <=? start then
    e ← uadd 64 (start - segment_start) size;
    if e <=? this_size then Ok tt else Err MessageContainsOutOfBoundsPointer
  else Err MessageContainsOutOfBoundsPointer.

(** ** [ReaderArenaImpl] over a list of segments in memory *)

Section impl.
Context (a : ReaderArenaImpl (list SliceAt)).

Definition impl_get_segment (id : Z) : outcome (Z * Z) :=
  match arena_segments a !! Z.to_nat id with
  | Some seg =>
      if negb (as_ptr seg mod BYTES_PER_WORD =? 0) then Err UnalignedSegment
      else Ok (as_ptr seg, wrap32 (Z.of_nat (length (slice_bytes seg)) / BYTES_PER_WORD))
  | None => Err (InvalidSegmentId id)
  end.

Definition impl_contains_interval (id start size_in_words : Z) : ST ReadLimiter unit :=
  lift (in_segment impl_get_segment id start size_in_words) ;;
  can_read size_in_words.

Definition impl_amplified_read (virtual_amount : Z) : ST ReadLimiter unit :=
  can_read virtual_amount.

Definition impl_size_in_words : outcome Z :=
  fst (fold_range (length (arena_segments a)) 0 0 (fun ii result =>
    match arena_segments a !! Z.to_nat (wrap32 ii) with
    | Some seg => lift (uadd 64 result (Z.of_nat (length (slice_bytes seg)) / BYTES_PER_WORD))
    | None => ret result
    end) tt).

Definition impl_arena : ReaderArena := {|
  arena_get_segment := impl_get_segment;
  check_offset := default_check_offset impl_get_segment;
  contains_interval := impl_contains_interval;
  amplified_read := impl_amplified_read;
  get_nesting_limit := arena_nesting_limit a;
  arena_size_in_words := impl_size_in_words
|}.
End impl.

(** ** [NullArena]: default values, not checked *)

Definition null_check_offset (segment_id start offset_in_words : Z) : outcome Z :=
  off ← umul 64 (wrap64 offset_in_words) BYTES_PER_WORD;
  Ok (start + off).

Definition NULL_ARENA : ReaderArena := {|
  arena_get_segment := fun _ => Err TriedToReadFromNullArena;
  check_offset := null_check_offset;
  contains_interval := fun _ _ _ => ret tt;
  amplified_read := fun _ => ret tt;
  get_nesting_limit := 0x7fffffff;
  arena_size_in_words := Ok 0
|}.

(** ** [GeneratedCodeArena]: constants, one segment, no limits *)

Record GeneratedCodeArena := { words_ptr : Z; words_len : Z }.

Definition generated_get_segment (g : GeneratedCodeArena) (id : Z) : outcome (Z * Z) :=
  if id =? 0 then Ok (words_ptr g, wrap32 (words_len g)) else Err (InvalidSegmentId id).

Definition generated_arena (g : GeneratedCodeArena) : ReaderArena := {|
  arena_get_segment := generated_get_segment g;
  check_offset := default_check_offset (generated_get_segment g);
  contains_interval := fun id start size => lift (in_segment (generated_get_segment g) id start size);
  amplified_read := fun _ => ret tt;
  get_nesting_limit := 0x7fffffff;
  arena_size_in_words := Ok (words_len g)
|}.

(** [GeneratedCodeArena::new] *)
Definition GeneratedCodeArena_new (g : GeneratedCodeArena) : outcome GeneratedCodeArena :=
  rust_assert (words_len g <? 2 ^ 32 - 1) ;; Ok g.

(** ** The law of an arena *)

(** User-space addresses: those below [2^62]. *)
Definition addressable (a : Z) : Prop := 0 <= a < 2 ^ 62.

(** A segment: aligned, in memory, below the address bound. *)
Definition segment_ok (m : mem) (start len : Z) : Prop :=
  0 < start /\ start mod 8 = 0 /\ 0 <= len < 2 ^ 32 /\ valid m start (8 * len) /\
  start + 8 * len < 2 ^ 62.

(** Words in memory that a reader may look at. *)
Definition words_ok (m : mem) (p n : Z) : Prop :=
  0 < p /\ p mod 8 = 0 /\ valid m p (8 * n) /\ addressable (p + 8 * n).

(** How an operation that reads [n] words leaves the limiter: an enforced
    budget pays for them when the arena is metered. *)
Definition paid (metered : bool) (l l' : ReadLimiter) (n : Z) : Prop :=
  limiter_ok l' /\ error_on_limit_exceeded l' = error_on_limit_exceeded l /\
  (metered = true -> error_on_limit_exceeded l = true -> charged l l' = n).

(** What reading from an arena over [m] guarantees, from the point of view of
    the wire format's arithmetic: offsets of 30 bits and sizes below
    [2^33]. *)
Class ArenaOk (m : mem) (metered : bool) (ar : ReaderArena) : Prop := {
  get_segment_law : forall id, u32 id ->
    match arena_get_segment ar id with
    | Ok (start, len) => segment_ok m start len
    | Err _ => True
    | _ => False
    end;
  check_offset_law : forall id p off, u32 id -> p mod 8 = 0 -> 0 < p -> addressable p ->
    - 2 ^ 30 <= off < 2 ^ 30 ->
    match check_offset ar id p off with
    | Ok q => q = p + 8 * off /\ 0 < q /\ addressable q /\ q mod 8 = 0
    | Err _ => True
    | _ => False
    end;
  contains_interval_law : forall id p n l, u32 id -> limiter_ok l -> p mod 8 = 0 -> 0 < p ->
    p < 2 ^ 63 -> 0 <= n < 2 ^ 33 ->
    wp (contains_interval ar id p n)
       (fun _ l' => words_ok m p n /\ paid metered l l' n) (fun _ l' => l' = l) l;
  amplified_read_law : forall n l, limiter_ok l -> 0 <= n < 2 ^ 32 ->
    wp (amplified_read ar n) (fun _ l' => paid metered l l' n) (fun _ l' => l' = l) l
}.

Lemma paid_trans metered l1 l2 l3 n k :
  paid metered l1 l2 n -> paid metered l2 l3 k -> paid metered l1 l3 (n + k).
Proof.
  unfold paid, charged. intros (H1 & E1 & C1) (H2 & E2 & C2).
  split; [done|]. split; [by rewrite E2|]. intros Hm He.
  specialize (C1 Hm He). rewrite E1 in C2. specialize (C2 Hm He). lia.
Qed.
Lemma paid_refl metered l : limiter_ok l -> paid metered l l 0.
Proof. intros H. split; [done|]. split; [done|]. intros _ _. unfold charged. lia. Qed.

(** ** Exactness of the two checks *)

Lemma in_segment_exact get id start len p n :
  get id = Ok (start, len) -> 0 <= start -> 0 <= len < 2 ^ 32 -> 0 <= p < 2 ^ 63 ->
  0 <= n < 2 ^ 58 ->
  in_segment get id p n =
    (if (start <=? p) && (p + 8 * n <=? start + 8 * len)
     then Ok tt else Err MessageContainsOutOfBoundsPointer).
Proof.
  intros Hg Hs Hl Hp Hn. unfold in_segment. rewrite Hg. cbn [bind outcome_monad].
  unfold BYTES_PER_WORD. rewrite !umul_ok by lia. cbn [bind outcome_monad].
  destruct (Z.leb_spec start p); [|done]. rewrite uadd_ok by lia. cbn [bind outcome_monad andb].
  destruct (Z.leb_spec (p - start + n * 8) (len * 8)), (Z.leb_spec (p + 8 * n) (start + 8 * len));
    done || lia.
Qed.

Lemma check_offset_exact get id start len p off :
  get id = Ok (start, len) -> 0 <= start -> 0 <= len < 2 ^ 32 -> 0 <= p < 2 ^ 62 ->
  - 2 ^ 31 <= off < 2 ^ 31 ->
  default_check_offset get id p off =
    (if (start <=? p) && (start <=? p + 8 * off) && (p + 8 * off <=? start + 8 * len)
     then Ok (p + 8 * off) else Err MessageContainsOutOfBoundsPointer).
Proof.
  intros Hg Hs Hl Hp Ho. unfold default_check_offset. rewrite Hg. cbn [bind outcome_monad].
  unfold BYTES_PER_WORD. rewrite !umul_ok by lia. cbn [bind outcome_monad].
  destruct (Z.ltb_spec p start), (Z.leb_spec start p); try lia; [done|].
  unfold as_i64. destruct (Z.ltb_spec (p - start) (2 ^ 63)); [|lia].
  unfold iadd64. destruct (Z.leb_spec (- 2 ^ 63) (p - start + off * 8)),
    (Z.ltb_spec (p - start + off * 8) (2 ^ 63)); try lia. cbn [andb bind outcome_monad].
  destruct (Z.leb_spec start (p + 8 * off)).
  - rewrite wrap64_small by lia. cbn [andb].
    destruct (Z.ltb_spec (len * 8) (p - start + off * 8)), (Z.leb_spec (p + 8 * off) (start + 8 * len));
      try lia; [done|]. f_equal. lia.
  - cbn [andb]. replace (wrap64 (p - start + off * 8)) with (p - start + off * 8 + 2 ^ 64)
      by (unfold wrap64, wrap; zlia).
    destruct (Z.ltb_spec (len * 8) (p - start + off * 8 + 2 ^ 64)); [done|lia].
Qed.

(** The default methods satisfy the law whenever [get_segment] does. *)
Section default_law.
Context (m : mem) (get : Z -> outcome (Z * Z)).
Context (Hget : forall id, u32 id ->
  match get id with Ok (start, len) => segment_ok m start len | Err _ => True | _ => False end).

Lemma default_check_offset_law id p off : u32 id -> p mod 8 = 0 -> 0 < p -> addressable p ->
  - 2 ^ 30 <= off < 2 ^ 30 ->
  match default_check_offset get id p off with
  | Ok q => q = p + 8 * off /\ 0 < q /\ addressable q /\ q mod 8 = 0
  | Err _ => True
  | _ => False
  end.
Proof.
  intros Hid Hal Hp Ha Ho. specialize (Hget id Hid). unfold addressable in *.
  destruct (get id) as [[start len]| | | |] eqn:Eg; try done;
    [|by unfold default_check_offset; rewrite Eg].
  destruct Hget as (Hs & Hsa & Hl & _ & Hb).
  rewrite (check_offset_exact get id start len) by (done || lia).
  destruct (Z.leb_spec start p), (Z.leb_spec start (p + 8 * off)),
    (Z.leb_spec (p + 8 * off) (start + 8 * len)); cbn [andb]; try done.
  split; [done|]. split; [lia|]. split; [lia|]. rewrite Z.mul_comm, Z_mod_plus_full. done.
Qed.

Lemma in_segment_law id p n : u32 id -> p mod 8 = 0 -> 0 < p -> p < 2 ^ 63 -> 0 <= n < 2 ^ 33 ->
  match in_segment get id p n with
  | Ok _ => words_ok m p n
  | Err _ => True
  | _ => False
  end.
Proof.
  intros Hid Hal Hp Hb Hn. specialize (Hget id Hid).
  destruct (get id) as [[start len]| | | |] eqn:Eg; try done;
    [|by unfold in_segment; rewrite Eg].
  destruct Hget as (Hs & Hsa & Hl & Hv & Hsb).
  rewrite (in_segment_exact get id start len) by (done || lia).
  destruct (Z.leb_spec start p), (Z.leb_spec (p + 8 * n) (start + 8 * len)); cbn [andb]; try done.
  unfold words_ok, addressable. repeat split; try lia.
  apply (valid_sub m start (8 * len)); [done|lia|lia].
Qed.
End default_law.

(** A list of segments in memory: where each lies and what it holds. *)
Definition laid_out (m : mem) (l : list SliceAt) : Prop :=
  forall i s, l !! i = Some s ->
    0 < as_ptr s /\ Z.of_nat (length (slice_bytes s)) < 2 ^ 35 /\
    as_ptr s + Z.of_nat (length (slice_bytes s)) < 2 ^ 62 /\
    load_bytes m (as_ptr s) (Z.of_nat (length (slice_bytes s))) = Ok (slice_bytes s).

Lemma can_read_wp metered n l : limiter_ok l -> 0 <= n ->
  wp (can_read n) (fun _ l' => paid metered l l' n) (fun _ l' => l' = l) l.
Proof.
  intros Hl Hn. unfold wp. pose proof (can_read_ok n l) as Hok.
  rewrite can_read_spec in * by done. destruct (refuses l (limit l) n); [done|].
  destruct (Hok _ Hl Hn eq_refl) as (H1 & H2 & H3). by split; [|split].
Qed.

#[export] Instance impl_arena_ok m (a : ReaderArenaImpl (list SliceAt)) :
  laid_out m (arena_segments a) -> ArenaOk m true (impl_arena a).
Proof.
  intros Hl. assert (Hget : forall id, u32 id ->
    match impl_get_segment a id with
    | Ok (start, len) => segment_ok m start len | Err _ => True | _ => False end).
  { intros id Hid. unfold impl_get_segment.
    destruct (arena_segments a !! Z.to_nat id) as [seg|] eqn:Es; [|done].
    destruct (Hl _ _ Es) as (Hp & Hlen & Hb & Hv). unfold BYTES_PER_WORD.
    destruct (Z.eqb_spec (as_ptr seg mod 8) 0) as [Ha|]; [|done]. cbn [negb].
    set (len := Z.of_nat (length (slice_bytes seg))) in *.
    assert (Hn : 0 <= len) by lia.
    rewrite wrap32_small by zlia. unfold segment_ok. apply valid_load_bytes in Hv; [|lia].
    repeat split; [done|done|zlia|zlia|apply (valid_sub m (as_ptr seg) len); [done|lia|zlia]|zlia]. }
  constructor; cbn [impl_arena arena_get_segment check_offset contains_interval amplified_read].
  - exact Hget.
  - by apply (default_check_offset_law m).
  - intros id p n l Hid Hlim Hal Hp Hb Hn. unfold impl_contains_interval. wp_step. apply wp_lift.
    pose proof (in_segment_law m _ Hget id p n Hid Hal Hp Hb Hn) as Hin.
    destruct (in_segment _ _ _ _) as [[]| | | |]; try done.
    eapply wp_mono; [apply (can_read_wp true); [done|lia]| |done].
    intros [] l' Hpaid. by split.
  - intros n l Hlim Hn. apply (can_read_wp true); [done|lia].
Qed.

#[export] Instance generated_arena_ok m (g : GeneratedCodeArena) :
  segment_ok m (words_ptr g) (words_len g) -> ArenaOk m false (generated_arena g).
Proof.
  intros Hs. assert (Hget : forall id, u32 id ->
    match generated_get_segment g id with
    | Ok (start, len) => segment_ok m start len | Err _ => True | _ => False end).
  { intros id Hid. unfold generated_get_segment. destruct (id =? 0); [|done].
    destruct Hs as (? & ? & Hl & ?). by rewrite wrap32_small by lia. }
  constructor; cbn [generated_arena arena_get_segment check_offset contains_interval amplified_read].
  - exact Hget.
  - by apply (default_check_offset_law m).
  - intros id p n l Hid Hlim Hal Hp Hb Hn. apply wp_lift.
    pose proof (in_segment_law m _ Hget id p n Hid Hal Hp Hb Hn) as Hin.
    destruct (in_segment _ _ _ _) as [[]| | | |]; try done.
  - intros n l Hlim Hn. apply wp_ret. by split; [|split].
Qed.
