(* ===== verification/Readers.v ===== *)
(** * Reading: the reader half of capnp/src/private/layout.rs

    [wire_helpers]' reading functions, [PointerReader], [StructReader] and
    [ListReader].  They run over a fixed memory [m] and fixed capability
    tables; their state is the read limiter.  A typed value is the bit
    pattern of its [n] bytes, and a [Mask] is the exclusive or with a bit
    pattern. *)

From S2P Require Import Prelude.
From S2P Require Import Mem.
From S2P Require Import ReadLimiter.
From S2P Require Import Segments.
From S2P Require Import WirePointer.
From S2P Require Import Arena.
Definition BITS_PER_BYTE : Z := 8.
Definition BITS_PER_WORD : Z := 64.

(** ** Helpers *)

(** [*(a as *const WirePointer)] *)
Definition load_wp (m : mem) (a : Z) : outcome WirePointer :=
  lo ← load m a 4; hi ← load m (a + 4) 4;
  Ok {| offset_and_kind := lo; upper32bits := hi |}.

Definition round_bytes_up_to_words (n : Z) : outcome Z :=
  s ← uadd 32 n 7; Ok (s / BYTES_PER_WORD).
Definition round_bits_up_to_words (n : Z) : outcome Z :=
  s ← uadd 64 n 63; Ok (wrap32 (s / BITS_PER_WORD)).
Definition round_bits_up_to_bytes (n : Z) : outcome Z :=
  s ← uadd 64 n 7; Ok (wrap32 (s / BITS_PER_BYTE)).

(** [MessageSize], and its [AddAssign] (capnp/src/lib.rs) *)
Record MessageSize := { word_count : Z; cap_count : Z }.
Definition MessageSize_add (a b : MessageSize) : outcome MessageSize :=
  w ← uadd 64 (word_count a) (word_count b);
  c ← uadd 32 (cap_count a) (cap_count b);
  Ok {| word_count := w; cap_count := c |}.

(** A [Box<dyn ClientHook>]: the object it refers to. [add_ref] is another
    reference to the same object. *)
Definition ClientHook : Type := Z.
Definition CapTable : Type := list (option ClientHook).
(** [CapTableReader::Plain(hooks)] and [CapTableBuilder::Plain(hooks)]: the
    address of a table, null for none. *)
Definition CapTableReader : Type := Z.

Record PointerReader := {
  pr_arena : ReaderArena;
  pr_cap_table : CapTableReader;
  pr_pointer : Z;
  pr_segment_id : Z;
  pr_nesting_limit : Z
}.

Record StructReader := {
  sr_arena : ReaderArena;
  sr_cap_table : CapTableReader;
  sr_data : Z;
  sr_pointers : Z;
  sr_segment_id : Z;
  sr_data_size : Z;
  sr_pointer_count : Z;
  sr_nesting_limit : Z
}.

Record ListReader := {
  lr_arena : ReaderArena;
  lr_cap_table : CapTableReader;
  lr_ptr : Z;
  lr_segment_id : Z;
  lr_element_count : Z;
  lr_step : Z;
  lr_struct_data_size : Z;
  lr_nesting_limit : Z;
  lr_struct_pointer_count : Z;
  lr_element_size : ElementSize
}.

Definition PointerReader_new_default : PointerReader :=
  {| pr_arena := NULL_ARENA; pr_cap_table := 0; pr_pointer := 0; pr_segment_id := 0;
     pr_nesting_limit := 0x7fffffff |}.
Definition StructReader_new_default : StructReader :=
  {| sr_arena := NULL_ARENA; sr_cap_table := 0; sr_data := 0; sr_pointers := 0;
     sr_segment_id := 0; sr_data_size := 0; sr_pointer_count := 0;
     sr_nesting_limit := 0x7fffffff |}.
Definition ListReader_new_default : ListReader :=
  {| lr_arena := NULL_ARENA; lr_cap_table := 0; lr_ptr := 0; lr_segment_id := 0;
     lr_element_count := 0; lr_step := 0; lr_struct_data_size := 0;
     lr_nesting_limit := 0x7fffffff; lr_struct_pointer_count := 0; lr_element_size := Void |}.

(** [zero_pointer()]: the address of the static [ZERO], eight zero bytes. *)
Definition zero_pointer : Z := 8.

Section readers.
Context (m : mem) (tables : gmap Z CapTable).

(** ** wire_helpers *)

Definition bounds_check (arena : ReaderArena) (segment_id start size_in_words : Z)
    (_kind : WirePointerKind) : ST ReadLimiter unit :=
  contains_interval arena segment_id start size_in_words.

(** [WirePointer::target_from_segment] *)
Definition target_from_segment (ptr : Z) (arena : ReaderArena) (segment_id : Z) : outcome Z :=
  p ← load_wp m ptr;
  check_offset arena segment_id ptr (1 + signed_offset p).

(** [follow_fars]: the object, the pointer that describes it, its segment *)
Definition follow_fars (arena : ReaderArena) (reff segment_id : Z) : ST ReadLimiter (Z * Z * Z) :=
  p ← lift (load_wp m reff);
  match kind p with
  | Far =>
      let far_segment_id := far_segment_id p in
      '(seg_start, _) ← lift (arena_get_segment arena far_segment_id);
      let ptr := seg_start + far_position_in_segment p * BYTES_PER_WORD in
      let pad_words := if is_double_far p then 2 else 1 in
      bounds_check arena far_segment_id ptr pad_words Far ;;
      let pad := ptr in
      if negb (is_double_far p) then
        t ← lift (target_from_segment pad arena far_segment_id);
        ret (t, pad, far_segment_id)
      else
        let tag := pad + 8 in
        padp ← lift (load_wp m pad);
        let double_far_segment_id := WirePointer.far_segment_id padp in
        '(segment_start, _) ← lift (arena_get_segment arena double_far_segment_id);
        let ptr := segment_start + far_position_in_segment padp * BYTES_PER_WORD in
        ret (ptr, tag, double_far_segment_id)
  | _ =>
      t ← lift (target_from_segment reff arena segment_id);
      ret (t, reff, segment_id)
  end.

(** [total_size].  [fuel] bounds the recursion, which the nesting limit
    bounds in the code. *)
Fixpoint total_size (fuel : nat) (arena : ReaderArena) (segment_id reff nesting_limit : Z) :
    ST ReadLimiter MessageSize :=
  match fuel with
  | O => lift OutOfFuel
  | S fuel =>
      let result := {| word_count := 0; cap_count := 0 |} in
      p ← lift (load_wp m reff);
      if is_null p then ret result
      else if nesting_limit <=? 0 then fails MessageIsTooDeeplyNested
      else
        nesting_limit ← lift (isub32 nesting_limit 1);
        '(ptr, reff, segment_id) ← follow_fars arena reff segment_id;
        p ← lift (load_wp m reff);
        match kind p with
        | Struct =>
            bounds_check arena segment_id ptr (struct_word_size p) Struct ;;
            let pointer_section := ptr + struct_data_size p * BYTES_PER_WORD in
            fold_range (Z.to_nat (struct_ptr_count p)) 0
              {| word_count := struct_word_size p; cap_count := 0 |} (fun i result =>
                r ← total_size fuel arena segment_id (pointer_section + 8 * i) nesting_limit;
                lift (MessageSize_add result r))
        | List =>
            match list_element_size p with
            | Void => ret result
            | Bit | Byte | TwoBytes | FourBytes | EightBytes =>
                bits ← lift (umul 64 (list_element_count p)
                               (data_bits_per_element (list_element_size p)));
                total_words ← lift (round_bits_up_to_words bits);
                bounds_check arena segment_id ptr total_words List ;;
                ret {| word_count := total_words; cap_count := 0 |}
            | Pointer =>
                let count := list_element_count p in
                bounds_check arena segment_id ptr count List ;;
                fold_range (Z.to_nat count) 0 {| word_count := count; cap_count := 0 |}
                  (fun i result =>
                    r ← total_size fuel arena segment_id (ptr + 8 * i) nesting_limit;
                    lift (MessageSize_add result r))
            | InlineComposite =>
                let wc := list_inline_composite_word_count p in
                size ← lift (uadd 64 wc 1);
                bounds_check arena segment_id ptr size List ;;
                tag ← lift (load_wp m ptr);
                let count := inline_composite_list_element_count tag in
                match kind tag with
                | Struct =>
                    actual_size ← lift (umul 64 (struct_word_size tag) count);
                    if wc <? actual_size
                    then fails InlineCompositeListsElementsOverrunItsWordCount
                    else
                      w ← lift (uadd 64 actual_size 1);
                      let result := {| word_count := w; cap_count := 0 |} in
                      let data_size := struct_data_size tag in
                      let pointer_count := struct_ptr_count tag in
                      if 0 <? pointer_count then
                        '(_, result) ← fold_range (Z.to_nat count) 0 (ptr + 8, result)
                          (fun _ '(pos, result) =>
                            fold_range (Z.to_nat pointer_count) 0 (pos + data_size * 8, result)
                              (fun _ '(pos, result) =>
                                r ← total_size fuel arena segment_id pos nesting_limit;
                                result ← lift (MessageSize_add result r);
                                ret (pos + 8, result)));
                        ret result
                      else ret result
                | _ => fails CantHandleNonStructInlineComposite
                end
            end
        | Far => fails MalformedDoubleFarPointer
        | Other =>
            if is_capability p then ret {| word_count := 0; cap_count := 1 |}
            else fails UnknownPointerType
        end
  end.

(** Enough for any nesting limit: see [total_size_safe]. *)
Definition nesting_fuel (nesting_limit : Z) : nat := S (Z.to_nat nesting_limit).

(** [read_struct_pointer]; [default] is the address of the default value's
    words *)
Definition read_struct_pointer_from (arena : ReaderArena) (segment_id : Z)
    (cap_table : CapTableReader) (reff nesting_limit : Z) : ST ReadLimiter StructReader :=
  if nesting_limit <=? 0 then fails MessageIsTooDeeplyNestedOrContainsCycles
  else
    '(ptr, reff, segment_id) ← follow_fars arena reff segment_id;
    p ← lift (load_wp m reff);
    let data_size_words := struct_data_size p in
    if negb (bool_decide (kind p = Struct))
    then fails MessageContainsNonStructPointerWhereStructPointerWasExpected
    else
      bounds_check arena segment_id ptr (struct_word_size p) Struct ;;
      ret {| sr_arena := arena; sr_segment_id := segment_id; sr_cap_table := cap_table;
             sr_data := ptr; sr_pointers := ptr + data_size_words * BYTES_PER_WORD;
             sr_data_size := data_size_words * BITS_PER_WORD;
             sr_pointer_count := struct_ptr_count p;
             sr_nesting_limit := nesting_limit - 1 |}.

Definition read_struct_pointer (arena : ReaderArena) (segment_id : Z)
    (cap_table : CapTableReader) (reff : Z) (default : option Z) (nesting_limit : Z) :
    ST ReadLimiter StructReader :=
  p ← lift (load_wp m reff);
  if is_null p then
    match default with
    | None => ret StructReader_new_default
    | Some d =>
        dp ← lift (load_wp m d);
        if is_null dp then ret StructReader_new_default
        else read_struct_pointer_from NULL_ARENA 0 cap_table d nesting_limit
    end
  else read_struct_pointer_from arena segment_id cap_table reff nesting_limit.

(** [CapTableReader::extract_cap] *)
Definition extract_cap (t : CapTableReader) (index : Z) : outcome (option ClientHook) :=
  if t =? 0 then Ok None
  else
    match tables !! t with
    | None => UB
    | Some hooks =>
        if Z.of_nat (length hooks) <=? index then Ok None
        else match hooks !! Z.to_nat index with Some h => Ok h | None => Panic end
    end.

Definition read_capability_pointer (cap_table : CapTableReader) (reff : Z) :
    ST ReadLimiter ClientHook :=
  p ← lift (load_wp m reff);
  if is_null p then fails MessageContainsNullCapabilityPointer
  else if negb (is_capability p)
  then fails MessageContainsNonCapabilityPointerWhereCapabilityPointerWasExpected
  else
    h ← lift (extract_cap cap_table (cap_index p));
    lift (ok_or h MessageContainsInvalidCapabilityPointer).

(** The size checks of [read_list_pointer] for a struct list *)
Definition check_struct_list_size (expected : option ElementSize) (data_size ptr_count : Z) :
    outcome unit :=
  match expected with
  | None | Some Void | Some InlineComposite => Ok tt
  | Some Bit => Err FoundStructListWhereBitListWasExpected
  | Some Byte | Some TwoBytes | Some FourBytes | Some EightBytes =>
      if data_size =? 0
      then Err ExpectedAPrimitiveListButGotAListOfPointerOnlyStructs else Ok tt
  | Some Pointer =>
      if ptr_count =? 0 then Err ExpectedAPointerListButGotAListOfDataOnlyStructs else Ok tt
  end.

(** ... and for any other list *)
Definition check_list_size (expected : option ElementSize) (element_size : ElementSize)
    (data_size pointer_count : Z) : outcome unit :=
  match expected with
  | None => Ok tt
  | Some e =>
      if bool_decide (element_size = Bit) && negb (bool_decide (e = Bit))
      then Err FoundBitListWhereStructListWasExpected
      else if (data_size <? data_bits_per_element e) || (pointer_count <? pointers_per_element e)
      then Err MessageContainsListWithIncompatibleElementType
      else Ok tt
  end.

(** [read_list_pointer] on an [InlineComposite] list: [ptr] is its tag. *)
Definition read_struct_list (arena : ReaderArena) (segment_id : Z) (cap_table : CapTableReader)
    (ptr : Z) (p : WirePointer) (expected_element_size : option ElementSize)
    (nesting_limit : Z) : ST ReadLimiter ListReader :=
  let wc := list_inline_composite_word_count p in
  let tag := ptr in
  let ptr := ptr + BYTES_PER_WORD in
  size ← lift (uadd 64 wc 1);
  bounds_check arena segment_id (ptr - BYTES_PER_WORD) size List ;;
  tagp ← lift (load_wp m tag);
  if negb (bool_decide (kind tagp = Struct))
  then fails InlineCompositeListsOfNonStructTypeAreNotSupported
  else
    let size := inline_composite_list_element_count tagp in
    let data_size := struct_data_size tagp in
    let ptr_count := struct_ptr_count tagp in
    let words_per_element := struct_word_size tagp in
    total ← lift (umul 64 size words_per_element);
    if wc <? total then fails InlineCompositeListsElementsOverrunItsWordCount
    else
      (if words_per_element =? 0 then amplified_read arena size else ret tt) ;;
      lift (check_struct_list_size expected_element_size data_size ptr_count) ;;
      step ← lift (umul 32 words_per_element BITS_PER_WORD);
      ret {| lr_arena := arena; lr_segment_id := segment_id; lr_cap_table := cap_table;
             lr_ptr := ptr; lr_element_count := size;
             lr_element_size := InlineComposite; lr_step := step;
             lr_struct_data_size := data_size * BITS_PER_WORD;
             lr_struct_pointer_count := ptr_count;
             lr_nesting_limit := nesting_limit - 1 |}.

(** ... and on any other list *)
Definition read_plain_list (arena : ReaderArena) (segment_id : Z) (cap_table : CapTableReader)
    (ptr : Z) (p : WirePointer) (expected_element_size : option ElementSize)
    (nesting_limit : Z) : ST ReadLimiter ListReader :=
  let element_size := list_element_size p in
  let data_size := data_bits_per_element (list_element_size p) in
  let pointer_count := pointers_per_element (list_element_size p) in
  let element_count := list_element_count p in
  let step := data_size + pointer_count * BITS_PER_WORD in
  bits ← lift (umul 64 element_count step);
  wc ← lift (round_bits_up_to_words bits);
  bounds_check arena segment_id ptr wc List ;;
  (if bool_decide (element_size = Void) then amplified_read arena element_count
   else ret tt) ;;
  lift (check_list_size expected_element_size element_size data_size pointer_count) ;;
  ret {| lr_arena := arena; lr_segment_id := segment_id; lr_cap_table := cap_table;
         lr_ptr := ptr; lr_element_count := element_count;
         lr_element_size := element_size; lr_step := step;
         lr_struct_data_size := data_size; lr_struct_pointer_count := pointer_count;
         lr_nesting_limit := nesting_limit - 1 |}.

Definition read_list_pointer_from (arena : ReaderArena) (segment_id : Z)
    (cap_table : CapTableReader) (reff : Z) (expected_element_size : option ElementSize)
    (nesting_limit : Z) : ST ReadLimiter ListReader :=
  if nesting_limit <=? 0 then fails NestingLimitExceeded
  else
    '(ptr, reff, segment_id) ← follow_fars arena reff segment_id;
    p ← lift (load_wp m reff);
    if negb (bool_decide (kind p = List))
    then fails MessageContainsNonListPointerWhereListPointerWasExpected
    else if bool_decide (list_element_size p = InlineComposite)
    then read_struct_list arena segment_id cap_table ptr p expected_element_size nesting_limit
    else read_plain_list arena segment_id cap_table ptr p expected_element_size nesting_limit.

(** [default_value] is null for none. *)
Definition read_list_pointer (arena : ReaderArena) (segment_id : Z)
    (cap_table : CapTableReader) (reff default_value : Z)
    (expected_element_size : option ElementSize) (nesting_limit : Z) :
    ST ReadLimiter ListReader :=
  p ← lift (load_wp m reff);
  if is_null p then
    if default_value =? 0 then ret ListReader_new_default
    else
      dp ← lift (load_wp m default_value);
      if is_null dp then ret ListReader_new_default
      else read_list_pointer_from NULL_ARENA 0 cap_table default_value expected_element_size
             nesting_limit
  else read_list_pointer_from arena segment_id cap_table reff expected_element_size nesting_limit.

(** [text::Reader], [data::Reader]: a slice of memory *)
Record ByteSlice := { bs_ptr : Z; bs_len : Z }.

Definition read_text_pointer_from (arena : ReaderArena) (segment_id reff : Z) :
    ST ReadLimiter ByteSlice :=
  '(ptr, reff, segment_id) ← follow_fars arena reff segment_id;
  p ← lift (load_wp m reff);
  let size := list_element_count p in
  if negb (bool_decide (kind p = List))
  then fails MessageContainsNonListPointerWhereTextWasExpected
  else if negb (bool_decide (list_element_size p = Byte))
  then fails MessageContainsListPointerOfNonBytesWhereTextWasExpected
  else
    words ← lift (round_bytes_up_to_words size);
    bounds_check arena segment_id ptr words List ;;
    if size =? 0 then fails MessageContainsTextThatIsNotNULTerminated
    else
      last ← lift (load m (ptr + (size - 1)) 1);
      if negb (last =? 0) then fails MessageContainsTextThatIsNotNULTerminated
      else ret {| bs_ptr := ptr; bs_len := size - 1 |}.

(** [""], [&[]]: no bytes *)
Definition empty_slice : ByteSlice := {| bs_ptr := 0; bs_len := 0 |}.

Definition read_text_pointer (arena : ReaderArena) (segment_id reff : Z) (default : option Z) :
    ST ReadLimiter ByteSlice :=
  p ← lift (load_wp m reff);
  if is_null p then
    match default with
    | None => ret empty_slice
    | Some d => read_text_pointer_from NULL_ARENA 0 d
    end
  else read_text_pointer_from arena segment_id reff.

Definition read_data_pointer_from (arena : ReaderArena) (segment_id reff : Z) :
    ST ReadLimiter ByteSlice :=
  '(ptr, reff, segment_id) ← follow_fars arena reff segment_id;
  p ← lift (load_wp m reff);
  let size := list_element_count p in
  if negb (bool_decide (kind p = List))
  then fails MessageContainsNonListPointerWhereDataWasExpected
  else if negb (bool_decide (list_element_size p = Byte))
  then fails MessageContainsListPointerOfNonBytesWhereDataWasExpected
  else
    words ← lift (round_bytes_up_to_words size);
    bounds_check arena segment_id ptr words List ;;
    ret {| bs_ptr := ptr; bs_len := size |}.

Definition read_data_pointer (arena : ReaderArena) (segment_id reff : Z) (default : option Z) :
    ST ReadLimiter ByteSlice :=
  p ← lift (load_wp m reff);
  if is_null p then
    match default with
    | None => ret empty_slice
    | Some d => read_data_pointer_from NULL_ARENA 0 d
    end
  else read_data_pointer_from arena segment_id reff.

(** ** PointerReader *)

Definition PointerReader_get_root (arena : ReaderArena) (segment_id location nesting_limit : Z) :
    ST ReadLimiter PointerReader :=
  bounds_check arena segment_id location 1 Struct ;;
  ret {| pr_arena := arena; pr_segment_id := segment_id; pr_cap_table := 0;
         pr_pointer := location; pr_nesting_limit := nesting_limit |}.

Definition get_root_unchecked (location : Z) : PointerReader :=
  {| pr_arena := NULL_ARENA; pr_segment_id := 0; pr_cap_table := 0; pr_pointer := location;
     pr_nesting_limit := 0x7fffffff |}.

Definition get_root_from_arena (arena : ReaderArena) : ST ReadLimiter PointerReader :=
  '(segment_start, _) ← lift (arena_get_segment arena 0);
  PointerReader_get_root arena 0 segment_start (get_nesting_limit arena).

Definition PointerReader_imbue (cap_table : CapTableReader) (r : PointerReader) : PointerReader :=
  {| pr_arena := pr_arena r; pr_segment_id := pr_segment_id r; pr_cap_table := cap_table;
     pr_pointer := pr_pointer r; pr_nesting_limit := pr_nesting_limit r |}.

Definition PointerReader_is_null (r : PointerReader) : outcome bool :=
  if pr_pointer r =? 0 then Ok true
  else p ← load_wp m (pr_pointer r); Ok (is_null p).

Definition PointerReader_total_size (r : PointerReader) : ST ReadLimiter MessageSize :=
  if pr_pointer r =? 0 then ret {| word_count := 0; cap_count := 0 |}
  else total_size (nesting_fuel (pr_nesting_limit r)) (pr_arena r) (pr_segment_id r) (pr_pointer r)
         (pr_nesting_limit r).

(** [if self.pointer.is_null() { zero_pointer() } else { self.pointer }] *)
Definition pointer_or_zero (r : PointerReader) : Z :=
  if pr_pointer r =? 0 then zero_pointer else pr_pointer r.

Definition get_struct (r : PointerReader) (default : option Z) : ST ReadLimiter StructReader :=
  read_struct_pointer (pr_arena r) (pr_segment_id r) (pr_cap_table r) (pointer_or_zero r) default
    (pr_nesting_limit r).

Definition get_list (r : PointerReader) (expected_element_size : ElementSize)
    (dflt : option Z) : ST ReadLimiter ListReader :=
  read_list_pointer (pr_arena r) (pr_segment_id r) (pr_cap_table r) (pointer_or_zero r)
    (default 0 dflt) (Some expected_element_size) (pr_nesting_limit r).

Definition get_list_any_size (r : PointerReader) (default_value : Z) :
    ST ReadLimiter ListReader :=
  read_list_pointer (pr_arena r) (pr_segment_id r) (pr_cap_table r) (pointer_or_zero r)
    default_value None (pr_nesting_limit r).

Definition get_text (r : PointerReader) (default : option Z) : ST ReadLimiter ByteSlice :=
  read_text_pointer (pr_arena r) (pr_segment_id r) (pointer_or_zero r) default.
Definition get_data (r : PointerReader) (default : option Z) : ST ReadLimiter ByteSlice :=
  read_data_pointer (pr_arena r) (pr_segment_id r) (pointer_or_zero r) default.
Definition get_capability (r : PointerReader) : ST ReadLimiter ClientHook :=
  read_capability_pointer (pr_cap_table r) (pointer_or_zero r).

Inductive PointerType := PT_Null | PT_Struct | PT_List | PT_Capability.

Definition get_pointer_type (r : PointerReader) : ST ReadLimiter PointerType :=
  null ← lift (PointerReader_is_null r);
  if null : bool then ret PT_Null
  else
    '(_, reff, _) ← follow_fars (pr_arena r) (pr_pointer r) (pr_segment_id r);
    p ← lift (load_wp m reff);
    match kind p with
    | Far => fails UnexpectedFarPointer
    | Struct => ret PT_Struct
    | List => ret PT_List
    | Other => if is_capability p then ret PT_Capability else fails UnknownPointerType
    end.

(** ** StructReader *)

Definition StructReader_imbue (cap_table : CapTableReader) (r : StructReader) : StructReader :=
  {| sr_arena := sr_arena r; sr_cap_table := cap_table; sr_data := sr_data r;
     sr_pointers := sr_pointers r; sr_segment_id := sr_segment_id r;
     sr_data_size := sr_data_size r; sr_pointer_count := sr_pointer_count r;
     sr_nesting_limit := sr_nesting_limit r |}.

Definition get_pointer_section_as_list (r : StructReader) : ListReader :=
  {| lr_arena := sr_arena r; lr_segment_id := sr_segment_id r; lr_cap_table := sr_cap_table r;
     lr_ptr := sr_pointers r; lr_element_count := sr_pointer_count r;
     lr_element_size := Pointer; lr_step := BITS_PER_WORD; lr_struct_data_size := 0;
     lr_struct_pointer_count := 0; lr_nesting_limit := sr_nesting_limit r |}.

Definition get_data_section_as_blob (r : StructReader) : ByteSlice :=
  if sr_data_size r =? 0 then empty_slice
  else {| bs_ptr := sr_data r; bs_len := sr_data_size r / BITS_PER_BYTE |}.

(** [get_data_field::<T>] for a [T] of [n] bytes *)
Definition get_data_field (n : Z) (r : StructReader) (offset : Z) : outcome Z :=
  o ← uadd 64 offset 1;
  bits ← umul 64 o (8 * n);
  if bits <=? sr_data_size r then load m (sr_data r + n * offset) n else Ok 0.

(** Bit [i] of the byte at [a] *)
Definition load_bit (a i : Z) : outcome bool :=
  b ← load m a 1; Ok (negb (Z.land b (Z.shiftl 1 i) =? 0)).

Definition get_bool_field (r : StructReader) (offset : Z) : outcome bool :=
  let boffset := wrap32 offset in
  if boffset <? sr_data_size r
  then load_bit (sr_data r + boffset / BITS_PER_BYTE) (boffset mod BITS_PER_BYTE)
  else Ok false.

Definition get_data_field_mask (n : Z) (r : StructReader) (offset mask : Z) : outcome Z :=
  v ← get_data_field n r offset; Ok (Z.lxor v mask).
Definition get_bool_field_mask (r : StructReader) (offset : Z) (mask : bool) : outcome bool :=
  v ← get_bool_field r offset; Ok (xorb v mask).

Definition get_pointer_field (r : StructReader) (ptr_index : Z) : PointerReader :=
  if ptr_index <? sr_pointer_count r then
    {| pr_arena := sr_arena r; pr_segment_id := sr_segment_id r; pr_cap_table := sr_cap_table r;
       pr_pointer := sr_pointers r + 8 * ptr_index; pr_nesting_limit := sr_nesting_limit r |}
  else PointerReader_new_default.

Definition is_pointer_field_null (r : StructReader) (ptr_index : Z) : outcome bool :=
  PointerReader_is_null (get_pointer_field r ptr_index).

Definition StructReader_total_size (r : StructReader) : ST ReadLimiter MessageSize :=
  words ← lift (round_bits_up_to_words (sr_data_size r));
  w ← lift (uadd 64 words (sr_pointer_count r));
  fold_range (Z.to_nat (sr_pointer_count r)) 0 {| word_count := w; cap_count := 0 |}
    (fun i result =>
      t ← total_size (nesting_fuel (sr_nesting_limit r)) (sr_arena r) (sr_segment_id r)
            (sr_pointers r + 8 * i) (sr_nesting_limit r);
      lift (MessageSize_add result t)).

(** ** ListReader *)

Definition ListReader_imbue (cap_table : CapTableReader) (r : ListReader) : ListReader :=
  {| lr_arena := lr_arena r; lr_cap_table := cap_table; lr_ptr := lr_ptr r;
     lr_segment_id := lr_segment_id r; lr_element_count := lr_element_count r;
     lr_step := lr_step r; lr_struct_data_size := lr_struct_data_size r;
     lr_nesting_limit := lr_nesting_limit r;
     lr_struct_pointer_count := lr_struct_pointer_count r;
     lr_element_size := lr_element_size r |}.

Definition into_raw_bytes (r : ListReader) : outcome ByteSlice :=
  if lr_element_count r =? 0 then Ok empty_slice
  else
    bits ← umul 64 (lr_step r) (lr_element_count r);
    num_bytes ← round_bits_up_to_bytes bits;
    Ok {| bs_ptr := lr_ptr r; bs_len := num_bytes |}.

Definition get_struct_element (r : ListReader) (index : Z) : outcome StructReader :=
  bits ← umul 64 index (lr_step r);
  let index_byte := wrap32 (bits / BITS_PER_BYTE) in
  let struct_data := lr_ptr r + index_byte in
  nesting ← isub32 (lr_nesting_limit r) 1;
  Ok {| sr_arena := lr_arena r; sr_segment_id := lr_segment_id r;
        sr_cap_table := lr_cap_table r; sr_data := struct_data;
        sr_pointers := struct_data + lr_struct_data_size r / BITS_PER_BYTE;
        sr_data_size := lr_struct_data_size r;
        sr_pointer_count := lr_struct_pointer_count r; sr_nesting_limit := nesting |}.

Definition get_pointer_element (r : ListReader) (index : Z) : outcome PointerReader :=
  bits ← umul 64 index (lr_step r);
  offset ← uadd 64 (lr_struct_data_size r / BITS_PER_BYTE) (bits / BITS_PER_BYTE);
  Ok {| pr_arena := lr_arena r; pr_segment_id := lr_segment_id r;
        pr_cap_table := lr_cap_table r; pr_pointer := lr_ptr r + as_i64 offset;
        pr_nesting_limit := lr_nesting_limit r |}.

(** [<T as PrimitiveElement>::get] for a [T] of [n] bytes, and for [bool] *)
Definition primitive_get (n : Z) (r : ListReader) (index : Z) : outcome Z :=
  bits ← umul 64 index (lr_step r);
  let offset := wrap32 (bits / BITS_PER_BYTE) in
  load m (lr_ptr r + offset) n.
Definition bool_get (r : ListReader) (index : Z) : outcome bool :=
  bindex ← umul 64 index (lr_step r);
  load_bit (lr_ptr r + bindex / BITS_PER_BYTE) (bindex mod BITS_PER_BYTE).

(** [PrimitiveElement::element_size] for a [T] of [n] bytes *)
Definition primitive_element_size (n : Z) : outcome ElementSize :=
  match n with
  | 0 => Ok Void | 1 => Ok Byte | 2 => Ok TwoBytes | 4 => Ok FourBytes | 8 => Ok EightBytes
  | _ => Panic
  end.
End readers.
