(* ===== verification/ReadersSafe.v ===== *)
(** * Reading untrusted messages is memory safe

    Over an arena that obeys [ArenaOk], following pointers and reading fields
    and elements never leaves memory, never panics, and charges the read
    limiter for what it looks at.  The invariants [pr_ok], [sr_ok] and [lr_ok]
    of the three readers are established by the functions that make a reader
    and are enough for every access through it. *)

From S2P Require Import Prelude ReadLimiter Segments Mem WirePointer Arena Readers.

(** The bit that [load_bit] tests is that of the byte it loads. *)
Lemma load_bit_testbit m a i b : load m a 1 = Ok b -> 0 <= i -> load_bit m a i = Ok (Z.testbit b i).
Proof.
  intros Hl Hi. unfold load_bit. rewrite Hl. cbn [bind outcome_monad]. f_equal.
  destruct (Z.testbit b i) eqn:Et.
  - destruct (Z.eqb_spec (Z.land b (Z.shiftl 1 i)) 0) as [E|]; [|done].
    assert (Z.testbit (Z.land b (Z.shiftl 1 i)) i = true) as Hx.
    { rewrite Z.land_spec, Et, Z.shiftl_spec, Z.sub_diag by done. done. }
    rewrite E, Z.bits_0 in Hx. done.
  - assert (Z.land b (Z.shiftl 1 i) = 0) as ->; [|done].
    apply Z.bits_inj'. intros j Hj. rewrite Z.land_spec, Z.bits_0, Z.shiftl_spec by done.
    destruct (Z.eq_dec j i) as [->|]; [by rewrite Et|].
    destruct (Z.lt_ge_cases j i); [by rewrite (Z.testbit_neg_r 1), andb_false_r by lia|].
    rewrite (Z.bits_above_log2 1) by (change (Z.log2 1) with 0; lia). apply andb_false_r.
Qed.
Lemma load_bit_same m m' a i : same_at m m' a 1 -> load_bit m' a i = load_bit m a i.
Proof. intros H. unfold load_bit. by rewrite (load_same m m' a 1 H). Qed.

Section safe.
Context (m : mem) (tables : gmap Z CapTable).

Lemma words_ok_sub p n q k : words_ok m p n -> p <= q -> q mod 8 = 0 -> 0 <= k ->
  q + 8 * k <= p + 8 * n -> words_ok m q k.
Proof.
  intros (Hp & Hal & Hv & Ha) Hq Hqa Hk Hle. unfold words_ok, addressable in *.
  repeat split; try lia. by apply (valid_sub m p (8 * n)); [|lia|lia].
Qed.

Lemma words_ok_nth p n i : words_ok m p n -> 0 <= i < n -> words_ok m (p + 8 * i) 1.
Proof.
  intros Hw Hi. apply (words_ok_sub p n); [done|lia| |lia|lia].
  destruct Hw as (_ & Hal & _). zlia.
Qed.

Lemma load_wp_ok p : words_ok m p 1 -> exists w, load_wp m p = Ok w /\ wp_ok w.
Proof.
  intros (Hp & Hal & Hv & Ha). unfold load_wp.
  destruct (load_ok m p 4) as (lo & -> & Hlo); [lia|zlia|by apply (valid_sub m p (8 * 1)); [|lia|lia]|].
  destruct (load_ok m (p + 4) 4) as (hi & -> & Hhi);
    [lia|zlia|by apply (valid_sub m p (8 * 1)); [|lia|lia]|].
  eexists. split; [done|]. split; cbn [offset_and_kind upper32bits]; unfold u32, in_width; lia.
Qed.

Lemma load_wp_wp p Q (E : ErrorKind -> ReadLimiter -> Prop) l : words_ok m p 1 ->
  (forall w, load_wp m p = Ok w -> wp_ok w -> Q w l) -> wp (lift (load_wp m p)) Q E l.
Proof.
  intros Hp HQ. destruct (load_wp_ok p Hp) as (w & Hw & Hok). rewrite Hw. by apply HQ.
Qed.

Context (metered : bool).

(** What an error may have cost. *)
Definition spent (l : ReadLimiter) (_e : ErrorKind) (l' : ReadLimiter) : Prop :=
  exists n, 0 <= n /\ paid metered l l' n.

Lemma spent_refl l e : limiter_ok l -> spent l e l.
Proof. intros H. exists 0. split; [lia|by apply paid_refl]. Qed.
Lemma spent_after l l1 e l2 n : 0 <= n -> paid metered l l1 n -> spent l1 e l2 -> spent l e l2.
Proof.
  intros Hn Hp (k & Hk & Hp'). exists (n + k). split; [lia|by eapply paid_trans].
Qed.

(** A memory location a reader may take for an object's address *)
Definition location_ok (p : Z) : Prop := 0 < p /\ p mod 8 = 0 /\ p < 2 ^ 62 + 2 ^ 34.

Context (ar : ReaderArena) {Har : ArenaOk m metered ar}.

Lemma bounds_check_wp id p n k l (Q : unit -> ReadLimiter -> Prop) E :
  u32 id -> limiter_ok l -> location_ok p -> 0 <= n < 2 ^ 33 ->
  (forall l', words_ok m p n -> paid metered l l' n -> Q tt l') ->
  (forall e, E e l) ->
  wp (bounds_check ar id p n k) Q E l.
Proof.
  intros Hid Hl (Hp & Hal & Hb) Hn HQ HE. unfold bounds_check.
  eapply wp_mono; [apply (contains_interval_law id p n l); try done; lia| |].
  - intros [] l' [Hw Hpaid]. by apply HQ.
  - by intros e l' ->.
Qed.

(** The pair [far_segment_id], [far_position] of a far pointer is a location. *)
Lemma far_location id start len pos : u32 id -> arena_get_segment ar id = Ok (start, len) ->
  0 <= pos < 2 ^ 29 -> location_ok (start + pos * BYTES_PER_WORD).
Proof.
  intros Hid Hg Hpos. pose proof (get_segment_law id Hid) as Hlaw. rewrite Hg in Hlaw.
  destruct Hlaw as (Hs & Ha & Hl & _ & Hb). unfold location_ok, BYTES_PER_WORD.
  split; [lia|]. split; [zlia|lia].
Qed.

Lemma get_segment_wp id Q (E : ErrorKind -> ReadLimiter -> Prop) l : u32 id ->
  (forall start len, arena_get_segment ar id = Ok (start, len) -> Q (start, len) l) ->
  (forall e, E e l) ->
  wp (lift (arena_get_segment ar id)) Q E l.
Proof.
  intros Hid HQ HE. apply wp_lift. pose proof (get_segment_law id Hid) as Hlaw.
  destruct (arena_get_segment ar id) as [[start len]| | | |]; try done; auto.
Qed.

Lemma target_wp ptr id Q (E : ErrorKind -> ReadLimiter -> Prop) l :
  words_ok m ptr 1 -> u32 id ->
  (forall t, location_ok t -> Q t l) -> (forall e, E e l) ->
  wp (lift (target_from_segment m ptr ar id)) Q E l.
Proof.
  intros Hw Hid HQ HE. apply wp_lift. unfold target_from_segment.
  destruct (load_wp_ok ptr Hw) as (w & -> & Hwok). cbn [bind outcome_monad].
  destruct Hw as (Hp & Hal & _ & Ha). pose proof (signed_offset_range w Hwok).
  pose proof (check_offset_law id ptr (1 + signed_offset w) Hid Hal Hp) as Hlaw.
  specialize (Hlaw ltac:(unfold addressable in *; lia) ltac:(lia)).
  destruct (check_offset ar id ptr (1 + signed_offset w)) as [t| | | |]; try done; auto.
  destruct Hlaw as (_ & Ht & Hta & Hm). apply HQ. unfold location_ok, addressable in *.
  repeat split; try done; lia.
Qed.

Lemma follow_fars_safe reff id l :
  words_ok m reff 1 -> u32 id -> limiter_ok l ->
  wp (follow_fars m ar reff id)
     (fun '(ptr, reff', id') l' => location_ok ptr /\ words_ok m reff' 1 /\ u32 id' /\
        exists n, 0 <= n /\ paid metered l l' n) (spent l) l.
Proof.
  intros Hw Hid Hl. unfold follow_fars. wp_step. apply load_wp_wp; [done|]. intros w _ Hok.
  assert (Hdirect : wp (t ← lift (target_from_segment m reff ar id); ret (t, reff, id))
    (fun '(ptr, reff', id') l' => location_ok ptr /\ words_ok m reff' 1 /\ u32 id' /\
        exists n, 0 <= n /\ paid metered l l' n) (spent l) l).
  { wp_step. apply target_wp; [done|done| |by intros; apply spent_refl].
    intros t Ht. apply wp_ret. repeat split; try done; try apply Ht; try apply Hw; try apply Hid.
    exists 0. split; [lia|by apply paid_refl]. }
  destruct (kind w); try exact Hdirect. clear Hdirect.
  assert (Hfid : u32 (far_segment_id w)) by apply Hok.
  pose proof (far_position_range w Hok) as Hpos.
  wp_step. apply get_segment_wp; [done| |by intros; apply spent_refl].
  intros start len Hg. pose proof (far_location _ _ _ _ Hfid Hg Hpos) as Hloc.
  set (pad := start + _) in *. wp_step.
  apply bounds_check_wp; [done|done|done|destruct (is_double_far w); lia| |by intros; apply spent_refl].
  intros l1 Hpad Hpaid. assert (Hl1 : limiter_ok l1) by apply Hpaid.
  set (n := if is_double_far w then 2 else 1) in *.
  assert (Hn : 0 <= n) by (unfold n; destruct (is_double_far w); lia).
  assert (Hend : forall e, spent l e l1).
  { intros e. exists n. by split. }
  destruct (is_double_far w); cbn [negb].
  - wp_step. apply load_wp_wp; [by apply (words_ok_nth pad 2 0) in Hpad; [|lia];
      rewrite Z.mul_0_r, Z.add_0_r in Hpad|].
    intros w' _ Hok'. assert (Hfid' : u32 (WirePointer.far_segment_id w')) by apply Hok'.
    pose proof (far_position_range w' Hok') as Hpos'.
    wp_step. apply get_segment_wp; [done| |done].
    intros start' len' Hg'. apply wp_ret. split; [by eapply far_location|].
    split; [by apply (words_ok_nth pad 2 1) in Hpad; [|lia]|]. split; [done|]. by exists n.
  - wp_step. apply target_wp; [done|done| |done].
    intros t Ht. apply wp_ret. repeat split; try done; try apply Ht; try apply Hpad; try apply Hfid.
    by exists n.
Qed.

(** ** Structs *)

(** A data section: in memory, and aligned for the values it has room for. *)
Definition data_ok (p bits : Z) : Prop :=
  0 <= p < 2 ^ 62 + 2 ^ 35 /\ 0 <= bits < 2 ^ 23 /\ valid m p ((bits + 7) / 8) /\
  (forall n, (n = 1 \/ n = 2 \/ n = 4 \/ n = 8) -> 8 * n <= bits -> p mod n = 0).
Definition pointers_ok (p n : Z) : Prop := 0 <= n < 2 ^ 16 /\ (n = 0 \/ words_ok m p n).

Lemma words_data_ok p n : words_ok m p n -> 0 <= n < 2 ^ 16 -> data_ok p (n * BITS_PER_WORD).
Proof.
  intros (Hp & Hal & Hv & Ha) Hn. unfold data_ok, addressable, BITS_PER_WORD in *.
  split; [lia|]. split; [lia|]. split; [apply (valid_sub m p (8 * n)); [done|lia|zlia]|].
  intros k [->|[->|[->| ->]]] _; zlia.
Qed.
End safe.

(** ** Readers over a memory *)

Section invariants.
Context (m : mem) (metered : bool).

(** A reader that points somewhere has an arena to read it with. *)
Definition arena_for (n : Z) (ar : ReaderArena) (id : Z) : Prop :=
  n = 0 \/ (ArenaOk m metered ar /\ u32 id).

Definition pr_ok (r : PointerReader) : Prop :=
  pr_pointer r = 0 \/
  (words_ok m (pr_pointer r) 1 /\ ArenaOk m metered (pr_arena r) /\ u32 (pr_segment_id r)).

Definition sr_ok (r : StructReader) : Prop :=
  data_ok m (sr_data r) (sr_data_size r) /\
  pointers_ok m (sr_pointers r) (sr_pointer_count r) /\
  arena_for (sr_pointer_count r) (sr_arena r) (sr_segment_id r).

(** The elements of a list: [step] bits each, of which [struct_data_size]
    are data and [struct_pointer_count] words are pointers. *)
Definition shape_ok (r : ListReader) : Prop :=
  let step := lr_step r in
  let data := lr_struct_data_size r in
  (exists d p, 0 <= d < 2 ^ 16 /\ 0 <= p < 2 ^ 16 /\ data = 64 * d /\ step = 64 * (d + p) /\
               lr_struct_pointer_count r = p) \/
  (data = step /\ (step = 1 \/ step = 8 \/ step = 16 \/ step = 32) /\
   lr_struct_pointer_count r = 0).

Definition lr_ok (r : ListReader) : Prop :=
  0 <= lr_element_count r < 2 ^ 30 /\ - 2 ^ 31 < lr_nesting_limit r < 2 ^ 31 /\ shape_ok r /\
  lr_element_count r * lr_step r < 2 ^ 35 /\
  (lr_element_count r = 0 \/
   (words_ok m (lr_ptr r) ((lr_element_count r * lr_step r + 63) / 64) /\
    arena_for (lr_struct_pointer_count r) (lr_arena r) (lr_segment_id r))).

Lemma data_ok_0 : data_ok m 0 0.
Proof. unfold data_ok. split; [lia|]. split; [lia|]. split; [by apply valid_0|]. lia. Qed.

Lemma sr_ok_default : sr_ok StructReader_new_default.
Proof.
  split; [apply data_ok_0|]. split; [split; [cbn; lia|by left]|by left].
Qed.
Lemma pr_ok_default : pr_ok PointerReader_new_default.
Proof. by left. Qed.
Lemma lr_ok_default : lr_ok ListReader_new_default.
Proof.
  split; [cbn; lia|]. split; [cbn; lia|]. split; [left; exists 0, 0; cbn; lia|].
  split; [cbn; lia|by left].
Qed.

(** *** Field access *)

Lemma get_data_field_safe r n o : sr_ok r -> (n = 1 \/ n = 2 \/ n = 4 \/ n = 8) ->
  0 <= o < 2 ^ 32 ->
  exists v, get_data_field m n r o = Ok v /\ 0 <= v < 2 ^ (8 * n) /\
    (if 8 * n * (o + 1) <=? sr_data_size r then load m (sr_data r + n * o) n = Ok v else v = 0).
Proof.
  intros ((Hp & Hb & Hv & Hal) & _) Hn Ho. unfold get_data_field.
  rewrite uadd_ok by lia. cbn [bind outcome_monad]. rewrite umul_ok by nia. cbn [bind outcome_monad].
  replace ((o + 1) * (8 * n)) with (8 * n * (o + 1)) by lia.
  destruct (Z.leb_spec (8 * n * (o + 1)) (sr_data_size r)) as [Hle|].
  - destruct (load_ok m (sr_data r + n * o) n) as (v & Hload & Hr); [lia| | |].
    + rewrite (Z.mul_comm n o), Z_mod_plus_full. apply Hal; [done|nia].
    + apply (valid_sub m (sr_data r) ((sr_data_size r + 7) / 8)); [done|nia|].
      assert (n * o + n <= (sr_data_size r + 7) / 8); [|lia].
      apply Z.div_le_lower_bound; lia.
    + by exists v.
  - exists 0. split; [done|]. split; [|done]. split; [lia|]. apply Z.pow_pos_nonneg; lia.
Qed.

Lemma load_bit_safe a i : valid m a 1 -> exists b, load_bit m a i = Ok b.
Proof.
  intros Hv. unfold load_bit. destruct (load_ok m a 1) as (v & -> & _); [lia|zlia|done|]. by eexists.
Qed.

Lemma get_bool_field_safe r o : sr_ok r -> exists b, get_bool_field m r o = Ok b.
Proof.
  intros ((Hp & Hb & Hv & Hal) & _). unfold get_bool_field. cbv zeta.
  pose proof (wrap32_range o). destruct (Z.ltb_spec (wrap32 o) (sr_data_size r)); [|by eexists].
  apply load_bit_safe. unfold BITS_PER_BYTE.
  apply (valid_sub m (sr_data r) ((sr_data_size r + 7) / 8)); [done|zlia|zlia].
Qed.

Lemma get_pointer_field_safe r i : sr_ok r -> 0 <= i -> pr_ok (get_pointer_field r i).
Proof.
  intros (_ & (Hc & Hw) & Har) Hi. unfold get_pointer_field.
  destruct (Z.ltb_spec i (sr_pointer_count r)); [|by left].
  destruct Hw as [|Hw]; [lia|]. destruct Har as [|[Har Hid]]; [lia|].
  right. cbn [pr_pointer pr_arena pr_segment_id]. split; [by apply (words_ok_nth m _ _ i Hw)|done].
Qed.

(** *** Elements *)

Lemma step_range r : shape_ok r -> 0 <= lr_step r < 2 ^ 23.
Proof. intros [(d & p & ? & ? & ? & -> & ?)|(? & ? & ?)]; lia. Qed.

Lemma get_struct_element_safe r i : lr_ok r -> 0 <= i < lr_element_count r ->
  exists s, get_struct_element r i = Ok s /\ sr_ok s.
Proof.
  intros (Hc & Hnest & Hsh & Hsz & Helts) Hi. pose proof (step_range r Hsh) as Hstep.
  destruct Helts as [|(Hw & Har)]; [lia|]. pose proof Hw as (Hp & Hal & Hv & Hb).
  unfold get_struct_element. rewrite umul_ok by nia. cbn [bind outcome_monad]. unfold isub32.
  destruct (Z.leb_spec (- 2 ^ 31) (lr_nesting_limit r - 1)),
    (Z.ltb_spec (lr_nesting_limit r - 1) (2 ^ 31)); try lia.
  cbn [andb bind outcome_monad]. eexists. split; [done|].
  unfold BITS_PER_BYTE, addressable in *.
  assert (Hbits : (i + 1) * lr_step r <= lr_element_count r * lr_step r) by nia.
  assert (Hbits0 : 0 <= i * lr_step r) by nia.
  replace ((i + 1) * lr_step r) with (i * lr_step r + lr_step r) in Hbits by lia.
  set (bits := i * lr_step r) in *. set (total := lr_element_count r * lr_step r) in *.
  rewrite wrap32_small by zlia.
  unfold sr_ok; cbn [sr_data sr_data_size sr_pointers sr_pointer_count sr_arena sr_segment_id].
  destruct Hsh as [(d & p & Hd & Hpc & Hds & Hst & Hspc)|(Hds & Hst & Hspc)].
  - assert (Hk : bits = 64 * (i * (d + p))) by (unfold bits; rewrite Hst; lia).
    set (k := i * (d + p)) in *. clearbody bits total k.
    rewrite Hds, Hspc in *. replace (bits / 8) with (8 * k) by zlia.
    replace (64 * d / 8) with (8 * d) by zlia.
    split; [|split; [split; [lia|]|done]].
    + replace (64 * d) with (d * BITS_PER_WORD) by (unfold BITS_PER_WORD; lia).
      apply words_data_ok; [|done]. eapply (words_ok_sub m _ _ _ d Hw); zlia.
    + destruct (Z.eq_dec p 0); [by left|right]. eapply (words_ok_sub m _ _ _ p Hw); zlia.
  - rewrite Hspc. split; [|split; [split; [lia|by left]|by left]]. rewrite Hds.
    assert (Hm : bits mod lr_step r = 0) by (apply Z.mod_mul; lia).
    clearbody bits total.
    split; [zlia|]. split; [lia|]. split.
    + eapply (valid_sub m _ _ _ _ Hv); [zlia|].
      destruct Hst as [E|[E|[E|E]]]; rewrite E in *; zlia.
    + destruct Hst as [E|[E|[E|E]]]; rewrite E in *; intros n [->|[->|[->| ->]]] Hn; try lia; zlia.
Qed.

Lemma get_pointer_element_safe r i : lr_ok r -> 0 <= i < lr_element_count r ->
  0 < lr_struct_pointer_count r ->
  exists p, get_pointer_element r i = Ok p /\ pr_ok p.
Proof.
  intros (Hc & Hnest & Hsh & Hsz & Helts) Hi Hpos. pose proof (step_range r Hsh) as Hstep.
  destruct Helts as [|(Hw & Har)]; [lia|]. destruct Har as [|[Har Hid]]; [lia|].
  destruct Hsh as [(d & p & Hd & Hpc & Hds & Hst & Hspc)|(_ & _ & Hspc)]; [|lia].
  unfold get_pointer_element. rewrite umul_ok by nia. cbn [bind outcome_monad].
  unfold BITS_PER_BYTE. rewrite Hds, Hst in *.
  replace (i * (64 * (d + p)) / 8) with (8 * (i * (d + p))) by zlia.
  replace (64 * d / 8) with (8 * d) by zlia.
  assert (Hk : i * (d + p) + (d + p) <= lr_element_count r * (d + p)) by nia.
  assert (Hk0 : 0 <= i * (d + p)) by nia.
  replace (lr_element_count r * (64 * (d + p))) with (64 * (lr_element_count r * (d + p))) in * by lia.
  set (k := i * (d + p)) in *. set (t := lr_element_count r * (d + p)) in *. clearbody k t.
  rewrite uadd_ok by lia. cbn [bind outcome_monad]. eexists. split; [done|]. right.
  cbn [pr_pointer pr_arena pr_segment_id]. split; [|done].
  unfold as_i64. destruct (Z.ltb_spec (8 * d + 8 * k) (2 ^ 63)); [|lia].
  pose proof Hw as (Hp & Hal & Hv & Hb). eapply (words_ok_sub m _ _ _ 1 Hw); zlia.
Qed.

(** A list whose elements hold a value of [n] bytes. *)
Lemma primitive_get_safe r n i : lr_ok r -> 0 <= i < lr_element_count r ->
  (n = 1 \/ n = 2 \/ n = 4 \/ n = 8) -> 8 * n <= lr_struct_data_size r ->
  exists v, primitive_get m n r i = Ok v /\ 0 <= v < 2 ^ (8 * n).
Proof.
  intros Hr Hi Hn Hle. destruct (get_struct_element_safe r i Hr Hi) as (s & Hs & Hok & _).
  destruct Hr as (Hc & _ & Hsh & Hsz & _). pose proof (step_range r Hsh).
  unfold get_struct_element in Hs. unfold primitive_get. rewrite umul_ok in * by nia.
  cbn [bind outcome_monad] in *. apply outcome_bind_ok in Hs as (k & _ & [= <-]).
  destruct Hok as (Hp & Hb & Hv & Hal). cbn [sr_data sr_data_size] in *.
  apply load_ok; [lia|by apply Hal|]. eapply (valid_sub m _ _ _ _ Hv); [lia|]. zlia.
Qed.

Lemma bool_get_safe r i : lr_ok r -> 0 <= i < lr_element_count r -> 0 < lr_step r ->
  exists b, bool_get m r i = Ok b.
Proof.
  intros (Hc & _ & Hsh & Hsz & Helts) Hi Hpos. pose proof (step_range r Hsh).
  destruct Helts as [|((Hp & Hal & Hv & Hb) & _)]; [lia|].
  unfold bool_get. rewrite umul_ok by nia. cbn [bind outcome_monad]. apply load_bit_safe.
  unfold BITS_PER_BYTE. assert (i * lr_step r + 1 <= lr_element_count r * lr_step r) by nia.
  assert (0 <= i * lr_step r) by nia.
  set (bits := i * lr_step r) in *. set (total := lr_element_count r * lr_step r) in *.
  clearbody bits total. eapply (valid_sub m _ _ _ _ Hv); zlia.
Qed.
End invariants.

(** ** Following pointers *)

Lemma struct_word_size_range w : 0 <= struct_word_size w < 2 ^ 17.
Proof.
  unfold struct_word_size. pose proof (struct_data_size_range w).
  pose proof (struct_ptr_count_range w). lia.
Qed.

Lemma round_bits_ok n : 0 <= n < 2 ^ 37 -> round_bits_up_to_words n = Ok ((n + 63) / 64).
Proof.
  intros Hn. unfold round_bits_up_to_words, BITS_PER_WORD. rewrite uadd_ok by lia.
  cbn [bind outcome_monad]. by rewrite wrap32_small by zlia.
Qed.
Lemma round_bytes_ok n : 0 <= n < 2 ^ 31 -> round_bytes_up_to_words n = Ok ((n + 7) / 8).
Proof. intros Hn. unfold round_bytes_up_to_words. by rewrite uadd_ok by lia. Qed.

Section pointers.
Context (m : mem) (metered : bool) (ar : ReaderArena) {Har : ArenaOk m metered ar}.

(** The pointer that describes an object, and where the object is. *)
Lemma follow_then {A} (k : Z * Z * Z -> ST ReadLimiter A) reff id l Q :
  words_ok m reff 1 -> u32 id -> limiter_ok l ->
  (forall ptr reff' id' l' w n, location_ok ptr -> load_wp m reff' = Ok w -> wp_ok w -> u32 id' ->
     0 <= n -> paid metered l l' n ->
     wp (k (ptr, reff', id')) (fun a l'' => forall n, 0 <= n -> paid metered l l' n -> Q a l'')
        (spent metered l') l') ->
  wp (bind (follow_fars m ar reff id) k) Q (spent metered l) l.
Proof.
  intros Hw Hid Hl Hk. wp_step.
  eapply wp_mono; [apply (follow_fars_safe m metered ar); done|cbn beta|done].
  intros [[ptr reff'] id'] l' (Hloc & Hw' & Hid' & n & Hn & Hpaid).
  destruct (load_wp_ok m reff' Hw') as (w & Hload & Hok).
  eapply wp_mono; [by eapply Hk|cbn beta|].
  - intros a l'' HQ. by eapply HQ.
  - intros e l'' He. by eapply spent_after.
Qed.

Lemma read_struct_pointer_from_safe id caps reff nesting l :
  words_ok m reff 1 -> u32 id -> limiter_ok l -> nesting < 2 ^ 31 ->
  wp (read_struct_pointer_from m ar id caps reff nesting)
     (fun r l' => sr_ok m metered r /\ sr_cap_table r = caps /\ sr_nesting_limit r = nesting - 1 /\
        0 <= sr_nesting_limit r /\
        exists n, sr_data_size r / 64 + sr_pointer_count r <= n /\ paid metered l l' n)
     (spent metered l) l.
Proof.
  intros Hw Hid Hl Hnest. unfold read_struct_pointer_from.
  destruct (Z.leb_spec nesting 0); [by apply spent_refl|].
  apply follow_then; [done|done|done|].
  intros ptr reff' id' l1 w n1 Hloc Hload Hok Hid' Hn1 Hpaid1. wp_step. rewrite Hload. apply wp_lift.
  destruct (bool_decide_reflect (kind w = Struct)); [|by apply spent_refl, Hpaid1].
  cbn [negb]. pose proof (struct_word_size_range w).
  wp_step. apply (bounds_check_wp m metered ar); [done|apply Hpaid1|done|lia| |by intros; apply spent_refl, Hpaid1].
  intros l2 Hwords Hpaid2. apply wp_ret. intros n Hn Hpaid.
  pose proof (struct_data_size_range w). pose proof (struct_ptr_count_range w).
  unfold struct_word_size in *.
  cbn [sr_cap_table sr_nesting_limit sr_data_size sr_pointer_count].
  split; [|split; [done|split; [done|split; [lia|]]]].
  - unfold sr_ok; cbn [sr_data sr_data_size sr_pointers sr_pointer_count sr_arena sr_segment_id].
    split; [apply words_data_ok; [|done]|split; [split; [done|]|by right]].
    + eapply (words_ok_sub m _ _ _ _ Hwords); [lia|apply Hwords|lia|lia].
    + right. destruct Hwords as (? & ? & ?) eqn:E. clear E.
      eapply (words_ok_sub m _ _ _ _ Hwords); unfold BYTES_PER_WORD; [lia|zlia|lia|lia].
  - exists (n + (struct_data_size w + struct_ptr_count w)). split; [unfold BITS_PER_WORD; zlia|].
    by eapply paid_trans.
Qed.

(** What a successful [read_list_pointer] says about the expected size. *)
Definition fits (expected : option ElementSize) (r : ListReader) : Prop :=
  match expected with
  | None => True
  | Some e => data_bits_per_element e <= lr_struct_data_size r /\
              pointers_per_element e <= lr_struct_pointer_count r /\
              (e <> Bit -> lr_element_size r <> Bit)
  end.

Lemma check_struct_list_fits e d p : 0 <= d -> 0 <= p -> check_struct_list_size e d p = Ok tt ->
  match e with
  | None => True
  | Some e => data_bits_per_element e <= 64 * d /\ pointers_per_element e <= p
  end.
Proof.
  intros Hd Hp. destruct e as [[]|]; simpl; try done; try lia; case_bool; try done; lia.
Qed.

Lemma check_list_fits e es d p : check_list_size e es d p = Ok tt ->
  match e with
  | None => True
  | Some e => data_bits_per_element e <= d /\ pointers_per_element e <= p /\
              (e <> Bit -> es <> Bit)
  end.
Proof.
  destruct e as [e|]; [|done]. unfold check_list_size.
  destruct (bool_decide_reflect (es = Bit)), (bool_decide_reflect (e = Bit)); cbn [andb negb]; try done;
    destruct (Z.ltb_spec d (data_bits_per_element e)), (Z.ltb_spec p (pointers_per_element e));
    cbn [orb]; try done; intros _; repeat split; try done; lia.
Qed.

Lemma check_benign_struct e d p :
  check_struct_list_size e d p = Ok tt \/ exists err, check_struct_list_size e d p = Err err.
Proof. destruct e as [[]|]; simpl; eauto; case_match; eauto. Qed.
Lemma check_benign e es d p :
  check_list_size e es d p = Ok tt \/ exists err, check_list_size e es d p = Err err.
Proof. unfold check_list_size. destruct e; eauto. repeat case_match; eauto. Qed.

Lemma optional_amplified (b : bool) n l (Q : unit -> ReadLimiter -> Prop) :
  limiter_ok l -> 0 <= n < 2 ^ 32 ->
  (forall l' k, 0 <= k -> paid metered l l' k -> Q tt l') ->
  wp (if b then amplified_read ar n else ret tt) Q (spent metered l) l.
Proof.
  intros Hl Hn HQ. destruct b.
  - eapply wp_mono; [apply (amplified_read_law n l Hl Hn)|cbn beta|cbn beta].
    + intros [] l' Hp. apply (HQ l' n); [lia|done].
    + intros e l' ->. by apply spent_refl.
  - apply wp_ret. apply (HQ l 0); [lia|by apply paid_refl].
Qed.

Definition list_post (caps nesting : Z) (expected : option ElementSize) (l : ReadLimiter)
    (r : ListReader) (l' : ReadLimiter) : Prop :=
  lr_ok m metered r /\ lr_cap_table r = caps /\ lr_nesting_limit r = nesting - 1 /\
  0 <= lr_nesting_limit r /\ fits expected r /\ exists n, 0 <= n /\ paid metered l l' n.

Lemma list_post_after caps nesting expected l l1 r l2 n : 0 <= n -> paid metered l l1 n ->
  list_post caps nesting expected l1 r l2 -> list_post caps nesting expected l r l2.
Proof.
  intros Hn Hp (H1 & H2 & H3 & H4 & H5 & k & Hk & Hp'). repeat split; try done; try apply H1.
  exists (n + k). split; [lia|by eapply paid_trans].
Qed.

Lemma read_struct_list_safe id caps ptr w expected nesting l :
  location_ok ptr -> wp_ok w -> u32 id -> limiter_ok l -> 0 < nesting < 2 ^ 31 ->
  wp (read_struct_list m ar id caps ptr w expected nesting)
     (list_post caps nesting expected l) (spent metered l) l.
Proof.
  intros Hloc Hok Hid Hl Hnest. unfold read_struct_list, list_inline_composite_word_count.
  pose proof (list_element_count_range w Hok) as Hcount.
  wp_step. rewrite uadd_ok by lia. apply wp_lift. unfold BYTES_PER_WORD. rewrite Z.add_simpl_r. wp_step.
  apply (bounds_check_wp m metered ar); [done|done|done|lia| |by intros; apply spent_refl].
  intros l2 Hwords Hpaid2. assert (Hl2 : limiter_ok l2) by apply Hpaid2.
  assert (Hspent : forall e, spent metered l e l2).
  { intros e. exists (list_element_count w + 1). split; [lia|done]. }
  wp_step. apply load_wp_wp.
  { pose proof (words_ok_nth m _ _ 0 Hwords ltac:(lia)) as H0.
    by rewrite Z.mul_0_r, Z.add_0_r in H0. }
  intros tag _ Htag. destruct (bool_decide_reflect (kind tag = Struct)); [|apply Hspent]. cbn [negb]. cbv zeta.

  pose proof (element_count_range tag Htag) as Hsize. pose proof (struct_word_size_range tag) as Hwpe.
  pose proof (struct_data_size_range tag) as Hd. pose proof (struct_ptr_count_range tag) as Hpc.
  wp_step. rewrite umul_ok by nia. apply wp_lift.
  destruct (Z.ltb_spec (list_element_count w)
    (inline_composite_list_element_count tag * struct_word_size tag)) as [|Hfit]; [apply Hspent|].
  wp_step. eapply wp_mono; [apply (optional_amplified _ _ l2 (fun _ l' => exists k, 0 <= k /\ paid metered l2 l' k))|cbn beta|cbn beta].
  { done. } { lia. } { intros l' k Hk Hp. by exists k. }
  2: { intros err l' He. eapply spent_after; [|exact Hpaid2|exact He]. lia. }
  intros [] l3 (k3 & Hk3 & Hpaid3).
  assert (Hpaid : paid metered l l3 (list_element_count w + 1 + k3)) by (by eapply paid_trans).
  wp_step. apply wp_lift.
  destruct (check_benign_struct expected (struct_data_size tag) (struct_ptr_count tag)) as [Ec|[err Ec]];
    rewrite Ec; [|exists (list_element_count w + 1 + k3); split; [lia|done]].
  apply check_struct_list_fits in Ec; [|lia|lia].
  wp_step. unfold BITS_PER_WORD. rewrite umul_ok by lia. apply wp_lift. apply wp_ret.
  unfold list_post, lr_ok, fits; cbn. split; [|split; [done|split; [done|split; [lia|split]]]].
  - split; [lia|]. split; [lia|]. split.
    { left. exists (struct_data_size tag), (struct_ptr_count tag). unfold struct_word_size. cbn. lia. }
    split; [lia|]. right. split; [|by right].
    set (t := inline_composite_list_element_count tag) in *.
    replace (t * (struct_word_size tag * 64)) with (t * struct_word_size tag * 64) by lia.
    set (k := t * struct_word_size tag) in *.
    assert (0 <= k) by (unfold k; nia). clearbody k.
    replace ((k * 64 + 63) / 64) with k by zlia.
    destruct Hloc as (? & ? & ?). eapply (words_ok_sub m _ _ _ _ Hwords); [lia|zlia|lia|lia].
  - destruct expected as [e'|]; [|done]. destruct Ec. split; [lia|]. split; [lia|done].
  - exists (list_element_count w + 1 + k3). split; [lia|done].
Qed.

(** The three kinds of non-composite element. *)
Lemma plain_shape es : es <> InlineComposite ->
  let step := data_bits_per_element es + pointers_per_element es * BITS_PER_WORD in
  0 <= step <= 64 /\
  ((exists d p, 0 <= d < 2 ^ 16 /\ 0 <= p < 2 ^ 16 /\ data_bits_per_element es = 64 * d /\
      step = 64 * (d + p) /\ pointers_per_element es = p) \/
   (data_bits_per_element es = step /\ (step = 1 \/ step = 8 \/ step = 16 \/ step = 32) /\
    pointers_per_element es = 0)).
Proof.
  unfold BITS_PER_WORD. intros H. destruct es; simpl; try done; (split; [lia|]);
    first [by right; lia | by left; exists 0, 0 | by left; exists 1, 0 | by left; exists 0, 1].
Qed.

Lemma read_plain_list_safe id caps ptr w expected nesting l :
  location_ok ptr -> wp_ok w -> u32 id -> limiter_ok l -> 0 < nesting < 2 ^ 31 ->
  list_element_size w <> InlineComposite ->
  wp (read_plain_list ar id caps ptr w expected nesting)
     (list_post caps nesting expected l) (spent metered l) l.
Proof.
  intros Hloc Hok Hid Hl Hnest Hes. unfold read_plain_list. cbv zeta.
  pose proof (list_element_count_range w Hok) as Hcount.
  destruct (plain_shape _ Hes) as [Hstep Hshape]. cbv zeta in Hstep, Hshape.
  set (step := data_bits_per_element _ + _) in *. set (count := list_element_count w) in *.
  wp_step. rewrite umul_ok by nia. apply wp_lift. wp_step. rewrite round_bits_ok by nia. apply wp_lift.
  set (wc := (count * step + 63) / 64).
  assert (Hwc : 0 <= wc < 2 ^ 33) by (unfold wc; assert (0 <= count * step < 2 ^ 36) by nia; zlia).
  wp_step. apply (bounds_check_wp m metered ar); [done|done|done|lia| |by intros; apply spent_refl].
  intros l2 Hwords Hpaid2. assert (Hl2 : limiter_ok l2) by apply Hpaid2.
  wp_step. eapply wp_mono; [apply (optional_amplified _ _ l2 (fun _ l' => exists k, 0 <= k /\ paid metered l2 l' k))|cbn beta|cbn beta].
  { done. } { lia. } { intros l' k Hk Hp. by exists k. }
  2: { intros err l' He. eapply spent_after; [|exact Hpaid2|exact He]. lia. }
  intros [] l3 (k3 & Hk3 & Hpaid3).
  assert (Hpaid : paid metered l l3 (wc + k3)) by (by eapply paid_trans).
  wp_step. apply wp_lift.
  destruct (check_benign expected (list_element_size w) (data_bits_per_element (list_element_size w))
    (pointers_per_element (list_element_size w))) as [Ec|[err Ec]];
    rewrite Ec; [|exists (wc + k3); split; [lia|done]].
  apply check_list_fits in Ec. apply wp_ret.
  unfold list_post, lr_ok, fits; cbn. split; [|split; [done|split; [done|split; [lia|split]]]].
  - split; [lia|]. split; [lia|]. split; [exact Hshape|]. split; [nia|]. right. split; [done|by right].
  - destruct expected as [e'|]; [|done]. exact Ec.
  - exists (wc + k3). split; [lia|done].
Qed.

Lemma read_list_pointer_from_safe id caps reff expected nesting l :
  words_ok m reff 1 -> u32 id -> limiter_ok l -> nesting < 2 ^ 31 ->
  wp (read_list_pointer_from m ar id caps reff expected nesting)
     (list_post caps nesting expected l) (spent metered l) l.
Proof.
  intros Hw Hid Hl Hnest. unfold read_list_pointer_from.
  destruct (Z.leb_spec nesting 0); [by apply spent_refl|].
  apply follow_then; [done|done|done|].
  intros ptr reff' id' l1 w n1 Hloc Hload Hok Hid' Hn1 Hpaid1. wp_step. rewrite Hload. apply wp_lift.
  assert (Hl1 : limiter_ok l1) by apply Hpaid1.
  destruct (bool_decide_reflect (kind w = List)); [|by apply spent_refl]. cbn [negb].
  assert (Hmono : forall c, wp c (list_post caps nesting expected l1) (spent metered l1) l1 ->
    wp c (fun a l'' => forall n, 0 <= n -> paid metered l l1 n -> list_post caps nesting expected l a l'')
      (spent metered l1) l1).
  { intros c Hc. eapply wp_mono; [exact Hc| |done].
    intros r l'' Hr n Hn Hp. by eapply list_post_after. }
  destruct (bool_decide_reflect (list_element_size w = InlineComposite)); apply Hmono.
  - by apply read_struct_list_safe.
  - by apply read_plain_list_safe.
Qed.
End pointers.

(** ** PointerReader *)

(** The static [ZERO] is a null pointer. *)
Definition zero_ok (m : mem) : Prop :=
  words_ok m zero_pointer 1 /\ load_wp m zero_pointer = Ok {| offset_and_kind := 0; upper32bits := 0 |}.

(** Text and data: bytes in memory *)
Definition bytes_ok (m : mem) (s : ByteSlice) : Prop :=
  0 <= bs_len s < 2 ^ 29 /\ (bs_len s = 0 \/ valid m (bs_ptr s) (bs_len s)).

(** Text ends with a NUL byte, unless a null pointer was read. *)
Definition text_ok (m : mem) (s : ByteSlice) : Prop :=
  bytes_ok m s /\ (s = empty_slice \/ load m (bs_ptr s + bs_len s) 1 = Ok 0).

Section pointer_reader.
Context (m : mem) (metered : bool).

Lemma empty_slice_ok : bytes_ok m empty_slice.
Proof. split; [cbn; lia|by left]. Qed.

Section from.
Context (ar : ReaderArena) {Har : ArenaOk m metered ar}.

Lemma read_data_pointer_from_safe id reff l :
  words_ok m reff 1 -> u32 id -> limiter_ok l ->
  wp (read_data_pointer_from m ar id reff) (fun s l' => bytes_ok m s /\ limiter_ok l') (spent metered l) l.
Proof.
  intros Hw Hid Hl. unfold read_data_pointer_from. apply (follow_then m metered ar); [done|done|done|].
  intros ptr reff' id' l1 w n1 Hloc Hload Hok Hid' Hn1 Hpaid1. wp_step. rewrite Hload. apply wp_lift.
  assert (Hl1 : limiter_ok l1) by apply Hpaid1. cbv zeta.
  pose proof (list_element_count_range w Hok).
  destruct (bool_decide_reflect (kind w = List)); [|by apply spent_refl]. cbn [negb].
  destruct (bool_decide_reflect (list_element_size w = Byte)); [|by apply spent_refl]. cbn [negb].
  wp_step. rewrite round_bytes_ok by lia. apply wp_lift. wp_step.
  apply (bounds_check_wp m metered ar); [done|done|done|zlia| |by intros; apply spent_refl].
  intros l2 (_ & _ & Hv & _) Hpaid2. apply wp_ret. intros n Hn Hp. split; [|apply Hpaid2].
  split; cbn; [lia|]. right. eapply valid_sub; [exact Hv|lia|zlia].
Qed.

(** Text is followed by its NUL. *)
Lemma read_text_pointer_from_safe id reff l :
  words_ok m reff 1 -> u32 id -> limiter_ok l ->
  wp (read_text_pointer_from m ar id reff)
     (fun s l' => (bytes_ok m s /\ load m (bs_ptr s + bs_len s) 1 = Ok 0) /\ limiter_ok l') (spent metered l) l.
Proof.
  intros Hw Hid Hl. unfold read_text_pointer_from. apply (follow_then m metered ar); [done|done|done|].
  intros ptr reff' id' l1 w n1 Hloc Hload Hok Hid' Hn1 Hpaid1. wp_step. rewrite Hload. apply wp_lift.
  assert (Hl1 : limiter_ok l1) by apply Hpaid1. cbv zeta.
  pose proof (list_element_count_range w Hok). set (size := list_element_count w) in *.
  destruct (bool_decide_reflect (kind w = List)); [|by apply spent_refl]. cbn [negb].
  destruct (bool_decide_reflect (list_element_size w = Byte)); [|by apply spent_refl]. cbn [negb].
  wp_step. rewrite round_bytes_ok by lia. apply wp_lift. wp_step.
  apply (bounds_check_wp m metered ar); [done|done|done|zlia| |by intros; apply spent_refl].
  intros l2 (_ & _ & Hv & _) Hpaid2.
  assert (Hsp : forall e, spent metered l1 e l2).
  { intros err. exists ((size + 7) / 8). split; [zlia|done]. }
  destruct (Z.eqb_spec size 0); [apply Hsp|].
  wp_step. destruct (load_ok m (ptr + (size - 1)) 1) as (v & Hload1 & _);
    [lia|zlia|eapply valid_sub; [exact Hv|lia|zlia]|].
  rewrite Hload1. apply wp_lift. destruct (Z.eqb_spec v 0) as [->|]; [|apply Hsp]. cbn [negb].
  apply wp_ret. intros n9 Hn9 Hp9. split; [|apply Hpaid2]. split; [|exact Hload1].
  split; cbn; [lia|]. right. eapply valid_sub; [exact Hv|lia|zlia].
Qed.
End from.

Context (Hzero : zero_ok m).

(** What [pointer_or_zero] reads: a null pointer, or a pointer with an
    arena. *)
Lemma pointer_or_zero_ok r : pr_ok m metered r ->
  exists w, load_wp m (pointer_or_zero r) = Ok w /\ wp_ok w /\
    (is_null w = false -> words_ok m (pointer_or_zero r) 1 /\
       ArenaOk m metered (pr_arena r) /\ u32 (pr_segment_id r)).
Proof.
  intros Hr. destruct Hzero as [Hz Hl]. unfold pointer_or_zero.
  destruct (Z.eqb_spec (pr_pointer r) 0) as [|Hne].
  - eexists. split; [exact Hl|]. split; [split; cbn; unfold u32, in_width; lia|done].
  - destruct Hr as [|(Hw & Har & Hid)]; [done|].
    destruct (load_wp_ok m _ Hw) as (w & Hload & Hok). by exists w.
Qed.

Lemma get_struct_safe r l : pr_ok m metered r -> limiter_ok l -> pr_nesting_limit r < 2 ^ 31 ->
  wp (get_struct m r None) (fun s l' => (sr_ok m metered s /\ 0 <= sr_nesting_limit s < 2 ^ 31) /\ limiter_ok l')
     (spent metered l) l.
Proof.
  intros Hr Hl Hn. unfold get_struct, read_struct_pointer. wp_step.
  destruct (pointer_or_zero_ok r Hr) as (w & -> & Hok & Hptr). apply wp_lift.
  destruct (is_null w).
  - apply wp_ret. split; [|done]. split; [apply sr_ok_default|cbn; lia].
  - destruct (Hptr eq_refl) as (Hw & Har & Hid).
    eapply wp_mono; [by apply (read_struct_pointer_from_safe m metered _)|cbn beta|done].
    intros s l' (Hs & _ & Hnest & Hnn & n & _ & Hp & _). split; [|done]. split; [done|]. lia.
Qed.

Lemma get_list_safe r e l : pr_ok m metered r -> limiter_ok l -> pr_nesting_limit r < 2 ^ 31 ->
  wp (get_list m r e None)
     (fun s l' => (lr_ok m metered s /\ (lr_element_count s = 0 \/ fits (Some e) s)) /\ limiter_ok l')
     (spent metered l) l.
Proof.
  intros Hr Hl Hn. unfold get_list, read_list_pointer. wp_step.
  destruct (pointer_or_zero_ok r Hr) as (w & -> & Hok & Hptr). apply wp_lift.
  destruct (is_null w).
  - apply wp_ret. split; [|done]. split; [apply lr_ok_default|by left].
  - destruct (Hptr eq_refl) as (Hw & Har & Hid).
    eapply wp_mono; [by apply (read_list_pointer_from_safe m metered _)|cbn beta|done].
    intros s l' (Hs & _ & _ & _ & Hf & n & _ & Hp & _). split; [|done]. split; [done|by right].
Qed.

Lemma get_text_safe r l : pr_ok m metered r -> limiter_ok l ->
  wp (get_text m r None) (fun s l' => text_ok m s /\ limiter_ok l') (spent metered l) l.
Proof.
  intros Hr Hl. unfold get_text, read_text_pointer. wp_step.
  destruct (pointer_or_zero_ok r Hr) as (w & -> & Hok & Hptr). apply wp_lift.
  destruct (is_null w); [apply wp_ret; split; [split; [apply empty_slice_ok|by left]|done]|].
  destruct (Hptr eq_refl) as (Hw & Har & Hid).
  eapply wp_mono; [by apply (read_text_pointer_from_safe _)|cbn beta|done]. by intros s l' [[? ?] ?]; split; [split; [|right]|].
Qed.

Lemma get_data_safe r l : pr_ok m metered r -> limiter_ok l ->
  wp (get_data m r None) (fun s l' => bytes_ok m s /\ limiter_ok l') (spent metered l) l.
Proof.
  intros Hr Hl. unfold get_data, read_data_pointer. wp_step.
  destruct (pointer_or_zero_ok r Hr) as (w & -> & Hok & Hptr). apply wp_lift.
  destruct (is_null w); [apply wp_ret; split; [apply empty_slice_ok|done]|].
  destruct (Hptr eq_refl) as (Hw & Har & Hid).
  by apply (read_data_pointer_from_safe _).
Qed.

Lemma get_pointer_type_safe r l : pr_ok m metered r -> limiter_ok l ->
  wp (get_pointer_type m r) (fun _ _ => True) (spent metered l) l.
Proof.
  intros Hr Hl. unfold get_pointer_type, PointerReader_is_null. wp_step.
  destruct (Z.eqb_spec (pr_pointer r) 0) as [|Hne]; [by apply wp_lift, wp_ret|].
  destruct Hr as [|(Hw & Har & Hid)]; [done|].
  destruct (load_wp_ok m _ Hw) as (w & -> & Hok). apply wp_lift. cbn [bind outcome_monad].
  destruct (is_null w); [by apply wp_ret|].
  apply (follow_then m metered _); [done|done|done|].
  intros ptr reff' id' l1 w' n1 Hloc Hload Hok' Hid' Hn1 Hpaid1. wp_step. rewrite Hload. apply wp_lift.
  assert (Hl1 : limiter_ok l1) by apply Hpaid1.
  destruct (kind w'); try (by apply wp_ret); try (by apply spent_refl).
  destruct (is_capability w'); [by apply wp_ret|by apply spent_refl].
Qed.

(** A capability comes from the table, or there is an error. *)
Lemma get_capability_safe tables r l : pr_ok m metered r ->
  (pr_cap_table r = 0 \/ is_Some (tables !! pr_cap_table r)) ->
  wp (get_capability m tables r)
     (fun h l' => l' = l /\ exists hooks i, tables !! pr_cap_table r = Some hooks /\
                              hooks !! i = Some (Some h))
     (fun _ l' => l' = l) l.
Proof.
  intros Hr Ht. unfold get_capability, read_capability_pointer. wp_step.
  destruct (pointer_or_zero_ok r Hr) as (w & -> & Hok & Hptr). apply wp_lift.
  destruct (is_null w); [done|]. destruct (is_capability w); [|done]. cbn [negb].
  wp_step. apply wp_lift. unfold extract_cap.
  destruct (Z.eqb_spec (pr_cap_table r) 0); [done|].
  destruct Ht as [|[hooks Hh]]; [done|]. destruct (tables !! pr_cap_table r) as [hooks'|]; [|done].
  injection Hh as ->.
  destruct (Z.leb_spec (Z.of_nat (length hooks)) (cap_index w)); [done|].
  destruct Hok as [_ [Hu _]]. unfold cap_index in *.
  destruct (lookup_lt_is_Some_2 hooks (Z.to_nat (upper32bits w))) as [h Hh]; [lia|].
  rewrite Hh. apply wp_lift. destruct h as [h|]; [|done]. split; [done|].
  exists hooks, (Z.to_nat (upper32bits w)). by split.
Qed.
End pointer_reader.

(** ** [total_size] on untrusted messages

    The recursion ends, every access is in bounds, the sums do not overflow,
    and the size that is returned has been paid for out of the read limiter's
    budget: a message cannot claim to be larger than what the reader was
    willing to traverse, however its pointers share objects. *)

Section total_size.
Context (m : mem) (ar : ReaderArena) {Har : ArenaOk m true ar}.

(** A limiter that enforces a budget for which [cap_count] cannot
    overflow. *)
Definition budget (l : ReadLimiter) : Prop :=
  limiter_ok l /\ error_on_limit_exceeded l = true /\ limit l < 2 ^ 32 - 1.

Lemma paid_budget l l' n : budget l -> paid true l l' n ->
  budget l' /\ limit l' = limit l - n \/ n < 0.
Proof.
  intros (Hl & He & Hb) (Hl' & He' & Hc). specialize (Hc eq_refl He). unfold charged in Hc.
  destruct (Z.lt_ge_cases n 0); [by right|left]. split; [|lia].
  split; [done|]. split; [by rewrite He'|lia].
Qed.

Lemma paid_le l l' n : budget l -> paid true l l' n -> n <= limit l.
Proof.
  intros (Hl & He & Hb) (Hl' & He' & Hc). specialize (Hc eq_refl He). unfold charged in Hc.
  unfold limiter_ok, u64, in_width in *. lia.
Qed.

(** The result of one pointer, from limiter [l]. *)
Definition sized (l : ReadLimiter) (r : MessageSize) (l' : ReadLimiter) : Prop :=
  exists n, 0 <= n /\ paid true l l' n /\ 0 <= word_count r <= n /\ 0 <= cap_count r <= n + 1.

(** An accumulated result, after [k] of at most [b] pointers whose words
    were among the first [b] paid for. *)
Definition acc_ok (l : ReadLimiter) (b k : Z) (r : MessageSize) (l' : ReadLimiter) : Prop :=
  exists n, b <= n /\ paid true l l' n /\ 0 <= word_count r <= n /\ 0 <= cap_count r <= n - b + k.

Lemma acc_done l b k r l' : 0 <= b -> k <= b -> acc_ok l b k r l' -> sized l r l'.
Proof. intros Hb Hk (n & Hn & Hp & Hw & Hc). exists n. repeat split; try done; try apply Hp; lia. Qed.

Lemma add_size_step {B} (c : ST ReadLimiter MessageSize) (f : MessageSize -> B) acc l b k l'
    (Q : B -> ReadLimiter -> Prop) :
  budget l -> 0 <= b -> 0 <= k < b -> acc_ok l b k acc l' ->
  (budget l' -> wp c (sized l') (spent true l') l') ->
  (forall acc' l'', acc_ok l b (k + 1) acc' l'' -> Q (f acc') l'') ->
  wp (r ← c; s ← lift (MessageSize_add acc r); ret (f s)) Q (spent true l) l'.
Proof.
  intros Hbud Hb Hk (n & Hn & Hp & Hw & Hcc) Hc HQ.
  destruct (paid_budget _ _ _ Hbud Hp) as [[Hbud' _]|]; [|lia].
  wp_step. eapply wp_mono; [by apply Hc|cbn beta|].
  - intros r l'' (nr & Hnr & Hpr & Hwr & Hcr).
    assert (Hp2 : paid true l l'' (n + nr)) by (by eapply paid_trans).
    pose proof (paid_le _ _ _ Hbud Hp2) as Hle. destruct Hbud as (_ & _ & Hlim).
    wp_step. unfold MessageSize_add. rewrite !uadd_ok by lia. apply wp_lift.
    cbn [bind outcome_monad]. apply wp_ret. apply HQ.
    exists (n + nr). split; [lia|]. split; [done|]. cbn [word_count cap_count]. lia.
  - intros e l'' He. eapply spent_after; [|exact Hp|exact He]. lia.
Qed.

Lemma add_size_step' (c : ST ReadLimiter MessageSize) acc l b k l' :
  budget l -> 0 <= b -> 0 <= k < b -> acc_ok l b k acc l' ->
  (budget l' -> wp c (sized l') (spent true l') l') ->
  wp (r ← c; lift (MessageSize_add acc r)) (acc_ok l b (k + 1)) (spent true l) l'.
Proof.
  intros Hbud Hb Hk Hacc Hc.
  assert (E : bind c (fun r => lift (MessageSize_add acc r)) l' =
    bind c (fun r => s ← lift (MessageSize_add acc r); ret s) l').
  { apply ST_bind_ext. intros r l''. symmetry. apply ST_bind_ret. }
  unfold wp. rewrite E. by apply (add_size_step c (fun s => s) acc l b k).
Qed.

(** The pointers of a section or list, from [base]. *)
Lemma pointers_size (ts : Z -> ST ReadLimiter MessageSize) base n words acc l0 l :
  budget l0 -> 0 <= n <= words -> words_ok m base n -> acc_ok l0 words 0 acc l ->
  (forall p l', words_ok m p 1 -> budget l' -> wp (ts p) (sized l') (spent true l') l') ->
  wp (fold_range (Z.to_nat n) 0 acc (fun i result =>
        r ← ts (base + 8 * i); lift (MessageSize_add result r)))
     (sized l0) (spent true l0) l.
Proof.
  intros Hbud Hn Hw Hacc Hts.
  eapply wp_mono; [apply (wp_fold_range (acc_ok l0 words)); [exact Hacc|]|cbn beta|done].
  - intros i a l' Hi Ha. rewrite Z2Nat.id in Hi by lia.
    apply add_size_step'; [done|lia|lia|done|]. intros Hb'. apply Hts; [|done].
    by apply (words_ok_nth m base n).
  - intros a l'. rewrite Z2Nat.id by lia. apply acc_done; lia.
Qed.

Lemma paid_acc l l' n r : 0 <= n -> paid true l l' n -> 0 <= word_count r <= n -> cap_count r = 0 ->
  acc_ok l n 0 r l'.
Proof. intros Hn Hp Hw Hc. exists n. repeat split; try done; try apply Hp; lia. Qed.

(** The elements of a struct list: [count] times [ds] data words and [pc]
    pointers, from [base]. *)
Lemma elements_size (ts : Z -> ST ReadLimiter MessageSize) base count ds pc acc l0 l words :
  budget l0 -> 0 <= count -> 0 <= ds -> 0 <= pc -> count * (ds + pc) <= words ->
  words_ok m base (count * (ds + pc)) -> acc_ok l0 words 0 acc l ->
  (forall p l', words_ok m p 1 -> budget l' -> wp (ts p) (sized l') (spent true l') l') ->
  wp (fold_range (Z.to_nat count) 0 (base, acc) (fun _ '(pos, result) =>
        fold_range (Z.to_nat pc) 0 (pos + ds * 8, result) (fun _ '(pos, result) =>
          r ← ts pos; result ← lift (MessageSize_add result r); ret (pos + 8, result))))
     (fun '(_, r) l' => sized l0 r l') (spent true l0) l.
Proof.
  intros Hbud Hc Hds Hpc Hle Hw Hacc Hts.
  eapply wp_mono; [apply (wp_fold_range (fun i '(pos, r) l' =>
    pos = base + 8 * (i * (ds + pc)) /\ acc_ok l0 words (i * pc) r l'))|cbn beta|done].
  - split; [lia|done].
  - intros i [pos r] l' Hi [-> Ha]. rewrite Z2Nat.id in Hi by lia.
    assert (Hik : i * (ds + pc) + (ds + pc) <= count * (ds + pc)) by nia.
    assert (Hipc : i * pc + pc <= words) by nia. assert (Hi0 : 0 <= i * pc) by nia.
    assert (Hi1 : 0 <= i * (ds + pc)) by nia.
    eapply wp_mono; [apply (wp_fold_range (fun j '(pos, r) l' =>
      pos = base + 8 * (i * (ds + pc) + ds + j) /\ acc_ok l0 words (i * pc + j) r l'))|cbn beta|done].
    + split; [lia|]. by rewrite Z.add_0_r.
    + intros j [pos2 r2] l2 Hj [-> Ha2]. rewrite Z2Nat.id in Hj by lia.
      apply (add_size_step _ (fun s => (base + 8 * (i * (ds + pc) + ds + j) + 8, s))
               r2 l0 words (i * pc + j)); [done|lia|lia|done| |].
      * intros Hb'. apply Hts; [|done]. apply (words_ok_nth m base _ _ Hw). lia.
      * intros a l3 Ha3. split; [lia|]. by rewrite Z.add_assoc.
    + intros [pos2 r2] l2. rewrite Z2Nat.id by lia. intros [-> Ha2]. split; [lia|].
      replace ((i + 1) * pc) with (i * pc + (0 + pc)) by lia. done.
  - intros [pos r] l'. rewrite Z2Nat.id by lia. intros [_ Ha]. eapply acc_done; [| |exact Ha]; nia.
Qed.

Lemma sized_after l l1 n r l2 : budget l -> 0 <= n -> paid true l l1 n -> sized l1 r l2 -> sized l r l2.
Proof.
  intros Hb Hn Hp (k & Hk & Hp2 & Hw & Hc). exists (n + k). split; [lia|].
  split; [by eapply paid_trans|]. lia.
Qed.

(** The case analysis of one level, given what the pointers below do. *)
Section level.
Context (ts : Z -> Z -> ST ReadLimiter MessageSize).
Context (Hts : forall id p l', u32 id -> words_ok m p 1 -> budget l' ->
  wp (ts id p) (sized l') (spent true l') l').

Lemma struct_size id ptr w l :
  u32 id -> location_ok ptr -> budget l ->
  wp (bounds_check ar id ptr (struct_word_size w) Struct ;;
      let pointer_section := ptr + struct_data_size w * BYTES_PER_WORD in
      fold_range (Z.to_nat (struct_ptr_count w)) 0
        {| word_count := struct_word_size w; cap_count := 0 |} (fun i result =>
          r ← ts id (pointer_section + 8 * i); lift (MessageSize_add result r)))
     (sized l) (spent true l) l.
Proof.
  intros Hid Hloc Hb. pose proof (struct_word_size_range w).
  pose proof (struct_data_size_range w). pose proof (struct_ptr_count_range w).
  assert (Hl : limiter_ok l) by apply Hb. wp_step.
  apply (bounds_check_wp m true ar); [done|done|done|lia| |by intros; apply spent_refl].
  intros l2 Hwords Hp. cbv zeta. unfold struct_word_size in *. unfold BYTES_PER_WORD.
  apply (pointers_size (ts id) _ _ (struct_data_size w + struct_ptr_count w)); [done|lia| | |].
  - eapply (words_ok_sub m _ _ _ _ Hwords); [lia| |lia|lia]. destruct Hloc as (_ & Hal & _). zlia.
  - apply paid_acc; [lia|done|cbn; lia|done].
  - intros p l' Hw Hb'. by apply Hts.
Qed.

Lemma pointer_list_size id ptr w l :
  u32 id -> location_ok ptr -> wp_ok w -> budget l ->
  wp (bounds_check ar id ptr (list_element_count w) List ;;
      fold_range (Z.to_nat (list_element_count w)) 0
        {| word_count := list_element_count w; cap_count := 0 |} (fun i result =>
          r ← ts id (ptr + 8 * i); lift (MessageSize_add result r)))
     (sized l) (spent true l) l.
Proof.
  intros Hid Hloc Hok Hb. pose proof (list_element_count_range w Hok).
  assert (Hl : limiter_ok l) by apply Hb. wp_step.
  apply (bounds_check_wp m true ar); [done|done|done|lia| |by intros; apply spent_refl].
  intros l2 Hwords Hp.
  apply (pointers_size (ts id) _ _ (list_element_count w)); [done|lia|done| |].
  - apply paid_acc; [lia|done|cbn; lia|done].
  - intros p l' Hw Hb'. by apply Hts.
Qed.

Lemma composite_size id ptr w l :
  u32 id -> location_ok ptr -> wp_ok w -> budget l ->
  wp (let wc := list_inline_composite_word_count w in
      size ← lift (uadd 64 wc 1);
      bounds_check ar id ptr size List ;;
      tag ← lift (load_wp m ptr);
      let count := inline_composite_list_element_count tag in
      match kind tag with
      | Struct =>
          actual_size ← lift (umul 64 (struct_word_size tag) count);
          if wc <? actual_size then fails InlineCompositeListsElementsOverrunItsWordCount
          else
            w ← lift (uadd 64 actual_size 1);
            let result := {| word_count := w; cap_count := 0 |} in
            let data_size := struct_data_size tag in
            let pointer_count := struct_ptr_count tag in
            if 0 <? pointer_count then
              '(_, result) ← fold_range (Z.to_nat count) 0 (ptr + 8, result)
                (fun _ '(pos, result) =>
                  fold_range (Z.to_nat pointer_count) 0 (pos + data_size * 8, result)
                    (fun _ '(pos, result) =>
                      r ← ts id pos;
                      result ← lift (MessageSize_add result r);
                      ret (pos + 8, result)));
              ret result
            else ret result
      | _ => fails CantHandleNonStructInlineComposite
      end) (sized l) (spent true l) l.
Proof.
  intros Hid Hloc Hok Hb. unfold list_inline_composite_word_count. cbv zeta.
  pose proof (list_element_count_range w Hok). assert (Hl : limiter_ok l) by apply Hb.
  wp_step. rewrite uadd_ok by lia. apply wp_lift. wp_step.
  apply (bounds_check_wp m true ar); [done|done|done|lia| |by intros; apply spent_refl].
  intros l2 Hwords Hp.
  assert (Hsp : forall e, spent true l e l2) by (intros e; exists (list_element_count w + 1); by split; [lia|]).
  wp_step. apply load_wp_wp.
  { pose proof (words_ok_nth m _ _ 0 Hwords ltac:(lia)) as H0.
    by rewrite Z.mul_0_r, Z.add_0_r in H0. }
  intros tag _ Htag. pose proof (element_count_range tag Htag) as Hsize.
  pose proof (struct_word_size_range tag) as Hwpe. pose proof (struct_data_size_range tag) as Hd.
  pose proof (struct_ptr_count_range tag) as Hpc.
  destruct (kind tag); try apply Hsp.
  wp_step. rewrite umul_ok by nia. apply wp_lift.
  destruct (Z.ltb_spec (list_element_count w)
    (struct_word_size tag * inline_composite_list_element_count tag)) as [|Hfit]; [apply Hsp|].
  set (count := inline_composite_list_element_count tag) in *.
  assert (0 <= struct_word_size tag * count) by nia.
  wp_step. rewrite uadd_ok by lia. apply wp_lift.
  assert (Hacc : acc_ok l (list_element_count w + 1) 0
    {| word_count := struct_word_size tag * count + 1; cap_count := 0 |} l2).
  { apply paid_acc; [lia|done|cbn; lia|done]. }
  destruct (Z.ltb_spec 0 (struct_ptr_count tag)).
  - wp_step. eapply wp_mono; [apply (elements_size (ts id) (ptr + 8) count (struct_data_size tag)
      (struct_ptr_count tag) _ l l2 (list_element_count w + 1))|cbn beta|done].
    + done. + lia. + lia. + lia. + unfold struct_word_size in *. lia.
    + unfold struct_word_size in *. eapply (words_ok_sub m _ _ _ _ Hwords); [lia| |lia|lia].
      destruct Hloc as (_ & Hal & _). zlia.
    + exact Hacc.
    + intros p l' Hw Hb'. by apply Hts.
    + intros [pos r] l3 Hr. by apply wp_ret.
  - apply wp_ret. eapply acc_done; [| |exact Hacc]; lia.
Qed.

Lemma scalar_list_size id ptr w l : data_bits_per_element (list_element_size w) <= 64 ->
  0 <= data_bits_per_element (list_element_size w) ->
  u32 id -> location_ok ptr -> wp_ok w -> budget l ->
  wp (bits ← lift (umul 64 (list_element_count w) (data_bits_per_element (list_element_size w)));
      total_words ← lift (round_bits_up_to_words bits);
      bounds_check ar id ptr total_words List ;;
      ret {| word_count := total_words; cap_count := 0 |}) (sized l) (spent true l) l.
Proof.
  intros Hb1 Hb2 Hid Hloc Hok Hb. pose proof (list_element_count_range w Hok).
  assert (Hl : limiter_ok l) by apply Hb. set (bits := data_bits_per_element _) in *.
  assert (0 <= list_element_count w * bits < 2 ^ 36) by nia.
  wp_step. rewrite umul_ok by lia. apply wp_lift. wp_step. rewrite round_bits_ok by lia. apply wp_lift.
  wp_step.
  apply (bounds_check_wp m true ar); [done|done|done|zlia| |by intros; apply spent_refl].
  intros l2 _ Hp. apply wp_ret. eexists. split; [|split; [exact Hp|cbn; split; [|]]]; zlia.
Qed.
End level.

Lemma total_size_wp : forall fuel id reff nesting l,
  words_ok m reff 1 -> u32 id -> budget l -> nesting < 2 ^ 31 -> (Z.to_nat nesting < fuel)%nat ->
  wp (total_size m fuel ar id reff nesting) (sized l) (spent true l) l.
Proof.
  induction fuel as [|fuel IH]; intros id reff nesting l Hw Hid Hb Hnest Hf; [lia|].
  assert (Hl : limiter_ok l) by apply Hb. cbn [total_size]. wp_step.
  apply load_wp_wp; [done|]. intros w _ _.
  assert (Hzero : forall l, limiter_ok l -> sized l {| word_count := 0; cap_count := 0 |} l).
  { intros l' Hl'. exists 0. split; [lia|]. split; [by apply paid_refl|]. cbn. lia. }
  destruct (is_null w); [by apply wp_ret, Hzero|].
  destruct (Z.leb_spec nesting 0); [by apply spent_refl|].
  wp_step. unfold isub32. destruct (Z.leb_spec (- 2 ^ 31) (nesting - 1)), (Z.ltb_spec (nesting - 1) (2 ^ 31));
    try lia. cbn [andb]. apply wp_lift.
  apply (follow_then m true ar); [done|done|done|].
  intros ptr reff' id' l1 w' n1 Hloc Hload Hok Hid' Hn1 Hpaid1. wp_step. rewrite Hload. apply wp_lift.
  destruct (paid_budget _ _ _ Hb Hpaid1) as [[Hb1 _]|]; [|lia].
  assert (Hl1 : limiter_ok l1) by apply Hb1.
  assert (Hmono : forall c, wp c (sized l1) (spent true l1) l1 ->
    wp c (fun a l'' => forall n, 0 <= n -> paid true l l1 n -> sized l a l'') (spent true l1) l1).
  { intros c Hc. eapply wp_mono; [exact Hc| |done]. intros r l'' Hr n Hn Hp. by eapply sized_after. }
  apply Hmono. clear Hmono.
  set (ts := fun id p => total_size m fuel ar id p (nesting - 1)).
  assert (Hts : forall id p l', u32 id -> words_ok m p 1 -> budget l' ->
    wp (ts id p) (sized l') (spent true l') l').
  { intros id2 p l' Hid2 Hp Hb'. apply IH; try done; lia. }
  destruct (kind w'); [| |by apply spent_refl|].
  - by apply (struct_size ts).
  - destruct (list_element_size w') eqn:Es; try (rewrite <- Es; apply scalar_list_size; rewrite ?Es; cbn; done || lia).
    + by apply wp_ret, Hzero.
    + by apply (pointer_list_size ts).
    + by apply (composite_size ts).
  - destruct (is_capability w'); [|by apply spent_refl]. apply wp_ret. exists 0. split; [lia|].
    split; [by apply paid_refl|]. cbn. lia.
Qed.
End total_size.
