(* ===== verification/ReadingProps.v ===== *)
(** * Theorems about reading messages

    A message of untrusted bytes, laid out in memory as segments, is read
    through [impl_arena]: every reader that can be obtained is well formed,
    every access through it is in bounds and benign, and the traversal is paid
    for out of the read limiter's budget. *)

From S2P Require Import Prelude.
From S2P Require Import Mem.
From S2P Require Import ReadLimiter.
From S2P Require Import Segments.
From S2P Require Import WirePointer.
From S2P Require Import Arena.
From S2P Require Import Readers.
From S2P Require Import ReadersSafe.
From S2P Require Import ReadersSafe.
(** [message::Reader::get_root_internal] (capnp/src/message.rs) *)
Definition get_root_internal (a : ReaderArenaImpl (list SliceAt)) : ST ReadLimiter PointerReader :=
  '(segment_start, _) ← lift (arena_get_segment (impl_arena a) 0);
  PointerReader_get_root (impl_arena a) 0 segment_start (get_nesting_limit (impl_arena a)).

(** ** A message used by the witnesses: one segment at 4096, whose root is a
    struct of one data word (42) and one pointer to the text "hi". *)

Definition bytes_of_words (ws : list Z) : list byte := concat (map (le_split 8) ws).

(** struct pointer: offset 0, 1 data word, 1 pointer; 42; list pointer:
    offset 0, byte elements, 3 of them; "hi\0" *)
Definition example_words : list Z :=
  [0x0001000100000000; 42; 0x0000001a00000001; 0x6968].
Definition example_slice : SliceAt :=
  {| as_ptr := 4096; slice_bytes := bytes_of_words example_words |}.
Definition example_arena : ReaderArenaImpl (list SliceAt) :=
  ReaderArenaImpl_new [example_slice] DEFAULT_READER_OPTIONS.
Definition example_mem : mem :=
  write_bytes (write_bytes ∅ zero_pointer (repeat Byte.x00 8)) 4096 (bytes_of_words example_words).

Lemma example_zero : zero_ok example_mem.
Proof.
  split; [|reflexivity]. unfold words_ok, addressable, zero_pointer. repeat split; try lia.
  apply (proj1 (valid_nat_iff example_mem 8 8)). reflexivity.
Qed.
Lemma example_laid_out : laid_out example_mem (arena_segments example_arena).
Proof.
  intros i s Hi. destruct i as [|i]; [|done]. injection Hi as <-. vm_compute. repeat split; done.
Qed.
Lemma example_arena_ok : ArenaOk example_mem true (impl_arena example_arena).
Proof. apply impl_arena_ok, example_laid_out. Qed.
Definition example_limiter : ReadLimiter := read_limiter example_arena.
Lemma example_limiter_ok : limiter_ok example_limiter.
Proof. vm_compute. split; [discriminate|reflexivity]. Qed.

(** The readers of the example: its root, its struct. *)
Definition example_root : PointerReader :=
  {| pr_arena := impl_arena example_arena; pr_cap_table := 0; pr_pointer := 4096;
     pr_segment_id := 0; pr_nesting_limit := 64 |}.
Lemma example_words_ok p n : 4096 <= p -> p mod 8 = 0 -> 0 <= n -> p + 8 * n <= 4096 + 32 ->
  words_ok example_mem p n.
Proof.
  intros. unfold words_ok, addressable. repeat split; try lia.
  apply (valid_sub _ 4096 32); try lia.
  apply (proj1 (valid_nat_iff example_mem 32 4096)). reflexivity.
Qed.
Lemma example_root_ok : pr_ok example_mem true example_root.
Proof.
  right. split; [apply example_words_ok; cbn; lia || reflexivity|].
  split; [apply example_arena_ok|cbn; unfold u32, in_width; lia].
Qed.

(** ** Properties *)

(** The two checks of an arena say exactly what they should:
    [contains_interval] accepts an interval of words iff it lies in the
    segment, and then charges its length to the limiter; [check_offset]
    accepts an offset iff the target lies in the segment or at its end. *)
Lemma arena_checks_exact (a : ReaderArenaImpl (list SliceAt)) id start len p n off l :
  impl_get_segment a id = Ok (start, len) -> 0 <= start -> 0 <= len < 2 ^ 32 ->
  0 <= p < 2 ^ 62 -> 0 <= n < 2 ^ 33 -> - 2 ^ 31 <= off < 2 ^ 31 -> limiter_ok l ->
  contains_interval (impl_arena a) id p n l =
    (if (start <=? p) && (p + 8 * n <=? start + 8 * len)
     then if refuses l (limit l) n then (Err ReadLimitExceeded, l)
          else (Ok tt, set_limit (wrapping_sub (limit l) n) l)
     else (Err MessageContainsOutOfBoundsPointer, l)) /\
  check_offset (impl_arena a) id p off =
    (if (start <=? p) && (start <=? p + 8 * off) && (p + 8 * off <=? start + 8 * len)
     then Ok (p + 8 * off) else Err MessageContainsOutOfBoundsPointer).
Proof.
  intros Hg Hs Hl Hp Hn Ho Hlim. split.
  - cbn [impl_arena contains_interval]. unfold impl_contains_interval.
    rewrite (in_segment_exact _ _ _ _ _ _ Hg) by lia.
    destruct (_ && _); [|done]. rewrite (lift_bind_ok _ _ _ _ eq_refl). apply can_read_spec; [done|lia].
  - cbn [impl_arena check_offset]. apply (check_offset_exact _ _ _ _ _ _ Hg); lia.
Qed.

Lemma arena_checks_exact_witness :
  contains_interval (impl_arena example_arena) 0 4104 3 example_limiter =
    (Ok tt, set_limit (wrapping_sub (limit example_limiter) 3) example_limiter) /\
  check_offset (impl_arena example_arena) 0 4096 (-1) = Err MessageContainsOutOfBoundsPointer.
Proof.
  split; [exact (proj1 (arena_checks_exact example_arena 0 4096 4 4104 3 (-1) example_limiter eq_refl
    ltac:(lia) ltac:(lia) ltac:(lia) ltac:(lia) ltac:(lia) example_limiter_ok))|].
  exact (proj2 (arena_checks_exact example_arena 0 4096 4 4096 3 (-1) example_limiter eq_refl
    ltac:(lia) ltac:(lia) ltac:(lia) ltac:(lia) ltac:(lia) example_limiter_ok)).
Defined.

(** The root of a message of arbitrary bytes: an error, or a reader that
    is safe to use. *)
Lemma root_safe (m : mem) (a : ReaderArenaImpl (list SliceAt)) (l : ReadLimiter) :
  laid_out m (arena_segments a) -> limiter_ok l ->
  match get_root_internal a l with
  | (Ok r, l') => pr_ok m true r /\ limiter_ok l' /\ pr_nesting_limit r = arena_nesting_limit a
  | (Err _, l') => limiter_ok l'
  | _ => False
  end.
Proof.
  intros Hlay Hl. pose proof (impl_arena_ok m a Hlay) as Har.
  assert (Hwp : wp (get_root_internal a)
    (fun r l' => pr_ok m true r /\ limiter_ok l' /\ pr_nesting_limit r = arena_nesting_limit a)
    (fun _ l' => limiter_ok l') l).
  { unfold get_root_internal. wp_step.
    assert (H0 : u32 0) by (unfold u32, in_width; lia).
    apply (get_segment_wp m true (impl_arena a)); [done| |done].
    intros start len Hg. unfold PointerReader_get_root. wp_step.
    pose proof (get_segment_law 0 H0) as Hseg. rewrite Hg in Hseg.
    destruct Hseg as (Hs & Hal & Hlen & _ & Hb).
    apply (bounds_check_wp m true (impl_arena a)); [done|done| |lia| |done].
    { unfold location_ok. repeat split; try done; lia. }
    intros l' Hw Hp. apply wp_ret. split; [right; split; [done|by split]|].
    split; [apply Hp|done]. }
  unfold wp in Hwp. by destruct (get_root_internal a l) as [[] l'].
Qed.

Lemma root_safe_witness :
  match get_root_internal example_arena example_limiter with
  | (Ok r, l') => pr_ok example_mem true r /\ limiter_ok l' /\ pr_nesting_limit r = 64
  | (Err _, l') => limiter_ok l'
  | _ => False
  end.
Proof. apply (root_safe example_mem example_arena example_limiter example_laid_out example_limiter_ok). Defined.

(** C8: Following a pointer of an untrusted message, whatever it is expected
    to be: no panic, no access out of bounds; a struct or list reader that
    results is safe to use, text and data lie in memory, and text is
    terminated by a NUL byte inside its segment (so does not need checking
    again). *)
Theorem pointer_reads_safe (m : mem) (r : PointerReader) (e : ElementSize) (l : ReadLimiter) :
  zero_ok m -> pr_ok m true r -> limiter_ok l -> pr_nesting_limit r < 2 ^ 31 ->
  wp (get_struct m r None) (fun s _ => sr_ok m true s) (spent true l) l /\
  wp (get_list m r e None) (fun s _ => lr_ok m true s /\ (lr_element_count s = 0 \/ fits (Some e) s))
     (spent true l) l /\
  wp (get_text m r None) (fun s _ => text_ok m s) (spent true l) l /\
  wp (get_data m r None) (fun s _ => bytes_ok m s) (spent true l) l /\
  wp (get_pointer_type m r) (fun _ _ => True) (spent true l) l.
Proof.
  intros Hz Hr Hl Hn. split; [|split; [|split; [|split]]].
  - eapply wp_mono; [by apply (get_struct_safe m true)|by intros s l' [[] ?]|done].
  - eapply wp_mono; [by apply (get_list_safe m true)|by intros s l' []|done].
  - eapply wp_mono; [by apply (get_text_safe m true)|by intros s l' []|done].
  - eapply wp_mono; [by apply (get_data_safe m true)|by intros s l' []|done].
  - by apply get_pointer_type_safe.
Qed.

Lemma pointer_reads_safe_witness :
  wp (get_struct example_mem example_root None) (fun s _ => sr_ok example_mem true s)
     (spent true example_limiter) example_limiter /\
  wp (get_list example_mem example_root Byte None)
     (fun s _ => lr_ok example_mem true s /\ (lr_element_count s = 0 \/ fits (Some Byte) s))
     (spent true example_limiter) example_limiter /\
  wp (get_text example_mem example_root None) (fun s _ => text_ok example_mem s)
     (spent true example_limiter) example_limiter /\
  wp (get_data example_mem example_root None) (fun s _ => bytes_ok example_mem s)
     (spent true example_limiter) example_limiter /\
  wp (get_pointer_type example_mem example_root) (fun _ _ => True)
     (spent true example_limiter) example_limiter.
Proof.
  apply pointer_reads_safe; [apply example_zero|apply example_root_ok|apply example_limiter_ok|].
  cbn. lia.
Defined.

(** The struct the root of the example points to. *)
Definition example_struct : StructReader :=
  {| sr_arena := impl_arena example_arena; sr_cap_table := 0; sr_data := 4104; sr_pointers := 4112;
     sr_segment_id := 0; sr_data_size := 64; sr_pointer_count := 1; sr_nesting_limit := 63 |}.
Lemma example_struct_ok : sr_ok example_mem true example_struct.
Proof.
  split; [|split].
  - apply (words_data_ok example_mem 4104 1); [|lia]. apply example_words_ok; lia || reflexivity.
  - split; [cbn; lia|]. right. apply example_words_ok; cbn; lia || reflexivity.
  - right. split; [apply example_arena_ok|cbn; unfold u32, in_width; lia].
Qed.
Lemma example_struct_read :
  match fst (get_struct example_mem example_root None example_limiter) with
  | Ok s => (sr_data s, sr_pointers s, sr_data_size s, sr_pointer_count s) = (4104, 4112, 64, 1)
  | _ => False
  end.
Proof. vm_compute. reflexivity. Qed.

(** The bytes of "hi" as a list of one-byte elements. *)
Definition example_list : ListReader :=
  {| lr_arena := impl_arena example_arena; lr_cap_table := 0; lr_ptr := 4120; lr_segment_id := 0;
     lr_element_count := 3; lr_step := 8; lr_struct_data_size := 8; lr_nesting_limit := 62;
     lr_struct_pointer_count := 0; lr_element_size := Byte |}.
Lemma example_list_ok : lr_ok example_mem true example_list.
Proof.
  split; [cbn; lia|]. split; [cbn; lia|]. split; [right; cbn; lia|]. split; [cbn; lia|].
  right. split; [apply (example_words_ok 4120 1); lia || reflexivity|by left].
Qed.

(** C9: Field access of a struct reader, for a field at any offset below
    [2^32] (those that a schema can give).  A number whose last byte is in the
    data section is the little-endian value stored there, at its offset; a bool
    in it is the bit at its offset, counted from the lowest bit of the first
    byte; a pointer field is the pointer in its slot of the pointer section,
    with the segment, the capabilities and the nesting limit of the struct.  A
    field beyond its section (the struct was written by an older program) is
    zero, false or a null pointer.  Never a panic or an access out of bounds. *)
Theorem struct_fields_safe (m : mem) (r : StructReader) (n o : Z) :
  sr_ok m true r -> (n = 1 \/ n = 2 \/ n = 4 \/ n = 8) -> 0 <= o < 2 ^ 32 ->
  (exists v, get_data_field m n r o = Ok v /\ 0 <= v < 2 ^ (8 * n) /\
     (if 8 * n * (o + 1) <=? sr_data_size r then load m (sr_data r + n * o) n = Ok v else v = 0)) /\
  (exists b, get_bool_field m r o = Ok b /\
     if o <? sr_data_size r
     then exists v, load m (sr_data r + o / 8) 1 = Ok v /\ b = Z.testbit v (o mod 8)
     else b = false) /\
  pr_ok m true (get_pointer_field r o) /\
  get_pointer_field r o =
    if o <? sr_pointer_count r
    then {| pr_arena := sr_arena r; pr_segment_id := sr_segment_id r; pr_cap_table := sr_cap_table r;
            pr_pointer := sr_pointers r + 8 * o; pr_nesting_limit := sr_nesting_limit r |}
    else PointerReader_new_default.
Proof.
  intros Hr Hn Ho. split; [exact (get_data_field_safe m true r n o Hr Hn Ho)|].
  split; [|split; [apply (get_pointer_field_safe m true r o Hr); lia|done]].
  destruct (get_bool_field_safe m true r o Hr) as (b & Hb). exists b. split; [done|].
  unfold get_bool_field in Hb. rewrite wrap32_small in Hb by lia. unfold BITS_PER_BYTE in Hb.
  destruct (o <? sr_data_size r); [|by injection Hb as <-].
  pose proof Hb as Hload. unfold load_bit in Hload.
  destruct (load m (sr_data r + o / 8) 1) as [v| | | |] eqn:Hv; try done.
  exists v. split; [done|]. rewrite (load_bit_testbit _ _ (o mod 8) _ Hv (proj1 (Z.mod_pos_bound o 8 eq_refl))) in Hb. by injection Hb.
Qed.

(** The second number and the second bit of a word, and a slot beyond the
    pointer section. *)
Lemma struct_fields_safe_witness :
  (exists v, get_data_field example_mem 4 example_struct 1 = Ok v /\ 0 <= v < 2 ^ (8 * 4) /\
     (if 8 * 4 * (1 + 1) <=? 64 then load example_mem (4104 + 4 * 1) 4 = Ok v else v = 0)) /\
  (exists b, get_bool_field example_mem example_struct 1 = Ok b /\
     if 1 <? 64 then exists v, load example_mem (4104 + 1 / 8) 1 = Ok v /\ b = Z.testbit v (1 mod 8) else b = false) /\
  pr_ok example_mem true (get_pointer_field example_struct 1) /\
  get_pointer_field example_struct 1 = PointerReader_new_default.
Proof.
  exact (struct_fields_safe example_mem example_struct 4 1 example_struct_ok ltac:(lia) ltac:(lia)).
Defined.

(** Element access of a list reader, for an index in range: the struct
    at the index is itself safe to use, also when a list of primitives is read
    as a list of structs; a list whose elements have room for an [n]-byte
    value, a pointer or a bit yields one without leaving memory. *)
Lemma list_elements_safe (m : mem) (r : ListReader) (i n : Z) :
  lr_ok m true r -> 0 <= i < lr_element_count r -> (n = 1 \/ n = 2 \/ n = 4 \/ n = 8) ->
  (exists s, get_struct_element r i = Ok s /\ sr_ok m true s) /\
  (8 * n <= lr_struct_data_size r ->
     exists v, primitive_get m n r i = Ok v /\ 0 <= v < 2 ^ (8 * n)) /\
  (0 < lr_struct_pointer_count r -> exists p, get_pointer_element r i = Ok p /\ pr_ok m true p) /\
  (0 < lr_step r -> exists b, bool_get m r i = Ok b).
Proof.
  intros Hr Hi Hn. split; [exact (get_struct_element_safe m true r i Hr Hi)|].
  split; [exact (primitive_get_safe m true r n i Hr Hi Hn)|].
  split; [exact (get_pointer_element_safe m true r i Hr Hi)|exact (bool_get_safe m true r i Hr Hi)].
Qed.

Lemma list_elements_safe_witness :
  (exists s, get_struct_element example_list 1 = Ok s /\ sr_ok example_mem true s) /\
  (8 * 1 <= 8 -> exists v, primitive_get example_mem 1 example_list 1 = Ok v /\ 0 <= v < 2 ^ (8 * 1)) /\
  (0 < 0 -> exists p, get_pointer_element example_list 1 = Ok p /\ pr_ok example_mem true p) /\
  (0 < 8 -> exists b, bool_get example_mem example_list 1 = Ok b).
Proof.
  exact (list_elements_safe example_mem example_list 1 1 example_list_ok ltac:(cbn; lia) ltac:(lia)).
Defined.

(** [total_size] of an untrusted object, with a limiter that enforces a
    budget (of fewer than [2^32 - 1] words): the recursion ends within the
    nesting limit, nothing overflows or is read out of bounds, and the words
    it reports have all been charged to the budget, so no sharing or cycle of
    pointers can make a message appear larger than the traversal limit. *)
Lemma total_size_bounded (m : mem) (r : PointerReader) (l : ReadLimiter) :
  pr_ok m true r -> budget l -> pr_nesting_limit r < 2 ^ 31 ->
  match PointerReader_total_size m r l with
  | (Ok size, l') => 0 <= word_count size <= limit l - limit l' /\
                     0 <= cap_count size <= limit l - limit l' + 1 /\ 0 <= limit l'
  | (Err _, l') => 0 <= limit l' <= limit l
  | _ => False
  end.
Proof.
  intros Hr Hb Hn. assert (Hl : limiter_ok l) by apply Hb.
  unfold PointerReader_total_size. destruct (Z.eqb_spec (pr_pointer r) 0) as [|Hne].
  { cbn. unfold limiter_ok, u64, in_width in Hl. lia. }
  destruct Hr as [|(Hw & Har & Hid)]; [done|].
  pose proof (total_size_wp m _ (nesting_fuel (pr_nesting_limit r)) (pr_segment_id r)
    (pr_pointer r) (pr_nesting_limit r) l Hw Hid Hb Hn (Nat.lt_succ_diag_r _)) as Hwp.
  unfold wp in Hwp. destruct (total_size _ _ _ _ _ _ l) as [[size|err| | |] l']; try done.
  - destruct Hwp as (n & Hn0 & (Hl' & He & Hc) & Hws & Hcs).
    destruct Hb as (_ & Hen & _). specialize (Hc eq_refl Hen). unfold charged in Hc.
    unfold limiter_ok, u64, in_width in Hl'. lia.
  - destruct Hwp as (n & Hn0 & (Hl' & He & Hc)).
    destruct Hb as (_ & Hen & _). specialize (Hc eq_refl Hen). unfold charged in Hc.
    unfold limiter_ok, u64, in_width in Hl'. lia.
Qed.

Lemma total_size_bounded_witness :
  match PointerReader_total_size example_mem example_root example_limiter with
  | (Ok size, l') => 0 <= word_count size <= limit example_limiter - limit l' /\
                     0 <= cap_count size <= limit example_limiter - limit l' + 1 /\ 0 <= limit l'
  | (Err _, l') => 0 <= limit l' <= limit example_limiter
  | _ => False
  end.
Proof.
  apply (total_size_bounded example_mem example_root example_limiter).
  - apply example_root_ok.
  - split; [apply example_limiter_ok|split; [reflexivity|reflexivity]].
  - reflexivity.
Defined.

Lemma example_total_size :
  fst (PointerReader_total_size example_mem example_root example_limiter) =
  Ok {| word_count := 3; cap_count := 0 |}.
Proof. vm_compute. reflexivity. Qed.

(** A capability pointer yields the hook that the capability table holds
    at its index, never anything else, and costs nothing. *)
Lemma capability_from_table (m : mem) (tables : gmap Z CapTable) (r : PointerReader)
    (l : ReadLimiter) :
  zero_ok m -> pr_ok m true r ->
  (pr_cap_table r = 0 \/ is_Some (tables !! pr_cap_table r)) ->
  wp (get_capability m tables r)
     (fun h l' => l' = l /\ exists hooks i, tables !! pr_cap_table r = Some hooks /\
                              hooks !! i = Some (Some h))
     (fun _ l' => l' = l) l.
Proof. intros Hz Hr Ht. by apply (get_capability_safe m true). Qed.

Lemma capability_from_table_witness :
  wp (get_capability example_mem (<[64 := [Some 7]]> ∅) (PointerReader_imbue 64 example_root))
     (fun h l' => l' = example_limiter /\ exists hooks i,
        (<[64 := [Some 7]]> ∅ : gmap Z CapTable) !! 64 = Some hooks /\ hooks !! i = Some (Some h))
     (fun _ l' => l' = example_limiter) example_limiter.
Proof.
  apply (capability_from_table example_mem (<[64 := [Some 7]]> ∅) (PointerReader_imbue 64 example_root)).
  - apply example_zero.
  - apply example_root_ok.
  - right. by exists [Some 7].
Defined.

(** The read limiter: it refuses exactly the reads that exceed an
    enforced budget, leaving it unchanged, and otherwise charges their amount;
    without a limit it never refuses. *)
Lemma limiter_exact (l : ReadLimiter) (amount : Z) :
  limiter_ok l -> 0 <= amount < 2 ^ 64 ->
  match can_read amount l with
  | (Ok _, l') => limiter_ok l' /\ error_on_limit_exceeded l' = error_on_limit_exceeded l /\
      (error_on_limit_exceeded l = true -> limit l' = limit l - amount)
  | (Err e, l') => e = ReadLimitExceeded /\ l' = l /\ error_on_limit_exceeded l = true /\
      limit l < amount
  | _ => False
  end.
Proof.
  intros Hl Ha. pose proof (can_read_ok amount l) as Hok.
  rewrite can_read_spec in * by (done || lia).
  unfold refuses in *. destruct (Z.ltb_spec (limit l) amount), (error_on_limit_exceeded l) eqn:E;
    cbn [andb] in *; try done;
    destruct (Hok _ Hl (proj1 Ha) eq_refl) as (H1 & H2 & H3); unfold charged in H3;
    (split; [done|split; [done|first [done | intros _; specialize (H3 eq_refl); lia]]]).
Qed.

Lemma limiter_exact_witness :
  match can_read 5 (ReadLimiter_new (Some 4)) with
  | (Ok _, l') => limiter_ok l' /\ error_on_limit_exceeded l' = true /\ (true = true -> limit l' = 4 - 5)
  | (Err e, l') => e = ReadLimitExceeded /\ l' = ReadLimiter_new (Some 4) /\ true = true /\ 4 < 5
  | _ => False
  end.
Proof.
  apply (limiter_exact (ReadLimiter_new (Some 4)) 5); [|lia].
  apply ReadLimiter_new_ok. intros v [= <-]. unfold u64, in_width. lia.
Defined.

(** C12: The shared ([sync_reader]) limiter under every interleaving of the
    loads and stores of concurrent readers: the remaining budget always lies
    between 0 and the initial limit, so a lost update can give budget back but
    never wrap it around. *)
Theorem sync_limiter_bounded (v : Z) (s : Sync.state) :
  0 <= v < 2 ^ 64 -> Sync.reachable (Some v) s ->
  0 <= limit (Sync.limiter s) <= v /\ error_on_limit_exceeded (Sync.limiter s) = true.
Proof.
  intros Hv Hs. destruct (Sync.reachable_inv v s Hv Hs) as (He & Hl & _). by split.
Qed.

Lemma sync_limiter_bounded_witness :
  let s := {| Sync.limiter := set_limit (wrapping_sub 10 4) (ReadLimiter_new (Some 10));
              Sync.loaded := [] |} in
  0 <= limit (Sync.limiter s) <= 10 /\ error_on_limit_exceeded (Sync.limiter s) = true.
Proof.
  apply (sync_limiter_bounded 10); [lia|].
  eapply Sync.reach_step; [eapply Sync.reach_step; [apply Sync.reach_new|]|].
  - apply (Sync.step_load {| Sync.limiter := ReadLimiter_new (Some 10); Sync.loaded := [] |} 4);
      [lia|reflexivity].
  - apply (Sync.step_store {| Sync.limiter := ReadLimiter_new (Some 10); Sync.loaded := [(10, 4)] |}
             [] 10 4 []). reflexivity.
Defined.
