(* ===== verification/Allocators.v ===== *)
(** * Segment allocators: the second half of capnp/src/message.rs

    The trait [Allocator] as a class, and its implementations.  The heap is
    the memory of [Mem] and the first address [malloc] has not handed out
    yet; memory that runs out aborts the process and is not modelled.

    [AllocatorOk] is the safety contract of the trait's documentation. *)

From S2P Require Import Prelude.
From S2P Require Import Mem.
From S2P Require Import Segments.
Record Heap := { hmem : mem; brk : Z }.
Definition set_hmem (m : mem) (h : Heap) : Heap := {| hmem := m; brk := brk h |}.

Definition zero_list (n : Z) : list byte := replicate (Z.to_nat n) Byte.x00.

(** [ptr::write_bytes(a, 0, n)] *)
Definition heap_zero (a n : Z) : ST Heap unit :=
  h ← get_state;
  m ← lift (store_bytes (hmem h) a (zero_list n));
  put_state (set_hmem m h).

(** [Layout::from_size_align(n, 8).unwrap()] *)
Definition layout_of_size (n : Z) : outcome unit := rust_assert (n <=? 2 ^ 63 - 8).

(** [alloc::alloc::alloc_zeroed]: a layout of size zero is [UB]. *)
Definition alloc_zeroed (n : Z) : ST Heap Z :=
  h ← get_state;
  if n <=? 0 then lift UB
  else
    put_state {| hmem := write_bytes (hmem h) (brk h) (zero_list n);
                 brk := brk h + 8 * ((n + 7) / 8) |} ;;
    ret (brk h).

Fixpoint delete_bytes (m : mem) (a : Z) (n : nat) : mem :=
  match n with
  | O => m
  | S n => delete a (delete_bytes m (a + 1) n)
  end.

(** [alloc::alloc::dealloc] *)
Definition dealloc (a n : Z) : ST Heap unit :=
  h ← get_state;
  if valid_nat (hmem h) a (Z.to_nat n)
  then put_state (set_hmem (delete_bytes (hmem h) a (Z.to_nat n)) h) else lift UB.

(** ** The trait *)

(** A segment is its address and its length in words. *)
Class Allocator (A : Type) := {
  allocate_segment : Z -> ST (A * Heap) (Z * Z);
  deallocate_segment : Z -> Z -> Z -> ST (A * Heap) unit
}.

(** Access to one half of the state *)
Definition on_fst {S T X} (c : ST S X) : ST (S * T) X := fun '(s, t) =>
  let '(o, s) := c s in (o, (s, t)).
Definition on_snd {S T X} (c : ST T X) : ST (S * T) X := fun '(s, t) =>
  let '(o, t) := c t in (o, (s, t)).

(** ** [HeapAllocator] *)

Inductive AllocationStrategy := FixedSize | GrowHeuristically.

Record HeapAllocator := {
  next_size : Z;
  allocation_strategy : AllocationStrategy;
  max_segment_words : Z
}.

Definition SUGGESTED_FIRST_SEGMENT_WORDS : Z := 1024.
Definition SUGGESTED_ALLOCATION_STRATEGY : AllocationStrategy := GrowHeuristically.

Definition HeapAllocator_new : HeapAllocator := {|
  next_size := SUGGESTED_FIRST_SEGMENT_WORDS;
  allocation_strategy := SUGGESTED_ALLOCATION_STRATEGY;
  max_segment_words := Z.shiftl 1 29
|}.

Definition set_next_size (v : Z) (a : HeapAllocator) : HeapAllocator :=
  {| next_size := v; allocation_strategy := allocation_strategy a;
     max_segment_words := max_segment_words a |}.

Definition with_first_segment_words (v : Z) (a : HeapAllocator) : outcome HeapAllocator :=
  rust_assert (v <=? max_segment_words a) ;; Ok (set_next_size v a).
Definition with_allocation_strategy (v : AllocationStrategy) (a : HeapAllocator) : HeapAllocator :=
  {| next_size := next_size a; allocation_strategy := v; max_segment_words := max_segment_words a |}.
Definition with_max_segment_words (v : Z) (a : HeapAllocator) : outcome HeapAllocator :=
  rust_assert (next_size a <=? v) ;;
  Ok {| next_size := next_size a; allocation_strategy := allocation_strategy a;
        max_segment_words := v |}.

(** The size of the segment after one of [size] words *)
Definition update_next_size (size : Z) (a : HeapAllocator) : outcome HeapAllocator :=
  match allocation_strategy a with
  | GrowHeuristically =>
      room ← usub (max_segment_words a) (next_size a);
      if size <? room
      then next ← uadd 32 (next_size a) size; Ok (set_next_size next a)
      else Ok (set_next_size (max_segment_words a) a)
  | FixedSize => Ok a
  end.

Definition heap_allocate_segment (minimum_size : Z) : ST (HeapAllocator * Heap) (Z * Z) :=
  ah ← get_state;
  let size := Z.max minimum_size (next_size (fst ah)) in
  bytes ← lift (umul 64 size BYTES_PER_WORD);
  lift (layout_of_size bytes) ;;
  ptr ← on_snd (alloc_zeroed bytes);
  a ← lift (update_next_size size (fst ah));
  on_fst (put_state a) ;;
  ret (ptr, size).

Definition heap_deallocate_segment (ptr word_size _words_used : Z) : ST (HeapAllocator * Heap) unit :=
  bytes ← lift (umul 64 word_size BYTES_PER_WORD);
  lift (layout_of_size bytes) ;;
  on_snd (dealloc ptr bytes) ;;
  ah ← get_state;
  on_fst (put_state (set_next_size SUGGESTED_FIRST_SEGMENT_WORDS (fst ah))).

#[export] Instance HeapAllocator_allocator : Allocator HeapAllocator := {|
  allocate_segment := heap_allocate_segment;
  deallocate_segment := heap_deallocate_segment
|}.

(** ** [ScratchSpaceHeapAllocator] *)

Record ScratchSpaceHeapAllocator := {
  scratch_ptr : Z;
  scratch_len : Z;
  scratch_space_allocated : bool;
  heap_allocator : HeapAllocator
}.

(** [new] zeroes the buffer. *)
Definition ScratchSpaceHeapAllocator_new (ptr len : Z) : ST Heap ScratchSpaceHeapAllocator :=
  if negb (ptr mod BYTES_PER_WORD =? 0) then lift Panic
  else
    heap_zero ptr len ;;
    ret {| scratch_ptr := ptr; scratch_len := len; scratch_space_allocated := false;
           heap_allocator := HeapAllocator_new |}.

Definition set_scratch_allocated (b : bool) (a : ScratchSpaceHeapAllocator) :=
  {| scratch_ptr := scratch_ptr a; scratch_len := scratch_len a; scratch_space_allocated := b;
     heap_allocator := heap_allocator a |}.
Definition set_heap_allocator (x : HeapAllocator) (a : ScratchSpaceHeapAllocator) :=
  {| scratch_ptr := scratch_ptr a; scratch_len := scratch_len a;
     scratch_space_allocated := scratch_space_allocated a; heap_allocator := x |}.

Definition second_segment_words (v : Z) (a : ScratchSpaceHeapAllocator) :
    outcome ScratchSpaceHeapAllocator :=
  x ← with_first_segment_words v (heap_allocator a); Ok (set_heap_allocator x a).
Definition scratch_allocation_strategy (v : AllocationStrategy) (a : ScratchSpaceHeapAllocator) :=
  set_heap_allocator (with_allocation_strategy v (heap_allocator a)) a.

(** A call on the inner allocator *)
Definition on_heap_allocator {X} (c : ST (HeapAllocator * Heap) X) : ST (ScratchSpaceHeapAllocator * Heap) X :=
  fun '(a, h) => let '(o, (x, h)) := c (heap_allocator a, h) in (o, (set_heap_allocator x a, h)).

Definition scratch_allocate_segment (minimum_size : Z) : ST (ScratchSpaceHeapAllocator * Heap) (Z * Z) :=
  ah ← get_state;
  let a := fst ah in
  if (minimum_size <? scratch_len a / BYTES_PER_WORD) && negb (scratch_space_allocated a)
  then
    on_fst (put_state (set_scratch_allocated true a)) ;;
    ret (scratch_ptr a, wrap32 (scratch_len a / BYTES_PER_WORD))
  else on_heap_allocator (allocate_segment minimum_size).

Definition scratch_deallocate_segment (ptr word_size words_used : Z) :
    ST (ScratchSpaceHeapAllocator * Heap) unit :=
  ah ← get_state;
  let a := fst ah in
  if ptr =? scratch_ptr a
  then
    n ← lift (umul 64 words_used BYTES_PER_WORD);
    on_snd (heap_zero (scratch_ptr a) n) ;;
    on_fst (put_state (set_scratch_allocated false a))
  else on_heap_allocator (deallocate_segment ptr word_size words_used).

#[export] Instance ScratchSpaceHeapAllocator_allocator : Allocator ScratchSpaceHeapAllocator := {|
  allocate_segment := scratch_allocate_segment;
  deallocate_segment := scratch_deallocate_segment
|}.

(** ** [SingleSegmentAllocator] *)

Record SingleSegmentAllocator := {
  segment_ptr : Z;
  segment_len : Z;
  segment_allocated : bool
}.

Definition SingleSegmentAllocator_new (ptr len : Z) : ST Heap SingleSegmentAllocator :=
  if negb (ptr mod BYTES_PER_WORD =? 0) then lift Panic
  else
    heap_zero ptr len ;;
    ret {| segment_ptr := ptr; segment_len := len; segment_allocated := false |}.

Definition set_segment_allocated (b : bool) (a : SingleSegmentAllocator) :=
  {| segment_ptr := segment_ptr a; segment_len := segment_len a; segment_allocated := b |}.

Definition single_allocate_segment (minimum_size : Z) : ST (SingleSegmentAllocator * Heap) (Z * Z) :=
  ah ← get_state;
  let a := fst ah in
  let available_word_count := segment_len a / BYTES_PER_WORD in
  if available_word_count <? minimum_size then lift Panic
  else if segment_allocated a then lift Panic
  else
    on_fst (put_state (set_segment_allocated true a)) ;;
    ret (segment_ptr a, wrap32 (segment_len a / BYTES_PER_WORD)).

Definition single_deallocate_segment (ptr _word_size words_used : Z) :
    ST (SingleSegmentAllocator * Heap) unit :=
  ah ← get_state;
  let a := fst ah in
  if ptr =? segment_ptr a
  then
    n ← lift (umul 64 words_used BYTES_PER_WORD);
    on_snd (heap_zero (segment_ptr a) n) ;;
    on_fst (put_state (set_segment_allocated false a))
  else ret tt.

#[export] Instance SingleSegmentAllocator_allocator : Allocator SingleSegmentAllocator := {|
  allocate_segment := single_allocate_segment;
  deallocate_segment := single_deallocate_segment
|}.
