(* ===== verification/AllocatorsOk.v ===== *)
(** * The contract of an allocator

    What the documentation of the trait [Allocator] asks of an
    implementation, as the class [AllocatorOk]: segments are zeroed, aligned,
    large enough, disjoint from everything in use, and left alone until they
    are given back.  The three allocators of message.rs satisfy it. *)

From S2P Require Import Prelude Segments Mem Allocators.

(** ** Regions of words *)

Definition in_region (s : Z * Z) (i : Z) : Prop := fst s <= i < fst s + 8 * snd s.
Definition in_regions (segs : list (Z * Z)) (i : Z) : Prop := exists s, s ∈ segs /\ in_region s i.

Fixpoint separate (segs : list (Z * Z)) : Prop :=
  match segs with
  | [] => True
  | s :: segs => (forall i, in_region s i -> ~ in_regions segs i) /\ separate segs
  end.

Lemma in_regions_cons s segs i : in_regions (s :: segs) i <-> in_region s i \/ in_regions segs i.
Proof.
  unfold in_regions. split.
  - intros (t & Ht & Hi). apply elem_of_cons in Ht as [->|Ht]; [by left|]. right. by exists t.
  - intros [Hi|(t & Ht & Hi)]; [exists s; split; [left|done]|exists t; split; [by right|done]].
Qed.
Lemma in_regions_nil i : ~ in_regions [] i.
Proof. intros (s & Hs & _). by apply elem_of_nil in Hs. Qed.

Lemma in_regions_perm segs segs' i : segs ≡ₚ segs' -> in_regions segs i <-> in_regions segs' i.
Proof. intros Hp. unfold in_regions. by setoid_rewrite Hp. Qed.

Lemma separate_perm segs segs' : segs ≡ₚ segs' -> separate segs -> separate segs'.
Proof.
  induction 1 as [|s l l' Hp IH|s t l|l1 l2 l3 _ IH1 _ IH2]; cbn [separate]; [done| | |auto].
  - intros [Hs Hl]. split; [|auto]. intros i Hi. rewrite <- (in_regions_perm l l') by done. by apply Hs.
  - intros (Hs & Ht & Hl). split_and!; [| |done].
    + intros i Hi. rewrite in_regions_cons. intros [Hi'|Hi']; [|by apply (Ht i)].
      apply (Hs i Hi'). rewrite in_regions_cons. by left.
    + intros i Hi Hi'. apply (Hs i Hi). rewrite in_regions_cons. by right.
Qed.

(** [m'] holds what [m] holds where [P] does not. *)
Definition unchanged_outside (P : Z -> Prop) (m m' : mem) : Prop := forall i, ~ P i -> m' !! i = m !! i.
Definition zeroed (m : mem) (a n : Z) : Prop := forall i, a <= i < a + n -> m !! i = Some Byte.x00.
Definition same_domain (m m' : mem) : Prop := forall i, is_Some (m' !! i) <-> is_Some (m !! i).

Lemma zeroed_valid m a n : zeroed m a n -> valid m a n.
Proof. intros Hz i Hi. rewrite Hz by done. by eexists. Qed.

(** A new segment for at least [n] words *)
Record fresh_segment (n : Z) (h h' : Heap) (segs : list (Z * Z)) (p cap : Z) : Prop := {
  fresh_aligned : p mod 8 = 0;
  fresh_pos : 0 < p;
  fresh_size : n <= cap <= Z.max n (2 ^ 29);
  fresh_zero : zeroed (hmem h') p (8 * cap);
  fresh_apart : forall i, in_region (p, cap) i -> ~ in_regions segs i;
  fresh_frame : unchanged_outside (in_region (p, cap)) (hmem h) (hmem h')
}.

Class AllocatorOk (A : Type) `{Allocator A} := {
  (** [held a h segs]: the allocator has handed out exactly [segs]. *)
  held : A -> Heap -> list (Z * Z) -> Prop;
  (** when a request for [n] words may panic *)
  exhausted : A -> Z -> Prop;
  held_valid : forall a h segs s, held a h segs -> s ∈ segs -> valid (hmem h) (fst s) (8 * snd s);
  held_perm : forall a h segs segs', held a h segs -> segs ≡ₚ segs' -> held a h segs';
  held_separate : forall a h segs, held a h segs -> separate segs;
  held_stable : forall a h h' segs, held a h segs -> brk h' = brk h ->
    same_domain (hmem h) (hmem h') -> unchanged_outside (in_regions segs) (hmem h) (hmem h') ->
    held a h' segs;
  allocate_spec : forall a h segs n, held a h segs -> 0 < n < 2 ^ 32 ->
    match allocate_segment n (a, h) with
    | (Ok (p, cap), (a', h')) => fresh_segment n h h' segs p cap /\ held a' h' ((p, cap) :: segs)
    | (Panic, _) => exhausted a n
    | _ => False
    end;
  deallocate_spec : forall a h segs p cap used, held a h ((p, cap) :: segs) -> 0 <= used <= cap ->
    zeroed (hmem h) (p + 8 * used) (8 * (cap - used)) ->
    exists a' h', deallocate_segment p cap used (a, h) = (Ok tt, (a', h')) /\
      held a' h' segs /\ unchanged_outside (in_region (p, cap)) (hmem h) (hmem h')
}.

(** ** The heap *)

Lemma length_zero_list n : 0 <= n -> Z.of_nat (length (zero_list n)) = n.
Proof. intros Hn. unfold zero_list. rewrite length_replicate. lia. Qed.
Lemma zero_list_lookup n k : (k < Z.to_nat n)%nat -> zero_list n !! k = Some Byte.x00.
Proof. apply lookup_replicate_2. Qed.

Lemma write_zero_lookup m a n i : 0 <= n ->
  write_bytes m a (zero_list n) !! i = if decide (a <= i < a + n) then Some Byte.x00 else m !! i.
Proof.
  intros Hn. rewrite write_bytes_lookup, length_zero_list by done.
  destruct (Z.leb_spec a i), (Z.ltb_spec i (a + n)), (decide _); simpl; try lia; try done.
  apply zero_list_lookup. lia.
Qed.

Lemma heap_zero_ok a n h : 0 <= n -> valid (hmem h) a n ->
  exists h', heap_zero a n h = (Ok tt, h') /\ brk h' = brk h /\
    forall i, hmem h' !! i = if decide (a <= i < a + n) then Some Byte.x00 else hmem h !! i.
Proof.
  intros Hn Hv. unfold heap_zero. rewrite (ST_bind_ok get_state _ _ _ _ eq_refl). unfold store_bytes.
  rewrite (proj2 (valid_nat_iff _ _ _)) by (by rewrite length_zero_list).
  rewrite (lift_bind_ok _ _ _ _ eq_refl). eexists. split; [done|]. split; [done|].
  intros i. by apply write_zero_lookup.
Qed.

Lemma alloc_zeroed_ok n h : 0 < n ->
  alloc_zeroed n h = (Ok (brk h), {| hmem := write_bytes (hmem h) (brk h) (zero_list n);
                                     brk := brk h + 8 * ((n + 7) / 8) |}).
Proof.
  intros Hn. unfold alloc_zeroed. rewrite (ST_bind_ok get_state _ _ _ _ eq_refl).
  by destruct (Z.leb_spec n 0); [lia|].
Qed.

Lemma delete_bytes_lookup m : forall n a i,
  delete_bytes m a n !! i = if decide (a <= i < a + Z.of_nat n) then None else m !! i.
Proof.
  induction n as [|n IH]; intros a i; cbn [delete_bytes].
  { by destruct (decide _); [lia|]. }
  destruct (Z.eq_dec i a) as [->|].
  - rewrite lookup_delete_eq. by destruct (decide _); [|lia].
  - rewrite lookup_delete_ne, IH by done.
    destruct (decide (a + 1 <= i < a + 1 + Z.of_nat n)), (decide (a <= i < a + Z.of_nat (S n))); try done; lia.
Qed.

Lemma dealloc_ok a n h : 0 <= n -> valid (hmem h) a n ->
  exists h', dealloc a n h = (Ok tt, h') /\ brk h' = brk h /\
    forall i, hmem h' !! i = if decide (a <= i < a + n) then None else hmem h !! i.
Proof.
  intros Hn Hv. unfold dealloc. rewrite (ST_bind_ok get_state _ _ _ _ eq_refl).
  rewrite (proj2 (valid_nat_iff _ _ _)) by (by rewrite Z2Nat.id).
  eexists. split; [done|]. split; [done|]. intros i. cbn [hmem set_hmem].
  by rewrite delete_bytes_lookup, Z2Nat.id.
Qed.

(** ** [HeapAllocator] *)

(** Nothing is allocated from [brk] on. *)
Definition heap_ok (h : Heap) : Prop :=
  0 < brk h /\ brk h mod 8 = 0 /\ forall i, brk h <= i -> hmem h !! i = None.

Record heap_held (a : HeapAllocator) (h : Heap) (segs : list (Z * Z)) : Prop := {
  hh_heap : heap_ok h;
  hh_next : 0 <= next_size a <= max_segment_words a;
  hh_max : SUGGESTED_FIRST_SEGMENT_WORDS <= max_segment_words a <= 2 ^ 29;
  hh_segs : forall s, s ∈ segs -> 0 < snd s < 2 ^ 32 /\ valid (hmem h) (fst s) (8 * snd s);
  hh_sep : separate segs
}.

Lemma heap_valid_below h i : heap_ok h -> is_Some (hmem h !! i) -> i < brk h.
Proof.
  intros (_ & _ & Hn) [b Hb]. destruct (Z.lt_ge_cases i (brk h)) as [|Hge]; [done|].
  by rewrite Hn in Hb.
Qed.

Lemma heap_held_stable a h h' segs : heap_held a h segs -> brk h' = brk h ->
  same_domain (hmem h) (hmem h') -> heap_held a h' segs.
Proof.
  intros [(Hb1 & Hb2 & Hb3) Hn Hm Hs Hsep] Hbrk Hd. split; try done.
  - unfold heap_ok. rewrite Hbrk. split_and!; try done. intros i Hi. apply eq_None_not_Some.
    intros Hi'. apply Hd in Hi'. rewrite Hb3 in Hi' by done. by destruct Hi'.
  - intros s Hin. destruct (Hs s Hin) as [Hc Hv]. split; [done|]. intros i Hi. apply Hd, Hv, Hi.
Qed.

Lemma heap_held_perm a h segs segs' : segs ≡ₚ segs' -> heap_held a h segs -> heap_held a h segs'.
Proof.
  intros Hp [Hh Hn Hm Hs Hsep]. split; try done; [|by eapply separate_perm].
  intros s Hin. apply Hs. by rewrite Hp.
Qed.

Lemma update_next_size_ok a size : 0 <= next_size a <= max_segment_words a ->
  max_segment_words a <= 2 ^ 29 -> 0 < size ->
  exists a', update_next_size size a = Ok a' /\ max_segment_words a' = max_segment_words a /\
    0 <= next_size a' <= max_segment_words a.
Proof.
  intros Hn Hm Hs. unfold update_next_size. destruct (allocation_strategy a); [by exists a|].
  rewrite usub_ok by lia. cbn [bind outcome_monad].
  destruct (Z.ltb_spec size (max_segment_words a - next_size a)).
  - rewrite uadd_ok by lia. cbn [bind outcome_monad]. eexists. split; [done|]. cbn. split; [done|lia].
  - eexists. split; [done|]. cbn. split; [done|lia].
Qed.

Lemma heap_allocate_ok a h segs n : heap_held a h segs -> 0 < n < 2 ^ 32 ->
  match heap_allocate_segment n (a, h) with
  | (Ok (p, cap), (a', h')) => fresh_segment n h h' segs p cap /\ heap_held a' h' ((p, cap) :: segs) /\
      forall i, in_region (p, cap) i -> hmem h !! i = None
  | _ => False
  end.
Proof.
  intros [Hh Hnext Hmax Hsegs Hsep] Hn. destruct Hh as (Hb1 & Hb2 & Hb3) eqn:Eh. clear Eh.
  set (size := Z.max n (next_size a)). assert (Hsize : n <= size < 2 ^ 32) by lia.
  destruct (update_next_size_ok a size) as (a' & Ha' & Hmax' & Hnext'); [lia|lia|lia|].
  unfold heap_allocate_segment. rewrite (ST_bind_ok get_state _ _ _ _ eq_refl). cbn [fst]. fold size.
  unfold BYTES_PER_WORD. rewrite umul_ok by lia. erewrite (lift_bind_ok (Ok _)) by done.
  unfold layout_of_size. destruct (Z.leb_spec (size * 8) (2 ^ 63 - 8)); [|lia].
  erewrite (lift_bind_ok (rust_assert true)) by done.
  erewrite ST_bind_ok by (unfold on_snd; by rewrite alloc_zeroed_ok by lia).
  erewrite lift_bind_ok by done. erewrite ST_bind_ok by done.
  assert (Hl : forall i, write_bytes (hmem h) (brk h) (zero_list (size * 8)) !! i =
    if decide (brk h <= i < brk h + size * 8) then Some Byte.x00 else hmem h !! i)
    by (intros i; by apply write_zero_lookup; lia).
  assert (Hlow : forall s i, s ∈ segs -> in_region s i -> i < brk h).
  { intros s i Hin Hi. apply (heap_valid_below h); [done|]. by apply (Hsegs s). }
  split; [split; cbn [hmem]|split; [split; cbn [brk hmem]|intros i Hi; apply Hb3; apply Hi]].
  - done.
  - done.
  - lia.
  - intros i Hi. rewrite Hl. by destruct (decide _); [|lia].
  - intros i Hi (s & Hin & Hs). specialize (Hlow s i Hin Hs). unfold in_region in Hi. cbn in Hi. lia.
  - intros i Hi. rewrite Hl. destruct (decide _); [|done]. destruct Hi. unfold in_region. cbn. lia.
  - replace ((size * 8 + 7) / 8) with size by zlia. split_and!; [cbn; lia|cbn; zlia|].
    cbn. intros i Hi. rewrite Hl. destruct (decide _); [lia|]. apply Hb3. lia.
  - lia.
  - lia.
  - intros s. rewrite elem_of_cons. intros [->|Hin]; cbn [fst snd].
    + split; [lia|]. intros i Hi. rewrite Hl. destruct (decide _); [by eexists|lia].
    + destruct (Hsegs s Hin) as [Hc Hv]. split; [done|]. intros i Hi. rewrite Hl.
      destruct (decide _); [by eexists|by apply Hv].
  - cbn [separate]. split; [|done]. intros i Hi (s & Hin & Hs). specialize (Hlow s i Hin Hs).
    unfold in_region in Hi. cbn in Hi. lia.
Qed.

Lemma heap_deallocate_ok a h segs p cap used : heap_held a h ((p, cap) :: segs) ->
  exists a' h', heap_deallocate_segment p cap used (a, h) = (Ok tt, (a', h')) /\
    heap_held a' h' segs /\ unchanged_outside (in_region (p, cap)) (hmem h) (hmem h').
Proof.
  intros [Hh Hnext Hmax Hsegs [Hsep1 Hsep2]].
  destruct (Hsegs (p, cap) ltac:(left)) as [Hcap Hv]. cbn [fst snd] in *.
  unfold heap_deallocate_segment, BYTES_PER_WORD. rewrite umul_ok by lia. erewrite (lift_bind_ok (Ok _)) by done.
  unfold layout_of_size. destruct (Z.leb_spec (cap * 8) (2 ^ 63 - 8)); [|lia].
  erewrite (lift_bind_ok (rust_assert true)) by done.
  destruct (dealloc_ok p (cap * 8) h) as (h' & Hd & Hbrk & Hl); [lia|by rewrite Z.mul_comm|].
  erewrite ST_bind_ok by (unfold on_snd; by rewrite Hd).
  rewrite (ST_bind_ok get_state _ _ _ _ eq_refl). cbn [fst].
  eexists _, h'. split; [done|]. split; [split|].
  - destruct Hh as (Hb1 & Hb2 & Hb3). unfold heap_ok. rewrite Hbrk. split_and!; try done.
    intros i Hi. rewrite Hl. destruct (decide _); [done|by apply Hb3].
  - cbn. unfold SUGGESTED_FIRST_SEGMENT_WORDS in *. lia.
  - done.
  - intros s Hin. destruct (Hsegs s ltac:(by right)) as [Hc Hvs]. split; [done|].
    intros i Hi. rewrite Hl. destruct (decide _); [|by apply Hvs].
    destruct (Hsep1 i); [unfold in_region; cbn; lia|by exists s].
  - done.
  - intros i Hi. rewrite Hl. destruct (decide _); [|done]. destruct Hi. unfold in_region. cbn. lia.
Qed.

#[export] Program Instance HeapAllocator_ok : AllocatorOk HeapAllocator := {|
  held := heap_held;
  exhausted := fun _ _ => False
|}.
Next Obligation. intros a h segs s Hh Hs. by apply (hh_segs _ _ _ Hh). Qed.
Next Obligation. intros a h segs segs' Hh Hp. by eapply heap_held_perm. Qed.
Next Obligation. intros a h segs Hh. by apply (hh_sep _ _ _ Hh). Qed.
Next Obligation. intros a h h' segs Hh Hb Hd _. by eapply heap_held_stable. Qed.
Next Obligation.
  intros a h segs n Hh Hn. pose proof (heap_allocate_ok a h segs n Hh Hn) as Hok.
  cbn [allocate_segment HeapAllocator_allocator].
  destruct (heap_allocate_segment n (a, h)) as [[[p cap]| | | |] [a' h']]; try done. by destruct Hok as (? & ? & _).
Qed.
Next Obligation. intros a h segs p cap used Hh _ _. by apply heap_deallocate_ok. Qed.

(** ** [ScratchSpaceHeapAllocator] *)

Definition scratch_region (a : ScratchSpaceHeapAllocator) : Z * Z :=
  (scratch_ptr a, scratch_len a / BYTES_PER_WORD).

Record buffer_ok (p len : Z) (m : mem) : Prop := {
  buffer_aligned : p mod 8 = 0;
  buffer_pos : 0 < p;
  buffer_len : 0 < len / 8 <= 2 ^ 29;
  buffer_valid : valid m p (8 * (len / 8))
}.

Record scratch_held (a : ScratchSpaceHeapAllocator) (h : Heap) (segs : list (Z * Z)) : Prop := {
  sh_buffer : buffer_ok (scratch_ptr a) (scratch_len a) (hmem h);
  sh_inner : exists hs, heap_held (heap_allocator a) h hs /\
    (forall i, in_region (scratch_region a) i -> ~ in_regions hs i) /\
    (if scratch_space_allocated a then segs ≡ₚ scratch_region a :: hs
     else segs ≡ₚ hs /\ zeroed (hmem h) (scratch_ptr a) (8 * (scratch_len a / BYTES_PER_WORD)))
}.

Lemma scratch_segs a h segs : scratch_held a h segs -> separate segs /\
  forall s, s ∈ segs -> 0 < snd s < 2 ^ 32 /\ valid (hmem h) (fst s) (8 * snd s).
Proof.
  intros [[Hal Hpos Hlen Hv] (hs & Hin & Hap & Hp)].
  assert (Hsep : separate (scratch_region a :: hs)) by (split; [done|apply (hh_sep _ _ _ Hin)]).
  assert (Hall : forall s, s ∈ scratch_region a :: hs -> 0 < snd s < 2 ^ 32 /\ valid (hmem h) (fst s) (8 * snd s)).
  { intros s. rewrite elem_of_cons. intros [->|Hs]; [|by apply (hh_segs _ _ _ Hin)].
    unfold scratch_region, BYTES_PER_WORD. cbn [fst snd]. split; [lia|].
    eapply valid_sub; [exact Hv|lia|]. zlia. }
  destruct (scratch_space_allocated a).
  - split; [by eapply separate_perm|]. intros s Hs. apply Hall. by rewrite <- Hp.
  - destruct Hp as [Hp _]. split; [by eapply separate_perm; [symmetry; exact Hp|]; destruct Hsep|].
    intros s Hs. apply Hall. right. by rewrite <- Hp.
Qed.

Lemma scratch_held_stable a h h' segs : scratch_held a h segs -> brk h' = brk h ->
  same_domain (hmem h) (hmem h') -> unchanged_outside (in_regions segs) (hmem h) (hmem h') ->
  scratch_held a h' segs.
Proof.
  intros [[Hal Hpos Hlen Hv] (hs & Hin & Hap & Hp)] Hb Hd Hu. split.
  - split; try done. intros i Hi. apply Hd, Hv, Hi.
  - exists hs. split; [by eapply heap_held_stable|]. split; [done|].
    destruct (scratch_space_allocated a); [done|]. destruct Hp as [Hp Hz]. split; [done|].
    intros i Hi. rewrite Hu; [by apply Hz|]. intros Hr. apply (in_regions_perm _ _ i Hp) in Hr.
    revert Hr. apply Hap. done.
Qed.

(** A segment of the inner allocator is apart from the scratch space. *)
Lemma scratch_inner_ok a h segs hs n x h' p cap : buffer_ok (scratch_ptr a) (scratch_len a) (hmem h) ->
  (forall i, in_region (scratch_region a) i -> ~ in_regions hs i) ->
  (if scratch_space_allocated a then segs ≡ₚ scratch_region a :: hs
   else segs ≡ₚ hs /\ zeroed (hmem h) (scratch_ptr a) (8 * (scratch_len a / BYTES_PER_WORD))) ->
  fresh_segment n h h' hs p cap -> heap_held x h' ((p, cap) :: hs) ->
  (forall i, in_region (p, cap) i -> hmem h !! i = None) ->
  fresh_segment n h h' segs p cap /\ scratch_held (set_heap_allocator x a) h' ((p, cap) :: segs).
Proof.
  intros [Hal Hpos Hlen Hv] Hap Hp [Ha1 Ha2 Ha3 Ha4 Ha5 Ha6] Hh' Hnone.
  assert (Hbuf : forall i, scratch_ptr a <= i < scratch_ptr a + 8 * (scratch_len a / 8) -> ~ in_region (p, cap) i).
  { intros i Hi Hr. apply Hnone in Hr. destruct (Hv i Hi) as [b Hb]. congruence. }
  assert (Hreg : forall i, in_region (scratch_region a) i -> scratch_ptr a <= i < scratch_ptr a + 8 * (scratch_len a / 8)).
  { intros i Hi. unfold in_region, scratch_region, BYTES_PER_WORD in Hi. cbn [fst snd] in Hi. zlia. }
  assert (Hin : forall i, in_region (p, cap) i -> ~ in_regions segs i).
  { intros i Hi Hr. destruct (scratch_space_allocated a).
    - apply (in_regions_perm _ _ i Hp), in_regions_cons in Hr as [Hr|Hr]; [|by apply (Ha5 i)].
      by apply (Hbuf i); [apply Hreg|].
    - destruct Hp as [Hp _]. apply (in_regions_perm _ _ i Hp) in Hr. by apply (Ha5 i). }
  split; [by split|]. split; cbn [scratch_ptr scratch_len set_heap_allocator].
  - split; try done. intros i Hi. rewrite Ha6 by (by apply Hbuf). by apply Hv.
  - exists ((p, cap) :: hs). split; [done|]. split.
    + intros i Hi. rewrite in_regions_cons. intros [Hr|Hr]; [|by apply (Hap i)].
      by apply (Hbuf i); [apply Hreg|].
    + cbn [scratch_space_allocated set_heap_allocator]. destruct (scratch_space_allocated a).
      * rewrite Hp. apply Permutation_swap.
      * destruct Hp as [Hp Hz]. split; [by rewrite Hp|]. intros i Hi. rewrite Ha6; [by apply Hz|].
        apply Hbuf, Hreg, Hi.
Qed.

Lemma scratch_allocate_ok a h segs n : scratch_held a h segs -> 0 < n < 2 ^ 32 ->
  match scratch_allocate_segment n (a, h) with
  | (Ok (p, cap), (a', h')) => fresh_segment n h h' segs p cap /\ scratch_held a' h' ((p, cap) :: segs)
  | _ => False
  end.
Proof.
  intros [Hbuf (hs & Hin & Hap & Hp)] Hn. unfold scratch_allocate_segment.
  rewrite (ST_bind_ok get_state _ _ _ _ eq_refl). cbn [fst].
  destruct ((n <? scratch_len a / BYTES_PER_WORD) && negb (scratch_space_allocated a)) eqn:E.
  - apply andb_prop in E as [Elt Es]. apply Z.ltb_lt in Elt. apply negb_true_iff in Es. rewrite Es in Hp.
    pose proof Hbuf as [Hal Hpos Hlen Hv]. unfold BYTES_PER_WORD in *. destruct Hp as [Hp Hz].
    unfold on_fst, put_state, bind, ret; cbn [ST_monad]. rewrite wrap32_small by lia. split; [split|].
    + done.
    + done.
    + lia.
    + done.
    + intros i Hi Hr. apply (in_regions_perm _ _ i Hp) in Hr. by apply (Hap i).
    + by intros i _.
    + split; [done|]. exists hs. split; [done|]. split; [done|]. cbn. by rewrite Hp.
  - unfold on_heap_allocator; cbn [allocate_segment HeapAllocator_allocator].
    pose proof (heap_allocate_ok _ h hs n Hin Hn) as Hok.
    destruct (heap_allocate_segment n (heap_allocator a, h)) as [[[p cap]| | | |] [x h']]; try done.
    destruct Hok as (Hf & Hh' & Hnone). by eapply scratch_inner_ok.
Qed.

Lemma scratch_deallocate_ok a h segs p cap used : scratch_held a h ((p, cap) :: segs) -> 0 <= used <= cap ->
  zeroed (hmem h) (p + 8 * used) (8 * (cap - used)) ->
  exists a' h', scratch_deallocate_segment p cap used (a, h) = (Ok tt, (a', h')) /\
    scratch_held a' h' segs /\ unchanged_outside (in_region (p, cap)) (hmem h) (hmem h').
Proof.
  intros Hheld Hused Hz. destruct (scratch_segs _ _ _ Hheld) as [[Hsep Hsep'] Hsegs].
  destruct Hheld as [Hbuf (hs & Hin & Hap & Hp)]. pose proof Hbuf as [Hal Hpos Hlen Hv].
  destruct (Hsegs (p, cap) ltac:(left)) as [Hcap Hvp]. cbn [fst snd] in Hcap, Hvp.
  unfold scratch_deallocate_segment. rewrite (ST_bind_ok get_state _ _ _ _ eq_refl). cbn [fst].
  assert (Hhs : p <> scratch_ptr a -> (p, cap) ∈ hs).
  { intros Hne. assert (Hm : (p, cap) ∈ (p, cap) :: segs) by left. destruct (scratch_space_allocated a).
    - rewrite Hp in Hm. apply elem_of_cons in Hm as [Hm|Hm]; [|done]. by injection Hm.
    - destruct Hp as [Hp _]. by rewrite Hp in Hm. }
  destruct (Z.eqb_spec p (scratch_ptr a)) as [->|Hne].
  - clear Hhs. assert (Hnot : (scratch_ptr a, cap) ∉ hs).
    { intros Hm. apply (Hap (scratch_ptr a)).
      - unfold in_region, scratch_region, BYTES_PER_WORD. cbn [fst snd]. lia.
      - exists (scratch_ptr a, cap). split; [done|]. unfold in_region. cbn [fst snd]. lia. }
    assert (Hm : (scratch_ptr a, cap) ∈ (scratch_ptr a, cap) :: segs) by left.
    destruct (scratch_space_allocated a) eqn:Es.
    2: { destruct Hp as [Hp _]. by rewrite Hp in Hm. }
    rewrite Hp in Hm. apply elem_of_cons in Hm as [Hm|Hm]; [|done].
    injection Hm as Hm. unfold BYTES_PER_WORD in *. rewrite umul_ok by lia. erewrite (lift_bind_ok (Ok _)) by done.
    destruct (heap_zero_ok (scratch_ptr a) (used * 8) h) as (h' & Hd & Hbrk & Hl);
      [lia|by eapply valid_sub; [exact Hvp|lia|lia]|].
    erewrite ST_bind_ok by (unfold on_snd; by rewrite Hd).
    eexists _, h'. split; [done|]. split; [split; cbn [scratch_ptr scratch_len set_scratch_allocated]|].
    + split; try done. intros i Hi. rewrite Hl. destruct (decide _); [by eexists|by apply Hv].
    + exists hs. split; [|split; [done|cbn; split]].
      * eapply heap_held_stable; [exact Hin|done|]. intros i. rewrite Hl. destruct (decide _); [|done].
        split; intros _; [|by eexists]. apply Hvp. lia.
      * unfold scratch_region, BYTES_PER_WORD in Hp. rewrite <- Hm in Hp. by apply Permutation_cons_inv in Hp.
      * unfold BYTES_PER_WORD. rewrite <- Hm. intros i Hi. rewrite Hl. destruct (decide _); [done|].
        apply Hz. lia.
    + intros i Hi. rewrite Hl. destruct (decide _); [|done]. destruct Hi. unfold in_region. cbn [fst snd]. lia.
  - specialize (Hhs Hne). apply elem_of_Permutation in Hhs as [hs' Hhs].
    unfold on_heap_allocator. cbn [deallocate_segment HeapAllocator_allocator].
    destruct (heap_deallocate_ok (heap_allocator a) h hs' p cap used) as (x & h' & Hd & Hh' & Hu).
    { by eapply heap_held_perm. }
    rewrite Hd. eexists _, h'. split; [done|].
    assert (Hapart : forall i, scratch_ptr a <= i < scratch_ptr a + 8 * (scratch_len a / 8) -> ~ in_region (p, cap) i).
    { intros i Hi Hr. apply (Hap i); [done|]. exists (p, cap). split; [|done]. rewrite Hhs. left. }
    split; [|done]. split; cbn [scratch_ptr scratch_len set_heap_allocator].
    + split; try done. intros i Hi. rewrite Hu by (by apply Hapart). by apply Hv.
    + exists hs'. split; [done|]. split.
      { intros i Hi (s & Hs & Hr). apply (Hap i Hi). exists s. split; [|done]. rewrite Hhs. by right. }
      cbn [scratch_space_allocated set_heap_allocator]. destruct (scratch_space_allocated a).
      * rewrite Hhs in Hp. rewrite Permutation_swap in Hp. by apply Permutation_cons_inv in Hp.
      * destruct Hp as [Hp Hz']. split; [rewrite Hhs in Hp; by apply Permutation_cons_inv in Hp|].
        intros i Hi. rewrite Hu by (by apply Hapart). by apply Hz'.
Qed.

#[export] Program Instance ScratchSpaceHeapAllocator_ok : AllocatorOk ScratchSpaceHeapAllocator := {|
  held := scratch_held;
  exhausted := fun _ _ => False
|}.
Next Obligation. intros a h segs s Hh Hs. by apply (scratch_segs _ _ _ Hh). Qed.
Next Obligation.
  intros a h segs segs' [Hb (hs & Hin & Hap & Hp)] Hperm. split; [done|]. exists hs. split; [done|].
  split; [done|]. destruct (scratch_space_allocated a); [by rewrite <- Hperm|].
  destruct Hp as [Hp Hz]. split; [by rewrite <- Hperm|done].
Qed.
Next Obligation. intros a h segs Hh. by apply (scratch_segs _ _ _ Hh). Qed.
Next Obligation. exact scratch_held_stable. Qed.
Next Obligation.
  intros a h segs n Hh Hn. pose proof (scratch_allocate_ok a h segs n Hh Hn) as Hok.
  cbn [allocate_segment ScratchSpaceHeapAllocator_allocator].
  by destruct (scratch_allocate_segment n (a, h)) as [[[p cap]| | | |] [a' h']].
Qed.
Next Obligation. exact scratch_deallocate_ok. Qed.

(** ** [SingleSegmentAllocator] *)

Definition single_region (a : SingleSegmentAllocator) : Z * Z :=
  (segment_ptr a, segment_len a / BYTES_PER_WORD).

Record single_held (a : SingleSegmentAllocator) (h : Heap) (segs : list (Z * Z)) : Prop := {
  sg_buffer : buffer_ok (segment_ptr a) (segment_len a) (hmem h);
  sg_segs : if segment_allocated a then segs = [single_region a]
            else segs = [] /\ zeroed (hmem h) (segment_ptr a) (8 * (segment_len a / BYTES_PER_WORD))
}.

Lemma single_allocate_ok a h segs n : single_held a h segs -> 0 < n < 2 ^ 32 ->
  match single_allocate_segment n (a, h) with
  | (Ok (p, cap), (a', h')) => fresh_segment n h h' segs p cap /\ single_held a' h' ((p, cap) :: segs)
  | (Panic, _) => segment_len a / BYTES_PER_WORD < n \/ segment_allocated a = true
  | _ => False
  end.
Proof.
  intros [[Hal Hpos Hlen Hv] Hs] Hn. unfold single_allocate_segment.
  rewrite (ST_bind_ok get_state _ _ _ _ eq_refl). cbn [fst].
  destruct (Z.ltb_spec (segment_len a / BYTES_PER_WORD) n) as [|Hle]; [by left|].
  destruct (segment_allocated a) eqn:Es; [by right|]. destruct Hs as [-> Hz].
  unfold BYTES_PER_WORD in *. unfold on_fst, put_state, bind, ret; cbn [ST_monad].
  rewrite wrap32_small by lia. split; [split; try done|].
  - lia.
  - intros i _. apply in_regions_nil.
  - by split.
Qed.

Lemma single_deallocate_ok a h segs p cap used : single_held a h ((p, cap) :: segs) -> 0 <= used <= cap ->
  zeroed (hmem h) (p + 8 * used) (8 * (cap - used)) ->
  exists a' h', single_deallocate_segment p cap used (a, h) = (Ok tt, (a', h')) /\
    single_held a' h' segs /\ unchanged_outside (in_region (p, cap)) (hmem h) (hmem h').
Proof.
  intros [[Hal Hpos Hlen Hv] Hs] Hused Hz. unfold single_deallocate_segment.
  rewrite (ST_bind_ok get_state _ _ _ _ eq_refl). cbn [fst].
  destruct (segment_allocated a) eqn:Es; [|by destruct Hs]. injection Hs as -> -> ->.
  rewrite Z.eqb_refl. unfold BYTES_PER_WORD in *. rewrite umul_ok by lia. erewrite (lift_bind_ok (Ok _)) by done.
  destruct (heap_zero_ok (segment_ptr a) (used * 8) h) as (h' & Hd & Hbrk & Hl);
    [lia|by eapply valid_sub; [exact Hv|lia|lia]|].
  erewrite ST_bind_ok by (unfold on_snd; by rewrite Hd).
  eexists _, h'. split; [done|]. split; [split; cbn|].
  - split; try done. intros i Hi. rewrite Hl. destruct (decide _); [by eexists|by apply Hv].
  - split; [done|]. intros i Hi. rewrite Hl. destruct (decide _); [done|]. apply Hz. unfold BYTES_PER_WORD in *. lia.
  - intros i Hi. rewrite Hl. destruct (decide _); [|done]. destruct Hi. unfold in_region. cbn [fst snd]. lia.
Qed.

#[export] Program Instance SingleSegmentAllocator_ok : AllocatorOk SingleSegmentAllocator := {|
  held := single_held;
  exhausted := fun a n => segment_len a / BYTES_PER_WORD < n \/ segment_allocated a = true
|}.
Next Obligation.
  intros a h segs s [[Hal Hpos Hlen Hv] Hs] Hin. destruct (segment_allocated a).
  - rewrite Hs in Hin. apply list_elem_of_singleton in Hin as ->. done.
  - destruct Hs as [-> _]. by apply elem_of_nil in Hin.
Qed.
Next Obligation.
  intros a h segs segs' [Hb Hs] Hperm. split; [done|]. destruct (segment_allocated a).
  - rewrite Hs in Hperm. by apply Permutation_singleton_l in Hperm as ->.
  - destruct Hs as [-> Hz]. by apply Permutation_nil_l in Hperm as <-.
Qed.
Next Obligation.
  intros a h segs [_ Hs]. destruct (segment_allocated a); [rewrite Hs; split; [|done]|by destruct Hs as [-> _]].
  intros i _. apply in_regions_nil.
Qed.
Next Obligation.
  intros a h h' segs [[Hal Hpos Hlen Hv] Hs] Hb Hd Hu. split; [split; try done|].
  - intros i Hi. apply Hd, Hv, Hi.
  - destruct (segment_allocated a); [done|]. destruct Hs as [-> Hz]. split; [done|].
    intros i Hi. rewrite Hu; [by apply Hz|apply in_regions_nil].
Qed.
Next Obligation.
  intros a h segs n Hh Hn. pose proof (single_allocate_ok a h segs n Hh Hn) as Hok.
  cbn [allocate_segment SingleSegmentAllocator_allocator].
  by destruct (single_allocate_segment n (a, h)) as [[[p cap]| | | |] [a' h']].
Qed.
Next Obligation. exact single_deallocate_ok. Qed.

(** ** Using an allocator

    A client of an allocator asks for segments, writes to those it has, and
    gives them back, in any order.  [well_behaved] says what it can rely on
    after any such history; it does not mention how the allocator works. *)

Section traces.
Context {A : Type} `{Allocator A}.

(** The allocator, the heap, and the segments the client has *)
Definition client : Type := A * Heap * list (Z * Z).

Inductive client_step : client -> client -> Prop :=
| step_allocate a h segs n p cap a' h' : 0 < n < 2 ^ 32 ->
    allocate_segment n (a, h) = (Ok (p, cap), (a', h')) ->
    client_step (a, h, segs) (a', h', (p, cap) :: segs)
| step_write a h segs i b : in_regions segs i ->
    client_step (a, h, segs) (a, set_hmem (<[i := b]> (hmem h)) h, segs)
| step_give_back a h s1 p cap s2 words_used a' h' : 0 <= words_used <= cap ->
    zeroed (hmem h) (p + 8 * words_used) (8 * (cap - words_used)) ->
    deallocate_segment p cap words_used (a, h) = (Ok tt, (a', h')) ->
    client_step (a, h, s1 ++ (p, cap) :: s2) (a', h', s1 ++ s2).

(** After any history: the segments are apart and can be accessed, they can be
    given back as the documentation asks, and a new one is aligned, large
    enough, zeroed, apart from the others, and changes nothing else. *)
Record good_client (c : client) : Prop := {
  gc_separate : separate (snd c);
  gc_valid : forall s, s ∈ snd c -> valid (hmem (snd (fst c))) (fst s) (8 * snd s);
  gc_allocate : forall n p cap a' h', 0 < n < 2 ^ 32 ->
    allocate_segment n (fst c) = (Ok (p, cap), (a', h')) ->
    fresh_segment n (snd (fst c)) h' (snd c) p cap;
  gc_give_back : forall p cap words_used, (p, cap) ∈ snd c -> 0 <= words_used <= cap ->
    zeroed (hmem (snd (fst c))) (p + 8 * words_used) (8 * (cap - words_used)) ->
    exists a' h', deallocate_segment p cap words_used (fst c) = (Ok tt, (a', h')) /\
      unchanged_outside (in_region (p, cap)) (hmem (snd (fst c))) (hmem h')
}.

Definition well_behaved (a : A) (h : Heap) : Prop :=
  forall c, rtc client_step (a, h, []) c -> good_client c.

Context `{!AllocatorOk A}.

Definition held_client (c : client) : Prop := held (fst (fst c)) (snd (fst c)) (snd c).

Lemma client_step_held c c' : client_step c c' -> held_client c -> held_client c'.
Proof.
  intros [a h segs n p cap a' h' Hn Ha|a h segs i b Hi|a h s1 p cap s2 u a' h' Hu Hz Hd]; unfold held_client; cbn [fst snd].
  - intros Hh. pose proof (allocate_spec a h segs n Hh Hn) as Hs. rewrite Ha in Hs. by destruct Hs.
  - intros Hh. apply (held_stable a h); [done|done| |].
    + intros j. cbn [set_hmem hmem]. destruct (Z.eq_dec j i) as [->|].
      * rewrite lookup_insert_eq. split; [intros _|by eexists].
        destruct Hi as (s & Hs & Hi). apply (held_valid a h segs s Hh Hs). unfold in_region in Hi. lia.
      * by rewrite lookup_insert_ne.
    + intros j Hj. cbn [set_hmem hmem]. rewrite lookup_insert_ne; [done|]. by intros ->.
  - intros Hh. apply (held_perm _ _ _ ((p, cap) :: s1 ++ s2)) in Hh; [|by rewrite Permutation_middle].
    destruct (deallocate_spec a h _ p cap u Hh Hu Hz) as (a2 & h2 & E & Hh2 & _).
    rewrite E in Hd. by injection Hd as <- <-.
Qed.

Lemma held_good c : held_client c -> good_client c.
Proof.
  destruct c as [[a h] segs]. unfold held_client. cbn [fst snd]. intros Hh. split; cbn [fst snd].
  - by eapply held_separate.
  - intros s Hs. by eapply held_valid.
  - intros n p cap a' h' Hn Ha. pose proof (allocate_spec a h segs n Hh Hn) as Hs. rewrite Ha in Hs. by destruct Hs.
  - intros p cap u Hin Hu Hz. apply elem_of_Permutation in Hin as (rest & Hp).
    destruct (deallocate_spec a h rest p cap u) as (a2 & h2 & E & _ & Ho); try done.
    { by eapply held_perm. }
    by exists a2, h2.
Qed.

Lemma held_well_behaved a h : held a h [] -> well_behaved a h.
Proof.
  intros Hh c Hc. apply held_good. change (held_client (a, h, [])) in Hh.
  induction Hc as [c|c1 c2 c3 Hs _ IH]; [done|]. apply IH. by eapply client_step_held.
Qed.
End traces.

(** ** The allocators of message.rs start out holding nothing. *)

Lemma HeapAllocator_new_held h : heap_ok h -> held HeapAllocator_new h [].
Proof.
  intros Hh. split; try done.
  intros s Hs. by apply elem_of_nil in Hs.
Qed.

(** A buffer that was zeroed *)
Lemma zeroed_buffer ptr len h : buffer_ok ptr len (hmem h) -> valid (hmem h) ptr len -> 
  exists h', heap_zero ptr len h = (Ok tt, h') /\ brk h' = brk h /\ same_domain (hmem h) (hmem h') /\
    buffer_ok ptr len (hmem h') /\ zeroed (hmem h') ptr (8 * (len / 8)).
Proof.
  intros [Hal Hpos Hlen Hv] Hvl.
  destruct (heap_zero_ok ptr len h) as (h' & E & Hb & Hl); [zlia|done|].
  assert (Hd : same_domain (hmem h) (hmem h')).
  { intros i. rewrite Hl. destruct (decide _); [|done]. split; [intros _; by apply Hvl|by eexists]. }
  exists h'. split_and!; try done.
  - split; try done. intros i Hi. by apply Hd, Hv.
  - intros i Hi. rewrite Hl. destruct (decide _); [done|zlia].
Qed.

Lemma ScratchSpaceHeapAllocator_new_held ptr len h : heap_ok h -> buffer_ok ptr len (hmem h) ->
  valid (hmem h) ptr len ->
  exists a h', ScratchSpaceHeapAllocator_new ptr len h = (Ok a, h') /\ held a h' [].
Proof.
  intros Hh Hb Hv. destruct (zeroed_buffer ptr len h Hb Hv) as (h' & E & Hbrk & Hd & Hb' & Hz).
  unfold ScratchSpaceHeapAllocator_new. destruct Hb as [Hal _ _ _]. unfold BYTES_PER_WORD. rewrite Hal.
  cbn [negb Z.eqb]. rewrite (ST_bind_ok _ _ _ _ _ E). eexists _, h'. split; [done|]. split; [done|].
  exists []. cbn. split_and!; try done.
  - apply (heap_held_stable _ h); [by apply HeapAllocator_new_held|done|done].
  - intros i _. apply in_regions_nil.
Qed.

Lemma SingleSegmentAllocator_new_held ptr len h : buffer_ok ptr len (hmem h) -> valid (hmem h) ptr len ->
  exists a h', SingleSegmentAllocator_new ptr len h = (Ok a, h') /\ held a h' [].
Proof.
  intros Hb Hv. destruct (zeroed_buffer ptr len h Hb Hv) as (h' & E & Hbrk & Hd & Hb' & Hz).
  unfold SingleSegmentAllocator_new. destruct Hb as [Hal _ _ _]. unfold BYTES_PER_WORD. rewrite Hal.
  cbn [negb Z.eqb]. rewrite (ST_bind_ok _ _ _ _ _ E). eexists _, h'. split; [done|]. by split.
Qed.
