(* ===== verification/BuilderArena.v ===== *)
(** * The arena of a message being built: capnp/src/private/arena.rs

    [BuilderArenaImpl] over any [Allocator].  The state of the operations is
    the [World]: the heap, the arena, the capability tables, and the read
    limiter of a message that is copied from. *)

From S2P Require Import Prelude.
From S2P Require Import Mem.
From S2P Require Import ReadLimiter.
From S2P Require Import Segments.
From S2P Require Import Arena.
From S2P Require Import Readers.
From S2P Require Import Allocators.
Record BuilderSegment := {
  seg_ptr : Z;
  seg_capacity : Z;
  seg_allocated : Z
}.

(** [BuilderArenaImpl] and its [inner]; the allocator is [None] once it has
    been taken out. *)
Record BuilderArenaImpl (A : Type) := {
  arena_allocator : option A;
  builder_segments : list BuilderSegment
}.
Arguments arena_allocator {A} _.
Arguments builder_segments {A} _.

Definition BuilderArenaImpl_new {A} (allocator : A) : BuilderArenaImpl A :=
  {| arena_allocator := Some allocator; builder_segments := [] |}.

Record World (A : Type) := {
  heap : Heap;
  warena : BuilderArenaImpl A;
  caps : gmap Z CapTable;
  limiter : ReadLimiter
}.
Arguments heap {A} _.
Arguments warena {A} _.
Arguments caps {A} _.
Arguments limiter {A} _.

(** A computation over the world *)
Abbreviation B A X := (ST (World A) X).

Section world.
Context {A : Type}.

Definition set_heap (h : Heap) (w : World A) : World A :=
  {| heap := h; warena := warena w; caps := caps w; limiter := limiter w |}.
Definition set_warena (a : BuilderArenaImpl A) (w : World A) : World A :=
  {| heap := heap w; warena := a; caps := caps w; limiter := limiter w |}.
Definition set_caps (c : gmap Z CapTable) (w : World A) : World A :=
  {| heap := heap w; warena := warena w; caps := c; limiter := limiter w |}.
Definition set_limiter (l : ReadLimiter) (w : World A) : World A :=
  {| heap := heap w; warena := warena w; caps := caps w; limiter := l |}.

(** Memory accesses, computations on the heap, and reads of another message *)
Definition on_mem {X} (f : mem -> outcome X) : B A X := fun w => (f (hmem (heap w)), w).
Definition on_heap {X} (c : ST Heap X) : B A X := fun w =>
  let '(o, h) := c (heap w) in (o, set_heap h w).
Definition on_limiter {X} (c : mem -> gmap Z CapTable -> ST ReadLimiter X) : B A X := fun w =>
  let '(o, l) := c (hmem (heap w)) (caps w) (limiter w) in (o, set_limiter l w).

Definition set_segments (s : list BuilderSegment) (a : BuilderArenaImpl A) : BuilderArenaImpl A :=
  {| arena_allocator := arena_allocator a; builder_segments := s |}.

Definition get_segments : B A (list BuilderSegment) := fun w => (Ok (builder_segments (warena w)), w).
Definition put_segments (s : list BuilderSegment) : B A unit := fun w =>
  (Ok tt, set_warena (set_segments s (warena w)) w).

(** [self.segments[id as usize]] *)
Definition index_segment (id : Z) : B A BuilderSegment :=
  segments ← get_segments;
  match segments !! Z.to_nat id with Some seg => ret seg | None => lift Panic end.

(** A call on the allocator, which must still be there *)
Definition on_allocator {X} (c : ST (A * Heap) X) : B A X := fun w =>
  match arena_allocator (warena w) with
  | None => (Panic, w)
  | Some a =>
      let '(o, (a, h)) := c (a, heap w) in
      (o, set_heap h (set_warena {| arena_allocator := Some a;
                                    builder_segments := builder_segments (warena w) |} w))
  end.

(** ** [BuilderArenaImplInner] *)

Context `{Allocator A}.

Definition arena_allocate_segment (minimum_size : Z) : B A unit :=
  seg ← on_allocator (allocate_segment minimum_size);
  segments ← get_segments;
  put_segments (segments ++ [{| seg_ptr := fst seg; seg_capacity := snd seg; seg_allocated := 0 |}]).

Definition set_allocated (v : Z) (seg : BuilderSegment) : BuilderSegment :=
  {| seg_ptr := seg_ptr seg; seg_capacity := seg_capacity seg; seg_allocated := v |}.

Definition arena_allocate (segment_id amount : Z) : B A (option Z) :=
  seg ← index_segment segment_id;
  room ← lift (usub (seg_capacity seg) (seg_allocated seg));
  if room <? amount then ret None
  else
    let result := seg_allocated seg in
    allocated ← lift (uadd 32 (seg_allocated seg) amount);
    segments ← get_segments;
    put_segments (<[Z.to_nat segment_id := set_allocated allocated seg]> segments) ;;
    ret (Some result).

(** [for segment_id in 0..allocated_len] of [allocate_anywhere] *)
Fixpoint allocate_in_existing (n : nat) (segment_id amount : Z) : B A (option (Z * Z)) :=
  match n with
  | O => ret None
  | S n =>
      o ← arena_allocate segment_id amount;
      match o with
      | Some idx => ret (Some (segment_id, idx))
      | None => allocate_in_existing n (segment_id + 1) amount
      end
  end.

Definition allocate_anywhere (amount : Z) : B A (Z * Z) :=
  segments ← get_segments;
  let allocated_len := wrap32 (Z.of_nat (length segments)) in
  o ← allocate_in_existing (Z.to_nat allocated_len) 0 amount;
  match o with
  | Some r => ret r
  | None =>
      unwrap_result (arena_allocate_segment amount) ;;
      o ← arena_allocate allocated_len amount;
      idx ← lift (unwrap o);
      ret (allocated_len, idx)
  end.

Fixpoint deallocate_segments (l : list BuilderSegment) : B A unit :=
  match l with
  | [] => ret tt
  | seg :: l =>
      on_allocator (deallocate_segment (seg_ptr seg) (seg_capacity seg) (seg_allocated seg)) ;;
      deallocate_segments l
  end.

Definition deallocate_all : B A unit := fun w =>
  match arena_allocator (warena w) with
  | Some _ => deallocate_segments (builder_segments (warena w)) w
  | None => (Ok tt, w)
  end.

Definition get_segment_mut (id : Z) : B A (Z * Z) :=
  seg ← index_segment id; ret (seg_ptr seg, seg_capacity seg).

(** ** [BuilderArenaImpl] *)

(** The used part of each segment *)
Fixpoint output_segments (m : mem) (l : list BuilderSegment) : outcome (list SliceAt) :=
  match l with
  | [] => Ok []
  | seg :: l =>
      n ← umul 64 (seg_allocated seg) BYTES_PER_WORD;
      bs ← load_bytes m (seg_ptr seg) n;
      rest ← output_segments m l;
      Ok ({| as_ptr := seg_ptr seg; slice_bytes := bs |} :: rest)
  end.

Definition get_segments_for_output : B A (list SliceAt) := fun w =>
  (output_segments (hmem (heap w)) (builder_segments (warena w)), w).

Definition arena_len : B A Z := segments ← get_segments; ret (Z.of_nat (length segments)).
Definition arena_is_empty : B A bool := n ← arena_len; ret (n =? 0).

(** [into_allocator]: the arena is dropped without its allocator, so the
    second [deallocate_all] does nothing. *)
Definition into_allocator : B A A :=
  deallocate_all ;;
  (fun w => (unwrap (arena_allocator (warena w)),
             set_warena {| arena_allocator := None; builder_segments := builder_segments (warena w) |} w)).

(** [Drop for BuilderArenaImplInner] *)
Definition arena_drop : B A unit := deallocate_all.
End world.

(** ** [ReaderArena for BuilderArenaImpl]: nothing is checked *)

Section reader.
Context (segments : list BuilderSegment).

Definition builder_get_segment (id : Z) : outcome (Z * Z) :=
  match segments !! Z.to_nat id with
  | Some seg => Ok (seg_ptr seg, seg_allocated seg)
  | None => Panic
  end.

Definition builder_check_offset (_segment_id start offset_in_words : Z) : outcome Z :=
  Ok (start + offset_in_words * BYTES_PER_WORD).

Definition builder_size_in_words : outcome Z :=
  fst (fold_range (length segments) 0 0 (fun ii result =>
    match segments !! Z.to_nat ii with
    | Some seg => lift (uadd 64 result (seg_allocated seg))
    | None => lift Panic
    end) tt).

Definition builder_reader_arena : ReaderArena := {|
  arena_get_segment := builder_get_segment;
  check_offset := builder_check_offset;
  contains_interval := fun _ _ _ => ret tt;
  amplified_read := fun _ => ret tt;
  get_nesting_limit := 0x7fffffff;
  arena_size_in_words := builder_size_in_words
|}.
End reader.

(** [as_reader] *)
Definition as_reader {A} : B A ReaderArena := fun w =>
  (Ok (builder_reader_arena (builder_segments (warena w))), w).
