(* ===== verification/Builders.v ===== *)
(** * Building: the builder half of capnp/src/private/layout.rs

    [wire_helpers]' allocation, zeroing, transfer, upgrade and copy functions
    over the [World] of BuilderArena.  The [arena: &mut dyn BuilderArena] of
    the code is the state.  Functions that recurse over a message without a
    nesting limit take fuel from the size of what they walk ([world_fuel], the
    words allocated; the length of a default value). *)

From S2P Require Import Prelude.
From S2P Require Import Mem.
From S2P Require Import ReadLimiter.
From S2P Require Import Segments.
From S2P Require Import WirePointer.
From S2P Require Import Arena.
From S2P Require Import Readers.
From S2P Require Import Allocators.
From S2P Require Import BuilderArena.
From Stdlib Require Strings.Byte.
#[export] Instance byte_eq_decision : EqDecision byte := Stdlib.Strings.Byte.byte_eq_dec.

Definition CapTableBuilder : Type := Z.

(** A builder holds the arena exclusively, so the arena is not a field. *)
Record PointerBuilder := {
  pb_segment_id : Z;
  pb_cap_table : CapTableBuilder;
  pb_pointer : Z
}.
Record StructBuilder := {
  sb_cap_table : CapTableBuilder;
  sb_data : Z;
  sb_pointers : Z;
  sb_segment_id : Z;
  sb_data_size : Z;
  sb_pointer_count : Z
}.
Record ListBuilder := {
  lb_cap_table : CapTableBuilder;
  lb_ptr : Z;
  lb_segment_id : Z;
  lb_element_count : Z;
  lb_step : Z;
  lb_struct_data_size : Z;
  lb_struct_pointer_count : Z;
  lb_element_size : ElementSize
}.

(** [text::Builder]: the bytes and the write position *)
Record TextBuilder := { tb_bytes : ByteSlice; tb_pos : Z }.

Section builders.
Context {A : Type} `{Allocator A}.

(** ** Memory *)

Definition wload (a : Z) : B A WirePointer := on_mem (fun m => load_wp m a).
Definition store_wp (m : mem) (a : Z) (p : WirePointer) : outcome mem :=
  m ← store m a 4 (offset_and_kind p); store m (a + 4) 4 (upper32bits p).
Definition wput (f : mem -> outcome mem) : B A unit :=
  on_heap (h ← get_state; m ← lift (f (hmem h)); put_state (set_hmem m h)).
Definition wstore (a : Z) (p : WirePointer) : B A unit := wput (fun m => store_wp m a p).

(** [( *a).f(..)] for a setter [f] *)
Definition wset (a : Z) (f : WirePointer -> WirePointer) : B A unit :=
  p ← wload a; wstore a (f p).
Definition wset_checked (a : Z) (f : WirePointer -> outcome WirePointer) : B A unit :=
  p ← wload a; p ← lift (f p); wstore a p.

(** [ptr::write_bytes(a, 0, n)] *)
Definition wzero (a n : Z) : B A unit := on_heap (heap_zero a n).

(** [copy_nonoverlapping_check_zero] for [n] bytes: overlapping is [UB]. *)
Definition copy_nonoverlapping_check_zero (src dst n : Z) : B A unit :=
  if 0 <? n then
    if (src <? dst + n) && (dst <? src + n) then lift UB
    else
      bs ← on_mem (fun m => load_bytes m src n);
      wput (fun m => store_bytes m dst bs)
  else ret tt.

(** The upper half of the pointer at [src], copied to the one at [dst] *)
Definition copy_upper32bits (src dst : Z) : B A unit :=
  v ← on_mem (fun m => load m (src + 4) 4);
  wput (fun m => store m (dst + 4) 4 v).

(** The words allocated so far, and one *)
Definition world_fuel : B A nat :=
  segments ← get_segments;
  ret (S (Z.to_nat (foldr (fun seg n => seg_allocated seg + n) 0 segments))).

(** ** Zeroing *)

(** [zero_object_helper], given [zero_object] *)
Definition zero_object_helper (zero_object : Z -> Z -> B A unit) (segment_id tag ptr : Z) : B A unit :=
  t ← wload tag;
  match kind t with
  | Other => lift Panic
  | Struct =>
      let pointer_section := ptr + struct_data_size t * BYTES_PER_WORD in
      iter_range (Z.to_nat (struct_ptr_count t)) 0 (fun i =>
        zero_object segment_id (pointer_section + 8 * i)) ;;
      t ← wload tag;
      wzero ptr (struct_word_size t * BYTES_PER_WORD)
  | List =>
      match list_element_size t with
      | Void => ret tt
      | Bit | Byte | TwoBytes | FourBytes | EightBytes =>
          bits ← lift (umul 64 (list_element_count t) (data_bits_per_element (list_element_size t)));
          words ← lift (round_bits_up_to_words bits);
          wzero ptr (BYTES_PER_WORD * words)
      | Pointer =>
          let count := list_element_count t in
          iter_range (Z.to_nat count) 0 (fun i => zero_object segment_id (ptr + i * BYTES_PER_WORD)) ;;
          wzero ptr (count * BYTES_PER_WORD)
      | InlineComposite =>
          let element_tag := ptr in
          et ← wload element_tag;
          lift (rust_assert (bool_decide (kind et = Struct))) ;;
          let data_size := struct_data_size et in
          let pointer_count := struct_ptr_count et in
          let pos := ptr + BYTES_PER_WORD in
          let count := inline_composite_list_element_count et in
          (if 0 <? pointer_count then
             pos ← fold_range (Z.to_nat count) 0 pos (fun _ pos =>
               fold_range (Z.to_nat pointer_count) 0 (pos + data_size * BYTES_PER_WORD)
                 (fun _ pos => zero_object segment_id pos ;; ret (pos + BYTES_PER_WORD)));
             ret tt
           else ret tt) ;;
          et ← wload element_tag;
          words ← lift (umul 32 (struct_word_size et) count);
          words ← lift (uadd 32 words 1);
          wzero ptr (BYTES_PER_WORD * words)
      end
  | Far => lift Panic
  end.

Fixpoint zero_object (fuel : nat) (segment_id reff : Z) : B A unit :=
  match fuel with
  | O => lift OutOfFuel
  | S fuel =>
      r ← wload reff;
      match kind r with
      | Struct | List | Other =>
          zero_object_helper (zero_object fuel) segment_id reff (mut_target reff r)
      | Far =>
          let segment_id := far_segment_id r in
          '(seg_start, _) ← get_segment_mut segment_id;
          let pad := seg_start + 8 * far_position_in_segment r in
          if is_double_far r then
            p ← wload pad;
            let segment_id := far_segment_id p in
            '(seg_start, _) ← get_segment_mut segment_id;
            let ptr := seg_start + far_position_in_segment p * BYTES_PER_WORD in
            zero_object_helper (zero_object fuel) segment_id (pad + 8) ptr ;;
            wzero pad 16
          else
            zero_object fuel segment_id pad ;;
            wzero pad 8
      end
  end.

Definition zero_object_all (segment_id reff : Z) : B A unit :=
  fuel ← world_fuel; zero_object fuel segment_id reff.

Definition zero_pointer_and_fars (_segment_id reff : Z) : B A unit :=
  r ← wload reff;
  (if bool_decide (kind r = Far) then
     let far_segment_id := far_segment_id r in
     '(seg_start, _) ← get_segment_mut far_segment_id;
     let pad := seg_start + far_position_in_segment r * BYTES_PER_WORD in
     let num_elements := if is_double_far r then 2 else 1 in
     wzero pad (num_elements * BYTES_PER_WORD)
   else ret tt) ;;
  wzero reff 8.

(** ** Allocation *)

(** [wire_helpers::allocate]: the object, the pointer that describes it, its
    segment *)
Definition allocate (reff segment_id amount : Z) (k : WirePointerKind) : B A (Z * Z * Z) :=
  r ← wload reff;
  (if negb (is_null r) then zero_object_all segment_id reff else ret tt) ;;
  if (amount =? 0) && bool_decide (k = Struct) then
    wset reff set_kind_and_target_for_empty_struct ;;
    ret (reff, reff, segment_id)
  else
    o ← arena_allocate segment_id amount;
    match o with
    | None =>
        amount_plus_ref ← lift (uadd 32 amount 1);
        '(segment_id, word_idx) ← allocate_anywhere amount_plus_ref;
        '(seg_start, _) ← get_segment_mut segment_id;
        let ptr := seg_start + word_idx * BYTES_PER_WORD in
        wset reff (set_far false word_idx) ;;
        wset reff (set_far_segment_id segment_id) ;;
        let reff := ptr in
        let ptr1 := ptr + BYTES_PER_WORD in
        wset_checked reff (set_kind_and_target reff k ptr1) ;;
        ret (ptr1, reff, segment_id)
    | Some idx =>
        '(seg_start, _) ← get_segment_mut segment_id;
        let ptr := seg_start + idx * BYTES_PER_WORD in
        wset_checked reff (set_kind_and_target reff k ptr) ;;
        ret (ptr, reff, segment_id)
    end.

Definition follow_builder_fars (reff ref_target segment_id : Z) : B A (Z * Z * Z) :=
  r ← wload reff;
  if bool_decide (kind r = Far) then
    let segment_id := far_segment_id r in
    '(seg_start, _) ← get_segment_mut segment_id;
    let pad := seg_start + 8 * far_position_in_segment r in
    p ← wload pad;
    if negb (is_double_far r) then ret (mut_target pad p, pad, segment_id)
    else
      let reff := pad + 8 in
      let segment_id := far_segment_id p in
      '(segment_start, _) ← get_segment_mut segment_id;
      let ptr := segment_start + far_position_in_segment p * BYTES_PER_WORD in
      ret (ptr, reff, segment_id)
  else ret (ref_target, reff, segment_id).

(** ** Copies of a trusted message *)

(** [copy_struct], given [copy_message] *)
Definition copy_struct (copy_message : Z -> CapTableBuilder -> Z -> Z -> B A (Z * Z * Z))
    (segment_id : Z) (cap_table : CapTableBuilder) (dst src data_size pointer_count : Z) : B A unit :=
  copy_nonoverlapping_check_zero src dst (data_size * BYTES_PER_WORD) ;;
  let src_refs := src + 8 * data_size in
  let dst_refs := dst + 8 * data_size in
  iter_range (Z.to_nat pointer_count) 0 (fun ii =>
    copy_message segment_id cap_table (dst_refs + 8 * ii) (src_refs + 8 * ii) ;; ret tt).

(** [copy_message]; [( *src)] is read again where the code reads it again. *)
Fixpoint copy_message (fuel : nat) (segment_id : Z) (cap_table : CapTableBuilder) (dst src : Z) :
    B A (Z * Z * Z) :=
  match fuel with
  | O => lift OutOfFuel
  | S fuel =>
      s ← wload src;
      match kind s with
      | Struct =>
          if is_null s then wzero dst 8 ;; ret (0, dst, segment_id)
          else
            let src_ptr := target src s in
            '(dst_ptr, dst, segment_id) ← allocate dst segment_id (struct_word_size s) Struct;
            s ← wload src;
            copy_struct (copy_message fuel) segment_id cap_table dst_ptr src_ptr
              (struct_data_size s) (struct_ptr_count s) ;;
            s ← wload src;
            wset dst (set_struct_size_from_pieces (struct_data_size s) (struct_ptr_count s)) ;;
            ret (dst_ptr, dst, segment_id)
      | List =>
          match list_element_size s with
          | Void | Bit | Byte | TwoBytes | FourBytes | EightBytes =>
              bits ← lift (umul 64 (list_element_count s) (data_bits_per_element (list_element_size s)));
              word_count ← lift (round_bits_up_to_words bits);
              let src_ptr := target src s in
              '(dst_ptr, dst, segment_id) ← allocate dst segment_id word_count List;
              copy_nonoverlapping_check_zero src_ptr dst_ptr (word_count * BYTES_PER_WORD) ;;
              s ← wload src;
              wset_checked dst (set_list_size_and_count (list_element_size s) (list_element_count s)) ;;
              ret (dst_ptr, dst, segment_id)
          | Pointer =>
              let src_refs := target src s in
              '(dst_refs, dst, segment_id) ← allocate dst segment_id (list_element_count s) List;
              s ← wload src;
              iter_range (Z.to_nat (list_element_count s)) 0 (fun ii =>
                copy_message fuel segment_id cap_table (dst_refs + ii * BYTES_PER_WORD) (src_refs + 8 * ii) ;;
                ret tt) ;;
              s ← wload src;
              wset_checked dst (set_list_size_and_count Pointer (list_element_count s)) ;;
              ret (dst_refs, dst, segment_id)
          | InlineComposite =>
              let src_ptr := target src s in
              amount ← lift (uadd 32 (list_inline_composite_word_count s) 1);
              '(dst_ptr, dst, segment_id) ← allocate dst segment_id amount List;
              s ← wload src;
              wset_checked dst (set_list_inline_composite (list_inline_composite_word_count s)) ;;
              let src_tag := src_ptr in
              copy_nonoverlapping_check_zero src_tag dst_ptr 8 ;;
              let src_element := src_ptr + BYTES_PER_WORD in
              let dst_element := dst_ptr + BYTES_PER_WORD in
              tag ← wload src_tag;
              if negb (bool_decide (kind tag = Struct)) then lift Panic
              else
                '(_, _) ← fold_range (Z.to_nat (inline_composite_list_element_count tag)) 0
                  (src_element, dst_element) (fun _ '(src_element, dst_element) =>
                    tag ← wload src_tag;
                    copy_struct (copy_message fuel) segment_id cap_table dst_element src_element
                      (struct_data_size tag) (struct_ptr_count tag) ;;
                    let step := BYTES_PER_WORD * struct_word_size tag in
                    ret (src_element + step, dst_element + step));
                ret (dst_ptr, dst, segment_id)
          end
      | Other => lift Panic
      | Far => lift Panic
      end
  end.

(** A default value: a slice of words, its address and length.  The depth of
    the message in it is at most its length. *)
Definition default_words : Type := Z * Z.
Definition copy_default (segment_id : Z) (cap_table : CapTableBuilder) (dst : Z) (d : default_words) :
    B A (Z * Z * Z) :=
  copy_message (S (Z.to_nat (snd d))) segment_id cap_table dst (fst d).

(** ** Moving an object to another pointer of the same message *)

Definition transfer_pointer_split (dst_segment_id dst src_segment_id src_tag src_ptr : Z) : B A unit :=
  s ← wload src_tag;
  if dst_segment_id =? src_segment_id then
    (if bool_decide (kind s = Struct) && (struct_word_size s =? 0)
     then wset dst set_kind_and_target_for_empty_struct
     else wset_checked dst (set_kind_and_target dst (kind s) src_ptr)) ;;
    copy_upper32bits src_tag dst
  else
    o ← arena_allocate src_segment_id 1;
    match o with
    | None =>
        '(far_segment_id, word_idx) ← allocate_anywhere 2;
        '(seg_start, _) ← get_segment_mut far_segment_id;
        let landing_pad := seg_start + 8 * word_idx in
        '(src_seg_start, _) ← get_segment_mut src_segment_id;
        pos ← lift (usub src_ptr src_seg_start);
        wset landing_pad (set_far false (wrap32 (pos / BYTES_PER_WORD))) ;;
        wset landing_pad (set_far_segment_id src_segment_id) ;;
        let landing_pad1 := landing_pad + 8 in
        s ← wload src_tag;
        wset landing_pad1 (set_kind_with_zero_offset (kind s)) ;;
        copy_upper32bits src_tag landing_pad1 ;;
        wset dst (set_far true word_idx) ;;
        wset dst (set_far_segment_id far_segment_id)
    | Some landing_pad_word =>
        '(seg_start, seg_len) ← get_segment_mut src_segment_id;
        lift (rust_assert (landing_pad_word <? seg_len)) ;;
        let landing_pad := seg_start + 8 * landing_pad_word in
        s ← wload src_tag;
        wset_checked landing_pad (set_kind_and_target landing_pad (kind s) src_ptr) ;;
        copy_upper32bits src_tag landing_pad ;;
        wset dst (set_far false landing_pad_word) ;;
        wset dst (set_far_segment_id src_segment_id)
    end.

Definition transfer_pointer (dst_segment_id dst src_segment_id src : Z) : B A unit :=
  d ← wload dst;
  lift (rust_assert (is_null d)) ;;
  s ← wload src;
  if is_null s then wzero dst 8
  else if is_positional s
  then transfer_pointer_split dst_segment_id dst src_segment_id src (mut_target src s)
  else copy_nonoverlapping_check_zero src dst 8.

(** ** Structs *)

Definition init_struct_pointer (reff segment_id : Z) (cap_table : CapTableBuilder) (size : StructSize) :
    B A StructBuilder :=
  '(ptr, reff, segment_id) ← allocate reff segment_id (StructSize_total size) Struct;
  wset reff (set_struct_size size) ;;
  ret {| sb_segment_id := segment_id; sb_cap_table := cap_table; sb_data := ptr;
         sb_pointers := ptr + data size * BYTES_PER_WORD;
         sb_data_size := data size * BITS_PER_WORD; sb_pointer_count := pointers size |}.

(** The struct at [reff] for writing; a struct that is too small is moved. *)
Definition writable_struct_from (reff ref_target segment_id : Z) (cap_table : CapTableBuilder)
    (size : StructSize) : B A StructBuilder :=
  '(old_ptr, old_ref, old_segment_id) ← follow_builder_fars reff ref_target segment_id;
  o ← wload old_ref;
  if negb (bool_decide (kind o = Struct))
  then fails MessageContainsNonStructPointerWhereStructPointerWasExpected
  else
    let old_data_size := struct_data_size o in
    let old_pointer_count := struct_ptr_count o in
    let old_pointer_section := old_ptr + old_data_size * BYTES_PER_WORD in
    if (old_data_size <? data size) || (old_pointer_count <? pointers size) then
      let new_data_size := Z.max old_data_size (data size) in
      let new_pointer_count := Z.max old_pointer_count (pointers size) in
      let total_size := new_data_size + new_pointer_count in
      zero_pointer_and_fars segment_id reff ;;
      '(ptr, reff, segment_id) ← allocate reff segment_id total_size Struct;
      wset reff (set_struct_size_from_pieces new_data_size new_pointer_count) ;;
      copy_nonoverlapping_check_zero old_ptr ptr (old_data_size * BYTES_PER_WORD) ;;
      let new_pointer_section := ptr + new_data_size * BYTES_PER_WORD in
      iter_range (Z.to_nat old_pointer_count) 0 (fun i =>
        transfer_pointer segment_id (new_pointer_section + 8 * i) old_segment_id
          (old_pointer_section + 8 * i)) ;;
      wzero old_ptr ((old_data_size + old_pointer_count) * BYTES_PER_WORD) ;;
      ret {| sb_segment_id := segment_id; sb_cap_table := cap_table; sb_data := ptr;
             sb_pointers := new_pointer_section; sb_data_size := new_data_size * BITS_PER_WORD;
             sb_pointer_count := new_pointer_count |}
    else
      ret {| sb_segment_id := old_segment_id; sb_cap_table := cap_table; sb_data := old_ptr;
             sb_pointers := old_pointer_section; sb_data_size := old_data_size * BITS_PER_WORD;
             sb_pointer_count := old_pointer_count |}.

(** A null default, or one whose pointer is null *)
Definition no_default (d : option default_words) : B A bool :=
  match d with
  | None => ret true
  | Some d => p ← wload (fst d); ret (is_null p)
  end.

Definition get_writable_struct_pointer (reff segment_id : Z) (cap_table : CapTableBuilder)
    (size : StructSize) (default : option default_words) : B A StructBuilder :=
  r ← wload reff;
  let ref_target := mut_target reff r in
  if is_null r then
    none ← no_default default;
    match default with
    | Some d =>
        if none : bool then init_struct_pointer reff segment_id cap_table size
        else
          '(ref_target, reff, segment_id) ← copy_default segment_id cap_table reff d;
          writable_struct_from reff ref_target segment_id cap_table size
    | None => init_struct_pointer reff segment_id cap_table size
    end
  else writable_struct_from reff ref_target segment_id cap_table size.

(** ** Lists *)

(** [ListBuilder::new_default] *)
Definition ListBuilder_new_default : ListBuilder :=
  {| lb_segment_id := 0; lb_cap_table := 0; lb_ptr := 0; lb_element_count := 0;
     lb_element_size := Void; lb_step := 0; lb_struct_data_size := 0; lb_struct_pointer_count := 0 |}.

Definition element_step (s : ElementSize) : Z := data_bits_per_element s + pointers_per_element s * BITS_PER_WORD.

Definition init_list_pointer (reff segment_id : Z) (cap_table : CapTableBuilder) (element_count : Z)
    (element_size : ElementSize) : B A ListBuilder :=
  lift (rust_assert (negb (bool_decide (element_size = InlineComposite)))) ;;
  let data_size := data_bits_per_element element_size in
  let pointer_count := pointers_per_element element_size in
  let step := data_size + pointer_count * BITS_PER_WORD in
  bits ← lift (umul 64 element_count step);
  word_count ← lift (round_bits_up_to_words bits);
  '(ptr, reff, segment_id) ← allocate reff segment_id word_count List;
  wset_checked reff (set_list_size_and_count element_size element_count) ;;
  ret {| lb_segment_id := segment_id; lb_cap_table := cap_table; lb_ptr := ptr; lb_step := step;
         lb_element_count := element_count; lb_element_size := element_size;
         lb_struct_data_size := data_size; lb_struct_pointer_count := pointer_count |}.

Definition init_struct_list_pointer (reff segment_id : Z) (cap_table : CapTableBuilder)
    (element_count : Z) (element_size : StructSize) : B A ListBuilder :=
  let words_per_element := StructSize_total element_size in
  word_count ← lift (umul 32 element_count words_per_element);
  amount ← lift (uadd 32 1 word_count);
  '(ptr, reff, segment_id) ← allocate reff segment_id amount List;
  wset_checked reff (set_list_inline_composite word_count) ;;
  wset ptr (set_kind_and_inline_composite_list_element_count Struct element_count) ;;
  wset ptr (set_struct_size element_size) ;;
  let ptr1 := ptr + 8 in
  step ← lift (umul 32 words_per_element BITS_PER_WORD);
  ret {| lb_segment_id := segment_id; lb_cap_table := cap_table; lb_ptr := ptr1; lb_step := step;
         lb_element_count := element_count; lb_element_size := InlineComposite;
         lb_struct_data_size := data element_size * BITS_PER_WORD;
         lb_struct_pointer_count := pointers element_size |}.

(** What [get_writable_list_pointer] asks of the elements of a struct list;
    the result is where the elements' part of interest starts. *)
Definition writable_struct_elements (element_size : ElementSize) (ptr data_size pointer_count : Z) :
    outcome Z :=
  match element_size with
  | Void => Ok ptr
  | Bit => Err FoundStructListWhereBitListWasExpected
  | Byte | TwoBytes | FourBytes | EightBytes =>
      if data_size <? 1 then Err ExistingListValueIsIncompatibleWithExpectedType else Ok ptr
  | Pointer =>
      if pointer_count <? 1 then Err ExistingListValueIsIncompatibleWithExpectedType
      else Ok (ptr + data_size * BYTES_PER_WORD)
  | InlineComposite => Panic
  end.

Definition writable_list_from (orig_ref orig_ref_target orig_segment_id : Z)
    (cap_table : CapTableBuilder) (element_size : ElementSize) : B A ListBuilder :=
  '(ptr, reff, segment_id) ← follow_builder_fars orig_ref orig_ref_target orig_segment_id;
  r ← wload reff;
  if negb (bool_decide (kind r = List)) then fails ExistingPointerIsNotAList
  else
    let old_size := list_element_size r in
    if bool_decide (old_size = InlineComposite) then
      t ← wload ptr;
      if negb (bool_decide (kind t = Struct))
      then fails InlineCompositeListWithNonStructElementsNotSupported
      else
        let ptr := ptr + BYTES_PER_WORD in
        let data_size := struct_data_size t in
        let pointer_count := struct_ptr_count t in
        ptr ← lift (writable_struct_elements element_size ptr data_size pointer_count);
        ret {| lb_segment_id := segment_id; lb_cap_table := cap_table; lb_ptr := ptr;
               lb_element_count := inline_composite_list_element_count t;
               lb_element_size := InlineComposite; lb_step := struct_word_size t * BITS_PER_WORD;
               lb_struct_data_size := data_size * BITS_PER_WORD;
               lb_struct_pointer_count := pointer_count |}
    else
      let data_size := data_bits_per_element old_size in
      let pointer_count := pointers_per_element old_size in
      if (data_size <? data_bits_per_element element_size)
         || (pointer_count <? pointers_per_element element_size)
      then fails ExistingListValueIsIncompatibleWithExpectedType
      else
        ret {| lb_segment_id := segment_id; lb_cap_table := cap_table; lb_ptr := ptr;
               lb_step := data_size + pointer_count * BITS_PER_WORD;
               lb_element_count := list_element_count r; lb_element_size := old_size;
               lb_struct_data_size := data_size; lb_struct_pointer_count := pointer_count |}.

(** [default_value] is null for none. *)
Definition get_writable_list_pointer (orig_ref orig_segment_id : Z) (cap_table : CapTableBuilder)
    (element_size : ElementSize) (default_value : option default_words) : B A ListBuilder :=
  lift (rust_assert (negb (bool_decide (element_size = InlineComposite)))) ;;
  r ← wload orig_ref;
  let orig_ref_target := mut_target orig_ref r in
  if is_null r then
    none ← no_default default_value;
    match default_value with
    | Some d =>
        if none : bool then ret ListBuilder_new_default
        else
          '(orig_ref_target, orig_ref, orig_segment_id) ←
            copy_default orig_segment_id cap_table orig_ref d;
          writable_list_from orig_ref orig_ref_target orig_segment_id cap_table element_size
    | None => ret ListBuilder_new_default
    end
  else writable_list_from orig_ref orig_ref_target orig_segment_id cap_table element_size.

(** [get_writable_struct_list_pointer]: a struct list whose structs are too
    small is copied and its structs expanded. *)
Definition expand_struct_list (orig_ref orig_segment_id : Z) (cap_table : CapTableBuilder)
    (element_size : StructSize) (old_ptr old_segment_id old_data_size old_pointer_count element_count : Z) :
    B A ListBuilder :=
  let old_step := old_data_size + old_pointer_count in
  let new_data_size := Z.max old_data_size (data element_size) in
  let new_pointer_count := Z.max old_pointer_count (pointers element_size) in
  let new_step := new_data_size + new_pointer_count in
  total_size ← lift (umul 32 new_step element_count);
  zero_pointer_and_fars orig_segment_id orig_ref ;;
  amount ← lift (uadd 32 total_size 1);
  '(new_ptr, new_ref, new_segment_id) ← allocate orig_ref orig_segment_id amount List;
  wset_checked new_ref (set_list_inline_composite total_size) ;;
  let new_tag := new_ptr in
  wset new_tag (set_kind_and_inline_composite_list_element_count Struct element_count) ;;
  wset new_tag (set_struct_size_from_pieces new_data_size new_pointer_count) ;;
  let new_ptr := new_ptr + BYTES_PER_WORD in
  '(_, _) ← fold_range (Z.to_nat element_count) 0 (old_ptr, new_ptr) (fun _ '(src, dst) =>
    copy_nonoverlapping_check_zero src dst (old_data_size * 8) ;;
    let new_pointer_section := dst + 8 * new_data_size in
    let old_pointer_section := src + 8 * old_data_size in
    iter_range (Z.to_nat old_pointer_count) 0 (fun jj =>
      transfer_pointer new_segment_id (new_pointer_section + 8 * jj) old_segment_id
        (old_pointer_section + 8 * jj)) ;;
    ret (src + 8 * old_step, dst + 8 * new_step));
  words ← lift (umul 64 old_step element_count);
  wzero (old_ptr - BYTES_PER_WORD) (words * BYTES_PER_WORD) ;;
  step ← lift (umul 32 new_step BITS_PER_WORD);
  ret {| lb_segment_id := new_segment_id; lb_cap_table := cap_table; lb_ptr := new_ptr;
         lb_element_count := element_count; lb_element_size := InlineComposite; lb_step := step;
         lb_struct_data_size := new_data_size * BITS_PER_WORD;
         lb_struct_pointer_count := new_pointer_count |}.

(** ... a list of primitives or pointers becomes a list of structs. *)
Definition upgrade_to_struct_list (orig_ref orig_segment_id : Z) (cap_table : CapTableBuilder)
    (element_size : StructSize) (old_ptr old_segment_id element_count : Z) (old_size : ElementSize) :
    B A ListBuilder :=
  let old_data_size := data_bits_per_element old_size in
  let old_step := old_data_size + pointers_per_element old_size * BITS_PER_WORD in
  let is_pointer := bool_decide (old_size = Pointer) in
  let new_data_size := if is_pointer then data element_size else Z.max (data element_size) 1 in
  let new_pointer_count := if is_pointer then Z.max (pointers element_size) 1 else pointers element_size in
  let new_step := new_data_size + new_pointer_count in
  total_words ← lift (umul 32 element_count new_step);
  zero_pointer_and_fars orig_segment_id orig_ref ;;
  amount ← lift (uadd 32 total_words 1);
  '(new_ptr, new_ref, new_segment_id) ← allocate orig_ref orig_segment_id amount List;
  wset_checked new_ref (set_list_inline_composite total_words) ;;
  let tag := new_ptr in
  wset tag (set_kind_and_inline_composite_list_element_count Struct element_count) ;;
  wset tag (set_struct_size_from_pieces new_data_size new_pointer_count) ;;
  let new_ptr := new_ptr + BYTES_PER_WORD in
  (if is_pointer then
     '(_, _) ← fold_range (Z.to_nat element_count) 0 (new_ptr + new_data_size * BYTES_PER_WORD, old_ptr)
       (fun _ '(dst, src) =>
         transfer_pointer new_segment_id dst old_segment_id src ;;
         ret (dst + new_step * BYTES_PER_WORD, src + 8));
     ret tt
   else
     let old_byte_step := old_data_size / BITS_PER_BYTE in
     '(_, _) ← fold_range (Z.to_nat element_count) 0 (new_ptr, old_ptr)
       (fun _ '(dst, src) =>
         copy_nonoverlapping_check_zero src dst old_byte_step ;;
         ret (dst + new_step * BYTES_PER_WORD, src + old_byte_step));
     ret tt) ;;
  bits ← lift (umul 64 old_step element_count);
  n ← lift (round_bits_up_to_bytes bits);
  wzero old_ptr n ;;
  step ← lift (umul 32 new_step BITS_PER_WORD);
  ret {| lb_segment_id := new_segment_id; lb_cap_table := cap_table; lb_ptr := new_ptr;
         lb_element_count := element_count; lb_element_size := InlineComposite; lb_step := step;
         lb_struct_data_size := new_data_size * BITS_PER_WORD;
         lb_struct_pointer_count := new_pointer_count |}.

Definition writable_struct_list_from (orig_ref orig_ref_target orig_segment_id : Z)
    (cap_table : CapTableBuilder) (element_size : StructSize) : B A ListBuilder :=
  '(old_ptr, old_ref, old_segment_id) ← follow_builder_fars orig_ref orig_ref_target orig_segment_id;
  o ← wload old_ref;
  if negb (bool_decide (kind o = List)) then fails ExistingPointerIsNotAList
  else
    let old_size := list_element_size o in
    if bool_decide (old_size = InlineComposite) then
      t ← wload old_ptr;
      let old_ptr := old_ptr + BYTES_PER_WORD in
      if negb (bool_decide (kind t = Struct))
      then fails InlineCompositeListWithNonStructElementsNotSupported
      else
        let old_data_size := struct_data_size t in
        let old_pointer_count := struct_ptr_count t in
        let old_step := old_data_size + old_pointer_count in
        let element_count := inline_composite_list_element_count t in
        if (data element_size <=? old_data_size) && (pointers element_size <=? old_pointer_count)
        then
          ret {| lb_segment_id := old_segment_id; lb_cap_table := cap_table; lb_ptr := old_ptr;
                 lb_element_count := element_count; lb_element_size := InlineComposite;
                 lb_step := old_step * BITS_PER_WORD;
                 lb_struct_data_size := old_data_size * BITS_PER_WORD;
                 lb_struct_pointer_count := old_pointer_count |}
        else
          expand_struct_list orig_ref orig_segment_id cap_table element_size old_ptr old_segment_id
            old_data_size old_pointer_count element_count
    else
      let element_count := list_element_count o in
      match old_size with
      | Void => init_struct_list_pointer orig_ref orig_segment_id cap_table element_count element_size
      | Bit => fails FoundBitListWhereStructListWasExpected
      | _ =>
          upgrade_to_struct_list orig_ref orig_segment_id cap_table element_size old_ptr
            old_segment_id element_count old_size
      end.

Definition get_writable_struct_list_pointer (orig_ref orig_segment_id : Z) (cap_table : CapTableBuilder)
    (element_size : StructSize) (default_value : option default_words) : B A ListBuilder :=
  r ← wload orig_ref;
  let orig_ref_target := mut_target orig_ref r in
  if is_null r then
    none ← no_default default_value;
    match default_value with
    | Some d =>
        if none : bool then ret ListBuilder_new_default
        else
          '(orig_ref_target, orig_ref, orig_segment_id) ←
            copy_default orig_segment_id cap_table orig_ref d;
          writable_struct_list_from orig_ref orig_ref_target orig_segment_id cap_table element_size
    | None => ret ListBuilder_new_default
    end
  else writable_struct_list_from orig_ref orig_ref_target orig_segment_id cap_table element_size.

(** ** Text and data *)

Definition init_text_pointer (reff segment_id size : Z) : B A (Z * TextBuilder) :=
  byte_size ← lift (uadd 32 size 1);
  words ← lift (round_bytes_up_to_words byte_size);
  '(ptr, reff, segment_id) ← allocate reff segment_id words List;
  wset_checked reff (set_list_size_and_count Byte byte_size) ;;
  ret (segment_id, {| tb_bytes := {| bs_ptr := ptr; bs_len := size |}; tb_pos := 0 |}).

(** [slice.copy_from_slice(bs)]: panics unless the lengths agree *)
Definition slice_copy_from (dst : ByteSlice) (bs : list byte) : B A unit :=
  lift (rust_assert (bs_len dst =? Z.of_nat (length bs))) ;;
  wput (fun m => store_bytes m (bs_ptr dst) bs).

Definition set_text_pointer (reff segment_id : Z) (value : list byte) : B A (Z * TextBuilder) :=
  allocation ← init_text_pointer reff segment_id (wrap32 (Z.of_nat (length value)));
  slice_copy_from (tb_bytes (snd allocation)) value ;;
  ret allocation.

Definition writable_text_from (reff ref_target segment_id : Z) : B A TextBuilder :=
  '(ptr, reff, _) ← follow_builder_fars reff ref_target segment_id;
  r ← wload reff;
  if negb (bool_decide (kind r = List)) then fails ExistingPointerIsNotAList
  else if negb (bool_decide (list_element_size r = Byte)) then fails ExistingListPointerIsNotByteSized
  else
    let count := list_element_count r in
    if count =? 0 then fails TextBlobMissingNULTerminator
    else
      last ← on_mem (fun m => load m (ptr + (count - 1)) 1);
      if negb (last =? 0) then fails TextBlobMissingNULTerminator
      else ret {| tb_bytes := {| bs_ptr := ptr; bs_len := count - 1 |}; tb_pos := count - 1 |}.

Definition get_writable_text_pointer (reff segment_id : Z) (default : option default_words) :
    B A TextBuilder :=
  r ← wload reff;
  if is_null r then
    match default with
    | None => ret {| tb_bytes := empty_slice; tb_pos := 0 |}
    | Some d =>
        '(ref_target, reff, segment_id) ← copy_default segment_id 0 reff d;
        writable_text_from reff ref_target segment_id
    end
  else writable_text_from reff (mut_target reff r) segment_id.

Definition init_data_pointer (reff segment_id size : Z) : B A (Z * ByteSlice) :=
  words ← lift (round_bytes_up_to_words size);
  '(ptr, reff, segment_id) ← allocate reff segment_id words List;
  wset_checked reff (set_list_size_and_count Byte size) ;;
  ret (segment_id, {| bs_ptr := ptr; bs_len := size |}).

(** The copy is as long as the value; the allocation, as its length [as u32]. *)
Definition set_data_pointer (reff segment_id : Z) (value : list byte) : B A (Z * ByteSlice) :=
  allocation ← init_data_pointer reff segment_id (wrap32 (Z.of_nat (length value)));
  (if 0 <? Z.of_nat (length value)
   then wput (fun m => store_bytes m (bs_ptr (snd allocation)) value) else ret tt) ;;
  ret allocation.

Definition writable_data_from (reff ref_target segment_id : Z) : B A ByteSlice :=
  '(ptr, reff, _) ← follow_builder_fars reff ref_target segment_id;
  r ← wload reff;
  if negb (bool_decide (kind r = List)) then fails ExistingPointerIsNotAList
  else if negb (bool_decide (list_element_size r = Byte)) then fails ExistingListPointerIsNotByteSized
  else ret {| bs_ptr := ptr; bs_len := list_element_count r |}.

Definition get_writable_data_pointer (reff segment_id : Z) (default : option default_words) :
    B A ByteSlice :=
  r ← wload reff;
  if is_null r then
    match default with
    | None => ret empty_slice
    | Some d =>
        '(ref_target, reff, segment_id) ← copy_default segment_id 0 reff d;
        writable_data_from reff ref_target segment_id
    end
  else writable_data_from reff (mut_target reff r) segment_id.

(** ** Capabilities: [CapTableBuilder] *)

Definition put_cap_table (t : CapTableBuilder) (hooks : CapTable) : B A unit := fun w =>
  (Ok tt, set_caps (<[t := hooks]> (caps w)) w).
Definition cap_table_of (t : CapTableBuilder) : B A CapTable := fun w =>
  (if t =? 0 then Panic else match caps w !! t with Some hooks => Ok hooks | None => UB end, w).

Definition inject_cap (t : CapTableBuilder) (cap : ClientHook) : B A Z :=
  hooks ← cap_table_of t;
  put_cap_table t (hooks ++ [Some cap]) ;;
  ret (Z.of_nat (length hooks)).

Definition drop_cap (t : CapTableBuilder) (index : Z) : B A unit :=
  hooks ← cap_table_of t;
  if index <? Z.of_nat (length hooks) then put_cap_table t (<[Z.to_nat index := None]> hooks) else ret tt.

Definition builder_extract_cap (t : CapTableBuilder) (index : Z) : B A (option ClientHook) :=
  on_limiter (fun _ tables => lift (extract_cap tables t index)).

Definition set_capability_pointer (cap_table : CapTableBuilder) (reff : Z) (cap : ClientHook) : B A unit :=
  i ← inject_cap cap_table cap;
  wset reff (set_cap (wrap32 i)).

(** ** Deep copies of another message *)

Definition eight_zeros : list byte := replicate 8 Byte.x00.

(** ['chop]: the length of the data section without the zero words at its
    end; [fuel] is more than that length. *)
Fixpoint chop_data (fuel : nat) (blob : list byte) (data_size : Z) : outcome Z :=
  match fuel with
  | O => OutOfFuel
  | S fuel =>
      if data_size =? 0 then Ok 0
      else
        let window := if data_size mod BYTES_PER_WORD =? 0 then BYTES_PER_WORD
                      else data_size mod BYTES_PER_WORD in
        last_word ← slice_index blob (data_size - window) data_size;
        if bool_decide (last_word = eight_zeros) then chop_data fuel blob (data_size - window)
        else Ok data_size
  end.

(** The number of pointers without the null ones at the end *)
Fixpoint chop_pointers (is_null_field : Z -> outcome bool) (n : nat) : outcome Z :=
  match n with
  | O => Ok 0
  | S k =>
      null ← is_null_field (Z.of_nat k);
      if null : bool then chop_pointers is_null_field k else Ok (Z.of_nat n)
  end.

Definition data_blob (m : mem) (r : StructReader) : outcome (list byte) :=
  let blob := get_data_section_as_blob r in load_bytes m (bs_ptr blob) (bs_len blob).

(** ['data_chop]: in words *)
Fixpoint chop_data_words (n : nat) (blob : list byte) : outcome Z :=
  match n with
  | O => Ok 0
  | S k =>
      let end_ := Z.of_nat n * BYTES_PER_WORD in
      last_word ← slice_index blob (end_ - BYTES_PER_WORD) end_;
      if bool_decide (last_word = eight_zeros) then chop_data_words k blob else Ok (Z.of_nat n)
  end.

(** [copy_pointer], as the functions it calls see it *)
Definition copy_fn : Type :=
  Z -> CapTableBuilder -> Z -> ReaderArena -> Z -> CapTableReader -> Z -> Z -> bool -> B A (Z * Z).

(** The data and pointer section sizes to copy: all, or up to the last that
    is not zero *)
Definition canonical_struct_size (value : StructReader) (canonicalize : bool) (m : mem) :
    outcome (Z * Z) :=
  data_size ← round_bits_up_to_bytes (sr_data_size value);
  let ptr_count := sr_pointer_count value in
  if canonicalize then
    if negb ((sr_data_size value =? 1) || (sr_data_size value mod BITS_PER_BYTE =? 0))
    then Err StructReaderHadBitwidthOtherThan1
    else
      data_size ← (if sr_data_size value =? 1 then
                     b ← get_bool_field m value 0; Ok (if b : bool then data_size else 0)
                   else
                     blob ← data_blob m value;
                     chop_data (S (Z.to_nat data_size)) blob data_size);
      ptr_count ← chop_pointers (is_pointer_field_null m value) (Z.to_nat ptr_count);
      Ok (data_size, ptr_count)
  else Ok (data_size, ptr_count).

Definition set_struct_pointer (copy_pointer : copy_fn) (segment_id : Z) (cap_table : CapTableBuilder)
    (reff : Z) (value : StructReader) (canonicalize : bool) : B A (Z * Z) :=
  '(data_size, ptr_count) ← on_mem (canonical_struct_size value canonicalize);
  data_words ← lift (round_bytes_up_to_words data_size);
  total_size ← lift (uadd 32 data_words ptr_count);
  '(ptr, reff, segment_id) ← allocate reff segment_id total_size Struct;
  wset reff (set_struct_size_from_pieces (wrap16 data_words) ptr_count) ;;
  (if sr_data_size value =? 1 then
     if negb (data_size =? 0) then
       b ← on_mem (fun m => get_bool_field m value 0);
       wput (fun m => store m ptr 1 (Z.b2z b))
     else ret tt
   else copy_nonoverlapping_check_zero (sr_data value) ptr data_size) ;;
  let pointer_section := ptr + data_words * BYTES_PER_WORD in
  iter_range (Z.to_nat ptr_count) 0 (fun i =>
    copy_pointer segment_id cap_table (pointer_section + 8 * i) (sr_arena value) (sr_segment_id value)
      (sr_cap_table value) (sr_pointers value + 8 * i) (sr_nesting_limit value) canonicalize ;;
    ret tt) ;;
  ret (segment_id, ptr).

(** The element size of a list of data with this step *)
Definition element_size_of_step (step : Z) : outcome ElementSize :=
  match step with
  | 0 => Ok Void | 1 => Ok Bit | 8 => Ok Byte | 16 => Ok TwoBytes | 32 => Ok FourBytes
  | 64 => Ok EightBytes | _ => Panic
  end.

(** The bytes of a list of data, and the bits of the last one *)
Definition copy_list_data (value : ListReader) (ptr : Z) : B A unit :=
  bits ← lift (umul 64 (lr_element_count value) (lr_step value));
  let whole_byte_size := bits / BITS_PER_BYTE in
  copy_nonoverlapping_check_zero (lr_ptr value) ptr whole_byte_size ;;
  let leftover_bits := bits mod BITS_PER_BYTE in
  if 0 <? leftover_bits then
    let mask := Z.shiftl 1 leftover_bits - 1 in
    b ← on_mem (fun m => load m (lr_ptr value + whole_byte_size) 1);
    wput (fun m => store m (ptr + whole_byte_size) 1 (Z.land mask b))
  else ret tt.

(** The sizes of the structs of a canonical list: the largest needed *)
Definition canonical_element_size (value : ListReader) (decl_data_size decl_pointer_count : Z) (m : mem) :
    outcome (Z * Z) :=
  fst (fold_range (Z.to_nat (lr_element_count value)) 0 (0, 0) (fun ec '(data_size, ptr_count) =>
    se ← lift (get_struct_element value ec);
    blob ← lift (if decl_data_size =? 0 then Ok [] else data_blob m se);
    local_data_size ← lift (chop_data_words (Z.to_nat decl_data_size) blob);
    local_ptr_count ← lift (chop_pointers (is_pointer_field_null m se) (Z.to_nat decl_pointer_count));
    ret (Z.max data_size local_data_size, Z.max ptr_count local_ptr_count)) tt).

Definition set_plain_list (copy_pointer : copy_fn) (segment_id : Z) (cap_table : CapTableBuilder)
    (reff : Z) (value : ListReader) (canonicalize : bool) (total_size : Z) : B A (Z * Z) :=
  '(ptr, reff, segment_id) ← allocate reff segment_id total_size List;
  (if lr_struct_pointer_count value =? 1 then
     wset_checked reff (set_list_size_and_count Pointer (lr_element_count value)) ;;
     iter_range (Z.to_nat (lr_element_count value)) 0 (fun i =>
       copy_pointer segment_id cap_table (ptr + 8 * i) (lr_arena value) (lr_segment_id value)
         (lr_cap_table value) (lr_ptr value + 8 * i) (lr_nesting_limit value) canonicalize ;;
       ret tt)
   else
     element_size ← lift (element_size_of_step (lr_step value));
     wset_checked reff (set_list_size_and_count element_size (lr_element_count value)) ;;
     copy_list_data value ptr) ;;
  ret (segment_id, ptr).

Definition set_struct_list (copy_pointer : copy_fn) (segment_id : Z) (cap_table : CapTableBuilder)
    (reff : Z) (value : ListReader) (canonicalize : bool) (total_size : Z) : B A (Z * Z) :=
  let decl_data_size := lr_struct_data_size value / BITS_PER_WORD in
  let decl_pointer_count := lr_struct_pointer_count value in
  '(data_size, ptr_count, total_size) ←
    (if canonicalize then
       '(data_size, ptr_count) ← on_mem (canonical_element_size value decl_data_size decl_pointer_count);
       total_size ← lift (umul 32 (data_size + ptr_count) (lr_element_count value));
       ret (data_size, ptr_count, total_size)
     else ret (decl_data_size, decl_pointer_count, total_size));
  amount ← lift (uadd 32 total_size 1);
  '(ptr, reff, segment_id) ← allocate reff segment_id amount List;
  wset_checked reff (set_list_inline_composite total_size) ;;
  let tag := ptr in
  wset tag (set_kind_and_inline_composite_list_element_count Struct (lr_element_count value)) ;;
  wset tag (set_struct_size_from_pieces (wrap16 data_size) ptr_count) ;;
  '(_, _) ← fold_range (Z.to_nat (lr_element_count value)) 0 (ptr + BYTES_PER_WORD, lr_ptr value)
    (fun _ '(dst, src) =>
      copy_nonoverlapping_check_zero src dst (data_size * BYTES_PER_WORD) ;;
      '(dst, src) ← fold_range (Z.to_nat ptr_count) 0
        (dst + data_size * BYTES_PER_WORD, src + decl_data_size * BYTES_PER_WORD)
        (fun _ '(dst, src) =>
          copy_pointer segment_id cap_table dst (lr_arena value) (lr_segment_id value)
            (lr_cap_table value) src (lr_nesting_limit value) canonicalize ;;
          ret (dst + BYTES_PER_WORD, src + BYTES_PER_WORD));
      ret (dst, src + (decl_pointer_count - ptr_count) * BYTES_PER_WORD));
  ret (segment_id, ptr).

Definition set_list_pointer (copy_pointer : copy_fn) (segment_id : Z) (cap_table : CapTableBuilder)
    (reff : Z) (value : ListReader) (canonicalize : bool) : B A (Z * Z) :=
  bits ← lift (umul 64 (lr_element_count value) (lr_step value));
  total_size ← lift (round_bits_up_to_words bits);
  if negb (bool_decide (lr_element_size value = InlineComposite))
  then set_plain_list copy_pointer segment_id cap_table reff value canonicalize total_size
  else set_struct_list copy_pointer segment_id cap_table reff value canonicalize total_size.

Definition amplified (arena : ReaderArena) (n : Z) : B A unit := on_limiter (fun _ _ => amplified_read arena n).
Definition source_bounds_check (arena : ReaderArena) (segment_id start size : Z) (k : WirePointerKind) :
    B A unit :=
  on_limiter (fun _ _ => bounds_check arena segment_id start size k).

(** [copy_pointer]: [fuel] bounds the recursion, which the nesting limit
    bounds in the code. *)
Fixpoint copy_pointer (fuel : nat) (dst_segment_id : Z) (dst_cap_table : CapTableBuilder) (dst : Z)
    (src_arena : ReaderArena) (src_segment_id : Z) (src_cap_table : CapTableReader)
    (src nesting_limit : Z) (canonicalize : bool) : B A (Z * Z) :=
  match fuel with
  | O => lift OutOfFuel
  | S fuel =>
      s ← wload src;
      if is_null s then wzero dst 8 ;; ret (dst_segment_id, 0)
      else
        '(ptr, src, src_segment_id) ← on_limiter (fun m _ => follow_fars m src_arena src src_segment_id);
        s ← wload src;
        match kind s with
        | Struct =>
            if nesting_limit <=? 0 then fails MessageIsTooDeeplyNestedOrContainsCycles
            else
              source_bounds_check src_arena src_segment_id ptr (struct_word_size s) Struct ;;
              set_struct_pointer (copy_pointer fuel) dst_segment_id dst_cap_table dst
                {| sr_arena := src_arena; sr_segment_id := src_segment_id;
                   sr_cap_table := src_cap_table; sr_data := ptr;
                   sr_pointers := ptr + struct_data_size s * BYTES_PER_WORD;
                   sr_data_size := struct_data_size s * BITS_PER_WORD;
                   sr_pointer_count := struct_ptr_count s;
                   sr_nesting_limit := nesting_limit - 1 |} canonicalize
        | List =>
            let element_size := list_element_size s in
            if nesting_limit <=? 0 then fails MessageIsTooDeeplyNestedOrContainsCycles
            else if bool_decide (element_size = InlineComposite) then
              let word_count := list_inline_composite_word_count s in
              let tag := ptr in
              let ptr := ptr + BYTES_PER_WORD in
              source_bounds_check src_arena src_segment_id (ptr - BYTES_PER_WORD) (word_count + 1) List ;;
              t ← wload tag;
              if negb (bool_decide (kind t = Struct))
              then fails InlineCompositeListsOfNonStructTypeAreNotSupported
              else
                let element_count := inline_composite_list_element_count t in
                let words_per_element := struct_word_size t in
                if word_count <? words_per_element * element_count
                then fails InlineCompositeListsElementsOverrunItsWordCount
                else
                  (if words_per_element =? 0 then amplified src_arena element_count else ret tt) ;;
                  set_list_pointer (copy_pointer fuel) dst_segment_id dst_cap_table dst
                    {| lr_arena := src_arena; lr_segment_id := src_segment_id;
                       lr_cap_table := src_cap_table; lr_ptr := ptr;
                       lr_element_count := element_count; lr_element_size := element_size;
                       lr_step := words_per_element * BITS_PER_WORD;
                       lr_struct_data_size := struct_data_size t * BITS_PER_WORD;
                       lr_struct_pointer_count := struct_ptr_count t;
                       lr_nesting_limit := nesting_limit - 1 |} canonicalize
            else
              let data_size := data_bits_per_element element_size in
              let pointer_count := pointers_per_element element_size in
              let step := data_size + pointer_count * BITS_PER_WORD in
              let element_count := list_element_count s in
              bits ← lift (umul 64 element_count step);
              word_count ← lift (round_bits_up_to_words bits);
              source_bounds_check src_arena src_segment_id ptr word_count List ;;
              (if bool_decide (element_size = Void) then amplified src_arena element_count else ret tt) ;;
              set_list_pointer (copy_pointer fuel) dst_segment_id dst_cap_table dst
                {| lr_arena := src_arena; lr_segment_id := src_segment_id;
                   lr_cap_table := src_cap_table; lr_ptr := ptr;
                   lr_element_count := element_count; lr_element_size := element_size;
                   lr_step := step; lr_struct_data_size := data_size;
                   lr_struct_pointer_count := pointer_count;
                   lr_nesting_limit := nesting_limit - 1 |} canonicalize
        | Far => fails MalformedDoubleFarPointer
        | Other =>
            if negb (is_capability s) then fails UnknownPointerType
            else if canonicalize then fails CannotCreateACanonicalMessageWithACapability
            else
              cap ← builder_extract_cap src_cap_table (cap_index s);
              match cap with
              | Some cap => set_capability_pointer dst_cap_table dst cap ;; ret (dst_segment_id, 0)
              | None => fails MessageContainsInvalidCapabilityPointer
              end
        end
  end.

(** ** PointerBuilder *)

Definition PointerBuilder_get_root (segment_id location : Z) : PointerBuilder :=
  {| pb_cap_table := 0; pb_segment_id := segment_id; pb_pointer := location |}.
Definition PointerBuilder_imbue (cap_table : CapTableBuilder) (p : PointerBuilder) : PointerBuilder :=
  {| pb_segment_id := pb_segment_id p; pb_cap_table := cap_table; pb_pointer := pb_pointer p |}.
Definition PointerBuilder_is_null (p : PointerBuilder) : B A bool :=
  r ← wload (pb_pointer p); ret (is_null r).

Definition pb_get_struct (p : PointerBuilder) (size : StructSize) (default : option default_words) :
    B A StructBuilder :=
  get_writable_struct_pointer (pb_pointer p) (pb_segment_id p) (pb_cap_table p) size default.
Definition pb_get_list (p : PointerBuilder) (element_size : ElementSize)
    (default : option default_words) : B A ListBuilder :=
  get_writable_list_pointer (pb_pointer p) (pb_segment_id p) (pb_cap_table p) element_size default.
Definition pb_get_struct_list (p : PointerBuilder) (element_size : StructSize)
    (default : option default_words) : B A ListBuilder :=
  get_writable_struct_list_pointer (pb_pointer p) (pb_segment_id p) (pb_cap_table p) element_size default.
Definition pb_get_text (p : PointerBuilder) (default : option default_words) : B A TextBuilder :=
  get_writable_text_pointer (pb_pointer p) (pb_segment_id p) default.
Definition pb_get_data (p : PointerBuilder) (default : option default_words) : B A ByteSlice :=
  get_writable_data_pointer (pb_pointer p) (pb_segment_id p) default.
Definition pb_get_capability (p : PointerBuilder) : B A ClientHook :=
  on_limiter (fun m tables => read_capability_pointer m tables (pb_cap_table p) (pb_pointer p)).

Definition init_struct (p : PointerBuilder) (size : StructSize) : B A StructBuilder :=
  init_struct_pointer (pb_pointer p) (pb_segment_id p) (pb_cap_table p) size.
Definition init_list (p : PointerBuilder) (element_size : ElementSize) (element_count : Z) :
    B A ListBuilder :=
  init_list_pointer (pb_pointer p) (pb_segment_id p) (pb_cap_table p) element_count element_size.
Definition init_struct_list (p : PointerBuilder) (element_count : Z) (element_size : StructSize) :
    B A ListBuilder :=
  init_struct_list_pointer (pb_pointer p) (pb_segment_id p) (pb_cap_table p) element_count element_size.
Definition init_text (p : PointerBuilder) (size : Z) : B A TextBuilder :=
  r ← init_text_pointer (pb_pointer p) (pb_segment_id p) size; ret (snd r).
Definition init_data (p : PointerBuilder) (size : Z) : B A ByteSlice :=
  r ← init_data_pointer (pb_pointer p) (pb_segment_id p) size; ret (snd r).

(** Enough fuel to copy from a reader with this nesting limit *)
Definition copy_fuel (nesting_limit : Z) : nat := S (S (Z.to_nat nesting_limit)).

Definition set_struct (p : PointerBuilder) (value : StructReader) (canonicalize : bool) : B A unit :=
  set_struct_pointer (copy_pointer (copy_fuel (sr_nesting_limit value))) (pb_segment_id p)
    (pb_cap_table p) (pb_pointer p) value canonicalize ;;
  ret tt.
Definition set_list (p : PointerBuilder) (value : ListReader) (canonicalize : bool) : B A unit :=
  set_list_pointer (copy_pointer (copy_fuel (lr_nesting_limit value))) (pb_segment_id p)
    (pb_cap_table p) (pb_pointer p) value canonicalize ;;
  ret tt.
Definition set_text (p : PointerBuilder) (value : list byte) : B A unit :=
  set_text_pointer (pb_pointer p) (pb_segment_id p) value ;; ret tt.
Definition set_data (p : PointerBuilder) (value : list byte) : B A unit :=
  set_data_pointer (pb_pointer p) (pb_segment_id p) value ;; ret tt.
Definition set_capability (p : PointerBuilder) (cap : ClientHook) : B A unit :=
  set_capability_pointer (pb_cap_table p) (pb_pointer p) cap.

Definition copy_from (p : PointerBuilder) (other : PointerReader) (canonicalize : bool) : B A unit :=
  if pr_pointer other =? 0 then
    if negb (pb_pointer p =? 0) then
      zero_object_all (pb_segment_id p) (pb_pointer p) ;; wzero (pb_pointer p) 8
    else ret tt
  else
    copy_pointer (copy_fuel (pr_nesting_limit other)) (pb_segment_id p) (pb_cap_table p) (pb_pointer p)
      (pr_arena other) (pr_segment_id other) (pr_cap_table other) (pr_pointer other)
      (pr_nesting_limit other) canonicalize ;;
    ret tt.

Definition clear (p : PointerBuilder) : B A unit :=
  zero_object_all (pb_segment_id p) (pb_pointer p) ;; wzero (pb_pointer p) 8.

Definition PointerBuilder_as_reader (p : PointerBuilder) : B A PointerReader :=
  arena ← as_reader;
  ret {| pr_arena := arena; pr_segment_id := pb_segment_id p; pr_cap_table := pb_cap_table p;
         pr_pointer := pb_pointer p; pr_nesting_limit := 0x7fffffff |}.

(** ** StructBuilder *)

Definition StructBuilder_as_reader (s : StructBuilder) : B A StructReader :=
  arena ← as_reader;
  ret {| sr_arena := arena; sr_cap_table := sb_cap_table s; sr_data := sb_data s;
         sr_pointers := sb_pointers s; sr_pointer_count := sb_pointer_count s;
         sr_segment_id := sb_segment_id s; sr_data_size := sb_data_size s;
         sr_nesting_limit := 0x7fffffff |}.
Definition StructBuilder_imbue (cap_table : CapTableBuilder) (s : StructBuilder) : StructBuilder :=
  {| sb_cap_table := cap_table; sb_data := sb_data s; sb_pointers := sb_pointers s;
     sb_segment_id := sb_segment_id s; sb_data_size := sb_data_size s;
     sb_pointer_count := sb_pointer_count s |}.

(** For a [T] of [n] bytes *)
Definition set_data_field (n : Z) (s : StructBuilder) (offset value : Z) : B A unit :=
  wput (fun m => store m (sb_data s + n * offset) n value).
Definition set_data_field_mask (n : Z) (s : StructBuilder) (offset value mask : Z) : B A unit :=
  set_data_field n s offset (Z.lxor value mask).
Definition sb_get_data_field (n : Z) (s : StructBuilder) (offset : Z) : B A Z :=
  on_mem (fun m => load m (sb_data s + n * offset) n).
Definition sb_get_data_field_mask (n : Z) (s : StructBuilder) (offset mask : Z) : B A Z :=
  v ← sb_get_data_field n s offset; ret (Z.lxor v mask).

(** [b & !(1 << i) | (v << i)] on a byte *)
Definition put_bit (b i : Z) (v : bool) : Z :=
  Z.lor (Z.land b (255 - Z.shiftl 1 i)) (Z.shiftl (Z.b2z v) i).
Definition set_bit_at (a i : Z) (v : bool) : B A unit :=
  b ← on_mem (fun m => load m a 1);
  wput (fun m => store m a 1 (put_bit b i v)).

Definition set_bool_field (s : StructBuilder) (offset : Z) (value : bool) : B A unit :=
  set_bit_at (sb_data s + offset / BITS_PER_BYTE) (offset mod BITS_PER_BYTE) value.
Definition set_bool_field_mask (s : StructBuilder) (offset : Z) (value mask : bool) : B A unit :=
  set_bool_field s offset (xorb value mask).
Definition sb_get_bool_field (s : StructBuilder) (offset : Z) : B A bool :=
  on_mem (fun m => load_bit m (sb_data s + offset / BITS_PER_BYTE) (offset mod BITS_PER_BYTE)).
Definition sb_get_bool_field_mask (s : StructBuilder) (offset : Z) (mask : bool) : B A bool :=
  b ← sb_get_bool_field s offset; ret (xorb b mask).

Definition sb_get_pointer_field (s : StructBuilder) (ptr_index : Z) : PointerBuilder :=
  {| pb_segment_id := sb_segment_id s; pb_cap_table := sb_cap_table s;
     pb_pointer := sb_pointers s + 8 * ptr_index |}.
Definition sb_is_pointer_field_null (s : StructBuilder) (ptr_index : Z) : B A bool :=
  p ← wload (sb_pointers s + 8 * ptr_index); ret (is_null p).

Definition copy_content_from (s : StructBuilder) (other : StructReader) : B A unit :=
  let shared_data_size := Z.min (sb_data_size s) (sr_data_size other) in
  let shared_pointer_count := Z.min (sb_pointer_count s) (sr_pointer_count other) in
  if ((0 <? shared_data_size) && (sr_data other =? sb_data s))
     || ((0 <? shared_pointer_count) && (sr_pointers other =? sb_pointers s))
  then
    if ((shared_data_size =? 0) || (sr_data other =? sb_data s))
       && ((shared_pointer_count =? 0) || (sr_pointers other =? sb_pointers s))
    then fails OnlyOneOfTheSectionPointersIsPointingToOurself
    else ret tt
  else
    (if shared_data_size <? sb_data_size s then
       if sb_data_size s =? 1 then set_bool_field s 0 false
       else wzero (sb_data s + shared_data_size / BITS_PER_BYTE)
              ((sb_data_size s - shared_data_size) / BITS_PER_BYTE)
     else ret tt) ;;
    (if shared_data_size =? 1 then
       b ← on_mem (fun m => get_bool_field m other 0);
       set_bool_field s 0 b
     else copy_nonoverlapping_check_zero (sr_data other) (sb_data s) (shared_data_size / BITS_PER_BYTE)) ;;
    iter_range (Z.to_nat (sb_pointer_count s)) 0 (fun i =>
      zero_object_all (sb_segment_id s) (sb_pointers s + 8 * i)) ;;
    wzero (sb_pointers s) (8 * sb_pointer_count s) ;;
    iter_range (Z.to_nat shared_pointer_count) 0 (fun i =>
      copy_pointer (copy_fuel (sr_nesting_limit other)) (sb_segment_id s) (sb_cap_table s)
        (sb_pointers s + 8 * i) (sr_arena other) (sr_segment_id other) (sr_cap_table other)
        (sr_pointers other + 8 * i) (sr_nesting_limit other) false ;;
      ret tt).

(** ** ListBuilder *)

Definition ListBuilder_into_reader (l : ListBuilder) : B A ListReader :=
  arena ← as_reader;
  ret {| lr_arena := arena; lr_segment_id := lb_segment_id l; lr_cap_table := lb_cap_table l;
         lr_ptr := lb_ptr l; lr_element_count := lb_element_count l;
         lr_element_size := lb_element_size l; lr_step := lb_step l;
         lr_struct_data_size := lb_struct_data_size l;
         lr_struct_pointer_count := lb_struct_pointer_count l; lr_nesting_limit := 0x7fffffff |}.
Definition ListBuilder_imbue (cap_table : CapTableBuilder) (l : ListBuilder) : ListBuilder :=
  {| lb_cap_table := cap_table; lb_ptr := lb_ptr l; lb_segment_id := lb_segment_id l;
     lb_element_count := lb_element_count l; lb_step := lb_step l;
     lb_struct_data_size := lb_struct_data_size l;
     lb_struct_pointer_count := lb_struct_pointer_count l; lb_element_size := lb_element_size l |}.

Definition lb_get_struct_element (l : ListBuilder) (index : Z) : outcome StructBuilder :=
  bits ← umul 64 index (lb_step l);
  let index_byte := wrap32 (bits / BITS_PER_BYTE) in
  let struct_data := lb_ptr l + index_byte in
  Ok {| sb_segment_id := lb_segment_id l; sb_cap_table := lb_cap_table l; sb_data := struct_data;
        sb_pointers := struct_data + lb_struct_data_size l / BITS_PER_BYTE;
        sb_data_size := lb_struct_data_size l; sb_pointer_count := lb_struct_pointer_count l |}.

Definition lb_get_pointer_element (l : ListBuilder) (index : Z) : outcome PointerBuilder :=
  bits ← umul 64 index (lb_step l);
  let offset := wrap32 (bits / BITS_PER_BYTE) in
  Ok {| pb_segment_id := lb_segment_id l; pb_cap_table := lb_cap_table l;
        pb_pointer := lb_ptr l + offset |}.

Definition lb_as_raw_bytes (l : ListBuilder) : outcome ByteSlice :=
  if lb_element_count l =? 0 then Ok empty_slice
  else
    bits ← umul 64 (lb_step l) (lb_element_count l);
    num_bytes ← round_bits_up_to_bytes bits;
    Ok {| bs_ptr := lb_ptr l; bs_len := num_bytes |}.

(** [PrimitiveElement] of a [T] of [n] bytes, and of [bool] *)
Definition primitive_get_from_builder (n : Z) (l : ListBuilder) (index : Z) : B A Z :=
  bits ← lift (umul 64 index (lb_step l));
  on_mem (fun m => load m (lb_ptr l + wrap32 (bits / BITS_PER_BYTE)) n).
Definition primitive_set (n : Z) (l : ListBuilder) (index value : Z) : B A unit :=
  bits ← lift (umul 64 index (lb_step l));
  wput (fun m => store m (lb_ptr l + wrap32 (bits / BITS_PER_BYTE)) n value).
Definition bool_get_from_builder (l : ListBuilder) (index : Z) : B A bool :=
  bindex ← lift (umul 64 index (lb_step l));
  on_mem (fun m => load_bit m (lb_ptr l + bindex / BITS_PER_BYTE) (bindex mod BITS_PER_BYTE)).
Definition bool_set (l : ListBuilder) (index : Z) (value : bool) : B A unit :=
  bindex ← lift (umul 64 index (lb_step l));
  set_bit_at (lb_ptr l + bindex / BITS_PER_BYTE) (bindex mod BITS_PER_BYTE) value.

(** ** [text::Builder] (capnp/src/text.rs) *)

Definition text_put (t : TextBuilder) (bs : list byte) : B A TextBuilder :=
  let n := Z.of_nat (length bs) in
  lift (rust_assert (tb_pos t + n <=? bs_len (tb_bytes t))) ;;
  wput (fun m => store_bytes m (bs_ptr (tb_bytes t) + tb_pos t) bs) ;;
  ret {| tb_bytes := tb_bytes t; tb_pos := tb_pos t + n |}.
Definition push_ascii (t : TextBuilder) (ascii : byte) : B A TextBuilder :=
  lift (rust_assert (byte.unsigned ascii <? 128)) ;; text_put t [ascii].
Definition push_str (t : TextBuilder) (string : list byte) : B A TextBuilder := text_put t string.
Definition text_clear (t : TextBuilder) : B A TextBuilder :=
  wzero (bs_ptr (tb_bytes t)) (tb_pos t) ;;
  ret {| tb_bytes := tb_bytes t; tb_pos := 0 |}.

(** ** [message::Builder] (capnp/src/message.rs) *)

(** [get_root_internal] *)
Definition builder_root : B A PointerBuilder :=
  empty ← arena_is_empty;
  (if empty : bool then
     unwrap_result (arena_allocate_segment 1) ;;
     o ← arena_allocate 0 1;
     lift (unwrap o) ;; ret tt
   else ret tt) ;;
  '(seg_start, _) ← get_segment_mut 0;
  ret (PointerBuilder_get_root 0 seg_start).

(** [get_root_as_reader], up to the typed view *)
Definition root_as_reader : B A PointerReader :=
  empty ← arena_is_empty;
  if empty : bool then ret PointerReader_new_default
  else
    arena ← as_reader;
    '(segment_start, _) ← lift (arena_get_segment arena 0);
    on_limiter (fun _ _ => PointerReader_get_root arena 0 segment_start 0x7fffffff).

(** [set_root_canonical] with a struct *)
Definition set_root_canonical (value : StructReader) : B A unit :=
  root ← builder_root;
  set_struct root value true ;;
  segments ← get_segments_for_output;
  lift (rust_assert (Z.of_nat (length segments) =? 1)).
End builders.
