(* ===== verification/BuilderArenaOk.v ===== *)
(** * The invariant of a builder's arena

    [world_ok]: the allocator's segments are the arena's, and every word past
    what an arena has allocated is zero.  Allocation preserves it and yields
    zeroed words that nothing uses yet ([grown]). *)

From S2P Require Import Prelude.
From S2P Require Import Mem.
From S2P Require Import Segments.
From S2P Require Import Readers.
From S2P Require Import Allocators.
From S2P Require Import AllocatorsOk.
From S2P Require Import BuilderArena.
Definition seg_region (s : BuilderSegment) : Z * Z := (seg_ptr s, seg_capacity s).
Definition in_used (s : BuilderSegment) (i : Z) : Prop :=
  seg_ptr s <= i < seg_ptr s + 8 * seg_allocated s.

Record segment_ok (m : mem) (s : BuilderSegment) : Prop := {
  so_aligned : seg_ptr s mod 8 = 0;
  so_pos : 0 < seg_ptr s;
  so_capacity : 0 < seg_capacity s <= 2 ^ 29;
  so_allocated : 0 <= seg_allocated s <= seg_capacity s;
  so_rest : zeroed m (seg_ptr s + 8 * seg_allocated s) (8 * (seg_capacity s - seg_allocated s))
}.

Section arena.
Context {A : Type} `{AllocatorOk A}.
Implicit Types (w : World A).

Definition segs w : list BuilderSegment := builder_segments (warena w).
Definition wmem w : mem := hmem (heap w).
Definition regions w : list (Z * Z) := map seg_region (segs w).
Definition used w (i : Z) : Prop := exists s, s ∈ segs w /\ in_used s i.

Record world_ok w : Prop := {
  wo_held : exists a, arena_allocator (warena w) = Some a /\ held a (heap w) (regions w);
  wo_segs : forall s, s ∈ segs w -> segment_ok (wmem w) s
}.

(** When an allocation of [n] words can fail: the allocator is exhausted. *)
Definition out_of_space w (n : Z) : Prop :=
  exists a, arena_allocator (warena w) = Some a /\ exhausted a n.

(** A total computation, up to exhaustion of the allocator *)
Definition wpa {X} (c : B A X) (Q : X -> World A -> Prop) w : Prop :=
  match c w with
  | (Ok x, w') => Q x w'
  | (Panic, _) => exists w0 n, out_of_space w0 n
  | _ => False
  end.

Lemma segment_lookup w id s : segs w !! id = Some s -> s ∈ segs w.
Proof. apply list_elem_of_lookup_2. Qed.

Lemma region_valid w s : world_ok w -> s ∈ segs w -> valid (wmem w) (seg_ptr s) (8 * seg_capacity s).
Proof.
  intros [(a & _ & Hh) _] Hs. apply (held_valid a (heap w) (regions w) (seg_region s) Hh).
  by apply list_elem_of_fmap_2.
Qed.

Lemma used_in_region w s i : world_ok w -> s ∈ segs w -> in_used s i -> in_region (seg_region s) i.
Proof.
  intros Hw Hs Hi. destruct (wo_segs _ Hw s Hs) as [_ _ _ Hal _].
  unfold in_used, in_region, seg_region in *. cbn [fst snd]. lia.
Qed.

Lemma used_in_regions w i : world_ok w -> used w i -> in_regions (regions w) i.
Proof.
  intros Hw (s & Hs & Hi). exists (seg_region s). split; [by apply list_elem_of_fmap_2|].
  by eapply used_in_region.
Qed.

(** Different segments are apart. *)
Lemma separate_lookup segs : separate segs -> forall j k s t i, segs !! j = Some s -> segs !! k = Some t ->
  in_region s i -> in_region t i -> j = k.
Proof.
  induction segs as [|r segs IH]; intros Hsep [|j] [|k] s t i Hj Hk Hs Ht; cbn in *; try done;
    destruct Hsep as [Hr Hsep].
  - injection Hj as ->. destruct (Hr i Hs). exists t. split; [by eapply list_elem_of_lookup_2|done].
  - injection Hk as ->. destruct (Hr i Ht). exists s. split; [by eapply list_elem_of_lookup_2|done].
  - f_equal. by eapply IH.
Qed.

Lemma segments_apart w j k s t i : world_ok w -> segs w !! j = Some s -> segs w !! k = Some t ->
  in_region (seg_region s) i -> in_region (seg_region t) i -> j = k.
Proof.
  intros [(a & _ & Hh) _] Hj Hk Hs Ht. apply held_separate in Hh.
  eapply (separate_lookup (regions w) Hh j k (seg_region s) (seg_region t) i); try done;
    unfold regions; by rewrite list_lookup_fmap, ?Hj, ?Hk.
Qed.

(** ** Growth *)

(** [w'] is [w] with [amount] more words allocated, from word [idx] of
    segment [id]. *)
Record grown w w' (id : Z) (seg : BuilderSegment) (idx amount : Z) : Prop := {
  gr_ok : world_ok w';
  gr_id : 0 <= id < 2 ^ 32;
  gr_seg : segs w' !! Z.to_nat id = Some seg;
  gr_idx : 0 <= idx /\ idx + amount <= seg_allocated seg;
  gr_zero : zeroed (wmem w') (seg_ptr seg + 8 * idx) (8 * amount);
  gr_fresh : forall i, seg_ptr seg + 8 * idx <= i < seg_ptr seg + 8 * (idx + amount) -> ~ used w i;
  gr_old : forall j s, segs w !! j = Some s -> exists s', segs w' !! j = Some s' /\
    seg_ptr s' = seg_ptr s /\ seg_capacity s' = seg_capacity s /\ seg_allocated s <= seg_allocated s';
  gr_mem : forall i, used w i -> wmem w' !! i = wmem w !! i;
  gr_caps : caps w' = caps w /\ limiter w' = limiter w
}.

Lemma in_regions_insert w id s s' : segs w !! id = Some s -> seg_region s' = seg_region s ->
  map seg_region (<[id := s']> (segs w)) = regions w.
Proof.
  intros Hs Hr. unfold regions. change (seg_region <$> <[id:=s']> (segs w) = seg_region <$> segs w).
  rewrite list_fmap_insert, Hr. apply list_insert_id. by rewrite list_lookup_fmap, Hs.
Qed.

(** Taking [amount] words of segment [id] *)
Definition bump w (id : nat) (s : BuilderSegment) (amount : Z) : World A :=
  set_warena (set_segments (<[id := set_allocated (seg_allocated s + amount) s]> (segs w)) (warena w)) w.

Lemma bump_ok w id s amount : world_ok w -> segs w !! id = Some s -> 0 <= amount ->
  seg_allocated s + amount <= seg_capacity s -> world_ok (bump w id s amount).
Proof.
  intros Hw Hs Ha Hr. destruct (wo_held _ Hw) as (a & Haa & Hh). split.
  - exists a. split; [done|]. unfold regions, segs, bump, set_warena, set_segments. cbn [warena builder_segments heap].
    by rewrite (in_regions_insert w id s).
  - unfold segs, bump, set_warena, set_segments, wmem. cbn [warena builder_segments heap].
    intros t Ht. apply list_elem_of_lookup in Ht as [j Hj].
    destruct (decide (j = id)) as [->|Hne].
    + rewrite list_lookup_insert_eq in Hj by (by eapply lookup_lt_Some). injection Hj as <-.
      destruct (wo_segs _ Hw s (segment_lookup _ _ _ Hs)) as [H1 H2 H3 H4 H5].
      split; cbn [seg_ptr seg_capacity seg_allocated set_allocated]; try done; [lia|].
      intros i Hi. apply H5. lia.
    + rewrite list_lookup_insert_ne in Hj by done. by apply (wo_segs _ Hw), (segment_lookup w j).
Qed.

Lemma bump_grown w id s amount : world_ok w -> segs w !! Z.to_nat id = Some s -> 0 <= id < 2 ^ 32 -> 0 <= amount ->
  seg_allocated s + amount <= seg_capacity s ->
  grown w (bump w (Z.to_nat id) s amount) id (set_allocated (seg_allocated s + amount) s) (seg_allocated s) amount.
Proof.
  intros Hw Hs Hid Ha Hr. pose proof (wo_segs _ Hw s (segment_lookup _ _ _ Hs)) as [H1 H2 H3 H4 H5].
  split; try done; cbn [seg_ptr seg_capacity seg_allocated set_allocated].
  - by apply bump_ok.
  - unfold segs, bump, set_warena, set_segments. cbn [warena builder_segments].
    apply list_lookup_insert_eq. by eapply lookup_lt_Some.
  - lia.
  - intros i Hi. apply H5. lia.
  - intros i Hi (t & Ht & Hti). apply list_elem_of_lookup in Ht as [j Hj].
    assert (j = Z.to_nat id) as ->.
    { apply (segments_apart w j (Z.to_nat id) t s i Hw Hj Hs).
      - apply (used_in_region w); try done. by eapply segment_lookup.
      - unfold in_region, seg_region. cbn [fst snd]. lia. }
    rewrite Hs in Hj. injection Hj as <-. unfold in_used in Hti. lia.
  - intros j t Hj. unfold segs, bump, set_warena, set_segments. cbn [warena builder_segments].
    destruct (decide (j = Z.to_nat id)) as [->|Hne].
    + rewrite list_lookup_insert_eq by (by eapply lookup_lt_Some). rewrite Hs in Hj. injection Hj as <-.
      eexists. split; [done|]. cbn. lia.
    + rewrite list_lookup_insert_ne by done. exists t. by split_and!.
Qed.

(** [allocate]: the bump pointer of one segment *)
Lemma arena_allocate_ok w id s amount : world_ok w -> segs w !! Z.to_nat id = Some s -> 0 <= amount ->
  arena_allocate id amount w =
    if seg_capacity s - seg_allocated s <? amount then (Ok None, w)
    else (Ok (Some (seg_allocated s)), bump w (Z.to_nat id) s amount).
Proof.
  intros Hw Hs Ha. destruct (wo_segs _ Hw s (segment_lookup _ _ _ Hs)) as [H1 H2 H3 H4 H5].
  unfold arena_allocate, index_segment. rewrite ST_bind_assoc.
  rewrite (ST_bind_ok get_segments _ _ (segs w) w eq_refl). rewrite Hs.
  rewrite ST_ret_bind.
  rewrite usub_ok by lia. rewrite (lift_bind_ok _ _ _ _ eq_refl).
  destruct (Z.ltb_spec (seg_capacity s - seg_allocated s) amount); [done|].
  rewrite uadd_ok by lia. rewrite (lift_bind_ok _ _ _ _ eq_refl).
  by rewrite (ST_bind_ok get_segments _ _ (segs w) w eq_refl).
Qed.

Lemma allocate_in_existing_ok w amount : world_ok w -> 0 <= amount -> forall n id,
  0 <= id -> id + Z.of_nat n = Z.of_nat (length (segs w)) -> id + Z.of_nat n < 2 ^ 32 ->
  exists o w', allocate_in_existing n id amount w = (Ok o, w') /\
  match o with
  | Some (i, idx) => exists s, grown w w' i s idx amount
  | None => w' = w
  end.
Proof.
  intros Hw Ha. induction n as [|n IH]; intros id Hid Hn Hlt; cbn [allocate_in_existing].
  { exists None, w. done. }
  destruct (lookup_lt_is_Some_2 (segs w) (Z.to_nat id)) as [s Hs]; [lia|].
  pose proof (arena_allocate_ok w id s amount Hw Hs Ha) as E.
  destruct (Z.ltb_spec (seg_capacity s - seg_allocated s) amount).
  - rewrite (ST_bind_ok _ _ _ _ _ E). destruct (IH (id + 1)) as (o & w' & Ho & Hr); [lia|lia|lia|].
    by exists o, w'.
  - rewrite (ST_bind_ok _ _ _ _ _ E). eexists _, _. split; [done|]. cbn beta iota.
    eexists. by apply (bump_grown w id s amount); try done; lia.
Qed.

Lemma arena_allocate_segment_ok w n : world_ok w -> 0 < n <= 2 ^ 29 ->
  match arena_allocate_segment n w with
  | (Ok _, w') => world_ok w' /\ caps w' = caps w /\ limiter w' = limiter w /\
      exists s, segs w' = segs w ++ [s] /\ seg_allocated s = 0 /\ n <= seg_capacity s /\
        forall i, used w i -> wmem w' !! i = wmem w !! i
  | (Panic, _) => out_of_space w n
  | _ => False
  end.
Proof.
  intros Hw Hn. destruct (wo_held _ Hw) as (a & Haa & Hh).
  pose proof (allocate_spec a (heap w) (regions w) n Hh ltac:(lia)) as Hs.
  unfold arena_allocate_segment, on_allocator, bind; cbn [ST_monad].
  rewrite Haa. destruct (allocate_segment n (a, heap w)) as [[[p cap]| | | |] [a' h']]; try done.
  2: { exists a. done. }
  destruct Hs as [[F1 F2 F3 F4 F5 F6] Hh']. cbn.
  set (s := {| seg_ptr := p; seg_capacity := cap; seg_allocated := 0 |}).
  assert (Hmem : forall i, in_regions (regions w) i -> hmem h' !! i = wmem w !! i).
  { intros i Hi. apply F6. intros Hi'. by apply (F5 i). }
  split; [split|].
  - exists a'. split; [done|]. unfold regions, segs. cbn [warena builder_segments set_warena heap set_heap set_segments].
    eapply held_perm; [exact Hh'|]. rewrite map_app. cbn [map]. apply Permutation_cons_append.
  - unfold segs. cbn [warena builder_segments set_warena heap set_heap set_segments].
    intros t Ht. apply elem_of_app in Ht as [Ht|Ht].
    + destruct (wo_segs _ Hw t Ht) as [H1 H2 H3 H4 H5]. split; try done.
      intros i Hi. unfold wmem. cbn [heap set_heap]. rewrite Hmem; [by apply H5|].
      exists (seg_region t). split; [by apply list_elem_of_fmap_2|]. unfold in_region, seg_region. cbn [fst snd]. lia.
    + apply list_elem_of_singleton in Ht as ->. split; cbn; try done; [lia|lia|].
      intros i Hi. apply F4. lia.
  - split; [done|]. split; [done|]. exists s. split; [done|]. split; [done|]. split; [cbn; lia|].
    intros i Hi. apply Hmem. by apply used_in_regions.
Qed.

(** Fewer segments than a [u32] can count, with room for another *)
Definition few_segments w : Prop := Z.of_nat (length (segs w)) < 2 ^ 32 - 1.

Lemma allocate_anywhere_ok w amount : world_ok w -> few_segments w -> 0 < amount <= 2 ^ 29 ->
  match allocate_anywhere amount w with
  | (Ok (id, idx), w') => exists s, grown w w' id s idx amount
  | (Panic, _) => out_of_space w amount
  | _ => False
  end.
Proof.
  intros Hw Hf Ha. unfold few_segments in Hf. unfold allocate_anywhere.
  rewrite (ST_bind_ok get_segments _ _ (segs w) w eq_refl). rewrite wrap32_small by lia.
  destruct (allocate_in_existing_ok w amount Hw ltac:(lia) (Z.to_nat (Z.of_nat (length (segs w)))) 0)
    as (o & w1 & Ho & Hr); [lia|lia|lia|].
  rewrite (ST_bind_ok _ _ _ _ _ Ho). destruct o as [[i idx]|]; [done|]. subst w1.
  pose proof (arena_allocate_segment_ok w amount Hw Ha) as Hs.
  unfold unwrap_result, bind at 1; cbn [ST_monad].
  destruct (arena_allocate_segment amount w) as [[[]| | | |] w1]; try done.
  destruct Hs as (Hw1 & Hc & Hl & s & Hsegs & Hal & Hcap & Hmem).
  assert (Hlk : segs w1 !! Z.to_nat (Z.of_nat (length (segs w))) = Some s).
  { rewrite Hsegs, Nat2Z.id. apply list_lookup_middle. done. }
  pose proof (arena_allocate_ok w1 (Z.of_nat (length (segs w))) s amount Hw1 Hlk ltac:(lia)) as E.
  destruct (Z.ltb_spec (seg_capacity s - seg_allocated s) amount); [lia|].
  rewrite (ST_bind_ok _ _ _ _ _ E). cbn [unwrap]. rewrite (lift_bind_ok _ _ _ _ eq_refl).
  exists (set_allocated (seg_allocated s + amount) s).
  assert (Hused : forall i, used w i -> used w1 i).
  { intros i (t & Ht & Hi). exists t. split; [|done]. rewrite Hsegs. apply elem_of_app. by left. }
  destruct (bump_grown w1 (Z.of_nat (length (segs w))) s amount Hw1 Hlk ltac:(lia) ltac:(lia) ltac:(lia))
    as [G1 G2 G3 G4 G5 G6 G7 G8 [G9 G10]].
  split; try done.
  - intros i Hi Hu. by apply (G6 i Hi), Hused.
  - intros j t Hj. apply G7. rewrite Hsegs. by apply lookup_app_l_Some.
Qed.
End arena.
