(* ===== verification/BuilderOps.v ===== *)
(** * How the world changes

    The building operations only write to words the arena has handed out and
    only take words that nothing uses: [evolves w w' P] says that [w'] is [w]
    with more words used, and that what was in use outside [P] is as before.
    [points] is the wire format's meaning of a pointer, and what the reader
    makes of it. *)

From S2P Require Import Prelude.
From S2P Require Import Mem.
From S2P Require Import ReadLimiter.
From S2P Require Import Segments.
From S2P Require Import WirePointer.
From S2P Require Import Arena.
From S2P Require Import Readers.
From S2P Require Import Allocators.
From S2P Require Import AllocatorsOk.
From S2P Require Import BuilderArena.
From S2P Require Import Builders.
From S2P Require Import BuilderArenaOk.
(** ** Memory *)

(** [m'] is [m] with other bytes in the [n] from [a]. *)
Record wrote (m m' : mem) (a n : Z) : Prop := {
  wrote_domain : same_domain m m';
  wrote_outside : unchanged_outside (fun i => a <= i < a + n) m m'
}.

Lemma same_domain_refl m : same_domain m m.
Proof. done. Qed.
Lemma same_domain_trans m1 m2 m3 : same_domain m1 m2 -> same_domain m2 m3 -> same_domain m1 m3.
Proof. intros H1 H2 i. by rewrite (H2 i). Qed.
Lemma same_domain_valid m m' a n : same_domain m m' -> valid m a n -> valid m' a n.
Proof. intros Hd Hv i Hi. by apply Hd, Hv. Qed.
Lemma wrote_same m m' a n b k : wrote m m' a n -> b + k <= a \/ a + n <= b -> same_at m m' b k.
Proof. intros [_ Ho] Hr i Hi. apply Ho. lia. Qed.
Lemma wrote_refl m a n : wrote m m a n.
Proof. by split. Qed.
Lemma wrote_sub m m' a n b k : wrote m m' a n -> b <= a -> a + n <= b + k -> wrote m m' b k.
Proof. intros [H1 H2] Ha Hn. split; [done|]. intros i Hi. apply H2. lia. Qed.
Lemma wrote_trans m1 m2 m3 a n : wrote m1 m2 a n -> wrote m2 m3 a n -> wrote m1 m3 a n.
Proof.
  intros [H1 H2] [H3 H4]. split; [by eapply same_domain_trans|]. intros i Hi. by rewrite (H4 i), (H2 i).
Qed.

Lemma write_bytes_wrote m a bs n : Z.of_nat (length bs) <= n -> valid m a (Z.of_nat (length bs)) ->
  wrote m (write_bytes m a bs) a n.
Proof.
  intros Hn Hv. split.
  - intros i. rewrite write_bytes_lookup.
    destruct (Z.leb_spec a i), (Z.ltb_spec i (a + Z.of_nat (length bs))); simpl; try done.
    split; intros _; [by apply Hv|]. apply lookup_lt_is_Some. lia.
  - intros i Hi. rewrite write_bytes_lookup.
    destruct (Z.leb_spec a i), (Z.ltb_spec i (a + Z.of_nat (length bs))); simpl; try done. lia.
Qed.

Lemma store_bytes_ok m a bs : valid m a (Z.of_nat (length bs)) -> store_bytes m a bs = Ok (write_bytes m a bs).
Proof. intros Hv. unfold store_bytes. by rewrite (proj2 (valid_nat_iff _ _ _)). Qed.

Lemma load_wp_same m m' a : same_at m m' a 8 -> load_wp m' a = load_wp m a.
Proof.
  intros Hs. unfold load_wp. rewrite (load_same m m' a 4) by (intros i Hi; apply Hs; lia).
  by rewrite (load_same m m' (a + 4) 4) by (intros i Hi; apply Hs; lia).
Qed.

Lemma store_wp_ok m a p : a mod 8 = 0 -> valid m a 8 -> wp_ok p ->
  exists m', store_wp m a p = Ok m' /\ wrote m m' a 8 /\ load_wp m' a = Ok p.
Proof.
  intros Ha Hv [Ho Hu]. unfold store_wp.
  assert (H4 : a mod 4 = 0 /\ (a + 4) mod 4 = 0) by (split; zlia). destruct H4 as [H4 H4'].
  rewrite store_ok by (done || by eapply valid_sub; eauto; lia). cbn [bind outcome_monad].
  set (m1 := write_bytes m a _).
  assert (W1 : wrote m m1 a 4).
  { apply write_bytes_wrote; rewrite length_le_split; [lia|]. eapply valid_sub; eauto; lia. }
  assert (V1 : valid m1 (a + 4) 4).
  { eapply same_domain_valid; [apply W1|]. eapply valid_sub; eauto; lia. }
  rewrite store_ok by (done || lia). eexists. split; [done|].
  assert (W2 : wrote m1 (write_bytes m1 (a + 4) (le_split (Z.to_nat 4) (upper32bits p))) (a + 4) 4).
  { apply write_bytes_wrote; rewrite length_le_split; [lia|done]. }
  split.
  - eapply wrote_trans; eapply wrote_sub; [exact W1| | |exact W2| |]; lia.
  - unfold load_wp. rewrite (load_same _ _ a 4) by (apply (wrote_same _ _ _ _ _ _ W2); lia).
    unfold m1. rewrite load_stored by (done || lia). cbn [bind outcome_monad].
    rewrite load_stored by (done || lia). by destruct p.
Qed.

Definition null_wp : WirePointer := {| offset_and_kind := 0; upper32bits := 0 |}.

Lemma load_zeroed m a n : 0 <= n -> a mod n = 0 -> zeroed m a n -> load m a n = Ok 0.
Proof.
  intros Hn Ha Hz. unfold load. rewrite Ha, Z.eqb_refl.
  destruct (load_bytes_ok m a n Hn (zeroed_valid _ _ _ Hz)) as (bs & -> & Hl & Hk). cbn [bind outcome_monad].
  f_equal. assert (E : bs = replicate (length bs) Byte.x00).
  { apply list_eq. intros k. destruct (decide (k < length bs)%nat).
    - rewrite lookup_replicate_2, Hk, Hz by lia. done.
    - rewrite !lookup_ge_None_2; [done|rewrite length_replicate; lia|lia]. }
  rewrite E. clear. induction (length bs) as [|k IH]; [done|].
  change (Z.lor 0 (Z.shiftl (le_combine (replicate k Byte.x00)) 8) = 0). by rewrite IH.
Qed.

Lemma load_wp_zeroed m a : a mod 8 = 0 -> zeroed m a 8 -> load_wp m a = Ok null_wp.
Proof.
  intros Ha Hz. unfold load_wp. rewrite load_zeroed; [|lia|zlia|intros i Hi; apply Hz; lia].
  cbn [bind outcome_monad]. rewrite load_zeroed; [done|lia|zlia|intros i Hi; apply Hz; lia].
Qed.

Section ops.
Context {A : Type} `{AllocatorOk A}.
Implicit Types (w : World A).

(** The world with another memory *)
Definition upd (m : mem) (w : World A) : World A := set_heap (set_hmem m (heap w)) w.

Lemma wload_bind {X} a p (k : WirePointer -> B A X) w :
  load_wp (wmem w) a = Ok p -> bind (wload a) k w = k p w.
Proof. intros Hp. apply ST_bind_ok. unfold wload, on_mem. by rewrite <- Hp. Qed.

Lemma wput_ok f w m : f (wmem w) = Ok m -> wput f w = (Ok tt, upd m w).
Proof.
  intros Hf. unfold wput, on_heap. rewrite (ST_bind_ok get_state _ _ _ _ eq_refl).
  by rewrite (lift_bind_ok _ _ _ _ Hf).
Qed.

Lemma wstore_ok a p w : a mod 8 = 0 -> valid (wmem w) a 8 -> wp_ok p ->
  exists m, wstore a p w = (Ok tt, upd m w) /\ wrote (wmem w) m a 8 /\ load_wp m a = Ok p.
Proof.
  intros Ha Hv Hp. destruct (store_wp_ok (wmem w) a p Ha Hv Hp) as (m & Hm & Hr).
  exists m. split; [|done]. by apply wput_ok.
Qed.

Lemma wset_ok a f p w : a mod 8 = 0 -> valid (wmem w) a 8 -> load_wp (wmem w) a = Ok p -> wp_ok (f p) ->
  exists m, wset a f w = (Ok tt, upd m w) /\ wrote (wmem w) m a 8 /\ load_wp m a = Ok (f p).
Proof. intros Ha Hv Hl Hp. unfold wset. rewrite (wload_bind a p) by done. by apply wstore_ok. Qed.

Lemma wset_checked_ok a f p q w : a mod 8 = 0 -> valid (wmem w) a 8 -> load_wp (wmem w) a = Ok p ->
  f p = Ok q -> wp_ok q ->
  exists m, wset_checked a f w = (Ok tt, upd m w) /\ wrote (wmem w) m a 8 /\ load_wp m a = Ok q.
Proof.
  intros Ha Hv Hl Hf Hp. unfold wset_checked. rewrite (wload_bind a p) by done.
  rewrite (lift_bind_ok _ _ _ _ Hf). by apply wstore_ok.
Qed.

(** [n] words in use from [a], in segment [id] *)
Definition in_seg w (id a n : Z) : Prop := exists s k,
  segs w !! Z.to_nat id = Some s /\ 0 <= id < 2 ^ 32 /\ a = seg_ptr s + 8 * k /\ 0 <= k /\ 0 <= n /\
  k + n <= seg_allocated s.

Lemma in_seg_used w id a n i : in_seg w id a n -> a <= i < a + 8 * n -> used w i.
Proof.
  intros (s & k & Hs & _ & -> & Hk & Hn & Hr) Hi. exists s. split; [by eapply segment_lookup|].
  unfold in_used. lia.
Qed.
Lemma in_seg_facts w id a n : world_ok w -> in_seg w id a n -> a mod 8 = 0 /\ 0 < a /\ valid (wmem w) a (8 * n).
Proof.
  intros Hw (s & k & Hs & _ & -> & Hk & Hn & Hr).
  apply segment_lookup in Hs. destruct (wo_segs _ Hw s Hs) as [H1 H2 H3 H4 _]. split; [zlia|]. split; [lia|].
  eapply valid_sub; [by apply (region_valid w s Hw)|lia|lia].
Qed.
Lemma in_seg_sub w id a n b k : in_seg w id a n -> a <= b -> (b - a) mod 8 = 0 -> 0 <= k ->
  b + 8 * k <= a + 8 * n -> in_seg w id b k.
Proof.
  intros (s & j & Hs & Hid & -> & Hj & Hn & Hr) Hb Hal Hk Hbk.
  exists s, ((b - seg_ptr s) / 8). split_and!; try done; zlia.
Qed.
Lemma in_seg_valid w id a n b k : world_ok w -> in_seg w id a n -> a <= b -> b + k <= a + 8 * n ->
  valid (wmem w) b k.
Proof. intros Hw Hs Hb Hk. destruct (in_seg_facts _ _ _ _ Hw Hs) as (_ & _ & Hv). by eapply valid_sub. Qed.

(** ** Evolution *)

Record evolves w w' (P : Z -> Prop) : Prop := {
  ev_ok : world_ok w';
  ev_old : forall j s, segs w !! j = Some s -> exists s', segs w' !! j = Some s' /\
    seg_ptr s' = seg_ptr s /\ seg_capacity s' = seg_capacity s /\ seg_allocated s <= seg_allocated s';
  ev_mem : forall i, used w i -> ~ P i -> wmem w' !! i = wmem w !! i;
  ev_caps : caps w' = caps w;
  ev_limiter : limiter w' = limiter w
}.

Lemma evolves_refl w P : world_ok w -> evolves w w P.
Proof. intros Hw. split; try done. intros j s Hj. exists s. by split_and!. Qed.

Lemma evolves_used w w' P i : evolves w w' P -> used w i -> used w' i.
Proof.
  intros He (s & Hs & Hi). apply list_elem_of_lookup in Hs as [j Hj].
  destruct (ev_old _ _ _ He j s Hj) as (s' & Hj' & Hp & _ & Ha). exists s'.
  split; [by eapply list_elem_of_lookup_2|]. unfold in_used in *. rewrite Hp. lia.
Qed.
Lemma evolves_in_seg w w' P id a n : evolves w w' P -> in_seg w id a n -> in_seg w' id a n.
Proof.
  intros He (s & k & Hs & Hid & -> & Hk & Hn & Hr). destruct (ev_old _ _ _ He _ s Hs) as (s' & Hs' & Hp & _ & Ha).
  exists s', k. rewrite Hp. split_and!; try done; lia.
Qed.

Lemma evolves_trans w w1 w2 (P Q R : Z -> Prop) : evolves w w1 P -> evolves w1 w2 Q ->
  (forall i, used w i -> P i \/ Q i -> R i) -> evolves w w2 R.
Proof.
  intros H1 H2 HR. split.
  - apply H2.
  - intros j s Hj. destruct (ev_old _ _ _ H1 j s Hj) as (s1 & Hj1 & Hp1 & Hc1 & Ha1).
    destruct (ev_old _ _ _ H2 j s1 Hj1) as (s2 & Hj2 & Hp2 & Hc2 & Ha2).
    exists s2. split_and!; [done|congruence|congruence|lia].
  - intros i Hu Hr. rewrite (ev_mem _ _ _ H2), (ev_mem _ _ _ H1); try done; auto.
    by eapply evolves_used.
  - rewrite (ev_caps _ _ _ H2). apply H1.
  - rewrite (ev_limiter _ _ _ H2). apply H1.
Qed.
Lemma evolves_weaken w w' (P Q : Z -> Prop) : evolves w w' P -> (forall i, used w i -> P i -> Q i) -> evolves w w' Q.
Proof. intros [H1 H2 H3 H4 H5] HQ. split; try done. intros i Hu Hq. apply H3; auto. Qed.

Lemma grown_evolves w w' id s idx amount : grown w w' id s idx amount -> evolves w w' (fun _ => False).
Proof. intros [G1 G2 G3 G4 G5 G6 G7 G8 [G9 G10]]. split; auto. Qed.

(** Writing to used words *)
Lemma upd_evolves w m a n : world_ok w -> wrote (wmem w) m a n -> (forall i, a <= i < a + n -> used w i) ->
  evolves w (upd m w) (fun i => a <= i < a + n).
Proof.
  intros Hw [Hd Ho] Hu. split; try done.
  - destruct (wo_held _ Hw) as (al & Hal & Hh). split.
    + exists al. split; [done|]. apply (held_stable al (heap w)); [done|done|done|].
      intros i Hi. apply Ho. intros Hr. apply Hi. apply (used_in_regions w i Hw). by apply Hu.
    + intros s Hs. destruct (wo_segs _ Hw s Hs) as [H1 H2 H3 H4 H5]. split; try done.
      intros i Hi. rewrite <- (H5 i Hi). apply Ho. intros Hr. destruct (Hu i Hr) as (t & Ht & Hti).
      apply list_elem_of_lookup in Hs as [j Hj], Ht as [k Hk].
      assert (j = k) as ->.
      { apply (segments_apart w j k s t i Hw Hj Hk); unfold in_region, seg_region; cbn [fst snd]; [lia|].
        pose proof (used_in_region w t i Hw ltac:(by eapply segment_lookup) Hti) as Hx.
        by unfold in_region, seg_region in Hx. }
      change (segs w !! k = Some s) in Hj. assert (t = s) as -> by congruence. unfold in_used in Hti. lia.
  - intros j s Hj. exists s. by split_and!.
  - intros i _ Hi. by apply Ho.
Qed.

(** ** Pointers *)

(** The pointer at [reff] in segment [id] refers to the object at [ptr] in
    segment [id'], which [q], stored at [tag], describes: directly, or through
    a landing pad. *)
Inductive points (m : mem) (segments : list BuilderSegment) (reff id : Z) :
    Z -> Z -> Z -> WirePointer -> Prop :=
| points_near q : load_wp m reff = Ok q -> kind q <> Far ->
    points m segments reff id (target reff q) reff id q
| points_far p s q : load_wp m reff = Ok p -> kind p = Far -> is_double_far p = false ->
    segments !! Z.to_nat (far_segment_id p) = Some s ->
    load_wp m (seg_ptr s + 8 * far_position_in_segment p) = Ok q -> kind q <> Far ->
    points m segments reff id (target (seg_ptr s + 8 * far_position_in_segment p) q)
      (seg_ptr s + 8 * far_position_in_segment p) (far_segment_id p) q.

Lemma points_load m segments reff id ptr tag id' q :
  points m segments reff id ptr tag id' q -> load_wp m tag = Ok q /\ kind q <> Far.
Proof. by intros []. Qed.

Lemma target_shift a p : a + (1 + signed_offset p) * BYTES_PER_WORD = target a p.
Proof. unfold target, BYTES_PER_WORD. lia. Qed.

Lemma builder_target m segments a id q : load_wp m a = Ok q ->
  target_from_segment m a (builder_reader_arena segments) id = Ok (target a q).
Proof.
  intros Hq. unfold target_from_segment. rewrite Hq. cbn. unfold builder_check_offset. by rewrite target_shift.
Qed.

(** A reader finds the same object. *)
Lemma points_follow_fars m segments reff id ptr tag id' q l : points m segments reff id ptr tag id' q ->
  follow_fars m (builder_reader_arena segments) reff id l = (Ok (ptr, tag, id'), l).
Proof.
  intros [q1 Hq Hk|p s q1 Hp Hk Hd Hs Hq Hkq]; unfold follow_fars.
  - rewrite (lift_bind_ok _ _ _ _ Hq).
    destruct (kind q1); try done; by rewrite (lift_bind_ok _ _ _ _ (builder_target _ _ _ _ _ Hq)).
  - rewrite (lift_bind_ok _ _ _ _ Hp), Hk.
    rewrite (lift_bind_ok _ _ _ (seg_ptr s, seg_allocated s))
      by (cbn; unfold builder_get_segment; by rewrite Hs).
    cbn beta iota. unfold bounds_check. cbn [contains_interval builder_reader_arena]. rewrite ST_ret_bind. rewrite Hd. cbn [negb].
    unfold BYTES_PER_WORD. rewrite (Z.mul_comm _ 8).
    by rewrite (lift_bind_ok _ _ _ _ (builder_target _ _ _ _ _ Hq)).
Qed.

(** Changing the upper half of the pointer that describes the object *)
Lemma points_retag m m' segments reff id ptr tag id' q q' : points m segments reff id ptr tag id' q ->
  (tag = reff \/ same_at m m' reff 8) -> load_wp m' tag = Ok q' ->
  offset_and_kind q' = offset_and_kind q -> points m' segments reff id ptr tag id' q'.
Proof.
  intros Hp Hs Hq' Ho.
  assert (Ek : kind q' = kind q) by (unfold kind; by rewrite Ho).
  assert (Et : forall a, target a q' = target a q) by (intros a; unfold target, signed_offset; by rewrite Ho).
  destruct Hp as [q1 Hq Hk|p s q1 Hp Hk Hd Hs1 Hq Hkq].
  - rewrite <- Et. apply points_near; [done|congruence].
  - rewrite <- Et. destruct Hs as [E|Hs].
    + exfalso. rewrite E in Hq. congruence.
    + apply points_far; try done; [by rewrite (load_wp_same m m')|congruence].
Qed.

(** Writing elsewhere *)
Lemma points_frame m m' segments segments' reff id ptr tag id' q :
  points m segments reff id ptr tag id' q -> same_at m m' reff 8 -> same_at m m' tag 8 ->
  (forall j s, segments !! j = Some s -> exists s', segments' !! j = Some s' /\ seg_ptr s' = seg_ptr s) ->
  points m' segments' reff id ptr tag id' q.
Proof.
  intros [q1 Hq Hk|p s q1 Hp Hk Hd Hs Hq Hkq] H1 H2 Hseg.
  - apply points_near; [by rewrite (load_wp_same m m')|done].
  - destruct (Hseg _ _ Hs) as (s' & Hs' & E). rewrite <- E in *.
    apply points_far; try done; by rewrite (load_wp_same m m').
Qed.

(** ** [allocate] *)

(** [amount] words newly in use at [ptr] in segment [id'], all zero, which the
    pointer at [reff] refers to through [tag] *)
Record allocated w w' (reff id amount : Z) (k : WirePointerKind) (ptr tag id' : Z) : Prop := {
  al_evolves : evolves w w' (fun i => reff <= i < reff + 8);
  al_points : exists q, points (wmem w') (segs w') reff id ptr tag id' q /\ kind q = k /\
    upper32bits q = 0 /\ wp_ok q;
  al_block : in_seg w' id' ptr amount;
  al_zero : zeroed (wmem w') ptr (8 * amount);
  al_fresh : forall i, ptr <= i < ptr + 8 * amount -> ~ used w i;
  al_tag : in_seg w' id' tag 1 /\ (forall i, tag <= i < tag + 8 -> ~ ptr <= i < ptr + 8 * amount) /\
    (tag = reff \/ forall i, tag <= i < tag + 8 -> ~ used w i);
  al_empty : amount = 0 -> k = Struct -> tag = reff /\ ptr = reff
}.

Lemma get_segment_bind {X} id s (k : Z * Z -> B A X) w : segs w !! Z.to_nat id = Some s ->
  bind (get_segment_mut id) k w = k (seg_ptr s, seg_capacity s) w.
Proof.
  intros Hs. unfold get_segment_mut, index_segment. rewrite ST_bind_assoc, ST_bind_assoc.
  rewrite (ST_bind_ok get_segments _ _ (segs w) w eq_refl). by rewrite Hs.
Qed.

Lemma grown_in_seg w w' id s idx amount a n : grown w w' id s idx amount -> 0 <= n ->
  seg_ptr s + 8 * idx <= a -> (a - seg_ptr s) mod 8 = 0 -> a + 8 * n <= seg_ptr s + 8 * (idx + amount) ->
  in_seg w' id a n.
Proof.
  intros [G1 G2 G3 [G4 G4'] G5 G6 G7 G8 _] Hn Ha Hal Hr.
  exists s, ((a - seg_ptr s) / 8). split_and!; try done; zlia.
Qed.

Lemma set_kind_and_target_near w id reff ptr n k p : world_ok w -> in_seg w id reff 1 -> in_seg w id ptr n ->
  exists q, set_kind_and_target reff k ptr p = Ok q /\ upper32bits q = upper32bits p /\
    u32 (offset_and_kind q) /\ kind q = k /\ target reff q = ptr.
Proof.
  intros Hw (s & i & Hs & _ & -> & Hi & _ & Hir) (t & j & Ht & _ & -> & Hj & Hn & Hjr).
  rewrite Hs in Ht. injection Ht as <-.
  destruct (wo_segs _ Hw s (segment_lookup _ _ _ Hs)) as [_ _ Hc Ha _].
  apply set_kind_and_target_spec; zlia.
Qed.

Lemma null_wp_ok : wp_ok null_wp.
Proof. split; unfold u32, in_width; cbn; lia. Qed.

(** The last step of both cases: the pointer at [reff] is set to refer to the
    new words. *)
Lemma set_target_ok w id reff ptr n k p : world_ok w -> in_seg w id reff 1 -> in_seg w id ptr n -> k <> Far ->
  load_wp (wmem w) reff = Ok p -> upper32bits p = 0 ->
  exists m q, wset_checked reff (set_kind_and_target reff k ptr) w = (Ok tt, upd m w) /\
    wrote (wmem w) m reff 8 /\ load_wp m reff = Ok q /\ kind q = k /\ upper32bits q = 0 /\ wp_ok q /\
    target reff q = ptr.
Proof.
  intros Hw Hr Hp Hk Hl Hu. destruct (in_seg_facts _ _ _ _ Hw Hr) as (Hal & _ & Hv).
  destruct (set_kind_and_target_near w id reff ptr n k p Hw Hr Hp) as (q & Hq & Hqu & Hqo & Hqk & Hqt).
  assert (Hok : wp_ok q) by (split; [done|rewrite Hqu, Hu; unfold u32, in_width; lia]).
  destruct (wset_checked_ok reff (set_kind_and_target reff k ptr) p q w Hal Hv Hl Hq Hok) as (m & Hm & Hwr & Hlm).
  exists m, q. split_and!; try done. congruence.
Qed.

Lemma load_wp_used w w' (P : Z -> Prop) a id : evolves w w' P -> in_seg w id a 1 -> (forall i, a <= i < a + 8 -> ~ P i) ->
  load_wp (wmem w') a = load_wp (wmem w) a.
Proof.
  intros He Hs HP. apply load_wp_same. intros i Hi. apply (ev_mem _ _ _ He); [|by apply HP].
  by apply (in_seg_used w id a 1).
Qed.

Lemma allocate_near w w1 s reff id idx amount k : grown w w1 id s idx amount -> in_seg w id reff 1 ->
  load_wp (wmem w) reff = Ok null_wp -> 0 <= amount -> k <> Far -> (amount = 0 -> k <> Struct) ->
  exists m, wset_checked reff (set_kind_and_target reff k (seg_ptr s + idx * BYTES_PER_WORD)) w1 = (Ok tt, upd m w1) /\
    allocated w (upd m w1) reff id amount k (seg_ptr s + idx * BYTES_PER_WORD) reff id.
Proof.
  intros G Hr Hl Ha Hk Hne. pose proof (grown_evolves _ _ _ _ _ _ G) as E1.
  unfold BYTES_PER_WORD. rewrite (Z.mul_comm idx 8).
  assert (Hb : in_seg w1 id (seg_ptr s + 8 * idx) amount) by (eapply grown_in_seg; eauto; zlia).
  pose proof (evolves_in_seg _ _ _ _ _ _ E1 Hr) as Hr1.
  assert (Hl1 : load_wp (wmem w1) reff = Ok null_wp) by (rewrite <- Hl; eapply load_wp_used; eauto).
  destruct (set_target_ok w1 id reff _ amount k null_wp (ev_ok _ _ _ E1) Hr1 Hb Hk Hl1 eq_refl)
    as (m & q & Hm & Hwr & Hlm & Hqk & Hqu & Hqo & Hqt).
  assert (E2 : evolves w1 (upd m w1) (fun i => reff <= i < reff + 8)).
  { apply upd_evolves; [apply E1|done|]. intros i Hi. by apply (in_seg_used w1 id reff 1). }
  assert (Hdisj : forall i, reff <= i < reff + 8 -> ~ seg_ptr s + 8 * idx <= i < seg_ptr s + 8 * idx + 8 * amount).
  { intros i Hi Hi'. apply (gr_fresh _ _ _ _ _ _ G i); [lia|]. by apply (in_seg_used w id reff 1). }
  exists m. split; [done|]. split.
  - eapply evolves_trans; [exact E1|exact E2|]. intros i _ [[]|Hi]. done.
  - exists q. split_and!; try done. rewrite <- Hqt. apply points_near; [done|congruence].
  - by eapply evolves_in_seg.
  - intros i Hi. change (m !! i = Some Byte.x00).
    rewrite (wrote_outside _ _ _ _ Hwr) by (intros Hi'; by apply (Hdisj i)). by apply (gr_zero _ _ _ _ _ _ G).
  - intros i Hi. apply (gr_fresh _ _ _ _ _ _ G). lia.
  - split; [by eapply evolves_in_seg|]. split; [done|]. by left.
  - intros H1 H2. by destruct (Hne H1).
Qed.

(** The far pointer at [reff], written in two steps *)
Lemma set_far_ok w id reff pos id' : world_ok w -> in_seg w id reff 1 -> 0 <= pos < 2 ^ 29 -> 0 <= id' < 2 ^ 32 ->
  load_wp (wmem w) reff = Ok null_wp ->
  exists m1 m p, wset reff (set_far false pos) w = (Ok tt, upd m1 w) /\
    wset reff (set_far_segment_id id') (upd m1 w) = (Ok tt, upd m (upd m1 w)) /\
    wrote (wmem w) m reff 8 /\ load_wp m reff = Ok p /\ kind p = Far /\ is_double_far p = false /\
    far_position_in_segment p = pos /\ far_segment_id p = id'.
Proof.
  intros Hw Hr Hpos Hid Hl. destruct (in_seg_facts _ _ _ _ Hw Hr) as (Hal & _ & Hv).
  destruct (set_far_spec false pos null_wp Hpos) as (Hk & Hd & Hp & Hu & Ho). cbv zeta in *.
  destruct (wset_ok reff (set_far false pos) null_wp w Hal Hv Hl) as (m1 & Hm1 & Hw1 & Hl1).
  { split; [done|rewrite Hu; unfold u32, in_width; cbn; lia]. }
  destruct (wset_ok reff (set_far_segment_id id') (set_far false pos null_wp) (upd m1 w) Hal) as (m & Hm & Hw2 & Hl2).
  - eapply same_domain_valid; [apply Hw1|done].
  - done.
  - by split.
  - exists m1, m, (set_far_segment_id id' (set_far false pos null_wp)).
    split_and!; try done. by eapply wrote_trans.
Qed.

Lemma upd_upd m1 m2 w : upd m2 (upd m1 w) = upd m2 w.
Proof. done. Qed.

Lemma allocate_far w w1 s reff id id' idx amount k : grown w w1 id' s idx (amount + 1) -> in_seg w id reff 1 ->
  load_wp (wmem w) reff = Ok null_wp -> 0 <= amount -> k <> Far -> (amount = 0 -> k <> Struct) ->
  let ptr := seg_ptr s + idx * BYTES_PER_WORD in
  exists w2, (wset reff (set_far false idx) ;; wset reff (set_far_segment_id id') ;;
    wset_checked ptr (set_kind_and_target ptr k (ptr + BYTES_PER_WORD))) w1 = (Ok tt, w2) /\
    allocated w w2 reff id amount k (ptr + BYTES_PER_WORD) ptr id'.
Proof.
  intros G Hr Hl Ha Hk Hne ptr. pose proof (grown_evolves _ _ _ _ _ _ G) as E1.
  assert (Eptr : ptr = seg_ptr s + 8 * idx) by (unfold ptr, BYTES_PER_WORD; lia). clearbody ptr. subst ptr.
  change BYTES_PER_WORD with 8. set (pad := seg_ptr s + 8 * idx).
  pose proof (gr_idx _ _ _ _ _ _ G) as Hidx.
  pose proof (wo_segs _ (ev_ok _ _ _ E1) s (segment_lookup _ _ _ (gr_seg _ _ _ _ _ _ G))) as [Hs1 Hs2 Hs3 Hs4 _].
  assert (Hb : in_seg w1 id' (pad + 8) amount) by (eapply grown_in_seg; eauto; unfold pad; zlia).
  assert (Ht : in_seg w1 id' pad 1) by (eapply grown_in_seg; eauto; unfold pad; zlia).
  pose proof (evolves_in_seg _ _ _ _ _ _ E1 Hr) as Hr1.
  assert (Hl1 : load_wp (wmem w1) reff = Ok null_wp) by (rewrite <- Hl; eapply load_wp_used; eauto).
  assert (Hfresh : forall i, pad <= i < pad + 8 * (amount + 1) -> ~ used w i).
  { intros i Hi. apply (gr_fresh _ _ _ _ _ _ G). unfold pad in Hi. lia. }
  assert (Hdisj : forall i, reff <= i < reff + 8 -> ~ pad <= i < pad + 8 * (amount + 1)).
  { intros i Hi Hi'. apply (Hfresh i Hi'). by apply (in_seg_used w id reff 1). }
  destruct (in_seg_facts _ _ _ _ (ev_ok _ _ _ E1) Ht) as (Hpal & _ & _).
  destruct (in_seg_facts _ _ _ _ (ev_ok _ _ _ E1) Hr1) as (Hral & _ & _).
  destruct (set_far_ok w1 id reff idx id' (ev_ok _ _ _ E1) Hr1 ltac:(lia) (gr_id _ _ _ _ _ _ G) Hl1)
    as (m1 & m2 & p & Hm1 & Hm2 & Hwr & Hlp & Hpk & Hpd & Hpp & Hpi).
  rewrite upd_upd in Hm2. rewrite (ST_bind_ok _ _ _ _ _ Hm1), (ST_bind_ok _ _ _ _ _ Hm2).
  assert (E2 : evolves w1 (upd m2 w1) (fun i => reff <= i < reff + 8)).
  { apply upd_evolves; [apply E1|done|]. intros i Hi. by apply (in_seg_used w1 id reff 1). }
  assert (Hz : zeroed m2 pad (8 * (amount + 1))).
  { intros i Hi. rewrite (wrote_outside _ _ _ _ Hwr) by (intros Hi'; by apply (Hdisj i)).
    by apply (gr_zero _ _ _ _ _ _ G). }
  destruct (set_target_ok (upd m2 w1) id' pad (pad + 8) amount k null_wp (ev_ok _ _ _ E2))
    as (m3 & q & Hm3 & Hwr3 & Hlq & Hqk & Hqu & Hqo & Hqt); try done.
  { apply load_wp_zeroed; [done|]. intros i Hi. apply Hz. lia. }
  rewrite upd_upd in Hm3.
  assert (E3 : evolves (upd m2 w1) (upd m3 w1) (fun i => pad <= i < pad + 8)).
  { apply (upd_evolves (upd m2 w1) m3 pad 8); [apply E2|done|]. intros i Hi. by apply (in_seg_used w1 id' pad 1). }
  exists (upd m3 w1). split; [done|].
  assert (Hrsep : reff + 8 <= pad \/ pad + 8 <= reff).
  { destruct (Z.eq_dec reff pad) as [->|]; [exfalso; apply (Hdisj pad); lia|]. zlia. }
  assert (Hlr : load_wp m3 reff = Ok p).
  { rewrite <- Hlp. apply load_wp_same, (wrote_same _ _ _ _ _ _ Hwr3). lia. }
  split.
  - eapply evolves_trans; [exact E1|eapply evolves_trans; [exact E2|exact E3|]|].
    + intros i Hu Hi. exact Hi.
    + cbn beta. intros i Hu [[]|[Hi|Hi]]; [done|]. destruct (Hfresh i); [lia|done].
  - exists q. split_and!; try done. rewrite <- Hqt, <- Hpi.
    unfold pad. rewrite <- Hpp. apply points_far; try done.
    + rewrite Hpi. by apply (gr_seg _ _ _ _ _ _ G).
    + by rewrite Hpp.
    + congruence.
  - done.
  - intros i Hi. change (m3 !! i = Some Byte.x00).
    rewrite (wrote_outside _ _ _ _ Hwr3) by lia. apply Hz. lia.
  - intros i Hi. apply Hfresh. lia.
  - split; [done|]. split; [lia|]. right. intros i Hi. apply Hfresh. lia.
  - intros H1 H2. by destruct (Hne H1).
Qed.

Lemma allocate_empty w reff id : world_ok w -> in_seg w id reff 1 -> load_wp (wmem w) reff = Ok null_wp ->
  exists w', wset reff set_kind_and_target_for_empty_struct w = (Ok tt, w') /\
    allocated w w' reff id 0 Struct reff reff id.
Proof.
  intros Hw Hr Hl. destruct (in_seg_facts _ _ _ _ Hw Hr) as (Hal & _ & Hv).
  destruct (wset_ok reff set_kind_and_target_for_empty_struct null_wp w Hal Hv Hl) as (m & Hm & Hwr & Hlm).
  { split; unfold u32, in_width; cbn; lia. }
  assert (E : evolves w (upd m w) (fun i => reff <= i < reff + 8)).
  { apply upd_evolves; [done|done|]. intros i Hi. by apply (in_seg_used w id reff 1). }
  exists (upd m w). split; [done|]. split; try done.
  - exists (set_kind_and_target_for_empty_struct null_wp).
    split; [|split; [done|split; [done|by split; unfold u32, in_width; cbn; lia]]].
    replace reff with (target reff (set_kind_and_target_for_empty_struct null_wp)) at 2
      by (unfold target; destruct (is_null_empty_struct null_wp) as (_ & _ & ->); lia).
    by apply points_near.
  - apply (in_seg_sub _ _ reff 1); [by eapply evolves_in_seg|lia|by rewrite Z.sub_diag|lia|lia].
  - intros i Hi. lia.
  - intros i Hi. lia.
  - split; [by eapply evolves_in_seg|]. split; [lia|by left].
Qed.

(** [allocate] on a null pointer *)
Lemma allocate_ok w reff id amount k : world_ok w -> few_segments w -> in_seg w id reff 1 ->
  load_wp (wmem w) reff = Ok null_wp -> 0 <= amount < 2 ^ 29 -> k <> Far ->
  match allocate reff id amount k w with
  | (Ok (ptr, tag, id'), w') => allocated w w' reff id amount k ptr tag id'
  | (Panic, _) => out_of_space w (amount + 1)
  | _ => False
  end.
Proof.
  intros Hw Hf Hr Hl Ha Hk. unfold allocate. rewrite (wload_bind reff null_wp) by done.
  cbn [is_null null_wp offset_and_kind upper32bits Z.eqb andb negb]. rewrite ST_ret_bind.
  destruct ((amount =? 0) && bool_decide (k = Struct)) eqn:Ee.
  { apply andb_prop in Ee as [->%Z.eqb_eq ->%bool_decide_eq_true].
    destruct (allocate_empty w reff id Hw Hr Hl) as (w' & Hw' & Hal). by rewrite (ST_bind_ok _ _ _ _ _ Hw'). }
  assert (Hne : amount = 0 -> k <> Struct) by (intros -> ->; done).
  pose proof Hr as (s0 & j & Hs0 & Hid & _).
  pose proof (arena_allocate_ok w id s0 amount Hw Hs0 ltac:(lia)) as E.
  destruct (Z.ltb_spec (seg_capacity s0 - seg_allocated s0) amount);
    rewrite (ST_bind_ok _ _ _ _ _ E); cbn beta iota.
  - rewrite uadd_ok by lia. rewrite (lift_bind_ok _ _ _ _ eq_refl).
    pose proof (allocate_anywhere_ok w (amount + 1) Hw Hf ltac:(lia)) as Hany. unfold bind at 1; cbn [ST_monad].
    destruct (allocate_anywhere (amount + 1) w) as [[[id' idx]| | | |] w1]; try done.
    destruct Hany as (s & G). rewrite (get_segment_bind id' _ _ _ (gr_seg _ _ _ _ _ _ G)). cbn beta iota.
    destruct (allocate_far w w1 s reff id id' idx amount k G Hr Hl ltac:(lia) Hk Hne) as (w2 & Hw2 & Hal).
    apply ST_bind_inv in Hw2 as ([] & wa & Ha1 & Hw2). apply ST_bind_inv in Hw2 as ([] & wb & Ha2 & Hw2).
    rewrite (ST_bind_ok _ _ _ _ _ Ha1), (ST_bind_ok _ _ _ _ _ Ha2), (ST_bind_ok _ _ _ _ _ Hw2). exact Hal.
  - pose proof (bump_grown w id s0 amount Hw Hs0 Hid ltac:(lia) ltac:(lia)) as G.
    rewrite (get_segment_bind id _ _ _ (gr_seg _ _ _ _ _ _ G)). cbn beta iota.
    destruct (allocate_near w _ _ reff id _ amount k G Hr Hl ltac:(lia) Hk Hne) as (m & Hm & Hal).
    rewrite (ST_bind_ok _ _ _ _ _ Hm). exact Hal.
Qed.

(** ** The pointer that describes new words *)

(** As [allocated], once the description is complete *)
Record placed w w' (reff id amount ptr tag id' : Z) (q : WirePointer) : Prop := {
  pl_evolves : evolves w w' (fun i => reff <= i < reff + 8);
  pl_points : points (wmem w') (segs w') reff id ptr tag id' q;
  pl_block : in_seg w' id' ptr amount;
  pl_zero : zeroed (wmem w') ptr (8 * amount);
  pl_fresh : forall i, ptr <= i < ptr + 8 * amount -> ~ used w i;
  pl_tag : forall i, tag <= i < tag + 8 -> ~ ptr <= i < ptr + 8 * amount
}.

Lemma evolves_fresh_write w w1 m a n (P : Z -> Prop) : evolves w w1 P -> wrote (wmem w1) m a n ->
  (forall i, a <= i < a + n -> used w1 i) -> (forall i, a <= i < a + n -> used w i -> P i) ->
  evolves w (upd m w1) P.
Proof.
  intros E Hwr Hu HP. eapply evolves_trans; [exact E|by apply upd_evolves; [apply E| |]|].
  intros i Hi [Hp|Hr]; [done|by apply HP].
Qed.

Lemma describe_ok w w1 reff id amount k ptr tag id' f (R : WirePointer -> Prop) : 
  in_seg w id reff 1 -> allocated w w1 reff id amount k ptr tag id' ->
  (forall q0, kind q0 = k -> upper32bits q0 = 0 -> exists q, f q0 = Ok q /\
     offset_and_kind q = offset_and_kind q0 /\ u32 (upper32bits q) /\ R q) ->
  exists m q, wset_checked tag f w1 = (Ok tt, upd m w1) /\ placed w (upd m w1) reff id amount ptr tag id' q /\
    kind q = k /\ R q.
Proof.
  intros Hr0 [E (q0 & Hp & Hk & Hu & Hok) Hb Hz Hf (Ht & Hsep & Htag) _] Hq.
  destruct (Hq q0 Hk Hu) as (q & Hfq & Ho & Hqu & HR).
  destruct (in_seg_facts _ _ _ _ (ev_ok _ _ _ E) Ht) as (Hal & _ & Hv).
  destruct (in_seg_facts _ _ _ _ (ev_ok _ _ _ E) (evolves_in_seg _ _ _ _ _ _ E Hr0)) as (Hral & _ & _).
  destruct (points_load _ _ _ _ _ _ _ _ Hp) as (Hl & _).
  destruct (wset_checked_ok tag f q0 q w1 Hal Hv Hl Hfq) as (m & Hm & Hwr & Hlm).
  { split; [rewrite Ho; apply Hok|done]. }
  exists m, q. split; [done|].
  assert (Hutag : forall i, tag <= i < tag + 8 -> used w1 i) by (intros i Hi; by apply (in_seg_used w1 id' tag 1)).
  split; [|split; [unfold kind; by rewrite Ho|done]]. split.
  - apply (evolves_fresh_write w w1 m tag 8); try done.
    intros i Hi Hi'. destruct Htag as [->|Htag]; [done|]. by destruct (Htag i Hi).
  - apply (points_retag (wmem w1) m (segs w1) reff id ptr tag id' q0 q); try done.
    destruct (Z.eq_dec tag reff) as [|Hne]; [by left|right].
    apply (wrote_same _ _ _ _ _ _ Hwr). zlia.
  - done.
  - intros i Hi. change (m !! i = Some Byte.x00). rewrite (wrote_outside _ _ _ _ Hwr); [by apply Hz|].
    intros Hi'. by apply (Hsep i Hi').
  - done.
  - done.
Qed.

(** What is not null *)
Lemma points_nonnull m segments reff id ptr tag id' q : points m segments reff id ptr tag id' q ->
  kind q <> Struct \/ upper32bits q <> 0 \/ tag = reff /\ ptr = reff ->
  exists p, load_wp m reff = Ok p /\ is_null p = false.
Proof.
  intros Hp Hc.
  assert (Hnz : forall p, kind p <> Struct -> is_null p = false).
  { intros p Hk. unfold is_null. destruct (Z.eqb_spec (offset_and_kind p) 0) as [E|]; [|done].
    exfalso. apply Hk, kind_eq. by rewrite E. }
  destruct Hp as [q1 Hq Hk|p s q1 Hpl Hk Hd Hs Hq Hkq].
  - exists q1. split; [done|]. destruct Hc as [Hc|[Hc|[_ Hc]]]; [by apply Hnz| |].
    + unfold is_null. destruct (Z.eqb_spec (upper32bits q1) 0); [done|]. by rewrite andb_false_r.
    + unfold is_null. destruct (Z.eqb_spec (offset_and_kind q1) 0) as [E|]; [|done].
      exfalso. unfold target in Hc. rewrite signed_offset_div, E in Hc. change (as_i32 0 / 4) with 0 in Hc. lia.
  - exists p. split; [done|]. apply Hnz. by rewrite Hk.
Qed.
End ops.
