(* ===== verification/BuilderObjects.v ===== *)
(** * Objects: what the builders make and what the readers make of it

    Structs, lists, text and data initialised at a null pointer, the accessors
    of their fields and elements, and how a reader over the same arena sees
    them. *)

From S2P Require Import Prelude.
From S2P Require Import Mem.
From S2P Require Import ReadLimiter.
From S2P Require Import Segments.
From S2P Require Import WirePointer.
From S2P Require Import Arena.
From S2P Require Import Readers.
From S2P Require Import ReadersSafe.
From S2P Require Import Allocators.
From S2P Require Import AllocatorsOk.
From S2P Require Import BuilderArena.
From S2P Require Import Builders.
From S2P Require Import BuilderArenaOk.
From S2P Require Import BuilderOps.
Section objects.
Context {A : Type} `{AllocatorOk A}.
Implicit Types (w : World A).

(** A null pointer that can be written: the precondition of the [init_] and
    [set_] methods here *)
Record vacant w (p : PointerBuilder) : Prop := {
  vc_ok : world_ok w;
  vc_few : few_segments w;
  vc_in : in_seg w (pb_segment_id p) (pb_pointer p) 1;
  vc_null : PointerBuilder_is_null p w = (Ok true, w)
}.

Lemma vacant_load w p : vacant w p -> load_wp (wmem w) (pb_pointer p) = Ok null_wp.
Proof.
  intros [_ _ _ Hn]. unfold PointerBuilder_is_null, wload, on_mem, bind in Hn. cbn [ST_monad] in Hn.
  unfold wmem. destruct (load_wp _ _) as [[o u]| | | |]; try discriminate.
  unfold is_null in Hn. cbn in Hn. injection Hn as Hn.
  by apply andb_prop in Hn as [->%Z.eqb_eq ->%Z.eqb_eq].
Qed.

(** The outcome of an operation that allocates [n] words *)
Definition gives {X} (c : B A X) w (n : Z) (Q : X -> World A -> Prop) : Prop :=
  match c w with
  | (Ok x, w') => Q x w'
  | (Panic, _) => out_of_space w n
  | _ => False
  end.

Lemma gives_mono {X} (c : B A X) w n (Q R : X -> World A -> Prop) :
  gives c w n Q -> (forall x w', Q x w' -> R x w') -> gives c w n R.
Proof. unfold gives. destruct (c w) as [[] w']; auto. Qed.
Lemma gives_bind {X Y} (c : B A X) (k : X -> B A Y) w n Q R : gives c w n Q ->
  (forall x w', Q x w' -> exists y w2, k x w' = (Ok y, w2) /\ R y w2) -> gives (bind c k) w n R.
Proof.
  unfold gives, bind; cbn [ST_monad]. destruct (c w) as [[x| | | |] w']; try done.
  intros Hq Hk. destruct (Hk x w' Hq) as (y & w2 & E & HR). by rewrite E.
Qed.
Lemma gives_eq {X} (c c' : B A X) w n Q : c w = c' w -> gives c' w n Q -> gives c w n Q.
Proof. unfold gives. by intros ->. Qed.
Lemma gives_ret {X} (x : X) w n (Q : X -> World A -> Prop) : Q x w -> gives (ret x) w n Q.
Proof. done. Qed.

Lemma allocate_gives w p amount k : vacant w p -> 0 <= amount < 2 ^ 29 -> k <> Far ->
  gives (allocate (pb_pointer p) (pb_segment_id p) amount k) w (amount + 1)
    (fun '(ptr, tag, id') w' => allocated w w' (pb_pointer p) (pb_segment_id p) amount k ptr tag id').
Proof.
  intros Hv Ha Hk. pose proof (vacant_load w p Hv) as Hl. destruct Hv as [V1 V2 V3 _].
  pose proof (allocate_ok w _ _ amount k V1 V2 V3 Hl Ha Hk) as Hok. unfold gives.
  by destruct (allocate _ _ amount k w) as [[[[ptr tag] id']| | | |] w'].
Qed.

(** ** Structs *)

(** The struct at [p] as [sb] presents it *)
Record struct_at w (p : PointerBuilder) (sb : StructBuilder) : Prop := {
  sa_sizes : exists d n, sb_data_size sb = 64 * d /\ sb_pointer_count sb = n /\
    sb_pointers sb = sb_data sb + 8 * d /\ 0 <= d < 2 ^ 16 /\ 0 <= n < 2 ^ 16 /\
    in_seg w (sb_segment_id sb) (sb_data sb) (d + n) /\
    exists tag q, points (wmem w) (segs w) (pb_pointer p) (pb_segment_id p) (sb_data sb) tag (sb_segment_id sb) q /\
      kind q = Struct /\ struct_data_size q = d /\ struct_ptr_count q = n /\
      (d + n = 0 -> tag = pb_pointer p /\ sb_data sb = pb_pointer p);
  sa_caps : sb_cap_table sb = pb_cap_table p
}.

Lemma init_struct_gives w p size : vacant w p -> u16 (data size) -> u16 (pointers size) ->
  gives (init_struct p size) w (data size + pointers size + 1) (fun sb w' =>
    evolves w w' (fun i => pb_pointer p <= i < pb_pointer p + 8) /\
    struct_at w' p sb /\ sb_data_size sb = 64 * data size /\ sb_pointer_count sb = pointers size /\
    zeroed (wmem w') (sb_data sb) (8 * (data size + pointers size)) /\
    forall i, sb_data sb <= i < sb_data sb + 8 * (data size + pointers size) -> ~ used w i).
Proof.
  intros Hv Hd Hp. unfold u16, in_width in *. unfold init_struct, init_struct_pointer.
  eapply gives_bind; [apply (allocate_gives w p (StructSize_total size) Struct Hv); unfold StructSize_total; [lia|done]|].
  intros [[ptr tag] id'] w1 Hal.
  destruct (describe_ok w w1 _ _ _ Struct ptr tag id' (fun q => Ok (set_struct_size size q))
    (fun q => struct_data_size q = data size /\ struct_ptr_count q = pointers size) (vc_in _ _ Hv) Hal)
    as (m & q & Hm & [P1 P2 P3 P4 P5 P6] & Hk & Hqd & Hqp).
  { intros q0 Hk Hu. eexists. split; [done|].
    destruct (set_struct_size_spec size q0) as (S1 & S2 & S3 & S4); [done|done|]. done. }
  change (wset_checked tag (fun q => Ok (set_struct_size size q)) w1)
    with (wset tag (set_struct_size size) w1) in Hm.
  eexists _, _. split; [rewrite (ST_bind_ok _ _ _ _ _ Hm); reflexivity|]. cbn beta.
  unfold StructSize_total, BYTES_PER_WORD, BITS_PER_WORD in *. cbn [sb_data_size sb_pointer_count sb_data].
  split; [done|]. split; [|split_and!; done || lia].
  split; [|done]. exists (data size), (pointers size). cbn. split_and!; try lia.
  { destruct P3 as (s & j & P3). by exists s, j. }
  exists tag, q. split_and!; try done. intros Hz. by apply (al_empty _ _ _ _ _ _ _ _ _ Hal).
Qed.

(** ** Reading through the arena's own reader *)

(** A read by a reader of the same message *)
Definition read_at {X} (p : PointerBuilder) (f : mem -> PointerReader -> ST ReadLimiter X) : B A X :=
  r ← PointerBuilder_as_reader p; on_limiter (fun m _ => f m r).

Definition reader_at w (p : PointerBuilder) : PointerReader :=
  {| pr_arena := builder_reader_arena (segs w); pr_segment_id := pb_segment_id p;
     pr_cap_table := pb_cap_table p; pr_pointer := pb_pointer p; pr_nesting_limit := 0x7fffffff |}.

Lemma read_at_ok {X} p (f : mem -> PointerReader -> ST ReadLimiter X) w x :
  (forall l, f (wmem w) (reader_at w p) l = (Ok x, l)) -> read_at p f w = (Ok x, w).
Proof.
  intros Hf. unfold read_at, PointerBuilder_as_reader. rewrite ST_bind_assoc.
  rewrite (ST_bind_ok as_reader _ _ _ _ eq_refl), ST_ret_bind. unfold on_limiter.
  change (hmem (heap w)) with (wmem w). fold (segs w). fold (reader_at w p). rewrite Hf. by destruct w.
Qed.

Lemma pointer_or_zero_at w p : world_ok w -> in_seg w (pb_segment_id p) (pb_pointer p) 1 ->
  pointer_or_zero (reader_at w p) = pb_pointer p.
Proof.
  intros Hw Hi. destruct (in_seg_facts _ _ _ _ Hw Hi) as (_ & Hp & _). unfold pointer_or_zero.
  cbn [reader_at pr_pointer]. by destruct (Z.eqb_spec (pb_pointer p) 0); [lia|].
Qed.

Definition struct_view w (sb : StructBuilder) (nesting : Z) : StructReader :=
  {| sr_arena := builder_reader_arena (segs w); sr_cap_table := sb_cap_table sb; sr_data := sb_data sb;
     sr_pointers := sb_pointers sb; sr_segment_id := sb_segment_id sb; sr_data_size := sb_data_size sb;
     sr_pointer_count := sb_pointer_count sb; sr_nesting_limit := nesting |}.

Lemma get_struct_at w p sb l : world_ok w -> in_seg w (pb_segment_id p) (pb_pointer p) 1 -> struct_at w p sb ->
  get_struct (wmem w) (reader_at w p) None l = (Ok (struct_view w sb 0x7ffffffe), l).
Proof.
  intros Hw Hi [(d & n & Hd & Hn & Hps & Hdr & Hnr & Hin & tag & q & Hpt & Hk & Hqd & Hqn & Hz) Hc].
  unfold get_struct. rewrite pointer_or_zero_at by done. unfold read_struct_pointer.
  destruct (points_nonnull _ _ _ _ _ _ _ _ Hpt) as (r & Hr & Hnull).
  { destruct (Z.eq_dec (d + n) 0) as [E|E]; [by right; right; apply Hz|]. right. left. intros Hu.
    rewrite struct_data_size_mod, Hu in Hqd. rewrite struct_ptr_count_div, Hu in Hqn. zlia. }
  rewrite (lift_bind_ok _ _ _ _ Hr), Hnull. unfold read_struct_pointer_from. cbn [reader_at pr_nesting_limit pr_arena
    pr_segment_id pr_cap_table Z.leb Z.compare].
  rewrite (ST_bind_ok _ _ _ _ _ (points_follow_fars _ _ _ _ _ _ _ _ l Hpt)).
  destruct (points_load _ _ _ _ _ _ _ _ Hpt) as (Hq & _). rewrite (lift_bind_ok _ _ _ _ Hq), Hk.
  rewrite bool_decide_eq_true_2 by done. cbn [negb]. unfold bounds_check. cbn [contains_interval builder_reader_arena].
  rewrite ST_ret_bind. unfold ret; cbn [ST_monad]. f_equal. f_equal. unfold struct_view.
  rewrite Hqd, Hqn, Hd, Hn, Hps, Hc. f_equal; unfold BYTES_PER_WORD, BITS_PER_WORD; lia.
Qed.

Lemma read_struct_ok w p sb : world_ok w -> in_seg w (pb_segment_id p) (pb_pointer p) 1 -> struct_at w p sb ->
  read_at p (fun m r => get_struct m r None) w = (Ok (struct_view w sb 0x7ffffffe), w).
Proof. intros Hw Hi Hs. apply read_at_ok. intros l. by apply get_struct_at. Qed.

(** ** Fields *)

(** A struct builder over words in use *)
Definition sb_ok w (sb : StructBuilder) : Prop := exists d, sb_data_size sb = 64 * d /\ 0 <= d < 2 ^ 16 /\
  0 <= sb_pointer_count sb /\ sb_pointers sb = sb_data sb + 8 * d /\
  in_seg w (sb_segment_id sb) (sb_data sb) (d + sb_pointer_count sb).

Lemma struct_at_ok w p sb : struct_at w p sb -> sb_ok w sb.
Proof. intros [(d & n & Hd & Hn & Hp & Hdr & Hnr & Hin & _) _]. exists d. rewrite Hn. split_and!; try done; lia. Qed.

Lemma sb_ok_evolves w w' P sb : evolves w w' P -> sb_ok w sb -> sb_ok w' sb.
Proof.
  intros E (d & H1 & H2 & H3 & H4 & H5). exists d. split_and!; try done; try lia. by eapply evolves_in_seg.
Qed.

Definition primitive_width (n : Z) : Prop := n = 1 \/ n = 2 \/ n = 4 \/ n = 8.

Lemma width_aligned n a o : primitive_width n -> a mod 8 = 0 -> (a + n * o) mod n = 0.
Proof.
  intros Hn Ha. rewrite Z.mul_comm, Z.mod_add by (destruct Hn as [->|[->|[->| ->]]]; lia).
  destruct Hn as [->|[->|[->| ->]]]; zlia.
Qed.

Lemma wput_evolves f w m a n : world_ok w -> f (wmem w) = Ok m -> wrote (wmem w) m a n ->
  (forall i, a <= i < a + n -> used w i) ->
  wput f w = (Ok tt, upd m w) /\ evolves w (upd m w) (fun i => a <= i < a + n).
Proof. intros Hw Hf Hwr Hu. split; [by apply wput_ok|by apply upd_evolves]. Qed.

Lemma store_used w id a k n b v : world_ok w -> in_seg w id a k -> 0 < n -> b mod n = 0 -> a <= b ->
  b + n <= a + 8 * k -> 0 <= v < 2 ^ (8 * n) ->
  exists m, wput (fun m => store m b n v) w = (Ok tt, upd m w) /\
    evolves w (upd m w) (fun i => b <= i < b + n) /\ wrote (wmem w) m b n /\ load m b n = Ok v.
Proof.
  intros Hw Hs Hn Hb Ha Hr Hv.
  assert (Hval : valid (wmem w) b n) by (eapply in_seg_valid; eauto).
  set (m := write_bytes (wmem w) b (le_split (Z.to_nat n) v)).
  assert (Hwr : wrote (wmem w) m b n).
  { apply write_bytes_wrote; rewrite length_le_split; [lia|]. by rewrite Z2Nat.id by lia. }
  destruct (wput_evolves (fun m => store m b n v) w m b n Hw) as (E1 & E2); try done.
  - by apply store_ok.
  - intros i Hi. apply (in_seg_used w id a k i Hs). lia.
  - exists m. split_and!; try done. by apply load_stored.
Qed.

Lemma set_data_field_ok w sb n o v : world_ok w -> sb_ok w sb -> primitive_width n -> 0 <= o ->
  8 * n * (o + 1) <= sb_data_size sb -> 0 <= v < 2 ^ (8 * n) ->
  exists m, set_data_field n sb o v w = (Ok tt, upd m w) /\
    evolves w (upd m w) (fun i => sb_data sb + n * o <= i < sb_data sb + n * o + n) /\
    wrote (wmem w) m (sb_data sb + n * o) n /\ load m (sb_data sb + n * o) n = Ok v.
Proof.
  intros Hw (d & Hd & Hd0 & Hn0 & Hp & Hin) Hn Ho Hr Hv. destruct (in_seg_facts _ _ _ _ Hw Hin) as (Hal & _ & _).
  apply (store_used w _ _ _ n _ v Hw Hin); [destruct Hn as [->|[->|[->| ->]]]; lia|by apply width_aligned| |lia|done].
  destruct Hn as [->|[->|[->| ->]]]; lia.
Qed.

(** ** Bits *)

Lemma testbit_high b j : 0 <= b < 256 -> 8 <= j -> Z.testbit b j = false.
Proof.
  intros Hb Hj. destruct (Z.eq_dec b 0) as [->|]; [apply Z.bits_0|]. apply Z.bits_above_log2; [lia|].
  apply Z.lt_le_trans with 8; [|done]. apply Z.log2_lt_pow2; [lia|]. lia.
Qed.

(** Bit [j] of a byte after setting bit [i] *)
Lemma put_bit_testbit b i v j : 0 <= b < 256 -> 0 <= i < 8 -> 0 <= j ->
  Z.testbit (put_bit b i v) j = if j =? i then v else Z.testbit b j.
Proof.
  intros Hb Hi Hj. unfold put_bit. rewrite Z.lor_spec, Z.land_spec.
  destruct (Z.lt_ge_cases j 8) as [Hlt|Hge].
  - assert (Hi' : i = 0 \/ i = 1 \/ i = 2 \/ i = 3 \/ i = 4 \/ i = 5 \/ i = 6 \/ i = 7) by lia.
    assert (Hj' : j = 0 \/ j = 1 \/ j = 2 \/ j = 3 \/ j = 4 \/ j = 5 \/ j = 6 \/ j = 7) by lia.
    set (t := Z.testbit b j) in *. clearbody t.
    decompose [or] Hi'; decompose [or] Hj'; subst; by destruct t, v.
  - rewrite testbit_high by done. destruct (Z.eqb_spec j i); [lia|]. simpl.
    rewrite Z.shiftl_spec by done. destruct v; [|by rewrite Z.bits_0].
    change (Z.b2z true) with 1.
    apply Z.bits_above_log2; [lia|]. change (Z.log2 1) with 0. lia.
Qed.

Lemma put_bit_range b i v : 0 <= b < 256 -> 0 <= i < 8 -> 0 <= put_bit b i v < 256.
Proof.
  intros Hb Hi. assert (H1 : 0 <= put_bit b i v).
  { unfold put_bit. apply Z.lor_nonneg. split; [apply Z.land_nonneg; left; lia|].
    apply Z.shiftl_nonneg. destruct v; simpl; lia. }
  split; [done|]. destruct (Z.lt_ge_cases (put_bit b i v) 256) as [|Hge]; [done|exfalso].
  pose proof (Z.bit_log2 (put_bit b i v) ltac:(lia)) as Hbit.
  assert (8 <= Z.log2 (put_bit b i v)) by (apply Z.log2_le_pow2; lia).
  rewrite put_bit_testbit, testbit_high in Hbit by lia.
  destruct (Z.eqb_spec (Z.log2 (put_bit b i v)) i); [lia|done].
Qed.

(** Setting one bit of a used byte *)
Lemma set_bit_at_ok w a i v : world_ok w -> used w a -> 0 <= i < 8 ->
  exists m, set_bit_at a i v w = (Ok tt, upd m w) /\ evolves w (upd m w) (fun j => a <= j < a + 1) /\
    wrote (wmem w) m a 1 /\
    forall j, 0 <= j < 8 -> exists b, load_bit (wmem w) a j = Ok b /\ load_bit m a j = Ok (if j =? i then v else b).
Proof.
  intros Hw Hu Hi.
  assert (Hval : valid (wmem w) a 1).
  { intros j Hj. replace j with a by lia. destruct Hu as (s & Hs & Ha).
    apply (region_valid w s Hw Hs). pose proof (used_in_region w s a Hw Hs Ha) as Hr.
    unfold in_region, seg_region in Hr. cbn [fst snd] in Hr. lia. }
  destruct (load_ok (wmem w) a 1 ltac:(lia) ltac:(apply Z.mod_1_r) Hval) as (b & Hb & Hbr).
  change (2 ^ (8 * 1)) with 256 in Hbr.
  set (m := write_bytes (wmem w) a (le_split (Z.to_nat 1) (put_bit b i v))).
  pose proof (put_bit_range b i v Hbr Hi) as Hpr.
  assert (Hwr : wrote (wmem w) m a 1) by (apply write_bytes_wrote; rewrite length_le_split; [lia|done]).
  assert (Hlm : load m a 1 = Ok (put_bit b i v)) by (apply load_stored; [lia|apply Z.mod_1_r|done]).
  exists m. unfold set_bit_at. rewrite (ST_bind_ok _ _ _ b w) by (unfold on_mem; by rewrite <- Hb).
  destruct (wput_evolves (fun m => store m a 1 (put_bit b i v)) w m a 1 Hw) as (E1 & E2); try done.
  - apply store_ok; [lia|apply Z.mod_1_r|done].
  - intros j Hj. by replace j with a by lia.
  - split_and!; try done. intros j Hj. exists (Z.testbit b j).
    rewrite !(load_bit_testbit _ _ _ _ Hb), (load_bit_testbit _ _ _ _ Hlm) by lia.
    by rewrite put_bit_testbit by lia.
Qed.

(** ** Lists, text and data *)

(** A list of [ec] elements of size [es] at [ptr] *)
Definition list_at w (p : PointerBuilder) (es : ElementSize) (ec ptr id' : Z) : Prop := exists tag q,
  points (wmem w) (segs w) (pb_pointer p) (pb_segment_id p) ptr tag id' q /\
  kind q = List /\ list_element_size q = es /\ list_element_count q = ec.

(** New words for a list *)
Record list_made w w' (p : PointerBuilder) (es : ElementSize) (ec amount ptr id' : Z) : Prop := {
  lm_evolves : evolves w w' (fun i => pb_pointer p <= i < pb_pointer p + 8);
  lm_list : exists tag q, points (wmem w') (segs w') (pb_pointer p) (pb_segment_id p) ptr tag id' q /\
    (kind q = List /\ list_element_size q = es /\ list_element_count q = ec) /\
    forall i, tag <= i < tag + 8 -> ~ ptr <= i < ptr + 8 * amount;
  lm_block : in_seg w' id' ptr amount;
  lm_zero : zeroed (wmem w') ptr (8 * amount);
  lm_fresh : forall i, ptr <= i < ptr + 8 * amount -> ~ used w i
}.

Lemma allocate_list_gives {X} w p amount es ec (g : Z -> Z -> X) : vacant w p -> 0 <= amount < 2 ^ 29 ->
  0 <= ec < 2 ^ 29 ->
  gives ('(ptr, reff, segment_id) ← allocate (pb_pointer p) (pb_segment_id p) amount List;
         wset_checked reff (set_list_size_and_count es ec) ;; ret (g ptr segment_id)) w (amount + 1)
    (fun x w' => exists ptr id', x = g ptr id' /\ list_made w w' p es ec amount ptr id').
Proof.
  intros Hv Ha He. eapply gives_bind; [by apply allocate_gives|]. intros [[ptr tag] id'] w1 Hal.
  destruct (describe_ok w w1 _ _ _ List ptr tag id' (set_list_size_and_count es ec)
    (fun q => list_element_size q = es /\ list_element_count q = ec) (vc_in _ _ Hv) Hal)
    as (m & q & Hm & [P1 P2 P3 P4 P5 P6] & Hk & Hqs & Hqc).
  { intros q0 _ _. destruct (set_list_size_and_count_spec es ec q0 He) as (q & H1 & H2 & H3 & H4 & H5).
    by exists q. }
  eexists _, _. split; [rewrite (ST_bind_ok _ _ _ _ _ Hm); reflexivity|].
  exists ptr, id'. split; [done|]. split; try done. by exists tag, q.
Qed.

Lemma list_made_at w w' p es ec amount ptr id' : list_made w w' p es ec amount ptr id' ->
  list_at w' p es ec ptr id'.
Proof. intros [_ (tag & q & Hp & Hq & _) _ _ _]. by exists tag, q. Qed.

Lemma list_at_read w p es ec ptr id' : list_at w p es ec ptr id' -> exists r tag q,
  load_wp (wmem w) (pb_pointer p) = Ok r /\ is_null r = false /\
  points (wmem w) (segs w) (pb_pointer p) (pb_segment_id p) ptr tag id' q /\ load_wp (wmem w) tag = Ok q /\
  kind q = List /\ list_element_size q = es /\ list_element_count q = ec.
Proof.
  intros (tag & q & Hp & Hk & Hs & Hc). destruct (points_nonnull _ _ _ _ _ _ _ _ Hp) as (r & Hr & Hn).
  { left. by rewrite Hk. }
  exists r, tag, q. destruct (points_load _ _ _ _ _ _ _ _ Hp). by split_and!.
Qed.

(** Writing into the words of the list *)
Lemma list_made_write w w1 p es ec amount ptr id' m : vacant w p -> list_made w w1 p es ec amount ptr id' ->
  wrote (wmem w1) m ptr (8 * amount) ->
  evolves w (upd m w1) (fun i => pb_pointer p <= i < pb_pointer p + 8) /\ list_at (upd m w1) p es ec ptr id'.
Proof.
  intros Hv [L1 (tag & q & Hp & Hq & Hsep) L3 L4 L5] Hwr. split.
  - apply (evolves_fresh_write w w1 m ptr (8 * amount)); try done.
    + intros i Hi. by apply (in_seg_used w1 id' ptr amount).
    + intros i Hi Hu. by destruct (L5 i Hi).
  - exists tag, q. split; [|done]. apply (points_frame (wmem w1) m (segs w1)); try done.
    + intros i Hi. apply (wrote_outside _ _ _ _ Hwr). intros Hi'.
      apply (L5 i Hi'). by apply (in_seg_used w _ _ 1 i (vc_in _ _ Hv)).
    + intros i Hi. apply (wrote_outside _ _ _ _ Hwr). by apply Hsep.
    + intros j s Hj. by exists s.
Qed.

(** Storing the bytes of a new blob *)
Lemma blob_write w w1 p ec amount ptr id' value : vacant w p -> list_made w w1 p Byte ec amount ptr id' ->
  0 <= ec <= 8 * amount -> Z.of_nat (length value) <= ec ->
  exists m, store_bytes (wmem w1) ptr value = Ok m /\
    evolves w (upd m w1) (fun i => pb_pointer p <= i < pb_pointer p + 8) /\
    list_at (upd m w1) p Byte ec ptr id' /\
    load_bytes m ptr (Z.of_nat (length value)) = Ok value /\
    zeroed m (ptr + Z.of_nat (length value)) (ec - Z.of_nat (length value)).
Proof.
  intros Hv L Hec Hlen. pose proof (ev_ok _ _ _ (lm_evolves _ _ _ _ _ _ _ _ L)) as Hw1.
  assert (Hval : valid (wmem w1) ptr (Z.of_nat (length value))).
  { eapply in_seg_valid; [done|apply L|lia|lia]. }
  set (m := write_bytes (wmem w1) ptr value).
  assert (Hwr : wrote (wmem w1) m ptr (Z.of_nat (length value))) by (by apply write_bytes_wrote).
  exists m. split; [by apply store_bytes_ok|].
  destruct (list_made_write w w1 p Byte ec amount ptr id' m Hv L) as (E & La).
  { eapply wrote_sub; [exact Hwr|lia|lia]. }
  split; [done|]. split; [done|]. split; [by apply load_bytes_written|].
  intros i Hi. rewrite (wrote_outside _ _ _ _ Hwr) by lia. apply (lm_zero _ _ _ _ _ _ _ _ L). lia.
Qed.

Definition text_words (n : Z) : Z := (n + 8) / 8.
Definition data_words (n : Z) : Z := (n + 7) / 8.

Lemma init_text_gives w p n : vacant w p -> 0 <= n -> n + 1 < 2 ^ 29 ->
  gives (init_text_pointer (pb_pointer p) (pb_segment_id p) n) w (text_words n + 1) (fun x w' =>
    exists ptr id', x = (id', {| tb_bytes := {| bs_ptr := ptr; bs_len := n |}; tb_pos := 0 |}) /\
      list_made w w' p Byte (n + 1) (text_words n) ptr id').
Proof.
  intros Hv Hn Hb.
  apply (gives_eq _ ('(ptr, reff, segment_id) ← allocate (pb_pointer p) (pb_segment_id p) (text_words n) List;
    wset_checked reff (set_list_size_and_count Byte (n + 1)) ;;
    ret (segment_id, {| tb_bytes := {| bs_ptr := ptr; bs_len := n |}; tb_pos := 0 |}))).
  - unfold init_text_pointer. rewrite uadd_ok by lia. rewrite (lift_bind_ok _ _ _ _ eq_refl).
    rewrite (lift_bind_ok _ _ _ (text_words n)); [done|].
    rewrite round_bytes_ok by lia. unfold text_words. do 2 f_equal. lia.
  - apply (allocate_list_gives w p (text_words n) Byte (n + 1) (fun ptr id' =>
      (id', {| tb_bytes := {| bs_ptr := ptr; bs_len := n |}; tb_pos := 0 |})) Hv); unfold text_words; zlia.
Qed.

Lemma init_data_gives w p n : vacant w p -> 0 <= n < 2 ^ 29 ->
  gives (init_data_pointer (pb_pointer p) (pb_segment_id p) n) w (data_words n + 1) (fun x w' =>
    exists ptr id', x = (id', {| bs_ptr := ptr; bs_len := n |}) /\
      list_made w w' p Byte n (data_words n) ptr id').
Proof.
  intros Hv Hn.
  apply (gives_eq _ ('(ptr, reff, segment_id) ← allocate (pb_pointer p) (pb_segment_id p) (data_words n) List;
    wset_checked reff (set_list_size_and_count Byte n) ;; ret (segment_id, {| bs_ptr := ptr; bs_len := n |}))).
  - unfold init_data_pointer. rewrite (lift_bind_ok _ _ _ (data_words n)); [done|]. by rewrite round_bytes_ok by lia.
  - apply (allocate_list_gives w p (data_words n) Byte n (fun ptr id' => (id', {| bs_ptr := ptr; bs_len := n |})) Hv);
      unfold data_words; zlia.
Qed.

Lemma set_text_gives w p value : vacant w p -> Z.of_nat (length value) + 1 < 2 ^ 29 ->
  gives (set_text p value) w (text_words (Z.of_nat (length value)) + 1) (fun _ w' =>
    evolves w w' (fun i => pb_pointer p <= i < pb_pointer p + 8) /\
    exists ptr id', list_at w' p Byte (Z.of_nat (length value) + 1) ptr id' /\
      load_bytes (wmem w') ptr (Z.of_nat (length value)) = Ok value /\
      zeroed (wmem w') (ptr + Z.of_nat (length value)) 1).
Proof.
  intros Hv Hlen. unfold set_text, set_text_pointer. rewrite wrap32_small by lia.
  eapply gives_eq; [apply ST_bind_assoc|]. eapply gives_bind; [apply init_text_gives; [done|lia|lia]|].
  intros x w1 (ptr & id' & -> & L).
  destruct (blob_write w w1 p _ _ ptr id' value Hv L) as (m & Hm & E1 & E2 & E3 & E4); [unfold text_words; zlia|lia|].
  replace (Z.of_nat (length value) + 1 - Z.of_nat (length value)) with 1 in E4 by lia.
  eexists tt, (upd m w1). split; [|by split; [|exists ptr, id']].
  cbn [snd tb_bytes]. unfold slice_copy_from. rewrite !ST_bind_assoc. cbn [bs_len bs_ptr].
  rewrite Z.eqb_refl. rewrite (lift_bind_ok _ _ _ tt eq_refl).
  by rewrite (ST_bind_ok _ _ _ _ _ (wput_ok _ _ _ Hm)).
Qed.

Lemma set_data_gives w p value : vacant w p -> Z.of_nat (length value) < 2 ^ 29 ->
  gives (set_data p value) w (data_words (Z.of_nat (length value)) + 1) (fun _ w' =>
    evolves w w' (fun i => pb_pointer p <= i < pb_pointer p + 8) /\
    exists ptr id', list_at w' p Byte (Z.of_nat (length value)) ptr id' /\
      load_bytes (wmem w') ptr (Z.of_nat (length value)) = Ok value).
Proof.
  intros Hv Hlen. unfold set_data, set_data_pointer. rewrite wrap32_small by lia.
  eapply gives_eq; [apply ST_bind_assoc|]. eapply gives_bind; [apply init_data_gives; [done|lia]|].
  intros x w1 (ptr & id' & -> & L).
  destruct (blob_write w w1 p _ _ ptr id' value Hv L) as (m & Hm & E1 & E2 & E3 & E4); [unfold data_words; zlia|lia|].
  destruct (Z.ltb_spec 0 (Z.of_nat (length value))).
  - eexists tt, (upd m w1). split; [|by split; [|exists ptr, id']].
    cbn [snd bs_ptr]. rewrite !ST_bind_assoc. by rewrite (ST_bind_ok _ _ _ _ _ (wput_ok _ _ _ Hm)).
  - eexists tt, w1. split; [by rewrite !ST_bind_assoc, ST_ret_bind|]. split; [apply L|].
    exists ptr, id'. split; [by eapply list_made_at|].
    assert (value = []) as -> by (destruct value; [done|cbn in *; lia]). done.
Qed.

Lemma get_text_at w p n ptr id' l : world_ok w -> in_seg w (pb_segment_id p) (pb_pointer p) 1 ->
  list_at w p Byte (n + 1) ptr id' -> 0 <= n -> n + 1 < 2 ^ 29 -> zeroed (wmem w) (ptr + n) 1 ->
  get_text (wmem w) (reader_at w p) None l = (Ok {| bs_ptr := ptr; bs_len := n |}, l).
Proof.
  intros Hw Hi Hl Hn Hb Hz. destruct (list_at_read _ _ _ _ _ _ Hl) as (r & tag & q & Hr & Hnull & Hp & Hq & Hk & Hs & Hc).
  unfold get_text. rewrite pointer_or_zero_at by done. unfold read_text_pointer.
  rewrite (lift_bind_ok _ _ _ _ Hr), Hnull. unfold read_text_pointer_from. cbn [reader_at pr_arena pr_segment_id].
  rewrite (ST_bind_ok _ _ _ _ _ (points_follow_fars _ _ _ _ _ _ _ _ l Hp)), (lift_bind_ok _ _ _ _ Hq), Hk, Hs, Hc.
  rewrite !bool_decide_eq_true_2 by done. cbn [negb].
  rewrite round_bytes_ok by lia. rewrite (lift_bind_ok _ _ _ _ eq_refl).
  unfold bounds_check. cbn [contains_interval builder_reader_arena]. rewrite ST_ret_bind.
  destruct (Z.eqb_spec (n + 1) 0); [lia|]. replace (n + 1 - 1) with n by lia.
  rewrite (load_zeroed (wmem w) (ptr + n) 1) by (lia || apply Z.mod_1_r || done). by rewrite (lift_bind_ok _ _ _ _ eq_refl).
Qed.

Lemma get_data_at w p n ptr id' l : world_ok w -> in_seg w (pb_segment_id p) (pb_pointer p) 1 ->
  list_at w p Byte n ptr id' -> 0 <= n < 2 ^ 29 ->
  get_data (wmem w) (reader_at w p) None l = (Ok {| bs_ptr := ptr; bs_len := n |}, l).
Proof.
  intros Hw Hi Hl Hb. destruct (list_at_read _ _ _ _ _ _ Hl) as (r & tag & q & Hr & Hnull & Hp & Hq & Hk & Hs & Hc).
  unfold get_data. rewrite pointer_or_zero_at by done. unfold read_data_pointer.
  rewrite (lift_bind_ok _ _ _ _ Hr), Hnull. unfold read_data_pointer_from. cbn [reader_at pr_arena pr_segment_id].
  rewrite (ST_bind_ok _ _ _ _ _ (points_follow_fars _ _ _ _ _ _ _ _ l Hp)), (lift_bind_ok _ _ _ _ Hq), Hk, Hs, Hc.
  rewrite !bool_decide_eq_true_2 by done. cbn [negb].
  rewrite round_bytes_ok by lia. by rewrite (lift_bind_ok _ _ _ _ eq_refl).
Qed.

(** ** Lists of primitives *)

(** A list builder over words in use *)
Definition lb_ok w (lb : ListBuilder) : Prop := exists amount,
  in_seg w (lb_segment_id lb) (lb_ptr lb) amount /\ lb_element_count lb * lb_step lb <= 64 * amount /\
  0 <= lb_element_count lb < 2 ^ 29 /\ 0 <= lb_step lb <= 64.

Definition list_words (ec : Z) (es : ElementSize) : Z := (ec * element_step es + 63) / 64.

Lemma element_step_range es : 0 <= element_step es <= 64.
Proof. destruct es; unfold element_step, BITS_PER_WORD; cbn; lia. Qed.

Lemma list_bits_range ec es : 0 <= ec -> 0 <= ec * element_step es <= 64 * ec.
Proof. intros Hec. pose proof (element_step_range es). nia. Qed.

Definition list_view w (lb : ListBuilder) (nesting : Z) : ListReader :=
  {| lr_arena := builder_reader_arena (segs w); lr_segment_id := lb_segment_id lb; lr_cap_table := lb_cap_table lb;
     lr_ptr := lb_ptr lb; lr_element_count := lb_element_count lb; lr_element_size := lb_element_size lb;
     lr_step := lb_step lb; lr_struct_data_size := lb_struct_data_size lb;
     lr_struct_pointer_count := lb_struct_pointer_count lb; lr_nesting_limit := nesting |}.

(** The list builder for [es] at [ptr] *)
Definition plain_list (p : PointerBuilder) (es : ElementSize) (ec ptr id' : Z) : ListBuilder :=
  {| lb_segment_id := id'; lb_cap_table := pb_cap_table p; lb_ptr := ptr; lb_step := element_step es;
     lb_element_count := ec; lb_element_size := es; lb_struct_data_size := data_bits_per_element es;
     lb_struct_pointer_count := pointers_per_element es |}.

Lemma init_list_gives w p es ec : vacant w p -> es <> InlineComposite -> 0 <= ec < 2 ^ 29 ->
  gives (init_list p es ec) w (list_words ec es + 1) (fun lb w' => exists ptr id',
    lb = plain_list p es ec ptr id' /\ list_made w w' p es ec (list_words ec es) ptr id').
Proof.
  intros Hv Hes Hec. pose proof (list_bits_range ec es ltac:(lia)).
  apply (gives_eq _ ('(ptr, reff, segment_id) ← allocate (pb_pointer p) (pb_segment_id p) (list_words ec es) List;
    wset_checked reff (set_list_size_and_count es ec) ;; ret (plain_list p es ec ptr segment_id))).
  - unfold init_list, init_list_pointer. rewrite bool_decide_eq_false_2 by done. cbn [negb rust_assert].
    rewrite (lift_bind_ok _ _ _ tt eq_refl). change (data_bits_per_element es + pointers_per_element es * BITS_PER_WORD)
      with (element_step es). rewrite umul_ok by lia. rewrite (lift_bind_ok _ _ _ _ eq_refl).
    rewrite (lift_bind_ok _ _ _ (list_words ec es)); [done|]. rewrite round_bits_ok by lia. done.
  - apply (allocate_list_gives w p (list_words ec es) es ec (plain_list p es ec) Hv); unfold list_words; [zlia|lia].
Qed.

Lemma plain_list_ok w w' p es ec ptr id' : list_made w w' p es ec (list_words ec es) ptr id' -> 0 <= ec < 2 ^ 29 ->
  lb_ok w' (plain_list p es ec ptr id').
Proof.
  intros L Hec. pose proof (list_bits_range ec es ltac:(lia)). pose proof (element_step_range es). exists (list_words ec es). cbn.
  split; [apply L|]. unfold list_words. split; [zlia|lia].
Qed.

Lemma get_list_at w p es ec ptr id' l : world_ok w -> in_seg w (pb_segment_id p) (pb_pointer p) 1 ->
  list_at w p es ec ptr id' -> es <> InlineComposite -> 0 <= ec < 2 ^ 29 ->
  get_list (wmem w) (reader_at w p) es None l = (Ok (list_view w (plain_list p es ec ptr id') 0x7ffffffe), l).
Proof.
  intros Hw Hi Hl Hes Hec. destruct (list_at_read _ _ _ _ _ _ Hl) as (r & tag & q & Hr & Hnull & Hp & Hq & Hk & Hs & Hc).
  pose proof (list_bits_range ec es ltac:(lia)).
  unfold get_list. rewrite pointer_or_zero_at by done. unfold read_list_pointer.
  rewrite (lift_bind_ok _ _ _ _ Hr), Hnull. unfold read_list_pointer_from.
  cbn [reader_at pr_arena pr_segment_id pr_cap_table pr_nesting_limit Z.leb Z.compare].
  rewrite (ST_bind_ok _ _ _ _ _ (points_follow_fars _ _ _ _ _ _ _ _ l Hp)), (lift_bind_ok _ _ _ _ Hq), Hk, Hs.
  rewrite bool_decide_eq_true_2 by done. rewrite bool_decide_eq_false_2 by done. cbn [negb].
  unfold read_plain_list. rewrite Hs, Hc.
  change (data_bits_per_element es + pointers_per_element es * BITS_PER_WORD) with (element_step es).
  rewrite umul_ok by lia. rewrite (lift_bind_ok _ _ _ _ eq_refl).
  rewrite round_bits_ok by lia. rewrite (lift_bind_ok _ _ _ _ eq_refl).
  unfold bounds_check. cbn [contains_interval amplified_read builder_reader_arena]. rewrite ST_ret_bind.
  rewrite (ST_bind_ok _ _ _ tt l) by (by destruct (bool_decide _)).
  rewrite (lift_bind_ok _ _ _ tt).
  - done.
  - unfold check_list_size. rewrite !Z.ltb_irrefl. by destruct es.
Qed.

(** ... and its elements *)
Lemma element_address w lb n i : world_ok w -> lb_ok w lb -> primitive_width n -> lb_step lb = 8 * n ->
  0 <= i < lb_element_count lb ->
  umul 64 i (lb_step lb) = Ok (8 * (n * i)) /\ wrap32 (8 * (n * i) / BITS_PER_BYTE) = n * i.
Proof.
  intros Hw (amount & _ & _ & Hc & _) Hn Hs Hi. rewrite Hs. unfold BITS_PER_BYTE.
  rewrite umul_ok by (destruct Hn as [->|[->|[->| ->]]]; lia).
  split; [f_equal; lia|]. rewrite (Z.mul_comm 8), Z.div_mul by lia.
  apply wrap32_small. destruct Hn as [->|[->|[->| ->]]]; lia.
Qed.

Lemma primitive_set_ok w lb n i v : world_ok w -> lb_ok w lb -> primitive_width n -> lb_step lb = 8 * n ->
  0 <= i < lb_element_count lb -> 0 <= v < 2 ^ (8 * n) ->
  exists m, primitive_set n lb i v w = (Ok tt, upd m w) /\
    evolves w (upd m w) (fun j => lb_ptr lb + n * i <= j < lb_ptr lb + n * i + n) /\
    wrote (wmem w) m (lb_ptr lb + n * i) n /\ load m (lb_ptr lb + n * i) n = Ok v.
Proof.
  intros Hw Hok Hn Hs Hi Hv. destruct (element_address w lb n i Hw Hok Hn Hs Hi) as (E1 & E2).
  destruct Hok as (amount & Hin & Hr & Hc & _). destruct (in_seg_facts _ _ _ _ Hw Hin) as (Hal & _ & _).
  unfold primitive_set. rewrite E1, (lift_bind_ok _ _ _ _ eq_refl), E2.
  apply (store_used w _ _ amount n _ v Hw Hin); [destruct Hn as [->|[->|[->| ->]]]; lia|by apply width_aligned|..|done];
    destruct Hn as [->|[->|[->| ->]]]; nia.
Qed.

(** What a reader of the struct gets is what the builder gets. *)
Lemma view_data_field w sb n o l : sb_ok w sb -> primitive_width n -> 0 <= o -> 8 * n * (o + 1) <= sb_data_size sb ->
  get_data_field (wmem w) n (struct_view w sb l) o = load (wmem w) (sb_data sb + n * o) n.
Proof.
  intros (d & Hd & Hdr & _) Hn Ho Hr. unfold get_data_field.
  rewrite uadd_ok by (destruct Hn as [->|[->|[->| ->]]]; lia). cbn [bind outcome_monad].
  rewrite umul_ok by (destruct Hn as [->|[->|[->| ->]]]; lia). cbn [bind outcome_monad struct_view sr_data_size sr_data].
  destruct (Z.leb_spec ((o + 1) * (8 * n)) (sb_data_size sb)); [done|lia].
Qed.

Lemma view_bool_field w sb k l : sb_ok w sb -> 0 <= k < sb_data_size sb ->
  get_bool_field (wmem w) (struct_view w sb l) k =
    load_bit (wmem w) (sb_data sb + k / BITS_PER_BYTE) (k mod BITS_PER_BYTE).
Proof.
  intros (d & Hd & Hdr & _) Hk. unfold get_bool_field. rewrite wrap32_small by lia.
  cbn [struct_view sr_data_size sr_data]. destruct (Z.ltb_spec k (sb_data_size sb)); [done|lia].
Qed.

(** Setting the bit [k] of the data section *)
Lemma set_bool_field_ok w sb k b : world_ok w -> sb_ok w sb -> 0 <= k < sb_data_size sb ->
  exists m, set_bool_field sb k b w = (Ok tt, upd m w) /\
    evolves w (upd m w) (fun i => sb_data sb + k / 8 <= i < sb_data sb + k / 8 + 1) /\
    wrote (wmem w) m (sb_data sb + k / 8) 1 /\
    forall j, 0 <= j < sb_data_size sb -> exists c,
      load_bit (wmem w) (sb_data sb + j / 8) (j mod 8) = Ok c /\
      load_bit m (sb_data sb + j / 8) (j mod 8) = Ok (if j =? k then b else c).
Proof.
  intros Hw (d & Hd & Hdr & Hn0 & Hp & Hin) Hk. unfold set_bool_field, BITS_PER_BYTE.
  destruct (in_seg_facts _ _ _ _ Hw Hin) as (_ & _ & Hv).
  destruct (set_bit_at_ok w (sb_data sb + k / 8) (k mod 8) b Hw) as (m & Hm & E & Hwr & Hbits).
  { apply (in_seg_used w _ _ _ _ Hin). zlia. }
  { zlia. }
  exists m. split; [done|]. split; [done|]. split; [done|]. intros j Hj.
  destruct (Z.eq_dec (j / 8) (k / 8)) as [Ee|Hne].
  - rewrite Ee. destruct (Hbits (j mod 8) ltac:(zlia)) as (c & Hc & Hc'). exists c. split; [done|].
    rewrite Hc'. f_equal. destruct (Z.eqb_spec (j mod 8) (k mod 8)), (Z.eqb_spec j k); try done; zlia.
  - destruct (load_ok (wmem w) (sb_data sb + j / 8) 1) as (x & Hx & _); [lia|apply Z.mod_1_r|..].
    { eapply valid_sub; [exact Hv| |]; zlia. }
    exists (Z.testbit x (j mod 8)). rewrite (load_bit_testbit _ _ _ _ Hx) by zlia. split; [done|].
    assert (Hx' : load m (sb_data sb + j / 8) 1 = Ok x).
    { rewrite <- Hx. apply load_same, (wrote_same _ _ _ _ _ _ Hwr). lia. }
    rewrite (load_bit_testbit _ _ _ _ Hx') by zlia. by destruct (Z.eqb_spec j k) as [->|].
Qed.
End objects.
