(* ===== verification/BuilderProps.v ===== *)
(** * What building a message guarantees

    The properties of allocators, of the arena and of the builders. *)

From S2P Require Import Prelude.
From S2P Require Import Mem.
From S2P Require Import ReadLimiter.
From S2P Require Import Segments.
From S2P Require Import WirePointer.
From S2P Require Import Arena.
From S2P Require Import Readers.
From S2P Require Import ReadersSafe.
From S2P Require Import Allocators.
From S2P Require Import AllocatorsOk.
From S2P Require Import AllocatorsOk.
From S2P Require Import BuilderArena.
From S2P Require Import Builders.
From S2P Require Import BuilderArenaOk.
From S2P Require Import BuilderOps.
From S2P Require Import BuilderObjects.
(** ** The root of a new message *)

Section root.
Context {A : Type} `{AllocatorOk A}.
Implicit Types (w : World A).

Lemma new_segment_gives w n : world_ok w -> 0 < n <= 2 ^ 29 ->
  gives (unwrap_result (arena_allocate_segment n)) w n (fun _ w' =>
    world_ok w' /\ caps w' = caps w /\ limiter w' = limiter w /\
    exists s, segs w' = segs w ++ [s] /\ seg_allocated s = 0 /\ n <= seg_capacity s).
Proof.
  intros Hw Hn. pose proof (arena_allocate_segment_ok w n Hw Hn) as Ha. unfold gives, unwrap_result.
  destruct (arena_allocate_segment n w) as [[[]| | | |] w1]; try done.
  destruct Ha as (H1 & H2 & H3 & s & H4 & H5 & H6 & _). split_and!; try done. by exists s.
Qed.

Lemma root_made w : world_ok w -> segs w = [] ->
  gives builder_root w 1 (fun p w' => vacant w' p /\ pb_segment_id p = 0 /\ pb_cap_table p = 0 /\
    length (segs w') = 1%nat /\ caps w' = caps w /\ limiter w' = limiter w).
Proof.
  intros Hw Hs.
  eapply (gives_eq _ (unwrap_result (arena_allocate_segment 1) ;; (
    o ← arena_allocate 0 1; lift (unwrap o) ;;
    '(seg_start, _) ← get_segment_mut 0; ret (PointerBuilder_get_root 0 seg_start)))).
  { unfold builder_root, arena_is_empty, arena_len. rewrite !ST_bind_assoc.
    rewrite (ST_bind_ok get_segments _ _ [] w) by (unfold get_segments; by rewrite <- Hs).
    rewrite !ST_ret_bind. change (Z.of_nat (length []) =? 0) with true. cbn iota. rewrite ST_bind_assoc.
    apply ST_bind_ext. intros _ w1. rewrite ST_bind_assoc. apply ST_bind_ext. intros o w2. by rewrite ST_bind_assoc. }
  eapply gives_bind; [apply new_segment_gives; [done|lia]|].
  intros _ w1 (Hw1 & Hc & Hl & s & Hsegs & Hal & Hcap). rewrite Hs in Hsegs. cbn [app] in Hsegs.
  assert (Hlk : segs w1 !! Z.to_nat 0 = Some s) by (by rewrite Hsegs).
  pose proof (arena_allocate_ok w1 0 s 1 Hw1 Hlk ltac:(lia)) as E.
  destruct (Z.ltb_spec (seg_capacity s - seg_allocated s) 1); [lia|].
  rewrite (ST_bind_ok _ _ _ _ _ E). cbn beta iota delta [unwrap]. rewrite (lift_bind_ok _ _ _ _ eq_refl).
  pose proof (bump_grown w1 0 s 1 Hw1 Hlk ltac:(lia) ltac:(lia) ltac:(lia)) as G.
  rewrite (get_segment_bind 0 _ _ _ (gr_seg _ _ _ _ _ _ G)). cbn beta iota.
  eexists _, _. split; [reflexivity|]. set (w2 := bump w1 (Z.to_nat 0) s 1) in *.
  assert (Hseg : segs w2 = [set_allocated (seg_allocated s + 1) s]).
  { unfold w2, segs, bump, set_warena, set_segments. cbn [warena builder_segments]. by rewrite Hsegs. }
  assert (Hin : in_seg w2 0 (seg_ptr s) 1).
  { exists (set_allocated (seg_allocated s + 1) s), 0. rewrite Hseg. split_and!; try done; cbn; lia. }
  split; [|by rewrite Hseg]. split; [apply G|unfold few_segments; rewrite Hseg; cbn; lia|exact Hin|].
  unfold PointerBuilder_is_null. cbn [pb_pointer PointerBuilder_get_root set_allocated seg_ptr].
  destruct (in_seg_facts _ _ _ _ (gr_ok _ _ _ _ _ _ G) Hin) as (Hmod & _ & _).
  rewrite (wload_bind _ null_wp); [done|]. apply load_wp_zeroed; [done|].
  intros i Hi. apply (gr_zero _ _ _ _ _ _ G). cbn. lia.
Qed.
End root.

(** ** Dropping the arena *)

Section drop.
Context {A : Type} `{AllocatorOk A}.
Implicit Types (w : World A).

Definition holds w (l : list BuilderSegment) : Prop :=
  exists a, arena_allocator (warena w) = Some a /\ held a (heap w) (map seg_region l).

Lemma deallocate_segments_ok l : forall w, holds w l -> (forall s, s ∈ l -> segment_ok (wmem w) s) ->
  exists w', deallocate_segments l w = (Ok tt, w') /\ holds w' [] /\ segs w' = segs w.
Proof.
  induction l as [|s l IH]; intros w (a & Ha & Hh) Hok; cbn [deallocate_segments].
  { exists w. split; [done|]. split; [by exists a|done]. }
  destruct (Hok s ltac:(left)) as [H1 H2 H3 H4 H5]. cbn [map] in Hh.
  destruct (deallocate_spec a (heap w) _ _ _ (seg_allocated s) Hh H4 H5) as (a' & h' & E & Hh' & Ho).
  set (w1 := set_heap h' (set_warena {| arena_allocator := Some a'; builder_segments := segs w |} w)).
  assert (E1 : on_allocator (deallocate_segment (seg_ptr s) (seg_capacity s) (seg_allocated s)) w = (Ok tt, w1)).
  { unfold on_allocator. by rewrite Ha, E. }
  rewrite (ST_bind_ok _ _ _ _ _ E1).
  destruct (IH w1) as (w' & Hw' & Hd & Hs'); [by exists a'| |by exists w'].
  intros t Ht. destruct (Hok t ltac:(by right)) as [T1 T2 T3 T4 T5]. split; try done.
  intros i Hi. rewrite <- (T5 i Hi). apply Ho. intros Hr.
  apply held_separate in Hh. destruct Hh as [Hsep _]. apply (Hsep i Hr).
  exists (seg_region t). split; [by apply list_elem_of_fmap_2|].
  unfold in_region, seg_region. cbn [fst snd]. lia.
Qed.

Lemma deallocate_all_ok w : world_ok w -> exists w', deallocate_all w = (Ok tt, w') /\ holds w' [] /\ segs w' = segs w.
Proof.
  intros [(a & Ha & Hh) Hs]. unfold deallocate_all. rewrite Ha.
  destruct (deallocate_segments_ok (segs w) w) as (w' & E & Hw'); [by exists a|done|]. by exists w'.
Qed.

Lemma into_allocator_ok w : world_ok w -> exists a w', into_allocator w = (Ok a, w') /\ held a (heap w') [] /\
  arena_drop w' = (Ok tt, w').
Proof.
  intros Hw. destruct (deallocate_all_ok w Hw) as (w1 & E & (a & Ha & Hh) & _). unfold into_allocator.
  rewrite (ST_bind_ok _ _ _ _ _ E). rewrite Ha. eexists _, _. split; [reflexivity|]. by split.
Qed.
End drop.

(** ** An example: a heap of two-word segments *)

Definition small_allocator : HeapAllocator :=
  {| next_size := 2; allocation_strategy := FixedSize; max_segment_words := 2 ^ 29 |}.
Definition fresh_world : World HeapAllocator :=
  {| heap := {| hmem := ∅; brk := 4096 |}; warena := BuilderArenaImpl_new small_allocator; caps := ∅;
     limiter := {| limit := 0; error_on_limit_exceeded := false |} |}.

Lemma fresh_world_ok : world_ok fresh_world.
Proof.
  split.
  - exists small_allocator. split; [done|]. split; cbn.
    + split; [cbn; lia|]. split; [done|]. intros i _. apply lookup_empty.
    + lia.
    + unfold SUGGESTED_FIRST_SEGMENT_WORDS. lia.
    + intros s Hs. by apply elem_of_nil in Hs.
    + done.
  - intros s Hs. by apply elem_of_nil in Hs.
Qed.

Definition root_world : World HeapAllocator := snd (builder_root fresh_world).
Definition root_pointer : PointerBuilder := {| pb_segment_id := 0; pb_cap_table := 0; pb_pointer := 4096 |}.

Lemma root_pointer_made : builder_root fresh_world = (Ok root_pointer, root_world).
Proof. vm_compute. reflexivity. Qed.

Lemma root_vacant : vacant root_world root_pointer.
Proof.
  pose proof (root_made fresh_world fresh_world_ok eq_refl) as G. unfold gives in G.
  rewrite root_pointer_made in G. apply G.
Qed.

(** ** Properties *)

(** The first use of a message being built, over any allocator that keeps
    its contract, allocates a segment whose first word is the root: a null
    pointer that belongs to segment 0.  It fails only when the allocator is
    exhausted. *)
Lemma new_message_root {A} `{AllocatorOk A} (w : World A) : world_ok w -> segs w = [] ->
  gives builder_root w 1 (fun p w' =>
    world_ok w' /\ vacant w' p /\ pb_segment_id p = 0 /\ length (segs w') = 1%nat /\ caps w' = caps w).
Proof.
  intros Hw Hs. eapply gives_mono; [by apply root_made|]. intros p w' (Hv & H1 & H2 & H3 & H4 & _).
  split_and!; try done. apply Hv.
Qed.

Lemma new_message_root_witness : world_ok fresh_world /\ segs fresh_world = [] /\
  gives builder_root fresh_world 1 (fun p w' =>
    world_ok w' /\ vacant w' p /\ pb_segment_id p = 0 /\ length (segs w') = 1%nat /\ caps w' = caps fresh_world).
Proof.
  split; [apply fresh_world_ok|]. split; [reflexivity|].
  apply (new_message_root fresh_world); [apply fresh_world_ok|reflexivity].
Defined.

(** C13: [init_struct] at a null pointer takes zeroed words that nothing used,
    changes no other word in use than the pointer, and the reader of the same
    message finds exactly that struct, whether the words are in the pointer's
    segment or behind a far pointer. *)
Theorem struct_roundtrip {A} `{AllocatorOk A} (w : World A) (p : PointerBuilder) (size : StructSize) :
  vacant w p -> u16 (data size) -> u16 (pointers size) ->
  gives (init_struct p size) w (data size + pointers size + 1) (fun sb w' =>
    evolves w w' (fun i => pb_pointer p <= i < pb_pointer p + 8) /\ sb_ok w' sb /\
    sb_data_size sb = 64 * data size /\ sb_pointer_count sb = pointers size /\
    zeroed (wmem w') (sb_data sb) (8 * (data size + pointers size)) /\
    (forall i, sb_data sb <= i < sb_data sb + 8 * (data size + pointers size) -> ~ used w i) /\
    read_at p (fun m r => get_struct m r None) w' = (Ok (struct_view w' sb 0x7ffffffe), w')).
Proof.
  intros Hv Hd Hp. eapply gives_mono; [by apply init_struct_gives|].
  intros sb w' (E & Hs & H1 & H2 & H3 & H4). split_and!; try done.
  - by eapply struct_at_ok.
  - apply read_struct_ok; [apply E| |done]. eapply evolves_in_seg; [exact E|apply Hv].
Qed.

Lemma struct_roundtrip_witness :
  vacant root_world root_pointer /\
  gives (init_struct root_pointer {| data := 1; pointers := 2 |}) root_world (1 + 2 + 1) (fun sb w' =>
    evolves root_world w' (fun i => 4096 <= i < 4096 + 8) /\ sb_ok w' sb /\
    sb_data_size sb = 64 * 1 /\ sb_pointer_count sb = 2 /\
    zeroed (wmem w') (sb_data sb) (8 * (1 + 2)) /\
    (forall i, sb_data sb <= i < sb_data sb + 8 * (1 + 2) -> ~ used root_world i) /\
    read_at root_pointer (fun m r => get_struct m r None) w' = (Ok (struct_view w' sb 0x7ffffffe), w')).
Proof.
  split; [exact root_vacant|].
  apply (struct_roundtrip root_world root_pointer {| data := 1; pointers := 2 |} root_vacant);
    unfold u16, in_width; cbn; lia.
Defined.

(** The two words left in the first segment do not hold the struct: it is in
    the second segment, behind a landing pad. *)
Example struct_behind_far_pointer :
  match init_struct root_pointer {| data := 1; pointers := 2 |} root_world with
  | (Ok sb, w') => sb_segment_id sb = 1 /\ length (segs w') = 2%nat
  | _ => False
  end.
Proof. vm_compute. done. Qed.

(** Text set at a null pointer is the text that is read back: its length
    and its bytes, and the write changed nothing else in use. *)
Lemma text_roundtrip {A} `{AllocatorOk A} (w : World A) (p : PointerBuilder) (value : list byte) :
  vacant w p -> Z.of_nat (length value) + 1 < 2 ^ 29 ->
  gives (set_text p value) w (text_words (Z.of_nat (length value)) + 1) (fun _ w' =>
    evolves w w' (fun i => pb_pointer p <= i < pb_pointer p + 8) /\
    exists t, read_at p (fun m r => get_text m r None) w' = (Ok t, w') /\
      bs_len t = Z.of_nat (length value) /\ load_bytes (wmem w') (bs_ptr t) (bs_len t) = Ok value).
Proof.
  intros Hv Hl. eapply gives_mono; [by apply set_text_gives|].
  intros _ w' (E & ptr & id' & Hat & Hb & Hz). split; [done|].
  exists {| bs_ptr := ptr; bs_len := Z.of_nat (length value) |}. split; [|done].
  apply read_at_ok. intros l. apply (get_text_at w' p _ ptr id'); try done; [apply E| |lia].
  eapply evolves_in_seg; [exact E|apply Hv].
Qed.

Definition hello : list byte := map byte.of_Z [104; 101; 108; 108; 111; 44; 32; 119; 111; 114; 108; 100].

Lemma text_roundtrip_witness : vacant root_world root_pointer /\
  gives (set_text root_pointer hello) root_world (text_words 12 + 1) (fun _ w' =>
    evolves root_world w' (fun i => 4096 <= i < 4096 + 8) /\
    exists t, read_at root_pointer (fun m r => get_text m r None) w' = (Ok t, w') /\
      bs_len t = 12 /\ load_bytes (wmem w') (bs_ptr t) (bs_len t) = Ok hello).
Proof.
  split; [exact root_vacant|]. apply (text_roundtrip root_world root_pointer hello root_vacant). reflexivity.
Defined.

(** Data set at a null pointer is the data that is read back. *)
Lemma data_roundtrip {A} `{AllocatorOk A} (w : World A) (p : PointerBuilder) (value : list byte) :
  vacant w p -> Z.of_nat (length value) < 2 ^ 29 ->
  gives (set_data p value) w (data_words (Z.of_nat (length value)) + 1) (fun _ w' =>
    evolves w w' (fun i => pb_pointer p <= i < pb_pointer p + 8) /\
    exists d, read_at p (fun m r => get_data m r None) w' = (Ok d, w') /\
      bs_len d = Z.of_nat (length value) /\ load_bytes (wmem w') (bs_ptr d) (bs_len d) = Ok value).
Proof.
  intros Hv Hl. eapply gives_mono; [by apply set_data_gives|].
  intros _ w' (E & ptr & id' & Hat & Hb). split; [done|].
  exists {| bs_ptr := ptr; bs_len := Z.of_nat (length value) |}. split; [|done].
  apply read_at_ok. intros l. apply (get_data_at w' p _ ptr id'); try done; [apply E| |lia].
  eapply evolves_in_seg; [exact E|apply Hv].
Qed.

Lemma data_roundtrip_witness : vacant root_world root_pointer /\
  gives (set_data root_pointer hello) root_world (data_words 12 + 1) (fun _ w' =>
    evolves root_world w' (fun i => 4096 <= i < 4096 + 8) /\
    exists d, read_at root_pointer (fun m r => get_data m r None) w' = (Ok d, w') /\
      bs_len d = 12 /\ load_bytes (wmem w') (bs_ptr d) (bs_len d) = Ok hello).
Proof.
  split; [exact root_vacant|]. apply (data_roundtrip root_world root_pointer hello root_vacant). reflexivity.
Defined.

(** C14: A text or a datum set at a null pointer is what is read back: its
    length and its bytes; the write takes the words it needs and changes
    nothing else in use. *)
Theorem blob_roundtrip {A} `{AllocatorOk A} (w : World A) (p : PointerBuilder) (value : list byte) :
  vacant w p -> Z.of_nat (length value) + 1 < 2 ^ 29 ->
  gives (set_text p value) w (text_words (Z.of_nat (length value)) + 1) (fun _ w' =>
    evolves w w' (fun i => pb_pointer p <= i < pb_pointer p + 8) /\
    exists t, read_at p (fun m r => get_text m r None) w' = (Ok t, w') /\
      bs_len t = Z.of_nat (length value) /\ load_bytes (wmem w') (bs_ptr t) (bs_len t) = Ok value) /\
  gives (set_data p value) w (data_words (Z.of_nat (length value)) + 1) (fun _ w' =>
    evolves w w' (fun i => pb_pointer p <= i < pb_pointer p + 8) /\
    exists d, read_at p (fun m r => get_data m r None) w' = (Ok d, w') /\
      bs_len d = Z.of_nat (length value) /\ load_bytes (wmem w') (bs_ptr d) (bs_len d) = Ok value).
Proof. intros Hv Hl. split; [by apply text_roundtrip|apply data_roundtrip; [done|lia]]. Qed.

Lemma blob_roundtrip_witness : vacant root_world root_pointer /\
  gives (set_text root_pointer hello) root_world (text_words 12 + 1) (fun _ w' =>
    evolves root_world w' (fun i => 4096 <= i < 4096 + 8) /\
    exists t, read_at root_pointer (fun m r => get_text m r None) w' = (Ok t, w') /\
      bs_len t = 12 /\ load_bytes (wmem w') (bs_ptr t) (bs_len t) = Ok hello).
Proof.
  split; [exact root_vacant|].
  exact (proj1 (blob_roundtrip root_world root_pointer hello root_vacant ltac:(reflexivity))).
Defined.

(** A list initialised at a null pointer has the elements asked for, all
    zero, in words nothing used; the reader of the message sees that list. *)
Lemma list_roundtrip {A} `{AllocatorOk A} (w : World A) (p : PointerBuilder) (es : ElementSize) (ec : Z) :
  vacant w p -> es <> InlineComposite -> 0 <= ec < 2 ^ 29 ->
  gives (init_list p es ec) w (list_words ec es + 1) (fun lb w' =>
    evolves w w' (fun i => pb_pointer p <= i < pb_pointer p + 8) /\ lb_ok w' lb /\
    lb_element_count lb = ec /\ lb_element_size lb = es /\ lb_step lb = element_step es /\
    zeroed (wmem w') (lb_ptr lb) (8 * list_words ec es) /\
    (forall i, lb_ptr lb <= i < lb_ptr lb + 8 * list_words ec es -> ~ used w i) /\
    read_at p (fun m r => get_list m r es None) w' = (Ok (list_view w' lb 0x7ffffffe), w')).
Proof.
  intros Hv Hes Hec. eapply gives_mono; [by apply init_list_gives|].
  intros lb w' (ptr & id' & -> & L). split_and!; try done; try apply L.
  - by eapply plain_list_ok.
  - apply read_at_ok. intros l. apply get_list_at; try done; [apply L| |by eapply list_made_at].
    eapply evolves_in_seg; [apply L|apply Hv].
Qed.

Lemma list_roundtrip_witness : vacant root_world root_pointer /\
  gives (init_list root_pointer TwoBytes 5) root_world (list_words 5 TwoBytes + 1) (fun lb w' =>
    evolves root_world w' (fun i => 4096 <= i < 4096 + 8) /\ lb_ok w' lb /\
    lb_element_count lb = 5 /\ lb_element_size lb = TwoBytes /\ lb_step lb = 16 /\
    zeroed (wmem w') (lb_ptr lb) (8 * list_words 5 TwoBytes) /\
    (forall i, lb_ptr lb <= i < lb_ptr lb + 8 * list_words 5 TwoBytes -> ~ used root_world i) /\
    read_at root_pointer (fun m r => get_list m r TwoBytes None) w' = (Ok (list_view w' lb 0x7ffffffe), w')).
Proof.
  split; [exact root_vacant|]. apply (list_roundtrip root_world root_pointer TwoBytes 5 root_vacant); [done|lia].
Defined.

(** C15: The fields of a struct behave like variables.  A data field and a
    bit keep the value last set, for the builder and for a reader of the
    struct; setting one leaves every field that does not overlap it, every
    other bit, and every other word in use as it was. *)
Theorem struct_field_laws {A} `{AllocatorOk A} (w : World A) (sb : StructBuilder) (n o v k : Z) (b : bool) :
  world_ok w -> sb_ok w sb -> primitive_width n -> 0 <= o -> 8 * n * (o + 1) <= sb_data_size sb ->
  0 <= v < 2 ^ (8 * n) -> 0 <= k < sb_data_size sb ->
  (exists w', set_data_field n sb o v w = (Ok tt, w') /\
     evolves w w' (fun i => sb_data sb + n * o <= i < sb_data sb + n * o + n) /\
     sb_get_data_field n sb o w' = (Ok v, w') /\
     (forall l, get_data_field (wmem w') n (struct_view w' sb l) o = Ok v) /\
     (forall n' o', n' * o' + n' <= n * o \/ n * o + n <= n' * o' ->
        fst (sb_get_data_field n' sb o' w') = fst (sb_get_data_field n' sb o' w))) /\
  (exists w', set_bool_field sb k b w = (Ok tt, w') /\
     evolves w w' (fun i => sb_data sb + k / 8 <= i < sb_data sb + k / 8 + 1) /\
     (forall l, get_bool_field (wmem w') (struct_view w' sb l) k = Ok b) /\
     forall j, 0 <= j < sb_data_size sb ->
       sb_get_bool_field sb j w' = (if j =? k then Ok b else fst (sb_get_bool_field sb j w), w')).
Proof.
  intros Hw Hs Hn Ho Hr Hv Hk. split.
  - destruct (set_data_field_ok w sb n o v Hw Hs Hn Ho Hr Hv) as (m & Hm & E & Hwr & Hl).
    exists (upd m w). split_and!; try done.
    + unfold sb_get_data_field, on_mem. change (hmem (heap (upd m w))) with m. by rewrite Hl.
    + intros l. rewrite view_data_field; try done.
    + intros n' o' Hd. apply load_same, (wrote_same _ _ _ _ _ _ Hwr). lia.
  - destruct (set_bool_field_ok w sb k b Hw Hs Hk) as (m & Hm & E & _ & Hb).
    exists (upd m w). split_and!; try done.
    + intros l. rewrite view_bool_field; [|by eapply sb_ok_evolves|done].
      destruct (Hb k Hk) as (c & _ & Hc). rewrite Z.eqb_refl in Hc. exact Hc.
    + intros j Hj. destruct (Hb j Hj) as (c & Hc & Hc'). unfold sb_get_bool_field, on_mem, BITS_PER_BYTE.
      change (hmem (heap (upd m w))) with m. change (hmem (heap w)) with (wmem w). rewrite Hc, Hc'.
      by destruct (j =? k).
Qed.

Definition struct_world : World HeapAllocator := snd (init_struct root_pointer {| data := 2; pointers := 0 |} root_world).
Definition example_builder : StructBuilder :=
  {| sb_segment_id := 1; sb_cap_table := 0; sb_data := 4120; sb_pointers := 4136; sb_data_size := 128;
     sb_pointer_count := 0 |}.
Lemma example_builder_made :
  init_struct root_pointer {| data := 2; pointers := 0 |} root_world = (Ok example_builder, struct_world).
Proof. vm_compute. reflexivity. Qed.
Lemma example_builder_ok : world_ok struct_world /\ sb_ok struct_world example_builder.
Proof.
  pose proof (init_struct_gives root_world root_pointer {| data := 2; pointers := 0 |} root_vacant) as G.
  unfold gives in G. rewrite example_builder_made in G.
  destruct G as (E & Hs & _); [unfold u16, in_width; cbn; lia..|]. split; [apply E|by eapply struct_at_ok].
Qed.

Lemma struct_field_laws_witness :
  world_ok struct_world /\ sb_ok struct_world example_builder /\ primitive_width 4 /\
  (exists w', set_data_field 4 example_builder 3 0xdeadbeef struct_world = (Ok tt, w') /\
     evolves struct_world w' (fun i => 4120 + 4 * 3 <= i < 4120 + 4 * 3 + 4) /\
     sb_get_data_field 4 example_builder 3 w' = (Ok 0xdeadbeef, w') /\
     (forall l, get_data_field (wmem w') 4 (struct_view w' example_builder l) 3 = Ok 0xdeadbeef) /\
     (forall n' o', n' * o' + n' <= 4 * 3 \/ 4 * 3 + 4 <= n' * o' ->
        fst (sb_get_data_field n' example_builder o' w') = fst (sb_get_data_field n' example_builder o' struct_world))) /\
  (exists w', set_bool_field example_builder 77 true struct_world = (Ok tt, w') /\
     evolves struct_world w' (fun i => 4120 + 77 / 8 <= i < 4120 + 77 / 8 + 1) /\
     (forall l, get_bool_field (wmem w') (struct_view w' example_builder l) 77 = Ok true) /\
     forall j, 0 <= j < 128 ->
       sb_get_bool_field example_builder j w' =
         (if j =? 77 then Ok true else fst (sb_get_bool_field example_builder j struct_world), w')).
Proof.
  split; [apply example_builder_ok|]. split; [apply example_builder_ok|]. split; [by right; right; left|].
  apply (struct_field_laws struct_world example_builder 4 3 0xdeadbeef 77 true); try apply example_builder_ok;
    [by right; right; left|cbn; lia..].
Defined.

(** The elements of a primitive list behave like variables: an element
    keeps the value last set, for the builder and for a reader of the list, and
    the other elements keep theirs. *)
Lemma list_element_laws {A} `{AllocatorOk A} (w : World A) (lb : ListBuilder) (n i v : Z) :
  world_ok w -> lb_ok w lb -> primitive_width n -> lb_step lb = 8 * n -> 0 <= i < lb_element_count lb ->
  0 <= v < 2 ^ (8 * n) ->
  exists w', primitive_set n lb i v w = (Ok tt, w') /\
    evolves w w' (fun j => lb_ptr lb + n * i <= j < lb_ptr lb + n * (i + 1)) /\
    primitive_get_from_builder n lb i w' = (Ok v, w') /\
    (forall l, primitive_get (wmem w') n (list_view w' lb l) i = Ok v) /\
    (forall j, 0 <= j < lb_element_count lb -> j <> i ->
       fst (primitive_get_from_builder n lb j w') = fst (primitive_get_from_builder n lb j w)).
Proof.
  intros Hw Hb Hn Hs Hi Hv. destruct (primitive_set_ok w lb n i v Hw Hb Hn Hs Hi Hv) as (m & Hm & E & Hwr & Hl).
  destruct (element_address w lb n i Hw Hb Hn Hs Hi) as (E1 & E2).
  exists (upd m w). split_and!; try done.
  - eapply evolves_weaken; [exact E|]. intros j _ Hj. cbn beta in *. lia.
  - unfold primitive_get_from_builder. rewrite E1, (lift_bind_ok _ _ _ _ eq_refl), E2.
    unfold on_mem. change (hmem (heap (upd m w))) with m. by rewrite Hl.
  - intros l. unfold primitive_get. cbn [list_view lr_step lr_ptr]. rewrite E1. cbn [bind outcome_monad]. by rewrite E2.
  - intros j Hj Hne. destruct (element_address w lb n j Hw Hb Hn Hs Hj) as (F1 & F2).
    unfold primitive_get_from_builder. rewrite F1, !(lift_bind_ok _ _ _ _ eq_refl), F2.
    apply load_same, (wrote_same _ _ _ _ _ _ Hwr). destruct Hn as [->|[->|[->| ->]]]; lia.
Qed.

Definition list_world : World HeapAllocator := snd (init_list root_pointer FourBytes 3 root_world).
Definition example_list_builder : ListBuilder := plain_list root_pointer FourBytes 3 4120 1.
Lemma example_list_made : init_list root_pointer FourBytes 3 root_world = (Ok example_list_builder, list_world).
Proof. vm_compute. reflexivity. Qed.
Lemma built_list_ok : world_ok list_world /\ lb_ok list_world example_list_builder.
Proof.
  pose proof (init_list_gives root_world root_pointer FourBytes 3 root_vacant) as G.
  unfold gives in G. rewrite example_list_made in G. destruct G as (ptr & id' & E & L); [done|lia|].
  split; [apply L|]. rewrite E. by apply (plain_list_ok root_world _ _ _ _ _ _ L).
Qed.

Lemma list_element_laws_witness :
  world_ok list_world /\ lb_ok list_world example_list_builder /\
  exists w', primitive_set 4 example_list_builder 2 7 list_world = (Ok tt, w') /\
    evolves list_world w' (fun j => 4120 + 4 * 2 <= j < 4120 + 4 * (2 + 1)) /\
    primitive_get_from_builder 4 example_list_builder 2 w' = (Ok 7, w') /\
    (forall l, primitive_get (wmem w') 4 (list_view w' example_list_builder l) 2 = Ok 7) /\
    (forall j, 0 <= j < 3 -> j <> 2 ->
       fst (primitive_get_from_builder 4 example_list_builder j w') =
       fst (primitive_get_from_builder 4 example_list_builder j list_world)).
Proof.
  split; [apply built_list_ok|]. split; [apply built_list_ok|].
  apply (list_element_laws list_world example_list_builder 4 2 7); try apply built_list_ok;
    [by right; right; left|reflexivity|cbn; lia|lia].
Defined.

(** C16: Whatever a client does with one of the three allocators (ask for
    segments, write to those it has, give them back, in any order), its
    segments are apart and accessible, a new segment is aligned, large enough,
    zeroed (a reused buffer too) and apart from the others, and giving one back
    as the documentation asks is safe and touches no other. *)
Theorem allocators_well_behaved (h : Heap) (ptr len : Z) :
  heap_ok h -> buffer_ok ptr len (hmem h) -> valid (hmem h) ptr len ->
  well_behaved HeapAllocator_new h /\
  (exists a h', ScratchSpaceHeapAllocator_new ptr len h = (Ok a, h') /\ well_behaved a h') /\
  (exists a h', SingleSegmentAllocator_new ptr len h = (Ok a, h') /\ well_behaved a h').
Proof.
  intros Hh Hb Hv. split; [|split].
  - by apply held_well_behaved, HeapAllocator_new_held.
  - destruct (ScratchSpaceHeapAllocator_new_held ptr len h Hh Hb Hv) as (a & h' & E & Hheld).
    exists a, h'. split; [done|]. by apply held_well_behaved.
  - destruct (SingleSegmentAllocator_new_held ptr len h Hb Hv) as (a & h' & E & Hheld).
    exists a, h'. split; [done|]. by apply held_well_behaved.
Qed.

Definition buffer_heap : Heap := {| hmem := write_bytes ∅ 4096 (repeat Byte.x00 16); brk := 8192 |}.

Lemma buffer_heap_lookup i : hmem buffer_heap !! i = if decide (4096 <= i < 4112) then Some Byte.x00 else None.
Proof.
  unfold buffer_heap. cbn [hmem]. rewrite write_bytes_lookup. cbn [length repeat].
  destruct (decide _), (Z.leb_spec 4096 i), (Z.ltb_spec i (4096 + Z.of_nat 16)); try lia; simpl; try apply lookup_empty.
  apply (lookup_replicate_2 16). lia.
Qed.

Lemma allocators_well_behaved_witness :
  heap_ok buffer_heap /\ buffer_ok 4096 16 (hmem buffer_heap) /\
  well_behaved HeapAllocator_new buffer_heap /\
  (exists a h', ScratchSpaceHeapAllocator_new 4096 16 buffer_heap = (Ok a, h') /\ well_behaved a h') /\
  (exists a h', SingleSegmentAllocator_new 4096 16 buffer_heap = (Ok a, h') /\ well_behaved a h').
Proof.
  assert (Hh : heap_ok buffer_heap).
  { split; [cbn; lia|]. split; [done|]. intros i Hi. rewrite buffer_heap_lookup. cbn in Hi. destruct (decide _); [lia|done]. }
  assert (Hv : valid (hmem buffer_heap) 4096 16).
  { intros i Hi. rewrite buffer_heap_lookup. destruct (decide _); [by eexists|lia]. }
  assert (Hb : buffer_ok 4096 16 (hmem buffer_heap)) by (split; [done|lia|by split|exact Hv]).
  split; [exact Hh|]. split; [exact Hb|]. exact (allocators_well_behaved buffer_heap 4096 16 Hh Hb Hv).
Defined.

(** Taking the allocator out of an arena gives every segment back exactly
    once: the allocator can be used again as a new one, and the drop of the
    arena that follows does nothing. *)
Lemma into_allocator_returns {A} `{AllocatorOk A} (w : World A) : world_ok w ->
  exists a w', into_allocator w = (Ok a, w') /\ well_behaved a (heap w') /\ arena_drop w' = (Ok tt, w').
Proof.
  intros Hw. destruct (into_allocator_ok w Hw) as (a & w' & E & Hh & Hd). exists a, w'. split; [done|].
  split; [by apply held_well_behaved|done].
Qed.

Lemma into_allocator_returns_witness : world_ok list_world /\
  exists a w', into_allocator list_world = (Ok a, w') /\ well_behaved a (heap w') /\ arena_drop w' = (Ok tt, w').
Proof. split; [apply built_list_ok|]. apply (into_allocator_returns list_world), built_list_ok. Defined.
