(* ===== verification/AsyncIo.v ===== *)
(** * Asynchronous I/O: what capnp-futures relies on

    The traits [AsyncRead] and [AsyncWrite] of futures-io as classes of polling
    functions, and the helpers of futures-util the crate awaits ([read],
    [read_exact], [write_all]) as classes of their own: they are not code of
    this repository, so they are parameters, and what their documentation
    promises is stated by [AsyncReadSpec], [AsyncWriteSpec], [AsyncReadExtSpec]
    and [AsyncWriteExtSpec].  The instances at the end (a reader whose bytes
    arrive in pieces with pauses between them, a writer that takes what it
    likes, and the helpers as polling loops) show that the laws can hold. *)

From S2P Require Import Prelude.
(** ** Polling *)

(** [std::task::Poll]; an I/O error is represented by the [ErrorKind] that
    [impl From<std::io::Error> for capnp::Error] makes of it. *)
Inductive Poll (A : Type) : Type :=
| Pending
| Ready (a : A).
Arguments Pending {A}.
Arguments Ready {A} a.

(** [future.await]: the executor polls until the future is ready.  [fuel]
    bounds the number of polls. *)
Fixpoint await {S A} (fuel : nat) (poll : ST S (Poll A)) : ST S A :=
  match fuel with
  | O => lift OutOfFuel
  | Datatypes.S fuel =>
      p ← poll;
      match p with Pending => await fuel poll | Ready a => ret a end
  end.

(** [poll_read r n]: as [Io.read], the bytes stored stand for their number. *)
Class AsyncRead (R : Type) := poll_read : nat -> ST R (Poll (list byte)).

Class AsyncWrite (W : Type) := {
  poll_write : list byte -> ST W (Poll nat);
  poll_flush : ST W (Poll unit);
  poll_close : ST W (Poll unit)
}.

(** [AsyncReadExt::read(..).await], [AsyncReadExt::read_exact(..).await] and
    [AsyncWriteExt::write_all(..).await] *)
Class AsyncReadExt (R : Type) := {
  async_read : nat -> ST R (list byte);
  async_read_exact : nat -> ST R (list byte)
}.
Class AsyncWriteExt (W : Type) := {
  async_write_all : list byte -> ST W unit;
  async_flush : ST W unit
}.

(** ** Lawful readers *)

(** [sends r c]: [c] is what [r] has still to deliver.  [patience] bounds how
    often it is pending before that.  A reader with [granule] 8 is only read
    up to word boundaries of its stream: it is asked for [n] bytes where [n]
    and what it has left are congruent. *)
Class AsyncReadSpec (R : Type) `{AsyncRead R} := {
  sends : R -> list byte -> Prop;
  granule : nat;
  granule_pos : (0 < granule)%nat;
  granule_word : (8 mod granule = 0)%nat;
  patience : R -> nat;
  poll_read_spec : forall r c n, sends r c -> (0 < n)%nat -> (n mod granule = length c mod granule)%nat ->
    exists p r', poll_read n r = (Ok p, r') /\
    match p with
    | Pending => sends r' c /\ (patience r' < patience r)%nat
    | Ready bs => (length bs <= n)%nat /\ (patience r' <= patience r)%nat /\ (bs = [] -> c = []) /\
                  exists c', c = bs ++ c' /\ sends r' c'
    end
}.

(** [read] resolves to the first result of [poll_read] that is ready;
    [read_exact] fills its buffer, or fails with [UnexpectedEof] if the end
    comes first. *)
Class AsyncReadExtSpec (R : Type) `{AsyncReadSpec R} `{AsyncReadExt R} := {
  async_read_spec : forall r c n, sends r c -> (0 < n)%nat -> (n mod granule = length c mod granule)%nat ->
    exists bs r' c', async_read n r = (Ok bs, r') /\ (length bs <= n)%nat /\ (bs = [] -> c = []) /\
      c = bs ++ c' /\ sends r' c';
  async_read_exact_spec : forall r c n, sends r c -> (n mod granule = length c mod granule)%nat ->
    (n <= length c)%nat -> exists r', async_read_exact n r = (Ok (take n c), r') /\ sends r' (drop n c);
  async_read_exact_eof : forall r c n, sends r c -> (n mod granule = length c mod granule)%nat ->
    (length c < n)%nat -> exists r', async_read_exact n r = (Err PrematureEndOfFile, r')
}.

(** ** Lawful writers *)

(** [takes w d bs]: [w] has accepted [d], and the caller is committed to offer
    [bs] next (the rest of the buffer it passed before); a writer that looks
    ahead may rely on it.  [writable bs]: buffers [w] promises to take. *)
Class AsyncWriteSpec (W : Type) `{AsyncWrite W} := {
  takes : W -> list byte -> list byte -> Prop;
  writable : list byte -> Prop;
  write_patience : W -> nat;
  takes_next : forall w d bs, takes w d [] -> writable bs -> takes w d bs;
  poll_write_spec : forall w d bs, takes w d bs ->
    exists p w', poll_write bs w = (Ok p, w') /\
    match p with
    | Pending => takes w' d bs /\ (write_patience w' < write_patience w)%nat
    | Ready k => (k <= length bs)%nat /\ (bs <> [] -> 0 < k)%nat /\
                 (write_patience w' <= write_patience w)%nat /\ takes w' (d ++ take k bs) (drop k bs)
    end;
  poll_flush_spec : forall w d, takes w d [] ->
    exists p w', poll_flush w = (Ok p, w') /\ takes w' d [] /\
    match p with
    | Pending => (write_patience w' < write_patience w)%nat
    | Ready _ => (write_patience w' <= write_patience w)%nat
    end
}.

(** [write_all] offers what is left of its buffer until all of it is taken. *)
Class AsyncWriteExtSpec (W : Type) `{AsyncWriteSpec W} `{AsyncWriteExt W} := {
  async_write_all_spec : forall w d bs, takes w d bs ->
    exists w', async_write_all bs w = (Ok tt, w') /\ takes w' (d ++ bs) [] /\
      (write_patience w' <= write_patience w)%nat;
  async_flush_spec : forall w d, takes w d [] ->
    exists w', async_flush w = (Ok tt, w') /\ takes w' d [] /\ (write_patience w' <= write_patience w)%nat
}.

(** ** A reader whose bytes arrive over time *)

(** [None]: nothing has arrived yet when polled. *)
Record Arrivals := { arrivals : list (option (list byte)) }.

Fixpoint next_arrival (n : nat) (l : list (option (list byte))) : Poll (list byte) * list (option (list byte)) :=
  match l with
  | [] => (Ready [], [])
  | None :: l => (Pending, l)
  | Some [] :: l => next_arrival n l
  | Some c :: l => (Ready (take n c), Some (drop n c) :: l)
  end.
#[export] Instance arrivals_read : AsyncRead Arrivals := fun n r =>
  let '(p, l) := next_arrival n (arrivals r) in (Ok p, {| arrivals := l |}).

Definition arriving (l : list (option (list byte))) : list byte := concat (map (default []) l).
Definition pauses (l : list (option (list byte))) : nat :=
  length (List.filter (fun o => match o with None => true | _ => false end) l).

Lemma next_arrival_spec n l : (0 < n)%nat ->
  let '(p, l') := next_arrival n l in
  match p with
  | Pending => arriving l' = arriving l /\ (pauses l' < pauses l)%nat
  | Ready bs => (length bs <= n)%nat /\ (pauses l' <= pauses l)%nat /\ (bs = [] -> arriving l = []) /\
                arriving l = bs ++ arriving l'
  end.
Proof.
  intros Hn. unfold arriving, pauses. induction l as [|[[|b c]|] l IH].
  - repeat split; simpl; lia || done.
  - exact IH.
  - cbn -[Nat.mul]. rewrite length_take. repeat split; try lia.
    + intros Hb. destruct n; [lia|]. discriminate.
    + change (b :: c ++ concat (map (default []) l)) with ((b :: c) ++ concat (map (default []) l)).
      by rewrite app_assoc, take_drop.
  - cbn. split; [done|lia].
Qed.

#[export] Program Instance arrivals_spec : AsyncReadSpec Arrivals := {|
  sends := fun r c => arriving (arrivals r) = c;
  granule := 1;
  patience := fun r => pauses (arrivals r)
|}.
Next Obligation. lia. Qed.
Next Obligation. done. Qed.
Next Obligation.
  intros [l] c n Hc Hn _. pose proof (next_arrival_spec n l Hn) as Hs.
  unfold poll_read, arrivals_read. cbn [arrivals] in *. destruct (next_arrival n l) as [p l'].
  exists p, {| arrivals := l' |}. split; [done|]. subst c. destruct p as [|bs]; [done|].
  destruct Hs as (H1 & H2 & H3 & H4). split_and!; try done. by eexists.
Qed.

(** ** A writer that takes what it likes *)

(** Each poll consults the script: pending, or room for some bytes. *)
Record Sink := { sunk : list byte; script : list (option nat) }.

Definition sink_write (bs : list byte) (w : Sink) : outcome (Poll nat) * Sink :=
  match script w with
  | [] => (Ok (Ready (length bs)), {| sunk := sunk w ++ bs; script := [] |})
  | None :: l => (Ok Pending, {| sunk := sunk w; script := l |})
  | Some k :: l =>
      let k := Nat.min (S k) (length bs) in
      (Ok (Ready k), {| sunk := sunk w ++ take k bs; script := l |})
  end.
#[export] Instance sink_async : AsyncWrite Sink := {|
  poll_write := sink_write;
  poll_flush := ret (Ready tt);
  poll_close := ret (Ready tt)
|}.

#[export] Program Instance sink_spec : AsyncWriteSpec Sink := {|
  takes := fun w d _ => sunk w = d;
  writable := fun _ => True;
  write_patience := fun w => length (script w)
|}.
Next Obligation. done. Qed.
Next Obligation.
  intros [s l] d bs <-. unfold poll_write, sink_async, sink_write. cbn [script sunk].
  destruct l as [|[k|] l]; eexists _, _; (split; [reflexivity|]); cbn [script sunk length]; [| |split; [done|lia]].
  - split_and!; [lia| |lia|by rewrite take_ge]. destruct bs; [done|simpl; lia].
  - split_and!; [lia| |lia|done]. destruct bs; [done|simpl; lia].
Qed.
Next Obligation. intros w d Ht. by exists (Ready tt), w. Qed.

(** ** The helpers as polling loops *)

Lemma await_pending {S A} fuel (poll : ST S (Poll A)) s s' :
  poll s = (Ok Pending, s') -> await (Datatypes.S fuel) poll s = await fuel poll s'.
Proof. intros Hp. cbn [await]. by rewrite (ST_bind_ok _ _ _ _ _ Hp). Qed.
Lemma await_ready {S A} fuel (poll : ST S (Poll A)) s a s' :
  poll s = (Ok (Ready a), s') -> await (Datatypes.S fuel) poll s = (Ok a, s').
Proof. intros Hp. cbn [await]. by rewrite (ST_bind_ok _ _ _ _ _ Hp). Qed.

(** A poll that keeps an invariant, is pending only finitely often and then
    gives a result can be awaited. *)
Lemma await_spec {S A} (I : S -> Prop) (m : S -> nat) (Q : A -> S -> Prop) (poll : ST S (Poll A)) :
  (forall s, I s -> exists p s', poll s = (Ok p, s') /\
     match p with Pending => I s' /\ (m s' < m s)%nat | Ready a => Q a s' end) ->
  forall fuel s, I s -> (m s < fuel)%nat -> exists a s', await fuel poll s = (Ok a, s') /\ Q a s'.
Proof.
  intros Hp fuel. induction fuel as [|fuel IH]; intros s Hs Hf; [lia|].
  destruct (Hp s Hs) as ([|a] & s' & E & H').
  - rewrite (await_pending fuel _ _ _ E). apply IH; [apply H'|]. destruct H'. lia.
  - exists a, s'. split; [by apply await_ready|done].
Qed.

Section polling_read.
Context {R : Type} `{AsyncReadSpec R}.

Fixpoint read_exact_polls (fuel n : nat) (acc : list byte) : ST R (list byte) :=
  match fuel with
  | O => lift OutOfFuel
  | Datatypes.S fuel =>
      if (n =? 0)%nat then ret acc
      else
        p ← poll_read n;
        match p with
        | Pending => read_exact_polls fuel n acc
        | Ready [] => fails PrematureEndOfFile
        | Ready bs => read_exact_polls fuel (n - length bs) (acc ++ bs)
        end
  end.

Definition polling_read : AsyncReadExt R := {|
  async_read := fun n r => await (Datatypes.S (patience r)) (poll_read n) r;
  async_read_exact := fun n r => read_exact_polls (Datatypes.S (n + patience r)) n [] r
|}.

Lemma congruent_rest (g n : nat) (bs c : list byte) : (n mod g = length (bs ++ c) mod g)%nat -> (length bs <= n)%nat -> (0 < g)%nat ->
  ((n - length bs) mod g = length c mod g)%nat.
Proof.
  rewrite length_app. intros E Hl Hg.
  assert (F : (Z.of_nat n mod Z.of_nat g = Z.of_nat (length bs + length c) mod Z.of_nat g)%Z)
    by (rewrite <- !Nat2Z.inj_mod; congruence).
  apply Nat2Z.inj. rewrite !Nat2Z.inj_mod, Nat2Z.inj_sub by done.
  rewrite Zminus_mod, F, <- Zminus_mod. f_equal. lia.
Qed.

Lemma read_exact_polls_spec fuel : forall r c n acc, sends r c -> (n mod granule = length c mod granule)%nat ->
  (n + patience r < fuel)%nat ->
  exists o r', read_exact_polls fuel n acc r = (o, r') /\
    if (n <=? length c)%nat
    then o = Ok (acc ++ take n c) /\ sends r' (drop n c) /\ (patience r' <= patience r)%nat
    else o = Err PrematureEndOfFile.
Proof.
  induction fuel as [|fuel IH]; intros r c n acc Hc Hg Hf; [lia|]. cbn [read_exact_polls].
  destruct (Nat.eqb_spec n 0) as [->|Hn].
  { eexists _, _. split; [reflexivity|]. cbn [Nat.leb]. rewrite take_0, drop_0, app_nil_r. by split_and!. }
  destruct (poll_read_spec r c n Hc ltac:(lia) Hg) as (p & r' & E & Hp).
  rewrite (ST_bind_ok _ _ _ _ _ E). destruct p as [|bs].
  { destruct Hp as [Hc' Hm]. destruct (IH r' c n acc Hc' Hg ltac:(lia)) as (o & r'' & E' & Ho).
    exists o, r''. split; [done|]. destruct (n <=? length c)%nat; [|done]. destruct Ho as (? & ? & ?). split_and!; [done|done|lia]. }
  destruct Hp as (Hl & Hm & Hnil & c' & -> & Hc'). destruct bs as [|b bs].
  { rewrite Hnil in * by done. eexists _, _. split; [reflexivity|]. cbn [length app].
    destruct n; [lia|]. done. }
  destruct (IH r' c' (n - length (b :: bs))%nat (acc ++ b :: bs) Hc') as (o & r'' & E' & Ho).
  - apply congruent_rest; [done|done|apply granule_pos].
  - cbn [length] in *. lia.
  - exists o, r''. split; [done|]. rewrite length_app.
    destruct (Nat.leb_spec n (length (b :: bs) + length c')), (Nat.leb_spec (n - length (b :: bs)) (length c'));
      try lia; [|done]. destruct Ho as (-> & Ho & Hm'). split; [|split; [|lia]]; [|by rewrite drop_app, (drop_ge (b :: bs)) by lia].
    by rewrite take_app, (take_ge (b :: bs)), <- app_assoc by lia.
Qed.

Lemma polling_read_spec : @AsyncReadExtSpec R _ _ polling_read.
Proof.
  split.
  - intros r c n Hc Hn Hg.
    destruct (await_spec (fun s => sends s c) patience
      (fun bs r' => (length bs <= n)%nat /\ (bs = [] -> c = []) /\ exists c', c = bs ++ c' /\ sends r' c')
      (poll_read n)) with (fuel := Datatypes.S (patience r)) (s := r) as (bs & r' & E & Hl & Hnil & c' & Hs & Hc'); try done; try lia.
    + intros s Hs. destruct (poll_read_spec s c n Hs Hn Hg) as (p & s' & E & Hp). exists p, s'. split; [done|].
      destruct p; [done|]. destruct Hp as (? & _ & ? & ?). by split_and!.
    + by exists bs, r', c'.
  - intros r c n Hc Hg Hl.
    destruct (read_exact_polls_spec (Datatypes.S (n + patience r)) r c n [] Hc Hg) as (o & r' & E & Ho); [lia|].
    destruct (Nat.leb_spec n (length c)); [|lia]. destruct Ho as (-> & Ho & _). by exists r'.
  - intros r c n Hc Hg Hl.
    destruct (read_exact_polls_spec (Datatypes.S (n + patience r)) r c n [] Hc Hg) as (o & r' & E & Ho); [lia|].
    destruct (Nat.leb_spec n (length c)); [lia|]. subst o. by exists r'.
Qed.
End polling_read.

Section polling_write.
Context {W : Type} `{AsyncWriteSpec W}.

Fixpoint write_all_polls (fuel : nat) (bs : list byte) : ST W unit :=
  match fuel with
  | O => lift OutOfFuel
  | Datatypes.S fuel =>
      if (length bs =? 0)%nat then ret tt
      else
        p ← poll_write bs;
        match p with
        | Pending => write_all_polls fuel bs
        | Ready n => if (n =? 0)%nat then fails Failed else write_all_polls fuel (drop n bs)
        end
  end.

Definition polling_write : AsyncWriteExt W := {|
  async_write_all := fun bs w => write_all_polls (Datatypes.S (length bs + write_patience w)) bs w;
  async_flush := fun w => await (Datatypes.S (write_patience w)) poll_flush w
|}.

Lemma write_all_polls_spec fuel : forall w d bs, takes w d bs -> (length bs + write_patience w < fuel)%nat ->
  exists w', write_all_polls fuel bs w = (Ok tt, w') /\ takes w' (d ++ bs) [] /\
    (write_patience w' <= write_patience w)%nat.
Proof.
  induction fuel as [|fuel IH]; intros w d bs Ht Hf; [lia|]. cbn [write_all_polls].
  destruct bs as [|b bs]; [exists w; by rewrite app_nil_r; split_and!|]. cbn [length Nat.eqb].
  destruct (poll_write_spec w d (b :: bs) Ht) as (p & w' & E & Hp).
  rewrite (ST_bind_ok _ _ _ _ _ E). destruct p as [|k].
  - destruct Hp as [Ht' Hm]. destruct (IH w' d _ Ht' ltac:(lia)) as (w'' & E' & Ht'' & Hm'').
    exists w''. split_and!; [done|done|lia].
  - destruct Hp as (Hk & Hpos & Hm & Ht'). specialize (Hpos ltac:(done)).
    destruct (Nat.eqb_spec k 0); [lia|].
    destruct (IH w' _ _ Ht') as (w'' & E' & Ht'' & Hm''); [rewrite length_drop; cbn [length] in *; lia|].
    exists w''. split; [done|]. rewrite <- app_assoc, take_drop in Ht''. split; [done|lia].
Qed.

Lemma polling_write_spec : @AsyncWriteExtSpec W _ _ polling_write.
Proof.
  split.
  - intros w d bs Ht. apply write_all_polls_spec; [done|lia].
  - intros w d Ht.
    destruct (await_spec (fun s => takes s d [] /\ (write_patience s <= write_patience w)%nat) write_patience
      (fun _ w' => takes w' d [] /\ (write_patience w' <= write_patience w)%nat) poll_flush)
      with (fuel := Datatypes.S (write_patience w)) (s := w) as ([] & w' & E & Hw'); try done; try lia.
    + intros s [Hs Hle]. destruct (poll_flush_spec s d Hs) as (p & s' & E & Ht' & Hp). exists p, s'. split; [done|].
      destruct p as [|[]]; [split; [split; [done|lia]|done]|split; [done|lia]].
    + by exists w'.
Qed.
End polling_write.
