(* ===== verification/AsyncPacked.v ===== *)
(** * Asynchronous packed streams: capnp-futures/src/serialize_packed.rs

    [PackedRead] and [PackedWrite] are state machines whose state survives
    between polls.  Each has here its record of fields, a [step] that is one
    round of the [loop] in its polling function, and the polling function.
    The buffers are lists of the length the code gives them; an index or a
    slice out of range is a panic. *)

From S2P Require Import Prelude.
From S2P Require Import Packed.
From S2P Require Import AsyncIo.
(** ** Buffers *)

(** The number of bytes of [buf[lo..hi]] *)
Definition range_len (buf : list byte) (lo hi : nat) : outcome nat :=
  if (lo <=? hi)%nat && (hi <=? length buf)%nat then Ok (hi - lo)%nat else Panic.
(** [buf[lo..hi]] *)
Definition slice (buf : list byte) (lo hi : nat) : outcome (list byte) :=
  n ← range_len buf lo hi; Ok (take n (drop lo buf)).
(** [buf[lo..lo + bs.len()]] becomes [bs] *)
Definition store_at (buf : list byte) (lo : nat) (bs : list byte) : outcome (list byte) :=
  if (lo + length bs <=? length buf)%nat
  then Ok (take lo buf ++ bs ++ drop (lo + length bs) buf) else Panic.
Definition byte_at (buf : list byte) (i : nat) : outcome byte := unwrap (buf !! i).

(** [count_ones] of a byte *)
Definition count_ones (x : Z) : nat := length (List.filter (tag_bit x) (seq 0 8)).

(** ** [PackedRead] *)

Inductive PackedReadStage := Start | WritingZeroes | BufferingWord | DrainingBuffer | WritingPassthrough.

Record PackedRead (R : Type) := {
  inner : R;
  stage : PackedReadStage;
  buf : list byte;
  buf_pos : nat;
  buf_size : nat;
  num_run_bytes_remaining : nat
}.
Arguments inner {R} p.
Arguments stage {R} p.
Arguments buf {R} p.
Arguments buf_pos {R} p.
Arguments buf_size {R} p.
Arguments num_run_bytes_remaining {R} p.

Definition PackedRead_new {R} (inner : R) : PackedRead R :=
  {| inner := inner; stage := Start; buf := repeat Byte.x00 10; buf_pos := 0; buf_size := 10;
     num_run_bytes_remaining := 0 |}.

(** The assignments of [poll_read] *)
Definition set_inner {R} (x : R) (p : PackedRead R) : PackedRead R :=
  {| inner := x; stage := stage p; buf := buf p; buf_pos := buf_pos p; buf_size := buf_size p;
     num_run_bytes_remaining := num_run_bytes_remaining p |}.
Definition set_stage {R} (x : PackedReadStage) (p : PackedRead R) : PackedRead R :=
  {| inner := inner p; stage := x; buf := buf p; buf_pos := buf_pos p; buf_size := buf_size p;
     num_run_bytes_remaining := num_run_bytes_remaining p |}.
Definition set_buf {R} (x : list byte) (p : PackedRead R) : PackedRead R :=
  {| inner := inner p; stage := stage p; buf := x; buf_pos := buf_pos p; buf_size := buf_size p;
     num_run_bytes_remaining := num_run_bytes_remaining p |}.
Definition set_pos {R} (x : nat) (p : PackedRead R) : PackedRead R :=
  {| inner := inner p; stage := stage p; buf := buf p; buf_pos := x; buf_size := buf_size p;
     num_run_bytes_remaining := num_run_bytes_remaining p |}.
Definition set_size {R} (x : nat) (p : PackedRead R) : PackedRead R :=
  {| inner := inner p; stage := stage p; buf := buf p; buf_pos := buf_pos p; buf_size := x;
     num_run_bytes_remaining := num_run_bytes_remaining p |}.
Definition set_run {R} (x : nat) (p : PackedRead R) : PackedRead R :=
  {| inner := inner p; stage := stage p; buf := buf p; buf_pos := buf_pos p; buf_size := buf_size p;
     num_run_bytes_remaining := x |}.

Section read.
Context {R : Type} `{AsyncRead R}.

(** [Pin::new(&mut *inner).poll_read(cx, ..)?] with a buffer of [n] bytes *)
Definition poll_inner (n : nat) : ST (PackedRead R) (Poll (list byte)) := fun p =>
  let '(o, r) := poll_read n (inner p) in (o, set_inner r p).

Definition modify (f : PackedRead R -> PackedRead R) : ST (PackedRead R) unit := fun p => (Ok tt, f p).

(** A round either goes around the loop again ([None]) or returns. *)
Definition step_start : ST (PackedRead R) (option (Poll (list byte))) :=
  p ← get_state;
  room ← lift (range_len (buf p) (buf_pos p) 2);
  r ← poll_inner room;
  match r with
  | Pending => ret (Some Pending)
  | Ready bs =>
      if (length bs =? 0)%nat then ret (Some (Ready []))
      else
        b ← lift (store_at (buf p) (buf_pos p) bs);
        let pos := (buf_pos p + length bs)%nat in
        modify (fun p => set_pos pos (set_buf b p)) ;;
        if (2 <=? pos)%nat then
          tag ← lift (byte_at b 0);
          count ← lift (byte_at b 1);
          if byte.unsigned tag =? 0 then
            modify (fun p => set_run ((Z.to_nat (byte.unsigned count) + 1) * 8) (set_stage WritingZeroes p)) ;;
            ret None
          else
            let size := (count_ones (byte.unsigned tag) + 1)%nat in
            let size := if (size =? 9)%nat then 10%nat else size in
            modify (fun p => set_size size (set_stage BufferingWord p)) ;;
            (if (size <=? pos)%nat
             then modify (fun p => set_pos 1 (set_stage DrainingBuffer p))
             else ret tt) ;;
            ret None
        else ret None
  end.

(** [outlen] is [outbuf.len()]. *)
Definition step_zeroes (outlen : nat) : ST (PackedRead R) (option (Poll (list byte))) :=
  p ← get_state;
  let num_zeroes := Nat.min outlen (num_run_bytes_remaining p) in
  (if (num_run_bytes_remaining p <=? num_zeroes)%nat
   then modify (fun p => set_stage Start (set_pos 0 p))
   else modify (set_run (num_run_bytes_remaining p - num_zeroes))) ;;
  ret (Some (Ready (repeat Byte.x00 num_zeroes))).

Definition step_buffering : ST (PackedRead R) (option (Poll (list byte))) :=
  p ← get_state;
  room ← lift (range_len (buf p) (buf_pos p) (buf_size p));
  r ← poll_inner room;
  match r with
  | Pending => ret (Some Pending)
  | Ready bs =>
      if (length bs =? 0)%nat then fails PrematureEndOfFile
      else
        b ← lift (store_at (buf p) (buf_pos p) bs);
        let pos := (buf_pos p + length bs)%nat in
        modify (fun p => set_pos pos (set_buf b p)) ;;
        (if (buf_size p <=? pos)%nat
         then modify (fun p => set_pos 1 (set_stage DrainingBuffer p))
         else ret tt) ;;
        ret None
  end.

(** [while ii < outbuf.len() && bitnum < 8]: [k] is [8 - bitnum], [room] is
    [outbuf.len() - ii].  Returns the bytes stored, [buf_pos] and [bitnum]. *)
Fixpoint drain (buf : list byte) (k room pos bitnum : nat) : outcome (list byte * nat * nat) :=
  match k, room with
  | Datatypes.S k, Datatypes.S room =>
      tag ← byte_at buf 0;
      let is_nonzero := tag_bit (byte.unsigned tag) bitnum in
      b ← byte_at buf pos;
      '(out, pos, bitnum) ← drain buf k room (pos + if is_nonzero then 1 else 0) (Datatypes.S bitnum);
      Ok (byte.of_Z (Z.land (byte.unsigned b) (wrap8 (- Z.b2z is_nonzero))) :: out, pos, bitnum)
  | _, _ => Ok ([], pos, bitnum)
  end.

Definition step_draining (outlen : nat) : ST (PackedRead R) (option (Poll (list byte))) :=
  p ← get_state;
  bitnum ← lift (if (1 <=? buf_pos p)%nat then Ok (buf_pos p - 1)%nat else Panic);
  '(out, pos, bitnum) ← lift (drain (buf p) (8 - bitnum) outlen (buf_pos p) bitnum);
  (if (bitnum =? 8)%nat then
     (if (pos =? buf_size p)%nat then modify (set_stage Start)
      else
        count ← lift (byte_at (buf p) pos);
        modify (fun p => set_stage WritingPassthrough (set_run (Z.to_nat (byte.unsigned count) * 8) p))) ;;
     modify (set_pos 0)
   else modify (set_pos pos)) ;;
  ret (Some (Ready out)).

Definition step_passthrough (outlen : nat) : ST (PackedRead R) (option (Poll (list byte))) :=
  p ← get_state;
  let upper_bound := Nat.min (num_run_bytes_remaining p) outlen in
  if (upper_bound =? 0)%nat then modify (set_stage Start) ;; ret None
  else
    r ← poll_inner upper_bound;
    match r with
    | Pending => ret (Some Pending)
    | Ready bs =>
        if (length bs =? 0)%nat then ret (Some (Ready []))
        else
          (if (num_run_bytes_remaining p <=? length bs)%nat then modify (set_stage Start) else ret tt) ;;
          (if (length bs <=? num_run_bytes_remaining p)%nat
           then modify (set_run (num_run_bytes_remaining p - length bs)) else lift Panic) ;;
          ret (Some (Ready bs))
    end.

Definition read_round (outlen : nat) : ST (PackedRead R) (option (Poll (list byte))) :=
  p ← get_state;
  match stage p with
  | Start => step_start
  | WritingZeroes => step_zeroes outlen
  | BufferingWord => step_buffering
  | DrainingBuffer => step_draining outlen
  | WritingPassthrough => step_passthrough outlen
  end.

Fixpoint read_rounds (fuel outlen : nat) : ST (PackedRead R) (Poll (list byte)) :=
  match fuel with
  | O => lift OutOfFuel
  | Datatypes.S fuel =>
      o ← read_round outlen;
      match o with Some p => ret p | None => read_rounds fuel outlen end
  end.

(** A round that does not return takes a byte of the group's header (at most
    ten) or leaves [WritingPassthrough]. *)
#[export] Instance PackedRead_poll_read : AsyncRead (PackedRead R) := read_rounds 16.
End read.

(** ** [PackedWrite] *)

Inductive PackedWriteStage := WStart | WriteWord | WriteRunWordCount | WriteUncompressedRun.

Record PackedWrite (W : Type) := {
  w_inner : W;
  w_stage : PackedWriteStage;
  w_buf : list byte;
  w_buf_pos : nat;
  packed_buf : list byte;
  packed_buf_size : nat;
  run_bytes_remaining : nat
}.
Arguments w_inner {W} p.
Arguments w_stage {W} p.
Arguments w_buf {W} p.
Arguments w_buf_pos {W} p.
Arguments packed_buf {W} p.
Arguments packed_buf_size {W} p.
Arguments run_bytes_remaining {W} p.

Definition PackedWrite_new {W} (inner : W) : PackedWrite W :=
  {| w_inner := inner; w_stage := WStart; w_buf := repeat Byte.x00 8; w_buf_pos := 0;
     packed_buf := repeat Byte.x00 9; packed_buf_size := 0; run_bytes_remaining := 0 |}.

(** The assignments of [poll_write_aux] *)
Definition set_w_inner {W} (x : W) (s : PackedWrite W) : PackedWrite W :=
  {| w_inner := x; w_stage := w_stage s; w_buf := w_buf s; w_buf_pos := w_buf_pos s;
     packed_buf := packed_buf s; packed_buf_size := packed_buf_size s;
     run_bytes_remaining := run_bytes_remaining s |}.
Definition set_w_stage {W} (x : PackedWriteStage) (s : PackedWrite W) : PackedWrite W :=
  {| w_inner := w_inner s; w_stage := x; w_buf := w_buf s; w_buf_pos := w_buf_pos s;
     packed_buf := packed_buf s; packed_buf_size := packed_buf_size s;
     run_bytes_remaining := run_bytes_remaining s |}.
Definition set_w_buf {W} (x : list byte) (pos : nat) (s : PackedWrite W) : PackedWrite W :=
  {| w_inner := w_inner s; w_stage := w_stage s; w_buf := x; w_buf_pos := pos;
     packed_buf := packed_buf s; packed_buf_size := packed_buf_size s;
     run_bytes_remaining := run_bytes_remaining s |}.
Definition set_w_pos {W} (pos : nat) (s : PackedWrite W) : PackedWrite W := set_w_buf (w_buf s) pos s.
Definition set_packed {W} (x : list byte) (size : nat) (s : PackedWrite W) : PackedWrite W :=
  {| w_inner := w_inner s; w_stage := w_stage s; w_buf := w_buf s; w_buf_pos := w_buf_pos s;
     packed_buf := x; packed_buf_size := size; run_bytes_remaining := run_bytes_remaining s |}.
Definition set_w_run {W} (x : nat) (s : PackedWrite W) : PackedWrite W :=
  {| w_inner := w_inner s; w_stage := w_stage s; w_buf := w_buf s; w_buf_pos := w_buf_pos s;
     packed_buf := packed_buf s; packed_buf_size := packed_buf_size s; run_bytes_remaining := x |}.

(** [for (ii, b) in buf.iter().enumerate()]: the tag and the bytes of a word
    that are not zero, into [packed]; returns [packed_buf_idx] too. *)
Fixpoint pack_bytes_from (w : list byte) (ii : nat) (packed : list byte) (idx : nat) : outcome (list byte * nat) :=
  match w with
  | [] => Ok (packed, idx)
  | b :: w =>
      if byte.unsigned b =? 0 then pack_bytes_from w (Datatypes.S ii) packed idx
      else
        tag ← byte_at packed 0;
        packed ← store_at packed 0 [byte.of_Z (Z.lor (byte.unsigned tag) (Z.shiftl 1 (Z.of_nat ii)))];
        packed ← store_at packed idx [b];
        pack_bytes_from w (Datatypes.S ii) packed (Datatypes.S idx)
  end.

(** The loops that look for the end of a run in [inbuf]: [idx] is the index
    of the first byte of the list, [words] the result when the run does not
    end; both return [words_in_run]. *)
Fixpoint zero_run (inbuf : list byte) (idx words : nat) : nat :=
  match inbuf with
  | [] => words
  | b :: inbuf => if negb (byte.unsigned b =? 0) then (idx / 8)%nat else zero_run inbuf (Datatypes.S idx) words
  end.
Fixpoint verbatim_run (inbuf : list byte) (idx zero_bytes_in_word words : nat) : nat :=
  match inbuf with
  | [] => words
  | b :: inbuf =>
      let zeroes := if (idx mod 8 =? 0)%nat then 0%nat else zero_bytes_in_word in
      if byte.unsigned b =? 0 then
        let zeroes := Datatypes.S zeroes in
        if (1 <? zeroes)%nat then (idx / 8)%nat else verbatim_run inbuf (Datatypes.S idx) zeroes words
      else verbatim_run inbuf (Datatypes.S idx) zeroes words
  end.

Section write.
Context {W : Type} `{AsyncWrite W}.

(** The locals of [poll_write_aux]: what is left of [inbuf] and
    [inbuf_bytes_consumed] *)
Record WriteLoop := { wl_self : PackedWrite W; inbuf : list byte; inbuf_bytes_consumed : nat }.

Definition wmodify (f : PackedWrite W -> PackedWrite W) : ST WriteLoop unit := fun l =>
  (Ok tt, {| wl_self := f (wl_self l); inbuf := inbuf l; inbuf_bytes_consumed := inbuf_bytes_consumed l |}).
(** [inbuf = &inbuf[n..]; inbuf_bytes_consumed += n] *)
Definition take_in (n : nat) : ST WriteLoop unit := fun l =>
  if (n <=? length (inbuf l))%nat
  then (Ok tt, {| wl_self := wl_self l; inbuf := drop n (inbuf l);
                  inbuf_bytes_consumed := inbuf_bytes_consumed l + n |})
  else (Panic, l).

(** [Pin::new(&mut *inner).poll_write(cx, bs)?] *)
Definition poll_inner_write (bs : list byte) : ST WriteLoop (Poll nat) := fun l =>
  let '(o, w) := poll_write bs (w_inner (wl_self l)) in
  (o, {| wl_self := set_w_inner w (wl_self l); inbuf := inbuf l; inbuf_bytes_consumed := inbuf_bytes_consumed l |}).

(** What the [Poll::Pending] arms return *)
Definition pend : ST WriteLoop (option (Poll nat)) :=
  l ← get_state;
  if (inbuf_bytes_consumed l =? 0)%nat then ret (Some Pending) else ret (Some (Ready (inbuf_bytes_consumed l))).

Definition wstep_start : ST WriteLoop (option (Poll nat)) :=
  l ← get_state;
  let s := wl_self l in
  if (length (inbuf l) =? 0)%nat then ret (Some (Ready (inbuf_bytes_consumed l)))
  else
    buf_bytes_remaining ← lift (if (w_buf_pos s <=? 8)%nat then Ok (8 - w_buf_pos s)%nat else Panic);
    let bytes_to_copy := Nat.min buf_bytes_remaining (length (inbuf l)) in
    b ← lift (store_at (w_buf s) (w_buf_pos s) (take bytes_to_copy (inbuf l)));
    take_in bytes_to_copy ;;
    let pos := (w_buf_pos s + bytes_to_copy)%nat in
    wmodify (set_w_buf b pos) ;;
    (if (pos =? 8)%nat then
       packed ← lift (store_at (packed_buf s) 0 [Byte.x00]);
       '(packed, packed_buf_idx) ← lift (pack_bytes_from b 0 packed 1);
       wmodify (fun s => set_w_stage WriteWord (set_packed packed packed_buf_idx (set_w_pos 0 s)))
     else ret tt) ;;
    ret None.

Definition wstep_word : ST WriteLoop (option (Poll nat)) :=
  l ← get_state;
  let s := wl_self l in
  bs ← lift (slice (packed_buf s) (w_buf_pos s) (packed_buf_size s));
  r ← poll_inner_write bs;
  match r with
  | Pending => pend
  | Ready n =>
      let pos := (w_buf_pos s + n)%nat in
      wmodify (set_w_pos pos) ;;
      (if (pos =? packed_buf_size s)%nat then
         tag ← lift (byte_at (packed_buf s) 0);
         if byte.unsigned tag =? 0 then
           let words_in_run := zero_run (inbuf l) 0 (length (inbuf l) / 8) in
           wmodify (fun s => set_w_stage WriteRunWordCount (set_w_run (words_in_run * 8) s))
         else if byte.unsigned tag =? 255 then
           let words_in_run := verbatim_run (inbuf l) 0 0 (length (inbuf l) / 8) in
           wmodify (fun s => set_w_stage WriteRunWordCount (set_w_run (words_in_run * 8) s))
         else wmodify (fun s => set_w_stage WStart (set_w_pos 0 s))
       else ret tt) ;;
      ret None
  end.

Definition wstep_count : ST WriteLoop (option (Poll nat)) :=
  l ← get_state;
  let s := wl_self l in
  r ← poll_inner_write [byte.of_Z (wrap8 (Z.of_nat (run_bytes_remaining s / 8)))];
  match r with
  | Pending => pend
  | Ready 1%nat =>
      tag ← lift (byte_at (packed_buf s) 0);
      (if byte.unsigned tag =? 0 then
         take_in (run_bytes_remaining s) ;;
         wmodify (fun s => set_w_stage WStart (set_w_pos 0 s))
       else wmodify (set_w_stage WriteUncompressedRun)) ;;
      ret None
  | Ready 0%nat => ret None
  | Ready _ => lift Panic
  end.

Definition wstep_run : ST WriteLoop (option (Poll nat)) :=
  l ← get_state;
  let s := wl_self l in
  bs ← lift (slice (inbuf l) 0 (run_bytes_remaining s));
  r ← poll_inner_write bs;
  match r with
  | Pending => pend
  | Ready n =>
      take_in n ;;
      (if (n <? run_bytes_remaining s)%nat then wmodify (set_w_run (run_bytes_remaining s - n))
       else wmodify (fun s => set_w_stage WStart (set_w_pos 0 s))) ;;
      ret None
  end.

Definition write_round : ST WriteLoop (option (Poll nat)) :=
  l ← get_state;
  match w_stage (wl_self l) with
  | WStart => wstep_start
  | WriteWord => wstep_word
  | WriteRunWordCount => wstep_count
  | WriteUncompressedRun => wstep_run
  end.

Fixpoint write_rounds (fuel : nat) : ST WriteLoop (Poll nat) :=
  match fuel with
  | O => lift OutOfFuel
  | Datatypes.S fuel =>
      o ← write_round;
      match o with Some p => ret p | None => write_rounds fuel end
  end.

(** Every round writes a byte, takes a byte of [inbuf] or changes the stage;
    a word and the run after it take at most 32 rounds and one for each byte
    of the run. *)
Definition poll_write_aux (bs : list byte) : ST (PackedWrite W) (Poll nat) := fun s =>
  let '(o, l) := write_rounds (32 * Datatypes.S (length bs))
                   {| wl_self := s; inbuf := bs; inbuf_bytes_consumed := 0 |} in
  (o, wl_self l).

(** [while self.stage == WriteWord || self.stage == WriteRunWordCount]: a
    [poll_write_aux] that is ready has left both stages. *)
Fixpoint finish_rounds (fuel : nat) : ST (PackedWrite W) (Poll unit) :=
  match fuel with
  | O => lift OutOfFuel
  | Datatypes.S fuel =>
      s ← get_state;
      match w_stage s with
      | WriteWord | WriteRunWordCount =>
          r ← poll_write_aux [];
          match r with Pending => ret Pending | Ready _ => finish_rounds fuel end
      | _ => ret (Ready tt)
      end
  end.
Definition finish_pending_writes : ST (PackedWrite W) (Poll unit) := finish_rounds 2.

Definition poll_write_inner {A} (f : ST W A) : ST (PackedWrite W) A := fun s =>
  let '(o, w) := f (w_inner s) in (o, set_w_inner w s).

Definition packed_poll_flush : ST (PackedWrite W) (Poll unit) :=
  r ← finish_pending_writes;
  match r with Pending => ret Pending | Ready _ => poll_write_inner poll_flush end.
Definition packed_poll_close : ST (PackedWrite W) (Poll unit) := poll_write_inner poll_close.

#[export] Instance PackedWrite_async : AsyncWrite (PackedWrite W) := {|
  poll_write := poll_write_aux;
  poll_flush := packed_poll_flush;
  poll_close := packed_poll_close
|}.
End write.
