(* ===== verification/AsyncPackedOk.v ===== *)
(** * [PackedRead] is a lawful reader of the unpacked stream

    [unpacks p c]: the packed stream [p] stands for the bytes [c]; it is given
    group by group, as the encoding is documented, and says nothing of
    buffers or polls.  [packed_read_spec] shows that [PackedRead] over a lawful
    reader that has [p] left is a lawful reader that has [c] left, whatever
    pieces its input arrives in and wherever it is pending in between. *)

From S2P Require Import Prelude Io Packed PackedSpec AsyncIo AsyncPacked.

(** ** Packed streams *)

Inductive group : list byte -> list byte -> Prop :=
| group_word tag bs w : byte.unsigned tag <> 0 -> byte.unsigned tag <> 255 ->
    spec_word (byte.unsigned tag) 8 0 bs = Some (w, []) -> group (tag :: bs) w
| group_zeroes count :
    group [Byte.x00; count] (repeat Byte.x00 ((Z.to_nat (byte.unsigned count) + 1) * 8))
| group_run w count run : length w = 8%nat -> length run = (Z.to_nat (byte.unsigned count) * 8)%nat ->
    group (Byte.xff :: w ++ count :: run) (w ++ run).

Inductive unpacks : list byte -> list byte -> Prop :=
| unpacks_nil : unpacks [] []
| unpacks_group g o p c : group g o -> unpacks p c -> unpacks (g ++ p) (o ++ c).

Lemma group_length g o : group g o -> (2 <= length g)%nat /\ (length o mod 8 = 0)%nat.
Proof.
  destruct 1 as [tag bs w Hz _ Hs|count|w count run Hw Hr]; cbn [length].
  - split; [|by apply spec_word_length in Hs as ->]. destruct bs; [|cbn [length]; lia].
    exfalso. apply Hz. clear Hz. cbn [spec_word] in Hs.
    destruct (tag_bit _ 0) eqn:E0; [done|]. destruct (tag_bit _ 1) eqn:E1; [done|].
    destruct (tag_bit _ 2) eqn:E2; [done|]. destruct (tag_bit _ 3) eqn:E3; [done|].
    destruct (tag_bit _ 4) eqn:E4; [done|]. destruct (tag_bit _ 5) eqn:E5; [done|].
    destruct (tag_bit _ 6) eqn:E6; [done|]. destruct (tag_bit _ 7) eqn:E7; [done|].
    clear Hs. revert E0 E1 E2 E3 E4 E5 E6 E7. unfold tag_bit. destruct tag; vm_compute; congruence.
  - split; [lia|]. rewrite repeat_length. apply Nat.Div0.mod_mul.
  - split; [rewrite length_app; cbn [length]; lia|]. rewrite length_app, Hw, Hr.
    replace (8 + Z.to_nat (byte.unsigned count) * 8)%nat with ((Z.to_nat (byte.unsigned count) + 1) * 8)%nat by lia.
    apply Nat.Div0.mod_mul.
Qed.

Lemma unpacks_aligned p c : unpacks p c -> (length c mod 8 = 0)%nat.
Proof.
  induction 1 as [|g o p c Hg _ IH]; [done|]. apply group_length in Hg as [_ Hg].
  rewrite length_app, Nat.Div0.add_mod, Hg, IH. done.
Qed.

Lemma unpacks_short p c : unpacks p c -> (length p < 2)%nat -> p = [] /\ c = [].
Proof.
  destruct 1 as [|g o p c Hg _]; [done|]. apply group_length in Hg as [Hg _]. rewrite length_app. lia.
Qed.

(** The whole words of some bytes. *)
Definition whole_words (d : list byte) : list byte := take (length d / 8 * 8) d.

Lemma whole_words_app c rest : (length c mod 8 = 0)%nat -> (length rest < 8)%nat -> whole_words (c ++ rest) = c.
Proof.
  intros Hc Hr. unfold whole_words. apply Nat.Div0.div_exact in Hc.
  assert (Hq : ((length (c ++ rest) / 8) * 8 = length c)%nat).
  { rewrite length_app. pose proof (Nat.div_mod (length c + length rest) 8).
    pose proof (Nat.mod_upper_bound (length c + length rest) 8). lia. }
  rewrite Hq, take_app_le, firstn_all by done. done.
Qed.

Lemma whole_words_aligned c : (length c mod 8 = 0)%nat -> whole_words c = c.
Proof. intros Hc. rewrite <- (app_nil_r c) at 1. apply whole_words_app; [done|cbn; lia]. Qed.

Lemma unpacks_app p1 c1 p2 c2 : unpacks p1 c1 -> unpacks p2 c2 -> unpacks (p1 ++ p2) (c1 ++ c2).
Proof.
  intros Hu H2. induction Hu as [|g o p c Hg _ IH]; [done|]. rewrite <- !app_assoc. by constructor.
Qed.
Lemma unpacks_snoc p c g o : unpacks p c -> group g o -> unpacks (p ++ g) (c ++ o).
Proof.
  intros Hu Hg. apply unpacks_app; [done|]. rewrite <- (app_nil_r g), <- (app_nil_r o).
  by repeat constructor.
Qed.

(** ** The header of a group: its tag, its word and the count of its run *)

Definition header (tag : byte) (size : nat) : Prop :=
  byte.unsigned tag <> 0 /\
  size = if (count_ones (byte.unsigned tag) + 1 =? 9)%nat then 10%nat else (count_ones (byte.unsigned tag) + 1)%nat.

Lemma count_ones_tag (tag : byte) :
  (byte.unsigned tag = 255 -> count_ones (byte.unsigned tag) = 8%nat) /\
  (byte.unsigned tag <> 255 -> (count_ones (byte.unsigned tag) < 8)%nat) /\
  (byte.unsigned tag <> 0 -> (0 < count_ones (byte.unsigned tag))%nat).
Proof. destruct tag; vm_compute; repeat split; intros; try congruence; lia. Qed.

Lemma header_size tag size : header tag size ->
  (2 <= size <= 10)%nat /\ (byte.unsigned tag = 255 -> size = 10%nat) /\
  (byte.unsigned tag <> 255 -> size = (count_ones (byte.unsigned tag) + 1)%nat).
Proof.
  intros [Hz ->]. destruct (count_ones_tag tag) as (H1 & H2 & H3). specialize (H3 Hz).
  destruct (Z.eq_dec (byte.unsigned tag) 255) as [E|E].
  - rewrite H1 by done. cbn. repeat split; try done; lia.
  - specialize (H2 E). destruct (Nat.eqb_spec (count_ones (byte.unsigned tag) + 1) 9); [lia|].
    repeat split; try done; lia.
Qed.

Lemma spec_word_bits tag k : forall i bs w q, spec_word tag k i bs = Some (w, q) ->
  length bs = (length (List.filter (tag_bit tag) (seq i k)) + length q)%nat.
Proof.
  induction k as [|k IH]; intros i bs w q; cbn [spec_word seq List.filter].
  - by intros [= <- <-].
  - destruct (tag_bit tag i).
    + destruct bs as [|b bs]; [done|]. destruct (spec_word tag k (S i) bs) as [[w' q']|] eqn:E; [|done].
      intros [= <- <-]. simpl. f_equal. by eapply IH.
    + destruct (spec_word tag k (S i) bs) as [[w' q']|] eqn:E; [|done].
      intros [= <- <-]. by eapply IH.
Qed.

(** What a stream that starts with a tag other than zero consists of. *)
Lemma unpacks_header tag size p c : header tag size -> unpacks (tag :: p) c ->
  (size <= length (tag :: p))%nat /\
  exists bs w c', take size (tag :: p) = tag :: bs /\ c = w ++ c' /\ length w = 8%nat /\
    (exists q, spec_word (byte.unsigned tag) 8 0 bs = Some (w, q) /\
     match q with
     | [] => unpacks (drop size (tag :: p)) c'
     | count :: _ => exists run c'', length run = (Z.to_nat (byte.unsigned count) * 8)%nat /\ q = [count] /\
        c' = run ++ c'' /\ exists rest, drop size (tag :: p) = run ++ rest /\ unpacks rest c''
     end).
Proof.
  intros Hh Hu. destruct (header_size _ _ Hh) as (Hs & H1 & H2).
  inversion Hu as [|g o p' c0 Hg Hu' E]. subst c. destruct Hg as [tag' bs w Hz Hff Hw|count|w count run Hw Hr].
  - simpl in E. injection E as -> <-. specialize (H2 Hff). pose proof (spec_word_bits _ _ _ _ _ _ Hw) as Hb.
    fold (count_ones (byte.unsigned tag)) in Hb. cbn [length] in Hb. rewrite Nat.add_0_r in Hb.
    assert (El : size = length (tag :: bs)) by (cbn [length]; lia).
    change (tag :: bs ++ p') with ((tag :: bs) ++ p'). rewrite El, take_app_length, drop_app_length, length_app.
    split; [lia|]. exists bs, w, c0. split_and!; [done|done|by eapply spec_word_length|]. by exists [].
  - simpl in E. injection E as <- E. by destruct Hh.
  - simpl in E. injection E as <- <-. rewrite H1 by done.
    assert (Hspec : forall q, spec_word (byte.unsigned Byte.xff) 8 0 (w ++ q) = Some (w, q)).
    { do 8 (destruct w as [|? w]; [done|]). by destruct w. }
    split; [rewrite length_app; cbn [length]; rewrite length_app; cbn [length]; lia|].
    exists (w ++ [count]), w, (run ++ c0). split_and!.
    + cbn [app take]. f_equal. rewrite <- app_assoc, (take_app_ge w) by lia. by rewrite Hw.
    + by rewrite app_assoc.
    + done.
    + exists [count]. split; [done|]. exists run, c0. split_and!; try done. exists p'. split; [|done].
      cbn [app drop]. rewrite <- app_assoc, (drop_app_ge w) by lia. by rewrite Hw.
Qed.

Lemma unpacks_zeroes tag count p c : byte.unsigned tag = 0 -> unpacks (tag :: count :: p) c ->
  exists c', c = repeat Byte.x00 ((Z.to_nat (byte.unsigned count) + 1) * 8) ++ c' /\ unpacks p c'.
Proof.
  intros Hz Hu. inversion Hu as [|g o p' c0 Hg Hu' E]. subst c. destruct Hg as [tag' bs w Hz'|count'|w count' run].
  - injection E as -> _. done.
  - injection E as _ -> ->. by exists c0.
  - injection E as <- _. done.
Qed.

(** ** Draining a word computes [spec_word] *)

Lemma drain_spec tag b (Htag : b !! 0%nat = Some tag) (Hlen : length b = 10%nat) k : forall room pos bitnum w q,
  (k <= room)%nat -> (bitnum + k = 8)%nat -> (pos <= 1 + bitnum)%nat ->
  spec_word (byte.unsigned tag) k bitnum (drop pos b) = Some (w, q) ->
  exists pos', drain b k room pos bitnum = Ok (w, pos', 8%nat) /\ q = drop pos' b /\ (pos' <= 9)%nat.
Proof.
  induction k as [|k IH]; intros room pos bitnum w q Hr Hk Hp; cbn [spec_word].
  { intros [= <- <-]. exists pos. cbn [drain]. split; [do 3 f_equal; lia|]. split; [done|lia]. }
  destruct room as [|room]; [lia|].
  destruct (lookup_lt_is_Some_2 b pos ltac:(lia)) as [x Hx].
  assert (Hd : drop pos b = x :: drop (S pos) b) by by rewrite <- (drop_S _ _ _ Hx).
  cbn [drain]. unfold byte_at at 1 2. rewrite Htag, Hx. cbn [unwrap bind outcome_monad].
  destruct (tag_bit (byte.unsigned tag) bitnum) eqn:Eb.
  - rewrite Hd. destruct (spec_word _ k (S bitnum) (drop (S pos) b)) as [[w' q']|] eqn:Es; [|done].
    intros [= <- <-]. destruct (IH room (pos + 1)%nat (S bitnum) w' q') as (pos' & E & Hq & Hp'); [lia..| |].
    { by rewrite Nat.add_1_r. }
    exists pos'. rewrite E, masked_byte. by split_and!.
  - destruct (spec_word _ k (S bitnum) (drop pos b)) as [[w' q']|] eqn:Es; [|done].
    intros [= <- <-]. destruct (IH room (pos + 0)%nat (S bitnum) w' q') as (pos' & E & Hq & Hp'); [lia..| |].
    { by rewrite Nat.add_0_r. }
    exists pos'. rewrite E, masked_byte. by split_and!.
Qed.

Lemma spec_word_app tag k : forall i bs w q z, spec_word tag k i bs = Some (w, q) ->
  spec_word tag k i (bs ++ z) = Some (w, q ++ z).
Proof.
  induction k as [|k IH]; intros i bs w q z; cbn [spec_word].
  - by intros [= <- <-].
  - destruct (tag_bit tag i).
    + destruct bs as [|b bs]; [done|]. destruct (spec_word tag k (S i) bs) as [[w' q']|] eqn:E; [|done].
      intros [= <- <-]. cbn [app]. by rewrite (IH _ _ _ _ z E).
    + destruct (spec_word tag k (S i) bs) as [[w' q']|] eqn:E; [|done].
      intros [= <- <-]. by rewrite (IH _ _ _ _ z E).
Qed.

(** ** Buffers *)

Lemma range_len_ok b lo hi : (lo <= hi)%nat -> (hi <= length b)%nat -> range_len b lo hi = Ok (hi - lo)%nat.
Proof. intros H1 H2. unfold range_len. by destruct (Nat.leb_spec lo hi), (Nat.leb_spec hi (length b)); try lia. Qed.

(** Storing at the end of the prefix in use extends it. *)
Lemma store_at_ok b lo bs : (lo + length bs <= length b)%nat ->
  exists b', store_at b lo bs = Ok b' /\ length b' = length b /\
    take (lo + length bs) b' = take lo b ++ bs.
Proof.
  intros Hl. unfold store_at. destruct (Nat.leb_spec (lo + length bs) (length b)); [|lia].
  assert (Ht : length (take lo b) = lo) by (rewrite length_take; lia).
  eexists. split; [done|]. split; [rewrite !length_app, length_drop, Ht; lia|].
  rewrite app_assoc. apply take_app_length'. rewrite length_app. lia.
Qed.

Lemma byte_at_bind {S B} b i x (k : byte -> ST S B) s : b !! i = Some x -> bind (lift (byte_at b i)) k s = k x s.
Proof. intros Hx. apply lift_bind_ok. unfold byte_at. by rewrite Hx. Qed.

(** ** The invariant of [PackedRead] *)

Section read.
Context {R : Type} `{AsyncReadSpec R}.
Hypothesis bytewise : granule (R:=R) = 1%nat.

(** The state [p] has the bytes [c] still to deliver: what is in [buf] and
    what the inner reader has left stand for them. *)
Definition packed_view (p : PackedRead R) (cin c : list byte) : Prop :=
  length (buf p) = 10%nat /\
  match stage p with
  | Start => (buf_pos p < 2)%nat /\ unpacks (take (buf_pos p) (buf p) ++ cin) c
  | WritingZeroes => (0 < num_run_bytes_remaining p)%nat /\
      exists c', c = repeat Byte.x00 (num_run_bytes_remaining p) ++ c' /\ unpacks cin c'
  | BufferingWord => (1 < buf_pos p < buf_size p)%nat /\
      (exists tag, buf p !! 0%nat = Some tag /\ header tag (buf_size p)) /\ unpacks (take (buf_pos p) (buf p) ++ cin) c
  | DrainingBuffer => buf_pos p = 1%nat /\
      (exists tag, buf p !! 0%nat = Some tag /\ header tag (buf_size p)) /\ unpacks (take (buf_size p) (buf p) ++ cin) c
  | WritingPassthrough => buf_pos p = 0%nat /\ exists run rest c',
      cin = run ++ rest /\ c = run ++ c' /\ length run = num_run_bytes_remaining p /\ unpacks rest c'
  end.
Definition packed_sends (p : PackedRead R) (c : list byte) : Prop :=
  exists cin, sends (inner p) cin /\ packed_view p cin c.

(** Rounds before the call returns *)
Definition rounds_left (p : PackedRead R) : nat :=
  match stage p with
  | WritingPassthrough => 13
  | Start => 12 - buf_pos p
  | BufferingWord => 11 - buf_pos p
  | WritingZeroes | DrainingBuffer => 0
  end.

(** A round keeps the invariant and goes on with less to do, or returns what
    [poll_read] may return. *)
Definition read_result (n : nat) (c : list byte) (p : PackedRead R) (o : option (Poll (list byte)))
    (p' : PackedRead R) : Prop :=
  match o with
  | None => packed_sends p' c /\ (rounds_left p' < rounds_left p)%nat /\ (patience (inner p') <= patience (inner p))%nat
  | Some Pending => packed_sends p' c /\ (patience (inner p') < patience (inner p))%nat
  | Some (Ready bs) => (length bs <= n)%nat /\ (patience (inner p') <= patience (inner p))%nat /\ (bs = [] -> c = []) /\
      exists c', c = bs ++ c' /\ packed_sends p' c'
  end.

Lemma poll_inner_spec (p : PackedRead R) cin n : sends (inner p) cin -> (0 < n)%nat ->
  exists o r, poll_inner n p = (Ok o, set_inner r p) /\
  match o with
  | Pending => sends r cin /\ (patience r < patience (inner p))%nat
  | Ready bs => (length bs <= n)%nat /\ (patience r <= patience (inner p))%nat /\ (bs = [] -> cin = []) /\
                exists c', cin = bs ++ c' /\ sends r c'
  end.
Proof.
  intros Hs Hn. destruct (poll_read_spec (inner p) cin n Hs Hn) as (o & r & E & Ho).
  { rewrite bytewise. by rewrite !Nat.mod_1_r. }
  exists o, r. split; [|done]. unfold poll_inner. by rewrite E.
Qed.

Lemma modify_bind {B} f (k : unit -> ST (PackedRead R) B) p : bind (modify f) k p = k tt (f p).
Proof. done. Qed.

(** The outcomes of polling the inner reader that leave [p] as it is *)
Lemma read_pending p r cin c n : sends r cin -> packed_view p cin c ->
  (patience r < patience (inner p))%nat -> read_result n c p (Some Pending) (set_inner r p).
Proof. intros Hs Hv Hm. split; [|done]. by exists cin. Qed.

Lemma read_end p r n : sends r [] -> packed_view p [] [] -> (patience r <= patience (inner p))%nat ->
  read_result n [] p (Some (Ready [])) (set_inner r p).
Proof. intros Hs Hv Hm. split_and!; [simpl; lia|done|done|]. exists []. split; [done|]. by exists []. Qed.

Lemma read_start_spec p c n : packed_sends p c -> stage p = Start ->
  exists o p', step_start p = (Ok o, p') /\ read_result n c p o p'.
Proof.
  intros (cin & Hc & Hv) Hst. pose proof Hv as (Hb & Hi). rewrite Hst in Hi. destruct Hi as (Hp & Hu).
  unfold step_start. rewrite (ST_bind_ok _ _ _ p p) by done.
  rewrite (lift_bind_ok _ _ _ (2 - buf_pos p)%nat) by (apply range_len_ok; lia).
  destruct (poll_inner_spec p cin (2 - buf_pos p) Hc ltac:(lia)) as (o & r & E & Ho).
  rewrite (ST_bind_ok _ _ _ _ _ E). destruct o as [|bs].
  { eexists _, _. split; [reflexivity|]. destruct Ho. by eapply read_pending. }
  destruct Ho as (Hl & Hm & Hnil & cin' & -> & Hc'). destruct (Nat.eqb_spec (length bs) 0) as [E0|E0].
  { apply nil_length_inv in E0. subst bs. specialize (Hnil eq_refl). cbn [app] in *. subst cin'.
    eexists _, _. split; [reflexivity|]. rewrite app_nil_r in Hu.
    destruct (unpacks_short _ _ Hu) as [_ ->]; [rewrite length_take; lia|]. by apply read_end. }
  destruct (store_at_ok (buf p) (buf_pos p) bs) as (b & Eb & Hlb & Htb); [lia|].
  rewrite (lift_bind_ok _ _ _ _ Eb), modify_bind. rewrite app_assoc, <- Htb in Hu.
  set (pos := (buf_pos p + length bs)%nat) in *. destruct (Nat.leb_spec 2 pos) as [H2|H2].
  2:{ eexists _, _. split; [reflexivity|]. unfold read_result, rounds_left. cbn. rewrite Hst. split; [|lia].
      exists cin'. split; [done|]. split; [cbn; lia|]. cbn. by rewrite Hst. }
  assert (Epos : pos = 2%nat) by lia. clearbody pos. subst pos.
  destruct b as [|tag [|count b]]; [simpl in *; lia..|]. cbn [take app] in Hu.
  rewrite (byte_at_bind (tag :: count :: b) 0 tag _ _ eq_refl), (byte_at_bind (tag :: count :: b) 1 count _ _ eq_refl).
  destruct (Z.eqb_spec (byte.unsigned tag) 0) as [Hz|Hz].
  - rewrite modify_bind. eexists _, _. split; [reflexivity|].
    destruct (unpacks_zeroes _ _ _ _ Hz Hu) as (c' & -> & Hu').
    split; [|unfold rounds_left; cbn; rewrite Hst; split; lia].
    exists cin'. split; [done|]. split; [cbn in *; lia|]. cbn -[Nat.mul]. split; [lia|]. by exists c'.
  - rewrite modify_bind. cbv zeta.
    set (size := if (count_ones (byte.unsigned tag) + 1 =? 9)%nat then 10%nat else (count_ones (byte.unsigned tag) + 1)%nat).
    assert (Hh : header tag size) by done. pose proof (header_size _ _ Hh) as (Hs & _). clearbody size.
    destruct (Nat.leb_spec size 2).
    + rewrite modify_bind. eexists _, _. split; [reflexivity|].
      split; [|unfold rounds_left; cbn; rewrite Hst; split; lia].
      exists cin'. split; [done|]. split; [cbn in *; lia|]. cbn. split; [done|].
      split; [by exists tag|]. assert (size = 2%nat) as -> by lia. done.
    + rewrite (ST_ret_bind tt). eexists _, _. split; [reflexivity|].
      split; [|unfold rounds_left; cbn; rewrite Hst; split; lia].
      exists cin'. split; [done|]. split; [cbn in *; lia|]. cbn. split; [lia|]. split; [by exists tag|done].
Qed.

Lemma read_zeroes_spec p c n : packed_sends p c -> stage p = WritingZeroes -> (0 < n)%nat ->
  exists o p', step_zeroes n p = (Ok o, p') /\ read_result n c p o p'.
Proof.
  intros (cin & Hc & Hb & Hi) Hst Hn. rewrite Hst in Hi. destruct Hi as (Hk & c' & -> & Hu).
  unfold step_zeroes. rewrite (ST_bind_ok _ _ _ p p) by done.
  set (k := num_run_bytes_remaining p) in *. cbv zeta.
  assert (Hsplit : repeat Byte.x00 k = repeat Byte.x00 (Nat.min n k) ++ repeat Byte.x00 (k - Nat.min n k)).
  { rewrite <- repeat_app. f_equal. lia. }
  assert (Hne : repeat Byte.x00 (Nat.min n k) <> []).
  { intros E. apply (f_equal length) in E. rewrite repeat_length in E. simpl in E. lia. }
  destruct (Nat.leb_spec k (Nat.min n k)) as [Hle|Hle]; rewrite modify_bind; eexists _, _; (split; [reflexivity|]);
    (split; [rewrite repeat_length; lia|]; split; [done|]; split; [done|]);
    exists (repeat Byte.x00 (k - Nat.min n k) ++ c'); (split; [by rewrite app_assoc, <- Hsplit|]);
    exists cin; (split; [done|]); (split; [done|]); cbn.
  - split; [lia|]. replace (k - Nat.min n k)%nat with 0%nat by lia. done.
  - rewrite Hst. split; [fold k; lia|]. by exists c'.
Qed.

Lemma read_buffering_spec p c n : packed_sends p c -> stage p = BufferingWord ->
  exists o p', step_buffering p = (Ok o, p') /\ read_result n c p o p'.
Proof.
  intros (cin & Hc & Hv) Hst. pose proof Hv as (Hb & Hi). rewrite Hst in Hi.
  destruct Hi as (Hp & (tag & Htag & Hh) & Hu). pose proof (header_size _ _ Hh) as (Hs & _).
  unfold step_buffering. rewrite (ST_bind_ok _ _ _ p p) by done.
  rewrite (lift_bind_ok _ _ _ (buf_size p - buf_pos p)%nat) by (apply range_len_ok; lia).
  destruct (poll_inner_spec p cin (buf_size p - buf_pos p) Hc ltac:(lia)) as (o & r & E & Ho).
  rewrite (ST_bind_ok _ _ _ _ _ E). destruct o as [|bs].
  { eexists _, _. split; [reflexivity|]. destruct Ho. by eapply read_pending. }
  destruct Ho as (Hl & Hm & Hnil & cin' & -> & Hc').
  assert (Htake : exists l, take (buf_pos p) (buf p) = tag :: l /\ S (length l) = buf_pos p).
  { destruct (buf p) as [|x b]; [done|]. injection Htag as ->. destruct (buf_pos p) as [|q]; [lia|].
    exists (take q b). split; [done|]. rewrite length_take. cbn in Hb. lia. }
  destruct (Nat.eqb_spec (length bs) 0) as [E0|E0].
  { exfalso. apply nil_length_inv in E0. subst bs. specialize (Hnil eq_refl). cbn [app] in Hnil. subst cin'.
    destruct Htake as (l & El & Hl'). cbn [app] in Hu. rewrite app_nil_r, El in Hu.
    destruct (unpacks_header _ _ _ _ Hh Hu) as (Hlen & _). cbn [length] in Hlen. lia. }
  destruct (store_at_ok (buf p) (buf_pos p) bs) as (b & Eb & Hlb & Htb); [lia|].
  rewrite (lift_bind_ok _ _ _ _ Eb). cbv zeta. rewrite modify_bind. rewrite app_assoc, <- Htb in Hu.
  assert (Hfirst : b !! 0%nat = Some tag).
  { destruct Htake as (l & El & _). rewrite El in Htb. destruct b as [|x b]; [cbn in Hlb; lia|].
    destruct (buf_pos p) as [|q]; [lia|]. cbn in Htb. by injection Htb as ->. }
  set (pos := (buf_pos p + length bs)%nat) in *. destruct (Nat.leb_spec (buf_size p) pos) as [H2|H2].
  - assert (Epos : pos = buf_size p) by lia. clearbody pos. subst pos.
    rewrite modify_bind. eexists _, _. split; [reflexivity|].
    split; [|unfold rounds_left; cbn; rewrite Hst; split; lia].
    exists cin'. split; [done|]. split; [cbn; lia|]. cbn. split; [done|]. split; [by exists tag|done].
  - rewrite (ST_ret_bind tt). eexists _, _. split; [reflexivity|].
    split; [|unfold rounds_left; cbn; rewrite Hst; split; lia].
    exists cin'. split; [done|]. split; [cbn; lia|]. cbn. rewrite Hst. split; [cbn; lia|]. split; [by exists tag|done].
Qed.

Lemma read_draining_spec p c n : packed_sends p c -> stage p = DrainingBuffer -> (8 <= n)%nat ->
  exists o p', step_draining n p = (Ok o, p') /\ read_result n c p o p'.
Proof.
  intros (cin & Hc & Hb & Hi) Hst Hn. rewrite Hst in Hi.
  destruct Hi as (Hp & (tag & Htag & Hh) & Hu). pose proof (header_size _ _ Hh) as (Hs & _).
  assert (Htake : exists l, take (buf_size p) (buf p) = tag :: l).
  { destruct (buf p) as [|x b]; [done|]. injection Htag as ->. destruct (buf_size p) as [|q]; [lia|]. by exists (take q b). }
  destruct Htake as (l & El). rewrite El in Hu. cbn [app] in Hu.
  destruct (unpacks_header _ _ _ _ Hh Hu) as (_ & bs & w & c' & Hbs & -> & Hw & q & Hq & Hrest).
  assert (Hlen : length (take (buf_size p) (buf p)) = buf_size p) by (rewrite length_take; lia).
  assert (bs = l /\ drop (buf_size p) (tag :: l ++ cin) = cin) as (-> & Hdrop).
  { change (tag :: l ++ cin) with ((tag :: l) ++ cin) in Hbs |- *. rewrite <- El in Hbs |- *.
    rewrite take_app_length' in Hbs by done. rewrite El in Hbs. injection Hbs as ->. split; [done|]. by apply drop_app_length'. }
  rewrite Hdrop in Hrest.
  assert (Hd1 : drop 1 (buf p) = l ++ drop (buf_size p) (buf p)).
  { rewrite <- (take_drop (buf_size p) (buf p)) at 1. rewrite El. done. }
  pose proof (spec_word_app _ _ _ _ _ _ (drop (buf_size p) (buf p)) Hq) as Hq'. rewrite <- Hd1 in Hq'.
  destruct (drain_spec tag (buf p) Htag Hb 8 n 1 0 w _ Hn eq_refl ltac:(lia) Hq') as (pos' & Edrain & Hpos & Hpos9).
  unfold step_draining. rewrite (ST_bind_ok _ _ _ p p) by done. rewrite Hp. cbn [Nat.leb Nat.sub].
  rewrite (ST_bind_ok _ _ _ 0%nat p) by done. change (8 - 0)%nat with 8%nat. rewrite (lift_bind_ok _ _ _ _ Edrain).
  cbn [Nat.eqb].
  assert (El' : length (q ++ drop (buf_size p) (buf p)) = length (drop pos' (buf p))) by by rewrite Hpos.
  rewrite length_app, !length_drop in El'.
  assert (Hret : forall p', patience (inner p') = patience (inner p) -> packed_sends p' c' ->
    read_result n (w ++ c') p (Some (Ready w)) p').
  { intros p' E Hs'. split; [lia|]. split; [lia|]. split; [by destruct w|]. by exists c'. }
  destruct q as [|count q].
  - cbn [length] in El'. destruct (Nat.eqb_spec pos' (buf_size p)); [|lia].
    rewrite ST_bind_assoc, modify_bind, modify_bind. eexists _, _. split; [reflexivity|]. apply Hret; [done|].
    exists cin. split; [done|]. split; [done|]. cbn. split; [lia|done].
  - destruct Hrest as (run & c'' & Hrun & Eq & -> & rest & -> & Hu'). injection Eq as ->. cbn [length app] in *.
    destruct (Nat.eqb_spec pos' (buf_size p)); [lia|].
    assert (Hcount : buf p !! pos' = Some count).
    { pose proof (f_equal (fun l => l !! 0%nat) Hpos) as E0. rewrite lookup_drop, Nat.add_0_r in E0. by symmetry. }
    rewrite ST_bind_assoc, ST_bind_assoc, (byte_at_bind _ _ _ _ _ Hcount), modify_bind, modify_bind.
    eexists _, _. split; [reflexivity|]. apply Hret; [done|].
    exists (run ++ rest). split; [done|]. split; [done|]. cbn. split; [done|]. by exists run, rest, c''.
Qed.

Lemma read_passthrough_spec p c n : packed_sends p c -> stage p = WritingPassthrough -> (0 < n)%nat ->
  exists o p', step_passthrough n p = (Ok o, p') /\ read_result n c p o p'.
Proof.
  intros (cin & Hc & Hv) Hst Hn. pose proof Hv as (Hb & Hi). rewrite Hst in Hi.
  destruct Hi as (Hp & run & rest & c' & -> & -> & Hrun & Hu).
  unfold step_passthrough. rewrite (ST_bind_ok _ _ _ p p) by done. cbv zeta.
  destruct (Nat.eqb_spec (Nat.min (num_run_bytes_remaining p) n) 0) as [E0|E0].
  { assert (run = []) as -> by (apply nil_length_inv; lia). rewrite modify_bind. eexists _, _. split; [reflexivity|].
    split; [|unfold rounds_left; cbn; rewrite Hst; split; lia].
    exists rest. split; [done|]. split; [done|]. cbn. rewrite Hp. split; [lia|done]. }
  destruct (poll_inner_spec p (run ++ rest) (Nat.min (num_run_bytes_remaining p) n) Hc ltac:(lia)) as (o & r & E & Ho).
  rewrite (ST_bind_ok _ _ _ _ _ E). destruct o as [|bs].
  { eexists _, _. split; [reflexivity|]. destruct Ho. by eapply read_pending. }
  destruct Ho as (Hl & Hm & Hnil & cin' & Ecin & Hc'). destruct (Nat.eqb_spec (length bs) 0) as [E1|E1].
  { exfalso. apply nil_length_inv in E1. specialize (Hnil E1). apply app_nil in Hnil as [-> _]. simpl in *. lia. }
  assert (exists run', run = bs ++ run') as (run' & ->).
  { exists (drop (length bs) run). rewrite <- (take_app_length bs cin') at 1. rewrite <- Ecin.
    rewrite take_app_le by lia. by rewrite take_drop. }
  rewrite <- !app_assoc in Ecin. apply app_inv_head in Ecin. subst cin'. rewrite length_app in Hrun.
  assert (Hdone : forall p', inner p' = r -> packed_view p' (run' ++ rest) (run' ++ c') ->
    read_result n ((bs ++ run') ++ c') p (Some (Ready bs)) p').
  { intros p' Ep Hv'. split; [lia|]. split; [by rewrite Ep|]. split; [intros ->; done|].
    exists (run' ++ c'). split; [by rewrite app_assoc|]. exists (run' ++ rest). by rewrite Ep. }
  destruct (Nat.leb_spec (length bs) (num_run_bytes_remaining p)); [|lia].
  destruct (Nat.leb_spec (num_run_bytes_remaining p) (length bs)).
  - rewrite !modify_bind. eexists _, _. split; [reflexivity|]. apply Hdone; [done|].
    assert (run' = []) as -> by (apply nil_length_inv; lia).
    split; [done|]. cbn. rewrite Hp. split; [lia|done].
  - rewrite (ST_ret_bind tt), modify_bind. eexists _, _. split; [reflexivity|]. apply Hdone; [done|].
    split; [done|]. cbn. rewrite Hst. split; [done|]. exists run', rest, c'. split_and!; try done. cbn. lia.
Qed.

Lemma read_round_spec p c n : packed_sends p c -> (0 < n)%nat -> (n mod 8 = length c mod 8)%nat ->
  exists o p', read_round n p = (Ok o, p') /\ read_result n c p o p'.
Proof.
  intros Hs Hn Hg. unfold read_round. rewrite (ST_bind_ok _ _ _ p p) by done. destruct (stage p) eqn:Hst.
  - by apply read_start_spec.
  - by apply read_zeroes_spec.
  - by apply read_buffering_spec.
  - apply read_draining_spec; [done..|]. destruct Hs as (cin & _ & _ & Hi). rewrite Hst in Hi.
    destruct Hi as (_ & _ & Hu). rewrite (unpacks_aligned _ _ Hu) in Hg.
    pose proof (Nat.Div0.div_mod n 8). lia.
  - by apply read_passthrough_spec.
Qed.

Lemma rounds_left_bound p : (rounds_left p <= 13)%nat.
Proof. unfold rounds_left. destruct (stage p); lia. Qed.

Lemma read_rounds_spec fuel : forall p c n, packed_sends p c -> (0 < n)%nat -> (n mod 8 = length c mod 8)%nat ->
  (rounds_left p < fuel)%nat ->
  exists o p', read_rounds fuel n p = (Ok o, p') /\ read_result n c p (Some o) p'.
Proof.
  induction fuel as [|fuel IH]; intros p c n Hs Hn Hg Hf; [lia|]. cbn [read_rounds].
  destruct (read_round_spec p c n Hs Hn Hg) as (o & p' & E & Ho). rewrite (ST_bind_ok _ _ _ _ _ E).
  destruct o as [o|]; [by exists o, p'|]. destruct Ho as (Hs' & Hr & Hm).
  destruct (IH p' c n Hs' Hn Hg) as (o & p'' & E' & Ho); [lia|]. exists o, p''. split; [done|].
  destruct o as [|bs]; cbn [read_result] in *.
  - destruct Ho. split; [done|lia].
  - destruct Ho as (H1 & H2 & H3 & H4). split_and!; [done|lia|done|done].
Qed.

(** [PackedRead] over a lawful reader is a lawful reader, to be read word by
    word. *)
#[export] Instance packed_read_spec : AsyncReadSpec (PackedRead R).
Proof.
  refine {| sends := packed_sends; granule := 8; granule_pos := ltac:(lia); granule_word := eq_refl; patience := fun p => patience (inner p) |}.
  intros p c n Hs Hn Hg. destruct (read_rounds_spec 16 p c n Hs Hn Hg) as (o & p' & E & Ho).
  { pose proof (rounds_left_bound p). lia. }
  exists o, p'. split; [exact E|]. destruct o as [|bs]; [done|].
  destruct Ho as (H1 & H2 & H3 & c' & H4 & H5). split_and!; [done|done|done|]. by exists c'.
Defined.

(** A new [PackedRead] has the whole stream to deliver. *)
Lemma packed_read_new r p c : sends r p -> unpacks p c -> sends (PackedRead_new r) c.
Proof. intros Hs Hu. exists p. split; [done|]. split; [done|]. cbn. split; [lia|done]. Qed.
End read.

(** ** [unpacks] agrees with the decoder of the synchronous code *)

Lemma spec_word_prefix tag k : forall i inp w rest, spec_word tag k i inp = Some (w, rest) ->
  exists bs, inp = bs ++ rest /\ spec_word tag k i bs = Some (w, []).
Proof.
  induction k as [|k IH]; intros i inp w rest; cbn [spec_word].
  - intros [= <- <-]. by exists [].
  - destruct (tag_bit tag i).
    + destruct inp as [|b inp]; [done|]. destruct (spec_word tag k (S i) inp) as [[w' q']|] eqn:E; [|done].
      intros [= <- <-]. destruct (IH _ _ _ _ E) as (bs & -> & Hbs). exists (b :: bs). split; [done|]. cbn. by rewrite Hbs.
    + destruct (spec_word tag k (S i) inp) as [[w' q']|] eqn:E; [|done].
      intros [= <- <-]. destruct (IH _ _ _ _ E) as (bs & -> & Hbs). exists bs. by rewrite Hbs.
Qed.

Lemma spec_word_zero k : forall i inp, spec_word 0 k i inp = Some (repeat Byte.x00 k, inp).
Proof.
  induction k as [|k IH]; intros i inp; cbn [spec_word repeat]; [done|].
  unfold tag_bit. by rewrite Z.bits_0, IH.
Qed.

Lemma spec_word_full k : forall i inp w rest, (i + k <= 8)%nat -> spec_word 255 k i inp = Some (w, rest) -> inp = w ++ rest.
Proof.
  induction k as [|k IH]; intros i inp w rest Hi; cbn [spec_word]; [by intros [= <- <-]|].
  replace (tag_bit 255 i) with true.
  - destruct inp as [|b inp]; [done|]. destruct (spec_word 255 k (S i) inp) as [[w' q']|] eqn:E; [|done].
    intros [= <- <-]. apply IH in E; [|lia]. by rewrite E.
  - symmetry. unfold tag_bit. do 8 (destruct i as [|i]; [reflexivity|]). lia.
Qed.

Lemma unpack_group_unpacks n inp g rest : unpack_group n inp = Ok (g, rest) ->
  exists u, inp = u ++ rest /\ group u g.
Proof.
  unfold unpack_group. destruct inp as [|tag inp]; [done|].
  destruct (spec_word (byte.unsigned tag) 8 0 inp) as [[w inp']|] eqn:Ew; [|done].
  destruct (Z.eqb_spec (byte.unsigned tag) 0) as [E0|E0]; [|destruct (Z.eqb_spec (byte.unsigned tag) 255) as [E1|E1]]; cbn [orb].
  - assert (tag = Byte.x00) as -> by (rewrite <- (byte.of_Z_unsigned tag), E0; done).
    rewrite spec_word_zero in Ew. injection Ew as <- <-. destruct inp as [|count inp]; [done|].
    destruct (_ <? _)%nat; [done|]. intros [= <- <-]. exists [Byte.x00; count]. split; [done|].
    pose proof (group_zeroes count) as Hg. rewrite Nat.mul_add_distr_r, Nat.add_comm, repeat_app in Hg. exact Hg.
  - assert (tag = Byte.xff) as -> by (rewrite <- (byte.of_Z_unsigned tag), E1; done).
    pose proof (spec_word_length _ _ _ _ _ _ Ew) as Hw. apply spec_word_full in Ew as ->; [|lia].
    destruct inp' as [|count inp]; [done|]. destruct (_ <? _)%nat; [done|].
    destruct (Nat.ltb_spec (length inp) (Z.to_nat (byte.unsigned count) * 8)) as [|Hl]; [done|].
    intros [= <- <-]. set (k := (Z.to_nat (byte.unsigned count) * 8)%nat) in *.
    exists (Byte.xff :: w ++ count :: take k inp). split.
    + cbn [app]. f_equal. rewrite <- app_assoc. cbn [app]. by rewrite take_drop.
    + constructor; [done|]. rewrite length_take. lia.
  - intros [= <- <-]. destruct (spec_word_prefix _ _ _ _ _ _ Ew) as (bs & -> & Hbs).
    exists (tag :: bs). split; [done|]. by constructor.
Qed.

Lemma unpack_unpacks fuel : forall n inp out rest, unpack_fuel fuel n inp = Ok (out, rest) ->
  exists u, inp = u ++ rest /\ unpacks u out.
Proof.
  induction fuel as [|fuel IH]; intros n inp out rest; cbn [unpack_fuel]; [done|].
  destruct (n =? 0)%nat; [intros [= <- <-]; exists []; by repeat constructor|].
  destruct (unpack_group n inp) as [[g inp1]| | | |] eqn:Eg; try done. cbn [bind outcome_monad].
  destruct (unpack_fuel fuel (n - length g) inp1) as [[o inp2]| | | |] eqn:Eo; try done. intros [= <- <-].
  destruct (unpack_group_unpacks _ _ _ _ Eg) as (u1 & -> & H1). destruct (IH _ _ _ _ Eo) as (u2 & -> & H2).
  exists (u1 ++ u2). split; [by rewrite app_assoc|]. by constructor.
Qed.

(** ** [PackedWrite] is a lawful writer, and what it has written unpacks to
    what it was given

    The invariant says, for each stage, how the bytes in the inner writer and
    the fields of the state machine stand for the data accepted so far.  The
    code stores the length of a run in a byte without bounding it, so the
    theorem is about buffers without a run of more than 255 words
    ([short_runs]). *)

(** ** The tag and the bytes of a word *)

Lemma store_at_tail t q idx b : (idx < length q)%nat ->
  store_at (t :: q) (S idx) [b] = Ok (t :: take idx q ++ b :: drop (S idx) q).
Proof.
  intros Hl. unfold store_at. cbn [length]. destruct (Nat.leb_spec (S idx + 1) (S (length q))); [|lia].
  cbn [take app]. do 2 f_equal. f_equal. f_equal. by rewrite Nat.add_1_r.
Qed.

Lemma or_byte x y : 0 <= x < 256 -> 0 <= y < 256 -> 0 <= Z.lor x y < 256.
Proof.
  intros Hx Hy. split; [apply Z.lor_nonneg; lia|].
  destruct (Z.eq_dec (Z.lor x y) 0) as [->|Hz]; [done|].
  assert (Z.lor x y < 2 ^ 8) as Hlt; [|lia]. apply Z.log2_lt_pow2.
  - pose proof (proj2 (Z.lor_nonneg x y)). lia.
  - rewrite Z.log2_lor by lia. apply Z.max_lub_lt;
      (destruct (Z.eq_dec x 0) as [->|]; destruct (Z.eq_dec y 0) as [->|]; try done; apply Z.log2_lt_pow2; lia).
Qed.

Lemma pack_bytes_from_ok w : forall ii t q idx, length q = 8%nat -> (ii + length w <= 8)%nat ->
  (idx + length w <= 8)%nat ->
  exists t' q', pack_bytes_from w ii (t :: q) (S idx) = Ok (t' :: q', S (idx + length (nonzero w))) /\
    length q' = 8%nat /\ byte.unsigned t' = Z.lor (byte.unsigned t) (word_tag w ii) /\
    take (idx + length (nonzero w)) q' = take idx q ++ nonzero w.
Proof.
  induction w as [|b w IH]; intros ii t q idx Hq Hii Hidx; cbn [pack_bytes_from length] in *.
  { exists t, q. cbn [nonzero List.filter length word_tag]. by rewrite Nat.add_0_r, Z.lor_0_r, app_nil_r. }
  unfold nonzero. cbn [List.filter word_tag]. fold (nonzero w). fold (is_zero_byte b).
  destruct (is_zero_byte b) eqn:Eb; cbn [negb length Z.b2z].
  - destruct (IH (S ii) t q idx Hq) as (t' & q' & E & H1 & H2 & H3); [lia..|]. exists t', q'.
    rewrite Z.shiftl_0_l, Z.lor_0_l. done.
  - unfold byte_at. cbn [lookup list_lookup unwrap bind outcome_monad].
    unfold store_at at 1. cbn [length Nat.leb Nat.add app take drop bind outcome_monad].
    rewrite drop_0, store_at_tail by lia. cbn [bind outcome_monad].
    set (t1 := byte.of_Z _). set (q1 := take idx q ++ b :: drop (S idx) q).
    assert (Hq1 : length q1 = 8%nat).
    { unfold q1. rewrite length_app, length_take. cbn [length]. rewrite length_drop. lia. }
    destruct (IH (S ii) t1 q1 (S idx) Hq1) as (t' & q' & E & H1 & H2 & H3); [lia..|].
    exists t', q'. rewrite E. split; [do 2 f_equal; lia|]. split; [done|]. split.
    + rewrite H2, Z.lor_assoc. f_equal. unfold t1. rewrite byte.unsigned_of_Z. unfold byte.wrap.
      apply Z.mod_small, or_byte; [apply byte.unsigned_range|].
      rewrite Z.shiftl_1_l. split; [lia|]. apply (Z.pow_lt_mono_r 2 (Z.of_nat ii) 8); lia.
    + replace (idx + S (length (nonzero w)))%nat with (S idx + length (nonzero w))%nat by lia. rewrite H3.
      assert (Ht : length (take idx q) = idx) by (rewrite length_take; lia).
      unfold q1. rewrite take_app_ge by lia. rewrite Ht. replace (S idx - idx)%nat with 1%nat by lia.
      cbn [take]. by rewrite <- app_assoc.
Qed.

(** The contents of [packed_buf] for the word [w] *)
Definition word_bytes (w : list byte) : list byte := byte.of_Z (word_tag w 0) :: nonzero w.

Lemma pack_bytes_ok b packed : length b = 8%nat -> length packed = 9%nat ->
  exists packed1 packed', store_at packed 0 [Byte.x00] = Ok packed1 /\
    pack_bytes_from b 0 packed1 1 = Ok (packed', length (word_bytes b)) /\ length packed' = 9%nat /\
    take (length (word_bytes b)) packed' = word_bytes b.
Proof.
  intros Hb Hp. destruct packed as [|t q]; [done|]. injection Hp as Hq.
  exists (Byte.x00 :: q). destruct (pack_bytes_from_ok b 0 Byte.x00 q 0 Hq) as (t' & q' & E & H1 & H2 & H3); [lia..|].
  exists (t' :: q'). split; [done|]. split; [exact E|]. split; [cbn; lia|].
  unfold word_bytes. cbn [length take]. cbn [Nat.add] in H3. rewrite H3. cbn [take app]. f_equal.
  rewrite <- (byte.of_Z_unsigned t'), H2. done.
Qed.

(** ** The lengths of runs *)

Lemma zero_run_step w rest j words : length w = 8%nat ->
  zero_run (w ++ rest) (8 * j) words = if is_zero_word w then zero_run rest (8 * S j) words else j.
Proof.
  intros Hw. assert (Hgen : forall i w', (i + length w' = 8)%nat ->
    zero_run (w' ++ rest) (8 * j + i) words = if is_zero_word w' then zero_run rest (8 * S j) words else j).
  { intros i w'. revert i. induction w' as [|b w' IH]; intros i Hi; cbn [length] in Hi; cbn [app zero_run].
    - f_equal. lia.
    - unfold is_zero_word. cbn [forallb]. fold (is_zero_word w'). unfold is_zero_byte at 1.
      destruct (byte.unsigned b =? 0); cbn [negb andb].
      + rewrite <- (IH (S i)) by lia. f_equal. lia.
      + rewrite Nat.mul_comm, Nat.div_add_l by lia. rewrite Nat.div_small by lia. lia. }
  specialize (Hgen 0%nat w ltac:(lia)). by rewrite Nat.add_0_r in Hgen.
Qed.

(** Lists of bytes, word by word *)
Lemma words_ind (P : list byte -> Prop) :
  (forall l, (length l < 8)%nat -> P l) ->
  (forall w l, length w = 8%nat -> P l -> P (w ++ l)) -> forall l, P l.
Proof.
  intros Hshort Hword l. remember (length l) as n eqn:Hn. revert l Hn.
  induction n as [n IH] using lt_wf_ind. intros l ->.
  destruct (Nat.lt_ge_cases (length l) 8) as [Hl|Hl]; [by apply Hshort|].
  rewrite <- (take_drop 8 l). apply Hword; [rewrite length_take; lia|].
  apply (IH (length (drop 8 l))); [rewrite length_drop; lia|done].
Qed.

Lemma leading_words_cons f n w l : length w = 8%nat ->
  leading_words f (S n) (w ++ l) = if f w then S (leading_words f n l) else 0%nat.
Proof. intros Hw. cbn [leading_words]. rewrite <- Hw. by rewrite take_app_length, drop_app_length. Qed.

Lemma words_cons (w l : list byte) : length w = 8%nat -> (length (w ++ l) / 8 = S (length l / 8))%nat.
Proof.
  intros Hw. rewrite length_app, Hw. replace (8 + length l)%nat with (1 * 8 + length l)%nat by lia.
  by rewrite Nat.div_add_l by lia.
Qed.

Lemma zero_run_short l j : (length l < 8)%nat -> forall i, (i + length l < 8)%nat -> zero_run l (8 * j + i) j = j.
Proof.
  intros _. induction l as [|b l IH]; intros i Hi; cbn [zero_run length] in *; [done|].
  destruct (negb _).
  - rewrite Nat.mul_comm, Nat.div_add_l, Nat.div_small by lia. lia.
  - replace (S (8 * j + i)) with (8 * j + S i)%nat by lia. apply IH. lia.
Qed.

Lemma zero_run_spec inp : forall j,
  zero_run inp (8 * j) (j + length inp / 8) = (j + leading_words is_zero_word (length inp / 8) inp)%nat.
Proof.
  induction inp as [l Hl|w l Hw IH] using words_ind; intros j.
  - rewrite Nat.div_small by done. cbn [leading_words]. rewrite Nat.add_0_r.
    pose proof (zero_run_short l j Hl 0 Hl) as E. by rewrite Nat.add_0_r in E.
  - rewrite words_cons, zero_run_step, leading_words_cons by done. destruct (is_zero_word w); [|lia].
    specialize (IH (S j)). replace (j + S (length l / 8))%nat with (S j + length l / 8)%nat by lia.
    rewrite IH. lia.
Qed.

Lemma index_in_word j i : (i < 8)%nat -> ((8 * j + i) mod 8 = i /\ (8 * j + i) / 8 = j)%nat.
Proof.
  intros Hi. rewrite Nat.mul_comm. split.
  - rewrite Nat.add_comm, Nat.Div0.mod_add. by apply Nat.mod_small.
  - rewrite Nat.div_add_l, Nat.div_small by lia. lia.
Qed.

Lemma verbatim_reset l j z words : verbatim_run l (8 * j) z words = verbatim_run l (8 * j) 0 words.
Proof.
  destruct l as [|b l]; [done|]. cbn [verbatim_run]. destruct (index_in_word j 0 ltac:(lia)) as [E _].
  rewrite Nat.add_0_r in E. by rewrite E.
Qed.

Lemma zero_bytes_cons b w : zero_bytes (b :: w) = ((if is_zero_byte b then 1 else 0) + zero_bytes w)%nat.
Proof. unfold zero_bytes. rewrite filter_cons. destruct (decide _) as [Hd|Hd]; destruct (is_zero_byte b); by simpl in *. Qed.

Lemma verbatim_run_word words j rest w : forall i z, w <> [] -> (i + length w = 8)%nat -> (i = 0%nat -> z = 0%nat) ->
  (z <= 1)%nat ->
  verbatim_run (w ++ rest) (8 * j + i) z words =
  if (2 <=? z + zero_bytes w)%nat then j else verbatim_run rest (8 * S j) 0 words.
Proof.
  induction w as [|b w IH]; [done|]. intros i z _ Hi Hz0 Hz1. cbn [app verbatim_run length] in *.
  destruct (index_in_word j i ltac:(lia)) as [-> ->]. rewrite zero_bytes_cons. unfold is_zero_byte.
  assert (Hz : (if (i =? 0)%nat then 0%nat else z) = z) by (destruct (Nat.eqb_spec i 0); [by rewrite Hz0|done]).
  rewrite Hz. replace (S (8 * j + i)) with (8 * j + S i)%nat by lia.
  assert (Hnext : forall z', (z' <= 1)%nat -> verbatim_run (w ++ rest) (8 * j + S i) z' words =
    if (2 <=? z' + zero_bytes w)%nat then j else verbatim_run rest (8 * S j) 0 words).
  { intros z' Hz'. destruct w as [|b' w]; [|apply IH; [done|simpl in *; lia..]].
    replace (zero_bytes []) with 0%nat by done. cbn [app length] in *.
    replace (8 * j + S i)%nat with (8 * S j)%nat by lia. rewrite verbatim_reset.
    by destruct (Nat.leb_spec 2 (z' + 0)); [lia|]. }
  destruct (byte.unsigned b =? 0).
  - destruct (Nat.ltb_spec 1 (S z)).
    + destruct (Nat.leb_spec 2 (z + (1 + zero_bytes w))); [done|lia].
    + rewrite Hnext by lia. by replace (S z + zero_bytes w)%nat with (z + (1 + zero_bytes w))%nat by lia.
  - by rewrite Hnext.
Qed.

Lemma verbatim_run_short l j : forall i z, (i + length l < 8)%nat -> verbatim_run l (8 * j + i) z j = j.
Proof.
  induction l as [|b l IH]; intros i z Hi; cbn [verbatim_run length] in *; [done|].
  replace (S (8 * j + i)) with (8 * j + S i)%nat by lia. rewrite !IH by lia.
  destruct (index_in_word j i ltac:(lia)) as [_ ->]. by repeat case_match.
Qed.

Lemma verbatim_run_spec inp : forall j,
  verbatim_run inp (8 * j) 0 (j + length inp / 8) = (j + leading_words verbatim_word (length inp / 8) inp)%nat.
Proof.
  induction inp as [l Hl|w l Hw IH] using words_ind; intros j.
  - rewrite Nat.div_small by done. cbn [leading_words]. rewrite Nat.add_0_r, <- (Nat.add_0_r (8 * j)).
    apply verbatim_run_short; lia.
  - rewrite words_cons, leading_words_cons by done. unfold verbatim_word at 1.
    rewrite <- (Nat.add_0_r (8 * j)), verbatim_run_word by (try done; try lia; by intros ->).
    cbn [Nat.add]. destruct (2 <=? zero_bytes w)%nat; cbn [negb]; [lia|].
    specialize (IH (S j)). replace (j + S (length l / 8))%nat with (S j + length l / 8)%nat by lia.
    rewrite IH. lia.
Qed.

(** No run of more than 255 words begins anywhere in the buffer. *)
Definition short_runs (l : list byte) : Prop := forall k,
  (leading_words is_zero_word (length (drop k l) / 8) (drop k l) <= 255)%nat /\
  (leading_words verbatim_word (length (drop k l) / 8) (drop k l) <= 255)%nat.

Lemma leading_zero_run l : short_runs l -> exists k, zero_run l 0 (length l / 8) = k /\ (k <= 255)%nat /\
  (k * 8 <= length l)%nat /\ take (k * 8) l = repeat Byte.x00 (k * 8).
Proof.
  intros Hs. exists (zero_run l 0 (length l / 8)). split; [done|]. pose proof (zero_run_spec l 0) as E. cbn [Nat.add Nat.mul] in E.
  rewrite E. destruct (Hs 0%nat) as [Hz _]. rewrite drop_0 in Hz.
  pose proof (leading_words_le is_zero_word (length l / 8) l). pose proof (Nat.Div0.div_mod (length l) 8).
  split; [done|]. split; [lia|]. rewrite (Nat.mul_comm _ 8). apply leading_zero_words. lia.
Qed.

Lemma leading_verbatim_run l : short_runs l -> exists k, verbatim_run l 0 0 (length l / 8) = k /\ (k <= 255)%nat /\
  (k * 8 <= length l)%nat.
Proof.
  intros Hs. exists (verbatim_run l 0 0 (length l / 8)). split; [done|]. pose proof (verbatim_run_spec l 0) as E. cbn [Nat.add Nat.mul] in E.
  rewrite E. destruct (Hs 0%nat) as [_ Hz]. rewrite drop_0 in Hz.
  pose proof (leading_words_le verbatim_word (length l / 8) l). pose proof (Nat.Div0.div_mod (length l) 8). lia.
Qed.

Lemma short_runs_drop n l : short_runs l -> short_runs (drop n l).
Proof. intros Hs k. rewrite drop_drop. apply Hs. Qed.

(** Buffers of at most 255 words have no long run. *)
Lemma short_runs_small l : (length l < 2048)%nat -> short_runs l.
Proof.
  intros Hl k. pose proof (length_drop l k). assert (length (drop k l) / 8 < 256)%nat.
  { apply Nat.Div0.div_lt_upper_bound. lia. }
  split; (etrans; [apply leading_words_le|lia]).
Qed.

(** ** The groups that are written *)

Lemma word_tag_unsigned w : length w = 8%nat -> byte.unsigned (byte.of_Z (word_tag w 0)) = word_tag w 0.
Proof. apply word_tag_byte. Qed.

Lemma word_tag_lookup w j b : w !! j = Some b -> Z.testbit (word_tag w 0) (Z.of_nat j) = negb (is_zero_byte b).
Proof. intros Hj. by rewrite word_tag_bit, Nat.sub_0_r, Hj. Qed.

Lemma word_tag_zero w : length w = 8%nat -> word_tag w 0 = 0 -> w = repeat Byte.x00 8 /\ nonzero w = [].
Proof.
  intros Hw Hz. assert (w = repeat Byte.x00 8) as ->; [|done].
  apply list_eq. intros j. destruct (w !! j) as [b|] eqn:Ej.
  - pose proof (lookup_lt_Some _ _ _ Ej) as Hj. rewrite Hw in Hj. apply word_tag_lookup in Ej. rewrite Hz, Z.bits_0 in Ej.
    change (repeat Byte.x00 8) with (replicate 8 Byte.x00). rewrite lookup_replicate_2 by done. f_equal.
    destruct (is_zero_byte b) eqn:Eb; [|done]. unfold is_zero_byte in Eb. apply Z.eqb_eq in Eb.
    by rewrite <- (byte.of_Z_unsigned b), Eb.
  - apply lookup_ge_None in Ej. symmetry. by apply lookup_ge_None_2; rewrite repeat_length; lia.
Qed.

Lemma nonzero_all w : (forall j b, w !! j = Some b -> is_zero_byte b = false) -> nonzero w = w.
Proof.
  induction w as [|b w IH]; intros Hb; [done|]. unfold nonzero. cbn [List.filter]. fold (nonzero w).
  rewrite (Hb 0%nat b eq_refl). cbn [negb]. f_equal. apply IH. intros j. apply (Hb (S j)).
Qed.
Lemma word_tag_full w : length w = 8%nat -> word_tag w 0 = 255 -> word_bytes w = Byte.xff :: w.
Proof.
  intros Hw Hf. unfold word_bytes. rewrite Hf, nonzero_all; [done|]. intros j b Ej.
  pose proof (lookup_lt_Some _ _ _ Ej) as Hj. rewrite Hw in Hj. apply word_tag_lookup in Ej. rewrite Hf in Ej.
  destruct (is_zero_byte b); [|done]. do 8 (destruct j as [|j]; [done|]). lia.
Qed.

Lemma word_group w : length w = 8%nat -> word_tag w 0 <> 0 -> word_tag w 0 <> 255 -> group (word_bytes w) w.
Proof.
  intros Hw H0 H1. constructor; rewrite ?word_tag_unsigned by done; try done.
  rewrite <- (app_nil_r (nonzero w)). by apply spec_word_tag.
Qed.

Lemma zeroes_group w k : length w = 8%nat -> word_tag w 0 = 0 -> (k <= 255)%nat ->
  group (word_bytes w ++ [byte.of_Z (wrap8 (Z.of_nat k))]) (w ++ repeat Byte.x00 (k * 8)).
Proof.
  intros Hw Hz Hk. destruct (word_tag_zero w Hw Hz) as [-> E]. unfold word_bytes. rewrite E, Hz.
  pose proof (group_zeroes (byte.of_Z (Z.of_nat k))) as Hg. rewrite run_byte in Hg by done.
  rewrite Nat.mul_add_distr_r, Nat.add_comm, repeat_app in Hg. unfold wrap8, wrap. rewrite Z.mod_small by lia. exact Hg.
Qed.

Lemma run_group w count run : length w = 8%nat -> word_tag w 0 = 255 ->
  length run = (Z.to_nat (byte.unsigned count) * 8)%nat -> group (word_bytes w ++ count :: run) (w ++ run).
Proof. intros Hw Hf Hr. rewrite word_tag_full by done. by constructor. Qed.

(** ** The invariant of [PackedWrite] *)

Section write.
Context {W : Type} `{AsyncWriteSpec W}.
(** The inner writer does not look ahead, and takes anything. *)
Hypothesis inner_any : forall w d x y, takes w d x -> takes w d y.

(** Within a group the bytes written do not unpack yet; [P] is what had been
    written before the group, and [c] what that stands for. *)
Definition written (s : PackedWrite W) (out d bs : list byte) : Prop :=
  exists P c, unpacks P c /\
  match w_stage s with
  | WStart => (w_buf_pos s < 8)%nat /\ out = P /\ d = c ++ take (w_buf_pos s) (w_buf s)
  | WriteWord => exists w, length w = 8%nat /\ packed_buf_size s = length (word_bytes w) /\
      take (packed_buf_size s) (packed_buf s) = word_bytes w /\ (w_buf_pos s < packed_buf_size s)%nat /\
      out = P ++ take (w_buf_pos s) (word_bytes w) /\ d = c ++ w
  | WriteRunWordCount => exists w k, length w = 8%nat /\ packed_buf s !! 0%nat = Some (byte.of_Z (word_tag w 0)) /\
      (word_tag w 0 = 0 \/ word_tag w 0 = 255) /\ out = P ++ word_bytes w /\ d = c ++ w /\
      run_bytes_remaining s = (k * 8)%nat /\ (k <= 255)%nat /\ (k * 8 <= length bs)%nat /\
      (word_tag w 0 = 0 -> take (k * 8) bs = repeat Byte.x00 (k * 8))
  | WriteUncompressedRun => exists w count sent, length w = 8%nat /\ word_tag w 0 = 255 /\
      (length sent + run_bytes_remaining s = Z.to_nat (byte.unsigned count) * 8)%nat /\
      out = P ++ word_bytes w ++ count :: sent /\ d = c ++ w ++ sent /\ (run_bytes_remaining s <= length bs)%nat
  end.

Definition packs (s : PackedWrite W) (d bs : list byte) : Prop :=
  length (w_buf s) = 8%nat /\ length (packed_buf s) = 9%nat /\ short_runs bs /\
  exists out, takes (w_inner s) out [] /\ written s out d bs.

(** Rounds before the call returns *)
Definition work (l : @WriteLoop W) : nat :=
  let s := wl_self l in
  32 * length (inbuf l) +
  match w_stage s with
  | WStart => 0
  | WriteWord => 4 + (packed_buf_size s - w_buf_pos s)
  | WriteRunWordCount => 3
  | WriteUncompressedRun => 2
  end.

(** A round accepts [k] bytes; it goes on with less to do, or returns what
    [poll_write] may return. *)
Definition write_result (d : list byte) (l l' : @WriteLoop W) (o : option (Poll nat)) : Prop :=
  exists k, (k <= length (inbuf l))%nat /\ inbuf l' = drop k (inbuf l) /\
    inbuf_bytes_consumed l' = (inbuf_bytes_consumed l + k)%nat /\
    packs (wl_self l') (d ++ take k (inbuf l)) (inbuf l') /\
  match o with
  | None => (work l' < work l)%nat /\ (write_patience (w_inner (wl_self l')) <= write_patience (w_inner (wl_self l)))%nat
  | Some Pending => inbuf_bytes_consumed l' = 0%nat /\
      (write_patience (w_inner (wl_self l')) < write_patience (w_inner (wl_self l)))%nat
  | Some (Ready n) => n = inbuf_bytes_consumed l' /\
      (write_patience (w_inner (wl_self l')) <= write_patience (w_inner (wl_self l)))%nat /\
      (inbuf l' = [] /\ w_stage (wl_self l') = WStart \/ (0 < n)%nat)
  end.

Lemma poll_inner_write_spec l out bs : takes (w_inner (wl_self l)) out [] ->
  exists p w, poll_inner_write bs l =
    (Ok p, {| wl_self := set_w_inner w (wl_self l); inbuf := inbuf l; inbuf_bytes_consumed := inbuf_bytes_consumed l |}) /\
  match p with
  | Pending => takes w out [] /\ (write_patience w < write_patience (w_inner (wl_self l)))%nat
  | Ready k => (k <= length bs)%nat /\ (bs <> [] -> 0 < k)%nat /\
      (write_patience w <= write_patience (w_inner (wl_self l)))%nat /\ takes w (out ++ take k bs) []
  end.
Proof.
  intros Ht. destruct (poll_write_spec _ _ bs (inner_any _ _ _ bs Ht)) as (p & w & E & Hp).
  exists p, w. split; [unfold poll_inner_write; by rewrite E|]. destruct p.
  - destruct Hp as [Hp ?]. split; [by eapply inner_any|done].
  - destruct Hp as (? & ? & ? & Hp). split_and!; try done. by eapply inner_any.
Qed.

(** Pending inside: nothing changes but the inner writer. *)
Lemma pend_spec d l w : packs (set_w_inner w (wl_self l)) d (inbuf l) ->
  (write_patience w < write_patience (w_inner (wl_self l)))%nat ->
  let l1 := {| wl_self := set_w_inner w (wl_self l); inbuf := inbuf l; inbuf_bytes_consumed := inbuf_bytes_consumed l |} in
  exists o l', pend l1 = (Ok o, l') /\ write_result d l l' o.
Proof.
  intros Hp Hm l1. unfold pend. rewrite (ST_bind_ok _ _ _ l1 l1) by done.
  assert (Hr : forall o, match o with
    | None => False
    | Some Pending => inbuf_bytes_consumed l = 0%nat
    | Some (Ready n) => n = inbuf_bytes_consumed l /\ (0 < n)%nat
    end -> write_result d l l1 o).
  { intros o Ho. exists 0%nat. cbn [inbuf inbuf_bytes_consumed wl_self l1 set_w_inner w_inner].
    rewrite take_0, drop_0, Nat.add_0_r, app_nil_r. split_and!; [lia|done|done|done|].
    destruct o as [[|n]|]; [split; [done|exact Hm]| |done]. destruct Ho. split; [done|]. split; [lia|by right]. }
  destruct (Nat.eqb_spec (inbuf_bytes_consumed l1) 0) as [E|E]; eexists _, _; (split; [reflexivity|]); apply Hr; [done|].
  split; [done|]. cbn in *. lia.
Qed.

Lemma wmodify_bind {B} f (k : unit -> ST (@WriteLoop W) B) l :
  bind (wmodify f) k l =
  k tt {| wl_self := f (wl_self l); inbuf := inbuf l; inbuf_bytes_consumed := inbuf_bytes_consumed l |}.
Proof. done. Qed.
Lemma take_in_bind {B} n (k : unit -> ST (@WriteLoop W) B) l : (n <= length (inbuf l))%nat ->
  bind (take_in n) k l =
  k tt {| wl_self := wl_self l; inbuf := drop n (inbuf l); inbuf_bytes_consumed := inbuf_bytes_consumed l + n |}.
Proof. intros Hn. apply ST_bind_ok. unfold take_in. by destruct (Nat.leb_spec n (length (inbuf l))); [|lia]. Qed.

(** A round that goes on, having accepted [k] bytes *)
Lemma write_goes_on d l k s' : (k <= length (inbuf l))%nat ->
  packs s' (d ++ take k (inbuf l)) (drop k (inbuf l)) ->
  (write_patience (w_inner s') <= write_patience (w_inner (wl_self l)))%nat ->
  let l' := {| wl_self := s'; inbuf := drop k (inbuf l); inbuf_bytes_consumed := inbuf_bytes_consumed l + k |} in
  (work l' < work l)%nat -> write_result d l l' None.
Proof. intros Hk Hp Hm l' Hw. exists k. by split_and!. Qed.

Lemma wstep_start_spec d l : packs (wl_self l) d (inbuf l) -> w_stage (wl_self l) = WStart ->
  exists o l', wstep_start l = (Ok o, l') /\ write_result d l l' o.
Proof.
  intros Hp Hst. pose proof Hp as (Hb & Hpk & Hs & out & Ht & P & c & Hu & Hi). rewrite Hst in Hi.
  destruct Hi as (Hpos & -> & ->). unfold wstep_start. rewrite (ST_bind_ok _ _ _ l l) by done. cbv zeta.
  destruct (Nat.eqb_spec (length (inbuf l)) 0) as [E0|E0].
  { eexists _, _. split; [reflexivity|]. exists 0%nat. rewrite take_0, drop_0, Nat.add_0_r, app_nil_r.
    split_and!; try done; try lia. left. split; [|done]. by apply nil_length_inv. }
  set (s := wl_self l) in *. destruct (Nat.leb_spec (w_buf_pos s) 8); [|lia].
  rewrite (lift_bind_ok _ _ _ _ eq_refl). set (k := Nat.min (8 - w_buf_pos s) (length (inbuf l))).
  assert (Hk : length (take k (inbuf l)) = k) by (rewrite length_take; lia).
  destruct (store_at_ok (w_buf s) (w_buf_pos s) (take k (inbuf l))) as (b & Eb & Hlb & Htb); [lia|].
  rewrite Hk in Htb. rewrite (lift_bind_ok _ _ _ _ Eb), take_in_bind, wmodify_bind by lia. cbn [wl_self inbuf inbuf_bytes_consumed].
  assert (Htakes : takes (w_inner s) P []) by done.
  destruct (Nat.eqb_spec (w_buf_pos s + k) 8) as [E8|E8].
  - destruct (pack_bytes_ok b (packed_buf s)) as (p1 & p2 & E1 & E2 & Hl2 & Ht2); [lia|done|].
    rewrite ST_bind_assoc, (lift_bind_ok _ _ _ _ E1), ST_bind_assoc, (lift_bind_ok _ _ _ _ E2), wmodify_bind.
    eexists _, _. split; [reflexivity|]. cbn [wl_self inbuf inbuf_bytes_consumed]. apply write_goes_on; [lia| |done|].
    + split; [cbn; lia|]. split; [done|]. split; [by apply short_runs_drop|]. exists P. split; [done|].
      exists P, c. split; [done|]. exists b. split_and!; try done; try lia.
      * cbn. lia.
      * cbn. by rewrite app_nil_r.
      * rewrite <- app_assoc. f_equal. rewrite <- Htb. rewrite E8. apply take_ge. lia.
    + unfold work. cbn -[Nat.mul]. fold s. rewrite ?Hst, length_drop. assert (length (nonzero b) <= 8)%nat; [|lia].
      rewrite <- Hb, <- Hlb. apply List.filter_length_le.
  - rewrite (ST_ret_bind tt). eexists _, _. split; [reflexivity|]. apply write_goes_on; [lia| |done|].
    + split; [cbn; lia|]. split; [done|]. split; [by apply short_runs_drop|]. exists P. split; [done|].
      exists P, c. split; [done|]. cbn. fold s. rewrite Hst. split_and!; [lia|done|]. by rewrite Htb, app_assoc.
    + unfold work. cbn -[Nat.mul]. fold s. rewrite ?Hst, length_drop. lia.
Qed.

Lemma slice_ok (b : list byte) lo hi : (lo <= hi)%nat -> (hi <= length b)%nat -> slice b lo hi = Ok (take (hi - lo) (drop lo b)).
Proof. intros H1 H2. unfold slice. by rewrite range_len_ok. Qed.

(** In [WriteWord], what is left of the word is offered. *)
Lemma word_rest (s : PackedWrite W) w : take (packed_buf_size s) (packed_buf s) = word_bytes w ->
  take (packed_buf_size s - w_buf_pos s) (drop (w_buf_pos s) (packed_buf s)) = drop (w_buf_pos s) (word_bytes w).
Proof. intros <-. by rewrite skipn_firstn_comm. Qed.

Lemma wstep_word_spec d l : packs (wl_self l) d (inbuf l) -> w_stage (wl_self l) = WriteWord ->
  exists o l', wstep_word l = (Ok o, l') /\ write_result d l l' o.
Proof.
  intros (Hb & Hpk & Hs & out & Ht & P & c & Hu & Hi) Hst. rewrite Hst in Hi.
  destruct Hi as (w & Hw & Hsz & Hpb & Hpos & -> & ->). unfold wstep_word. rewrite (ST_bind_ok _ _ _ l l) by done. cbv zeta.
  set (s := wl_self l) in *.
  assert (Hlw : (packed_buf_size s <= 9)%nat).
  { apply (f_equal length) in Hpb. rewrite length_take in Hpb. lia. }
  rewrite (lift_bind_ok _ _ _ _ (slice_ok (packed_buf s) (w_buf_pos s) (packed_buf_size s) ltac:(lia) ltac:(lia))), (word_rest s w Hpb).
  set (bs := drop (w_buf_pos s) (word_bytes w)).
  assert (Hbs : length bs = (packed_buf_size s - w_buf_pos s)%nat) by (unfold bs; rewrite length_drop; lia).
  destruct (poll_inner_write_spec l _ bs Ht) as (p & iw & E & Hp). rewrite (ST_bind_ok _ _ _ _ _ E). fold s. destruct p as [|n].
  { destruct Hp. apply pend_spec; [|done]. split; [done|]. split; [done|]. split; [done|].
    eexists. split; [done|]. exists P, c. split; [done|]. cbn. fold s. rewrite Hst. by exists w. }
  destruct Hp as (Hn & Hpn & Hm & Ht'). rewrite wmodify_bind. cbn [wl_self inbuf inbuf_bytes_consumed].
  assert (Hpn' : (0 < n)%nat) by (apply Hpn; intros E'; rewrite E' in Hbs; cbn in Hbs; lia).
  assert (Hout : (P ++ take (w_buf_pos s) (word_bytes w)) ++ take n bs = P ++ take (w_buf_pos s + n) (word_bytes w)).
  { unfold bs. by rewrite <- app_assoc, take_take_drop. }
  rewrite Hout in Ht'. destruct (Nat.eqb_spec (w_buf_pos s + n) (packed_buf_size s)) as [Ee|Ee].
  - rewrite take_ge in Ht' by lia.
    assert (Htag : packed_buf s !! 0%nat = Some (byte.of_Z (word_tag w 0))).
    { destruct (packed_buf s) as [|x q]; [done|]. destruct (packed_buf_size s); [lia|].
      unfold word_bytes in Hpb. cbn [take] in Hpb. by injection Hpb as ->. }
    rewrite ST_bind_assoc, (byte_at_bind _ _ _ _ _ Htag), word_tag_unsigned by done.
    assert (Hrun : forall k, (k <= 255)%nat -> (k * 8 <= length (inbuf l))%nat -> (word_tag w 0 = 0 \/ word_tag w 0 = 255) ->
      (word_tag w 0 = 0 -> take (k * 8) (inbuf l) = repeat Byte.x00 (k * 8)) ->
      exists o l', bind (wmodify (fun s => set_w_stage WriteRunWordCount (set_w_run (k * 8) s))) (fun _ => ret None)
        {| wl_self := set_w_pos (w_buf_pos s + n) (set_w_inner iw s); inbuf := inbuf l;
           inbuf_bytes_consumed := inbuf_bytes_consumed l |} = (Ok o, l') /\ write_result (c ++ w) l l' o).
    { intros k Hk Hkl Hk0 Hkz. rewrite wmodify_bind. eexists _, _. split; [reflexivity|].
      exists 0%nat. cbn [wl_self inbuf inbuf_bytes_consumed]. rewrite take_0, drop_0, Nat.add_0_r, app_nil_r. split_and!; try done; [lia| |].
      - split; [done|]. split; [done|]. split; [done|]. eexists. split; [exact Ht'|]. exists P, c. split; [done|].
        cbn. by exists w, k.
      - unfold work. cbn -[Nat.mul]. fold s. rewrite Hst. lia. }
    destruct (Z.eqb_spec (word_tag w 0) 0) as [E0|E0]; [|destruct (Z.eqb_spec (word_tag w 0) 255) as [E1|E1]].
    + destruct (leading_zero_run _ Hs) as (k & -> & Hk & Hkl & Hkz). apply Hrun; [done|done|by left|done].
    + destruct (leading_verbatim_run _ Hs) as (k & -> & Hk & Hkl). apply Hrun; [done|done|by right|done].
    + rewrite wmodify_bind. eexists _, _. split; [reflexivity|]. exists 0%nat.
      cbn [wl_self inbuf inbuf_bytes_consumed]. rewrite take_0, drop_0, Nat.add_0_r, app_nil_r. split_and!; try done; [lia| |].
      * split; [done|]. split; [done|]. split; [done|]. eexists. split; [exact Ht'|]. exists (P ++ word_bytes w), (c ++ w).
        split; [by apply unpacks_snoc, word_group|]. cbn. split; [lia|]. by rewrite app_nil_r.
      * unfold work. cbn -[Nat.mul]. fold s. rewrite Hst. lia.
  - rewrite (ST_ret_bind tt). eexists _, _. split; [reflexivity|]. exists 0%nat.
    cbn [wl_self inbuf inbuf_bytes_consumed]. rewrite take_0, drop_0, Nat.add_0_r, app_nil_r. split_and!; try done; [lia| |].
    + split; [done|]. split; [done|]. split; [done|]. eexists. split; [exact Ht'|]. exists P, c. split; [done|].
      cbn. fold s. rewrite Hst. exists w. split_and!; try done. cbn. lia.
    + unfold work. cbn -[Nat.mul]. fold s. rewrite Hst. lia.
Qed.

Lemma wstep_count_spec d l : packs (wl_self l) d (inbuf l) -> w_stage (wl_self l) = WriteRunWordCount ->
  exists o l', wstep_count l = (Ok o, l') /\ write_result d l l' o.
Proof.
  intros (Hb & Hpk & Hs & out & Ht & P & c & Hu & Hi) Hst. rewrite Hst in Hi.
  destruct Hi as (w & k & Hw & Htag & Hor & -> & -> & Hrun & Hk & Hkl & Hz). unfold wstep_count.
  rewrite (ST_bind_ok _ _ _ l l) by done. cbv zeta. set (s := wl_self l) in *.
  rewrite Hrun, Nat.div_mul by lia. set (count := byte.of_Z (wrap8 (Z.of_nat k))).
  assert (Hcount : Z.to_nat (byte.unsigned count) = k).
  { unfold count, wrap8, wrap. rewrite Z.mod_small by lia. by apply run_byte. }
  destruct (poll_inner_write_spec l _ [count] Ht) as (p & iw & E & Hp). rewrite (ST_bind_ok _ _ _ _ _ E). fold s. destruct p as [|n].
  { destruct Hp. apply pend_spec; [|done]. split; [done|]. split; [done|]. split; [done|].
    eexists. split; [done|]. exists P, c. split; [done|]. cbn. fold s. rewrite Hst. by exists w, k. }
  destruct Hp as (Hn & Hpn & Hm & Ht'). specialize (Hpn ltac:(done)). cbn [length] in Hn.
  assert (n = 1%nat) as -> by lia. cbn [take] in Ht'. rewrite <- app_assoc in Ht'.
  rewrite (byte_at_bind _ _ _ _ _ Htag), word_tag_unsigned by done.
  destruct (Z.eqb_spec (word_tag w 0) 0) as [E0|E0].
  - rewrite ST_bind_assoc, take_in_bind, wmodify_bind by done. eexists _, _. split; [reflexivity|].
    cbn [wl_self inbuf inbuf_bytes_consumed]. apply write_goes_on; [done| |done|].
    + split; [done|]. split; [done|]. split; [by apply short_runs_drop|]. eexists. split; [exact Ht'|].
      rewrite (Hz E0). exists (P ++ word_bytes w ++ [count]), ((c ++ w) ++ repeat Byte.x00 (k * 8)).
      split; [rewrite <- app_assoc; by apply unpacks_snoc, zeroes_group|]. cbn. split; [lia|]. by rewrite app_nil_r.
    + unfold work. cbn -[Nat.mul]. fold s. rewrite Hst, length_drop. lia.
  - rewrite wmodify_bind. eexists _, _. split; [reflexivity|]. exists 0%nat.
    cbn [wl_self inbuf inbuf_bytes_consumed]. rewrite take_0, drop_0, Nat.add_0_r, app_nil_r. split_and!; try done; [lia| |].
    + split; [done|]. split; [done|]. split; [done|]. eexists. split; [exact Ht'|]. exists P, c. split; [done|].
      cbn. exists w, count, []. fold s. rewrite Hcount, Hrun. destruct Hor; [done|]. split_and!; try done. by rewrite app_nil_r.
    + unfold work. cbn -[Nat.mul]. fold s. rewrite Hst. lia.
Qed.

Lemma wstep_run_spec d l : packs (wl_self l) d (inbuf l) -> w_stage (wl_self l) = WriteUncompressedRun ->
  exists o l', wstep_run l = (Ok o, l') /\ write_result d l l' o.
Proof.
  intros (Hb & Hpk & Hs & out & Ht & P & c & Hu & Hi) Hst. rewrite Hst in Hi.
  destruct Hi as (w & count & sent & Hw & Hf & Hlen & -> & -> & Hr). unfold wstep_run.
  rewrite (ST_bind_ok _ _ _ l l) by done. cbv zeta. set (s := wl_self l) in *.
  rewrite (lift_bind_ok _ _ _ _ (slice_ok _ _ _ (Nat.le_0_l _) Hr)), drop_0, Nat.sub_0_r.
  set (bs := take (run_bytes_remaining s) (inbuf l)).
  assert (Hbs : length bs = run_bytes_remaining s) by (unfold bs; rewrite length_take; lia).
  destruct (poll_inner_write_spec l _ bs Ht) as (p & iw & E & Hp). rewrite (ST_bind_ok _ _ _ _ _ E). fold s. destruct p as [|n].
  { destruct Hp. apply pend_spec; [|done]. split; [done|]. split; [done|]. split; [done|].
    eexists. split; [done|]. exists P, c. split; [done|]. cbn. fold s. rewrite Hst. by exists w, count, sent. }
  destruct Hp as (Hn & Hpn & Hm & Ht'). rewrite Hbs in Hn.
  assert (Htk : take n bs = take n (inbuf l)) by (unfold bs; rewrite take_take; f_equal; lia).
  rewrite Htk, <- !app_assoc in Ht'. cbn [app] in Ht'.
  rewrite take_in_bind by (cbn [inbuf]; lia). cbn [wl_self inbuf inbuf_bytes_consumed].
  assert (Hln : length (take n (inbuf l)) = n) by (rewrite length_take; lia).
  destruct (Nat.ltb_spec n (run_bytes_remaining s)).
  - rewrite wmodify_bind. eexists _, _. split; [reflexivity|]. cbn [wl_self inbuf inbuf_bytes_consumed].
    assert (0 < n)%nat. { apply Hpn. intros E'. rewrite E' in Hbs. cbn in Hbs. lia. }
    apply write_goes_on; [lia| |done|].
    + split; [done|]. split; [done|]. split; [by apply short_runs_drop|]. eexists. split; [exact Ht'|].
      exists P, c. split; [done|]. cbn. fold s. rewrite Hst. exists w, count, (sent ++ take n (inbuf l)).
      rewrite length_app, Hln, length_drop. split_and!; try done; [lia| |lia]. by rewrite !app_assoc.
    + unfold work. cbn -[Nat.mul]. fold s. rewrite Hst, length_drop. lia.
  - rewrite wmodify_bind. eexists _, _. split; [reflexivity|]. cbn [wl_self inbuf inbuf_bytes_consumed].
    apply write_goes_on; [lia| |done|].
    + split; [done|]. split; [done|]. split; [by apply short_runs_drop|]. eexists. split; [exact Ht'|].
      exists (P ++ word_bytes w ++ count :: sent ++ take n (inbuf l)), (c ++ w ++ sent ++ take n (inbuf l)).
      split; [apply unpacks_snoc; [done|]; apply run_group; [done|done|rewrite length_app; lia]|].
      cbn. split; [lia|]. split; [done|]. by rewrite app_nil_r, <- !app_assoc.
    + unfold work. cbn -[Nat.mul]. fold s. rewrite Hst, length_drop. lia.
Qed.

Lemma write_round_spec d l : packs (wl_self l) d (inbuf l) ->
  exists o l', write_round l = (Ok o, l') /\ write_result d l l' o.
Proof.
  intros Hp. unfold write_round. rewrite (ST_bind_ok _ _ _ l l) by done. destruct (w_stage (wl_self l)) eqn:Hst.
  - by apply wstep_start_spec.
  - by apply wstep_word_spec.
  - by apply wstep_count_spec.
  - by apply wstep_run_spec.
Qed.

Lemma write_rounds_spec fuel : forall d l, packs (wl_self l) d (inbuf l) -> (work l < fuel)%nat ->
  exists o l', write_rounds fuel l = (Ok o, l') /\ write_result d l l' (Some o).
Proof.
  induction fuel as [|fuel IH]; intros d l Hp Hf; [lia|]. cbn [write_rounds].
  destruct (write_round_spec d l Hp) as (o & l1 & E & k & Hk & Hin & Hcons & Hp1 & Ho). rewrite (ST_bind_ok _ _ _ _ _ E).
  destruct o as [o|]; [exists o, l1; split; [done|]; by exists k|]. destruct Ho as [Hw Hm].
  destruct (IH _ l1 Hp1) as (o & l2 & E2 & k2 & Hk2 & Hin2 & Hcons2 & Hp2 & Ho); [lia|].
  exists o, l2. split; [done|]. rewrite Hin, length_drop in Hk2. exists (k + k2)%nat. split; [lia|].
  rewrite Hin2, Hin, drop_drop. split; [done|]. split; [lia|]. split.
  - by rewrite Hin2, Hin, drop_drop, <- app_assoc, take_take_drop in Hp2.
  - destruct o as [|n].
    + destruct Ho. split; [done|lia].
    + destruct Ho as (? & ? & ?). split; [done|]. split; [lia|]. by rewrite <- drop_drop, <- Hin, <- Hin2.
Qed.

Lemma word_bytes_length w : length w = 8%nat -> (length (word_bytes w) <= 9)%nat.
Proof. intros Hw. cbn. rewrite <- Hw at 1. pose proof (List.filter_length_le (fun b => negb (is_zero_byte b)) w). unfold nonzero. lia. Qed.

Lemma work_bound s d bs : packs s d bs ->
  (work {| wl_self := s; inbuf := bs; inbuf_bytes_consumed := 0 |} < 32 * S (length bs))%nat.
Proof.
  intros (_ & Hpk & _ & out & _ & P & c & _ & Hi). unfold work. cbn -[Nat.mul]. destruct (w_stage s); try lia.
  destruct Hi as (w & Hw & Hsz & _). pose proof (word_bytes_length w). lia.
Qed.

(** [poll_write] is lawful. *)
Lemma poll_write_aux_spec s d bs : packs s d bs ->
  exists p s', poll_write_aux bs s = (Ok p, s') /\
  match p with
  | Pending => packs s' d bs /\ (write_patience (w_inner s') < write_patience (w_inner s))%nat
  | Ready n => (n <= length bs)%nat /\ (bs <> [] -> 0 < n)%nat /\
      (write_patience (w_inner s') <= write_patience (w_inner s))%nat /\
      packs s' (d ++ take n bs) (drop n bs) /\ (bs = [] -> w_stage s' = WStart)
  end.
Proof.
  intros Hp. set (l := {| wl_self := s; inbuf := bs; inbuf_bytes_consumed := 0 |}).
  destruct (write_rounds_spec (32 * S (length bs)) d l Hp (work_bound s d bs Hp)) as (p & l' & E & k & Hk & Hin & Hcons & Hp' & Ho).
  exists p, (wl_self l'). split; [unfold poll_write_aux; fold l; by rewrite E|].
  cbn [l wl_self inbuf inbuf_bytes_consumed Nat.add] in *. rewrite Hin in *. destruct p as [|n].
  - destruct Ho as [H0' Hm]. assert (k = 0%nat) as -> by lia. rewrite take_0, drop_0, app_nil_r in Hp'. done.
  - destruct Ho as (-> & Hm & Hor). rewrite Hcons in *. split_and!; try done.
    + intros Hne. destruct Hor as [[Hnil _]|]; [|done]. apply (f_equal length) in Hnil. rewrite length_drop in Hnil.
      cbn [length] in Hnil. assert (length bs <> 0%nat); [|lia]. by destruct bs.
    + intros ->. cbn [length] in Hk. destruct Hor as [[_ ?]|]; [done|lia].
Qed.

Definition settled (s : PackedWrite W) : Prop := w_stage s = WStart \/ w_stage s = WriteUncompressedRun.

Lemma finish_writes_spec s d : packs s d [] ->
  exists p s', finish_pending_writes s = (Ok p, s') /\ packs s' d [] /\
  match p with
  | Pending => (write_patience (w_inner s') < write_patience (w_inner s))%nat
  | Ready _ => settled s' /\ (write_patience (w_inner s') <= write_patience (w_inner s))%nat
  end.
Proof.
  intros Hp. unfold finish_pending_writes. cbn [finish_rounds]. rewrite (ST_bind_ok _ _ _ s s) by done.
  assert (Hpoll : exists p s', bind (poll_write_aux []) (fun r => match r with Pending => ret Pending | Ready _ =>
      bind get_state (fun s => match w_stage s with
        | WriteWord | WriteRunWordCount => bind (poll_write_aux []) (fun r => match r with Pending => ret Pending | Ready _ => lift OutOfFuel end)
        | _ => ret (Ready tt) end) end) s = (Ok p, s') /\ packs s' d [] /\
      match p with
      | Pending => (write_patience (w_inner s') < write_patience (w_inner s))%nat
      | Ready _ => settled s' /\ (write_patience (w_inner s') <= write_patience (w_inner s))%nat
      end).
  { destruct (poll_write_aux_spec s d [] Hp) as (p & s' & E & Ho). rewrite (ST_bind_ok _ _ _ _ _ E). destruct p as [|n].
    - by exists Pending, s'.
    - destruct Ho as (Hn & _ & Hm & Hp' & Hst). specialize (Hst eq_refl). rewrite (ST_bind_ok _ _ _ s' s') by done. rewrite Hst.
      exists (Ready tt), s'. rewrite take_nil, drop_nil, app_nil_r in Hp'. split_and!; try done. by left. }
  destruct (w_stage s) eqn:Hst; try exact Hpoll; exists (Ready tt), s; split_and!; try done; [by left|by right].
Qed.

(** Once nothing is pending, the inner writer has a packed stream of the whole
    words that were accepted; the bytes of a last word that is not complete
    are still in [buf]. *)
Lemma settled_unpacks s d : packs s d [] -> settled s ->
  exists out, takes (w_inner s) out [] /\ unpacks out (whole_words d).
Proof.
  intros (Hb & _ & _ & out & Ht & P & c & Hu & Hi) Hst. exists out. split; [done|].
  destruct Hst as [Hst|Hst]; rewrite Hst in Hi.
  - destruct Hi as (Hpos & -> & ->).
    rewrite whole_words_app; [done|exact (unpacks_aligned _ _ Hu)|]. rewrite length_take. lia.
  - destruct Hi as (w & count & sent & Hw & Hf & Hlen & -> & -> & Hr). cbn [length] in Hr.
    pose proof (unpacks_snoc _ _ _ _ Hu (run_group w count sent Hw Hf ltac:(lia))) as Hg.
    rewrite whole_words_aligned; [exact Hg|exact (unpacks_aligned _ _ Hg)].
Qed.

(** [PackedWrite] over such a writer is a lawful writer. *)
#[export] Instance packed_write_spec : AsyncWriteSpec (PackedWrite W).
Proof.
  refine {| takes := packs; writable := short_runs; write_patience := fun s => write_patience (w_inner s) |}.
  - intros s d bs (Hb & Hpk & _ & out & Ht & P & c & Hu & Hi) Hs. split; [done|]. split; [done|]. split; [done|].
    exists out. split; [done|]. exists P, c. split; [done|]. destruct (w_stage s); try done.
    + destruct Hi as (w & k & ? & ? & ? & ? & ? & ? & ? & Hk & _). cbn [length] in Hk.
      assert (k = 0%nat) as -> by lia. exists w, 0%nat. split_and!; try done. lia.
    + destruct Hi as (w & count & sent & ? & ? & ? & ? & ? & Hr). cbn [length] in Hr.
      exists w, count, sent. split_and!; try done. lia.
  - intros s d bs Hp. destruct (poll_write_aux_spec s d bs Hp) as (p & s' & E & Ho). exists p, s'. split; [exact E|].
    destruct p as [|n]; [done|]. by destruct Ho as (? & ? & ? & ? & _).
  - intros s d Hp. unfold poll_flush, PackedWrite_async, packed_poll_flush.
    destruct (finish_writes_spec s d Hp) as (p & s1 & E & Hp1 & Ho). rewrite (ST_bind_ok _ _ _ _ _ E). destruct p as [|[]].
    { by exists Pending, s1. }
    destruct Ho as [_ Hm]. pose proof Hp1 as (Hb & Hpk & Hs & out & Ht & Hwr).
    destruct (poll_flush_spec _ _ Ht) as (p & w & Ef & Ht' & Hpf). exists p, (set_w_inner w s1).
    split; [unfold poll_write_inner; by rewrite Ef|]. split; [|destruct p; cbn; lia].
    split; [done|]. split; [done|]. split; [done|]. by exists out.
Defined.

Lemma packed_write_new w : takes w [] [] -> takes (PackedWrite_new w) [] [].
Proof.
  intros Ht. split; [done|]. split; [done|]. split; [by apply short_runs_small; simpl; lia|].
  exists []. split; [done|]. exists [], []. split; [constructor|]. cbn. split; [lia|done].
Qed.
End write.
