(* ===== verification/AsyncSerialize.v ===== *)
(** * Asynchronous framing: capnp-futures/src/serialize.rs and the functions at
    the end of capnp-futures/src/serialize_packed.rs

    The crate has its own copy of the framing code, over futures.  An [async
    fn] runs its body in order, and each [.await] in it is one of the helpers
    of [AsyncReadExt] and [AsyncWriteExt]; so the bodies are state monad code
    over these classes.  [SegmentLengthsBuilder], [OwnedSegments] and the loop
    over the lengths are those of the synchronous crate ([Serialize]).
    [Error::failed] is the error [Failed]. *)

From S2P Require Import Prelude.
From S2P Require Import ReadLimiter.
From S2P Require Import Segments.
From S2P Require Import Serialize.
From S2P Require Import AsyncIo.
From S2P Require Import AsyncPacked.
(** ** Reading *)

Definition parse_segment_table_first (buf : list byte) : outcome (Z * Z) :=
  count1 ← from_le_bytes buf 0;
  let segment_count := wrap32 (count1 + 1) in
  if 512 <=? segment_count then Err Failed
  else if segment_count =? 0 then Err Failed
  else first_segment_len ← from_le_bytes buf 4; Ok (segment_count, first_segment_len).

Section read.
Context {R : Type} `{AsyncReadExt R}.

(** The block that fills [buf]; [None] at the end of the stream *)
Definition async_first_word : ST R (option (list byte)) :=
  bs ← async_read 8;
  if (length bs =? 0)%nat then ret None
  else if (length bs <? 8)%nat then
    rest ← async_read_exact (8 - length bs); ret (Some (bs ++ rest))
  else ret (Some bs).

Definition async_check_limit (options : ReaderOptions) (words : Z) : outcome unit :=
  match traversal_limit_in_words options with
  | Some limit => if limit <? words then Err Failed else Ok tt
  | None => Ok tt
  end.

Definition async_read_segment_table (options : ReaderOptions) : ST R (option SegmentLengthsBuilder) :=
  first ← async_first_word;
  match first with
  | None => ret None
  | Some buf =>
      '(segment_count, first_segment_length) ← lift (parse_segment_table_first buf);
      b ← lift (try_push_segment first_segment_length SegmentLengthsBuilder_with_capacity);
      b ← (if 1 <? segment_count then
             let n := Z.to_nat (segment_count - 1) in
             if segment_count <? 4 then
               buf ← async_read_exact 8;
               stateless (push_lengths buf n b)
             else
               segment_sizes ← async_read_exact (Z.to_nat (Z.ldiff segment_count 1 * 4));
               stateless (push_lengths segment_sizes n b)
           else ret b);
      lift (async_check_limit options (total_words b)) ;;
      ret (Some b)
  end.

Definition async_read_segments (owned : OwnedSegments) (options : ReaderOptions) :
    ST R (Reader OwnedSegments) :=
  bytes ← async_read_exact (length (owned_space owned));
  ret (Reader_new {| owned_indices := owned_indices owned; owned_space := bytes |} options).

Definition async_try_read_message (options : ReaderOptions) : ST R (option (Reader OwnedSegments)) :=
  t ← async_read_segment_table options;
  match t with
  | None => ret None
  | Some b => m ← async_read_segments (into_owned_segments b) options; ret (Some m)
  end.

Definition async_read_message (options : ReaderOptions) : ST R (Reader OwnedSegments) :=
  t ← async_try_read_message options;
  match t with Some s => ret s | None => fails Failed end.
End read.

(** ** Writing *)

(** [OutputSegments] as the list of its slices *)
Class AsOutputSegments (M : Type) := as_output_segments : M -> list (list byte).
#[export] Instance segments_as_output : AsOutputSegments (list (list byte)) := fun l => l.

Definition segment_len_le (segments : list (list byte)) (idx : Z) : outcome (list byte) :=
  segment ← unwrap (segments !! Z.to_nat idx);
  Ok (to_le_bytes (wrap32 (Z.of_nat (length segment) / 8))).

(** [for idx in 1..segment_count] *)
Definition async_put_lengths (segments : list (list byte)) (segment_count : Z) (buf : list byte) :
    outcome (list byte) :=
  fst (fold_range (Z.to_nat (segment_count - 1)) 1 buf
    (fun idx buf => bs ← lift (segment_len_le segments idx);
                    lift (copy_from_slice buf ((idx - 1) * 4) bs)) tt).

Section write.
Context {W : Type} `{AsyncWriteExt W}.

Definition async_write_segment_table (segments : list (list byte)) : ST W unit :=
  let segment_count := Z.of_nat (length segments) in
  count1 ← lift (usub (wrap32 segment_count) 1);
  buf ← lift (copy_from_slice (zeros 8) 0 (to_le_bytes count1));
  len0 ← lift (segment_len_le segments 0);
  buf ← lift (copy_from_slice buf 4 len0);
  async_write_all buf ;;
  if 1 <? segment_count then
    if segment_count <? 4 then
      buf ← lift (async_put_lengths segments segment_count buf);
      buf ← (if segment_count =? 2 then lift (copy_from_slice buf 4 (zeros 4)) else ret buf);
      async_write_all buf
    else
      buf ← lift (async_put_lengths segments segment_count (zeros (Z.ldiff segment_count 1 * 4)));
      buf ← (if segment_count mod 2 =? 0
             then
               start_idx ← lift (usub (Z.of_nat (length buf)) 4);
               lift (copy_from_slice buf start_idx (zeros 4))
             else ret buf);
      async_write_all buf
  else ret tt.

Fixpoint async_write_segments (segments : list (list byte)) : ST W unit :=
  match segments with
  | [] => ret tt
  | segment :: segments => async_write_all segment ;; async_write_segments segments
  end.

Definition async_write_message {M} `{AsOutputSegments M} (message : M) : ST W unit :=
  let segments := as_output_segments message in
  async_write_segment_table segments ;;
  async_write_segments segments.
End write.

(** ** Packed messages *)

Section packed.
Context {R : Type} `{AsyncReadExt (PackedRead R)}.

Definition async_packed_try_read_message (options : ReaderOptions) : ST R (option (Reader OwnedSegments)) := fun r =>
  let '(o, p) := async_try_read_message options (PackedRead_new r) in (o, inner p).

Definition async_packed_read_message (options : ReaderOptions) : ST R (Reader OwnedSegments) :=
  t ← async_packed_try_read_message options;
  match t with Some s => ret s | None => fails Failed end.

(** [FinishPendingWrites::poll]; [polls] bounds how often the executor polls
    it. *)
Context {W : Type} `{AsyncWrite W} `{AsyncWriteExt (PackedWrite W)}.

Definition FinishPendingWrites_poll : ST (PackedWrite W) (Poll unit) := finish_pending_writes.

Definition async_packed_write_message {M} `{AsOutputSegments M} (polls : nat) (message : M) : ST W unit := fun w =>
  let '(o, p) := (async_write_message message ;; await polls FinishPendingWrites_poll) (PackedWrite_new w) in
  (o, w_inner p).
End packed.
