(* ===== verification/AsyncSerializeOk.v ===== *)
(** * The asynchronous framing does what the synchronous framing does

    Reading: over any lawful reader, whatever pieces its bytes arrive in, the
    result is that of the synchronous code on the bytes as a slice, and the
    same bytes are left; only the kind of an error differs.  Writing: the same
    buffers are written in the same order. *)

From S2P Require Import Prelude.
From S2P Require Import Io.
From S2P Require Import Packed.
From S2P Require Import PackedSpec.
From S2P Require Import ReadLimiter.
From S2P Require Import Segments.
From S2P Require Import Serialize.
From S2P Require Import SerializeSpec.
From S2P Require Import SerializeSpec.
From S2P Require Import AsyncIo.
From S2P Require Import AsyncPacked.
From S2P Require Import AsyncSerialize.
(** ** Slices as readers *)

Lemma slice_read_exact n (s : list byte) :
  read_exact n s = if (n <=? length s)%nat then (Ok (take n s), drop n s) else (Err FailedToFillTheWholeBuffer, []).
Proof.
  unfold read_exact. destruct (Nat.eqb_spec n 0) as [->|Hn]; [by rewrite drop_0|].
  cbn [read_exact_loop]. destruct (Nat.eqb_spec n 0); [done|].
  rewrite (ST_bind_ok _ _ s (take n s) (drop n s)) by done. rewrite length_take.
  destruct (Nat.eqb_spec (Nat.min n (length s)) 0) as [E|E].
  - destruct (Nat.leb_spec n (length s)); [lia|]. rewrite drop_ge by lia. done.
  - cbn [app]. destruct (Nat.leb_spec n (length s)) as [Hle|Hle].
    + rewrite Nat.min_l, Nat.sub_diag by done. destruct n; [done|]. done.
    + rewrite Nat.min_r, (drop_ge s) by lia. destruct n as [|n]; [lia|]. cbn [read_exact_loop].
      destruct (Nat.eqb_spec (S n - length s) 0); [lia|].
      rewrite (ST_bind_ok _ _ [] [] []); [done|]. unfold read, slice_read. by rewrite take_nil, drop_nil.
Qed.

(** ** Reading *)

Section read.
Context {R : Type} `{AsyncReadExtSpec R}.

(** [r] has the bytes [c] left, and is at a word boundary of its stream. *)
Definition at_word (r : R) (c : list byte) : Prop := sends r c /\ (length c mod granule (R:=R) = 0)%nat.

(** The asynchronous run [x] ends as the synchronous run [y] does. *)
Definition agrees {A} (x : outcome A * R) (y : outcome A * list byte) : Prop :=
  match fst y with
  | Ok a => fst x = Ok a /\ at_word (snd x) (snd y)
  | Err _ => exists e, fst x = Err e
  | o => fst x = o
  end.

Lemma agrees_bind {A B} (f : ST R A) (g : ST (list byte) A) (k : A -> ST R B) (k' : A -> ST (list byte) B) r c :
  agrees (f r) (g c) -> (forall a r c, at_word r c -> agrees (k a r) (k' a c)) ->
  agrees (bind f k r) (bind g k' c).
Proof.
  unfold agrees, bind. cbn [ST_monad]. destruct (f r) as [o r1], (g c) as [o' c1]. cbn [fst snd].
  intros Hf Hk. destruct o' as [a|e'| | |].
  - destruct Hf as [-> Hw]. by apply Hk.
  - destruct Hf as [e ->]. by exists e.
  - by subst o.
  - by subst o.
  - by subst o.
Qed.

Lemma agrees_ret {A} (a : A) r c : at_word r c -> agrees (ret a r) (ret a c).
Proof. by split. Qed.
Lemma agrees_lift {A} (o : outcome A) r c : at_word r c -> agrees (lift o r) (lift o c).
Proof. intros Hw. unfold agrees, lift. destruct o; cbn; try done. by eexists. Qed.
Lemma agrees_stateless {A} (f : ST unit A) r c : at_word r c -> agrees (stateless f r) (stateless f c).
Proof. apply agrees_lift. Qed.
(** Errors of the same place but of another kind *)
Lemma agrees_error {A} (o o' : outcome A) r c : at_word r c -> (o = o' \/ exists e e', o = Err e /\ o' = Err e') ->
  agrees (lift o r) (lift o' c).
Proof. intros Hw [->|(e & e' & -> & ->)]; [by apply agrees_lift|by eexists]. Qed.

Lemma granule_multiple n : (n mod 8 = 0)%nat -> (n mod granule (R:=R) = 0)%nat.
Proof.
  intros Hn. pose proof granule_word. pose proof (Nat.Div0.div_mod n 8). pose proof (Nat.Div0.div_mod 8 (granule (R:=R))).
  replace n with ((8 / granule (R:=R) * (n / 8)) * granule (R:=R))%nat by nia. apply Nat.Div0.mod_mul.
Qed.

Lemma at_word_drop n (c : list byte) : (length c mod granule (R:=R) = 0)%nat -> (n mod 8 = 0)%nat ->
  (n <= length c)%nat -> (length (drop n c) mod granule (R:=R) = 0)%nat.
Proof.
  intros Hc Hn Hl. pose proof (granule_multiple n Hn) as Hg.
  rewrite <- (take_drop n c), length_app, length_take, Nat.min_l, Nat.Div0.add_mod, Hg, Nat.add_0_l, Nat.Div0.mod_mod in Hc by done.
  done.
Qed.

Lemma read_exact_agrees n r c : at_word r c -> (n mod 8 = 0)%nat -> agrees (async_read_exact n r) (read_exact n c).
Proof.
  intros [Hs Hc] Hn. pose proof (granule_multiple n Hn) as Hg. rewrite slice_read_exact.
  destruct (Nat.leb_spec n (length c)) as [Hl|Hl].
  - destruct (async_read_exact_spec r c n Hs ltac:(lia) Hl) as (r' & -> & Hs'). split; [done|]. split; [done|].
    by apply at_word_drop.
  - destruct (async_read_exact_eof r c n Hs ltac:(lia) Hl) as (r' & ->). by eexists.
Qed.

Lemma first_word_agrees r c : at_word r c -> agrees (async_first_word r) (read_first_word c).
Proof.
  intros [Hs Hc]. pose proof (granule_word (R:=R)) as Hg.
  destruct (async_read_spec r c 8 Hs ltac:(lia) ltac:(lia)) as (bs & r1 & c1 & E & Hl & Hnil & -> & Hs1).
  unfold async_first_word, read_first_word. rewrite (ST_bind_ok _ _ _ _ _ E).
  rewrite (ST_bind_ok _ _ (bs ++ c1) (take 8 (bs ++ c1)) (drop 8 (bs ++ c1))) by done.
  destruct (Nat.eqb_spec (length bs) 0) as [E0|E0].
  { apply nil_length_inv in E0. subst bs. specialize (Hnil eq_refl). cbn [app] in *. subst c1. by split. }
  assert (Hcong : ((8 - length bs) mod granule (R:=R) = length c1 mod granule (R:=R))%nat).
  { apply congruent_rest; [congruence|done|apply granule_pos]. }
  rewrite length_take, length_app.
  destruct (Nat.eqb_spec (Nat.min 8 (length bs + length c1)) 0); [lia|].
  destruct (Nat.ltb_spec (length bs) 8) as [H8|H8].
  - destruct (Nat.leb_spec (8 - length bs) (length c1)) as [Hle|Hle].
    + destruct (async_read_exact_spec r1 c1 (8 - length bs)%nat Hs1 Hcong Hle) as (r2 & E2 & Hs2).
      rewrite (ST_bind_ok _ _ _ _ _ E2). destruct (Nat.ltb_spec (Nat.min 8 (length bs + length c1)) 8); [lia|].
      assert (Ht : take 8 (bs ++ c1) = bs ++ take (8 - length bs) c1) by by rewrite take_app, (take_ge bs) by lia.
      rewrite <- Ht. split; [done|]. cbn [snd ret ST_monad].
      split; [by rewrite drop_app, (drop_ge bs) by lia|]. apply at_word_drop; [done|done|rewrite length_app; lia].
    + destruct (async_read_exact_eof r1 c1 (8 - length bs)%nat Hs1 Hcong Hle) as (r2 & E2).
      destruct (Nat.ltb_spec (Nat.min 8 (length bs + length c1)) 8); [|lia].
      unfold bind at 1 2. cbn [ST_monad]. rewrite E2, slice_read_exact, length_drop, length_app.
      destruct (Nat.leb_spec (8 - Nat.min 8 (length bs + length c1)) (length bs + length c1 - 8)); [lia|]. by eexists.
  - destruct (Nat.ltb_spec (Nat.min 8 (length bs + length c1)) 8); [lia|].
    rewrite take_app_length', drop_app_length' by lia. split; [done|]. split; [done|].
    rewrite length_app, Nat.Div0.add_mod in Hc. replace (length bs) with 8%nat in Hc by lia.
    by rewrite Hg, Nat.add_0_l, Nat.Div0.mod_mod in Hc.
Qed.

Lemma agrees_bind_lift {A B} (o : outcome A) (k : A -> ST R B) (k' : A -> ST (list byte) B) r c :
  at_word r c -> (forall a, o = Ok a -> agrees (k a r) (k' a c)) -> agrees (bind (lift o) k r) (bind (lift o) k' c).
Proof. intros Hw Hk. unfold agrees, bind, lift. cbn [ST_monad fst]. destruct o; try done; [by apply Hk|by eexists]. Qed.

Lemma lengths_agree n sizes b r c : (n mod 8 = 0)%nat -> at_word r c ->
  agrees (bind (async_read_exact n) (fun buf => stateless (push_lengths buf sizes b)) r)
         (bind (read_exact n) (fun buf => stateless (push_lengths buf sizes b)) c).
Proof. intros Hn Hw. apply agrees_bind; [by apply read_exact_agrees|]. intros a r' c' Hw'. by apply agrees_stateless. Qed.

Lemma table_size_words sc : 0 <= sc -> (Z.to_nat (Z.ldiff sc 1 * 4) mod 8 = 0)%nat.
Proof.
  intros Hsc. rewrite ldiff_1 by done. replace (Z.to_nat (2 * (sc / 2) * 4)) with (Z.to_nat (sc / 2) * 8)%nat.
  - apply Nat.Div0.mod_mul.
  - pose proof (Z.div_pos sc 2). lia.
Qed.

Lemma read_table_agrees options r c : at_word r c ->
  agrees (async_read_segment_table options r) (read_segment_table options c).
Proof.
  intros Hw. apply agrees_bind; [by apply first_word_agrees|]. clear r c Hw. intros [buf|] r c Hw; [|by apply agrees_ret].
  unfold parse_segment_table_first. destruct (from_le_bytes buf 0) as [count1|e| | |]; [|by eexists|done..].
  rewrite (lift_bind_ok (Ok count1) _ c count1) by done. cbn [bind outcome_monad]. cbv zeta.
  set (sc := wrap32 (count1 + 1)). unfold SEGMENTS_COUNT_LIMIT.
  destruct (512 <=? sc); [by eexists|]. destruct (sc =? 0); [by eexists|]. cbn [orb].
  destruct (from_le_bytes buf 4) as [len0|e| | |]; [|by eexists|done..].
  cbn [bind outcome_monad]. rewrite (lift_bind_ok (Ok (sc, len0)) _ r (sc, len0)), (lift_bind_ok (Ok len0) _ c len0) by done.
  apply agrees_bind_lift; [done|]. intros b _. apply agrees_bind.
  - destruct (1 <? sc); [|by apply agrees_ret]. cbv zeta. destruct (sc <? 4); apply lengths_agree; try done.
    apply table_size_words. apply wrap32_range.
  - clear r c Hw b. intros b r c Hw. unfold async_check_limit, check_traversal_limit.
    destruct (traversal_limit_in_words options) as [v|]; [destruct (v <? total_words b); [by eexists|]|];
      by apply agrees_bind_lift, (fun _ _ => agrees_ret _ r c Hw).
Qed.

Lemma read_segments_agrees b options r c : at_word r c ->
  agrees (async_read_segments (into_owned_segments b) options r) (read_segments (into_owned_segments b) options c).
Proof.
  intros Hw. apply agrees_bind; [|intros bytes r' c' Hw'; by apply agrees_ret].
  apply read_exact_agrees; [done|]. cbn [into_owned_segments owned_space]. rewrite length_zeros.
  destruct (Z.le_gt_cases 0 (total_words b)).
  - rewrite Z2Nat.inj_mul by lia. change (Z.to_nat 8) with 8%nat. rewrite Nat.mul_comm. apply Nat.Div0.mod_mul.
  - replace (Z.to_nat (8 * total_words b)) with 0%nat by lia. done.
Qed.

Lemma try_read_agrees options r c : at_word r c ->
  agrees (async_try_read_message options r) (try_read_message options c).
Proof.
  intros Hw. apply agrees_bind; [by apply read_table_agrees|]. clear r c Hw. intros [b|] r c Hw; [|by apply agrees_ret].
  apply agrees_bind; [by apply read_segments_agrees|]. intros m r' c' Hw'. by apply agrees_ret.
Qed.
End read.

(** ** Writing *)

(** [write_all(..).await] as the [write_all] of the synchronous trait *)
Definition awaited_write {W} `{AsyncWriteExt W} : Write W := async_write_all.

Lemma fold_range_ext {S A} n (f g : Z -> A -> ST S A) : forall lo acc s,
  (forall i a s, lo <= i < lo + Z.of_nat n -> f i a s = g i a s) -> fold_range n lo acc f s = fold_range n lo acc g s.
Proof.
  induction n as [|n IH]; intros lo acc s Hfg; [done|]. cbn [fold_range]. unfold bind. cbn [ST_monad].
  rewrite Hfg by lia. destruct (g lo acc s) as [[] ?]; try done. apply IH. intros j x s' Hj. apply Hfg. lia.
Qed.

Section write.
Context (l : list (list byte)) (Hl : Z.of_nat (length l) < 2 ^ 32).

Lemma segment_len_le_sync idx : 0 <= idx < 2 ^ 32 -> segment_len_le l idx = segment_len_bytes l idx.
Proof.
  intros Hi. unfold segment_len_le, segment_len_bytes, segment_at. cbn [get_segment list_segments].
  rewrite wrap32_small by done. unfold nth_segment. done.
Qed.

Lemma async_put_lengths_sync buf :
  async_put_lengths l (Z.of_nat (length l)) buf = put_lengths l (Z.of_nat (length l)) buf.
Proof.
  unfold async_put_lengths, put_lengths. f_equal. apply fold_range_ext. intros i x s Hi.
  by rewrite segment_len_le_sync by lia.
Qed.

Lemma async_write_table_sync {W} `{AsyncWriteExt W} (w : W) :
  async_write_segment_table l w = @write_segment_table_internal _ _ W awaited_write l w.
Proof.
  unfold async_write_segment_table, write_segment_table_internal. rewrite segment_len_le_sync by lia.
  rewrite (lift_bind_ok (segments_len l) _ w (Z.of_nat (length l))) by done. cbv zeta.
  do 4 (apply ST_bind_ext; intros ? ?). apply ST_bind_ext; intros [] ?.
  destruct (1 <? Z.of_nat (length l)); [|done]. rewrite !async_put_lengths_sync. done.
Qed.

Lemma async_write_segments_sync {W} `{AsyncWriteExt W} s (w : W) :
  async_write_segments s w = @write_chunks W awaited_write s w.
Proof.
  revert w. induction s as [|c s IH]; intros w; [done|]. cbn [async_write_segments write_chunks].
  apply ST_bind_ext. intros [] w'. apply IH.
Qed.

(** The buffers written are those of the synchronous code. *)
Lemma async_write_message_ok {W} `{AsyncWriteExt W} (w : W) : frameable l ->
  async_write_message l w = @write_chunks W awaited_write (frame_chunks l) w.
Proof.
  intros Hf. unfold frame_chunks. rewrite write_chunks_app. unfold async_write_message, as_output_segments, segments_as_output.
  unfold bind. cbn [ST_monad]. rewrite async_write_table_sync, (write_table_ok l l (list_represents l) Hf).
  destruct (write_chunks (table_chunks l) w) as [[] w1]; try done. apply async_write_segments_sync.
Qed.
End write.

Section lawful.
Context {W : Type} `{AsyncWriteExtSpec W}.

Lemma write_chunks_lawful cs : forall (w : W) d, takes w d [] -> Forall writable cs ->
  exists w', @write_chunks W awaited_write cs w = (Ok tt, w') /\ takes w' (d ++ concat cs) [] /\
    (write_patience w' <= write_patience w)%nat.
Proof.
  induction cs as [|c cs IH]; intros w d Ht Hcs; cbn [write_chunks concat].
  { exists w. rewrite app_nil_r. by split_and!. }
  inversion_clear Hcs as [|? ? Hc Hcs']. destruct (async_write_all_spec w d c (takes_next w d c Ht Hc)) as (w1 & E & Ht1 & Hm1).
  rewrite (ST_bind_ok _ _ w tt w1) by done. destruct (IH w1 _ Ht1 Hcs') as (w2 & E2 & Ht2 & Hm2).
  exists w2. rewrite E2, app_assoc. split_and!; [done|done|lia].
Qed.

Lemma async_write_message_lawful l (w : W) d : frameable l -> takes w d [] -> Forall writable (frame_chunks l) ->
  exists w', async_write_message l w = (Ok tt, w') /\ takes w' (d ++ frame l) [] /\
    (write_patience w' <= write_patience w)%nat.
Proof.
  intros Hf Ht Hc. destruct (write_chunks_lawful _ w d Ht Hc) as (w' & E & Ht'). exists w'. split; [|done].
  rewrite async_write_message_ok; [done| |done]. by destruct Hf as (_ & ? & _).
Qed.
End lawful.
