(* ===== verification/AsyncProps.v ===== *)
(** * What holds of the asynchronous code

    The theorems about the asynchronous framing and the packed streams, with
    runs of the model as witnesses, and runs that show where the packed
    writer and reader do not do what they should. *)

From S2P Require Import Prelude.
From S2P Require Import Io.
From S2P Require Import Packed.
From S2P Require Import PackedSpec.
From S2P Require Import ReadLimiter.
From S2P Require Import Segments.
From S2P Require Import Serialize.
From S2P Require Import SerializeSpec.
From S2P Require Import SerializeSpec.
From S2P Require Import FramingProps.
From S2P Require Import AsyncIo.
From S2P Require Import AsyncPacked.
From S2P Require Import AsyncPackedOk.
From S2P Require Import AsyncPackedOk.
From S2P Require Import AsyncSerialize.
From S2P Require Import AsyncSerializeOk.
Definition to_bytes (l : list Z) : list byte := map byte.of_Z l.

(** ** Reading *)

(** C17: Over any lawful asynchronous reader, however its bytes are cut up and
    delayed, reading a message gives what the synchronous code gives on the
    same bytes in a slice: the same message, the same end of the stream, the
    same bytes left over, an error where it has an error; and no panic. *)
Theorem async_read_is_sync {R} `{AsyncReadExtSpec R} (options : ReaderOptions) (r : R) (c : list byte) :
  sends r c -> (length c mod granule (R:=R) = 0)%nat ->
  match try_read_message options c with
  | (Ok m, c') => exists r', async_try_read_message options r = (Ok m, r') /\ sends r' c'
  | (Err _, _) => exists e r', async_try_read_message options r = (Err e, r')
  | _ => False
  end.
Proof.
  intros Hs Hg. pose proof (try_read_agrees options r c (conj Hs Hg)) as Ha. unfold agrees in Ha.
  pose proof (try_read_message_safe options c) as Hsafe. unfold wp in Hsafe.
  destruct (async_try_read_message options r) as [o r'], (try_read_message options c) as [[m|e| | |] c']; try done; cbn [fst snd] in Ha.
  - destruct Ha as [-> [Hs' _]]. by exists r'.
  - destruct Ha as [e' ->]. by exists e', r'.
Qed.

(** A message of two segments that arrives in pieces of odd sizes *)
Definition two_segments : list (list byte) := [to_bytes [1; 2; 3; 4; 5; 6; 7; 8]; repeat Byte.x00 16].
Definition in_pieces (c : list byte) : Arrivals :=
  {| arrivals := [None; Some (take 3 c); None; None; Some []; Some (take 9 (drop 3 c)); None; Some (drop 12 c)] |}.

Lemma async_read_is_sync_witness :
  sends (in_pieces (frame two_segments)) (frame two_segments) /\
  @AsyncReadExtSpec Arrivals _ _ polling_read /\
  match try_read_message DEFAULT_READER_OPTIONS (frame two_segments) with
  | (Ok m, c') => exists r', @async_try_read_message _ polling_read DEFAULT_READER_OPTIONS (in_pieces (frame two_segments)) = (Ok m, r') /\ sends r' c'
  | (Err _, _) => exists e r', @async_try_read_message _ polling_read DEFAULT_READER_OPTIONS (in_pieces (frame two_segments)) = (Err e, r')
  | _ => False
  end.
Proof.
  assert (Hs : sends (in_pieces (frame two_segments)) (frame two_segments)) by reflexivity.
  split; [exact Hs|]. split; [apply polling_read_spec|].
  apply (@async_read_is_sync Arrivals _ _ polling_read polling_read_spec DEFAULT_READER_OPTIONS _ _ Hs). apply Nat.mod_1_r.
Defined.

(** ** Packed streams *)

(** A client that reads buffers of the given sizes, one after the other *)
Fixpoint read_buffers {R} `{AsyncRead R} (polls : nat) (ns : list nat) : ST R (list byte) :=
  match ns with
  | [] => ret []
  | n :: ns => b ← read_exact_polls polls n []; bs ← read_buffers polls ns; ret (b ++ bs)
  end.

Lemma read_buffers_spec {R} `{AsyncReadSpec R} polls ns : forall r c, sends r c ->
  Forall (fun n => n mod granule (R:=R) = 0)%nat ns -> (length c mod granule (R:=R) = 0)%nat ->
  (list_sum ns <= length c)%nat -> (list_sum ns + patience r < polls)%nat ->
  exists r', read_buffers polls ns r = (Ok (take (list_sum ns) c), r') /\ sends r' (drop (list_sum ns) c).
Proof.
  induction ns as [|n ns IH]; intros r c Hs Hns Hc Hl Hp; cbn [read_buffers list_sum fold_right] in *.
  { exists r. by rewrite take_0, drop_0. }
  inversion_clear Hns as [|? ? Hn Hns']. fold (list_sum ns) in *.
  destruct (read_exact_polls_spec polls r c n [] Hs) as (o & r1 & E & Ho); [congruence|lia|].
  destruct (Nat.leb_spec n (length c)); [|lia]. destruct Ho as (-> & Hs1 & Hm).
  destruct (IH r1 (drop n c) Hs1 Hns') as (r2 & E2 & Hs2).
  - rewrite <- (take_drop n c), length_app, length_take, Nat.min_l, Nat.Div0.add_mod, Hn, Nat.add_0_l, Nat.Div0.mod_mod in Hc by done. done.
  - rewrite length_drop. lia.
  - lia.
  - exists r2. rewrite (ST_bind_ok _ _ _ _ _ E), (ST_bind_ok _ _ _ _ _ E2). cbn [app]. split.
    + unfold ret; cbn [ST_monad]. do 2 f_equal. by rewrite take_take_drop.
    + by rewrite drop_drop in Hs2.
Qed.

(** C18: [PackedRead] over any lawful reader whose bytes are a packed stream:
    a client that reads buffers of whole words gets the unpacked bytes, in
    order and without loss, however the input is cut up and delayed, after
    finitely many polls. *)
Theorem packed_read_delivers {R} `{AsyncReadSpec R} (r : R) (p c : list byte) (ns : list nat) (polls : nat) :
  granule (R:=R) = 1%nat -> sends r p -> unpacks p c -> Forall (fun n => n mod 8 = 0)%nat ns ->
  (list_sum ns <= length c)%nat -> (list_sum ns + patience r < polls)%nat ->
  exists r', read_buffers polls ns (PackedRead_new r) = (Ok (take (list_sum ns) c), r').
Proof.
  intros Hg Hs Hu Hns Hl Hp.
  destruct (@read_buffers_spec (PackedRead R) _ (packed_read_spec Hg) polls ns (PackedRead_new r) c) as (r' & E & _); try done.
  - by apply (packed_read_new Hg r p).
  - exact (unpacks_aligned _ _ Hu).
  - by exists r'.
Qed.

Definition packed_example : list byte := to_bytes [0; 1; 255; 1; 2; 3; 4; 5; 6; 7; 8; 1; 9; 10; 11; 12; 13; 14; 15; 16; 128; 17].
Definition unpacked_example : list byte :=
  to_bytes [0; 0; 0; 0; 0; 0; 0; 0; 0; 0; 0; 0; 0; 0; 0; 0; 1; 2; 3; 4; 5; 6; 7; 8; 9; 10; 11; 12; 13; 14; 15; 16; 0; 0; 0; 0; 0; 0; 0; 17].
Lemma packed_example_unpacks : unpacks packed_example unpacked_example.
Proof.
  destruct (unpack_unpacks 41 40 packed_example unpacked_example []) as (u & E & Hu); [vm_compute; reflexivity|].
  rewrite app_nil_r in E. by rewrite E.
Qed.

Lemma packed_read_delivers_witness :
  unpacks packed_example unpacked_example /\
  exists r', read_buffers 60 [8; 24; 8]%nat (PackedRead_new (in_pieces packed_example)) = (Ok (take 40 unpacked_example), r').
Proof.
  split; [exact packed_example_unpacks|].
  apply (packed_read_delivers (in_pieces packed_example) packed_example unpacked_example [8; 24; 8]%nat 60);
    [reflexivity|reflexivity|exact packed_example_unpacks|by repeat constructor|vm_compute; lia..].
Defined.

(** A client that writes buffers one after the other *)
Fixpoint write_buffers {W} `{AsyncWrite W} (polls : nat) (cs : list (list byte)) : ST W unit :=
  match cs with
  | [] => ret tt
  | c :: cs => write_all_polls polls c ;; write_buffers polls cs
  end.

Lemma write_buffers_spec {W} `{AsyncWriteSpec W} polls cs : forall w d, takes w d [] -> Forall writable cs ->
  (length (concat cs) + write_patience w < polls)%nat ->
  exists w', write_buffers polls cs w = (Ok tt, w') /\ takes w' (d ++ concat cs) [] /\
    (write_patience w' <= write_patience w)%nat.
Proof.
  induction cs as [|c cs IH]; intros w d Ht Hcs Hp; cbn [write_buffers concat] in *.
  { exists w. rewrite app_nil_r. by split_and!. }
  inversion_clear Hcs as [|? ? Hc Hcs']. rewrite length_app in Hp.
  destruct (write_all_polls_spec polls w d c (takes_next w d c Ht Hc)) as (w1 & E & Ht1 & Hm1); [lia|].
  destruct (IH w1 _ Ht1 Hcs') as (w2 & E2 & Ht2 & Hm2); [lia|].
  exists w2. rewrite (ST_bind_ok _ _ _ _ _ E), app_assoc. split_and!; [done|done|lia].
Qed.

(** Finishing leaves a packed stream of what was accepted. *)
Lemma finish_unpacks {W} `{AsyncWriteSpec W} (inner_any : forall w d x y, takes (W:=W) w d x -> takes w d y)
    (s : PackedWrite W) d polls : packs s d [] -> (write_patience (w_inner s) < polls)%nat ->
  exists s' out, await polls finish_pending_writes s = (Ok tt, s') /\ takes (w_inner s') out [] /\ unpacks out (whole_words d).
Proof.
  intros Hs Hp.
  destruct (await_spec (fun s => packs s d []) (fun s => write_patience (w_inner s)) (fun _ s' => packs s' d [] /\ settled s')
    finish_pending_writes) with (fuel := polls) (s := s) as ([] & s' & E & Hs' & Hst); try done.
  - intros s1 Hs1. destruct (finish_writes_spec inner_any s1 d Hs1) as (p & s2 & E & Hs2 & Ho). exists p, s2.
    split; [done|]. destruct p; [done|]. by destruct Ho.
  - destruct (settled_unpacks s' d Hs' Hst) as (out & Ht & Hu). by exists s', out.
Qed.

(** C19: [PackedWrite] over any lawful writer, however little it takes at a
    time and whenever it is pending (one that takes any bytes, as a byte
    stream does): once a client has written its buffers and finished, for which
    it needs no more polls than there are bytes to write and times that the
    writer is pending, the inner writer has a packed stream that unpacks to the whole words of their
    bytes, taken together. So it unpacks to all of their bytes if these are
    whole words together, wherever the buffers cut them; the bytes of a last
    word that is not complete are not written. No buffer may have a run of
    more than 255 words. *)
Theorem packed_write_delivers {W} `{AsyncWriteSpec W} (w : W) (cs : list (list byte)) (polls : nat) :
  (forall w d x y, takes (W:=W) w d x -> takes w d y) -> takes w [] [] ->
  Forall short_runs cs -> (length (concat cs) + write_patience w < polls)%nat ->
  exists s' out, (write_buffers polls cs ;; await polls finish_pending_writes) (PackedWrite_new w) = (Ok tt, s') /\
    takes (w_inner s') out [] /\ unpacks out (whole_words (concat cs)) /\
    (aligned (concat cs) -> unpacks out (concat cs)).
Proof.
  intros Hany Ht Hcs Hp.
  destruct (@write_buffers_spec (PackedWrite W) _ (packed_write_spec Hany) polls cs (PackedWrite_new w) []) as (s1 & E & Hs1 & Hm); try done.
  { exact (packed_write_new Hany w Ht). }
  destruct (finish_unpacks Hany s1 (concat cs) polls Hs1) as (s' & out & E' & Ht' & Hu).
  { cbn in Hm. lia. }
  exists s', out. rewrite (ST_bind_ok _ _ _ _ _ E). split_and!; try done.
  intros Ha. by rewrite <- (whole_words_aligned (concat cs)).
Qed.

Definition stalling_sink : Sink :=
  {| sunk := []; script := [Some 0%nat; None; Some 0%nat; None; None; Some 3%nat; Some 1%nat; None; Some 20%nat; None; None] |}.

(** Two buffers of three words and two, the first cut within a word; then
    three bytes that are not a word. *)
Definition pieces : list (list byte) :=
  [take 21 unpacked_example; drop 21 unpacked_example; to_bytes [7; 7; 7]].

Lemma packed_write_delivers_witness :
  Forall short_runs pieces /\ whole_words (concat pieces) = unpacked_example /\
  exists s' out, (write_buffers 60 pieces ;; await 60 finish_pending_writes)
      (PackedWrite_new stalling_sink) = (Ok tt, s') /\
    takes (w_inner s') out [] /\ unpacks out (whole_words (concat pieces)) /\
    (aligned (concat pieces) -> unpacks out (concat pieces)).
Proof.
  assert (Hs : Forall short_runs pieces).
  { constructor; [|constructor; [|constructor; [|constructor]]]; apply short_runs_small; vm_compute; lia. }
  split; [exact Hs|]. split; [vm_compute; reflexivity|].
  apply (packed_write_delivers stalling_sink); [done|done|exact Hs|vm_compute; lia].
Defined.

(** ** Messages *)

(** A message written packed through any lawful writer is read back
    packed through any lawful reader of the bytes that arrived there: the same
    segments, whatever the timing on both sides. *)
Lemma async_packed_roundtrip {W R} `{AsyncWriteSpec W} `{AsyncReadSpec R}
    (Hany : forall w d x y, takes (W:=W) w d x -> takes w d y) (Hbytes : granule (R:=R) = 1%nat)
    (WE : AsyncWriteExt (PackedWrite W)) (HWE : @AsyncWriteExtSpec _ _ (packed_write_spec Hany) WE)
    (RE : AsyncReadExt (PackedRead R)) (HRE : @AsyncReadExtSpec _ _ (packed_read_spec Hbytes) RE)
    (options : ReaderOptions) (l : list (list byte)) (w : W) (polls : nat) :
  readable options l -> within_limit options l -> Forall short_runs (frame_chunks l) ->
  takes w [] [] -> (write_patience w < polls)%nat ->
  exists w' out, async_packed_write_message polls l w = (Ok tt, w') /\ takes w' out [] /\
    forall r rest c', sends r (out ++ rest) -> unpacks rest c' ->
      exists m r', async_packed_try_read_message options r = (Ok (Some m), r') /\
        represents (into_segments m) l /\ arena m = ReaderArenaImpl_new (into_segments m) options.
Proof.
  intros Hr Hlim Hruns Ht Hp.
  destruct (@async_write_message_lawful (PackedWrite W) _ (packed_write_spec Hany) WE HWE l (PackedWrite_new w) []) as (s1 & E1 & Hs1 & Hm); [apply Hr|exact (packed_write_new Hany w Ht)|done|].
  assert (Ha : aligned (frame l)).
  { apply aligned_concat, (frame_chunks_aligned options l Hr). }
  destruct (finish_unpacks Hany s1 (frame l) polls Hs1) as (s2 & out & E2 & Ht2 & Hu); [cbn in *; lia|]. rewrite whole_words_aligned in Hu by exact Ha.
  exists (w_inner s2), out. split; [unfold async_packed_write_message, FinishPendingWrites_poll; by rewrite (ST_bind_ok _ _ _ _ _ E1), E2|].
  split; [done|]. intros r rest c' Hs Hu'.
  assert (Hpr : @at_word (PackedRead R) _ (packed_read_spec Hbytes) (PackedRead_new r) (frame l ++ c')).
  { pose proof (unpacks_app _ _ _ _ Hu Hu') as Huu. split; [by eapply packed_read_new|exact (unpacks_aligned _ _ Huu)]. }
  pose proof (@try_read_agrees (PackedRead R) _ (packed_read_spec Hbytes) RE HRE options (PackedRead_new r) (frame l ++ c') Hpr) as Hag.
  destruct (@try_read_message_ok (list byte) _ (bufread_exact c') options l (frame l ++ c') [] Hr Hlim) as (q & m & Em & _ & Hrep & Har).
  { cbn. by rewrite app_nil_r. }
  rewrite Em in Hag. unfold agrees in Hag. cbn [fst] in Hag. unfold async_packed_try_read_message.
  destruct (async_try_read_message options (PackedRead_new r)) as [o p]. cbn [fst] in Hag. destruct Hag as [-> _].
  by exists m, (inner p).
Qed.

Definition sink_any (w : Sink) (d x y : list byte) : takes w d x -> takes w d y := fun Ht => Ht.
#[local] Instance sink_packed : AsyncWriteSpec (PackedWrite Sink) := packed_write_spec sink_any.
Definition arrivals_bytes : granule (R:=Arrivals) = 1%nat := eq_refl.
#[local] Instance arrivals_packed : AsyncReadSpec (PackedRead Arrivals) := packed_read_spec arrivals_bytes.
Definition write_helpers : AsyncWriteExt (PackedWrite Sink) := polling_write.
Definition read_helpers : AsyncReadExt (PackedRead Arrivals) := polling_read.

Lemma async_packed_roundtrip_witness :
  readable DEFAULT_READER_OPTIONS two_segments /\
  @AsyncWriteExtSpec (PackedWrite Sink) _ _ write_helpers /\ @AsyncReadExtSpec (PackedRead Arrivals) _ _ read_helpers /\
  exists w' out, @async_packed_write_message _ _ write_helpers _ _ 20 two_segments stalling_sink = (Ok tt, w') /\
    takes w' out [] /\
    forall r rest c', sends (R:=Arrivals) r (out ++ rest) -> unpacks rest c' ->
      exists m r', @async_packed_try_read_message _ read_helpers DEFAULT_READER_OPTIONS r = (Ok (Some m), r') /\
        represents (into_segments m) two_segments /\ arena m = ReaderArenaImpl_new (into_segments m) DEFAULT_READER_OPTIONS.
Proof.
  assert (Hr : readable DEFAULT_READER_OPTIONS two_segments).
  { split; [|done]. split; [done|]. split; [done|]. by repeat constructor. }
  split; [exact Hr|]. split; [apply polling_write_spec|]. split; [apply polling_read_spec|].
  apply (@async_packed_roundtrip Sink Arrivals _ _ _ _ sink_any arrivals_bytes write_helpers polling_write_spec
    read_helpers polling_read_spec DEFAULT_READER_OPTIONS two_segments stalling_sink 20 Hr); [| |done|vm_compute; lia].
  - intros v. vm_compute. by intros [= <-].
  - assert (E : forallb (fun c => length c <? 2048)%nat (frame_chunks two_segments) = true) by (vm_compute; reflexivity).
    apply List.Forall_forall. intros c Hc. apply short_runs_small, Nat.ltb_lt. by apply (proj1 (forallb_forall _ _) E).
Defined.

(** ** Where the packed streams go wrong *)

(** The length of a run is cut to a byte: 257 words of zeroes are written as
    one. *)
Example long_run_is_lost :
  let '(o, s) := (write_buffers 100 [repeat Byte.x00 (257 * 8)] ;; await 1 finish_pending_writes)
                   (PackedWrite_new {| sunk := []; script := [] |}) in
  o = Ok tt /\ sunk (w_inner s) = [Byte.x00; Byte.x00] /\ unpacks [Byte.x00; Byte.x00] (repeat Byte.x00 8).
Proof.
  vm_compute. split; [done|]. split; [done|]. rewrite <- (app_nil_r (_ :: _)).
  apply (unpacks_group [Byte.x00; Byte.x00] (repeat Byte.x00 8) [] []); [exact (group_zeroes Byte.x00)|constructor].
Qed.

(** A flush between two calls of [poll_write] panics when the inner writer was
    pending after the tag of a run. *)
Example flush_in_a_run_panics :
  fst ((poll_write (repeat Byte.x00 16) ;; poll_flush)
         (PackedWrite_new {| sunk := []; script := [Some 0%nat; None] |})) = Panic.
Proof. vm_compute. reflexivity. Qed.

(** What is written depends on when the inner writer is pending: here the run
    of the first buffer takes the second buffer in, and the synchronous reader,
    which reads the two one after the other, rejects the stream. *)
Example run_across_buffers :
  let write l := sunk (w_inner (snd ((write_buffers 100 [repeat Byte.x00 8; repeat Byte.x00 8] ;; await 9 finish_pending_writes)
                   (PackedWrite_new {| sunk := []; script := l |})))) in
  write [] = [Byte.x00; Byte.x00; Byte.x00; Byte.x00] /\ write [None] = [Byte.x00; Byte.x01] /\
  is_ok (fst ((read_exact 8 ;; read_exact 8) {| Packed.inner := write [] |})) = true /\
  fst ((read_exact 8 ;; read_exact 8) {| Packed.inner := write [None] |}) =
    Err PackedInputDidNotEndCleanlyOnASegmentBoundary.
Proof. vm_compute. done. Qed.

(** Reads that do not end at word boundaries get wrong bytes: the position in
    the tag is taken from [buf_pos], which a zero byte does not advance. *)
Example short_reads_get_zeroes :
  fst (read_exact_polls 9 8 [] (PackedRead_new {| arrivals := [Some (to_bytes [128; 7])] |})) =
    Ok (to_bytes [0; 0; 0; 0; 0; 0; 0; 7]) /\
  fst (read_buffers 9 [1; 1; 1; 1; 1; 1; 1; 1]%nat (PackedRead_new {| arrivals := [Some (to_bytes [128; 7])] |})) =
    Ok (to_bytes [0; 0; 0; 0; 0; 0; 0; 0]).
Proof. vm_compute. done. Qed.
