(* ===== verification/RpcTables.v ===== *)
(** * The id tables of capnp-rpc/src/rpc.rs

    [ExportTable] hands out the ids of questions, exports and embargoes: a
    vector of slots and a heap of the ids that were erased, smallest first.
    [ImportTable] is a [HashMap] and is modelled by [gmap] where it is used.
    The table is compared with its abstract specification, a finite map whose
    [push] takes the least id not in use. *)

From S2P Require Import Prelude.
From stdpp Require Import gmap sorting.
#[local] Open Scope Z_scope.
#[local] Open Scope rust_scope.

(** ** std::collections::BinaryHeap<Reverse<u32>>

    The heap is a multiset of ids; [pop] takes the smallest.  It is kept as
    an ascending list. *)
Fixpoint heap_push (id : Z) (h : list Z) : list Z :=
  match h with
  | [] => [id]
  | x :: h' => if id <=? x then id :: h else x :: heap_push id h'
  end.
Definition heap_pop (h : list Z) : option (Z * list Z) :=
  match h with [] => None | x :: h' => Some (x, h') end.

(** ** The table *)
Record ExportTable (T : Type) := { slots : list (option T); free_ids : list Z }.
Arguments slots {T} _.
Arguments free_ids {T} _.

Module ExportTable.

Definition new {T} : ExportTable T := {| slots := []; free_ids := [] |}.

(** [self.slots[id as usize] = v] *)
Definition set_slot {T} (id : Z) (v : option T) (l : list (option T))
    : outcome (list (option T)) :=
  if (0 <=? id) && (id <? Z.of_nat (length l)) then Ok (<[Z.to_nat id := v]> l) else Panic.

Definition erase {T} (id : Z) : ST (ExportTable T) unit := fun t =>
  match set_slot id None (slots t) with
  | Ok s => (Ok tt, {| slots := s; free_ids := heap_push id (free_ids t) |})
  | _ => (Panic, t)
  end.

(** [self.slots.len() as u32 - 1] underflows when the length is [2^32]. *)
Definition push {T} (val : T) : ST (ExportTable T) Z := fun t =>
  match heap_pop (free_ids t) with
  | Some (id, h) =>
      match set_slot id (Some val) (slots t) with
      | Ok s => (Ok id, {| slots := s; free_ids := h |})
      | _ => (Panic, {| slots := slots t; free_ids := h |})
      end
  | None =>
      let s := slots t ++ [Some val] in
      (usub (wrap32 (Z.of_nat (length s))) 1, {| slots := s; free_ids := [] |})
  end.

Definition find {T} (id : Z) (t : ExportTable T) : option T :=
  if (0 <=? id) && (id <? Z.of_nat (length (slots t)))
  then mjoin (slots t !! Z.to_nat id) else None.

(** A write through the [&mut T] that [find] returned. *)
Definition update {T} (id : Z) (f : T -> T) (t : ExportTable T) : ExportTable T :=
  {| slots := alter (fmap f) (Z.to_nat id) (slots t); free_ids := free_ids t |}.

(** The items [iter] visits, in order. *)
Fixpoint live {T} (l : list (option T)) : list T :=
  match l with
  | [] => []
  | Some v :: l => v :: live l
  | None :: l => live l
  end.
Definition iter {T} (t : ExportTable T) : list T := live (slots t).

(** ** The invariant and the abstract contents *)

(** The heap holds exactly the ids of the empty slots, once each. *)
Record TableOk {T} (t : ExportTable T) : Prop := {
  free_sorted : StronglySorted Z.lt (free_ids t);
  free_empty : forall id, id ∈ free_ids t <-> 0 <= id /\ slots t !! Z.to_nat id = Some None;
  few_slots : Z.of_nat (length (slots t)) < 2 ^ 32
}.

Fixpoint contents_from {T} (i : Z) (l : list (option T)) : gmap Z T :=
  match l with
  | [] => ∅
  | Some v :: l => <[i := v]> (contents_from (i + 1) l)
  | None :: l => contents_from (i + 1) l
  end.
Definition contents {T} (t : ExportTable T) : gmap Z T := contents_from 0 (slots t).

(** ** The specification: the least id not in use *)
Fixpoint least_from {T} (fuel : nat) (i : Z) (m : gmap Z T) : Z :=
  match fuel with
  | O => i
  | S fuel => match m !! i with None => i | Some _ => least_from fuel (i + 1) m end
  end.
Definition least_unused {T} (m : gmap Z T) : Z := least_from (size m) 0 m.

(** ** Lemmas *)
Section lemmas.
Context {T : Type}.
Implicit Types (t : ExportTable T) (l : list (option T)) (m : gmap Z T) (v : T).

Lemma lookup_contents_from i l k :
  contents_from i l !! k = if k <? i then None else mjoin (l !! Z.to_nat (k - i)).
Proof.
  revert i. induction l as [|o l IH]; intros i; cbn [contents_from].
  { rewrite lookup_empty. by case_bool. }
  assert (Hrec : contents_from (i + 1) l !! k =
    if k <? i + 1 then None else mjoin (l !! Z.to_nat (k - (i + 1)))) by apply IH.
  destruct (Z.lt_trichotomy k i) as [Hk|[->|Hk]].
  - replace (k <? i) with true by lia. replace (k <? i + 1) with true in Hrec by lia.
    destruct o; rewrite ?lookup_insert_ne by lia; done.
  - replace (i <? i) with false by lia. replace (i <? i + 1) with true in Hrec by lia.
    rewrite Z.sub_diag. destruct o; cbn; [by rewrite lookup_insert_eq|done].
  - replace (k <? i) with false by lia. replace (k <? i + 1) with false in Hrec by lia.
    replace (Z.to_nat (k - i)) with (S (Z.to_nat (k - (i + 1)))) by lia. cbn.
    destruct o; rewrite ?lookup_insert_ne by lia; done.
Qed.

Lemma lookup_contents t k :
  contents t !! k = if k <? 0 then None else mjoin (slots t !! Z.to_nat k).
Proof. unfold contents. rewrite lookup_contents_from. by rewrite Z.sub_0_r. Qed.

Lemma find_contents t id : find id t = contents t !! id.
Proof.
  rewrite lookup_contents. unfold find.
  destruct (Z.leb_spec 0 id), (Z.ltb_spec id 0); try lia; cbn; [|done].
  destruct (Z.ltb_spec id (Z.of_nat (length (slots t)))); [done|].
  rewrite lookup_ge_None_2 by lia. done.
Qed.

Lemma contents_range t id v :
  contents t !! id = Some v -> 0 <= id < Z.of_nat (length (slots t)).
Proof.
  rewrite lookup_contents. case_bool; [done|]. intros Hl.
  destruct (slots t !! Z.to_nat id) eqn:Hs; [|done].
  apply lookup_lt_Some in Hs. lia.
Qed.

Lemma contents_bound t id v : TableOk t -> contents t !! id = Some v -> 0 <= id < 2 ^ 32.
Proof. intros [_ _ Hf] Hl. apply contents_range in Hl. lia. Qed.

Lemma contents_set (s : list (option T)) h h' id (v : option T) :
  0 <= id < Z.of_nat (length s) ->
  contents {| slots := <[Z.to_nat id := v]> s; free_ids := h |} =
  partial_alter (fun _ => v) id (contents {| slots := s; free_ids := h' |}).
Proof.
  intros Hid. apply map_eq. intros k. rewrite lookup_contents. cbn [slots].
  destruct (decide (k = id)) as [->|Hne].
  - rewrite lookup_partial_alter_eq. replace (id <? 0) with false by lia.
    rewrite list_lookup_insert_eq by lia. by destruct v.
  - rewrite lookup_partial_alter_ne by done. rewrite lookup_contents. cbn [slots].
    case_bool; [done|]. rewrite list_lookup_insert_ne by lia. done.
Qed.

Lemma elem_of_heap_push id h k : k ∈ heap_push id h <-> k = id \/ k ∈ h.
Proof.
  induction h as [|x h IH]; cbn; [set_solver|]. case_bool; set_solver.
Qed.

Lemma heap_push_sorted id h :
  StronglySorted Z.lt h -> id ∉ h -> StronglySorted Z.lt (heap_push id h).
Proof.
  induction 1 as [|x h Hs IH Hx]; cbn; [by repeat constructor|].
  intros Hni. apply not_elem_of_cons in Hni as [Hne Hni].
  destruct (Z.leb_spec id x) as [Hle|Hgt].
  - constructor; [by constructor|]. constructor; [lia|].
    eapply Forall_impl; [exact Hx|]. cbn. lia.
  - constructor; [auto|]. apply Forall_forall. intros k Hk.
    apply elem_of_heap_push in Hk as [->|Hk]; [lia|].
    by apply (proj1 (Forall_forall _ _) Hx).
Qed.

Lemma new_ok : TableOk (T := T) new.
Proof.
  split; cbn; [constructor| |done]. intros id. rewrite lookup_nil. set_solver.
Qed.
Lemma contents_new : contents (T := T) new = ∅.
Proof. done. Qed.

Lemma least_from_spec fuel i m :
  (forall j, 0 <= j < i -> is_Some (m !! j)) -> 0 <= i ->
  Z.of_nat (size m) <= i + Z.of_nat fuel ->
  m !! least_from fuel i m = None /\
  (forall j, 0 <= j < least_from fuel i m -> is_Some (m !! j)).
Proof.
  revert i. induction fuel as [|fuel IH]; cbn [least_from]; intros i Hlt Hi Hsz.
  - split; [|done]. destruct (m !! i) as [v|] eqn:Hmi; [|done]. exfalso.
    set (ids := Z.of_nat <$> seq 0 (S (Z.to_nat i))).
    assert (Hsub : list_to_set ids ⊆ dom m).
    { intros k Hk. apply elem_of_list_to_set, list_elem_of_fmap in Hk as (n & -> & Hn).
      apply elem_of_seq in Hn. apply elem_of_dom.
      destruct (decide (Z.of_nat n = i)) as [->|]; [eauto|]. apply Hlt. lia. }
    apply subseteq_size in Hsub. rewrite size_dom in Hsub.
    rewrite size_list_to_set in Hsub.
    + unfold ids in Hsub. rewrite length_fmap, length_seq in Hsub. lia.
    + apply NoDup_fmap_2; [apply _|apply NoDup_seq].
  - destruct (m !! i) eqn:Hmi; [|done]. apply IH; [|lia|lia].
    intros j Hj. destruct (decide (j = i)) as [->|]; [eauto|]. apply Hlt. lia.
Qed.

Lemma least_unused_spec m :
  m !! least_unused m = None /\
  (forall j, 0 <= j < least_unused m -> is_Some (m !! j)) /\ 0 <= least_unused m.
Proof.
  destruct (least_from_spec (size m) 0 m) as [H1 H2]; [intros; lia|lia|lia|].
  split; [done|]. split; [done|]. unfold least_unused. clear H1 H2.
  enough (forall fuel i, i <= least_from fuel i m) by apply H.
  induction fuel as [|fuel IH]; cbn; [lia|]. intros i. destruct (m !! i); [|lia].
  specialize (IH (i + 1)). lia.
Qed.

Lemma least_unused_eq m id :
  0 <= id -> m !! id = None -> (forall j, 0 <= j < id -> is_Some (m !! j)) ->
  least_unused m = id.
Proof.
  intros Hid Hnone Hall. destruct (least_unused_spec m) as (Hn & Hl & Hp).
  destruct (Z.lt_trichotomy (least_unused m) id) as [Hlt|[->|Hgt]]; [|done|].
  - destruct (Hall (least_unused m)) as [v Hv]; [lia|congruence].
  - destruct (Hl id) as [v Hv]; [lia|congruence].
Qed.

(** The three operations against the abstract contents. *)
Lemma push_spec t v :
  TableOk t -> Z.of_nat (size (contents t)) < 2 ^ 32 - 1 ->
  exists t', push v t = (Ok (least_unused (contents t)), t') /\ TableOk t' /\
    contents t' = <[least_unused (contents t) := v]> (contents t).
Proof.
  intros [Hs Hf Hn] Hsz. unfold push. destruct t as [s h]; cbn [slots free_ids] in *.
  destruct h as [|id h]; cbn [heap_pop].
  - assert (Hfull : forall j, 0 <= j < Z.of_nat (length s) ->
      is_Some (contents {| slots := s; free_ids := [] |} !! j)).
    { intros j Hj. rewrite lookup_contents. cbn [slots]. case_bool; [lia|].
      destruct (lookup_lt_is_Some_2 s (Z.to_nat j)) as [[w|] Hw]; [lia| |].
      - rewrite Hw. cbn. eauto.
      - exfalso. assert (j ∈ @nil Z) as Hin by (apply Hf; split; [lia|done]).
        set_solver. }
    assert (Hnone : contents {| slots := s; free_ids := [] |} !! Z.of_nat (length s) = None).
    { rewrite lookup_contents. cbn [slots]. case_bool; [done|].
      rewrite lookup_ge_None_2 by lia. done. }
    rewrite (least_unused_eq _ (Z.of_nat (length s))) by (done || lia).
    assert (Hlen : Z.of_nat (length s) <= Z.of_nat (size (contents {| slots := s; free_ids := [] |}))).
    { rewrite <- (Nat2Z.id (length s)) at 1. rewrite <- size_dom.
      assert (Hsub : list_to_set (Z.of_nat <$> seq 0 (length s)) ⊆
        dom (contents {| slots := s; free_ids := [] |})).
      { intros k Hk. apply elem_of_list_to_set, list_elem_of_fmap in Hk as (n & -> & Hn').
        apply elem_of_seq in Hn'. apply elem_of_dom, Hfull. lia. }
      apply subseteq_size in Hsub. rewrite size_list_to_set in Hsub.
      - rewrite length_fmap, length_seq in Hsub. lia.
      - apply NoDup_fmap_2; [apply _|apply NoDup_seq]. }
    eexists. rewrite length_app. cbn [length].
    rewrite wrap32_small by lia. rewrite usub_ok by lia.
    split; [do 2 f_equal; lia|]. split.
    + split; cbn [slots free_ids]; [constructor| |rewrite length_app; cbn [length]; lia].
      intros k. split; [set_solver|]. intros [Hk Hl]. exfalso.
      apply lookup_app_Some in Hl as [Hl|[Hge Hl]].
      * assert (k ∈ @nil Z) as Hin by (by apply Hf). set_solver.
      * apply list_lookup_singleton_Some in Hl as [_ Hl]. done.
    + apply map_eq. intros k. rewrite lookup_contents. cbn [slots].
      destruct (decide (k = Z.of_nat (length s))) as [->|Hne].
      * rewrite lookup_insert_eq. case_bool; [lia|].
        rewrite Nat2Z.id, lookup_app_r, Nat.sub_diag by lia. done.
      * rewrite lookup_insert_ne by done. rewrite lookup_contents. cbn [slots].
        case_bool; [done|]. destruct (decide (k < Z.of_nat (length s))).
        -- rewrite lookup_app_l by lia. done.
        -- rewrite !lookup_ge_None_2; [done|lia|rewrite length_app; cbn; lia].
  - assert (Hid : 0 <= id /\ s !! Z.to_nat id = Some None) by (apply Hf; set_solver).
    destruct Hid as [Hid Hidn]. pose proof (lookup_lt_Some _ _ _ Hidn) as Hlt.
    apply StronglySorted_inv in Hs as [Hs Hall].
    unfold set_slot. replace ((0 <=? id) && _) with true by (symmetry; lia).
    rewrite (least_unused_eq _ id); [|lia| |].
    2:{ rewrite lookup_contents. cbn [slots]. case_bool; [done|]. by rewrite Hidn. }
    2:{ intros j Hj. rewrite lookup_contents. cbn [slots]. case_bool; [lia|].
        destruct (lookup_lt_is_Some_2 s (Z.to_nat j)) as [[w|] Hw]; [lia|rewrite Hw; cbn; eauto|].
        exfalso. assert (Hin : j ∈ id :: h) by (apply Hf; split; [lia|done]).
        apply elem_of_cons in Hin as [->|Hin]; [lia|].
        pose proof (proj1 (Forall_forall _ _) Hall j Hin). lia. }
    eexists. split; [done|]. split; [split; cbn [slots free_ids]|].
    + done.
    + intros k. destruct (decide (k = id)) as [->|Hne].
      * rewrite list_lookup_insert_eq by lia. split; [|by intros [_ ?]].
        intros Hin. pose proof (proj1 (Forall_forall _ _) Hall id Hin). lia.
      * assert (Hin : k ∈ h <-> k ∈ id :: h) by set_solver. rewrite Hin, Hf.
        split; intros [Hk Hl]; (split; [done|]).
        -- by rewrite list_lookup_insert_ne by lia.
        -- by rewrite list_lookup_insert_ne in Hl by lia.
    + by rewrite length_insert.
    + apply (contents_set s h (id :: h) id (Some v)). lia.
Qed.

Lemma size_contents_from i l : (size (contents_from i l) <= length l)%nat.
Proof.
  revert i. induction l as [|[v|] l IH]; intros i; cbn [contents_from length]; [by rewrite map_size_empty| |].
  - rewrite map_size_insert. specialize (IH (i + 1)). destruct (contents_from (i + 1) l !! i); cbn; lia.
  - specialize (IH (i + 1)). lia.
Qed.
Lemma size_contents_free i l k : l !! k = Some None -> (size (contents_from i l) < length l)%nat.
Proof.
  revert i k. induction l as [|o l IH]; intros i k Hk; [done|]. destruct k as [|k]; cbn in Hk.
  - injection Hk as ->. cbn. pose proof (size_contents_from (i + 1) l). lia.
  - specialize (IH (i + 1) k Hk). destruct o as [v|]; cbn [contents_from length]; [|lia].
    rewrite map_size_insert. destruct (contents_from (i + 1) l !! i); cbn; lia.
Qed.

(** A [push] that returns has found an id that is not in use. *)
Lemma push_returns t v id t' : TableOk t -> push v t = (Ok id, t') ->
  TableOk t' /\ contents t !! id = None /\ contents t' = <[id := v]> (contents t).
Proof.
  intros Ht Hp. destruct (push_spec t v Ht) as (t1 & Hp' & Hok & Hc).
  - destruct Ht as [_ Hf Hn]. unfold contents. unfold push in Hp. destruct (free_ids t) as [|i h] eqn:Hfree.
    + cbn [heap_pop] in Hp. rewrite length_app in Hp. cbn [length] in Hp.
      pose proof (size_contents_from 0 (slots t)).
      unfold usub, wrap32 in Hp. enough (Z.of_nat (length (slots t)) <> 2 ^ 32 - 1) by lia. intros Hl.
      rewrite Nat2Z.inj_add, Hl in Hp. discriminate Hp.
    + destruct (proj1 (Hf i) ltac:(by left)) as [_ Hs]. pose proof (size_contents_free 0 _ _ Hs). lia.
  - rewrite Hp in Hp'. injection Hp' as -> ->. split_and!; try done. apply least_unused_spec.
Qed.

Lemma erase_spec t id v :
  TableOk t -> contents t !! id = Some v ->
  exists t', erase id t = (Ok tt, t') /\ TableOk t' /\ contents t' = delete id (contents t).
Proof.
  intros [Hs Hf Hn] Hl. pose proof (contents_range _ _ _ Hl) as Hid.
  destruct t as [s h]; cbn [slots free_ids] in *.
  unfold erase, set_slot; cbn [slots free_ids].
  replace ((0 <=? id) && _) with true by (symmetry; lia).
  assert (Hslot : s !! Z.to_nat id = Some (Some v)).
  { rewrite lookup_contents in Hl. cbn [slots] in Hl. revert Hl. case_bool; [done|].
    destruct (s !! Z.to_nat id) as [[w|]|]; cbn; congruence. }
  eexists. split; [done|]. split; [split; cbn [slots free_ids]|].
  - apply heap_push_sorted; [done|]. intros Hin. apply Hf in Hin as [_ Hin]. congruence.
  - intros k. rewrite elem_of_heap_push. destruct (decide (k = id)) as [->|Hne].
    + rewrite list_lookup_insert_eq by lia. split; [|by left]. split; [lia|done].
    + rewrite Hf. split.
      * intros [->|[Hk Hkl]]; [done|]. split; [done|]. by rewrite list_lookup_insert_ne by lia.
      * intros [Hk Hkl]. right. split; [done|]. by rewrite list_lookup_insert_ne in Hkl by lia.
  - by rewrite length_insert.
  - by apply (contents_set s _ h id None).
Qed.

Lemma update_spec t id (f : T -> T) :
  0 <= id -> TableOk t -> TableOk (update id f t) /\ contents (update id f t) = alter f id (contents t).
Proof.
  intros Hid [Hs Hf Hn]. split; [split; cbn [slots free_ids update]|].
  - done.
  - intros k. rewrite Hf. apply and_iff_compat_l.
    destruct (decide (Z.to_nat k = Z.to_nat id)) as [->|Hne].
    + rewrite list_lookup_alter_eq. destruct (slots t !! Z.to_nat id) as [[w|]|]; cbn; split; congruence.
    + by rewrite list_lookup_alter_ne by done.
  - by rewrite length_alter.
  - apply map_eq. intros k. rewrite lookup_contents. cbn [slots update].
    destruct (decide (k = id)) as [->|Hne].
    + rewrite lookup_alter_eq, lookup_contents. case_bool; [done|].
      rewrite list_lookup_alter_eq. by destruct (slots t !! Z.to_nat id) as [[w|]|].
    + rewrite lookup_alter_ne, lookup_contents by done. case_bool; [done|].
      rewrite list_lookup_alter_ne by lia. done.
Qed.

Lemma elem_of_live l v : v ∈ live l <-> Some v ∈ l.
Proof.
  induction l as [|[w|] l IH]; cbn; [set_solver| |];
    rewrite ?elem_of_cons, IH; split; intros; naive_solver.
Qed.

Lemma elem_of_iter t v : v ∈ iter t <-> exists id, contents t !! id = Some v.
Proof.
  unfold iter. rewrite elem_of_live, list_elem_of_lookup. split.
  - intros [i Hi]. exists (Z.of_nat i). rewrite lookup_contents. case_bool; [lia|].
    by rewrite Nat2Z.id, Hi.
  - intros [id Hid]. rewrite lookup_contents in Hid. revert Hid. case_bool; [done|].
    destruct (slots t !! Z.to_nat id) as [[w|]|] eqn:Hs; cbn; try done.
    intros [= ->]. eauto.
Qed.

End lemmas.

(** ** Sequences of operations *)
Inductive Op (T : Type) := Push (v : T) | Erase (id : Z) | Find (id : Z) | Modify (id : Z) (f : T -> T).
Arguments Push {T} v.
Arguments Erase {T} id.
Arguments Find {T} id.
Arguments Modify {T} id f.

Inductive Reply (T : Type) := Id (id : Z) | Done | Found (v : option T).
Arguments Id {T} id.
Arguments Done {T}.
Arguments Found {T} v.

Definition apply_op {T} (o : Op T) : ST (ExportTable T) (Reply T) := fun t =>
  match o with
  | Push v => (id ← push v; ret (Id id)) t
  | Erase id => (erase id ;; ret Done) t
  | Find id => (Ok (Found (find id t)), t)
  | Modify id f => (Ok Done, update id f t)
  end.

Fixpoint run {T} (os : list (Op T)) : ST (ExportTable T) (list (Reply T)) :=
  match os with
  | [] => ret []
  | o :: os => r ← apply_op o; rs ← run os; ret (r :: rs)
  end.

(** The specification: a finite map.  A caller erases and modifies only ids
    that are in use, and never holds [2^32 - 1] entries. *)
Definition spec_op {T} (o : Op T) (m : gmap Z T) : option (Reply T * gmap Z T) :=
  match o with
  | Push v =>
      if Z.of_nat (size m) <? 2 ^ 32 - 1
      then Some (Id (least_unused m), <[least_unused m := v]> m) else None
  | Erase id => match m !! id with Some _ => Some (Done, delete id m) | None => None end
  | Find id => Some (Found (m !! id), m)
  | Modify id f => match m !! id with Some _ => Some (Done, alter f id m) | None => None end
  end.

Fixpoint spec_run {T} (os : list (Op T)) (m : gmap Z T) : option (list (Reply T) * gmap Z T) :=
  match os with
  | [] => Some ([], m)
  | o :: os =>
      match spec_op o m with
      | Some (r, m) => match spec_run os m with Some (rs, m) => Some (r :: rs, m) | None => None end
      | None => None
      end
  end.

Lemma apply_op_refines {T} (o : Op T) t r m :
  TableOk t -> spec_op o (contents t) = Some (r, m) ->
  exists t', apply_op o t = (Ok r, t') /\ TableOk t' /\ contents t' = m.
Proof.
  intros Ht. destruct o as [v|id|id|id f]; cbn [spec_op apply_op].
  - case_bool; [|done]. intros [= <- <-]. destruct (push_spec t v) as (t' & Hp & Hok & Hc); [done|done|].
    exists t'. cbn. by rewrite Hp.
  - destruct (contents t !! id) eqn:Hid; [|done]. intros [= <- <-].
    destruct (erase_spec t id _ Ht Hid) as (t' & He & Hok & Hc). exists t'. cbn. by rewrite He.
  - intros [= <- <-]. exists t. by rewrite find_contents.
  - destruct (contents t !! id) eqn:Hid; [|done]. intros [= <- <-].
    pose proof (contents_range _ _ _ Hid) as Hr.
    destruct (update_spec t id f) as [Hok Hc]; [lia|done|]. eauto.
Qed.

End ExportTable.
