(* ===== verification/RpcTypes.v ===== *)
(** * The state of an RPC connection (capnp-rpc/src/rpc.rs)

    The messages of the protocol as the generated accessors present them, the
    capabilities as the connection sees them, and the four tables with the
    rest of [ConnectionState].

    Lifetimes.  An [Rc] object of the connection lives as long as a handle to
    it does, and the handles are spread over the application, the futures and
    the tables.  The model keeps the objects a table refers to weakly where
    the table can see them: the [ImportClient] of an import is in the import's
    entry (its destructor removes the entry), the [QuestionRef] of a question
    is in the question ([self_ref], which its destructor clears), the
    [PipelineClient]s and [PromiseClient]s that are alive are in maps keyed by
    address, and [live_flows] are the [flow_controller] cells that some
    [Client] still holds.  Each destructor is an operation of its own, to be
    run when the last handle is dropped. *)

From S2P Require Import Prelude RpcTables.
From stdpp Require Import gmap.
#[local] Open Scope Z_scope.
#[local] Open Scope rust_scope.

(** ** Protocol messages (schema/rpc.capnp) *)

Inductive PipelineOp := Noop | GetPointerField (ordinal : Z).

Inductive CapDescriptor :=
| CdNone
| SenderHosted (id : Z)
| SenderPromise (id : Z)
| ReceiverHosted (id : Z)
| ReceiverAnswer (question_id : Z) (transform : list PipelineOp)
| ThirdPartyHosted.

Inductive MessageTarget :=
| ImportedCap (id : Z)
| PromisedAnswer (question_id : Z) (transform : list PipelineOp).

Inductive ExceptionType := ExFailed | ExOverloaded | ExDisconnected | ExUnimplemented.

Inductive SendResultsTo := Caller | Yourself | ThirdParty.

Inductive DisembargoContext :=
| SenderLoopback (id : Z)
| ReceiverLoopback (id : Z)
| AcceptContext
| ProvideContext.

(** The content of a payload is opaque to the connection. *)
Record Payload (Content : Type) := { content : Content; cap_table : list CapDescriptor }.
Arguments content {Content} _.
Arguments cap_table {Content} _.

Inductive ReturnBody (Content : Type) :=
| Results (p : Payload Content)
| ReturnException (t : ExceptionType)
| Canceled
| ResultsSentElsewhere
| TakeFromOtherQuestion (id : Z)
| AcceptFromThirdParty.
Arguments Results {Content} p.
Arguments ReturnException {Content} t.
Arguments Canceled {Content}.
Arguments ResultsSentElsewhere {Content}.
Arguments TakeFromOtherQuestion {Content} id.
Arguments AcceptFromThirdParty {Content}.

(** [OtherMessage] are [Provide], [Accept], [Join], the obsolete messages and
    a discriminant the schema does not know. *)
Inductive Message (Content : Type) :=
| Unimplemented_ (m : Message Content)
| Abort_ (t : ExceptionType)
| Bootstrap (question_id : Z)
| Call (question_id : Z) (target : MessageTarget) (interface_id method_id : Z)
       (send_results_to : SendResultsTo) (params : Payload Content)
| Return (answer_id : Z) (no_finish_needed : bool) (body : ReturnBody Content)
| Finish (question_id : Z) (release_result_caps : bool)
| Resolve (promise_id : Z) (cap : CapDescriptor + ExceptionType)
| Release (id : Z) (reference_count : Z)
| Disembargo (target : MessageTarget) (context : DisembargoContext)
| OtherMessage.
Arguments Unimplemented_ {Content} m.
Arguments Abort_ {Content} t.
Arguments Bootstrap {Content} question_id.
Arguments Call {Content} question_id target interface_id method_id send_results_to params.
Arguments Return {Content} answer_id no_finish_needed body.
Arguments Finish {Content} question_id release_result_caps.
Arguments Resolve {Content} promise_id cap.
Arguments Release {Content} id reference_count.
Arguments Disembargo {Content} target context.
Arguments OtherMessage {Content}.

(** ** Capabilities *)

(** The three objects behind a [Client] of this connection: an import by its
    id, the other two by address. *)
Inductive ClientVariant :=
| ImportVariant (import_id : Z)
| PipelineVariant (addr : Z)
| PromiseVariant (addr : Z).

Record Client := { variant : ClientVariant; flow_controller : Z }.

(** [Box<dyn ClientHook>]: a [Client] of this connection (its brand is the
    connection's), a capability broken with an error, or any other hook (a
    local server, a client of another connection, a queued client): those
    have another brand and are known by the address [get_ptr] returns. *)
Inductive ClientHook :=
| Own (c : Client)
| Broken (addr : Z) (e : ErrorKind)
| Foreign (addr : Z).

(** [get_ptr]: addresses of different kinds of objects differ. *)
Definition Addr : Type := Z * Z.
Definition variant_ptr (v : ClientVariant) : Addr :=
  match v with
  | ImportVariant i => (1, i)
  | PipelineVariant a => (2, a)
  | PromiseVariant a => (3, a)
  end.
Definition get_ptr (h : ClientHook) : Addr :=
  match h with
  | Own c => variant_ptr (variant c)
  | Broken a _ => (0, a)
  | Foreign a => (0, a)
  end.

(** [self.get_brand() == connection_state.get_brand()] *)
Definition own_brand (h : ClientHook) : bool :=
  match h with Own _ => true | _ => false end.

#[export] Instance PipelineOp_eq_dec : EqDecision PipelineOp.
Proof. solve_decision. Defined.
#[export] Instance ClientVariant_eq_dec : EqDecision ClientVariant.
Proof. solve_decision. Defined.
#[export] Instance Client_eq_dec : EqDecision Client.
Proof. solve_decision. Defined.
#[export] Instance ClientHook_eq_dec : EqDecision ClientHook.
Proof. solve_decision. Defined.

(** What the connection asks of hooks with another brand, of the pipelines of
    the calls it dispatched (by address), and of a response's content. *)
Class Hooks (Content : Type) := {
  (** [ClientHook::get_resolved] *)
  resolved_to : Z -> option ClientHook;
  (** [ClientHook::when_more_resolved] returns a promise *)
  more_resolved : Z -> bool;
  (** [queued::Pipeline::get_pipelined_cap] *)
  queued_cap : Z -> list PipelineOp -> ClientHook;
  (** the content [set_as_capability] writes: a capability pointer to index 0 *)
  bootstrap_content : Content;
  (** [any_pointer::Reader::get_pipelined_cap] on a response's content *)
  content_cap : Content -> list (option ClientHook) -> list PipelineOp -> outcome ClientHook;
  (** more redirections than any chain of [get_resolved] takes; the loops of
      the code that follow such chains have no bound *)
  chain_bound : nat
}.

(** [Box<dyn PipelineHook>]: the pipeline of a bootstrap, of a dispatched call
    (by address), or of no answer at all. *)
Inductive PipelineHook :=
| SingleCapPipeline (cap : ClientHook)
| QueuedPipeline (addr : Z)
| BrokenPipeline (e : ErrorKind).

(** ** The tables *)

(** A [QuestionRef] without its connection and id: has it still its
    [fulfiller]? *)
Record QuestionRef := { fulfiller : bool }.

Record Question := {
  is_awaiting_return : bool;
  param_exports : list Z;
  is_tail_call : bool;
  self_ref : option QuestionRef;
  skip_finish : bool
}.

(** The promises an [Answer] holds are represented by their presence. *)
Record Answer := {
  return_has_been_sent : bool;
  pipeline : option PipelineHook;
  redirected_results : bool;
  received_finish : bool;
  call_completion_promise : bool;
  result_exports : list Z
}.

(** [Export]; [resolve_op] says that the operation which waits for a promise
    to resolve is running. *)
Record ExportEntry := {
  refcount : Z;
  canonical : bool;
  client_hook : ClientHook;
  resolve_op : bool
}.

Record WeakClient := { weak_variant : ClientVariant; weak_flow : Z }.

(** [Import] with the [ImportClient] its weak reference points to. *)
Record ImportEntry := {
  remote_ref_count : Z;
  app_client : option WeakClient;
  promise_client_to_resolve : option Z
}.

Record Embargo := { embargo_fulfiller : bool }.

Record PipelineClient := { pipeline_question : Z; pipeline_ops : list PipelineOp }.

Record PromiseClient := {
  is_resolved : bool;
  promise_cap : ClientHook;
  promise_import_id : option Z;
  received_call : bool
}.

(** [PipelineState]: the pipeline of a call this connection sent.  It waits
    for the question, or knows the response. *)
Inductive PipelineVariant_ (Content : Type) :=
| Waiting (question_id : Z)
| Resolved (c : Content) (caps : list (option ClientHook))
| PipelineError (e : ErrorKind).
Arguments Waiting {Content} question_id.
Arguments Resolved {Content} c caps.
Arguments PipelineError {Content} e.

Record PipelineState (Content : Type) := {
  pipeline_variant : PipelineVariant_ Content;
  redirect_later : bool;
  promise_clients_to_resolve : list (Z * list PipelineOp)
}.
Arguments pipeline_variant {Content} _.
Arguments redirect_later {Content} _.
Arguments promise_clients_to_resolve {Content} _.
Arguments Build_PipelineState {Content}.

(** What a question's promise resolves with: a [Response], the redirected
    results of another answer, or an error. *)
Inductive Resolution (Content : Type) :=
| Response (c : Content) (caps : list (option ClientHook))
| Redirected (answer_id : Z)
| Rejected (e : ErrorKind).
Arguments Response {Content} c caps.
Arguments Redirected {Content} answer_id.
Arguments Rejected {Content} e.

(** A call handed to [ClientHook::call]. *)
Record Dispatched (Content : Type) := {
  call_hook : ClientHook;
  call_answer : Z;
  call_interface : Z;
  call_method : Z;
  call_content : Content;
  call_caps : list (option ClientHook)
}.
Arguments call_hook {Content} _.
Arguments call_answer {Content} _.
Arguments call_caps {Content} _.
Arguments Build_Dispatched {Content}.

(** A task that [add_task] left for the event loop. *)
Inductive Task :=
| ReplyDisembargo (target : ClientHook) (embargo_id : Z)
| DropCap (cap : ClientHook).

(** [sent] is what was given to the transport, oldest first; [fulfilled] what
    was sent to the promises of questions; [calls] the calls dispatched.
    [next_addr] is an allocator of addresses and flow controller cells. *)
Record ConnectionState (Content : Type) := {
  bootstrap_cap : ClientHook;
  exports : ExportTable ExportEntry;
  questions : ExportTable Question;
  answers : gmap Z Answer;
  imports : gmap Z ImportEntry;
  exports_by_cap : gmap Addr Z;
  embargoes : ExportTable Embargo;
  tasks : list Task;
  connection : option ErrorKind;
  client_downcast_map : gmap Addr WeakClient;
  live_flows : gset Z;
  pipeline_clients : gmap Z PipelineClient;
  promise_clients : gmap Z PromiseClient;
  pipelines : gmap Z (PipelineState Content);
  next_addr : Z;
  sent : list (Message Content);
  fulfilled : list (Z * Resolution Content);
  calls : list (Dispatched Content)
}.
Arguments Build_ConnectionState {Content}.
Arguments bootstrap_cap {Content} _.
Arguments exports {Content} _.
Arguments questions {Content} _.
Arguments answers {Content} _.
Arguments imports {Content} _.
Arguments exports_by_cap {Content} _.
Arguments embargoes {Content} _.
Arguments tasks {Content} _.
Arguments connection {Content} _.
Arguments client_downcast_map {Content} _.
Arguments live_flows {Content} _.
Arguments pipeline_clients {Content} _.
Arguments promise_clients {Content} _.
Arguments pipelines {Content} _.
Arguments next_addr {Content} _.
Arguments sent {Content} _.
Arguments fulfilled {Content} _.
Arguments calls {Content} _.

Section updates.
Context {Content : Type}.
Implicit Type s : ConnectionState Content.

Definition set_exports v s :=
  {| bootstrap_cap := bootstrap_cap s; exports := v; questions := questions s; answers := answers s;
     imports := imports s; exports_by_cap := exports_by_cap s; embargoes := embargoes s; tasks := tasks s;
     connection := connection s; client_downcast_map := client_downcast_map s;
     live_flows := live_flows s; pipeline_clients := pipeline_clients s;
     promise_clients := promise_clients s; pipelines := pipelines s;
     next_addr := next_addr s; sent := sent s; fulfilled := fulfilled s; calls := calls s |}.
Definition set_questions v s :=
  {| bootstrap_cap := bootstrap_cap s; exports := exports s; questions := v; answers := answers s;
     imports := imports s; exports_by_cap := exports_by_cap s; embargoes := embargoes s; tasks := tasks s;
     connection := connection s; client_downcast_map := client_downcast_map s;
     live_flows := live_flows s; pipeline_clients := pipeline_clients s;
     promise_clients := promise_clients s; pipelines := pipelines s;
     next_addr := next_addr s; sent := sent s; fulfilled := fulfilled s; calls := calls s |}.
Definition set_answers v s :=
  {| bootstrap_cap := bootstrap_cap s; exports := exports s; questions := questions s; answers := v;
     imports := imports s; exports_by_cap := exports_by_cap s; embargoes := embargoes s; tasks := tasks s;
     connection := connection s; client_downcast_map := client_downcast_map s;
     live_flows := live_flows s; pipeline_clients := pipeline_clients s;
     promise_clients := promise_clients s; pipelines := pipelines s;
     next_addr := next_addr s; sent := sent s; fulfilled := fulfilled s; calls := calls s |}.
Definition set_imports v s :=
  {| bootstrap_cap := bootstrap_cap s; exports := exports s; questions := questions s;
     answers := answers s; imports := v; exports_by_cap := exports_by_cap s; embargoes := embargoes s;
     tasks := tasks s; connection := connection s; client_downcast_map := client_downcast_map s;
     live_flows := live_flows s; pipeline_clients := pipeline_clients s;
     promise_clients := promise_clients s; pipelines := pipelines s;
     next_addr := next_addr s; sent := sent s; fulfilled := fulfilled s; calls := calls s |}.
Definition set_exports_by_cap v s :=
  {| bootstrap_cap := bootstrap_cap s; exports := exports s; questions := questions s;
     answers := answers s; imports := imports s; exports_by_cap := v; embargoes := embargoes s;
     tasks := tasks s; connection := connection s; client_downcast_map := client_downcast_map s;
     live_flows := live_flows s; pipeline_clients := pipeline_clients s;
     promise_clients := promise_clients s; pipelines := pipelines s;
     next_addr := next_addr s; sent := sent s; fulfilled := fulfilled s; calls := calls s |}.
Definition set_embargoes v s :=
  {| bootstrap_cap := bootstrap_cap s; exports := exports s; questions := questions s;
     answers := answers s; imports := imports s; exports_by_cap := exports_by_cap s; embargoes := v;
     tasks := tasks s; connection := connection s; client_downcast_map := client_downcast_map s;
     live_flows := live_flows s; pipeline_clients := pipeline_clients s;
     promise_clients := promise_clients s; pipelines := pipelines s;
     next_addr := next_addr s; sent := sent s; fulfilled := fulfilled s; calls := calls s |}.
Definition set_tasks v s :=
  {| bootstrap_cap := bootstrap_cap s; exports := exports s; questions := questions s;
     answers := answers s; imports := imports s; exports_by_cap := exports_by_cap s;
     embargoes := embargoes s; tasks := v; connection := connection s;
     client_downcast_map := client_downcast_map s; live_flows := live_flows s;
     pipeline_clients := pipeline_clients s; promise_clients := promise_clients s;
     pipelines := pipelines s; next_addr := next_addr s; sent := sent s; fulfilled := fulfilled s;
     calls := calls s |}.
Definition set_connection v s :=
  {| bootstrap_cap := bootstrap_cap s; exports := exports s; questions := questions s;
     answers := answers s; imports := imports s; exports_by_cap := exports_by_cap s;
     embargoes := embargoes s; tasks := tasks s; connection := v;
     client_downcast_map := client_downcast_map s; live_flows := live_flows s;
     pipeline_clients := pipeline_clients s; promise_clients := promise_clients s;
     pipelines := pipelines s; next_addr := next_addr s; sent := sent s; fulfilled := fulfilled s;
     calls := calls s |}.
Definition set_client_downcast_map v s :=
  {| bootstrap_cap := bootstrap_cap s; exports := exports s; questions := questions s;
     answers := answers s; imports := imports s; exports_by_cap := exports_by_cap s;
     embargoes := embargoes s; tasks := tasks s; connection := connection s; client_downcast_map := v;
     live_flows := live_flows s; pipeline_clients := pipeline_clients s;
     promise_clients := promise_clients s; pipelines := pipelines s;
     next_addr := next_addr s; sent := sent s; fulfilled := fulfilled s; calls := calls s |}.
Definition set_live_flows v s :=
  {| bootstrap_cap := bootstrap_cap s; exports := exports s; questions := questions s;
     answers := answers s; imports := imports s; exports_by_cap := exports_by_cap s;
     embargoes := embargoes s; tasks := tasks s; connection := connection s;
     client_downcast_map := client_downcast_map s; live_flows := v;
     pipeline_clients := pipeline_clients s; promise_clients := promise_clients s;
     pipelines := pipelines s; next_addr := next_addr s; sent := sent s; fulfilled := fulfilled s;
     calls := calls s |}.
Definition set_pipeline_clients v s :=
  {| bootstrap_cap := bootstrap_cap s; exports := exports s; questions := questions s;
     answers := answers s; imports := imports s; exports_by_cap := exports_by_cap s;
     embargoes := embargoes s; tasks := tasks s; connection := connection s;
     client_downcast_map := client_downcast_map s; live_flows := live_flows s; pipeline_clients := v;
     promise_clients := promise_clients s; pipelines := pipelines s;
     next_addr := next_addr s; sent := sent s; fulfilled := fulfilled s; calls := calls s |}.
Definition set_promise_clients v s :=
  {| bootstrap_cap := bootstrap_cap s; exports := exports s; questions := questions s;
     answers := answers s; imports := imports s; exports_by_cap := exports_by_cap s;
     embargoes := embargoes s; tasks := tasks s; connection := connection s;
     client_downcast_map := client_downcast_map s; live_flows := live_flows s;
     pipeline_clients := pipeline_clients s; promise_clients := v; pipelines := pipelines s;
     next_addr := next_addr s; sent := sent s; fulfilled := fulfilled s; calls := calls s |}.
Definition set_pipelines v s :=
  {| bootstrap_cap := bootstrap_cap s; exports := exports s; questions := questions s;
     answers := answers s; imports := imports s; exports_by_cap := exports_by_cap s;
     embargoes := embargoes s; tasks := tasks s; connection := connection s;
     client_downcast_map := client_downcast_map s; live_flows := live_flows s;
     pipeline_clients := pipeline_clients s; promise_clients := promise_clients s; pipelines := v;
     next_addr := next_addr s; sent := sent s; fulfilled := fulfilled s; calls := calls s |}.
Definition set_next_addr v s :=
  {| bootstrap_cap := bootstrap_cap s; exports := exports s; questions := questions s;
     answers := answers s; imports := imports s; exports_by_cap := exports_by_cap s;
     embargoes := embargoes s; tasks := tasks s; connection := connection s;
     client_downcast_map := client_downcast_map s; live_flows := live_flows s;
     pipeline_clients := pipeline_clients s; promise_clients := promise_clients s;
     pipelines := pipelines s; next_addr := v; sent := sent s; fulfilled := fulfilled s; calls := calls s |}.
Definition set_sent v s :=
  {| bootstrap_cap := bootstrap_cap s; exports := exports s; questions := questions s;
     answers := answers s; imports := imports s; exports_by_cap := exports_by_cap s;
     embargoes := embargoes s; tasks := tasks s; connection := connection s;
     client_downcast_map := client_downcast_map s; live_flows := live_flows s;
     pipeline_clients := pipeline_clients s; promise_clients := promise_clients s;
     pipelines := pipelines s; next_addr := next_addr s; sent := v; fulfilled := fulfilled s;
     calls := calls s |}.
Definition set_fulfilled v s :=
  {| bootstrap_cap := bootstrap_cap s; exports := exports s; questions := questions s;
     answers := answers s; imports := imports s; exports_by_cap := exports_by_cap s;
     embargoes := embargoes s; tasks := tasks s; connection := connection s;
     client_downcast_map := client_downcast_map s; live_flows := live_flows s;
     pipeline_clients := pipeline_clients s; promise_clients := promise_clients s;
     pipelines := pipelines s; next_addr := next_addr s; sent := sent s; fulfilled := v; calls := calls s |}.
Definition set_calls v s :=
  {| bootstrap_cap := bootstrap_cap s; exports := exports s; questions := questions s;
     answers := answers s; imports := imports s; exports_by_cap := exports_by_cap s;
     embargoes := embargoes s; tasks := tasks s; connection := connection s;
     client_downcast_map := client_downcast_map s; live_flows := live_flows s;
     pipeline_clients := pipeline_clients s; promise_clients := promise_clients s;
     pipelines := pipelines s; next_addr := next_addr s; sent := sent s; fulfilled := fulfilled s; calls := v
     |}.

End updates.

Definition set_refcount (n : Z) (e : ExportEntry) : ExportEntry :=
  {| refcount := n; canonical := canonical e; client_hook := client_hook e;
     resolve_op := resolve_op e |}.
Definition set_resolve_op (b : bool) (e : ExportEntry) : ExportEntry :=
  {| refcount := refcount e; canonical := canonical e; client_hook := client_hook e;
     resolve_op := b |}.
Definition set_self_ref (r : option QuestionRef) (q : Question) : Question :=
  {| is_awaiting_return := is_awaiting_return q; param_exports := param_exports q;
     is_tail_call := is_tail_call q; self_ref := r; skip_finish := skip_finish q |}.
Definition set_received_call (p : PromiseClient) : PromiseClient :=
  {| is_resolved := is_resolved p; promise_cap := promise_cap p;
     promise_import_id := promise_import_id p; received_call := true |}.
