(* ===== verification/RpcConn.v ===== *)
(** * The operations of an RPC connection (capnp-rpc/src/rpc.rs)

    The handlers of [ConnectionState] and the destructors and operations of
    the objects it hands out, as state transformers on
    [RpcTypes.ConnectionState].  An error leaves the changes made before it,
    as in the code; [Panic] stands for a panic of the code. *)

From S2P Require Import Prelude RpcTables RpcTypes.
From stdpp Require Import gmap.
#[local] Open Scope Z_scope.
#[local] Open Scope rust_scope.

(** ** Errors on the wire *)

Definition from_error (e : ErrorKind) : ExceptionType :=
  match e with
  | Failed => ExFailed
  | Overloaded => ExOverloaded
  | Disconnected => ExDisconnected
  | Unimplemented => ExUnimplemented
  | SettingDynamicCapabilitiesIsUnsupported => ExUnimplemented
  | _ => ExFailed
  end.
Definition remote_exception_to_error (t : ExceptionType) : ErrorKind :=
  match t with
  | ExFailed => Failed
  | ExOverloaded => Overloaded
  | ExDisconnected => Disconnected
  | ExUnimplemented => Unimplemented
  end.

Section operations.
Context {Content : Type} `{Hooks Content}.
Notation Conn := (ConnectionState Content).
Notation M := (ST Conn).

(** ** Primitives *)

Definition gets {A} (f : Conn -> A) : M A := fun s => (Ok (f s), s).
Definition modify (f : Conn -> Conn) : M unit := fun s => (Ok tt, f s).
Definition on_exports {A} (c : ST (ExportTable ExportEntry) A) : M A := fun s =>
  let (r, t) := c (exports s) in (r, set_exports t s).
Definition on_questions {A} (c : ST (ExportTable Question) A) : M A := fun s =>
  let (r, t) := c (questions s) in (r, set_questions t s).
Definition on_embargoes {A} (c : ST (ExportTable Embargo) A) : M A := fun s =>
  let (r, t) := c (embargoes s) in (r, set_embargoes t s).
Definition update_export (id : Z) (f : ExportEntry -> ExportEntry) : M unit :=
  modify (fun s => set_exports (ExportTable.update id f (exports s)) s).
Definition update_question (id : Z) (f : Question -> Question) : M unit :=
  modify (fun s => set_questions (ExportTable.update id f (questions s)) s).

Definition alloc : M Z := fun s => (Ok (next_addr s), set_next_addr (next_addr s + 1) s).

(** [broken::new_cap] *)
Definition new_cap (e : ErrorKind) : M ClientHook := a ← alloc; ret (Broken a e).

Definition connected (s : Conn) : bool :=
  match connection s with None => true | Some _ => false end.

(** [new_outgoing_message] fails once disconnected.  A message built before
    and sent after the disconnect goes nowhere. *)
Definition new_outgoing_message : M unit :=
  c ← gets connection; match c with None => ret tt | Some e => fails e end.
Definition send (m : Message Content) : M unit :=
  modify (fun s => if connected s then set_sent (sent s ++ [m]) s else s).

Definition fulfill (id : Z) (r : Resolution Content) : M unit :=
  q ← gets (fun s => ExportTable.find id (questions s));
  match q with
  | Some q =>
      match self_ref q with
      | Some qr =>
          if fulfiller qr
          then update_question id (set_self_ref (Some {| fulfiller := false |})) ;;
               modify (fun s => set_fulfilled (fulfilled s ++ [(id, r)]) s)
          else ret tt
      | None => ret tt
      end
  | None => ret tt
  end.

(** ** Clients *)

(** [Client::new]: a new flow controller cell, registered under the pointer
    of the object behind the client. *)
Definition Client_new (v : ClientVariant) : M Client :=
  f ← alloc;
  modify (fun s => set_live_flows ({[f]} ∪ live_flows s) s) ;;
  modify (fun s => set_client_downcast_map
    (<[variant_ptr v := {| weak_variant := v; weak_flow := f |}]> (client_downcast_map s)) s) ;;
  ret {| variant := v; flow_controller := f |}.
Definition downgrade (c : Client) : WeakClient :=
  {| weak_variant := variant c; weak_flow := flow_controller c |}.

Definition alive (s : Conn) (v : ClientVariant) : bool :=
  match v with
  | ImportVariant i => match imports s !! i with Some _ => true | None => false end
  | PipelineVariant a => match pipeline_clients s !! a with Some _ => true | None => false end
  | PromiseVariant a => match promise_clients s !! a with Some _ => true | None => false end
  end.
Definition upgrade (s : Conn) (w : WeakClient) : option Client :=
  if alive s (weak_variant w) && bool_decide (weak_flow w ∈ live_flows s)
  then Some {| variant := weak_variant w; flow_controller := weak_flow w |} else None.
Definition from_ptr (p : Addr) (s : Conn) : option Client :=
  match client_downcast_map s !! p with Some w => upgrade s w | None => None end.

(** The objects behind a [Client] live as long as it does. *)
Definition pipeline_client (a : Z) : M PipelineClient :=
  pc ← gets (fun s => pipeline_clients s !! a); lift (unwrap pc).
Definition promise_client (a : Z) : M PromiseClient :=
  pc ← gets (fun s => promise_clients s !! a); lift (unwrap pc).

(** [Client::write_target], with [ConnectionState::write_target] in place:
    the target of a call over this connection, or the hook to redirect to. *)
Fixpoint Client_write_target (fuel : nat) (c : Client) : M (MessageTarget + ClientHook) :=
  match fuel with
  | O => lift OutOfFuel
  | S fuel =>
      match variant c with
      | ImportVariant i => ret (inl (ImportedCap i))
      | PipelineVariant a =>
          pc ← pipeline_client a;
          ret (inl (PromisedAnswer (pipeline_question pc) (pipeline_ops pc)))
      | PromiseVariant a =>
          pc ← promise_client a;
          modify (fun s => set_promise_clients
            (alter set_received_call a (promise_clients s)) s) ;;
          match promise_cap pc with
          | Own c' =>
              o ← gets (from_ptr (get_ptr (Own c')));
              c'' ← lift (unwrap o);
              Client_write_target fuel c''
          | h => ret (inr h)
          end
      end
  end.

Definition write_target (cap : ClientHook) : M (MessageTarget + ClientHook) :=
  match cap with
  | Own c =>
      o ← gets (from_ptr (get_ptr cap));
      c ← lift (unwrap o);
      Client_write_target chain_bound c
  | h => ret (inr h)
  end.

Definition get_resolved (s : Conn) (h : ClientHook) : option ClientHook :=
  match h with
  | Own c =>
      match variant c with
      | PromiseVariant a =>
          match promise_clients s !! a with
          | Some pc => if is_resolved pc then Some (promise_cap pc) else None
          | None => None
          end
      | _ => None
      end
  | Broken _ _ => None
  | Foreign a => resolved_to a
  end.
Definition when_more_resolved (h : ClientHook) : bool :=
  match h with
  | Own c => match variant c with PromiseVariant _ => true | _ => false end
  | Broken _ _ => false
  | Foreign a => more_resolved a
  end.

(** [while let Some(inner) = client.get_resolved() { client = inner; }] *)
Fixpoint innermost (fuel : nat) (h : ClientHook) : M ClientHook :=
  match fuel with
  | O => lift OutOfFuel
  | S fuel =>
      r ← gets (fun s => get_resolved s h);
      match r with Some h' => innermost fuel h' | None => ret h end
  end.

Definition get_innermost_client (client : ClientHook) : M ClientHook :=
  client ← innermost chain_bound client;
  match client with
  | Own _ =>
      o ← gets (from_ptr (get_ptr client));
      c ← lift (unwrap o);
      ret (Own c)
  | h => ret h
  end.

(** ** Exports *)

Definition Export_new (h : ClientHook) : ExportEntry :=
  {| refcount := 1; canonical := false; client_hook := h; resolve_op := false |}.
Definition set_canonical (b : bool) (e : ExportEntry) : ExportEntry :=
  {| refcount := refcount e; canonical := b; client_hook := client_hook e;
     resolve_op := resolve_op e |}.
Definition set_client_hook (h : ClientHook) (e : ExportEntry) : ExportEntry :=
  {| refcount := refcount e; canonical := canonical e; client_hook := h;
     resolve_op := resolve_op e |}.

(** The part of [write_descriptor] for hooks of another brand. *)
Definition export_cap (inner : ClientHook) : M (CapDescriptor * option Z) :=
  let ptr := get_ptr inner in
  known ← gets (fun s => exports_by_cap s !! ptr);
  match known with
  | Some export_id =>
      e ← gets (fun s => ExportTable.find export_id (exports s));
      e ← lift (unwrap e);
      n ← lift (uadd 32 (refcount e) 1);
      update_export export_id (set_refcount n) ;;
      ret (SenderHosted export_id, Some export_id)
  | None =>
      export_id ← on_exports (ExportTable.push (set_canonical true (Export_new inner)));
      modify (fun s => set_exports_by_cap (<[ptr := export_id]> (exports_by_cap s)) s) ;;
      if when_more_resolved inner
      then update_export export_id (set_resolve_op true) ;;
           ret (SenderPromise export_id, Some export_id)
      else ret (SenderHosted export_id, Some export_id)
  end.

(** [write_descriptor] with [Client::write_descriptor] in place. *)
Fixpoint write_descriptor (fuel : nat) (inner : ClientHook) : M (CapDescriptor * option Z) :=
  match fuel with
  | O => lift OutOfFuel
  | S fuel =>
      inner ← innermost chain_bound inner;
      match inner with
      | Own c =>
          o ← gets (from_ptr (get_ptr inner));
          c ← lift (unwrap o);
          match variant c with
          | ImportVariant i => ret (ReceiverHosted i, None)
          | PipelineVariant a =>
              pc ← pipeline_client a;
              ret (ReceiverAnswer (pipeline_question pc) (pipeline_ops pc), None)
          | PromiseVariant a =>
              pc ← promise_client a;
              modify (fun s => set_promise_clients
                (alter set_received_call a (promise_clients s)) s) ;;
              write_descriptor fuel (promise_cap pc)
          end
      | h => export_cap h
      end
  end.

Fixpoint write_descriptors (caps : list (option ClientHook)) : M (list CapDescriptor * list Z) :=
  match caps with
  | [] => ret ([], [])
  | None :: caps =>
      '(ds, ids) ← write_descriptors caps;
      ret (CdNone :: ds, ids)
  | Some cap :: caps =>
      '(d, id) ← unwrap_result (write_descriptor chain_bound cap);
      '(ds, ids) ← write_descriptors caps;
      ret (d :: ds, match id with Some id => id :: ids | None => ids end)
  end.

Definition release_export (id count : Z) : M unit :=
  e ← gets (fun s => ExportTable.find id (exports s));
  match e with
  | None => fails Failed
  | Some e =>
      if refcount e <? count then fails Failed
      else
        update_export id (set_refcount (refcount e - count)) ;;
        if refcount e - count =? 0 then
          (if canonical e
           then modify (fun s => set_exports_by_cap
                  (delete (get_ptr (client_hook e)) (exports_by_cap s)) s)
           else ret tt) ;;
          on_exports (ExportTable.erase id)
        else ret tt
  end.

Fixpoint release_exports (ids : list Z) : M unit :=
  match ids with
  | [] => ret tt
  | id :: ids => release_export id 1 ;; release_exports ids
  end.

(** ** Imports *)

Definition set_remote_ref_count (n : Z) (i : ImportEntry) : ImportEntry :=
  {| remote_ref_count := n; app_client := app_client i;
     promise_client_to_resolve := promise_client_to_resolve i |}.
Definition set_app_client (w : WeakClient) (i : ImportEntry) : ImportEntry :=
  {| remote_ref_count := remote_ref_count i; app_client := Some w;
     promise_client_to_resolve := promise_client_to_resolve i |}.
Definition set_promise_client_to_resolve (p : option Z) (i : ImportEntry) : ImportEntry :=
  {| remote_ref_count := remote_ref_count i; app_client := app_client i;
     promise_client_to_resolve := p |}.
Definition Import_new : ImportEntry :=
  {| remote_ref_count := 0; app_client := None; promise_client_to_resolve := None |}.
Definition update_import (id : Z) (f : ImportEntry -> ImportEntry) : M unit :=
  modify (fun s => set_imports (alter f id (imports s)) s).

(** [PromiseClient::new] with the [Client] made from it *)
Definition PromiseClient_new (initial : ClientHook) (import_id : option Z) : M (Z * Client) :=
  p ← alloc;
  modify (fun s => set_promise_clients
    (<[p := {| is_resolved := false; promise_cap := initial; promise_import_id := import_id;
               received_call := false |}]> (promise_clients s)) s) ;;
  client ← Client_new (PromiseVariant p);
  ret (p, client).

Definition import (import_id : Z) (is_promise : bool) : M ClientHook :=
  known ← gets (fun s => imports s !! import_id);
  match known with
  | Some _ => ret tt
  | None => modify (fun s => set_imports (<[import_id := Import_new]> (imports s)) s)
  end ;;
  i ← gets (fun s => imports s !! import_id);
  i ← lift (unwrap i);
  n ← lift (uadd 32 (remote_ref_count i) 1);
  update_import import_id (set_remote_ref_count n) ;;
  if is_promise then
    match app_client i with
    | Some w =>
        c ← gets (fun s => upgrade s w);
        c ← lift (unwrap c);
        ret (Own c)
    | None =>
        client ← Client_new (ImportVariant import_id);
        '(p, client) ← PromiseClient_new (Own client) (Some import_id);
        update_import import_id (set_promise_client_to_resolve (Some p)) ;;
        update_import import_id (set_app_client (downgrade client)) ;;
        ret (Own client)
    end
  else
    client ← Client_new (ImportVariant import_id);
    update_import import_id (set_app_client (downgrade client)) ;;
    ret (Own client).

Definition get_pipelined_cap (p : PipelineHook) (ops : list PipelineOp) : M ClientHook :=
  match p with
  | SingleCapPipeline cap => match ops with [] => ret cap | _ => new_cap Failed end
  | QueuedPipeline a => ret (queued_cap a ops)
  | BrokenPipeline e => new_cap e
  end.

Definition receive_cap (d : CapDescriptor) : M (option ClientHook) :=
  match d with
  | CdNone => ret None
  | SenderHosted id => h ← import id false; ret (Some h)
  | SenderPromise id => h ← import id true; ret (Some h)
  | ReceiverHosted id =>
      e ← gets (fun s => ExportTable.find id (exports s));
      match e with
      | Some e => ret (Some (client_hook e))
      | None => h ← new_cap Failed; ret (Some h)
      end
  | ReceiverAnswer question_id ops =>
      a ← gets (fun s => answers s !! question_id);
      match (a ≫= pipeline)%stdpp with
      | Some p => h ← get_pipelined_cap p ops; ret (Some h)
      | None => h ← new_cap Failed; ret (Some h)
      end
  | ThirdPartyHosted => fails Unimplemented
  end.

Fixpoint receive_caps (ds : list CapDescriptor) : M (list (option ClientHook)) :=
  match ds with
  | [] => ret []
  | d :: ds => h ← receive_cap d; hs ← receive_caps ds; ret (h :: hs)
  end.

(** [ImportClient::drop]: the last client of an import is gone. *)
Definition ImportClient_drop (import_id : Z) : M unit :=
  i ← gets (fun s => imports s !! import_id);
  i ← lift (unwrap i);
  w ← gets (fun s => client_downcast_map s !! variant_ptr (ImportVariant import_id));
  _ ← lift (unwrap w);
  modify (fun s => set_client_downcast_map
    (delete (variant_ptr (ImportVariant import_id)) (client_downcast_map s)) s) ;;
  modify (fun s => set_imports (delete import_id (imports s)) s) ;;
  c ← gets connected;
  if (0 <? remote_ref_count i) && c then send (Release import_id (remote_ref_count i)) else ret tt.

(** ** Promise clients *)

(** [PromiseClient::resolve]; the waiters of the promise are futures and are
    not part of the state. *)
Definition PromiseClient_resolve (a : Z) (replacement : ClientHook + ErrorKind) : M unit :=
  '(replacement, is_error) ←
    match replacement with
    | inl h => ret (h, false)
    | inr e => h ← new_cap e; ret (h, true)
    end;
  pc ← promise_client a;
  is_connected ← gets connected;
  replacement ←
    (if negb (own_brand replacement) && received_call pc && negb is_error && is_connected then
       embargo_id ← on_embargoes (ExportTable.push {| embargo_fulfiller := true |});
       new_outgoing_message ;;
       redirect ← write_target (promise_cap pc);
       match redirect with
       | inr _ => lift Panic
       | inl target =>
           q ← alloc;
           send (Disembargo target (SenderLoopback embargo_id)) ;;
           ret (Foreign q)
       end
     else ret replacement);
  pc ← promise_client a;
  modify (fun s => set_promise_clients
    (<[a := {| is_resolved := true; promise_cap := replacement;
               promise_import_id := promise_import_id pc; received_call := received_call pc |}]>
       (promise_clients s)) s) ;;
  modify (fun s => set_tasks (tasks s ++ [DropCap (promise_cap pc)]) s).

(** [PromiseClient::drop].  The object is no longer alive when its destructor
    runs, so a weak reference to it does not upgrade. *)
Definition PromiseClient_drop (a : Z) : M unit :=
  pc ← promise_client a;
  modify (fun s => set_promise_clients (delete a (promise_clients s)) s) ;;
  match promise_import_id pc with
  | Some id =>
      i ← gets (fun s => imports s !! id);
      s ← get_state;
      match (i ≫= app_client)%stdpp with
      | Some w =>
          match upgrade s w with
          | Some cs =>
              if bool_decide (get_ptr (Own cs) = variant_ptr (PromiseVariant a))
              then update_import id (fun i =>
                     {| remote_ref_count := remote_ref_count i; app_client := None;
                        promise_client_to_resolve := promise_client_to_resolve i |})
              else ret tt
          | None => ret tt
          end
      | None => ret tt
      end
  | None => ret tt
  end ;;
  w ← gets (fun s => client_downcast_map s !! variant_ptr (PromiseVariant a));
  _ ← lift (unwrap w);
  modify (fun s => set_client_downcast_map
    (delete (variant_ptr (PromiseVariant a)) (client_downcast_map s)) s).

(** [PipelineClient::drop] *)
Definition PipelineClient_drop (a : Z) : M unit :=
  _ ← pipeline_client a;
  w ← gets (fun s => client_downcast_map s !! variant_ptr (PipelineVariant a));
  _ ← lift (unwrap w);
  modify (fun s => set_client_downcast_map
    (delete (variant_ptr (PipelineVariant a)) (client_downcast_map s)) s) ;;
  modify (fun s => set_pipeline_clients (delete a (pipeline_clients s)) s).

(** The last clone of a [Client] is dropped while the object behind it lives
    on through another [Client]. *)
Definition flow_drop (f : Z) : M unit :=
  modify (fun s => set_live_flows (live_flows s ∖ {[f]}) s).

(** ** Questions *)

Definition Question_new : Question :=
  {| is_awaiting_return := true; param_exports := []; is_tail_call := false;
     self_ref := None; skip_finish := false |}.

(** [QuestionRef::drop] *)
Definition QuestionRef_drop (id : Z) : M unit :=
  q ← gets (fun s => ExportTable.find id (questions s));
  q ← lift (unwrap q);
  c ← gets connected;
  (if c && negb (skip_finish q) then send (Finish id (is_awaiting_return q)) else ret tt) ;;
  if is_awaiting_return q
  then update_question id (set_self_ref None)
  else on_questions (ExportTable.erase id).

(** Register a question and its [QuestionRef]. *)
Definition push_question (exports : list Z) (tail_call : bool) : M Z :=
  question_id ← on_questions (ExportTable.push
    {| is_awaiting_return := true; param_exports := exports; is_tail_call := tail_call;
       self_ref := None; skip_finish := false |});
  ret question_id.
Definition set_question_ref (question_id : Z) : M unit :=
  q ← gets (fun s => ExportTable.find question_id (questions s));
  _ ← lift (unwrap q);
  update_question question_id (set_self_ref (Some {| fulfiller := true |})).

(** [Pipeline::new] for a question; [redirect] when its promise is given. *)
Definition Pipeline_new (question_id : Z) (redirect : bool) : M Z :=
  a ← alloc;
  modify (fun s => set_pipelines
    (<[a := {| pipeline_variant := Waiting question_id; redirect_later := redirect;
               promise_clients_to_resolve := [] |}]> (pipelines s)) s) ;;
  ret a.

Definition PipelineClient_new (question_id : Z) (ops : list PipelineOp) : M Client :=
  a ← alloc;
  modify (fun s => set_pipeline_clients
    (<[a := {| pipeline_question := question_id; pipeline_ops := ops |}]> (pipeline_clients s)) s) ;;
  Client_new (PipelineVariant a).

(** [<Pipeline as PipelineHook>::get_pipelined_cap_move] *)
Definition Pipeline_get_pipelined_cap (a : Z) (ops : list PipelineOp) : M ClientHook :=
  p ← gets (fun s => pipelines s !! a);
  p ← lift (unwrap p);
  match pipeline_variant p with
  | Waiting question_id =>
      client ← PipelineClient_new question_id ops;
      if redirect_later p then
        '(pc, result) ← PromiseClient_new (Own client) None;
        modify (fun s => set_pipelines
          (<[a := {| pipeline_variant := pipeline_variant p; redirect_later := redirect_later p;
                     promise_clients_to_resolve := promise_clients_to_resolve p ++ [(pc, ops)] |}]>
             (pipelines s)) s) ;;
        ret (Own result)
      else ret (Own client)
  | Resolved c caps => unwrap_result (lift (content_cap c caps ops))
  | PipelineError e => new_cap e
  end.

(** The cap of a drained promise client: an error of [get_pipelined_cap]
    resolves it with that error. *)
Definition resolved_cap (response : (Content * list (option ClientHook)) + ErrorKind)
    (ops : list PipelineOp) : outcome (ClientHook + ErrorKind) :=
  match response with
  | inl (c, caps) =>
      match content_cap c caps ops with
      | Ok h => Ok (inl h)
      | Err e => Ok (inr e)
      | Panic => Panic
      | UB => UB
      | OutOfFuel => OutOfFuel
      end
  | inr e => Ok (inr e)
  end.

Fixpoint resolve_drained (response : (Content * list (option ClientHook)) + ErrorKind)
    (waiting : list (Z * list PipelineOp)) : M unit :=
  match waiting with
  | [] => ret tt
  | (pc, ops) :: waiting =>
      resolved ← lift (resolved_cap response ops);
      s ← get_state;
      (if alive s (PromiseVariant pc) then PromiseClient_resolve pc resolved else ret tt) ;;
      resolve_drained response waiting
  end.

(** [PipelineState::resolve], for a pipeline that still exists *)
Definition PipelineState_resolve (a : Z)
    (response : (Content * list (option ClientHook)) + ErrorKind) : M unit :=
  p ← gets (fun s => pipelines s !! a);
  p ← lift (unwrap p);
  modify (fun s => set_pipelines
    (<[a := {| pipeline_variant := pipeline_variant p; redirect_later := redirect_later p;
               promise_clients_to_resolve := [] |}]> (pipelines s)) s) ;;
  resolve_drained response (promise_clients_to_resolve p) ;;
  modify (fun s => set_pipelines
    (alter (fun p => {| pipeline_variant :=
                          match response with
                          | inl (c, caps) => Resolved c caps
                          | inr e => PipelineError e
                          end;
                        redirect_later := redirect_later p;
                        promise_clients_to_resolve := promise_clients_to_resolve p |}) a
       (pipelines s)) s).

(** [ConnectionState::bootstrap] *)
Definition bootstrap : M ClientHook :=
  question_id ← push_question [] false;
  set_question_ref question_id ;;
  c ← gets connected;
  (if c then send (Bootstrap question_id) else lift Panic) ;;
  p ← Pipeline_new question_id true;
  Pipeline_get_pipelined_cap p [].

(** [Request::new]: it fails once disconnected. *)
Definition Request_new : M unit := new_outgoing_message.

(** [Request::send_internal] *)
Definition send_internal (target : MessageTarget) (interface_id method_id : Z) (c : Content)
    (caps : list (option ClientHook)) (tail_call : bool) : M Z :=
  '(ds, ids) ← write_descriptors caps;
  question_id ← push_question ids tail_call;
  send (Call question_id target interface_id method_id (if tail_call then Yourself else Caller)
          {| content := c; cap_table := ds |}) ;;
  set_question_ref question_id ;;
  ret question_id.

(** [Request::send]: the question and the pipeline of the call sent over this
    connection, or the hook to which the call has to be redirected. *)
Definition Request_send (target : Client) (interface_id method_id : Z) (c : Content)
    (caps : list (option ClientHook)) : M ((Z * Z) + ClientHook) :=
  write_target_result ← Client_write_target chain_bound target;
  match write_target_result with
  | inr redirect => ret (inr redirect)
  | inl t =>
      question_id ← send_internal t interface_id method_id c caps false;
      p ← Pipeline_new question_id true;
      ret (inl (question_id, p))
  end.

(** [Request::tail_send] *)
Definition Request_tail_send (target : Client) (interface_id method_id : Z) (c : Content)
    (caps : list (option ClientHook)) : M (option (Z * Z)) :=
  ok ← gets connected;
  if negb ok then ret None
  else
    write_target_result ← Client_write_target chain_bound target;
    match write_target_result with
    | inr _ => ret None
    | inl t =>
        question_id ← send_internal t interface_id method_id c caps true;
        p ← Pipeline_new question_id false;
        ret (Some (question_id, p))
    end.

(** ** Answers *)

Definition Answer_new : Answer :=
  {| return_has_been_sent := false; pipeline := None; redirected_results := false;
     received_finish := false; call_completion_promise := false; result_exports := [] |}.
Definition set_answer (id : Z) (a : Answer) : M unit :=
  modify (fun s => set_answers (<[id := a]> (answers s)) s).
Definition remove_answer (id : Z) : M unit :=
  modify (fun s => set_answers (delete id (answers s)) s).

Definition answer_has_sent_return (id : Z) (result_exports : list Z) : M unit :=
  a ← gets (fun s => answers s !! id);
  a ← lift (unwrap a);
  if received_finish a then remove_answer id
  else set_answer id
    {| return_has_been_sent := true; pipeline := pipeline a;
       redirected_results := redirected_results a; received_finish := received_finish a;
       call_completion_promise := call_completion_promise a; result_exports := result_exports |}.

(** [finish_received.set(true)]: the cell is shared with the answer. *)
Definition set_finish_received (id : Z) : M unit :=
  modify (fun s => set_answers (alter (fun a =>
    {| return_has_been_sent := return_has_been_sent a; pipeline := pipeline a;
       redirected_results := redirected_results a; received_finish := true;
       call_completion_promise := call_completion_promise a;
       result_exports := result_exports a |}) id (answers s)) s).

(** [ResultsDone::from_results_inner], for the results of the call with
    [answer_id], when the call has completed with [call_status].  [is_rpc]
    says that [ensure_initialized] made (or makes) an outgoing message: the
    results were not to be redirected and the connection was up.  [true]
    stands for the results, [false] for an error, handed to the pipeline. *)
Definition from_results_inner (answer_id : Z) (is_rpc : bool) (c : Content)
    (caps : list (option ClientHook)) (call_status : option ErrorKind) : M bool :=
  if is_rpc then
    a ← gets (fun s => answers s !! answer_id);
    a ← lift (unwrap a);
    up ← gets connected;
    match received_finish a, call_status with
    | true, _ =>
        (if up then send (Return answer_id false Canceled) else ret tt) ;;
        answer_has_sent_return answer_id [] ;;
        ret true
    | false, None =>
        let no_finish_needed := match caps with [] => true | _ => false end in
        (if no_finish_needed then set_finish_received answer_id else ret tt) ;;
        '(ds, ids) ← write_descriptors caps;
        send (Return answer_id no_finish_needed (Results {| content := c; cap_table := ds |})) ;;
        answer_has_sent_return answer_id ids ;;
        ret true
    | false, Some e =>
        (if up then send (Return answer_id false (ReturnException (from_error e))) else ret tt) ;;
        answer_has_sent_return answer_id [] ;;
        ret false
    end
  else ret true.

(** [ResultsInner::ensure_initialized] *)
Definition results_are_rpc (redirect_results : bool) (s : Conn) : bool :=
  negb redirect_results && connected s.

(** ** Incoming messages *)

Definition send_unimplemented (m : Message Content) : M unit :=
  new_outgoing_message ;; send (Unimplemented_ m).

Definition handle_unimplemented (m : Message Content) : M unit :=
  match m with
  | Resolve _ (inl d) =>
      match d with
      | CdNone => ret tt
      | SenderHosted id => release_export id 1
      | SenderPromise id => release_export id 1
      | ReceiverAnswer _ _ | ReceiverHosted _ => ret tt
      | ThirdPartyHosted => fails Failed
      end
  | Resolve _ (inr _) => ret tt
  | _ => fails Failed
  end.

Definition handle_bootstrap (answer_id : Z) : M unit :=
  up ← gets connected;
  if negb up then ret tt
  else
    new_outgoing_message ;;
    cap ← gets bootstrap_cap;
    '(ds, ids) ← write_descriptors [Some cap];
    a ← gets (fun s => answers s !! answer_id);
    match a with
    | Some _ => release_exports ids ;; fails Failed
    | None =>
        set_answer answer_id
          {| return_has_been_sent := true; pipeline := Some (SingleCapPipeline cap);
             redirected_results := false; received_finish := false;
             call_completion_promise := false; result_exports := ids |} ;;
        send (Return answer_id false (Results {| content := bootstrap_content; cap_table := ds |}))
    end.

Definition handle_finish (answer_id : Z) (release_result_caps : bool) : M unit :=
  a ← gets (fun s => answers s !! answer_id);
  exports_to_release ←
    match a with
    | None => ret []
    | Some a =>
        (if return_has_been_sent a then remove_answer answer_id
         else set_answer answer_id
           {| return_has_been_sent := return_has_been_sent a; pipeline := None;
              redirected_results := redirected_results a; received_finish := true;
              call_completion_promise := false;
              result_exports := if release_result_caps then [] else result_exports a |}) ;;
        ret (if release_result_caps then result_exports a else [])
    end;
  release_exports exports_to_release.

Definition handle_resolve (promise_id : Z) (cap : CapDescriptor + ExceptionType) : M unit :=
  replacement_or_error ←
    match cap with
    | inl d =>
        h ← receive_cap d;
        match h with Some h => ret (inl h) | None => fails Failed end
    | inr t => ret (inr (remote_exception_to_error t))
    end;
  i ← gets (fun s => imports s !! promise_id);
  match i with
  | None => ret tt
  | Some i =>
      match promise_client_to_resolve i with
      | Some p =>
          update_import promise_id (set_promise_client_to_resolve None) ;;
          s ← get_state;
          if alive s (PromiseVariant p) then PromiseClient_resolve p replacement_or_error
          else ret tt
      | None => fails Failed
      end
  end.

Definition get_message_target (target : MessageTarget) : M ClientHook :=
  match target with
  | ImportedCap export_id =>
      e ← gets (fun s => ExportTable.find export_id (exports s));
      match e with Some e => ret (client_hook e) | None => fails Failed end
  | PromisedAnswer question_id ops =>
      a ← gets (fun s => answers s !! question_id);
      get_pipelined_cap
        match (a ≫= pipeline)%stdpp with Some p => p | None => BrokenPipeline Failed end ops
  end.

Definition handle_disembargo (target : MessageTarget) (context : DisembargoContext) : M unit :=
  match context with
  | SenderLoopback embargo_id =>
      target ← get_message_target target;
      target ← innermost chain_bound target;
      if own_brand target
      then modify (fun s => set_tasks (tasks s ++ [ReplyDisembargo target embargo_id]) s)
      else fails Failed
  | ReceiverLoopback embargo_id =>
      e ← gets (fun s => ExportTable.find embargo_id (embargoes s));
      match e with
      | Some e =>
          if embargo_fulfiller e then on_embargoes (ExportTable.erase embargo_id)
          else lift Panic
      | None => fails Failed
      end
  | AcceptContext | ProvideContext => fails Unimplemented
  end.

(** A task left by [handle_disembargo] or by a resolved promise client (which
    only drops the client's old capability). *)
Definition run_task (t : Task) : M unit :=
  match t with
  | ReplyDisembargo target embargo_id =>
      up ← gets connected;
      if up then
        o ← gets (from_ptr (get_ptr target));
        c ← lift (unwrap o);
        redirect ← Client_write_target chain_bound c;
        match redirect with
        | inl t => send (Disembargo t (ReceiverLoopback embargo_id))
        | inr _ => fails Failed
        end
      else ret tt
  | DropCap _ => ret tt
  end.

(** The [Call] arm of [handle_message]. *)
Definition handle_call (question_id : Z) (target : MessageTarget) (interface_id method_id : Z)
    (send_results_to : SendResultsTo) (params : Payload Content) : M unit :=
  capability ← get_message_target target;
  redirect_results ←
    match send_results_to with
    | Caller => ret false
    | Yourself => ret true
    | ThirdParty => fails Failed
    end;
  cap_table_array ← receive_caps (cap_table params);
  a ← gets (fun s => answers s !! question_id);
  match a with
  | Some _ => fails Failed
  | None =>
      p ← alloc;
      set_answer question_id Answer_new ;;
      modify (fun s => set_calls (calls s ++
        [{| call_hook := capability; call_answer := question_id; call_interface := interface_id;
            call_method := method_id; call_content := content params;
            call_caps := cap_table_array |}]) s) ;;
      a ← gets (fun s => answers s !! question_id);
      a ← lift (unwrap a);
      set_answer question_id
        {| return_has_been_sent := return_has_been_sent a; pipeline := Some (QueuedPipeline p);
           redirected_results := redirect_results; received_finish := received_finish a;
           call_completion_promise := negb redirect_results; result_exports := result_exports a |}
  end.

Definition set_awaiting (no_finish_needed : bool) (q : Question) : Question :=
  {| is_awaiting_return := false; param_exports := param_exports q;
     is_tail_call := is_tail_call q; self_ref := self_ref q;
     skip_finish := skip_finish q || no_finish_needed |}.

(** The [Return] arm; [questions.slots[question_id as usize]] panics past the
    end of the table. *)
Definition handle_return (m : Message Content) (question_id : Z) (no_finish_needed : bool)
    (body : ReturnBody Content) : M unit :=
  len ← gets (fun s => Z.of_nat (length (slots (questions s))));
  if len <=? question_id then lift Panic
  else
    q ← gets (fun s => ExportTable.find question_id (questions s));
    match q with
    | None => fails Failed
    | Some question =>
        update_question question_id (set_awaiting no_finish_needed) ;;
        match self_ref question with
        | Some _ =>
            match body with
            | Results results =>
                caps ← receive_caps (cap_table results);
                fulfill question_id (Response (content results) caps)
            | ReturnException t =>
                fulfill question_id (Rejected (remote_exception_to_error t))
            | Canceled | ResultsSentElsewhere | AcceptFromThirdParty => send_unimplemented m
            | TakeFromOtherQuestion id =>
                a ← gets (fun s => answers s !! id);
                match a with
                | Some a =>
                    if redirected_results a then
                      set_answer id
                        {| return_has_been_sent := return_has_been_sent a; pipeline := pipeline a;
                           redirected_results := false; received_finish := received_finish a;
                           call_completion_promise := call_completion_promise a;
                           result_exports := result_exports a |} ;;
                      fulfill question_id (Redirected id)
                    else fails Failed
                | None => fails Failed
                end
            end
        | None =>
            match body with
            | TakeFromOtherQuestion _ => send_unimplemented m
            | _ => on_questions (ExportTable.erase question_id)
            end
        end
    end.

Definition handle_message (m : Message Content) : M unit :=
  match m with
  | Unimplemented_ m => handle_unimplemented m
  | Abort_ t => fails (remote_exception_to_error t)
  | Bootstrap question_id => handle_bootstrap question_id
  | Call question_id target interface_id method_id send_results_to params =>
      handle_call question_id target interface_id method_id send_results_to params
  | Return answer_id no_finish_needed body => handle_return m answer_id no_finish_needed body
  | Finish question_id release_result_caps => handle_finish question_id release_result_caps
  | Resolve promise_id cap => handle_resolve promise_id cap
  | Release id reference_count => release_export id reference_count
  | Disembargo target context => handle_disembargo target context
  | OtherMessage => send_unimplemented m
  end.

(** ** Promises this vat exported *)

(** The body of [resolve_exported_promise], when the promise has resolved. *)
Definition export_resolved (export_id : Z) (result : ClientHook + ErrorKind) : M unit :=
  match result with
  | inl resolution =>
      resolution ← get_innermost_client resolution;
      e ← gets (fun s => ExportTable.find export_id (exports s));
      match e with
      | None => fails Failed
      | Some exp =>
          (if canonical exp
           then modify (fun s => set_exports_by_cap
                  (delete (get_ptr (client_hook exp)) (exports_by_cap s)) s)
           else ret tt) ;;
          update_export export_id (fun e => set_canonical false (set_client_hook resolution e)) ;;
          repurposed ←
            (if negb (own_brand resolution) && when_more_resolved resolution then
               known ← gets (fun s => exports_by_cap s !! get_ptr resolution);
               match known with
               | Some id => ret (id =? export_id)
               | None =>
                   modify (fun s => set_exports_by_cap
                     (<[get_ptr resolution := export_id]> (exports_by_cap s)) s) ;;
                   ret true
               end
             else ret false);
          if repurposed then update_export export_id (set_canonical true)
          else
            new_outgoing_message ;;
            '(d, _) ← write_descriptor chain_bound resolution;
            send (Resolve export_id (inl d)) ;;
            update_export export_id (set_resolve_op false)
      end
  | inr e =>
      new_outgoing_message ;;
      send (Resolve export_id (inr (from_error e))) ;;
      update_export export_id (set_resolve_op false)
  end.

(** ** Disconnecting *)

Fixpoint reject_all (e : ErrorKind) (ids : list nat) : M unit :=
  match ids with
  | [] => ret tt
  | id :: ids => fulfill (Z.of_nat id) (Rejected e) ;; reject_all e ids
  end.

(** The promise clients of the imports, in the order of the map. *)
Fixpoint resolve_imports (e : ErrorKind) (ids : list Z) : M unit :=
  match ids with
  | [] => ret tt
  | id :: ids =>
      i ← gets (fun s => imports s !! id);
      match (i ≫= promise_client_to_resolve)%stdpp with
      | Some p =>
          update_import id (set_promise_client_to_resolve None) ;;
          s ← get_state;
          if alive s (PromiseVariant p) then PromiseClient_resolve p (inr e) else ret tt
      | None => ret tt
      end ;;
      resolve_imports e ids
  end.

Definition disconnect (e : ErrorKind) : M unit :=
  up ← gets connected;
  if negb up then ret tt
  else
    n ← gets (fun s => length (slots (questions s)));
    reject_all e (seq 0 n) ;;
    modify (fun s => set_answers (fmap (fun a =>
      {| return_has_been_sent := return_has_been_sent a; pipeline := None;
         redirected_results := redirected_results a; received_finish := received_finish a;
         call_completion_promise := call_completion_promise a;
         result_exports := result_exports a |}) (answers s)) s) ;;
    modify (set_exports ExportTable.new) ;;
    ids ← gets (fun s => (map_to_list (imports s)).*1);
    resolve_imports e ids ;;
    modify (set_embargoes ExportTable.new) ;;
    send (Abort_ (from_error e)) ;;
    modify (set_connection (Some e)).

(** One turn of [message_loop]: an error of [handle_message] fails the task,
    and the [ConnectionErrorHandler] disconnects. *)
Definition message_loop_turn (received : option (Message Content)) : M unit := fun s =>
  match received with
  | Some m =>
      match handle_message m s with
      | (Err e, s) => disconnect e s
      | r => r
      end
  | None => disconnect Disconnected s
  end.

(** [ConnectionState::new] *)
Definition ConnectionState_new (cap : ClientHook) (first_addr : Z) : Conn :=
  {| bootstrap_cap := cap; exports := ExportTable.new; questions := ExportTable.new;
     answers := ∅; imports := ∅; exports_by_cap := ∅; embargoes := ExportTable.new;
     tasks := []; connection := None; client_downcast_map := ∅; live_flows := ∅;
     pipeline_clients := ∅; promise_clients := ∅; pipelines := ∅; next_addr := first_addr;
     sent := []; fulfilled := []; calls := [] |}.

End operations.

(** ** Operations that leave a part of the state alone *)

Section keeps.
Context {Content : Type}.
#[local] Abbreviation Conn := (ConnectionState Content).

Definition keeps {X A} (f : Conn -> X) (c : ST Conn A) : Prop := forall s, f (snd (c s)) = f s.

Lemma keeps_bind {X A B} (f : Conn -> X) (c : ST Conn A) (k : A -> ST Conn B) :
  keeps f c -> (forall a, keeps f (k a)) -> keeps f (bind c k).
Proof.
  intros Hc Hk s. specialize (Hc s). unfold bind; cbn. destruct (c s) as [[a| | | |] s']; try done.
  cbn in *. by rewrite Hk.
Qed.
Lemma keeps_ret {X A} (f : Conn -> X) (a : A) : keeps f (ret a).
Proof. done. Qed.
Lemma keeps_lift {X A} (f : Conn -> X) (o : outcome A) : keeps f (lift o).
Proof. done. Qed.
Lemma keeps_fails {X A} (f : Conn -> X) e : keeps (A := A) f (fails e).
Proof. done. Qed.
Lemma keeps_gets {X A} (f : Conn -> X) (g : Conn -> A) : keeps f (gets g).
Proof. done. Qed.
Lemma keeps_get_state {X} (f : Conn -> X) : keeps f get_state.
Proof. done. Qed.
Lemma keeps_modify {X} (f : Conn -> X) (g : Conn -> Conn) : (forall s, f (g s) = f s) -> keeps f (modify g).
Proof. done. Qed.
Lemma keeps_new_cap {X} (f : Conn -> X) e : (forall v s, f (set_next_addr v s) = f s) -> keeps f (new_cap e).
Proof. intros Hf. apply keeps_bind; [intros s; apply Hf|by intros]. Qed.
End keeps.

Ltac keeps_step :=
  first
    [ progress intros
    | apply keeps_bind
    | apply keeps_ret | apply keeps_lift | apply keeps_fails | apply keeps_gets
    | apply keeps_get_state | apply keeps_modify; [intros; repeat case_match; done]
    | match goal with |- keeps _ (let '(_, _) := ?x in _) => destruct x end
    | match goal with |- keeps _ (match ?x with _ => _ end) => destruct x end ].
Ltac keeps_tac := repeat keeps_step.
