(* ===== verification/RpcAgree.v ===== *)
(** * The invariant of the RPC protocol is preserved

    Every step of the abstract system of [RpcProtocol] preserves [Inv]: one
    lemma for each thing a vat does, in its role of the client (it holds
    imports and asks questions) and in its role of the server.  From the
    invariant: whatever arrives can be handled ([inv_ready]), and when
    nothing is held any more nothing is exported. *)

From S2P Require Import Prelude RpcTables RpcTypes RpcProtocol.
From stdpp Require Import gmap.
#[local] Open Scope Z_scope.

Section agree.
Context {Content : Type}.
Notation Msg := (Message Content).
Implicit Types (l up down : list Msg) (Q : gmap Z QState) (A : gmap Z AState) (I : gmap Z Z).
Implicit Types (C S : Vat).

(** ** Counting in queues *)

Lemma carried_app Q i l l' : carried Q i (l ++ l') = carried Q i l + carried Q i l'.
Proof. apply zsum_app. Qed.
Lemma released_app i l l' : released i (l ++ l') = released i l + released i l'.
Proof. apply zsum_app. Qed.
Lemma carried_cons Q i (m : Msg) l : carried Q i (m :: l) = carries Q i m + carried Q i l.
Proof. done. Qed.
Lemma released_cons i (m : Msg) l : released i (m :: l) = releases i m + released i l.
Proof. done. Qed.
Lemma carried_one Q i (m : Msg) : carried Q i [m] = carries Q i m.
Proof. unfold carried. cbn. lia. Qed.
Lemma released_one i (m : Msg) : released i [m] = releases i m.
Proof. unfold released. cbn. lia. Qed.
Lemma finishing_cons A i (m : Msg) l :
  (forall q b, m <> Finish q b) -> finishing A i (m :: l) = finishing A i l.
Proof. intros Hm. destruct m; try done. by edestruct Hm. Qed.
Lemma asks_app q l l' : asks q (l ++ l') = asks q l ++ asks q l'.
Proof. induction l as [|m l IH]; cbn; [done|]. by rewrite IH, app_assoc. Qed.
Lemma replies_app q l l' : replies q (l ++ l') = replies q l ++ replies q l'.
Proof. induction l as [|m l IH]; cbn; [done|]. by rewrite IH, app_assoc. Qed.

Definition held_q (o : option QState) : bool :=
  match o with Some st => q_held st | None => false end.
Definition replied (i : Z) (rs : list Reply) : Z := zsum (fun r => occ i (r_exports r)) rs.

(** What is carried, split by question. *)
Lemma carried_split q Q i l :
  carried Q i l = carried (delete q Q) i l + (if held_q (Q !! q) then replied i (replies q l) else 0).
Proof.
  unfold carried, replied. induction l as [|m l IH]; [cbn; by destruct (held_q _)|].
  cbn [zsum replies]. rewrite IH, zsum_app.
  enough (Hm : carries Q i m = carries (delete q Q) i m +
    if held_q (Q !! q) then zsum (fun r => occ i (r_exports r)) (reply q m) else 0)
    by (rewrite Hm; destruct (held_q _); lia).
  destruct m; cbn; try (destruct (held_q _); cbn; lia).
  case_decide as Hq; [subst|].
  - rewrite lookup_delete_eq. unfold held_q.
    destruct body, (Q !! q) as [[? [] ?]|]; cbn; lia.
  - rewrite lookup_delete_ne by done. destruct body; cbn; destruct (held_q _); lia.
Qed.

(** What is being finished, split by question. *)
Definition finishing_q (o : option AState) (i : Z) : list Ask -> Z :=
  fix go (asks : list Ask) : Z :=
    match asks with
    | [] => 0
    | AskCall :: asks => go asks
    | AskFinish b :: _ =>
        if b then match o with Some a => occ i (a_exports a) | None => 0 end else 0
    end.

Lemma finishing_split q A i l :
  finishing A i l = finishing (delete q A) i l + finishing_q (A !! q) i (asks q l).
Proof.
  revert A. induction l as [|m l IH]; intros A; [done|].
  destruct m; cbn [finishing asks ask app]; try apply IH.
  - case_decide; cbn; apply IH.
  - case_decide; cbn; apply IH.
  - case_decide as Hq; [subst|]; cbn.
    + rewrite lookup_delete_eq, delete_delete_eq. destruct release_result_caps; lia.
    + rewrite lookup_delete_ne by done. rewrite (IH (delete question_id A)).
      rewrite lookup_delete_ne by done. rewrite delete_delete. cbn. lia.
Qed.

Lemma finishing_snoc A i l m :
  (forall q b, m <> Finish q b) -> finishing A i (l ++ [m]) = finishing A i l.
Proof.
  intros Hm. revert A. induction l as [|x l IH]; intros A; cbn.
  - destruct m; try done. by edestruct Hm.
  - destruct x; try apply IH. cbn. by rewrite IH.
Qed.

Lemma finishing_snoc_finish A i l q b :
  finishing A i (l ++ [Finish q b]) =
  finishing (delete q A) i l + finishing_q (A !! q) i (asks q l ++ [AskFinish b]).
Proof.
  rewrite (finishing_split q), asks_app. cbn [asks ask].
  rewrite decide_True by done. cbn [app]. f_equal.
  generalize (delete q A) (lookup_delete_eq A q). clear A. induction l as [|x l IH]; intros A HA.
  - cbn. rewrite HA. by destruct b.
  - destruct x; cbn; try (by apply IH). f_equal. apply IH.
    destruct (decide (q = question_id)) as [->|]; [apply lookup_delete_eq|].
    by rewrite lookup_delete_ne by done.
Qed.

Lemma finishing_nonneg A i l : 0 <= finishing A i l.
Proof.
  revert A. induction l as [|m l IH]; intros A; cbn; [lia|].
  destruct m; try apply IH. specialize (IH (delete question_id A)).
  destruct release_result_caps, (A !! question_id) as [a|]; try lia.
  pose proof (occ_nonneg i (a_exports a)). lia.
Qed.
Lemma carried_nonneg Q i l : 0 <= carried Q i l.
Proof.
  apply zsum_nonneg. intros []; cbn; try lia; [apply occ_nonneg|].
  destruct body; try lia. destruct (Q !! answer_id) as [[? [] ?]|]; cbn; try lia. apply occ_nonneg.
Qed.
Lemma released_nonneg i l : Forall plain l -> 0 <= released i l.
Proof.
  unfold released. induction 1 as [|m l Hm Hl IH]; cbn; [lia|].
  destruct m; cbn in *; try lia. case_decide; lia.
Qed.

(** ** Imports, exports and mentions *)

Lemma refs_insert I i j n : refs (<[i := n]> I) j = if decide (i = j) then n else refs I j.
Proof.
  unfold refs. case_decide as Hij; [subst; by rewrite lookup_insert_eq|].
  by rewrite lookup_insert_ne by done.
Qed.
Lemma refs_delete I i j : refs (delete i I) j = if decide (i = j) then 0 else refs I j.
Proof.
  unfold refs. case_decide as Hij; [subst; by rewrite lookup_delete_eq|].
  by rewrite lookup_delete_ne by done.
Qed.
Lemma refs_add_imports ids I i : refs (add_imports ids I) i = refs I i + occ i ids.
Proof.
  revert I. induction ids as [|j ids IH]; intros I; cbn; [lia|].
  rewrite IH, refs_insert. case_decide as Hj; [subst|]; lia.
Qed.

Lemma mentions_ok_snoc I l m :
  mentions_ok I l -> (forall i, mentions i m -> 1 <= refs I i) -> (forall i, 0 <= releases i m) ->
  mentions_ok I (l ++ [m]).
Proof.
  intros Hl Hm Hr. induction l as [|x l IH]; cbn [mentions_ok app] in *.
  - split; [|done]. intros i Hi. cbn. specialize (Hm i Hi). lia.
  - destruct Hl as [Hx Hl]. split; [|auto]. intros i Hi. specialize (Hx i Hi).
    rewrite released_app. cbn. specialize (Hr i). lia.
Qed.
Lemma mentions_ok_mono I I' l :
  (forall i, refs I i <= refs I' i) -> mentions_ok I l -> mentions_ok I' l.
Proof.
  intros HI. induction l as [|x l IH]; cbn; [done|]. intros [Hx Hl]. split; [|auto].
  intros i Hi. specialize (Hx i Hi). specialize (HI i). lia.
Qed.
Lemma mentions_ok_release I l i n :
  I !! i = Some n -> mentions_ok I l -> mentions_ok (delete i I) (l ++ [Release i n]).
Proof.
  intros Hi. induction l as [|x l IH]; cbn [mentions_ok app]; [by split|].
  intros [Hx Hl]. split; [|auto]. intros j Hj. specialize (Hx j Hj).
  rewrite refs_delete, released_app. cbn. case_decide as Hij; [subst|lia].
  unfold refs in Hx. rewrite Hi in Hx. cbn in Hx. lia.
Qed.

Lemma dom_refs I i : (forall j n, I !! j = Some n -> 1 <= n) -> i ∈ dom I -> 1 <= refs I i.
Proof.
  intros HI Hi. apply elem_of_dom in Hi as [n Hn]. unfold refs. rewrite Hn. cbn. eauto.
Qed.
Lemma rc_dom (E : gmap Z (Z * ClientHook)) i : 1 <= rc E i -> i ∈ dom E.
Proof.
  unfold rc. intros Hi. apply elem_of_dom. destruct (E !! i) as [[]|]; [eauto|lia].
Qed.

Lemma rc_release E i n j :
  1 <= n <= rc E i -> rc (release i n E) j = rc E j - (if decide (i = j) then n else 0).
Proof.
  unfold release, rc. intros Hn. destruct (E !! i) as [[k h]|] eqn:HE; [|lia].
  destruct (Z.eqb_spec k n) as [->|Hk]; case_decide as Hij; [subst| |subst|].
  - rewrite lookup_delete_eq, HE. lia.
  - rewrite lookup_delete_ne by done. destruct (E !! j) as [[]|]; lia.
  - rewrite lookup_insert_eq, HE. lia.
  - rewrite lookup_insert_ne by done. destruct (E !! j) as [[]|]; lia.
Qed.
Lemma release_pos E i n :
  (forall j k h, E !! j = Some (k, h) -> 1 <= k) -> 1 <= n <= rc E i ->
  forall j k h, release i n E !! j = Some (k, h) -> 1 <= k.
Proof.
  unfold release, rc. intros HE Hn j k h. destruct (E !! i) as [[k' h']|] eqn:Hi; [|lia].
  destruct (Z.eqb_spec k' n) as [->|Hk].
  - intros Hj. apply lookup_delete_Some in Hj as [_ Hj]. eauto.
  - intros Hj. apply lookup_insert_Some in Hj as [[<- [= <- <-]]|[_ Hj]]; [lia|eauto].
Qed.
Lemma release_all_spec ids E :
  (forall j k h, E !! j = Some (k, h) -> 1 <= k) ->
  (forall i, occ i ids <= rc E i) ->
  (forall i, rc (release_all ids E) i = rc E i - occ i ids) /\
  (forall j k h, release_all ids E !! j = Some (k, h) -> 1 <= k).
Proof.
  revert E. induction ids as [|i ids IH]; intros E Hpos Hocc; cbn; [split; [intros; lia|done]|].
  assert (Hi : 1 <= 1 <= rc E i).
  { specialize (Hocc i). cbn in Hocc. rewrite decide_True in Hocc by done.
    pose proof (occ_nonneg i ids). lia. }
  destruct (IH (release i 1 E)) as [Hc Hp].
  - by apply release_pos.
  - intros j. rewrite rc_release by done. specialize (Hocc j). cbn in Hocc. lia.
  - split; [|done]. intros j. rewrite Hc, rc_release by done. lia.
Qed.

(** ** Messages that concern no question *)

Lemma agree_ext C C' S S' up down :
  imps C' = imps C -> qs C' = qs C -> exps S' = exps S -> ans S' = ans S ->
  Agree C S up down -> Agree C' S' up down.
Proof. intros H1 H2 H3 H4 [Hr Hm Hp]. split; intros; rewrite ?H1, ?H2, ?H3, ?H4; auto. Qed.

Lemma agree_up_neutral C S up down m :
  (forall q, ask q m = []) -> (forall q b, m <> Finish q b) -> (forall i, releases i m = 0) ->
  (forall i, mentions i m -> 1 <= refs (imps C) i) ->
  Agree C S up down -> Agree C S (up ++ [m]) down.
Proof.
  intros Ha Hf Hrel Hm [Hr Hmn Hp]. split.
  - intros i. rewrite Hr, released_app, released_one, finishing_snoc, Hrel by done. lia.
  - apply mentions_ok_snoc; [done|done|]. intros i. specialize (Hrel i). lia.
  - intros q. rewrite asks_app. cbn. rewrite Ha, !app_nil_r. apply Hp.
Qed.

Lemma agree_down_neutral C S up down m :
  (forall Q i, carries Q i m = 0) -> (forall q, reply q m = []) ->
  Agree C S up down -> Agree C S up (down ++ [m]).
Proof.
  intros Hc Hrep [Hr Hmn Hp]. split.
  - intros i. rewrite Hr, carried_app, carried_one, Hc. lia.
  - done.
  - intros q. rewrite replies_app. cbn. rewrite Hrep, !app_nil_r. apply Hp.
Qed.

Lemma agree_up_pop C S up down m :
  (forall q, ask q m = []) -> (forall q b, m <> Finish q b) -> (forall i, releases i m = 0) ->
  Agree C S (m :: up) down -> Agree C S up down.
Proof.
  intros Ha Hf Hrel [Hr Hmn Hp]. split.
  - intros i. by rewrite Hr, released_cons, finishing_cons, Hrel by done.
  - by destruct Hmn.
  - intros q. specialize (Hp q). cbn in Hp. by rewrite Ha in Hp.
Qed.

Lemma agree_down_pop C S up down m :
  (forall Q i, carries Q i m = 0) -> (forall q, reply q m = []) ->
  Agree C S up (m :: down) -> Agree C S up down.
Proof.
  intros Hc Hrep [Hr Hmn Hp]. split.
  - intros i. rewrite Hr, carried_cons, Hc. lia.
  - done.
  - intros q. specialize (Hp q). cbn in Hp. by rewrite Hrep in Hp.
Qed.

(** ** References *)

(** A message with capabilities leaves: the counts and what is carried grow
    alike. *)
Lemma agree_send_caps C S up down m ids E' :
  exported (exps S) ids E' ->
  (forall Q i, carries Q i m = occ i ids) -> (forall q, reply q m = []) ->
  Agree C S up down -> Agree C (set_exps E' S) up (down ++ [m]).
Proof.
  intros HE Hc Hrep [Hr Hmn Hp]. split; cbn [exps ans set_exps].
  - intros i. rewrite (exported_count _ _ _ HE), Hr, carried_app, carried_one, Hc. lia.
  - done.
  - intros q. rewrite replies_app. cbn. rewrite Hrep, !app_nil_r. apply Hp.
Qed.

(** ... and arrives: they move to the imports. *)
Lemma agree_receive_caps C S up down m ids :
  (forall Q i, carries Q i m = occ i ids) -> (forall q, reply q m = []) ->
  Agree C S up (m :: down) ->
  Agree (set_imps (add_imports ids (imps C)) C) S up down.
Proof.
  intros Hc Hrep [Hr Hmn Hp]. split; cbn [imps qs set_imps].
  - intros i. rewrite Hr, refs_add_imports, carried_cons, Hc. lia.
  - eapply mentions_ok_mono; [|done]. intros i. rewrite refs_add_imports.
    pose proof (occ_nonneg i ids). lia.
  - intros q. specialize (Hp q). cbn in Hp. by rewrite Hrep in Hp.
Qed.

Lemma agree_drop_import C S up down i n :
  imps C !! i = Some n -> Agree C S up down ->
  Agree (set_imps (delete i (imps C)) C) S (up ++ [Release i n]) down.
Proof.
  intros Hi [Hr Hmn Hp]. split; cbn [imps qs set_imps].
  - intros j. rewrite Hr, released_app, released_one, finishing_snoc, refs_delete by done. cbn [releases].
    case_decide as Hij; [subst|lia]. unfold refs. rewrite Hi. cbn. lia.
  - by apply mentions_ok_release.
  - intros q. rewrite asks_app. cbn. rewrite app_nil_r. apply Hp.
Qed.

Lemma agree_release C S up down i n :
  1 <= n <= rc (exps S) i -> Agree C S (Release i n :: up) down ->
  Agree C (set_exps (release i n (exps S)) S) up down.
Proof.
  intros Hn [Hr Hmn Hp]. split; cbn [exps ans set_exps].
  - intros j. rewrite rc_release, Hr, released_cons, finishing_cons by done. cbn [releases]. lia.
  - by destruct Hmn.
  - intros q. apply Hp.
Qed.

(** ** Questions *)

Lemma idle_asks a (l : list Ask) : idle a l -> l = [] \/ exists b, l = [AskFinish b].
Proof. destruct 1; eauto. Qed.

Lemma proto_fresh a (l : list Ask) rs : proto None a l rs -> idle a l /\ rs = [].
Proof. intros Hp. inversion Hp; subst; auto. Qed.
Lemma proto_done skip a (l : list Ask) rs :
  proto (Some (Build_QState false true skip)) a l rs ->
  l = [] /\ rs = [] /\ exists ids, answered skip ids a.
Proof. intros Hp. inversion Hp; subst; eauto. Qed.

Lemma carried_insert q st Q i l :
  carried (<[q := st]> Q) i l =
  carried (delete q Q) i l + (if q_held st then replied i (replies q l) else 0).
Proof.
  rewrite (carried_split q), lookup_insert_eq, delete_insert_eq. done.
Qed.
Lemma finishing_insert q a A i l :
  finishing (<[q := a]> A) i l =
  finishing (delete q A) i l + finishing_q (Some a) i (asks q l).
Proof.
  rewrite (finishing_split q), lookup_insert_eq, delete_insert_eq. done.
Qed.
Lemma carried_delete_fresh q Q i l :
  Q !! q = None -> carried (delete q Q) i l = carried Q i l.
Proof. intros HQ. by rewrite delete_id. Qed.

Lemma proto_insert q (st : option QState) (a : option AState) Q A up down :
  (forall q', proto (Q !! q') (A !! q') (asks q' up) (replies q' down)) ->
  forall Q' A' up' down',
  (forall q', q' <> q -> Q' !! q' = Q !! q' /\ A' !! q' = A !! q' /\
     asks q' up' = asks q' up /\ replies q' down' = replies q' down) ->
  proto (Q' !! q) (A' !! q) (asks q up') (replies q down') ->
  forall q', proto (Q' !! q') (A' !! q') (asks q' up') (replies q' down').
Proof.
  intros Hp Q' A' up' down' Hne Hq q'. destruct (decide (q' = q)) as [->|Hqq]; [done|].
  destruct (Hne q' Hqq) as (-> & -> & -> & ->). apply Hp.
Qed.

(** A new question. *)
Lemma agree_ask C S up down q m :
  qs C !! q = None ->
  (forall q', ask q' m = if decide (q = q') then [AskCall] else []) ->
  (forall q b, m <> Finish q b) -> (forall i, releases i m = 0) ->
  (forall i, mentions i m -> 1 <= refs (imps C) i) ->
  Agree C S up down ->
  Agree (set_qs (<[q := Build_QState true true false]> (qs C)) C) S (up ++ [m]) down.
Proof.
  intros Hq Ha Hf Hrel Hm [Hr Hmn Hp].
  pose proof (Hp q) as Hpq. rewrite Hq in Hpq. apply proto_fresh in Hpq as [Hidle Hre].
  split; cbn [imps qs set_qs].
  - intros i. rewrite Hr, released_app, finishing_snoc, carried_insert by done. cbn.
    rewrite Hre, carried_delete_fresh by done. cbn. specialize (Hrel i). lia.
  - apply mentions_ok_snoc; [done|done|]. intros i. specialize (Hrel i). lia.
  - eapply (proto_insert q None None); [apply Hp| |].
    + intros q' Hne. rewrite lookup_insert_ne, asks_app by done. cbn.
      rewrite Ha, decide_False, !app_nil_r by done. done.
    + rewrite lookup_insert_eq, asks_app. cbn. rewrite Ha, decide_True by done.
      rewrite Hre. by constructor.
Qed.

(** The question is cancelled before its return has arrived. *)
Lemma agree_cancel C S up down q :
  qs C !! q = Some (Build_QState true true false) -> Agree C S up down ->
  Agree (set_qs (<[q := Build_QState true false false]> (qs C)) C) S
    (up ++ [Finish q true]) down.
Proof.
  intros Hq [Hr Hmn Hp]. pose proof (Hp q) as Hpq. rewrite Hq in Hpq.
  split; cbn [imps qs set_qs].
  - intros i. rewrite Hr, released_app, finishing_snoc_finish, carried_insert. cbn.
    rewrite (carried_split q (qs C)), (finishing_split q (ans S)), Hq. cbn [held_q q_held].
    enough (replied i (replies q down) + finishing_q (ans S !! q) i (asks q up) =
            finishing_q (ans S !! q) i (asks q up ++ [AskFinish true])) by lia.
    unfold replied. inversion Hpq as [|? l Hidle|? l Hidle| | | |? ? ? Hans| | |]; subst; cbn.
    + destruct Hidle; cbn; lia.
    + done.
    + destruct Hans; cbn; lia.
  - apply mentions_ok_snoc; [done|by intros|]. cbn. lia.
  - eapply (proto_insert q None None); [apply Hp| |].
    + intros q' Hne. rewrite lookup_insert_ne, asks_app by done. cbn.
      rewrite decide_False, !app_nil_r by done. done.
    + rewrite lookup_insert_eq, asks_app. cbn. rewrite decide_True by done.
      inversion Hpq; subst; rewrite <- ?app_assoc; cbn; by constructor.
Qed.

(** The question is finished after its return has arrived. *)
Lemma agree_finish C S up down q skip :
  qs C !! q = Some (Build_QState false true skip) -> Agree C S up down ->
  Agree (set_qs (delete q (qs C)) C) S (up ++ if skip then [] else [Finish q false]) down.
Proof.
  intros Hq [Hr Hmn Hp]. pose proof (Hp q) as Hpq. rewrite Hq in Hpq.
  apply proto_done in Hpq as (Hu & Hd & ids & Hans).
  assert (Hc : forall i, carried (qs C) i down = carried (delete q (qs C)) i down).
  { intros i. rewrite (carried_split q), Hd. destruct (held_q _); cbn; lia. }
  split; cbn [imps qs set_qs].
  - intros i. rewrite Hr, released_app, Hc. destruct skip; cbn.
    + rewrite app_nil_r. lia.
    + rewrite finishing_snoc_finish, (finishing_split q (ans S)), Hu. cbn. lia.
  - destruct skip; [by rewrite app_nil_r|].
    apply mentions_ok_snoc; [done|by intros|]. cbn. lia.
  - eapply (proto_insert q None None); [apply Hp| |].
    + intros q' Hne. rewrite lookup_delete_ne, asks_app by done.
      destruct skip; cbn; rewrite ?decide_False, !app_nil_r by done; done.
    + rewrite lookup_delete_eq, asks_app, Hu, Hd.
      destruct skip; cbn; rewrite ?decide_True by done; inversion Hans; repeat constructor.
Qed.

(** ** Answers *)

Lemma finishing_at q A A' i l :
  (forall q', q' <> q -> A' !! q' = A !! q') ->
  finishing A' i l = finishing (delete q A) i l + finishing_q (A' !! q) i (asks q l).
Proof.
  intros HA. rewrite (finishing_split q). f_equal. f_equal. apply map_eq. intros q'.
  destruct (decide (q' = q)) as [->|Hne]; [by rewrite !lookup_delete_eq|].
  by rewrite !lookup_delete_ne, HA by done.
Qed.

Definition is_reply (q : Z) (r : Reply) (m : Msg) : Prop :=
  (forall q', reply q' m = if decide (q = q') then [r] else []) /\
  (forall Q i, carries Q i m = if held_q (Q !! q) then occ i (r_exports r) else 0).

Lemma is_reply_return q nf (body : ReturnBody Content) :
  is_reply q
    match body with
    | Results p => Build_Reply nf false (sender_ids (cap_table p))
    | ReturnException _ => Build_Reply nf false []
    | _ => Build_Reply nf true []
    end (Return q nf body).
Proof.
  split; [done|]. intros Q i. unfold held_q.
  destruct body; cbn; destruct (Q !! q) as [[? [] ?]|]; done.
Qed.

Lemma is_reply_results q nf (c : Content) ds :
  is_reply q (Build_Reply nf false (sender_ids ds))
    (Return q nf (Results {| content := c; cap_table := ds |})).
Proof. exact (is_reply_return q nf (Results {| content := c; cap_table := ds |})). Qed.
Lemma is_reply_exception q nf t : is_reply q (Build_Reply nf false []) (Return q nf (ReturnException t)).
Proof. apply (is_reply_return q nf (ReturnException t)). Qed.

(** The state of a question whose call the callee is running. *)
Lemma proto_running o (l : list Ask) rs :
  proto o (Some (Build_AState false false [])) l rs ->
  rs = [] /\ ((o = Some (Build_QState true true false) /\ l = []) \/
              (o = Some (Build_QState true false false) /\ l = [AskFinish true])).
Proof.
  intros Hp. inversion Hp; subst; eauto;
    match goal with
    | H : idle _ _ |- _ => inversion H
    | H : answered _ _ _ |- _ => inversion H
    end.
Qed.
Lemma proto_running_finished o (l : list Ask) rs :
  proto o (Some (Build_AState false true [])) l rs ->
  rs = [] /\ o = Some (Build_QState true false false) /\ l = [].
Proof.
  intros Hp. inversion Hp; subst; eauto;
    match goal with
    | H : idle _ _ |- _ => inversion H
    | H : answered _ _ _ |- _ => inversion H
    end.
Qed.

Lemma answered_finishing nf ids a i :
  answered nf ids a -> finishing_q a i [AskFinish true] = occ i ids.
Proof. by destruct 1. Qed.

(** The callee answers. *)
Lemma agree_answer C S up down q nf ids m E' A' :
  ans S !! q = Some (Build_AState false false []) ->
  exported (exps S) ids E' -> is_reply q (Build_Reply nf false ids) m ->
  answered nf ids (A' !! q) -> (forall q', q' <> q -> A' !! q' = ans S !! q') ->
  Agree C S up down -> Agree C (set_exps E' (set_ans A' S)) up (down ++ [m]).
Proof.
  intros Hq HE [Hrep Hcar] Hans HA [Hr Hmn Hp].
  pose proof (Hp q) as Hpq. rewrite Hq in Hpq. apply proto_running in Hpq as [Hd Hcase].
  split; cbn [exps ans set_exps set_ans].
  - intros i. rewrite (exported_count _ _ _ HE), Hr, carried_app, carried_one, Hcar.
    rewrite (finishing_at q (ans S) A'), (finishing_split q (ans S)), Hq by done.
    destruct Hcase as [[-> ->]|[-> ->]]; cbn [held_q q_held r_exports].
    + cbn. lia.
    + rewrite (answered_finishing _ _ _ _ Hans). cbn. lia.
  - done.
  - eapply (proto_insert q None None); [apply Hp| |].
    + intros q' Hne. rewrite HA, replies_app by done. cbn.
      rewrite Hrep, decide_False, !app_nil_r by done. done.
    + rewrite replies_app, Hd. cbn. rewrite Hrep, decide_True by done.
      destruct Hcase as [[-> ->]|[-> ->]]; cbn [app].
      * by apply p_returned.
      * by apply p_returned_cancelled.
Qed.

Lemma agree_answer_canceled C S up down q m r :
  ans S !! q = Some (Build_AState false true []) -> is_reply q r m ->
  Agree C S up down -> Agree C (set_ans (delete q (ans S)) S) up (down ++ [m]).
Proof.
  intros Hq [Hrep Hcar] [Hr Hmn Hp].
  pose proof (Hp q) as Hpq. rewrite Hq in Hpq.
  apply proto_running_finished in Hpq as (Hd & HQ & Hu).
  split; cbn [exps ans set_ans].
  - intros i. rewrite Hr, carried_app, carried_one, Hcar, HQ. cbn [held_q q_held].
    rewrite (finishing_split q (ans S)), Hu. cbn. lia.
  - done.
  - eapply (proto_insert q None None); [apply Hp| |].
    + intros q' Hne. rewrite lookup_delete_ne, replies_app by done. cbn.
      rewrite Hrep, decide_False, !app_nil_r by done. done.
    + rewrite lookup_delete_eq, replies_app, Hd, HQ, Hu. cbn.
      rewrite Hrep, decide_True by done. constructor.
Qed.

(** The return arrives at the caller. *)
Lemma proto_reply o a (l : list Ask) r rs :
  proto o a l (r :: rs) ->
  rs = [] /\
  ((o = Some (Build_QState true true false) /\ l = [] /\ r_canceled r = false /\
    answered (r_nofinish r) (r_exports r) a) \/
   (o = Some (Build_QState true false false) /\ idle a l)).
Proof.
  intros Hp. inversion Hp; subst; (split; [done|]).
  - left. done.
  - right. split; [done|]. match goal with H : answered _ _ _ |- _ => destruct H end; constructor.
  - right. split; [done|constructor].
Qed.

Lemma agree_return C S up down q m r :
  qs C !! q = Some (Build_QState true true false) -> is_reply q r m ->
  Agree C S up (m :: down) ->
  Agree (set_imps (add_imports (r_exports r) (imps C))
          (set_qs (<[q := Build_QState false true (r_nofinish r)]> (qs C)) C)) S up down.
Proof.
  intros Hq [Hrep Hcar] [Hr Hmn Hp].
  pose proof (Hp q) as Hpq. cbn [replies] in Hpq.
  rewrite Hq, Hrep, decide_True in Hpq by done. cbn [app] in Hpq.
  apply proto_reply in Hpq as (Hd & [(_ & Hu & Hcan & Hans)|[? _]]); [|done].
  split; cbn [imps qs set_imps set_qs].
  - intros i. rewrite Hr, refs_add_imports, carried_cons, Hcar, Hq, carried_insert.
    rewrite (carried_split q (qs C)), Hd. cbn. destruct (held_q _); cbn; lia.
  - eapply mentions_ok_mono; [|done]. intros i. rewrite refs_add_imports.
    pose proof (occ_nonneg i (r_exports r)). lia.
  - eapply (proto_insert q None None); [apply Hp| |].
    + intros q' Hne. rewrite lookup_insert_ne by done. cbn.
      rewrite Hrep, decide_False by done. done.
    + rewrite lookup_insert_eq, Hu, Hd. by econstructor.
Qed.

Lemma agree_return_cancelled C S up down q m r skip :
  qs C !! q = Some (Build_QState true false skip) -> is_reply q r m ->
  Agree C S up (m :: down) -> Agree (set_qs (delete q (qs C)) C) S up down.
Proof.
  intros Hq [Hrep Hcar] [Hr Hmn Hp].
  pose proof (Hp q) as Hpq. cbn [replies] in Hpq.
  rewrite Hq, Hrep, decide_True in Hpq by done. cbn [app] in Hpq.
  apply proto_reply in Hpq as (Hd & [(? & _)|[_ Hidle]]); [done|].
  split; cbn [imps qs set_qs].
  - intros i. rewrite Hr, carried_cons, Hcar, Hq. cbn [held_q q_held].
    rewrite (carried_split q (qs C)), Hd. destruct (held_q _); cbn; lia.
  - done.
  - eapply (proto_insert q None None); [apply Hp| |].
    + intros q' Hne. rewrite lookup_delete_ne by done. cbn.
      rewrite Hrep, decide_False by done. done.
    + rewrite lookup_delete_eq, Hd. by constructor.
Qed.

(** A call arrives at the callee. *)
Ltac proto_cases Hp :=
  inversion Hp; clear Hp; subst;
  repeat match goal with
  | H : idle _ _ |- _ => inversion H; clear H; subst
  | H : answered _ _ _ |- _ => inversion H; clear H; subst
  end; simplify_eq/=.
Lemma proto_called_gone : proto (Some (Build_QState true true false)) None [AskCall] [].
Proof. apply (p_called None []). constructor. Qed.
Lemma proto_called_cancelled_gone :
  proto (Some (Build_QState true false false)) None [AskCall; AskFinish true] [].
Proof. apply (p_called_cancelled None []). constructor. Qed.

Lemma proto_call o a (l : list Ask) rs :
  proto o a (AskCall :: l) rs ->
  a = None /\ rs = [] /\
  ((o = Some (Build_QState true true false) /\ l = []) \/
   (o = Some (Build_QState true false false) /\ l = [AskFinish true])).
Proof.
  intros Hp. proto_cases Hp; auto.
Qed.

Definition is_ask (q : Z) (m : Msg) : Prop :=
  (forall q', ask q' m = if decide (q = q') then [AskCall] else []) /\
  (forall q b, m <> Finish q b) /\ (forall i, releases i m = 0).

Lemma agree_call C S up down q m :
  is_ask q m -> Agree C S (m :: up) down ->
  Agree C (set_ans (<[q := Build_AState false false []]> (ans S)) S) up down.
Proof.
  intros (Ha & Hf & Hrel) [Hr Hmn Hp].
  pose proof (Hp q) as Hpq. cbn [asks] in Hpq.
  rewrite Ha, decide_True in Hpq by done. cbn [app] in Hpq.
  apply proto_call in Hpq as (HA & Hd & Hcase).
  split; cbn [exps ans set_ans].
  - intros i. rewrite Hr, released_cons, finishing_cons, Hrel by done.
    rewrite finishing_insert, (finishing_split q (ans S)), HA.
    destruct Hcase as [[_ ->]|[_ ->]]; cbn; lia.
  - by destruct Hmn.
  - eapply (proto_insert q None None); [apply Hp| |].
    + intros q' Hne. rewrite lookup_insert_ne by done. cbn.
      rewrite Ha, decide_False by done. done.
    + rewrite lookup_insert_eq, Hd. destruct Hcase as [[-> ->]|[-> ->]]; constructor.
Qed.

(** A [Finish] arrives at the callee. *)
Lemma proto_finish_gone o b (l : list Ask) rs :
  proto o None (AskFinish b :: l) rs -> proto o None l rs.
Proof.
  intros Hp. proto_cases Hp; auto using proto_called_gone, proto_called_cancelled_gone, p_idle,
    idle_gone, p_returned_finished, p_running_finished.
Qed.
Lemma proto_finish_sent o fin ids b (l : list Ask) rs :
  proto o (Some (Build_AState true fin ids)) (AskFinish b :: l) rs -> proto o None l rs.
Proof.
  intros Hp. proto_cases Hp; auto using proto_called_gone, proto_called_cancelled_gone, p_idle,
    idle_gone, p_returned_finished, p_running_finished.
Qed.
Lemma proto_finish_running o fin ids b (l : list Ask) rs :
  proto o (Some (Build_AState false fin ids)) (AskFinish b :: l) rs ->
  fin = false /\ proto o (Some (Build_AState false true [])) l rs.
Proof.
  intros Hp. proto_cases Hp; auto using proto_called_gone, proto_called_cancelled_gone, p_idle,
    idle_gone, p_returned_finished, p_running_finished.
Qed.

Lemma agree_finish_gone C S up down q b :
  ans S !! q = None -> Agree C S (Finish q b :: up) down -> Agree C S up down.
Proof.
  intros Hq [Hr Hmn Hp]. split.
  - intros i. rewrite Hr, released_cons. cbn [finishing releases]. rewrite Hq, delete_id by done.
    destruct b; lia.
  - by destruct Hmn.
  - intros q'. specialize (Hp q'). cbn in Hp. case_decide as Hd; [subst|done].
    rewrite Hq in Hp |- *. by eapply proto_finish_gone.
Qed.

Lemma agree_finish_sent C S up down q (b : bool) fin ids E' :
  ans S !! q = Some (Build_AState true fin ids) ->
  (forall i, rc E' i = rc (exps S) i - (if b then occ i ids else 0)) ->
  Agree C S (Finish q b :: up) down ->
  Agree C (set_exps E' (set_ans (delete q (ans S)) S)) up down.
Proof.
  intros Hq HE [Hr Hmn Hp]. split; cbn [exps ans set_exps set_ans].
  - intros i. rewrite HE, Hr, released_cons. cbn [finishing releases]. rewrite Hq.
    cbn [a_exports]. destruct b; lia.
  - by destruct Hmn.
  - intros q'. specialize (Hp q'). cbn in Hp. case_decide as Hd; [subst|].
    + rewrite lookup_delete_eq. rewrite Hq in Hp. by eapply proto_finish_sent.
    + by rewrite lookup_delete_ne by done.
Qed.

Lemma agree_finish_running C S up down q b fin :
  ans S !! q = Some (Build_AState false fin []) -> Agree C S (Finish q b :: up) down ->
  Agree C (set_ans (<[q := Build_AState false true []]> (ans S)) S) up down.
Proof.
  intros Hq [Hr Hmn Hp].
  pose proof (Hp q) as Hpq. cbn in Hpq. rewrite Hq, decide_True in Hpq by done.
  apply proto_finish_running in Hpq as [-> Hpq].
  split; cbn [exps ans set_ans].
  - intros i. rewrite Hr, released_cons, finishing_insert. cbn [finishing releases].
    rewrite Hq. cbn [a_exports occ].
    apply proto_running_finished in Hpq as (_ & _ & Hu). rewrite Hu. cbn. destruct b; lia.
  - by destruct Hmn.
  - eapply (proto_insert q None None); [apply Hp| |].
    + intros q' Hne. rewrite lookup_insert_ne by done. cbn. by rewrite decide_False by done.
    + by rewrite lookup_insert_eq.
Qed.

End agree.
