(* ===== verification/RpcSafe.v ===== *)
(** * What the RPC protocol guarantees

    The invariant of [RpcProtocol] holds in every reachable state; hence
    every message that arrives can be handled without an error, a capability
    that is referred to stays exported and stays the same, and nothing stays
    exported to a vat that has dropped everything. *)

From S2P Require Import Prelude RpcTables RpcTypes RpcProtocol RpcAgree.
From stdpp Require Import gmap.
#[local] Open Scope Z_scope.

Section safe.
Context {Content : Type}.
Notation Msg := (Message Content).
Implicit Types (s : System (Content := Content)) (v : Vat) (m : Msg).

(** ** Each vat *)

Lemma exported_rc E ids E' i n h :
  exported E ids E' -> E !! i = Some (n, h) -> exists n', E' !! i = Some (n', h) /\ n <= n'.
Proof.
  intros [Hc Hk _] HE. destruct (Hk _ _ _ HE) as [n' Hn']. exists n'. split; [done|].
  specialize (Hc i). unfold rc in Hc. rewrite HE, Hn' in Hc. pose proof (occ_nonneg i ids). lia.
Qed.

Lemma add_imports_pos ids I :
  (forall i n, I !! i = Some n -> 1 <= n) ->
  forall i n, add_imports ids I !! i = Some n -> 1 <= n.
Proof.
  revert I. induction ids as [|j ids IH]; intros I HI; cbn; [done|].
  apply IH. intros i n Hi. apply lookup_insert_Some in Hi as [[<- <-]|[_ Hi]]; [|eauto].
  unfold refs. destruct (I !! j) eqn:Hj; cbn; [|lia]. apply HI in Hj. lia.
Qed.

Lemma act_vat_ok v v' (out : list Msg) : VatOk v -> act v v' out -> VatOk v'.
Proof.
  intros [He Hi] Ha. destruct Ha; split; cbn; try done;
    try (by apply (exported_pos _ _ _ ltac:(eassumption))).
  intros j k Hj. apply lookup_delete_Some in Hj as [_ Hj]. eauto.
Qed.

Lemma recv_vat_ok v m v' out : VatOk v -> recv v m v' out -> VatOk v'.
Proof.
  intros [He Hi] Hr. destruct Hr; split; cbn; try done;
    try (by apply (exported_pos _ _ _ ltac:(eassumption)));
    try (by apply add_imports_pos).
  - destruct b; [|done]. by apply release_all_spec; [|auto].
  - by apply release_pos.
Qed.

(** ** What leaves a vat *)

Lemma act_plain v v' (out : list Msg) : VatOk v -> act v v' out -> Forall plain out.
Proof.
  intros [_ Hi] Ha.
  destruct Ha; repeat match goal with H : describes _ _ |- _ => destruct H end;
    repeat constructor; cbn; try done; eauto.
  destruct skip; repeat constructor.
Qed.
Lemma recv_plain v m v' out : recv v m v' out -> Forall plain out.
Proof. intros Hr. destruct Hr; repeat constructor. Qed.

(** ** The two ends agree after every step *)

Lemma act_agree_client C C' S (out up down : list Msg) :
  VatOk C -> act C C' out -> Agree C S up down -> Agree C' S (up ++ out) down.
Proof.
  intros [_ Hpos] Ha Hag. destruct Ha.
  - apply agree_ask; cbn; try done.
  - eapply agree_ext; [| | | |apply (agree_ask C S up down q)]; try done.
    intros j [[= <-]|Hj]; apply dom_refs; try done.
    match goal with H : describes _ _ |- _ => by apply H end.
  - eapply agree_ext; [| | | |apply (agree_up_neutral C S)]; try done.
    intros j Hj. apply dom_refs; [done|].
    match goal with H : describes _ _ |- _ => by apply H end.
  - eapply agree_ext; [| | | |apply (agree_up_neutral C S)]; try done. cbn. set_solver.
  - eapply agree_ext; [| | | |apply (agree_up_neutral C S)]; done.
  - eapply agree_ext; [| | | |apply (agree_up_neutral C S)]; done.
  - by apply agree_drop_import.
  - by apply agree_cancel.
  - by apply agree_finish.
Qed.

Lemma exported_refl E :
  (forall i n h, E !! i = Some (n, h) -> 1 <= n) -> exported E [] E.
Proof. intros Hpos. split; [intros; cbn; lia|eauto|done]. Qed.

Lemma act_agree_server C S S' (out up down : list Msg) :
  VatOk S -> act S S' out -> Agree C S up down -> Agree C S' up (down ++ out).
Proof.
  intros [Hpos _] Ha Hag. destruct Ha.
  - eapply agree_ext; [| | | |apply (agree_down_neutral C S)]; done.
  - eapply agree_ext; [| | | |eapply (agree_send_caps C S)]; done.
  - eapply agree_answer; try done; [apply is_reply_results| |].
    + rewrite lookup_insert_eq. constructor.
    + intros q' Hne. by rewrite lookup_insert_ne.
  - eapply agree_ext; [| | | |eapply (agree_answer C S up down q true [] _ (exps S) (delete q (ans S)))]; try done.
    + by apply exported_refl.
    + apply (is_reply_results q true c []).
    + rewrite lookup_delete_eq. constructor.
    + intros q' Hne. by rewrite lookup_delete_ne.
  - eapply agree_ext; [| | | |eapply (agree_answer C S up down q false [] _ (exps S)
      (<[q := Build_AState true false []]> (ans S)))]; try done.
    + by apply exported_refl.
    + apply is_reply_exception.
    + rewrite lookup_insert_eq. constructor.
    + intros q' Hne. by rewrite lookup_insert_ne.
  - eapply agree_answer_canceled; try done. apply (is_reply_return q false Canceled).
  - eapply agree_ext; [| | | |apply (agree_down_neutral C S)]; done.
  - eapply agree_ext; [| | | |apply (agree_down_neutral C S)]; done.
  - destruct skip; [rewrite app_nil_r; by apply (agree_ext C C S)|].
    eapply agree_ext; [| | | |apply (agree_down_neutral C S)]; done.
Qed.

Lemma recv_agree_client C m C' S (out up down : list Msg) :
  recv C m C' out -> Agree C S up (m :: down) -> Agree C' S (up ++ out) down.
Proof.
  intros Hr Hag. pose proof (agree_proto _ _ _ _ Hag) as Hp.
  destruct Hr; rewrite ?app_nil_r; cbn [set_exps] in *.
  - apply agree_down_pop in Hag; [|done..].
    eapply agree_ext; [| | | |apply (agree_up_neutral C S up down (Return q false _))]; try done.
    cbn. set_solver.
  - eapply agree_ext; [| | | |eapply (agree_receive_caps C S up down _ (sender_ids ds)); [| |exact Hag]]; done.
  - assert (skip = false) as ->.
    { specialize (Hp q). rewrite H in Hp. by inversion Hp. }
    eapply agree_ext; [| | | |eapply (agree_return C S up down q); [exact H|apply is_reply_results|exact Hag]]; done.
  - assert (skip = false) as ->.
    { specialize (Hp q). rewrite H in Hp. by inversion Hp. }
    eapply agree_ext; [| | | |eapply (agree_return C S up down q); [exact H|apply is_reply_exception|exact Hag]]; done.
  - eapply agree_return_cancelled; [done|apply is_reply_return|done].
  - eapply agree_down_pop; [| |exact Hag]; done.
  - eapply agree_ext; [| | | |eapply (agree_down_pop C S); [| |exact Hag]]; done.
  - eapply agree_ext; [| | | |eapply (agree_down_pop C S); [| |exact Hag]]; done.
  - eapply agree_ext; [| | | |eapply (agree_down_pop C S); [| |exact Hag]]; done.
Qed.

Lemma recv_agree_server C S m S' (out up down : list Msg) :
  VatOk S -> recv S m S' out -> Agree C S (m :: up) down -> Agree C S' up (down ++ out).
Proof.
  intros [Hpos _] Hr Hag. destruct Hr; rewrite ?app_nil_r.
  - assert (Hc : Agree C (RpcProtocol.set_ans (<[q:=Build_AState false false []]> (ans S)) S) up down).
    { eapply agree_call; [|done]. split; [done|by split]. }
    eapply agree_ext; [| | | |eapply (agree_answer _ _ _ _ q false [i]); [..|exact Hc]]; try done.
    + cbn. by rewrite lookup_insert_eq.
    + apply (is_reply_results q false c [SenderHosted i]).
    + rewrite lookup_insert_eq. constructor.
    + intros q' Hne. cbn. by rewrite !lookup_insert_ne by done.
  - eapply agree_ext; [| | | |eapply agree_call; [|exact Hag]]; done.
  - eapply agree_ext; [| | | |eapply (agree_up_pop C S); [| | |exact Hag]]; done.
  - eapply agree_ext; [| | | |eapply (agree_up_pop C S); [| | |exact Hag]]; done.
  - eapply agree_ext; [| | | |eapply (agree_up_pop C S); [| | |exact Hag]]; done.
  - by eapply agree_finish_gone.
  - eapply agree_finish_sent; [done| |done]. intros j. destruct b; [|lia].
    apply release_all_spec; auto.
  - by eapply agree_finish_running.
  - by apply agree_release.
Qed.

Lemma upd_eq {A} b (x : A) f : upd b x f b = x.
Proof. unfold upd. by rewrite decide_True. Qed.
Lemma upd_negb {A} b (x : A) f : upd b x f (negb b) = f (negb b).
Proof. unfold upd. rewrite decide_False; [done|]. by destruct b. Qed.
Lemma upd_negb' {A} b (x : A) f : upd (negb b) x f b = f b.
Proof. unfold upd. rewrite decide_False; [done|]. by destruct b. Qed.

Lemma inv_both b s : InvAt s b -> InvAt s (negb b) -> Inv s.
Proof. by destruct b; intros ? ? []. Qed.

Lemma protocol_inv_step s s' : Inv s -> step s s' -> Inv s'.
Proof.
  intros Hinv Hs. destruct Hs as [b v' out Ha|b m rest v' out Hc Hr];
    destruct (Hinv b) as (Hv & Hpl & Hag); destruct (Hinv (negb b)) as (Hv' & Hpl' & Hag');
    rewrite negb_involutive in Hag';
    apply (inv_both b); unfold InvAt; cbn [vat chan];
    rewrite ?negb_involutive, ?upd_eq, ?upd_negb', ?upd_eq, ?upd_negb, ?upd_negb'.
  - split; [by apply (act_vat_ok _ _ _ Hv Ha)|]. split; [apply Forall_app; split; [done|by apply (act_plain _ _ _ Hv Ha)]|].
    by apply (act_agree_client _ _ _ _ _ _ Hv Ha).
  - split; [done|]. split; [done|]. by apply (act_agree_server _ _ _ _ _ _ Hv Ha).
  - rewrite Hc in *. split; [by apply (recv_vat_ok _ _ _ _ Hv Hr)|].
    split; [apply Forall_app; split; [done|by apply (recv_plain _ _ _ _ Hr)]|].
    by apply (recv_agree_client _ _ _ _ _ _ _ Hr).
  - rewrite Hc in *. split; [done|]. apply Forall_cons in Hpl' as [_ Hpl'].
    split; [done|]. by apply (recv_agree_server _ _ _ _ _ _ _ Hv Hr).
Qed.

Lemma inv_initial : Inv (Content := Content) initial.
Proof.
  intros b. cbn. split; [by split|]. split; [done|]. split; cbn.
  - intros i. unfold rc, refs, carried, released. cbn. by rewrite !lookup_empty.
  - done.
  - intros q. rewrite !lookup_empty. repeat constructor.
Qed.

Lemma protocol_reachable_inv s : reachable s -> Inv s.
Proof. induction 1; [apply inv_initial|by eapply protocol_inv_step]. Qed.

(** ** What arrives can be handled *)

(** The conditions under which the handlers of [rpc.rs] report no error. *)
Definition ready v m : Prop :=
  match m with
  | Bootstrap q => ans v !! q = None
  | Call q (ImportedCap i) _ _ Caller p =>
      ans v !! q = None /\ i ∈ dom (exps v) /\
      (forall j, j ∈ receiver_ids (cap_table p) -> j ∈ dom (exps v)) /\
      Forall settled_descriptor (cap_table p)
  | Return q nf body =>
      (qs v !! q = Some (Build_QState true true false) /\
       match body with
       | Results p =>
           (forall j, j ∈ receiver_ids (cap_table p) -> j ∈ dom (exps v)) /\
           Forall settled_descriptor (cap_table p)
       | ReturnException _ => True
       | _ => False
       end) \/
      (qs v !! q = Some (Build_QState true false false) /\
       forall id, body <> TakeFromOtherQuestion id)
  | Finish q b =>
      match ans v !! q with
      | None => True
      | Some a =>
          if a_sent a then b = true -> forall i, occ i (a_exports a) <= rc (exps v) i
          else a_exports a = []
      end
  | Release i n => 1 <= n <= rc (exps v) i
  | _ => False
  end.

Lemma proto_ask_call o a (l : list Ask) rs : proto o a (AskCall :: l) rs -> a = None.
Proof. intros Hp. by apply proto_call in Hp as (-> & _). Qed.

(** A capability that a queued message or an import refers to is exported. *)
Lemma agree_referenced C S (up down : list Msg) i :
  Forall plain up -> Agree C S up down -> 1 <= refs (imps C) i + released i up -> i ∈ dom (exps S).
Proof.
  intros Hpl [Hr _ _] Hi. apply rc_dom. rewrite Hr.
  pose proof (carried_nonneg (qs C) i down). pose proof (finishing_nonneg (ans S) i up). lia.
Qed.
Lemma agree_mentioned C S (m : Msg) (up down : list Msg) i :
  Forall plain (m :: up) -> Agree C S (m :: up) down -> mentions i m -> i ∈ dom (exps S).
Proof.
  intros Hpl Hag Hi. apply (agree_referenced _ _ _ _ _ Hpl Hag).
  destruct Hag as [_ [Hm _] _]. specialize (Hm i Hi). rewrite released_cons.
  destruct m; try done; cbn [releases]; lia.
Qed.

Lemma inv_ready s b m rest :
  Inv s -> chan s (negb b) = m :: rest -> ready (vat s b) m.
Proof.
  intros Hinv Hc. destruct (Hinv (negb b)) as (_ & Hpl & Hag).
  destruct (Hinv b) as (_ & _ & Hag'). rewrite negb_involutive in Hag. rewrite Hc in *.
  pose proof (Forall_inv Hpl) as Hm.
  pose proof (fun i => agree_mentioned _ _ _ _ _ i Hpl Hag) as Hment.
  destruct Hag as [Hr _ Hp]. pose proof (agree_proto _ _ _ _ Hag') as Hp'.
  destruct m; cbn in Hm |- *; try done.
  - specialize (Hp question_id). cbn in Hp. rewrite decide_True in Hp by done.
    by eapply proto_ask_call.
  - destruct Hm as ([i ->] & -> & Hds). specialize (Hp question_id). cbn in Hp.
    rewrite decide_True in Hp by done. split; [by eapply proto_ask_call|].
    split; [apply Hment; by left|]. split; [|done]. intros j Hj. apply Hment. by right.
  - specialize (Hp' answer_id). cbn in Hp'. rewrite decide_True in Hp' by done. cbn in Hp'.
    apply proto_reply in Hp' as [_ [(HQ & _ & Hcan & _)|(HQ & _)]]; [left|right].
    + split; [done|]. destruct body; try done.
    + split; [done|]. intros id ->. done.
  - destruct (ans (vat s b) !! question_id) as [a|] eqn:Ha; [|done].
    specialize (Hp question_id). cbn in Hp. rewrite decide_True, Ha in Hp by done. cbn in Hp.
    destruct a as [[] fin ids]; cbn.
    + intros -> i. rewrite Hr, released_cons. cbn [releases finishing]. rewrite Ha. cbn [a_exports].
      pose proof (carried_nonneg (qs (vat s (negb b))) i (chan s b)).
      pose proof (finishing_nonneg (delete question_id (ans (vat s b))) i rest).
      pose proof (released_nonneg i rest (Forall_inv_tail Hpl)).
      destruct (Hinv (negb b)) as ([_ Hpos] & _).
      assert (0 <= refs (imps (vat s (negb b))) i).
      { unfold refs. destruct (_ !! i) eqn:Hi; cbn; [|lia]. apply Hpos in Hi. lia. }
      lia.
    + by inversion Hp as [? ? Hi| | | | | | | | |];
        try (match goal with H : idle _ _ |- _ => inversion H end);
        try (match goal with H : answered _ _ _ |- _ => inversion H end).
  - split; [done|]. rewrite Hr, released_cons. cbn [releases finishing]. rewrite decide_True by done.
    pose proof (carried_nonneg (qs (vat s (negb b))) id (chan s b)).
    pose proof (finishing_nonneg (ans (vat s b)) id rest).
    pose proof (released_nonneg id rest (Forall_inv_tail Hpl)).
    destruct (Hinv (negb b)) as ([_ Hpos] & _).
    assert (0 <= refs (imps (vat s (negb b))) id).
    { unfold refs. destruct (_ !! id) eqn:Hi; cbn; [|lia]. apply Hpos in Hi. lia. }
    lia.
Qed.

(** ** Capabilities stay what they are *)

Definition same_cap (E E' : gmap Z (Z * ClientHook)) (i : Z) : Prop :=
  forall n h, E !! i = Some (n, h) -> E' !! i = None \/ exists n', E' !! i = Some (n', h).

Lemma same_cap_refl E i : same_cap E E i.
Proof. intros n h Hi. eauto. Qed.
Lemma same_cap_exported E ids E' i : exported E ids E' -> same_cap E E' i.
Proof. intros [_ Hk _] n h Hi. right. eauto. Qed.
Lemma same_cap_release E i n j : same_cap E (release i n E) j.
Proof.
  intros k h Hj. unfold release. destruct (E !! i) as [[k' h']|] eqn:Hi; [|eauto].
  destruct (decide (i = j)) as [->|Hne].
  - assert (h' = h) as -> by congruence. case_bool.
    + left. apply lookup_delete_eq.
    + right. rewrite lookup_insert_eq. eauto.
  - right. case_bool; [rewrite lookup_delete_ne by done|rewrite lookup_insert_ne by done]; eauto.
Qed.
Lemma same_cap_release_all ids E j : same_cap E (release_all ids E) j.
Proof.
  revert E. induction ids as [|i ids IH]; intros E; cbn; [apply same_cap_refl|].
  intros n h Hj. destruct (same_cap_release E i 1 j _ _ Hj) as [Hn|[n' Hn']].
  - left. clear -Hn. revert Hn. generalize (release i 1 E). induction ids as [|k ids IH]; cbn; [done|].
    intros F HF. apply IH. unfold release. destruct (F !! k) as [[k' h']|] eqn:Hk; [|done].
    assert (k <> j) by congruence.
    case_bool; [by rewrite lookup_delete_ne by done|by rewrite lookup_insert_ne by done].
  - by apply (IH _ _ _ Hn').
Qed.

Lemma step_same_cap s s' b i : step s s' -> same_cap (exps (vat s b)) (exps (vat s' b)) i.
Proof.
  intros [b' v' out Ha|b' m rest v' out Hc Hr]; cbn;
    (destruct (decide (b = b')) as [->|Hne];
      [rewrite upd_eq|unfold upd; rewrite decide_False by done; apply same_cap_refl]).
  - destruct Ha; cbn; eauto using same_cap_refl, same_cap_exported.
  - destruct Hr; cbn; eauto using same_cap_refl, same_cap_exported, same_cap_release.
    destruct b; eauto using same_cap_refl, same_cap_release_all.
Qed.

(** Something at vat [b] or on its way from it refers to export [i] of the
    other vat. *)
Definition refers s (b : bool) (i : Z) : Prop :=
  1 <= refs (imps (vat s b)) i \/ exists m, m ∈ chan s b /\ mentions i m.

Lemma mentions_released I l m i :
  mentions_ok I l -> Forall plain l -> m ∈ l -> mentions i m -> 1 <= refs I i + released i l.
Proof.
  induction l as [|x l IH]; [set_solver|]. intros [Hx Hl] Hpl Hm Hi.
  apply Forall_cons in Hpl as [Hpx Hpl]. rewrite released_cons.
  assert (0 <= releases i x) by (destruct x; cbn in *; try lia; case_decide; lia).
  apply elem_of_cons in Hm as [->|Hm].
  - specialize (Hx i Hi). lia.
  - specialize (IH Hl Hpl Hm Hi). lia.
Qed.

Lemma refers_exported s b i :
  Inv s -> refers s b i -> i ∈ dom (exps (vat s (negb b))).
Proof.
  intros Hinv Hi. destruct (Hinv b) as (_ & Hpl & Hag).
  apply (agree_referenced _ _ _ _ _ Hpl Hag). destruct Hi as [Hi|(m & Hm & Hi)].
  - pose proof (released_nonneg i _ Hpl). lia.
  - eapply mentions_released; try done. apply Hag.
Qed.

(** ** Nothing is leaked *)

Lemma inv_released s b :
  Inv s -> chan s b = [] -> chan s (negb b) = [] ->
  imps (vat s b) = ∅ -> qs (vat s b) = ∅ ->
  exps (vat s (negb b)) = ∅ /\ ans (vat s (negb b)) = ∅.
Proof.
  intros Hinv Hc Hc' HI HQ. destruct (Hinv b) as (_ & _ & [Hr _ Hp]).
  destruct (Hinv (negb b)) as ([Hpos _] & _). split; apply map_eq; intros i.
  - specialize (Hr i). rewrite Hc, Hc', HI in Hr. rewrite lookup_empty. unfold rc in Hr.
    destruct (exps (vat s (negb b)) !! i) as [[n h]|] eqn:Hi; [|done].
    apply Hpos in Hi. unfold refs in Hr. rewrite lookup_empty in Hr. cbn in Hr. lia.
  - specialize (Hp i). rewrite Hc, Hc', HQ in Hp. replace ((∅ : gmap Z QState) !! i) with (@None QState) in Hp by done. cbn in Hp. rewrite lookup_empty.
    apply proto_fresh in Hp as [Hp _]. by inversion Hp.
Qed.

End safe.
