(* ===== verification/RpcRefine.v ===== *)
(** * The connections of [rpc.rs] implement the protocol

    The functional behaviour of the operations of [RpcConn] on settled
    capabilities, as steps of the abstract vats of [RpcProtocol]: [abs] reads
    the four tables of a connection, [Good] is what every operation keeps,
    and each operation returns [Ok] and does what [act] or [recv] says.

    Settled capabilities: no hook the vats pass is a promise, and what they
    pass of each other's capabilities are imports. *)

From S2P Require Import Prelude RpcTables RpcTypes RpcConn RpcProtocol RpcAgree RpcSafe.
From stdpp Require Import gmap.
#[local] Open Scope Z_scope.
#[local] Open Scope rust_scope.

(** ** Running to a result *)

Definition runs {S A} (c : ST S A) (s : S) (Q : A -> S -> Prop) : Prop :=
  exists a s', c s = (Ok a, s') /\ Q a s'.

Section runs.
Context {S : Type}.
Implicit Types (s : S).

Lemma runs_ret {A} (a : A) s (Q : A -> S -> Prop) : Q a s -> runs (ret a) s Q.
Proof. intros HQ. by exists a, s. Qed.
Lemma runs_bind {A B} (c : ST S A) (k : A -> ST S B) s Q :
  runs c s (fun a s' => runs (k a) s' Q) -> runs (bind c k) s Q.
Proof.
  intros (a & s1 & Hc & b & s2 & Hk & HQ). exists b, s2. by rewrite (ST_bind_ok _ _ _ _ _ Hc).
Qed.
Lemma runs_mono {A} (c : ST S A) s (Q Q' : A -> S -> Prop) :
  runs c s Q -> (forall a s', Q a s' -> Q' a s') -> runs c s Q'.
Proof. intros (a & s' & Hc & HQ) HQQ. exists a, s'. auto. Qed.
Lemma runs_lift_bind {A B} (o : outcome A) (k : A -> ST S B) s a Q :
  o = Ok a -> runs (k a) s Q -> runs (bind (lift o) k) s Q.
Proof. by intros ->. Qed.
End runs.

(** ** The abstract view of a connection *)

Definition abs_export (e : ExportEntry) : Z * ClientHook := (refcount e, client_hook e).
Definition abs_question (q : Question) : QState :=
  Build_QState (is_awaiting_return q)
    (match self_ref q with Some _ => true | None => false end) (skip_finish q).
Definition abs_answer (a : Answer) : AState :=
  Build_AState (return_has_been_sent a) (received_finish a) (result_exports a).

Section refine.
Context {Content : Type} `{Hooks Content}.
Notation Conn := (ConnectionState Content).
Implicit Types (s : Conn).

Definition abs_exps s : gmap Z (Z * ClientHook) :=
  abs_export <$> ExportTable.contents (exports s).
Definition abs s : Vat :=
  {| exps := abs_exps s;
     imps := remote_ref_count <$> imports s;
     qs := abs_question <$> ExportTable.contents (questions s);
     ans := abs_answer <$> answers s |}.

(** ** What every operation keeps *)

Definition export_ok (e : ExportEntry) : Prop :=
  canonical e = true /\ own_brand (client_hook e) = false /\ 1 <= refcount e.
Definition import_ok s (i : Z) (e : ImportEntry) : Prop :=
  1 <= remote_ref_count e /\
  exists f, client_downcast_map s !! variant_ptr (ImportVariant i) =
      Some {| weak_variant := ImportVariant i; weak_flow := f |}.

(** The promise of a question that awaits its return has not been resolved. *)
Definition unresolved (m : gmap Z Question) : Prop := forall id q r,
  m !! id = Some q -> is_awaiting_return q = true -> self_ref q = Some r -> fulfiller r = true.

Record Good s : Prop := {
  good_connected : connection s = None;
  good_exports : ExportTable.TableOk (exports s);
  good_questions : ExportTable.TableOk (questions s);
  good_export : forall id e, ExportTable.contents (exports s) !! id = Some e -> export_ok e;
  good_by_cap : forall a id, exports_by_cap s !! a = Some id <->
    exists e, ExportTable.contents (exports s) !! id = Some e /\ get_ptr (client_hook e) = a;
  good_import : forall i e, imports s !! i = Some e -> import_ok s i e;
  good_redirect : forall q a, answers s !! q = Some a -> redirected_results a = false;
  good_bootstrap : own_brand (bootstrap_cap s) = false;
  good_unresolved : unresolved (ExportTable.contents (questions s))
}.

(** Space for [k] more references in every count and in the tables. *)
Record room (k : Z) s : Prop := {
  room_exports : Z.of_nat (size (ExportTable.contents (exports s))) + k < 2 ^ 32 - 1;
  room_questions : Z.of_nat (size (ExportTable.contents (questions s))) < 2 ^ 32 - 1;
  room_refcount : forall id e,
    ExportTable.contents (exports s) !! id = Some e -> refcount e + k < 2 ^ 32;
  room_import : forall i e, imports s !! i = Some e -> remote_ref_count e + k < 2 ^ 32
}.

Lemma room_le k k' s : k' <= k -> room k s -> room k' s.
Proof.
  intros Hk [H1 H2 H3 H4]. split; [lia|done| |].
  - intros id e He. specialize (H3 _ _ He). lia.
  - intros i e Hi. specialize (H4 _ _ Hi). lia.
Qed.

(** Settled capabilities. *)
Class Settled : Prop := {
  never_resolved : forall a, resolved_to a = None;
  never_more : forall a, more_resolved a = false;
  bound_pos : exists n, chain_bound = Datatypes.S n
}.

(** What an application can pass: a local capability, or a client of an import
    that the connection still finds by the pointer of the import.  It finds
    the client that was made last, if that has not been dropped
    ([RpcProps.older_client_panics]: what becomes of the others). *)
Definition usable s (h : ClientHook) : Prop :=
  match h with
  | Own c =>
      match variant c with
      | ImportVariant i => i ∈ dom (imports s) /\ from_ptr (variant_ptr (ImportVariant i)) s <> None
      | _ => False
      end
  | _ => True
  end.

(** ** Primitives *)

Lemma runs_gets {A B} (f : Conn -> A) (k : A -> ST Conn B) s Q :
  runs (k (f s)) s Q -> runs (bind (gets f) k) s Q.
Proof. done. Qed.
Lemma runs_modify {B} (f : Conn -> Conn) (k : unit -> ST Conn B) s Q :
  runs (k tt) (f s) Q -> runs (bind (modify f) k) s Q.
Proof. done. Qed.
Lemma runs_modify_last (f : Conn -> Conn) s (Q : unit -> Conn -> Prop) :
  Q tt (f s) -> runs (modify f) s Q.
Proof. intros HQ. by exists tt, (f s). Qed.
Lemma runs_alloc {B} (k : Z -> ST Conn B) s Q :
  runs (k (next_addr s)) (set_next_addr (next_addr s + 1) s) Q -> runs (bind alloc k) s Q.
Proof. done. Qed.

Lemma runs_push_export e s (Q : Z -> Conn -> Prop) :
  ExportTable.TableOk (exports s) ->
  Z.of_nat (size (ExportTable.contents (exports s))) < 2 ^ 32 - 1 ->
  (forall id t, ExportTable.TableOk t -> ExportTable.contents (exports s) !! id = None ->
     ExportTable.contents t = <[id := e]> (ExportTable.contents (exports s)) ->
     Q id (set_exports t s)) ->
  runs (on_exports (ExportTable.push e)) s Q.
Proof.
  intros Hok Hsz HQ. destruct (ExportTable.push_spec _ e Hok Hsz) as (t & Hp & Ht & Hc).
  eexists _, _. unfold on_exports. rewrite Hp. split; [done|]. apply HQ; [done| |done].
  apply ExportTable.least_unused_spec.
Qed.
Lemma runs_push_question e s (Q : Z -> Conn -> Prop) :
  ExportTable.TableOk (questions s) ->
  Z.of_nat (size (ExportTable.contents (questions s))) < 2 ^ 32 - 1 ->
  (forall id t, ExportTable.TableOk t -> ExportTable.contents (questions s) !! id = None ->
     ExportTable.contents t = <[id := e]> (ExportTable.contents (questions s)) ->
     Q id (set_questions t s)) ->
  runs (on_questions (ExportTable.push e)) s Q.
Proof.
  intros Hok Hsz HQ. destruct (ExportTable.push_spec _ e Hok Hsz) as (t & Hp & Ht & Hc).
  eexists _, _. unfold on_questions. rewrite Hp. split; [done|]. apply HQ; [done| |done].
  apply ExportTable.least_unused_spec.
Qed.
Lemma runs_erase_export id e s (Q : unit -> Conn -> Prop) :
  ExportTable.TableOk (exports s) -> ExportTable.contents (exports s) !! id = Some e ->
  (forall t, ExportTable.TableOk t ->
     ExportTable.contents t = delete id (ExportTable.contents (exports s)) ->
     Q tt (set_exports t s)) ->
  runs (on_exports (ExportTable.erase id)) s Q.
Proof.
  intros Hok He HQ. destruct (ExportTable.erase_spec _ _ _ Hok He) as (t & Hp & Ht & Hc).
  eexists _, _. unfold on_exports. rewrite Hp. split; [done|]. by apply HQ.
Qed.
Lemma runs_erase_question id e s (Q : unit -> Conn -> Prop) :
  ExportTable.TableOk (questions s) -> ExportTable.contents (questions s) !! id = Some e ->
  (forall t, ExportTable.TableOk t ->
     ExportTable.contents t = delete id (ExportTable.contents (questions s)) ->
     Q tt (set_questions t s)) ->
  runs (on_questions (ExportTable.erase id)) s Q.
Proof.
  intros Hok He HQ. destruct (ExportTable.erase_spec _ _ _ Hok He) as (t & Hp & Ht & Hc).
  eexists _, _. unfold on_questions. rewrite Hp. split; [done|]. by apply HQ.
Qed.

(** ** Exporting *)

(** [ids] were exported: only the export tables have changed. *)
Definition grows (ids : list Z) s s' : Prop :=
  (exists t b, s' = set_exports_by_cap b (set_exports t s)) /\
  exported (abs_exps s) ids (abs_exps s') /\ Good s' /\
  Z.of_nat (size (ExportTable.contents (exports s'))) <=
    Z.of_nat (size (ExportTable.contents (exports s))) + Z.of_nat (length ids) /\
  forall id e', ExportTable.contents (exports s') !! id = Some e' ->
    refcount e' <= Z.of_nat (length ids) \/
    exists e, ExportTable.contents (exports s) !! id = Some e /\
      refcount e' <= refcount e + Z.of_nat (length ids).

Lemma lookup_abs_exps s id :
  abs_exps s !! id = abs_export <$> ExportTable.contents (exports s) !! id.
Proof. apply lookup_fmap. Qed.
Lemma abs_exps_pos s : Good s -> forall i n h, abs_exps s !! i = Some (n, h) -> 1 <= n.
Proof.
  intros HG i n h. rewrite lookup_abs_exps.
  destruct (ExportTable.contents (exports s) !! i) as [e|] eqn:He; [|done].
  intros [= <- <-]. by apply (good_export _ HG) in He as (_ & _ & ?).
Qed.

Lemma grows_refl s : Good s -> grows [] s s.
Proof.
  intros HG. split; [exists (exports s), (exports_by_cap s); by destruct s|].
  split; [|split; [done|split; [cbn; lia|]]].
  - split; [intros; cbn; lia|eauto|by apply abs_exps_pos].
  - intros id e He. right. exists e. split; [done|]. cbn. lia.
Qed.

Lemma exported_trans E ids E1 ids' E2 :
  exported E ids E1 -> exported E1 ids' E2 -> exported E (ids ++ ids') E2.
Proof.
  intros [Hc Hk Hp] [Hc' Hk' Hp']. split.
  - intros i. rewrite Hc', Hc, occ_app. lia.
  - intros i n h Hi. destruct (Hk _ _ _ Hi) as [n1 Hn1]. eauto.
  - done.
Qed.

Lemma grows_trans ids ids' s s1 s2 : grows ids s s1 -> grows ids' s1 s2 -> grows (ids ++ ids') s s2.
Proof.
  intros ((t & b & Hs1) & HE & HG & Hsz & Hrc) ((t' & b' & Hs2) & HE' & HG' & Hsz' & Hrc').
  split; [exists t', b'; by rewrite Hs2, Hs1|]. split; [by eapply exported_trans|].
  split; [done|]. rewrite length_app, Nat2Z.inj_add. split; [lia|].
  intros id e' He'. destruct (Hrc' _ _ He') as [Hle|(e1 & He1 & Hle)]; [left; lia|].
  destruct (Hrc _ _ He1) as [Hle'|(e & He & Hle')]; [left; lia|]. right. exists e. split; [done|lia].
Qed.

Lemma grows_room ids k s s' :
  0 <= k -> room (k + Z.of_nat (length ids)) s -> grows ids s s' -> room k s'.
Proof.
  intros Hk [H1 H2 H3 H4] ((t & b & ->) & _ & _ & Hsz & Hrc). split; cbn in *.
  - lia.
  - done.
  - intros id e He. destruct (Hrc _ _ He) as [Hle|(e0 & He0 & Hle)]; [lia|].
    specialize (H3 _ _ He0). lia.
  - intros i e Hi. specialize (H4 _ _ Hi). lia.
Qed.

Lemma runs_update_export {B} id f (k : unit -> ST Conn B) s Q :
  runs (k tt) (set_exports (ExportTable.update id f (exports s)) s) Q ->
  runs (bind (update_export id f) k) s Q.
Proof. done. Qed.

Lemma good_set_exports t b s :
  Good s -> ExportTable.TableOk t ->
  (forall id e, ExportTable.contents t !! id = Some e -> export_ok e) ->
  (forall a id, b !! a = Some id <->
     exists e, ExportTable.contents t !! id = Some e /\ get_ptr (client_hook e) = a) ->
  Good (set_exports_by_cap b (set_exports t s)).
Proof. intros [] Ht He Hb. by split. Qed.

Lemma set_exports_same_by_cap t s :
  set_exports t s = set_exports_by_cap (exports_by_cap s) (set_exports t s).
Proof. done. Qed.

Lemma abs_exps_set_exports t b s :
  abs_exps (set_exports_by_cap b (set_exports t s)) = abs_export <$> ExportTable.contents t.
Proof. done. Qed.

(** One more reference to an export. *)
Lemma grows_again id e s t :
  Good s -> room 1 s -> ExportTable.contents (exports s) !! id = Some e ->
  ExportTable.TableOk t ->
  ExportTable.contents t =
    alter (set_refcount (refcount e + 1)) id (ExportTable.contents (exports s)) ->
  grows [id] s (set_exports t s).
Proof.
  intros HG HR He Ht Hc. rewrite set_exports_same_by_cap.
  assert (Hlk : forall j, ExportTable.contents t !! j =
    if decide (j = id) then Some (set_refcount (refcount e + 1) e)
    else ExportTable.contents (exports s) !! j).
  { intros j. rewrite Hc. case_decide as Hj; [subst; by rewrite lookup_alter_eq, He|].
    by rewrite lookup_alter_ne. }
  destruct (good_export _ HG _ _ He) as (Hcan & Hown & Hpos).
  split; [eauto|]. rewrite abs_exps_set_exports. split; [split|split; [|split]].
  - intros i. unfold rc. rewrite lookup_fmap, Hlk, lookup_abs_exps. cbn.
    case_decide as Hi; case_decide as Hi'; try congruence; [subst; rewrite He; cbn; lia|].
    by destruct (_ !! i) as [[]|]; cbn; lia.
  - intros i n h. rewrite lookup_fmap, Hlk, lookup_abs_exps. case_decide as Hi; [subst|].
    + rewrite He. intros [= <- <-]. cbn. eauto.
    + eauto.
  - intros i n h. rewrite lookup_fmap, Hlk. case_decide as Hi; cbn.
    + intros [= <- <-]. lia.
    + destruct (_ !! i) as [e'|] eqn:He'; [|done]. intros [= <- <-].
      by apply (good_export _ HG) in He' as (_ & _ & ?).
  - apply good_set_exports; [done|done| |].
    + intros j e'. rewrite Hlk. case_decide; [|apply (good_export _ HG)].
      intros [= <-]. split; [done|]. split; [done|cbn; lia].
    + intros a j. rewrite (good_by_cap _ HG), Hlk. case_decide as Hj; [subst|done].
      rewrite He. split; intros (e' & [= <-] & <-); by eexists.
  - cbn. rewrite Hc. rewrite <- size_dom, dom_alter_L, size_dom. lia.
  - cbn [exports set_exports_by_cap set_exports]. intros j e'. rewrite Hlk.
    case_decide as Hj; [subst; intros [= <-]; right; exists e; split; [done|cbn; lia]|].
    intros He'. right. exists e'. split; [done|cbn; lia].
Qed.

(** A new export. *)
Lemma grows_new id h s t :
  Good s -> own_brand h = false ->
  ExportTable.contents (exports s) !! id = None -> ExportTable.TableOk t ->
  exports_by_cap s !! get_ptr h = None ->
  ExportTable.contents t =
    <[id := set_canonical true (Export_new h)]> (ExportTable.contents (exports s)) ->
  grows [id] s (set_exports_by_cap (<[get_ptr h := id]> (exports_by_cap s)) (set_exports t s)).
Proof.
  intros HG Hown Hid Ht Hptr Hc.
  split; [eauto|]. rewrite abs_exps_set_exports, Hc. split; [split|split; [|split]].
  - intros i. unfold rc. rewrite lookup_fmap, lookup_abs_exps. cbn.
    destruct (decide (id = i)) as [<-|Hi].
    + rewrite lookup_insert_eq, Hid. cbn. lia.
    + rewrite lookup_insert_ne by done. by destruct (_ !! i) as [[]|]; cbn; lia.
  - intros i n h'. rewrite lookup_fmap, lookup_abs_exps. destruct (decide (id = i)) as [<-|Hi].
    + by rewrite Hid.
    + rewrite lookup_insert_ne by done. eauto.
  - intros i n h'. rewrite lookup_fmap. destruct (decide (id = i)) as [<-|Hi].
    + rewrite lookup_insert_eq. cbn. intros [= <- <-]. lia.
    + rewrite lookup_insert_ne by done. destruct (_ !! i) as [e'|] eqn:He'; [|done].
      intros [= <- <-]. by apply (good_export _ HG) in He' as (_ & _ & ?).
  - apply good_set_exports; [done|done| |].
    + intros j e'. rewrite Hc. intros Hj. apply lookup_insert_Some in Hj as [[<- <-]|[_ Hj]].
      * by split.
      * by apply (good_export _ HG) in Hj.
    + intros a j. rewrite Hc. destruct (decide (a = get_ptr h)) as [->|Ha].
      * rewrite lookup_insert_eq. split.
        -- intros [= <-]. eexists. by rewrite lookup_insert_eq.
        -- intros (e' & Hj & Hp). apply lookup_insert_Some in Hj as [[<- <-]|[_ Hj]]; [done|].
           assert (exports_by_cap s !! get_ptr h = Some j) by (apply (good_by_cap _ HG); eauto).
           congruence.
      * rewrite lookup_insert_ne, (good_by_cap _ HG) by done.
        split; intros (e' & Hj & Hp); exists e'; (split; [|done]).
        -- rewrite lookup_insert_ne by congruence. done.
        -- apply lookup_insert_Some in Hj as [[<- <-]|[_ Hj]]; [cbn in Hp; congruence|done].
  - cbn. rewrite Hc, map_size_insert_None by done. lia.
  - cbn [exports set_exports_by_cap set_exports]. intros j e'. rewrite Hc. intros Hj.
    apply lookup_insert_Some in Hj as [[<- <-]|[_ Hj]]; [left; cbn; lia|].
    right. exists e'. split; [done|cbn; lia].
Qed.

Lemma runs_export_cap h s :
  Settled -> Good s -> room 1 s -> own_brand h = false ->
  runs (export_cap h) s (fun r s' => exists id, r = (SenderHosted id, Some id) /\ grows [id] s s').
Proof.
  intros HS HG HR Hown. unfold export_cap. apply runs_gets.
  destruct (exports_by_cap s !! get_ptr h) as [id|] eqn:Hp.
  - apply (good_by_cap _ HG) in Hp as Hp'. destruct Hp' as (e & He & _).
    apply runs_gets. rewrite ExportTable.find_contents, He.
    apply runs_lift_bind with e; [done|].
    apply runs_lift_bind with (refcount e + 1).
    { apply uadd_ok. by apply (room_refcount _ _ HR) in He. }
    apply runs_update_export, runs_ret. exists id. split; [done|].
    destruct (ExportTable.update_spec (exports s) id (set_refcount (refcount e + 1))) as [Ht Hc].
    + by apply ExportTable.contents_range in He as [? _].
    + apply HG.
    + by apply (grows_again id e).
  - apply runs_bind, runs_push_export; [apply HG| |].
    { pose proof (room_exports _ _ HR). lia. }
    intros id t Ht Hid Hc. apply runs_modify.
    assert (when_more_resolved h = false) as ->.
    { destruct h; try done. apply HS. }
    apply runs_ret. exists id. split; [done|]. exact (grows_new id h s t HG Hown Hid Ht Hp Hc).
Qed.

Lemma runs_innermost h s (Q : ClientHook -> Conn -> Prop) :
  Settled -> get_resolved s h = None -> Q h s -> runs (innermost chain_bound h) s Q.
Proof.
  intros HS Hr HQ. destruct bound_pos as [n ->]. cbn [innermost].
  apply runs_gets. rewrite Hr. by apply runs_ret.
Qed.

Lemma usable_not_resolved s h : Settled -> usable s h -> get_resolved s h = None.
Proof.
  intros HS Hu. destruct h as [c|a e|a]; cbn in *; [|done|apply HS].
  by destruct (variant c).
Qed.

Lemma good_from_ptr s i :
  Good s -> i ∈ dom (imports s) -> from_ptr (variant_ptr (ImportVariant i)) s <> None ->
  exists c, from_ptr (variant_ptr (ImportVariant i)) s = Some c /\ variant c = ImportVariant i.
Proof.
  intros HG Hi Hfound. apply elem_of_dom in Hi as [e He].
  destruct (good_import _ HG _ _ He) as (_ & f & Hw).
  unfold from_ptr, upgrade in *. rewrite Hw in *. destruct (_ && _); [|done]. eexists. by split.
Qed.

Definition described s (d : CapDescriptor) (id : option Z) : Prop :=
  match d with
  | SenderHosted i => id = Some i
  | ReceiverHosted i => id = None /\ i ∈ dom (imports s)
  | _ => False
  end.

Lemma runs_write_descriptor h s :
  Settled -> Good s -> room 1 s -> usable s h ->
  runs (write_descriptor chain_bound h) s (fun r s' =>
    described s (fst r) (snd r) /\ grows (from_option (fun i => [i]) [] (snd r)) s s').
Proof.
  intros HS HG HR Hu. destruct bound_pos as [n Hn]. rewrite Hn. cbn [write_descriptor].
  apply runs_bind, runs_innermost; [done|by apply usable_not_resolved|].
  destruct h as [c|a e|a]; cbn [usable] in Hu.
  - destruct (variant c) as [i| |] eqn:Hv; try done.
    destruct Hu as [Hu Hfound]. destruct (good_from_ptr _ _ HG Hu Hfound) as (c' & Hc' & Hv').
    apply runs_gets. cbn [get_ptr]. rewrite Hv, Hc'.
    eapply runs_lift_bind; [done|]. rewrite Hv'. apply runs_ret.
    split; [by split|by apply grows_refl].
  - eapply runs_mono; [by apply runs_export_cap|].
    intros r s' (id & -> & Hg). by split.
  - eapply runs_mono; [by apply runs_export_cap|].
    intros r s' (id & -> & Hg). by split.
Qed.

Lemma grows_imports ids s s' : grows ids s s' -> imports s' = imports s.
Proof. by intros ((t & b & ->) & _). Qed.

Lemma usable_grows ids s s' h : grows ids s s' -> usable s h -> usable s' h.
Proof. intros ((t & b & ->) & _). destruct h as [c| |]; cbn; [|done..]. by destruct (variant c). Qed.

Record described_all s (ds : list CapDescriptor) (ids : list Z) : Prop := {
  described_settled : Forall settled_descriptor ds;
  described_ids : ids = sender_ids ds;
  described_imports : forall i, i ∈ receiver_ids ds -> i ∈ dom (imports s)
}.

Definition all_usable s (caps : list (option ClientHook)) : Prop :=
  Forall (fun o => match o with Some h => usable s h | None => True end) caps.

Lemma all_usable_grows ids s s' caps : grows ids s s' -> all_usable s caps -> all_usable s' caps.
Proof.
  intros Hg Hu. eapply Forall_impl; [exact Hu|]. intros [h|]; [|done]. by eapply usable_grows.
Qed.

Lemma runs_write_descriptors caps s :
  Settled -> Good s -> room (Z.of_nat (length caps)) s -> all_usable s caps ->
  runs (write_descriptors caps) s (fun r s' =>
    described_all s (fst r) (snd r) /\ grows (snd r) s s' /\ length (fst r) = length caps).
Proof.
  intros HS. revert s. induction caps as [|[h|] caps IH]; intros s HG HR Hu; cbn [write_descriptors].
  - apply runs_ret. split; [|split; [by apply grows_refl|done]]. split; [constructor|done|set_solver].
  - apply Forall_cons in Hu as [Hh Hu].
    assert (HR1 : room 1 s) by (eapply room_le; [|exact HR]; cbn; lia).
    destruct (runs_write_descriptor h s HS HG HR1 Hh) as ([d id] & s1 & Hw & Hd & Hg).
    cbn [fst snd] in Hd, Hg.
    apply runs_bind. eexists _, _. split; [unfold unwrap_result; by rewrite Hw|]. cbn.
    apply runs_bind. eapply runs_mono; [apply (IH s1)|].
    + apply Hg.
    + eapply grows_room; [lia| |done]. cbn [length] in HR.
      eapply room_le; [|exact HR]. destruct id; cbn; lia.
    + by eapply all_usable_grows.
    + intros [ds ids] s2 ([Hs Hids Hi] & Hg2 & Hl). cbn [fst snd] in *. subst ids. apply runs_ret.
      rewrite (grows_imports _ _ _ Hg) in Hi. cbn [fst snd].
      destruct d; cbn in Hd; try done; [subst id|destruct Hd as [-> Hdi]]; cbn in Hg.
      * split; [split; [by constructor|done|done]|]. split; [by apply (grows_trans [id0] _ s s1)|cbn; lia].
      * split; [split; [by constructor|done|]|split; [by apply (grows_trans [] _ s s1)|cbn; lia]].
        cbn. intros i. rewrite elem_of_cons. intros [->|]; auto.
  - apply Forall_cons in Hu as [_ Hu]. apply runs_bind. eapply runs_mono; [apply (IH s)|].
    + done.
    + eapply room_le; [|exact HR]. cbn; lia.
    + done.
    + intros [ds ids] s2 ([Hs Hids Hi] & Hg2 & Hl). cbn [fst snd] in *. subst ids. apply runs_ret.
      split; [split; [by constructor|done|done]|]. split; [done|cbn; lia].
Qed.

(** ** Importing *)

(** [ids] were imported: only the import tables have changed. *)
Definition imports_grow (ids : list Z) s s' : Prop :=
  (exists I D L n, s' = set_next_addr n (set_live_flows L
     (set_client_downcast_map D (set_imports I s)))) /\
  remote_ref_count <$> imports s' = add_imports ids (remote_ref_count <$> imports s) /\ Good s'.

Lemma add_imports_app ids ids' I : add_imports (ids ++ ids') I = add_imports ids' (add_imports ids I).
Proof. revert I. induction ids as [|i ids IH]; intros I; cbn; [done|]. apply IH. Qed.

Lemma imports_grow_refl s : Good s -> imports_grow [] s s.
Proof.
  intros HG. split; [|by split].
  exists (imports s), (client_downcast_map s), (live_flows s), (next_addr s). by destruct s.
Qed.
Lemma imports_grow_trans ids ids' s s1 s2 :
  imports_grow ids s s1 -> imports_grow ids' s1 s2 -> imports_grow (ids ++ ids') s s2.
Proof.
  intros ((I & D & L & n & Hs1) & Hi & HG) ((I' & D' & L' & n' & Hs2) & Hi' & HG').
  split; [exists I', D', L', n'; by rewrite Hs2, Hs1|]. split; [|done].
  by rewrite Hi', Hi, add_imports_app.
Qed.

Lemma add_imports_dom ids I i : i ∈ dom I -> i ∈ dom (add_imports ids I).
Proof.
  revert I. induction ids as [|j ids IH]; intros I Hi; cbn; [done|]. apply IH.
  rewrite dom_insert_L. set_solver.
Qed.

Lemma imports_grow_dom ids s s' i :
  imports_grow ids s s' -> i ∈ dom (imports s) -> i ∈ dom (imports s').
Proof.
  intros (_ & Hi & _) Hd. rewrite <- (dom_fmap_L remote_ref_count), Hi.
  apply add_imports_dom. by rewrite dom_fmap_L.
Qed.

Lemma good_set_imports I D L n s :
  Good s ->
  (forall i e, I !! i = Some e -> 1 <= remote_ref_count e /\
     exists f, D !! variant_ptr (ImportVariant i) =
       Some {| weak_variant := ImportVariant i; weak_flow := f |}) ->
  Good (set_next_addr n (set_live_flows L (set_client_downcast_map D (set_imports I s)))).
Proof. intros [] HI. by split. Qed.

Definition fresh_import s (i : Z) : ImportEntry := default Import_new (imports s !! i).

Lemma runs_import i s :
  Good s -> (forall e, imports s !! i = Some e -> remote_ref_count e + 1 < 2 ^ 32) ->
  runs (import i false) s (fun h s' =>
    (exists f, h = Own {| variant := ImportVariant i; flow_controller := f |}) /\
    imports_grow [i] s s').
Proof.
  intros HG HR. unfold import. apply runs_gets.
  set (e := fresh_import s i).
  assert (He : 0 <= remote_ref_count e /\ remote_ref_count e + 1 < 2 ^ 32).
  { unfold e, fresh_import. destruct (imports s !! i) as [e'|] eqn:Hi; cbn; [|lia].
    destruct (good_import _ HG _ _ Hi). specialize (HR _ eq_refl). lia. }
  assert (Hent : runs match imports s !! i with
      | Some _ => ret tt
      | None => modify (fun s => set_imports (<[i := Import_new]> (imports s)) s)
      end s (fun _ s' => s' = set_imports (<[i := e]> (imports s)) s)).
  { unfold e, fresh_import. destruct (imports s !! i) as [e'|] eqn:Hi; cbn.
    - apply runs_ret. rewrite insert_id by done. by destruct s.
    - by apply runs_modify_last. }
  apply runs_bind. eapply runs_mono; [exact Hent|]. intros _ s1 ->.
  apply runs_gets. cbn [imports set_imports]. rewrite lookup_insert_eq.
  apply runs_lift_bind with e; [done|].
  apply runs_lift_bind with (remote_ref_count e + 1); [apply uadd_ok; lia|].
  unfold update_import. apply runs_modify.
  apply runs_bind. unfold Client_new. apply runs_alloc, runs_modify, runs_modify, runs_ret.
  apply runs_modify, runs_ret. set (f := next_addr s).
  set (w := {| weak_variant := ImportVariant i; weak_flow := f |}).
  set (e' := set_app_client w (set_remote_ref_count (remote_ref_count e + 1) e)).
  enough (Hg : imports_grow [i] s (set_next_addr (f + 1) (set_live_flows ({[f]} ∪ live_flows s)
    (set_client_downcast_map (<[variant_ptr (ImportVariant i) := w]> (client_downcast_map s))
      (set_imports (alter (set_app_client w) i
        (alter (set_remote_ref_count (remote_ref_count e + 1)) i (<[i := e]> (imports s)))) s)))))
    by exact (conj (ex_intro _ f eq_refl) Hg).
  rewrite !alter_insert_eq. fold e'. split; [do 4 eexists; reflexivity|]. split.
  - cbn [imports set_imports set_next_addr set_live_flows set_client_downcast_map].
    rewrite fmap_insert. cbn [add_imports]. f_equal. unfold e', e, fresh_import, refs. cbn.
    rewrite lookup_fmap. by destruct (imports s !! i).
  - apply good_set_imports; [done|]. intros j ej Hj.
    apply lookup_insert_Some in Hj as [[<- <-]|[Hne Hj]].
    + split; [cbn; lia|]. exists f. by rewrite lookup_insert_eq.
    + destruct (good_import _ HG _ _ Hj) as (Hp & f' & Hw). split; [done|].
      exists f'. by rewrite lookup_insert_ne by (intros [=]; congruence).
Qed.

(** What a descriptor stands for at its receiver. *)
Definition received s (d : CapDescriptor) (c : option ClientHook) : Prop :=
  match d with
  | CdNone => c = None
  | SenderHosted i => exists f, c = Some (Own {| variant := ImportVariant i; flow_controller := f |})
  | ReceiverHosted i => exists n h, abs_exps s !! i = Some (n, h) /\ c = Some h
  | _ => False
  end.

Lemma imports_grow_exps ids s s' : imports_grow ids s s' -> abs_exps s' = abs_exps s.
Proof. by intros ((I & D & L & n & ->) & _). Qed.

Lemma refs_add_one (I : gmap Z Z) i j :
  refs (<[i := refs I i + 1]> I) j = refs I j + if decide (i = j) then 1 else 0.
Proof.
  unfold refs at 1. case_decide as Hij; [subst; by rewrite lookup_insert_eq|].
  rewrite lookup_insert_ne by done. unfold refs. lia.
Qed.

Definition import_room (k : Z) s : Prop :=
  k < 2 ^ 32 /\ forall i e, imports s !! i = Some e -> remote_ref_count e + k < 2 ^ 32.
Lemma room_import_room k s : room k s -> import_room k s.
Proof. intros [Hr _ _ Hi]. split; [lia|done]. Qed.

Lemma runs_receive_caps ds s :
  Good s -> import_room (Z.of_nat (length ds)) s -> Forall settled_descriptor ds ->
  (forall i, i ∈ receiver_ids ds -> i ∈ dom (abs_exps s)) ->
  runs (receive_caps ds) s (fun caps s' =>
    Forall2 (received s) ds caps /\ imports_grow (sender_ids ds) s s').
Proof.
  intros HG [Hlen Hi] Hds Hrec.
  revert s HG Hi Hrec. induction ds as [|d ds IH]; intros s HG Hi Hrec; cbn [receive_caps].
  { apply runs_ret. split; [done|by apply imports_grow_refl]. }
  apply Forall_cons in Hds as [Hd Hds]. cbn [length] in *.
  destruct d as [|i| |i| |]; try done; cbn [receive_cap sender_ids receiver_ids] in *.
  - apply runs_bind, runs_ret. apply runs_bind. eapply runs_mono; [apply IH; try done; try lia|].
    + intros j e Hj. specialize (Hi _ _ Hj). lia.
    + intros caps s' [Hc Hg]. apply runs_ret. split; [by constructor|done].
  - apply runs_bind, runs_bind. eapply runs_mono; [apply runs_import; [done|]|].
    + intros e Hj. specialize (Hi _ _ Hj). lia.
    + intros h s1 [[f ->] Hg]. apply runs_ret, runs_bind.
      eapply runs_mono; [apply IH; try done; try lia|].
      * apply Hg.
      * intros j e Hj. destruct Hg as (_ & Hm & _).
        assert (Hrj : refs (remote_ref_count <$> imports s1) j = remote_ref_count e).
        { unfold refs. by rewrite lookup_fmap, Hj. }
        rewrite Hm in Hrj. cbn [add_imports] in Hrj. rewrite refs_add_one in Hrj.
        assert (refs (remote_ref_count <$> imports s) j + Z.of_nat (S (length ds)) < 2 ^ 32).
        { unfold refs. rewrite lookup_fmap. destruct (imports s !! j) eqn:Hj'; cbn; [|lia].
          by apply Hi in Hj'. }
        case_decide; lia.
      * rewrite (imports_grow_exps _ _ _ Hg). done.
      * intros caps s' [Hc Hg']. apply runs_ret. split; [|by apply (imports_grow_trans [i] _ s s1)].
        constructor; [cbn; eauto|]. unfold received in *. by rewrite (imports_grow_exps _ _ _ Hg) in Hc.
  - assert (Hex : i ∈ dom (abs_exps s)) by (apply Hrec; set_solver).
    apply elem_of_dom in Hex as [[n h] Hex].
    rewrite lookup_abs_exps in Hex.
    destruct (ExportTable.contents (exports s) !! i) as [e|] eqn:He; [|done].
    injection Hex as Hn Hh.
    apply runs_bind, runs_gets. rewrite ExportTable.find_contents, He. apply runs_ret, runs_bind.
    eapply runs_mono; [apply IH; try done; try lia|].
    + intros j e' Hj. specialize (Hi _ _ Hj). lia.
    + intros j Hj. apply Hrec. set_solver.
    + intros caps s' [Hc Hg]. apply runs_ret. split; [|done]. constructor; [|done]. cbn.
      exists n, h. rewrite lookup_abs_exps, He. cbn. unfold abs_export. by rewrite Hn, Hh.
Qed.

(** ** Releasing *)

(** The exports have become [E]: only the export tables have changed. *)
Definition exports_become (E : gmap Z (Z * ClientHook)) s s' : Prop :=
  (exists t b, s' = set_exports_by_cap b (set_exports t s)) /\ abs_exps s' = E /\ Good s'.

Lemma exports_become_trans E E' s s1 s2 :
  exports_become E s s1 -> exports_become E' s1 s2 -> exports_become E' s s2.
Proof.
  intros ((t & b & ->) & _) ((t' & b' & ->) & HE & HG). split; [by exists t', b'|done].
Qed.

(** Without the last reference the export leaves both tables. *)
Lemma become_erased id e s t :
  Good s -> ExportTable.contents (exports s) !! id = Some e -> ExportTable.TableOk t ->
  ExportTable.contents t = delete id (ExportTable.contents (exports s)) ->
  exports_become (delete id (abs_exps s)) s
    (set_exports_by_cap (delete (get_ptr (client_hook e)) (exports_by_cap s)) (set_exports t s)).
Proof.
  intros HG He Ht Hc. split; [eauto|]. split.
  { rewrite abs_exps_set_exports, Hc. unfold abs_exps. by rewrite fmap_delete. }
  apply good_set_exports; [done|done| |].
  - intros j e'. rewrite Hc. intros Hj. apply lookup_delete_Some in Hj as [_ Hj].
    by apply (good_export _ HG) in Hj.
  - intros a j. rewrite Hc. rewrite lookup_delete_Some, (good_by_cap _ HG).
    split.
    + intros (Hne & e' & Hj & Hp). exists e'. rewrite lookup_delete_Some.
      split; [|done]. split; [|done]. intros ->. congruence.
    + intros (e' & Hj & Hp). apply lookup_delete_Some in Hj as [Hne Hj].
      split; [|eauto]. intros Heq. apply Hne.
      assert (exports_by_cap s !! a = Some j) by (apply (good_by_cap _ HG); eauto).
      assert (exports_by_cap s !! a = Some id) by (apply (good_by_cap _ HG); eauto).
      congruence.
Qed.

(** With references left it stays. *)
Lemma become_fewer id e n s t :
  Good s -> ExportTable.contents (exports s) !! id = Some e -> 1 <= n < refcount e ->
  ExportTable.TableOk t ->
  ExportTable.contents t =
    alter (set_refcount (refcount e - n)) id (ExportTable.contents (exports s)) ->
  exports_become (<[id := (refcount e - n, client_hook e)]> (abs_exps s)) s (set_exports t s).
Proof.
  intros HG He Hn Ht Hc. rewrite set_exports_same_by_cap.
  destruct (good_export _ HG _ _ He) as (Hcan & Hown & Hpos).
  assert (Hins : ExportTable.contents t =
    <[id := set_refcount (refcount e - n) e]> (ExportTable.contents (exports s))).
  { rewrite Hc. apply map_eq. intros j. destruct (decide (id = j)) as [<-|Hne].
    - by rewrite lookup_alter_eq, lookup_insert_eq, He.
    - by rewrite lookup_alter_ne, lookup_insert_ne by done. }
  split; [eauto|]. split.
  { rewrite abs_exps_set_exports, Hins, fmap_insert. done. }
  apply good_set_exports; [done|done| |].
  - intros j e'. rewrite Hins. intros Hj. apply lookup_insert_Some in Hj as [[<- <-]|[_ Hj]].
    + split; [done|]. split; [done|]. cbn. lia.
    + by apply (good_export _ HG) in Hj.
  - intros a j. rewrite (good_by_cap _ HG), Hins. destruct (decide (id = j)) as [<-|Hne].
    + rewrite lookup_insert_eq, He. split; intros (e' & [= <-] & <-); by eexists.
    + by rewrite lookup_insert_ne.
Qed.

Lemma update_export_spec id e f s :
  ExportTable.contents (exports s) !! id = Some e -> Good s ->
  ExportTable.TableOk (ExportTable.update id f (exports s)) /\
  ExportTable.contents (ExportTable.update id f (exports s)) =
    alter f id (ExportTable.contents (exports s)).
Proof.
  intros He HG. apply ExportTable.update_spec; [|apply HG].
  by apply ExportTable.contents_range in He as [? _].
Qed.

Lemma runs_release_export id n s :
  Good s -> 1 <= n <= rc (abs_exps s) id ->
  runs (release_export id n) s (fun _ s' => exports_become (release id n (abs_exps s)) s s').
Proof.
  intros HG Hn. unfold rc in Hn. rewrite lookup_abs_exps in Hn.
  destruct (ExportTable.contents (exports s) !! id) as [e|] eqn:He; cbn in Hn; [|lia].
  unfold release_export, release. apply runs_gets.
  rewrite ExportTable.find_contents, lookup_abs_exps, He. cbn [fmap option_fmap option_map abs_export].
  replace (refcount e <? n) with false by lia.
  destruct (update_export_spec id e (set_refcount (refcount e - n)) s He HG) as [Ht Hc].
  apply runs_update_export.
  destruct (Z.eqb_spec (refcount e) n) as [Heq|Hne].
  - replace (refcount e - n =? 0) with true by lia.
    destruct (good_export _ HG _ _ He) as (Hcan & _ & _). rewrite Hcan.
    apply runs_modify.
    eapply (runs_erase_export id); [done| |].
    { cbn [exports set_exports set_exports_by_cap]. by rewrite Hc, lookup_alter_eq, He. }
    intros t Ht' Hc'. cbn [exports set_exports set_exports_by_cap] in Hc'. rewrite Hc in Hc'.
    apply (become_erased id e s t HG He Ht'). rewrite Hc'.
    apply map_eq. intros j. destruct (decide (id = j)) as [<-|Hj].
    + by rewrite !lookup_delete_eq.
    + by rewrite !lookup_delete_ne, lookup_alter_ne.
  - replace (refcount e - n =? 0) with false by lia. apply runs_ret.
    apply (become_fewer id e n s _ HG He); [lia|done|done].
Qed.

Lemma runs_release_exports ids s :
  Good s -> (forall i, occ i ids <= rc (abs_exps s) i) ->
  runs (release_exports ids) s (fun _ s' => exports_become (release_all ids (abs_exps s)) s s').
Proof.
  revert s. induction ids as [|id ids IH]; intros s HG Hocc; cbn [release_exports].
  - apply runs_ret. split; [exists (exports s), (exports_by_cap s); by destruct s|done].
  - assert (Hid : 1 <= 1 <= rc (abs_exps s) id).
    { specialize (Hocc id). cbn in Hocc. rewrite decide_True in Hocc by done.
      pose proof (occ_nonneg id ids). lia. }
    apply runs_bind. eapply runs_mono; [by apply runs_release_export|].
    intros [] s1 Hb. pose proof Hb as (_ & HE & HG1).
    eapply runs_mono; [apply IH; [done|]|].
    + intros j. rewrite HE, (rc_release _ _ _ _ Hid). specialize (Hocc j). cbn in Hocc. lia.
    + intros [] s2 Hb2. rewrite HE in Hb2. by eapply exports_become_trans.
Qed.

End refine.

(** ** Every operation of a connection is a step of the protocol

    For each operation a vat of [RpcNet] performs: it returns [Ok], keeps
    [Good], and its effect on the four tables and on what was sent is an
    [act] or [recv] of [RpcProtocol]. *)

Section ops.
Context {Content : Type} `{Hooks Content} `{!Settled}.
Notation Conn := (ConnectionState Content).
Implicit Types (s : Conn).

Definition acts s s' : Prop :=
  Good s' /\ exists out, act (abs s) (abs s') out /\ sent s' = sent s ++ out.
Definition receives (m : Message Content) s s' : Prop :=
  Good s' /\ exists out, recv (abs s) m (abs s') out /\ sent s' = sent s ++ out.

Lemma act_eq (v v' v'' : Vat) (out : list (Message Content)) : v' = v'' -> act v v'' out -> act v v' out.
Proof. by intros ->. Qed.
Lemma recv_eq (v v' v'' : Vat) (m : Message Content) out : v' = v'' -> recv v m v'' out -> recv v m v' out.
Proof. by intros ->. Qed.

(** ** Small steps *)

Lemma runs_send {B} m (k : unit -> ST Conn B) s Q :
  connection s = None -> runs (k tt) (set_sent (sent s ++ [m]) s) Q -> runs (bind (send m) k) s Q.
Proof. intros Hc Hk. unfold send. apply runs_modify. unfold connected. by rewrite Hc. Qed.
Lemma runs_send_last m s (Q : unit -> Conn -> Prop) :
  connection s = None -> Q tt (set_sent (sent s ++ [m]) s) -> runs (send m) s Q.
Proof. intros Hc Hk. eexists _, _. split; [done|]. unfold connected. by rewrite Hc. Qed.
Lemma runs_connected {B} (k : bool -> ST Conn B) s Q :
  connection s = None -> runs (k true) s Q -> runs (bind (gets connected) k) s Q.
Proof. intros Hc Hk. apply runs_gets. unfold connected. by rewrite Hc. Qed.
Lemma runs_new_outgoing {B} (k : unit -> ST Conn B) s Q :
  connection s = None -> runs (k tt) s Q -> runs (bind new_outgoing_message k) s Q.
Proof.
  intros Hc Hk. unfold new_outgoing_message. apply runs_bind, runs_gets. rewrite Hc. by apply runs_ret.
Qed.

Lemma good_frame s s' :
  Good s -> connection s' = connection s -> exports s' = exports s -> questions s' = questions s ->
  exports_by_cap s' = exports_by_cap s -> imports s' = imports s ->
  (forall i, client_downcast_map s' !! variant_ptr (ImportVariant i) =
     client_downcast_map s !! variant_ptr (ImportVariant i)) ->
  answers s' = answers s -> bootstrap_cap s' = bootstrap_cap s ->
  Good s'.
Proof.
  intros HG Hc He Hq Hb Hi Hd Ha Hbs.
  split; rewrite ?Hc, ?He, ?Hq, ?Hb, ?Ha, ?Hbs; try apply HG.
  intros i e Hie. rewrite Hi in Hie.
  destruct (good_import _ HG _ _ Hie) as (Hp & f & Hw). split; [done|].
  exists f. by rewrite Hd.
Qed.

Lemma good_set_questions t s :
  Good s -> ExportTable.TableOk t -> unresolved (ExportTable.contents t) -> Good (set_questions t s).
Proof. intros [] Ht Hu. by split. Qed.

Lemma unresolved_insert id q m :
  unresolved m ->
  (forall r, is_awaiting_return q = true -> self_ref q = Some r -> fulfiller r = true) ->
  unresolved (<[id := q]> m).
Proof.
  intros Hm Hq id' q' r Hid. apply lookup_insert_Some in Hid as [[<- <-]|[_ Hid]]; [auto|].
  by apply (Hm id').
Qed.
Lemma unresolved_delete id m : unresolved m -> unresolved (delete id m).
Proof.
  intros Hm id' q' r Hid. apply lookup_delete_Some in Hid as [_ Hid]. by apply (Hm id').
Qed.
Lemma alter_insert_lookup {A} (f : A -> A) id q (m : gmap Z A) :
  m !! id = Some q -> alter f id m = <[id := f q]> m.
Proof.
  intros Hq. apply map_eq. intros j. destruct (decide (id = j)) as [<-|Hne].
  - by rewrite lookup_alter_eq, lookup_insert_eq, Hq.
  - by rewrite lookup_alter_ne, lookup_insert_ne.
Qed.
Lemma good_set_answers A s :
  Good s -> (forall q a, A !! q = Some a -> redirected_results a = false) -> Good (set_answers A s).
Proof. intros [] Ht. by split. Qed.

(** ** Sending a call *)

Lemma runs_write_target_import fuel c i s (Q : MessageTarget + ClientHook -> Conn -> Prop) :
  variant c = ImportVariant i -> Q (inl (ImportedCap i)) s ->
  runs (Client_write_target (Datatypes.S fuel) c) s Q.
Proof. intros Hv HQ. cbn [Client_write_target]. rewrite Hv. by apply runs_ret. Qed.

(** A question is registered, and its message sent. *)
Lemma runs_ask ids tail m (Q : Z -> Conn -> Prop) s :
  Good s -> Z.of_nat (size (ExportTable.contents (questions s))) < 2 ^ 32 - 1 ->
  (forall q t, ExportTable.TableOk t -> ExportTable.contents (questions s) !! q = None ->
     abs_question <$> ExportTable.contents t =
       <[q := Build_QState true true false]> (abs_question <$> ExportTable.contents (questions s)) ->
     unresolved (ExportTable.contents t) ->
     Q q (set_questions t (set_sent (sent s ++ [m q]) s))) ->
  runs (question_id ← push_question ids tail; send (m question_id) ;;
        set_question_ref question_id ;; ret question_id) s Q.
Proof.
  intros HG Hroom HQ. unfold push_question. apply runs_bind, runs_bind.
  apply runs_push_question; [apply HG|done|]. intros q t Ht Hq Hc. apply runs_ret.
  apply runs_send; [apply HG|]. unfold set_question_ref. apply runs_bind, runs_gets.
  cbn [questions set_questions set_sent]. rewrite ExportTable.find_contents, Hc, lookup_insert_eq.
  eapply runs_lift_bind; [done|]. apply runs_modify_last, runs_ret.
  destruct (ExportTable.update_spec t q (set_self_ref (Some {| fulfiller := true |}))) as [Ht' Hc'].
  { eapply ExportTable.contents_bound; [exact Ht|]. by rewrite Hc, lookup_insert_eq. }
  { done. }
  eassert (_ = _) as ->; [|apply (HQ q _ Ht' Hq)].
  - done.
  - rewrite Hc', Hc, alter_insert_eq, fmap_insert. done.
  - rewrite Hc', Hc, alter_insert_eq. apply unresolved_insert; [apply HG|]. by intros r _ [= <-].
Qed.

Lemma describes_all s (ds : list CapDescriptor) ids : described_all s ds ids -> describes (abs s) ds.
Proof.
  intros [Hs _ Hi]. split; [done|]. intros i Hr. cbn. rewrite dom_fmap_L. auto.
Qed.

Lemma runs_Request_send target i iface meth c caps s :
  Good s -> room (Z.of_nat (length caps)) s -> variant target = ImportVariant i ->
  i ∈ dom (imports s) -> all_usable s caps ->
  runs (Request_send target iface meth c caps) s (fun r s' => is_Some (match r with inl p => Some p | inr _ => None end) /\ acts s s').
Proof.
  intros HG HR Hv Hi Hu. unfold Request_send. destruct bound_pos as [n ->].
  apply runs_bind, (runs_write_target_import _ _ i); [done|].
  apply runs_bind. unfold send_internal. apply runs_bind.
  eapply runs_mono; [by apply runs_write_descriptors|].
  intros [ds ids] s1 (Hd & Hg & Hl). cbn [fst snd] in *.
  pose proof Hg as ((t1 & b1 & Hs1) & HE & HG1 & _).
  apply (runs_ask ids false (fun q => Call q (ImportedCap i) iface meth Caller
    {| content := c; cap_table := ds |})); [done| |].
  { rewrite Hs1. apply HR. }
  intros q t Ht Hq Hc Hun. unfold Pipeline_new.
  apply runs_bind, runs_alloc, runs_modify, runs_ret, runs_ret.
  split; [by eexists|]. split.
  - eapply good_frame; [apply (good_set_questions t s1 HG1 Ht Hun)|..]; done.
  - exists [Call q (ImportedCap i) iface meth Caller {| content := c; cap_table := ds |}].
    split; [|by rewrite Hs1].
    eapply act_eq; [|eapply (act_call (abs s) q i iface meth c ds (abs_exps s1))].
    + unfold abs, set_exps, set_qs, abs_exps. cbn [exps imps qs ans]. f_equal.
      * by rewrite Hs1.
      * cbn. rewrite Hc, Hs1. done.
      * by rewrite Hs1.
    + cbn. rewrite lookup_fmap. rewrite Hs1 in Hq. cbn in Hq. by rewrite Hq.
    + cbn. by rewrite dom_fmap_L.
    + by eapply describes_all.
    + by rewrite <- (described_ids _ _ _ Hd).
Qed.

(** ** Asking for the bootstrap capability *)

Lemma runs_Client_new v s (Q : Client -> Conn -> Prop) :
  Q {| variant := v; flow_controller := next_addr s |}
    (set_client_downcast_map
       (<[variant_ptr v := {| weak_variant := v; weak_flow := next_addr s |}]>
          (client_downcast_map s))
       (set_live_flows ({[next_addr s]} ∪ live_flows s) (set_next_addr (next_addr s + 1) s))) ->
  runs (Client_new v) s Q.
Proof. intros HQ. by eexists _, _. Qed.

Lemma runs_waiting_cap a q s (Q : ClientHook -> Conn -> Prop) p :
  pipelines s !! a = Some p -> pipeline_variant p = Waiting q -> redirect_later p = true ->
  (forall h N P R L D Z,
     (forall i, D !! variant_ptr (ImportVariant i) =
        client_downcast_map s !! variant_ptr (ImportVariant i)) -> live_flows s ⊆ L ->
     Q h (set_pipelines Z (set_client_downcast_map D (set_live_flows L
           (set_promise_clients R (set_pipeline_clients P (set_next_addr N s))))))) ->
  runs (Pipeline_get_pipelined_cap a []) s Q.
Proof.
  intros Hp Hv Hr HQ. unfold Pipeline_get_pipelined_cap. apply runs_gets. rewrite Hp.
  eapply runs_lift_bind; [done|]. rewrite Hv, Hr.
  apply runs_bind. unfold PipelineClient_new. apply runs_alloc, runs_modify, runs_Client_new.
  apply runs_bind. unfold PromiseClient_new. apply runs_alloc, runs_modify, runs_bind, runs_Client_new.
  apply runs_ret, runs_modify, runs_ret.
  match goal with |- Q ?h ?S =>
    change S with (set_pipelines (pipelines S) (set_client_downcast_map (client_downcast_map S)
      (set_live_flows (live_flows S) (set_promise_clients (promise_clients S)
        (set_pipeline_clients (pipeline_clients S) (set_next_addr (next_addr S) s))))))
  end.
  apply HQ.
  - intros i. cbn. by rewrite !lookup_insert_ne by (intros [=]).
  - cbn. set_solver.
Qed.

Lemma runs_bootstrap s :
  Good s -> Z.of_nat (size (ExportTable.contents (questions s))) < 2 ^ 32 - 1 ->
  runs bootstrap s (fun _ s' => acts s s').
Proof.
  intros HG Hroom. unfold bootstrap, push_question. apply runs_bind, runs_bind.
  apply runs_push_question; [apply HG|done|]. intros q t Ht Hq Hc. apply runs_ret.
  unfold set_question_ref. apply runs_bind, runs_gets. cbn [questions set_questions].
  rewrite ExportTable.find_contents, Hc, lookup_insert_eq.
  eapply runs_lift_bind; [done|]. apply runs_modify_last.
  destruct (ExportTable.update_spec t q (set_self_ref (Some {| fulfiller := true |}))) as [Ht' Hc'].
  { eapply ExportTable.contents_bound; [exact Ht|]. by rewrite Hc, lookup_insert_eq. }
  { done. }
  apply runs_connected; [apply HG|]. apply runs_send; [apply HG|].
  unfold Pipeline_new. apply runs_bind, runs_alloc, runs_modify, runs_ret.
  eapply runs_waiting_cap; [cbn; by rewrite lookup_insert_eq|done|done|].
  intros h N P R L D Z0 HD HL. split.
  - apply (good_frame (set_questions (ExportTable.update q
      (set_self_ref (Some {| fulfiller := true |})) t) s)); try done.
    apply good_set_questions; [done..|]. rewrite Hc', Hc, alter_insert_eq.
    apply unresolved_insert; [apply HG|]. by intros r _ [= <-].
  - exists [Bootstrap q]. split; [|done].
    eapply act_eq; [|apply (act_bootstrap (abs s) q)].
    + unfold abs, set_qs. cbn [exps imps qs ans]. f_equal.
      cbn -[ExportTable.update]. by rewrite Hc', Hc, alter_insert_eq, fmap_insert.
    + cbn. rewrite lookup_fmap. by rewrite Hq.
Qed.

(** ** Answering *)

Definition answer_running (q : Z) (finished : bool) s : Prop :=
  ans (abs s) !! q = Some (Build_AState false finished []).

Lemma answer_running_inv q fin s :
  answer_running q fin s ->
  exists a, answers s !! q = Some a /\ return_has_been_sent a = false /\
    received_finish a = fin /\ result_exports a = [].
Proof.
  unfold answer_running. cbn. rewrite lookup_fmap. destruct (answers s !! q) as [a|]; [|done].
  intros [= H1 H2 H3]. eauto.
Qed.

Lemma abs_set_answers A s : abs (set_answers A s) = set_ans (abs_answer <$> A) (abs s).
Proof. done. Qed.
Lemma abs_set_sent l s : abs (set_sent l s) = abs s.
Proof. done. Qed.

Lemma runs_answer_has_sent_return q ids a s (Q : unit -> Conn -> Prop) :
  answers s !! q = Some a ->
  Q tt (set_answers
    (if received_finish a then delete q (answers s)
     else <[q := {| return_has_been_sent := true; pipeline := pipeline a;
                    redirected_results := redirected_results a;
                    received_finish := received_finish a;
                    call_completion_promise := call_completion_promise a;
                    result_exports := ids |}]> (answers s)) s) ->
  runs (answer_has_sent_return q ids) s Q.
Proof.
  intros Ha HQ. unfold answer_has_sent_return. apply runs_gets. rewrite Ha.
  eapply runs_lift_bind; [done|]. destruct (received_finish a); by apply runs_modify_last.
Qed.

Lemma runs_results_canceled q c caps status s :
  Good s -> answer_running q true s ->
  runs (from_results_inner q true c caps status) s (fun _ s' => acts s s').
Proof.
  intros HG Ha. pose proof (answer_running_inv _ _ _ Ha) as (a & Hq & _ & Hf & _).
  unfold from_results_inner. apply runs_gets. rewrite Hq. eapply runs_lift_bind; [done|].
  apply runs_connected; [apply HG|]. rewrite Hf. apply runs_send; [apply HG|].
  apply runs_bind, (runs_answer_has_sent_return _ _ a); [done|]. apply runs_ret. rewrite Hf.
  split.
  - apply good_set_answers; [apply (good_frame s); done|]. cbn. intros q' a' Hq'.
    apply lookup_delete_Some in Hq' as [_ Hq']. by eapply good_redirect.
  - exists [Return q false Canceled]. split; [|done].
    eapply act_eq; [|apply (act_canceled (abs s) q); done].
    rewrite abs_set_answers, abs_set_sent. cbn. by rewrite fmap_delete.
Qed.

Lemma runs_results_exception q c caps e s :
  Good s -> answer_running q false s ->
  runs (from_results_inner q true c caps (Some e)) s (fun _ s' => acts s s').
Proof.
  intros HG Ha. pose proof (answer_running_inv _ _ _ Ha) as (a & Hq & _ & Hf & _).
  unfold from_results_inner. apply runs_gets. rewrite Hq. eapply runs_lift_bind; [done|].
  apply runs_connected; [apply HG|]. rewrite Hf. apply runs_send; [apply HG|].
  apply runs_bind, (runs_answer_has_sent_return _ _ a); [done|]. apply runs_ret. rewrite Hf.
  split.
  - apply good_set_answers; [apply (good_frame s); done|]. cbn. intros q' a' Hq'.
    apply lookup_insert_Some in Hq' as [[<- <-]|[_ Hq']];
      [exact (good_redirect _ HG _ _ Hq)|exact (good_redirect _ HG _ _ Hq')].
  - exists [Return q false (ReturnException (from_error e))]. split; [|done].
    eapply act_eq; [|apply (act_exception (abs s) q); done].
    rewrite abs_set_answers, abs_set_sent. cbn. by rewrite fmap_insert.
Qed.

Lemma grows_abs ids s s' : grows ids s s' -> abs s' = set_exps (abs_exps s') (abs s).
Proof. by intros ((t & b & ->) & _). Qed.
Lemma grows_frame ids s s' :
  grows ids s s' -> answers s' = answers s /\ sent s' = sent s /\ connection s' = connection s.
Proof. by intros ((t & b & ->) & _). Qed.

Lemma runs_results_caps q c caps s :
  Good s -> answer_running q false s -> caps <> [] ->
  room (Z.of_nat (length caps)) s -> all_usable s caps ->
  runs (from_results_inner q true c caps None) s (fun _ s' => acts s s').
Proof.
  intros HG Ha Hne HR Hu. pose proof (answer_running_inv _ _ _ Ha) as (a & Hq & _ & Hf & _).
  unfold from_results_inner. apply runs_gets. rewrite Hq. eapply runs_lift_bind; [done|].
  apply runs_connected; [apply HG|]. rewrite Hf.
  replace (match caps with [] => true | _ :: _ => false end) with false by (by destruct caps).
  apply runs_bind, runs_ret, runs_bind.
  eapply runs_mono; [by apply runs_write_descriptors|].
  intros [ds ids] s1 (Hd & Hg & Hl). cbn [fst snd] in *.
  pose proof (grows_frame _ _ _ Hg) as (Hans & Hsent & Hconn). pose proof Hg as (_ & HE & HG1 & _).
  apply runs_send; [apply HG1|].
  apply runs_bind, (runs_answer_has_sent_return _ _ a); [cbn; by rewrite Hans|]. apply runs_ret.
  rewrite Hf. split.
  - apply good_set_answers; [apply (good_frame s1); done|]. cbn. rewrite Hans. intros q' a' Hq'.
    apply lookup_insert_Some in Hq' as [[<- <-]|[_ Hq']];
      [exact (good_redirect _ HG _ _ Hq)|exact (good_redirect _ HG _ _ Hq')].
  - exists [Return q false (Results {| content := c; cap_table := ds |})].
    split; [|cbn; by rewrite Hsent].
    eapply act_eq; [|apply (act_results (abs s) q c ds (abs_exps s1)); [exact Ha|exact (describes_all _ _ _ Hd)| |]].
    + rewrite abs_set_answers, abs_set_sent, (grows_abs _ _ _ Hg).
      rewrite <- (described_ids _ _ _ Hd). cbn. by rewrite Hans, fmap_insert.
    + intros ->. by destruct caps.
    + by rewrite <- (described_ids _ _ _ Hd).
Qed.

Lemma runs_results_nocaps q c s :
  Good s -> answer_running q false s ->
  runs (from_results_inner q true c [] None) s (fun _ s' => acts s s').
Proof.
  intros HG Ha. pose proof (answer_running_inv _ _ _ Ha) as (a & Hq & _ & Hf & _).
  unfold from_results_inner. apply runs_gets. rewrite Hq. eapply runs_lift_bind; [done|].
  apply runs_connected; [apply HG|]. rewrite Hf.
  apply runs_modify, runs_bind, runs_ret. apply runs_send; [apply HG|].
  eapply runs_bind, runs_answer_has_sent_return; [cbn; by rewrite lookup_alter_eq, Hq|].
  apply runs_ret. cbn [received_finish]. split.
  - apply (good_frame (set_answers (delete q (answers s)) s)); try done.
    + apply good_set_answers; [done|]. intros q' a' Hq'.
      apply lookup_delete_Some in Hq' as [_ Hq']. exact (good_redirect _ HG _ _ Hq').
    + cbn. apply map_eq. intros q'. destruct (decide (q = q')) as [<-|Hne].
      * by rewrite !lookup_delete_eq.
      * by rewrite !lookup_delete_ne, lookup_alter_ne.
  - exists [Return q true (Results {| content := c; cap_table := [] |})]. split; [|done].
    eapply act_eq; [|apply (act_results_nocaps (abs s) q c); done].
    unfold abs, set_ans. cbn. f_equal. rewrite fmap_delete. apply map_eq. intros q'.
    destruct (decide (q = q')) as [<-|Hne].
    + by rewrite !lookup_delete_eq.
    + by rewrite !lookup_delete_ne, !lookup_fmap, lookup_alter_ne.
Qed.

Lemma runs_results q fin c caps status s :
  Good s -> answer_running q fin s ->
  room (Z.of_nat (length caps)) s -> all_usable s caps ->
  runs (from_results_inner q true c caps status) s (fun _ s' => acts s s').
Proof.
  intros HG Ha HR Hu. destruct fin; [by apply runs_results_canceled|].
  destruct status as [e|]; [by apply runs_results_exception|].
  destruct caps as [|h caps]; [by apply runs_results_nocaps|].
  by apply runs_results_caps.
Qed.

(** ** Dropping *)

Lemma runs_ImportClient_drop i s :
  Good s -> i ∈ dom (imports s) -> runs (ImportClient_drop i) s (fun _ s' => acts s s').
Proof.
  intros HG Hi. apply elem_of_dom in Hi as [e He].
  destruct (good_import _ HG _ _ He) as (Hp & f & Hw).
  unfold ImportClient_drop. apply runs_gets. rewrite He. eapply runs_lift_bind; [done|].
  apply runs_gets. rewrite Hw. eapply runs_lift_bind; [done|].
  apply runs_modify, runs_modify, runs_connected; [apply HG|].
  replace (0 <? remote_ref_count e) with true by lia. cbn [andb].
  apply runs_send_last; [apply HG|]. split.
  - split; cbn; try apply HG. intros j ej Hj.
    apply lookup_delete_Some in Hj as [Hne Hj].
    destruct (good_import _ HG _ _ Hj) as (Hp' & f' & Hw'). split; [done|]. exists f'. cbn.
    by rewrite lookup_delete_ne by (intros [=]; congruence).
  - exists [Release i (remote_ref_count e)]. split; [|done].
    eapply act_eq; [|apply (act_drop_import (abs s) i (remote_ref_count e))].
    + unfold abs, set_imps. cbn. by rewrite fmap_delete.
    + cbn. by rewrite lookup_fmap, He.
Qed.

(** A client that is dropped while its import lives: nothing but its flow
    controller goes. *)
Lemma runs_flow_drop f s :
  Good s -> runs (flow_drop f) s (fun _ s' => Good s' /\ abs s' = abs s /\ sent s' = sent s).
Proof. intros HG. apply runs_modify_last. split; [|done]. by apply (good_frame s). Qed.

Lemma runs_QuestionRef_drop q aw skip s :
  Good s -> qs (abs s) !! q = Some (Build_QState aw true skip) -> (aw = true -> skip = false) ->
  runs (QuestionRef_drop q) s (fun _ s' => acts s s').
Proof.
  intros HG Hq Hskip. pose proof Hq as Hq'. cbn in Hq'. rewrite lookup_fmap in Hq'.
  destruct (ExportTable.contents (questions s) !! q) as [qu|] eqn:Hqu; [|done].
  injection Hq' as Haw Hheld Hsk.
  unfold QuestionRef_drop. apply runs_gets. rewrite ExportTable.find_contents, Hqu.
  eapply runs_lift_bind; [done|]. apply runs_connected; [apply HG|]. rewrite Haw, Hsk.
  destruct aw.
  - rewrite (Hskip eq_refl) in *. cbn [andb negb]. apply runs_send; [apply HG|].
    apply runs_modify_last.
    destruct (ExportTable.update_spec (questions s) q (set_self_ref None)) as [Ht Hc].
    { by apply ExportTable.contents_range in Hqu as [? _]. }
    { apply HG. }
    split.
    + apply (good_frame (set_questions (ExportTable.update q (set_self_ref None) (questions s)) s));
        try done. apply good_set_questions; [done..|]. rewrite Hc, (alter_insert_lookup _ _ _ _ Hqu).
      apply unresolved_insert; [apply HG|done].
    + exists [Finish q true]. split; [|done].
      eapply act_eq; [|by apply (act_cancel (abs s) q)].
      unfold abs, set_qs. cbn -[ExportTable.update]. f_equal. rewrite Hc.
      apply map_eq. intros j. rewrite lookup_fmap. destruct (decide (q = j)) as [<-|Hne].
      * rewrite lookup_alter_eq, lookup_insert_eq, Hqu. cbn. unfold abs_question. cbn.
        by rewrite Haw, Hsk.
      * by rewrite lookup_alter_ne, lookup_insert_ne, lookup_fmap.
  - assert (Hdone : forall l, runs (on_questions (ExportTable.erase q)) (set_sent (sent s ++ l) s)
      (fun _ s' => (if skip then [] else [Finish q false]) = l -> acts s s')).
    { intros l. eapply (runs_erase_question q qu); [apply HG|done|]. intros t Ht Hc Hl. split.
      - apply (good_frame (set_questions t s)); try done. apply good_set_questions; [done..|].
        cbn in Hc. rewrite Hc. apply unresolved_delete, HG.
      - exists (if skip then [] else [Finish q false]). split; [|by rewrite Hl].
        eapply act_eq; [|by apply (act_finish (abs s) q skip)].
        unfold abs, set_qs. cbn. f_equal. cbn in Hc. by rewrite Hc, fmap_delete. }
    destruct skip; cbn [andb negb].
    + apply runs_bind, runs_ret. specialize (Hdone []). rewrite app_nil_r in Hdone.
      replace (set_sent (sent s) s) with s in Hdone by (by destruct s).
      eapply runs_mono; [exact Hdone|]. auto.
    + apply runs_send; [apply HG|]. eapply runs_mono; [exact (Hdone [Finish q false])|]. auto.
Qed.

(** ** Receiving *)

Definition message_caps (m : Message Content) : Z :=
  match m with
  | Bootstrap _ => 1
  | Call _ _ _ _ _ p => Z.of_nat (length (cap_table p))
  | Return _ _ (Results p) => Z.of_nat (length (cap_table p))
  | _ => 0
  end.

Lemma runs_write_descriptor_foreign h s :
  Good s -> room 1 s -> own_brand h = false ->
  runs (write_descriptor chain_bound h) s
    (fun r s' => exists id, r = (SenderHosted id, Some id) /\ grows [id] s s').
Proof.
  intros HG HR Hown. destruct bound_pos as [n Hn]. rewrite Hn. cbn [write_descriptor].
  apply runs_bind, runs_innermost; [done| |].
  { destruct h; try done. apply never_resolved. }
  destruct h; [done|by apply runs_export_cap..].
Qed.

Lemma abs_answers_none q s : ans (abs s) !! q = None -> answers s !! q = None.
Proof. cbn. rewrite lookup_fmap. by destruct (answers s !! q). Qed.

Lemma runs_handle_bootstrap q s :
  Good s -> room 1 s -> ready (abs s) (Bootstrap (Content := Content) q) ->
  runs (handle_message (Bootstrap q)) s (fun _ s' => receives (Bootstrap q) s s').
Proof.
  intros HG HR Hq. cbn in Hq. unfold handle_message, handle_bootstrap.
  apply runs_connected; [apply HG|]. cbn [negb]. apply runs_new_outgoing; [apply HG|].
  apply runs_gets, runs_bind.
  destruct (runs_write_descriptor_foreign _ _ HG HR (good_bootstrap _ HG))
    as (r & s1 & Hw & id & -> & Hg).
  cbn [write_descriptors]. apply runs_bind. eexists _, _. split.
  { unfold unwrap_result. by rewrite Hw. }
  apply runs_bind, runs_ret, runs_ret, runs_gets.
  pose proof (grows_frame _ _ _ Hg) as (Hans & Hsent & Hconn). pose proof Hg as (_ & HE & HG1 & _).
  rewrite Hans, (abs_answers_none _ _ Hq).
  apply runs_modify, runs_send_last; [apply HG1|]. split.
  - apply (good_frame (set_answers (<[q := {| return_has_been_sent := true;
      pipeline := Some (SingleCapPipeline (bootstrap_cap s)); redirected_results := false;
      received_finish := false; call_completion_promise := false;
      result_exports := [id] |}]> (answers s1)) s1)); try done.
    apply good_set_answers; [done|]. intros q' a' Hq'.
    apply lookup_insert_Some in Hq' as [[<- <-]|[_ Hq']]; [done|exact (good_redirect _ HG1 _ _ Hq')].
  - exists [Return q false (Results {| content := bootstrap_content; cap_table := [SenderHosted id] |})].
    split; [|cbn; by rewrite Hsent].
    eapply recv_eq; [|apply (recv_bootstrap (abs s) q bootstrap_content id (abs_exps s1)); done].
    rewrite abs_set_sent. unfold set_answer. rewrite abs_set_answers, (grows_abs _ _ _ Hg).
    cbn. by rewrite Hans, fmap_insert.
Qed.

Lemma imports_grow_abs ids s s' :
  imports_grow ids s s' -> abs s' = set_imps (add_imports ids (imps (abs s))) (abs s).
Proof.
  intros ((I & D & L & n & ->) & Hi & _). unfold abs, set_imps. cbn in *. by rewrite Hi.
Qed.
Lemma imports_grow_frame ids s s' :
  imports_grow ids s s' ->
  answers s' = answers s /\ sent s' = sent s /\ calls s' = calls s /\
  fulfilled s' = fulfilled s /\ questions s' = questions s.
Proof. by intros ((I & D & L & n & ->) & _). Qed.

Lemma abs_export_dom s i :
  i ∈ dom (abs_exps s) ->
  exists e, ExportTable.contents (exports s) !! i = Some e.
Proof.
  intros Hi. apply elem_of_dom in Hi as [x Hx]. rewrite lookup_abs_exps in Hx.
  destruct (ExportTable.contents (exports s) !! i) as [e|]; [eauto|done].
Qed.

(** The call is handed to the capability that is exported under the target's
    id, with the capabilities its descriptors stand for. *)
Definition dispatches (q i iface meth : Z) (p : Payload Content) s s' : Prop :=
  exists n h caps, abs_exps s !! i = Some (n, h) /\
    Forall2 (received s) (cap_table p) caps /\
    calls s' = calls s ++ [{| call_hook := h; call_answer := q; call_interface := iface;
      call_method := meth; call_content := content p; call_caps := caps |}].

Lemma runs_handle_call q i iface meth p s :
  let m := Call q (ImportedCap i) iface meth Caller p in
  Good s -> room (message_caps m) s -> ready (abs s) m ->
  runs (handle_message m) s (fun _ s' => receives m s s' /\ dispatches q i iface meth p s s').
Proof.
  intros m HG HR (Hq & Hi & Hrec & Hset). cbn in HR.
  apply abs_export_dom in Hi as Hi'. destruct Hi' as [e He].
  unfold handle_message, m, handle_call. apply runs_bind. cbn [get_message_target].
  apply runs_gets. rewrite ExportTable.find_contents, He. apply runs_ret.
  apply runs_bind, runs_ret, runs_bind.
  eapply runs_mono; [by apply runs_receive_caps; [|apply room_import_room|..]|].
  intros caps s1 [Hcaps Hg].
  pose proof (imports_grow_frame _ _ _ Hg) as (Hans & Hsent & Hcalls & _). pose proof Hg as (_ & _ & HG1).
  apply runs_gets. rewrite Hans, (abs_answers_none _ _ Hq).
  apply runs_alloc, runs_modify, runs_modify, runs_gets.
  cbn [answers set_answers set_calls]. rewrite lookup_insert_eq.
  eapply runs_lift_bind; [done|]. apply runs_modify_last.
  split; [split|].
  - apply (good_frame (set_answers (<[q := {| return_has_been_sent := false;
      pipeline := Some (QueuedPipeline (next_addr s1)); redirected_results := false;
      received_finish := false; call_completion_promise := true;
      result_exports := [] |}]> (answers s1)) s1)); try done; [|cbn; by rewrite insert_insert_eq].
    apply good_set_answers; [done|]. intros q' a' Hq'.
    apply lookup_insert_Some in Hq' as [[<- <-]|[_ Hq']]; [done|exact (good_redirect _ HG1 _ _ Hq')].
  - exists []. split; [|by rewrite app_nil_r].
    destruct p as [c ds]. eapply recv_eq; [|by apply (recv_call (abs s) q i iface meth c ds)].
    pose proof (imports_grow_abs _ _ _ Hg) as Habs.
    unfold abs, set_imps, set_ans. cbn. f_equal.
    + apply (f_equal exps) in Habs. exact Habs.
    + apply (f_equal imps) in Habs. exact Habs.
    + apply (f_equal qs) in Habs. exact Habs.
    + rewrite Hans, insert_insert_eq, fmap_insert. done.
  - exists (refcount e), (client_hook e), caps. split; [by rewrite lookup_abs_exps, He|].
    split; [done|]. cbn. by rewrite Hcalls.
Qed.

Lemma runs_handle_release i n s :
  Good s -> ready (abs s) (Release (Content := Content) i n) ->
  runs (handle_message (Release i n)) s (fun _ s' => receives (Release i n) s s').
Proof.
  intros HG Hn. cbn in Hn. unfold handle_message.
  eapply runs_mono; [by apply runs_release_export|]. intros [] s' ((t & b & ->) & HE & HG').
  split; [done|]. exists []. split; [|by rewrite app_nil_r].
  eapply recv_eq; [|by apply (recv_release (abs s) i n)].
  unfold abs, set_exps. cbn. f_equal. exact HE.
Qed.

Lemma rc_nonneg s i : Good s -> 0 <= rc (abs_exps s) i.
Proof.
  intros HG. unfold rc. destruct (abs_exps s !! i) as [[n h]|] eqn:Hi; [|done].
  apply (abs_exps_pos _ HG) in Hi. lia.
Qed.
Lemma exports_become_abs E s s' : exports_become E s s' -> abs s' = set_exps E (abs s).
Proof. intros ((t & b & ->) & HE & _). unfold abs, set_exps. cbn. f_equal. exact HE. Qed.
Lemma exports_become_sent E s s' : exports_become E s s' -> sent s' = sent s.
Proof. by intros ((t & b & ->) & _). Qed.

Lemma runs_handle_finish q b s :
  Good s -> ready (abs s) (Finish (Content := Content) q b) ->
  runs (handle_message (Finish q b)) s (fun _ s' => receives (Finish q b) s s').
Proof.
  intros HG Hr. unfold handle_message, handle_finish. apply runs_gets.
  cbn [ready ans abs] in Hr. rewrite lookup_fmap in Hr.
  destruct (answers s !! q) as [a|] eqn:Hq; cbn [fmap option_fmap option_map] in Hr.
  - apply runs_bind. cbn [a_sent a_exports abs_answer] in Hr.
    assert (Hans : ans (abs s) !! q = Some (abs_answer a)) by (cbn; by rewrite lookup_fmap, Hq).
    unfold abs_answer in Hans. destruct (return_has_been_sent a) eqn:Hsent.
    + apply runs_modify, runs_ret.
      assert (HG1 : Good (set_answers (delete q (answers s)) s)).
      { apply good_set_answers; [done|]. intros q' a' Hq'.
        apply lookup_delete_Some in Hq' as [_ Hq']. exact (good_redirect _ HG _ _ Hq'). }
      eapply runs_mono; [apply runs_release_exports; [done|]|].
      { destruct b; [by apply Hr|]. intros i. by apply rc_nonneg. }
      intros [] s' Hb. split; [apply Hb|]. exists [].
      split; [|by rewrite (exports_become_sent _ _ _ Hb), app_nil_r].
      eapply recv_eq; [|apply (recv_finish_sent (abs s) q b _ _ Hans Hr)].
      rewrite (exports_become_abs _ _ _ Hb). unfold set_exps, set_ans, abs. cbn.
      f_equal; [by destruct b|by rewrite fmap_delete].
    + rewrite Hr in Hans. apply runs_modify, runs_ret. rewrite Hr.
      replace (if b then [] else []) with (@nil Z) by (by destruct b).
      apply runs_ret. split.
      * apply good_set_answers; [done|]. intros q' a' Hq'.
        apply lookup_insert_Some in Hq' as [[<- <-]|[_ Hq']];
          [exact (good_redirect _ HG _ _ Hq)|exact (good_redirect _ HG _ _ Hq')].
      * exists []. split; [|by rewrite app_nil_r].
        eapply recv_eq; [|by apply (recv_finish_running (abs s) q b _ Hans)].
        rewrite abs_set_answers, fmap_insert. by destruct b.
  - apply runs_bind, runs_ret, runs_ret. split; [done|]. exists [].
    split; [|by rewrite app_nil_r]. apply recv_finish_gone. cbn. by rewrite lookup_fmap, Hq.
Qed.

Lemma questions_lookup q st s :
  qs (abs s) !! q = Some st ->
  exists qu, ExportTable.contents (questions s) !! q = Some qu /\ abs_question qu = st.
Proof.
  cbn. rewrite lookup_fmap. destruct (ExportTable.contents (questions s) !! q) as [qu|]; [|done].
  intros [= <-]. eauto.
Qed.

(** The promise of the question is resolved with the results and the
    capabilities their descriptors stand for, or with the error. *)
Definition resolves (q : Z) (body : ReturnBody Content) s s' : Prop :=
  match body with
  | Results p =>
      exists caps, Forall2 (received s) (cap_table p) caps /\
        fulfilled s' = fulfilled s ++ [(q, Response (content p) caps)]
  | ReturnException t =>
      fulfilled s' = fulfilled s ++ [(q, Rejected (remote_exception_to_error t))]
  | _ => False
  end.

(** [handle_return] up to the body of the return. *)
Lemma runs_return_found m q nf body qu s (Q : unit -> Conn -> Prop) :
  ExportTable.contents (questions s) !! q = Some qu ->
  runs match self_ref qu with
    | Some _ =>
        match body with
        | Results results =>
            caps ← receive_caps (cap_table results);
            fulfill q (Response (content results) caps)
        | ReturnException t => fulfill q (Rejected (remote_exception_to_error t))
        | Canceled | ResultsSentElsewhere | AcceptFromThirdParty => send_unimplemented m
        | TakeFromOtherQuestion id =>
            a ← gets (fun s => answers s !! id);
            match a with
            | Some a =>
                if redirected_results a then
                  set_answer id
                    {| return_has_been_sent := return_has_been_sent a; pipeline := pipeline a;
                       redirected_results := false; received_finish := received_finish a;
                       call_completion_promise := call_completion_promise a;
                       result_exports := result_exports a |} ;;
                  fulfill q (Redirected id)
                else fails Failed
            | None => fails Failed
            end
        end
    | None =>
        match body with
        | TakeFromOtherQuestion _ => send_unimplemented m
        | _ => on_questions (ExportTable.erase q)
        end
    end (set_questions (ExportTable.update q (set_awaiting nf) (questions s)) s) Q ->
  runs (handle_return m q nf body) s Q.
Proof.
  intros Hq HQ. unfold handle_return. apply runs_gets.
  pose proof (ExportTable.contents_range _ _ _ Hq) as Hr.
  replace (Z.of_nat (length (slots (questions s))) <=? q) with false by lia.
  apply runs_gets. rewrite ExportTable.find_contents, Hq. apply runs_modify. exact HQ.
Qed.

Lemma runs_fulfill q r qu s (Q : unit -> Conn -> Prop) :
  Good s -> ExportTable.contents (questions s) !! q = Some qu ->
  self_ref qu = Some {| fulfiller := true |} -> is_awaiting_return qu = false ->
  (forall t, ExportTable.TableOk t -> unresolved (ExportTable.contents t) ->
     abs_question <$> ExportTable.contents t = abs_question <$> ExportTable.contents (questions s) ->
     Q tt (set_fulfilled (fulfilled s ++ [(q, r)]) (set_questions t s))) ->
  runs (fulfill q r) s Q.
Proof.
  intros HG Hq Hs Haw HQ. unfold fulfill. apply runs_gets.
  rewrite ExportTable.find_contents, Hq, Hs. cbn [fulfiller].
  apply runs_modify, runs_modify_last.
  destruct (ExportTable.update_spec (questions s) q (set_self_ref (Some {| fulfiller := false |})))
    as [Ht Hc].
  { by apply ExportTable.contents_range in Hq as [? _]. }
  { apply HG. }
  rewrite (alter_insert_lookup _ _ _ _ Hq) in Hc.
  apply (HQ _ Ht).
  - rewrite Hc. apply unresolved_insert; [apply HG|]. cbn. congruence.
  - rewrite Hc, fmap_insert. apply insert_id. rewrite lookup_fmap, Hq. cbn. f_equal.
    unfold abs_question. cbn. by rewrite Hs.
Qed.

Lemma runs_handle_return_held q nf body s :
  let m := Return q nf body in
  Good s -> room (message_caps m) s -> qs (abs s) !! q = Some (Build_QState true true false) ->
  match body with
  | Results p =>
      (forall j, j ∈ receiver_ids (cap_table p) -> j ∈ dom (exps (abs s))) /\
      Forall settled_descriptor (cap_table p)
  | ReturnException _ => True
  | _ => False
  end ->
  runs (handle_message m) s (fun _ s' => receives m s s' /\ resolves q body s s').
Proof.
  intros m HG HR Hq Hbody. destruct (questions_lookup _ _ _ Hq) as (qu & Hqu & Habs).
  injection Habs as Haw Hheld Hskip.
  destruct (self_ref qu) as [[fu]|] eqn:Hself; [|done].
  assert (fu = true) as -> by exact (good_unresolved _ HG _ _ _ Hqu Haw Hself).
  apply (runs_return_found _ _ _ _ qu); [done|]. rewrite Hself.
  destruct (ExportTable.update_spec (questions s) q (set_awaiting nf)) as [Ht Hc].
  { by apply ExportTable.contents_range in Hqu as [? _]. }
  { apply HG. }
  rewrite (alter_insert_lookup _ _ _ _ Hqu) in Hc.
  set (s1 := set_questions _ s).
  assert (HG1 : Good s1).
  { apply good_set_questions; [done..|]. rewrite Hc.
    apply unresolved_insert; [apply HG|done]. }
  assert (Hq1 : ExportTable.contents (questions s1) !! q = Some (set_awaiting nf qu)).
  { cbn [questions set_questions s1]. by rewrite Hc, lookup_insert_eq. }
  assert (Habs1 : abs_question <$> ExportTable.contents (questions s1) =
    <[q := Build_QState false true nf]> (qs (abs s))).
  { cbn [questions set_questions s1 qs abs]. rewrite Hc, fmap_insert. f_equal.
    unfold abs_question. cbn. by rewrite Hself, Hskip. }
  destruct body as [p|t| | | |]; try done.
  - destruct p as [c ds]. destruct Hbody as [Hrec Hset]. cbn [cap_table content] in *.
    apply runs_bind. eapply runs_mono; [apply (runs_receive_caps ds s1); try done; by apply room_import_room in HR|].
    intros caps s2 [Hcaps Hg]. pose proof (imports_grow_frame _ _ _ Hg) as (_ & Hsent & _ & Hful & Hqs).
    apply (runs_fulfill _ _ (set_awaiting nf qu)); [apply Hg|by rewrite Hqs|by cbn; rewrite Hself|done|].
    intros t Ht2 Hun Hc2. split; [split|].
    + apply (good_frame (set_questions t s2)); try done. apply good_set_questions; [apply Hg|done..].
    + exists []. split; [|cbn; by rewrite Hsent, app_nil_r].
      eapply recv_eq; [|by apply (recv_results (abs s) q nf c ds false)].
      pose proof (imports_grow_abs _ _ _ Hg) as Ha. cbn [orb].
      unfold abs, set_imps, set_qs. cbn [exps imps qs ans]. f_equal.
      * apply (f_equal exps) in Ha. exact Ha.
      * apply (f_equal imps) in Ha. exact Ha.
      * cbn. rewrite Hc2, Hqs. exact Habs1.
      * apply (f_equal ans) in Ha. exact Ha.
    + exists caps. split; [exact Hcaps|]. cbn. by rewrite Hful.
  - apply (runs_fulfill _ _ (set_awaiting nf qu)); [done|done|by cbn; rewrite Hself|done|].
    intros t' Ht2 Hun Hc2. split; [split|done].
    + apply (good_frame (set_questions t' s1)); try done. by apply good_set_questions.
    + exists []. split; [|by rewrite app_nil_r].
      eapply recv_eq; [|by apply (recv_exception (abs s) q nf t false)].
      unfold abs, set_imps, set_qs. cbn [exps imps qs ans]. f_equal.
      cbn. rewrite Hc2. exact Habs1.
Qed.

Lemma runs_handle_return_cancelled q nf body s :
  let m := Return q nf body in
  Good s -> qs (abs s) !! q = Some (Build_QState true false false) ->
  (forall id, body <> TakeFromOtherQuestion id) ->
  runs (handle_message m) s (fun _ s' => receives m s s' /\ fulfilled s' = fulfilled s).
Proof.
  intros m HG Hq Hbody. destruct (questions_lookup _ _ _ Hq) as (qu & Hqu & Habs).
  injection Habs as Haw Hheld Hskip.
  destruct (self_ref qu) as [?|] eqn:Hself; [done|].
  apply (runs_return_found _ _ _ _ qu); [done|]. rewrite Hself.
  destruct (ExportTable.update_spec (questions s) q (set_awaiting nf)) as [Ht Hc].
  { by apply ExportTable.contents_range in Hqu as [? _]. }
  { apply HG. }
  rewrite (alter_insert_lookup _ _ _ _ Hqu) in Hc.
  set (s1 := set_questions _ s).
  assert (Herase : runs (on_questions (ExportTable.erase q)) s1
    (fun _ s' => receives m s s' /\ fulfilled s' = fulfilled s)).
  { eapply (runs_erase_question q (set_awaiting nf qu)); [exact Ht| |].
    { cbn [questions set_questions s1]. by rewrite Hc, lookup_insert_eq. }
    intros t Ht2 Hc2. cbn [questions set_questions s1] in Hc2.
    rewrite Hc, delete_insert_eq in Hc2. split; [split|done].
    - apply (good_frame (set_questions t s)); try done. apply good_set_questions; [done..|].
      rewrite Hc2. apply unresolved_delete, HG.
    - exists []. split; [|by rewrite app_nil_r].
      eapply recv_eq; [|by apply (recv_cancelled (abs s) q nf body false)].
      unfold abs, set_qs. cbn. f_equal. by rewrite Hc2, fmap_delete. }
  destruct body; try exact Herase. by edestruct Hbody.
Qed.

(** ** Every message that is ready is handled *)

Theorem runs_handle_message m s :
  Good s -> room (message_caps m) s -> ready (abs s) m ->
  runs (handle_message m) s (fun _ s' => receives m s s').
Proof.
  intros HG HR Hr. destruct m as [| |q|q t iface meth r p|q nf body|q b| |i n| |]; try done.
  - by apply runs_handle_bootstrap.
  - destruct t as [i|], r; try done.
    eapply runs_mono; [by apply runs_handle_call|]. by intros [] s' [Hs' _].
  - destruct Hr as [[Hq Hb]|[Hq Hb]].
    + eapply runs_mono; [by apply runs_handle_return_held|]. by intros [] s' [Hs' _].
    + eapply runs_mono; [by apply runs_handle_return_cancelled|]. by intros [] s' [Hs' _].
  - by apply runs_handle_finish.
  - by apply runs_handle_release.
Qed.

End ops.
