(* ===== verification/RpcNet.v ===== *)
(** * Two connections and the transport between them

    Two [ConnectionState]s that talk to each other: a [NetOp] is an operation
    one of them performs of its own accord, or the next message the other has
    sent.  Every operation that is [enabled] succeeds, and the system is one of
    the abstract systems of [RpcProtocol] at every step.

    The theorems are about capabilities that are [Settled] and about the
    operations of [NetOp].  Calls on promised answers, capabilities that resolve
    to others (and so [Resolve] and [Disembargo]), tail calls and the loss of
    the connection are not among these; their handlers are in [RpcConn], and
    [RpcProps], [RpcStreams] and [QueuedProps] have theorems about some of
    them. *)

From S2P Require Import Prelude RpcTables RpcTypes RpcConn.
From S2P Require Import RpcProtocol RpcAgree RpcSafe RpcRefine.
From stdpp Require Import gmap.
#[local] Open Scope Z_scope.
#[local] Open Scope rust_scope.

Section net.
Context {Content : Type} `{Hooks Content} `{!Settled}.
Notation Conn := (ConnectionState Content).
Implicit Types (s : Conn).

(** The two connections; what one has [sent] and the other has not handled is
    on its way. *)
Definition Net : Type := bool -> Conn.

(** What happens at end [b]: the application asks for the bootstrap
    capability, sends a request with the capabilities [caps] on import [i],
    a call completes, a client is dropped (with its flow controller [f]), and
    with the last client of an import the import, the last handle of a question
    is dropped, or the next message arrives. *)
Inductive NetOp :=
| OpBootstrap (b : bool)
| OpSend (b : bool) (target : Client) (interface_id method_id : Z) (c : Content)
    (caps : list (option ClientHook))
| OpResults (b : bool) (q : Z) (c : Content) (caps : list (option ClientHook))
    (status : option ErrorKind)
| OpDropClient (b : bool) (f : Z)
| OpDropImport (b : bool) (i : Z)
| OpDropQuestion (b : bool) (q : Z)
| OpReceive (b : bool).

(** [room] as a boolean. *)
Definition roomb (k : Z) s : bool :=
  (Z.of_nat (size (ExportTable.contents (exports s))) + k <? 2 ^ 32 - 1) &&
  (Z.of_nat (size (ExportTable.contents (questions s))) <? 2 ^ 32 - 1) &&
  bool_decide (map_Forall (fun _ e => refcount e + k < 2 ^ 32) (ExportTable.contents (exports s))) &&
  bool_decide (map_Forall (fun _ e => remote_ref_count e + k < 2 ^ 32) (imports s)).

Definition usableb s (h : ClientHook) : bool :=
  match h with
  | Own c =>
      match variant c with
      | ImportVariant i =>
          bool_decide (i ∈ dom (imports s)) &&
          match from_ptr (variant_ptr (ImportVariant i)) s with Some _ => true | None => false end
      | _ => false
      end
  | _ => true
  end.

(** When an operation can happen.  A client of an import exists as long as
    the import is in the table, a [QuestionRef] as long as its question says
    so, and a call completes once.  The capabilities that are passed are local
    ones or clients that the connection finds ([usable]), and the counters have
    room.  A client may be dropped at any time. *)
Definition enabled (o : NetOp) (n : Net) : bool :=
  match o with
  | OpBootstrap b => roomb 0 (n b)
  | OpSend b target _ _ _ caps =>
      match variant target with
      | ImportVariant i => bool_decide (i ∈ dom (imports (n b)))
      | _ => false
      end && roomb (Z.of_nat (length caps)) (n b) &&
      forallb (fun o => match o with Some h => usableb (n b) h | None => true end) caps
  | OpResults b q _ caps _ =>
      match answers (n b) !! q with
      | Some a => negb (return_has_been_sent a) && bool_decide (result_exports a = [])
      | None => false
      end && roomb (Z.of_nat (length caps)) (n b) &&
      forallb (fun o => match o with Some h => usableb (n b) h | None => true end) caps
  | OpDropClient b f => true
  | OpDropImport b i => bool_decide (i ∈ dom (imports (n b)))
  | OpDropQuestion b q =>
      match ExportTable.find q (questions (n b)) with
      | Some qu => match self_ref qu with Some _ => true | None => false end
      | None => false
      end
  | OpReceive b =>
      match sent (n (negb b)) with
      | m :: _ => roomb (message_caps m) (n b)
      | [] => false
      end
  end.

Definition done {A} (r : outcome A * Conn) : outcome unit * Conn :=
  (match fst r with
   | Ok _ => Ok tt | Err e => Err e | Panic => Panic | UB => UB | OutOfFuel => OutOfFuel
   end, snd r).

(** Run an operation: its outcome and the two connections after it. *)
Definition perform (o : NetOp) (n : Net) : outcome unit * Net :=
  match o with
  | OpBootstrap b => let (r, s) := done (bootstrap (n b)) in (r, upd b s n)
  | OpSend b target iface meth c caps =>
      let (r, s) := done (Request_send target iface meth c caps (n b)) in (r, upd b s n)
  | OpResults b q c caps status =>
      let (r, s) :=
        done (from_results_inner q (results_are_rpc false (n b)) c caps status (n b)) in
      (r, upd b s n)
  | OpDropClient b f => let (r, s) := done (flow_drop f (n b)) in (r, upd b s n)
  | OpDropImport b i => let (r, s) := done (ImportClient_drop i (n b)) in (r, upd b s n)
  | OpDropQuestion b q => let (r, s) := done (QuestionRef_drop q (n b)) in (r, upd b s n)
  | OpReceive b =>
      match sent (n (negb b)) with
      | m :: rest =>
          let (r, s) := done (handle_message m (n b)) in
          (r, upd (negb b) (set_sent rest (n (negb b))) (upd b s n))
      | [] => (Ok tt, n)
      end
  end.

(** Two connections that start with local bootstrap capabilities. *)
Definition start (cap cap' : ClientHook) (a a' : Z) : Net :=
  fun b => if b then ConnectionState_new cap a else ConnectionState_new cap' a'.

Inductive net_reachable : Net -> Prop :=
| net_start cap cap' a a' :
    own_brand cap = false -> own_brand cap' = false -> net_reachable (start cap cap' a a')
| net_perform n o : net_reachable n -> enabled o n = true -> net_reachable (snd (perform o n)).

(** ** The abstract view *)

Definition view (n : Net) : System :=
  {| vat := fun b => abs (n b); chan := fun b => sent (n b) |}.

(** Two systems with the same vats and queues. *)
#[export] Instance system_equiv : Equiv (System (Content := Content)) := fun σ σ' =>
  forall b, vat σ b = vat σ' b /\ chan σ b = chan σ' b.
#[export] Instance system_equivalence : Equivalence (≡@{System (Content := Content)}).
Proof.
  split.
  - by intros σ b.
  - intros σ σ' Heq b. by destruct (Heq b) as [-> ->].
  - intros σ σ' σ'' H1 H2 b. destruct (H1 b) as [-> ->]. apply H2.
Qed.
#[export] Instance inv_proper : Proper ((≡) ==> iff) (Inv (Content := Content)).
Proof.
  intros σ σ' Heq. unfold Inv, InvAt. split; intros Hi b; specialize (Hi b);
    destruct (Heq b) as [Hv Hc], (Heq (negb b)) as [Hv' Hc'];
    [rewrite <- Hv, <- Hv', <- Hc, <- Hc'|rewrite Hv, Hv', Hc, Hc']; exact Hi.
Qed.

Definition NetOk (n : Net) : Prop := (forall b, Good (n b)) /\ Inv (view n).

(** ** Guards *)

Lemma roomb_room k s : roomb k s = true -> room k s.
Proof.
  unfold roomb. rewrite !andb_true_iff, !bool_decide_eq_true. intros [[[H1 H2] H3] H4].
  split; [lia|lia|exact H3|exact H4].
Qed.
Lemma usableb_usable s h : usableb s h = true -> usable s h.
Proof.
  destruct h as [c| |]; cbn; [|done..]. destruct (variant c); [|done..].
  rewrite andb_true_iff, bool_decide_eq_true. intros [? Hf]. split; [done|]. by destruct (from_ptr _ s).
Qed.
Lemma forallb_usable s caps :
  forallb (fun o => match o with Some h => usableb s h | None => true end) caps = true ->
  all_usable s caps.
Proof.
  rewrite forallb_forall. intros Hall. apply Forall_forall. intros [h|] Hh; [|done].
  apply usableb_usable. apply list_elem_of_In in Hh. exact (Hall _ Hh).
Qed.

(** ** Every operation is a step *)

Lemma step_local n b s :
  (forall b, Good (n b)) -> acts (n b) s ->
  (forall b', Good (upd b s n b')) /\ exists σ, step (view n) σ /\ σ ≡ view (upd b s n).
Proof.
  intros HG (HG' & out & Ha & Hs). split.
  - intros b'. unfold upd. by case_decide; subst.
  - eexists. split; [by apply (step_act (view n) b)|]. intros b'. cbn. unfold upd.
    case_decide; [subst|done]. by rewrite Hs.
Qed.

(** What an operation does to the abstract systems: dropping a client does
    nothing, every other operation is a step. *)
Definition takes_step (o : NetOp) (n n' : Net) : Prop :=
  match o with
  | OpDropClient _ _ => view n ≡ view n'
  | _ => exists σ, step (view n) σ /\ σ ≡ view n'
  end.

Lemma stays_local n b s :
  (forall b, Good (n b)) -> Good s /\ abs s = abs (n b) /\ sent s = sent (n b) ->
  (forall b', Good (upd b s n b')) /\ view n ≡ view (upd b s n).
Proof.
  intros HG (HG' & Ha & Hs). split.
  - intros b'. unfold upd. by case_decide; subst.
  - intros b'. cbn. unfold upd. case_decide; [by subst|done].
Qed.

Lemma step_receive n b m rest s :
  (forall b, Good (n b)) -> sent (n (negb b)) = m :: rest -> receives m (n b) s ->
  let n' := upd (negb b) (set_sent rest (n (negb b))) (upd b s n) in
  (forall b', Good (n' b')) /\ exists σ, step (view n) σ /\ σ ≡ view n'.
Proof.
  intros HG Hm (HG' & out & Hr & Hs) n'. split.
  - intros b'. unfold n', upd. case_decide; [subst; by apply (good_frame (n (negb b)))|].
    case_decide; [by subst|done].
  - eexists. split; [by apply (step_recv (view n) b m rest)|]. intros b'. cbn. unfold n', upd.
    destruct b, b'; cbn; by rewrite ?Hs.
Qed.

Lemma runs_done {A} (c : ST Conn A) s (Q : A -> Conn -> Prop) :
  runs c s Q -> exists s' a, done (c s) = (Ok tt, s') /\ Q a s'.
Proof. intros (a & s' & Hc & HQ). exists s', a. unfold done. by rewrite Hc. Qed.

Lemma inv_question_state n b q aw skip :
  NetOk n -> qs (abs (n b)) !! q = Some (Build_QState aw true skip) -> aw = true -> skip = false.
Proof.
  intros [_ Hinv] Hq ->. destruct (Hinv b) as (_ & _ & Hag).
  pose proof (agree_proto _ _ _ _ Hag q) as Hp. cbn in Hp. cbn in Hq. rewrite Hq in Hp.
  by inversion Hp.
Qed.

Lemma enabled_performs n o :
  NetOk n -> enabled o n = true ->
  exists n', perform o n = (Ok tt, n') /\ (forall b, Good (n' b)) /\ takes_step o n n'.
Proof.
  intros Hok He. pose proof Hok as [HG Hinv].
  destruct o as [b|b target iface meth c caps|b q c caps status|b f|b i|b q|b]; cbn [enabled perform takes_step] in *.
  - apply roomb_room in He.
    destruct (runs_done _ _ _ (runs_bootstrap _ (HG b) (room_questions _ _ He))) as (s' & h & -> & Ha).
    eexists. split; [done|]. by apply step_local.
  - apply andb_true_iff in He as [[Hi Hr]%andb_true_iff Hu].
    destruct (variant target) as [i| |] eqn:Hv; try done. apply bool_decide_eq_true in Hi.
    apply roomb_room in Hr. apply forallb_usable in Hu.
    destruct (runs_done _ _ _ (runs_Request_send target i iface meth c caps _ (HG b) Hr Hv Hi Hu))
      as (s' & r & -> & _ & Ha).
    eexists. split; [done|]. by apply step_local.
  - apply andb_true_iff in He as [[Ha Hr]%andb_true_iff Hu].
    destruct (answers (n b) !! q) as [a|] eqn:Hq; [|done].
    apply andb_true_iff in Ha as [Hs Hx]. apply bool_decide_eq_true in Hx.
    apply negb_true_iff in Hs. apply roomb_room in Hr. apply forallb_usable in Hu.
    assert (Hrun : answer_running q (received_finish a) (n b)).
    { unfold answer_running. cbn. rewrite lookup_fmap, Hq. cbn. unfold abs_answer. by rewrite Hs, Hx. }
    assert (results_are_rpc false (n b) = true) as ->.
    { unfold results_are_rpc, connected. by rewrite (good_connected _ (HG b)). }
    destruct (runs_done _ _ _ (runs_results q _ c caps status _ (HG b) Hrun Hr Hu))
      as (s' & r & -> & Hact).
    eexists. split; [done|]. by apply step_local.
  - destruct (runs_done _ _ _ (runs_flow_drop f _ (HG b))) as (s' & r & -> & Hs).
    eexists. split; [done|]. by apply stays_local.
  - apply bool_decide_eq_true in He.
    destruct (runs_done _ _ _ (runs_ImportClient_drop i _ (HG b) He)) as (s' & r & -> & Ha).
    eexists. split; [done|]. by apply step_local.
  - rewrite ExportTable.find_contents in He.
    destruct (ExportTable.contents (questions (n b)) !! q) as [qu|] eqn:Hq; [|done].
    destruct (self_ref qu) as [qr|] eqn:Hself; [|done].
    assert (Hst : qs (abs (n b)) !! q = Some (Build_QState (is_awaiting_return qu) true (skip_finish qu))).
    { cbn. rewrite lookup_fmap, Hq. cbn. unfold abs_question. by rewrite Hself. }
    destruct (runs_done _ _ _ (runs_QuestionRef_drop q _ _ _ (HG b) Hst
      (inv_question_state n b q _ _ Hok Hst))) as (s' & r & -> & Ha).
    eexists. split; [done|]. by apply step_local.
  - destruct (sent (n (negb b))) as [|m rest] eqn:Hm; [done|]. apply roomb_room in He.
    pose proof (inv_ready (view n) b m rest Hinv Hm) as Hr.
    destruct (runs_done _ _ _ (runs_handle_message m _ (HG b) He Hr)) as (s' & r & -> & Ha).
    eexists. split; [done|]. by apply (step_receive n b m rest).
Qed.

Lemma new_good cap a : own_brand cap = false -> Good (ConnectionState_new (Content := Content) cap a).
Proof.
  intros Hc. split; cbn.
  - done.
  - apply ExportTable.new_ok.
  - apply ExportTable.new_ok.
  - intros id e He. by apply lookup_empty_Some in He.
  - intros k id. split.
    + intros He. by apply lookup_empty_Some in He.
    + intros (e & He & _). by apply lookup_empty_Some in He.
  - intros i e He. by apply lookup_empty_Some in He.
  - intros q k He. by apply lookup_empty_Some in He.
  - done.
  - intros id q r He. by apply lookup_empty_Some in He.
Qed.

Lemma start_ok cap cap' a a' :
  own_brand cap = false -> own_brand cap' = false -> NetOk (start cap cap' a a').
Proof.
  intros Hc Hc'. split; [intros []; by apply new_good|].
  assert (initial ≡ view (start cap cap' a a')) as Heq.
  { intros b. unfold view, start, initial, empty_vat, abs, abs_exps. by destruct b; cbn; rewrite !fmap_empty. }
  rewrite <- Heq. apply inv_initial.
Qed.

Lemma reachable_ok n : net_reachable n -> NetOk n.
Proof.
  induction 1 as [cap cap' a a' Hc Hc'|n o Hn IH He]; [by apply start_ok|].
  destruct (enabled_performs n o IH He) as (n' & -> & HG & Hs). split; [done|]. cbn [snd].
  assert (Hstep : (exists σ, step (view n) σ /\ σ ≡ view n') \/ view n ≡ view n') by (destruct o; auto).
  destruct Hstep as [(σ & Hst & <-)|<-]; [|apply IH]. eapply protocol_inv_step; [apply IH|done].
Qed.

End net.
