(* ===== verification/RpcProps.v ===== *)
(** * Properties of the RPC system

    What two connections guarantee to each other ([RpcNet]), the id tables
    ([RpcTables]), and how a connection fails: the inputs of a peer, of the
    application or of the transport that a handler does not survive. *)

From S2P Require Import Prelude RpcTables RpcTypes RpcConn.
From S2P Require Import RpcProtocol RpcAgree RpcSafe RpcRefine RpcNet.
From stdpp Require Import gmap.
#[local] Open Scope Z_scope.
#[local] Open Scope rust_scope.

(** ** Hooks that are all settled, for the examples *)

#[export] Instance local_hooks : Hooks nat := {|
  resolved_to _ := None;
  more_resolved _ := false;
  queued_cap a _ := Foreign a;
  bootstrap_content := 0%nat;
  content_cap _ caps _ := match caps with Some h :: _ => Ok h | _ => Err Failed end;
  chain_bound := 2
|}.
#[export] Instance local_settled : Settled (Content := nat).
Proof. split; [done|done|by exists 1%nat]. Qed.

(** Two connections: the application of [true] asks for the bootstrap
    capability, gets it, and calls it with a capability of its own. *)
Definition example_start : Net (Content := nat) := start (Foreign 1) (Foreign 2) 100 200.
Definition example_call : NetOp (Content := nat) :=
  OpSend true {| variant := ImportVariant 0; flow_controller := 0 |} 7 3 42%nat [Some (Foreign 5)].
Definition example_ops : list (NetOp (Content := nat)) :=
  [OpBootstrap true; OpReceive false; OpReceive true; example_call].

Fixpoint perform_all {Content} `{Hooks Content} (os : list (NetOp (Content := Content)))
    (n : Net (Content := Content)) : Net (Content := Content) :=
  match os with [] => n | o :: os => perform_all os (snd (perform o n)) end.
Fixpoint all_enabled {Content} `{Hooks Content} (os : list (NetOp (Content := Content)))
    (n : Net (Content := Content)) : bool :=
  match os with [] => true | o :: os => enabled o n && all_enabled os (snd (perform o n)) end.

Lemma perform_all_reachable {Content} `{Hooks Content} os (n : Net (Content := Content)) :
  net_reachable n -> all_enabled os n = true -> net_reachable (perform_all os n).
Proof.
  revert n. induction os as [|o os IH]; intros n Hn; cbn [perform_all all_enabled]; [done|].
  intros [He Hos]%andb_true_iff. apply IH; [by apply net_perform|done].
Qed.
Lemma example_reachable : net_reachable (perform_all example_ops example_start).
Proof. apply perform_all_reachable; [by apply net_start|by vm_compute]. Qed.

Section properties.
Context {Content : Type} `{Hooks Content}.
Notation Conn := (ConnectionState Content).
Implicit Types (s : Conn).

Lemma refers_view (n : Net (Content := Content)) b i :
  refers (view n) b i ->
  Inv (view n) -> exists e, ExportTable.contents (exports (n (negb b))) !! i = Some e.
Proof.
  intros Hr Hinv. apply refers_exported in Hr; [|done]. by apply abs_export_dom in Hr.
Qed.

Lemma recv_return_done (v v' : Vat) q nf (body : ReturnBody Content) skip out :
  recv v (Return q nf body) v' out -> qs v !! q = Some (Build_QState true true skip) ->
  qs v' !! q = Some (Build_QState false true (skip || nf)).
Proof.
  intros Hr Hq. inversion Hr; subst; simplify_eq; cbn; by rewrite lookup_insert_eq.
Qed.

(** C20: Two connections that pass settled capabilities to each other (local
    ones that never resolve to others, [Settled], and imports) do not fail.  In
    every state that two new connections, with local bootstrap capabilities,
    reach by the operations of [NetOp] (an application asks for the bootstrap capability, makes a call on an import,
    completes a call, drops a client, the last client of an import or the last
    handle of a question; the next message arrives), each of these operations
    that is [enabled] returns [Ok]: no message is answered with a protocol error
    ("questionId is already in use", "Invalid question ID", "Tried to release
    invalid export ID", ...), and nothing panics.  [enabled]: the import, the
    call or the question that the operation is about exists, and a call is
    completed once; the clients that are passed in a message are ones that the
    connection finds by their import (of an import that was received more than
    once, it finds no client after the one made last has been dropped, and
    passing an older one panics: [older_client_panics]); the tables and counts
    have room in their 32 bits.  Calls on promised answers, capabilities that
    resolve, tail calls and the loss of the connection are not operations of
    [NetOp]. *)
Theorem rpc_never_fails `{!Settled} (n : Net (Content := Content)) o :
  net_reachable n -> enabled o n = true -> exists n', perform o n = (Ok tt, n').
Proof.
  intros Hn He. destruct (enabled_performs n o (reachable_ok n Hn) He) as (n' & Hp & _). eauto.
Qed.

(** C21: The connections implement the abstract protocol: in every state that
    two new connections reach by the operations of [NetOp], with settled
    capabilities, each of these operations that is [enabled] is a step of
    [RpcProtocol.step] between the abstract views of the two connections, or,
    when it drops a client without its import, leaves them as they are.  The
    operations of [NetOp] are asking for the bootstrap capability, calls on
    imports, results of calls, drops of clients, imports and questions, and the
    handling of the next message; [enabled] asks that what an operation is
    about exists, that the connection finds the clients that it passes, and
    that tables and counts have room.  There are no calls on promised answers,
    no [Resolve] or [Disembargo], no tail calls and no loss of the connection
    among them. *)
Theorem rpc_implements_protocol `{!Settled} (n : Net (Content := Content)) o :
  net_reachable n -> enabled o n = true ->
  match o with
  | OpDropClient _ _ => view n ≡ view (snd (perform o n))
  | _ => exists σ, step (view n) σ /\ σ ≡ view (snd (perform o n))
  end.
Proof.
  intros Hn He. destruct (enabled_performs n o (reachable_ok n Hn) He) as (n' & -> & _ & Hσ). done.
Qed.

(** C22: The reference counts agree in every state that two new connections
    reach by the operations of [NetOp], with settled capabilities: the count of an export is the number of
    references its peer has received, plus those in descriptors on their way
    (the results of a cancelled call excepted), plus those the peer has given
    back in [Release] messages or gives back with a [Finish]. *)
Theorem rpc_references_agree `{!Settled} (n : Net (Content := Content)) b i :
  net_reachable n ->
  rc (abs_exps (n (negb b))) i =
    refs (remote_ref_count <$> imports (n b)) i +
    carried (qs (abs (n b))) i (sent (n (negb b))) +
    released i (sent (n b)) + finishing (ans (abs (n (negb b)))) i (sent (n b)).
Proof.
  intros Hn. destruct (reachable_ok n Hn) as [_ Hinv].
  destruct (Hinv b) as (_ & _ & Hag). apply (agree_refs _ _ _ _ Hag).
Qed.

(** C23: A settled capability that a vat refers to, by an import or by a message
    on its way, is exported by its peer, and it stays the same capability
    through every [enabled] operation of [NetOp] at either side for as long as
    it is referred to, in every state that two new connections reach by these
    operations.  (An export that is a promise is replaced when the promise
    resolves; [Settled] leaves these out.) *)
Theorem rpc_capability_stable `{!Settled} (n : Net (Content := Content)) o b i :
  net_reachable n -> enabled o n = true ->
  refers (view n) b i -> refers (view (snd (perform o n))) b i ->
  exists e e', ExportTable.contents (exports (n (negb b))) !! i = Some e /\
    ExportTable.contents (exports (snd (perform o n) (negb b))) !! i = Some e' /\
    client_hook e' = client_hook e.
Proof.
  intros Hn He Hr Hr'. pose proof (reachable_ok n Hn) as [HG Hinv].
  pose proof (reachable_ok _ (net_perform n o Hn He)) as [_ Hinv'].
  destruct (refers_view _ _ _ Hr Hinv) as [e Hi]. destruct (refers_view _ _ _ Hr' Hinv') as [e' Hi'].
  exists e, e'. split; [done|]. split; [done|].
  destruct (enabled_performs n o (conj HG Hinv) He) as (n' & Hp & _ & Hs).
  rewrite Hp in Hi'. cbn [snd] in Hi'.
  assert (Hsame : exps (vat (view n) (negb b)) !! i = Some (refcount e, client_hook e) ->
    exps (vat (view n') (negb b)) !! i = None \/ exists k, exps (vat (view n') (negb b)) !! i = Some (k, client_hook e)).
  { intros Hv. assert (Hor : (exists σ, step (view n) σ /\ σ ≡ view n') \/ view n ≡ view n') by (destruct o; auto).
    destruct Hor as [(σ & Hst & Heq)|Heq]; destruct (Heq (negb b)) as [<- _].
    - exact (step_same_cap _ _ (negb b) i Hst _ _ Hv).
    - right. eauto. }
  cbn [view vat exps abs] in Hsame. rewrite !lookup_abs_exps, Hi, Hi' in Hsame.
  destruct (Hsame eq_refl) as [?|[n1 [= _ Hh]]]; [done|congruence].
Qed.

(** C24: Between two connections that run by the operations of [NetOp], with
    settled capabilities, a call that arrives is handed to the capability
    exported under the id it targets, with the capabilities its descriptors
    stand for: the peer's new capabilities as imports, its own exports as they
    are. *)
Theorem rpc_call_dispatched `{!Settled} (n : Net (Content := Content)) b q i iface meth p rest :
  net_reachable n -> enabled (OpReceive b) n = true ->
  sent (n (negb b)) = Call q (ImportedCap i) iface meth Caller p :: rest ->
  exists s', handle_message (Call q (ImportedCap i) iface meth Caller p) (n b) = (Ok tt, s') /\
    dispatches q i iface meth p (n b) s'.
Proof.
  intros Hn He Hm. destruct (reachable_ok n Hn) as [HG Hinv].
  pose proof (inv_ready (view n) b _ rest Hinv Hm) as Hr.
  cbn [enabled] in He. rewrite Hm in He. apply roomb_room in He.
  destruct (runs_handle_call q i iface meth p (n b) (HG b) He Hr) as ([] & s' & Hh & _ & Hd). eauto.
Qed.

(** C25: Between two connections that run by the operations of [NetOp], with
    settled capabilities, a return that arrives for a question still asked
    resolves its promise, once, with the results and their capabilities or with
    the callee's error. *)
Theorem rpc_return_resolves `{!Settled} (n : Net (Content := Content)) b q nf body rest qu :
  net_reachable n -> enabled (OpReceive b) n = true ->
  sent (n (negb b)) = Return q nf body :: rest ->
  ExportTable.find q (questions (n b)) = Some qu -> self_ref qu <> None ->
  exists s', handle_message (Return q nf body) (n b) = (Ok tt, s') /\
    resolves q body (n b) s' /\
    exists qu', ExportTable.find q (questions s') = Some qu' /\ is_awaiting_return qu' = false.
Proof.
  intros Hn He Hm Hq Hself. destruct (reachable_ok n Hn) as [HG Hinv].
  pose proof (inv_ready (view n) b _ rest Hinv Hm) as Hr.
  cbn [enabled] in He. rewrite Hm in He. apply roomb_room in He.
  rewrite ExportTable.find_contents in Hq.
  destruct Hr as [[Hst Hb]|[Hst _]].
  - destruct (runs_handle_return_held q nf body (n b) (HG b) He Hst Hb)
      as ([] & s' & Hh & (HG' & out & Hrecv & _) & Hres).
    exists s'. split; [done|]. split; [done|].
    pose proof (recv_return_done _ _ _ _ _ _ _ Hrecv Hst) as Hst'.
    destruct (questions_lookup _ _ _ Hst') as (qu' & Hqu' & Habs). injection Habs as Haw _ _.
    exists qu'. split; [by rewrite ExportTable.find_contents|done].
  - exfalso. cbn in Hst. rewrite lookup_fmap, Hq in Hst. cbn in Hst.
    unfold abs_question in Hst. by destruct (self_ref qu).
Qed.

(** C26: Nothing is leaked between two connections that run by the operations of
    [NetOp], with settled capabilities: when one vat has no imports and no
    questions left and no message is on its way, the other exports nothing and
    has no answer left. *)
Theorem rpc_nothing_leaked `{!Settled} (n : Net (Content := Content)) b :
  net_reachable n -> sent (n b) = [] -> sent (n (negb b)) = [] ->
  imports (n b) = ∅ -> ExportTable.contents (questions (n b)) = ∅ ->
  ExportTable.contents (exports (n (negb b))) = ∅ /\ exports_by_cap (n (negb b)) = ∅ /\
  answers (n (negb b)) = ∅.
Proof.
  intros Hn Hc Hc' Hi Hq. destruct (reachable_ok n Hn) as [HG Hinv].
  destruct (inv_released (view n) b Hinv Hc Hc') as [He Ha].
  { cbn. by rewrite Hi, fmap_empty. }
  { cbn. by rewrite Hq, fmap_empty. }
  cbn in He, Ha. apply fmap_empty_inv in He, Ha. split; [done|]. split; [|done].
  apply map_eq. intros a. rewrite lookup_empty.
  destruct (exports_by_cap (n (negb b)) !! a) as [id|] eqn:Hid; [|done].
  apply (good_by_cap _ (HG (negb b))) in Hid as (e & Hx & _). by rewrite He, lookup_empty in Hx.
Qed.

End properties.

(** ** How a connection fails *)

Section failures.
Context {Content : Type} `{Hooks Content}.
Notation Conn := (ConnectionState Content).
Implicit Types (s : Conn).

(** C28: A peer that sends a [Return] for a question id past the end of the
    question table makes the vat panic: the arm indexes the slots before it
    can report "Invalid question ID". *)
Theorem return_out_of_range_panics s q nf (body : ReturnBody Content) :
  Z.of_nat (length (slots (questions s))) <= q ->
  handle_message (Return q nf body) s = (Panic, s).
Proof.
  intros Hq. cbn [handle_message]. unfold handle_return.
  unfold bind at 1. cbn [ST_monad]. unfold gets at 1.
  replace (Z.of_nat (length (slots (questions s))) <=? q) with true by lia. done.
Qed.

(** An id inside the table that is not in use gets the error. *)
Lemma return_unused_fails s q nf (body : ReturnBody Content) :
  0 <= q < Z.of_nat (length (slots (questions s))) -> ExportTable.find q (questions s) = None ->
  handle_message (Return q nf body) s = (Err Failed, s).
Proof.
  intros Hq Hf. cbn [handle_message]. unfold handle_return.
  unfold bind at 1. cbn [ST_monad]. unfold gets at 1.
  replace (Z.of_nat (length (slots (questions s))) <=? q) with false by lia.
  unfold bind at 1. cbn [ST_monad]. unfold gets at 1. by rewrite Hf.
Qed.

(** *** Operations that leave a part of the state alone *)

#[local] Abbreviation keeps := (RpcConn.keeps (Content := Content)).

Lemma keeps_get_pipelined_cap p ops : keeps answers (get_pipelined_cap p ops).
Proof. destruct p; [destruct ops|..]; first [apply keeps_ret|by apply keeps_new_cap]. Qed.

Lemma keeps_import id b : keeps answers (import id b).
Proof. unfold import, Client_new, PromiseClient_new, update_import. keeps_tac; done. Qed.

Lemma keeps_receive_cap d : keeps answers (receive_cap d).
Proof.
  destruct d; cbn [receive_cap];
    repeat first [apply keeps_import | apply keeps_get_pipelined_cap | by apply keeps_new_cap
                 | keeps_step].
Qed.

Lemma keeps_receive_caps ds : keeps answers (receive_caps ds).
Proof.
  induction ds as [|d ds IH]; cbn [receive_caps]; [apply keeps_ret|].
  repeat first [exact IH | apply keeps_receive_cap | keeps_step].
Qed.

Lemma keeps_get_message_target t : keeps answers (get_message_target t).
Proof.
  destruct t; cbn [get_message_target]; repeat first [apply keeps_get_pipelined_cap | keeps_step].
Qed.

(** A call on a question id in use is never accepted. *)
Lemma call_in_use s q t iface meth r p :
  is_Some (answers s !! q) -> fst (handle_message (Call q t iface meth r p) s) <> Ok tt.
Proof.
  intros [a Ha] Hok. cbn [handle_message] in Hok. unfold handle_call in Hok.
  destruct (handle_call q t iface meth r p s) as [o s'] eqn:Hrun.
  unfold handle_call in Hrun. rewrite Hrun in Hok. cbn in Hok. subst o.
  apply ST_bind_inv in Hrun as (h & s1 & Hc1 & Hrun).
  apply ST_bind_inv in Hrun as (b & s2 & Hc2 & Hrun).
  apply ST_bind_inv in Hrun as (caps & s3 & Hc3 & Hrun).
  apply ST_bind_inv in Hrun as (o & s4 & Hc4 & Hrun).
  injection Hc4 as <- <-.
  pose proof (keeps_get_message_target t s) as H1. rewrite Hc1 in H1. cbn in H1.
  assert (s2 = s1) as -> by (destruct r; cbn in Hc2; by inversion Hc2).
  pose proof (keeps_receive_caps (cap_table p) s1) as H3. rewrite Hc3 in H3. cbn in H3.
  rewrite H3, H1, Ha in Hrun. discriminate Hrun.
Qed.

(** A call that asks for its results to be kept ([sendResultsTo.yourself])
    is never answered: when it completes nothing is sent, and a [Finish] does
    not remove the answer, so no later call with its question id is accepted. *)
Lemma redirected_call_keeps_its_id s q a c caps status b :
  answers s !! q = Some a -> return_has_been_sent a = false -> result_exports a = [] ->
  from_results_inner q (results_are_rpc true s) c caps status s = (Ok true, s) /\
  exists s', handle_message (Finish q b) s = (Ok tt, s') /\ sent s' = sent s /\
    forall t iface meth r p, fst (handle_message (Call q t iface meth r p) s') <> Ok tt.
Proof.
  intros Ha Hs Hx. split; [done|].
  eexists. split; [|split; [|intros; apply call_in_use]].
  - cbn [handle_message]. unfold handle_finish.
    unfold bind at 1. cbn [ST_monad]. unfold gets at 1. rewrite Ha, Hs, Hx.
    by replace (if b then [] else []) with (@nil Z) by (by destruct b).
  - done.
  - cbn. by rewrite lookup_insert_eq.
Qed.

(** *** After a disconnect *)

Definition export_tables s := (exports s, exports_by_cap s).

Lemma keeps_fulfill id r : keeps export_tables (fulfill id r).
Proof. unfold fulfill, update_question. keeps_tac. Qed.
Lemma keeps_reject_all e ids : keeps export_tables (reject_all e ids).
Proof.
  induction ids as [|id ids IH]; cbn [reject_all]; [apply keeps_ret|].
  apply keeps_bind; [apply keeps_fulfill|by intros].
Qed.

Lemma keeps_Client_write_target fuel c : keeps export_tables (Client_write_target fuel c).
Proof.
  revert c. induction fuel as [|fuel IH]; intros c; cbn [Client_write_target]; [done|].
  unfold pipeline_client, promise_client. repeat first [apply IH | keeps_step].
Qed.
Lemma keeps_send m : keeps export_tables (send m).
Proof. unfold send. keeps_tac. Qed.
Lemma keeps_PromiseClient_resolve a r : keeps export_tables (PromiseClient_resolve a r).
Proof.
  unfold PromiseClient_resolve, promise_client, write_target, new_outgoing_message.
  assert (Hemb : forall e, keeps export_tables (on_embargoes (ExportTable.push e))).
  { intros e s. unfold on_embargoes. by destruct (ExportTable.push e (embargoes s)). }
  repeat first
    [ by apply keeps_new_cap | apply keeps_Client_write_target | apply keeps_send | apply Hemb
    | done | keeps_step ].
Qed.
Lemma keeps_resolve_imports e ids : keeps export_tables (resolve_imports e ids).
Proof.
  induction ids as [|id ids IH]; cbn [resolve_imports]; [apply keeps_ret|].
  unfold update_import. repeat first [exact IH | apply keeps_PromiseClient_resolve | keeps_step].
Qed.

(** A disconnect empties the export table and leaves [exports_by_cap] as it
    was. *)
Lemma disconnect_export_tables e s s' :
  connection s = None -> disconnect e s = (Ok tt, s') ->
  exports s' = ExportTable.new /\ exports_by_cap s' = exports_by_cap s.
Proof.
  intros Hc Hd. unfold disconnect in Hd.
  apply ST_bind_inv in Hd as (up & s1 & Hup & Hd). injection Hup as <- <-.
  unfold connected in Hd. rewrite Hc in Hd. cbn [negb] in Hd.
  apply ST_bind_inv in Hd as (n & s1 & Hn & Hd). injection Hn as <- <-.
  apply ST_bind_inv in Hd as ([] & s1 & H1 & Hd).
  pose proof (keeps_reject_all e (seq 0 (length (slots (questions s)))) s) as K1.
  rewrite H1 in K1. cbn [snd] in K1.
  apply ST_bind_inv in Hd as ([] & s2 & H2 & Hd). injection H2 as <-.
  apply ST_bind_inv in Hd as ([] & s3 & H3 & Hd). injection H3 as <-.
  apply ST_bind_inv in Hd as (ids & s4 & H4 & Hd). injection H4 as <- <-.
  apply ST_bind_inv in Hd as ([] & s5 & H5 & Hd).
  match type of H5 with resolve_imports _ ?ids ?st = _ =>
    pose proof (keeps_resolve_imports e ids st) as K5 end.
  rewrite H5 in K5. cbn [snd] in K5.
  apply ST_bind_inv in Hd as ([] & s6 & H6 & Hd). injection H6 as <-.
  apply ST_bind_inv in Hd as ([] & s7 & H7 & Hd). injection Hd as <-.
  pose proof (keeps_send (Abort_ (from_error e)) (set_embargoes ExportTable.new s5)) as K7.
  rewrite H7 in K7. cbn [snd] in K7.
  unfold export_tables in *. injection K1 as _ K1. injection K5 as K5 K5'. injection K7 as K7 K7'.
  cbn in *. rewrite K7, K7', K5, K5', K1. done.
Qed.

(** A request built before the connection was lost and sent after it
    makes the vat panic when it carries a capability that had been exported:
    [disconnect] empties the export table but not [exports_by_cap]. *)
Lemma send_after_disconnect_panics `{!Settled} s s' e h id t iface meth c tail :
  connection s = None -> own_brand h = false -> exports_by_cap s !! get_ptr h = Some id ->
  disconnect e s = (Ok tt, s') ->
  fst (send_internal t iface meth c [Some h] tail s') = Panic.
Proof.
  intros Hc Hown Hid Hd. destruct (disconnect_export_tables e s s' Hc Hd) as [He Hb].
  assert (Hx : export_cap h s' = (Panic, s')).
  { unfold export_cap. unfold bind at 1. cbn [ST_monad]. unfold gets at 1. rewrite Hb, Hid.
    unfold bind at 1. cbn [ST_monad]. unfold gets at 1. rewrite He.
    unfold ExportTable.find, ExportTable.new. cbn [slots length].
    destruct (Z.leb_spec 0 id), (Z.ltb_spec id (Z.of_nat 0)); [lia|done..]. }
  assert (Hw : write_descriptor chain_bound h s' = (Panic, s')).
  { destruct bound_pos as [n Hn]. rewrite Hn. cbn [write_descriptor].
    destruct (runs_innermost h s' (fun h' st => h' = h /\ st = s') _) as (h' & st & Hi & -> & ->).
    { by destruct h; [|done|apply never_resolved]. }
    { done. }
    rewrite (ST_bind_ok _ _ _ _ _ Hi). by destruct h. }
  unfold send_internal. unfold bind at 1. cbn [ST_monad write_descriptors].
  unfold bind at 1. cbn [ST_monad]. unfold unwrap_result. by rewrite Hw.
Qed.

(** *** Promises that resolve to themselves *)

Lemma innermost_loops s a pc c fuel :
  promise_clients s !! a = Some pc -> is_resolved pc = true -> promise_cap pc = Own c ->
  variant c = PromiseVariant a -> innermost fuel (Own c) s = (OutOfFuel, s).
Proof.
  intros Ha Hr Hc Hv. induction fuel as [|fuel IH]; cbn [innermost]; [done|].
  unfold bind at 1. cbn [ST_monad]. unfold gets at 1. cbn [get_resolved].
  by rewrite Hv, Ha, Hr, Hc.
Qed.

(** When a promise this vat exported has resolved to a promise it
    imported, and the peer resolves that one to the former, the imported
    promise becomes its own resolution: every later search for the innermost
    client (before it is passed in a message, say) goes on for ever. *)
Lemma promise_cycle_never_ends s p a i pc x e c :
  imports s !! p = Some i -> promise_client_to_resolve i = Some a ->
  promise_clients s !! a = Some pc -> is_resolved pc = false ->
  ExportTable.find x (exports s) = Some e -> client_hook e = Own c -> variant c = PromiseVariant a ->
  exists s', handle_message (Resolve p (inl (ReceiverHosted x))) s = (Ok tt, s') /\
    forall fuel, fst (innermost fuel (Own c) s') = OutOfFuel.
Proof.
  intros Hi Hp Ha Hr Hx Hh Hv. eexists. split.
  - cbn [handle_message]. unfold handle_resolve. cbn [receive_cap].
    unfold bind at 1. cbn [ST_monad]. unfold bind at 1. cbn [ST_monad]. unfold bind at 1. cbn [ST_monad].
    unfold gets at 1. rewrite Hx, Hh. cbn [ret ST_monad].
    unfold bind at 1. cbn [ST_monad]. unfold gets at 1. rewrite Hi, Hp.
    unfold update_import, modify at 1. unfold bind at 1. cbn [ST_monad].
    unfold bind at 1. cbn [ST_monad get_state]. cbn [alive promise_clients set_imports]. rewrite Ha.
    unfold PromiseClient_resolve. rewrite ST_ret_bind.
    unfold bind at 1. cbn [ST_monad]. unfold promise_client at 1. unfold bind at 1. cbn [ST_monad].
    unfold gets at 1. cbn [promise_clients set_imports]. rewrite Ha. cbn [unwrap lift].
    unfold bind at 1. cbn [ST_monad]. unfold gets at 1. cbn [own_brand negb andb].
    rewrite ST_ret_bind.
    unfold bind at 1. cbn [ST_monad]. unfold promise_client at 1. unfold bind at 1. cbn [ST_monad].
    unfold gets at 1. cbn [promise_clients set_imports]. rewrite Ha. cbn [unwrap lift].
    reflexivity.
  - intros fuel. rewrite (innermost_loops _ a {| is_resolved := true; promise_cap := Own c;
      promise_import_id := promise_import_id pc; received_call := received_call pc |} c);
      [done| |done|done|exact Hv].
    cbn. by rewrite lookup_insert_eq.
Qed.

(** *** Importing a capability twice *)

Lemma import_client i s h s' :
  import i false s = (Ok h, s') ->
  exists f, h = Own {| variant := ImportVariant i; flow_controller := f |} /\
    client_downcast_map s' !! variant_ptr (ImportVariant i) =
      Some {| weak_variant := ImportVariant i; weak_flow := f |}.
Proof.
  intros Hi. unfold import in Hi.
  apply ST_bind_inv in Hi as (o & s1 & _ & Hi). apply ST_bind_inv in Hi as ([] & s2 & _ & Hi).
  apply ST_bind_inv in Hi as (o' & s3 & _ & Hi). apply ST_bind_inv in Hi as (e & s4 & _ & Hi).
  apply ST_bind_inv in Hi as (n & s5 & _ & Hi). apply ST_bind_inv in Hi as ([] & s6 & _ & Hi).
  injection Hi as <- <-. eexists. split; [reflexivity|]. cbn. by rewrite lookup_insert_eq.
Qed.

(** A vat that receives the same capability twice, drops the client it
    got the second time and passes the one it got first in a message panics:
    the connection finds its clients through the flow controller of the one
    made last. *)
Lemma older_client_panics `{!Settled} s s1 s2 i c c' :
  import i false s = (Ok (Own c), s1) -> import i false s1 = (Ok (Own c'), s2) ->
  fst (write_descriptors [Some (Own c)] (snd (flow_drop (flow_controller c') s2))) = Panic.
Proof.
  intros H1 H2. apply import_client in H1 as (f & [= ->] & _).
  apply import_client in H2 as (f' & [= ->] & Hw). cbn [flow_controller].
  set (s3 := snd (flow_drop f' s2)).
  assert (Hp : write_descriptor chain_bound (Own {| variant := ImportVariant i; flow_controller := f |}) s3
    = (Panic, s3)).
  { destruct bound_pos as [n Hn]. rewrite Hn. cbn [write_descriptor].
    destruct (runs_innermost (Own {| variant := ImportVariant i; flow_controller := f |}) s3
      (fun h' st => h' = Own {| variant := ImportVariant i; flow_controller := f |} /\ st = s3) _)
      as (h' & st & Hi & -> & ->); [done|done|].
    rewrite (ST_bind_ok _ _ _ _ _ Hi). unfold bind at 1. cbn [ST_monad]. unfold gets at 1.
    unfold from_ptr. cbn [get_ptr variant].
    replace (client_downcast_map s3) with (client_downcast_map s2) by done. rewrite Hw.
    unfold upgrade. cbn [weak_variant weak_flow]. rewrite bool_decide_false, andb_false_r; [done|].
    cbn. set_solver. }
  cbn [write_descriptors]. unfold bind at 1. cbn [ST_monad]. unfold unwrap_result. by rewrite Hp.
Qed.

End failures.

(** ** The id tables *)

(** C27: The id table implements a finite map that hands out the least id
    not in use: for every sequence of pushes, erasures of ids in use, lookups
    and updates, it gives the replies of the map, keeps its invariant (the
    heap holds exactly the erased ids) and ends with the map's contents. *)
Theorem export_table_refines {T} (os : list (ExportTable.Op T)) rs m :
  ExportTable.spec_run os ∅ = Some (rs, m) ->
  exists t, ExportTable.run os ExportTable.new = (Ok rs, t) /\
    ExportTable.TableOk t /\ ExportTable.contents t = m.
Proof.
  assert (Hrun : forall os (t : ExportTable T) rs m, ExportTable.TableOk t ->
    ExportTable.spec_run os (ExportTable.contents t) = Some (rs, m) ->
    exists t', ExportTable.run os t = (Ok rs, t') /\ ExportTable.TableOk t' /\
      ExportTable.contents t' = m).
  { clear. induction os as [|o os IH]; intros t rs m Ht; cbn [ExportTable.spec_run ExportTable.run].
    - intros [= <- <-]. by exists t.
    - destruct (ExportTable.spec_op o (ExportTable.contents t)) as [[r m1]|] eqn:Ho; [|done].
      destruct (ExportTable.apply_op_refines _ _ _ _ Ht Ho) as (t1 & Hop & Ht1 & <-).
      destruct (ExportTable.spec_run os _) as [[rs' m']|] eqn:Hos; [|done]. intros [= <- <-].
      destruct (IH _ _ _ Ht1 Hos) as (t' & Hr & Ht' & Hc). exists t'.
      rewrite (ST_bind_ok _ _ _ _ _ Hop), (ST_bind_ok _ _ _ _ _ Hr). done. }
  intros Hs. by apply (Hrun os ExportTable.new); [apply ExportTable.new_ok|].
Qed.

(** ** Witnesses *)

Lemma rpc_never_fails_witness :
  exists n', perform (OpReceive false) (perform_all example_ops example_start) = (Ok tt, n').
Proof. apply rpc_never_fails; [exact example_reachable|by vm_compute]. Defined.

(** A vat that has got the bootstrap capability twice has two clients of one
    import.  It can pass either once the older one is dropped, and neither once
    the newer one is: then [enabled] forbids it, and it panics. *)
Definition two_clients : Net (Content := nat) :=
  perform_all [OpBootstrap true; OpReceive false; OpReceive true;
               OpBootstrap true; OpReceive false; OpReceive true] example_start.
Definition pass_client (f : Z) : NetOp (Content := nat) :=
  OpSend true {| variant := ImportVariant 0; flow_controller := 111 |} 7 3 42%nat
    [Some (Own {| variant := ImportVariant 0; flow_controller := f |})].
Example newer_client_passed : all_enabled [OpDropClient true 105; pass_client 111] two_clients = true.
Proof. by vm_compute. Qed.
Example older_client_refused :
  let n := snd (perform (OpDropClient true 111) two_clients) in
  enabled (pass_client 105) n = false /\ fst (perform (pass_client 105) n) = Panic.
Proof. by vm_compute. Qed.

Lemma rpc_implements_protocol_witness :
  exists σ, step (view (perform_all example_ops example_start)) σ /\
    σ ≡ view (snd (perform (OpReceive false) (perform_all example_ops example_start))).
Proof. apply (rpc_implements_protocol _ (OpReceive false)); [exact example_reachable|by vm_compute]. Defined.

(** The bootstrap capability: one reference at the importer, none on the way;
    the capability of the call: one in the call. *)
Lemma rpc_references_agree_witness :
  rc (abs_exps (perform_all example_ops example_start true)) 0 = 1 /\
  rc (abs_exps (perform_all example_ops example_start true)) 0 =
    refs (remote_ref_count <$> imports (perform_all example_ops example_start false)) 0 +
    carried (qs (abs (perform_all example_ops example_start false))) 0
      (sent (perform_all example_ops example_start true)) +
    released 0 (sent (perform_all example_ops example_start false)) +
    finishing (ans (abs (perform_all example_ops example_start true))) 0
      (sent (perform_all example_ops example_start false)).
Proof.
  split; [by vm_compute|].
  exact (rpc_references_agree (perform_all example_ops example_start) false 0 example_reachable).
Defined.

Lemma rpc_capability_stable_witness :
  exists e e',
    ExportTable.contents (exports (perform_all example_ops example_start false)) !! 0 = Some e /\
    ExportTable.contents (exports (snd (perform (OpReceive false)
      (perform_all example_ops example_start)) false)) !! 0 = Some e' /\
    client_hook e' = client_hook e.
Proof.
  apply (rpc_capability_stable (perform_all example_ops example_start) (OpReceive false) true 0);
    [exact example_reachable|by vm_compute|left; vm_compute; discriminate|left; vm_compute; discriminate].
Defined.

Lemma rpc_call_dispatched_witness :
  exists s', handle_message (Call 1 (ImportedCap 0) 7 3 Caller
      {| content := 42%nat; cap_table := [SenderHosted 0] |})
      (perform_all example_ops example_start false) = (Ok tt, s') /\
    dispatches 1 0 7 3 {| content := 42%nat; cap_table := [SenderHosted 0] |}
      (perform_all example_ops example_start false) s'.
Proof.
  apply (rpc_call_dispatched (perform_all example_ops example_start) false 1 0 7 3 _ []);
    [exact example_reachable|by vm_compute|by vm_compute].
Defined.

Definition example_asked : Net (Content := nat) :=
  perform_all [OpBootstrap true; OpReceive false] example_start.
Lemma example_asked_reachable : net_reachable example_asked.
Proof. apply perform_all_reachable; [by apply net_start|by vm_compute]. Qed.

Lemma rpc_return_resolves_witness :
  exists s', handle_message (Return 0 false (Results {| content := 0%nat; cap_table := [SenderHosted 0] |}))
      (example_asked true) = (Ok tt, s') /\
    resolves 0 (Results {| content := 0%nat; cap_table := [SenderHosted 0] |}) (example_asked true) s' /\
    exists qu', ExportTable.find 0 (questions s') = Some qu' /\ is_awaiting_return qu' = false.
Proof.
  eapply (rpc_return_resolves example_asked true 0 false _ []);
    [exact example_asked_reachable|by vm_compute|by vm_compute|by vm_compute|by vm_compute].
Defined.

Definition example_dropped : Net (Content := nat) :=
  perform_all [OpBootstrap true; OpReceive false; OpReceive true; OpDropImport true 0;
    OpDropQuestion true 0; OpReceive false; OpReceive false] example_start.
Lemma example_dropped_reachable : net_reachable example_dropped.
Proof. apply perform_all_reachable; [by apply net_start|by vm_compute]. Qed.

Lemma rpc_nothing_leaked_witness :
  ExportTable.contents (exports (example_dropped false)) = ∅ /\
  exports_by_cap (example_dropped false) = ∅ /\ answers (example_dropped false) = ∅.
Proof.
  apply (rpc_nothing_leaked example_dropped true);
    [exact example_dropped_reachable|by vm_compute|by vm_compute|by vm_compute|by vm_compute].
Defined.

Definition fresh_connection : ConnectionState nat := ConnectionState_new (Foreign 2) 200.

Lemma return_out_of_range_panics_witness :
  handle_message (Return 7 true (Results {| content := 0%nat; cap_table := [] |})) fresh_connection
    = (Panic, fresh_connection).
Proof. apply return_out_of_range_panics. vm_compute. discriminate. Defined.

(** A peer calls the bootstrap capability with [sendResultsTo.yourself]. *)
Definition redirected_connection : ConnectionState nat :=
  snd ((handle_message (Bootstrap 0) ;;
        handle_message (Call 1 (ImportedCap 0) 7 3 Yourself {| content := 42%nat; cap_table := [] |}))
       fresh_connection).
Definition redirected_answer : Answer :=
  {| return_has_been_sent := false; pipeline := Some (QueuedPipeline 200);
     redirected_results := true; received_finish := false; call_completion_promise := false;
     result_exports := [] |}.

Lemma redirected_call_keeps_its_id_witness :
  from_results_inner 1 (results_are_rpc true redirected_connection) 0%nat [] None
    redirected_connection = (Ok true, redirected_connection) /\
  exists s', handle_message (Finish 1 true) redirected_connection = (Ok tt, s') /\
    sent s' = sent redirected_connection /\
    forall t iface meth r p, fst (handle_message (Call 1 t iface meth r p) s') <> Ok tt.
Proof.
  apply (redirected_call_keeps_its_id redirected_connection 1 redirected_answer);
    by vm_compute.
Defined.

(** The capability [Foreign 5] is exported, then the connection is lost. *)
Definition exporting_connection : ConnectionState nat :=
  snd (send_internal (ImportedCap 0) 7 3 42%nat [Some (Foreign 5)] false fresh_connection).

Lemma send_after_disconnect_panics_witness :
  fst (send_internal (ImportedCap 0) 7 3 42%nat [Some (Foreign 5)] false
    (snd (disconnect Disconnected exporting_connection))) = Panic.
Proof.
  apply (send_after_disconnect_panics exporting_connection _ Disconnected (Foreign 5) 0);
    by vm_compute.
Defined.

(** [Foreign 9] is a local promise.  It is exported, resolves to a promise
    that was imported under id 3, and the peer resolves that promise to the
    export. *)
Definition promise_hooks : Hooks nat := {|
  resolved_to _ := None;
  more_resolved a := a =? 9;
  queued_cap a _ := Foreign a;
  bootstrap_content := 0%nat;
  content_cap _ _ _ := Err Failed;
  chain_bound := 5
|}.
Definition promising_connection : ConnectionState nat :=
  snd ((_ ← @export_cap nat promise_hooks (Foreign 9);
        h ← import 3 true;
        @export_resolved nat promise_hooks 0 (inl h))
       fresh_connection).

Lemma promise_cycle_never_ends_witness :
  exists s', @handle_message nat promise_hooks (Resolve 3 (inl (ReceiverHosted 0)))
      promising_connection = (Ok tt, s') /\
    forall fuel, fst (@innermost nat promise_hooks fuel
      (Own {| variant := PromiseVariant 201; flow_controller := 202 |}) s') = OutOfFuel.
Proof.
  eapply (@promise_cycle_never_ends nat promise_hooks promising_connection 3 201); by vm_compute.
Defined.

Definition importing_connection : ConnectionState nat := snd (import 4 false fresh_connection).

Lemma older_client_panics_witness :
  fst (write_descriptors [Some (Own {| variant := ImportVariant 4; flow_controller := 200 |})]
    (snd (flow_drop 201 (snd (import 4 false importing_connection))))) = Panic.
Proof.
  apply (older_client_panics fresh_connection importing_connection _ 4
    {| variant := ImportVariant 4; flow_controller := 200 |}
    {| variant := ImportVariant 4; flow_controller := 201 |}); by vm_compute.
Defined.

Lemma export_table_refines_witness :
  exists t, ExportTable.run [ExportTable.Push true; ExportTable.Push false; ExportTable.Erase 0;
      ExportTable.Push true; ExportTable.Find 1] ExportTable.new =
    (Ok [ExportTable.Id 0; ExportTable.Id 1; ExportTable.Done; ExportTable.Id 0;
         ExportTable.Found (Some false)], t) /\
    ExportTable.TableOk t /\ ExportTable.contents t = {[0 := true; 1 := false]}.
Proof. apply export_table_refines. by vm_compute. Defined.

(** Erasing an id twice hands it out twice. *)
Example double_erase_shares_an_id :
  fst (ExportTable.run [ExportTable.Push true; ExportTable.Erase 0; ExportTable.Erase 0;
    ExportTable.Push true; ExportTable.Push false; ExportTable.Find 0] ExportTable.new) =
  Ok [ExportTable.Id 0; ExportTable.Done; ExportTable.Done; ExportTable.Id 0; ExportTable.Id 0;
      ExportTable.Found (Some false)].
Proof. by vm_compute. Qed.
