(* ===== verification/SenderQueue.v ===== *)
(** * The queue of pending promises (capnp-rpc/src/sender_queue.rs)

    [SenderQueue]: values that wait, in the order they were pushed, for
    [drain].  A push gives back a promise; dropping it before the value is
    drained removes the value ([Remover::drop]).  The values are kept in a
    [BTreeMap] from ids to values, here an association list in the order of
    the ids; the [oneshot] sender of an entry is part of the value. *)

From S2P Require Import Prelude.
From stdpp Require Import list sorting.
#[local] Open Scope Z_scope.
#[local] Open Scope rust_scope.

Module SenderQueue.

(** [Inner]; [next_id] is a [u64]. *)
Record Inner (T : Type) := { next_id : Z; entries : list (Z * T) }.
Arguments next_id {T} _.
Arguments entries {T} _.
Arguments Build_Inner {T} _ _.

(** [BTreeMap::insert] *)
Fixpoint btree_insert {T} (k : Z) (v : T) (m : list (Z * T)) : list (Z * T) :=
  match m with
  | [] => [(k, v)]
  | (k', v') :: m' =>
      if k <? k' then (k, v) :: m
      else if k =? k' then (k, v) :: m'
      else (k', v') :: btree_insert k v m'
  end.

(** [BTreeMap::remove] *)
Fixpoint btree_remove {T} (k : Z) (m : list (Z * T)) : list (Z * T) :=
  match m with
  | [] => []
  | (k', v') :: m' => if k =? k' then m' else (k', v') :: btree_remove k m'
  end.

Definition new {T} : Inner T := {| next_id := 0; entries := [] |}.

(** [SenderQueue::push]: the id in the [Remover] of the promise. *)
Definition push {T} (value : T) : ST (Inner T) Z := fun q =>
  let q := {| next_id := next_id q; entries := btree_insert (next_id q) value (entries q) |} in
  match uadd 64 (next_id q) 1 with
  | Ok n => (Ok (next_id q), {| next_id := n; entries := entries q |})
  | _ => (Panic, q)
  end.

(** [SenderQueue::push_detach]: no [Remover]. *)
Definition push_detach {T} (value : T) : ST (Inner T) unit := push value ;; ret tt.

(** [Remover::drop], when the queue still exists. *)
Definition Remover_drop {T} (id : Z) (q : Inner T) : Inner T :=
  {| next_id := next_id q; entries := btree_remove id (entries q) |}.

(** [SenderQueue::drain], with the values its iterator gives. *)
Definition drain {T} : ST (Inner T) (list T) := fun q =>
  (Ok (entries q).*2, {| next_id := 0; entries := [] |}).

(** ** Invariant: the ids are below [next_id] and in increasing order *)

Record QueueOk {T} (q : Inner T) : Prop := {
  ids_sorted : StronglySorted Z.lt (entries q).*1;
  ids_below : Forall (fun id => 0 <= id < next_id q) (entries q).*1;
  next_id_pos : 0 <= next_id q
}.

Lemma queue_ok_new {T} : QueueOk (@new T).
Proof. by split; cbn; [constructor|constructor|]. Qed.

Lemma btree_insert_last {T} k (v : T) m :
  Forall (fun id => id < k) m.*1 -> btree_insert k v m = m ++ [(k, v)].
Proof.
  induction m as [|[k' v'] m IH]; cbn; [done|]. intros Hm. inversion Hm as [|?? Hk Hm']; subst.
  case_bool; [lia|]. case_bool; [lia|]. by rewrite IH.
Qed.

Lemma sorted_snoc l (k : Z) : StronglySorted Z.lt l -> Forall (fun i => i < k) l ->
  StronglySorted Z.lt (l ++ [k]).
Proof.
  induction 1 as [|a l Hl IH Ha]; cbn; intros Hk; [by repeat constructor|].
  inversion Hk; subst. constructor; [by apply IH|]. apply Forall_app. split; [done|by repeat constructor].
Qed.

Lemma push_ok {T} (v : T) (q : Inner T) :
  QueueOk q -> next_id q + 1 < 2 ^ 64 ->
  push v q = (Ok (next_id q),
    {| next_id := next_id q + 1; entries := entries q ++ [(next_id q, v)] |}).
Proof.
  intros [Hs Hb Hp] Hn. unfold push. cbn [next_id entries]. rewrite uadd_ok by lia.
  rewrite btree_insert_last; [done|]. eapply Forall_impl; [exact Hb|]. cbn. lia.
Qed.

Lemma push_inv {T} (v : T) (q q' : Inner T) id :
  QueueOk q -> push v q = (Ok id, q') ->
  id = next_id q /\ next_id q + 1 < 2 ^ 64 /\
  q' = {| next_id := next_id q + 1; entries := entries q ++ [(next_id q, v)] |}.
Proof.
  intros Hq Hp. destruct (Z.lt_ge_cases (next_id q + 1) (2 ^ 64)) as [Hn|Hn].
  - rewrite push_ok in Hp by done. by inversion Hp.
  - unfold push in Hp. cbn [next_id] in Hp. unfold uadd in Hp.
    case_bool; [lia|discriminate Hp].
Qed.

Lemma push_queue_ok {T} (v : T) (q : Inner T) :
  QueueOk q ->
  QueueOk {| next_id := next_id q + 1; entries := entries q ++ [(next_id q, v)] |}.
Proof.
  intros [Hs Hb Hp]. split; cbn [next_id entries]; [..|lia]; rewrite fmap_app; cbn.
  - apply sorted_snoc; [done|]. eapply Forall_impl; [exact Hb|]. cbn. lia.
  - apply Forall_app. split; [|repeat constructor; lia]. eapply Forall_impl; [exact Hb|]. cbn. lia.
Qed.

Lemma btree_remove_sublist {T} id (m : list (Z * T)) : sublist (btree_remove id m) m.
Proof.
  induction m as [|[k v] m IH]; cbn; [constructor|].
  case_bool; [by constructor|by constructor].
Qed.

Lemma sublist_sorted (l k : list Z) : sublist l k -> StronglySorted Z.lt k -> StronglySorted Z.lt l.
Proof.
  induction 1 as [|x l k Hlk IH|x l k Hlk IH]; [done|..]; intros Hs;
    apply StronglySorted_inv in Hs as [Hk Hx]; [|by apply IH].
  constructor; [by apply IH|]. rewrite Forall_forall in *. intros y Hy.
  eapply Hx, elem_of_sublist; eauto.
Qed.

Lemma remove_queue_ok {T} id (q : Inner T) : QueueOk q -> QueueOk (Remover_drop id q).
Proof.
  intros [Hs Hb Hp]. pose proof (btree_remove_sublist id (entries q)) as Hl.
  apply (fmap_sublist fst) in Hl. split; cbn [Remover_drop next_id entries]; [..|done].
  - by eapply sublist_sorted.
  - rewrite Forall_forall in *. intros x Hx. eapply Hb, elem_of_sublist; eauto.
Qed.

Lemma filter_all {A} (P : A -> Prop) `{!forall x, Decision (P x)} (l : list A) :
  (forall x, x ∈ l -> P x) -> filter P l = l.
Proof.
  induction l as [|x l IH]; intros Hl; [done|]. rewrite filter_cons_True by (apply Hl; by left).
  f_equal. apply IH. intros y Hy. apply Hl. by right.
Qed.

Lemma btree_remove_filter {T} id (m : list (Z * T)) :
  StronglySorted Z.lt m.*1 -> btree_remove id m = filter (fun kv => kv.1 <> id) m.
Proof.
  induction m as [|[k v] m IH]; [done|]. intros [Hm Hk]%StronglySorted_inv.
  cbn [btree_remove]. rewrite filter_cons. cbn [fst].
  destruct (Z.eqb_spec id k) as [->|Hne].
  - rewrite decide_False by (intros ?; done). symmetry. apply filter_all. intros kv Hkv.
    rewrite Forall_forall in Hk. apply (list_elem_of_fmap_2 fst), Hk in Hkv. cbn in *. lia.
  - rewrite decide_True by done. by rewrite IH.
Qed.

(** ** Specification: a sequence of promises, some of them dropped

    The n-th push fills slot n, dropping its promise clears it, and a drain
    takes what is left, in order. *)

Inductive Op (T : Type) := Push (v : T) | Drop (id : Z).
Arguments Push {T} v.
Arguments Drop {T} id.

Definition apply_op {T} (o : Op T) : ST (Inner T) unit :=
  match o with
  | Push v => push v ;; ret tt
  | Drop id => fun q => (Ok tt, Remover_drop id q)
  end.
Fixpoint run {T} (os : list (Op T)) : ST (Inner T) unit :=
  match os with [] => ret tt | o :: os => apply_op o ;; run os end.

Definition spec_op {T} (o : Op T) (l : list (option T)) : list (option T) :=
  match o with
  | Push v => l ++ [Some v]
  | Drop id => if 0 <=? id then <[Z.to_nat id := None]> l else l
  end.
Definition spec_run {T} (os : list (Op T)) : list (option T) :=
  fold_left (fun l o => spec_op o l) os [].

(** The entries a sequence of slots stands for, from slot [i] on. *)
Fixpoint slots_from {T} (i : Z) (l : list (option T)) : list (Z * T) :=
  match l with
  | [] => []
  | Some v :: l => (i, v) :: slots_from (i + 1) l
  | None :: l => slots_from (i + 1) l
  end.

Definition represents_slots {T} (q : Inner T) (l : list (option T)) : Prop :=
  next_id q = Z.of_nat (length l) /\ entries q = slots_from 0 l.

Lemma slots_from_values {T} i (l : list (option T)) : (slots_from i l).*2 = omap id l.
Proof. revert i. induction l as [|[v|] l IH]; intros i; cbn; [done|by rewrite IH|by rewrite IH]. Qed.

Lemma slots_from_app {T} i (l k : list (option T)) :
  slots_from i (l ++ k) = slots_from i l ++ slots_from (i + Z.of_nat (length l)) k.
Proof.
  revert i. induction l as [|[v|] l IH]; intros i; cbn [app slots_from length].
  - by rewrite Z.add_0_r.
  - rewrite IH. cbn. do 3 f_equal. lia.
  - rewrite IH. do 2 f_equal. lia.
Qed.

Lemma slots_from_above {T} i (l : list (option T)) : Forall (fun k => i <= k < i + Z.of_nat (length l)) (slots_from i l).*1.
Proof.
  revert i. induction l as [|[v|] l IH]; intros i; cbn [slots_from length]; [constructor|..].
  - cbn. constructor; [lia|]. eapply Forall_impl; [apply IH|]. cbn. lia.
  - eapply Forall_impl; [apply IH|]. cbn. lia.
Qed.

Lemma btree_remove_absent {T} id (m : list (Z * T)) : Forall (fun k => id < k) m.*1 -> btree_remove id m = m.
Proof.
  induction m as [|[k v] m IH]; cbn; [done|]. intros Hm. inversion Hm; subst.
  case_bool; [lia|]. by rewrite IH.
Qed.

Lemma btree_remove_slots {T} i (n : nat) (l : list (option T)) :
  btree_remove (i + Z.of_nat n) (slots_from i l) = slots_from i (<[n := None]> l).
Proof.
  revert i n. induction l as [|o l IH]; intros i n; [done|].
  destruct n as [|n]; cbn [list_insert insert slots_from].
  - rewrite Z.add_0_r. destruct o as [v|]; cbn [slots_from btree_remove].
    + case_bool; [done|lia].
    + apply btree_remove_absent. eapply Forall_impl; [apply slots_from_above|]. cbn. lia.
  - replace (i + Z.of_nat (S n)) with (i + 1 + Z.of_nat n) by lia.
    destruct o as [v|]; cbn [slots_from btree_remove]; [|apply IH].
    case_bool; [lia|]. by rewrite IH.
Qed.

Lemma slots_queue_ok {T} (q : Inner T) l : represents_slots q l -> QueueOk q.
Proof.
  intros [Hn He]. split; [| |lia].
  - rewrite He. clear Hn He. generalize 0. induction l as [|[v|] l IH]; intros i; cbn; [constructor| |apply IH].
    constructor; [apply IH|]. eapply Forall_impl; [apply slots_from_above|]. cbn. lia.
  - rewrite He, Hn. eapply Forall_impl; [apply slots_from_above|]. cbn. lia.
Qed.

Lemma apply_op_slots {T} (o : Op T) q l :
  represents_slots q l -> Z.of_nat (length l) + 1 < 2 ^ 64 ->
  exists q', apply_op o q = (Ok tt, q') /\ represents_slots q' (spec_op o l).
Proof.
  intros Hq Hl. pose proof (slots_queue_ok _ _ Hq) as Hok. destruct Hq as [Hn He].
  destruct o as [v|id]; cbn [apply_op spec_op].
  - rewrite (ST_bind_ok _ _ _ _ _ (push_ok v q Hok ltac:(lia))). eexists. split; [done|].
    split; cbn [next_id entries].
    + rewrite length_app. cbn. lia.
    + by rewrite slots_from_app, He, Hn.
  - eexists. split; [done|]. unfold Remover_drop. case_bool.
    + split; cbn [next_id entries]; [by rewrite length_insert|].
      rewrite He. pose proof (btree_remove_slots 0 (Z.to_nat id) l) as Hr.
      by rewrite Z.add_0_l, Z2Nat.id in Hr by lia.
    + split; cbn [next_id entries]; [done|]. rewrite He. apply btree_remove_absent.
      eapply Forall_impl; [apply slots_from_above|]. cbn. lia.
Qed.

Lemma spec_op_length {T} (o : Op T) l : (length (spec_op o l) <= S (length l))%nat.
Proof.
  destruct o; cbn; [rewrite length_app; cbn; lia|]. case_match; [rewrite length_insert|]; lia.
Qed.

Lemma run_slots {T} (os : list (Op T)) q l :
  represents_slots q l -> Z.of_nat (length l) + Z.of_nat (length os) < 2 ^ 64 ->
  exists q', run os q = (Ok tt, q') /\
    represents_slots q' (fold_left (fun l o => spec_op o l) os l).
Proof.
  revert q l. induction os as [|o os IH]; intros q l Hq Hl; cbn [run fold_left]; [by eexists|].
  cbn [length] in Hl. destruct (apply_op_slots o q l Hq ltac:(lia)) as (q1 & H1 & Hq1).
  rewrite (ST_bind_ok _ _ _ _ _ H1). apply IH; [done|].
  pose proof (spec_op_length o l). lia.
Qed.

(** A drain gives the values pushed, without those whose promise was dropped,
    in the order of the pushes, each once. *)
Lemma drain_run {T} (os : list (Op T)) :
  Z.of_nat (length os) < 2 ^ 64 ->
  fst ((run os ;; drain) new) = Ok (omap id (spec_run os)).
Proof.
  intros Hl. destruct (run_slots os new [] (conj eq_refl eq_refl) Hl) as (q & Hq & Hn & He).
  rewrite (ST_bind_ok _ _ _ _ _ Hq). cbn [drain fst]. by rewrite He, slots_from_values.
Qed.

(** [drain] starts the ids again from 0 while promises given out before may
    still be dropped: such a drop removes a value pushed after the drain. *)
Lemma stale_remover {T} (v w : T) :
  let q := snd ((push v ;; drain ;; push w) new) in
  entries q = [(0, w)] /\ entries (Remover_drop 0 q) = [].
Proof. done. Qed.

End SenderQueue.
