(* ===== verification/Queued.v ===== *)
(** * Promises for capabilities within a process (capnp-rpc/src/queued.rs)

    [queued::Client] is a capability that is not known yet: calls on it wait,
    and [ClientInner::resolve] forwards them to the capability it turns out to
    be.  [queued::Pipeline] is the pipeline of a call that has not returned:
    the capabilities taken from it are queued clients, resolved when the
    results arrive ([PipelineInner::resolve]).

    The objects behind [Rc<RefCell<_>>] are entries of finite maps; a [RefCell]
    that is borrowed mutably while other code runs is marked [borrowed], and
    borrowing it again panics.  This matters in one place: in
    [for x in state.borrow_mut().queue.drain() { .. }] the [RefMut] lives as
    long as the loop. *)

From S2P Require Import Prelude RpcTypes SenderQueue.
From stdpp Require Import gmap.
#[local] Open Scope Z_scope.
#[local] Open Scope rust_scope.

Module Queued.

(** [Box<dyn ClientHook>]: a local server ([local::Client]), a settled
    capability of an RPC connection ([rpc::Client]), a broken capability, or a
    queued client. *)
Inductive Hook :=
| LocalServer (addr : Z)
| RemoteClient (addr : Z)
| BrokenClient (e : ErrorKind)
| QueuedClient (addr : Z).
#[export] Instance Hook_eq_dec : EqDecision Hook.
Proof. solve_decision. Defined.

(** A call: the promise returned to the caller ([call_id]), the arguments, and
    the capabilities among them. *)
Record Call (Content : Type) := {
  call_id : Z;
  interface_id : Z;
  method_id : Z;
  params : Content;
  param_caps : list (option Hook)
}.
Arguments call_id {Content} _.
Arguments interface_id {Content} _.
Arguments method_id {Content} _.
Arguments params {Content} _.
Arguments param_caps {Content} _.

(** [Box<dyn PipelineHook>]: a pipeline that waits, the results of a call with
    their capabilities ([local::Pipeline]), or an error ([broken::Pipeline]). *)
Inductive Pipe (Content : Type) :=
| QueuedPipe (addr : Z)
| ResultsPipe (results : Content) (caps : list (option Hook))
| BrokenPipe (e : ErrorKind).
Arguments QueuedPipe {Content} addr.
Arguments ResultsPipe {Content} results caps.
Arguments BrokenPipe {Content} e.

(** [any_pointer::Reader::get_pipelined_cap] on the results of a call. *)
Class Results (Content : Type) := {
  results_cap : Content -> list (option Hook) -> list PipelineOp -> outcome Hook
}.

Record ClientInner (Content : Type) := {
  redirect : option Hook;
  pipeline_inner : option Z;
  call_forwarding_queue : SenderQueue.Inner (Call Content);
  client_resolution_queue : SenderQueue.Inner Z;
  borrowed : bool
}.
Arguments redirect {Content} _.
Arguments pipeline_inner {Content} _.
Arguments call_forwarding_queue {Content} _.
Arguments client_resolution_queue {Content} _.
Arguments borrowed {Content} _.
Arguments Build_ClientInner {Content}.

Record PipelineInner (Content : Type) := {
  pipe_redirect : option (Pipe Content);
  clients_to_resolve : SenderQueue.Inner (Z * list PipelineOp);
  pipe_borrowed : bool
}.
Arguments pipe_redirect {Content} _.
Arguments clients_to_resolve {Content} _.
Arguments pipe_borrowed {Content} _.
Arguments Build_PipelineInner {Content}.

(** [Handed t c]: [t.call(c)] on a capability that is no queued client;
    [Notified w h]: the promise [w] of [when_more_resolved] gets [h]. *)
Inductive Event (Content : Type) :=
| Handed (t : Hook) (c : Call Content)
| Notified (waiter : Z) (h : Hook).
Arguments Handed {Content} t c.
Arguments Notified {Content} waiter h.

(** [removers]: the promises of calls and the queue entries they remove when
    they are dropped. *)
Record Heap (Content : Type) := {
  clients : gmap Z (ClientInner Content);
  pipes : gmap Z (PipelineInner Content);
  next_addr : Z;
  events : list (Event Content);
  removers : list (Z * (Z * Z))
}.
Arguments clients {Content} _.
Arguments pipes {Content} _.
Arguments next_addr {Content} _.
Arguments events {Content} _.
Arguments removers {Content} _.
Arguments Build_Heap {Content}.

Section operations.
Context {Content : Type} `{Results Content}.
Notation M := (ST (Heap Content)).
Implicit Types (s : Heap Content) (h t : Hook) (c : Call Content).

Definition set_clients m s : Heap Content :=
  {| clients := m; pipes := pipes s; next_addr := next_addr s; events := events s;
     removers := removers s |}.
Definition set_pipes m s : Heap Content :=
  {| clients := clients s; pipes := m; next_addr := next_addr s; events := events s;
     removers := removers s |}.
Definition set_next_addr n s : Heap Content :=
  {| clients := clients s; pipes := pipes s; next_addr := n; events := events s;
     removers := removers s |}.
Definition set_events l s : Heap Content :=
  {| clients := clients s; pipes := pipes s; next_addr := next_addr s; events := l;
     removers := removers s |}.
Definition set_removers l s : Heap Content :=
  {| clients := clients s; pipes := pipes s; next_addr := next_addr s; events := events s;
     removers := l |}.

Definition modify (f : Heap Content -> Heap Content) : M unit := fun s => (Ok tt, f s).
Definition alloc : M Z := fun s => (Ok (next_addr s), set_next_addr (next_addr s + 1) s).
Definition event (e : Event Content) : M unit := modify (fun s => set_events (events s ++ [e]) s).

(** [inner.borrow()] and [inner.borrow_mut()] *)
Definition borrow (a : Z) : M (ClientInner Content) :=
  s ← get_state;
  inner ← lift (unwrap (clients s !! a));
  if borrowed inner then lift Panic else ret inner.
Definition pipe_borrow (p : Z) : M (PipelineInner Content) :=
  s ← get_state;
  inner ← lift (unwrap (pipes s !! p));
  if pipe_borrowed inner then lift Panic else ret inner.
Definition put_client (a : Z) (inner : ClientInner Content) : M unit :=
  modify (fun s => set_clients (<[a := inner]> (clients s)) s).
Definition put_pipe (p : Z) (inner : PipelineInner Content) : M unit :=
  modify (fun s => set_pipes (<[p := inner]> (pipes s)) s).

Definition set_redirect r (i : ClientInner Content) : ClientInner Content :=
  {| redirect := r; pipeline_inner := pipeline_inner i;
     call_forwarding_queue := call_forwarding_queue i;
     client_resolution_queue := client_resolution_queue i; borrowed := borrowed i |}.
Definition set_calls q (i : ClientInner Content) : ClientInner Content :=
  {| redirect := redirect i; pipeline_inner := pipeline_inner i; call_forwarding_queue := q;
     client_resolution_queue := client_resolution_queue i; borrowed := borrowed i |}.
Definition set_waiters q (i : ClientInner Content) : ClientInner Content :=
  {| redirect := redirect i; pipeline_inner := pipeline_inner i;
     call_forwarding_queue := call_forwarding_queue i; client_resolution_queue := q;
     borrowed := borrowed i |}.
Definition set_borrowed b (i : ClientInner Content) : ClientInner Content :=
  {| redirect := redirect i; pipeline_inner := pipeline_inner i;
     call_forwarding_queue := call_forwarding_queue i;
     client_resolution_queue := client_resolution_queue i; borrowed := b |}.
Definition drop_pipeline (i : ClientInner Content) : ClientInner Content :=
  {| redirect := redirect i; pipeline_inner := None;
     call_forwarding_queue := call_forwarding_queue i;
     client_resolution_queue := client_resolution_queue i; borrowed := borrowed i |}.

(** ** Clients *)

(** [Client::new] *)
Definition Client_new (p : option Z) : M Z :=
  a ← alloc;
  put_client a {| redirect := None; pipeline_inner := p; call_forwarding_queue := SenderQueue.new;
                  client_resolution_queue := SenderQueue.new; borrowed := false |} ;;
  ret a.

(** [while let Some(inner) = client.get_resolved() { client = inner; }] *)
Fixpoint innermost (fuel : nat) (h : Hook) : M Hook :=
  match fuel with
  | O => lift OutOfFuel
  | S fuel =>
      match h with
      | QueuedClient a =>
          inner ← borrow a;
          match redirect inner with Some h' => innermost fuel h' | None => ret h end
      | _ => ret h
      end
  end.

(** What [rpc::Client::call] asks of the capabilities in the parameters when
    it writes their descriptors, before it returns. *)
Fixpoint write_caps (fuel : nat) (caps : list (option Hook)) : M unit :=
  match caps with
  | [] => ret tt
  | Some h :: caps => innermost fuel h ;; write_caps fuel caps
  | None :: caps => write_caps fuel caps
  end.

(** [ClientHook::call] *)
Fixpoint call (fuel : nat) (h : Hook) (c : Call Content) : M unit :=
  match h with
  | QueuedClient a =>
      match fuel with
      | O => lift OutOfFuel
      | S fuel =>
          inner ← borrow a;
          match redirect inner with
          | Some client => call fuel client c
          | None =>
              let (id, q) := SenderQueue.push c (call_forwarding_queue inner) in
              id ← lift id;
              put_client a (set_calls q inner) ;;
              modify (fun s => set_removers (removers s ++ [(call_id c, (a, id))]) s)
          end
      end
  | RemoteClient _ =>
      s ← get_state;
      write_caps (S (size (clients s))) (param_caps c) ;;
      event (Handed h c)
  | LocalServer _ | BrokenClient _ => event (Handed h c)
  end.

(** No chain of redirections is longer than the number of clients, unless it
    is a cycle. *)
Definition Client_call (h : Hook) (c : Call Content) : M unit := fun s =>
  call (S (size (clients s))) h c s.

Fixpoint forward (client : Hook) (args : list (Call Content)) : M unit :=
  match args with
  | [] => ret tt
  | c :: args => Client_call client c ;; forward client args
  end.

Fixpoint notify (client : Hook) (waiters : list Z) : M unit :=
  match waiters with
  | [] => ret tt
  | w :: waiters => event (Notified w client) ;; notify client waiters
  end.

(** [ClientInner::resolve] *)
Definition ClientInner_resolve (a : Z) (result : Hook + ErrorKind) : M unit :=
  inner ← borrow a;
  lift (rust_assert (match redirect inner with None => true | Some _ => false end)) ;;
  let client := match result with inl h => h | inr e => BrokenClient e end in
  let (args, q) := SenderQueue.drain (call_forwarding_queue inner) in
  args ← lift args;
  put_client a (set_borrowed true (set_calls q (set_redirect (Some client) inner))) ;;
  forward client args ;;
  s ← get_state;
  inner ← lift (unwrap (clients s !! a));
  let (waiters, w) := SenderQueue.drain (client_resolution_queue inner) in
  waiters ← lift waiters;
  notify client waiters ;;
  put_client a (drop_pipeline (set_borrowed false (set_waiters w inner))).

(** [when_more_resolved]; the promise [w] resolves at once when the client is
    resolved already. *)
Definition when_more_resolved (h : Hook) (w : Z) : M unit :=
  match h with
  | QueuedClient a =>
      inner ← borrow a;
      match redirect inner with
      | Some client => event (Notified w client)
      | None =>
          let (id, q) := SenderQueue.push w (client_resolution_queue inner) in
          _ ← lift id;
          put_client a (set_waiters q inner)
      end
  | _ => ret tt
  end.

(** The promise of a call is dropped: its [Remover]s run. *)
Definition remove_entry (id : Z) (r : Z * (Z * Z)) (m : gmap Z (ClientInner Content)) :=
  if r.1 =? id
  then alter (fun i => set_calls (SenderQueue.Remover_drop r.2.2 (call_forwarding_queue i)) i) r.2.1 m
  else m.
Definition cancel (id : Z) : M unit :=
  modify (fun s => set_clients (foldr (remove_entry id) (clients s) (removers s)) s).

(** ** Pipelines *)

(** [Pipeline::new] *)
Definition Pipeline_new : M Z :=
  p ← alloc;
  put_pipe p {| pipe_redirect := None; clients_to_resolve := SenderQueue.new; pipe_borrowed := false |} ;;
  ret p.

(** [PipelineHook::get_pipelined_cap_move] *)
Fixpoint get_pipelined_cap (fuel : nat) (pipe : Pipe Content) (ops : list PipelineOp) : M Hook :=
  match pipe with
  | QueuedPipe p =>
      match fuel with
      | O => lift OutOfFuel
      | S fuel =>
          inner ← pipe_borrow p;
          match pipe_redirect inner with
          | Some pipe => get_pipelined_cap fuel pipe ops
          | None =>
              a ← Client_new (Some p);
              let (id, q) := SenderQueue.push (a, ops) (clients_to_resolve inner) in
              _ ← lift id;
              put_pipe p {| pipe_redirect := None; clients_to_resolve := q; pipe_borrowed := false |} ;;
              ret (QueuedClient a)
          end
      end
  | ResultsPipe c caps =>
      match results_cap c caps ops with
      | Ok h => ret h
      | Err e => ret (BrokenClient e)
      | o => lift o
      end
  | BrokenPipe e => ret (BrokenClient e)
  end.
Definition Pipeline_get_pipelined_cap (pipe : Pipe Content) (ops : list PipelineOp) : M Hook :=
  fun s => get_pipelined_cap (S (size (pipes s))) pipe ops s.

(** The loop of [PipelineInner::resolve]; a client that was dropped is
    skipped. *)
Fixpoint resolve_clients (pipe : Pipe Content) (l : list (Z * list PipelineOp)) : M unit :=
  match l with
  | [] => ret tt
  | (a, ops) :: l =>
      s ← get_state;
      match clients s !! a with
      | Some _ =>
          clienthook ← Pipeline_get_pipelined_cap pipe ops;
          ClientInner_resolve a (inl clienthook)
      | None => ret tt
      end ;;
      resolve_clients pipe l
  end.

(** [PipelineInner::resolve] *)
Definition PipelineInner_resolve (p : Z) (result : Pipe Content + ErrorKind) : M unit :=
  inner ← pipe_borrow p;
  match pipe_redirect inner with
  | Some _ => ret tt
  | None =>
      let pipeline := match result with inl pipe => pipe | inr e => BrokenPipe e end in
      let (drained, q) := SenderQueue.drain (clients_to_resolve inner) in
      drained ← lift drained;
      put_pipe p {| pipe_redirect := Some pipeline; clients_to_resolve := q; pipe_borrowed := true |} ;;
      resolve_clients pipeline drained ;;
      s ← get_state;
      inner ← lift (unwrap (pipes s !! p));
      put_pipe p {| pipe_redirect := pipe_redirect inner;
                    clients_to_resolve := clients_to_resolve inner; pipe_borrowed := false |}
  end.

(** [PipelineInnerSender]: its pipeline, if it still has it and the pipeline
    still exists; the clones handed to results do not resolve when dropped. *)
Record PipelineInnerSender := { sender_inner : option Z; resolve_on_drop : bool }.

Definition upgrade_pipe (w : option Z) s : option Z :=
  match w with
  | Some p => match pipes s !! p with Some _ => Some p | None => None end
  | None => None
  end.

(** [PipelineInnerSender::complete] *)
Definition Sender_complete (sender : PipelineInnerSender) (pipe : Pipe Content) : M unit :=
  s ← get_state;
  match upgrade_pipe (sender_inner sender) s with
  | Some p => PipelineInner_resolve p (inl pipe)
  | None => ret tt
  end.

(** [PipelineInnerSender::drop] *)
Definition Sender_drop (sender : PipelineInnerSender) : M unit :=
  if resolve_on_drop sender then Sender_complete sender (BrokenPipe Failed) else ret tt.
Definition weak_clone (sender : PipelineInnerSender) : PipelineInnerSender :=
  {| sender_inner := sender_inner sender; resolve_on_drop := false |}.

End operations.
End Queued.
