(* ===== verification/QueuedSafe.v ===== *)
(** * The heap of queued capabilities stays well-formed

    Every operation of [Queued] that succeeds keeps [Inv]: the redirections and
    the calls at hooks agree with the calls the application made
    ([CallsOk]), a resolved client has no call waiting, and the
    [Remover]s of dropped promises find their own call. *)

From S2P Require Import Prelude RpcTypes SenderQueue Queued.
From stdpp Require Import gmap list.
#[local] Open Scope Z_scope.
#[local] Open Scope rust_scope.
Import Queued.

(** ** Queued capabilities keep the order of calls

    [leads]: what a hook turns out to be.  [calls_at]: the calls that wait at a
    queued client, or were handed to any other hook.  Every operation on the
    heap of [Queued] moves calls along the redirections without reordering,
    losing or doubling any ([QueuedOk]). *)

(** ** Chains of redirections *)

Notation Links := (gmap Z (option Hook)).

Definition unredirected (m : Links) (h : Hook) : Prop :=
  match h with QueuedClient a => m !! a = Some None | _ => True end.

(** [leads m h l t]: following the redirections of the clients [l] from [h]
    ends at [t]. *)
Inductive leads (m : Links) : Hook -> list Z -> Hook -> Prop :=
| leads_here h : unredirected m h -> leads m h [] h
| leads_step a h l t : m !! a = Some (Some h) -> leads m h l t ->
    leads m (QueuedClient a) (a :: l) t.

Lemma leads_end m h l t : leads m h l t -> unredirected m t.
Proof. by induction 1. Qed.

Lemma leads_fun m h l t l' t' : leads m h l t -> leads m h l' t' -> l' = l /\ t' = t.
Proof.
  intros Hl. revert l' t'. induction Hl as [h Hu|a h l t Ha Hl IH]; intros l' t' Hl'.
  - inversion Hl' as [|a h' l1 t1 Ha]; subst; [done|]. by cbn in Hu; simplify_eq.
  - inversion Hl' as [? Hu|a' h' l1 t1 Ha' Hl1]; subst; [by cbn in Hu; simplify_eq|].
    simplify_eq. by destruct (IH _ _ Hl1) as [-> ->].
Qed.

(** Through a client [a] newly redirected to [h]. *)
Lemma leads_redirected m a h x l y :
  m !! a = Some None -> leads (<[a := Some h]> m) x l y ->
  y <> QueuedClient a /\
  (leads m x l y \/ exists l1 l2, l = l1 ++ a :: l2 /\ leads m x l1 (QueuedClient a) /\
     leads (<[a := Some h]> m) h l2 y).
Proof.
  intros Ha Hl. assert (Hy : y <> QueuedClient a).
  { intros ->. apply leads_end in Hl. unfold unredirected in Hl. by rewrite lookup_insert_eq in Hl. }
  split; [done|]. induction Hl as [x Hx|b h' l y Hb Hl IH].
  - left. constructor. destruct x; try done. unfold unredirected in *.
    destruct (decide (a = addr)) as [->|Hne]; [by rewrite lookup_insert_eq in Hx|].
    by rewrite lookup_insert_ne in Hx.
  - destruct (decide (a = b)) as [->|Hne].
    + rewrite lookup_insert_eq in Hb. simplify_eq. right. exists [], l. split; [done|].
      split; [by constructor|done].
    + rewrite lookup_insert_ne in Hb by done.
      destruct (IH Hy) as [Hl'|(l1 & l2 & -> & H1 & H2)]; [left; by econstructor|].
      right. exists (b :: l1), l2. split; [done|]. split; [by econstructor|done].
Qed.

Lemma leads_untouched m a h x l y :
  m !! a = Some None -> leads m x l y -> y <> QueuedClient a -> leads (<[a := Some h]> m) x l y.
Proof.
  intros Ha. induction 1 as [x Hx|b h' l y Hb Hl IH]; intros Hy.
  - constructor. destruct x; try done. unfold unredirected in *. rewrite lookup_insert_ne; [done|congruence].
  - econstructor; [|by apply IH]. rewrite lookup_insert_ne; [done|congruence].
Qed.

(** A chain that ends visits no client twice. *)
Lemma leads_app m h l1 b l2 t : leads m h (l1 ++ b :: l2) t -> leads m (QueuedClient b) (b :: l2) t.
Proof.
  revert h. induction l1 as [|a l1 IH]; cbn; intros h Hl.
  - inversion Hl; subst. by econstructor.
  - inversion Hl; subst. by eapply IH.
Qed.
Lemma leads_nodup m h l t : leads m h l t -> NoDup l.
Proof.
  induction 1 as [|a h l t Ha Hl IH]; constructor; [|done]. intros Hin.
  apply list_elem_of_split in Hin as (l1 & l2 & ->).
  pose proof (leads_app _ _ _ _ _ _ Hl) as H2.
  assert (H1 : leads m (QueuedClient a) (a :: l1 ++ a :: l2) t) by (by econstructor).
  destruct (leads_fun _ _ _ _ _ _ H1 H2) as [Heq _]. apply (f_equal length) in Heq.
  cbn in Heq. rewrite length_app in Heq. cbn in Heq. lia.
Qed.
Lemma leads_dom m h l t a : leads m h l t -> a ∈ l -> a ∈ dom m.
Proof.
  induction 1 as [|b h l t Hb Hl IH]; intros Ha; [by apply elem_of_nil in Ha|].
  apply elem_of_cons in Ha as [->|Ha]; [|by apply IH]. apply elem_of_dom. eauto.
Qed.
Lemma leads_length m h l t : leads m h l t -> (length l <= size m)%nat.
Proof.
  intros Hl. rewrite <- size_dom, <- (size_list_to_set (C := gset Z) l) by by eapply leads_nodup.
  apply subseteq_size. intros a Ha. apply elem_of_list_to_set in Ha. by eapply leads_dom.
Qed.

(** ** The calls at a hook *)

Section calls.
Context {Content : Type} `{Results Content}.
Implicit Types (s : Heap Content) (c : Call Content).

Definition links s : Links := redirect <$> clients s.

Definition queue_of s (a : Z) : list (Call Content) :=
  match clients s !! a with
  | Some i => (SenderQueue.entries (call_forwarding_queue i)).*2
  | None => []
  end.
Definition handed_to (t : Hook) (e : Event Content) : option (Call Content) :=
  match e with Handed t' c => if decide (t' = t) then Some c else None | Notified _ _ => None end.
Definition calls_at s (t : Hook) : list (Call Content) :=
  match t with QueuedClient a => queue_of s a | _ => omap (handed_to t) (events s) end.

Definition queues_ok s : Prop := forall a i, clients s !! a = Some i ->
  SenderQueue.QueueOk (call_forwarding_queue i) /\
  SenderQueue.QueueOk (client_resolution_queue i).

(** The state after a call arrived at [t], where no redirection leads on. *)
Definition enqueue (c : Call Content) (i : ClientInner Content) : ClientInner Content :=
  let q := call_forwarding_queue i in
  set_calls {| SenderQueue.next_id := SenderQueue.next_id q + 1;
               SenderQueue.entries := SenderQueue.entries q ++ [(SenderQueue.next_id q, c)] |} i.
Definition place (t : Hook) s c : Heap Content :=
  match t with
  | QueuedClient a =>
      match clients s !! a with
      | Some i =>
          set_removers (removers s ++
              [(call_id c, (a, SenderQueue.next_id (call_forwarding_queue i)))])
            (set_clients (<[a := enqueue c i]> (clients s)) s)
      | None => s
      end
  | _ => set_events (events s ++ [Handed t c]) s
  end.

Lemma links_lookup s a : links s !! a = redirect <$> clients s !! a.
Proof. apply lookup_fmap. Qed.

Lemma place_links t c s : links (place t s c) = links s.
Proof.
  destruct t as [| | |a]; try done. cbn. destruct (clients s !! a) as [i|] eqn:Ha; [|done].
  unfold links. cbn. rewrite fmap_insert. apply insert_id. by rewrite lookup_fmap, Ha.
Qed.

Lemma place_other t c s a i : clients s !! a = Some i -> t <> QueuedClient a ->
  clients (place t s c) !! a = Some i.
Proof.
  intros Ha Ht. destruct t as [| | |b]; try done. cbn.
  destruct (clients s !! b) as [j|] eqn:Hb; [|done]. cbn. rewrite lookup_insert_ne; [done|congruence].
Qed.

Lemma place_next_addr t c s : next_addr (place t s c) = next_addr s.
Proof. destruct t; try done. cbn. by case_match. Qed.

Lemma place_calls_at t c s t' : unredirected (links s) t ->
  calls_at (place t s c) t' = calls_at s t' ++ (if decide (t' = t) then [c] else []).
Proof.
  intros Ht. destruct t as [x|x|x|a]; cbn [place].
  1-3: destruct t'; cbn -[decide]; rewrite ?omap_app; cbn -[decide];
       repeat case_decide; simplify_eq; try done; by rewrite app_nil_r.
  cbn in Ht. rewrite links_lookup in Ht. destruct (clients s !! a) as [i|] eqn:Ha; [|done].
  destruct t' as [x|x|x|b]; cbn -[decide]; try (by rewrite app_nil_r).
  unfold queue_of. cbn -[decide]. destruct (decide (a = b)) as [->|Hne].
  - rewrite lookup_insert_eq, Ha, decide_True by done. cbn. by rewrite fmap_app.
  - rewrite lookup_insert_ne by done. rewrite decide_False by congruence. by rewrite app_nil_r.
Qed.

Lemma place_queues_ok t c s : queues_ok s -> queues_ok (place t s c).
Proof.
  intros Hq. destruct t as [| | |a]; try done. cbn.
  destruct (clients s !! a) as [i|] eqn:Ha; [|done]. intros b j. cbn.
  destruct (decide (a = b)) as [->|Hne].
  - rewrite lookup_insert_eq. intros [= <-]. destruct (Hq _ _ Ha) as [H1 H2].
    split; [|done]. by apply SenderQueue.push_queue_ok.
  - rewrite lookup_insert_ne by done. apply Hq.
Qed.

Lemma borrow_inv a s i s' : borrow a s = (Ok i, s') ->
  clients s !! a = Some i /\ borrowed i = false /\ s' = s.
Proof.
  unfold borrow, bind, lift, get_state; cbn. destruct (clients s !! a) as [j|]; cbn; [|discriminate].
  destruct (borrowed j) eqn:Hb; [discriminate|]. by intros [= -> ->].
Qed.

(** [call] follows the redirections and leaves the call where they end. *)
Lemma write_caps_state fuel caps s u s' : write_caps fuel caps s = (Ok u, s') -> s' = s.
Proof.
  assert (Hi : forall fuel h s a s', innermost fuel h s = (Ok a, s') -> s' = s).
  { clear. induction fuel as [|fuel IH]; intros h s a s' Hr; [discriminate Hr|].
    destruct h as [| | |b]; cbn [innermost] in Hr; inv_ST; try done.
    apply borrow_inv in Ha as (_ & _ & ->). case_match; [by eapply IH|]. by inv_ST. }
  revert s s'. induction caps as [|[h|] caps IH]; intros s s' Hr; cbn [write_caps] in Hr; inv_ST.
  - done.
  - apply Hi in Ha as ->. by apply IH.
  - by apply IH.
Qed.

Lemma call_place fuel h c s s' : queues_ok s -> call fuel h c s = (Ok tt, s') ->
  exists l t, leads (links s) h l t /\ s' = place t s c.
Proof.
  intros Hq. revert h. induction fuel as [|fuel IH]; intros h Hr.
  - destruct h as [| | |a]; cbn [call] in Hr; inv_ST; try discriminate.
    + eexists [], _. split; [by constructor|]. by inversion Hr.
    + injection Ha as <- <-. apply write_caps_state in Ha0 as ->.
      eexists [], _. split; [by constructor|]. by inversion Hr.
    + eexists [], _. split; [by constructor|]. by inversion Hr.
  - destruct h as [| | |a]; cbn [call] in Hr; inv_ST.
    + eexists [], _. split; [by constructor|]. by inversion Hr.
    + injection Ha as <- <-. apply write_caps_state in Ha0 as ->.
      eexists [], _. split; [by constructor|]. by inversion Hr.
    + eexists [], _. split; [by constructor|]. by inversion Hr.
    + apply borrow_inv in Ha as (Ha & _ & ->). destruct (redirect a0) as [h'|] eqn:Hred.
      * destruct (IH h' Hr) as (l & t & Hl & ->). exists (a :: l), t. split; [|done].
        econstructor; [|done]. by rewrite links_lookup, Ha; cbn; rewrite Hred.
      * destruct (Hq _ _ Ha) as [Hqa _].
        destruct (SenderQueue.push c (call_forwarding_queue a0)) as [id q] eqn:Hp.
        apply ST_bind_inv in Hr as (k & s1 & [-> ->]%lift_inv & Hr).
        apply SenderQueue.push_inv in Hp as (-> & _ & ->); [|done].
        injection Hr as <-.
        exists [], (QueuedClient a). split.
        { constructor. cbn. by rewrite links_lookup, Ha; cbn; rewrite Hred. }
        cbn. by rewrite Ha.
Qed.

(** A list of calls to the same hook. *)
Definition places (t : Hook) (cs : list (Call Content)) s : Heap Content := foldl (place t) s cs.

Lemma places_spec t cs s :
  unredirected (links s) t -> queues_ok s ->
  links (places t cs s) = links s /\ queues_ok (places t cs s) /\
  next_addr (places t cs s) = next_addr s /\
  (forall t', calls_at (places t cs s) t' = calls_at s t' ++ (if decide (t' = t) then cs else [])) /\
  (forall a i, clients s !! a = Some i -> t <> QueuedClient a -> clients (places t cs s) !! a = Some i).
Proof.
  revert s. induction cs as [|c cs IH]; intros s Ht Hq; cbn [places foldl].
  { split_and!; try done. intros t'. case_decide; by rewrite app_nil_r. }
  destruct (IH (place t s c)) as (H1 & H2 & H3 & H4 & H5).
  { by rewrite place_links. } { by apply place_queues_ok. }
  fold (places t cs (place t s c)). rewrite H1, place_links, H3, place_next_addr.
  split_and!; try done.
  - intros t'. rewrite H4, place_calls_at by done. case_decide; [|by rewrite !app_nil_r].
    by rewrite <- app_assoc.
  - intros a i Ha Hne. apply H5; [|done]. by apply place_other.
Qed.

Lemma forward_places client args s s' : queues_ok s -> forward client args s = (Ok tt, s') ->
  (args = [] /\ s' = s) \/ exists l t, leads (links s) client l t /\ s' = places t args s.
Proof.
  revert s. induction args as [|c args IH]; intros s Hq Hr; cbn [forward] in Hr; inv_ST; [by left|].
  unfold Client_call in Ha. destruct a. apply call_place in Ha as (l & t & Hl & ->); [|done].
  right. exists l, t. split; [done|].
  destruct (IH _ (place_queues_ok t c s Hq) Hr) as [[-> ->]|(l' & t' & Hl' & ->)]; [done|].
  rewrite place_links in Hl'. by destruct (leads_fun _ _ _ _ _ _ Hl Hl') as [-> ->].
Qed.
End calls.

(** ** The calls made and the calls at hooks *)

Section invariant.
Context {Content : Type} `{Results Content}.
Implicit Types (s : Heap Content) (c : Call Content) (m : Links).

(** The calls the application has made, in order, each with the hook it was
    made on, and the promises it has dropped. *)
Record Ghost := { made : list (Hook * Call Content); cancelled : list Z }.
Implicit Types (g : Ghost).

Definition made_on (h : Hook) (p : Hook * Call Content) : option (Call Content) :=
  if decide (p.1 = h) then Some p.2 else None.
Definition kept g c : Prop := call_id c ∉ cancelled g.
#[export] Instance kept_dec g c : Decision (kept g c) := _.
Definition live g (h : Hook) : list (Call Content) := filter (kept g) (omap (made_on h) (made g)).

Notation At := (Hook -> list (Call Content)).

(** What holds of redirections [m] and calls [f]. *)
Record CallsOk g m (f : At) : Prop := {
  ok_order h l t : leads m h l t -> sublist (live g h) (f t);
  ok_from t c : c ∈ f t -> exists h l, (h, c) ∈ made g /\ leads m h l t;
  ok_nodup t : NoDup (call_id <$> f t);
  ok_once t t' c c' : c ∈ f t -> c' ∈ f t' -> call_id c = call_id c' -> t = t';
  ok_gone a c : c ∈ f (QueuedClient a) -> kept g c;
  ok_leads h : live g h <> [] -> exists l t, leads m h l t
}.

Lemma calls_ok_ext g m (f f' : At) : (forall t, f' t = f t) -> CallsOk g m f -> CallsOk g m f'.
Proof.
  intros Hf [H1 H2 H3 H4 H5 H6]. split; intros *; rewrite ?Hf;
    [apply H1|apply H2|apply H3|apply H4|apply H5|apply H6].
Qed.

Lemma leads_through m a h x l l2 t :
  m !! a = Some None -> leads m x l (QueuedClient a) -> leads (<[a := Some h]> m) h l2 t ->
  leads (<[a := Some h]> m) x (l ++ a :: l2) t.
Proof.
  intros Ha Hl Hh. remember (QueuedClient a) as y eqn:Hy.
  induction Hl as [x Hx|b h' l y Hb Hl IH]; subst.
  - cbn. econstructor; [apply lookup_insert_eq|done].
  - cbn. econstructor; [|by apply IH]. rewrite lookup_insert_ne; [done|congruence].
Qed.

Lemma NoDup_ids_app (l k : list (Call Content)) :
  NoDup (call_id <$> l) -> NoDup (call_id <$> k) ->
  (forall c c', c ∈ l -> c' ∈ k -> call_id c <> call_id c') -> NoDup (call_id <$> l ++ k).
Proof.
  intros Hl Hk Hd. rewrite fmap_app. apply NoDup_app. split; [done|]. split; [|done].
  intros i (c & -> & Hc)%list_elem_of_fmap (c' & Hi & Hc')%list_elem_of_fmap. by eapply Hd.
Qed.

(** A client is redirected and its calls move on. *)
Lemma calls_ok_resolve g m (f f' : At) a h t :
  CallsOk g m f -> m !! a = Some None -> t <> QueuedClient a ->
  f (QueuedClient a) = [] \/ (exists l, leads (<[a := Some h]> m) h l t) ->
  (forall y, f' y = (if decide (y = QueuedClient a) then [] else f y) ++
                    (if decide (y = t) then f (QueuedClient a) else [])) ->
  CallsOk g (<[a := Some h]> m) f'.
Proof.
  intros [Ho Hf Hnd Honce Hg Hld] Ha Hta Ht Hf'.
  assert (Hold : forall y c, c ∈ f' y -> exists y', c ∈ f y' /\
    ((y <> QueuedClient a /\ y' = y) \/ (y = t /\ y' = QueuedClient a))).
  { intros y c Hy. rewrite Hf' in Hy. apply elem_of_app in Hy as [Hy|Hy]; case_decide;
      try by apply elem_of_nil in Hy.
    - exists y. by auto.
    - exists (QueuedClient a). by auto. }
  split.
  - intros x l y Hl. destruct (leads_redirected m a h x l y Ha Hl) as [Hy [Hl'|(l1 & l2 & _ & Hx & Hh)]].
    + rewrite Hf', decide_False by done. apply sublist_inserts_r. by eapply Ho.
    + apply Ho in Hx. destruct Ht as [He|[l' Ht]].
      * rewrite He in Hx. apply sublist_nil_r in Hx. rewrite Hx. apply sublist_nil_l.
      * destruct (leads_fun _ _ _ _ _ _ Ht Hh) as [-> ->].
        rewrite Hf', (decide_True (P := t = t)) by done. by apply sublist_inserts_l.
  - intros y c Hc. destruct (Hold y c Hc) as (y' & Hy' & [[Hy ->]|[-> ->]]);
      destruct (Hf _ _ Hy') as (x & l & Hm & Hl).
    + exists x, l. split; [done|]. by apply leads_untouched.
    + destruct Ht as [He|[l' Ht]]; [rewrite He in Hy'; by apply elem_of_nil in Hy'|].
      eexists x, _. split; [done|]. by eapply leads_through.
  - intros y. rewrite Hf'. apply NoDup_ids_app; [case_decide; first [done|by apply NoDup_nil_2]..|].
    intros c c' Hc Hc' Hid. do 2 case_decide; try (by apply elem_of_nil in Hc);
      try (by apply elem_of_nil in Hc'). by pose proof (Honce _ _ _ _ Hc Hc' Hid).
  - intros y y' c c' Hy Hy' Hid.
    apply Hold in Hy as (z & Hz & Hcase), Hy' as (z' & Hz' & Hcase').
    pose proof (Honce _ _ _ _ Hz Hz' Hid). destruct Hcase as [[]|[]], Hcase' as [[]|[]]; congruence.
  - intros b c Hc. destruct (Hold _ _ Hc) as (z & Hz & [[_ ->]|[_ ->]]); by eapply Hg.
  - intros x Hx. destruct (Hld x Hx) as (l & y & Hl). destruct (decide (y = QueuedClient a)) as [->|Hy].
    + destruct Ht as [He|[l' Ht]].
      * apply Ho in Hl. rewrite He in Hl. by apply sublist_nil_r in Hl.
      * eexists _, t. by eapply leads_through.
    + exists l, y. by apply leads_untouched.
Qed.

(** A new call arrives. *)
Definition add_call h c g : Ghost := {| made := made g ++ [(h, c)]; cancelled := cancelled g |}.

Lemma calls_ok_call g m (f f' : At) h l t c :
  CallsOk g m f -> leads m h l t -> kept g c ->
  (forall h' c', (h', c') ∈ made g -> call_id c' <> call_id c) ->
  (forall y, f' y = f y ++ (if decide (y = t) then [c] else [])) ->
  CallsOk (add_call h c g) m f'.
Proof.
  intros [Ho Hf Hnd Honce Hg Hld] Hl Hk Hfresh Hf'.
  assert (Hne : forall y c', c' ∈ f y -> call_id c' <> call_id c).
  { intros y c' Hy. apply Hf in Hy as (x & l' & Hm & _). by eapply Hfresh. }
  assert (Hlive : forall x, live (add_call h c g) x = live g x ++ (if decide (h = x) then [c] else [])).
  { intros x. unfold live, add_call. cbn [made]. rewrite omap_app, filter_app. f_equal. cbn.
    unfold made_on. cbn. case_decide; [|done]. by rewrite filter_cons_True. }
  assert (Hold : forall y c', c' ∈ f' y -> c' ∈ f y \/ (c' = c /\ y = t)).
  { intros y c' Hy. rewrite Hf' in Hy. apply elem_of_app in Hy as [Hy|Hy]; [by left|].
    case_decide; [|by apply elem_of_nil in Hy]. apply list_elem_of_singleton in Hy. by right. }
  split.
  - intros x l' y Hx. rewrite Hlive, Hf'. case_decide as Hhx.
    + subst x. destruct (leads_fun _ _ _ _ _ _ Hl Hx) as [-> ->]. rewrite decide_True by done.
      apply sublist_app; [by eapply Ho|done].
    + rewrite app_nil_r. apply sublist_inserts_r. by eapply Ho.
  - intros y c' Hc. cbn [add_call made]. apply Hold in Hc as [Hc|[-> ->]].
    + destruct (Hf _ _ Hc) as (x & l' & Hm & Hx). exists x, l'. split; [|done]. by apply elem_of_app; left.
    + exists h, l. split; [|done]. apply elem_of_app. right. by apply list_elem_of_singleton.
  - intros y. rewrite Hf'. apply NoDup_ids_app; [done|case_decide; [apply NoDup_singleton|by apply NoDup_nil_2]|].
    intros c1 c2 H1 H2. case_decide; [|by apply elem_of_nil in H2].
    apply list_elem_of_singleton in H2 as ->. by eapply Hne.
  - intros y y' c1 c2 H1 H2 Hid. apply Hold in H1 as [H1|[-> ->]], H2 as [H2|[-> ->]].
    + by eapply Honce.
    + by destruct (Hne _ _ H1).
    + by destruct (Hne _ _ H2).
    + done.
  - intros a c' Hc. apply Hold in Hc as [Hc|[-> _]]; [by eapply Hg|done].
  - intros x Hx. rewrite Hlive in Hx. destruct (decide (h = x)) as [<-|Hx']; [by eexists _, t|].
    rewrite app_nil_r in Hx. by apply Hld.
Qed.

(** The promise of a call is dropped: queues lose that call, and no other. *)
Definition add_cancel (id : Z) g : Ghost := {| made := made g; cancelled := id :: cancelled g |}.
Definition other (id : Z) c : Prop := call_id c <> id.
#[export] Instance other_dec id c : Decision (other id c) := _.

Lemma sublist_filter_mono (P : Call Content -> Prop) `{!forall c, Decision (P c)} (l k : list (Call Content)) :
  sublist l k -> sublist (filter P l) (filter P k).
Proof.
  induction 1 as [|c l k Hlk IH|c l k Hlk IH]; [done|..]; rewrite ?filter_cons; case_decide;
    by first [done|by constructor].
Qed.

Lemma calls_ok_cancel g m (f f' : At) id :
  CallsOk g m f ->
  (forall y, sublist (f' y) (f y) /\ sublist (filter (other id) (f y)) (f' y)) ->
  (forall a c, c ∈ f' (QueuedClient a) -> other id c) ->
  CallsOk (add_cancel id g) m f'.
Proof.
  intros [Ho Hf Hnd Honce Hg Hld] Hsub Hgone.
  assert (Hin : forall y c, c ∈ f' y -> c ∈ f y).
  { intros y c Hc. eapply elem_of_sublist; [exact Hc|apply Hsub]. }
  assert (Hlive : forall x, live (add_cancel id g) x = filter (other id) (live g x)).
  { intros x. unfold live. rewrite list_filter_filter. apply list_filter_iff. intros c.
    unfold kept, other, add_cancel. cbn [cancelled]. rewrite not_elem_of_cons. tauto. }
  split.
  - intros x l y Hl. trans (filter (other id) (f y)); [|apply Hsub].
    rewrite Hlive. apply sublist_filter_mono. by eapply Ho.
  - intros y c Hc. by apply Hf, Hin.
  - intros y. eapply sublist_NoDup; [apply Hnd|apply fmap_sublist, Hsub].
  - intros y y' c c' Hc Hc'. by apply Honce; apply Hin.
  - intros a c Hc. unfold kept, add_cancel. cbn [cancelled]. rewrite not_elem_of_cons.
    split; [by eapply Hgone|]. by eapply Hg, Hin.
  - intros x Hx. apply Hld. intros Hn. by rewrite Hlive, Hn in Hx.
Qed.
End invariant.

Section shape.
Context {Content : Type} `{Results Content}.
Implicit Types (s : Heap Content) (c : Call Content) (g : Ghost (Content := Content)) (i j : ClientInner Content).

Notation waiting i := (SenderQueue.entries (call_forwarding_queue i)).

Record Shape s : Prop := {
  sh_dom a i : clients s !! a = Some i -> a < next_addr s;
  sh_queues : queues_ok s;
  sh_remover id a k : (id, (a, k)) ∈ removers s -> a < next_addr s;
  sh_remover_below id a k i : (id, (a, k)) ∈ removers s -> clients s !! a = Some i ->
    redirect i = None -> k < SenderQueue.next_id (call_forwarding_queue i);
  sh_remover_own id a k i c : (id, (a, k)) ∈ removers s -> clients s !! a = Some i ->
    (k, c) ∈ waiting i -> call_id c = id;
  sh_entry a i k c : clients s !! a = Some i -> (k, c) ∈ waiting i ->
    (call_id c, (a, k)) ∈ removers s
}.

(** Between operations nothing is borrowed, and the calls at a resolved client
    have moved on. *)
Definition Settled s : Prop := forall a i, clients s !! a = Some i ->
  borrowed i = false /\ (redirect i <> None -> waiting i = []).

Lemma place_shape t c s : Shape s -> unredirected (links s) t -> Shape (place t s c).
Proof.
  intros Hs Ht. destruct t as [x|x|x|a]; [by destruct Hs..|].
  unfold unredirected in Ht. rewrite links_lookup in Ht. cbn [place].
  destruct (clients s !! a) as [i|] eqn:Ha; [|done]. cbn in Ht. injection Ht as Hred.
  pose proof (place_queues_ok (QueuedClient a) c s (sh_queues _ Hs)) as Hq. cbn in Hq. rewrite Ha in Hq.
  assert (Hnew : forall b j, <[a := enqueue c i]> (clients s) !! b = Some j ->
    (b = a /\ j = enqueue c i) \/ (b <> a /\ clients s !! b = Some j)).
  { intros b j. destruct (decide (a = b)) as [->|Hne];
      [rewrite lookup_insert_eq; intros [= <-]; by left|rewrite lookup_insert_ne by done; by right]. }
  destruct (sh_queues _ Hs _ _ Ha) as [Hqi _].
  split; cbn [clients next_addr removers set_removers set_clients]; try done.
  - intros b j [[-> ->]|[_ Hb]]%Hnew; by eapply sh_dom.
  - intros id b k [Hr|Hr]%elem_of_app; [by eapply sh_remover|].
    apply list_elem_of_singleton in Hr as [= -> -> ->]. by eapply sh_dom.
  - intros id b k j [Hr|Hr]%elem_of_app [[-> ->]|[Hne Hb]]%Hnew Hj.
    + cbn. enough (k < SenderQueue.next_id (call_forwarding_queue i)) by lia. by eapply sh_remover_below.
    + by eapply sh_remover_below.
    + apply list_elem_of_singleton in Hr as [= -> ->]. cbn. lia.
    + apply list_elem_of_singleton in Hr. congruence.
  - intros id b k j c' [Hr|Hr]%elem_of_app [[-> ->]|[Hne Hb]]%Hnew Hc; cbn in Hc.
    + apply elem_of_app in Hc as [Hc|Hc]; [by eapply sh_remover_own|].
      apply list_elem_of_singleton in Hc as [= -> ->].
      pose proof (sh_remover_below _ Hs _ _ _ _ Hr Ha Hred). lia.
    + by eapply sh_remover_own.
    + apply list_elem_of_singleton in Hr as [= -> ->].
      apply elem_of_app in Hc as [Hc|Hc].
      * exfalso. apply (list_elem_of_fmap_2 fst) in Hc. destruct Hqi as [_ Hb _].
        rewrite Forall_forall in Hb. apply Hb in Hc. cbn in Hc. lia.
      * apply list_elem_of_singleton in Hc. congruence.
    + apply list_elem_of_singleton in Hr. congruence.
  - intros b j k c' [[-> ->]|[Hne Hb]]%Hnew Hc; cbn in Hc; apply elem_of_app.
    + apply elem_of_app in Hc as [Hc|Hc]; [left; by eapply sh_entry|right].
      apply list_elem_of_singleton in Hc as [= -> ->]. by apply list_elem_of_singleton.
    + left. by eapply sh_entry.
Qed.

(** A client after a call arrived somewhere. *)
Definition grown i j : Prop :=
  redirect j = redirect i /\ borrowed j = borrowed i /\ pipeline_inner j = pipeline_inner i /\
  client_resolution_queue j = client_resolution_queue i /\ (redirect i <> None -> j = i).

Lemma place_grown t c s b j : unredirected (links s) t -> clients (place t s c) !! b = Some j ->
  exists i, clients s !! b = Some i /\ grown i j.
Proof.
  intros Ht Hj. destruct t as [x|x|x|a]; [by exists j..|].
  unfold unredirected in Ht. rewrite links_lookup in Ht. cbn [place] in Hj.
  destruct (clients s !! a) as [i|] eqn:Ha; [|done]. cbn in Ht, Hj. injection Ht as Hred.
  destruct (decide (a = b)) as [->|Hne].
  - rewrite lookup_insert_eq in Hj. injection Hj as <-. exists i. by split_and!.
  - rewrite lookup_insert_ne in Hj by done. by exists j.
Qed.

Lemma places_grown t cs s : unredirected (links s) t -> Shape s ->
  Shape (places t cs s) /\
  forall b j, clients (places t cs s) !! b = Some j -> exists i, clients s !! b = Some i /\ grown i j.
Proof.
  revert s. induction cs as [|c cs IH]; intros s Ht Hs; cbn [places foldl].
  { split; [done|]. intros b j Hj. exists j. by split. }
  destruct (IH (place t s c)) as [H1 H2]; [by rewrite place_links|by apply place_shape|].
  split; [done|]. intros b j Hj. destruct (H2 b j Hj) as (i1 & Hi1 & Hg1).
  destruct (place_grown _ _ _ _ _ Ht Hi1) as (i & Hi & Hg). exists i. split; [done|].
  destruct Hg as (G1 & G2 & G3 & G4 & G5), Hg1 as (K1 & K2 & K3 & K4 & K5).
  split_and!; try congruence. intros Hr. rewrite K5 by congruence. by apply G5.
Qed.

Lemma place_settled t c s : unredirected (links s) t -> Settled s -> Settled (place t s c).
Proof.
  intros Ht Hs b j Hj. destruct (place_grown _ _ _ _ _ Ht Hj) as (i & Hi & Hg).
  destruct (Hs _ _ Hi) as [H1 H2], Hg as (G1 & G2 & _ & _ & G5). split; [congruence|].
  intros Hr. rewrite G5 by congruence. apply H2. congruence.
Qed.

(** ** What [ClientInner::resolve] does *)

Definition resolution (result : Hook + ErrorKind) : Hook :=
  match result with inl h => h | inr e => BrokenClient e end.

(** The client during and after its resolution. *)
Definition resolving (h : Hook) i : ClientInner Content :=
  set_borrowed true (set_calls SenderQueue.new (set_redirect (Some h) i)).
Definition resolved (h : Hook) i : ClientInner Content :=
  drop_pipeline (set_borrowed false (set_waiters SenderQueue.new (resolving h i))).

Definition put a i s : Heap Content := set_clients (<[a := i]> (clients s)) s.
Definition notified (h : Hook) (ws : list Z) s : Heap Content :=
  set_events (events s ++ ((fun w => Notified w h) <$> ws)) s.

Lemma notify_spec h ws s : notify h ws s = (Ok tt, notified h ws s).
Proof.
  revert s. induction ws as [|w ws IH]; intros s; cbn [notify].
  - unfold notified. cbn. rewrite app_nil_r. by destruct s.
  - unfold event, modify. unfold bind; cbn [ST_monad]. rewrite IH. unfold notified. cbn.
    by rewrite <- app_assoc.
Qed.

Lemma resolve_inv a r s s' : queues_ok s -> ClientInner_resolve a r s = (Ok tt, s') ->
  exists i t, clients s !! a = Some i /\ redirect i = None /\ borrowed i = false /\
    let s1 := put a (resolving (resolution r) i) s in
    let args := (waiting i).*2 in
    unredirected (links s1) t /\ (args = [] \/ exists l, leads (links s1) (resolution r) l t) /\
    s' = put a (resolved (resolution r) i)
           (notified (resolution r) (SenderQueue.entries (client_resolution_queue i)).*2
              (places t args s1)).
Proof.
  intros Hq Hr. unfold ClientInner_resolve in Hr.
  apply ST_bind_inv in Hr as (i & s0 & (Ha & Hb & ->)%borrow_inv & Hr).
  apply ST_bind_inv in Hr as ([] & s0 & [Has ->]%lift_inv & Hr).
  destruct (redirect i) eqn:Hred; [discriminate Has|]. clear Has.
  cbn [SenderQueue.drain] in Hr.
  apply ST_bind_inv in Hr as (args & s0 & [[= <-] ->]%lift_inv & Hr).
  apply ST_bind_inv in Hr as ([] & s1 & [= <-] & Hr).
  apply ST_bind_inv in Hr as ([] & s2 & Hf & Hr).
  assert (Hq1 : queues_ok (put a (resolving (resolution r) i) s)).
  { intros b j. cbn. destruct (decide (a = b)) as [->|Hne].
    - rewrite lookup_insert_eq. intros [= <-]. cbn. split; [apply SenderQueue.queue_ok_new|].
      by destruct (Hq _ _ Ha).
    - rewrite lookup_insert_ne by done. apply Hq. }
  assert (Hl1 : links (put a (resolving (resolution r) i) s) !! a = Some (Some (resolution r))).
  { rewrite links_lookup. cbn. by rewrite lookup_insert_eq. }
  apply forward_places in Hf; [|done].
  assert (exists t, unredirected (links (put a (resolving (resolution r) i) s)) t /\
    ((waiting i).*2 = [] \/ exists l, leads (links (put a (resolving (resolution r) i) s)) (resolution r) l t) /\
    s2 = places t (waiting i).*2 (put a (resolving (resolution r) i) s)) as (t & Ht & Hl & ->).
  { destruct Hf as [[Hn ->]|(l & t & Hl & ->)].
    - exists (LocalServer 0). rewrite Hn. by split_and!; [|left|].
    - exists t. split; [by eapply leads_end|]. split; [right; by eexists|done]. }
  exists i, t. split_and!; try done. cbv zeta.
  assert (Hta : t <> QueuedClient a).
  { intros ->. unfold unredirected in Ht. congruence. }
  destruct (places_spec t (waiting i).*2 (put a (resolving (resolution r) i) s) Ht Hq1)
    as (_ & _ & _ & _ & Hsame).
  specialize (Hsame a (resolving (resolution r) i)).
  apply ST_bind_inv in Hr as (s0 & s3 & [= <- <-] & Hr).
  apply ST_bind_inv in Hr as (i2 & s3 & [Hi2 ->]%lift_inv & Hr).
  rewrite Hsame in Hi2; [|by cbn; rewrite lookup_insert_eq|done]. injection Hi2 as <-.
  cbn [SenderQueue.drain] in Hr.
  apply ST_bind_inv in Hr as (ws & s3 & [[= <-] ->]%lift_inv & Hr).
  apply ST_bind_inv in Hr as ([] & s3 & Hn & Hr). rewrite notify_spec in Hn. injection Hn as <-.
  by injection Hr as <-.
Qed.

(** ** The invariant *)

Record Inv g s : Prop := {
  inv_calls : CallsOk g (links s) (calls_at s);
  inv_shape : Shape s;
  inv_settled : Settled s;
  inv_made h c : (h, c) ∈ made g -> call_id c < next_addr s;
  inv_cancelled id : id ∈ cancelled g -> id < next_addr s
}.

(** Changes that concern neither calls nor redirections. *)
Lemma inv_same g s s' :
  Inv g s -> links s' = links s -> (forall t, calls_at s' t = calls_at s t) ->
  next_addr s <= next_addr s' -> Shape s' -> Settled s' -> Inv g s'.
Proof.
  intros [H1 H2 H3 H4 H5] Hl Hc Hn Hs Hset. split; try done.
  - rewrite Hl. by eapply calls_ok_ext.
  - intros h c Hm. apply H4 in Hm. lia.
  - intros id Hm. apply H5 in Hm. lia.
Qed.

Lemma inv_next_addr g s : Inv g s -> Inv g (set_next_addr (next_addr s + 1) s).
Proof.
  intros Hi. pose proof (inv_shape _ _ Hi) as Hs.
  eapply inv_same; [exact Hi|done|done|cbn; lia| |apply Hi].
  split; cbn [next_addr clients removers set_next_addr]; try apply Hs.
  - intros a i Ha. apply (sh_dom _ Hs) in Ha. lia.
  - intros id a k Ha. apply (sh_remover _ Hs) in Ha. lia.
Qed.

(** A client replaced by one with the same redirection and calls. *)
Lemma inv_put g s a i j : Inv g s -> clients s !! a = Some i ->
  redirect j = redirect i -> call_forwarding_queue j = call_forwarding_queue i ->
  SenderQueue.QueueOk (client_resolution_queue j) -> borrowed j = false -> Inv g (put a j s).
Proof.
  intros Hi Ha Hr Hc Hq Hb. pose proof (inv_shape _ _ Hi) as Hs.
  assert (Hnew : forall b k, clients (put a j s) !! b = Some k ->
    exists i, clients s !! b = Some i /\ redirect k = redirect i /\
      call_forwarding_queue k = call_forwarding_queue i /\
      SenderQueue.QueueOk (client_resolution_queue k) /\ borrowed k = false).
  { intros b k. cbn. destruct (decide (a = b)) as [->|Hne].
    - rewrite lookup_insert_eq. intros [= <-]. by exists i.
    - rewrite lookup_insert_ne by done. intros Hk. exists k. split_and!; try done.
      + by apply (sh_queues _ Hs _ _ Hk).
      + by apply (inv_settled _ _ Hi _ _ Hk). }
  eapply inv_same; [exact Hi|..].
  - unfold links. cbn. rewrite fmap_insert. apply insert_id. by rewrite lookup_fmap, Ha, Hr.
  - intros t. destruct t as [| | |b]; try done. cbn. unfold queue_of. cbn.
    destruct (decide (a = b)) as [->|Hne]; [by rewrite lookup_insert_eq, Ha, Hc|by rewrite lookup_insert_ne].
  - done.
  - split; cbn [next_addr removers put set_clients]; try apply Hs.
    + intros b k (k0 & Hk & _)%Hnew. by eapply sh_dom.
    + intros b k (k0 & Hk & _ & Hkc & ? & _)%Hnew. rewrite Hkc. split; [|done].
      by apply (sh_queues _ Hs _ _ Hk).
    + intros id b n k Hn (k0 & Hk & Hkr & -> & _)%Hnew. rewrite Hkr. by eapply sh_remover_below.
    + intros id b n k c Hn (k0 & Hk & Hkr & -> & _)%Hnew. by eapply sh_remover_own.
    + intros b k n c (k0 & Hk & Hkr & -> & _)%Hnew. by eapply sh_entry.
  - intros b k (k0 & Hk & -> & -> & _ & Hbk)%Hnew. split; [done|].
    by apply (inv_settled _ _ Hi _ _ Hk).
Qed.

(** [Client::new] *)
Lemma inv_new g s p : Inv g s ->
  Inv g (put (next_addr s)
           {| redirect := None; pipeline_inner := p; call_forwarding_queue := SenderQueue.new;
              client_resolution_queue := SenderQueue.new; borrowed := false |}
           (set_next_addr (next_addr s + 1) s)).
Proof.
  intros Hi. pose proof (inv_shape _ _ Hi) as Hs. set (n := next_addr s).
  assert (Hn : clients s !! n = None).
  { destruct (clients s !! n) as [i|] eqn:Hn; [|done]. apply (sh_dom _ Hs) in Hn. unfold n in Hn. lia. }
  set (new := {| redirect := None |}). set (s' := put n new _).
  assert (Hlinks : links s' = <[n := None]> (links s)).
  { unfold links. cbn. by rewrite fmap_insert. }
  assert (Hnew : forall b k, clients s' !! b = Some k -> (b = n /\ k = new) \/ clients s !! b = Some k).
  { intros b k. cbn. destruct (decide (n = b)) as [->|Hne].
    - rewrite lookup_insert_eq. intros [= <-]. by left.
    - rewrite lookup_insert_ne by done. by right. }
  assert (Hcalls : forall t, calls_at s' t = calls_at s t).
  { intros t. destruct t as [| | |b]; try done. cbn. unfold queue_of. cbn.
    destruct (decide (n = b)) as [<-|Hne]; [by rewrite lookup_insert_eq, Hn|by rewrite lookup_insert_ne]. }
  destruct Hi as [Hc _ Hset Hm Hca]. split.
  - eapply calls_ok_ext; [exact Hcalls|]. rewrite Hlinks.
    assert (Hlead : forall h l t, leads (links s) h l t -> leads (<[n := None]> (links s)) h l t).
    { induction 1 as [h Hu|a h l t Ha Hl IH].
      - constructor. destruct h as [| | |a]; try done. unfold unredirected in *.
        rewrite lookup_insert_ne; [done|]. intros <-. by rewrite links_lookup, Hn in Hu.
      - econstructor; [|done]. rewrite lookup_insert_ne; [done|]. intros <-.
        by rewrite links_lookup, Hn in Ha. }
    assert (Hlead' : forall h l t, leads (<[n := None]> (links s)) h l t ->
      leads (links s) h l t \/ t = QueuedClient n).
    { induction 1 as [h Hu|a h l t Ha Hl IH].
      - destruct h as [| | |a]; try by left; constructor. unfold unredirected in *.
        destruct (decide (n = a)) as [->|Hne]; [by right|]. rewrite lookup_insert_ne in Hu by done.
        left. by constructor.
      - destruct (decide (n = a)) as [->|Hne]; [by rewrite lookup_insert_eq in Ha|].
        rewrite lookup_insert_ne in Ha by done. destruct IH; [left; by econstructor|by right]. }
    destruct Hc as [Ho Hf Hnd Honce Hg Hld].
    assert (Hlive : forall h l, leads (<[n := None]> (links s)) h l (QueuedClient n) -> live g h = []).
    { intros h l Hl. destruct (live g h) as [|c cs] eqn:Hlive; [done|exfalso].
      destruct (Hld h) as (l' & t & Hl'); [by rewrite Hlive|].
      destruct (leads_fun _ _ _ _ _ _ Hl (Hlead _ _ _ Hl')) as [_ ->].
      apply leads_end in Hl'. unfold unredirected in Hl'. by rewrite links_lookup, Hn in Hl'. }
    split; try done.
    + intros h l t Hl. destruct (Hlead' _ _ _ Hl) as [Hl'| ->]; [by eapply Ho|].
      rewrite (Hlive _ _ Hl). apply sublist_nil_l.
    + intros t c Hc. destruct (Hf t c Hc) as (h & l & Hmade & Hl). exists h, l. auto.
    + intros h Hh. destruct (Hld h Hh) as (l & t & Hl). exists l, t. auto.
  - assert (Hna : next_addr s' = next_addr s + 1) by done.
    assert (Hrm : removers s' = removers s) by done.
    split; rewrite ?Hna, ?Hrm.
    + intros b k [[-> _]|Hk]%Hnew; [unfold n; lia|]. apply (sh_dom _ Hs) in Hk. lia.
    + intros b k [[-> ->]|Hk]%Hnew; [split; apply SenderQueue.queue_ok_new|]. by apply (sh_queues _ Hs _ _ Hk).
    + intros id b k Hb. apply (sh_remover _ Hs) in Hb. lia.
    + intros id b k j Hb [[-> ->]|Hk]%Hnew; [apply (sh_remover _ Hs) in Hb; unfold n in Hb; lia|].
      by eapply sh_remover_below.
    + intros id b k j c Hb [[-> ->]|Hk]%Hnew; [by intros ?%elem_of_nil|]. by eapply sh_remover_own.
    + intros b j k c [[-> ->]|Hk]%Hnew; [by intros ?%elem_of_nil|]. by eapply sh_entry.
  - intros b k [[-> ->]|Hk]%Hnew; [by split|]. exact (Hset b k Hk).
  - intros h c Hmc%Hm. change (call_id c < next_addr s + 1). lia.
  - intros id Hid%Hca. change (id < next_addr s + 1). lia.
Qed.

(** [ClientHook::call], for a promise made just before *)
Lemma inv_call g s h c s' : Inv g s -> call_id c = next_addr s ->
  Client_call h c (set_next_addr (next_addr s + 1) s) = (Ok tt, s') -> Inv (add_call h c g) s'.
Proof.
  intros Hi Hid Hr. set (s1 := set_next_addr (next_addr s + 1) s) in *.
  pose proof (inv_next_addr _ _ Hi) as Hi1. fold s1 in Hi1.
  apply call_place in Hr as (l & t & Hl & ->); [|apply Hi1].
  assert (Ht : unredirected (links s1) t) by by eapply leads_end.
  destruct Hi1 as [Hc Hs Hset Hm Hca]. split; rewrite ?place_links, ?place_next_addr.
  - eapply calls_ok_call; [exact Hc|exact Hl|..].
    + intros Hk. apply (inv_cancelled _ _ Hi) in Hk. lia.
    + intros h' c' Hm'. apply (inv_made _ _ Hi) in Hm'. lia.
    + intros y. by apply place_calls_at.
  - by apply place_shape.
  - by apply place_settled.
  - intros h' c' [Hm'|Hm']%elem_of_app; [by eapply Hm|].
    apply list_elem_of_singleton in Hm' as [= -> ->]. cbn. lia.
  - done.
Qed.

(** *** The state after a resolution *)

Definition after a h i t (args : list (Call Content)) (ws : list Z) s : Heap Content :=
  put a (resolved h i) (notified h ws (places t args (put a (resolving h i) s))).

Lemma notified_calls_at h ws s y : calls_at (notified h ws s) y = calls_at s y.
Proof.
  assert (Hnil : forall t, omap (handed_to t) ((fun w => Notified (Content := Content) w h) <$> ws) = []).
  { intros t. by induction ws as [|w ws IH]. }
  destruct y; try done; cbn; by rewrite omap_app, Hnil, app_nil_r.
Qed.

Lemma put_cases a i s b k : clients (put a i s) !! b = Some k ->
  (b = a /\ k = i) \/ (b <> a /\ clients s !! b = Some k).
Proof.
  cbn. destruct (decide (a = b)) as [->|Hne].
  - rewrite lookup_insert_eq. intros [= <-]. by left.
  - rewrite lookup_insert_ne by done. by right.
Qed.

Lemma put_links a h i s : redirect i = Some h -> links (put a i s) = <[a := Some h]> (links s).
Proof. intros Hi. unfold links. cbn. by rewrite fmap_insert, Hi. Qed.

(** A client that has passed on its calls. *)
Lemma put_drained_shape a i j s : Shape s -> clients s !! a = Some i -> redirect j <> None ->
  waiting j = [] -> SenderQueue.QueueOk (call_forwarding_queue j) ->
  SenderQueue.QueueOk (client_resolution_queue j) -> Shape (put a j s).
Proof.
  intros Hs Ha Hr Hw Hq Hq'. split.
  - intros b k [[-> ->]|[_ Hk]]%put_cases; [exact (sh_dom _ Hs _ _ Ha)|exact (sh_dom _ Hs _ _ Hk)].
  - intros b k [[-> ->]|[_ Hk]]%put_cases; [done|]. exact (sh_queues _ Hs _ _ Hk).
  - intros id b k. apply (sh_remover _ Hs).
  - intros id b k j' Hk [[-> ->]|[_ Hj]]%put_cases; [done|]. by eapply sh_remover_below.
  - intros id b k j' c Hk [[-> ->]|[_ Hj]]%put_cases; [rewrite Hw; by intros ?%elem_of_nil|].
    by eapply sh_remover_own.
  - intros b j' k c [[-> ->]|[_ Hj]]%put_cases; [rewrite Hw; by intros ?%elem_of_nil|].
    by eapply (sh_entry _ Hs).
Qed.

Lemma resolving_shape a h i s : Shape s -> clients s !! a = Some i -> Shape (put a (resolving h i) s).
Proof.
  intros Hs Ha. eapply put_drained_shape; [done|exact Ha|done|done|apply SenderQueue.queue_ok_new|].
  by apply (sh_queues _ Hs _ _ Ha).
Qed.

Section resolution.
Context (a : Z) (h t : Hook) i (args : list (Call Content)) (ws : list Z) s.
Context (Hs : Shape s) (Ha : clients s !! a = Some i) (Hred : redirect i = None).
Context (Ht : unredirected (links (put a (resolving h i) s)) t).
Notation s1 := (put a (resolving h i) s).
Notation s2 := (places t args s1).
Notation s3 := (after a h i t args ws s).

Lemma resolution_target : t <> QueuedClient a.
Proof using Ht.
  intros ->. unfold unredirected in Ht. by rewrite (put_links a h), lookup_insert_eq in Ht.
Qed.

Lemma resolution_client : clients s2 !! a = Some (resolving h i).
Proof using Hs Ha Ht.
  destruct (places_spec t args s1 Ht (sh_queues _ (resolving_shape a h i s Hs Ha))) as (_ & _ & _ & _ & Hsame).
  apply Hsame; [cbn; by rewrite lookup_insert_eq|apply resolution_target].
Qed.

Lemma after_links : links s3 = <[a := Some h]> (links s).
Proof using Hs Ha Ht.
  unfold after. rewrite (put_links a h) by done. change (links (notified h ws s2)) with (links s2).
  destruct (places_spec t args s1 Ht (sh_queues _ (resolving_shape a h i s Hs Ha))) as (-> & _).
  rewrite (put_links a h) by done. by rewrite insert_insert_eq.
Qed.

Lemma after_calls_at y : calls_at s3 y =
  (if decide (y = QueuedClient a) then [] else calls_at s y) ++ (if decide (y = t) then args else []).
Proof using Hs Ha Ht.
  destruct (places_spec t args s1 Ht (sh_queues _ (resolving_shape a h i s Hs Ha))) as (_ & _ & _ & Hc & _).
  assert (Hy : calls_at s3 y = calls_at s2 y).
  { rewrite <- (notified_calls_at h ws s2). destruct y as [x|x|x|b]; try done. cbn. unfold queue_of, after. cbn.
    destruct (decide (a = b)) as [<-|Hne]; [by rewrite lookup_insert_eq, resolution_client|].
    by rewrite lookup_insert_ne. }
  rewrite Hy, Hc. f_equal. destruct y as [x|x|x|b]; try (by rewrite decide_False).
  cbn. unfold queue_of. cbn. destruct (decide (a = b)) as [->|Hne].
  - by rewrite lookup_insert_eq, decide_True.
  - by rewrite lookup_insert_ne, decide_False by congruence.
Qed.

Lemma after_shape : Shape s3.
Proof using Hs Ha Ht.
  destruct (places_grown t args s1 Ht (resolving_shape a h i s Hs Ha)) as [Hs2 _].
  eapply put_drained_shape;
    [|exact resolution_client|done|done|apply SenderQueue.queue_ok_new|apply SenderQueue.queue_ok_new].
  by destruct Hs2.
Qed.

Lemma after_settled : Settled s -> Settled s3.
Proof using Hs Ha Ht.
  intros Hset b k [[-> ->]|[Hne Hk]]%put_cases; [by split|].
  destruct (places_grown t args s1 Ht (resolving_shape a h i s Hs Ha)) as [_ Hg].
  destruct (Hg _ _ Hk) as (k1 & [[-> _]|[_ Hk1]]%put_cases & G1 & G2 & _ & _ & G5); [done|].
  destruct (Hset _ _ Hk1) as [S1 S2]. split; [congruence|].
  intros Hkr. rewrite G5 by congruence. apply S2. congruence.
Qed.

Lemma after_next_addr : next_addr s3 = next_addr s.
Proof using Hs Ha Ht.
  destruct (places_spec t args s1 Ht (sh_queues _ (resolving_shape a h i s Hs Ha))) as (_ & _ & Hn & _).
  exact Hn.
Qed.
End resolution.

Lemma inv_resolve g s a r s' : Inv g s -> ClientInner_resolve a r s = (Ok tt, s') -> Inv g s'.
Proof.
  intros Hi Hr. pose proof (inv_shape _ _ Hi) as Hs.
  apply resolve_inv in Hr as (i & t & Ha & Hred & Hb & Hr); [|apply Hi].
  cbv zeta in Hr. destruct Hr as (Ht & Hlt & ->).
  set (args := (waiting i).*2) in *. set (ws := (SenderQueue.entries (client_resolution_queue i)).*2).
  change (Inv g (after a (resolution r) i t args ws s)).
  split; [|by apply after_shape|by apply after_settled; [..|apply Hi]|..].
  - rewrite after_links by done. eapply (calls_ok_resolve _ _ _ _ _ _ t); [apply Hi|..].
    + by rewrite links_lookup, Ha; cbn; rewrite Hred.
    + by eapply resolution_target.
    + cbn. unfold queue_of. rewrite Ha. by rewrite (put_links a (resolution r)) in Hlt.
    + intros y. rewrite after_calls_at by done. f_equal. cbn. unfold queue_of. by rewrite Ha.
  - intros h' c' Hm%(inv_made _ _ Hi). by rewrite after_next_addr.
  - intros id Hid%(inv_cancelled _ _ Hi). by rewrite after_next_addr.
Qed.

(** *** Dropping the promise of a call *)

Definition stripped (id a : Z) (rs : list (Z * (Z * Z))) i : ClientInner Content :=
  set_calls {| SenderQueue.next_id := SenderQueue.next_id (call_forwarding_queue i);
               SenderQueue.entries := filter (fun kc => (id, (a, kc.1)) ∉ rs) (waiting i) |} i.

Lemma stripped_ok id a rs i : SenderQueue.QueueOk (call_forwarding_queue i) ->
  SenderQueue.QueueOk (call_forwarding_queue (stripped id a rs i)).
Proof.
  intros [H1 H2 H3]. assert (Hsub : sublist (waiting (stripped id a rs i)).*1 (waiting i).*1).
  { apply fmap_sublist, sublist_filter. }
  split; [by eapply SenderQueue.sublist_sorted| |done].
  rewrite Forall_forall in *. intros k Hk. eapply H2, elem_of_sublist; eauto.
Qed.

Lemma cancel_lookup id rs (m : gmap Z (ClientInner Content)) a :
  (forall i, m !! a = Some i -> SenderQueue.QueueOk (call_forwarding_queue i)) ->
  foldr (remove_entry id) m rs !! a = stripped id a rs <$> m !! a.
Proof.
  intros Hq. induction rs as [|[id' [b k]] rs IH]; cbn [foldr].
  - destruct (m !! a) as [i|]; cbn; [|done]. f_equal. unfold stripped.
    rewrite SenderQueue.filter_all by (intros; apply not_elem_of_nil).
    by destruct i as [? ? [? ?] ? ?].
  - set (m' := foldr (remove_entry id) m rs) in *. unfold remove_entry. cbn [fst snd].
    destruct (m !! a) as [i|] eqn:Ha; cbn in IH |- *.
    + specialize (Hq i eq_refl). destruct (Z.eqb_spec id' id) as [->|Hid].
      * destruct (decide (b = a)) as [->|Hne].
        -- rewrite lookup_alter_eq, IH. cbn. f_equal. unfold stripped, SenderQueue.Remover_drop. cbn.
           rewrite SenderQueue.btree_remove_filter by by apply (stripped_ok id a rs).
           rewrite list_filter_filter. erewrite list_filter_iff; [done|]. intros [k' c]. cbn [fst].
           rewrite not_elem_of_cons. split; [intros [? ?]; split; congruence|].
           intros [Hk ?]. split; [|done]. congruence.
        -- rewrite lookup_alter_ne, IH by done. f_equal. unfold stripped.
           erewrite list_filter_iff; [done|]. intros [k' c]. cbn [fst]. rewrite not_elem_of_cons.
           split; [intros ?; split; congruence|by intros []].
      * rewrite IH. f_equal. unfold stripped.
        erewrite list_filter_iff; [done|]. intros [k' c]. cbn [fst]. rewrite not_elem_of_cons.
        split; [intros ?; split; congruence|by intros []].
    + case_bool; [|done]. destruct (decide (b = a)) as [->|Hne];
        [by rewrite lookup_alter_eq, IH|by rewrite lookup_alter_ne].
Qed.

Lemma inv_cancel g s id s' : Inv g s -> id < next_addr s -> cancel id s = (Ok tt, s') ->
  Inv (add_cancel id g) s'.
Proof.
  intros Hi Hid [= <-]. pose proof (inv_shape _ _ Hi) as Hs.
  assert (Hget : forall a, clients (set_clients (foldr (remove_entry id) (clients s) (removers s)) s) !! a
    = stripped id a (removers s) <$> clients s !! a).
  { intros a. apply cancel_lookup. intros i Ha. by apply (sh_queues _ Hs _ _ Ha). }
  set (s' := set_clients _ s) in *.
  assert (Hnew : forall a j, clients s' !! a = Some j ->
    exists i, clients s !! a = Some i /\ j = stripped id a (removers s) i).
  { intros a j Hj. rewrite Hget in Hj. destruct (clients s !! a) as [i|]; [|done].
    cbn in Hj. injection Hj as <-. by exists i. }
  assert (Hlinks : links s' = links s).
  { apply map_eq. intros a. rewrite !links_lookup, Hget. by destruct (clients s !! a). }
  assert (Hqueue : forall a, queue_of s' a =
    (filter (fun kc => (id, (a, kc.1)) ∉ removers s) (from_option (fun i => waiting i) [] (clients s !! a))).*2).
  { intros a. unfold queue_of. rewrite Hget. by destruct (clients s !! a). }
  split.
  - rewrite Hlinks. eapply calls_ok_cancel; [apply Hi|..].
    + intros y. destruct y as [x|x|x|a]; [split; [done|apply sublist_filter]..|].
      cbn [calls_at]. rewrite Hqueue. unfold queue_of. destruct (clients s !! a) as [i|] eqn:Ha; cbn; [|done].
      split; [apply fmap_sublist, sublist_filter|].
      assert (Hown : forall k c, (k, c) ∈ waiting i -> (id, (a, k)) ∈ removers s -> call_id c = id).
      { intros k c Hkc Hr. by eapply (sh_remover_own _ Hs). }
      clear -Hown. induction (waiting i) as [|[k c] l IH]; [done|].
      rewrite fmap_cons, !filter_cons. cbn [fst snd].
      specialize (IH (fun k' c' Hk' => Hown k' c' (list_elem_of_further _ _ _ Hk'))).
      destruct (decide (other id c)) as [Ho|Ho].
      * rewrite decide_True; [by constructor|]. intros Hr. apply Ho. eapply Hown; [|done]. by left.
      * case_decide; [by constructor|done].
    + intros a c Hc. cbn [calls_at] in Hc. rewrite Hqueue in Hc.
      destruct (clients s !! a) as [i|] eqn:Ha; cbn in Hc; [|by apply elem_of_nil in Hc].
      apply list_elem_of_fmap in Hc as ([k c'] & -> & Hc). apply list_elem_of_filter in Hc as [Hn Hc].
      cbn in *. intros Hcid. apply Hn. rewrite <- Hcid. by eapply (sh_entry _ Hs).
  - split; change (removers s') with (removers s); change (next_addr s') with (next_addr s).
    + intros a j (i & Ha & ->)%Hnew. exact (sh_dom _ Hs _ _ Ha).
    + intros a j (i & Ha & ->)%Hnew. destruct (sh_queues _ Hs _ _ Ha). split; [by apply stripped_ok|done].
    + apply (sh_remover _ Hs).
    + intros id' a k j Hr (i & Ha & ->)%Hnew. exact (sh_remover_below _ Hs _ _ _ _ Hr Ha).
    + intros id' a k j c Hr (i & Ha & ->)%Hnew [_ Hc]%list_elem_of_filter. exact (sh_remover_own _ Hs _ _ _ _ _ Hr Ha Hc).
    + intros a j k c (i & Ha & ->)%Hnew [_ Hc]%list_elem_of_filter. exact (sh_entry _ Hs _ _ _ _ Ha Hc).
  - intros a j (i & Ha & ->)%Hnew. destruct (inv_settled _ _ Hi _ _ Ha) as [H1 H2].
    split; [done|]. intros Hr. cbn. by rewrite H2.
  - apply (inv_made _ _ Hi).
  - intros id' [->|Hc]%elem_of_cons; [done|by apply (inv_cancelled _ _ Hi)].
Qed.

(** *** Operations that are made of these *)

Create HintDb steady.
Definition steady {A} g (c : ST (Heap Content) A) : Prop :=
  forall s a s', Inv g s -> c s = (Ok a, s') -> Inv g s'.

Lemma steady_bind {A B} g (c : ST (Heap Content) A) (k : A -> ST (Heap Content) B) :
  steady g c -> (forall a, steady g (k a)) -> steady g (bind c k).
Proof. intros Hc Hk s b s' Hi Hr. apply ST_bind_inv in Hr as (a & s1 & H1 & H2). eapply (Hk a s1); [eapply Hc; eauto|eauto]. Qed.
Lemma steady_ret {A} g (a : A) : steady g (ret a).
Proof. by intros s b s' Hi [= _ <-]. Qed.
Lemma steady_lift {A} g (o : outcome A) : steady g (lift o).
Proof. by intros s b s' Hi [_ ->]%lift_inv. Qed.
Lemma steady_get_state g : steady g get_state.
Proof. by intros s b s' Hi [= _ <-]. Qed.
Lemma steady_put_pipe g p (pi : PipelineInner Content) : steady g (put_pipe p pi).
Proof.
  intros s b s' Hi [= _ <-]. eapply inv_same; [exact Hi|done|done|done| |apply Hi].
  by destruct (inv_shape _ _ Hi).
Qed.
Lemma steady_pipe_borrow g p : steady g (pipe_borrow p).
Proof.
  unfold pipe_borrow. apply steady_bind; [apply steady_get_state|]. intros s.
  apply steady_bind; [apply steady_lift|]. intros i. case_match; [apply steady_lift|apply steady_ret].
Qed.
Lemma steady_Client_new g p : steady g (Client_new p).
Proof. intros s a s' Hi [= _ <-]. by apply inv_new. Qed.
Lemma steady_event g w h : steady g (event (Notified w h)).
Proof.
  intros s a s' Hi [= _ <-]. eapply inv_same; [exact Hi|done| |done| |apply Hi].
  - intros t. destruct t; try done; cbn; rewrite omap_app; by rewrite app_nil_r.
  - by destruct (inv_shape _ _ Hi).
Qed.

#[local] Hint Resolve steady_ret steady_lift steady_get_state steady_put_pipe steady_pipe_borrow
  steady_Client_new steady_event : steady.
Ltac steady := repeat first
  [ solve [eauto with steady]
  | apply steady_bind; [|intros ?]
  | match goal with |- steady _ (match ?x with _ => _ end) => destruct x end
  | match goal with |- steady _ (let (_, _) := ?x in _) => destruct x end ].

Lemma steady_get_pipelined_cap g fuel pipe ops : steady g (get_pipelined_cap fuel pipe ops).
Proof.
  revert pipe. induction fuel as [|fuel IH]; intros pipe; destruct pipe; cbn [get_pipelined_cap]; steady.
Qed.

Lemma steady_when g h w : steady g (when_more_resolved h w).
Proof.
  destruct h as [| | |a]; cbn [when_more_resolved]; [steady..|].
  intros s b s' Hi Hr. apply ST_bind_inv in Hr as (i & s0 & (Ha & Hb & ->)%borrow_inv & Hr).
  destruct (redirect i) as [h|] eqn:Hred; [by eapply steady_event|].
  destruct (SenderQueue.push w (client_resolution_queue i)) as [id q] eqn:Hp.
  apply ST_bind_inv in Hr as (k & s1 & [-> ->]%lift_inv & [= _ <-]).
  destruct (sh_queues _ (inv_shape _ _ Hi) _ _ Ha) as [_ Hq].
  apply SenderQueue.push_inv in Hp as (_ & _ & ->); [|done].
  apply (inv_put _ _ _ i); try done. by apply SenderQueue.push_queue_ok.
Qed.

Lemma steady_resolve g a r : steady g (ClientInner_resolve a r).
Proof. intros s [] s' Hi. by apply inv_resolve. Qed.
Lemma steady_resolve_clients g pipe l : steady g (resolve_clients pipe l).
Proof.
  induction l as [|[a ops] l IH]; cbn [resolve_clients]; [steady|].
  apply steady_bind; [apply steady_get_state|]. intros s. apply steady_bind; [|by intros].
  destruct (clients s !! a); [|steady]. apply steady_bind; [|intros; apply steady_resolve].
  intros s1 h s2. apply steady_get_pipelined_cap.
Qed.
Lemma steady_PipelineInner_resolve g p r : steady g (PipelineInner_resolve p r).
Proof.
  unfold PipelineInner_resolve. apply steady_bind; [steady|]. intros i.
  destruct (pipe_redirect i); [steady|]. cbn [SenderQueue.drain].
  pose proof (fun l => steady_resolve_clients g (match r with inl p => p | inr e => BrokenPipe e end) l).
  steady.
Qed.
End shape.
