(* ===== verification/QueuedProps.v ===== *)
(** * Properties of queued capabilities

    A process whose application makes calls on hooks, drops their promises,
    resolves promises and completes pipelines, in any order ([System]): the
    calls made on a hook reach what it turns out to be, in order and once. *)

From S2P Require Import Prelude RpcTypes SenderQueue Queued QueuedSafe.
From stdpp Require Import gmap list.
#[local] Open Scope Z_scope.
#[local] Open Scope rust_scope.
Import Queued.

Section system.
Context {Content : Type} `{Results Content}.
Implicit Types (s : Heap Content) (c : Call Content) (g : Ghost (Content := Content)).

(** ** What the application does *)

Inductive Op :=
| OpClient
| OpPipeline
| OpCall (h : Hook) (interface_id method_id : Z) (params : Content) (caps : list (option Hook))
| OpCancel (id : Z)
| OpResolve (a : Z) (result : Hook + ErrorKind)
| OpWhen (h : Hook) (w : Z)
| OpPipelined (pipe : Pipe Content) (ops : list PipelineOp)
| OpComplete (sender : PipelineInnerSender) (pipe : Pipe Content)
| OpDropSender (sender : PipelineInnerSender).

Record System := { heap : Heap Content; ghost : Ghost (Content := Content) }.

Definition new_call s (iface meth : Z) (p : Content) (caps : list (option Hook)) : Call Content :=
  {| call_id := next_addr s; interface_id := iface; method_id := meth; params := p; param_caps := caps |}.

Definition perform_heap (o : Op) : ST (Heap Content) unit :=
  match o with
  | OpClient => _ ← Client_new None; ret tt
  | OpPipeline => _ ← Pipeline_new; ret tt
  | OpCall h iface meth p caps =>
      s ← get_state; _ ← alloc; Client_call h (new_call s iface meth p caps)
  | OpCancel id => cancel id
  | OpResolve a r => ClientInner_resolve a r
  | OpWhen h w => when_more_resolved h w
  | OpPipelined pipe ops => _ ← Pipeline_get_pipelined_cap pipe ops; ret tt
  | OpComplete sender pipe => Sender_complete sender pipe
  | OpDropSender sender => Sender_drop sender
  end.

Definition record (o : Op) s g : Ghost :=
  match o with
  | OpCall h iface meth p caps => add_call h (new_call s iface meth p caps) g
  | OpCancel id => add_cancel id g
  | _ => g
  end.

(** Only promises that were given out can be dropped. *)
Definition enabled (o : Op) s : bool :=
  match o with OpCancel id => id <? next_addr s | _ => true end.

Definition perform (o : Op) : ST System unit := fun sy =>
  let (r, s) := perform_heap o (heap sy) in
  (r, {| heap := s; ghost := record o (heap sy) (ghost sy) |}).

Definition start : System :=
  {| heap := {| clients := ∅; pipes := ∅; next_addr := 0; events := []; removers := [] |};
     ghost := {| made := []; cancelled := [] |} |}.

Inductive reachable : System -> Prop :=
| reach_start : reachable start
| reach_perform sy o sy' :
    reachable sy -> enabled o (heap sy) = true -> perform o sy = (Ok tt, sy') -> reachable sy'.

Lemma inv_start : Inv (ghost start) (heap start).
Proof.
  assert (Hn : forall t, calls_at (heap start) t = []) by by destruct t.
  split; try done.
  - split; try done; intros *; rewrite ?Hn; try (by intros ?%elem_of_nil).
    + intros _. apply sublist_nil_l.
    + apply NoDup_nil_2.
  - split; cbn; try done; intros *; try (by rewrite lookup_empty); by intros ?%elem_of_nil.
  - by intros h c ?%elem_of_nil.
  - by intros id ?%elem_of_nil.
Qed.

Lemma steady_Sender_complete g sender pipe : steady g (Sender_complete sender pipe).
Proof.
  unfold Sender_complete. apply steady_bind; [apply steady_get_state|]. intros s.
  destruct (upgrade_pipe _ s); [apply steady_PipelineInner_resolve|apply steady_ret].
Qed.

Lemma inv_perform o s s' g : Inv g s -> enabled o s = true -> perform_heap o s = (Ok tt, s') ->
  Inv (record o s g) s'.
Proof.
  intros Hi He Hp. destruct o; cbn [record perform_heap enabled] in *.
  - eapply steady_bind; [apply steady_Client_new|intros; apply steady_ret|exact Hi|exact Hp].
  - injection Hp as <-. apply inv_next_addr in Hi. eapply inv_same; [exact Hi|done|done|done| |apply Hi].
    by destruct (inv_shape _ _ Hi).
  - by apply (inv_call g s h).
  - apply (inv_cancel g s id); [done|lia|done].
  - by apply (inv_resolve g s a result).
  - by eapply steady_when.
  - eapply steady_bind; [|intros; apply steady_ret|exact Hi|exact Hp].
    intros s1 x s2. apply steady_get_pipelined_cap.
  - by eapply steady_Sender_complete.
  - unfold Sender_drop in Hp. case_match; [by eapply steady_Sender_complete|]. by injection Hp as <-.
Qed.

Lemma reachable_heap sy : reachable sy -> Inv (ghost sy) (heap sy).
Proof.
  induction 1 as [|sy o sy' Hr IH He Hp]; [apply inv_start|].
  unfold perform in Hp. destruct (perform_heap o (heap sy)) as [[[]| | | |] s] eqn:Ho; try done.
  injection Hp as <-. by apply inv_perform.
Qed.

(** C29: Calls keep their order.  Whatever happened before, the calls made on a
    hook whose promises were not dropped are, in the order they were made, at
    the place the hook leads to: handed to that capability, or waiting at the
    client that is not resolved yet.  No call is ever in two places or twice
    in one, and none gets to a place its hook does not lead to. *)
Theorem queued_calls_in_order (sy : System) :
  reachable sy ->
  (forall h l t, leads (links (heap sy)) h l t -> sublist (live (ghost sy) h) (calls_at (heap sy) t)) /\
  (forall t, NoDup (call_id <$> calls_at (heap sy) t)) /\
  (forall t t' c c', c ∈ calls_at (heap sy) t -> c' ∈ calls_at (heap sy) t' ->
     call_id c = call_id c' -> t = t') /\
  (forall t c, c ∈ calls_at (heap sy) t ->
     exists h l, (h, c) ∈ made (ghost sy) /\ leads (links (heap sy)) h l t).
Proof.
  intros Hr. destruct (inv_calls _ _ (reachable_heap sy Hr)) as [Ho Hf Hnd Honce _ _].
  split_and!; [exact Ho|exact Hnd|exact Honce|exact Hf].
Qed.

(** ** Resolution succeeds *)

Definition unborrowed s (a : Z) : Prop := forall i, clients s !! a = Some i -> borrowed i = false.
Definition free s (h : Hook) (l : list Z) (t : Hook) : Prop :=
  leads (links s) h l t /\ (forall b, b ∈ l -> unborrowed s b) /\
  match t with QueuedClient b => unborrowed s b | _ => True end.

(** What the place a call ends at asks of the call. *)
Definition accepts s (t : Hook) (n : Z) c : Prop :=
  match t with
  | QueuedClient b => forall i, clients s !! b = Some i ->
      SenderQueue.next_id (call_forwarding_queue i) + n < 2 ^ 64
  | RemoteClient _ => forall cap, Some cap ∈ param_caps c -> exists l y, free s cap l y
  | _ => True
  end.

Lemma borrow_ok s a i : clients s !! a = Some i -> borrowed i = false -> borrow a s = (Ok i, s).
Proof. intros Ha Hb. unfold borrow, bind, lift, get_state; cbn. rewrite Ha. cbn. by rewrite Hb. Qed.

Lemma free_step s a l t : free s (QueuedClient a) (a :: l) t -> exists i h',
  clients s !! a = Some i /\ borrowed i = false /\ redirect i = Some h' /\ free s h' l t.
Proof.
  intros (Hl & Hb & Ht). inversion Hl as [|a' h' l' t' Ha Hl']; subst.
  rewrite links_lookup in Ha. destruct (clients s !! a) as [i|] eqn:Hi; [|done].
  cbn in Ha. injection Ha as Ha. exists i, h'. split_and!; try done.
  - apply (Hb a); [by left|done].
  - split_and!; try done. intros b Hb'. apply Hb. by right.
Qed.

Lemma innermost_ok fuel h l t s : free s h l t -> (length l < fuel)%nat -> innermost fuel h s = (Ok t, s).
Proof.
  revert h l. induction fuel as [|fuel IH]; intros h l Hf Hn; [lia|].
  destruct l as [|a l].
  - destruct Hf as (Hl & _ & Ht). inversion Hl as [? Hu|]; subst. destruct t as [| | |b]; try done.
    cbn [innermost]. unfold unredirected in Hu. rewrite links_lookup in Hu.
    destruct (clients s !! b) as [i|] eqn:Hi; [|done]. cbn in Hu. injection Hu as Hu.
    rewrite (ST_bind_ok _ _ _ _ _ (borrow_ok s b i Hi (Ht i Hi))). by rewrite Hu.
  - assert (h = QueuedClient a) as ->. { destruct Hf as (Hl & _). by inversion Hl. }
    destruct (free_step s a l t Hf) as (i & h' & Hi & Hb & Hr & Hf').
    cbn [innermost]. rewrite (ST_bind_ok _ _ _ _ _ (borrow_ok s a i Hi Hb)), Hr.
    apply (IH h' l); [done|]. cbn in Hn. lia.
Qed.

Lemma free_length s h l t : free s h l t -> (length l < S (size (clients s)))%nat.
Proof.
  intros (Hl & _). apply leads_length in Hl. unfold links in Hl. rewrite map_size_fmap in Hl. lia.
Qed.

Lemma write_caps_ok s caps :
  (forall cap, Some cap ∈ caps -> exists l y, free s cap l y) ->
  write_caps (S (size (clients s))) caps s = (Ok tt, s).
Proof.
  induction caps as [|[h|] caps IH]; intros Hc; cbn [write_caps]; [done|..].
  - destruct (Hc h) as (l & y & Hf); [by left|].
    rewrite (ST_bind_ok _ _ _ _ _ (innermost_ok _ _ _ _ _ Hf (free_length _ _ _ _ Hf))).
    apply IH. intros cap Hcap. apply Hc. by right.
  - apply IH. intros cap Hcap. apply Hc. by right.
Qed.

Lemma call_ok fuel h l t c s : queues_ok s -> free s h l t -> (length l < fuel)%nat ->
  accepts s t 1 c -> call fuel h c s = (Ok tt, place t s c).
Proof.
  intros Hq. revert h l. induction fuel as [|fuel IH]; intros h l Hf Hn Hacc; [lia|].
  destruct l as [|a l].
  - destruct Hf as (Hl & _ & Ht). inversion Hl as [? Hu|]; subst. destruct t as [| | |b]; try done.
    + cbn [call]. unfold bind at 1. cbn [ST_monad]. unfold get_state at 1.
      by rewrite (ST_bind_ok _ _ _ _ _ (write_caps_ok s _ Hacc)).
    + cbn [call]. unfold unredirected in Hu. rewrite links_lookup in Hu.
      destruct (clients s !! b) as [i|] eqn:Hi; [|done]. cbn in Hu. injection Hu as Hu.
      rewrite (ST_bind_ok _ _ _ _ _ (borrow_ok s b i Hi (Ht i Hi))), Hu.
      destruct (Hq _ _ Hi) as [Hqi _].
      rewrite (SenderQueue.push_ok c _ Hqi) by (by apply Hacc). cbn. by rewrite Hi.
  - assert (h = QueuedClient a) as ->. { destruct Hf as (Hl & _). by inversion Hl. }
    destruct (free_step s a l t Hf) as (i & h' & Hi & Hb & Hr & Hf').
    cbn [call]. rewrite (ST_bind_ok _ _ _ _ _ (borrow_ok s a i Hi Hb)), Hr.
    apply (IH h' l); [done| |done]. cbn in Hn. lia.
Qed.

Lemma unborrowed_place t c s b : unredirected (links s) t -> unborrowed s b -> unborrowed (place t s c) b.
Proof.
  intros Ht Hb j Hj. destruct (place_grown _ _ _ _ _ Ht Hj) as (i & Hi & _ & -> & _). by apply Hb.
Qed.
Lemma free_place t c s h l y : unredirected (links s) t -> free s h l y -> free (place t s c) h l y.
Proof.
  intros Ht (Hl & Hb & Hy). split; [by rewrite place_links|]. split.
  - intros b Hbl. apply unborrowed_place; [done|]. by apply Hb.
  - destruct y; try done. by apply unborrowed_place.
Qed.
Lemma accepts_place t c c' s n : unredirected (links s) t -> accepts s t (n + 1) c' -> accepts (place t s c) t n c'.
Proof.
  intros Ht Ha. destruct t as [x|x|x|b]; try done. intros i Hi. cbn in Ha, Hi.
  destruct (clients s !! b) as [j|] eqn:Hj; [|by rewrite Hj in Hi].
  cbn in Hi. rewrite lookup_insert_eq in Hi. injection Hi as <-. specialize (Ha j eq_refl). cbn. lia.
Qed.
Lemma accepts_mono t c s n n' : n' <= n -> accepts s t n c -> accepts s t n' c.
Proof. intros Hn Ha. destruct t; try done. intros i Hi. specialize (Ha i Hi). lia. Qed.

Lemma forward_ok h l t args s : queues_ok s -> free s h l t ->
  (forall c, c ∈ args -> accepts s t (Z.of_nat (length args)) c) ->
  forward h args s = (Ok tt, places t args s).
Proof.
  revert s. induction args as [|c args IH]; intros s Hq Hf Hacc; cbn [forward]; [done|].
  assert (Ht : unredirected (links s) t). { destruct Hf as [Hl _]. by eapply leads_end. }
  assert (Hc : Client_call h c s = (Ok tt, place t s c)).
  { apply (call_ok _ _ l); [done|done|by eapply free_length|].
    eapply accepts_mono; [|apply Hacc; by left]. cbn. lia. }
  rewrite (ST_bind_ok _ _ _ _ _ Hc). cbn [places foldl].
  apply IH; [by apply place_queues_ok|by apply free_place|].
  intros c' Hc'. apply accepts_place; [done|]. eapply accepts_mono; [|apply Hacc; by right]. cbn. lia.
Qed.

(** The result of a resolution leads somewhere other than back, and the calls
    that wait can be passed on to it. *)
Definition resolvable s (a : Z) (h t : Hook) : Prop :=
  (exists l, leads (links s) h l t) /\ t <> QueuedClient a /\
  match t with
  | RemoteClient _ => forall c cap, c ∈ queue_of s a -> Some cap ∈ param_caps c ->
      exists l y, leads (links s) cap l y /\ y <> QueuedClient a
  | QueuedClient b => forall i, clients s !! b = Some i ->
      SenderQueue.next_id (call_forwarding_queue i) + Z.of_nat (length (queue_of s a)) < 2 ^ 64
  | _ => True
  end.

Lemma free_resolving g s a i h h' l y : Inv g s -> clients s !! a = Some i -> redirect i = None ->
  leads (links s) h' l y -> y <> QueuedClient a -> free (put a (resolving h i) s) h' l y.
Proof.
  intros Hi Ha Hred Hl Hy.
  assert (Hm : links s !! a = Some None) by (by rewrite links_lookup, Ha; cbn; rewrite Hred).
  assert (Hne : forall b, b <> a -> unborrowed (put a (resolving h i) s) b).
  { intros b Hb j. cbn. rewrite lookup_insert_ne by done. intros Hj. by apply (inv_settled _ _ Hi b). }
  split; [|split].
  - replace (links (put a (resolving h i) s)) with (<[a := Some h]> (links s)).
    + by apply leads_untouched.
    + unfold links. cbn. by rewrite fmap_insert.
  - intros b Hb. apply Hne. intros ->.
    clear Hne. revert Hb. induction Hl as [x Hx|b h1 l y Hb Hl IH]; [by intros ?%elem_of_nil|].
    intros [<-|Hin]%elem_of_cons; [congruence|by apply IH].
  - destruct y; try done. apply Hne. congruence.
Qed.

Lemma places_events t args s : events (places t args s) =
  events s ++ match t with QueuedClient _ => [] | _ => Handed t <$> args end.
Proof.
  revert s. induction args as [|c args IH]; intros s; cbn [places foldl].
  - destruct t; by rewrite app_nil_r.
  - fold (places t args (place t s c)). rewrite IH.
    destruct t; cbn; rewrite <- ?app_assoc; try done. by case_match.
Qed.

(** The calls can be passed on. *)
Lemma forward_resolving g s a i r t : Inv g s -> clients s !! a = Some i -> redirect i = None ->
  resolvable s a (resolution r) t ->
  forward (resolution r) (queue_of s a) (put a (resolving (resolution r) i) s) =
    (Ok tt, places t (queue_of s a) (put a (resolving (resolution r) i) s)).
Proof.
  intros Hi Ha Hred ((l & Hl) & Hta & Hacc). pose proof (inv_shape _ _ Hi) as Hs.
  pose proof (fun h' l y => free_resolving _ s a i (resolution r) h' l y Hi Ha Hred) as Hfree.
  apply (forward_ok _ l t).
  - apply (sh_queues _ (resolving_shape a (resolution r) i s Hs Ha)).
  - by apply Hfree.
  - intros c Hc. destruct t as [x|x|x|b]; try done.
    + intros cap Hcap. destruct (Hacc c cap Hc Hcap) as (l' & y & Hl' & Hy). exists l', y. by apply Hfree.
    + intros j. cbn. rewrite lookup_insert_ne by congruence. apply Hacc.
Qed.

Lemma resolve_ok g s a i r t : Inv g s -> clients s !! a = Some i -> redirect i = None ->
  resolvable s a (resolution r) t ->
  ClientInner_resolve a r s = (Ok tt, after a (resolution r) i t (queue_of s a)
    (SenderQueue.entries (client_resolution_queue i)).*2 s).
Proof.
  intros Hi Ha Hred Hres. pose proof (forward_resolving _ _ _ _ _ _ Hi Ha Hred Hres) as Hf.
  assert (Hb : borrowed i = false) by by apply (inv_settled _ _ Hi a).
  assert (Hargs : queue_of s a = (SenderQueue.entries (call_forwarding_queue i)).*2).
  { unfold queue_of. by rewrite Ha. }
  unfold ClientInner_resolve. rewrite (ST_bind_ok _ _ _ _ _ (borrow_ok s a i Ha Hb)), Hred.
  cbn [rust_assert SenderQueue.drain]. rewrite (lift_bind_ok _ _ _ _ eq_refl), (lift_bind_ok _ _ _ _ eq_refl).
  unfold bind at 1. cbn [ST_monad]. unfold put_client at 1, modify at 1.
  fold (resolution r). fold (resolving (resolution r) i). fold (put a (resolving (resolution r) i) s).
  rewrite <- Hargs, (ST_bind_ok _ _ _ _ _ Hf). unfold bind at 1. cbn [ST_monad]. unfold get_state at 1.
  destruct Hres as ((l & Hl) & Hta & _).
  rewrite (resolution_client a (resolution r) t i (queue_of s a) s); [|apply Hi|done|].
  - cbn [unwrap]. rewrite (lift_bind_ok _ _ _ _ eq_refl). cbn [SenderQueue.drain].
    rewrite (lift_bind_ok _ _ _ _ eq_refl). by rewrite (ST_bind_ok _ _ _ _ _ (notify_spec _ _ _)).
  - apply leads_end in Hl. rewrite (put_links a (resolution r)) by done.
    destruct t as [x|x|x|b]; try done. unfold unredirected in *. rewrite lookup_insert_ne; [done|congruence].
Qed.

(** A promise that resolves to a capability which does not lead back to it
    does so without a panic, and every call that waited goes to where that
    capability leads before anyone who waits for the resolution is told; from
    then on nothing waits. *)
Lemma resolve_delivers (sy : System) a i r t :
  let s := heap sy in
  reachable sy -> clients s !! a = Some i -> redirect i = None ->
  resolvable s a (resolution r) t ->
  exists s', ClientInner_resolve a r s = (Ok tt, s') /\
    calls_at s' t = calls_at s t ++ queue_of s a /\ queue_of s' a = [] /\
    (exists l, leads (links s') (QueuedClient a) l t) /\
    events s' = events s ++ match t with
                            | QueuedClient _ => []
                            | _ => Handed t <$> queue_of s a
                            end ++
      ((fun w => Notified w (resolution r)) <$>
         (SenderQueue.entries (client_resolution_queue i)).*2).
Proof.
  intros s Hr Ha Hred Hres. pose proof (reachable_heap sy Hr) as Hi. pose proof (inv_shape _ _ Hi) as Hs.
  eexists. split; [by eapply resolve_ok|]. destruct Hres as ((l & Hl) & Hta & _).
  assert (Hm : links s !! a = Some None) by (by rewrite links_lookup, Ha; cbn; rewrite Hred).
  pose proof (leads_untouched _ a (resolution r) _ _ _ Hm Hl Hta) as Hl'.
  assert (Ht : unredirected (links (put a (resolving (resolution r) i) s)) t).
  { rewrite (put_links a (resolution r)) by done. by eapply leads_end. }
  split_and!.
  - rewrite after_calls_at by done. by rewrite decide_False, decide_True.
  - change (queue_of ?x a) with (calls_at x (QueuedClient a)). rewrite after_calls_at by done.
    by rewrite decide_True, decide_False.
  - exists (a :: l). rewrite after_links by done. econstructor; [apply lookup_insert_eq|done].
  - cbn. rewrite places_events, <- app_assoc. done.
Qed.

(** A promise passed as a parameter of the first call on itself panics
    when it resolves to a remote capability: [resolve] holds the mutable borrow
    of the client while it forwards the call, and the connection asks each
    capability in the parameters, this one among them, what it resolved to. *)
Lemma own_param_panics s a i c cs rest x :
  clients s !! a = Some i -> redirect i = None -> borrowed i = false ->
  queue_of s a = c :: cs -> param_caps c = Some (QueuedClient a) :: rest ->
  fst (ClientInner_resolve a (inl (RemoteClient x)) s) = Panic.
Proof.
  intros Ha Hred Hb Hc Hcaps. unfold queue_of in Hc. rewrite Ha in Hc.
  unfold ClientInner_resolve. rewrite (ST_bind_ok _ _ _ _ _ (borrow_ok s a i Ha Hb)), Hred.
  cbn [rust_assert SenderQueue.drain]. rewrite (lift_bind_ok _ _ _ _ eq_refl), (lift_bind_ok _ _ _ _ eq_refl), Hc.
  unfold bind at 1. cbn [ST_monad]. unfold put_client at 1, modify at 1.
  set (s1 := set_clients _ s). unfold bind at 1. cbn [ST_monad]. cbn [forward].
  unfold bind at 1. cbn [ST_monad]. unfold Client_call.
  assert (Hcall : forall n, fst (call (S n) (RemoteClient x) c s1) = Panic).
  { intros n. cbn [call]. unfold bind at 1. cbn [ST_monad]. unfold get_state at 1. rewrite Hcaps.
    cbn [write_caps innermost]. unfold borrow, bind, lift, get_state. cbn [ST_monad]. unfold s1 at 2. cbn.
    by rewrite lookup_insert_eq. }
  specialize (Hcall (size (clients s1))). by destruct (call _ _ _ s1) as [[] ?].
Qed.
End system.

(** ** An example: two calls on a promise, a third after it resolved *)

#[export] Instance no_results : Results nat := {| results_cap _ _ _ := Err Failed |}.

Fixpoint perform_all (os : list (Op (Content := nat))) (sy : System (Content := nat)) : System :=
  match os with [] => sy | o :: os => perform_all os (snd (perform o sy)) end.
Fixpoint all_ok (os : list (Op (Content := nat))) (sy : System (Content := nat)) : bool :=
  match os with
  | [] => true
  | o :: os => enabled o (heap sy) && is_ok (fst (perform o sy)) && all_ok os (snd (perform o sy))
  end.
Lemma perform_all_reach os sy : reachable sy -> all_ok os sy = true -> reachable (perform_all os sy).
Proof.
  revert sy. induction os as [|o os IH]; intros sy Hr; cbn [perform_all all_ok]; [done|].
  intros [[He Ho]%andb_true_iff Hos]%andb_true_iff. apply IH; [|done].
  destruct (perform o sy) as [[[]| | | |] sy'] eqn:Hp; try done. by eapply reach_perform.
Qed.

Definition waiting_ops : list (Op (Content := nat)) :=
  [OpClient; OpCall (QueuedClient 0) 1 1 10%nat []; OpCall (QueuedClient 0) 1 2 20%nat [];
   OpWhen (QueuedClient 0) 5].
Definition waiting_system := perform_all waiting_ops start.
Definition resolved_system :=
  perform_all (waiting_ops ++ [OpResolve 0 (inl (LocalServer 7)); OpCall (QueuedClient 0) 1 3 30%nat []]) start.

Lemma waiting_reachable : reachable waiting_system.
Proof. apply perform_all_reach; [apply reach_start|by vm_compute]. Qed.
Lemma resolved_reachable : reachable resolved_system.
Proof. apply perform_all_reach; [apply reach_start|by vm_compute]. Qed.

Example resolved_order : params <$> calls_at (heap resolved_system) (LocalServer 7) = [10; 20; 30]%nat.
Proof. by vm_compute. Qed.

Lemma queued_calls_in_order_witness :
  reachable resolved_system /\
  sublist (live (ghost resolved_system) (QueuedClient 0)) (calls_at (heap resolved_system) (LocalServer 7)) /\
  length (live (ghost resolved_system) (QueuedClient 0)) = 3%nat.
Proof.
  split; [exact resolved_reachable|]. split; [|by vm_compute].
  apply (proj1 (queued_calls_in_order resolved_system resolved_reachable) _ [0]).
  econstructor; [by vm_compute|by constructor].
Defined.

Lemma resolve_delivers_witness :
  reachable waiting_system /\
  exists s', ClientInner_resolve 0 (inl (LocalServer 7)) (heap waiting_system) = (Ok tt, s') /\
    queue_of s' 0 = [] /\
    events s' = (Handed (LocalServer 7) <$> queue_of (heap waiting_system) 0) ++ [Notified 5 (LocalServer 7)].
Proof.
  split; [exact waiting_reachable|].
  destruct (clients (heap waiting_system) !! 0) as [i|] eqn:Hi; [|by vm_compute in Hi].
  assert (Hw : (SenderQueue.entries (client_resolution_queue i)).*2 = [5]).
  { vm_compute in Hi. by injection Hi as <-. }
  assert (Hn : redirect i = None). { vm_compute in Hi. by injection Hi as <-. }
  destruct (resolve_delivers waiting_system 0 i (inl (LocalServer 7)) (LocalServer 7)
    waiting_reachable Hi Hn) as (s' & Hr & _ & Hq & _ & He).
  { split; [by exists []; constructor|done]. }
  exists s'. rewrite Hw in He. by split_and!.
Defined.

(** The call that panics has the promise itself as its parameter. *)
Definition own_param_system :=
  perform_all [OpClient; OpCall (QueuedClient 0) 1 1 10%nat [Some (QueuedClient 0)]] start.

Lemma own_param_panics_witness :
  (exists i, clients (heap own_param_system) !! 0 = Some i /\ redirect i = None /\ borrowed i = false) /\
  fst (ClientInner_resolve 0 (inl (RemoteClient 3)) (heap own_param_system)) = Panic.
Proof.
  destruct (clients (heap own_param_system) !! 0) as [i|] eqn:Hi; [|by vm_compute in Hi].
  assert (Hn : redirect i = None). { vm_compute in Hi. by injection Hi as <-. }
  assert (Hb : borrowed i = false). { vm_compute in Hi. by injection Hi as <-. }
  split; [by exists i|].
  eapply (own_param_panics (heap own_param_system) 0 i); [done..|by vm_compute|by cbn].
Defined.
