(* ===== verification/Reconnect.v ===== *)
(** * Clients that reconnect (capnp-rpc/src/reconnect.rs)

    A reconnecting client forwards calls to a current target.  When a call
    fails with [Disconnected] it asks a closure of the application,
    [connect], for another.  The closure is a parameter: [connect n] is what
    it gives when it is called for the [n]-th time.  The closure runs while
    the [RefCell] of the client is borrowed, so that one which uses the
    client itself panics; it is taken not to.

    What the client does that can be observed (calls handed to a target,
    results, targets connected to and set) is written to a log. *)

From S2P Require Import Prelude RpcTypes SenderQueue Queued.
From stdpp Require Import gmap.
#[local] Open Scope Z_scope.
#[local] Open Scope rust_scope.

Module Reconnect.
Import Queued.

Record ClientInner := { current : option Hook; generation : Z }.

(** [Handed i h]: call [i] is made on target [h]; [Settled i r]: its promise
    gives [r]; [Connected r]: [connect] is called. *)
Inductive Event :=
| Handed (call : Z) (target : Hook)
| Settled (call : Z) (result : option ErrorKind)
| Connected (result : Hook + ErrorKind)
| TargetSet (target : Hook).

(** [requests]: the requests not sent yet, each with the target it was made
    on; [wrapped]: the promises that wait for a result, with the generation
    they hold. *)
Record World := {
  inner : ClientInner;
  connects : nat;
  requests : gmap Z Hook;
  wrapped : gmap Z Z;
  next_id : Z;
  log : list Event
}.

Definition set_inner i w := {| inner := i; connects := connects w; requests := requests w; wrapped := wrapped w;
  next_id := next_id w; log := log w |}.
Definition set_connects n w := {| inner := inner w; connects := n; requests := requests w; wrapped := wrapped w;
  next_id := next_id w; log := log w |}.
Definition set_requests r w := {| inner := inner w; connects := connects w; requests := r; wrapped := wrapped w;
  next_id := next_id w; log := log w |}.
Definition set_wrapped p w := {| inner := inner w; connects := connects w; requests := requests w; wrapped := p;
  next_id := next_id w; log := log w |}.
Definition set_next_id n w := {| inner := inner w; connects := connects w; requests := requests w; wrapped := wrapped w;
  next_id := n; log := log w |}.
Definition add_log e w := {| inner := inner w; connects := connects w; requests := requests w; wrapped := wrapped w;
  next_id := next_id w; log := log w ++ [e] |}.
Definition set_current h (i : ClientInner) := {| current := h; generation := generation i |}.

Section reconnect.
Context (connect : nat -> Hook + ErrorKind).
Abbreviation M := (ST World).

Definition modify (f : World -> World) : M unit := fun w => (Ok tt, f w).
Definition fresh : M Z := fun w => (Ok (next_id w), set_next_id (next_id w + 1) w).

(** [(self.connect)()] *)
Definition run_connect : M (Hook + ErrorKind) := fun w =>
  let r := connect (connects w) in (Ok r, add_log (Connected r) (set_connects (S (connects w)) w)).
(** [into_client_hook], or [broken::new_cap] *)
Definition hook_of (r : Hook + ErrorKind) : Hook := match r with inl h => h | inr e => BrokenClient e end.

(** [ClientInner::get_current] *)
Definition get_current : M Hook :=
  w ← get_state;
  match current (inner w) with
  | Some h => ret h
  | None =>
      r ← run_connect;
      modify (fun w => set_inner (set_current (Some (hook_of r)) (inner w)) w) ;;
      ret (hook_of r)
  end.

(** [Client::wrap] of the promise of call [id] *)
Definition wrap (id : Z) : M unit :=
  modify (fun w => set_wrapped (<[id := generation (inner w)]> (wrapped w)) w).
(** What the wrapped promise does when the promise of the call is done *)
Definition settle (id : Z) (result : option ErrorKind) : M unit :=
  w ← get_state;
  g ← lift (unwrap (wrapped w !! id));
  modify (fun w => add_log (Settled id result) (set_wrapped (delete id (wrapped w)) w)) ;;
  match result with
  | Some Disconnected =>
      if g =? generation (inner w) then
        g ← lift (uadd 64 g 1);
        modify (fun w => set_inner {| current := current (inner w); generation := g |} w) ;;
        r ← run_connect;
        modify (fun w => set_inner (set_current (Some (hook_of r)) (inner w)) w)
      else ret tt
  | _ => ret tt
  end.

(** [SetTarget::set_target] *)
Definition set_target (target : Hook) : M unit :=
  modify (fun w => add_log (TargetSet target) (set_inner (set_current (Some target) (inner w)) w)).

Definition hand (id : Z) (h : Hook) : M unit := modify (add_log (Handed id h)).
(** [ClientHook::call] *)
Definition call : M Z :=
  id ← fresh;
  h ← get_current;
  hand id h ;;
  wrap id ;;
  ret id.
(** [ClientHook::new_call] and [Request::send] *)
Definition new_call : M Z :=
  id ← fresh;
  h ← get_current;
  modify (fun w => set_requests (<[id := h]> (requests w)) w) ;;
  ret id.
Definition send (id : Z) : M unit :=
  w ← get_state;
  h ← lift (unwrap (requests w !! id));
  modify (fun w => set_requests (delete id (requests w)) w) ;;
  hand id h ;;
  wrap id.
(** A request or a promise is dropped. *)
Definition drop (id : Z) : M unit :=
  modify (fun w => set_wrapped (delete id (wrapped w)) (set_requests (delete id (requests w)) w)).

(** [Client::new] *)
Definition new : World :=
  {| inner := {| current := None; generation := 0 |}; connects := 0; requests := ∅; wrapped := ∅; next_id := 0; log := [] |}.
Definition lazy_auto_reconnect : World := new.
(** [auto_reconnect]; an error of the first [connect] is its result. *)
Definition auto_reconnect : outcome World :=
  match run_connect new with
  | (Ok (inl target), w) =>
      match set_target target w with (Ok _, w) => Ok w | _ => Panic end
  | (Ok (inr e), _) => Err e
  | _ => Panic
  end.

(** Histories of a client *)
Inductive Label :=
| DoCall | DoNewCall | DoSend (id : Z) | DoSettle (id : Z) (result : option ErrorKind) | DoDrop (id : Z) | DoSetTarget (target : Hook).
Definition perform (l : Label) : M unit :=
  match l with
  | DoCall => call ;; ret tt
  | DoNewCall => new_call ;; ret tt
  | DoSend id => send id
  | DoSettle id result => settle id result
  | DoDrop id => drop id
  | DoSetTarget target => set_target target
  end.
Fixpoint run (ls : list Label) : M unit :=
  match ls with [] => ret tt | l :: ls => perform l ;; run ls end.
End reconnect.

(** ** Two histories

    The target is set to 7 while a call to 1 is on its way: the call fails,
    and the new target is replaced by a connection to 2. *)
Definition numbered_targets (n : nat) : Hook + ErrorKind := inl (RemoteClient (Z.of_nat n + 1)).
Lemma set_target_is_lost :
  current (inner (snd (run numbered_targets
    [DoCall; DoSetTarget (RemoteClient 7); DoSettle 0 (Some Disconnected)] lazy_auto_reconnect))) = Some (RemoteClient 2).
Proof. reflexivity. Qed.
(** A request made on 1 is sent after another call has failed and 2 is the
    target: it fails too, and 2 is replaced by 3. *)
Lemma old_request_reconnects :
  current (inner (snd (run numbered_targets
    [DoNewCall; DoCall; DoSettle 1 (Some Disconnected); DoSend 0; DoSettle 0 (Some Disconnected)] lazy_auto_reconnect))) =
  Some (RemoteClient 3).
Proof. reflexivity. Qed.

(** ** The log of a history *)

Definition connected_at (l : list Event) (c : nat) : Prop := exists r, l !! c = Some (Connected r).
Definition handed_at (l : list Event) (a : nat) (i : Z) (h : Hook) : Prop := l !! a = Some (Handed i h).

Lemma snoc_lookup (l : list Event) e a x : (l ++ [e]) !! a = Some x <-> l !! a = Some x \/ (a = length l /\ x = e).
Proof.
  rewrite lookup_app_Some, list_lookup_singleton_Some. split.
  - intros [?|(Ha & Hz & <-)]; [by left|right]. split; [lia|done].
  - intros [?|[-> ->]]; [by left|right]. split; [lia|]. split; [lia|done].
Qed.
Lemma connected_snoc l e c : connected_at (l ++ [e]) c <-> connected_at l c \/ (c = length l /\ exists r, e = Connected r).
Proof.
  unfold connected_at. setoid_rewrite snoc_lookup. split.
  - intros (r & [E|[-> <-]]); [left|right]; eauto.
  - intros [[r E]|[-> [r ->]]]; exists r; auto.
Qed.
Lemma connected_lt l c : connected_at l c -> (c < length l)%nat.
Proof. intros [r E]. by eapply lookup_lt_Some. Qed.
Lemma handed_lt l a i h : handed_at l a i h -> (a < length l)%nat.
Proof. by apply lookup_lt_Some. Qed.

(** A call that is settled connects again exactly when it failed with
    [Disconnected] and nothing has connected since it was made. *)
Definition reconnects_right (l : list Event) : Prop := forall i h a b x,
  handed_at l a i h -> l !! b = Some (Settled i x) ->
  (a < b)%nat /\ (connected_at l (S b) <-> x = Some Disconnected /\ forall c, (a < c < b)%nat -> ~ connected_at l c).

Record Inv (w : World) : Prop := {
  inv_generation : 0 <= generation (inner w);
  inv_handed_ids a i h : handed_at (log w) a i h -> 0 <= i < next_id w;
  inv_settled_ids b i x : log w !! b = Some (Settled i x) -> 0 <= i < next_id w /\ wrapped w !! i = None;
  inv_wrapped_ids i g : wrapped w !! i = Some g -> 0 <= i < next_id w;
  inv_request_ids i h : requests w !! i = Some h -> 0 <= i < next_id w /\ wrapped w !! i = None /\
    (forall a h, ~ handed_at (log w) a i h) /\ forall b x, log w !! b <> Some (Settled i x);
  inv_next_id : 0 <= next_id w;
  inv_none : current (inner w) = None -> forall a i h, ~ handed_at (log w) a i h;
  inv_wrapped i g a h : wrapped w !! i = Some g -> handed_at (log w) a i h ->
    g <= generation (inner w) /\ (g < generation (inner w) <-> exists c, (a < c)%nat /\ connected_at (log w) c);
  inv_done : reconnects_right (log w);
  inv_request_target i h : requests w !! i = Some h -> current (inner w) <> None
}.

(** Appending one event *)
Lemma right_snoc l e : reconnects_right l ->
  match e with
  | Handed i _ => forall b x, l !! b <> Some (Settled i x)
  | Settled i x => x <> Some Disconnected \/ (forall a h, handed_at l a i h -> exists c, (a < c)%nat /\ connected_at l c)
  | Connected _ => (forall a i h, ~ handed_at l a i h)
  | TargetSet _ => True
  end -> reconnects_right (l ++ [e]).
Proof.
  intros Hl He i h a b x Ha Hb. apply snoc_lookup in Ha, Hb. destruct Ha as [Ha|[-> ?]], Hb as [Hb|[-> ?]]; subst; try done.
  - destruct (Hl i h a b x Ha Hb) as [Hab Hiff]. split; [done|].
    assert (Hb' : (b < length l)%nat) by by eapply lookup_lt_Some.
    destruct (decide (S b = length l)) as [Hs|Hs].
    + (* the appended event is the one after [b] *)
      assert (Hno : ~ exists r, e = Connected r) by (intros [r ->]; exact (He _ _ _ Ha)).
      rewrite connected_snoc. split.
      * intros [Hc|[_ Hc]]; [|done]. apply Hiff in Hc as [-> Hc]. split; [done|]. intros c Hc1 Hc2. apply (Hc c Hc1).
        apply connected_snoc in Hc2 as [?|[-> _]]; [done|lia].
      * intros [Hx Hc]. left. apply Hiff. split; [done|]. intros c Hc1 Hc2. apply (Hc c Hc1). apply connected_snoc. by left.
    + rewrite connected_snoc. split.
      * intros [Hc|[? _]]; [|lia]. apply Hiff in Hc as [-> Hc]. split; [done|]. intros c Hc1 Hc2. apply (Hc c Hc1).
        apply connected_snoc in Hc2 as [?|[-> _]]; [done|lia].
      * intros [Hx Hc]. left. apply Hiff. split; [done|]. intros c Hc1 Hc2. apply (Hc c Hc1). apply connected_snoc. by left.
  - pose proof (handed_lt _ _ _ _ Ha) as Hlt. split; [done|]. rewrite connected_snoc. split.
    + intros [Hc|[? _]]; [apply connected_lt in Hc; lia|lia].
    + intros [Hx Hc]. destruct He as [He|He]; [done|]. destruct (He a h Ha) as (c & Hc2 & Hc1). exfalso. apply (Hc c).
      * split; [done|by apply connected_lt].
      * apply connected_snoc. by left.
  - exfalso. by eapply He.
Qed.
(** A settlement that connects *)
Lemma right_reconnect l i r : reconnects_right l ->
  (forall a h c, handed_at l a i h -> (a < c)%nat -> ~ connected_at l c) ->
  reconnects_right ((l ++ [Settled i (Some Disconnected)]) ++ [Connected r]).
Proof.
  intros Hl Hi j h a b x Ha Hb. apply snoc_lookup in Ha as [Ha|[_ ?]]; [|done]. apply snoc_lookup in Hb as [Hb|[_ ?]]; [|done].
  apply snoc_lookup in Ha as [Ha|[_ ?]]; [|done]. pose proof (handed_lt _ _ _ _ Ha) as Hal.
  apply snoc_lookup in Hb as [Hb|[-> [= -> ->]]].
  - assert (Hb' : (b < length l)%nat) by by eapply lookup_lt_Some.
    destruct (Hl j h a b x Ha Hb) as [Hab Hiff]. split; [done|].
    assert (Hsame : forall c, (c <= length l)%nat ->
      connected_at ((l ++ [Settled i (Some Disconnected)]) ++ [Connected r]) c <-> connected_at l c).
    { intros c Hc. rewrite !connected_snoc, length_app. cbn [length]. split.
      - intros [[?|[_ [? ?]]]|[? _]]; [done|done|lia].
      - auto. }
    rewrite Hsame, Hiff by lia. split; (intros [Hx Hc]; split; [done|]; intros c Hcb Hcc; apply (Hc c Hcb), Hsame; [lia|done]).
  - split; [done|]. rewrite !connected_snoc, length_app. cbn [length]. split.
    + intros _. split; [done|]. intros c Hc Hcc. rewrite !connected_snoc in Hcc.
      destruct Hcc as [[Hcc|[-> _]]|[-> _]]; [by apply (Hi a h c Ha (proj1 Hc))|lia|rewrite length_app in Hc; cbn in Hc; lia].
    + intros _. right. split; [lia|]. by exists r.
Qed.

(** ** The invariant is kept *)

Section invariant.
Context (connect : nat -> Hook + ErrorKind).

Lemma re_inv_new : Inv new.
Proof. constructor; cbn; try done; try lia; by intros ? ? ? ? ?. Qed.

(** Changes that leave the log alone *)
Lemma inv_fresh w : Inv w -> Inv (set_next_id (next_id w + 1) w).
Proof.
  intros [Hg Hh Hs Hw Hr Hn Hc Hp Hd Ht]. constructor; cbn; try done; try lia.
  - intros a i h E. specialize (Hh a i h E). lia.
  - intros b i x E. destruct (Hs b i x E). split; [lia|done].
  - intros i g E. specialize (Hw i g E). lia.
  - intros i h E. destruct (Hr i h E) as (? & ? & ? & ?). split; [lia|done].
Qed.
Lemma inv_drop id w : Inv w -> Inv (set_wrapped (delete id (wrapped w)) (set_requests (delete id (requests w)) w)).
Proof.
  intros [Hg Hh Hs Hw Hr Hn Hc Hp Hd Ht]. constructor; cbn; try done.
  - intros b i x E. destruct (Hs b i x E). split; [done|]. apply lookup_delete_None. by right.
  - intros i g [_ E]%lookup_delete_Some. by eapply Hw.
  - intros i h [_ E]%lookup_delete_Some. destruct (Hr i h E) as (? & ? & ? & ?). split; [done|]. split; [|done].
    apply lookup_delete_None. by right.
  - intros i g a h [_ E]%lookup_delete_Some. by eapply Hp.
  - intros i h [_ E]%lookup_delete_Some. by eapply Ht.
Qed.
Lemma inv_unrequest id w : Inv w -> Inv (set_requests (delete id (requests w)) w).
Proof.
  intros [Hg Hh Hs Hw Hr Hn Hc Hp Hd Ht]. constructor; cbn; try done.
  - intros i h [_ E]%lookup_delete_Some. by eapply Hr.
  - intros i h [_ E]%lookup_delete_Some. by eapply Ht.
Qed.
Lemma inv_new_request id h w : Inv w -> current (inner w) = Some h -> 0 <= id < next_id w -> wrapped w !! id = None ->
  (forall a h, ~ handed_at (log w) a id h) -> (forall b x, log w !! b <> Some (Settled id x)) ->
  Inv (set_requests (<[id := h]> (requests w)) w).
Proof.
  intros [Hg Hh Hs Hw Hr Hn Hc Hp Hd Ht] Hcur Hid Hwr Hnh Hns. constructor; cbn; try done.
  - intros i h' [[<- _]|[_ E]]%lookup_insert_Some; [done|]. by apply (Hr i h').
  - intros _ _ _. by rewrite Hcur.
Qed.

(** [set_target], and a [get_current] that connects *)
Lemma inv_set_target h w : Inv w -> Inv (add_log (TargetSet h) (set_inner (set_current (Some h) (inner w)) w)).
Proof.
  intros [Hg Hh Hs Hw Hr Hn Hc Hp Hd Ht]. constructor; cbn; try done.
  - intros a i h' [E|[_ ?]]%snoc_lookup; [by eapply Hh|done].
  - intros b i x [E|[_ ?]]%snoc_lookup; [by eapply Hs|done].
  - intros i h' E. destruct (Hr i h' E) as (? & ? & H1 & H2). repeat split; try done; try lia.
    + intros a h'' [?|[_ ?]]%snoc_lookup; [by eapply H1|done].
    + intros b x [?|[_ ?]]%snoc_lookup; [by eapply H2|done].
  - intros i g a h' E [Ha|[_ ?]]%snoc_lookup; [|done]. destruct (Hp i g a h' E Ha) as [Hle Hiff]. split; [done|]. rewrite Hiff.
    split; intros (c & Hac & Hcc); exists c; (split; [done|]); apply connected_snoc || apply connected_snoc in Hcc; [by left|].
    by destruct Hcc as [?|[_ [? ?]]].
  - by apply right_snoc.
Qed.
Lemma inv_first_connect w n r h : Inv w -> current (inner w) = None ->
  Inv (set_inner (set_current (Some h) (inner w)) (add_log (Connected r) (set_connects n w))).
Proof.
  intros [Hg Hh Hs Hw Hr Hn Hc Hp Hd Ht] Hnone. pose proof (Hc Hnone) as Hno. constructor; cbn; try done.
  - intros a i h' [E|[_ ?]]%snoc_lookup; [by eapply Hh|done].
  - intros b i x [E|[_ ?]]%snoc_lookup; [by eapply Hs|done].
  - intros i h' E. destruct (Hr i h' E) as (? & ? & H1 & H2). repeat split; try done; try lia.
    + intros a h'' [?|[_ ?]]%snoc_lookup; [by eapply H1|done].
    + intros b x [?|[_ ?]]%snoc_lookup; [by eapply H2|done].
  - intros i g a h' E [Ha|[_ ?]]%snoc_lookup; [|done]. by apply Hno in Ha.
  - by apply right_snoc.
Qed.

Lemma get_current_inv w : Inv w ->
  exists h w', get_current connect w = (Ok h, w') /\ Inv w' /\ current (inner w') = Some h /\
    generation (inner w') = generation (inner w) /\ requests w' = requests w /\ wrapped w' = wrapped w /\
    next_id w' = next_id w /\ (w' = w \/ exists r, log w' = log w ++ [Connected r] /\ hook_of r = h).
Proof.
  intros Hw. unfold get_current, run_connect, modify, get_state, bind, ret; cbn. destruct (current (inner w)) as [h|] eqn:E.
  - exists h, w. do 2 (split; [done|]). repeat split; auto.
  - eexists _, _. split; [reflexivity|]. split; [by apply inv_first_connect|]. cbn. repeat split; auto. right. by eexists.
Qed.

(** A call is made: handed to its target and wrapped. *)
Lemma inv_hand id h w : Inv w -> 0 <= id < next_id w -> wrapped w !! id = None -> requests w !! id = None ->
  (forall a h, ~ handed_at (log w) a id h) -> (forall b x, log w !! b <> Some (Settled id x)) -> current (inner w) <> None ->
  Inv (set_wrapped (<[id := generation (inner w)]> (wrapped w)) (add_log (Handed id h) w)).
Proof.
  intros [Hg Hh Hs Hw Hr Hn Hc Hp Hd Ht] Hid Hwr Hreq Hnh Hns Hcur. constructor; cbn; try done.
  - intros a i h' [E|[_ [= -> ->]]]%snoc_lookup; [by eapply Hh|done].
  - intros b i x [E|[_ ?]]%snoc_lookup; [|done]. destruct (Hs b i x E) as [? E']. split; [done|].
    rewrite lookup_insert_ne; [done|]. intros ->. by eapply Hns.
  - intros i g [[<- _]|[_ E]]%lookup_insert_Some; [done|]. by eapply Hw.
  - intros i h' E. destruct (Hr i h' E) as (? & ? & H1 & H2). assert (id <> i) by congruence. repeat split; try lia.
    + by rewrite lookup_insert_ne.
    + intros a h'' [?|[_ [= -> ->]]]%snoc_lookup; [by eapply H1|done].
    + intros b x [?|[_ ?]]%snoc_lookup; [by eapply H2|done].
  - intros i g a h' Hi Ha. assert (Hcon : forall c, connected_at (log w ++ [Handed id h]) c <-> connected_at (log w) c).
    { intros c. rewrite connected_snoc. split; [|by left]. by intros [?|[_ [? ?]]]. }
    setoid_rewrite Hcon. apply snoc_lookup in Ha as [Ha|[-> [= -> ->]]].
    + apply lookup_insert_Some in Hi as [[<- _]|[_ Hi]]; [by apply Hnh in Ha|by eapply Hp].
    + rewrite lookup_insert_eq in Hi. injection Hi as <-. split; [lia|]. split; [lia|].
      intros (c & Hac & Hcc). apply connected_lt in Hcc. lia.
  - by apply right_snoc.
Qed.

(** A call is settled. *)
Lemma inv_settled id x g w : Inv w -> wrapped w !! id = Some g ->
  (x <> Some Disconnected \/ g <> generation (inner w)) ->
  Inv (add_log (Settled id x) (set_wrapped (delete id (wrapped w)) w)).
Proof.
  intros Hinv Hid Hx. pose proof Hinv as [Hg Hh Hs Hw Hr Hn Hc Hp Hd Ht]. constructor; cbn; try done.
  - intros a i h' [E|[_ ?]]%snoc_lookup; [by eapply Hh|done].
  - intros b i y [E|[_ [= -> ->]]]%snoc_lookup; [|split; [by eapply Hw|apply lookup_delete_eq]].
    destruct (Hs b i y E). split; [done|]. apply lookup_delete_None. by right.
  - intros i g' [_ E]%lookup_delete_Some. by eapply Hw.
  - intros i h' E. destruct (Hr i h' E) as (? & H0 & H1 & H2). assert (id <> i) by congruence. repeat split; try lia.
    + apply lookup_delete_None. by right.
    + intros a h'' [?|[_ ?]]%snoc_lookup; [by eapply H1|done].
    + intros b y [?|[_ [= -> ->]]]%snoc_lookup; [by eapply H2|done].
  - intros Hnone a i h [E|[_ ?]]%snoc_lookup; [by eapply Hc|done].
  - intros i g' a h [_ E]%lookup_delete_Some [Ha|[_ ?]]%snoc_lookup; [|done]. destruct (Hp i g' a h E Ha) as [Hle Hiff].
    split; [done|]. rewrite Hiff. split; intros (c & Hac & Hcc); exists c; (split; [done|]).
    + apply connected_snoc. by left.
    + by apply connected_snoc in Hcc as [?|[_ [? ?]]].
  - apply right_snoc; [done|]. destruct Hx as [Hx|Hne]; [by left|].
    right. intros a h Ha. destruct (Hp id g a h Hid Ha) as [Hle Hiff]. apply Hiff. lia.
Qed.
Lemma inv_reconnect id n r h w : Inv w -> wrapped w !! id = Some (generation (inner w)) ->
  Inv (set_inner {| current := Some h; generation := generation (inner w) + 1 |} (add_log (Connected r) (set_connects n
    (add_log (Settled id (Some Disconnected)) (set_wrapped (delete id (wrapped w)) w))))).
Proof.
  intros Hinv Hid. pose proof Hinv as [Hg Hh Hs Hw Hr Hn Hc Hp Hd Ht].
  assert (Hha : forall a i h, handed_at ((log w ++ [Settled id (Some Disconnected)]) ++ [Connected r]) a i h -> handed_at (log w) a i h).
  { intros a i h'. by intros [[?|[_ ?]]%snoc_lookup|[_ ?]]%snoc_lookup. }
  constructor; cbn; try done.
  - lia.
  - intros a i h' E%Hha. by eapply Hh.
  - intros b i y [[E|[_ [= -> ->]]]%snoc_lookup|[_ ?]]%snoc_lookup; [|split; [by eapply Hw|apply lookup_delete_eq]|done].
    destruct (Hs b i y E). split; [done|]. apply lookup_delete_None. by right.
  - intros i g' [_ E]%lookup_delete_Some. by eapply Hw.
  - intros i h' E. destruct (Hr i h' E) as (? & H0 & H1 & H2). assert (id <> i) by congruence. repeat split; try lia.
    + apply lookup_delete_None. by right.
    + intros a h'' Ha%Hha. by eapply H1.
    + intros b y [[?|[_ [= -> ->]]]%snoc_lookup|[_ ?]]%snoc_lookup; [by eapply H2|done|done].
  - intros i g' a h' [_ E]%lookup_delete_Some Ha%Hha. destruct (Hp i g' a h' E Ha) as [Hle Hiff]. split; [lia|].
    split; [intros _|lia]. exists (length (log w ++ [Settled id (Some Disconnected)])). split.
    + apply handed_lt in Ha. rewrite length_app. lia.
    + apply connected_snoc. right. split; [done|]. by exists r.
  - apply right_reconnect; [done|]. intros a h' c Ha Hac Hcc. destruct (Hp id _ a h' Hid Ha) as [_ Hiff].
    assert (generation (inner w) < generation (inner w)); [|lia]. apply Hiff. by exists c.
Qed.

(** What is still to be sent or settled *)
Definition applies (w : World) (l : Label) : Prop :=
  match l with
  | DoSend id => is_Some (requests w !! id)
  | DoSettle id _ => is_Some (wrapped w !! id)
  | _ => True
  end.
Lemma fresh_unused w i : Inv w -> next_id w <= i -> wrapped w !! i = None /\ requests w !! i = None /\
  (forall a h, ~ handed_at (log w) a i h) /\ forall b x, log w !! b <> Some (Settled i x).
Proof.
  intros [Hg Hh Hs Hw Hr Hn Hc Hp Hd Ht] Hi. repeat split.
  - destruct (_ !! i) eqn:E; [|done]. specialize (Hw _ _ E). lia.
  - destruct (_ !! i) eqn:E; [|done]. destruct (Hr _ _ E). lia.
  - intros a h E. specialize (Hh _ _ _ E). lia.
  - intros b x E. destruct (Hs _ _ _ E). lia.
Qed.

(** [get_current] for a call that has just got its number *)
Lemma fresh_current w : Inv w -> exists h w1, get_current connect (set_next_id (next_id w + 1) w) = (Ok h, w1) /\ Inv w1 /\
  current (inner w1) = Some h /\ generation (inner w1) = generation (inner w) /\ 0 <= next_id w < next_id w1 /\
  wrapped w1 !! next_id w = None /\ requests w1 !! next_id w = None /\
  (forall a h, ~ handed_at (log w1) a (next_id w) h) /\ forall b x, log w1 !! b <> Some (Settled (next_id w) x).
Proof.
  intros Hw. destruct (fresh_unused w (next_id w) Hw ltac:(lia)) as (U1 & U2 & U3 & U4).
  destruct (get_current_inv _ (inv_fresh w Hw)) as (h & w1 & E & H1 & Hc & Hgen & Hr & Hwr & Hn & Hl).
  exists h, w1. rewrite Hr, Hwr, Hn. cbn. pose proof (inv_next_id _ Hw).
  do 4 (split; [done|]). split; [lia|]. do 2 (split; [done|]). split.
  - intros a h' Ha. destruct Hl as [->|(r & El & _)]; [by eapply U3|]. unfold handed_at in Ha. rewrite El in Ha.
    apply snoc_lookup in Ha as [Ha|[_ ?]]; [by eapply U3|done].
  - intros b x Hb. destruct Hl as [->|(r & El & _)]; [by eapply U4|]. rewrite El in Hb.
    apply snoc_lookup in Hb as [Hb|[_ ?]]; [by eapply U4|done].
Qed.
(** Every operation succeeds and keeps the invariant. *)
Lemma perform_inv l w : Inv w -> applies w l -> generation (inner w) + 1 < 2 ^ 64 ->
  exists w', perform connect l w = (Ok tt, w') /\ Inv w' /\
    generation (inner w) <= generation (inner w') <= generation (inner w) + 1.
Proof.
  intros Hw Ha Hg. destruct l as [| |id|id x|id|h]; cbn [perform applies] in *.
  - destruct (fresh_current w Hw) as (h & w1 & E & H1 & Hc & Hgen & Hid & U1 & U2 & U3 & U4).
    eexists. unfold call. rewrite !ST_bind_assoc, (ST_bind_ok fresh _ _ _ _ eq_refl), !ST_bind_assoc, (ST_bind_ok _ _ _ _ _ E).
    split; [reflexivity|]. split; [|cbn; lia]. apply (inv_hand (next_id w) h w1); try done. by rewrite Hc.
  - destruct (fresh_current w Hw) as (h & w1 & E & H1 & Hc & Hgen & Hid & U1 & U2 & U3 & U4).
    eexists. unfold new_call. rewrite !ST_bind_assoc, (ST_bind_ok fresh _ _ _ _ eq_refl), !ST_bind_assoc, (ST_bind_ok _ _ _ _ _ E).
    split; [reflexivity|]. split; [|cbn; lia]. by apply (inv_new_request (next_id w) h w1).
  - destruct Ha as [h Eh]. unfold send. rewrite (ST_bind_ok get_state _ _ _ _ eq_refl), Eh. eexists. split; [reflexivity|].
    split; [|cbn; lia]. destruct (inv_request_ids _ Hw _ _ Eh) as (Hid & U1 & U3 & U4).
    apply (inv_hand id h (set_requests (delete id (requests w)) w)); try done; [by apply inv_unrequest|cbn; apply lookup_delete_eq|].
    cbn. by eapply inv_request_target.
  - destruct Ha as [g Eg]. unfold settle. rewrite (ST_bind_ok get_state _ _ _ _ eq_refl), Eg. 
    assert (Hplain : x <> Some Disconnected \/ g <> generation (inner w) ->
      Inv (add_log (Settled id x) (set_wrapped (delete id (wrapped w)) w))) by (by apply inv_settled).
    destruct x as [e|]; [|eexists; split; [reflexivity|]; split; [by apply Hplain; left|cbn; lia]].
    destruct e; try (eexists; split; [reflexivity|]; split; [by apply Hplain; left|cbn; lia]).
    rewrite (lift_bind_ok _ _ _ g eq_refl), (ST_bind_ok (modify _) _ _ _ _ eq_refl).
    destruct (Z.eqb_spec g (generation (inner w))) as [->|Hne].
    + rewrite (lift_bind_ok _ _ _ (generation (inner w) + 1)) by (apply uadd_ok; pose proof (inv_generation _ Hw); lia).
      eexists. split; [reflexivity|]. split; [|cbn; lia].
      exact (inv_reconnect id (S (connects w)) (connect (connects w)) _ w Hw Eg).
    + eexists. split; [reflexivity|]. split; [by apply Hplain; right|cbn; lia].
  - eexists. split; [reflexivity|]. split; [by apply inv_drop|cbn; lia].
  - eexists. split; [reflexivity|]. split; [by apply inv_set_target|cbn; lia].
Qed.

Lemma perform_applies l w w' : perform connect l w = (Ok tt, w') -> applies w l.
Proof.
  destruct l as [| |id|id x|id|h]; try done; cbn [perform applies]; intros E.
  - unfold send in E. rewrite (ST_bind_ok get_state _ _ _ _ eq_refl) in E. by destruct (requests w !! id).
  - unfold settle in E. rewrite (ST_bind_ok get_state _ _ _ _ eq_refl) in E. by destruct (wrapped w !! id).
Qed.
Lemma perform_keeps l w w' : Inv w -> generation (inner w) + 1 < 2 ^ 64 -> perform connect l w = (Ok tt, w') ->
  Inv w' /\ generation (inner w') <= generation (inner w) + 1.
Proof.
  intros Hw Hg E. destruct (perform_inv l w Hw (perform_applies _ _ _ E) Hg) as (w1 & E1 & H1 & Hg1).
  rewrite E in E1. injection E1 as ->. split; [done|lia].
Qed.
Lemma run_keeps (P : World -> Prop) ls : (forall l w w', l ∈ ls -> Inv w -> P w -> perform connect l w = (Ok tt, w') -> Inv w' -> P w') ->
  forall w w', Inv w -> P w -> generation (inner w) + Z.of_nat (length ls) < 2 ^ 64 -> run connect ls w = (Ok tt, w') ->
  Inv w' /\ P w'.
Proof.
  induction ls as [|l ls IH]; intros HP w w' Hw Hp Hg E; cbn [run] in E.
  { injection E as <-. done. }
  apply ST_bind_inv in E as ([] & w1 & E1 & E). cbn [length] in Hg.
  destruct (perform_keeps l w w1 Hw ltac:(lia) E1) as [H1 Hg1].
  apply (IH (fun l w w' Hl => HP l w w' (list_elem_of_further _ _ _ Hl)) w1 w' H1); [|lia|done].
  apply (HP l w w1); try done. apply list_elem_of_here.
Qed.

Definition started (w : World) : Prop := w = lazy_auto_reconnect \/ auto_reconnect connect = Ok w.
Lemma started_inv w : started w -> Inv w /\ generation (inner w) = 0.
Proof.
  intros [->|E]; [split; [apply re_inv_new|done]|]. unfold auto_reconnect in E. cbn in E.
  destruct (connect 0) as [h|e] eqn:Ec; [|done]. injection E as <-. split; [|done].
  apply (inv_set_target h (add_log (Connected (inl h)) (set_connects 1 new))).
  assert (H1 := inv_first_connect new 1 (inl h) h re_inv_new eq_refl).
  destruct H1 as [Hg Hh Hs Hw Hr Hn Hc Hp Hd Ht]. constructor; cbn; try done.
  intros _ a i h' [E|[_ ?]]%(snoc_lookup []); [by destruct a|done].
Qed.

(** ** Targets *)

(** The newest connection of a log *)
Definition latest (l : list Event) (h : Hook) : Prop :=
  exists c r, l !! c = Some (Connected r) /\ hook_of r = h /\ forall c', (c < c')%nat -> ~ connected_at l c'.
(** The histories in which no target is set and requests are sent as soon as
    they are made *)
Definition plain (l : Label) : Prop := match l with DoSetTarget _ | DoNewCall => False | _ => True end.
Definition Targets (w : World) : Prop :=
  (forall h, current (inner w) = Some h -> latest (log w) h) /\ requests w = ∅ /\
  forall a i h, handed_at (log w) a i h -> latest (take a (log w)) h.

Lemma latest_snoc l e h : latest l h -> (forall r, e <> Connected r) -> latest (l ++ [e]) h.
Proof.
  intros (c & r & Hc & Hh & Hno) He. exists c, r. split; [apply snoc_lookup; by left|]. split; [done|].
  intros c' Hcc [?|[_ [r' ->]]]%connected_snoc; [by eapply Hno|by eapply He].
Qed.
Lemma latest_connected l r : latest (l ++ [Connected r]) (hook_of r).
Proof.
  exists (length l), r. split; [apply snoc_lookup; by right|]. split; [done|].
  intros c' Hcc [Hc|[? _]]%connected_snoc; [apply connected_lt in Hc; lia|lia].
Qed.
Lemma targets_snoc l e : (forall a i h, handed_at l a i h -> latest (take a l) h) ->
  (forall i h, e = Handed i h -> latest l h) -> forall a i h, handed_at (l ++ [e]) a i h -> latest (take a (l ++ [e])) h.
Proof.
  intros Hl He a i h [Ha|[-> Heq]]%snoc_lookup.
  - rewrite take_app_le by (apply handed_lt in Ha; lia). by eapply Hl.
  - rewrite take_app_length. by eapply He.
Qed.
Lemma plain_targets l w w' : plain l -> Targets w -> perform connect l w = (Ok tt, w') -> Targets w'.
Proof.
  intros Hl (Hc & Hr & Hh) E. destruct l as [| |id|id x|id|h]; try done; cbn [perform] in E.
  - unfold call, get_current, run_connect in E. cbn in E. destruct (current (inner w)) as [h|] eqn:Ec; cbn in E; injection E as <-.
    + split; [|split; [done|]]; cbn.
      * intros h' Eh. apply latest_snoc; [|done]. apply Hc. congruence.
      * apply targets_snoc; [done|]. intros i h' [= _ <-]. by apply Hc.
    + split; [|split; [done|]]; cbn.
      * intros h' [= <-]. apply latest_snoc; [|done]. apply latest_connected.
      * apply targets_snoc; [by apply targets_snoc|]. intros i h' [= _ <-]. apply latest_connected.
  - unfold send in E. rewrite (ST_bind_ok get_state _ _ _ _ eq_refl), Hr, lookup_empty in E. done.
  - unfold settle in E. rewrite (ST_bind_ok get_state _ _ _ _ eq_refl) in E. destruct (wrapped w !! id) as [g|]; [|done].
    assert (Hs : Targets (add_log (Settled id x) (set_wrapped (delete id (wrapped w)) w))).
    { split; [|split; [done|]]; cbn; [|by apply targets_snoc]. intros h Eh. apply latest_snoc; [by apply Hc|done]. }
    destruct x as [[]|]; try (injection E as <-; exact Hs).
    rewrite (lift_bind_ok _ _ _ g eq_refl), (ST_bind_ok (modify _) _ _ _ _ eq_refl) in E.
    destruct (g =? generation (inner w)); [|injection E as <-; exact Hs].
    apply ST_bind_inv in E as (g1 & w1 & [_ ->]%lift_inv & E). injection E as <-. destruct Hs as (Hs1 & _ & Hs3).
    split; [|split; [done|]]; cbn.
    + intros h [= <-]. apply latest_connected.
    + by apply targets_snoc.
  - injection E as <-. split; [done|]. split; [|done]. cbn. by rewrite Hr, delete_empty.
Qed.
Lemma started_targets w : started w -> Targets w.
Proof.
  intros [->|E]; [split; [done|]; split; [done|]; by intros [] ? ?|]. unfold auto_reconnect in E. cbn in E.
  destruct (connect 0) as [h|e]; [|done]. injection E as <-. split; [|split; [done|]].
  - intros h' [= <-]. apply (latest_snoc [Connected (inl h)]); [|done]. apply (latest_connected [] (inl h)).
  - by intros [|[|a]] i h'.
Qed.
End invariant.

(** ** Properties *)

(** C31: A reconnecting client connects exactly when it has to.  In every
    history of calls, requests, results and targets set, in which fewer than
    [2^64] things happen: a call that is done makes the client connect again
    when it failed with [Disconnected] and the client has not connected since
    the call was made, and in no other case; so that of the calls that fail
    together only one connects.  When no target is set and requests are sent
    as they are made, every call goes to the newest connection, and a call
    that makes the client connect had gone to the connection that is
    replaced. *)
Theorem reconnects_when_needed (connect : nat -> Hook + ErrorKind) (ls : list Label) (w0 w : World) :
  started connect w0 -> Z.of_nat (length ls) < 2 ^ 64 -> run connect ls w0 = (Ok tt, w) ->
  (forall i h a b x, handed_at (log w) a i h -> log w !! b = Some (Settled i x) ->
     (a < b)%nat /\
     (connected_at (log w) (S b) <-> x = Some Disconnected /\ forall c, (a < c < b)%nat -> ~ connected_at (log w) c)) /\
  (Forall plain ls -> forall i h a, handed_at (log w) a i h ->
     latest (take a (log w)) h /\
     forall b x, log w !! b = Some (Settled i x) -> connected_at (log w) (S b) -> latest (take b (log w)) h).
Proof.
  intros Hs Hn E. destruct (started_inv connect w0 Hs) as [H0 Hg].
  destruct (run_keeps connect (fun _ => True) ls ltac:(done) w0 w H0 Logic.I ltac:(lia) E) as [Hw _].
  split; [apply Hw|]. intros Hp i h a Ha.
  assert (Ht : Targets w).
  { destruct (run_keeps connect Targets ls) with (w := w0) (w' := w) as [_ ?]; try done; [|by apply started_targets with connect|lia].
    intros l v v' Hl _ Hv Ev _. rewrite Forall_forall in Hp. by apply (plain_targets connect l v v' (Hp l Hl)). }
  pose proof (proj2 (proj2 Ht) a i h Ha) as Hla. split; [done|]. intros b x Hb Hc.
  destruct (inv_done w Hw i h a b x Ha Hb) as [Hab [Hiff _]]. destruct (Hiff Hc) as [_ Hno].
  assert (Hbl : (b < length (log w))%nat) by by eapply lookup_lt_Some.
  destruct Hla as (c & r & Hcr & Hr & Hmax). apply lookup_take_Some in Hcr as [Hcr Hca].
  exists c, r. rewrite lookup_take_lt by lia. split; [done|]. split; [done|].
  intros c' Hcc [r' [Hc' Hlt]%lookup_take_Some]. destruct (decide (c' < a)%nat).
  - apply (Hmax c' Hcc). exists r'. by rewrite lookup_take_lt.
  - apply (Hno c'); [|by exists r']. split; [|done]. destruct (decide (c' = a)) as [->|]; [|lia].
    unfold handed_at in Ha. congruence.
Qed.

(** Two calls fail with their connection: the first that is done connects. *)
Definition two_failures : list Label := [DoCall; DoCall; DoSettle 1 (Some Disconnected); DoSettle 0 (Some Disconnected); DoCall].
Definition after_failures : World := snd (run numbered_targets two_failures lazy_auto_reconnect).
Lemma failures_run : run numbered_targets two_failures lazy_auto_reconnect = (Ok tt, after_failures).
Proof. vm_compute. reflexivity. Qed.
Lemma failures_log : log after_failures =
  [Connected (inl (RemoteClient 1)); Handed 0 (RemoteClient 1); Handed 1 (RemoteClient 1); Settled 1 (Some Disconnected);
   Connected (inl (RemoteClient 2)); Settled 0 (Some Disconnected); Handed 2 (RemoteClient 2)].
Proof. vm_compute. reflexivity. Qed.
Lemma reconnects_when_needed_witness : latest (take 3 (log after_failures)) (RemoteClient 1) /\ ~ connected_at (log after_failures) 6.
Proof.
  assert (Hn : Z.of_nat (length two_failures) < 2 ^ 64) by (cbn; lia).
  destruct (reconnects_when_needed numbered_targets two_failures lazy_auto_reconnect after_failures (or_introl eq_refl) Hn
    failures_run) as [Hiff Ht].
  rewrite failures_log in *. split.
  - apply (proj2 (Ht ltac:(repeat constructor) 1 (RemoteClient 1) 2%nat eq_refl) 3%nat (Some Disconnected) eq_refl).
    by eexists.
  - intros Hc. destruct (Hiff 0 (RemoteClient 1) 1%nat 5%nat (Some Disconnected) eq_refl eq_refl) as [_ [Hd _]].
    apply (proj2 (Hd Hc) 4%nat); [lia|by eexists].
Defined.
End Reconnect.
