(* ===== verification/Local.v ===== *)
(** * Capabilities within a vat (capnp-rpc/src/local.rs)

    [local::Request] makes a call on any capability of the vat, with a
    pipeline that resolves when the results are there; [local::Client] is the
    capability of a server of this vat, which receives calls.  Queued
    capabilities and pipelines are those of [Queued], over its heap.

    The futures are entries of finite maps.  What the code of a server does is
    up to its environment: it fills in results, may set the pipeline early,
    drops the [Results] hook, and its promise gives a result, in any order. *)

From S2P Require Import Prelude RpcTypes SenderQueue Queued.
From stdpp Require Import gmap.
#[local] Open Scope Z_scope.
#[local] Open Scope rust_scope.

Module Local.
Import Queued.

(** [local::Results]: the message the server writes, while the hook is there *)
Record Results (Content : Type) := {
  message : Content;
  cap_table : list (option Hook);
  pipeline_sender : option PipelineInnerSender
}.
Arguments message {Content} _.
Arguments cap_table {Content} _.
Arguments pipeline_sender {Content} _.
Arguments Build_Results {Content}.

(** Where a call is: on its way in queues; in the future that
    [local::Client::call] returns, not polled yet; dispatched (whether
    streaming), its promise waiting; done; dropped. *)
Inductive Stage :=
| OnItsWay
| Waiting (server : Z)
| Running (server : option Z) (is_streaming : bool)
| Finished (result : option ErrorKind)
| Dropped.

(** [results_done]: what the [Results] hook sent when it was dropped. *)
Record CallState (Content : Type) := {
  stage : Stage;
  results : option (Results Content);
  results_done : option (Content * list (option Hook))
}.
Arguments stage {Content} _.
Arguments results {Content} _.
Arguments results_done {Content} _.
Arguments Build_CallState {Content}.

(** The future of [Request::send]: the sender in its closure, and what it gave *)
Record Pending (Content : Type) := {
  sender : option PipelineInnerSender;
  response : option ((Content * list (option Hook)) + ErrorKind)
}.
Arguments sender {Content} _.
Arguments response {Content} _.
Arguments Build_Pending {Content}.

(** [Arrived i a]: [local::Client::call] on server [a]; [Refused i e]: a call
    fails without being dispatched; [Dispatched i]; [Ended i s r]: the promise
    of a dispatched call, streaming or not, on a local server or not. *)
Inductive LocalEvent :=
| Arrived (call server : Z)
| Refused (call : Z) (e : ErrorKind)
| Dispatched (call : Z)
| Ended (call : Z) (streaming_on : option Z) (result : option ErrorKind).

(** [broken_error]: the error of a streaming call, by server.  [seen]: how
    many events of the heap have been looked at. *)
Record World (Content : Type) := {
  heap : Heap Content;
  broken_error : gmap Z ErrorKind;
  calls : gmap Z (CallState Content);
  pendings : gmap Z (Pending Content);
  seen : nat;
  next_id : Z;
  log : list LocalEvent
}.
Arguments heap {Content} _.
Arguments broken_error {Content} _.
Arguments calls {Content} _.
Arguments pendings {Content} _.
Arguments seen {Content} _.
Arguments next_id {Content} _.
Arguments log {Content} _.
Arguments Build_World {Content}.

Section local.
Context {Content : Type} `{Queued.Results Content} (empty : Content).
Abbreviation M := (ST (World Content)).

Definition set_heap h (w : World Content) := {| heap := h; broken_error := broken_error w; calls := calls w;
  pendings := pendings w; seen := seen w; next_id := next_id w; log := log w |}.
Definition set_broken b (w : World Content) := {| heap := heap w; broken_error := b; calls := calls w;
  pendings := pendings w; seen := seen w; next_id := next_id w; log := log w |}.
Definition set_calls c (w : World Content) := {| heap := heap w; broken_error := broken_error w; calls := c;
  pendings := pendings w; seen := seen w; next_id := next_id w; log := log w |}.
Definition set_pendings p (w : World Content) := {| heap := heap w; broken_error := broken_error w; calls := calls w;
  pendings := p; seen := seen w; next_id := next_id w; log := log w |}.
Definition set_seen n (w : World Content) := {| heap := heap w; broken_error := broken_error w; calls := calls w;
  pendings := pendings w; seen := n; next_id := next_id w; log := log w |}.
Definition add_log e (w : World Content) := {| heap := heap w; broken_error := broken_error w; calls := calls w;
  pendings := pendings w; seen := seen w; next_id := next_id w; log := log w ++ [e] |}.

Definition modify (f : World Content -> World Content) : M unit := fun w => (Ok tt, f w).
Definition on_heap {A} (c : ST (Heap Content) A) : M A := fun w =>
  let (r, h) := c (heap w) in (r, set_heap h w).
Definition get_call (id : Z) : M (CallState Content) := fun w => (unwrap (calls w !! id), w).
Definition put_call (id : Z) (c : CallState Content) : M unit := modify (fun w => set_calls (<[id := c]> (calls w)) w).

(** [Results::drop]: the message goes to the promise of [Request::send]. *)
Definition drop_results (c : CallState Content) : CallState Content :=
  match results c with
  | Some r => {| stage := stage c; results := None; results_done := Some (message r, cap_table r) |}
  | None => c
  end.
Definition set_stage st (c : CallState Content) := {| stage := st; results := results c; results_done := results_done c |}.

(** [ClientHook::call] of a broken capability, and of a local server that is
    broken: the arguments and the results are dropped. *)
Definition refuse (id : Z) (c : CallState Content) (e : ErrorKind) : M unit :=
  put_call id (drop_results (set_stage (Finished (Some e)) c)) ;; modify (add_log (Refused id e)).
(** [Client::call] *)
Definition Client_call (id : Z) (c : CallState Content) (server : Z) : M unit :=
  modify (add_log (Arrived id server)) ;;
  w ← get_state;
  match broken_error w !! server with
  | Some e => refuse id c e
  | None => put_call id (set_stage (Waiting server) c)
  end.

(** What a call handed to a capability comes to.  A call is on its way once:
    its [Results] hook is moved.  Calls that were not made by [Request::send]
    are not followed. *)
Definition arrive (ev : Queued.Event Content) : M unit :=
  match ev with
  | Handed t qc =>
      w ← get_state;
      match calls w !! call_id qc with
      | Some c =>
          match stage c with
          | OnItsWay =>
              match t with
              | LocalServer a => Client_call (call_id qc) c a
              | BrokenClient e => refuse (call_id qc) c e
              | RemoteClient _ | QueuedClient _ => put_call (call_id qc) (set_stage (Running None false) c)
              end
          | _ => ret tt
          end
      | None => ret tt
      end
  | Notified _ _ => ret tt
  end.
Fixpoint arrive_all (evs : list (Queued.Event Content)) : M unit :=
  match evs with [] => ret tt | ev :: evs => arrive ev ;; arrive_all evs end.
Definition deliver : M unit :=
  w ← get_state;
  modify (set_seen (length (events (heap w)))) ;;
  arrive_all (drop (seen w) (events (heap w))).

(** ** Requests *)

Definition fresh : M Z := fun w => (Ok (next_id w), {| heap := heap w; broken_error := broken_error w; calls := calls w;
  pendings := pendings w; seen := seen w; next_id := next_id w + 1; log := log w |}).
(** [Request::new]: the number of the request, and its pipeline *)
Definition Request_new : M (Z * Z) :=
  id ← fresh; p ← on_heap Pipeline_new; ret (id, p).
(** [Request::send] *)
Definition send (id p : Z) (client : Hook) (iface meth : Z) (content : Content) (caps : list (option Hook)) : M unit :=
  let pipeline_sender := {| sender_inner := Some p; resolve_on_drop := true |} in
  put_call id {| stage := OnItsWay;
                 results := Some {| message := empty; cap_table := []; pipeline_sender := Some (weak_clone pipeline_sender) |};
                 results_done := None |} ;;
  modify (fun w => set_pendings (<[id := {| sender := Some pipeline_sender; response := None |}]> (pendings w)) w) ;;
  on_heap (Queued.Client_call client
    {| call_id := id; interface_id := iface; method_id := meth; params := content; param_caps := caps |}) ;;
  deliver.

(** The future of [Request::send] is polled: [try_join] of the call's promise
    and of the results, then the pipeline, then the response. *)
Definition poll (id : Z) : M unit :=
  c ← get_call id;
  w ← get_state;
  p ← lift (unwrap (pendings w !! id));
  match sender p with
  | None => ret tt
  | Some s =>
      match stage c, results_done c with
      | Finished (Some e), _ =>
          modify (fun w => set_pendings (<[id := {| sender := None; response := Some (inr e) |}]> (pendings w)) w) ;;
          on_heap (Sender_drop s) ;; deliver
      | Finished None, Some (content, caps) =>
          modify (fun w => set_pendings (<[id := {| sender := None; response := Some (inl (content, caps)) |}]> (pendings w)) w) ;;
          on_heap (Sender_complete s (ResultsPipe content caps)) ;; deliver
      | _, _ => ret tt
      end
  end.
(** The future is dropped, and with it the call's. *)
Definition abandon (id : Z) : M unit :=
  c ← get_call id;
  w ← get_state;
  p ← lift (unwrap (pendings w !! id));
  modify (fun w => set_pendings (delete id (pendings w)) w) ;;
  match stage c with
  | Finished _ => ret tt
  | _ => put_call id (drop_results (set_stage Dropped c)) ;; on_heap (cancel id)
  end ;;
  match sender p with Some s => on_heap (Sender_drop s) | None => ret tt end ;;
  deliver.

(** ** Servers *)

(** The first poll of the future of [Client::call]: [dispatch_call] *)
Definition dispatch (id : Z) (is_streaming : bool) : M unit :=
  c ← get_call id;
  match stage c with
  | Waiting a => modify (add_log (Dispatched id)) ;; put_call id (set_stage (Running (Some a) is_streaming) c)
  | _ => lift Panic
  end.
(** Its end, when the promise of the server is done *)
Definition finish (id : Z) (result : option ErrorKind) : M unit :=
  c ← get_call id;
  match stage c with
  | Running server is_streaming =>
      modify (add_log (Ended id (if is_streaming : bool then server else None) result)) ;;
      match server, is_streaming, result with
      | Some a, true, Some e => modify (fun w => set_broken (<[a := e]> (broken_error w)) w)
      | _, _, _ => ret tt
      end ;;
      put_call id (set_stage (Finished result) c)
  | _ => lift Panic
  end.

(** What a server that has a [Results] hook does with it: [Results::get],
    [Results::set_pipeline], drop *)
Definition running (c : CallState Content) : bool := match stage c with Running _ _ | Finished _ => true | _ => false end.
Definition with_results (id : Z) (k : CallState Content -> Results Content -> M unit) : M unit :=
  c ← get_call id;
  match results c with
  | Some r => if running c then k c r else lift Panic
  | None => lift Panic
  end.
Definition set_results (r : Results Content) (c : CallState Content) :=
  {| stage := stage c; results := Some r; results_done := results_done c |}.
Definition fill (id : Z) (content : Content) (caps : list (option Hook)) : M unit :=
  with_results id (fun c r =>
    put_call id (set_results {| message := content; cap_table := caps; pipeline_sender := pipeline_sender r |} c)).
Definition set_pipeline (id : Z) : M unit :=
  with_results id (fun c r =>
    match pipeline_sender r with
    | None => fails Failed
    | Some s =>
        put_call id (set_results {| message := message r; cap_table := cap_table r; pipeline_sender := None |} c) ;;
        on_heap (Sender_complete s (ResultsPipe (message r) (cap_table r))) ;;
        deliver
    end).
Definition release (id : Z) : M unit := with_results id (fun c _ => put_call id (drop_results c)).

(** ** Histories *)

Inductive Label :=
| DoSend (client : Hook) (iface meth : Z) (content : Content) (caps : list (option Hook))
| DoPoll (id : Z) | DoAbandon (id : Z)
| DoDispatch (id : Z) (is_streaming : bool) | DoFinish (id : Z) (result : option ErrorKind)
| DoFill (id : Z) (content : Content) (caps : list (option Hook)) | DoSetPipeline (id : Z) | DoRelease (id : Z)
| DoPipelined (p : Z) (ops : list PipelineOp).
Definition perform (l : Label) : M unit :=
  match l with
  | DoSend client iface meth content caps => '(id, p) ← Request_new; send id p client iface meth content caps
  | DoPoll id => poll id
  | DoAbandon id => abandon id
  | DoDispatch id s => dispatch id s
  | DoFinish id r => finish id r
  | DoFill id content caps => fill id content caps
  | DoSetPipeline id => set_pipeline id
  | DoRelease id => release id
  | DoPipelined p ops => on_heap (Pipeline_get_pipelined_cap (QueuedPipe p) ops) ;; ret tt
  end.
Fixpoint run (ls : list Label) : M unit :=
  match ls with [] => ret tt | l :: ls => perform l ;; run ls end.

Definition start : World Content :=
  {| heap := {| clients := ∅; pipes := ∅; next_addr := 0; events := []; removers := [] |};
     broken_error := ∅; calls := ∅; pendings := ∅; seen := 0; next_id := 0; log := [] |}.
End local.

(** ** The log of a history *)

Definition event_call (e : LocalEvent) : Z :=
  match e with Arrived i _ | Refused i _ | Dispatched i | Ended i _ _ => i end.
(** What happened to a call, in order *)
Definition events_of (id : Z) (l : list LocalEvent) : list LocalEvent := filter (fun e => event_call e = id) l.
#[global] Arguments events_of : simpl never.
(** The error of the last streaming call that failed on a server *)
Definition broken_by (l : list LocalEvent) (a : Z) : option ErrorKind :=
  foldl (fun acc e => match e with Ended _ (Some b) (Some x) => if b =? a then Some x else acc | _ => acc end) None l.

(** A call is refused, or arrives and is refused, or arrives and is dispatched
    once and ends once; or it is made on a capability of another vat and ends. *)
Inductive stage_history (id : Z) : Stage -> list LocalEvent -> Prop :=
| sh_queued : stage_history id OnItsWay []
| sh_waiting a : stage_history id (Waiting a) [Arrived id a]
| sh_running a s : stage_history id (Running (Some a) s) [Arrived id a; Dispatched id]
| sh_remote : stage_history id (Running None false) []
| sh_refused e : stage_history id (Finished (Some e)) [Refused id e]
| sh_broken a e : stage_history id (Finished (Some e)) [Arrived id a; Refused id e]
| sh_ended a (s : bool) r : stage_history id (Finished r) [Arrived id a; Dispatched id; Ended id (if s then Some a else None) r]
| sh_remote_ended r : stage_history id (Finished r) [Ended id None r]
| sh_dropped st l : stage_history id st l -> stage_history id Dropped l.

(** A call is refused on arrival exactly when the server is broken by then. *)
Definition refusals_right (l : list LocalEvent) : Prop := forall k id a, l !! k = Some (Arrived id a) ->
  match broken_by (take k l) a with
  | Some e => l !! S k = Some (Refused id e)
  | None => forall e, Refused id e ∉ l
  end.

Section log.
Implicit Types (l : list LocalEvent) (e : LocalEvent).
Lemma events_of_app id l l' : events_of id (l ++ l') = events_of id l ++ events_of id l'.
Proof. apply filter_app. Qed.
Lemma events_of_same id l : Forall (fun e => event_call e = id) l -> events_of id l = l.
Proof.
  unfold events_of. induction 1 as [|e l He _ IH]; [done|]. by rewrite filter_cons_True, IH.
Qed.
Lemma events_of_other id id' l : id <> id' -> Forall (fun e => event_call e = id) l -> events_of id' l = [].
Proof.
  unfold events_of. intros Hne. induction 1 as [|e l He _ IH]; [done|]. rewrite filter_cons_False by congruence. exact IH.
Qed.
Lemma events_of_in id e l : event_call e = id -> e ∈ l <-> e ∈ events_of id l.
Proof. intros He. unfold events_of. rewrite list_elem_of_filter. tauto. Qed.
Lemma broken_by_snoc l e a : broken_by (l ++ [e]) a =
  match e with Ended _ (Some b) (Some x) => if b =? a then Some x else broken_by l a | _ => broken_by l a end.
Proof. unfold broken_by. rewrite foldl_app. done. Qed.

Lemma refusals_snoc l e : refusals_right l -> match e with
  | Arrived id a => broken_by l a = None /\ forall x, Refused id x ∉ l
  | Refused id _ => forall a, Arrived id a ∉ l
  | _ => True end -> refusals_right (l ++ [e]).
Proof.
  intros Hl He k id a [Hk|(Hge & Hk)]%lookup_app_Some.
  - pose proof (lookup_lt_Some _ _ _ Hk) as Hlt. specialize (Hl k id a Hk). rewrite take_app_le by lia.
    destruct (broken_by (take k l) a) as [x|]; [by apply lookup_app_l_Some|]. intros x. rewrite not_elem_of_app, list_elem_of_singleton.
    split; [apply Hl|]. intros <-. eapply He, list_elem_of_lookup_2, Hk.
  - apply list_lookup_singleton_Some in Hk as [Hk ->]. replace k with (length l) by lia. rewrite take_app_length.
    destruct He as [-> He]. intros x. rewrite not_elem_of_app, list_elem_of_singleton. by split.
Qed.
Lemma refusals_arrived l id a x : refusals_right l -> broken_by l a = Some x -> (forall b, Arrived id b ∉ l) ->
  refusals_right (l ++ [Arrived id a; Refused id x]).
Proof.
  intros Hl Hb Hno k id' a' [Hk|(Hge & Hk)]%lookup_app_Some.
  - pose proof (lookup_lt_Some _ _ _ Hk) as Hlt. specialize (Hl k id' a' Hk). rewrite take_app_le by lia.
    assert (id' <> id). { intros ->. by eapply Hno, list_elem_of_lookup_2. }
    destruct (broken_by (take k l) a'); [by apply lookup_app_l_Some|]. intros y. rewrite not_elem_of_app. split; [apply Hl|].
    rewrite !not_elem_of_cons. split; [done|]. split; [congruence|apply not_elem_of_nil].
  - destruct (k - length l)%nat as [|[|]] eqn:Ek; try done. injection Hk as <- <-. replace k with (length l) by lia.
    rewrite take_app_length, Hb, lookup_app_r by lia. by replace (S (length l) - length l)%nat with 1%nat by lia.
Qed.
End log.

Section invariant.
Context {Content : Type} `{Queued.Results Content} (empty : Content).
Implicit Types (w : World Content) (c : CallState Content).

Definition response_right c (r : (Content * list (option Hook)) + ErrorKind) : Prop :=
  match r with
  | inl v => stage c = Finished None /\ results_done c = Some v
  | inr e => stage c = Finished (Some e)
  end.
Record Inv w : Prop := {
  inv_broken a : broken_error w !! a = broken_by (log w) a;
  inv_calls id c : calls w !! id = Some c -> id < next_id w /\ stage_history id (stage c) (events_of id (log w)) /\
    (results c <> None -> results_done c = None);
  inv_unknown id : calls w !! id = None -> events_of id (log w) = [];
  inv_refusals : refusals_right (log w);
  inv_responses id p r : pendings w !! id = Some p -> response p = Some r ->
    exists c, calls w !! id = Some c /\ response_right c r
}.

(** A call changes its state, and this is logged. *)
Lemma local_inv_call w id c c' evs b : Inv w -> calls w !! id = Some c ->
  Forall (fun e => event_call e = id) evs ->
  stage_history id (stage c') (events_of id (log w) ++ evs) ->
  (results c' <> None -> results_done c' = None) ->
  refusals_right (log w ++ evs) -> (forall a, b !! a = broken_by (log w ++ evs) a) ->
  (forall r, response_right c r -> response_right c' r) ->
  Inv {| heap := heap w; broken_error := b; calls := <[id := c']> (calls w); pendings := pendings w; seen := seen w;
         next_id := next_id w; log := log w ++ evs |}.
Proof.
  intros [Hb Hc Hu Hr Hp] Eid Hevs Hst Hres Href Hbr Hresp. constructor; cbn; try done.
  - intros id' d [[<- <-]|[Hne E]]%lookup_insert_Some.
    + destruct (Hc id c Eid) as (? & _ & _). by rewrite events_of_app, (events_of_same id evs).
    + destruct (Hc id' d E) as (? & ? & ?). by rewrite events_of_app, (events_of_other id id' evs), app_nil_r.
  - intros id' [E Hne]%lookup_insert_None. by rewrite events_of_app, (events_of_other id id' evs Hne Hevs), (Hu id' E).
  - intros id' p r E Er. destruct (Hp id' p r E Er) as (d & Ed & Hd). destruct (decide (id = id')) as [<-|Hne].
    + exists c'. rewrite lookup_insert_eq. split; [done|]. apply Hresp. congruence.
    + exists d. by rewrite lookup_insert_ne.
Qed.

(** Changes that the invariant does not see *)
Definition same_but_heap w w' : Prop :=
  broken_error w' = broken_error w /\ calls w' = calls w /\ pendings w' = pendings w /\ next_id w' = next_id w /\ log w' = log w.
Lemma local_inv_same w w' : same_but_heap w w' -> Inv w -> Inv w'.
Proof.
  intros (E1 & E2 & E3 & E4 & E5) [Hb Hc Hu Hr Hp]. constructor; rewrite ?E1, ?E2, ?E3, ?E4, ?E5; try done.
Qed.
Lemma on_heap_same {A} (c : ST (Heap Content) A) w a w' : on_heap c w = (Ok a, w') -> same_but_heap w w'.
Proof. unfold on_heap. destruct (c (heap w)) as [r h]. by intros [= _ <-]. Qed.
Lemma set_seen_same n w : same_but_heap w (set_seen n w).
Proof. done. Qed.

Definition keeps {A} (c : ST (World Content) A) : Prop := forall w a w', Inv w -> c w = (Ok a, w') -> Inv w'.
Lemma local_keeps_bind {A B} (c : ST (World Content) A) (k : A -> ST (World Content) B) :
  keeps c -> (forall a, keeps (k a)) -> keeps (bind c k).
Proof. intros Hc Hk w b w' Hw (a & w1 & E1 & E2)%ST_bind_inv. eapply Hk; [|done]. by eapply Hc. Qed.
Lemma keeps_on_heap {A} (c : ST (Heap Content) A) : keeps (on_heap c).
Proof. intros w a w' Hw E. eapply local_inv_same; [|done]. by eapply on_heap_same. Qed.
Lemma local_keeps_ret {A} (a : A) : keeps (ret a).
Proof. by intros w b w' Hw [= _ <-]. Qed.

(** What dropping the results keeps of a call *)
Lemma drop_results_ok c : (results c <> None -> results_done c = None) ->
  stage (drop_results c) = stage c /\ (results (drop_results c) <> None -> results_done (drop_results c) = None) /\
  (forall r, response_right c r -> response_right (drop_results c) r).
Proof.
  intros Hd. unfold drop_results, response_right. destruct (results c) as [r|] eqn:E; cbn.
  - split; [done|]. split; [done|]. intros [v|e]; [|done]. intros [_ Hv]. rewrite Hd in Hv; done.
  - rewrite E. split; [done|]. split; [done|]. done.
Qed.
Lemma no_response c r : (forall x, stage c <> Finished x) -> ~ response_right c r.
Proof. intros Hs. destruct r; cbn; [intros [? _]|intros ?]; by eapply Hs. Qed.

Lemma inv_refuse w id c e : Inv w -> calls w !! id = Some c -> stage c = OnItsWay ->
  forall w', refuse id c e w = (Ok tt, w') -> Inv w'.
Proof.
  intros Hw Ec Es w' E. injection E as <-. destruct (inv_calls w Hw id c Ec) as (_ & Hst & Hd). rewrite Es in Hst.
  assert (Hnil : events_of id (log w) = []) by (by inversion Hst).
  destruct (drop_results_ok (set_stage (Finished (Some e)) c) Hd) as (Hs & Hd' & _).
  apply (local_inv_call w id c (drop_results (set_stage (Finished (Some e)) c)) [Refused id e] (broken_error w)); try done.
  - by repeat constructor.
  - rewrite Hs, Hnil. constructor.
  - apply refusals_snoc; [apply Hw|]. intros a. rewrite (events_of_in id) by done. rewrite Hnil. apply not_elem_of_nil.
  - intros a. rewrite broken_by_snoc. apply Hw.
  - intros r Hr. exfalso. eapply no_response; [|done]. congruence.
Qed.
Lemma inv_Client_call w id c a : Inv w -> calls w !! id = Some c -> stage c = OnItsWay ->
  forall w', Client_call id c a w = (Ok tt, w') -> Inv w'.
Proof.
  intros Hw Ec Es w' E. destruct (inv_calls w Hw id c Ec) as (_ & Hst & Hd). rewrite Es in Hst.
  assert (Hnil : events_of id (log w) = []) by (by inversion Hst).
  assert (Hno : forall e, event_call e = id -> e ∉ log w).
  { intros e He. rewrite (events_of_in id) by done. rewrite Hnil. apply not_elem_of_nil. }
  unfold Client_call in E. cbn in E. destruct (broken_error w !! a) as [e|] eqn:Eb.
  - injection E as <-. destruct (drop_results_ok (set_stage (Finished (Some e)) c) Hd) as (Hs & Hd' & _).
    eapply local_inv_same; [|apply (local_inv_call w id c (drop_results (set_stage (Finished (Some e)) c)) [Arrived id a; Refused id e] (broken_error w)); try done].
    + do 4 (split; [done|]). cbn. by rewrite <- app_assoc.
    + by repeat constructor.
    + rewrite Hs, Hnil. constructor.
    + apply refusals_arrived; [apply Hw|by rewrite <- (inv_broken w Hw)|]. intros b. by apply Hno.
    + intros b. change [Arrived id a; Refused id e] with ([Arrived id a] ++ [Refused id e]). rewrite app_assoc, !broken_by_snoc. apply Hw.
    + intros r Hr. exfalso. eapply no_response; [|done]. congruence.
  - injection E as <-. apply (local_inv_call w id c (set_stage (Waiting a) c) [Arrived id a] (broken_error w)); try done.
    + by repeat constructor.
    + rewrite Hnil. constructor.
    + apply refusals_snoc; [apply Hw|]. split; [by rewrite <- (inv_broken w Hw)|]. intros x. by apply Hno.
    + intros b. rewrite broken_by_snoc. apply Hw.
    + intros r Hr. exfalso. eapply no_response; [|done]. congruence.
Qed.

Lemma local_inv_put w id c c' : Inv w -> calls w !! id = Some c -> stage_history id (stage c') (events_of id (log w)) ->
  (results c' <> None -> results_done c' = None) -> (forall r, response_right c r -> response_right c' r) ->
  Inv (set_calls (<[id := c']> (calls w)) w).
Proof.
  intros Hw Ec Hst Hd Hr. eapply local_inv_same; [|apply (local_inv_call w id c c' [] (broken_error w)); try done].
  - do 4 (split; [done|]). cbn. by rewrite app_nil_r.
  - by rewrite app_nil_r.
  - rewrite app_nil_r. apply Hw.
  - intros a. rewrite app_nil_r. apply Hw.
Qed.
Lemma inv_log w id c c' e b : Inv w -> calls w !! id = Some c -> event_call e = id ->
  match e with Arrived _ _ | Refused _ _ => False | _ => True end ->
  stage_history id (stage c') (events_of id (log w) ++ [e]) -> (results c' <> None -> results_done c' = None) ->
  (forall a, b !! a = broken_by (log w ++ [e]) a) -> (forall x, stage c <> Finished x) ->
  Inv {| heap := heap w; broken_error := b; calls := <[id := c']> (calls w); pendings := pendings w; seen := seen w;
         next_id := next_id w; log := log w ++ [e] |}.
Proof.
  intros Hw Ec He Hno Hst Hd Hb Hs. apply (local_inv_call w id c c' [e] b); try done.
  - by repeat constructor.
  - apply refusals_snoc; [apply Hw|]. by destruct e.
  - intros r Hr. exfalso. by eapply no_response.
Qed.
Lemma inv_set_pendings w ps : Inv w ->
  (forall id p r, ps !! id = Some p -> response p = Some r -> exists c, calls w !! id = Some c /\ response_right c r) ->
  Inv (set_pendings ps w).
Proof. intros [Hb Hc Hu Hr Hp] Hps. by constructor. Qed.

Lemma keeps_arrive ev : keeps (arrive ev).
Proof.
  intros w [] w' Hw E. destruct ev as [t qc|]; [|by injection E as <-]. unfold arrive in E.
  rewrite (ST_bind_ok get_state _ _ _ _ eq_refl) in E.
  destruct (calls w !! call_id qc) as [c|] eqn:Ec; [|by injection E as <-].
  destruct (stage c) eqn:Es; try by injection E as <-. destruct (inv_calls w Hw _ c Ec) as (_ & Hst & Hd).
  assert (Hremote : forall w', put_call (call_id qc) (set_stage (Running None false) c) w = (Ok tt, w') -> Inv w').
  { intros w1 E1. injection E1 as <-. apply (local_inv_put w _ c); try done.
    - rewrite Es in Hst. inversion Hst. constructor.
    - intros r Hr. exfalso. eapply no_response; [|done]. congruence. }
  destruct t as [a|a|e|a]; [by eapply inv_Client_call|by apply Hremote|by eapply inv_refuse|by apply Hremote].
Qed.
Lemma keeps_arrive_all evs : keeps (arrive_all evs).
Proof. induction evs; [apply local_keeps_ret|]. apply local_keeps_bind; [apply keeps_arrive|done]. Qed.
Lemma keeps_deliver : keeps deliver.
Proof.
  intros w [] w' Hw E. eapply keeps_arrive_all; [|exact E]. by eapply local_inv_same; [apply set_seen_same|].
Qed.
Lemma local_keeps_send id p client iface meth content caps w w' : Inv w -> calls w !! id = None -> id < next_id w ->
  send empty id p client iface meth content caps w = (Ok tt, w') -> Inv w'.
Proof.
  intros Hw Eid Hid E. unfold send in E. rewrite (ST_bind_ok (put_call _ _) _ _ _ _ eq_refl), (ST_bind_ok (modify _) _ _ _ _ eq_refl) in E.
  revert E. apply local_keeps_bind; [apply keeps_on_heap|intros []; apply keeps_deliver|].
  destruct Hw as [Hb Hc Hu Hr Hp]. constructor; cbn; try done.
  - intros id' c [[<- <-]|[Hne Ec]]%lookup_insert_Some; [|by apply Hc]. rewrite Hu by done. split; [done|]. split; [constructor|done].
  - intros id' [Ec _]%lookup_insert_None. by apply Hu.
  - intros id' q r [[<- <-]|[Hne Eq]]%lookup_insert_Some Er; [done|]. destruct (Hp id' q r Eq Er) as (c & Ec & Hcr).
    exists c. rewrite lookup_insert_ne; [done|]. exact Hne.
Qed.
Lemma keeps_poll id : keeps (poll id).
Proof.
  intros w [] w' Hw E. unfold poll in E. apply ST_bind_inv in E as (c & w1 & E1 & E). unfold get_call in E1.
  destruct (calls w !! id) as [c'|] eqn:Ec; [|done]. injection E1 as <- <-. rewrite (ST_bind_ok get_state _ _ _ _ eq_refl) in E.
  destruct (pendings w !! id) as [p|] eqn:Ep; [|done]. rewrite (lift_bind_ok _ _ _ p eq_refl) in E.
  destruct (sender p) as [s|]; [|by injection E as <-].
  assert (Hresp : forall r, response_right c' r ->
    Inv (set_pendings (<[id := {| sender := None; response := Some r |}]> (pendings w)) w)).
  { intros r Hr. apply inv_set_pendings; [done|]. intros id' q r' [[<- <-]|[Hne Eq]]%lookup_insert_Some Er.
    - injection Er as <-. by exists c'.
    - by eapply inv_responses. }
  assert (Hend : forall (k : ST (Heap Content) unit) w1 w', Inv w1 -> (on_heap k ;; deliver) w1 = (Ok tt, w') -> Inv w').
  { intros k v v' Hv. apply (local_keeps_bind (on_heap k) (fun _ => deliver)); [apply keeps_on_heap|intros []; apply keeps_deliver|done]. }
  destruct (stage c') as [| | |[e|]|] eqn:Es; try by injection E as <-.
  - rewrite (ST_bind_ok (modify _) _ _ _ _ eq_refl) in E. eapply Hend; [|exact E]. by apply Hresp.
  - destruct (results_done c') as [[content caps]|] eqn:Ed; [|by injection E as <-].
    rewrite (ST_bind_ok (modify _) _ _ _ _ eq_refl) in E. eapply Hend; [|exact E]. by apply Hresp.
Qed.
Lemma get_call_inv id w c w' : get_call id w = (Ok c, w') -> calls w !! id = Some c /\ w' = w.
Proof. unfold get_call. destruct (calls w !! id); [|done]. by intros [= -> ->]. Qed.
Lemma keeps_abandon id : keeps (abandon id).
Proof.
  intros w [] w' Hw E. unfold abandon in E. apply ST_bind_inv in E as (c & w1 & [Ec ->]%get_call_inv & E).
  rewrite (ST_bind_ok get_state _ _ _ _ eq_refl) in E.
  destruct (pendings w !! id) as [p|] eqn:Ep; [|done]. rewrite (lift_bind_ok _ _ _ p eq_refl), (ST_bind_ok (modify _) _ _ _ _ eq_refl) in E.
  assert (Hw1 : Inv (set_pendings (delete id (pendings w)) w)).
  { apply inv_set_pendings; [done|]. intros id' q r [_ Eq]%lookup_delete_Some Er. by eapply inv_responses. }
  assert (Hput : (forall x, stage c <> Finished x) ->
    Inv (set_calls (<[id := drop_results (set_stage Dropped c)]> (calls w)) (set_pendings (delete id (pendings w)) w))).
  { intros Hs. destruct (inv_calls w Hw id c Ec) as (_ & Hst & Hd). destruct (drop_results_ok (set_stage Dropped c) Hd) as (Es & Hd' & _).
    apply (local_inv_put (set_pendings (delete id (pendings w)) w) id c); try done; [rewrite Es; by eapply sh_dropped|].
    intros r Hr. exfalso. by eapply no_response. }
  assert (Hrest : keeps (match sender p with Some s => on_heap (Sender_drop s) | None => ret tt end ;; deliver)).
  { apply local_keeps_bind; [destruct (sender p); [apply keeps_on_heap|apply local_keeps_ret]|intros []; apply keeps_deliver]. }
  destruct (stage c) eqn:Es; [..|]; rewrite ?ST_ret_bind in E; try (by eapply Hrest; [exact Hw1|exact E]);
    (rewrite ST_bind_assoc, (ST_bind_ok (put_call _ _) _ _ _ _ eq_refl) in E; revert E;
     apply local_keeps_bind; [apply keeps_on_heap|intros []; exact Hrest|]; by apply Hput).
Qed.
Lemma keeps_dispatch id s : keeps (dispatch id s).
Proof.
  intros w [] w' Hw E. unfold dispatch in E. apply ST_bind_inv in E as (c & w1 & [Ec ->]%get_call_inv & E).
  destruct (inv_calls w Hw id c Ec) as (_ & Hst & Hd). destruct (stage c) as [|a| | |] eqn:Es; try done. injection E as <-.
  apply (inv_log w id c (set_stage (Running (Some a) s) c) (Dispatched id) (broken_error w)); try done.
  - inversion Hst. constructor.
  - intros b. rewrite broken_by_snoc. apply Hw.
  - congruence.
Qed.
Lemma keeps_finish id r : keeps (finish id r).
Proof.
  intros w [] w' Hw E. unfold finish in E. apply ST_bind_inv in E as (c & w1 & [Ec ->]%get_call_inv & E).
  destruct (inv_calls w Hw id c Ec) as (_ & Hst & Hd). destruct (stage c) as [| |srv s| |] eqn:Es; try done.
  rewrite (ST_bind_ok (modify _) _ _ _ _ eq_refl) in E.
  assert (Hlog : forall b, (forall a, b !! a = broken_by (log w ++ [Ended id (if s then srv else None) r]) a) ->
    Inv {| heap := heap w; broken_error := b; calls := <[id := set_stage (Finished r) c]> (calls w); pendings := pendings w;
           seen := seen w; next_id := next_id w; log := log w ++ [Ended id (if s then srv else None) r] |}).
  { intros b Hb. apply (inv_log w id c (set_stage (Finished r) c)); try done; [|congruence].
    inversion Hst; cbn; constructor. }
  destruct srv as [a|], s, r as [e|]; injection E as <-; apply Hlog; intros b; rewrite broken_by_snoc; cbn; try apply Hw.
  destruct (Z.eqb_spec a b) as [->|Hne]; [apply lookup_insert_eq|]. rewrite lookup_insert_ne by done. apply Hw.
Qed.

Lemma with_results_inv id k w w' : with_results id k w = (Ok tt, w') ->
  exists c r, calls w !! id = Some c /\ results c = Some r /\ k c r w = (Ok tt, w').
Proof.
  unfold with_results. intros (c & w1 & [Ec ->]%get_call_inv & E)%ST_bind_inv.
  destruct (results c) as [r|] eqn:Er; [|done]. destruct (running c); [|done]. by exists c, r.
Qed.
Lemma inv_set_results w id c r : Inv w -> calls w !! id = Some c -> results c <> None ->
  Inv (set_calls (<[id := set_results r c]> (calls w)) w).
Proof.
  intros Hw Ec Hr. destruct (inv_calls w Hw id c Ec) as (_ & Hst & Hd). apply (local_inv_put w id c); try done; cbn; auto.
Qed.
Lemma keeps_fill id content caps : keeps (fill id content caps).
Proof.
  intros w [] w' Hw (c & r & Ec & Er & E)%with_results_inv. injection E as <-. apply inv_set_results; [done|done|congruence].
Qed.
Lemma keeps_release id : keeps (release id).
Proof.
  intros w [] w' Hw (c & r & Ec & Er & E)%with_results_inv. injection E as <-.
  destruct (inv_calls w Hw id c Ec) as (_ & Hst & Hd). destruct (drop_results_ok c Hd) as (Hs & Hd' & Hr).
  apply (local_inv_put w id c); try done. by rewrite Hs.
Qed.
Lemma keeps_set_pipeline id : keeps (set_pipeline id).
Proof.
  intros w [] w' Hw (c & r & Ec & Er & E)%with_results_inv. destruct (pipeline_sender r) as [s|]; [|done].
  rewrite (ST_bind_ok (put_call _ _) _ _ _ _ eq_refl) in E. revert E.
  apply local_keeps_bind; [apply keeps_on_heap|intros []; apply keeps_deliver|]. apply inv_set_results; [done|done|congruence].
Qed.

Lemma local_inv_start : Inv start.
Proof. by constructor. Qed.
Lemma keeps_next w : Inv w -> Inv {| heap := heap w; broken_error := broken_error w; calls := calls w;
  pendings := pendings w; seen := seen w; next_id := next_id w + 1; log := log w |}.
Proof.
  intros [Hb Hc Hu Hr Hp]. constructor; cbn; try done. intros id c Ec. destruct (Hc id c Ec) as (? & ? & ?).
  split; [lia|done].
Qed.
Lemma keeps_perform l : keeps (perform empty l).
Proof.
  destruct l; cbn [perform].
  - intros w [] w' Hw E. apply ST_bind_inv in E as ([id p] & w1 & E1 & E). unfold Request_new in E1.
    rewrite (ST_bind_ok fresh _ _ _ _ eq_refl) in E1. apply ST_bind_inv in E1 as (p' & w2 & E1 & [= <- <- <-]).
    pose proof (on_heap_same _ _ _ _ E1) as Hsame. pose proof (local_inv_same _ _ Hsame (keeps_next w Hw)) as Hw2.
    destruct Hsame as (_ & Hcalls & _ & Hid & _). cbn in Hcalls, Hid. eapply local_keeps_send; [exact Hw2| | |exact E].
    2: rewrite Hid; lia.
    rewrite Hcalls. destruct (calls w !! next_id w) as [c|] eqn:Ec; [|done]. destruct (inv_calls w Hw _ c Ec). lia.
  - apply keeps_poll.
  - apply keeps_abandon.
  - apply keeps_dispatch.
  - apply keeps_finish.
  - apply keeps_fill.
  - apply keeps_set_pipeline.
  - apply keeps_release.
  - apply local_keeps_bind; [apply keeps_on_heap|intros; apply local_keeps_ret].
Qed.
Lemma keeps_run ls : keeps (run empty ls).
Proof. induction ls; [apply local_keeps_ret|]. apply local_keeps_bind; [apply keeps_perform|done]. Qed.
End invariant.

(** ** What a server leaves in the results of a call *)

Section left.
Context {Content : Type} `{Queued.Results Content} (empty : Content).
Implicit Types (w : World Content) (c : CallState Content).

(** The content and the capabilities that the results of a call have, in the
    hook or after it was dropped *)
Definition held c : Content * list (option Hook) :=
  match results c with
  | Some r => (message r, cap_table r)
  | None => default (empty, []) (results_done c)
  end.
Definition held_by w (id : Z) : Content * list (option Hook) := from_option held (empty, []) (calls w !! id).

(** What the server wrote last in the results of call [id] *)
Definition written (id : Z) (acc : Content * list (option Hook)) (l : Label (Content := Content)) :=
  match l with DoFill i content caps => if i =? id then (content, caps) else acc | _ => acc end.
Definition left_by (id : Z) (ls : list (Label (Content := Content))) : Content * list (option Hook) :=
  foldl (written id) (empty, []) ls.

Definition leaves {A} (k : ST (World Content) A) : Prop := forall w a w', k w = (Ok a, w') -> forall id, held_by w' id = held_by w id.
Lemma leaves_bind {A B} (k : ST (World Content) A) (f : A -> ST (World Content) B) :
  leaves k -> (forall a, leaves (f a)) -> leaves (bind k f).
Proof. intros Hk Hf w b w' (a & w1 & E1 & E2)%ST_bind_inv id. rewrite (Hf a w1 b w' E2 id). by eapply Hk. Qed.
Lemma leaves_ret {A} (a : A) : leaves (ret a).
Proof. by intros w b w' [= _ <-]. Qed.
Lemma leaves_on_heap {A} (k : ST (Heap Content) A) : leaves (on_heap k).
Proof. intros w a w' E id. destruct (on_heap_same _ _ _ _ E) as (_ & Hc & _). unfold held_by. by rewrite Hc. Qed.
Lemma leaves_modify (f : World Content -> World Content) : (forall w, calls (f w) = calls w) -> leaves (modify f).
Proof. intros Hf w a w' [= _ <-] id. unfold held_by. by rewrite Hf. Qed.
Lemma held_put w id c : (forall c', calls w !! id = Some c' -> held c = held c') ->
  (calls w !! id = None -> held c = (empty, [])) -> forall id', held_by (set_calls (<[id := c]> (calls w)) w) id' = held_by w id'.
Proof.
  intros Hc Hn id'. unfold held_by. cbn. destruct (decide (id = id')) as [<-|Hne]; [|by rewrite lookup_insert_ne].
  rewrite lookup_insert_eq. cbn. destruct (calls w !! id) as [c'|]; cbn; [by apply Hc|by apply Hn].
Qed.
Lemma held_drop st c : held (drop_results (set_stage st c)) = held c.
Proof. by destruct c as [st0 [r|] d]. Qed.
(** The call with the number [id] is as it was read. *)
Definition leaves_call {A} (id : Z) c (k : ST (World Content) A) : Prop := forall w a w', calls w !! id = Some c ->
  k w = (Ok a, w') -> forall id', held_by w' id' = held_by w id'.
Lemma leaves_put id c c' : held c' = held c -> leaves_call id c (put_call id c').
Proof. intros Hh w a w' Ec [= _ <-]. apply held_put; [|congruence]. intros c1. rewrite Ec. by intros [= <-]. Qed.
Lemma leaves_modify_call {A} id c (f : World Content -> World Content) (k : unit -> ST (World Content) A) :
  (forall w, calls (f w) = calls w) -> leaves_call id c (k tt) -> leaves_call id c (bind (modify f) k).
Proof.
  intros Hf Hk w a w' Ec E id'. rewrite (ST_bind_ok (modify f) _ _ _ _ eq_refl) in E.
  rewrite (Hk (f w) a w' ltac:(by rewrite Hf) E id'). unfold held_by. by rewrite Hf.
Qed.
Lemma leaves_call_bind {A B} id c (k : ST (World Content) A) (f : A -> ST (World Content) B) :
  leaves_call id c k -> (forall a, leaves (f a)) -> leaves_call id c (bind k f).
Proof. intros Hk Hf w b w' Ec (a & w1 & E1 & E2)%ST_bind_inv id'. rewrite (Hf a w1 b w' E2 id'). by eapply Hk. Qed.
Lemma leaves_get_call {A} id (f : CallState Content -> ST (World Content) A) :
  (forall c, leaves_call id c (f c)) -> leaves (bind (get_call id) f).
Proof. intros Hf w a w' (c & w1 & [Ec ->]%get_call_inv & E)%ST_bind_inv id'. by eapply Hf. Qed.
Lemma leaves_call_any {A} id c (k : ST (World Content) A) : leaves k -> leaves_call id c k.
Proof. intros Hk w a w' _ E id'. by eapply Hk. Qed.

Lemma leaves_refuse id c e : leaves_call id c (refuse id c e).
Proof. apply leaves_call_bind; [apply leaves_put, held_drop|]. intros []. by apply leaves_modify. Qed.
Lemma leaves_Client_call id c a : leaves_call id c (Client_call id c a).
Proof.
  unfold Client_call. apply leaves_modify_call; [done|]. intros w [] w' Ec E.
  rewrite (ST_bind_ok get_state _ _ _ _ eq_refl) in E.
  destruct (broken_error w !! a); [by eapply leaves_refuse|by eapply leaves_put; [|exact Ec|exact E]].
Qed.
Lemma leaves_arrive ev : leaves (arrive ev).
Proof.
  destruct ev as [t qc|]; [|apply leaves_ret]. intros w [] w' E id. unfold arrive in E.
  rewrite (ST_bind_ok get_state _ _ _ _ eq_refl) in E.
  destruct (calls w !! call_id qc) as [c|] eqn:Ec; [|by injection E as <-].
  destruct (stage c) eqn:Es; try by injection E as <-.
  destruct t as [a|a|e|a]; [|by eapply leaves_put; [|exact Ec|exact E]|by eapply leaves_refuse|by eapply leaves_put; [|exact Ec|exact E]].
  by eapply leaves_Client_call.
Qed.
Lemma leaves_deliver : leaves deliver.
Proof.
  intros w [] w' E id. unfold deliver in E. rewrite (ST_bind_ok get_state _ _ _ _ eq_refl) in E.
  revert id. revert E. apply leaves_bind; [by apply leaves_modify|]. intros [].
  induction (drop _ _) as [|ev evs IH]; [apply leaves_ret|]. apply leaves_bind; [apply leaves_arrive|done].
Qed.
Lemma leaves_end (k : ST (Heap Content) unit) : leaves (on_heap k ;; deliver).
Proof. apply leaves_bind; [apply leaves_on_heap|intros []; apply leaves_deliver]. Qed.
Lemma leaves_poll id : leaves (poll id).
Proof.
  apply leaves_get_call. intros c. apply leaves_call_any. intros w [] w' E.
  rewrite (ST_bind_ok get_state _ _ _ _ eq_refl) in E. apply ST_bind_inv in E as (p & w1 & [_ ->]%lift_inv & E).
  destruct (sender p) as [s|]; [|by injection E as <-].
  destruct (stage c) as [| | |[e|]|]; try by injection E as <-.
  - revert E. apply leaves_bind; [by apply leaves_modify|intros []; apply leaves_end].
  - destruct (results_done c) as [[content caps]|]; [|by injection E as <-].
    revert E. apply leaves_bind; [by apply leaves_modify|intros []; apply leaves_end].
Qed.
Lemma leaves_abandon id : leaves (abandon id).
Proof.
  apply leaves_get_call. intros c w [] w' Ec E.
  rewrite (ST_bind_ok get_state _ _ _ _ eq_refl) in E. apply ST_bind_inv in E as (p & w1 & [_ ->]%lift_inv & E).
  revert w' E. enough (Hk : leaves_call id c (modify (fun w => set_pendings (delete id (pendings w)) w) ;;
    match stage c with Finished _ => ret tt | _ => put_call id (drop_results (set_stage Dropped c)) ;; on_heap (cancel id) end ;;
    match sender p with Some s => on_heap (Sender_drop s) | None => ret tt end ;; deliver)) by by (intros; eapply Hk).
  apply leaves_modify_call; [done|]. apply leaves_call_bind.
  - destruct (stage c); try (apply leaves_call_any, leaves_ret);
      (apply leaves_call_bind; [apply leaves_put, held_drop|intros []; apply leaves_on_heap]).
  - intros []. apply leaves_bind; [destruct (sender p); [apply leaves_on_heap|apply leaves_ret]|intros []; apply leaves_deliver].
Qed.
Lemma leaves_dispatch id s : leaves (dispatch id s).
Proof.
  apply leaves_get_call. intros c. destruct (stage c) as [|a| | |]; try (by intros w b w' _ E).
  apply leaves_modify_call; [done|]. by apply leaves_put.
Qed.
Lemma leaves_finish id r : leaves (finish id r).
Proof.
  apply leaves_get_call. intros c. destruct (stage c) as [| |srv s| |]; try (by intros w b w' _ E).
  apply leaves_modify_call; [done|].
  destruct srv as [a|], s, r as [e|]; first [apply leaves_modify_call; [done|]; by apply leaves_put | 
    intros w b w' Ec E; rewrite ST_ret_bind in E; by eapply leaves_put; [|exact Ec|exact E]].
Qed.
Lemma leaves_with_results id k : (forall c r, results c = Some r -> leaves_call id c (k c r)) -> leaves (with_results id k).
Proof.
  intros Hk. apply leaves_get_call. intros c. destruct (results c) as [r|] eqn:Er; [|by intros w a w' _ E].
  destruct (running c); [by apply Hk|by intros w a w' _ E].
Qed.
Lemma leaves_set_pipeline id : leaves (set_pipeline id).
Proof.
  apply leaves_with_results. intros c r Er. destruct (pipeline_sender r) as [s|]; [|by intros w a w' _ E].
  apply leaves_call_bind; [apply leaves_put; unfold held; by rewrite Er|intros []; apply leaves_end].
Qed.
Lemma leaves_release id : leaves (release id).
Proof. apply leaves_with_results. intros c r Er. apply leaves_put. unfold held, drop_results. by rewrite Er. Qed.
Lemma fill_held id content caps w w' : fill id content caps w = (Ok tt, w') ->
  forall id', held_by w' id' = if id =? id' then (content, caps) else held_by w id'.
Proof.
  intros (c & r & Ec & Er & [= <-])%with_results_inv id'. unfold held_by. cbn.
  destruct (Z.eqb_spec id id') as [<-|Hne]; [by rewrite lookup_insert_eq|by rewrite lookup_insert_ne].
Qed.

Lemma perform_held l w w' : Inv w -> perform empty l w = (Ok tt, w') ->
  forall id, held_by w' id = written id (held_by w id) l.
Proof.
  intros Hw E id. destruct l; cbn [perform written] in *; try (by eapply leaves_poll + by eapply leaves_abandon).
  - apply ST_bind_inv in E as ([i p] & w1 & E1 & E). unfold Request_new in E1.
    rewrite (ST_bind_ok fresh _ _ _ _ eq_refl) in E1. apply ST_bind_inv in E1 as (p' & w2 & E1 & [= <- <- <-]).
    pose proof (on_heap_same _ _ _ _ E1) as (_ & Hcalls & _). cbn in Hcalls.
    unfold send in E. rewrite (ST_bind_ok (put_call _ _) _ _ _ _ eq_refl), (ST_bind_ok (modify _) _ _ _ _ eq_refl) in E.
    rewrite (leaves_bind (on_heap _) (fun _ => deliver) (leaves_on_heap _) (fun _ => leaves_deliver) _ _ _ E id).
    assert (Hnew : calls w !! next_id w = None).
    { destruct (calls w !! next_id w) as [c|] eqn:Ec; [|done]. destruct (inv_calls w Hw _ c Ec). lia. }
    unfold held_by. cbn. rewrite Hcalls. destruct (decide (next_id w = id)) as [<-|Hne].
    + by rewrite lookup_insert_eq, Hnew.
    + by rewrite lookup_insert_ne.
  - by eapply leaves_dispatch.
  - by eapply leaves_finish.
  - rewrite (fill_held _ _ _ _ _ E id). done.
  - by eapply leaves_set_pipeline.
  - by eapply leaves_release.
  - revert E id. apply leaves_bind; [apply leaves_on_heap|intros; apply leaves_ret].
Qed.
Lemma run_held ls w w' : Inv w -> run empty ls w = (Ok tt, w') ->
  forall id, held_by w' id = foldl (written id) (held_by w id) ls.
Proof.
  revert w. induction ls as [|l ls IH]; intros w Hw E id; cbn [run foldl] in *; [by injection E as <-|].
  apply ST_bind_inv in E as ([] & w1 & E1 & E). rewrite <- (perform_held l w w1 Hw E1 id).
  apply IH; [|done]. by eapply keeps_perform.
Qed.
End left.

(** ** Properties *)

(** C30: Calls on the servers of a vat, over every history of calls, polls,
    dropped promises and whatever servers do.  A call arrives, is dispatched
    and ends at most once and in this order, or is refused and never
    dispatched.  It is refused exactly when a streaming call on its server had
    failed before it arrived, with the error of the last one that did; calls
    that had arrived before are dispatched all the same, and calls that are
    not streaming break nothing.  The response of a call is what its server
    wrote last in its results ([left_by]: the content, and the capabilities
    with it, of the last [DoFill] of the call in the history, or the empty
    message), and there is one only after the call has ended without an error;
    otherwise it is the error of the call. *)
Theorem local_calls_right {Content} `{Queued.Results Content} (empty : Content) (ls : list (Label (Content := Content)))
    (w : World Content) :
  run empty ls start = (Ok tt, w) ->
  (forall id c, calls w !! id = Some c -> stage_history id (stage c) (events_of id (log w))) /\
  refusals_right (log w) /\
  (forall id p r, pendings w !! id = Some p -> response p = Some r -> exists c, calls w !! id = Some c /\
     match r with
     | inl v => v = left_by empty id ls /\ results_done c = Some v /\
         exists on, last (events_of id (log w)) = Some (Ended id on None)
     | inr e => (exists on, last (events_of id (log w)) = Some (Ended id on (Some e))) \/
                last (events_of id (log w)) = Some (Refused id e)
     end).
Proof.
  intros E. pose proof (keeps_run empty ls start tt w local_inv_start E) as Hw. split; [|split].
  - intros id c Ec. by apply Hw.
  - apply Hw.
  - intros id p r Ep Er. destruct (inv_responses w Hw id p r Ep Er) as (c & Ec & Hc). exists c. split; [done|].
    destruct (inv_calls w Hw id c Ec) as (_ & Hst & Hdone). destruct r as [v|e]; cbn in Hc.
    + destruct Hc as [Hs Hd]. split.
      { pose proof (run_held empty ls start w local_inv_start E id) as Hheld. unfold held_by in Hheld. rewrite Ec in Hheld.
        cbn in Hheld. unfold held in Hheld. destruct (results c); [by rewrite Hdone in Hd|]. by rewrite Hd in Hheld. }
      split; [done|]. rewrite Hs in Hst. inversion Hst; eauto.
    + rewrite Hc in Hst. inversion Hst; eauto.
Qed.

(** A streaming call fails while another waits; the one that comes after it is
    refused. *)
Definition no_caps : Queued.Results Z := {| results_cap _ _ _ := Err Failed |}.
Definition breaking : list (Label (Content := Z)) := [
  DoSend (LocalServer 7) 1 0 10 []; DoSend (LocalServer 7) 1 1 11 []; DoDispatch 0 true; DoFinish 0 (Some Overloaded);
  DoSend (LocalServer 7) 1 0 12 []; DoDispatch 1 false; DoFill 1 98 []; DoFill 1 99 [Some (LocalServer 7)]; DoFinish 1 None; DoRelease 1; DoPoll 1; DoPoll 2].
Definition broken_world : World Z := snd (@run Z no_caps 0 breaking start).
Lemma breaking_runs : @run Z no_caps 0 breaking start = (Ok tt, broken_world).
Proof. vm_compute. reflexivity. Qed.
Lemma breaking_log : log broken_world =
  [Arrived 0 7; Arrived 1 7; Dispatched 0; Ended 0 (Some 7) (Some Overloaded); Arrived 2 7; Refused 2 Overloaded;
   Dispatched 1; Ended 1 None None] /\
  pendings broken_world !! 1 = Some {| sender := None; response := Some (inl (99, [Some (LocalServer 7)])) |}.
Proof. vm_compute. done. Qed.
Lemma local_calls_right_witness :
  log broken_world !! 5%nat = Some (Refused 2 Overloaded) /\
  exists c, calls broken_world !! 1 = Some c /\ (99, [Some (LocalServer 7)]) = left_by 0 1 breaking /\
    results_done c = Some (99, [Some (LocalServer 7)]) /\
    exists on, last (events_of 1 (log broken_world)) = Some (Ended 1 on None).
Proof.
  destruct (local_calls_right (H := no_caps) 0 breaking broken_world breaking_runs) as (_ & Href & Hresp).
  destruct breaking_log as [Hlog Hp]. split.
  - assert (Ha : log broken_world !! 4%nat = Some (Arrived 2 7)) by (rewrite Hlog; reflexivity).
    specialize (Href 4%nat 2 7 Ha). rewrite Hlog in Href |- *. exact Href.
  - exact (Hresp 1 _ _ Hp eq_refl).
Defined.
End Local.
