(* ===== verification/TaskSet.v ===== *)
(** * Sets of tasks (capnp-rpc/src/task_set.rs)

    [TaskSet] polls the futures that its handles enqueue.  A poll first takes
    what was enqueued, then lets the futures that are ready finish one after
    the other; which ones are ready is the choice of the environment, the list
    a poll is given.  A task that finishes runs its own effects and the
    [TaskReaper], which are the parameter [effect] here: a function on the
    state of the client and on the set, since it may hold a handle. *)

From S2P Require Import Prelude.
From stdpp Require Import list.
#[local] Open Scope Z_scope.
#[local] Open Scope rust_scope.

Module TaskSet.

(** A promise of [on_empty] is known by an id. *)
Inductive EnqueuedTask (T : Type) :=
| Task (t : T)
| Terminate (r : option ErrorKind)
| OnEmpty (w : Z).
Arguments Task {T} t.
Arguments Terminate {T} r.
Arguments OnEmpty {T} w.

(** [in_progress] without the [pending()] future that keeps it from being
    empty; [emptied]: the promises of [on_empty] that have resolved. *)
Record TaskSet (T : Type) := {
  enqueued : list (EnqueuedTask T);
  in_progress : list T;
  terminators : list (option ErrorKind);
  on_empty_fulfillers : list Z;
  emptied : list Z
}.
Arguments enqueued {T} _.
Arguments in_progress {T} _.
Arguments terminators {T} _.
Arguments on_empty_fulfillers {T} _.
Arguments emptied {T} _.
Arguments Build_TaskSet {T}.

Section operations.
Context {T : Type} `{EqDecision T}.
Implicit Types (ts : TaskSet T).

Definition new : TaskSet T :=
  {| enqueued := []; in_progress := []; terminators := []; on_empty_fulfillers := []; emptied := [] |}.

(** [TaskSetHandle] *)
Definition enqueue (e : EnqueuedTask T) ts : TaskSet T :=
  {| enqueued := enqueued ts ++ [e]; in_progress := in_progress ts; terminators := terminators ts;
     on_empty_fulfillers := on_empty_fulfillers ts; emptied := emptied ts |}.
Definition add (t : T) : TaskSet T -> TaskSet T := enqueue (Task t).
Definition terminate (r : option ErrorKind) : TaskSet T -> TaskSet T := enqueue (Terminate r).
Definition on_empty (w : Z) : TaskSet T -> TaskSet T := enqueue (OnEmpty w).

(** The first loop of [poll] *)
Definition take_one ts (e : EnqueuedTask T) : TaskSet T :=
  match e with
  | Task t => {| enqueued := enqueued ts; in_progress := in_progress ts ++ [t];
                 terminators := terminators ts; on_empty_fulfillers := on_empty_fulfillers ts;
                 emptied := emptied ts |}
  | Terminate r => {| enqueued := enqueued ts; in_progress := in_progress ts;
                      terminators := terminators ts ++ [r];
                      on_empty_fulfillers := on_empty_fulfillers ts; emptied := emptied ts |}
  | OnEmpty w => {| enqueued := enqueued ts; in_progress := in_progress ts;
                    terminators := terminators ts;
                    on_empty_fulfillers := on_empty_fulfillers ts ++ [w]; emptied := emptied ts |}
  end.
Definition take_enqueued ts : TaskSet T :=
  fold_left take_one (enqueued ts)
    {| enqueued := []; in_progress := in_progress ts; terminators := terminators ts;
       on_empty_fulfillers := on_empty_fulfillers ts; emptied := emptied ts |}.

Definition update_on_empty_fulfillers ts : TaskSet T :=
  match in_progress ts, terminators ts with
  | [], [] => {| enqueued := enqueued ts; in_progress := []; terminators := [];
                 on_empty_fulfillers := []; emptied := emptied ts ++ on_empty_fulfillers ts |}
  | _, _ => ts
  end.

(** The first occurrence of a task leaves the set. *)
Fixpoint remove_one (t : T) (l : list T) : option (list T) :=
  match l with
  | [] => None
  | t' :: l => if decide (t = t') then Some l else cons t' <$> remove_one t l
  end.
Definition set_in_progress l ts : TaskSet T :=
  {| enqueued := enqueued ts; in_progress := l; terminators := terminators ts;
     on_empty_fulfillers := on_empty_fulfillers ts; emptied := emptied ts |}.
Definition clear_fulfillers ts : TaskSet T :=
  {| enqueued := enqueued ts; in_progress := in_progress ts; terminators := tail (terminators ts);
     on_empty_fulfillers := []; emptied := emptied ts |}.

(** The second loop of [poll].  [None] in the list: a terminator is the next
    future that is ready.  The result is what [poll] returns when it is
    ready. *)
Context {S : Type} (effect : T -> option ErrorKind -> S -> TaskSet T -> S * TaskSet T).

Fixpoint poll_ready (ready : list (option (T * option ErrorKind))) (s : S) ts
    : option (option ErrorKind) * (S * TaskSet T) :=
  match ready with
  | [] => (None, (s, ts))
  | Some (t, r) :: ready =>
      match remove_one t (in_progress ts) with
      | Some l =>
          let (s, ts) := effect t r s (set_in_progress l ts) in
          poll_ready ready s (update_on_empty_fulfillers ts)
      | None => poll_ready ready s ts
      end
  | None :: ready =>
      match terminators ts with
      | r :: _ => (Some r, (s, clear_fulfillers ts))
      | [] => poll_ready ready s ts
      end
  end.

(** [<TaskSet as Future>::poll] *)
Definition poll (ready : list (option (T * option ErrorKind))) (s : S) ts :=
  poll_ready ready s (take_enqueued ts).

(** ** What is in a set *)

(** The tasks a set still has to finish. *)
Definition task_of (e : EnqueuedTask T) : option T := match e with Task t => Some t | _ => None end.
Definition tasks ts : list T := in_progress ts ++ omap task_of (enqueued ts).

Lemma take_tasks es ts : enqueued ts = [] ->
  let ts' := fold_left take_one es ts in
  enqueued ts' = [] /\ in_progress ts' = in_progress ts ++ omap task_of es.
Proof.
  revert ts. induction es as [|e es IH]; intros ts He; cbn [fold_left omap list_omap].
  - cbn. split; [done|]. by rewrite app_nil_r.
  - destruct (IH (take_one ts e)) as [-> ->]; [by destruct e|]. split; [done|].
    destruct e; cbn; by rewrite <- ?app_assoc.
Qed.
Lemma take_enqueued_tasks ts :
  enqueued (take_enqueued ts) = [] /\ in_progress (take_enqueued ts) = tasks ts.
Proof.
  unfold take_enqueued. match goal with |- context [fold_left take_one _ ?x] =>
    by destruct (take_tasks (enqueued ts) x eq_refl) as [-> ->] end.
Qed.

Lemma take_emptied ts : emptied (take_enqueued ts) = emptied ts.
Proof.
  assert (Hf : forall es ts, emptied (fold_left take_one es ts) = emptied ts); [|exact (Hf _ _)].
  clear. induction es as [|e es IH]; intros ts; cbn [fold_left]; [done|]. rewrite IH. by destruct e.
Qed.

Lemma remove_one_perm t l l' : remove_one t l = Some l' -> l ≡ₚ t :: l'.
Proof.
  revert l'. induction l as [|t' l IH]; intros l' Hr; cbn in Hr; [done|].
  case_decide as Ht; [by simplify_eq|]. destruct (remove_one t l) as [k|]; [|done].
  cbn in Hr. simplify_eq. rewrite (IH k eq_refl). apply Permutation_swap.
Qed.
Lemma remove_one_elem t l : t ∈ l -> is_Some (remove_one t l).
Proof.
  induction 1 as [t l|t t' l Hl [k Hk]]; cbn; [by rewrite decide_True|].
  case_decide; [by eexists|]. rewrite Hk. by eexists.
Qed.
Lemma update_tasks ts : tasks (update_on_empty_fulfillers ts) = tasks ts.
Proof.
  unfold tasks, update_on_empty_fulfillers. destruct (in_progress ts) eqn:Hi; [|by rewrite Hi].
  destruct (terminators ts); cbn; by rewrite ?Hi.
Qed.
End operations.
End TaskSet.
