(* ===== verification/FlowControl.v ===== *)
(** * Flow control of streaming calls (capnp-rpc/src/flow_control.rs)

    [FixedWindowFlowController]: a stream may have [window_size] bytes in
    flight, and one message more.  [send] sends the message at once; the
    promise it returns resolves when more may be sent. *)

From S2P Require Import Prelude TaskSet.
From stdpp Require Import list.
#[local] Open Scope Z_scope.
#[local] Open Scope rust_scope.

Definition DEFAULT_WINDOW_SIZE : Z := 65536.

Module FlowControl.

(** Promises are known by ids; [Running] keeps those of blocked sends. *)
Inductive State :=
| Running (blocked_sends : list Z)
| FlowFailed (e : ErrorKind).

(** A message in flight: its promise and its size in bytes. *)
Record Ack := { ack_of : Z; ack_size : Z }.
#[export] Instance Ack_eq_dec : EqDecision Ack.
Proof. solve_decision. Defined.

(** [FixedWindowFlowControllerInner].  [sent]: the messages given to the
    transport; [resolved]: the promises that have resolved, [None] for
    [Ok(())], in order. *)
Record Inner := {
  window_size : Z;
  in_flight : Z;
  max_message_size : Z;
  flow_state : State;
  empty_fulfiller : option Z;
  sent : list Ack;
  resolved : list (Z * option ErrorKind)
}.
Record Flow := { inner : Inner; tasks : TaskSet.TaskSet Ack }.

Definition set_state st i : Inner :=
  {| window_size := window_size i; in_flight := in_flight i; max_message_size := max_message_size i;
     flow_state := st; empty_fulfiller := empty_fulfiller i; sent := sent i; resolved := resolved i |}.
Definition set_in_flight n i : Inner :=
  {| window_size := window_size i; in_flight := n; max_message_size := max_message_size i;
     flow_state := flow_state i; empty_fulfiller := empty_fulfiller i; sent := sent i;
     resolved := resolved i |}.
Definition set_empty_fulfiller w i : Inner :=
  {| window_size := window_size i; in_flight := in_flight i; max_message_size := max_message_size i;
     flow_state := flow_state i; empty_fulfiller := w; sent := sent i; resolved := resolved i |}.
Definition resolve_all (ps : list Z) (r : option ErrorKind) i : Inner :=
  {| window_size := window_size i; in_flight := in_flight i; max_message_size := max_message_size i;
     flow_state := flow_state i; empty_fulfiller := empty_fulfiller i; sent := sent i;
     resolved := resolved i ++ ((fun p => (p, r)) <$> ps) |}.

Definition is_ready (i : Inner) : outcome bool :=
  limit ← uadd 64 (window_size i) (max_message_size i);
  Ok (in_flight i <? limit).

(** [Reaper::task_failed] *)
Definition task_failed (e : ErrorKind) (i : Inner) : Inner :=
  match flow_state i with
  | Running blocked_sends => set_state (FlowFailed e) (resolve_all blocked_sends (Some e) i)
  | FlowFailed _ => i
  end.

(** The task of a message, when its acknowledgement has arrived or failed.
    [in_flight -= size] cannot underflow and the sum of [is_ready] cannot
    overflow: the sends that came before have computed it (see [FlowOk] and
    [flow_ok_ready]). *)
Definition ack_effect (a : Ack) (r : option ErrorKind) (i : Inner) (ts : TaskSet.TaskSet Ack)
    : Inner * TaskSet.TaskSet Ack :=
  match r with
  | Some e => (task_failed e i, ts)
  | None =>
      let i := set_in_flight (in_flight i - ack_size a) i in
      match flow_state i with
      | Running blocked_sends =>
          let i := match is_ready i with
                   | Ok true => set_state (Running []) (resolve_all blocked_sends None i)
                   | _ => i
                   end in
          if in_flight i =? 0 then
            match empty_fulfiller i with
            | Some w => (set_empty_fulfiller None i, TaskSet.on_empty w ts)
            | None => (i, ts)
            end
          else (i, ts)
      | FlowFailed _ => (i, ts)
      end
  end.

(** [FixedWindowFlowController::new] *)
Definition new (window : Z) : Flow :=
  {| inner := {| window_size := window; in_flight := 0; max_message_size := 0;
                 flow_state := Running []; empty_fulfiller := None; sent := []; resolved := [] |};
     tasks := TaskSet.new |}.

(** [send], for a message of [words] words with the promise [p]; it returns
    whether the promise is ready at once.  The message is sent, and its task
    begun, before the sums that may overflow. *)
Definition send (p words : Z) : ST Flow (option (option ErrorKind)) := fun f =>
  match umul 64 words 8 with
  | Ok size =>
      let a := {| ack_of := p; ack_size := size |} in
      let i := inner f in
      let i := {| window_size := window_size i; in_flight := in_flight i;
                  max_message_size := Z.max size (max_message_size i);
                  flow_state := flow_state i; empty_fulfiller := empty_fulfiller i;
                  sent := sent i ++ [a]; resolved := resolved i |} in
      match uadd 64 (in_flight i) size with
      | Ok n =>
          let i := set_in_flight n i in
          let ts := TaskSet.add a (tasks f) in
          match is_ready i with
          | Ok ready =>
              match flow_state i with
              | Running blocked_sends =>
                  if ready
                  then (Ok (Some None), {| inner := resolve_all [p] None i; tasks := ts |})
                  else (Ok None, {| inner := set_state (Running (blocked_sends ++ [p])) i; tasks := ts |})
              | FlowFailed e => (Ok (Some (Some e)), {| inner := resolve_all [p] (Some e) i; tasks := ts |})
              end
          | _ => (Panic, {| inner := i; tasks := ts |})
          end
      | _ => (Panic, {| inner := i; tasks := tasks f |})
      end
  | _ => (Panic, f)
  end.

(** [wait_all_acked], with the promise [w].  A fulfiller that is replaced is
    dropped, which cancels the promise before it. *)
Definition wait_all_acked (w : Z) (f : Flow) : Flow :=
  match flow_state (inner f) with
  | Running (_ :: _) =>
      let i := match empty_fulfiller (inner f) with
               | Some old => resolve_all [old] (Some Failed) (inner f)
               | None => inner f
               end in
      {| inner := set_empty_fulfiller (Some w) i; tasks := tasks f |}
  | _ => {| inner := inner f; tasks := TaskSet.on_empty w (tasks f) |}
  end.

(** A poll of the task set with the acknowledgements that have arrived. *)
Definition poll_acks (acks : list (Ack * option ErrorKind)) (f : Flow) : Flow :=
  let '(_, (i, ts)) := TaskSet.poll ack_effect (Some <$> acks) (inner f) (tasks f) in
  {| inner := i; tasks := ts |}.

(** ** Invariant *)

(** Bytes not yet acknowledged. *)
Fixpoint bytes (l : list Ack) : Z := match l with [] => 0 | a :: l => ack_size a + bytes l end.

(** [lost]: the messages whose acknowledgement failed. *)
Record FlowOk (lost : list Ack) (f : Flow) : Prop := {
  flow_in_flight : in_flight (inner f) = bytes (TaskSet.tasks (tasks f)) + bytes lost;
  flow_sizes : Forall (fun a => 0 <= ack_size a <= max_message_size (inner f))
                 (TaskSet.tasks (tasks f) ++ lost);
  flow_window : 0 <= window_size (inner f) /\ 0 <= max_message_size (inner f) /\
    window_size (inner f) + max_message_size (inner f) < 2 ^ 64;
  flow_blocked : forall ps, flow_state (inner f) = Running ps ->
    ps = [] \/ window_size (inner f) + max_message_size (inner f) <= in_flight (inner f);
  flow_open : flow_state (inner f) = Running [] ->
    in_flight (inner f) <= window_size (inner f) + max_message_size (inner f);
  flow_lost : forall ps, flow_state (inner f) = Running ps -> lost = []
}.

Lemma bytes_perm l k : l ≡ₚ k -> bytes l = bytes k.
Proof. induction 1; cbn; lia. Qed.
Lemma bytes_app l k : bytes (l ++ k) = bytes l + bytes k.
Proof. induction l; cbn; lia. Qed.
Lemma bytes_nonneg l m : Forall (fun a => 0 <= ack_size a <= m) l -> 0 <= bytes l.
Proof. induction 1; cbn; lia. Qed.

(** [is_ready], where its sum does not overflow. *)
Lemma is_ready_ok i : 0 <= window_size i + max_message_size i < 2 ^ 64 ->
  is_ready i = Ok (in_flight i <? window_size i + max_message_size i).
Proof. intros H. unfold is_ready. by rewrite uadd_ok by lia. Qed.
Lemma flow_ok_ready lost f : FlowOk lost f ->
  is_ready (inner f) = Ok (in_flight (inner f) <? window_size (inner f) + max_message_size (inner f)).
Proof. intros [_ _ Hw _ _ _]. apply is_ready_ok. lia. Qed.

Lemma flow_ok_new w : 0 <= w < 2 ^ 64 -> FlowOk [] (new w).
Proof. intros Hw. split; cbn; try done; [lia|intros ps [= <-]; by left|lia]. Qed.

Lemma add_tasks a (ts : TaskSet.TaskSet Ack) : TaskSet.tasks (TaskSet.add a ts) = TaskSet.tasks ts ++ [a].
Proof. unfold TaskSet.tasks. cbn. by rewrite omap_app, app_assoc. Qed.
Lemma on_empty_tasks w (ts : TaskSet.TaskSet Ack) : TaskSet.tasks (TaskSet.on_empty w ts) = TaskSet.tasks ts.
Proof. unfold TaskSet.tasks. cbn. by rewrite omap_app, app_nil_r. Qed.

(** The state does not depend on what was resolved or on who waits. *)
Lemma flow_ok_same lost f f' : FlowOk lost f ->
  in_flight (inner f') = in_flight (inner f) -> window_size (inner f') = window_size (inner f) ->
  max_message_size (inner f') = max_message_size (inner f) ->
  flow_state (inner f') = flow_state (inner f) ->
  TaskSet.tasks (tasks f') = TaskSet.tasks (tasks f) -> FlowOk lost f'.
Proof.
  intros [H1 H2 H3 H4 H5 H6] E1 E2 E3 E4 E5. split;
    rewrite ?E1, ?E2, ?E3, ?E4, ?E5; done.
Qed.

Lemma send_ok lost f p words : FlowOk lost f ->
  0 <= words -> in_flight (inner f) + 8 * words < 2 ^ 64 ->
  window_size (inner f) + 8 * words < 2 ^ 64 ->
  exists r f', send p words f = (Ok r, f') /\ FlowOk lost f' /\
    sent (inner f') = sent (inner f) ++ [{| ack_of := p; ack_size := 8 * words |}] /\
    in_flight (inner f') = in_flight (inner f) + 8 * words /\
    max_message_size (inner f') = Z.max (8 * words) (max_message_size (inner f)) /\
    window_size (inner f') = window_size (inner f).
Proof.
  intros Hf Hw Hn Hm. pose proof Hf as [H1 H2 H3 H4 Ho H5].
  apply Forall_app in H2 as [H2 H2']. pose proof (bytes_nonneg _ _ H2) as Hb.
  pose proof (bytes_nonneg _ _ H2') as Hb'.
  unfold send. rewrite umul_ok by lia. cbn [in_flight inner]. rewrite uadd_ok by lia.
  set (a := {| ack_of := p; ack_size := words * 8 |}).
  set (i := set_in_flight _ _). rewrite is_ready_ok by (cbn; lia).
  assert (Hok : forall i', in_flight i' = in_flight i -> window_size i' = window_size i ->
    max_message_size i' = max_message_size i ->
    (forall ps, flow_state i' = Running ps -> ps = [] \/ window_size i' + max_message_size i' <= in_flight i') ->
    (flow_state i' = Running [] -> in_flight i' <= window_size i' + max_message_size i') ->
    (forall ps, flow_state i' = Running ps -> lost = []) ->
    FlowOk lost {| inner := i'; tasks := TaskSet.add a (tasks f) |}).
  { intros i' E1 E2 E3 E4 E5 E6. split; cbn [inner tasks]; rewrite ?add_tasks; try done.
    - rewrite E1, bytes_app. cbn. lia.
    - rewrite E3. apply Forall_app. split; [apply Forall_app; split|];
        [eapply Forall_impl; [exact H2|]; cbn; lia|repeat constructor; cbn; lia|
         eapply Forall_impl; [exact H2'|]; cbn; lia].
    - rewrite E2, E3. cbn. lia. }
  assert (Ha : a = {| ack_of := p; ack_size := 8 * words |}) by (unfold a; f_equal; lia).
  change (flow_state i) with (flow_state (inner f)).
  destruct (flow_state (inner f)) as [ps|e] eqn:Hst.
  - case_bool.
    + eexists _, _. split; [done|]. split_and!; cbn; try done; [|by rewrite Ha|lia|lia].
      apply Hok; try done; cbn in *; [|lia].
      intros ps' [= <-]. left. destruct (H4 ps eq_refl) as [?|Hnot]; [done|exfalso]. lia.
    + eexists _, _. split; [done|]. split_and!; cbn; try done; [|by rewrite Ha|lia|lia].
      apply Hok; try done; [intros ps' [= <-]; right; cbn in *; lia|by destruct ps|intros _ _; by apply (H5 ps)].
  - eexists _, _. split; [done|]. split_and!; cbn; try done; [|by rewrite Ha|lia|lia].
    by apply Hok.
Qed.

(** A send that returns has overflowed nothing. *)
Lemma send_fits p words f r f' : send p words f = (Ok r, f') ->
  in_flight (inner f) + 8 * words < 2 ^ 64 /\ window_size (inner f) + 8 * words < 2 ^ 64.
Proof.
  unfold send, umul. case_bool; [|done]. cbn [in_flight inner]. unfold uadd at 1. case_bool; [|done].
  unfold is_ready, uadd. cbn [window_size max_message_size set_in_flight]. case_bool; [|done]. lia.
Qed.

Lemma remove_tasks a l (ts : TaskSet.TaskSet Ack) :
  TaskSet.remove_one a (TaskSet.in_progress ts) = Some l ->
  TaskSet.tasks ts ≡ₚ a :: TaskSet.tasks (TaskSet.set_in_progress l ts).
Proof.
  intros Hr. unfold TaskSet.tasks. cbn [TaskSet.set_in_progress TaskSet.in_progress TaskSet.enqueued].
  by rewrite (TaskSet.remove_one_perm _ _ _ Hr).
Qed.

(** An acknowledgement arrives, or the call it is for failed. *)
Definition lose (a : Ack) (r : option ErrorKind) (lost : list Ack) : list Ack :=
  match r with None => lost | Some _ => a :: lost end.

Lemma ack_ok lost i ts a r l :
  FlowOk lost {| inner := i; tasks := ts |} ->
  TaskSet.remove_one a (TaskSet.in_progress ts) = Some l ->
  let (i', ts') := ack_effect a r i (TaskSet.set_in_progress l ts) in
  FlowOk (lose a r lost) {| inner := i'; tasks := ts' |} /\
  TaskSet.tasks ts' = TaskSet.tasks (TaskSet.set_in_progress l ts).
Proof.
  intros [H1 H2 H3 H4 H5 H6] Hr. cbn [inner tasks] in *. apply remove_tasks in Hr.
  rewrite (bytes_perm _ _ Hr) in H1. rewrite Hr in H2. cbn [bytes app] in H1, H2.
  apply Forall_cons in H2 as [Ha H2]. set (ts1 := TaskSet.set_in_progress l ts) in *.
  destruct r as [e|]; cbn [ack_effect lose].
  - unfold task_failed. destruct (flow_state i) as [ps|e'] eqn:Hst.
    + split; [|done]. split; cbn -[TaskSet.tasks]; try done; [lia|].
      apply Forall_app in H2 as [H2 H2']. apply Forall_app; split; [done|by constructor].
    + split; [|done]. split; cbn [inner tasks bytes]; rewrite ?Hst; try done; [lia|].
      apply Forall_app in H2 as [H2 H2']. apply Forall_app; split; [done|by constructor].
  - set (i1 := set_in_flight (in_flight i - ack_size a) i).
    assert (Hok : forall ps, flow_state i = Running ps ->
      FlowOk lost {| inner := match is_ready i1 with
                              | Ok true => set_state (Running []) (resolve_all ps None i1)
                              | _ => i1
                              end; tasks := ts1 |}).
    { intros ps Hst. rewrite is_ready_ok by (cbn; lia). cbn [in_flight window_size max_message_size i1 set_in_flight].
      case_bool.
      - split; cbn -[TaskSet.tasks]; try done; [lia|intros ps' [= <-]; by left|lia|intros; by eapply H6].
      - split; cbn -[TaskSet.tasks]; try done; [lia|..].
        + intros ps' Hps. right. lia.
        + intros Hps. specialize (H5 Hps). lia. }
    change (flow_state i1) with (flow_state i). destruct (flow_state i) as [ps|e'] eqn:Hst.
    + specialize (Hok ps eq_refl). set (i2 := match is_ready i1 with Ok true => _ | _ => i1 end) in *.
      case_bool; [|done]. destruct (empty_fulfiller i2); [|done].
      rewrite on_empty_tasks. split; [|done]. eapply flow_ok_same; [exact Hok|done..|].
      cbn [tasks]. by rewrite on_empty_tasks.
    + split; [|done]. split; cbn -[TaskSet.tasks]; rewrite ?Hst; try done. lia.
Qed.

Lemma poll_ready_ok acks lost i ts :
  FlowOk lost {| inner := i; tasks := ts |} ->
  exists lost' i' ts', TaskSet.poll_ready ack_effect (Some <$> acks) i ts = (None, (i', ts')) /\
    FlowOk lost' {| inner := i'; tasks := ts' |}.
Proof.
  revert lost i ts. induction acks as [|[a r] acks IH]; intros lost i ts Hf; cbn [fmap list_fmap TaskSet.poll_ready].
  - by eexists _, _, _.
  - destruct (TaskSet.remove_one a (TaskSet.in_progress ts)) as [l|] eqn:Hr; [|by eapply IH].
    pose proof (ack_ok lost i ts a r l Hf Hr) as Hok.
    destruct (ack_effect a r i (TaskSet.set_in_progress l ts)) as [i' ts']. destruct Hok as [Hok _].
    eapply IH, flow_ok_same; [exact Hok|done..|]. cbn [tasks]. by rewrite TaskSet.update_tasks.
Qed.

Lemma take_ok lost f : FlowOk lost f ->
  FlowOk lost {| inner := inner f; tasks := TaskSet.take_enqueued (tasks f) |}.
Proof.
  intros Hf. eapply flow_ok_same; [exact Hf|done..|]. cbn [tasks]. unfold TaskSet.tasks at 1.
  destruct (TaskSet.take_enqueued_tasks (tasks f)) as [-> ->]. by rewrite app_nil_r.
Qed.

Lemma poll_acks_ok acks lost f : FlowOk lost f -> exists lost', FlowOk lost' (poll_acks acks f).
Proof.
  intros Hf. unfold poll_acks, TaskSet.poll.
  destruct (poll_ready_ok acks lost (inner f) (TaskSet.take_enqueued (tasks f))) as (lost' & i & ts & -> & Hf');
    [by apply take_ok|]. by exists lost'.
Qed.

Lemma wait_ok w lost f : FlowOk lost f -> FlowOk lost (wait_all_acked w f).
Proof.
  intros Hf. unfold wait_all_acked. destruct (flow_state (inner f)) as [[|p ps]|e] eqn:Hst.
  - eapply flow_ok_same; [exact Hf|done..|]. cbn [tasks]. by rewrite on_empty_tasks.
  - eapply flow_ok_same; [exact Hf|..]; cbn; by destruct (empty_fulfiller (inner f)).
  - eapply flow_ok_same; [exact Hf|done..|]. cbn [tasks]. by rewrite on_empty_tasks.
Qed.
End FlowControl.
