(* ===== verification/FlowProps.v ===== *)
(** * Properties of flow control

    A stream whose application sends messages and whose acknowledgements
    arrive, or fail, in any order ([flow_reachable]). *)

From S2P Require Import Prelude TaskSet FlowControl.
From stdpp Require Import list.
#[local] Open Scope Z_scope.
#[local] Open Scope rust_scope.
Import FlowControl.

(** A send that panics, because a sum of sizes overflows, is the last step of
    its program: the histories are those of sends that return.

    [patient]: the application sends only when no send of its own is blocked. *)
Definition unblocked (f : Flow) : bool :=
  match flow_state (inner f) with Running [] => true | _ => false end.

Inductive flow_reachable (patient : bool) : Flow -> Prop :=
| flow_start window : 0 <= window < 2 ^ 64 -> flow_reachable patient (new window)
| flow_send f p words r f' :
    flow_reachable patient f -> 0 <= words ->
    (patient = true -> unblocked f = true) ->
    send p words f = (Ok r, f') -> flow_reachable patient f'
| flow_acks f acks : flow_reachable patient f -> flow_reachable patient (poll_acks acks f)
| flow_wait f w : flow_reachable patient f -> flow_reachable patient (wait_all_acked w f).

Lemma flow_reachable_ok patient f : flow_reachable patient f -> exists lost, FlowOk lost f.
Proof.
  induction 1 as [window Hw|f p words r f' Hf [lost IH] Hw _ Hs|f acks Hf [lost IH]|f w Hf [lost IH]].
  - exists []. by apply flow_ok_new.
  - exists lost. destruct (send_fits _ _ _ _ _ Hs) as [Hn Hm].
    destruct (send_ok lost f p words IH Hw Hn Hm) as (r' & f1 & Hs' & Hok & _). congruence.
  - by eapply poll_acks_ok.
  - exists lost. by apply wait_ok.
Qed.

(** ** The bound on bytes in flight *)

Lemma ack_in_flight a r i ts : 0 <= ack_size a ->
  let (i', _) := ack_effect a r i ts in
  in_flight i' <= in_flight i /\ window_size i' = window_size i /\
  max_message_size i' = max_message_size i.
Proof.
  intros Ha. destruct r as [e|]; cbn [ack_effect].
  - unfold task_failed. by destruct (flow_state i).
  - cbn [flow_state set_in_flight]. destruct (flow_state i); [|cbn; lia].
    destruct (is_ready _) as [[]| | | |]; cbn; (destruct (_ =? 0); [destruct (empty_fulfiller i)|]); cbn; lia.
Qed.

Lemma poll_in_flight acks lost f : FlowOk lost f ->
  in_flight (inner (poll_acks acks f)) <= in_flight (inner f) /\
  window_size (inner (poll_acks acks f)) = window_size (inner f) /\
  max_message_size (inner (poll_acks acks f)) = max_message_size (inner f).
Proof.
  intros Hf%take_ok. unfold poll_acks, TaskSet.poll. cbn [inner tasks] in *.
  revert lost Hf. generalize (inner f) as i, (TaskSet.take_enqueued (tasks f)) as ts.
  induction acks as [|[a r] acks IH]; intros i ts lost Hf; cbn [fmap list_fmap TaskSet.poll_ready]; [done|].
  destruct (TaskSet.remove_one a (TaskSet.in_progress ts)) as [l|] eqn:Hr; [|by eapply IH].
  pose proof (ack_ok lost i ts a r l Hf Hr) as Hok.
  assert (Ha : 0 <= ack_size a).
  { destruct Hf as [_ Hs _ _ _ _]. cbn [tasks] in Hs. rewrite (remove_tasks _ _ _ Hr) in Hs.
    apply Forall_app, proj1, Forall_cons, proj1 in Hs. cbn in Hs. lia. }
  pose proof (ack_in_flight a r i (TaskSet.set_in_progress l ts) Ha) as Hle.
  destruct (ack_effect a r i (TaskSet.set_in_progress l ts)) as [i' ts']. destruct Hok as [Hok _].
  destruct Hle as (Hle & <- & <-).
  destruct (IH i' (TaskSet.update_on_empty_fulfillers ts') (lose a r lost)) as (H1 & H2 & H3).
  { eapply flow_ok_same; [exact Hok|done..|]. cbn [tasks]. by rewrite TaskSet.update_tasks. }
  split; [lia|done].
Qed.

Lemma patient_window f : flow_reachable true f ->
  in_flight (inner f) <= window_size (inner f) + 2 * max_message_size (inner f).
Proof.
  intros Hf. induction Hf as [window Hw|f p words r f' Hf IH Hw Hp Hs|f acks Hf IH|f w Hf IH].
  - cbn. lia.
  - apply flow_reachable_ok in Hf as [lost Hok].
    destruct (send_fits _ _ _ _ _ Hs) as [Hn Hm].
    destruct (send_ok lost f p words Hok Hw Hn Hm) as (r' & f1 & Hs' & _ & _ & E1 & E2 & E3).
    assert (f1 = f') as -> by congruence.
    specialize (Hp eq_refl). unfold unblocked in Hp. destruct (flow_state (inner f)) as [[|]|] eqn:Hst; try done.
    pose proof (flow_open _ _ Hok Hst). lia.
  - apply flow_reachable_ok in Hf as [lost Hok]. destruct (poll_in_flight acks lost f Hok) as (? & -> & ->). lia.
  - unfold wait_all_acked. destruct (flow_state (inner f)) as [[|]|]; try done.
    by destruct (empty_fulfiller (inner f)).
Qed.

(** C32: Backpressure is exact, in every history of sends that return (one whose
    sums of sizes overflow a [usize] panics).  As long as no call failed, the count of bytes
    in flight is the size of the messages not yet acknowledged; a promise of
    [send] waits only while they fill the window and one largest message more;
    and an application that waits for its sends never has more in flight than
    the window and two largest messages. *)
Theorem flow_backpressure patient f ps :
  flow_reachable patient f -> flow_state (inner f) = Running ps ->
  in_flight (inner f) = bytes (TaskSet.tasks (tasks f)) /\
  (ps <> [] ->
   window_size (inner f) + max_message_size (inner f) <= bytes (TaskSet.tasks (tasks f))) /\
  (patient = true ->
   bytes (TaskSet.tasks (tasks f)) <= window_size (inner f) + 2 * max_message_size (inner f)).
Proof.
  intros Hf Hst. destruct (flow_reachable_ok patient f Hf) as [lost [H1 _ _ H4 _ H6]].
  specialize (H6 ps Hst). subst lost. cbn in H1.
  assert (Hin : in_flight (inner f) = bytes (TaskSet.tasks (tasks f))) by lia.
  split; [done|]. split; rewrite <- Hin.
  - intros Hps. destruct (H4 ps Hst) as [?|Hr]; [done|]. lia.
  - intros ->. by apply patient_window.
Qed.

(** ** Every blocked send is released *)

Definition settles (f f' : Flow) (r : option ErrorKind) : Prop :=
  forall ps p, flow_state (inner f) = Running ps -> p ∈ ps -> (p, r) ∈ resolved (inner f').

Lemma poll_all acks i ts ps :
  FlowOk [] {| inner := i; tasks := ts |} -> flow_state i = Running ps ->
  acks ≡ₚ TaskSet.in_progress ts ->
  exists i' ts' ps', TaskSet.poll_ready ack_effect ((fun a => Some (a, None)) <$> acks) i ts = (None, (i', ts')) /\
    FlowOk [] {| inner := i'; tasks := ts' |} /\ TaskSet.in_progress ts' = [] /\
    omap TaskSet.task_of (TaskSet.enqueued ts') = omap TaskSet.task_of (TaskSet.enqueued ts) /\
    window_size i' = window_size i /\
    flow_state i' = Running ps' /\ (forall p, p ∈ ps -> p ∈ ps' \/ (p, None) ∈ resolved i') /\
    (forall x, x ∈ resolved i -> x ∈ resolved i').
Proof.
  revert i ts ps. induction acks as [|a acks IH]; intros i ts ps Hf Hst Hperm;
    cbn [fmap list_fmap TaskSet.poll_ready].
  { apply Permutation_nil in Hperm. exists i, ts, ps. split_and!; try done. intros p Hp. by left. }
  destruct (TaskSet.remove_one_elem a (TaskSet.in_progress ts)) as [l Hr]; [rewrite <- Hperm; by left|].
  rewrite Hr. pose proof (ack_ok [] i ts a None l Hf Hr) as Hok. cbn [lose] in Hok.
  assert (Hl : acks ≡ₚ l).
  { apply TaskSet.remove_one_perm in Hr. rewrite Hr in Hperm. by apply Permutation_cons_inv in Hperm. }
  destruct (ack_effect a None i (TaskSet.set_in_progress l ts)) as [i1 ts1] eqn:He.
  destruct Hok as [Hok Htasks].
  assert (Hstep : exists ps1, flow_state i1 = Running ps1 /\ window_size i1 = window_size i /\
    (forall p, p ∈ ps -> p ∈ ps1 \/ (p, None) ∈ resolved i1) /\
    (forall x, x ∈ resolved i -> x ∈ resolved i1) /\
    TaskSet.in_progress ts1 = l /\
    omap TaskSet.task_of (TaskSet.enqueued ts1) = omap TaskSet.task_of (TaskSet.enqueued ts)).
  { cbn [ack_effect flow_state set_in_flight] in He. rewrite Hst in He.
    assert (Hin : forall p, p ∈ ps -> (p, @None ErrorKind) ∈ resolved i ++ ((fun p => (p, None)) <$> ps)).
    { intros p Hp. apply elem_of_app. right. by apply list_elem_of_fmap_2'  with p. }
    assert (Hold : forall x, x ∈ resolved i -> x ∈ resolved i ++ ((fun p => (p, @None ErrorKind)) <$> ps)).
    { intros x Hx. by apply elem_of_app; left. }
    destruct (is_ready _) as [[]| | | |]; [exists []|exists ps..];
      repeat (case_match; simplify_eq); cbn in *; split_and!; try done; auto;
      by rewrite omap_app, app_nil_r. }
  destruct Hstep as (ps1 & Hst1 & Hw1 & Hp1 & Hx1 & Hi1 & He1).
  destruct (IH i1 (TaskSet.update_on_empty_fulfillers ts1) ps1) as (i' & ts' & ps' & Hrun & Hf' & H1 & H2 & H3 & H4 & H5 & H6).
  - eapply flow_ok_same; [exact Hok|done..|]. cbn [tasks]. by rewrite TaskSet.update_tasks.
  - done.
  - rewrite Hl, <- Hi1. unfold TaskSet.update_on_empty_fulfillers.
    destruct (TaskSet.in_progress ts1) eqn:Hx; [|by rewrite Hx]. destruct (TaskSet.terminators ts1); by rewrite ?Hx.
  - exists i', ts', ps'. split_and!; try done.
    + rewrite H2, <- He1. unfold TaskSet.update_on_empty_fulfillers.
      by destruct (TaskSet.in_progress ts1), (TaskSet.terminators ts1).
    + congruence.
    + intros p Hp. destruct (Hp1 p Hp) as [Hp'|Hp']; [by apply H5|right; by apply H6].
    + intros x Hx. by apply H6, Hx1.
Qed.

(** No send stays blocked: once everything in flight is acknowledged, in
    whatever order, every promise of [send] that waited has resolved with
    [Ok], and nothing is in flight. *)
Lemma flow_releases patient f acks ps :
  flow_reachable patient f -> 0 < window_size (inner f) -> flow_state (inner f) = Running ps ->
  acks ≡ₚ TaskSet.tasks (tasks f) ->
  let f' := poll_acks ((fun a => (a, None)) <$> acks) f in
  flow_state (inner f') = Running [] /\ in_flight (inner f') = 0 /\
  forall p, p ∈ ps -> (p, None) ∈ resolved (inner f').
Proof.
  intros [lost Hok]%flow_reachable_ok Hw Hst Hperm.
  assert (lost = []) as -> by by eapply flow_lost.
  destruct (TaskSet.take_enqueued_tasks (tasks f)) as [Htake Htasks].
  destruct (poll_all acks (inner f) (TaskSet.take_enqueued (tasks f)) ps)
    as (i' & ts' & ps' & Hrun & Hf' & Hp & He & Hwin & Hst' & Hres & _).
  { by apply take_ok. } { done. } { by rewrite Htasks. }
  unfold poll_acks, TaskSet.poll. rewrite <- list_fmap_compose.
  change (Some ∘ (fun a => (a, None))) with (fun a : Ack => Some (a, @None ErrorKind)). rewrite Hrun.
  cbn [inner tasks]. destruct Hf' as [H1 _ [_ [H3 _]] H4 _ _]. cbn [inner tasks] in *.
  assert (Hz : in_flight i' = 0).
  { rewrite H1. unfold TaskSet.tasks. by rewrite Hp, He, Htake. }
  assert (ps' = []) as ->.
  { destruct (H4 ps' Hst') as [?|Hr]; [done|]. lia. }
  split_and!; try done. intros p Hps. destruct (Hres p Hps) as [Hn|?]; [by apply elem_of_nil in Hn|done].
Qed.

(** The first call that fails fails the stream: every blocked send gets its
    error, and so does every later send, at once. *)
Lemma flow_failure patient f a e ps p words :
  flow_reachable patient f -> flow_state (inner f) = Running ps -> a ∈ TaskSet.tasks (tasks f) ->
  0 <= words -> in_flight (inner f) + 8 * words < 2 ^ 64 -> window_size (inner f) + 8 * words < 2 ^ 64 ->
  let f' := poll_acks [(a, Some e)] f in
  flow_state (inner f') = FlowFailed e /\
  resolved (inner f') = resolved (inner f) ++ ((fun p => (p, Some e)) <$> ps) /\
  fst (send p words f') = Ok (Some (Some e)).
Proof.
  intros [lost Hok]%flow_reachable_ok Hst Ha Hw Hn Hm.
  destruct (TaskSet.take_enqueued_tasks (tasks f)) as [_ Htasks].
  destruct (TaskSet.remove_one_elem a (TaskSet.in_progress (TaskSet.take_enqueued (tasks f)))) as [l Hr];
    [by rewrite Htasks|].
  unfold poll_acks, TaskSet.poll. cbn [fmap list_fmap TaskSet.poll_ready]. rewrite Hr.
  cbn [ack_effect TaskSet.poll_ready inner]. unfold task_failed. rewrite Hst.
  split; [done|]. split; [done|].
  destruct Hok as [H1 H2 H3 _ _ _]. apply Forall_app in H2 as [H2 H2'].
  pose proof (bytes_nonneg _ _ H2). pose proof (bytes_nonneg _ _ H2').
  unfold send. rewrite umul_ok by lia. cbn [inner in_flight set_state resolve_all].
  rewrite uadd_ok by lia. by rewrite is_ready_ok by (cbn; lia).
Qed.

(** [wait_all_acked] on a stream with nothing in flight never resolves: the
    task set looks at the fulfillers of [on_empty] only when a task finishes. *)
Lemma idle_wait_never_resolves f w polls :
  TaskSet.tasks (tasks f) = [] -> flow_state (inner f) = Running [] ->
  TaskSet.emptied (tasks (fold_left (fun f acks => poll_acks acks f) polls (wait_all_acked w f))) =
  TaskSet.emptied (tasks f).
Proof.
  intros Ht Hst. unfold wait_all_acked. rewrite Hst.
  assert (Hstep : forall acks f, TaskSet.tasks (tasks f) = [] ->
    TaskSet.tasks (tasks (poll_acks acks f)) = [] /\
    TaskSet.emptied (tasks (poll_acks acks f)) = TaskSet.emptied (tasks f)).
  { clear. intros acks f Ht. destruct (TaskSet.take_enqueued_tasks (tasks f)) as [H1 H2].
    rewrite Ht in H2.
    pose proof (TaskSet.take_emptied (tasks f)) as He.
    assert (Hrun : TaskSet.poll_ready ack_effect (Some <$> acks) (inner f) (TaskSet.take_enqueued (tasks f))
      = (None, (inner f, TaskSet.take_enqueued (tasks f)))).
    { induction acks as [|[a r] acks IH]; cbn [fmap list_fmap TaskSet.poll_ready]; [done|]. by rewrite H2. }
    unfold poll_acks, TaskSet.poll. rewrite Hrun. cbn [tasks]. split; [|done].
    unfold TaskSet.tasks. by rewrite H1, H2. }
  set (f0 := {| inner := inner f |}).
  assert (H0 : TaskSet.tasks (tasks f0) = []) by (cbn -[TaskSet.tasks]; by rewrite on_empty_tasks).
  change (TaskSet.emptied (tasks f)) with (TaskSet.emptied (tasks f0)). clear Ht Hst. revert H0.
  generalize f0. induction polls as [|acks polls IH]; intros f1 H1; cbn [fold_left]; [done|].
  destruct (Hstep acks f1 H1) as [H2 <-]. by apply IH.
Qed.

(** ** An example *)

Definition small_flow : Flow := new 16.
Definition sends (ws : list (Z * Z)) (f : Flow) : Flow :=
  fold_left (fun f w => snd (send w.1 w.2 f)) ws f.

(** Two messages of two words: the second send is blocked. *)
Definition full_flow : Flow := sends [(1, 2); (2, 2)] small_flow.

Lemma full_reachable : flow_reachable true full_flow.
Proof.
  apply (flow_send true (sends [(1, 2)] small_flow) 2 2 None);
    [|lia|by vm_compute|by vm_compute].
  apply (flow_send true small_flow 1 2 (Some None));
    [|lia|by vm_compute|by vm_compute].
  by apply flow_start.
Qed.

Lemma flow_backpressure_witness :
  flow_reachable true full_flow /\
  exists ps, flow_state (inner full_flow) = Running ps /\ ps <> [] /\
    window_size (inner full_flow) + max_message_size (inner full_flow) <=
      bytes (TaskSet.tasks (tasks full_flow)) <=
    window_size (inner full_flow) + 2 * max_message_size (inner full_flow).
Proof.
  split; [exact full_reachable|]. exists [2]. split; [by vm_compute|]. split; [done|].
  destruct (flow_backpressure true full_flow [2] full_reachable) as (_ & H1 & H2); [by vm_compute|].
  split; [by apply H1|by apply H2].
Defined.

Lemma flow_releases_witness :
  flow_state (inner (poll_acks ((fun a => (a, None)) <$> TaskSet.tasks (tasks full_flow)) full_flow)) =
    Running [].
Proof.
  apply (flow_releases true full_flow (TaskSet.tasks (tasks full_flow)) [2] full_reachable);
    [by vm_compute|by vm_compute|done].
Defined.

(** A wait that begins while a send is blocked is not told when everything has
    been acknowledged either: [on_empty] is then called after the last task
    finished. *)
Example blocked_wait_hangs :
  let f := wait_all_acked 9 full_flow in
  let f := poll_acks ((fun a => (a, None)) <$> TaskSet.tasks (tasks f)) f in
  in_flight (inner f) = 0 /\ TaskSet.emptied (tasks (poll_acks [] (poll_acks [] f))) = [].
Proof. by vm_compute. Qed.
