(* ===== verification/WriteQueue.v ===== *)
(** * Queues of messages to write, streams of messages to read
    (capnp-futures/src/write_queue.rs, capnp-futures/src/read_stream.rs)

    A write queue is a channel of items and a task that takes them off one at
    a time.  Handles may push items whenever the task awaits; writing a message
    touches only the writer, so a turn of the task ([turn]) is one step here,
    and pushes happen between turns.  A read stream is a future that reads the
    next message, replaced by a new one each time it is ready. *)

From S2P Require Import Prelude Segments Serialize AsyncIo AsyncSerialize.
#[local] Open Scope Z_scope.
#[local] Open Scope rust_scope.

Module WriteQueue.

(** [Item]; the promise an item resolves is known by its id. *)
Inductive Item (M : Type) :=
| Message (m : M) (p : Z)
| Done (r : option ErrorKind) (p : Z).
Arguments Message {M} m p.
Arguments Done {M} r p.

(** How a promise resolved: with its message, with [Ok(())], or canceled. *)
Inductive Answer (M : Type) := Written (m : M) | Terminated | CanceledItem.
Arguments Written {M} m.
Arguments Terminated {M}.
Arguments CanceledItem {M}.

(** [rx] is [None] once the task has ended ([finished]) and dropped the
    receiver. *)
Record Queue (W M : Type) := {
  writer : W;
  rx : option (list (Item M));
  in_flight : Z;
  answers : list (Z * Answer M);
  finished : option (option ErrorKind)
}.
Arguments writer {W M} _.
Arguments rx {W M} _.
Arguments in_flight {W M} _.
Arguments answers {W M} _.
Arguments finished {W M} _.
Arguments Build_Queue {W M}.

(** [AtomicI32]: addition wraps around. *)
Definition wrap_i32 (n : Z) : Z := (n + 2 ^ 31) mod 2 ^ 32 - 2 ^ 31.

Section operations.
Context {W M : Type} `{AsyncWriteExt W} `{AsOutputSegments M}.
Notation Q := (Queue W M).

(** [write_queue] *)
Definition write_queue (w : W) : Q :=
  {| writer := w; rx := Some []; in_flight := 0; answers := []; finished := None |}.

Definition promise_of (i : Item M) : Z := match i with Message _ p | Done _ p => p end.
Definition is_message (i : Item M) : bool := match i with Message _ _ => true | Done _ _ => false end.

(** [unbounded_send]: an item that cannot be sent is dropped, which cancels
    its promise. *)
Definition push_item (i : Item M) (q : Q) : Q :=
  match rx q with
  | Some l => {| writer := writer q; rx := Some (l ++ [i]); in_flight := in_flight q;
                 answers := answers q; finished := finished q |}
  | None => {| writer := writer q; rx := None; in_flight := in_flight q;
               answers := answers q ++ [(promise_of i, CanceledItem)]; finished := finished q |}
  end.
Definition add_in_flight (n : Z) (q : Q) : Q :=
  {| writer := writer q; rx := rx q; in_flight := wrap_i32 (in_flight q + n); answers := answers q;
     finished := finished q |}.

(** [Sender::send], [Sender::terminate], [Sender::len] *)
Definition send (m : M) (p : Z) (q : Q) : Q := push_item (Message m p) (add_in_flight 1 q).
Definition terminate (r : option ErrorKind) (p : Z) (q : Q) : Q := push_item (Done r p) q.
Definition len (q : Q) : outcome Z :=
  rust_assert (0 <=? in_flight q) ;; ret (in_flight q).

(** The task ends: what is left in the channel is dropped. *)
Definition finish (r : option ErrorKind) (q : Q) : Q :=
  {| writer := writer q; rx := None; in_flight := in_flight q;
     answers := answers q ++ ((fun i => (promise_of i, CanceledItem)) <$> default [] (rx q));
     finished := Some r |}.
Definition answer (p : Z) (a : Answer M) (q : Q) : Q :=
  {| writer := writer q; rx := rx q; in_flight := in_flight q; answers := answers q ++ [(p, a)];
     finished := finished q |}.
Definition set_writer (w : W) (q : Q) : Q :=
  {| writer := w; rx := rx q; in_flight := in_flight q; answers := answers q; finished := finished q |}.
Definition set_rx (l : list (Item M)) (q : Q) : Q :=
  {| writer := writer q; rx := Some l; in_flight := in_flight q; answers := answers q;
     finished := finished q |}.

(** One turn of the loop in [write_queue]; on an empty channel the task waits. *)
Definition turn : ST Q unit := fun q =>
  match rx q with
  | Some (Message m p :: l) =>
      let (result, w) := async_write_message m (writer q) in
      let q := add_in_flight (-1) (set_writer w (set_rx l q)) in
      match result with
      | Ok _ =>
          let (flushed, w) := async_flush (writer q) in
          let q := set_writer w q in
          match flushed with
          | Ok _ => (Ok tt, answer p (Written m) q)
          | Err e => (Ok tt, finish (Some e) (answer p CanceledItem q))
          | Panic => (Panic, q)
          | UB => (UB, q)
          | OutOfFuel => (OutOfFuel, q)
          end
      | Err e => (Ok tt, finish (Some e) (answer p CanceledItem q))
      | Panic => (Panic, q)
      | UB => (UB, q)
      | OutOfFuel => (OutOfFuel, q)
      end
  | Some (Done r p :: l) => (Ok tt, finish r (answer p Terminated (set_rx l q)))
  | Some [] | None => (Ok tt, q)
  end.

(** All handles were dropped: [rx.next()] ends once the channel is empty. *)
Definition hang_up (q : Q) : Q :=
  match rx q with Some [] => finish None q | _ => q end.
End operations.
End WriteQueue.

Module ReadStream.
Section operations.
Context {R : Type} `{AsyncReadExt R}.

(** [reader] is [None] when the future [read] has finished and was not
    replaced; polling it again panics. *)
Record ReadStream := { options : ReaderOptions; reader : option R }.

(** [ReadStream::new] *)
Definition new (r : R) (o : ReaderOptions) : ReadStream := {| options := o; reader := Some r |}.

(** [read_next_message] *)
Definition read_next_message (o : ReaderOptions) : ST R (option (Reader OwnedSegments)) :=
  async_try_read_message o.

(** [poll_next], awaited: [None] at the end of the stream. *)
Definition next : ST ReadStream (option (Reader OwnedSegments + ErrorKind)) := fun s =>
  match reader s with
  | None => (Panic, s)
  | Some r =>
      match read_next_message (options s) r with
      | (Ok m, r) => (Ok (inl <$> m), {| options := options s; reader := Some r |})
      | (Err e, _) => (Ok (Some (inr e)), {| options := options s; reader := None |})
      | (Panic, _) => (Panic, s)
      | (UB, _) => (UB, s)
      | (OutOfFuel, _) => (OutOfFuel, s)
      end
  end.
End operations.
Arguments ReadStream R : clear implicits.
End ReadStream.
