(* ===== verification/QueueStreamProps.v ===== *)
(** * Properties of write queues and read streams

    Over lawful writers and readers ([AsyncIo]): a queue writes the messages
    it was sent in order and tells each sender, and a stream that reads what
    was written gives the same messages. *)

From S2P Require Import Prelude Io Packed PackedSpec ReadLimiter Segments Serialize SerializeSpec FramingProps.
From S2P Require Import AsyncIo AsyncSerialize AsyncSerializeOk WriteQueue AsyncProps.
#[local] Open Scope Z_scope.
#[local] Open Scope rust_scope.
Import WriteQueue.

Section queue.
Context {W : Type} `{AsyncWriteExtSpec W}.
Notation Msg := (list (list byte)).
Notation Q := (Queue W Msg).
Implicit Types (q : Q) (m : Msg).

Definition sendable m : Prop := frameable m /\ Forall writable (frame_chunks m).

(** The items handles push, in order, with turns of the task in between. *)
Inductive queue_reachable (w : W) : list (Item Msg) -> Q -> Prop :=
| reach_new : queue_reachable w [] (write_queue w)
| reach_send h q m p : queue_reachable w h q -> sendable m -> queue_reachable w (h ++ [Message m p]) (send m p q)
| reach_terminate h q r p : queue_reachable w h q -> queue_reachable w (h ++ [Done r p]) (terminate r p q)
| reach_turn h q q' : queue_reachable w h q -> turn q = (Ok tt, q') -> queue_reachable w h q'.

Definition message_of (i : Item Msg) : option Msg := match i with Message m _ => Some m | Done _ _ => None end.
Definition messages (l : list (Item Msg)) : list Msg := omap message_of l.
Definition item_ok (i : Item Msg) : Prop := match i with Message m _ => sendable m | Done _ _ => True end.
Definition written_of (i : Item Msg) : Z * Answer Msg :=
  match i with Message m p => (p, Written m) | Done _ p => (p, Terminated) end.
Definition canceled_of (i : Item Msg) : Z * Answer Msg := (promise_of i, CanceledItem).
Definition pushed_bytes (l : list (Item Msg)) : list byte := concat (map frame (messages l)).
Definition count (l : list (Item Msg)) : Z := Z.of_nat (length (messages l)).

(** The writer has been flushed since it took the last of the bytes of
    [done]. *)
Definition flushed (w : W) (done : list (Item Msg)) : Prop :=
  done = [] \/ exists w0, takes w0 (pushed_bytes done) [] /\ async_flush w0 = (Ok tt, w).

(** [done] has been written and flushed, [rest] waits. *)
Definition running q (done rest : list (Item Msg)) : Prop :=
  finished q = None /\ rx q = Some rest /\ takes (writer q) (pushed_bytes done) [] /\
  answers q = map written_of done /\ Forall (fun i => is_message i = true) done /\
  Forall item_ok rest /\ in_flight q = wrap_i32 (count rest) /\ flushed (writer q) done.

(** [done] was written up to the item that ended the queue; what came later
    was canceled. *)
Definition ended q (done : list (Item Msg)) (r : option ErrorKind) (p : Z) (late : list (Item Msg)) : Prop :=
  finished q = Some r /\ rx q = None /\ takes (writer q) (pushed_bytes done) [] /\
  answers q = map written_of done ++ (p, Terminated) :: map canceled_of late /\
  Forall (fun i => is_message i = true) done /\ flushed (writer q) done.

Definition queue_ok (h : list (Item Msg)) q : Prop :=
  (exists done rest, h = done ++ rest /\ running q done rest) \/
  (exists done r p late, h = done ++ Done r p :: late /\ ended q done r p late).

Lemma wrap_i32_add a n : wrap_i32 (wrap_i32 a + n) = wrap_i32 (a + n).
Proof.
  unfold wrap_i32. f_equal. replace ((a + 2 ^ 31) mod 2 ^ 32 - 2 ^ 31 + n + 2 ^ 31)
    with ((a + 2 ^ 31) mod 2 ^ 32 + n) by lia.
  rewrite Z.add_mod_idemp_l by lia. f_equal. lia.
Qed.

Lemma wrap_i32_small n : - 2 ^ 31 <= n < 2 ^ 31 -> wrap_i32 n = n.
Proof. intros Hn. unfold wrap_i32. rewrite Z.mod_small by lia. lia. Qed.

Lemma messages_app l k : messages (l ++ k) = messages l ++ messages k.
Proof. apply omap_app. Qed.
Lemma pushed_bytes_app l k : pushed_bytes (l ++ k) = pushed_bytes l ++ pushed_bytes k.
Proof. unfold pushed_bytes. by rewrite messages_app, map_app, concat_app. Qed.
Lemma count_app l k : count (l ++ k) = count l + count k.
Proof. unfold count. rewrite messages_app, length_app. lia. Qed.

(** A turn on a message writes it, flushes, and gives it back. *)
Lemma turn_message q done m p rest : running q done (Message m p :: rest) ->
  exists q', turn q = (Ok tt, q') /\ running q' (done ++ [Message m p]) rest.
Proof.
  intros (Hf & Hrx & Ht & Ha & Hd & Hr & Hn & _). pose proof (List.Forall_inv Hr) as [Hm Hw]. pose proof (List.Forall_inv_tail Hr) as Hr'.
  destruct (async_write_message_lawful m (writer q) _ Hm Ht Hw) as (w1 & E1 & Ht1 & _).
  destruct (async_flush_spec w1 _ Ht1) as (w2 & E2 & Ht2 & _).
  unfold turn. rewrite Hrx, E1. cbn [writer add_in_flight set_writer set_rx]. rewrite E2.
  eexists. split; [done|]. split_and!; try done.
  - rewrite pushed_bytes_app. unfold pushed_bytes at 2. cbn. by rewrite app_nil_r.
  - cbn. by rewrite Ha, map_app.
  - apply Forall_app. split; [done|by repeat constructor].
  - cbn [in_flight answer set_writer add_in_flight]. cbn. rewrite Hn, wrap_i32_add. f_equal.
    unfold count, messages. cbn. lia.
  - right. exists w1. split; [|done]. rewrite pushed_bytes_app. unfold pushed_bytes at 2. cbn. by rewrite app_nil_r.
Qed.

Lemma turn_done q done r p rest : running q done (Done r p :: rest) ->
  exists q', turn q = (Ok tt, q') /\ ended q' done r p rest.
Proof.
  intros (Hf & Hrx & Ht & Ha & Hd & Hr & Hn & Hfl). unfold turn. rewrite Hrx.
  eexists. split; [done|]. split_and!; try done. cbn. rewrite Ha, <- app_assoc. done.
Qed.

Lemma queue_reachable_ok w h q : takes w [] [] -> queue_reachable w h q -> queue_ok h q.
Proof.
  intros Hw. induction 1 as [|h q m p Hr IH Hm|h q r p Hr IH|h q q' Hr IH Hturn].
  - left. exists [], []. split; [done|]. split_and!; try done. by left.
  - destruct IH as [(done & rest & -> & Hf & Hrx & Ht & Ha & Hd & Hi & Hn & Hfl)|
                    (done & r & p' & late & -> & Hf & Hrx & Ht & Ha & Hd & Hfl)].
    + left. exists done, (rest ++ [Message m p]). split; [by rewrite app_assoc|].
      unfold send, push_item. cbn [rx add_in_flight]. rewrite Hrx. split_and!; try done.
      * apply Forall_app. split; [done|]. constructor; [exact Hm|constructor].
      * cbn. rewrite Hn, wrap_i32_add, count_app. done.
    + right. exists done, r, p', (late ++ [Message m p]). split; [by rewrite <- app_assoc|].
      unfold send, push_item. cbn [rx add_in_flight]. rewrite Hrx. split_and!; try done.
      cbn. rewrite Ha, <- app_assoc, map_app. done.
  - destruct IH as [(done & rest & -> & Hf & Hrx & Ht & Ha & Hd & Hi & Hn & Hfl)|
                    (done & r' & p' & late & -> & Hf & Hrx & Ht & Ha & Hd & Hfl)].
    + left. exists done, (rest ++ [Done r p]). split; [by rewrite app_assoc|].
      unfold terminate, push_item. rewrite Hrx. split_and!; try done.
      * apply Forall_app. split; [done|by repeat constructor].
      * cbn. rewrite count_app. by rewrite Z.add_0_r.
    + right. exists done, r', p', (late ++ [Done r p]). split; [by rewrite <- app_assoc|].
      unfold terminate, push_item. rewrite Hrx. split_and!; try done.
      cbn. rewrite Ha, <- app_assoc, map_app. done.
  - destruct IH as [(done & rest & -> & Hrun)|(done & r' & p' & late & -> & He)].
    + destruct rest as [|[m p|r p] rest].
      * left. exists done, []. split; [done|]. destruct Hrun as (Hf & Hrx & Hrest).
        unfold turn in Hturn. rewrite Hrx in Hturn. by injection Hturn as <-.
      * destruct (turn_message q done m p rest Hrun) as (q1 & E & Hrun').
        left. exists (done ++ [Message m p]), rest. split; [by rewrite <- app_assoc|]. congruence.
      * destruct (turn_done q done r p rest Hrun) as (q1 & E & He').
        right. exists done, r, p, rest. split; [done|]. congruence.
    + right. exists done, r', p', late. split; [done|]. destruct He as (Hf & Hrx & Hrest).
      unfold turn in Hturn. rewrite Hrx in Hturn. by injection Hturn as <-.
Qed.

(** C34: A write queue over a lawful writer writes the messages it was sent,
    in the order of the sends, whatever the interleaving of senders and writes.
    The promise of a message resolves, with the message, once it is written and
    the writer was flushed after it: the writer is in the state that a flush
    left it in when it had taken exactly the frames of the messages whose
    promises have resolved.  Until the queue has ended, and while fewer than
    [2^31] messages wait, [len] is the number of those that wait.  Everything
    sent before [terminate] is written, and everything sent after it is
    canceled without being written. *)
Theorem write_queue_delivers w h q :
  takes w [] [] -> queue_reachable w h q ->
  (exists done rest, h = done ++ rest /\ rx q = Some rest /\
     takes (writer q) (pushed_bytes done) [] /\ flushed (writer q) done /\ answers q = map written_of done /\
     (count rest < 2 ^ 31 -> len q = Ok (count rest))) \/
  (exists done r p late, h = done ++ Done r p :: late /\ finished q = Some r /\
     takes (writer q) (pushed_bytes done) [] /\ flushed (writer q) done /\
     answers q = map written_of done ++ (p, Terminated) :: map canceled_of late /\
     (forall i, i ∈ done -> is_message i = true)).
Proof.
  intros Hw Hr. destruct (queue_reachable_ok w h q Hw Hr) as
    [(done & rest & -> & _ & Hrx & Ht & Ha & _ & _ & Hn & Hfl)|(done & r & p & late & -> & Hf & _ & Ht & Ha & Hd & Hfl)].
  - left. exists done, rest. split_and!; try done. intros Hc. unfold len. rewrite Hn.
    assert (wrap_i32 (count rest) = count rest) as ->.
    { apply wrap_i32_small. unfold count in *. lia. }
    rewrite (proj2 (Z.leb_le 0 (count rest))) by (unfold count; lia). done.
  - right. exists done, r, p, late. split_and!; try done. intros i Hi. by apply (proj1 (List.Forall_forall _ _) Hd), list_elem_of_In.
Qed.

(** Every item is dealt with in a turn. *)
Lemma turns_progress q done rest : running q done rest -> rest <> [] ->
  exists q', turn q = (Ok tt, q') /\
    ((exists i rest', rest = i :: rest' /\ running q' (done ++ [i]) rest') \/ finished q' <> None).
Proof.
  intros Hrun Hne. destruct rest as [|[m p|r p] rest]; [done|..].
  - destruct (turn_message _ _ _ _ _ Hrun) as (q' & E & Hr). exists q'. split; [done|]. left. eauto.
  - destruct (turn_done _ _ _ _ _ Hrun) as (q' & E & Hf & _). exists q'. split; [done|]. right. by rewrite Hf.
Qed.
End queue.

(** ** Reading the messages back *)

Section stream.
Context {R : Type} `{AsyncReadExtSpec R}.

(** The first [length ms] results of the stream are the messages [ms]. *)
Fixpoint yields (s : ReadStream.ReadStream R) (ms : list (list (list byte))) (s' : ReadStream.ReadStream R) : Prop :=
  match ms with
  | [] => s' = s
  | m :: ms => exists r s1, ReadStream.next s = (Ok (Some (inl r)), s1) /\
      represents (into_segments r) m /\ yields s1 ms s'
  end.

Lemma frame_aligned options m : readable options m -> (length (frame m) mod granule (R:=R) = 0)%nat.
Proof. intros Hm. apply granule_multiple. exact (aligned_concat _ (frame_chunks_aligned options m Hm)). Qed.

Lemma frames_at_word options ms (r : R) : Forall (readable options) ms ->
  sends r (concat (map frame ms)) -> at_word r (concat (map frame ms)).
Proof.
  intros Hms Hs. split; [done|]. clear Hs. induction Hms as [|m ms Hm Hms IH]; cbn [map concat length].
  - apply Nat.Div0.mod_0_l.
  - by rewrite length_app, Nat.Div0.add_mod, (frame_aligned options m Hm), IH, Nat.Div0.mod_0_l.
Qed.

Lemma next_ok options (r r' : R) m : async_try_read_message options r = (Ok m, r') ->
  ReadStream.next (ReadStream.new r options) = (Ok (inl <$> m), ReadStream.new r' options).
Proof. intros E. unfold ReadStream.next, ReadStream.new, ReadStream.read_next_message. cbn [ReadStream.reader ReadStream.options]. by rewrite E. Qed.

(** One message is read, and what is left is the rest; at the end of the
    stream there is none. *)
Lemma read_next_frame options m ms (r : R) : readable options m -> within_limit options m ->
  at_word r (concat (map frame (m :: ms))) ->
  exists mr r', async_try_read_message options r = (Ok (Some mr), r') /\ represents (into_segments mr) m /\
    at_word r' (concat (map frame ms)).
Proof.
  intros Hm Hl Hr. cbn [map concat] in Hr. pose proof (try_read_agrees options r _ Hr) as Ha.
  destruct (@try_read_message_ok (list byte) _ (bufread_exact (concat (map frame ms))) options m
    (frame m ++ concat (map frame ms)) [] Hm Hl) as (q & mr & Em & Hq & Hrep & _).
  { cbn. by rewrite app_nil_r. }
  rewrite Em in Ha. unfold agrees in Ha. cbn [fst snd] in Ha.
  destruct (async_try_read_message options r) as [o r'] eqn:E. cbn [fst snd] in Ha. destruct Ha as [-> Hw].
  assert (q = concat (map frame ms)) as ->. { cbn in Hq. congruence. }
  exists mr, r'. by split_and!.
Qed.
Lemma read_at_end options (r : R) : at_word r [] -> exists r', async_try_read_message options r = (Ok None, r') /\ at_word r' [].
Proof.
  intros Hr. pose proof (try_read_agrees options r [] Hr) as Ha. unfold agrees in Ha. cbn [fst snd] in Ha.
  destruct (async_try_read_message options r) as [o r'] eqn:E. cbn [fst] in Ha.
  change (fst (try_read_message options [])) with (Ok (A:=option (Reader OwnedSegments)) None) in Ha.
  destruct Ha as [-> Hw]. exists r'. split; [done|]. exact Hw.
Qed.

(** A stream over a reader that sends the frames of messages yields them, and
    then it has ended. *)
Lemma stream_yields options ms : Forall (fun m => readable options m /\ within_limit options m) ms ->
  forall r, at_word r (concat (map frame ms)) ->
  exists s1 s2, yields (ReadStream.new r options) ms s1 /\ ReadStream.next s1 = (Ok None, s2).
Proof.
  induction 1 as [|m ms [Hm Hl] Hms IH]; intros r Hr; cbn [yields].
  - destruct (read_at_end options r Hr) as (r' & E & _). eexists _, _. split; [done|]. by rewrite (next_ok _ _ _ _ E).
  - destruct (read_next_frame options m ms r Hm Hl Hr) as (mr & r' & E & Hrep & Hw).
    destruct (IH r' Hw) as (s1 & s2 & Hy & Hn). exists s1, s2. split; [|done].
    exists mr, (ReadStream.new r' options). split; [|done]. by rewrite (next_ok _ _ _ _ E).
Qed.
End stream.

(** What a write queue has written, a read stream gives back: for any
    lawful writer and reader, whatever the order of sends, turns and waits,
    once the channel is empty a stream over the bytes that arrived at the
    writer yields exactly the messages that were sent, in that order, and then
    ends. *)
Lemma queue_stream_roundtrip {W R} `{AsyncWriteExtSpec W} `{AsyncReadExtSpec R}
    (options : ReaderOptions) (w : W) h (q : Queue W (list (list byte))) :
  takes w [] [] -> queue_reachable w h q -> rx q = Some [] ->
  Forall (fun m => readable options m /\ within_limit options m) (messages h) ->
  exists out, takes (writer q) out [] /\
    forall r : R, sends r out ->
      exists s1 s2, yields (ReadStream.new r options) (messages h) s1 /\ ReadStream.next s1 = (Ok None, s2).
Proof.
  intros Hw Hr Hrx Hms. exists (pushed_bytes h).
  destruct (queue_reachable_ok w h q Hw Hr) as [(done & rest & -> & _ & Hrx' & Ht & _)|(done & r & p & late & -> & _ & Hrx' & _)];
    [|congruence].
  assert (rest = []) as -> by congruence. rewrite app_nil_r in *. split; [done|]. intros r Hs.
  apply (stream_yields options _ Hms). apply (frames_at_word options); [|exact Hs].
  refine (List.Forall_impl _ _ Hms). by intros m [Hm _].
Qed.

(** ** Runs *)

Definition one_word : list (list byte) := [repeat Byte.x01 8].
Definition helpers_w : AsyncWriteExt Sink := polling_write.
Definition helpers_r : AsyncReadExt Arrivals := polling_read.
#[local] Instance queue_writer : AsyncWriteExt Sink := helpers_w.
#[local] Instance queue_writer_spec : AsyncWriteExtSpec Sink := polling_write_spec.
#[local] Instance stream_reader : AsyncReadExt Arrivals := helpers_r.
#[local] Instance stream_reader_spec : AsyncReadExtSpec Arrivals := polling_read_spec.

Definition turned {W M} `{AsyncWriteExt W} `{AsOutputSegments M} (q : Queue W M) : Queue W M := snd (turn q).
Definition busy_queue : Queue Sink (list (list byte)) :=
  turned (send one_word 2 (turned (send two_segments 1 (write_queue stalling_sink)))).
Definition sent_items : list (Item (list (list byte))) := [Message two_segments 1; Message one_word 2].

Lemma two_segments_sendable : sendable (W:=Sink) two_segments.
Proof. split; [split; [done|split; [done|by repeat constructor]]|by repeat constructor]. Qed.
Lemma one_word_sendable : sendable (W:=Sink) one_word.
Proof. split; [split; [done|split; [done|by repeat constructor]]|by repeat constructor]. Qed.

Lemma reach_turned w h q : queue_reachable (W:=Sink) w h q -> fst (turn q) = Ok tt -> queue_reachable w h (turned q).
Proof. intros Hr E. apply (reach_turn w h q (turned q) Hr). unfold turned. by destruct (turn q); cbn in *; subst. Qed.

Lemma busy_queue_reachable : queue_reachable stalling_sink sent_items busy_queue.
Proof.
  apply reach_turned; [|vm_compute; reflexivity].
  apply (reach_send stalling_sink [Message two_segments 1]); [|exact one_word_sendable].
  apply reach_turned; [|vm_compute; reflexivity].
  apply (reach_send stalling_sink []); [constructor|exact two_segments_sendable].
Qed.
Definition ended_queue : Queue Sink (list (list byte)) :=
  turned (send one_word 4 (terminate None 3 busy_queue)).

Lemma ended_queue_reachable :
  queue_reachable stalling_sink (sent_items ++ [Done None 3; Message one_word 4]) ended_queue.
Proof.
  apply reach_turned; [|vm_compute; reflexivity].
  apply (reach_send stalling_sink (sent_items ++ [Done None 3])); [|exact one_word_sendable].
  apply (reach_terminate stalling_sink sent_items busy_queue). exact busy_queue_reachable.
Qed.

Lemma write_queue_delivers_witness :
  takes stalling_sink [] [] /\
  queue_reachable stalling_sink (sent_items ++ [Done None 3; Message one_word 4]) ended_queue /\
  ((exists done rest, sent_items ++ [Done None 3; Message one_word 4] = done ++ rest /\ rx ended_queue = Some rest /\
     takes (writer ended_queue) (pushed_bytes done) [] /\ flushed (writer ended_queue) done /\
     answers ended_queue = map written_of done /\
     (count rest < 2 ^ 31 -> len ended_queue = Ok (count rest))) \/
   (exists done r p late, sent_items ++ [Done None 3; Message one_word 4] = done ++ Done r p :: late /\
     finished ended_queue = Some r /\ takes (writer ended_queue) (pushed_bytes done) [] /\ flushed (writer ended_queue) done /\
     answers ended_queue = map written_of done ++ (p, Terminated) :: map canceled_of late /\
     (forall i, i ∈ done -> is_message i = true))).
Proof.
  split; [reflexivity|]. split; [exact ended_queue_reachable|].
  apply (write_queue_delivers stalling_sink _ ended_queue); [reflexivity|exact ended_queue_reachable].
Defined.

Lemma queue_stream_roundtrip_witness :
  takes stalling_sink [] [] /\ queue_reachable stalling_sink sent_items busy_queue /\ rx busy_queue = Some [] /\
  Forall (fun m => readable DEFAULT_READER_OPTIONS m /\ within_limit DEFAULT_READER_OPTIONS m) (messages sent_items) /\
  exists out, takes (writer busy_queue) out [] /\
    forall r : Arrivals, sends r out ->
      exists s1 s2, yields (ReadStream.new r DEFAULT_READER_OPTIONS) (messages sent_items) s1 /\
        ReadStream.next s1 = (Ok None, s2).
Proof.
  assert (Hms : Forall (fun m => readable DEFAULT_READER_OPTIONS m /\ within_limit DEFAULT_READER_OPTIONS m) (messages sent_items)).
  { constructor; [|constructor; [|constructor]]; (split; [split; [|done]|]);
      try (intros v; vm_compute; by intros [= <-]).
    - apply two_segments_sendable.
    - apply one_word_sendable. }
  split; [reflexivity|]. split; [exact busy_queue_reachable|]. split; [reflexivity|]. split; [exact Hms|].
  apply (queue_stream_roundtrip DEFAULT_READER_OPTIONS stalling_sink sent_items busy_queue);
    [reflexivity|exact busy_queue_reachable|reflexivity|exact Hms].
Defined.

(** A message sent after the queue ended stays in [len]. *)
Example late_messages_stay_in_flight : finished ended_queue = Some None /\ len ended_queue = Ok 1.
Proof. vm_compute. done. Qed.

(** A stream is not to be polled after an error: the future that failed is
    polled again. *)
Example polled_after_error_panics :
  let '(o, s) := ReadStream.next (ReadStream.new {| arrivals := [Some [Byte.x00]] |} DEFAULT_READER_OPTIONS) in
  o = Ok (Some (inr PrematureEndOfFile)) /\ fst (ReadStream.next s) = Panic.
Proof. vm_compute. done. Qed.
