(* ===== verification/TwoParty.v ===== *)
(** * Connections between two vats (capnp-rpc/src/twoparty.rs)

    A vat network over an input and an output stream.  There is one
    connection; it has handles (the network holds one until [accept] gives it
    out, and [connect] makes more), and ends when the last is dropped.  What
    shares ownership in Rust is counted here: the handles of the connection,
    and the [Sender]s of the write queue, which are in the connection and in
    the messages that are not sent yet.

    Messages and the promises of receives are known by ids.  The environment
    decides what happens next ([Label]). *)

From S2P Require Import Prelude ReadLimiter Segments Serialize SerializeSpec AsyncIo AsyncSerialize AsyncSerializeOk.
From S2P Require Import RpcTypes SenderQueue Queued TaskSet FlowControl WriteQueue AsyncProps QueueStreamProps.
From stdpp Require Import gmap.
#[local] Open Scope Z_scope.
#[local] Open Scope rust_scope.

Module TwoParty.

(** [rpc_twoparty_capnp::Side] *)
Inductive Side := Server | Client.
#[export] Instance Side_eq_dec : EqDecision Side.
Proof. solve_decision. Defined.

(** [ConnectionInner], without the input stream, which promises of receives
    share, and the sender, which is that of [queue] *)
Record ConnectionInner := {
  side : Side;
  receive_options : ReaderOptions;
  window_size_in_bytes : Z
}.

Section twoparty.
Context {T W M : Type} `{AsyncReadExt T} `{AsyncWriteExt W} `{AsOutputSegments M}.

(** What has happened that the application can see: a receive is done, the
    promise of a receive or of a send was made, or a connection given out *)
Inductive Event :=
| Received (id : Z) (message : option (Reader OwnedSegments) + ErrorKind)
| Sent (id : Z) (message : M)
| Given.

(** [inner]: [None] when it was dropped; [handles]: the connections that were
    given out; [connection]: whether the network holds one; [input_stream]:
    [None] while it is lent to a receive, or when that lost it; [receives]: the
    promises of receives, with the stream and the options; [disconnected]: whether
    [on_disconnect_fulfiller] was used; [outgoing]: messages not sent yet. *)
Record Network := {
  net_side : Side;
  inner : option ConnectionInner;
  handles : nat;
  connection : bool;
  input_stream : option T;
  receives : gmap Z (T * ReaderOptions);
  disconnected : bool;
  outgoing : gmap Z M;
  queue : WriteQueue.Queue W M;
  events : list Event
}.
#[local] Abbreviation N := (ST Network).

Definition update (f : Network -> Network) : N unit := n ← get_state; put_state (f n).
Definition set_inner i h c (n : Network) : Network :=
  {| net_side := net_side n; inner := i; handles := h; connection := c; input_stream := input_stream n; receives := receives n;
     disconnected := disconnected n; outgoing := outgoing n; queue := queue n; events := events n |}.
Definition set_input i r (n : Network) : Network :=
  {| net_side := net_side n; inner := inner n; handles := handles n; connection := connection n; input_stream := i; receives := r;
     disconnected := disconnected n; outgoing := outgoing n; queue := queue n; events := events n |}.
Definition set_outgoing o (n : Network) : Network :=
  {| net_side := net_side n; inner := inner n; handles := handles n; connection := connection n; input_stream := input_stream n;
     receives := receives n; disconnected := disconnected n; outgoing := o; queue := queue n; events := events n |}.
Definition set_queue q (n : Network) : Network :=
  {| net_side := net_side n; inner := inner n; handles := handles n; connection := connection n; input_stream := input_stream n;
     receives := receives n; disconnected := disconnected n; outgoing := outgoing n; queue := q; events := events n |}.
Definition disconnect (n : Network) : Network :=
  {| net_side := net_side n; inner := None; handles := handles n; connection := connection n; input_stream := input_stream n;
     receives := receives n; disconnected := true; outgoing := outgoing n; queue := queue n; events := events n |}.
Definition tell (e : Event) (n : Network) : Network :=
  {| net_side := net_side n; inner := inner n; handles := handles n; connection := connection n; input_stream := input_stream n;
     receives := receives n; disconnected := disconnected n; outgoing := outgoing n; queue := queue n; events := events n ++ [e] |}.

(** ** The network *)

(** [VatNetwork::new] *)
Definition VatNetwork_new (input : T) (output : W) (s : Side) (options : ReaderOptions) : Network :=
  {| net_side := s;
     inner := Some {| side := s; receive_options := options; window_size_in_bytes := DEFAULT_WINDOW_SIZE |};
     handles := 0; connection := true; input_stream := Some input; receives := ∅; disconnected := false; outgoing := ∅;
     queue := WriteQueue.write_queue output; events := [] |}.

(** The handles of the connection: the last to be dropped drops [inner], and
    [on_disconnect_fulfiller] with it. *)
Definition strong_count (n : Network) : nat := (handles n + if connection n then 1 else 0)%nat.
Definition drop_if_last (n : Network) : Network := if (strong_count n =? 0)%nat then disconnect n else n.
Definition drop_connection : N unit :=
  n ← get_state;
  match handles n with
  | O => lift UB
  | S h => put_state (drop_if_last (set_inner (inner n) h (connection n) n))
  end.
(** The network is dropped, with the connection it may hold. *)
Definition drop_network : N unit :=
  n ← get_state;
  if connection n then put_state (drop_if_last (set_inner (inner n) (handles n) false n)) else ret tt.

(** [VatNetwork::set_window_size] *)
Definition set_window_size (window_size : Z) : N unit :=
  n ← get_state;
  match connection n, inner n with
  | true, Some i =>
      put_state (set_inner (Some {| side := side i; receive_options := receive_options i; window_size_in_bytes := window_size |})
                   (handles n) (connection n) n)
  | _, _ => ret tt
  end.

(** [connect]: whether there is a connection, a handle of which is given out *)
Definition connect (host_id : Side) : N bool :=
  n ← get_state;
  if bool_decide (host_id = net_side n) then ret false
  else match inner n with
       | Some i => put_state (tell Given (set_inner (Some i) (S (handles n)) (connection n) n)) ;; ret true
       | None => lift Panic
       end.
(** [accept]: [false] is a promise that is never ready. *)
Definition accept : N bool :=
  n ← get_state;
  if connection n then put_state (tell Given (set_inner (inner n) (S (handles n)) false n)) ;; ret true
  else ret false.

(** [drive_until_shutdown]: the write queue first, then [disconnect_promise] *)
Definition drive_until_shutdown (n : Network) : Poll (option ErrorKind) :=
  match WriteQueue.finished (queue n) with
  | Some r => if disconnected n then Ready r else Pending
  | None => Pending
  end.

(** ** The connection: calls of a handle *)

Definition with_inner {X} (f : ConnectionInner -> N X) : N X :=
  n ← get_state; match inner n with Some i => f i | None => lift UB end.
Definition get_peer_vat_id : N Side := with_inner (fun i => ret (side i)).
Definition new_stream : N FlowControl.Flow := with_inner (fun i => ret (FlowControl.new (window_size_in_bytes i))).
(** [shutdown]; [p] is the promise it returns. *)
Definition shutdown (r : option ErrorKind) (p : Z) : N unit :=
  with_inner (fun _ => update (fun n => set_queue (WriteQueue.terminate r p (queue n)) n)).

(** [new_outgoing_message], with a message that is new; the sender is cloned. *)
Definition new_outgoing_message (id : Z) (message : M) : N unit :=
  with_inner (fun _ => update (fun n => set_outgoing (<[id := message]> (outgoing n)) n)).

(** [receive_incoming_message]: lends the stream to the promise *)
Definition receive_incoming_message (id : Z) : N unit :=
  with_inner (fun i =>
    n ← get_state;
    match input_stream n with
    | Some s => put_state (set_input None (<[id := (s, receive_options i)]> (receives n)) n)
    | None => put_state (tell (Received id (inr Failed)) n)
    end).
(** The future of a receive: when there is a message or the end of the stream,
    the stream is given back; an error loses it. *)
Definition finish_receive (id : Z) : N unit :=
  n ← get_state;
  match receives n !! id with
  | Some (s, options) =>
      let (r, s) := async_try_read_message options s in
      match r with
      | Ok message => put_state (tell (Received id (inl message)) (set_input (Some s) (delete id (receives n)) n))
      | Err e => put_state (tell (Received id (inr e)) (set_input (input_stream n) (delete id (receives n)) n))
      | Panic => lift Panic
      | UB => lift UB
      | OutOfFuel => lift OutOfFuel
      end
  | None => lift UB
  end.
(** A promise of a receive is dropped, and the stream with it. *)
Definition cancel_receive (id : Z) : N unit := update (fun n => set_input (input_stream n) (delete id (receives n)) n).

(** ** Outgoing messages *)

(** [get_body]: what the application does with the message *)
Definition edit (id : Z) (f : M -> M) : N unit := update (fun n => set_outgoing (alter f id (outgoing n)) n).
(** [OutgoingMessage::send]; the promise is that of the write queue. *)
Definition send (id : Z) : N unit :=
  n ← get_state;
  match outgoing n !! id with
  | Some message =>
      put_state (tell (Sent id message)
        (set_queue (WriteQueue.send message id (queue n)) (set_outgoing (delete id (outgoing n)) n)))
  | None => lift UB
  end.
(** [OutgoingMessage::take], or dropping it *)
Definition take (id : Z) : N (option M) :=
  n ← get_state; put_state (set_outgoing (delete id (outgoing n)) n) ;; ret (outgoing n !! id).

(** ** The task of the write queue *)

(** It ends when the channel is empty and all senders were dropped. *)
Definition no_sender (n : Network) : bool :=
  match inner n with None => bool_decide (outgoing n = ∅) | Some _ => false end.
Definition run_queue : N unit :=
  n ← get_state;
  let n := if no_sender n then set_queue (WriteQueue.hang_up (queue n)) n else n in
  let (r, q) := WriteQueue.turn (queue n) in
  put_state (set_queue q n) ;; lift r.

(** ** Runs *)

Inductive Label :=
| DoConnect (host_id : Side) | DoAccept | DoDropConnection | DoDropNetwork | DoWindow (size : Z)
| DoNew (id : Z) (message : M) | DoEdit (id : Z) (f : M -> M) | DoSend (id : Z) | DoTake (id : Z)
| DoReceive (id : Z) | DoFinish (id : Z) | DoCancel (id : Z) | DoShutdown (r : option ErrorKind) (p : Z) | DoQueue.
Definition perform (l : Label) : N unit :=
  match l with
  | DoConnect host_id => connect host_id ;; ret tt
  | DoAccept => accept ;; ret tt
  | DoDropConnection => drop_connection
  | DoDropNetwork => drop_network
  | DoWindow size => set_window_size size
  | DoNew id message => new_outgoing_message id message
  | DoEdit id f => edit id f
  | DoSend id => send id
  | DoTake id => take id ;; ret tt
  | DoReceive id => receive_incoming_message id
  | DoFinish id => finish_receive id
  | DoCancel id => cancel_receive id
  | DoShutdown r p => shutdown r p
  | DoQueue => run_queue
  end.
Fixpoint run (ls : list Label) : N unit :=
  match ls with [] => ret tt | l :: ls => perform l ;; run ls end.
End twoparty.
Arguments Network T W M : clear implicits.
Arguments Event M : clear implicits.
Arguments Label M : clear implicits.
End TwoParty.

(** * The RPC system of a vat (capnp-rpc/src/lib.rs) *)

Module RpcSystem.
Import Queued.

(** What the system needs of a network ([VatNetwork]); a connection is a
    handle that the network counts. *)
Class VatNetwork (Net VatId : Type) := {
  net_connect : VatId -> ST Net bool;
  net_accept : ST Net bool;
  net_drive : Net -> Poll (option ErrorKind);
  net_drop_connection : ST Net unit
}.
#[export] Instance twoparty_network {T W M} `{AsyncReadExt T} `{AsyncWriteExt W} `{AsOutputSegments M} :
    VatNetwork (TwoParty.Network T W M) TwoParty.Side := {
  net_connect := TwoParty.connect;
  net_accept := TwoParty.accept;
  net_drive := TwoParty.drive_until_shutdown;
  net_drop_connection := TwoParty.drop_connection
}.

(** The tasks of the system: the driver of the network, the future that
    accepts a connection, and of the [c]-th connection, its messages, the
    future that waits for it to disconnect, and then that of its shutdown. *)
Inductive Task := Drive | Accept | Messages (c : Z) | Disconnected (c : Z) | Shutdown (c : Z).
#[export] Instance Task_eq_dec : EqDecision Task.
Proof. solve_decision. Defined.

(** What a client of [bootstrap] got *)
Inductive Bootstrapped := LocalBootstrap | RemoteBootstrap (c : Z).

Section system.
Context {Net VatId : Type} `{VatNetwork Net VatId}.

(** [connection_state]: the connection there is; [created]: how many
    [ConnectionState]s were made; [task_errors]: what [SystemTaskReaper]
    printed.  The bootstrap capability is that of the connections that
    [get_connection_state] makes. *)
Record RpcSystem := {
  network : Net;
  bootstrap_cap : Hook;
  connection_state : option Z;
  created : Z;
  task_errors : list ErrorKind
}.
#[local] Abbreviation Tasks := (TaskSet.TaskSet Task).
#[local] Abbreviation S := (ST (RpcSystem * Tasks)).

Definition set_network n (s : RpcSystem) : RpcSystem :=
  {| network := n; bootstrap_cap := bootstrap_cap s; connection_state := connection_state s; created := created s;
     task_errors := task_errors s |}.
Definition set_connection_state c k (s : RpcSystem) : RpcSystem :=
  {| network := network s; bootstrap_cap := bootstrap_cap s; connection_state := c; created := k; task_errors := task_errors s |}.
(** [SystemTaskReaper::task_failed] *)
Definition task_failed (e : ErrorKind) (s : RpcSystem) : RpcSystem :=
  {| network := network s; bootstrap_cap := bootstrap_cap s; connection_state := connection_state s; created := created s;
     task_errors := task_errors s ++ [e] |}.
Definition reap (r : option ErrorKind) (s : RpcSystem) : RpcSystem := match r with Some e => task_failed e s | None => s end.

Definition on_network {X} (c : ST Net X) : S X := fun w =>
  let (s, ts) := w in let (r, n) := c (network s) in (r, (set_network n s, ts)).

(** [get_connection_state], for a connection of which it has a handle: a new
    one is dropped when there is a connection already. *)
Definition get_connection_state : S Z := fun w =>
  let (s, ts) := w in
  match connection_state s with
  | Some c => (on_network net_drop_connection ;; ret c) (s, ts)
  | None =>
      let c := created s in
      (Ok c, (set_connection_state (Some c) (c + 1) s, TaskSet.add (Messages c) (TaskSet.add (Disconnected c) ts)))
  end.

(** [RpcSystem::new]; the promise of [accept] is ready if it has a connection. *)
Definition no_bootstrap : Hook := BrokenClient Failed.
Definition new (n : Net) (bootstrap : option Hook) : outcome (RpcSystem * Tasks * bool) :=
  let s := {| network := n; bootstrap_cap := default no_bootstrap bootstrap; connection_state := None; created := 0;
              task_errors := [] |} in
  let ts := TaskSet.add Drive TaskSet.new in
  match on_network net_accept (s, ts) with
  | (Ok accepted, (s, ts)) => Ok (s, TaskSet.add Accept ts, accepted)
  | (Err e, _) => Err e
  | (Panic, _) => Panic
  | (UB, _) => UB
  | (OutOfFuel, _) => OutOfFuel
  end.

(** [RpcSystem::bootstrap], up to the bootstrap request of the connection *)
Definition bootstrap (vat_id : VatId) : S Bootstrapped :=
  connected ← on_network (net_connect vat_id);
  if connected : bool then c ← get_connection_state; ret (RemoteBootstrap c) else ret LocalBootstrap.

(** What a task does when it is done *)
Definition drive_result (r : option ErrorKind) : option ErrorKind :=
  match r with Some e => match e with Prelude.Disconnected => None | _ => Some e end | None => None end.
Definition effect (t : Task) (r : option ErrorKind) (s : RpcSystem) (ts : Tasks) : RpcSystem * Tasks :=
  match t with
  | Drive => (s, TaskSet.terminate (drive_result r) ts)
  | Accept =>
      match r with
      | Some e => (task_failed e s, ts)
      | None => let '(_, w) := get_connection_state (s, ts) in w
      end
  | Disconnected c =>
      let s := set_connection_state None (created s) s in
      match r with
      | Some _ => (task_failed Failed s, ts)
      | None => (s, TaskSet.set_in_progress (TaskSet.in_progress ts ++ [Shutdown c]) ts)
      end
  | Messages _ | Shutdown _ => (reap r s, ts)
  end.
(** [<RpcSystem as Future>::poll] *)
Definition poll (ready : list (option (Task * option ErrorKind))) (w : RpcSystem * Tasks) :
    option (option ErrorKind) * (RpcSystem * Tasks) :=
  let (s, ts) := w in TaskSet.poll effect ready s ts.
End system.

(** ** Servers that a vat recognizes *)

(** [CapabilityServerSet].  [servers]: for each server that is alive, by its
    address, how many strong references it has; a capability of a server has
    the server's address ([get_ptr]). *)
Section servers.
Record CapabilityServerSet := { caps : gset Z; servers : gmap Z nat }.
Definition upgrade (p : Z) (s : CapabilityServerSet) : option Z :=
  match servers s !! p with Some (Datatypes.S _) => Some p | _ => None end.
(** [new_client_from_rc] *)
Definition new_client_from_rc (p : Z) (s : CapabilityServerSet) : CapabilityServerSet :=
  {| caps := {[p]} ∪ caps s; servers := servers s |}.
(** [get_local_server_of_resolved] *)
Definition get_local_server_of_resolved (ptr : Z) (s : CapabilityServerSet) : option Z :=
  if decide (ptr ∈ caps s) then upgrade ptr s else None.
Definition gc (s : CapabilityServerSet) : CapabilityServerSet :=
  {| caps := filter (fun p => is_Some (upgrade p s)) (caps s); servers := servers s |}.
Lemma gc_keeps ptr s : get_local_server_of_resolved ptr (gc s) = get_local_server_of_resolved ptr s.
Proof.
  unfold get_local_server_of_resolved. change (upgrade ptr (gc s)) with (upgrade ptr s). cbn [caps gc].
  destruct (decide (ptr ∈ caps s)) as [Hp|Hp], (decide (ptr ∈ filter _ _)) as [Hf|Hf]; try done.
  - destruct (upgrade ptr s) eqn:E; [|done]. exfalso. apply Hf. apply elem_of_filter. by rewrite E.
  - exfalso. apply Hp. by apply elem_of_filter in Hf as [_ Hf].
Qed.
End servers.

(** ** Capabilities that come later *)

(** [new_future_client]: a queued client, and what happens when the future is
    ready and the client is still there *)
Section future.
Context {Content : Type} `{Queued.Results Content}.
Definition new_future_client : ST (Queued.Heap Content) Z := Queued.Client_new None.
Definition future_ready (client : Z) (r : Hook + ErrorKind) : ST (Queued.Heap Content) unit :=
  s ← get_state;
  if bool_decide (is_Some (Queued.clients s !! client)) then Queued.ClientInner_resolve client r else ret tt.
End future.
End RpcSystem.

(** ** What arrives *)

Import WriteQueue TwoParty.
Arguments WriteQueue.Message {M} m p.

Section delivery.
Context {T W : Type} `{AsyncReadExtSpec T} `{AsyncWriteExtSpec W}.
#[local] Abbreviation Msg := (list (list byte)).
#[local] Abbreviation Net := (Network T W Msg).
Implicit Types (n : Net).

Definition sent_of (e : Event Msg) : option Msg := match e with Sent _ m => Some m | _ => None end.
Definition sent_messages n : list Msg := omap sent_of (events n).
Definition result_of (e : Event Msg) : option (option (Reader OwnedSegments) + ErrorKind) :=
  match e with Received _ r => Some r | _ => None end.
Definition results n : list (option (Reader OwnedSegments) + ErrorKind) := omap result_of (events n).

(** *** Runs *)

Lemma run_step l ls n n' : run (l :: ls) n = (Ok tt, n') -> exists n1, perform l n = (Ok tt, n1) /\ run ls n1 = (Ok tt, n').
Proof. cbn [run]. intros ([] & n1 & E & E')%ST_bind_inv. eauto. Qed.

(** What an operation can change, as far as messages are concerned *)
Definition receiving (n : Net) : option ReaderOptions := receive_options <$> inner n.
Inductive change n : Net -> Prop :=
| C_other n' es : queue n' = queue n -> input_stream n' = input_stream n -> receives n' = receives n ->
    events n' = events n ++ es -> omap sent_of es = [] -> omap result_of es = [] ->
    (receiving n' = receiving n \/ receiving n' = None) -> (no_sender n = true -> no_sender n' = true) -> change n n'
| C_send id m : outgoing n !! id = Some m ->
    change n (tell (Sent id m) (set_queue (WriteQueue.send m id (queue n)) (set_outgoing (delete id (outgoing n)) n)))
| C_shutdown r p : no_sender n = false -> change n (set_queue (WriteQueue.terminate r p (queue n)) n)
| C_lend id s options : receiving n = Some options -> input_stream n = Some s ->
    change n (set_input None (<[id := (s, options)]> (receives n)) n)
| C_refuse id : change n (tell (Received id (inr Failed)) n)
| C_message id s options m s' : receives n !! id = Some (s, options) -> async_try_read_message options s = (Ok m, s') ->
    change n (tell (Received id (inl m)) (set_input (Some s') (delete id (receives n)) n))
| C_error id s options e s' : receives n !! id = Some (s, options) -> async_try_read_message options s = (Err e, s') ->
    change n (tell (Received id (inr e)) (set_input (input_stream n) (delete id (receives n)) n))
| C_cancel id : change n (set_input (input_stream n) (delete id (receives n)) n)
| C_queue q' : (if no_sender n then WriteQueue.turn (WriteQueue.hang_up (queue n)) else WriteQueue.turn (queue n)) = (Ok tt, q') ->
    change n (set_queue q' n).

Lemma no_sender_some n i : inner n = Some i -> no_sender n = false.
Proof. unfold no_sender. by intros ->. Qed.
(** Nothing that concerns messages *)
Lemma C_none n n' : queue n' = queue n -> input_stream n' = input_stream n -> receives n' = receives n ->
  events n' = events n -> (receiving n' = receiving n \/ receiving n' = None) -> (no_sender n = true -> no_sender n' = true) -> change n n'.
Proof. intros. eapply (C_other n n' []); try done. by rewrite app_nil_r. Qed.
Lemma drop_changes n n0 : queue n0 = queue n -> input_stream n0 = input_stream n -> receives n0 = receives n ->
  events n0 = events n -> inner n0 = inner n -> outgoing n0 = outgoing n -> change n (drop_if_last n0).
Proof.
  intros Hq Hi Hr He Hin Ho. unfold drop_if_last. destruct (strong_count n0 =? 0)%nat; apply C_none; try done.
  - by right.
  - unfold no_sender. cbn [inner outgoing disconnect]. rewrite Ho. by destruct (inner n).
  - left. unfold receiving. by rewrite Hin.
  - unfold no_sender. by rewrite Hin, Ho.
Qed.

Lemma perform_changes l n n' : perform l n = (Ok tt, n') -> change n n'.
Proof.
  intros E. destruct l; cbn [perform] in E.
  - apply ST_bind_inv in E as (b & n1 & E & [= <-]). unfold connect in E. apply ST_bind_inv in E as (n0 & n2 & [= <- <-] & E).
    destruct (bool_decide _); [injection E as _ <-; by apply C_none; try left|]. destruct (inner n) as [i|] eqn:Hi; [|discriminate].
    injection E as _ <-. apply (C_other n _ [Given]); try done; [left; unfold receiving; cbn; by rewrite Hi|].
    by rewrite (no_sender_some _ _ Hi).
  - apply ST_bind_inv in E as (b & n1 & E & [= <-]). unfold accept in E. apply ST_bind_inv in E as (n0 & n2 & [= <- <-] & E).
    destruct (connection n); injection E as _ <-; [|by apply C_none; try left].
    apply (C_other n _ [Given]); try done. by left.
  - unfold drop_connection in E. apply ST_bind_inv in E as (n0 & n2 & [= <- <-] & E).
    destruct (handles n); [discriminate|]. injection E as <-. by apply drop_changes.
  - unfold drop_network in E. apply ST_bind_inv in E as (n0 & n2 & [= <- <-] & E).
    destruct (connection n); injection E as <-; [by apply drop_changes|by apply C_none; try left].
  - unfold set_window_size in E. apply ST_bind_inv in E as (n0 & n2 & [= <- <-] & E).
    destruct (connection n); [destruct (inner n) as [i|] eqn:Hi|]; injection E as <-; apply C_none; try done; try by left.
    + left. unfold receiving. cbn. by rewrite Hi.
    + by rewrite (no_sender_some _ _ Hi).
  - unfold new_outgoing_message, with_inner in E. apply ST_bind_inv in E as (n0 & n2 & [= <- <-] & E).
    destruct (inner n) as [i|] eqn:Hi; [|discriminate]. injection E as <-. apply C_none; try done; [by left|].
    by rewrite (no_sender_some _ _ Hi).
  - injection E as <-. apply C_none; try done; [by left|]. unfold no_sender. cbn [inner outgoing set_outgoing].
    destruct (inner n); [done|]. intros Ho. apply bool_decide_eq_true in Ho. rewrite Ho. apply bool_decide_eq_true.
    apply map_eq. intros j. rewrite lookup_alter. by destruct (decide _).
  - unfold send in E. apply ST_bind_inv in E as (n0 & n2 & [= <- <-] & E).
    destruct (outgoing n !! id) eqn:Ho; [|discriminate]. injection E as <-. by apply C_send.
  - apply ST_bind_inv in E as (b & n1 & E & [= <-]). injection E as _ <-. apply C_none; try done; [by left|].
    unfold no_sender. cbn [inner outgoing set_outgoing]. destruct (inner n); [done|]. intros Ho. apply bool_decide_eq_true in Ho.
    rewrite Ho. apply bool_decide_eq_true. apply delete_empty.
  - unfold receive_incoming_message, with_inner in E. apply ST_bind_inv in E as (n0 & n2 & [= <- <-] & E).
    destruct (inner n) as [i|] eqn:Hi; [|discriminate]. apply ST_bind_inv in E as (n0 & n2 & [= <- <-] & E).
    destruct (input_stream n) eqn:Hs; injection E as <-; [|by apply C_refuse]. apply C_lend; [|done]. unfold receiving. by rewrite Hi.
  - unfold finish_receive in E. apply ST_bind_inv in E as (n0 & n2 & [= <- <-] & E).
    destruct (receives n !! id) as [[s options]|] eqn:Hr; [|discriminate].
    destruct (async_try_read_message options s) as [[] s'] eqn:Em; try discriminate; injection E as <-;
      [by eapply C_message|by eapply C_error].
  - injection E as <-. by apply C_cancel.
  - unfold shutdown, with_inner in E. apply ST_bind_inv in E as (n0 & n2 & [= <- <-] & E).
    destruct (inner n) as [i|] eqn:Hi; [|discriminate]. injection E as <-. apply C_shutdown. by eapply no_sender_some.
  - unfold run_queue in E. apply ST_bind_inv in E as (n0 & n2 & [= <- <-] & E).
    replace (queue (if no_sender n then set_queue (WriteQueue.hang_up (queue n)) n else n))
      with (if no_sender n then WriteQueue.hang_up (queue n) else queue n) in E by (by destruct (no_sender n)).
    destruct (WriteQueue.turn _) as [r q'] eqn:Et. apply ST_bind_inv in E as (u & n3 & [= <- <-] & E). apply lift_inv in E as [-> ->].
    replace (set_queue q' (if no_sender n then _ else n)) with (set_queue q' n) by (by destruct (no_sender n)).
    apply C_queue. by destruct (no_sender n).
Qed.
Lemma change_events n n' : change n n' -> exists es, events n' = events n ++ es.
Proof. destruct 1; cbn [events tell set_queue set_outgoing set_input]; try (by eexists); exists []; by rewrite app_nil_r. Qed.

(** *** The sender *)

Section sender.
Context (w : W) (Hw : takes w [] []).

(** The queue has the messages that were sent; when there is nobody to send
    more, it may have ended. *)
Definition sender_ok n : Prop := exists h q, queue_reachable w h q /\ messages h = sent_messages n /\
  (queue n = q \/ no_sender n = true /\ rx q = Some [] /\ queue n = WriteQueue.finish None q).

Lemma sent_app n n' es : events n' = events n ++ es -> sent_messages n' = sent_messages n ++ omap sent_of es.
Proof. unfold sent_messages. intros ->. apply omap_app. Qed.
Lemma sender_same n n' : sender_ok n -> queue n' = queue n -> sent_messages n' = sent_messages n ->
  (no_sender n = true -> no_sender n' = true) -> sender_ok n'.
Proof.
  intros (h & q & Hr & Hm & Hq) Eq Em Hs. exists h, q. rewrite Eq, Em. split; [done|]. split; [done|].
  destruct Hq as [Hq|(Hn & Hq)]; [by left|right]. split; [by apply Hs|done].
Qed.
Lemma finished_turn (q : WriteQueue.Queue W Msg) : WriteQueue.turn (WriteQueue.finish None q) = (Ok tt, WriteQueue.finish None q).
Proof. done. Qed.
Lemma sender_step n n' : sender_ok n -> change n n' -> Forall (sendable (W := W)) (sent_messages n') -> sender_ok n'.
Proof.
  intros Hok Hc Hs. pose proof Hok as (h & q & Hr & Hm & Hq).
  destruct Hc as [n' es Eq _ _ Ee Es _ _ Hn|id m Ho|r p Hn|id s options _ _|id|id s options m s' _ _|id s options e s' _ _|id|q' Et].
  - apply (sender_same n); try done. rewrite (sent_app _ _ _ Ee), Es. apply app_nil_r.
  - assert (Hns : no_sender n = false).
    { unfold no_sender. destruct (inner n); [done|]. apply bool_decide_eq_false. intros E. by rewrite E in Ho. }
    destruct Hq as [Hq|(Hn & _)]; [|congruence].
    assert (Em : sent_messages (tell (Sent id m) (set_queue (WriteQueue.send m id (queue n)) (set_outgoing (delete id (outgoing n)) n))) =
      sent_messages n ++ [m]) by (unfold sent_messages; cbn [events tell set_queue set_outgoing]; by rewrite omap_app).
    rewrite Em in Hs. exists (h ++ [WriteQueue.Message m id]), (WriteQueue.send m id q). split; [|split].
    + apply reach_send; [done|]. rewrite Forall_app, Forall_singleton in Hs. apply Hs.
    + rewrite messages_app, Hm, Em. done.
    + left. cbn. by rewrite Hq.
  - destruct Hq as [Hq|(Hn' & _)]; [|congruence]. exists (h ++ [WriteQueue.Done r p]), (WriteQueue.terminate r p q). split; [|split].
    + by apply reach_terminate.
    + rewrite messages_app, Hm. apply app_nil_r.
    + left. cbn. by rewrite Hq.
  - by apply (sender_same n).
  - apply (sender_same n); try done. unfold sent_messages. cbn [events tell]. rewrite omap_app. apply app_nil_r.
  - apply (sender_same n); try done. unfold sent_messages. cbn [events tell set_input]. rewrite omap_app. apply app_nil_r.
  - apply (sender_same n); try done. unfold sent_messages. cbn [events tell set_input]. rewrite omap_app. apply app_nil_r.
  - by apply (sender_same n).
  - destruct (no_sender n) eqn:Hn.
    + destruct Hq as [Hq|(_ & Hrx & Hq)]; rewrite Hq in Et.
      * unfold WriteQueue.hang_up in Et. destruct (rx q) as [[|x l]|] eqn:Hrx.
        -- rewrite finished_turn in Et. injection Et as <-. exists h, q. split; [done|]. split; [done|]. by right.
        -- exists h, q'. split; [by eapply reach_turn|]. split; [done|]. by left.
        -- exists h, q'. split; [by eapply reach_turn|]. split; [done|]. by left.
      * unfold WriteQueue.hang_up in Et. cbn [rx WriteQueue.finish] in Et. rewrite finished_turn in Et. injection Et as <-.
        exists h, q. split; [done|]. split; [done|]. by right.
    + destruct Hq as [Hq|(Hn' & _)]; [|done]. rewrite Hq in Et. exists h, q'. split; [by eapply reach_turn|]. split; [done|]. by left.
Qed.
Lemma sent_prefix l n n' : perform l n = (Ok tt, n') -> exists k, sent_messages n' = sent_messages n ++ k.
Proof. intros E%perform_changes%change_events. destruct E as [es E]. eexists. by apply sent_app. Qed.
Lemma run_sent ls : forall n n', run ls n = (Ok tt, n') -> exists k, sent_messages n' = sent_messages n ++ k.
Proof.
  induction ls as [|l ls IH]; intros n n' E; [injection E as <-; exists []; by rewrite app_nil_r|].
  apply run_step in E as (n1 & E1 & E2). destruct (sent_prefix _ _ _ E1) as [k1 H1'], (IH _ _ E2) as [k2 H2'].
  exists (k1 ++ k2). by rewrite H2', H1', app_assoc.
Qed.
Lemma run_sender ls : forall n n', run ls n = (Ok tt, n') -> Forall (sendable (W := W)) (sent_messages n') -> sender_ok n -> sender_ok n'.
Proof.
  induction ls as [|l ls IH]; intros n n' E Hs Hok; [by injection E as <-|]. apply run_step in E as (n1 & E1 & E2).
  apply (IH n1 n' E2 Hs). apply (sender_step n); [done|by eapply perform_changes|].
  destruct (run_sent _ _ _ E2) as [k Hk]. rewrite Hk, Forall_app in Hs. apply Hs.
Qed.
Lemma new_sender (r : T) s options : sender_ok (VatNetwork_new r w s options).
Proof. exists [], (WriteQueue.write_queue w). split; [constructor|]. split; [done|by left]. Qed.

(** What the writer has taken are the frames of a prefix of what was sent. *)
Lemma sender_wrote n : sender_ok n -> exists done late, sent_messages n = done ++ late /\
  takes (writer (queue n)) (concat (map frame done)) [] /\
  (WriteQueue.finished (queue n) = None -> rx (queue n) = Some [] -> late = []).
Proof.
  intros (h & q & Hr & Hm & Hq). destruct (queue_reachable_ok w h q Hw Hr) as [(d & rest & -> & Hf & Hrx & Ht & _)|(d & r & p & late & -> & Hf & Hrx & Ht & _)].
  - exists (messages d), (messages rest). rewrite <- Hm. split; [apply messages_app|]. split; [by destruct Hq as [->|(_ & _ & ->)]|].
    destruct Hq as [->|(_ & _ & ->)]; [|done]. rewrite Hrx. by intros _ [= ->].
  - exists (messages d), (messages (WriteQueue.Done r p :: late)). rewrite <- Hm. split; [apply messages_app|].
    split; [by destruct Hq as [->|(_ & _ & ->)]|]. destruct Hq as [->|(_ & E & _)]; [|congruence]. intros E. congruence.
Qed.
End sender.

(** *** The receiver *)

Section receiver.
Context (ms : list Msg) (options : ReaderOptions)
  (Hms : Forall (fun m => readable options m /\ within_limit options m) ms).

(** The results of receives: messages that say [got], then [k] times the end
    of the stream; and refusals of receives while the stream is lent or lost *)
Definition message_says (r : Reader OwnedSegments) (m : Msg) : Prop := represents (into_segments r) m.
Definition arrived (rs : list (option (Reader OwnedSegments) + ErrorKind)) (got : list Msg) (k : nat) : Prop :=
  Forall (fun r => forall e, r = inr e -> e = Failed) rs /\
  exists read, Forall2 message_says read got /\ omap (fun r => match r with inl x => Some x | inr _ => None end) rs = map Some read ++ repeat None k.
Definition at_frames (s : T) (rest : list Msg) : Prop := at_word s (concat (map frame rest)).
Definition receiver_ok n : Prop := exists got rest k, ms = got ++ rest /\ arrived (results n) got k /\ ((0 < k)%nat -> rest = []) /\
  (forall s, input_stream n = Some s -> receives n = ∅ /\ at_frames s rest) /\
  (forall id s o, receives n !! id = Some (s, o) -> input_stream n = None /\ receives n = {[id := (s, o)]} /\ o = options /\ at_frames s rest) /\
  (forall o, receiving n = Some o -> o = options).

Lemma results_app n n' es : events n' = events n ++ es -> results n' = results n ++ omap result_of es.
Proof. unfold results. intros ->. apply omap_app. Qed.
Lemma arrived_failed rs got k : arrived rs got k -> arrived (rs ++ [inr Failed]) got k.
Proof.
  intros (Hf & read & Hr & E). split; [apply Forall_app; split; [done|]; by constructor; [intros e [= <-]|]|].
  exists read. split; [done|]. by rewrite omap_app, E, app_nil_r.
Qed.
Lemma arrived_message rs got m mr : arrived rs got 0 -> message_says mr m -> arrived (rs ++ [inl (Some mr)]) (got ++ [m]) 0.
Proof.
  intros (Hf & read & Hr & E) Hm. split; [apply Forall_app; split; [done|]; by constructor|].
  exists (read ++ [mr]). split; [apply Forall2_app; [done|by constructor]|].
  rewrite omap_app, E. cbn. by rewrite !app_nil_r, map_app.
Qed.
Lemma arrived_end rs got k : arrived rs got k -> arrived (rs ++ [inl None]) got (S k).
Proof.
  intros (Hf & read & Hr & E). split; [apply Forall_app; split; [done|]; by constructor|].
  exists read. split; [done|]. rewrite omap_app, E. cbn [omap list_omap]. rewrite <- app_assoc. f_equal. symmetry. apply (repeat_cons k None).
Qed.

(** What is read next *)
Lemma reads_next s rest : (exists got, ms = got ++ rest) -> at_frames s rest ->
  exists x s', async_try_read_message options s = (Ok x, s') /\
    match rest with
    | [] => x = None /\ at_frames s' []
    | m :: rest => exists mr, x = Some mr /\ message_says mr m /\ at_frames s' rest
    end.
Proof.
  intros [got ->] Hs. destruct rest as [|m rest].
  - destruct (read_at_end options s Hs) as (s' & E & Hs'). exists None, s'. by split_and!.
  - apply Forall_app in Hms as [_ [[Hm Hl] _]%Forall_cons].
    destruct (read_next_frame options m rest s Hm Hl Hs) as (mr & s' & E & Hr & Hs'). exists (Some mr), s'. split; [done|]. by exists mr.
Qed.

Lemma receiver_step n n' : receiver_ok n -> change n n' -> receiver_ok n'.
Proof.
  intros (got & rest & k & Em & Ha & Hk & Hi & Hrec & Ho) Hc.
  destruct Hc as [n' es _ Ei Er Ee _ Es Hin _|id m _|r p _|id s o Hin Hs|id|id s o x s' Hr E|id s o e s' Hr E|id|q' _].
  - exists got, rest, k. rewrite (results_app _ _ _ Ee), Es, app_nil_r, Ei, Er. split_and!; try done.
    intros o' Ho'. apply Ho. destruct Hin as [Hin|Hin]; congruence.
  - exists got, rest, k. split_and!; try done. unfold results. cbn [events tell set_queue set_outgoing]. rewrite omap_app. cbn.
    by rewrite app_nil_r.
  - by exists got, rest, k.
  - exists got, rest, k. split_and!; try done; cbn [input_stream receives set_input].
    destruct (Hi s Hs) as [Hemp Hat]. intros id' s' o'. rewrite Hemp, insert_empty. intros [<- E]%lookup_singleton_Some.
    injection E as <- <-. rewrite (Ho _ Hin). by split_and!.
  - exists got, rest, k. split_and!; try done. unfold results. cbn [events tell]. rewrite omap_app. by apply arrived_failed.
  - destruct (Hrec _ _ _ Hr) as (Hnone & Hone & -> & Hat).
    destruct (reads_next s rest (ex_intro _ _ Em) Hat) as (x' & s1 & E' & Hx). rewrite E in E'. injection E' as <- <-.
    assert (Eres : results (tell (Received id (inl x)) (set_input (Some s') (delete id (receives n)) n)) = results n ++ [inl x])
      by (unfold results; cbn [events tell set_input]; by rewrite omap_app).
    assert (Hemp : delete id (receives n) = ∅) by (rewrite Hone; apply delete_singleton_eq).
    destruct rest as [|m rest].
    + destruct Hx as [-> Hat']. exists got, [], (S k). rewrite Eres. split_and!; try done; cbn [input_stream receives set_input tell].
      * by apply arrived_end.
      * intros s1 [= <-]. by rewrite Hemp.
      * intros id' s1 o'. rewrite Hemp, lookup_empty. done.
    + destruct Hx as (mr & -> & Hsays & Hat'). destruct k as [|k]; [|specialize (Hk ltac:(lia)); discriminate Hk].
      exists (got ++ [m]), rest, 0%nat. rewrite Eres. split_and!; try done; cbn [input_stream receives set_input tell].
      * by rewrite <- app_assoc.
      * by apply arrived_message.
      * lia.
      * intros s1 [= <-]. by rewrite Hemp.
      * intros id' s1 o'. rewrite Hemp, lookup_empty. done.
  - destruct (Hrec _ _ _ Hr) as (Hnone & Hone & -> & Hat).
    destruct (reads_next s rest (ex_intro _ _ Em) Hat) as (x' & s1 & E' & Hx). rewrite E in E'. discriminate E'.
  - exists got, rest, k. split_and!; try done; cbn [input_stream receives set_input].
    + intros s Hs. destruct (Hi s Hs) as [-> Hat]. by rewrite delete_empty.
    + intros id' s o Hd. apply lookup_delete_Some in Hd as [Hne Hd]. destruct (Hrec _ _ _ Hd) as (Hnone & Hone & -> & Hat).
      split_and!; try done. rewrite Hone. apply delete_singleton_ne. done.
  - by exists got, rest, k.
Qed.
Lemma run_receiver ls : forall n n', run ls n = (Ok tt, n') -> receiver_ok n -> receiver_ok n'.
Proof.
  induction ls as [|l ls IH]; intros n n' E Hok; [by injection E as <-|]. apply run_step in E as (n1 & E1 & E2).
  apply (IH n1 n' E2). eapply receiver_step; [done|by eapply perform_changes].
Qed.
Lemma new_receiver r (w : W) s : sends r (concat (map frame ms)) -> receiver_ok (VatNetwork_new r w s options).
Proof.
  intros Hs. exists [], ms, 0%nat. split_and!; try done.
  - split; [constructor|]. by exists [].
  - lia.
  - intros s' [= <-]. split; [done|]. apply (frames_at_word options); [|done]. refine (List.Forall_impl _ _ Hms). by intros m [Hm _].
  - by intros o [= <-].
Qed.
End receiver.
End delivery.

(** ** One connection at a time *)

Section one_connection.
Import RpcSystem.
Context {Net VatId : Type} `{VatNetwork Net VatId}.
#[local] Abbreviation Tasks := (TaskSet.TaskSet Task).
Implicit Types (s : RpcSystem (Net := Net)) (ts : Tasks).

Definition waits_for (t : Task) : option Z := match t with Disconnected c => Some c | _ => None end.
(** The connection there is, if any, is the one that the system waits for. *)
Definition one_connection s ts : Prop :=
  omap waits_for (TaskSet.tasks ts) ≡ₚ option_list (connection_state s) /\
  forall c, connection_state s = Some c -> 0 <= c < created s.

Lemma tasks_add t ts : TaskSet.tasks (TaskSet.add t ts) = TaskSet.tasks ts ++ [t].
Proof. unfold TaskSet.tasks, TaskSet.add, TaskSet.enqueue. cbn. by rewrite omap_app, app_assoc. Qed.
Lemma tasks_terminate r ts : TaskSet.tasks (TaskSet.terminate r ts) = TaskSet.tasks ts.
Proof. unfold TaskSet.tasks, TaskSet.terminate, TaskSet.enqueue. cbn. rewrite omap_app. cbn. by rewrite app_nil_r. Qed.
Lemma connection_step s ts r s' ts' : 0 <= created s -> one_connection s ts -> get_connection_state (s, ts) = (r, (s', ts')) ->
  one_connection s' ts' /\ created s <= created s' /\ (forall c, connection_state s = Some c -> connection_state s' = Some c).
Proof.
  intros Hc [Hw Hlt] E. unfold get_connection_state in E. destruct (connection_state s) as [c|] eqn:Ec.
  - assert (connection_state s' = Some c /\ created s' = created s /\ ts' = ts) as (E1 & E2 & ->).
    { cbn in E. destruct (net_drop_connection (network s)) as [[] n]; injection E as _ <- <-; by split_and!. }
    unfold one_connection. rewrite E1, E2. by split_and!.
  - injection E as _ <- <-. split_and!; cbn [created set_connection_state]; [|lia|done]. split.
    + rewrite !tasks_add, !omap_app. cbn. by rewrite Hw.
    + intros c [= <-]. cbn. lia.
Qed.

Lemma effect_step t r s ts l : 0 <= created s -> one_connection s ts ->
  TaskSet.remove_one t (TaskSet.in_progress ts) = Some l ->
  let (s', ts') := effect t r s (TaskSet.set_in_progress l ts) in one_connection s' ts' /\ 0 <= created s'.
Proof.
  intros Hc [Hw Hlt] Hrem. apply TaskSet.remove_one_perm in Hrem.
  assert (Ht : omap waits_for (TaskSet.tasks ts) ≡ₚ option_list (waits_for t) ++ omap waits_for (TaskSet.tasks (TaskSet.set_in_progress l ts))).
  { unfold TaskSet.tasks. cbn [TaskSet.in_progress TaskSet.enqueued TaskSet.set_in_progress]. rewrite Hrem. cbn.
    by destruct (waits_for t). }
  assert (Hsame : waits_for t = None -> one_connection s (TaskSet.set_in_progress l ts)).
  { intros E. rewrite E in Ht. cbn in Ht. split; [by rewrite <- Ht|done]. }
  destruct t; cbn [effect].
  - split; [|done]. destruct (Hsame eq_refl) as [Hw' _]. split; [by rewrite tasks_terminate|done].
  - destruct r as [e|]; [by split; [apply Hsame|]|].
    destruct (get_connection_state (s, TaskSet.set_in_progress l ts)) as [r [s' ts']] eqn:E.
    destruct (connection_step _ _ _ _ _ Hc (Hsame eq_refl) E) as (Ho & Hle & _). split; [done|lia].
  - unfold reap. destruct r; (split; [by apply Hsame|done]).
  - assert (Hslot : connection_state s = Some c /\ omap waits_for (TaskSet.tasks (TaskSet.set_in_progress l ts)) = []).
    { cbn in Ht. rewrite Hw in Ht. destruct (connection_state s) as [c'|]; cbn in Ht.
      - symmetry in Ht. apply Permutation_singleton_r in Ht. injection Ht as E1 E2. split; [by rewrite E1|exact E2].
      - by apply Permutation_nil in Ht. }
    destruct Hslot as [Hs Hnil]. destruct r as [e|]; (split; [|done]); (split; [|done]); cbn [connection_state set_connection_state task_failed].
    + by rewrite Hnil.
    + unfold TaskSet.tasks in *. cbn [TaskSet.in_progress TaskSet.enqueued TaskSet.set_in_progress] in *.
      rewrite <- app_assoc, !omap_app in *. cbn. by rewrite Hnil.
  - unfold reap. destruct r; (split; [by apply Hsame|done]).
Qed.
Definition state_ok (w : RpcSystem (Net := Net) * Tasks) : Prop := one_connection w.1 w.2 /\ 0 <= created w.1.
Lemma update_keeps s ts : one_connection s ts -> one_connection s (TaskSet.update_on_empty_fulfillers ts).
Proof. intros [Hw Hlt]. split; [by rewrite TaskSet.update_tasks|done]. Qed.
Lemma clear_tasks ts : TaskSet.tasks (TaskSet.clear_fulfillers ts) = TaskSet.tasks ts.
Proof. done. Qed.
Lemma system_poll_ready_ok ready : forall s ts, state_ok (s, ts) -> state_ok (snd (TaskSet.poll_ready effect ready s ts)).
Proof.
  induction ready as [|[[t r]|] ready IH]; intros s ts [Hok Hc]; [done|..]; cbn [TaskSet.poll_ready].
  - destruct (TaskSet.remove_one t (TaskSet.in_progress ts)) as [l|] eqn:E; [|by apply IH].
    pose proof (effect_step t r s ts l Hc Hok E) as He. destruct (effect t r s _) as [s' ts']. destruct He as [Ho Hc'].
    apply IH. split; [by apply update_keeps|done].
  - destruct (TaskSet.terminators ts); [by apply IH|]. split; [|done]. destruct Hok as [Hw Hlt]. by split.
Qed.
Lemma system_poll_ok ready w : state_ok w -> state_ok (snd (poll ready w)).
Proof.
  destruct w as [s ts]. intros [[Hw Hlt] Hc]. unfold poll, TaskSet.poll. apply system_poll_ready_ok. split; [|done]. split; [|done].
  destruct (TaskSet.take_enqueued_tasks ts) as [E1 E2]. unfold TaskSet.tasks at 1. cbn [fst snd]. rewrite E1, E2. cbn. by rewrite app_nil_r.
Qed.
Lemma on_network_ok {X} (c : ST Net X) w r w' : on_network c w = (r, w') -> w'.2 = w.2 /\
  connection_state w'.1 = connection_state w.1 /\ created w'.1 = created w.1.
Proof. destruct w as [s ts]. cbn. destruct (c (network s)) as [x n]. intros [= _ <-]. done. Qed.
Lemma bootstrap_ok vat_id w r w' : state_ok w -> bootstrap vat_id w = (Ok r, w') -> state_ok w' /\
  match r with
  | LocalBootstrap => connection_state w'.1 = connection_state w.1
  | RemoteBootstrap c => connection_state w'.1 = Some c /\ forall c', connection_state w.1 = Some c' -> c = c'
  end.
Proof.
  intros [Hok Hc] E. unfold bootstrap in E. apply ST_bind_inv in E as (b & w1 & E1 & E).
  apply on_network_ok in E1 as (Ets & Ecs & Ecr). destruct w as [s ts], w1 as [s1 ts1]. cbn [fst snd] in *. subst ts1.
  assert (Hok1 : one_connection s1 ts). { destruct Hok as [Hw Hlt]. split; rewrite Ecs; [done|by rewrite Ecr]. }
  destruct b; [|injection E as <- <-; split; [split; [done|by rewrite <- Ecr in Hc]|done]].
  apply ST_bind_inv in E as (c & [s2 ts2] & E2 & E). injection E as <- <-.
  destruct (connection_step s1 ts _ _ _ ltac:(lia) Hok1 E2) as (Ho & Hle & Hkeep). split; [split; [done|cbn; lia]|].
  cbn [fst snd] in *. assert (Es : connection_state s2 = Some c).
  { unfold get_connection_state in E2. destruct (connection_state s1) as [c1|] eqn:Ec; [|by injection E2 as <- <-].
    apply ST_bind_inv in E2 as (u & [s3 ts3] & E3 & E2). injection E2 as <- <- <-. apply on_network_ok in E3 as (_ & E3 & _).
    cbn [fst] in E3. congruence. }
  split; [done|]. intros c' Ec'. rewrite <- Ecs in Ec'. apply Hkeep in Ec'. congruence.
Qed.
Lemma system_new_ok n b w acc : RpcSystem.new n b = Ok (w, acc) -> state_ok w.
Proof.
  unfold RpcSystem.new. destruct (on_network net_accept _) as [r [s ts]] eqn:E. apply on_network_ok in E as (Ets & Ecs & Ecr).
  destruct r; try discriminate. intros [= <- <-]. cbn [fst snd] in *. rewrite Ets. split; [|cbn; by rewrite Ecr].
  split; cbn [fst snd]; rewrite Ecs; [reflexivity|done].
Qed.

(** The runs of a system: polls and bootstraps *)
Inductive system_reaches (n : Net) : RpcSystem (Net := Net) * Tasks -> Prop :=
| sys_new b w acc : RpcSystem.new n b = Ok (w, acc) -> system_reaches n w
| sys_poll ready w : system_reaches n w -> system_reaches n (snd (poll ready w))
| sys_bootstrap vat_id r w w' : system_reaches n w -> bootstrap vat_id w = (Ok r, w') -> system_reaches n w'.
Lemma system_reaches_ok n w : system_reaches n w -> state_ok w.
Proof.
  induction 1 as [b w acc E|ready w _ IH|vat_id r w w' _ IH E]; [by eapply system_new_ok|by apply system_poll_ok|].
  by apply (bootstrap_ok _ _ _ _ IH E).
Qed.

(** A system has one connection at a time.  While it has one, it waits for it
    to disconnect, and for no other; every bootstrap of the peer is on it. *)
Lemma system_one_connection n w vat_id r w' : system_reaches n w -> bootstrap vat_id w = (Ok r, w') ->
  omap waits_for (TaskSet.tasks w'.2) ≡ₚ option_list (connection_state w'.1) /\
  match r with
  | LocalBootstrap => connection_state w'.1 = connection_state w.1
  | RemoteBootstrap c => connection_state w'.1 = Some c /\ forall c', connection_state w.1 = Some c' -> c = c'
  end.
Proof.
  intros Hr E. destruct (bootstrap_ok _ _ _ _ (system_reaches_ok n w Hr) E) as [[[Hw _] _] Hb]. by split.
Qed.
(** The future of the system is done when its driver is, without an error if
    the network was disconnected. *)
Lemma driver_ends_system s ts r : TaskSet.in_progress ts = [Drive] -> TaskSet.enqueued ts = [] -> TaskSet.terminators ts = [] ->
  exists w, poll [Some (Drive, r)] (s, ts) = (None, w) /\
    fst (poll [None] w) = Some (match r with Some Prelude.Disconnected => None | r => r end).
Proof.
  intros Hp He Ht. unfold poll, TaskSet.poll, TaskSet.take_enqueued. rewrite He. cbn [fold_left TaskSet.poll_ready].
  rewrite Hp. cbn [TaskSet.in_progress TaskSet.remove_one]. rewrite decide_True by done.
  eexists. split; [reflexivity|]. cbn [effect TaskSet.terminate TaskSet.enqueue TaskSet.set_in_progress TaskSet.enqueued
    TaskSet.in_progress TaskSet.terminators app]. cbn. rewrite Ht. cbn. destruct r as [[]|]; done.
Qed.
End one_connection.

(** C35: What is sent on a connection arrives on the other side.  Two vats
    whose networks run in any way (connections given out and dropped, messages
    made, edited, sent and dropped, receives begun, finished and cancelled,
    shutdowns, turns of the write queue): what the writer of one has taken are
    the frames of the first messages that it sent, of all of them once its
    channel is empty; and if that is what the other reads, its receives give
    these messages, in that order, then the end of the stream, and otherwise
    only refuse to read what another receive has under way or has lost.  While
    the connection has its stream, a receive gives the next message. *)
Theorem twoparty_delivers {Ta Wa Tb Wb} `{AsyncReadExtSpec Ta} `{AsyncWriteExtSpec Wa} `{AsyncReadExtSpec Tb} `{AsyncWriteExtSpec Wb}
    (ra : Ta) (wa : Wa) (rb : Tb) (wb : Wb) (sa sb : Side) (oa ob : ReaderOptions)
    (la lb : list (Label (list (list byte)))) (a : Network Ta Wa (list (list byte))) (b : Network Tb Wb (list (list byte))) :
  takes wa [] [] ->
  run la (VatNetwork_new ra wa sa oa) = (Ok tt, a) -> run lb (VatNetwork_new rb wb sb ob) = (Ok tt, b) ->
  Forall (fun m => sendable (W := Wa) m /\ readable ob m /\ within_limit ob m) (sent_messages a) ->
  exists written late out, sent_messages a = written ++ late /\ takes (writer (queue a)) out [] /\
    (finished (queue a) = None -> rx (queue a) = Some [] -> late = []) /\
    (sends rb out -> exists got rest k, written = got ++ rest /\ arrived (results b) got k /\ ((0 < k)%nat -> rest = []) /\
      forall s i id, inner b = Some i -> input_stream b = Some s ->
        exists x b', run [DoReceive id; DoFinish id] b = (Ok tt, b') /\ results b' = results b ++ [inl x] /\
          match rest with [] => x = None | m :: _ => exists r, x = Some r /\ message_says r m end).
Proof.
  intros Hw Ea Eb Hall.
  assert (Hs : Forall (sendable (W := Wa)) (sent_messages a)) by (refine (List.Forall_impl _ _ Hall); by intros m [? _]).
  pose proof (run_sender wa la _ _ Ea Hs (new_sender wa ra sa oa)) as Hok.
  destruct (sender_wrote wa Hw a Hok) as (written & late & Hsent & Ht & Hlate).
  exists written, late, (concat (map frame written)). split; [done|]. split; [done|]. split; [done|]. intros Hr.
  assert (Hms : Forall (fun m => readable ob m /\ within_limit ob m) written).
  { rewrite Hsent, Forall_app in Hall. refine (List.Forall_impl _ _ (proj1 Hall)). by intros m [_ ?]. }
  destruct (run_receiver written ob Hms lb _ _ Eb (new_receiver written ob Hms rb wb sb Hr)) as (got & rest & k & Em & Ha & Hk & Hi & _ & Ho).
  exists got, rest, k. split_and!; try done. intros s i id Hin Hstr. destruct (Hi s Hstr) as [Hemp Hat].
  assert (receive_options i = ob) by (apply Ho; unfold receiving; by rewrite Hin).
  destruct (reads_next written ob Hms s rest (ex_intro _ _ Em) Hat) as (x & s' & E & Hx). exists x.
  eexists. split; [|split; [|by destruct rest; [apply Hx|destruct Hx as (mr & ? & ? & _); eauto]]].
  - cbn [run perform]. unfold receive_incoming_message, with_inner.
    rewrite (ST_bind_ok _ _ b tt (set_input None (<[id := (s, receive_options i)]> (receives b)) b)).
    2: { rewrite (ST_bind_ok _ _ b b b) by done. rewrite Hin. rewrite (ST_bind_ok _ _ b b b) by done. by rewrite Hstr. }
    unfold finish_receive. set (b1 := set_input _ _ b).
    rewrite (ST_bind_ok _ _ b1 tt (tell (Received id (inl x)) (set_input (Some s') (delete id (receives b1)) b1))); [done|].
    rewrite (ST_bind_ok _ _ b1 b1 b1) by done. cbn [receives b1 set_input]. rewrite lookup_insert_eq. subst ob. by rewrite E.
  - unfold results. cbn [events tell set_input]. by rewrite omap_app.
Qed.

(** ** A run *)

#[local] Instance conn_writer : AsyncWriteExt Sink := helpers_w.
#[local] Instance conn_writer_spec : AsyncWriteExtSpec Sink := polling_write_spec.
#[local] Instance conn_reader : AsyncReadExt Arrivals := helpers_r.
#[local] Instance conn_reader_spec : AsyncReadExtSpec Arrivals := polling_read_spec.
#[local] Abbreviation ExampleNet := (Network Arrivals Sink (list (list byte))).

Definition sending_run : list (Label (list (list byte))) :=
  [DoAccept; DoNew 1 []; DoEdit 1 (fun _ => two_segments); DoSend 1; DoNew 2 one_word; DoQueue; DoSend 2; DoQueue;
   DoDropConnection; DoQueue].
Definition receiving_run : list (Label (list (list byte))) := [DoAccept; DoReceive 7; DoReceive 8; DoFinish 7].
Definition client_net : ExampleNet := VatNetwork_new {| arrivals := [] |} stalling_sink Client DEFAULT_READER_OPTIONS.
Definition server_input : Arrivals := {| arrivals := [Some (frame two_segments); None; Some (frame one_word)] |}.
Definition server_net : ExampleNet := VatNetwork_new server_input stalling_sink Server DEFAULT_READER_OPTIONS.
Definition client_end : ExampleNet := snd (run sending_run client_net).
Definition server_end : ExampleNet := snd (run receiving_run server_net).
Lemma finished_run {S A} (c : ST S A) s a : fst (c s) = Ok a -> c s = (Ok a, snd (c s)).
Proof. destruct (c s). cbn. by intros ->. Qed.
Lemma client_runs : run sending_run client_net = (Ok tt, client_end).
Proof. refine (finished_run (run sending_run) client_net tt _). vm_compute. reflexivity. Qed.
Lemma server_runs : run receiving_run server_net = (Ok tt, server_end).
Proof. refine (finished_run (run receiving_run) server_net tt _). vm_compute. reflexivity. Qed.
Lemma client_sent : sent_messages client_end = [two_segments; one_word].
Proof. vm_compute. reflexivity. Qed.
Lemma good_messages : Forall (fun m => sendable (W := Sink) m /\ readable DEFAULT_READER_OPTIONS m /\ within_limit DEFAULT_READER_OPTIONS m)
  [two_segments; one_word].
Proof.
  pose proof two_segments_sendable as H1. pose proof one_word_sendable as H2.
  constructor; [|constructor; [|constructor]]; (split; [assumption|]); (split; [split; [|done]|]);
    try (intros v; vm_compute; by intros [= <-]); [apply H1|apply H2].
Qed.

Lemma twoparty_delivers_witness : takes stalling_sink [] [] /\ sent_messages client_end = [two_segments; one_word] /\
  exists written late out, [two_segments; one_word] = written ++ late /\ takes (writer (queue client_end)) out [] /\
    (sends server_input out -> exists got rest k, written = got ++ rest /\ arrived (results server_end) got k /\ ((0 < k)%nat -> rest = [])).
Proof.
  split; [reflexivity|]. split; [exact client_sent|].
  destruct (twoparty_delivers {| arrivals := [] |} stalling_sink server_input stalling_sink Client Server DEFAULT_READER_OPTIONS
    DEFAULT_READER_OPTIONS sending_run receiving_run client_end server_end) as (written & late & out & Hs & Ht & _ & Hd);
    [reflexivity|exact client_runs|exact server_runs|rewrite client_sent; exact good_messages|].
  rewrite client_sent in Hs. exists written, late, out. split; [exact Hs|]. split; [exact Ht|]. intros Hr.
  destruct (Hd Hr) as (got & rest & k & E & Ha & Hk & _). exists got, rest, k. split; [exact E|]. split; [exact Ha|exact Hk].
Defined.

(** The client has dropped its connection, and its driver is done; the server
    was refused a second receive while the first was under way. *)
Lemma client_driver_done : drive_until_shutdown client_end = Ready None /\ disconnected client_end = true.
Proof. vm_compute. done. Qed.
Lemma second_receive_refused : match results server_end with [inr Failed; inl (Some _)] => True | _ => False end.
Proof. vm_compute. done. Qed.

(** [get_peer_vat_id] gives the side of this vat, and not that of its peer. *)
Lemma peer_is_oneself {T W M} (r : T) (w : W) s o :
  fst (get_peer_vat_id (VatNetwork_new (M := M) r w s o)) = Ok s.
Proof. done. Qed.
