(* ===== verification/RpcStreams.v ===== *)
(** * Streams, tail calls and the end of a connection (capnp-rpc/src/rpc.rs)

    What [RpcConn] leaves to the objects around a connection: streaming calls
    ([Request::send_streaming], with the flow controllers of [FlowControl]), the
    results of a call ([Results]), and [Disconnector]. *)

From S2P Require Import Prelude RpcTables RpcTypes RpcConn RpcRefine RpcProps TaskSet FlowControl AsyncIo.
From stdpp Require Import gmap.
#[local] Open Scope Z_scope.
#[local] Open Scope rust_scope.

(** ** Streaming calls *)

Module Streams.
Section streams.
Context {Content : Type} `{Hooks Content}.
#[local] Abbreviation Conn := (ConnectionState Content).

(** A streaming call whose acknowledgement the flow controller in the cell
    [cell] waits for: the promise of the question, which holds the last
    [QuestionRef] of it.  The questions of other calls have other holders. *)
Record Pending := { pending_question : Z; cell : Z; ack : FlowControl.Ack }.
#[local] Existing Instance FlowControl.Ack_eq_dec.
#[export] Instance Pending_eq_dec : EqDecision Pending.
Proof. solve_decision. Defined.

(** A connection with the flow controllers of its clients, by cell (a cell is
    allocated with a [Client] and never used again), and the size of their
    window, which is the connection's. *)
Record Streaming := {
  conn : Conn;
  window : Z;
  flows : gmap Z FlowControl.Flow;
  pendings : list Pending
}.
#[local] Abbreviation M := (ST Streaming).

Definition set_conn c st : Streaming :=
  {| conn := c; window := window st; flows := flows st; pendings := pendings st |}.
Definition set_flow f v st : Streaming :=
  {| conn := conn st; window := window st; flows := <[f := v]> (flows st); pendings := pendings st |}.
Definition set_pendings ps st : Streaming :=
  {| conn := conn st; window := window st; flows := flows st; pendings := ps |}.
Definition on_conn {A} (c : ST Conn A) : M A := fun st =>
  let (r, s) := c (conn st) in (r, set_conn s st).
Definition update (f : Streaming -> Streaming) : M unit := st ← get_state; put_state (f st).

(** [FlowController::send] of the controller in the cell [f]: the message is
    sent before its size is counted. *)
Definition flow_send (f : Z) (flow : FlowControl.Flow) (message : Message Content) (question_id words : Z)
    : M (Z * option (option ErrorKind)) :=
  p ← on_conn alloc;
  size ← lift (umul 64 words 8);
  on_conn (send message) ;;
  match FlowControl.send p words flow with
  | (Ok r, flow) =>
      update (set_flow f flow) ;;
      update (fun st => set_pendings
        (pendings st ++ [{| pending_question := question_id; cell := f;
                            ack := {| FlowControl.ack_of := p; FlowControl.ack_size := size |} |}]) st) ;;
      ret (p, r)
  | _ => lift Panic
  end.

(** [Request::send_streaming_internal].  It returns the promise of the send,
    and what that resolves with if it is ready.  Without a connection the
    promise of the question is dropped, and its [QuestionRef] with it. *)
Definition send_streaming_internal (target : MessageTarget) (interface_id method_id : Z) (c : Content)
    (caps : list (option ClientHook)) (words flow : Z) : M (Z * option (option ErrorKind)) :=
  '(ds, ids) ← on_conn (write_descriptors caps);
  question_id ← on_conn (push_question ids false);
  on_conn (set_question_ref question_id) ;;
  st ← get_state;
  let message := Call question_id target interface_id method_id Caller {| content := c; cap_table := ds |} in
  match flows st !! flow with
  | Some f => flow_send flow f message question_id words
  | None =>
      if connected (conn st) then
        update (set_flow flow (FlowControl.new (window st))) ;;
        flow_send flow (FlowControl.new (window st)) message question_id words
      else
        p ← on_conn alloc;
        on_conn (QuestionRef_drop question_id) ;;
        ret (p, Some (Some Failed))
  end.

(** [Request::send_streaming]: the promise, or the hook to which the call has
    to be redirected. *)
Definition Request_send_streaming (target : Client) (interface_id method_id : Z) (c : Content)
    (caps : list (option ClientHook)) (words : Z) : M ((Z * option (option ErrorKind)) + ClientHook) :=
  write_target_result ← on_conn (Client_write_target chain_bound target);
  match write_target_result with
  | inr redirect => ret (inr redirect)
  | inl t =>
      r ← send_streaming_internal t interface_id method_id c caps words (flow_controller target);
      ret (inl r)
  end.

(** What the promise of a question has resolved with, while its
    [QuestionRef] lives *)
Definition resolution (q : Z) (s : Conn) : option (Resolution Content) :=
  match ExportTable.find q (questions s) ≫= self_ref with
  | Some r =>
      if fulfiller r then None
      else snd <$> last (filter (fun x => fst x = q) (fulfilled s))
  | None => None
  end%stdpp.

(** [promise.await?; Ok(())]; a promise that was redirected has the outcome
    of the answer it was redirected to. *)
Definition acknowledges (redirected : option ErrorKind) (r : Resolution Content) : option ErrorKind :=
  match r with Response _ _ => None | Redirected _ => redirected | Rejected e => Some e end.

(** The acknowledgement of a streaming call is polled: when the question has
    been answered, the [QuestionRef] is dropped, and then the flow controller
    goes on. *)
Definition settle (p : Pending) (redirected : option ErrorKind) : M unit :=
  st ← get_state;
  match resolution (pending_question p) (conn st), flows st !! cell p with
  | Some r, Some flow =>
      on_conn (QuestionRef_drop (pending_question p)) ;;
      update (fun st => set_pendings
        (filter (fun p' => pending_question p' <> pending_question p) (pendings st)) st) ;;
      update (set_flow (cell p) (FlowControl.poll_acks [(ack p, acknowledges redirected r)] flow))
  | _, _ => ret tt
  end.
Fixpoint settle_all (ps : list Pending) (redirected : option ErrorKind) : M unit :=
  match ps with [] => ret tt | p :: ps => settle p redirected ;; settle_all ps redirected end.

(** What happens to a connection with streams: a streaming call, another
    call, the results of one, the end of a question that is not a stream's, a
    message, the loss of the connection, or a poll of a stream's task. *)
Inductive Label :=
| SendStreaming (target : Client) (interface_id method_id : Z) (c : Content)
    (caps : list (option ClientHook)) (words : Z)
| SendCall (target : Client) (interface_id method_id : Z) (c : Content) (caps : list (option ClientHook))
| SendResults (answer_id : Z) (redirect : bool) (c : Content) (caps : list (option ClientHook)) (status : option ErrorKind)
| DropQuestion (q : Z)
| Receive (m : option (Message Content))
| Disconnect (e : ErrorKind)
| Settle (p : Pending) (redirected : option ErrorKind).
Definition perform (l : Label) : M unit :=
  match l with
  | SendStreaming target interface_id method_id c caps words =>
      Request_send_streaming target interface_id method_id c caps words ;; ret tt
  | SendCall target interface_id method_id c caps => on_conn (Request_send target interface_id method_id c caps) ;; ret tt
  | SendResults answer_id redirect c caps status =>
      st ← get_state;
      on_conn (from_results_inner answer_id (results_are_rpc redirect (conn st)) c caps status) ;; ret tt
  | DropQuestion q => on_conn (QuestionRef_drop q)
  | Receive m => on_conn (message_loop_turn m)
  | Disconnect e => on_conn (disconnect e)
  | Settle p redirected => settle p redirected
  end.

(** The sizes of messages are not negative, and the question of a stream is
    dropped only by its task; there is a [QuestionRef] to drop. *)
Definition allowed (l : Label) (st : Streaming) : bool :=
  match l with
  | SendStreaming _ _ _ _ _ words => 0 <=? words
  | DropQuestion q =>
      negb (existsb (fun p => pending_question p =? q) (pendings st)) &&
      match ExportTable.find q (questions (conn st)) ≫= self_ref with Some _ => true | None => false end
  | Settle p _ => bool_decide (p ∈ pendings st)
  | _ => true
  end%stdpp.

Definition start (s : Conn) (window_size : Z) : Streaming :=
  {| conn := s; window := window_size; flows := ∅; pendings := [] |}.
End streams.
Arguments Streaming Content : clear implicits.
Arguments Label Content : clear implicits.
End Streams.

(** ** The results of a call *)

Module CallResults.
Section results.
Context {Content : Type} `{Hooks Content}.
#[local] Abbreviation Conn := (ConnectionState Content).
#[local] Abbreviation Caps := (list (option ClientHook)).

(** The content of a message that was just made, and the copy of a content
    with its capabilities into another message ([set_as]) *)
Context (empty : Content) (copy : Content -> Caps -> outcome (Content * Caps)).

(** [is_rpc]: the results are in a message of the connection, and are not
    redirected to this vat. *)
Record ResultsVariant := { is_rpc : bool; results_content : Content; results_caps : Caps }.
(** [ResultsInner]; [pipeline_sender]: it was not used. *)
Record ResultsInner := {
  results_variant : option ResultsVariant;
  redirect_results : bool;
  answer_id : Z;
  pipeline_sender : bool
}.
(** [Results].  Its fulfiller goes with [inner]; [done] is what it was
    fulfilled with, and [pipeline_results] what the pipeline was completed with. *)
Record Results := {
  inner : option ResultsInner;
  done : option ResultsInner;
  pipeline_results : option (Content * Caps)
}.
#[local] Abbreviation M := (ST (Results * Conn)).

Definition set_inner i (r : Results) : Results :=
  {| inner := i; done := done r; pipeline_results := pipeline_results r |}.
Definition set_variant v (i : ResultsInner) : ResultsInner :=
  {| results_variant := v; redirect_results := redirect_results i; answer_id := answer_id i;
     pipeline_sender := pipeline_sender i |}.
Definition on_conn {A} (c : ST Conn A) : M A := fun w => let (r, s) := c (snd w) in (r, (fst w, s)).
Definition with_inner {A} (f : ResultsInner -> M A) : M A :=
  w ← get_state; match inner (fst w) with Some i => f i | None => lift Panic end.
Definition put_inner (i : ResultsInner) : M unit := w ← get_state; put_state (set_inner (Some i) (fst w), snd w).

(** [Results::new] *)
Definition Results_new (id : Z) (redirect : bool) : Results :=
  {| inner := Some {| results_variant := None; redirect_results := redirect; answer_id := id; pipeline_sender := true |};
     done := None; pipeline_results := None |}.

(** [ResultsInner::ensure_initialized] *)
Definition ensure_initialized (i : ResultsInner) (s : Conn) : ResultsInner :=
  match results_variant i with
  | Some _ => i
  | None =>
      set_variant (Some {| is_rpc := results_are_rpc (redirect_results i) s; results_content := empty; results_caps := [] |}) i
  end.

(** [<Results as ResultsHook>::get], and what the server does with it *)
Definition get : M (Content * Caps) :=
  with_inner (fun i =>
    w ← get_state;
    let i := ensure_initialized i (snd w) in
    put_inner i ;;
    match results_variant i with Some v => ret (results_content v, results_caps v) | None => lift Panic end).
Definition edit (f : Content * Caps -> Content * Caps) : M unit :=
  get ;;
  with_inner (fun i =>
    match results_variant i with
    | Some v =>
        let (c, caps) := f (results_content v, results_caps v) in
        put_inner (set_variant (Some {| is_rpc := is_rpc v; results_content := c; results_caps := caps |}) i)
    | None => lift Panic
    end).

(** [set_pipeline]: the pipeline gets a copy of the results as they are. *)
Definition set_pipeline : M unit :=
  '(c, caps) ← get;
  copied ← lift (copy c caps);
  with_inner (fun i =>
    if pipeline_sender i then
      w ← get_state;
      put_state ({| inner := Some {| results_variant := results_variant i; redirect_results := redirect_results i;
                                     answer_id := answer_id i; pipeline_sender := false |};
                    done := done (fst w); pipeline_results := Some copied |}, snd w)
    else fails Failed).

(** [Drop for Results] *)
Definition drop : M unit :=
  w ← get_state;
  match inner (fst w) with
  | Some i => put_state ({| inner := None; done := Some i; pipeline_results := pipeline_results (fst w) |}, snd w)
  | None => ret tt
  end.

(** [direct_tail_call], with the request on [target] of this connection, or
    ([None]) a request of another brand: the question and the pipeline *)
Definition direct_tail_call (request : option (Client * Z * Z * Content * Caps)) : M (Z * Z) :=
  with_inner (fun i =>
    w ← get_state;
    put_state (set_inner None (fst w), snd w) ;;
    match request with
    | Some (target, interface_id, method_id, c, caps) =>
        if redirect_results i then lift Panic
        else
          sent ← on_conn (Request_tail_send target interface_id method_id c caps);
          match sent with
          | Some (question_id, pipeline) =>
              on_conn (unwrap_result new_outgoing_message) ;;
              on_conn (send (Return (answer_id i) false (TakeFromOtherQuestion question_id))) ;;
              w ← get_state;
              put_state ({| inner := None; done := Some i; pipeline_results := pipeline_results (fst w) |}, snd w) ;;
              ret (question_id, pipeline)
          | None => lift Panic
          end
    | None => lift Panic
    end).

(** The call has completed: [from_results_inner] takes what the results were
    when they were given up. *)
Definition complete (call_status : option ErrorKind) : M bool :=
  w ← get_state;
  match done (fst w) with
  | Some i =>
      match results_variant (ensure_initialized i (snd w)) with
      | Some v => on_conn (from_results_inner (answer_id i) (is_rpc v) (results_content v) (results_caps v) call_status)
      | None => lift Panic
      end
  | None => fails Failed
  end.

(** [<Client as ClientHook>::call]: the parameters are copied into a new
    request, which is sent, or goes to the hook that [target] was redirected to *)
Definition Client_call (target : Client) (interface_id method_id : Z) (c : Content) (caps : Caps)
    : ST Conn ((Z * Z) + ClientHook) :=
  copied ← lift (copy c caps);
  new_outgoing_message ;;
  Request_send target interface_id method_id (fst copied) (snd copied).
(** The response has arrived: it is copied into the results of the call. *)
Definition call_returns (c : Content) (caps : Caps) : M unit :=
  get ;;
  copied ← lift (copy c caps);
  edit (fun _ => copied).
End results.
End CallResults.

(** ** Disconnecting on request *)

Module Disconnector.
Section disconnector.
Context {Content : Type} `{Hooks Content}.
#[local] Abbreviation Conn := (ConnectionState Content).

Inductive DisconnectorState := New | Disconnecting | Disconnected.
(** The cell that [RpcSystem] keeps its connection in: empty when there is
    none, or the one there was has ended. *)
#[local] Abbreviation Cell := (option Conn).

Definition disconnect : ST Cell unit := fun cell =>
  match cell with
  | Some s => let (r, s) := RpcConn.disconnect Prelude.Disconnected s in (r, Some s)
  | None => (Ok tt, None)
  end.

(** [Future for Disconnector] *)
Definition poll (d : DisconnectorState) : ST Cell (DisconnectorState * Poll unit) :=
  d ← match d with
      | New => disconnect ;; ret Disconnecting
      | Disconnecting =>
          cell ← get_state;
          ret match cell with Some _ => Disconnecting | None => Disconnected end
      | Disconnected => ret Disconnected
      end;
  ret (d, match d with Disconnected => Ready tt | _ => Pending end).

(** Polls, between which the system may take the connection away or, once the
    cell is empty, make another *)
Fixpoint polls (d : DisconnectorState) (between : list (Cell -> Cell)) : ST Cell (DisconnectorState * Poll unit) :=
  match between with
  | [] => poll d
  | f :: between =>
      '(d, _) ← poll d;
      cell ← get_state;
      put_state (f cell) ;;
      polls d between
  end.
End disconnector.
End Disconnector.

(** ** Questions that are held *)

Section held.
Context {Content : Type} `{Hooks Content}.
#[local] Abbreviation Conn := (ConnectionState Content).
#[local] Abbreviation keeps := (RpcConn.keeps (Content := Content)).
Implicit Types (s : Conn).

(** The question [q] has a [QuestionRef], and its answer is known if that was
    used. *)
Definition heldb (s : Conn) (q : Z) : bool :=
  match ExportTable.find q (questions s) with
  | Some qu =>
      match self_ref qu with
      | Some r => fulfiller r || existsb (fun x => fst x =? q) (fulfilled s)
      | None => false
      end
  | None => false
  end.
Definition held s (q : Z) : Prop := heldb s q = true.

Definition finished {A} (r : outcome A) : Prop := match r with Ok _ | Err _ => True | _ => False end.

(** [c] leaves the table of questions in order, and keeps the questions that
    are held, if it does not panic. *)
Definition holds_at {A} (c : ST Conn A) s : Prop := ExportTable.TableOk (questions s) -> finished (fst (c s)) ->
  ExportTable.TableOk (questions (snd (c s))) /\ forall q, held s q -> held (snd (c s)) q.
Definition holds {A} (c : ST Conn A) : Prop := forall s, holds_at c s.

Definition asked s := (questions s, fulfilled s).

(** What an operation can tell the peer, besides *)
Definition told s := (asked s, (sent s, connection s)).
Lemma told_asked {A} (c : ST Conn A) : keeps told c -> keeps asked c.
Proof. intros Hc s. exact (f_equal fst (Hc s)). Qed.

Lemma holds_keeps {A} (c : ST Conn A) : keeps asked c -> holds c.
Proof.
  intros Hk s Hs _. specialize (Hk s). unfold asked in Hk. injection Hk as H1 H2.
  unfold held, heldb. by rewrite H1, H2.
Qed.
Lemma holds_bind {A B} (c : ST Conn A) (k : A -> ST Conn B) :
  holds c -> (forall a, holds (k a)) -> holds (bind c k).
Proof.
  intros Hc Hk s Hs. specialize (Hc s Hs). unfold bind; cbn. destruct (c s) as [[a|e| | |] s']; cbn in *; try done.
  - destruct Hc as [Hs' Hq]; [done|]. intros Hd. destruct (Hk a s' Hs' Hd) as [Hs'' Hq'].
    split; [done|]. auto.
Qed.

(** An operation on one question *)
Lemma held_other s s' q q' : q' <> q ->
  ExportTable.contents (questions s') !! q' = ExportTable.contents (questions s) !! q' ->
  fulfilled s' = fulfilled s -> held s q' -> held s' q'.
Proof. intros Hq Hc Hf. unfold held, heldb. by rewrite !ExportTable.find_contents, Hc, Hf. Qed.

(** Most operations do not touch the questions. *)
Lemma asked_get_pipelined_cap p ops : keeps asked (get_pipelined_cap p ops).
Proof. destruct p; [destruct ops|..]; first [apply keeps_ret|by apply keeps_new_cap]. Qed.
Lemma asked_receive_cap d : keeps asked (receive_cap d).
Proof.
  destruct d; cbn [receive_cap]; unfold import, Client_new, PromiseClient_new, update_import, alloc;
    repeat first [done | apply asked_get_pipelined_cap | by apply keeps_new_cap | keeps_step].
Qed.
Lemma asked_receive_caps ds : keeps asked (receive_caps ds).
Proof.
  induction ds as [|d ds IH]; cbn [receive_caps]; [apply keeps_ret|].
  repeat first [exact IH | apply asked_receive_cap | keeps_step].
Qed.
Lemma asked_get_message_target t : keeps asked (get_message_target t).
Proof. destruct t; cbn [get_message_target]; repeat first [apply asked_get_pipelined_cap | keeps_step]. Qed.
Lemma told_innermost fuel h : keeps told (innermost fuel h).
Proof. revert h. induction fuel as [|fuel IH]; intros h; cbn [innermost]; repeat first [apply IH | keeps_step]. Qed.
Lemma told_Client_write_target fuel c : keeps told (Client_write_target fuel c).
Proof.
  revert c. induction fuel as [|fuel IH]; intros c; cbn [Client_write_target]; [done|].
  unfold pipeline_client, promise_client. repeat first [apply IH | keeps_step].
Qed.
Lemma told_on_exports {A} (c : ST _ A) : keeps told (on_exports c).
Proof. intros s. unfold on_exports. by destruct (c (exports s)). Qed.
Lemma asked_on_embargoes {A} (c : ST _ A) : keeps asked (on_embargoes c).
Proof. intros s. unfold on_embargoes. by destruct (c (embargoes s)). Qed.
Lemma asked_send m : keeps asked (send m).
Proof. unfold send. keeps_tac. Qed.
Lemma told_export_cap h : keeps told (export_cap h).
Proof. unfold export_cap, update_export. repeat first [apply told_on_exports | keeps_step]. Qed.
Lemma told_write_descriptor fuel h : keeps told (write_descriptor fuel h).
Proof.
  revert h. induction fuel as [|fuel IH]; intros h; cbn [write_descriptor]; [done|].
  unfold pipeline_client, promise_client.
  repeat first [apply IH | apply told_innermost | apply told_export_cap | keeps_step].
Qed.
Lemma told_unwrap_result {A} (c : ST Conn A) : keeps told c -> keeps told (unwrap_result c).
Proof. intros Hc s. specialize (Hc s). unfold unwrap_result. by destruct (c s) as [[]]. Qed.
Lemma told_write_descriptors caps : keeps told (write_descriptors caps).
Proof.
  induction caps as [|[h|] caps IH]; cbn [write_descriptors];
    repeat first [exact IH | apply told_unwrap_result, told_write_descriptor | keeps_step].
Qed.
Lemma asked_release_export id n : keeps asked (release_export id n).
Proof. unfold release_export, update_export. repeat first [apply told_asked, told_on_exports | keeps_step]. Qed.
Lemma asked_release_exports ids : keeps asked (release_exports ids).
Proof. induction ids; cbn [release_exports]; repeat first [done | apply asked_release_export | keeps_step]. Qed.
Lemma asked_PromiseClient_resolve a r : keeps asked (PromiseClient_resolve a r).
Proof.
  unfold PromiseClient_resolve, promise_client, write_target, new_outgoing_message, alloc.
  repeat first [done | by apply keeps_new_cap | apply told_asked, told_Client_write_target | apply asked_send
               | apply asked_on_embargoes | keeps_step].
Qed.
Lemma asked_resolve_imports e ids : keeps asked (resolve_imports e ids).
Proof.
  induction ids as [|id ids IH]; cbn [resolve_imports]; [apply keeps_ret|].
  unfold update_import. repeat first [exact IH | apply asked_PromiseClient_resolve | keeps_step].
Qed.

Lemma holds_at_bind {A B} (c : ST Conn A) (k : A -> ST Conn B) s :
  holds_at c s -> (forall a s', c s = (Ok a, s') -> holds_at (k a) s') -> holds_at (bind c k) s.
Proof.
  unfold holds_at, bind. cbn. destruct (c s) as [[a|e| | |] s']; cbn; intros Hc Hk Hs Hd; try done; [|by apply Hc].
  destruct (Hc Hs I) as [Hs' Hq]. destruct (Hk a s' eq_refl Hs' Hd) as [Hs'' Hq']. split; [done|]. auto.
Qed.

(** A question is changed, added or erased. *)
Lemma holds_question {A} (c : ST Conn A) s id :
  (ExportTable.TableOk (questions s) -> finished (fst (c s)) ->
   ExportTable.TableOk (questions (snd (c s))) /\
   (forall q, q <> id -> ExportTable.contents (questions (snd (c s))) !! q = ExportTable.contents (questions s) !! q) /\
   fulfilled (snd (c s)) = fulfilled s /\ (held s id -> held (snd (c s)) id)) ->
  holds_at c s.
Proof.
  intros Hc Hs Hd. destruct (Hc Hs Hd) as (Hs' & Ho & Hf & Hid). split; [done|]. intros q Hq.
  destruct (decide (q = id)) as [->|Hne]; [by apply Hid|]. apply (held_other s _ id q); auto.
Qed.
Lemma holds_update id f s : 0 <= id ->
  (forall qu, ExportTable.find id (questions s) = Some qu -> self_ref (f qu) = self_ref qu \/ self_ref qu = None) ->
  holds_at (update_question id f) s.
Proof.
  intros Hid Hf. apply (holds_question _ _ id). intros Hs _. cbn -[ExportTable.update].
  destruct (ExportTable.update_spec (questions s) id f Hid Hs) as [Hok Hc]. split_and!; try done.
  - intros q Hq. by rewrite Hc, lookup_alter_ne.
  - unfold held, heldb. cbn -[ExportTable.update]. rewrite !ExportTable.find_contents in *. rewrite Hc, lookup_alter_eq.
    destruct (ExportTable.contents (questions s) !! id) as [qu|]; cbn; [|done].
    destruct (Hf qu eq_refl) as [->| ->]; done.
Qed.
Lemma holds_erase id qu s : ExportTable.find id (questions s) = Some qu -> self_ref qu = None ->
  holds_at (on_questions (ExportTable.erase id)) s.
Proof.
  intros Hf Hr. apply (holds_question _ _ id). intros Hs _. unfold on_questions.
  rewrite ExportTable.find_contents in Hf.
  destruct (ExportTable.erase_spec _ _ _ Hs Hf) as (t & -> & Ht & Hc). cbn. split_and!; try done.
  - intros q Hq. by rewrite Hc, lookup_delete_ne.
  - unfold held, heldb. by rewrite ExportTable.find_contents, Hf, Hr.
Qed.

Lemma find_nonneg {T} id (t : ExportTable T) v : ExportTable.find id t = Some v -> 0 <= id.
Proof. unfold ExportTable.find. by destruct (Z.leb_spec 0 id). Qed.

Lemma fulfill_eq id r s : fulfill id r s = (Ok tt, snd (fulfill id r s)).
Proof.
  unfold fulfill, bind; cbn. destruct (ExportTable.find id (questions s)) as [q|]; [|done].
  destruct (self_ref q) as [qr|]; [|done]. by destruct (fulfiller qr).
Qed.
Lemma fulfill_spec id r s : ExportTable.TableOk (questions s) ->
  ExportTable.TableOk (questions (snd (fulfill id r s))) /\
  (forall q, q <> id -> ExportTable.contents (questions (snd (fulfill id r s))) !! q = ExportTable.contents (questions s) !! q) /\
  (exists l, fulfilled (snd (fulfill id r s)) = fulfilled s ++ l) /\
  (held s id -> Streams.resolution id (snd (fulfill id r s)) <> None).
Proof.
  intros Hs. unfold fulfill, bind, held, heldb, Streams.resolution. cbn -[ExportTable.update].
  destruct (ExportTable.find id (questions s)) as [q|] eqn:Hf; cbn -[ExportTable.update].
  2: { split_and!; try done. exists []. by rewrite app_nil_r. }
  destruct (self_ref q) as [qr|] eqn:Hr; cbn -[ExportTable.update].
  2: { split_and!; try done. exists []. by rewrite app_nil_r. }
  destruct (fulfiller qr) eqn:Hq; cbn -[ExportTable.update].
  - pose proof (find_nonneg _ _ _ Hf) as Hid.
    destruct (ExportTable.update_spec (questions s) id (set_self_ref (Some {| fulfiller := false |})) Hid Hs) as [Hok Hc].
    split_and!; [done| |by eexists|].
    + intros q' Hne. by rewrite Hc, lookup_alter_ne.
    + intros _. rewrite ExportTable.find_contents, Hc, lookup_alter_eq, <- ExportTable.find_contents, Hf. cbn.
      rewrite filter_app, filter_cons, decide_True by done. cbn. by rewrite last_snoc.
  - split_and!; [done|done|exists []; by rewrite app_nil_r|]. rewrite Hf. cbn. rewrite Hr. cbn. rewrite Hq. intros Hx.
    apply existsb_exists in Hx as ((i & x) & Hin & Hi). cbn in Hi. apply Z.eqb_eq in Hi as ->.
    destruct (last _) eqn:Hl; [done|]. apply last_None in Hl. exfalso.
    assert (Hel : (id, x) ∈ filter (fun x => fst x = id) (fulfilled s)).
    { apply list_elem_of_filter. split; [done|]. by apply list_elem_of_In. }
    rewrite Hl in Hel. by apply elem_of_nil in Hel.
Qed.
(** The answer of a question that is held is known when there is one. *)
Lemma held_resolution id s : Streams.resolution id s <> None -> held s id.
Proof.
  unfold Streams.resolution, held, heldb. destruct (ExportTable.find id (questions s)) as [q|]; [cbn|done].
  destruct (self_ref q) as [qr|]; [|done]. destruct (fulfiller qr); [done|]. cbn.
  destruct (last _) as [x|] eqn:Hl; [|done]. intros _. apply last_Some_elem_of, list_elem_of_filter in Hl as [Hx Hin].
  apply existsb_exists. exists x. split; [by apply list_elem_of_In|]. lia.
Qed.
Lemma holds_fulfill id r : holds (fulfill id r).
Proof.
  intros s Hs _. destruct (fulfill_spec id r s Hs) as (Hok & Ho & (l & Hl) & Hid). split; [done|].
  intros q. destruct (decide (q = id)) as [->|Hne]; [by intros Hq%Hid%held_resolution|].
  unfold held, heldb. rewrite !ExportTable.find_contents, Ho by done.
  destruct (ExportTable.contents (questions s) !! q) as [qu|]; [|done]. destruct (self_ref qu) as [qr|]; [|done].
  rewrite Hl, existsb_app. destruct (fulfiller qr), (existsb _ (fulfilled s)); done.
Qed.

(** ** The handlers of a connection *)

Ltac asked_step :=
  first [ apply asked_get_message_target | apply asked_receive_caps | apply asked_receive_cap | apply told_asked, told_write_descriptors
        | apply told_asked, told_unwrap_result, told_write_descriptor
        | apply asked_release_exports | apply asked_release_export | apply asked_send | apply told_asked, told_innermost
        | apply asked_PromiseClient_resolve | apply asked_resolve_imports | apply asked_get_pipelined_cap
        | by apply keeps_new_cap | done | keeps_step ].

Lemma asked_handle_unimplemented m : keeps asked (handle_unimplemented m).
Proof. unfold handle_unimplemented. repeat asked_step. Qed.
Lemma asked_send_unimplemented m : keeps asked (send_unimplemented m).
Proof. unfold send_unimplemented, new_outgoing_message. repeat asked_step. Qed.
Lemma asked_handle_bootstrap id : keeps asked (handle_bootstrap id).
Proof. unfold handle_bootstrap, new_outgoing_message, set_answer. repeat asked_step. Qed.
Lemma asked_handle_finish id b : keeps asked (handle_finish id b).
Proof. unfold handle_finish, set_answer, remove_answer. repeat asked_step. Qed.
Lemma asked_handle_resolve id cap : keeps asked (handle_resolve id cap).
Proof. unfold handle_resolve, update_import. repeat asked_step. Qed.
Lemma asked_handle_disembargo t c : keeps asked (handle_disembargo t c).
Proof. unfold handle_disembargo. repeat first [apply asked_on_embargoes | asked_step]. Qed.
Lemma asked_handle_call q t iface meth r p : keeps asked (handle_call q t iface meth r p).
Proof. unfold handle_call, set_answer, alloc. repeat asked_step. Qed.

Lemma holds_handle_return m q nf body : holds (handle_return m q nf body).
Proof.
  intros s. unfold handle_return. apply holds_at_bind; [by apply holds_keeps|]. intros len s1 [= <- <-].
  destruct (_ <=? q); [by intros ? []|]. apply holds_at_bind; [by apply holds_keeps|]. intros qo s1 [= <- <-].
  destruct (ExportTable.find q (questions s)) as [qu|] eqn:Hf; [|by apply holds_keeps].
  pose proof (find_nonneg _ _ _ Hf) as Hq.
  apply holds_at_bind; [apply holds_update; [done|]; intros ? _; by left|].
  intros [] s1 [= <-]. destruct (self_ref qu) as [qr|] eqn:Hr.
  - match goal with |- holds_at ?c ?st => enough (Hh : holds c) by exact (Hh st) end.
    destruct body; try (by apply holds_keeps, asked_send_unimplemented); try apply holds_fulfill.
    + apply holds_bind; [apply holds_keeps, asked_receive_caps|intros; apply holds_fulfill].
    + apply holds_bind; [by apply holds_keeps|]. intros [a|]; [|by apply holds_keeps].
      destruct (redirected_results a); [|by apply holds_keeps].
      apply holds_bind; [by apply holds_keeps|intros; apply holds_fulfill].
  - assert (Hf' : ExportTable.find q (questions (set_questions (ExportTable.update q (set_awaiting nf) (questions s)) s)) =
      Some (set_awaiting nf qu)).
    { cbn -[ExportTable.update ExportTable.find]. unfold ExportTable.find in *. cbn [ExportTable.update slots].
      rewrite length_alter. destruct (_ && _); [|done].
      rewrite list_lookup_alter_eq. by destruct (slots (questions s) !! Z.to_nat q) as [[?|]|]; simplify_eq/=. }
    destruct body; try (by apply (holds_keeps _ (asked_send_unimplemented _))); (eapply holds_erase; [exact Hf'|exact Hr]).
Qed.

Lemma holds_handle_message m : holds (handle_message m).
Proof.
  destruct m; cbn [handle_message]; try apply holds_handle_return; apply holds_keeps;
    first [ apply asked_handle_unimplemented | apply asked_handle_bootstrap | apply asked_handle_call | apply asked_handle_finish
          | apply asked_handle_resolve | apply asked_release_export | apply asked_handle_disembargo
          | apply asked_send_unimplemented | apply keeps_fails ].
Qed.

(** ** A disconnect answers every question *)

Lemma PromiseClient_resolve_error a e s : is_Some (promise_clients s !! a) ->
  fst (PromiseClient_resolve a (inr e) s) = Ok tt.
Proof.
  intros [pc Hpc]. unfold PromiseClient_resolve, promise_client, new_cap, alloc, bind, unwrap. cbn. rewrite Hpc. cbn.
  rewrite !andb_false_r. cbn. by rewrite Hpc.
Qed.
Lemma resolve_imports_ok e ids s : fst (resolve_imports e ids s) = Ok tt.
Proof.
  revert s. induction ids as [|id ids IH]; intros s; cbn [resolve_imports]; [done|].
  unfold bind. cbn -[PromiseClient_resolve resolve_imports]. destruct (_ ≫= _)%stdpp as [p|]; [|apply IH].
  cbn -[PromiseClient_resolve resolve_imports]. destruct (promise_clients s !! p) eqn:Hp; [|apply IH].
  match goal with |- context [PromiseClient_resolve p (inr e) ?st] =>
    pose proof (PromiseClient_resolve_error p e st) as Hr; destruct (PromiseClient_resolve p (inr e) st) as [r s'] end.
  cbn in Hr. rewrite Hr by (by rewrite Hp). apply IH.
Qed.
Lemma reject_all_spec e ids s : ExportTable.TableOk (questions s) ->
  exists s', reject_all e ids s = (Ok tt, s') /\ ExportTable.TableOk (questions s') /\
    (forall q, held s q -> held s' q) /\
    (forall q, held s q -> q ∈ Z.of_nat <$> ids \/ Streams.resolution q s <> None -> Streams.resolution q s' <> None).
Proof.
  revert s. induction ids as [|id ids IH]; intros s Hs; cbn [reject_all].
  { exists s. split_and!; try done. intros q _ [Hq|Hq]; [by apply elem_of_nil in Hq|done]. }
  cbn -[fulfill reject_all]. unfold bind. cbn -[fulfill reject_all]. rewrite fulfill_eq. cbn -[fulfill reject_all].
  destruct (fulfill_spec (Z.of_nat id) (Rejected e) s Hs) as (Hok & Ho & (l & Hl) & Hid).
  destruct (holds_fulfill (Z.of_nat id) (Rejected e) s Hs) as [_ Hh]; [by rewrite fulfill_eq|].
  destruct (IH _ Hok) as (s' & -> & Hok' & Hh' & Hr). exists s'. split_and!; try done; [by auto|].
  intros q Hq Hin. apply Hr; [by auto|]. destruct (decide (q = Z.of_nat id)) as [->|Hne]; [right; by apply Hid|].
  destruct Hin as [Hin|Hin]; [cbn in Hin; apply elem_of_cons in Hin as [?|?]; [done|by left]|]. right.
  revert Hin. unfold Streams.resolution. rewrite !ExportTable.find_contents, Ho by done.
  destruct (_ ≫= _)%stdpp as [qr|]; [|done]. destruct (fulfiller qr); [done|]. rewrite Hl, filter_app, last_app.
  by destruct (last (filter _ l)).
Qed.

Lemma resolution_asked q s s' : asked s' = asked s -> Streams.resolution q s' = Streams.resolution q s.
Proof. intros [= H1 H2]. unfold Streams.resolution. by rewrite H1, H2. Qed.
Lemma held_range q s : held s q -> q ∈ Z.of_nat <$> seq 0 (length (slots (questions s))).
Proof.
  unfold held, heldb, ExportTable.find. destruct (Z.leb_spec 0 q) as [H0|]; [|done].
  destruct (Z.ltb_spec q (Z.of_nat (length (slots (questions s))))) as [H1|]; [|done]. intros _.
  apply list_elem_of_fmap. exists (Z.to_nat q). split; [lia|]. apply elem_of_seq. lia.
Qed.

Lemma disconnect_spec e s : ExportTable.TableOk (questions s) ->
  exists s', disconnect e s = (Ok tt, s') /\ ExportTable.TableOk (questions s') /\
    (forall q, held s q -> held s' q) /\
    (connection s = None -> forall q, held s q -> Streams.resolution q s' <> None) /\ connection s' <> None.
Proof.
  intros Hs. unfold disconnect, connected. destruct (connection s) as [e0|] eqn:Hc.
  { exists s. unfold bind. cbn. rewrite Hc. cbn. split_and!; try done. }
  unfold bind. cbn -[reject_all resolve_imports seq]. rewrite Hc. cbn -[reject_all resolve_imports seq].
  destruct (reject_all_spec e (seq 0 (length (slots (questions s)))) s Hs) as (s1 & -> & Hok & Hh & Hr).
  cbn -[resolve_imports].
  match goal with |- context [resolve_imports e ?ids ?st] =>
    pose proof (resolve_imports_ok e ids st) as Ho; pose proof (asked_resolve_imports e ids st) as Ha;
    destruct (resolve_imports e ids st) as [r s2] end.
  cbn in Ho, Ha. subst r. eexists. split; [done|].
  match goal with |- context [set_connection _ ?x] => assert (Hx : asked x = asked s1) end.
  { transitivity (asked s2); [by case_match|exact Ha]. }
  match goal with |- context [set_connection _ ?x] => change (asked (set_connection (Some e) x) = asked s1) in Hx; set (s3 := set_connection _ x) in * end.
  assert (H1 : questions s3 = questions s1) by exact (f_equal fst Hx).
  assert (H2 : fulfilled s3 = fulfilled s1) by exact (f_equal snd Hx).
  split_and!; [|intros q Hq%Hh|intros _ q Hq|done].
  - by rewrite H1.
  - revert Hq. unfold held, heldb. by rewrite H1, H2.
  - rewrite (resolution_asked _ _ _ Hx). apply Hr; [done|]. left. by apply held_range.
Qed.

Lemma holds_message_loop_turn m : holds (message_loop_turn m).
Proof.
  intros s Hs. unfold message_loop_turn. destruct m as [m|].
  - pose proof (holds_handle_message m s Hs) as Hm. destruct (handle_message m s) as [[a|e| | |] s1]; try done.
    cbn in Hm. destruct (Hm I) as [Hs1 Hh1]. destruct (disconnect_spec e s1 Hs1) as (s2 & -> & ? & ? & _).
    intros _. split; [done|]. auto.
  - destruct (disconnect_spec Disconnected s Hs) as (s2 & -> & ? & ? & _). done.
Qed.

(** ** The question of a streaming call *)

Lemma push_question_spec ids tail s q s' : ExportTable.TableOk (questions s) -> push_question ids tail s = (Ok q, s') ->
  ExportTable.TableOk (questions s') /\ ExportTable.contents (questions s) !! q = None /\ fulfilled s' = fulfilled s /\
  exists qu, ExportTable.contents (questions s') = <[q := qu]> (ExportTable.contents (questions s)).
Proof.
  intros Hs. unfold push_question, bind, on_questions. cbn -[ExportTable.push].
  destruct (ExportTable.push _ (questions s)) as [[q'|e| | |] t] eqn:Hp; try done. intros [= -> <-].
  destruct (ExportTable.push_returns _ _ _ _ Hs Hp) as (Ht & Hn & Hc). split_and!; try done. by eexists.
Qed.
Lemma push_question_done ids tail s : finished (fst (push_question ids tail s)) -> exists q s', push_question ids tail s = (Ok q, s').
Proof.
  unfold push_question, bind, on_questions, ExportTable.push, usub, ExportTable.set_slot. cbn -[Z.of_nat length].
  repeat (case_match; simplify_eq/=; try done); by eexists _, _.
Qed.
Lemma holds_push_question ids tail : holds (push_question ids tail).
Proof.
  intros s Hs (q & s' & Hp)%push_question_done. rewrite Hp.
  destruct (push_question_spec _ _ _ _ _ Hs Hp) as (Ht & Hn & Hf & qu & Hc). split; [done|].
  intros q'. cbn [snd]. unfold held, heldb. rewrite !ExportTable.find_contents, Hc, Hf.
  destruct (decide (q' = q)) as [->|Hne]; [by rewrite Hn|by rewrite lookup_insert_ne].
Qed.
Lemma set_question_ref_spec q qu s : ExportTable.TableOk (questions s) -> ExportTable.contents (questions s) !! q = Some qu ->
  exists s', set_question_ref q s = (Ok tt, s') /\ ExportTable.TableOk (questions s') /\ held s' q /\
    fulfilled s' = fulfilled s /\
    forall q', q' <> q -> ExportTable.contents (questions s') !! q' = ExportTable.contents (questions s) !! q'.
Proof.
  intros Hs Hq. pose proof (ExportTable.contents_range _ _ _ Hq) as [H0 _].
  unfold set_question_ref, bind. cbn -[ExportTable.find ExportTable.update]. rewrite ExportTable.find_contents, Hq.
  cbn -[ExportTable.find ExportTable.update]. eexists. split; [done|].
  destruct (ExportTable.update_spec (questions s) q (set_self_ref (Some {| fulfiller := true |})) H0 Hs) as [Hok Hc].
  split_and!; try done.
  - unfold held, heldb. cbn -[ExportTable.find ExportTable.update]. by rewrite ExportTable.find_contents, Hc, lookup_alter_eq, Hq.
  - intros q' Hne. cbn -[ExportTable.update]. by rewrite Hc, lookup_alter_ne.
Qed.

Lemma holds_set_question_ref q : holds (set_question_ref q).
Proof.
  intros s Hs. destruct (ExportTable.contents (questions s) !! q) as [qu|] eqn:Hq.
  - destruct (set_question_ref_spec q qu s Hs Hq) as (s' & -> & Ht & Hh & Hf & Ho). intros _. split; [done|]. cbn.
    intros q' Hq'. destruct (decide (q' = q)) as [->|Hne]; [done|]. by apply (held_other s s' q q'); auto.
  - unfold set_question_ref, bind. cbn -[ExportTable.find]. by rewrite ExportTable.find_contents, Hq.
Qed.

Lemma held_found q s : held s q -> is_Some (ExportTable.find q (questions s)).
Proof. unfold held, heldb. by destruct (ExportTable.find q (questions s)). Qed.
Lemma QuestionRef_drop_spec q s : ExportTable.TableOk (questions s) -> is_Some (ExportTable.find q (questions s)) ->
  exists s', QuestionRef_drop q s = (Ok tt, s') /\ ExportTable.TableOk (questions s') /\
    fulfilled s' = fulfilled s /\
    forall q', q' <> q -> ExportTable.contents (questions s') !! q' = ExportTable.contents (questions s) !! q'.
Proof.
  intros Hs [qu Hf].
  pose proof (find_nonneg _ _ _ Hf) as H0.
  set (s1 := if connected s && negb (skip_finish qu) then snd (send (Finish q (is_awaiting_return qu)) s) else s).
  assert (H1 : questions s1 = questions s /\ fulfilled s1 = fulfilled s).
  { unfold s1, send. cbn. by repeat case_match. }
  assert (Hd : QuestionRef_drop q s = (if is_awaiting_return qu then update_question q (set_self_ref None)
                                       else on_questions (ExportTable.erase q)) s1).
  { unfold QuestionRef_drop, bind. cbn -[ExportTable.find send update_question on_questions]. rewrite Hf.
    cbn -[send update_question on_questions]. unfold s1. by destruct (connected s && negb (skip_finish qu)). }
  rewrite Hd. destruct H1 as [E1 E2]. destruct (is_awaiting_return qu).
  - destruct (ExportTable.update_spec (questions s) q (set_self_ref None) H0 Hs) as [Hok Hc].
    eexists. split; [done|]. cbn -[ExportTable.update]. rewrite E1. split_and!; try done.
    intros q' Hne. by rewrite Hc, lookup_alter_ne.
  - rewrite ExportTable.find_contents in Hf. destruct (ExportTable.erase_spec _ _ _ Hs Hf) as (t & He & Ht & Hc).
    unfold on_questions. rewrite E1, He. eexists. split; [done|]. cbn. split_and!; try done.
    intros q' Hne. by rewrite Hc, lookup_delete_ne.
Qed.
End held.

(** ** The flow controller of a stream *)

Section flow.
Import FlowControl.
Implicit Types (i : Inner) (f : Flow).

(** The promise [p] of a send waits, or has resolved. *)
Definition waits i (p : Z) : Prop := exists ps, flow_state i = Running ps /\ p ∈ ps.
Definition resolves i (p : Z) : Prop := exists r, (p, r) ∈ resolved i.
Definition progress i i' : Prop := forall p, waits i p \/ resolves i p -> waits i' p \/ resolves i' p.

#[global] Instance progress_preorder : PreOrder progress.
Proof. split; [by intros i p|]. intros i i' i'' H1 H2 p Hp. by apply H2, H1. Qed.

Lemma progress_same i i' : flow_state i' = flow_state i -> resolved i' = resolved i -> progress i i'.
Proof. intros E1 E2 p. unfold waits, resolves. by rewrite E1, E2. Qed.
Lemma progress_all i i' ps r : flow_state i = Running ps -> resolved i' = resolved i ++ ((fun p => (p, r)) <$> ps) ->
  progress i i'.
Proof.
  intros Hst Hr p [(ps' & Hps & Hp)|[r0 Hp]]; right; unfold resolves; rewrite Hr.
  - rewrite Hst in Hps. injection Hps as <-. exists r. apply elem_of_app. right. by apply list_elem_of_fmap_2' with p.
  - exists r0. apply elem_of_app. by left.
Qed.
Lemma ack_progress a r i ts : progress i (fst (ack_effect a r i ts)) /\ window_size (fst (ack_effect a r i ts)) = window_size i.
Proof.
  destruct r as [e|]; cbn [ack_effect]; [unfold task_failed|cbn [flow_state set_in_flight]];
    destruct (flow_state i) as [ps|e'] eqn:Hst; try (by split; [by apply progress_same|]).
  - split; [|done]. by eapply progress_all.
  - destruct (is_ready _) as [[]| | | |]; (destruct (_ =? 0); [destruct (empty_fulfiller _)|]); split; try done;
      first [by apply progress_same | by eapply progress_all].
Qed.

(** One acknowledgement is polled. *)
Lemma poll_one a r f lost : FlowOk lost f -> a ∈ TaskSet.tasks (tasks f) ->
  let f' := poll_acks [(a, r)] f in
  (exists lost', FlowOk lost' f') /\ TaskSet.tasks (tasks f) ≡ₚ a :: TaskSet.tasks (tasks f') /\
  progress (inner f) (inner f') /\ window_size (inner f') = window_size (inner f).
Proof.
  intros Hf Ha. cbn zeta. split; [by eapply poll_acks_ok|].
  destruct (TaskSet.take_enqueued_tasks (tasks f)) as [He Htasks]. rewrite <- Htasks in Ha.
  destruct (TaskSet.remove_one_elem _ _ Ha) as [l Hr].
  pose proof (ack_ok _ _ _ a r l (take_ok _ _ Hf) Hr) as Hok.
  pose proof (ack_progress a r (inner f) (TaskSet.set_in_progress l (TaskSet.take_enqueued (tasks f)))) as Hp.
  unfold poll_acks, TaskSet.poll. cbn [fmap list_fmap TaskSet.poll_ready]. rewrite Hr.
  destruct (ack_effect a r (inner f) _) as [i' ts']. destruct Hok as [_ Ht], Hp as [Hp Hw]. cbn in Hp, Hw |- *.
  split_and!; [|done|done].
  rewrite TaskSet.update_tasks, Ht. rewrite <- (remove_tasks _ _ _ Hr). unfold TaskSet.tasks at 2.
  by rewrite He, Htasks, app_nil_r.
Qed.

(** Nothing waits on a stream on which nothing is in flight. *)
Lemma idle_unblocked f lost : FlowOk lost f -> TaskSet.tasks (tasks f) = [] -> 0 < window_size (inner f) ->
  forall p, ~ waits (inner f) p.
Proof.
  intros [H1 _ [_ [H3 _]] H4 _ H6] Ht Hw p (ps & Hst & Hp). rewrite (H6 _ Hst), Ht in H1. cbn in H1.
  destruct (H4 _ Hst) as [->|Hr]; [by apply elem_of_nil in Hp|]. lia.
Qed.
End flow.

(** ** The invariant of the streams of a connection *)

Section streams_ok.
Import Streams.
Context {Content : Type} `{Hooks Content}.
#[local] Abbreviation Conn := (ConnectionState Content).
#[local] Abbreviation Streaming := (Streams.Streaming Content).
Implicit Types (s : Conn) (st : Streaming) (p : Streams.Pending).

(** The pending calls of a cell, as its flow controller knows them *)
Definition acks_of st (f : Z) : list FlowControl.Ack := ack <$> filter (fun p => cell p = f) (pendings st).

(** A pending call has a question of its own, and the flow controllers count
    exactly the calls that are pending. *)
Record StreamsOk st : Prop := {
  so_table : ExportTable.TableOk (questions (conn st));
  so_held : forall p, p ∈ pendings st -> held (conn st) (pending_question p);
  so_nodup : NoDup (pending_question <$> pendings st);
  so_flow : forall f flow, flows st !! f = Some flow -> (exists lost, FlowControl.FlowOk lost flow) /\
    TaskSet.tasks (FlowControl.tasks flow) ≡ₚ acks_of st f /\
    FlowControl.window_size (FlowControl.inner flow) = window st;
  so_cell : forall p, p ∈ pendings st -> is_Some (flows st !! cell p);
  so_window : 0 <= window st < 2 ^ 64
}.

Lemma perm_filter_key {A} (k : A -> Z) (x : A) l : NoDup (k <$> l) -> x ∈ l -> l ≡ₚ x :: filter (fun y => k y <> k x) l.
Proof.
  induction l as [|y l IH]; intros Hnd Hin; [by apply elem_of_nil in Hin|]. cbn in Hnd. apply NoDup_cons in Hnd as [Hy Hnd].
  apply elem_of_cons in Hin as [<-|Hin].
  - rewrite filter_cons_False by (by intros []). f_equiv. clear IH Hnd. induction l as [|z l IH]; [done|]. cbn in Hy. apply not_elem_of_cons in Hy as [Hz Hy].
    rewrite filter_cons_True by done. f_equiv. by apply IH.
  - rewrite filter_cons_True; [|intros Heq; apply Hy; rewrite Heq; by apply list_elem_of_fmap_2].
    rewrite Permutation_swap. f_equiv. by apply IH.
Qed.

(** Only the connection changes. *)
Lemma streams_ok_conn st s : StreamsOk st -> ExportTable.TableOk (questions s) ->
  (forall q, q ∈ pending_question <$> pendings st -> held (conn st) q -> held s q) -> StreamsOk (set_conn s st).
Proof.
  intros [H1 H2 H3 H4 H5 H6] Hs Hh. split; try done. cbn. intros p Hp. apply Hh; [by apply list_elem_of_fmap_2|by apply H2].
Qed.
Lemma on_conn_ok {A} (c : ST Conn A) st r st' : holds c -> StreamsOk st -> on_conn c st = (r, st') -> finished r -> StreamsOk st'.
Proof.
  intros Hc Hst Hr Hd. unfold on_conn in Hr. pose proof (Hc (conn st) (so_table _ Hst)) as Hh.
  destruct (c (conn st)) as [r0 s]. injection Hr as -> <-. destruct (Hh Hd) as [Ht Hq]. apply streams_ok_conn; auto.
Qed.

Lemma settle_spec p redirected st : StreamsOk st -> p ∈ pendings st -> resolution (pending_question p) (conn st) <> None ->
  exists st', settle p redirected st = (Ok tt, st') /\ StreamsOk st' /\ pendings st ≡ₚ p :: pendings st' /\
    window st' = window st /\
    (forall q, q <> pending_question p -> resolution q (conn st') = resolution q (conn st)) /\
    (forall f flow, flows st !! f = Some flow -> exists flow', flows st' !! f = Some flow' /\
       progress (FlowControl.inner flow) (FlowControl.inner flow')).
Proof.
  intros Hst Hp Hr. pose proof Hst as [H1 H2 H3 H4 H5 H6]. unfold settle.
  destruct (resolution (pending_question p) (conn st)) as [r|] eqn:Hres; [|done]. destruct (H5 p Hp) as [flow Hflow].
  unfold bind. cbn -[QuestionRef_drop]. rewrite Hres, Hflow. cbn -[QuestionRef_drop].
  destruct (QuestionRef_drop_spec (pending_question p) (conn st) H1 (held_found _ _ (H2 p Hp))) as (s & Hd & Hs & Hf & Ho).
  unfold on_conn at 1. rewrite Hd. cbn -[FlowControl.poll_acks].
  set (acked := FlowControl.poll_acks _ flow).
  destruct (H4 _ _ Hflow) as ((lost & Hok) & Hperm & Hw).
  assert (Hpend := perm_filter_key pending_question p (pendings st) H3 Hp).
  assert (Hack : ack p ∈ TaskSet.tasks (FlowControl.tasks flow)).
  { rewrite Hperm. unfold acks_of. apply list_elem_of_fmap_2. by apply list_elem_of_filter. }
  destruct (poll_one (ack p) (acknowledges redirected r) flow lost Hok Hack) as (Hok' & Htasks & Hprog & Hwin).
  fold acked in Hok', Htasks, Hprog, Hwin.
  assert (Hother : forall q, q <> pending_question p -> resolution q s = resolution q (conn st) /\ (held (conn st) q -> held s q)).
  { intros q Hq. unfold resolution, held, heldb. by rewrite !ExportTable.find_contents, Ho, Hf. }
  eexists. split; [done|]. cbn [conn window flows pendings set_conn set_flow set_pendings].
  split_and!; [|exact Hpend|done|intros q Hq; by apply Hother|].
  - split; cbn [conn window flows pendings set_conn set_flow set_pendings]; try done.
    + intros p' [Hne Hin]%list_elem_of_filter. apply Hother; [done|by apply H2].
    + rewrite Hpend in H3. by apply NoDup_cons in H3 as [_ H3].
    + intros f flow' Hl. unfold acks_of. cbn [pendings set_flow set_conn set_pendings].
      assert (Hcell : acks_of st f ≡ₚ ack <$> filter (fun p' => cell p' = f) (p :: filter (fun p' => pending_question p' <> pending_question p) (pendings st))).
      { unfold acks_of. by rewrite <- Hpend. }
      destruct (decide (cell p = f)) as [<-|Hne].
      * rewrite lookup_insert_eq in Hl. injection Hl as <-. split_and!; [done| |by rewrite Hwin].
        rewrite filter_cons_True in Hcell by done. cbn in Hcell. rewrite <- Hperm, Htasks in Hcell.
        by apply Permutation_cons_inv in Hcell.
      * rewrite lookup_insert_ne in Hl by done. destruct (H4 _ _ Hl) as (? & Hp' & ?). split_and!; try done.
        rewrite Hp', Hcell. by rewrite filter_cons_False.
    + intros p' [_ Hin]%list_elem_of_filter. destruct (decide (cell p = cell p')) as [->|Hne];
        [by rewrite lookup_insert_eq|rewrite lookup_insert_ne by done; by apply H5].
  - intros f flow' Hl. destruct (decide (cell p = f)) as [<-|Hne].
    + rewrite lookup_insert_eq. rewrite Hflow in Hl. injection Hl as <-. by eexists.
    + rewrite lookup_insert_ne by done. by exists flow'.
Qed.

Lemma settle_all_spec ps redirected st : StreamsOk st -> ps ≡ₚ pendings st ->
  (forall p, p ∈ pendings st -> resolution (pending_question p) (conn st) <> None) ->
  exists st', settle_all ps redirected st = (Ok tt, st') /\ StreamsOk st' /\ pendings st' = [] /\ window st' = window st /\
    (forall f flow, flows st !! f = Some flow -> exists flow', flows st' !! f = Some flow' /\
       progress (FlowControl.inner flow) (FlowControl.inner flow')).
Proof.
  revert st. induction ps as [|p ps IH]; intros st Hst Hps Hr; cbn [settle_all].
  { apply Permutation_nil_l in Hps. exists st. split_and!; try done. intros f flow Hf. by exists flow. }
  destruct (settle_spec p redirected st Hst) as (st1 & Hs & Hst1 & Hp1 & Hw1 & Hr1 & Hf1);
    [rewrite <- Hps; by left|apply Hr; rewrite <- Hps; by left|].
  pose proof (so_nodup _ Hst) as Hnd. rewrite Hp1 in Hps, Hnd. apply Permutation_cons_inv in Hps.
  apply NoDup_cons in Hnd as [Hnew _].
  destruct (IH st1 Hst1 Hps) as (st' & Hs' & Hst' & Hp' & Hw' & Hf').
  { intros p' Hp'. rewrite Hr1; [apply Hr; rewrite Hp1; by right|].
    intros Heq. apply Hnew. rewrite <- Heq. by apply list_elem_of_fmap_2. }
  exists st'. unfold bind. cbn -[settle settle_all]. rewrite Hs. split_and!; try done; [congruence|].
  intros f flow Hf. destruct (Hf1 _ _ Hf) as (flow1 & Hl1 & Hg1). destruct (Hf' _ _ Hl1) as (flow' & Hl' & Hg').
  exists flow'. split; [done|]. by etransitivity.
Qed.

(** ** What keeps the invariant *)

Definition preserves {A} (c : ST Streaming A) st : Prop := StreamsOk st -> finished (fst (c st)) -> StreamsOk (snd (c st)).
Lemma preserves_bind {A B} (c : ST Streaming A) (k : A -> ST Streaming B) st :
  preserves c st -> (forall a st', StreamsOk st' -> c st = (Ok a, st') -> preserves (k a) st') -> preserves (bind c k) st.
Proof.
  unfold preserves, bind. cbn. destruct (c st) as [[a|e| | |] st1]; cbn; intros Hc Hk Hst Hd; try done; [|by apply Hc].
  by apply Hk; [apply Hc| |apply Hc|].
Qed.
Lemma preserves_on_conn {A} (c : ST Conn A) st : holds c -> preserves (on_conn c) st.
Proof. intros Hc Hst Hd. destruct (on_conn c st) as [r st'] eqn:Hr. by eapply on_conn_ok. Qed.

Lemma flow_send_tasks (p words : Z) (flow : FlowControl.Flow) r flow' : FlowControl.send p words flow = (Ok r, flow') ->
  TaskSet.tasks (FlowControl.tasks flow') =
  TaskSet.tasks (FlowControl.tasks flow) ++ [{| FlowControl.ack_of := p; FlowControl.ack_size := words * 8 |}].
Proof.
  unfold FlowControl.send, umul, uadd at 1. case_bool; [|done]. case_bool; [|done].
  cbn -[TaskSet.add FlowControl.is_ready].
  destruct (FlowControl.is_ready _) as [[]| | | |]; try done; destruct (FlowControl.flow_state _); try done;
    intros [= <- <-]; cbn -[TaskSet.add TaskSet.tasks]; by rewrite FlowControl.add_tasks.
Qed.

Lemma preserves_flow_send f flow m q words st : 0 <= words -> flows st !! f = Some flow -> held (conn st) q ->
  q ∉ pending_question <$> pendings st -> preserves (flow_send f flow m q words) st.
Proof.
  intros Hw Hf Hq Hnew. unfold flow_send, alloc.
  intros Hst. unfold bind. cbn -[FlowControl.send on_conn send umul].
  set (st1 := snd (on_conn (fun s => (Ok (next_addr s), set_next_addr (next_addr s + 1) s)) st)).
  set (a := next_addr (conn st)).
  change (on_conn _ st) with (Ok a, st1). cbn -[FlowControl.send on_conn send umul].
  unfold umul. case_bool; [|done]. cbn -[FlowControl.send on_conn send].
  pose proof (asked_send m (conn st1)) as Ha. destruct (on_conn (send m) st1) as [r2 st2] eqn:H2.
  unfold on_conn in H2. destruct (send m (conn st1)) as [r0 s2] eqn:Hm. injection H2 as <- <-.
  assert (r0 = Ok tt) as -> by (unfold send, modify in Hm; congruence). cbn in Ha.
  cbn -[FlowControl.send]. destruct (FlowControl.send a words flow) as [[r|e| | |] flow'] eqn:Hs; try done.
  intros _. cbn -[FlowControl.send].
  pose proof (flow_send_tasks _ _ _ _ _ Hs) as Htasks.
  destruct (FlowControl.send_fits _ _ _ _ _ Hs) as [Hn Hm8].
  destruct Hst as [H1 H2 H3 H4 H5 H6]. destruct (H4 _ _ Hf) as ((lost & Hok) & Hperm & Hwin).
  destruct (FlowControl.send_ok lost flow a words Hok Hw Hn Hm8) as (r' & flow1 & Hs' & Hok' & _ & _ & _ & Hwin').
  assert (flow1 = flow') as -> by congruence.
  assert (Hasked : forall q', held s2 q' <-> held (conn st) q').
  { unfold asked in Ha. injection Ha as E1 E2. intros q'. unfold held, heldb. by rewrite E1, E2. }
  injection Ha as E1 _.
  split; cbn [conn window flows pendings set_conn set_flow set_pendings st1 on_conn snd].
  - by rewrite E1.
  - intros p' [Hp'|Hp']%elem_of_app; apply Hasked; [by apply H2|]. by apply list_elem_of_singleton in Hp' as ->.
  - rewrite fmap_app. apply NoDup_app. split_and!; [done| |apply NoDup_singleton].
    intros x Hx Hx'. apply list_elem_of_singleton in Hx' as ->. by apply Hnew.
  - intros f' flow1 Hl. unfold acks_of. cbn [pendings set_flow set_conn set_pendings].
    rewrite filter_app, fmap_app. destruct (decide (f = f')) as [<-|Hne].
    + rewrite lookup_insert_eq in Hl. injection Hl as <-. split_and!; [by exists lost| |congruence].
      rewrite filter_cons_True by done. cbn [fmap list_fmap filter list_filter ack]. rewrite Htasks. by f_equiv.
    + rewrite lookup_insert_ne in Hl by done. destruct (H4 _ _ Hl) as (? & Hp' & ?). split_and!; try done.
      rewrite filter_cons_False by done. cbn. by rewrite app_nil_r.
  - intros p' [Hp'|Hp']%elem_of_app.
    + destruct (decide (f = cell p')) as [->|Hne]; [by rewrite lookup_insert_eq|rewrite lookup_insert_ne by done; by apply H5].
    + apply list_elem_of_singleton in Hp' as ->. cbn. by rewrite lookup_insert_eq.
  - done.
Qed.

Lemma preserves_ret {A} (a : A) st : preserves (ret a) st.
Proof. by intros Hst _. Qed.
Lemma on_conn_eq {A} (c : ST Conn A) st : on_conn c st = (fst (c (conn st)), set_conn (snd (c (conn st))) st).
Proof. unfold on_conn. by destruct (c (conn st)). Qed.

Lemma preserves_send_internal target iface meth c caps words f st : 0 <= words ->
  preserves (send_streaming_internal target iface meth c caps words f) st.
Proof.
  intros Hw. unfold send_streaming_internal. apply preserves_bind; [apply preserves_on_conn, holds_keeps, told_asked, told_write_descriptors|].
  intros [ds ids] st1 Hst1 _. apply preserves_bind; [apply preserves_on_conn, holds_push_question|].
  intros q st2 Hst2 Hp. rewrite on_conn_eq in Hp.
  destruct (push_question ids false (conn st1)) as [r2 s2] eqn:Hpush. cbn [fst snd] in Hp. injection Hp as -> <-.
  destruct (push_question_spec _ _ _ _ _ (so_table _ Hst1) Hpush) as (Hs2 & Hn & _ & qu & Hc2).
  assert (Hnew : q ∉ pending_question <$> pendings st1).
  { intros (p & -> & Hp)%list_elem_of_fmap. apply (so_held _ Hst1), held_found in Hp.
    rewrite ExportTable.find_contents, Hn in Hp. by destruct Hp. }
  apply preserves_bind; [apply preserves_on_conn, holds_set_question_ref|].
  intros [] st3 Hst3 Hq. rewrite on_conn_eq in Hq. cbn [conn set_conn] in Hq.
  destruct (set_question_ref_spec q qu s2 Hs2) as (s3 & Href & _ & Hheld & _); [by rewrite Hc2, lookup_insert_eq|].
  rewrite Href in Hq. cbn [fst snd] in Hq. injection Hq as <-.
  apply preserves_bind; [by intros ? _|]. intros st4 _ _ [= <- <-]. cbn [flows conn window set_conn].
  destruct (flows st1 !! f) as [flow|] eqn:Hf; [by apply (preserves_flow_send f flow)|].
  destruct (connected s3).
  - set (st4 := set_flow f (FlowControl.new (window st1)) (set_conn s3 (set_conn s2 st1))).
    assert (Hst4 : StreamsOk st4).
    { destruct Hst1 as [_ _ _ _ H5 _]. destruct Hst3 as [K1 K2 K3 K4 K5 K6]. split; try done.
      - intros f' flow Hl. cbn in Hl. destruct (decide (f = f')) as [<-|Hne].
        + rewrite lookup_insert_eq in Hl. injection Hl as <-. split_and!; [exists []; by apply FlowControl.flow_ok_new| |done].
          unfold acks_of. cbn. destruct (filter _ (pendings st1)) as [|p ps] eqn:Hps; [done|].
          assert (Hp : p ∈ filter (fun p => cell p = f) (pendings st1)) by (rewrite Hps; by left).
          apply list_elem_of_filter in Hp as [<- Hp]. destruct (H5 p Hp). congruence.
        + rewrite lookup_insert_ne in Hl by done. by apply K4.
      - intros p Hp. cbn. destruct (decide (f = cell p)) as [->|Hne];
          [by rewrite lookup_insert_eq|rewrite lookup_insert_ne by done; by apply K5]. }
    apply preserves_bind; [by intros ? _|]. intros [] st5 _ [= <-].
    apply (preserves_flow_send f (FlowControl.new (window st1))); try done. by apply lookup_insert_eq.
  - intros Hst _. unfold bind. cbn -[QuestionRef_drop]. rewrite on_conn_eq. cbn -[QuestionRef_drop].
    set (s4 := set_next_addr (next_addr s3 + 1) s3).
    destruct (QuestionRef_drop_spec q s4 (so_table _ Hst)) as (s5 & Hd & Hs5 & Hf5 & Ho5); [by apply (held_found q s3)|].
    rewrite Hd. cbn. apply (streams_ok_conn _ s5 Hst Hs5). cbn. intros q' Hq'.
    apply (held_other s3 s5 q q'); [by intros ->|by rewrite Ho5; [|intros ->]|done].
Qed.

Lemma holds_Request_send target iface meth c caps : holds (Request_send target iface meth c caps).
Proof.
  unfold Request_send, send_internal, Pipeline_new, alloc.
  repeat first [ progress intros | apply holds_push_question | apply holds_set_question_ref
               | apply holds_keeps, told_asked, told_Client_write_target | apply holds_keeps, told_asked, told_write_descriptors
               | apply holds_keeps, asked_send | by apply holds_keeps | apply holds_bind
               | match goal with |- holds (match ?x with _ => _ end) => destruct x end ].
Qed.
Lemma asked_from_results_inner id b c caps status : keeps asked (from_results_inner id b c caps status).
Proof.
  unfold from_results_inner, answer_has_sent_return, set_finish_received, set_answer, remove_answer.
  repeat first [apply told_asked, told_write_descriptors | apply asked_send | keeps_step].
Qed.

Lemma preserves_perform l st : allowed l st = true -> preserves (perform l) st.
Proof.
  destruct l as [target iface meth c caps words|target iface meth c caps|id redirect c caps status|q|m|e|p redirected]; cbn [allowed perform].
  - intros Hw. apply preserves_bind; [|intros; by apply preserves_ret]. unfold Request_send_streaming.
    apply preserves_bind; [apply preserves_on_conn, holds_keeps, told_asked, told_Client_write_target|].
    intros [t|h] st1 _ _; [|apply preserves_ret].
    apply preserves_bind; [apply preserves_send_internal; lia|intros; apply preserves_ret].
  - intros _. apply preserves_bind; [apply preserves_on_conn, holds_Request_send|intros; apply preserves_ret].
  - intros _. apply preserves_bind; [by intros ? _|]. intros st1 st2 _ _.
    apply preserves_bind; [apply preserves_on_conn, holds_keeps, asked_from_results_inner|intros; apply preserves_ret].
  - intros [Hq Hf]%andb_true_iff Hst _. rewrite on_conn_eq.
    destruct (QuestionRef_drop_spec q (conn st) (so_table _ Hst)) as (s & Hd & Hs & Hfl & Ho); [by destruct (ExportTable.find _ _)|].
    rewrite Hd. apply streams_ok_conn; [done|done|]. intros q' Hq' Hh. cbn.
    assert (Hne : q' <> q).
    { intros ->. apply list_elem_of_fmap in Hq' as (p & -> & Hp). apply negb_true_iff in Hq. revert Hq. apply not_false_iff_true, existsb_exists.
      exists p. split; [by apply list_elem_of_In|]. apply Z.eqb_refl. }
    by apply (held_other (conn st) s q q'); [|apply Ho|..].
  - intros _. apply preserves_on_conn, holds_message_loop_turn.
  - intros _. apply preserves_on_conn. intros s Hs _. destruct (disconnect_spec e s Hs) as (s' & -> & ? & ? & _). done.
  - intros Hp%bool_decide_eq_true Hst Hd.
    destruct (decide (resolution (pending_question p) (conn st) = None)) as [Hn|Hr].
    + unfold settle, bind. cbn. by rewrite Hn.
    + destruct (settle_spec p redirected st Hst Hp Hr) as (st' & -> & Hst' & _). done.
Qed.

(** Connections with streams, from a new connection on *)
Inductive reachable : Streaming -> Prop :=
| reach_start cap a w : 0 <= w < 2 ^ 64 -> reachable (start (ConnectionState_new cap a) w)
| reach_step st l r st' : reachable st -> allowed l st = true -> perform l st = (r, st') -> finished r -> reachable st'.

Lemma reachable_streams_ok st : reachable st -> StreamsOk st.
Proof.
  induction 1 as [cap a w Hw|st l r st' _ IH Hl Hr Hd].
  - split; try done; cbn; [apply ExportTable.new_ok|by intros p Hp%elem_of_nil|constructor|by intros p Hp%elem_of_nil].
  - pose proof (preserves_perform l st Hl IH) as Hp. rewrite Hr in Hp. by apply Hp.
Qed.
End streams_ok.

(** ** No stream hangs when the connection is lost *)

(** C33: No stream hangs when a connection is lost, if its windows are not
    empty.  The loss is handled
    without a panic, and answers every question of a stream; once the tasks of
    the streams are polled, in whatever order, none is left, and every promise
    of a send that had waited for its turn, on any stream, has resolved. *)
Theorem streams_released {Content} `{Hooks Content} (st : Streams.Streaming Content) e redirected :
  reachable st -> connection (Streams.conn st) = None -> 0 < Streams.window st ->
  exists st1, Streams.perform (Streams.Disconnect e) st = (Ok tt, st1) /\
    forall ps, ps ≡ₚ Streams.pendings st ->
    exists st', Streams.settle_all ps redirected st1 = (Ok tt, st') /\ Streams.pendings st' = [] /\
      forall f flow, Streams.flows st !! f = Some flow ->
      exists flow', Streams.flows st' !! f = Some flow' /\
        (forall p, ~ waits (FlowControl.inner flow') p) /\
        forall p, waits (FlowControl.inner flow) p -> resolves (FlowControl.inner flow') p.
Proof.
  intros Hreach%reachable_streams_ok Hc Hw.
  destruct (disconnect_spec e (Streams.conn st) (so_table _ Hreach)) as (s & Hd & Hs & Hh & Hr & _).
  specialize (Hr Hc). exists (Streams.set_conn s st). cbn [Streams.perform]. rewrite on_conn_eq, Hd. split; [done|].
  intros ps Hps. assert (Hst : StreamsOk (Streams.set_conn s st)) by (apply streams_ok_conn; auto).
  destruct (settle_all_spec ps redirected _ Hst Hps) as (st' & Hrun & Hst' & Hp' & Hw' & Hf').
  { intros p Hp. apply Hr. by apply (so_held _ Hreach). }
  exists st'. split_and!; [done|done|]. intros f flow Hflow. destruct (Hf' f flow Hflow) as (flow' & Hl' & Hprog).
  exists flow'. destruct (so_flow _ Hst' f flow' Hl') as ((lost & Hok) & Hperm & Hwin).
  unfold acks_of in Hperm. rewrite Hp' in Hperm. apply Permutation_nil_r in Hperm.
  assert (Hidle : forall p, ~ waits (FlowControl.inner flow') p) by (eapply idle_unblocked; [done|done|rewrite Hwin, Hw'; done]).
  split_and!; [done|done|]. intros p Hp. destruct (Hprog p ltac:(by left)) as [Hw2|]; [|done]. by destruct (Hidle p).
Qed.

(** ** Tail calls and pipelines set early *)

Section results.
Context {Content : Type} `{Hooks Content}.
Context (empty : Content) (copy : Content -> list (option ClientHook) -> outcome (Content * list (option ClientHook))).
#[local] Abbreviation Conn := (ConnectionState Content).
Implicit Types (s : Conn) (r : CallResults.Results (Content := Content)).

(** The two messages of a tail call to the caller: the call, whose results
    are to stay there, and then the return, which takes them. *)
Lemma tail_call_sends r i s target iface meth c caps q p r' s' :
  CallResults.inner r = Some i -> CallResults.direct_tail_call (Some (target, iface, meth, c, caps)) (r, s) = (Ok (q, p), (r', s')) ->
  (exists s1, Request_tail_send target iface meth c caps s = (Ok (Some (q, p)), s1) /\
     s' = snd (send (Return (CallResults.answer_id i) false (TakeFromOtherQuestion q)) s1)) /\
  CallResults.done r' = Some i /\ CallResults.inner r' = None.
Proof.
  intros Hi. unfold CallResults.direct_tail_call, CallResults.with_inner, bind. cbn -[Request_tail_send send].
  rewrite Hi. cbn -[Request_tail_send send]. destruct (CallResults.redirect_results i); [done|].
  unfold CallResults.on_conn. cbn -[Request_tail_send send].
  destruct (Request_tail_send target iface meth c caps s) as [[[[q' p']|]|e| | |] s1]; try done.
  unfold unwrap_result, new_outgoing_message, bind. cbn -[send]. destruct (connection s1); [done|]. cbn -[send].
  destruct (send _ s1) as [x s2] eqn:Hs. cbn in Hs. injection Hs as <- <-. cbn. intros [= <- <- <- <-].
  split; [|done]. by eexists.
Qed.

(** A request of another brand, results that are redirected, or a lost
    connection: [direct_tail_call] does not fall back to a call whose results
    it would pass on; it panics. *)
Lemma tail_call_panics r i s request : CallResults.inner r = Some i ->
  request = None \/ CallResults.redirect_results i = true \/ connection s <> None ->
  fst (CallResults.direct_tail_call request (r, s)) = Panic.
Proof.
  intros Hi Hr. unfold CallResults.direct_tail_call, CallResults.with_inner, bind. cbn -[Request_tail_send].
  rewrite Hi. cbn -[Request_tail_send]. destruct request as [[[[[target iface] meth] c] caps]|]; [|done].
  destruct (CallResults.redirect_results i); [done|]. destruct Hr as [?|[?|Hr]]; [done|done|].
  unfold CallResults.on_conn, Request_tail_send, bind. cbn. unfold connected. by destruct (connection s).
Qed.

(** A call on a client whose connection is lost gets the error that ended it. *)
Lemma call_after_loss s target iface meth c caps e : connection s = Some e -> (exists x, copy c caps = Ok x) ->
  CallResults.Client_call copy target iface meth c caps s = (Err e, s).
Proof.
  intros Hc [x Hx]. unfold CallResults.Client_call, new_outgoing_message, bind. cbn -[Request_send].
  rewrite Hx. cbn -[Request_send]. by rewrite Hc.
Qed.

(** What [set_pipeline] gives the pipeline stays what it was: later edits of
    the results change only what is returned, and a second [set_pipeline] fails. *)
Lemma pipeline_set_once r s r1 s1 : CallResults.set_pipeline empty copy (r, s) = (Ok tt, (r1, s1)) ->
  s1 = s /\ is_Some (CallResults.pipeline_results r1) /\
  (forall f, CallResults.pipeline_results (fst (snd (CallResults.edit empty f (r1, s1)))) = CallResults.pipeline_results r1) /\
  (forall c caps, CallResults.get empty (r1, s1) = (Ok (c, caps), (r1, s1)) ->
     is_Some (match copy c caps with Ok x => Some x | _ => None end) ->
     fst (CallResults.set_pipeline empty copy (r1, s1)) = Err Failed).
Proof.
  unfold CallResults.set_pipeline, CallResults.edit, CallResults.get, CallResults.with_inner, CallResults.put_inner, bind.
  cbn. destruct (CallResults.inner r) as [i|] eqn:Hi; [|done]. cbn.
  destruct (CallResults.results_variant (CallResults.ensure_initialized empty i s)) as [v|] eqn:Hv; [|done]. cbn.
  destruct (copy _ _) as [x|e| | |] eqn:Hx; try done. cbn.
  destruct (CallResults.pipeline_sender (CallResults.ensure_initialized empty i s)); [|done]. intros [= <- <-].
  split_and!; [done|by eexists| |]; cbn; rewrite Hv; unfold CallResults.ensure_initialized; cbn.
  - intros f. by destruct (f _).
  - intros c caps [= <- <-] [y Hy]. rewrite Hx. done.
Qed.
End results.

(** ** The disconnector *)

Section disconnector.
Context {Content : Type} `{Hooks Content}.
Implicit Types (s : ConnectionState Content).
Import Disconnector.

(** The first poll disconnects the connection there is, which tells the peer
    and answers its questions; it is never ready at once. *)
Lemma disconnector_first_poll s : ExportTable.TableOk (questions s) -> connection s = None ->
  exists s', poll New (Some s) = (Ok (Disconnecting, Pending), Some s') /\
    RpcConn.disconnect Prelude.Disconnected s = (Ok tt, s') /\
    connection s' <> None /\ forall q, held s q -> Streams.resolution q s' <> None.
Proof.
  intros Hs Hc. destruct (disconnect_spec Prelude.Disconnected s Hs) as (s' & Hd & _ & _ & Hr & Hc').
  exists s'. unfold poll, disconnect, bind. cbn -[RpcConn.disconnect]. rewrite Hd. cbn. split_and!; auto.
Qed.

Lemma disconnected_polls between (cell : option (ConnectionState Content)) :
  fst (polls Disconnected between cell) = Ok (Disconnected, Ready tt).
Proof. revert cell. induction between as [|f between IH]; intros cell; [done|apply IH]. Qed.

(** The disconnector is done when it is polled and the system has no
    connection any more, and then stays done; until then it is pending. *)
Lemma disconnector_polls between (cell : option (ConnectionState Content)) d cell' p :
  polls Disconnecting between cell = (Ok (d, p), cell') ->
  (p = Ready tt <-> exists n, (n <= length between)%nat /\
     fold_left (fun c f => f c) (take n between) cell = None) /\ (p = Ready tt <-> d = Disconnected).
Proof.
  revert cell. induction between as [|f between IH]; intros cell Hp.
  - destruct cell as [s|]; injection Hp as <- <- <-; (split; [|done]); split; try done.
    + intros (n & Hn & Hf). by replace n with 0%nat in Hf by (cbn in Hn; lia).
    + intros _. by exists 0%nat.
  - destruct cell as [s|].
    + specialize (IH (f (Some s)) Hp) as [IH1 IH2]. split; [|done]. rewrite IH1. split.
      * intros (n & Hn & Hf). exists (S n). cbn. split; [lia|done].
      * intros ([|n] & Hn & Hf); [done|]. cbn in Hn, Hf. exists n. split; [lia|done].
    + pose proof (disconnected_polls between (f None)) as Hd. change (polls Disconnecting (f :: between) None) with (polls Disconnected between (f None)) in Hp.
      rewrite Hp in Hd. injection Hd as -> ->. split; [|done]. split; [|done]. intros _. exists 0%nat. split; [lia|done].
Qed.
End disconnector.

(** ** A streaming call is sent at once *)

Section sends.
Import Streams.
Context {Content : Type} `{Hooks Content}.
#[local] Abbreviation Conn := (ConnectionState Content).
#[local] Abbreviation keeps := (RpcConn.keeps (Content := Content)).
Implicit Types (s : Conn) (st : Streams.Streaming Content).

Definition wire s := (sent s, connection s).
Lemma told_wire {A} (c : ST Conn A) : keeps told c -> keeps wire c.
Proof. intros Hc s. exact (f_equal snd (Hc s)). Qed.
Lemma wire_push_question ids tail : keeps wire (push_question ids tail).
Proof.
  unfold push_question. apply keeps_bind; [|intros; apply keeps_ret].
  intros s. unfold on_questions. by destruct (ExportTable.push _ _).
Qed.
Lemma wire_set_question_ref q : keeps wire (set_question_ref q).
Proof. unfold set_question_ref, update_question. keeps_tac. Qed.
Lemma on_conn_wire {A} (c : ST Conn A) st a st' : keeps wire c -> on_conn c st = (Ok a, st') ->
  wire (conn st') = wire (conn st) /\ flows st' = flows st /\ pendings st' = pendings st.
Proof.
  intros Hc. rewrite on_conn_eq. intros [= _ <-]. split; [apply Hc|done].
Qed.

Lemma flow_send_spec f flow m q words st p r st' : connection (conn st) = None ->
  flow_send f flow m q words st = (Ok (p, r), st') ->
  sent (conn st') = sent (conn st) ++ [m] /\
  pendings st' = pendings st ++ [{| pending_question := q; cell := f;
                                    ack := {| FlowControl.ack_of := p; FlowControl.ack_size := words * 8 |} |}] /\
  exists flow', flows st' = <[f := flow']> (flows st) /\ FlowControl.send p words flow = (Ok r, flow').
Proof.
  intros Hc. unfold flow_send, alloc, bind, umul. cbn -[FlowControl.send]. case_bool; [|done].
  cbn -[FlowControl.send]. unfold connected at 1. cbn -[FlowControl.send]. rewrite Hc. cbn -[FlowControl.send].
  destruct (FlowControl.send _ words flow) as [[r'|e| | |] flow'] eqn:Hs; try done. cbn -[FlowControl.send].
  intros [= <- <- <-]. cbn. split_and!; try done. by exists flow'.
Qed.

(** Whether its promise is ready or has to wait for the window, the call is on
    its way when [send_streaming] returns, after everything that was sent
    before it, and the flow controller of the client counts its bytes. *)
Lemma streaming_sent_at_once target iface meth c caps words st p r st' : connection (conn st) = None ->
  Request_send_streaming target iface meth c caps words st = (Ok (inl (p, r)), st') ->
  exists q t ds, sent (conn st') = sent (conn st) ++ [Call q t iface meth Caller {| content := c; cap_table := ds |}] /\
    pendings st' = pendings st ++ [{| pending_question := q; cell := flow_controller target;
                                      ack := {| FlowControl.ack_of := p; FlowControl.ack_size := words * 8 |} |}] /\
    exists flow', flows st' !! flow_controller target = Some flow' /\
      FlowControl.send p words (default (FlowControl.new (window st)) (flows st !! flow_controller target)) = (Ok r, flow').
Proof.
  intros Hc. unfold Request_send_streaming. intros (t & st1 & H1 & Hrun)%ST_bind_inv.
  destruct (on_conn_wire _ _ _ _ (told_wire _ (told_Client_write_target _ _)) H1) as ([= W1 C1] & F1 & P1).
  rewrite on_conn_eq in H1. injection H1 as _ E1.
  destruct t as [t|h]; [|done]. apply ST_bind_inv in Hrun as (pr & st5 & Hrun & [= -> ->]).
  unfold send_streaming_internal in Hrun. apply ST_bind_inv in Hrun as ([ds ids] & st2 & H2 & Hrun).
  destruct (on_conn_wire _ _ _ _ (told_wire _ (told_write_descriptors _)) H2) as ([= W2 C2] & F2 & P2).
  rewrite on_conn_eq in H2. injection H2 as _ E2.
  apply ST_bind_inv in Hrun as (q & st3 & H3 & Hrun).
  destruct (on_conn_wire _ _ _ _ (wire_push_question _ _) H3) as ([= W3 C3] & F3 & P3).
  rewrite on_conn_eq in H3. injection H3 as _ E3.
  apply ST_bind_inv in Hrun as ([] & st4 & H4 & Hrun).
  destruct (on_conn_wire _ _ _ _ (wire_set_question_ref _) H4) as ([= W4 C4] & F4 & P4).
  rewrite on_conn_eq in H4. injection H4 as _ E4.
  assert (Hw : window st4 = window st) by by subst.
  assert (Hfl : flows st4 = flows st) by congruence. assert (Hpe : pendings st4 = pendings st) by congruence.
  assert (Hco : connection (conn st4) = None) by congruence. assert (Hse : sent (conn st4) = sent (conn st)) by congruence.
  apply ST_bind_inv in Hrun as (st4' & st4'' & [= <- <-] & Hrun). rewrite Hfl in Hrun.
  exists q, t, ds. destruct (flows st !! flow_controller target) as [flow|]; cbn [default].
  - destruct (flow_send_spec _ _ _ _ _ _ _ _ _ Hco Hrun) as (Hs & Hp & flow' & Hf' & Hsend).
    rewrite Hs, Hse, Hp, Hpe. split_and!; try done. exists flow'. by rewrite Hf', lookup_insert_eq.
  - unfold connected in Hrun. rewrite Hco in Hrun.
    apply ST_bind_inv in Hrun as ([] & st6 & [= <-] & Hrun). rewrite Hw in Hrun.
    destruct (flow_send_spec _ _ _ _ _ (set_flow (flow_controller target) (FlowControl.new (window st)) st4) _ _ _ Hco Hrun)
      as (Hs & Hp & flow' & Hf' & Hsend).
    cbn in Hs, Hp, Hf'. rewrite Hs, Hse, Hp, Hpe. split_and!; try done. exists flow'. by rewrite Hf', lookup_insert_eq.
Qed.
End sends.

(** ** Witnesses *)

(** Two calls of sixteen bytes on a stream with a window as large: the second
    has to wait. *)
Definition stream_target : Client := {| variant := ImportVariant 4; flow_controller := 7 |}.
Definition stream_call : Streams.Label nat := Streams.SendStreaming stream_target 1 2 5%nat [] 2.
Definition one_call : Streams.Streaming nat :=
  snd (Streams.perform stream_call (Streams.start (ConnectionState_new (Foreign 1) 100) 16)).
Definition two_calls : Streams.Streaming nat := snd (Streams.perform stream_call one_call).

Lemma two_calls_reachable : reachable two_calls.
Proof.
  eapply (reach_step one_call stream_call); [|by vm_compute|apply surjective_pairing|by vm_compute].
  eapply (reach_step _ stream_call); [by apply (reach_start (Foreign 1) 100 16)|by vm_compute|apply surjective_pairing|by vm_compute].
Qed.

Lemma streams_released_witness :
  reachable two_calls /\ (exists flow, Streams.flows two_calls !! 7 = Some flow /\ waits (FlowControl.inner flow) 101) /\
  exists st1, Streams.perform (Streams.Disconnect Failed) two_calls = (Ok tt, st1) /\
    forall ps, ps ≡ₚ Streams.pendings two_calls ->
    exists st', Streams.settle_all ps None st1 = (Ok tt, st') /\ Streams.pendings st' = [] /\
      forall f flow, Streams.flows two_calls !! f = Some flow ->
      exists flow', Streams.flows st' !! f = Some flow' /\
        (forall p, ~ waits (FlowControl.inner flow') p) /\
        forall p, waits (FlowControl.inner flow) p -> resolves (FlowControl.inner flow') p.
Proof.
  split; [exact two_calls_reachable|]. split.
  - eexists. split; [vm_compute; reflexivity|]. exists [101]. split; [reflexivity|by left].
  - apply (streams_released two_calls Failed None two_calls_reachable); [reflexivity|vm_compute; reflexivity].
Defined.
