(* ===== verification/Canonical.v ===== *)
(** * Canonical messages (capnp/src/private/layout.rs, capnp/src/message.rs)

    [is_canonical] walks the objects of a message in preorder and checks that
    each begins where the one before it ended.  The place reached so far is
    kept in a [Cell<*const u8>]; the elements of a struct list advance two
    cells, one through their data and one through what they point to, and a
    struct that is pointed to advances one cell through both.  So the cells
    are a store here, and a cell is its index. *)

From S2P Require Import Prelude Mem ReadLimiter Segments WirePointer Arena Readers Allocators BuilderArena Builders.
From stdpp Require Import list.
#[local] Open Scope Z_scope.
#[local] Open Scope rust_scope.

Module Canonical.

Record Walk := { limiter : ReadLimiter; heads : list Z }.

Definition reading {A} (c : ST ReadLimiter A) : ST Walk A := fun w =>
  let (o, l) := c (limiter w) in (o, {| limiter := l; heads := heads w |}).

(** [Cell::new], [get] and [set] *)
Definition new_head (v : Z) : ST Walk nat := fun w =>
  (Ok (length (heads w)), {| limiter := limiter w; heads := heads w ++ [v] |}).
Definition head_get (c : nat) : ST Walk Z := fun w =>
  (match heads w !! c with Some v => Ok v | None => UB end, w).
Definition head_set (c : nat) (v : Z) : ST Walk unit := fun w =>
  (Ok tt, {| limiter := limiter w; heads := <[c := v]> (heads w) |}).

Section check.
Context (m : mem).

(** [while byte_read_head != read_head_end]; fewer than eight bytes are left. *)
Fixpoint padding_is_zero (fuel : nat) (byte_read_head read_head_end : Z) : outcome bool :=
  match fuel with
  | O => OutOfFuel
  | S fuel =>
      if byte_read_head =? read_head_end then Ok true
      else
        b ← load m byte_read_head 1;
        if negb (b =? 0) then Ok false else padding_is_zero fuel (byte_read_head + 1) read_head_end
  end.

(** The last arm of [ListReader::is_canonical]: lists of plain values *)
Definition plain_is_canonical (r : ListReader) (read_head : nat) : ST Walk bool :=
  head ← head_get read_head;
  if negb (lr_ptr r =? head) then ret false
  else
    bit_size ← lift (umul 64 (lr_element_count r) (data_bits_per_element (lr_element_size r)));
    let word_size := bit_size / BITS_PER_WORD + (if bit_size mod BITS_PER_WORD =? 0 then 0 else 1) in
    let byte_read_head := head + bit_size / BITS_PER_BYTE in
    let read_head_end := head + word_size * BYTES_PER_WORD in
    let leftover_bits := bit_size mod BITS_PER_BYTE in
    partial ← (if 0 <? leftover_bits then
                 b ← lift (load m byte_read_head 1);
                 ret (Some (Z.land b (Z.lxor 255 (Z.shiftl 1 leftover_bits - 1)) =? 0))
               else ret None);
    match partial with
    | Some false => ret false
    | _ =>
        let byte_read_head := byte_read_head + (if 0 <? leftover_bits then 1 else 0) in
        zero ← lift (padding_is_zero 9 byte_read_head read_head_end);
        if negb zero then ret false
        else head_set read_head read_head_end ;; ret true
    end.

Section recursive.
(** [PointerReader::is_canonical] *)
Context (pointer_is_canonical : PointerReader -> nat -> ST Walk bool).

(** [StructReader::is_canonical], with [data_trunc] and [ptr_trunc] *)
Definition struct_is_canonical (r : StructReader) (read_head ptr_head : nat) :
    ST Walk (bool * bool * bool) :=
  head ← head_get read_head;
  if negb (sr_data r =? head) then ret (false, false, false)
  else if negb (sr_data_size r mod BITS_PER_WORD =? 0) then ret (false, false, false)
  else
    let data_size := sr_data_size r / BITS_PER_WORD in
    data_trunc ← (if negb (data_size =? 0) then
                    v ← lift (get_data_field m 8 r (data_size - 1)); ret (negb (v =? 0))
                  else ret true);
    ptr_trunc ← (if negb (sr_pointer_count r =? 0) then
                   null ← lift (PointerReader_is_null m (get_pointer_field r (sr_pointer_count r - 1)));
                   ret (negb null)
                 else ret true);
    head_set read_head (head + (data_size + sr_pointer_count r) * BYTES_PER_WORD) ;;
    result ← all_range (Z.to_nat (sr_pointer_count r)) 0
               (fun ptr_idx => pointer_is_canonical (get_pointer_field r ptr_idx) ptr_head);
    ret (result, data_trunc, ptr_trunc).

(** The loop over the elements of a struct list; [None] when it returns
    [Ok(false)]. *)
Fixpoint elements_are_canonical (n : nat) (idx : Z) (r : ListReader) (read_head pointer_head : nat)
    (list_data_trunc list_ptr_trunc : bool) : ST Walk (option (bool * bool)) :=
  match n with
  | O => ret (Some (list_data_trunc, list_ptr_trunc))
  | S n =>
      element ← lift (get_struct_element r idx);
      '(result, data_trunc, ptr_trunc) ← struct_is_canonical element read_head pointer_head;
      if negb result then ret None
      else elements_are_canonical n (idx + 1) r read_head pointer_head
             (list_data_trunc || data_trunc) (list_ptr_trunc || ptr_trunc)
  end.

Definition composite_is_canonical (r : ListReader) (read_head : nat) (reff : Z) : ST Walk bool :=
  head ← head_get read_head;
  let head := head + BYTES_PER_WORD in
  head_set read_head head ;;
  if negb (lr_ptr r =? head) then ret false
  else if negb (lr_struct_data_size r mod BITS_PER_WORD =? 0) then ret false
  else
    struct_size ← lift (uadd 32 (lr_struct_data_size r / BITS_PER_WORD) (lr_struct_pointer_count r));
    p ← lift (load_wp m reff);
    total ← lift (umul 32 struct_size (lr_element_count r));
    if negb (total =? list_inline_composite_word_count p) then ret false
    else if struct_size =? 0 then ret true
    else
      bytes ← lift (umul 64 total BYTES_PER_WORD);
      let list_end := head + bytes in
      pointer_head ← new_head list_end;
      truncs ← elements_are_canonical (Z.to_nat (lr_element_count r)) 0 r read_head pointer_head false false;
      match truncs with
      | None => ret false
      | Some (list_data_trunc, list_ptr_trunc) =>
          head ← head_get read_head;
          lift (rust_assert (head =? list_end)) ;;
          head ← head_get pointer_head;
          head_set read_head head ;;
          ret (list_data_trunc && list_ptr_trunc)
      end.

Definition pointers_are_canonical (r : ListReader) (read_head : nat) : ST Walk bool :=
  head ← head_get read_head;
  if negb (lr_ptr r =? head) then ret false
  else
    head_set read_head (head + lr_element_count r * BYTES_PER_WORD) ;;
    all_range (Z.to_nat (lr_element_count r)) 0 (fun idx =>
      p ← lift (get_pointer_element r idx);
      pointer_is_canonical p read_head).

(** [ListReader::is_canonical] *)
Definition list_is_canonical (r : ListReader) (read_head : nat) (reff : Z) : ST Walk bool :=
  match lr_element_size r with
  | InlineComposite => composite_is_canonical r read_head reff
  | Pointer => pointers_are_canonical r read_head
  | _ => plain_is_canonical r read_head
  end.
End recursive.

(** [PointerReader::is_canonical]; the nesting limit bounds the recursion. *)
Fixpoint pointer_is_canonical (fuel : nat) (r : PointerReader) (read_head : nat) : ST Walk bool :=
  match fuel with
  | O => lift OutOfFuel
  | S fuel =>
      if pr_pointer r =? 0 then ret false
      else
        p ← lift (load_wp m (pr_pointer r));
        if negb (is_positional p) then ret false
        else
          t ← reading (get_pointer_type m r);
          match t with
          | PT_Null => ret true
          | PT_Struct =>
              st ← reading (get_struct m r None);
              if (sr_data_size st =? 0) && (sr_pointer_count st =? 0)
              then ret (pr_pointer r =? sr_data st)
              else
                '(result, data_trunc, ptr_trunc) ←
                  struct_is_canonical (pointer_is_canonical fuel) st read_head read_head;
                ret (result && data_trunc && ptr_trunc)
          | PT_List =>
              l ← reading (get_list_any_size m r 0);
              list_is_canonical (pointer_is_canonical fuel) l read_head (pr_pointer r)
          | PT_Capability => ret false
          end
  end.

(** [message::Reader::is_canonical] *)
Definition is_canonical (arena : ReaderArena) : ST ReadLimiter bool := fun l =>
  match arena_get_segment arena 0 with
  | Ok (segment_start, seg_len) =>
      if is_ok (arena_get_segment arena 1) then (Ok false, l)
      else
        let (o, w) :=
          (pointer_reader ← reading (PointerReader_get_root arena 0 segment_start (get_nesting_limit arena));
           read_head ← new_head (segment_start + BYTES_PER_WORD);
           root_is_canonical ← pointer_is_canonical (nesting_fuel (pr_nesting_limit pointer_reader)) pointer_reader read_head;
           head ← head_get read_head;
           let all_words_consumed := (head - segment_start) / BYTES_PER_WORD =? seg_len in
           ret (root_is_canonical && all_words_consumed)) {| limiter := l; heads := [] |} in
        (o, limiter w)
  | Err e => (Err e, l)
  | Panic => (Panic, l)
  | UB => (UB, l)
  | OutOfFuel => (OutOfFuel, l)
  end.
End check.
End Canonical.

(** ** Making a message canonical (capnp/src/message.rs)

    [Reader::canonicalize] copies the message into a fresh builder whose first
    segment has room for all of it.  The builder is the arena of the world the
    source lies in; it is dropped at the end. *)
Module Canonicalize.

(** [message::Builder::set_root_canonical] with an [any_pointer::Reader] *)
Definition set_root_canonical_any {A} `{Allocator A} (value : PointerReader) : B A unit :=
  root ← builder_root;
  copy_from root value true ;;
  segments ← get_segments_for_output;
  lift (rust_assert (Z.of_nat (length segments) =? 1)).

(** [message::Builder::new] *)
Definition Builder_new {A} (allocator : A) : B A unit := fun w =>
  (Ok tt, set_warena (BuilderArenaImpl_new allocator) w).

(** [message::Reader::canonicalize], for the message in [arena] *)
Definition canonicalize (arena : ReaderArena) : B HeapAllocator (list byte) :=
  root ← on_limiter (fun _ _ =>
    '(segment_start, _) ← lift (arena_get_segment arena 0);
    PointerReader_get_root arena 0 segment_start (get_nesting_limit arena));
  target_size ← on_limiter (fun m _ => PointerReader_total_size m root);
  size ← lift (uadd 64 (word_count target_size) 1);
  allocator ← lift (with_first_segment_words (wrap32 size) HeapAllocator_new);
  Builder_new allocator ;;
  set_root_canonical_any root ;;
  output_segments ← get_segments_for_output;
  lift (rust_assert (Z.of_nat (length output_segments) =? 1)) ;;
  output ← lift (unwrap (head output_segments));
  let words := Z.of_nat (length (slice_bytes output)) / BYTES_PER_WORD in
  lift (rust_assert (words <=? size)) ;;
  let result := slice_bytes output in
  arena_drop ;;
  ret result.

End Canonicalize.
