(* ===== verification/CanonicalSafe.v ===== *)
(** * Checking untrusted messages for canonical form is safe

    [is_canonical] on arbitrary bytes returns a boolean or an error: it stays
    in memory, its assertion holds, its arithmetic does not overflow, and it
    ends within the nesting limit. *)

From S2P Require Import Prelude Mem ReadLimiter Segments WirePointer Arena Readers ReadersSafe Canonical.
From stdpp Require Import list.
#[local] Open Scope Z_scope.
#[local] Open Scope rust_scope.
Import Canonical.

(** ** Lists have the shape their element size says *)

Definition shape_exact (r : ListReader) : Prop :=
  match lr_element_size r with
  | InlineComposite => True
  | es => lr_step r = data_bits_per_element es + 64 * pointers_per_element es /\
          lr_struct_data_size r = data_bits_per_element es /\
          lr_struct_pointer_count r = pointers_per_element es
  end.

Lemma read_list_exact m ar id caps reff expected n l r l' :
  read_list_pointer_from m ar id caps reff expected n l = (Ok r, l') -> shape_exact r.
Proof.
  unfold read_list_pointer_from. destruct (n <=? 0); [done|]. intros H. inv_ST.
  destruct a as [[ptr reff'] id']. inv_ST.
  destruct (negb (bool_decide (kind a = List))); [done|].
  destruct (bool_decide_reflect (list_element_size a = InlineComposite)) as [He|He].
  - unfold read_struct_list in H. inv_ST. destruct (negb _); [done|]. inv_ST.
    destruct (_ <? _); [done|]. inv_ST. done.
  - unfold read_plain_list in H. inv_ST. unfold shape_exact. cbn.
    destruct (list_element_size a); done.
Qed.

Lemma any_list_exact m p l r l' : get_list_any_size m p 0 l = (Ok r, l') -> shape_exact r.
Proof.
  unfold get_list_any_size, read_list_pointer. intros H. inv_ST.
  destruct (is_null a); [by injection H as <- <-|]. by eapply read_list_exact.
Qed.

(** ** Walks *)

Definition advances (c : nat) (w w' : Walk) : Prop :=
  limiter_ok (limiter w') /\ (length (heads w) <= length (heads w'))%nat /\
  forall i, (i < length (heads w))%nat -> i <> c -> heads w' !! i = heads w !! i.
Definition walk_error (_e : ErrorKind) (w : Walk) : Prop := limiter_ok (limiter w).

Lemma advances_refl c w : limiter_ok (limiter w) -> advances c w w.
Proof. done. Qed.
Lemma advances_trans c w1 w2 w3 : advances c w1 w2 -> advances c w2 w3 -> advances c w1 w3.
Proof.
  intros (_ & L1 & H1) (Hl & L2 & H2). unfold advances. split_and!; [done|lia|].
  intros i Hi Hc. rewrite H2 by (done || lia). by apply H1.
Qed.

Lemma wp_reading {A} (c : ST ReadLimiter A) Q E (w : Walk) :
  wp c (fun a l => Q a {| limiter := l; heads := heads w |}) (fun e l => E e {| limiter := l; heads := heads w |})
     (limiter w) ->
  wp (reading c) Q E w.
Proof. unfold wp, reading. by destruct (c (limiter w)) as [[] l]. Qed.

Lemma wp_head_get c v Q E w : heads w !! c = Some v -> Q v w -> wp (head_get c) Q E w.
Proof. intros Hv HQ. unfold wp, head_get. by rewrite Hv. Qed.
Lemma wp_head_set c v (Q : unit -> Walk -> Prop) E w :
  Q tt {| limiter := limiter w; heads := <[c := v]> (heads w) |} -> wp (head_set c v) Q E w.
Proof. done. Qed.
Lemma wp_new_head v Q E w :
  Q (length (heads w)) {| limiter := limiter w; heads := heads w ++ [v] |} -> wp (new_head v) Q E w.
Proof. done. Qed.

Lemma advances_set c v w : limiter_ok (limiter w) ->
  advances c w {| limiter := limiter w; heads := <[c := v]> (heads w) |}.
Proof.
  intros Hl. unfold advances. split_and!; cbn [limiter heads]; [done|by rewrite length_insert|].
  intros i Hi Hc. by rewrite list_lookup_insert_ne.
Qed.

Section safe.
Context (m : mem) (Hzero : zero_ok m).
Notation pr_ok := (pr_ok m true).
Notation sr_ok := (sr_ok m true).
Notation lr_ok := (lr_ok m true).

Lemma valid_after a n d k : valid m a n -> 0 <= d -> d + k <= n -> valid m (a + d) k.
Proof. intros Hv Hd Hk. apply (valid_sub m a n); [done|lia|lia]. Qed.

Lemma load_byte_safe a : valid m a 1 -> exists b, load m a 1 = Ok b.
Proof. intros Hv. destruct (load_ok m a 1) as (b & E & _); [lia|zlia|done|by exists b]. Qed.

Lemma padding_safe fuel : forall a e, a <= e -> valid m a (e - a) -> (Z.to_nat (e - a) < fuel)%nat ->
  exists b, padding_is_zero m fuel a e = Ok b.
Proof.
  induction fuel as [|fuel IH]; intros a e Ha Hv Hf; [lia|]. cbn [padding_is_zero].
  destruct (Z.eqb_spec a e); [by eexists|].
  destruct (load_byte_safe a) as (b & ->); [apply (valid_sub m a (e - a)); [done|lia|lia]|].
  cbn [bind outcome_monad]. destruct (negb (b =? 0)); [by eexists|].
  apply IH; [lia| |lia]. apply (valid_sub m a (e - a)); [done|lia|lia].
Qed.

Lemma plain_safe r c w : lr_ok r -> shape_exact r -> lr_element_size r <> InlineComposite ->
  lr_element_size r <> Pointer -> limiter_ok (limiter w) -> (c < length (heads w))%nat ->
  wp (plain_is_canonical m r c) (fun _ w' => advances c w w') walk_error w.
Proof.
  intros (Hc & _ & _ & Hsz & Helts) Hex Hni Hnp Hl Hcell. unfold plain_is_canonical.
  apply lookup_lt_is_Some in Hcell as [head Hhead].
  wp_step. apply (wp_head_get _ head); [done|].
  destruct (Z.eqb_spec (lr_ptr r) head) as [<-|]; cbn [negb]; [|apply wp_ret; by apply advances_refl].
  assert (Hes : lr_step r = data_bits_per_element (lr_element_size r) /\ 0 <= lr_step r <= 64).
  { unfold shape_exact in Hex. destruct (lr_element_size r); try done; cbn in *; lia. }
  destruct Hes as [Hes Hstep]. rewrite <- Hes.
  wp_step. rewrite umul_ok by nia. apply wp_lift. cbv zeta. unfold BITS_PER_WORD, BITS_PER_BYTE, BYTES_PER_WORD.
  set (bits := lr_element_count r * lr_step r) in *.
  set (word_size := bits / 64 + (if bits mod 64 =? 0 then 0 else 1)).
  assert (Hbits : 0 <= bits) by (unfold bits; nia).
  assert (Hws : word_size = (bits + 63) / 64).
  { unfold word_size. destruct (Z.eqb_spec (bits mod 64) 0); zlia. }
  assert (Hv : valid m (lr_ptr r) (8 * word_size)).
  { destruct Helts as [E|[(_ & _ & Hv & _) _]].
    - apply valid_0. unfold bits in *. rewrite E in *. zlia.
    - by rewrite Hws. }
  clearbody bits. wp_step.
  eapply (wp_mono _ (fun _ w' => w' = w) _ (fun _ _ => False)).
  { destruct (Z.ltb_spec 0 (bits mod 8)); [|by apply wp_ret].
    destruct (load_byte_safe (lr_ptr r + bits / 8)) as (b & E); [apply (valid_after _ (8 * word_size)); [done|zlia|zlia]|].
    wp_step. rewrite E. apply wp_lift. by apply wp_ret. }
  2: done.
  intros partial w' ->.
  assert (Hrest : wp (zero ← lift (padding_is_zero m 9 (lr_ptr r + bits / 8 + (if 0 <? bits mod 8 then 1 else 0))
      (lr_ptr r + word_size * 8));
    if negb zero then ret false else head_set c (lr_ptr r + word_size * 8) ;; ret true)
    (fun _ w' => advances c w w') walk_error w).
  { wp_step. set (a := lr_ptr r + bits / 8 + _).
    assert (Ha : lr_ptr r <= a /\ lr_ptr r + word_size * 8 - 8 <= a <= lr_ptr r + word_size * 8).
    { unfold a. destruct (Z.ltb_spec 0 (bits mod 8)); zlia. }
    destruct (padding_safe 9 a (lr_ptr r + word_size * 8)) as (z & ->);
      [lia|apply (valid_sub m (lr_ptr r) (8 * word_size)); [done|lia|lia]|lia|].
    apply wp_lift. destruct (negb z); [apply wp_ret; by apply advances_refl|].
    wp_step. apply wp_head_set, wp_ret. by apply advances_set. }
  destruct partial as [[]|]; [exact Hrest|apply wp_ret; by apply advances_refl|exact Hrest].
Qed.

(** ** Structs and lists, given that pointers are checked safely *)

Section recursive.
Context (check : PointerReader -> nat -> ST Walk bool) (n : Z).
Hypothesis check_safe : forall r c w, pr_ok r -> - 2 ^ 31 <= pr_nesting_limit r <= n ->
  limiter_ok (limiter w) -> (c < length (heads w))%nat ->
  wp (check r c) (fun _ w' => advances c w w') walk_error w.

(** Nothing changes but two cells. *)
Definition advances2 (c d : nat) (w w' : Walk) : Prop :=
  limiter_ok (limiter w') /\ (length (heads w) <= length (heads w'))%nat /\
  forall i, (i < length (heads w))%nat -> i <> c -> i <> d -> heads w' !! i = heads w !! i.

Lemma advances2_refl c d w : limiter_ok (limiter w) -> advances2 c d w w.
Proof. done. Qed.
Lemma advances2_trans c d w1 w2 w3 : advances2 c d w1 w2 -> advances2 c d w2 w3 -> advances2 c d w1 w3.
Proof.
  intros (_ & L1 & H1) (Hl & L2 & H2). unfold advances2. split_and!; [done|lia|].
  intros i Hi Hc Hd. rewrite H2 by (done || lia). by apply H1.
Qed.
Lemma advances2_same c w w' : advances2 c c w w' -> advances c w w'.
Proof. intros (Hl & L & H). split_and!; try done. intros i Hi Hc. by apply H. Qed.

Lemma field_null_safe r i : sr_ok r -> 0 <= i -> exists b, PointerReader_is_null m (get_pointer_field r i) = Ok b.
Proof.
  intros Hr Hi. pose proof (get_pointer_field_safe m true r i Hr Hi) as Hp. unfold PointerReader_is_null.
  destruct (Z.eqb_spec (pr_pointer (get_pointer_field r i)) 0); [by eexists|].
  destruct Hp as [|(Hw & _)]; [done|]. destruct (load_wp_ok m _ Hw) as (v & -> & _). by eexists.
Qed.

Lemma field_nesting r i : i < sr_pointer_count r -> pr_nesting_limit (get_pointer_field r i) = sr_nesting_limit r.
Proof. intros Hi. unfold get_pointer_field. by rewrite (proj2 (Z.ltb_lt _ _) Hi). Qed.

Lemma struct_safe r c d head w : sr_ok r -> (0 < sr_pointer_count r -> - 2 ^ 31 <= sr_nesting_limit r <= n) ->
  limiter_ok (limiter w) -> heads w !! c = Some head -> (d < length (heads w))%nat ->
  wp (struct_is_canonical m check r c d)
     (fun '(b, _, _) w' => advances2 c d w w' /\
        (b = true -> c <> d -> heads w' !! c = Some (head + (sr_data_size r / 64 + sr_pointer_count r) * 8)))
     walk_error w.
Proof.
  intros Hr Hn Hl Hc Hd. pose proof Hr as ((_ & Hsz & _) & (Hcnt & _) & _).
  unfold struct_is_canonical. wp_step. apply (wp_head_get _ head); [done|].
  destruct (negb (sr_data r =? head)); [by apply wp_ret; split; [apply advances2_refl|]|]. unfold BITS_PER_WORD, BYTES_PER_WORD.
  destruct (negb (sr_data_size r mod 64 =? 0)); [by apply wp_ret; split; [apply advances2_refl|]|].
  wp_step. eapply (wp_mono _ (fun (_ : bool) w' => w' = w) _ (fun _ _ => False)); [|intros data_trunc w' ->|done].
  { destruct (Z.eqb_spec (sr_data_size r / 64) 0); [done|]. cbn [negb].
    destruct (get_data_field_safe m true r 8 (sr_data_size r / 64 - 1) Hr) as (v & E & _); [lia|zlia|].
    wp_step. rewrite E. apply wp_lift. done. }
  wp_step. eapply (wp_mono _ (fun (_ : bool) w' => w' = w) _ (fun _ _ => False)); [|intros ptr_trunc w' ->|done].
  { destruct (Z.eqb_spec (sr_pointer_count r) 0); [done|]. cbn [negb].
    destruct (field_null_safe r (sr_pointer_count r - 1) Hr) as (v & E); [lia|].
    wp_step. rewrite E. apply wp_lift. done. }
  wp_step. apply wp_head_set. set (w1 := {| limiter := _; heads := _ |}).
  assert (Hw1 : advances c w w1) by by apply advances_set.
  wp_step. set (fin := head + (sr_data_size r / 64 + sr_pointer_count r) * 8) in *.
  eapply (wp_mono _ (fun (b : bool) w' => advances d w1 w') _ walk_error); [|intros b w' Hw'|done].
  - eapply (wp_mono _ (fun (b : bool) w' => if b then advances d w1 w' else advances d w1 w') _ walk_error);
      [|by intros []|done].
    apply (wp_all_range (fun _ w' => advances d w1 w') (fun w' => advances d w1 w')).
    + apply advances_refl. exact Hl.
    + intros i w2 Hi Hw2. rewrite Z2Nat.id in Hi by lia.
      eapply wp_mono; [apply check_safe| |done].
      * apply (get_pointer_field_safe m true); [done|lia].
      * rewrite field_nesting by lia. apply Hn. lia.
      * apply Hw2.
      * destruct Hw2 as (_ & Hlen & _). unfold w1 in Hlen. cbn [heads] in Hlen. rewrite length_insert in Hlen. lia.
      * intros b w3 Hw3. assert (advances d w1 w3) by by eapply advances_trans. by destruct b.
  - apply wp_ret. pose proof Hw1 as (_ & L1 & F1). destruct Hw' as (Hl' & L2 & F2).
    split.
    + unfold advances2. split_and!; [done|lia|]. intros i Hi Hic Hid. rewrite F2 by (done || lia). by apply F1.
    + intros _ Hcd. rewrite F2 by (done || (pose proof (lookup_lt_Some _ _ _ Hc); lia)).
      unfold w1; cbn [heads]. apply list_lookup_insert_eq. by eapply lookup_lt_Some.
Qed.
Lemma element_nesting r i e : get_struct_element r i = Ok e ->
  sr_nesting_limit e = lr_nesting_limit r - 1 /\ - 2 ^ 31 <= sr_nesting_limit e /\
  sr_data_size e = lr_struct_data_size r /\ sr_pointer_count e = lr_struct_pointer_count r.
Proof.
  unfold get_struct_element, isub32. intros H. apply outcome_bind_ok in H as (bits & _ & H).
  destruct ((- 2 ^ 31 <=? lr_nesting_limit r - 1) && (lr_nesting_limit r - 1 <? 2 ^ 31)) eqn:E; [|done].
  injection H as <-. cbn. apply andb_prop in E as [E _]. apply Z.leb_le in E. by split_and!.
Qed.

Lemma elements_safe r c d : lr_ok r -> lr_nesting_limit r <= n -> c <> d ->
  let size := lr_struct_data_size r / 64 + lr_struct_pointer_count r in
  forall k idx dt pt head w, 0 <= idx -> idx + Z.of_nat k <= lr_element_count r ->
  limiter_ok (limiter w) -> heads w !! c = Some head -> (d < length (heads w))%nat ->
  wp (elements_are_canonical m check k idx r c d dt pt)
     (fun o w' => advances2 c d w w' /\
        (is_Some o -> heads w' !! c = Some (head + Z.of_nat k * size * 8)))
     walk_error w.
Proof.
  intros Hr Hn Hcd size. induction k as [|k IH]; intros idx dt pt head w Hidx Hk Hl Hc Hd; cbn [elements_are_canonical].
  { apply wp_ret. split; [by apply advances2_refl|]. intros _. by rewrite Hc, Z.mul_0_l, Z.add_0_r. }
  destruct (get_struct_element_safe m true r idx Hr) as (e & E & He); [lia|].
  destruct (element_nesting _ _ _ E) as (Hnest & Hlow & Hsz & Hcnt).
  wp_step. rewrite E. apply wp_lift. wp_step.
  eapply wp_mono; [apply (struct_safe e c d head w He); [lia|done..]| |done].
  intros [[b dt'] pt'] w1 [Hw1 Hhead]. destruct b; cbn [negb].
  - specialize (Hhead eq_refl Hcd). rewrite Hsz, Hcnt in Hhead. fold size in Hhead. pose proof Hw1 as (Hl1 & L1 & _).
    eapply wp_mono; [apply (IH (idx + 1) _ _ (head + size * 8) w1); (done || lia)| |done].
    intros o w2 [Hw2 Ho]. split; [by eapply advances2_trans|].
    intros Hs. rewrite (Ho Hs). f_equal. lia.
  - apply wp_ret. split; [done|]. by intros [].
Qed.

Lemma composite_safe r c reff w : lr_ok r -> lr_nesting_limit r <= n -> words_ok m reff 1 ->
  limiter_ok (limiter w) -> (c < length (heads w))%nat ->
  wp (composite_is_canonical m check r c reff) (fun _ w' => advances c w w') walk_error w.
Proof.
  intros Hr Hn Hreff Hl Hcell. apply lookup_lt_is_Some in Hcell as [head0 Hhead].
  pose proof Hr as (Hcnt & _ & Hsh & Hsz & _).
  unfold composite_is_canonical. wp_step. apply (wp_head_get _ head0); [done|]. cbv zeta.
  set (head := head0 + BYTES_PER_WORD). wp_step. apply wp_head_set. set (w1 := {| limiter := _; heads := _ |}).
  assert (Hw1 : advances c w w1) by by apply advances_set.
  assert (Hc1 : heads w1 !! c = Some head) by by (apply list_lookup_insert_eq; eapply lookup_lt_Some).
  destruct (negb (lr_ptr r =? head)); [by apply wp_ret|]. unfold BITS_PER_WORD, BYTES_PER_WORD.
  destruct (negb (lr_struct_data_size r mod 64 =? 0)) eqn:Hmod; [by apply wp_ret|].
  assert (Hds : 0 <= lr_struct_data_size r / 64 < 2 ^ 17 /\ 0 <= lr_struct_pointer_count r < 2 ^ 16 /\
    (lr_struct_data_size r / 64 + lr_struct_pointer_count r) * lr_element_count r < 2 ^ 32).
  { destruct Hsh as [(d & p & Hd & Hp & Ed & Es & Ep)|(Ed & Hs & Ep)].
    - rewrite Ed, Es, Ep in *. replace (64 * d / 64) with d by zlia.
      replace (lr_element_count r * (64 * (d + p))) with (64 * ((d + p) * lr_element_count r)) in Hsz by lia. lia.
    - assert (lr_struct_data_size r / 64 = 0) as -> by (rewrite Ed; destruct Hs as [E|[E|[E|E]]]; by rewrite E).
      rewrite Ep. lia. }
  set (size := lr_struct_data_size r / 64 + lr_struct_pointer_count r) in *.
  assert (Htotal : 0 <= size * lr_element_count r) by (apply Z.mul_nonneg_nonneg; unfold size; lia).
  wp_step. rewrite uadd_ok by lia. apply wp_lift. fold size. wp_step.
  destruct (load_wp_ok m _ Hreff) as (p & -> & _). apply wp_lift.
  wp_step. rewrite umul_ok by lia. apply wp_lift.
  destruct (negb (_ =? list_inline_composite_word_count p)); [by apply wp_ret|].
  destruct (size =? 0); [by apply wp_ret|].
  wp_step. rewrite umul_ok by lia. apply wp_lift. wp_step. apply wp_new_head.
  set (w2 := {| limiter := _; heads := _ |}). set (d := length (heads w1)).
  assert (Hcd : (c < d)%nat) by by eapply lookup_lt_Some.
  assert (Hlen2 : length (heads w2) = S d) by (unfold w2; cbn [heads]; rewrite length_app; cbn; lia).
  wp_step. eapply wp_mono;
    [apply (elements_safe r c d Hr Hn ltac:(lia) (Z.to_nat (lr_element_count r)) 0 false false head w2)| |done];
    [lia|lia|exact Hl|unfold w2; cbn [heads]; by rewrite lookup_app_l|lia|].
  intros o w3 [(Hl3 & L3 & F3) Hhead3].
  assert (Hw3 : advances c w1 w3).
  { unfold advances. split_and!; [done|lia|]. intros i Hi Hic. rewrite F3 by (unfold d in *; lia).
    unfold w2; cbn [heads]. by rewrite lookup_app_l. }
  destruct o as [[dt pt]|]; [|apply wp_ret; by eapply advances_trans].
  wp_step. eapply wp_head_get; [apply Hhead3; by eexists|]. wp_step. fold size.
  rewrite Z2Nat.id by lia. replace (head + lr_element_count r * size * 8) with (head + size * lr_element_count r * 8) by lia.
  rewrite Z.eqb_refl. apply wp_lift. cbn [rust_assert].
  assert (is_Some (heads w3 !! d)) as [v Hv] by (apply lookup_lt_is_Some; lia).
  wp_step. apply (wp_head_get _ v); [done|]. wp_step. apply wp_head_set, wp_ret.
  eapply advances_trans; [exact Hw1|]. eapply advances_trans; [exact Hw3|]. by apply advances_set.
Qed.

Lemma pointers_safe r c w : lr_ok r -> lr_nesting_limit r <= n -> (lr_element_count r = 0 \/ 0 < lr_struct_pointer_count r) ->
  limiter_ok (limiter w) -> (c < length (heads w))%nat ->
  wp (pointers_are_canonical check r c) (fun _ w' => advances c w w') walk_error w.
Proof.
  intros Hr Hn Hpos Hl Hcell. pose proof Hr as (Hcnt & Hnest & _). unfold pointers_are_canonical.
  pose proof Hcell as [head Hhead]%lookup_lt_is_Some.
  wp_step. apply (wp_head_get _ head); [done|].
  destruct (negb (lr_ptr r =? head)); [apply wp_ret; by apply advances_refl|].
  wp_step. apply wp_head_set. set (w1 := {| limiter := _; heads := _ |}).
  assert (Hw1 : advances c w w1) by by apply advances_set.
  eapply (wp_mono _ (fun (b : bool) w' => if b then advances c w1 w' else advances c w1 w') _ walk_error);
    [|intros b w'; destruct b; apply (advances_trans c w w1 w' Hw1)|done].
  apply (wp_all_range (fun _ w' => advances c w1 w') (fun w' => advances c w1 w')).
  - apply advances_refl. exact Hl.
  - intros i w2 Hi Hw2. rewrite Z2Nat.id in Hi by lia.
    destruct (get_pointer_element_safe m true r i Hr) as (p & E & Hp); [lia|lia|].
    wp_step. rewrite E. apply wp_lift. pose proof Hw2 as (Hl2 & L2 & _).
    eapply wp_mono; [apply check_safe| |done].
    + exact Hp.
    + unfold get_pointer_element in E. apply outcome_bind_ok in E as (? & _ & E).
      apply outcome_bind_ok in E as (? & _ & [= <-]). cbn. lia.
    + done.
    + destruct Hw1 as (_ & L1 & _). lia.
    + intros b w3 Hw3. assert (advances c w1 w3) by by eapply advances_trans. by destruct b.
Qed.

Lemma list_safe r c reff w : lr_ok r -> shape_exact r -> lr_nesting_limit r <= n -> words_ok m reff 1 ->
  limiter_ok (limiter w) -> (c < length (heads w))%nat ->
  wp (list_is_canonical m check r c reff) (fun _ w' => advances c w w') walk_error w.
Proof.
  intros Hr Hex Hn Hreff Hl Hc. unfold list_is_canonical.
  destruct (lr_element_size r) eqn:Hes;
    try (by apply (plain_safe r c w Hr Hex); rewrite ?Hes).
  - apply pointers_safe; try done. unfold shape_exact in Hex. rewrite Hes in Hex. cbn in Hex. lia.
  - by apply composite_safe.
Qed.
End recursive.

(** ** Pointers *)

Definition reading_error (_e : ErrorKind) (l : ReadLimiter) : Prop := limiter_ok l.
Lemma spent_ok l e l' : spent true l e l' -> reading_error e l'.
Proof. by intros (k & _ & Hp & _). Qed.

Lemma struct_read r l : pr_ok r -> limiter_ok l -> pr_nesting_limit r < 2 ^ 31 ->
  wp (get_struct m r None)
     (fun s l' => limiter_ok l' /\ sr_ok s /\
        (sr_pointer_count s = 0 \/ (sr_nesting_limit s = pr_nesting_limit r - 1 /\ 0 < pr_nesting_limit r)))
     reading_error l.
Proof.
  intros Hr Hl Hn. unfold get_struct, read_struct_pointer. wp_step.
  destruct (pointer_or_zero_ok m true Hzero r Hr) as (w & -> & Hok & Hptr). apply wp_lift.
  destruct (is_null w); [apply wp_ret; split; [done|]; split; [apply sr_ok_default|by left]|].
  destruct (Hptr eq_refl) as (Hw & Har & Hid).
  eapply wp_mono; [by apply (read_struct_pointer_from_safe m true _)|cbn beta|apply spent_ok].
  intros s l' (Hs & _ & Hnest & Hnn & k & _ & Hp & _). split; [done|]. split; [done|]. right. lia.
Qed.

Lemma list_read r p l : pr_ok r -> pr_pointer r <> 0 -> load_wp m (pr_pointer r) = Ok p -> is_null p = false ->
  limiter_ok l -> pr_nesting_limit r < 2 ^ 31 ->
  wp (get_list_any_size m r 0)
     (fun s l' => limiter_ok l' /\ lr_ok s /\ lr_nesting_limit s = pr_nesting_limit r - 1 /\ 0 < pr_nesting_limit r)
     reading_error l.
Proof.
  intros Hr Hne Hp Hnull Hl Hn. unfold get_list_any_size, read_list_pointer, pointer_or_zero. wp_step.
  rewrite (proj2 (Z.eqb_neq _ _) Hne), Hp. apply wp_lift. rewrite Hnull.
  destruct Hr as [|(Hw & Har & Hid)]; [done|].
  eapply wp_mono; [by apply (read_list_pointer_from_safe m true _)|cbn beta|apply spent_ok].
  intros s l' (Hs & _ & Hnest & Hnn & _ & k & _ & Hpd & _). split; [done|]. split; [done|]. lia.
Qed.

Lemma wp_result {A S} (c : ST S A) (P : A -> Prop) Q E s :
  wp c Q E s -> (forall a s', c s = (Ok a, s') -> P a) -> wp c (fun a s' => Q a s' /\ P a) E s.
Proof. unfold wp. intros Hc HP. destruct (c s) as [[] s'] eqn:Ec; try done. split; [done|by eapply HP]. Qed.

Lemma pointer_type_read r l : pr_ok r -> limiter_ok l ->
  wp (get_pointer_type m r) (fun _ l' => limiter_ok l') reading_error l.
Proof.
  intros Hr Hl. unfold get_pointer_type, PointerReader_is_null. wp_step.
  destruct (Z.eqb_spec (pr_pointer r) 0) as [|Hne]; [by apply wp_lift, wp_ret|].
  destruct Hr as [|(Hw & Har & Hid)]; [done|].
  destruct (load_wp_ok m _ Hw) as (w & -> & Hok). apply wp_lift. cbn [bind outcome_monad].
  destruct (is_null w); [by apply wp_ret|].
  eapply (wp_mono _ _ _ (spent true l)); [|intros a l' H; exact H|apply spent_ok].
  apply (follow_then m true _); [done|done|done|].
  intros ptr reff' id' l1 w' n1 Hloc Hload Hok' Hid' Hn1 Hpaid1. wp_step. rewrite Hload. apply wp_lift.
  assert (Hl1 : limiter_ok l1) by apply Hpaid1.
  assert (Hq : forall k, 0 <= k -> paid true l l1 k -> limiter_ok l1) by done.
  destruct (kind w'); try (by apply wp_ret); try (by apply spent_refl).
  destruct (is_capability w'); [by apply wp_ret|by apply spent_refl].
Qed.

Lemma pointer_type_null r p l t l' : load_wp m (pr_pointer r) = Ok p -> pr_pointer r <> 0 ->
  get_pointer_type m r l = (Ok t, l') -> is_null p = match t with PT_Null => true | _ => false end.
Proof.
  intros Hp Hne. unfold get_pointer_type, PointerReader_is_null. rewrite (proj2 (Z.eqb_neq _ _) Hne), Hp.
  cbn [bind outcome_monad]. rewrite (lift_bind_ok _ _ _ _ eq_refl). destruct (is_null p).
  - by intros [= <- _].
  - intros H. inv_ST. destruct a as [[ptr reff] id]. inv_ST.
    destruct (kind a); try done; [by injection H as <- _..|].
    destruct (is_capability a); [by injection H as <- _|done].
Qed.

Lemma pointer_check_safe fuel : forall r c w, pr_ok r -> - 2 ^ 31 <= pr_nesting_limit r < 2 ^ 31 ->
  (Z.to_nat (pr_nesting_limit r) < fuel)%nat -> limiter_ok (limiter w) -> (c < length (heads w))%nat ->
  wp (pointer_is_canonical m fuel r c) (fun _ w' => advances c w w') walk_error w.
Proof.
  induction fuel as [|fuel IH]; intros r c w Hr Hn Hf Hl Hc; [lia|]. cbn [pointer_is_canonical].
  destruct (Z.eqb_spec (pr_pointer r) 0) as [|Hne]; [apply wp_ret; by apply advances_refl|].
  destruct Hr as [|(Hw & Har & Hid)] eqn:Er; [done|]. clear Er.
  assert (Hr' : pr_ok r) by (right; by split_and!).
  wp_step. destruct (load_wp_ok m _ Hw) as (p & Hp & _). rewrite Hp. apply wp_lift.
  destruct (negb (is_positional p)); [apply wp_ret; by apply advances_refl|].
  wp_step. apply wp_reading. eapply wp_mono;
    [by apply (wp_result _ (fun t => is_null p = match t with PT_Null => true | _ => false end));
      [apply pointer_type_read|intros; eapply pointer_type_null]| |done].
  intros t l1 [Hl1 Hnull]. set (w1 := {| limiter := l1; heads := heads w |}).
  assert (Hstep : forall l2, limiter_ok l2 -> advances c w {| limiter := l2; heads := heads w |}) by done.
  assert (Hrec : 0 < pr_nesting_limit r -> forall r' c w, pr_ok r' ->
    - 2 ^ 31 <= pr_nesting_limit r' <= pr_nesting_limit r - 1 ->
    limiter_ok (limiter w) -> (c < length (heads w))%nat ->
    wp (pointer_is_canonical m fuel r' c) (fun _ w' => advances c w w') walk_error w).
  { intros Hpos r' c' w' Hp' Hn' Hl' Hc'. apply IH; (done || lia). }
  destruct t; [apply wp_ret; by apply Hstep| | |apply wp_ret; by apply Hstep].
  - wp_step. apply wp_reading. eapply wp_mono; [apply (struct_read r l1 Hr' Hl1); lia| |done].
    intros s l2 (Hl2 & Hs & Hnest). cbn [heads w1].
    destruct ((sr_data_size s =? 0) && (sr_pointer_count s =? 0)); [apply wp_ret; by apply Hstep|].
    pose proof Hc as [head Hhead]%lookup_lt_is_Some. wp_step.
    set (w2 := {| limiter := l2; heads := heads w |}).
    assert (Hwalk : wp (struct_is_canonical m (pointer_is_canonical m fuel) s c c)
      (fun a w' => advances2 c c w2 w') walk_error w2).
    { pose proof Hs as (_ & (Hcnt & _) & _).
      destruct (Z.le_gt_cases (pr_nesting_limit r) 0) as [Hneg|Hpos].
      - eapply wp_mono; [apply (struct_safe _ (- 2 ^ 31 - 1)) with (head := head); (done || (intros; lia))| |done].
        by intros [[b dt] pt] w' [Hw' _].
      - eapply wp_mono; [apply (struct_safe _ (pr_nesting_limit r - 1) (Hrec Hpos)) with (head := head); (done || (intros; lia))| |done].
        by intros [[b dt] pt] w' [Hw' _]. }
    eapply wp_mono; [exact Hwalk| |done]. intros [[b dt] pt] w' Hw'. apply wp_ret.
    eapply advances_trans; [by apply (Hstep l2)|by apply advances2_same].
  - wp_step. apply wp_reading. eapply wp_mono;
      [apply (wp_result _ shape_exact); [apply (list_read r p l1 Hr' Hne Hp Hnull Hl1); lia|apply any_list_exact]| |done].
    intros s l2 [(Hl2 & Hs & Hnest & Hpos) Hex]. cbn [heads w1].
    eapply wp_mono; [|intros b w' Hw'; eapply advances_trans; [by apply (Hstep l2)|exact Hw']|done].
    eapply (list_safe _ (pr_nesting_limit r - 1)); [exact (Hrec Hpos)|done|done|lia|done|done|done].
Qed.
End safe.
