(* ===== verification/CanonicalForm.v ===== *)
(** * What a message says, and where its canonical form puts it

    [read_content] is a client that reads a whole message through the readers;
    [trim] forgets the zeroes at the end of structs, which a reader cannot
    tell from fields that are not there.  [packed] says how the objects of a
    content lie in memory, in preorder and without gaps, and [truncated] that
    no struct is longer than it must be. *)

From S2P Require Import Prelude ReadLimiter Segments Mem WirePointer Arena Readers ReadersSafe BuilderObjects.
From stdpp Require Import list.
From coqutil Require Import Word.LittleEndianList.
#[local] Open Scope Z_scope.
#[local] Open Scope rust_scope.

Module CanonicalForm.

(** The elements of [CStructs] are [CStruct]s. *)
Inductive Content :=
| CNull
| CStruct (data : list Z) (pointers : list Content)
| CBytes (size : ElementSize) (count : Z) (bytes : list byte)
| CBits (bits : list bool)
| CPointers (pointers : list Content)
| CStructs (elements : list Content)
| CCapability.

Section content_ind.
Variable P : Content -> Prop.
Hypothesis Hnull : P CNull.
Hypothesis Hstruct : forall ds ps, Forall P ps -> P (CStruct ds ps).
Hypothesis Hbytes : forall es n bs, P (CBytes es n bs).
Hypothesis Hbits : forall bs, P (CBits bs).
Hypothesis Hpointers : forall ps, Forall P ps -> P (CPointers ps).
Hypothesis Hstructs : forall es, Forall P es -> P (CStructs es).
Hypothesis Hcap : P CCapability.

Fixpoint content_induction (t : Content) : P t :=
  let fix all (l : list Content) : Forall P l :=
    match l with
    | [] => @List.Forall_nil _ P
    | t :: l => @List.Forall_cons _ P t l (content_induction t) (all l)
    end in
  match t with
  | CNull => Hnull
  | CStruct ds ps => Hstruct ds ps (all ps)
  | CBytes es n bs => Hbytes es n bs
  | CBits bs => Hbits bs
  | CPointers ps => Hpointers ps (all ps)
  | CStructs es => Hstructs es (all es)
  | CCapability => Hcap
  end.
End content_ind.

(** ** Reading *)

(** [(lo..lo+n).map(f).collect()] *)
Fixpoint collect {S A} (n : nat) (lo : Z) (f : Z -> ST S A) : ST S (list A) :=
  match n with
  | O => ret []
  | Datatypes.S n => a ← f lo; l ← collect n (lo + 1) f; ret (a :: l)
  end.

Section read.
Context (m : mem).

Definition read_struct (read : PointerReader -> ST ReadLimiter Content) (s : StructReader) :
    ST ReadLimiter Content :=
  ds ← collect (Z.to_nat (sr_data_size s / 64)) 0 (fun i => lift (get_data_field m 8 s i));
  ps ← collect (Z.to_nat (sr_pointer_count s)) 0 (fun i => read (get_pointer_field s i));
  ret (CStruct ds ps).

Definition read_list (read : PointerReader -> ST ReadLimiter Content) (r : ListReader) :
    ST ReadLimiter Content :=
  let n := Z.to_nat (lr_element_count r) in
  match lr_element_size r with
  | InlineComposite =>
      es ← collect n 0 (fun i => e ← lift (get_struct_element r i); read_struct read e);
      ret (CStructs es)
  | Pointer =>
      ps ← collect n 0 (fun i => p ← lift (get_pointer_element r i); read p);
      ret (CPointers ps)
  | Bit =>
      bs ← collect n 0 (fun i => lift (bool_get m r i));
      ret (CBits bs)
  | es =>
      raw ← lift (into_raw_bytes r);
      bs ← lift (load_bytes m (bs_ptr raw) (bs_len raw));
      ret (CBytes es (lr_element_count r) bs)
  end.

Fixpoint read_content (fuel : nat) (r : PointerReader) : ST ReadLimiter Content :=
  match fuel with
  | O => lift OutOfFuel
  | S fuel =>
      t ← get_pointer_type m r;
      match t with
      | PT_Null => ret CNull
      | PT_Struct => s ← get_struct m r None; read_struct (read_content fuel) s
      | PT_List => l ← get_list_any_size m r 0; read_list (read_content fuel) l
      | PT_Capability => ret CCapability
      end
  end.
End read.

(** ** Trimming *)

Section strip.
Context {A : Type} (is_zero : A -> bool).
Fixpoint strip (l : list A) : list A :=
  match l with
  | [] => []
  | x :: l => match strip l with [] => if is_zero x then [] else [x] | l' => x :: l' end
  end.

(** Nothing to strip *)
Definition tight (l : list A) : bool := match last l with Some x => negb (is_zero x) | None => true end.
End strip.

Definition is_zero_word (v : Z) : bool := v =? 0.
Definition is_null_content (t : Content) : bool := match t with CNull => true | _ => false end.

Fixpoint trim (t : Content) : Content :=
  match t with
  | CStruct ds ps => CStruct (strip is_zero_word ds) (strip is_null_content (map trim ps))
  | CPointers ps => CPointers (map trim ps)
  | CStructs es => CStructs (map trim es)
  | _ => t
  end.

(** ** Layout *)

Section layout.
Context (m : mem).

Fixpoint data_at (q : Z) (ds : list Z) : Prop :=
  match ds with
  | [] => True
  | d :: ds => load m q 8 = Ok d /\ data_at (q + 8) ds
  end.

(** A pointer word at [p] of kind [k] whose target is [h] *)
Definition pointer_word (p : Z) (k : WirePointerKind) (h : Z) (w : WirePointer) : Prop :=
  load_wp m p = Ok w /\ wp_ok w /\ kind w = k /\ p + 8 * (1 + signed_offset w) = h.

(** The bytes from [a] to [e] are zero. *)
Definition zero_between (a e : Z) : Prop := forall i, a <= i < e -> load m i 1 = Ok 0.

(** [packed t p h h']: the pointer at [p] says [t], whose object and what it
    points to fill the memory from [h] to [h']. *)
Fixpoint packed (t : Content) (p h h' : Z) {struct t} : Prop :=
  let fix packed_list (ps : list Content) (q h h' : Z) {struct ps} : Prop :=
    match ps with
    | [] => h' = h
    | t :: ps => exists h1, packed t q h h1 /\ packed_list ps (q + 8) h1 h'
    end in
  let fix packed_elements (es : list Content) (d c q h h' : Z) {struct es} : Prop :=
    match es with
    | [] => h' = h
    | CStruct ds ps :: es =>
        Z.of_nat (length ds) = d /\ Z.of_nat (length ps) = c /\ data_at q ds /\
        exists h1, packed_list ps (q + 8 * d) h h1 /\ packed_elements es d c (q + 8 * (d + c)) h1 h'
    | _ => False
    end in
  match t with
  | CNull => load_wp m p = Ok {| offset_and_kind := 0; upper32bits := 0 |} /\ h' = h
  | CStruct ds ps =>
      let d := Z.of_nat (length ds) in
      let c := Z.of_nat (length ps) in
      exists w, pointer_word p Struct (if d + c =? 0 then p else h) w /\
        struct_data_size w = d /\ struct_ptr_count w = c /\
        data_at h ds /\ packed_list ps (h + 8 * d) (h + 8 * (d + c)) h'
  | CBytes es n bs =>
      exists w, pointer_word p List h w /\ list_element_size w = es /\ list_element_count w = n /\
        es <> InlineComposite /\ es <> Pointer /\ es <> Bit /\
        load_bytes m h (Z.of_nat (length bs)) = Ok bs /\
        Z.of_nat (length bs) = (n * data_bits_per_element es + 7) / 8 /\
        h' = h + 8 * ((Z.of_nat (length bs) + 7) / 8) /\ zero_between (h + Z.of_nat (length bs)) h'
  | CBits bs =>
      let n := Z.of_nat (length bs) in
      exists w, pointer_word p List h w /\ list_element_size w = Bit /\ list_element_count w = n /\
        (forall i b, bs !! i = Some b -> load_bit m (h + Z.of_nat i / 8) (Z.of_nat i mod 8) = Ok b) /\
        (forall i, n <= i < 8 * ((n + 7) / 8) -> load_bit m (h + i / 8) (i mod 8) = Ok false) /\
        h' = h + 8 * ((n + 63) / 64) /\ zero_between (h + (n + 7) / 8) h'
  | CPointers ps =>
      exists w, pointer_word p List h w /\ list_element_size w = Pointer /\
        list_element_count w = Z.of_nat (length ps) /\
        packed_list ps h (h + 8 * Z.of_nat (length ps)) h'
  | CStructs es =>
      let n := Z.of_nat (length es) in
      exists w tag d c, pointer_word p List h w /\ list_element_size w = InlineComposite /\
        list_element_count w = n * (d + c) /\
        load_wp m h = Ok tag /\ wp_ok tag /\ kind tag = Struct /\
        inline_composite_list_element_count tag = n /\ struct_data_size tag = d /\ struct_ptr_count tag = c /\
        (n = 0 -> d + c = 0) /\
        packed_elements es d c (h + 8) (h + 8 + 8 * (n * (d + c))) h'
  | CCapability => False
  end.
End layout.

(** ** Truncation *)

Definition struct_size_is (d c : nat) (t : Content) : Prop :=
  match t with CStruct ds ps => length ds = d /\ length ps = c | _ => False end.
Definition tight_data (t : Content) : bool := match t with CStruct ds _ => tight is_zero_word ds | _ => false end.
Definition tight_pointers (t : Content) : bool :=
  match t with CStruct _ ps => tight is_null_content ps | _ => false end.

Fixpoint truncated (t : Content) : Prop :=
  let fix all (l : list Content) : Prop := match l with [] => True | t :: l => truncated t /\ all l end in
  let fix all_elements (l : list Content) : Prop :=
    match l with [] => True | CStruct _ ps :: l => all ps /\ all_elements l | _ => False end in
  match t with
  | CStruct ds ps => tight is_zero_word ds = true /\ tight is_null_content ps = true /\ all ps
  | CPointers ps => all ps
  | CStructs es =>
      all_elements es /\ exists d c, Forall (struct_size_is d c) es /\
        (d = O \/ exists e, e ∈ es /\ tight_data e = true) /\
        (c = O \/ exists e, e ∈ es /\ tight_pointers e = true)
  | _ => True
  end.

End CanonicalForm.
Import CanonicalForm.

(** ** Canonical form is unique

    Two messages laid out by the same content are the same bytes
    ([packed_same]), and truncated contents that are equal up to trailing
    zeroes are equal ([trim_inj]). *)

(** ** The layout, with its lists named *)

Section lists.
Context (m : mem).
Fixpoint packed_list (ps : list Content) (q h h' : Z) : Prop :=
  match ps with
  | [] => h' = h
  | t :: ps => exists h1, packed m t q h h1 /\ packed_list ps (q + 8) h1 h'
  end.
Fixpoint packed_elements (es : list Content) (d c q h h' : Z) : Prop :=
  match es with
  | [] => h' = h
  | CStruct ds ps :: es =>
      Z.of_nat (length ds) = d /\ Z.of_nat (length ps) = c /\ data_at m q ds /\
      exists h1, packed_list ps (q + 8 * d) h h1 /\ packed_elements es d c (q + 8 * (d + c)) h1 h'
  | _ => False
  end.
End lists.

Lemma packed_struct m ds ps p h h' :
  packed m (CStruct ds ps) p h h' =
  exists w, pointer_word m p Struct (if Z.of_nat (length ds) + Z.of_nat (length ps) =? 0 then p else h) w /\
    struct_data_size w = Z.of_nat (length ds) /\ struct_ptr_count w = Z.of_nat (length ps) /\
    data_at m h ds /\
    packed_list m ps (h + 8 * Z.of_nat (length ds)) (h + 8 * (Z.of_nat (length ds) + Z.of_nat (length ps))) h'.
Proof. reflexivity. Qed.
Lemma packed_pointers m ps p h h' :
  packed m (CPointers ps) p h h' =
  exists w, pointer_word m p List h w /\ list_element_size w = Pointer /\
    list_element_count w = Z.of_nat (length ps) /\
    packed_list m ps h (h + 8 * Z.of_nat (length ps)) h'.
Proof. reflexivity. Qed.
Lemma packed_structs m es p h h' :
  packed m (CStructs es) p h h' =
  exists w tag d c, pointer_word m p List h w /\ list_element_size w = InlineComposite /\
    list_element_count w = Z.of_nat (length es) * (d + c) /\
    load_wp m h = Ok tag /\ wp_ok tag /\ kind tag = Struct /\
    inline_composite_list_element_count tag = Z.of_nat (length es) /\ struct_data_size tag = d /\ struct_ptr_count tag = c /\
    (Z.of_nat (length es) = 0 -> d + c = 0) /\
    packed_elements m es d c (h + 8) (h + 8 + 8 * (Z.of_nat (length es) * (d + c))) h'.
Proof. reflexivity. Qed.

(** ** Equal memory *)

Definition same_mem (m1 : mem) (a1 : Z) (m2 : mem) (a2 n : Z) : Prop :=
  forall i, 0 <= i < n -> m1 !! (a1 + i) = m2 !! (a2 + i).

Lemma same_mem_0 m1 a1 m2 a2 n : n <= 0 -> same_mem m1 a1 m2 a2 n.
Proof. intros Hn i Hi. lia. Qed.
Lemma same_mem_app m1 a1 m2 a2 n k : same_mem m1 a1 m2 a2 n -> same_mem m1 (a1 + n) m2 (a2 + n) k ->
  same_mem m1 a1 m2 a2 (n + k).
Proof.
  intros H1 H2 i Hi. destruct (Z.lt_ge_cases i n); [apply H1; lia|].
  specialize (H2 (i - n)). replace (a1 + n + (i - n)) with (a1 + i) in H2 by lia.
  replace (a2 + n + (i - n)) with (a2 + i) in H2 by lia. apply H2. lia.
Qed.
(** A region made of a first part, up to [b], and the rest *)
Lemma same_mem_split m1 a1 b1 e1 m2 a2 b2 e2 :
  b1 - a1 = b2 - a2 -> e1 - b1 = e2 - b2 -> 0 <= b1 - a1 -> same_mem m1 a1 m2 a2 (b1 - a1) -> same_mem m1 b1 m2 b2 (e1 - b1) ->
  same_mem m1 a1 m2 a2 (e1 - a1).
Proof.
  intros Hb He Hn H1 H2. replace (e1 - a1) with ((b1 - a1) + (e1 - b1)) by lia. apply same_mem_app; [done|].
  replace (a1 + (b1 - a1)) with b1 by lia. replace (a2 + (b1 - a1)) with b2 by lia. done.
Qed.

Lemma load_bytes_nat_lookup m n : forall a bs i, load_bytes_nat m a n = Some bs -> (i < n)%nat -> m !! (a + Z.of_nat i) = bs !! i.
Proof.
  induction n as [|n IH]; intros a bs i Hl Hi; [lia|]. cbn in Hl.
  destruct (m !! a) as [b|] eqn:Hb; [|done]. destruct (load_bytes_nat m (a + 1) n) as [bs'|] eqn:Hbs; [|done].
  injection Hl as <-. destruct i as [|i]; [by rewrite Z.add_0_r|].
  change ((b :: bs') !! S i) with (bs' !! i). rewrite <- (IH _ _ i Hbs) by lia. f_equal. lia.
Qed.
Lemma load_bytes_lookup m a n bs i : load_bytes m a n = Ok bs -> 0 <= i < n -> m !! (a + i) = bs !! Z.to_nat i.
Proof.
  unfold load_bytes. destruct (load_bytes_nat m a (Z.to_nat n)) as [bs'|] eqn:E; [|done]. intros [= ->] Hi.
  rewrite <- (load_bytes_nat_lookup _ _ _ _ (Z.to_nat i) E) by lia. f_equal. lia.
Qed.

Lemma bytes_same m1 a1 m2 a2 n bs : load_bytes m1 a1 n = Ok bs -> load_bytes m2 a2 n = Ok bs -> same_mem m1 a1 m2 a2 n.
Proof. intros H1 H2 i Hi. by rewrite (load_bytes_lookup _ _ _ _ _ H1), (load_bytes_lookup _ _ _ _ _ H2). Qed.


Lemma same_loads m1 a1 m2 a2 n v : 0 <= n -> load m1 a1 n = Ok v -> load m2 a2 n = Ok v -> same_mem m1 a1 m2 a2 n.
Proof.
  unfold load. intros Hn H1 H2. destruct (a1 mod n =? 0), (a2 mod n =? 0); try done.
  apply outcome_bind_ok in H1 as (b1 & E1 & [= H1]). apply outcome_bind_ok in H2 as (b2 & E2 & [= H2]).
  pose proof (load_bytes_length _ _ _ _ Hn E1). pose proof (load_bytes_length _ _ _ _ Hn E2).
  assert (b1 = b2) as ->; [|by eapply bytes_same].
  rewrite <- (split_le_combine b1), <- (split_le_combine b2), H1, H2. f_equal. lia.
Qed.

Lemma word_same m1 a1 m2 a2 w : load_wp m1 a1 = Ok w -> load_wp m2 a2 = Ok w -> same_mem m1 a1 m2 a2 8.
Proof.
  unfold load_wp. intros H1 H2.
  apply outcome_bind_ok in H1 as (lo1 & L1 & H1). apply outcome_bind_ok in H1 as (hi1 & U1 & [= <-]).
  apply outcome_bind_ok in H2 as (lo2 & L2 & H2). apply outcome_bind_ok in H2 as (hi2 & U2 & [= -> ->]).
  change 8 with (4 + 4). apply same_mem_app; by eapply same_loads.
Qed.

Lemma data_same m1 m2 ds : forall q1 q2, data_at m1 q1 ds -> data_at m2 q2 ds -> same_mem m1 q1 m2 q2 (8 * Z.of_nat (length ds)).
Proof.
  induction ds as [|d ds IH]; intros q1 q2; cbn [data_at length]; [intros; apply same_mem_0; lia|].
  intros [L1 D1] [L2 D2]. replace (8 * Z.of_nat (S (length ds))) with (8 + 8 * Z.of_nat (length ds)) by lia.
  apply same_mem_app; [by eapply same_loads|by apply IH].
Qed.

Lemma zero_same m1 a1 e1 m2 a2 e2 : zero_between m1 a1 e1 -> zero_between m2 a2 e2 -> e1 - a1 = e2 - a2 ->
  same_mem m1 a1 m2 a2 (e1 - a1).
Proof.
  intros H1 H2 He i Hi. pose proof (H1 (a1 + i) ltac:(lia)) as L1. pose proof (H2 (a2 + i) ltac:(lia)) as L2.
  pose proof (same_loads _ _ _ _ 1 0 ltac:(lia) L1 L2 0 ltac:(lia)) as H. by rewrite !Z.add_0_r in H.
Qed.

(** ** Equal pointers *)

Lemma word_eq w1 w2 : wp_ok w1 -> wp_ok w2 -> kind w1 = kind w2 -> signed_offset w1 = signed_offset w2 ->
  upper32bits w1 = upper32bits w2 -> w1 = w2.
Proof.
  intros [O1 U1] [O2 U2] Hk Ho Hu. pose proof (kind_mod w1) as K1. pose proof (kind_mod w2) as K2. rewrite Hk in K1.
  rewrite !signed_offset_div in Ho. destruct w1 as [a u], w2 as [b v]. cbn in *. subst v. f_equal.
  unfold as_i32, u32, in_width in *. destruct (Z.ltb_spec a (2 ^ 31)), (Z.ltb_spec b (2 ^ 31)); zlia.
Qed.

Lemma pointer_eq m1 p1 h1 w1 m2 p2 h2 w2 k : pointer_word m1 p1 k h1 w1 -> pointer_word m2 p2 k h2 w2 ->
  h1 - p1 = h2 - p2 -> upper32bits w1 = upper32bits w2 -> same_mem m1 p1 m2 p2 8.
Proof.
  intros (L1 & O1 & K1 & T1) (L2 & O2 & K2 & T2) Hh Hu. assert (w1 = w2) as ->; [|by eapply word_same].
  apply word_eq; try done; [congruence|lia].
Qed.

Lemma struct_upper w1 w2 : wp_ok w1 -> wp_ok w2 -> struct_data_size w1 = struct_data_size w2 ->
  struct_ptr_count w1 = struct_ptr_count w2 -> upper32bits w1 = upper32bits w2.
Proof.
  intros [_ U1] [_ U2]. rewrite !struct_data_size_mod, !struct_ptr_count_div. unfold u32, in_width in *. zlia.
Qed.
Lemma list_upper w1 w2 : wp_ok w1 -> wp_ok w2 -> list_element_size w1 = list_element_size w2 ->
  list_element_count w1 = list_element_count w2 -> upper32bits w1 = upper32bits w2.
Proof.
  intros [_ U1] [_ U2] Hs. rewrite !list_element_count_div. pose proof (list_element_size_mod w1) as E1.
  rewrite Hs, list_element_size_mod in E1. unfold u32, in_width in *. zlia.
Qed.
Lemma tag_eq w1 w2 : wp_ok w1 -> wp_ok w2 -> kind w1 = kind w2 ->
  inline_composite_list_element_count w1 = inline_composite_list_element_count w2 ->
  struct_data_size w1 = struct_data_size w2 -> struct_ptr_count w1 = struct_ptr_count w2 -> w1 = w2.
Proof.
  intros O1 O2 Hk Hc Hd Hp. pose proof (struct_upper w1 w2 O1 O2 Hd Hp) as Hu.
  pose proof (kind_mod w1) as K1. rewrite Hk, kind_mod in K1. destruct O1 as [O1 _], O2 as [O2 _].
  unfold inline_composite_list_element_count in Hc. rewrite !shiftr_div in Hc by done.
  destruct w1 as [a u], w2 as [b v]. cbn in *. subst v. f_equal. unfold u32, in_width in *. zlia.
Qed.

(** ** Bits *)

Lemma load_bit_byte m a i b : 0 <= i -> load_bit m a i = Ok b ->
  exists v, load m a 1 = Ok v /\ 0 <= v < 256 /\ Z.testbit v i = b.
Proof.
  intros Hi H. pose proof H as H'. unfold load_bit in H'. apply outcome_bind_ok in H' as (v & Hv & _).
  exists v. split; [done|]. split.
  - unfold load in Hv. rewrite Z.mod_1_r in Hv. cbn in Hv. apply outcome_bind_ok in Hv as (bs & E & [= <-]).
    pose proof (load_bytes_length m a 1 bs ltac:(lia) E) as Hl. pose proof (le_combine_bound bs) as Hb.
    rewrite Hl in Hb. exact Hb.
  - rewrite (load_bit_testbit _ _ _ _ Hv Hi) in H. congruence.
Qed.

Lemma byte_same m1 a1 m2 a2 : (forall i, 0 <= i < 8 -> exists b, load_bit m1 a1 i = Ok b /\ load_bit m2 a2 i = Ok b) ->
  same_mem m1 a1 m2 a2 1.
Proof.
  intros Hb. destruct (Hb 0 ltac:(lia)) as (b0 & E1 & E2).
  destruct (load_bit_byte m1 a1 0 b0 ltac:(lia) E1) as (v1 & L1 & R1 & _).
  destruct (load_bit_byte m2 a2 0 b0 ltac:(lia) E2) as (v2 & L2 & R2 & _).
  assert (v1 = v2) as ->; [|by eapply same_loads].
  apply Z.bits_inj'. intros i Hi. destruct (Z.lt_ge_cases i 8); [|by rewrite !testbit_high].
  destruct (Hb i ltac:(lia)) as (b & F1 & F2).
  rewrite (load_bit_testbit _ _ _ _ L1 Hi) in F1. rewrite (load_bit_testbit _ _ _ _ L2 Hi) in F2. congruence.
Qed.

Definition bits_at (m : mem) (h : Z) (bs : list bool) : Prop :=
  let n := Z.of_nat (length bs) in
  (forall i b, bs !! i = Some b -> load_bit m (h + Z.of_nat i / 8) (Z.of_nat i mod 8) = Ok b) /\
  (forall i, n <= i < 8 * ((n + 7) / 8) -> load_bit m (h + i / 8) (i mod 8) = Ok false).

Lemma bits_at_index m h bs j : bits_at m h bs -> 0 <= j < 8 * ((Z.of_nat (length bs) + 7) / 8) ->
  load_bit m (h + j / 8) (j mod 8) = Ok (default false (bs !! Z.to_nat j)).
Proof.
  intros [Hb Hz] Hj. destruct (Z.lt_ge_cases j (Z.of_nat (length bs))) as [Hlt|Hge].
  - destruct (lookup_lt_is_Some_2 bs (Z.to_nat j)) as [b Eb]; [lia|]. specialize (Hb _ _ Eb).
    rewrite Z2Nat.id in Hb by lia. by rewrite Eb.
  - rewrite lookup_ge_None_2 by lia. apply Hz. lia.
Qed.

Lemma bits_same m1 h1 m2 h2 bs : bits_at m1 h1 bs -> bits_at m2 h2 bs ->
  same_mem m1 h1 m2 h2 ((Z.of_nat (length bs) + 7) / 8).
Proof.
  intros H1 H2 i Hi. assert (Hs : same_mem m1 (h1 + i) m2 (h2 + i) 1).
  { apply byte_same. intros k Hk. pose proof (bits_at_index _ _ _ (8 * i + k) H1 ltac:(lia)) as E1.
    pose proof (bits_at_index _ _ _ (8 * i + k) H2 ltac:(lia)) as E2.
    replace ((8 * i + k) / 8) with i in * by zlia. replace ((8 * i + k) mod 8) with k in * by zlia. by eexists. }
  specialize (Hs 0 ltac:(lia)). by rewrite !Z.add_0_r in Hs.
Qed.

(** ** The same content in the same place is the same bytes *)

Definition same_layout (t : Content) : Prop := forall m1 m2 p1 h1 e1 p2 h2 e2,
  packed m1 t p1 h1 e1 -> packed m2 t p2 h2 e2 -> h1 - p1 = h2 - p2 ->
  e1 - h1 = e2 - h2 /\ h1 <= e1 /\ same_mem m1 p1 m2 p2 8 /\ same_mem m1 h1 m2 h2 (e1 - h1).
Definition same_layouts (ps : list Content) : Prop := forall m1 m2 q1 h1 e1 q2 h2 e2,
  packed_list m1 ps q1 h1 e1 -> packed_list m2 ps q2 h2 e2 -> h1 - q1 = h2 - q2 ->
  e1 - h1 = e2 - h2 /\ h1 <= e1 /\ same_mem m1 q1 m2 q2 (8 * Z.of_nat (length ps)) /\ same_mem m1 h1 m2 h2 (e1 - h1).

Lemma list_same ps : Forall same_layout ps -> same_layouts ps.
Proof.
  induction 1 as [|t ps Ht Hps IH]; intros m1 m2 q1 h1 e1 q2 h2 e2; cbn [packed_list length].
  { intros -> -> _. split; [lia|]. split; [lia|]. split; apply same_mem_0; lia. }
  intros (k1 & P1 & L1) (k2 & P2 & L2) Hh.
  destruct (Ht _ _ _ _ _ _ _ _ P1 P2 Hh) as (Hk & Hle & Hw & Hr).
  destruct (IH _ _ _ _ _ _ _ _ L1 L2 ltac:(lia)) as (He & Hle' & Hws & Hr').
  split; [lia|]. split; [lia|]. split.
  - replace (8 * Z.of_nat (S (length ps))) with (8 + 8 * Z.of_nat (length ps)) by lia. by apply same_mem_app.
  - apply (same_mem_split m1 h1 k1 e1 m2 h2 k2 e2); (done || lia).
Qed.

Definition element_same (t : Content) : Prop := match t with CStruct _ ps => same_layouts ps | _ => True end.

Lemma elements_same es d c : 0 <= d -> 0 <= c -> Forall element_same es -> forall m1 m2 q1 h1 e1 q2 h2 e2,
  packed_elements m1 es d c q1 h1 e1 -> packed_elements m2 es d c q2 h2 e2 -> h1 - q1 = h2 - q2 ->
  e1 - h1 = e2 - h2 /\ h1 <= e1 /\ same_mem m1 q1 m2 q2 (8 * (Z.of_nat (length es) * (d + c))) /\
  same_mem m1 h1 m2 h2 (e1 - h1).
Proof.
  intros Hd Hc. induction 1 as [|t es Ht Hes IH]; intros m1 m2 q1 h1 e1 q2 h2 e2; cbn [packed_elements length].
  { intros -> -> _. split; [lia|]. split; [lia|]. split; apply same_mem_0; lia. }
  destruct t as [|ds ps| | | | |]; try done.
  intros (Ld & Lp & D1 & k1 & P1 & L1) (_ & _ & D2 & k2 & P2 & L2) Hh.
  destruct (Ht _ _ _ _ _ _ _ _ P1 P2 ltac:(lia)) as (Hk & Hle & Hw & Hr).
  destruct (IH _ _ _ _ _ _ _ _ L1 L2 ltac:(lia)) as (He & Hle' & Hws & Hr').
  split; [lia|]. split; [lia|]. split.
  - replace (8 * (Z.of_nat (S (length es)) * (d + c))) with (8 * d + (8 * c + 8 * (Z.of_nat (length es) * (d + c)))) by lia.
    apply same_mem_app; [rewrite <- Ld; by apply data_same|].
    apply same_mem_app; [by rewrite <- Lp|]. by rewrite <- !Z.add_assoc, <- !Z.mul_add_distr_l.
  - apply (same_mem_split m1 h1 k1 e1 m2 h2 k2 e2); (done || lia).
Qed.

Lemma packed_same t : same_layout t /\ element_same t.
Proof.
  induction t as [|ds ps Hps|es n bs|bs|ps Hps|es Hes|] using content_induction.
  - split; [|done]. intros m1 m2 p1 h1 e1 p2 h2 e2 [W1 ->] [W2 ->] _. split; [lia|]. split; [lia|].
    split; [by eapply word_same|apply same_mem_0; lia].
  - assert (Hl : same_layouts ps) by (apply list_same; eapply Forall_impl; [exact Hps|by intros t []]).
    split; [|exact Hl]. intros m1 m2 p1 h1 e1 p2 h2 e2. rewrite !packed_struct.
    intros (w1 & W1 & S1 & C1 & D1 & L1) (w2 & W2 & S2 & C2 & D2 & L2) Hh.
    destruct (Hl _ _ _ _ _ _ _ _ L1 L2 ltac:(lia)) as (He & Hle & Hw & Hr).
    split; [lia|]. split; [lia|]. split.
    + eapply (pointer_eq _ _ _ _ _ _ _ _ _ W1 W2); [case_bool; lia|].
      apply struct_upper; [apply W1|apply W2|congruence|congruence].
    + replace (e1 - h1) with (8 * Z.of_nat (length ds) + (8 * Z.of_nat (length ps) +
        (e1 - (h1 + 8 * (Z.of_nat (length ds) + Z.of_nat (length ps)))))) by lia.
      apply same_mem_app; [by apply data_same|]. apply same_mem_app; [done|].
      by rewrite <- !Z.add_assoc, <- !Z.mul_add_distr_l.
  - split; [|done]. intros m1 m2 p1 h1 e1 p2 h2 e2.
    intros (w1 & W1 & S1 & C1 & _ & _ & _ & B1 & _ & -> & Z1) (w2 & W2 & S2 & C2 & _ & _ & _ & B2 & _ & -> & Z2) Hh.
    split; [lia|]. split; [zlia|]. split.
    + eapply (pointer_eq _ _ _ _ _ _ _ _ _ W1 W2 Hh). apply list_upper; [apply W1|apply W2|congruence|congruence].
    + apply (same_mem_split m1 h1 (h1 + Z.of_nat (length bs)) _ m2 h2 (h2 + Z.of_nat (length bs))
        (h2 + 8 * ((Z.of_nat (length bs) + 7) / 8))); [lia|lia|lia| |].
      * replace (h1 + Z.of_nat (length bs) - h1) with (Z.of_nat (length bs)) by lia. by eapply bytes_same.
      * apply (zero_same _ _ _ _ _ _ Z1 Z2). lia.
  - split; [|done]. intros m1 m2 p1 h1 e1 p2 h2 e2.
    intros (w1 & W1 & S1 & C1 & A1 & A1' & -> & Z1) (w2 & W2 & S2 & C2 & A2 & A2' & -> & Z2) Hh.
    split; [lia|]. split; [zlia|]. split.
    + eapply (pointer_eq _ _ _ _ _ _ _ _ _ W1 W2 Hh). apply list_upper; [apply W1|apply W2|congruence|congruence].
    + apply (same_mem_split m1 h1 (h1 + (Z.of_nat (length bs) + 7) / 8) _ m2 h2 (h2 + (Z.of_nat (length bs) + 7) / 8)
        (h2 + 8 * ((Z.of_nat (length bs) + 63) / 64))); [lia|lia|zlia| |].
      * replace (h1 + (Z.of_nat (length bs) + 7) / 8 - h1) with ((Z.of_nat (length bs) + 7) / 8) by lia.
        by apply bits_same.
      * apply (zero_same _ _ _ _ _ _ Z1 Z2). lia.
  - assert (Hl : same_layouts ps) by (apply list_same; eapply Forall_impl; [exact Hps|by intros t []]).
    split; [|done]. intros m1 m2 p1 h1 e1 p2 h2 e2. rewrite !packed_pointers.
    intros (w1 & W1 & S1 & C1 & L1) (w2 & W2 & S2 & C2 & L2) Hh.
    destruct (Hl _ _ _ _ _ _ _ _ L1 L2 ltac:(lia)) as (He & Hle & Hw & Hr).
    split; [lia|]. split; [lia|]. split.
    + eapply (pointer_eq _ _ _ _ _ _ _ _ _ W1 W2 Hh). apply list_upper; [apply W1|apply W2|congruence|congruence].
    + replace (e1 - h1) with (8 * Z.of_nat (length ps) + (e1 - (h1 + 8 * Z.of_nat (length ps)))) by lia.
      by apply same_mem_app.
  - split; [|done]. intros m1 m2 p1 h1 e1 p2 h2 e2. rewrite !packed_structs.
    intros (w1 & g1 & d1 & c1 & W1 & S1 & C1 & G1 & O1 & K1 & N1 & D1 & Q1 & Z1 & E1)
           (w2 & g2 & d2 & c2 & W2 & S2 & C2 & G2 & O2 & K2 & N2 & D2 & Q2 & Z2 & E2) Hh.
    pose proof (struct_data_size_range g1). pose proof (struct_ptr_count_range g1).
    pose proof (struct_data_size_range g2). pose proof (struct_ptr_count_range g2).
    assert (d1 = d2 /\ c1 = c2) as [-> ->].
    { destruct es as [|t es]; [cbn in Z1, Z2; lia|]. destruct t; try done. cbn [packed_elements] in E1, E2. lia. }
    assert (Forall element_same es) as Hl by (eapply Forall_impl; [exact Hes|by intros t []]).
    destruct (elements_same es d2 c2 ltac:(lia) ltac:(lia) Hl _ _ _ _ _ _ _ _ E1 E2 ltac:(lia)) as (He & Hle & Hw & Hr).
    assert (g1 = g2) as <- by (apply tag_eq; congruence).
    assert (0 <= Z.of_nat (length es) * (d2 + c2)) by nia.
    split; [lia|]. split; [lia|]. split.
    + eapply (pointer_eq _ _ _ _ _ _ _ _ _ W1 W2 Hh). apply list_upper; [apply W1|apply W2|congruence|congruence].
    + replace (e1 - h1) with (8 + (8 * (Z.of_nat (length es) * (d2 + c2)) +
        (e1 - (h1 + 8 + 8 * (Z.of_nat (length es) * (d2 + c2)))))) by lia.
      apply same_mem_app; [by eapply word_same|]. by apply same_mem_app.
  - split; [|done]. by intros m1 m2 p1 h1 e1 p2 h2 e2 [].
Qed.

(** ** Trimming is injective on truncated contents *)

Section strip.
Context {A : Type} (z : A -> bool).
Implicit Types (l : list A).

Lemma strip_tight l : tight z l = true -> strip z l = l.
Proof.
  unfold tight. induction l as [|x l IH]; [done|]. destruct l as [|y l]; cbn [strip].
  - cbn. by destruct (z x).
  - rewrite last_cons_cons. intros H. cbn [strip] in IH. by rewrite (IH H).
Qed.
Lemma strip_length l : (length (strip z l) <= length l)%nat.
Proof.
  induction l as [|x l IH]; cbn [strip length]; [done|]. destruct (strip z l); [|cbn in *; lia].
  destruct (z x); cbn; lia.
Qed.
Lemma strip_inj l k : (forall x y, z x = true -> z y = true -> x = y) ->
  strip z l = strip z k -> length l = length k -> l = k.
Proof.
  intros Hz. revert k. induction l as [|x l IH]; intros [|y k] Hs Hl; try done. cbn [strip length] in *.
  injection Hl as Hl. specialize (IH k).
  destruct (strip z l) as [|a s], (strip z k) as [|b u]; destruct (z x) eqn:Ex, (z y) eqn:Ey; try done;
    try (injection Hs as ->; by rewrite IH by congruence).
  rewrite (Hz x y Ex Ey). by rewrite IH.
Qed.
End strip.

Lemma zero_word_unique x y : is_zero_word x = true -> is_zero_word y = true -> x = y.
Proof. unfold is_zero_word. lia. Qed.
Lemma null_unique x y : is_null_content x = true -> is_null_content y = true -> x = y.
Proof. by destruct x, y. Qed.
Lemma null_trim t : is_null_content (trim t) = is_null_content t.
Proof. by destruct t. Qed.
Lemma tight_trim ps : tight is_null_content (map trim ps) = tight is_null_content ps.
Proof. unfold tight. change (map trim ps) with (trim <$> ps). rewrite fmap_last. destruct (last ps); cbn; by rewrite ?null_trim. Qed.

Lemma truncated_struct ds ps : truncated (CStruct ds ps) <->
  tight is_zero_word ds = true /\ tight is_null_content ps = true /\ Forall truncated ps.
Proof.
  cbn. assert (H : forall l, (fix all (l : list Content) : Prop := match l with [] => True | t :: l => truncated t /\ all l end) l <->
    Forall truncated l) by (induction l as [|t l IH]; [by split|rewrite IH; by rewrite Forall_cons]).
  by rewrite H.
Qed.
Lemma truncated_pointers ps : truncated (CPointers ps) <-> Forall truncated ps.
Proof. cbn. induction ps as [|t l IH]; [by split|]. rewrite IH. by rewrite Forall_cons. Qed.

Definition element_truncated (t : Content) : Prop := match t with CStruct _ ps => Forall truncated ps | _ => False end.
Lemma truncated_structs es : truncated (CStructs es) <->
  Forall element_truncated es /\ exists d c, Forall (struct_size_is d c) es /\
    (d = O \/ exists e, e ∈ es /\ tight_data e = true) /\ (c = O \/ exists e, e ∈ es /\ tight_pointers e = true).
Proof.
  cbn. set (all := fix all (l : list Content) : Prop := match l with [] => True | t :: l => truncated t /\ all l end).
  assert (Ha : forall l, all l <-> Forall truncated l) by (induction l as [|t l IH]; cbn; [by split|rewrite IH; by rewrite Forall_cons]).
  assert (H : forall l, (fix all_elements (l : list Content) : Prop :=
    match l with [] => True | CStruct _ ps :: l => all ps /\ all_elements l | _ => False end) l <-> Forall element_truncated l).
  { induction l as [|t l IH]; [by split|]. rewrite Forall_cons, <- IH. destruct t; cbn; rewrite <- ?Ha; tauto. }
  by rewrite H.
Qed.

Definition trims_apart (t : Content) : Prop := forall t', truncated t -> truncated t' -> trim t = trim t' -> t = t'.

Lemma map_trim_inj ps : Forall trims_apart ps -> forall ps', Forall truncated ps -> Forall truncated ps' ->
  map trim ps = map trim ps' -> ps = ps'.
Proof.
  induction 1 as [|t ps Ht Hps IH]; intros [|t' ps'] H1 H2 Hm; try done.
  apply Forall_cons in H1 as [T1 H1]. apply Forall_cons in H2 as [T2 H2]. injection Hm as E Hm.
  by rewrite (Ht t' T1 T2 E), (IH ps' H1 H2 Hm).
Qed.

(** Two structs of the same size *)
Lemma element_trim_inj d c t t' : Forall trims_apart (match t with CStruct _ ps => ps | _ => [] end) ->
  struct_size_is d c t -> struct_size_is d c t' -> element_truncated t -> element_truncated t' -> trim t = trim t' -> t = t'.
Proof.
  destruct t as [|ds ps| | | | |], t' as [|ds' ps'| | | | |]; try done. cbn [trim struct_size_is element_truncated].
  intros Hps [L1 L2] [L1' L2'] T T' [= Hd Hp]. f_equal.
  - apply (strip_inj is_zero_word); [exact zero_word_unique|done|congruence].
  - apply (map_trim_inj ps Hps ps' T T'). apply (strip_inj is_null_content); [exact null_unique|done|].
    rewrite !length_map. congruence.
Qed.

(** The size of the elements is the largest that is needed. *)
Lemma data_size_le es es' d c d' c' : map trim es = map trim es' -> Forall (struct_size_is d c) es -> Forall (struct_size_is d' c') es' ->
  (d = O \/ exists e, e ∈ es /\ tight_data e = true) -> (d <= d')%nat.
Proof.
  intros Hm Hs Hs' [->|(e & He & Ht)]; [lia|]. apply list_elem_of_lookup in He as [i Hi].
  assert (Hi' : exists e', es' !! i = Some e' /\ trim e = trim e').
  { pose proof (f_equal (fun l => l !! i) Hm) as Hl. cbn in Hl. rewrite !list_lookup_fmap, Hi in Hl.
    destruct (es' !! i) as [e'|]; [|done]. exists e'. split; [done|]. by injection Hl. }
  destruct Hi' as (e' & Hi' & Htr). pose proof (Forall_lookup_1 _ _ _ _ Hs Hi) as S1. pose proof (Forall_lookup_1 _ _ _ _ Hs' Hi') as S2.
  destruct e as [|ds ps| | | | |], e' as [|ds' ps'| | | | |]; try done. cbn in S1, S2, Ht. injection Htr as Hd _.
  rewrite (strip_tight _ _ Ht) in Hd. pose proof (strip_length is_zero_word ds') as Hle. rewrite <- Hd in Hle. lia.
Qed.
Lemma pointer_count_le es es' d c d' c' : map trim es = map trim es' -> Forall (struct_size_is d c) es -> Forall (struct_size_is d' c') es' ->
  (c = O \/ exists e, e ∈ es /\ tight_pointers e = true) -> (c <= c')%nat.
Proof.
  intros Hm Hs Hs' [->|(e & He & Ht)]; [lia|]. apply list_elem_of_lookup in He as [i Hi].
  assert (Hi' : exists e', es' !! i = Some e' /\ trim e = trim e').
  { pose proof (f_equal (fun l => l !! i) Hm) as Hl. cbn in Hl. rewrite !list_lookup_fmap, Hi in Hl.
    destruct (es' !! i) as [e'|]; [|done]. exists e'. split; [done|]. by injection Hl. }
  destruct Hi' as (e' & Hi' & Htr). pose proof (Forall_lookup_1 _ _ _ _ Hs Hi) as S1. pose proof (Forall_lookup_1 _ _ _ _ Hs' Hi') as S2.
  destruct e as [|ds ps| | | | |], e' as [|ds' ps'| | | | |]; try done. cbn in S1, S2, Ht. injection Htr as _ Hd.
  rewrite (strip_tight _ (map trim ps)) in Hd by by rewrite tight_trim.
  pose proof (strip_length is_null_content (map trim ps')) as Hle. rewrite <- Hd, !length_map in Hle. lia.
Qed.

Lemma trim_inj t : trims_apart t.
Proof.
  cut (trims_apart t /\ Forall trims_apart (match t with CStruct _ ps => ps | _ => [] end)); [by intros []|].
  induction t as [|ds ps Hps|es n bs|bs|ps Hps|es Hes|] using content_induction;
    try (split; [by intros []|by constructor]).
  - assert (Hl : Forall trims_apart ps) by (eapply Forall_impl; [exact Hps|by intros t []]). split; [|exact Hl].
    intros [|ds' ps'| | | | |] T T' Ht; try done. apply truncated_struct in T as (D & P & T). apply truncated_struct in T' as (D' & P' & T').
    cbn [trim] in Ht. rewrite !strip_tight in Ht by (rewrite ?tight_trim; done). injection Ht as -> Hm. f_equal.
    by apply map_trim_inj.
  - assert (Hl : Forall trims_apart ps) by (eapply Forall_impl; [exact Hps|by intros t []]). split; [|by constructor].
    intros [| | | |ps'| |] T T' Ht; try done. rewrite truncated_pointers in *. injection Ht as Hm. f_equal. by apply map_trim_inj.
  - split; [|by constructor]. intros [| | | | |es'|] T T' Ht; try done. injection Ht as Hm.
    apply truncated_structs in T as (T & d & c & S & Hd & Hc). apply truncated_structs in T' as (T' & d' & c' & S' & Hd' & Hc').
    pose proof (data_size_le _ _ _ _ _ _ Hm S S' Hd). pose proof (data_size_le _ _ _ _ _ _ (eq_sym Hm) S' S Hd').
    pose proof (pointer_count_le _ _ _ _ _ _ Hm S S' Hc). pose proof (pointer_count_le _ _ _ _ _ _ (eq_sym Hm) S' S Hc').
    assert (d' = d) as -> by lia. assert (c' = c) as -> by lia. f_equal. clear Hd Hc Hd' Hc'.
    revert es' Hm T' S'. induction es as [|e es IH]; intros [|e' es'] Hm T' S'; try done.
    apply Forall_cons in Hes as [[_ He] Hes], T as [Te T], T' as [Te' T'], S as [Se S], S' as [Se' S'].
    injection Hm as Ht Hm. f_equal; [by apply (element_trim_inj d c)|by apply IH].
Qed.
