(* ===== verification/CanonicalPacked.v ===== *)
(** * A message that passes the check is packed

    If [is_canonical] says yes, then whatever a client reads from the message
    lies in it in preorder and without gaps ([packed]), and no struct is
    longer than it must be ([truncated]). *)

From S2P Require Import Prelude Mem ReadLimiter Segments WirePointer Arena Readers ReadersSafe.
From S2P Require Import BuilderObjects Canonical CanonicalSafe CanonicalForm.
From coqutil Require Import Word.LittleEndianList.
From stdpp Require Import list.
#[local] Open Scope Z_scope.
#[local] Open Scope rust_scope.
Import Canonical CanonicalForm.

Lemma wp_returns {A S} (c : ST S A) Q E s a s' : wp c Q E s -> c s = (Ok a, s') -> Q a s'.
Proof. unfold wp. intros H Ec. by rewrite Ec in H. Qed.

Lemma reading_inv {A} (c : ST ReadLimiter A) w a w' : reading c w = (Ok a, w') ->
  exists l', c (limiter w) = (Ok a, l') /\ w' = {| limiter := l'; heads := heads w |}.
Proof. unfold reading. destruct (c (limiter w)) as [o l']. intros [= -> <-]. by exists l'. Qed.

Lemma head_get_inv c v w w' : head_get c w = (Ok v, w') -> heads w !! c = Some v /\ w' = w.
Proof. unfold head_get. destruct (heads w !! c); [|done]. by intros [= -> ->]. Qed.

Lemma load_wp_range m a w : load_wp m a = Ok w -> wp_ok w.
Proof.
  unfold load_wp. intros H. apply outcome_bind_ok in H as (lo & L & H). apply outcome_bind_ok in H as (hi & U & [= <-]).
  apply load_range in L; [|lia]. apply load_range in U; [|lia]. split; cbn; unfold u32, in_width; lia.
Qed.

(** ** What the readers find at a positional pointer *)

Section found.
Context (m : mem).
Notation pr_ok := (pr_ok m true).
Notation sr_ok := (sr_ok m true).
Notation lr_ok := (lr_ok m true).

Lemma positional_kind w : is_positional w = true -> kind w = Struct \/ kind w = List.
Proof.
  unfold is_positional. intros H%Z.eqb_eq. pose proof (kind_mod w) as K.
  assert (Z.testbit (offset_and_kind w) 1 = false) as Hb.
  { pose proof (f_equal (fun x => Z.testbit x 1) H) as Hx. cbn beta in Hx. rewrite Z.land_spec, Z.bits_0 in Hx. by rewrite andb_true_r in Hx. }
  assert (offset_and_kind w mod 4 < 2).
  { pose proof (Z.testbit_spec' (offset_and_kind w) 1 ltac:(lia)) as Ht. rewrite Hb in Ht. cbn in Ht. zlia. }
  destruct (kind w); cbn in K; auto; lia.
Qed.

Lemma follow_positional ar id reff w l t reff' id' l' : ArenaOk m true ar -> u32 id -> words_ok m reff 1 ->
  load_wp m reff = Ok w -> is_positional w = true ->
  follow_fars m ar reff id l = (Ok (t, reff', id'), l') ->
  t = reff + 8 * (1 + signed_offset w) /\ reff' = reff /\ id' = id.
Proof.
  intros Har Hid Hw Hl Hp. unfold follow_fars. rewrite Hl, (lift_bind_ok _ _ _ _ eq_refl).
  assert (Hrun : (t ← lift (target_from_segment m reff ar id); ret (t, reff, id)) l = (Ok (t, reff', id'), l') ->
    t = reff + 8 * (1 + signed_offset w) /\ reff' = reff /\ id' = id).
  { intros H. apply ST_bind_inv in H as (t' & s1 & Ha & H). apply lift_inv in Ha as [Ha ->].
    injection H as <- <- <- <-. unfold target_from_segment in Ha. rewrite Hl in Ha. cbn [bind outcome_monad] in Ha.
    pose proof (load_wp_ok m reff Hw) as (w' & E & Hok). assert (w' = w) as -> by congruence.
    destruct Hw as (Hpos & Hal & _ & Hadr). pose proof (signed_offset_range w Hok).
    pose proof (check_offset_law id reff (1 + signed_offset w) Hid Hal Hpos) as Hlaw.
    specialize (Hlaw ltac:(unfold addressable in *; lia) ltac:(lia)). rewrite Ha in Hlaw. by destruct Hlaw as (-> & _). }
  destruct (positional_kind w Hp) as [-> | ->]; exact Hrun.
Qed.

Context (r : PointerReader) (w : WirePointer).
Hypothesis (Hr : pr_ok r) (Hne : pr_pointer r <> 0) (Hload : load_wp m (pr_pointer r) = Ok w).

Lemma type_null l t l' : get_pointer_type m r l = (Ok t, l') -> t = PT_Null <-> is_null w = true.
Proof.
  intros H. rewrite (pointer_type_null m r w l t l' Hload Hne H). by destruct t.
Qed.

Context (Hpos : is_positional w = true) (Hnull : is_null w = false).

Lemma pointer_or_zero_self : pointer_or_zero r = pr_pointer r.
Proof. unfold pointer_or_zero. by rewrite (proj2 (Z.eqb_neq _ _) Hne). Qed.

Definition found_at : Z := pr_pointer r + 8 * (1 + signed_offset w).

Lemma type_found l t l' : get_pointer_type m r l = (Ok t, l') ->
  (t = PT_Struct /\ kind w = Struct) \/ (t = PT_List /\ kind w = List).
Proof.
  destruct Hr as [|(Hw & Har & Hid)]; [done|]. unfold get_pointer_type, PointerReader_is_null.
  rewrite (proj2 (Z.eqb_neq _ _) Hne), Hload. cbn [bind outcome_monad]. rewrite (lift_bind_ok _ _ _ _ eq_refl), Hnull.
  intros H. apply ST_bind_inv in H as ([[p q] i] & s1 & Hf & H).
  destruct (follow_positional _ _ _ _ _ _ _ _ _ Har Hid Hw Hload Hpos Hf) as (_ & -> & _).
  rewrite Hload, (lift_bind_ok _ _ _ _ eq_refl) in H.
  destruct (positional_kind w Hpos) as [K|K]; rewrite K in H; injection H as <- _; auto.
Qed.

Lemma struct_found l s l' : get_struct m r None l = (Ok s, l') ->
  kind w = Struct /\
  s = {| sr_arena := pr_arena r; sr_segment_id := pr_segment_id r; sr_cap_table := pr_cap_table r;
         sr_data := found_at; sr_pointers := found_at + struct_data_size w * BYTES_PER_WORD;
         sr_data_size := struct_data_size w * BITS_PER_WORD; sr_pointer_count := struct_ptr_count w;
         sr_nesting_limit := pr_nesting_limit r - 1 |}.
Proof.
  destruct Hr as [|(Hw & Har & Hid)]; [done|]. unfold get_struct, read_struct_pointer.
  rewrite pointer_or_zero_self, Hload, (lift_bind_ok _ _ _ _ eq_refl), Hnull. unfold read_struct_pointer_from.
  destruct (pr_nesting_limit r <=? 0); [done|]. intros H. apply ST_bind_inv in H as ([[p q] i] & s1 & Hf & H).
  destruct (follow_positional _ _ _ _ _ _ _ _ _ Har Hid Hw Hload Hpos Hf) as (-> & -> & ->).
  rewrite Hload, (lift_bind_ok _ _ _ _ eq_refl) in H.
  destruct (bool_decide_reflect (kind w = Struct)); [|done]. cbn [negb] in H. by inv_ST.
Qed.

Lemma list_found l s l' : get_list_any_size m r 0 l = (Ok s, l') ->
  kind w = List /\ lr_element_size s = list_element_size w /\
  if bool_decide (list_element_size w = InlineComposite) then
    exists tag, load_wp m found_at = Ok tag /\ kind tag = Struct /\
      lr_ptr s = found_at + 8 /\ lr_element_count s = inline_composite_list_element_count tag /\
      lr_struct_data_size s = struct_data_size tag * 64 /\ lr_struct_pointer_count s = struct_ptr_count tag
  else lr_ptr s = found_at /\ lr_element_count s = list_element_count w.
Proof.
  destruct Hr as [|(Hw & Har & Hid)]; [done|]. unfold get_list_any_size, read_list_pointer.
  rewrite pointer_or_zero_self, Hload, (lift_bind_ok _ _ _ _ eq_refl), Hnull. unfold read_list_pointer_from.
  destruct (pr_nesting_limit r <=? 0); [done|]. intros H. apply ST_bind_inv in H as ([[p q] i] & s1 & Hf & H).
  destruct (follow_positional _ _ _ _ _ _ _ _ _ Har Hid Hw Hload Hpos Hf) as (-> & -> & ->).
  rewrite Hload, (lift_bind_ok _ _ _ _ eq_refl) in H.
  destruct (bool_decide_reflect (kind w = List)); [|done]. cbn [negb] in H. split; [done|].
  destruct (bool_decide_reflect (list_element_size w = InlineComposite)) as [Hes|Hes].
  - unfold read_struct_list in H. inv_ST. destruct (negb (bool_decide (kind a1 = Struct))) eqn:Hk; [done|]. inv_ST.
    destruct (_ <? _); [done|]. inv_ST. split; [by rewrite Hes|].
    exists a1. split; [done|]. split; [by destruct (bool_decide_reflect (kind a1 = Struct))|]. by split_and!.
  - unfold read_plain_list in H. by inv_ST.
Qed.

(** The list found does not depend on what is left of the read limit. *)
Lemma list_determined l1 s1 l1' l2 s2 l2' :
  get_list_any_size m r 0 l1 = (Ok s1, l1') -> get_list_any_size m r 0 l2 = (Ok s2, l2') -> s1 = s2.
Proof.
  destruct Hr as [|(Hw & Har & Hid)]; [done|]. unfold get_list_any_size, read_list_pointer.
  rewrite pointer_or_zero_self, Hload, !(lift_bind_ok _ _ _ _ eq_refl), Hnull. unfold read_list_pointer_from.
  destruct (pr_nesting_limit r <=? 0); [done|]. intros H1 H2.
  apply ST_bind_inv in H1 as ([[p q] i] & t1 & Hf1 & H1). apply ST_bind_inv in H2 as ([[p' q'] i'] & t2 & Hf2 & H2).
  destruct (follow_positional _ _ _ _ _ _ _ _ _ Har Hid Hw Hload Hpos Hf1) as (-> & -> & ->).
  destruct (follow_positional _ _ _ _ _ _ _ _ _ Har Hid Hw Hload Hpos Hf2) as (-> & -> & ->).
  rewrite Hload, (lift_bind_ok _ _ _ _ eq_refl) in H1. rewrite Hload, (lift_bind_ok _ _ _ _ eq_refl) in H2.
  destruct (bool_decide_reflect (kind w = List)); [|done]. cbn [negb] in H1, H2.
  destruct (bool_decide (list_element_size w = InlineComposite)).
  - unfold read_struct_list in H1, H2. cbv zeta in H1, H2.
    apply ST_bind_inv in H1 as (z1 & u1 & Hz1 & H1). apply ST_bind_inv in H1 as ([] & v1 & _ & H1).
    apply ST_bind_inv in H1 as (tag & x1 & Ht1 & H1). apply lift_inv in Ht1 as [Ht1 ->].
    apply ST_bind_inv in H2 as (z2 & u2 & Hz2 & H2). apply ST_bind_inv in H2 as ([] & v2 & _ & H2).
    rewrite Ht1, (lift_bind_ok _ _ _ _ eq_refl) in H2. destruct (negb (bool_decide (kind tag = Struct))); [done|].
    apply ST_bind_inv in H1 as (tot & x1 & Ht & H1). apply lift_inv in Ht as [Ht ->]. rewrite Ht, (lift_bind_ok _ _ _ _ eq_refl) in H2.
    destruct (_ <? tot); [done|].
    apply ST_bind_inv in H1 as ([] & y1 & _ & H1). apply ST_bind_inv in H1 as ([] & w1 & _ & H1).
    apply ST_bind_inv in H2 as ([] & y2 & _ & H2). apply ST_bind_inv in H2 as ([] & w2 & _ & H2).
    apply ST_bind_inv in H1 as (st & x1 & Hst & H1). apply lift_inv in Hst as [Hst ->]. rewrite Hst, (lift_bind_ok _ _ _ _ eq_refl) in H2.
    injection H1 as <- _. by injection H2 as <- _.
  - unfold read_plain_list in H1, H2. inv_ST. congruence.
Qed.
End found.

(** ** Reading, element by element *)

Lemma collect_inv {St A} n (f : Z -> ST St A) : forall lo s l s', collect n lo f s = (Ok l, s') ->
  length l = n /\ forall i a, l !! i = Some a -> exists s1 s2, f (lo + Z.of_nat i) s1 = (Ok a, s2).
Proof.
  induction n as [|n IH]; intros lo s l s' H; cbn [collect] in H.
  { injection H as <- _. split; [done|]. intros i a Hi. by rewrite lookup_nil in Hi. }
  apply ST_bind_inv in H as (a & s1 & Ha & H). apply ST_bind_inv in H as (l' & s2 & Hl & H). injection H as <- <-.
  destruct (IH _ _ _ _ Hl) as [Hlen Hel]. split; [cbn; lia|]. intros [|i] b Hi.
  - injection Hi as ->. rewrite Z.add_0_r. eauto.
  - destruct (Hel i b Hi) as (t1 & t2 & E). exists t1, t2. by replace (lo + Z.of_nat (S i)) with (lo + 1 + Z.of_nat i) by lia.
Qed.

Section packed.
Context (m : mem).
Notation pr_ok := (pr_ok m true).
Notation sr_ok := (sr_ok m true).
Notation lr_ok := (lr_ok m true).

Definition reads (r : PointerReader) (t : Content) : Prop :=
  exists fuel l l', read_content m fuel r l = (Ok t, l').
Definition reads_struct (s : StructReader) (ds : list Z) (ps : list Content) : Prop :=
  Z.of_nat (length ds) = sr_data_size s / 64 /\ Z.of_nat (length ps) = sr_pointer_count s /\
  (forall i d, ds !! i = Some d -> get_data_field m 8 s (Z.of_nat i) = Ok d) /\
  (forall i t, ps !! i = Some t -> reads (get_pointer_field s (Z.of_nat i)) t).

Lemma read_struct_inv fuel s l t l' : sr_ok s -> read_struct m (read_content m fuel) s l = (Ok t, l') ->
  exists ds ps, t = CStruct ds ps /\ reads_struct s ds ps.
Proof.
  intros ((_ & Hsz & _) & (Hc & _) & _) H. unfold read_struct in H.
  apply ST_bind_inv in H as (ds & s1 & Hd & H). apply ST_bind_inv in H as (ps & s2 & Hp & H). injection H as <- _.
  apply collect_inv in Hd as [Ld Hd]. apply collect_inv in Hp as [Lp Hp]. exists ds, ps. split; [done|].
  split; [zlia|]. split; [lia|]. split.
  - intros i d Hi. destruct (Hd i d Hi) as (? & ? & E). by apply lift_inv in E as [E _].
  - intros i u Hi. destruct (Hp i u Hi) as (? & ? & E). by eexists _, _, _.
Qed.

(** Null pointers read as [CNull], others as something else. *)
Lemma reads_null r t b : reads r t -> PointerReader_is_null m r = Ok b -> b = is_null_content t.
Proof.
  intros ([|fuel] & l & l' & H) Hb; [done|]. cbn [read_content] in H.
  apply ST_bind_inv in H as (ty & s1 & Hty & H). unfold get_pointer_type in Hty. rewrite Hb, (lift_bind_ok _ _ _ _ eq_refl) in Hty.
  destruct b.
  - injection Hty as <- <-. by injection H as <- _.
  - destruct ty; [..|by injection H as <- _].
    + exfalso. apply ST_bind_inv in Hty as ([[p q] i] & s2 & _ & Hty). apply ST_bind_inv in Hty as (w & s3 & _ & Hty).
      destruct (kind w); try done. by destruct (is_capability w).
    + apply ST_bind_inv in H as (s & s2 & _ & H). unfold read_struct in H. by inv_ST.
    + apply ST_bind_inv in H as (s & s2 & _ & H). unfold read_list in H.
      destruct (lr_element_size s); by inv_ST.
Qed.

Lemma data_read s ds : sr_ok s -> Z.of_nat (length ds) * 64 <= sr_data_size s ->
  (forall i d, ds !! i = Some d -> get_data_field m 8 s (Z.of_nat i) = Ok d) -> data_at m (sr_data s) ds.
Proof.
  intros Hs Hsz Hd.
  assert (H : forall k i, (i + k = length ds)%nat -> data_at m (sr_data s + 8 * Z.of_nat i) (drop i ds)).
  { induction k as [|k IH]; intros i Hi; [by rewrite drop_ge by lia|].
    destruct (lookup_lt_is_Some_2 ds i) as [d Ed]; [lia|]. rewrite (drop_S _ _ _ Ed). cbn [data_at].
    pose proof Hs as ((_ & Hb & _) & _). specialize (Hd i d Ed).
    destruct (get_data_field_safe m true s 8 (Z.of_nat i) Hs) as (v & E & _ & Hv); [lia|lia|].
    rewrite (proj2 (Z.leb_le (8 * 8 * (Z.of_nat i + 1)) _)) in Hv by lia. split; [congruence|].
    specialize (IH (S i) ltac:(lia)). by replace (sr_data s + 8 * Z.of_nat i + 8) with (sr_data s + 8 * Z.of_nat (S i)) by lia. }
  specialize (H (length ds) 0%nat eq_refl). by rewrite Z.add_0_r in H.
Qed.

(** ** Plain lists *)

Lemma padding_inv fuel : forall a e, a <= e -> padding_is_zero m fuel a e = Ok true -> zero_between m a e.
Proof.
  induction fuel as [|fuel IH]; intros a e Ha H; [done|]. cbn [padding_is_zero] in H.
  destruct (Z.eqb_spec a e) as [->|]; [intros i Hi; lia|].
  apply outcome_bind_ok in H as (b & Hb & H). destruct (Z.eqb_spec b 0) as [->|]; [|done]. cbn [negb] in H.
  intros i Hi. destruct (Z.eq_dec i a) as [->|]; [done|]. apply (IH (a + 1) e); (done || lia).
Qed.

Lemma plain_inv r c h w w' : lr_ok r -> shape_exact r -> lr_element_size r <> InlineComposite -> lr_element_size r <> Pointer ->
  heads w !! c = Some h -> plain_is_canonical m r c w = (Ok true, w') ->
  let bits := lr_element_count r * data_bits_per_element (lr_element_size r) in
  lr_ptr r = h /\ heads w' !! c = Some (h + 8 * ((bits + 63) / 64)) /\
  zero_between m (h + (bits + 7) / 8) (h + 8 * ((bits + 63) / 64)) /\
  (0 < bits mod 8 -> exists b, load m (h + bits / 8) 1 = Ok b /\ Z.land b (Z.lxor 255 (Z.shiftl 1 (bits mod 8) - 1)) = 0).
Proof.
  intros (Hc & _) Hex Hni Hnp Hh H bits. unfold plain_is_canonical in H.
  apply ST_bind_inv in H as (v & s1 & Hv & H). apply head_get_inv in Hv as [Hv ->]. assert (v = h) as -> by congruence.
  destruct (Z.eqb_spec (lr_ptr r) h) as [Hp|]; [|done]. cbn [negb] in H.
  apply ST_bind_inv in H as (bs & s1 & Hb & H). apply lift_inv in Hb as [Hb ->].
  assert (Hbits : 0 <= bits) by (unfold bits; destruct (lr_element_size r); cbn; lia).
  unfold umul in Hb. fold bits in Hb. destruct (bits <? 2 ^ 64); [|done]. injection Hb as <-.
  cbv zeta in H. unfold BITS_PER_WORD, BITS_PER_BYTE, BYTES_PER_WORD in H.
  set (ws := bits / 64 + (if bits mod 64 =? 0 then 0 else 1)) in *.
  assert (Hws : ws = (bits + 63) / 64) by (unfold ws; destruct (Z.eqb_spec (bits mod 64) 0); zlia).
  rewrite (Z.mul_comm 8), <- Hws. clearbody bits ws.
  apply ST_bind_inv in H as (partial & s1 & Hpart & H).
  assert (Hq : s1 = w /\ match partial with
     | Some ok => 0 < bits mod 8 /\ exists b, load m (h + bits / 8) 1 = Ok b /\ ok = (Z.land b (Z.lxor 255 (Z.shiftl 1 (bits mod 8) - 1)) =? 0)
     | None => bits mod 8 <= 0 end).
  { destruct (Z.ltb_spec 0 (bits mod 8)).
    - apply ST_bind_inv in Hpart as (b & s2 & Hb & Hpart). apply lift_inv in Hb as [Hb ->]. injection Hpart as <- <-. eauto.
    - injection Hpart as <- <-. done. }
  destruct Hq as [-> Hq]. split; [done|].
  assert (Hrest : (zero ← lift (padding_is_zero m 9 (h + bits / 8 + (if 0 <? bits mod 8 then 1 else 0)) (h + ws * 8));
    if negb zero then ret false else head_set c (h + ws * 8) ;; ret true) w = (Ok true, w')).
  { by destruct partial as [[]|]. }
  apply ST_bind_inv in Hrest as (z & s1 & Hz & Hrest). apply lift_inv in Hz as [Hz ->].
  destruct z; [|done]. cbn [negb] in Hrest. injection Hrest as <-. cbn [heads].
  split; [apply list_lookup_insert_eq; by eapply lookup_lt_Some|].
  assert (Hpad : h + bits / 8 + (if 0 <? bits mod 8 then 1 else 0) = h + (bits + 7) / 8) by (case_bool; zlia).
  rewrite Hpad in Hz. split; [apply (padding_inv 9); [zlia|done]|].
  intros Hpos. destruct partial as [ok|]; [|lia]. destruct Hq as (_ & b & Hb & E). exists b. split; [done|].
  destruct ok; [|done]. symmetry in E. by apply Z.eqb_eq in E.
Qed.

Lemma bits_multiple es n : es <> Bit -> es <> InlineComposite -> es <> Pointer ->
  exists k, 0 <= k /\ n * data_bits_per_element es = 8 * (n * k).
Proof.
  intros H1 H2 H3.
  exists (match es with Byte => 1 | TwoBytes => 2 | FourBytes => 4 | EightBytes => 8 | _ => 0 end). destruct es; try done; cbn; lia.
Qed.

Lemma mask_bits b k j : Z.land b (Z.lxor 255 (Z.shiftl 1 k - 1)) = 0 -> 0 < k < 8 -> k <= j < 8 -> Z.testbit b j = false.
Proof.
  intros H Hk Hj. pose proof (f_equal (fun x => Z.testbit x j) H) as Ht. cbn beta in Ht.
  rewrite Z.land_spec, Z.bits_0, Z.lxor_spec in Ht.
  assert (Z.testbit 255 j = true) as E1.
  { assert (j = 1 \/ j = 2 \/ j = 3 \/ j = 4 \/ j = 5 \/ j = 6 \/ j = 7) as [->|[->|[->|[->|[->|[-> | ->]]]]]] by lia; done. }
  assert (Z.testbit (Z.shiftl 1 k - 1) j = false) as E2.
  { replace (Z.shiftl 1 k - 1) with (Z.ones k) by (rewrite Z.ones_equiv, Z.shiftl_1_l; lia). apply Z.ones_spec_high. lia. }
  rewrite E1, E2 in Ht. by rewrite andb_true_r in Ht.
Qed.

Lemma plain_packed r c h w w' p wd fuel l t l' :
  lr_ok r -> shape_exact r -> lr_element_size r <> InlineComposite -> lr_element_size r <> Pointer ->
  heads w !! c = Some h -> plain_is_canonical m r c w = (Ok true, w') ->
  load_wp m p = Ok wd -> kind wd = List -> p + 8 * (1 + signed_offset wd) = lr_ptr r ->
  list_element_size wd = lr_element_size r -> list_element_count wd = lr_element_count r ->
  read_list m (read_content m fuel) r l = (Ok t, l') ->
  exists h', heads w' !! c = Some h' /\ packed m t p h h' /\ truncated t.
Proof.
  intros Hr Hex Hni Hnp Hh Hcan Hwd Hk Ht Hes Hcnt Hread.
  destruct (plain_inv r c h w w' Hr Hex Hni Hnp Hh Hcan) as (Hp & Hh' & Hz & Hpart). cbv zeta in *.
  pose proof Hr as (Hc & _ & _ & Hsz & _).
  assert (Hstep : lr_step r = data_bits_per_element (lr_element_size r)).
  { unfold shape_exact in Hex. destruct (lr_element_size r); try done; cbn in *; lia. }
  rewrite Hstep in Hsz. set (es := lr_element_size r) in *. set (n := lr_element_count r) in *.
  assert (Hpw : pointer_word m p List h wd) by (split; [done|]; split; [by eapply load_wp_range|]; split; [done|congruence]).
  eexists. split; [exact Hh'|]. destruct (decide (es = Bit)) as [Hb|Hb].
  - unfold read_list in Hread. fold es n in Hread. rewrite Hb in *. cbn [data_bits_per_element] in *. rewrite Z.mul_1_r in *.
    apply ST_bind_inv in Hread as (bs & s1 & Hcol & Hread). injection Hread as <- _.
    apply collect_inv in Hcol as [Hlen Hel]. assert (Hn : Z.of_nat (length bs) = n) by lia. split; [|done].
    cbn [packed]. exists wd. rewrite Hn. split; [done|]. split; [done|]. split; [done|]. split; [|split; [|split; [done|exact Hz]]].
    + intros i b Hi. destruct (Hel i b Hi) as (? & ? & E). apply lift_inv in E as [E _].
      unfold bool_get, umul in E. rewrite Z.add_0_l, Hstep, Z.mul_1_r in E.
      assert (Z.of_nat i < n) by (pose proof (lookup_lt_Some _ _ _ Hi); lia).
      destruct (_ <? _); [|done]. cbn [bind outcome_monad] in E. by rewrite Hp in E.
    + intros i Hi. assert (Hm : n mod 8 <> 0) by zlia. destruct (Hpart ltac:(zlia)) as (b & Hb1 & Hb2).
      replace (i / 8) with (n / 8) by zlia. rewrite (load_bit_testbit _ _ _ _ Hb1) by zlia. f_equal.
      apply (mask_bits b (n mod 8)); [done|zlia|zlia].
  - destruct (bits_multiple es n Hb Hni Hnp) as (k & Hk1 & Hk2). rewrite Hk2 in Hsz.
    assert (Hnk : 0 <= n * k) by (apply Z.mul_nonneg_nonneg; lia).
    assert (Hraw : exists raw bs, into_raw_bytes r = Ok raw /\ load_bytes m (bs_ptr raw) (bs_len raw) = Ok bs /\ t = CBytes es n bs).
    { unfold read_list in Hread. fold es n in Hread. clearbody es.
      destruct es; try done; (apply ST_bind_inv in Hread as (raw & s1 & Hraw & Hread); apply lift_inv in Hraw as [Hraw ->];
        apply ST_bind_inv in Hread as (bs & s1 & Hbs & Hread); apply lift_inv in Hbs as [Hbs ->]; injection Hread as <- _; eauto). }
    destruct Hraw as (raw & bs & Hraw & Hbs & ->). split; [|done].
    assert (Hlb : load_bytes m h (n * k) = Ok bs /\ Z.of_nat (length bs) = n * k).
    { unfold into_raw_bytes in Hraw. fold n in Hraw. destruct (Z.eqb_spec n 0) as [E|Hne].
      - injection Hraw as <-. cbn in Hbs. rewrite E, Z.mul_0_l. injection Hbs as <-. done.
      - unfold umul in Hraw. rewrite Hstep, (Z.mul_comm _ n), Hk2 in Hraw. destruct (_ <? _); [|done]. cbn [bind outcome_monad] in Hraw.
        unfold round_bits_up_to_bytes, BITS_PER_BYTE, uadd in Hraw. destruct (_ <? _); [|done]. cbn [bind outcome_monad] in Hraw.
        rewrite wrap32_small in Hraw by zlia. injection Hraw as <-. cbn [bs_ptr bs_len] in Hbs. rewrite Hp in Hbs.
        replace ((8 * (n * k) + 7) / 8) with (n * k) in Hbs by zlia. split; [done|]. apply (load_bytes_length m h _ _); [zlia|done]. }
    destruct Hlb as [Hlb Hlen]. rewrite Hk2 in Hz |- *. cbn [packed]. exists wd. rewrite Hlen.
    replace ((8 * (n * k) + 7) / 8) with (n * k) in * by zlia.
    replace ((8 * (n * k) + 63) / 64) with ((n * k + 7) / 8) in * by zlia.
    split_and!; try done. fold es. rewrite Hk2. zlia.
Qed.

(** ** Loops over pointers *)

Section recursive.
Context (check : PointerReader -> nat -> ST Walk bool) (n : Z).
Hypothesis check_safe : forall r c w, pr_ok r -> - 2 ^ 31 <= pr_nesting_limit r <= n ->
  limiter_ok (limiter w) -> (c < length (heads w))%nat ->
  wp (check r c) (fun _ w' => advances c w w') walk_error w.
Hypothesis check_packed : forall r c w w' h t, pr_ok r -> - 2 ^ 31 <= pr_nesting_limit r <= n ->
  limiter_ok (limiter w) -> heads w !! c = Some h -> check r c w = (Ok true, w') -> reads r t ->
  exists h', heads w' !! c = Some h' /\ packed m t (pr_pointer r) h h' /\ truncated t.

Lemma loop_packed (f : Z -> ST Walk bool) (ptr : Z -> PointerReader) c q k :
  (forall i w, 0 <= i < Z.of_nat k -> f i w = check (ptr i) c w) ->
  (forall i, 0 <= i < Z.of_nat k -> pr_ok (ptr i) /\ - 2 ^ 31 <= pr_nesting_limit (ptr i) <= n /\ pr_pointer (ptr i) = q + 8 * i) ->
  forall j lo ts w w' h, 0 <= lo -> lo + Z.of_nat j = Z.of_nat k -> limiter_ok (limiter w) -> heads w !! c = Some h ->
  all_range j lo f w = (Ok true, w') -> length ts = j ->
  (forall i t, ts !! i = Some t -> reads (ptr (lo + Z.of_nat i)) t) ->
  exists h', heads w' !! c = Some h' /\ packed_list m ts (q + 8 * lo) h h' /\ Forall truncated ts.
Proof.
  intros Hf Hptr. induction j as [|j IH]; intros lo ts w w' h Hlo Hk Hl Hh Hrun Hlen Hts; cbn [all_range] in Hrun.
  { injection Hrun as <-. apply nil_length_inv in Hlen as ->. exists h. split; [done|]. by split. }
  destruct ts as [|t ts]; [done|]. injection Hlen as Hlen.
  apply ST_bind_inv in Hrun as (b & w1 & Hb & Hrun). destruct b; [|done].
  destruct (Hptr lo ltac:(lia)) as (Hok & Hnest & Hpos). rewrite Hf in Hb by lia.
  pose proof (Hts 0%nat t eq_refl) as Ht. rewrite Z.add_0_r in Ht.
  destruct (check_packed _ _ _ _ _ _ Hok Hnest Hl Hh Hb Ht) as (h1 & Hh1 & P1 & T1).
  pose proof (wp_returns _ _ _ _ _ _ (check_safe _ c w Hok Hnest Hl (lookup_lt_Some _ _ _ Hh)) Hb) as (Hl1 & _ & _).
  destruct (IH (lo + 1) ts w1 w' h1) as (h' & Hh' & P' & T'); [lia|lia|done|done|done|done| |].
  { intros i u Hi. specialize (Hts (S i) u Hi). by replace (lo + 1 + Z.of_nat i) with (lo + Z.of_nat (S i)) by lia. }
  exists h'. split; [done|]. split; [|by constructor]. cbn [packed_list]. exists h1. split; [by rewrite <- Hpos|].
  by replace (q + 8 * lo + 8) with (q + 8 * (lo + 1)) by lia.
Qed.

(** ** Structs *)

Lemma tight_snoc {A} (z : A -> bool) l x : l !! (length l - 1)%nat = Some x -> tight z l = negb (z x).
Proof. intros H. unfold tight. rewrite last_lookup. replace (pred (length l)) with (length l - 1)%nat by lia. by rewrite H. Qed.

Lemma struct_packed s c d w w' hc hd ds ps dt pt :
  sr_ok s -> (0 < sr_pointer_count s -> - 2 ^ 31 <= sr_nesting_limit s <= n) -> limiter_ok (limiter w) ->
  heads w !! c = Some hc -> heads w !! d = Some hd -> reads_struct s ds ps ->
  struct_is_canonical m check s c d w = (Ok (true, dt, pt), w') ->
  sr_data s = hc /\ sr_data_size s = 64 * Z.of_nat (length ds) /\ data_at m hc ds /\
  dt = tight is_zero_word ds /\ pt = tight is_null_content ps /\ Forall truncated ps /\
  exists h', heads w' !! d = Some h' /\
    packed_list m ps (sr_pointers s) (if decide (c = d) then hc + 8 * (Z.of_nat (length ds) + Z.of_nat (length ps)) else hd) h'.
Proof.
  intros Hs Hn Hl Hc Hd (Ld & Lp & Hds & Hps) H. pose proof Hs as ((_ & Hsz & _) & (Hcnt & _) & _).
  unfold struct_is_canonical in H. apply ST_bind_inv in H as (v & s1 & Hv & H). apply head_get_inv in Hv as [Hv ->].
  assert (v = hc) as -> by congruence. destruct (Z.eqb_spec (sr_data s) hc) as [Hp|]; [|done]. cbn [negb] in H.
  unfold BITS_PER_WORD, BYTES_PER_WORD in H.
  destruct (Z.eqb_spec (sr_data_size s mod 64) 0) as [Hmod|]; [|done]. cbn [negb] in H.
  assert (Hsize : sr_data_size s = 64 * Z.of_nat (length ds)) by zlia.
  apply ST_bind_inv in H as (dt' & s1 & Hdt & H).
  assert (Hdt' : dt' = tight is_zero_word ds /\ s1 = w).
  { rewrite <- Ld in Hdt. destruct (Z.eqb_spec (Z.of_nat (length ds)) 0) as [E|E]; cbn [negb] in Hdt.
    - injection Hdt as <- <-. by destruct ds.
    - apply ST_bind_inv in Hdt as (v & s2 & Hv' & Hdt). apply lift_inv in Hv' as [Hv' ->]. injection Hdt as <- <-. split; [|done].
      destruct (lookup_lt_is_Some_2 ds (length ds - 1)) as [x Ex]; [lia|]. rewrite (tight_snoc _ _ _ Ex).
      specialize (Hds _ _ Ex). replace (Z.of_nat (length ds - 1)) with (Z.of_nat (length ds) - 1) in Hds by lia. unfold is_zero_word. congruence. }
  destruct Hdt' as [-> ->]. clear Hdt. apply ST_bind_inv in H as (pt' & s1 & Hpt & H).
  assert (Hpt' : pt' = tight is_null_content ps /\ s1 = w).
  { rewrite <- Lp in Hpt. destruct (Z.eqb_spec (Z.of_nat (length ps)) 0) as [E|E]; cbn [negb] in Hpt.
    - injection Hpt as <- <-. by destruct ps.
    - apply ST_bind_inv in Hpt as (v & s2 & Hv' & Hpt). apply lift_inv in Hv' as [Hv' ->]. injection Hpt as <- <-. split; [|done].
      destruct (lookup_lt_is_Some_2 ps (length ps - 1)) as [x Ex]; [lia|]. rewrite (tight_snoc _ _ _ Ex). f_equal.
      specialize (Hps _ _ Ex). replace (Z.of_nat (length ps - 1)) with (Z.of_nat (length ps) - 1) in Hps by lia. by eapply reads_null. }
  destruct Hpt' as [-> ->]. clear Hpt. apply ST_bind_inv in H as ([] & w1 & Hset & H). injection Hset as <-.
  apply ST_bind_inv in H as (res & w2 & Hloop & H). injection H as -> <- <- <-.
  set (w1 := {| limiter := limiter w; heads := _ |}) in *.
  assert (Hd1 : heads w1 !! d = Some (if decide (c = d) then hc + 8 * (Z.of_nat (length ds) + Z.of_nat (length ps)) else hd)).
  { unfold w1; cbn [heads]. destruct (decide (c = d)) as [<-|Hne].
    - rewrite list_lookup_insert_eq by (by eapply lookup_lt_Some). f_equal. lia.
    - by rewrite list_lookup_insert_ne. }
  destruct (loop_packed (fun i => check (get_pointer_field s i) d) (fun i => get_pointer_field s i) d (sr_pointers s)
    (Z.to_nat (sr_pointer_count s))) with (j := Z.to_nat (sr_pointer_count s)) (lo := 0) (ts := ps) (w := w1) (w' := w2)
    (h := if decide (c = d) then hc + 8 * (Z.of_nat (length ds) + Z.of_nat (length ps)) else hd)
    as (h' & Hh' & Hpk & Htr); try done.
  - intros i Hi. rewrite Z2Nat.id in Hi by lia. split; [by apply get_pointer_field_safe; [|lia]|].
    unfold get_pointer_field. rewrite (proj2 (Z.ltb_lt _ _)) by lia. cbn. split; [apply Hn; lia|lia].
  - lia.
  - split; [done|]. split; [done|]. split; [rewrite <- Hp; apply data_read; [done|lia|done]|].
    split; [done|]. split; [done|]. split; [done|]. exists h'. split; [done|]. by rewrite Z.mul_0_r, Z.add_0_r in Hpk.
Qed.

(** ** Struct lists *)

Lemma elements_packed r c d k0 :
  lr_ok r -> lr_nesting_limit r <= n -> c <> d -> 0 <= lr_struct_data_size r -> lr_struct_data_size r mod 64 = 0 ->
  let dn := lr_struct_data_size r / 64 in let pn := lr_struct_pointer_count r in
  forall j idx dt pt ts w w' hc hd, (k0 = Z.to_nat (lr_element_count r)) -> 0 <= idx -> idx + Z.of_nat j = Z.of_nat k0 ->
  limiter_ok (limiter w) -> heads w !! c = Some hc -> heads w !! d = Some hd -> length ts = j ->
  (forall i t, ts !! i = Some t -> exists e ds ps, get_struct_element r (idx + Z.of_nat i) = Ok e /\ t = CStruct ds ps /\ reads_struct e ds ps) ->
  forall ldt lpt, elements_are_canonical m check j idx r c d dt pt w = (Ok (Some (ldt, lpt)), w') ->
  exists h', heads w' !! d = Some h' /\ packed_elements m ts dn pn hc hd h' /\ Forall element_truncated ts /\
    Forall (struct_size_is (Z.to_nat dn) (Z.to_nat pn)) ts /\
    ldt = dt || existsb tight_data ts /\ lpt = pt || existsb tight_pointers ts.
Proof.
  intros Hr Hn Hcd Hds0 Hmod dn pn.
  induction j as [|j IH]; intros idx dt pt ts w w' hc hd -> Hidx Hk Hl Hc Hd Hlen Hts ldt lpt H; cbn [elements_are_canonical] in H.
  { injection H as <- <- <-. apply nil_length_inv in Hlen as ->. exists hd. cbn. rewrite !orb_false_r. by split_and!. }
  destruct ts as [|t ts]; [done|]. injection Hlen as Hlen.
  destruct (Hts 0%nat t eq_refl) as (e & ds & ps & He & -> & Hrs). rewrite Z.add_0_r in He.
  apply ST_bind_inv in H as (e' & s1 & He' & H). apply lift_inv in He' as [He' ->]. assert (e' = e) as -> by congruence.
  apply ST_bind_inv in H as ([[b dt'] pt'] & w1 & Hst & H). destruct b; [|done]. cbn [negb] in H.
  assert (Heok : sr_ok e).
  { destruct (get_struct_element_safe m true r idx Hr) as (x & Ex & Hx); [lia|]. congruence. }
  destruct (element_nesting _ _ _ He) as (Hnest & Hlow & Hsz & Hcnt).
  destruct (struct_packed e c d w w1 hc hd ds ps dt' pt' Heok) as (Hp & Hsize & Hdata & -> & -> & Htr & h1 & Hh1 & Hpk); try done; [lia|].
  rewrite decide_False in Hpk by done.
  pose proof (wp_returns _ _ _ _ _ _ (struct_safe m check n check_safe e c d hc w Heok ltac:(lia) Hl Hc (lookup_lt_Some _ _ _ Hd)) Hst) as [(Hl1 & _ & _) Hhc].
  specialize (Hhc eq_refl Hcd). rewrite Hsz, Hcnt in Hhc. fold dn pn in Hhc.
  destruct Hrs as (Ld & Lp & _). rewrite Hsz in Ld, Hsize. rewrite Hcnt in Lp. fold dn in Ld. fold pn in Lp.
  assert (Hptrs : sr_pointers e = hc + 8 * dn).
  { unfold get_struct_element in He. apply outcome_bind_ok in He as (? & _ & He). apply outcome_bind_ok in He as (? & _ & [= <-]).
    cbn in Hp |- *. rewrite Hp. unfold BITS_PER_BYTE, dn. zlia. }
  destruct (IH (idx + 1) (dt || tight is_zero_word ds) (pt || tight is_null_content ps) ts w1 w' (hc + (dn + pn) * 8) h1)
    with (ldt := ldt) (lpt := lpt) as (h' & Hh' & Hpe & Hte & Hse & -> & ->); try done; [lia|lia| |].
  { intros i u Hi. destruct (Hts (S i) u Hi) as (e2 & d2 & p2 & He2 & Hu). exists e2, d2, p2. split; [|done].
    by replace (idx + 1 + Z.of_nat i) with (idx + Z.of_nat (S i)) by lia. }
  exists h'. split; [done|]. split.
  { cbn [packed_elements]. split; [done|]. split; [done|]. split; [done|]. exists h1. rewrite <- Hptrs. split; [done|].
    by replace (hc + 8 * (dn + pn)) with (hc + (dn + pn) * 8) by lia. }
  split; [by constructor|]. split; [constructor; [cbn; lia|done]|]. cbn [existsb tight_data tight_pointers]. by rewrite !orb_assoc.
Qed.

Lemma empty_elements_packed ts q h : Forall (fun t => t = CStruct [] []) ts -> packed_elements m ts 0 0 q h h.
Proof.
  intros Hts. revert q. induction Hts as [|t ts -> Hts IH]; intros q; [done|]. cbn [packed_elements].
  split; [done|]. split; [done|]. split; [done|]. exists h. split; [done|apply IH].
Qed.

Lemma existsb_elem {A} (f : A -> bool) l : existsb f l = true -> exists x, x ∈ l /\ f x = true.
Proof. intros (x & Hx & Hf)%existsb_exists. exists x. split; [by apply list_elem_of_In|done]. Qed.

(** What reading a struct list says of its elements *)
Lemma structs_read fuel r l t l' : lr_ok r -> lr_element_size r = InlineComposite ->
  read_list m (read_content m fuel) r l = (Ok t, l') ->
  exists ts, t = CStructs ts /\ Z.of_nat (length ts) = lr_element_count r /\
    forall i u, ts !! i = Some u -> exists e ds ps, get_struct_element r (Z.of_nat i) = Ok e /\ u = CStruct ds ps /\ reads_struct e ds ps.
Proof.
  intros Hr Hes H. unfold read_list in H. rewrite Hes in H. apply ST_bind_inv in H as (ts & s1 & Hts & H). injection H as <- _.
  apply collect_inv in Hts as [Hlen Hts]. pose proof Hr as (Hc & _). exists ts. split; [done|]. split; [lia|].
  intros i u Hi. destruct (Hts i u Hi) as (s & s' & E). apply ST_bind_inv in E as (e & s2 & He & E). apply lift_inv in He as [He ->].
  rewrite Z.add_0_l in He. pose proof (lookup_lt_Some _ _ _ Hi).
  destruct (get_struct_element_safe m true r (Z.of_nat i) Hr) as (e' & He' & Hok); [lia|]. assert (e' = e) as -> by congruence.
  destruct (read_struct_inv _ _ _ _ _ Hok E) as (ds & ps & -> & Hrs). by exists e, ds, ps.
Qed.

Lemma composite_packed r c reff h w w' wd tag fuel l t l' :
  lr_ok r -> lr_nesting_limit r <= n -> limiter_ok (limiter w) -> heads w !! c = Some h ->
  lr_element_size r = InlineComposite -> load_wp m reff = Ok wd -> kind wd = List -> list_element_size wd = InlineComposite ->
  reff + 8 * (1 + signed_offset wd) + 8 = lr_ptr r -> load_wp m (reff + 8 * (1 + signed_offset wd)) = Ok tag -> kind tag = Struct ->
  lr_element_count r = inline_composite_list_element_count tag ->
  lr_struct_data_size r = struct_data_size tag * 64 -> lr_struct_pointer_count r = struct_ptr_count tag ->
  composite_is_canonical m check r c reff w = (Ok true, w') ->
  read_list m (read_content m fuel) r l = (Ok t, l') ->
  exists h', heads w' !! c = Some h' /\ packed m t reff h h' /\ truncated t.
Proof.
  intros Hr Hn Hl Hh Hes Hwd Hk Hwes Hat Htag Htk Hcnt Hds Hpc H Hread.
  destruct (structs_read _ _ _ _ _ Hr Hes Hread) as (ts & -> & Hlen & Hts).
  pose proof (struct_data_size_range tag). pose proof (struct_ptr_count_range tag). pose proof Hr as (Hcr & _).
  unfold composite_is_canonical in H. apply ST_bind_inv in H as (v & s1 & Hv & H). apply head_get_inv in Hv as [Hv ->].
  assert (v = h) as -> by congruence. cbv zeta in H. unfold BYTES_PER_WORD, BITS_PER_WORD in H.
  apply ST_bind_inv in H as ([] & w1 & Hset & H). injection Hset as <-. set (w1 := {| limiter := limiter w; heads := _ |}) in *.
  assert (Hc1 : heads w1 !! c = Some (h + 8)) by (apply list_lookup_insert_eq; by eapply lookup_lt_Some).
  destruct (Z.eqb_spec (lr_ptr r) (h + 8)) as [Hp|]; [|done]. cbn [negb] in H.
  destruct (Z.eqb_spec (lr_struct_data_size r mod 64) 0) as [Hmod|]; [|done]. cbn [negb] in H.
  assert (Hdn : lr_struct_data_size r / 64 = struct_data_size tag) by zlia.
  rewrite Hdn, Hpc in H. set (d := struct_data_size tag) in *. set (p := struct_ptr_count tag) in *.
  rewrite uadd_ok in H by lia. rewrite (lift_bind_ok _ _ _ _ eq_refl), Hwd, (lift_bind_ok _ _ _ _ eq_refl) in H.
  apply ST_bind_inv in H as (total & s1 & Htot & H). apply lift_inv in Htot as [Htot ->].
  unfold umul in Htot. destruct (_ <? _); [|done]. injection Htot as <-.
  destruct (Z.eqb_spec ((d + p) * lr_element_count r) (list_inline_composite_word_count wd)) as [Hwc|]; [|done]. cbn [negb] in H.
  assert (Hpk : forall d' p' h', d' = d -> p' = p -> (lr_element_count r = 0 -> d + p = 0) ->
    packed_elements m ts d p (h + 8) (h + 8 + 8 * (lr_element_count r * (d + p))) h' -> packed m (CStructs ts) reff h h').
  { intros d' p' h' -> -> Hz He. rewrite packed_structs. exists wd, tag, d, p. rewrite Hlen.
    split; [split; [done|]; split; [by eapply load_wp_range|]; split; [done|lia]|]. split; [done|].
    unfold list_inline_composite_word_count in Hwc. split; [lia|].
    replace h with (reff + 8 * (1 + signed_offset wd)) at 1 by lia. split; [done|]. split; [by eapply load_wp_range|].
    by split_and!. }
  destruct (Z.eqb_spec (d + p) 0) as [Hzero|Hnz].
  - injection H as <-. exists (h + 8). split; [done|].
    assert (d = 0 /\ p = 0) as [Hd0 Hp0] by lia.
    assert (Hall : Forall (fun t => t = CStruct [] []) ts).
    { apply Forall_lookup. intros i u Hi. destruct (Hts i u Hi) as (e & ds & ps & He & -> & Ld & Lp & _).
      destruct (element_nesting _ _ _ He) as (_ & _ & E1 & E2). rewrite E1, Hdn, Hd0 in Ld. rewrite E2, Hpc, Hp0 in Lp.
      by rewrite (nil_length_inv ds), (nil_length_inv ps) by lia. }
    split.
    + apply (Hpk d p); [done|done|done|]. rewrite Hzero, Z.mul_0_r, Z.add_0_r, Hd0, Hp0. by apply empty_elements_packed.
    + apply truncated_structs. split; [eapply Forall_impl; [exact Hall|intros u ->; by constructor]|].
      exists 0%nat, 0%nat. split; [eapply Forall_impl; [exact Hall|by intros u ->]|]. by split; left.
  - apply ST_bind_inv in H as (bytes & s1 & Hby & H). apply lift_inv in Hby as [Hby ->].
    unfold umul in Hby. destruct (_ <? _); [|done]. injection Hby as <-.
    apply ST_bind_inv in H as (pd & w2 & Hnew & H). injection Hnew as <- <-. fold w1 in H. set (w2 := {| limiter := limiter w1; heads := heads w1 ++ [h + 8 + (d + p) * lr_element_count r * 8] |}).
    set (pd := length (heads w1)). assert (Hcp : (c < pd)%nat) by by eapply lookup_lt_Some.
    assert (Hc2 : heads w2 !! c = Some (h + 8)) by (unfold w2; cbn [heads]; by rewrite lookup_app_l).
    assert (Hp2 : heads w2 !! pd = Some (h + 8 + (d + p) * lr_element_count r * 8)).
    { unfold w2; cbn [heads]. rewrite lookup_app_r by done. by replace (pd - length (heads w1))%nat with 0%nat by (unfold pd; lia). }
    apply ST_bind_inv in H as (o & w3 & Hel & H). destruct o as [[ldt lpt]|]; [|done].
    destruct (elements_packed r c pd (Z.to_nat (lr_element_count r)) Hr Hn ltac:(lia) ltac:(lia) Hmod (Z.to_nat (lr_element_count r)) 0 false false
      ts w2 w3 (h + 8) _ eq_refl ltac:(lia) ltac:(lia) Hl Hc2 Hp2 ltac:(lia)) with (ldt := ldt) (lpt := lpt)
      as (h' & Hh' & Hpe & Hte & Hse & Eldt & Elpt); [|exact Hel|].
    { intros i u Hi. rewrite Z.add_0_l. by apply Hts. }
    rewrite Hdn, Hpc in *. fold d p in Hpe, Hse. cbn [orb] in Eldt, Elpt.
    apply ST_bind_inv in H as (v & s1 & Hv' & H). apply head_get_inv in Hv' as [Hv' ->].
    apply ST_bind_inv in H as ([] & s1 & Has & H). apply lift_inv in Has as [_ ->].
    apply ST_bind_inv in H as (v' & s1 & Hv'' & H). apply head_get_inv in Hv'' as [Hv'' ->]. assert (v' = h') as -> by (change (heads w3 !! pd = Some v') in Hv''; congruence).
    apply ST_bind_inv in H as ([] & s1 & Hset & H). injection Hset as <-. injection H as Htr <-. cbn [heads].
    apply andb_prop in Htr as [-> ->]. exists h'. split.
    { apply list_lookup_insert_eq. by eapply lookup_lt_Some. }
    split.
    + apply (Hpk d p); [done|done| |].
      * intros Hz. destruct ts; [done|cbn in Hlen; lia].
      * by replace (h + 8 + 8 * (lr_element_count r * (d + p))) with (h + 8 + (d + p) * lr_element_count r * 8) by lia.
    + apply truncated_structs. split; [done|]. exists (Z.to_nat d), (Z.to_nat p). split; [done|].
      split; right; by apply existsb_elem.
Qed.

(** ** Lists of pointers *)

Lemma pointers_packed r c h w w' p wd fuel l t l' :
  lr_ok r -> shape_exact r -> lr_nesting_limit r <= n -> limiter_ok (limiter w) -> heads w !! c = Some h ->
  lr_element_size r = Pointer -> load_wp m p = Ok wd -> kind wd = List -> p + 8 * (1 + signed_offset wd) = lr_ptr r ->
  list_element_size wd = Pointer -> list_element_count wd = lr_element_count r ->
  pointers_are_canonical check r c w = (Ok true, w') ->
  read_list m (read_content m fuel) r l = (Ok t, l') ->
  exists h', heads w' !! c = Some h' /\ packed m t p h h' /\ truncated t.
Proof.
  intros Hr Hex Hn Hl Hh Hes Hwd Hk Hat Hwes Hcnt H Hread. pose proof Hr as (Hcr & Hnest & _).
  unfold shape_exact in Hex. rewrite Hes in Hex. cbn in Hex. destruct Hex as (Hstep & Hds & Hpc).
  unfold read_list in Hread. rewrite Hes in Hread. apply ST_bind_inv in Hread as (ts & s1 & Hts & Hread). injection Hread as <- _.
  apply collect_inv in Hts as [Hlen Hts].
  unfold pointers_are_canonical in H. apply ST_bind_inv in H as (v & s2 & Hv & H). apply head_get_inv in Hv as [Hv ->].
  assert (v = h) as -> by congruence. destruct (Z.eqb_spec (lr_ptr r) h) as [Hp|]; [|done]. cbn [negb] in H.
  apply ST_bind_inv in H as ([] & w1 & Hset & H). injection Hset as <-. set (w1 := {| limiter := limiter w; heads := _ |}) in *.
  unfold BYTES_PER_WORD in *.
  assert (Hc1 : heads w1 !! c = Some (h + lr_element_count r * 8)) by (apply list_lookup_insert_eq; by eapply lookup_lt_Some).
  set (elem := fun i => match get_pointer_element r i with Ok q => q | _ => PointerReader_new_default end).
  assert (Helem : forall i, 0 <= i < lr_element_count r -> get_pointer_element r i = Ok (elem i) /\ pr_ok (elem i) /\
    pr_nesting_limit (elem i) = lr_nesting_limit r /\ pr_pointer (elem i) = h + 8 * i).
  { intros i Hi. destruct (get_pointer_element_safe m true r i Hr Hi) as (q & E & Hq); [lia|]. unfold elem. rewrite E.
    split; [done|]. split; [done|]. unfold get_pointer_element in E. rewrite Hstep, Hds in E. unfold umul, uadd in E.
    destruct (_ <? _) in E; [|done]. cbn [bind outcome_monad] in E. destruct (_ <? _) in E; [|done]. injection E as <-. cbn.
    split; [done|]. rewrite Hp. unfold BITS_PER_BYTE. replace (0 / 8 + i * (0 + 64 * 1) / 8) with (8 * i) by zlia.
    unfold as_i64. destruct (Z.ltb_spec (8 * i) (2 ^ 63)); lia. }
  destruct (loop_packed (fun idx => q ← lift (get_pointer_element r idx); check q c) elem c h (Z.to_nat (lr_element_count r)))
    with (j := Z.to_nat (lr_element_count r)) (lo := 0) (ts := ts) (w := w1) (w' := w') (h := h + lr_element_count r * 8)
    as (h' & Hh' & Hpk & Htr); try done.
  - intros i s Hi. destruct (Helem i ltac:(lia)) as (E & _). by rewrite E.
  - intros i Hi. destruct (Helem i ltac:(lia)) as (_ & Hok & Hni & Hpi). split; [done|]. lia.
  - intros i u Hi. destruct (Hts i u Hi) as (s & s' & E). apply ST_bind_inv in E as (q & s2 & Hq & E). apply lift_inv in Hq as [Hq ->].
    pose proof (lookup_lt_Some _ _ _ Hi). destruct (Helem (0 + Z.of_nat i) ltac:(lia)) as (E' & _).
    assert (q = elem (0 + Z.of_nat i)) as -> by congruence. by eexists _, _, _.
  - exists h'. split; [done|]. rewrite packed_pointers, truncated_pointers. split; [|done]. exists wd.
    split; [split; [done|]; split; [by eapply load_wp_range|]; split; [done|congruence]|]. split; [done|].
    split; [lia|]. rewrite Z.mul_0_r, Z.add_0_r in Hpk. by replace (h + 8 * Z.of_nat (length ts)) with (h + lr_element_count r * 8) by lia.
Qed.

Lemma list_packed r c reff h w w' wd fuel l t l' :
  lr_ok r -> shape_exact r -> lr_nesting_limit r <= n -> limiter_ok (limiter w) -> heads w !! c = Some h ->
  load_wp m reff = Ok wd -> kind wd = List -> lr_element_size r = list_element_size wd ->
  (let at_ := reff + 8 * (1 + signed_offset wd) in
   if bool_decide (lr_element_size r = InlineComposite) then
     exists tag, load_wp m at_ = Ok tag /\ kind tag = Struct /\
       lr_ptr r = at_ + 8 /\ lr_element_count r = inline_composite_list_element_count tag /\
       lr_struct_data_size r = struct_data_size tag * 64 /\ lr_struct_pointer_count r = struct_ptr_count tag
   else lr_ptr r = at_ /\ lr_element_count r = list_element_count wd) ->
  list_is_canonical m check r c reff w = (Ok true, w') ->
  read_list m (read_content m fuel) r l = (Ok t, l') ->
  exists h', heads w' !! c = Some h' /\ packed m t reff h h' /\ truncated t.
Proof.
  intros Hr Hex Hn Hl Hh Hwd Hk Hes Hf H Hread. cbv zeta in Hf. unfold list_is_canonical in H.
  destruct (decide (lr_element_size r = InlineComposite)) as [E|E]; [rewrite bool_decide_true in Hf by done|rewrite bool_decide_false in Hf by done].
  - destruct Hf as (tag & Htag & Htk & Hp & Hc & Hd & Hpc). rewrite E in H. by eapply composite_packed with (tag := tag); try done; congruence.
  - destruct Hf as [Hp Hc]. destruct (decide (lr_element_size r = Pointer)) as [E'|E'].
    + rewrite E' in H. by eapply pointers_packed; try done; congruence.
    + eapply plain_packed; try done. by destruct (lr_element_size r).
Qed.
End recursive.

(** ** Pointers *)

Context (Hzero : zero_ok m).

Lemma null_word w : is_null w = true -> w = {| offset_and_kind := 0; upper32bits := 0 |}.
Proof. unfold is_null. intros [A B]%andb_prop. destruct w; cbn in *. f_equal; lia. Qed.

Lemma pointer_packed fuel : forall r c w w' h t, pr_ok r -> - 2 ^ 31 <= pr_nesting_limit r < 2 ^ 31 ->
  (Z.to_nat (pr_nesting_limit r) < fuel)%nat -> limiter_ok (limiter w) -> heads w !! c = Some h ->
  pointer_is_canonical m fuel r c w = (Ok true, w') -> reads r t ->
  exists h', heads w' !! c = Some h' /\ packed m t (pr_pointer r) h h' /\ truncated t.
Proof.
  induction fuel as [|fuel IH]; intros r c w w' h t Hr Hn Hf Hl Hh H (fuel' & l & l' & Hread); [done|].
  cbn [pointer_is_canonical] in H. destruct (Z.eqb_spec (pr_pointer r) 0) as [|Hne]; [done|].
  apply ST_bind_inv in H as (wd & s1 & Hwd & H). apply lift_inv in Hwd as [Hwd ->].
  destruct (is_positional wd) eqn:Hpos; [|done]. cbn [negb] in H.
  apply ST_bind_inv in H as (ty & w1 & Hty & H). apply reading_inv in Hty as (l1 & Hty & ->).
  pose proof (wp_returns _ _ _ _ _ _ (pointer_type_read m r (limiter w) Hr Hl) Hty) as Hl1.
  destruct fuel' as [|fuel']; [done|]. cbn [read_content] in Hread. apply ST_bind_inv in Hread as (ty' & l2 & Hty' & Hread).
  destruct (is_null wd) eqn:Hnull.
  - rewrite (proj2 (type_null m r wd Hne Hwd _ _ _ Hty) Hnull) in H. injection H as <-.
    rewrite (proj2 (type_null m r wd Hne Hwd _ _ _ Hty') Hnull) in Hread. injection Hread as <- _.
    exists h. split; [done|]. split; [|done]. split; [|done]. by rewrite Hwd, (null_word wd).
  - assert (Hrec : 0 < pr_nesting_limit r -> forall r' c w w' h t, pr_ok r' -> - 2 ^ 31 <= pr_nesting_limit r' <= pr_nesting_limit r - 1 ->
      limiter_ok (limiter w) -> heads w !! c = Some h -> pointer_is_canonical m fuel r' c w = (Ok true, w') -> reads r' t ->
      exists h', heads w' !! c = Some h' /\ packed m t (pr_pointer r') h h' /\ truncated t).
    { intros Hp r' c' v v' h1 t' Ho Hn' Hl' Hh' Hc' Ht'. eapply IH; try done; lia. }
    assert (Hsafe : 0 < pr_nesting_limit r -> forall r' c w, pr_ok r' -> - 2 ^ 31 <= pr_nesting_limit r' <= pr_nesting_limit r - 1 ->
      limiter_ok (limiter w) -> (c < length (heads w))%nat ->
      wp (pointer_is_canonical m fuel r' c) (fun _ w' => advances c w w') walk_error w).
    { intros Hp r' c' v Ho Hn' Hl' Hc'. apply (pointer_check_safe m Hzero); (done || lia). }
    destruct (type_found m r wd Hr Hne Hwd Hpos Hnull _ _ _ Hty) as [[-> Hk]|[-> Hk]].
    + destruct (type_found m r wd Hr Hne Hwd Hpos Hnull _ _ _ Hty') as [[-> _]|[_ Hk']]; [|congruence].
      apply ST_bind_inv in H as (s & w1 & Hs & H). apply reading_inv in Hs as (l3 & Hs & ->). cbn [limiter heads] in *.
      apply ST_bind_inv in Hread as (s' & l4 & Hs' & Hread).
      pose proof (wp_returns _ _ _ _ _ _ (struct_read m Hzero r l1 Hr Hl1 ltac:(lia)) Hs) as (Hl3 & Hok & Hnest).
      destruct (struct_found m r wd Hr Hne Hwd Hpos Hnull _ _ _ Hs) as [_ Es].
      destruct (struct_found m r wd Hr Hne Hwd Hpos Hnull _ _ _ Hs') as [_ Es']. assert (s' = s) as -> by congruence.
      destruct (read_struct_inv _ _ _ _ _ Hok Hread) as (ds & ps & -> & Hrs). pose proof Hrs as (Ld & Lp & _).
      assert (Hfields : sr_data s = found_at r wd /\ sr_pointers s = found_at r wd + 8 * struct_data_size wd /\
        sr_data_size s = 64 * struct_data_size wd /\ sr_pointer_count s = struct_ptr_count wd).
      { rewrite Es. cbn. unfold BYTES_PER_WORD, BITS_PER_WORD. lia. }
      destruct Hfields as (Fd & Fp & Fs & Fc).
      assert (Hds : struct_data_size wd = Z.of_nat (length ds)) by zlia. rewrite Fc in Lp.
      destruct ((sr_data_size s =? 0) && (sr_pointer_count s =? 0)) eqn:Hempty.
      * apply andb_prop in Hempty as [H1%Z.eqb_eq H2%Z.eqb_eq]. injection H as Hat <-. apply Z.eqb_eq in Hat. cbn [heads].
        assert (ds = []) as -> by (apply nil_length_inv; lia). assert (ps = []) as -> by (apply nil_length_inv; lia). exists h. split; [done|]. rewrite packed_struct, truncated_struct.
        split; [|by split_and!]. exists wd. cbn [length]. change (Z.of_nat 0) with 0 in *.
        split; [rewrite Z.eqb_refl; split; [done|]; split; [by eapply load_wp_range|]; split; [done|]; unfold found_at in Fd; lia|].
        split; [done|]. split; [done|]. split; [done|]. cbn. lia.
      * apply ST_bind_inv in H as ([[b dt] pt] & w2 & Hst & H). injection H as Hb <-.
        apply andb_prop in Hb as [[-> ->]%andb_prop ->].
        assert (Hpos' : 0 < pr_nesting_limit r \/ sr_pointer_count s = 0) by (destruct Hnest as [|[_ ?]]; auto).
        assert (Hall : sr_data s = h /\ sr_data_size s = 64 * Z.of_nat (length ds) /\ data_at m h ds /\
          true = tight is_zero_word ds /\ true = tight is_null_content ps /\ Forall truncated ps /\
          exists h', heads w2 !! c = Some h' /\
            packed_list m ps (sr_pointers s) (if decide (c = c) then h + 8 * (Z.of_nat (length ds) + Z.of_nat (length ps)) else h) h').
        { destruct Hpos' as [Hp|Hp].
          - eapply (struct_packed _ (pr_nesting_limit r - 1) (Hsafe Hp) (Hrec Hp)) with (w := {| limiter := l3; heads := heads w |});
              try done. lia.
          - eapply (struct_packed (pointer_is_canonical m fuel) (- 2 ^ 31 - 1)) with (w := {| limiter := l3; heads := heads w |});
              try done; [intros; lia..|]. lia. }
        destruct Hall as (Hat & _ & Hdata & Htd & Htp & Htr & h' & Hh' & Hpk). rewrite decide_True in Hpk by done.
        exists h'. split; [done|]. rewrite packed_struct, truncated_struct. split; [|by split_and!].
        exists wd. rewrite <- Hds, Lp. rewrite Fs, Fc in Hempty.
        destruct (Z.eqb_spec (struct_data_size wd + struct_ptr_count wd) 0) as [E|E].
        { exfalso. pose proof (struct_data_size_range wd). pose proof (struct_ptr_count_range wd).
          destruct (Z.eqb_spec (64 * struct_data_size wd) 0), (Z.eqb_spec (struct_ptr_count wd) 0); try done; lia. }
        split; [split; [done|]; split; [by eapply load_wp_range|]; split; [done|]; unfold found_at in Fd; lia|].
        split; [done|]. split; [done|]. split; [done|]. rewrite <- Lp at 1. rewrite Hds in Fp |- *. rewrite Fp, <- Fd, Hat in Hpk. by rewrite Lp in Hpk |- *.
    + destruct (type_found m r wd Hr Hne Hwd Hpos Hnull _ _ _ Hty') as [[_ Hk']|[-> _]]; [congruence|].
      apply ST_bind_inv in H as (s & w1 & Hs & H). apply reading_inv in Hs as (l3 & Hs & ->). cbn [limiter heads] in *.
      apply ST_bind_inv in Hread as (s' & l4 & Hs' & Hread).
      assert (s' = s) as -> by (eapply list_determined; eassumption).
      pose proof (wp_returns _ _ _ _ _ _ (list_read m r wd l1 Hr Hne Hwd Hnull Hl1 ltac:(lia)) Hs) as (Hl3 & Hok & Hnest & Hp).
      pose proof (any_list_exact _ _ _ _ _ Hs) as Hex.
      destruct (list_found m r wd Hr Hne Hwd Hpos Hnull _ _ _ Hs) as (_ & Hes & Hfields). rewrite <- Hes in Hfields.
      eapply (list_packed _ (pr_nesting_limit r - 1) (Hsafe Hp) (Hrec Hp)) with (w := {| limiter := l3; heads := heads w |});
        try done; try lia.
Qed.
End packed.
