(* ===== verification/CanonicalProps.v ===== *)
(** * What holds of canonical messages *)

From S2P Require Import Prelude Mem ReadLimiter Segments WirePointer Arena Readers ReadersSafe.
From S2P Require Import ReadingProps Canonical CanonicalSafe.
From S2P Require Import CanonicalForm CanonicalPacked.
From stdpp Require Import list.
#[local] Open Scope Z_scope.
#[local] Open Scope rust_scope.
Import Canonical CanonicalForm.

(** C10: Checking an untrusted message for canonical form returns a boolean or
    an error, whatever its bytes: it reads only its segments, the assertion
    that a struct list ends where its elements do holds, and it ends within
    the nesting limit. *)
Theorem canonical_check_safe (m : mem) (a : ReaderArenaImpl (list SliceAt)) (l : ReadLimiter) :
  zero_ok m -> laid_out m (arena_segments a) -> - 2 ^ 31 <= arena_nesting_limit a < 2 ^ 31 -> limiter_ok l ->
  match is_canonical m (impl_arena a) l with
  | (Ok _, l') | (Err _, l') => limiter_ok l'
  | _ => False
  end.
Proof.
  intros Hz Hlay Hn Hl. pose proof (impl_arena_ok m a Hlay) as Har. unfold is_canonical.
  assert (H0 : u32 0) by (unfold u32, in_width; lia).
  pose proof (get_segment_law 0 H0) as Hseg.
  destruct (arena_get_segment (impl_arena a) 0) as [[start len]| | | |]; try done.
  destruct (is_ok _); [done|]. destruct Hseg as (Hs & Hal & Hlen & _ & Hb).
  match goal with |- context [(bind ?c ?k) ?w] => set (run := bind c k); set (w0 := w) end.
  assert (Hrun : wp run (fun _ w' => limiter_ok (limiter w')) walk_error w0).
  { unfold run. wp_step. apply wp_reading. unfold PointerReader_get_root. wp_step.
    apply (bounds_check_wp m true (impl_arena a)); [done|exact Hl| |lia| |intros; exact Hl].
    { unfold location_ok. repeat split; try done; lia. }
    intros l' Hw Hp. assert (Hl' : limiter_ok l') by apply Hp. apply wp_ret. wp_step. apply wp_new_head.
    cbn [heads limiter length app w0]. wp_step.
    set (r := {| pr_arena := _; pr_segment_id := _ |}). set (w1 := {| limiter := _; heads := _ |}).
    assert (Hr : pr_ok m true r) by (right; by split_and!).
    eapply wp_mono; [apply (pointer_check_safe m Hz _ r 0%nat w1 Hr)| |done].
    - exact Hn.
    - unfold nesting_fuel. lia.
    - exact Hl'.
    - cbn. lia.
    - intros b w2 (Hl2 & L2 & _). cbn [w1 heads length] in L2.
      assert (is_Some (heads w2 !! 0%nat)) as [v Hv] by (apply lookup_lt_is_Some; lia).
      wp_step. apply (wp_head_get _ v); [done|]. by apply wp_ret. }
  unfold wp in Hrun. by destruct (run w0) as [[] w'].
Qed.

Lemma canonical_check_safe_witness :
  zero_ok example_mem /\
  match is_canonical example_mem (impl_arena example_arena) example_limiter with
  | (Ok _, l') | (Err _, l') => limiter_ok l'
  | _ => False
  end.
Proof.
  split; [apply example_zero|].
  apply (canonical_check_safe example_mem example_arena example_limiter example_zero example_laid_out);
    [cbn; lia|exact example_limiter_ok].
Defined.

Example example_is_canonical : fst (is_canonical example_mem (impl_arena example_arena) example_limiter) = Ok true.
Proof. vm_compute. reflexivity. Qed.

(** ** The canonical form is unique *)

(** A client that follows the root pointer and reads everything finds [t]. *)
Definition root_reads (m : mem) (arena : ReaderArena) (t : Content) : Prop :=
  exists fuel l l', (r ← get_root_from_arena arena; read_content m fuel r) l = (Ok t, l').

Lemma canonical_packed (m : mem) (a : ReaderArenaImpl (list SliceAt)) l l' t :
  zero_ok m -> laid_out m (arena_segments a) -> - 2 ^ 31 <= arena_nesting_limit a < 2 ^ 31 -> limiter_ok l ->
  is_canonical m (impl_arena a) l = (Ok true, l') -> root_reads m (impl_arena a) t ->
  exists start len h', arena_get_segment (impl_arena a) 0 = Ok (start, len) /\ (h' - start) / 8 = len /\
    packed m t start (start + 8) h' /\ truncated t.
Proof.
  intros Hz Hlay Hn Hl Hcan (fuel & lr & lr' & Hread). pose proof (impl_arena_ok m a Hlay) as Har. unfold is_canonical in Hcan.
  assert (H0 : u32 0) by (unfold u32, in_width; lia). pose proof (get_segment_law 0 H0) as Hseg.
  unfold get_root_from_arena in Hread.
  destruct (arena_get_segment (impl_arena a) 0) as [[start len]| | | |] eqn:Hget; try done.
  destruct (is_ok _); [done|]. destruct Hseg as (Hs & Hal & Hlen & Haddr & Hb).
  match type of Hcan with context [(bind ?c ?k) ?w] => set (run := bind c k) in Hcan; set (w0 := w) in Hcan end.
  destruct (run w0) as [o w'] eqn:Hrun. injection Hcan as -> <-. unfold run in Hrun. clear run.
  set (r := {| pr_arena := impl_arena a; pr_segment_id := 0; pr_cap_table := 0; pr_pointer := start;
               pr_nesting_limit := get_nesting_limit (impl_arena a) |}).
  apply ST_bind_inv in Hread as (r' & l2 & Hroot & Hread).
  rewrite (lift_bind_ok _ _ _ _ eq_refl) in Hroot.
  assert (r' = r) as ->.
  { unfold PointerReader_get_root in Hroot. apply ST_bind_inv in Hroot as ([] & l3 & _ & Hroot). by injection Hroot as <- _. }
  apply ST_bind_inv in Hrun as (q & w1 & Hq & Hrun). apply reading_inv in Hq as (l3 & Hq & ->).
  unfold PointerReader_get_root in Hq. apply ST_bind_inv in Hq as ([] & l4 & Hbc & Hq). injection Hq as <- <-. fold r in Hrun.
  assert (Hstart : location_ok start) by (repeat split; try done; lia).
  pose proof (wp_returns _ _ (fun _ _ => True) _ _ _
    (bounds_check_wp m true (impl_arena a) 0 start 1 Struct l (fun _ l' => words_ok m start 1 /\ limiter_ok l') (fun _ _ => True)
      H0 Hl Hstart ltac:(lia) (fun l' Hw Hp => conj Hw (proj1 Hp)) (fun _ => I)) Hbc) as [Hw Hl4].
  apply ST_bind_inv in Hrun as (c & w1 & Hnew & Hrun). injection Hnew as <- <-. cbn [limiter heads length app w0] in Hrun.
  apply ST_bind_inv in Hrun as (b & w1 & Hchk & Hrun). apply ST_bind_inv in Hrun as (h & w2 & Hh & Hrun).
  apply head_get_inv in Hh as [Hh ->]. injection Hrun as Hb' <-. apply andb_prop in Hb' as [-> Hwords%Z.eqb_eq].
  assert (Hr : pr_ok m true r) by (right; by split_and!).
  destruct (pointer_packed m Hz _ r 0%nat _ w1 (start + 8) t Hr Hn (Nat.lt_succ_diag_r _)
    (Hl4 : limiter_ok (limiter {| limiter := l4; heads := [start + 8] |})) eq_refl Hchk) as (h' & Hh' & Hp & Ht).
  { by exists fuel, l2, lr'. }
  exists start, len, h'. assert (h' = h) as -> by congruence. done.
Qed.

(** C11: The canonical form of a message is unique: two messages that pass the
    check and from which a client reads the same content, up to the zeroes at
    the end of structs that a reader cannot tell from absent fields, are the
    same sequence of bytes, wherever their segments lie. *)
Theorem canonical_unique m1 (a1 : ReaderArenaImpl (list SliceAt)) l1 l1' t1 m2 (a2 : ReaderArenaImpl (list SliceAt)) l2 l2' t2 :
  zero_ok m1 -> laid_out m1 (arena_segments a1) -> - 2 ^ 31 <= arena_nesting_limit a1 < 2 ^ 31 -> limiter_ok l1 ->
  zero_ok m2 -> laid_out m2 (arena_segments a2) -> - 2 ^ 31 <= arena_nesting_limit a2 < 2 ^ 31 -> limiter_ok l2 ->
  is_canonical m1 (impl_arena a1) l1 = (Ok true, l1') -> root_reads m1 (impl_arena a1) t1 ->
  is_canonical m2 (impl_arena a2) l2 = (Ok true, l2') -> root_reads m2 (impl_arena a2) t2 ->
  trim t1 = trim t2 ->
  exists start1 start2 len, arena_get_segment (impl_arena a1) 0 = Ok (start1, len) /\
    arena_get_segment (impl_arena a2) 0 = Ok (start2, len) /\ same_mem m1 start1 m2 start2 (8 * len).
Proof.
  intros Z1 L1 N1 Li1 Z2 L2 N2 Li2 C1 R1 C2 R2 Ht.
  destruct (canonical_packed m1 a1 l1 l1' t1 Z1 L1 N1 Li1 C1 R1) as (s1 & len1 & h1 & G1 & E1 & P1 & T1).
  destruct (canonical_packed m2 a2 l2 l2' t2 Z2 L2 N2 Li2 C2 R2) as (s2 & len2 & h2 & G2 & E2 & P2 & T2).
  assert (t2 = t1) as -> by (symmetry; by apply trim_inj).
  destruct (proj1 (packed_same t1) _ _ _ _ _ _ _ _ P1 P2 ltac:(lia)) as (He & Hle & Hw & Hr).
  assert (Hh : h1 - s1 = h2 - s2) by lia. rewrite Hh in E1.
  exists s1, s2, len1. split; [done|]. split; [by rewrite G2, <- E1, E2|].
  intros i Hi. destruct (Z.lt_ge_cases i 8) as [|H8]; [apply Hw; lia|].
  specialize (Hr (i - 8)). replace (s1 + 8 + (i - 8)) with (s1 + i) in Hr by lia.
  replace (s2 + 8 + (i - 8)) with (s2 + i) in Hr by lia. apply Hr. zlia.
Qed.

(** The same words elsewhere in memory *)
Definition moved_arena : ReaderArenaImpl (list SliceAt) :=
  ReaderArenaImpl_new [{| as_ptr := 8192; slice_bytes := bytes_of_words example_words |}] DEFAULT_READER_OPTIONS.
Definition moved_mem : mem :=
  write_bytes (write_bytes ∅ zero_pointer (repeat Byte.x00 8)) 8192 (bytes_of_words example_words).
Definition example_content : Content := CStruct [42] [CBytes Byte 3 [Byte.x68; Byte.x69; Byte.x00]].

Lemma canonical_unique_witness :
  trim example_content = trim example_content /\
  exists start1 start2 len, arena_get_segment (impl_arena example_arena) 0 = Ok (start1, len) /\
    arena_get_segment (impl_arena moved_arena) 0 = Ok (start2, len) /\ same_mem example_mem start1 moved_mem start2 (8 * len).
Proof.
  split; [done|].
  eapply (canonical_unique example_mem example_arena (read_limiter example_arena) _ example_content
    moved_mem moved_arena (read_limiter moved_arena) _ example_content).
  - apply example_zero.
  - apply example_laid_out.
  - by vm_compute.
  - exact example_limiter_ok.
  - split; [|reflexivity]. unfold words_ok, addressable, zero_pointer. repeat split; try lia.
    apply (proj1 (valid_nat_iff moved_mem 8 8)). reflexivity.
  - intros i s Hi. destruct i as [|i]; [|done]. injection Hi as <-. vm_compute. repeat split; done.
  - by vm_compute.
  - exact example_limiter_ok.
  - vm_compute. reflexivity.
  - exists 70%nat, (read_limiter example_arena). eexists. vm_compute. reflexivity.
  - vm_compute. reflexivity.
  - exists 70%nat, (read_limiter moved_arena). eexists. vm_compute. reflexivity.
  - reflexivity.
Defined.
