(* ===== verification/Introspect.v ===== *)
(** * Run-time types (capnp/src/introspect.rs)

    A struct type refers to static data and functions that the code generator
    emits: a function pointer and the address of a static are numbers here,
    and what is behind them is the class [GeneratedCode]. *)

From S2P Require Import Prelude Mem WirePointer Arena.
#[local] Open Scope Z_scope.
#[local] Open Scope rust_scope.

Module Introspect.

(** [generic] is the address of a [RawStructSchema]. *)
Record RawBrandedStructSchema := { generic : Z; field_types : Z; annotation_types : Z }.
Record RawEnumSchema := { encoded_node : Z; enum_annotation_types : Z }.

#[export] Instance RawBrandedStructSchema_eq_dec : EqDecision RawBrandedStructSchema.
Proof. solve_decision. Defined.

(** [PartialEq for RawEnumSchema] *)
Definition RawEnumSchema_eq (a b : RawEnumSchema) : bool := encoded_node a =? encoded_node b.

Inductive BaseType :=
| BT_Void | BT_Bool
| BT_Int8 | BT_Int16 | BT_Int32 | BT_Int64
| BT_UInt8 | BT_UInt16 | BT_UInt32 | BT_UInt64
| BT_Float32 | BT_Float64
| BT_Text | BT_Data
| BT_Struct (rbs : RawBrandedStructSchema)
| BT_AnyPointer | BT_Capability
| BT_Enum (re : RawEnumSchema).

(** [struct Type] *)
Record Ty := { base : BaseType; list_count : Z }.

Inductive TypeVariant :=
| TV_Void | TV_Bool
| TV_Int8 | TV_Int16 | TV_Int32 | TV_Int64
| TV_UInt8 | TV_UInt16 | TV_UInt32 | TV_UInt64
| TV_Float32 | TV_Float64
| TV_Text | TV_Data
| TV_Struct (rbs : RawBrandedStructSchema)
| TV_AnyPointer | TV_Capability
| TV_Enum (es : RawEnumSchema)
| TV_List (element : Ty).

Definition new_base (b : BaseType) : Ty := {| base := b; list_count := 0 |}.
Definition list_of (element_type : Ty) : outcome Ty :=
  n ← uadd 64 (list_count element_type) 1;
  Ok {| base := base element_type; list_count := n |}.

Definition which (t : Ty) : TypeVariant :=
  if 0 <? list_count t then TV_List {| base := base t; list_count := list_count t - 1 |}
  else
    match base t with
    | BT_Void => TV_Void
    | BT_Bool => TV_Bool
    | BT_Int8 => TV_Int8
    | BT_Int16 => TV_Int16
    | BT_Int32 => TV_Int32
    | BT_Int64 => TV_Int64
    | BT_UInt8 => TV_UInt8
    | BT_UInt16 => TV_UInt16
    | BT_UInt32 => TV_UInt32
    | BT_UInt64 => TV_UInt64
    | BT_Float32 => TV_Float32
    | BT_Float64 => TV_Float64
    | BT_Text => TV_Text
    | BT_Data => TV_Data
    | BT_Enum re => TV_Enum re
    | BT_Struct rs => TV_Struct rs
    | BT_AnyPointer => TV_AnyPointer
    | BT_Capability => TV_Capability
    end.

Definition expected_element_size (t : Ty) : ElementSize :=
  if 0 <? list_count t then Pointer
  else
    match base t with
    | BT_Void => Void
    | BT_Bool => Bit
    | BT_Int8 | BT_UInt8 => Byte
    | BT_Int16 | BT_UInt16 | BT_Enum _ => TwoBytes
    | BT_Int32 | BT_UInt32 | BT_Float32 => FourBytes
    | BT_Int64 | BT_UInt64 | BT_Float64 => EightBytes
    | BT_Text | BT_Data | BT_AnyPointer | BT_Capability => Pointer
    | BT_Struct _ => InlineComposite
    end.

Definition is_pointer_type (t : Ty) : bool :=
  if 0 <? list_count t then true
  else
    match base t with
    | BT_Text | BT_Data | BT_AnyPointer | BT_Struct _ | BT_Capability => true
    | _ => false
    end.

(** [loose_equals] calls itself on the elements of two lists. *)
Fixpoint loose_equals_fuel (fuel : nat) (self other : Ty) : bool :=
  match which self, which other with
  | TV_Void, TV_Void => true
  | TV_UInt8, TV_UInt8 => true
  | TV_UInt16, TV_UInt16 => true
  | TV_UInt32, TV_UInt32 => true
  | TV_UInt64, TV_UInt64 => true
  | TV_Int8, TV_Int8 => true
  | TV_Int16, TV_Int16 => true
  | TV_Int32, TV_Int32 => true
  | TV_Int64, TV_Int64 => true
  | TV_Float32, TV_Float32 => true
  | TV_Float64, TV_Float64 => true
  | TV_Text, TV_Text => true
  | TV_Data, TV_Data => true
  | TV_Enum es1, TV_Enum es2 => RawEnumSchema_eq es1 es2
  | TV_Struct rbs1, TV_Struct rbs2 => generic rbs1 =? generic rbs2
  | TV_List element1, TV_List element2 =>
      match fuel with
      | O => false
      | S fuel => loose_equals_fuel fuel element1 element2
      end
  | TV_AnyPointer, TV_AnyPointer => true
  | TV_Capability, TV_Capability => true
  | _, _ => false
  end.
Definition loose_equals (self other : Ty) : bool :=
  loose_equals_fuel (Z.to_nat (list_count self)) self other.

(** [From<TypeVariant> for Type] *)
Definition type_from (tv : TypeVariant) : outcome Ty :=
  match tv with
  | TV_Void => Ok (new_base BT_Void)
  | TV_Bool => Ok (new_base BT_Bool)
  | TV_Int8 => Ok (new_base BT_Int8)
  | TV_Int16 => Ok (new_base BT_Int16)
  | TV_Int32 => Ok (new_base BT_Int32)
  | TV_Int64 => Ok (new_base BT_Int64)
  | TV_UInt8 => Ok (new_base BT_UInt8)
  | TV_UInt16 => Ok (new_base BT_UInt16)
  | TV_UInt32 => Ok (new_base BT_UInt32)
  | TV_UInt64 => Ok (new_base BT_UInt64)
  | TV_Float32 => Ok (new_base BT_Float32)
  | TV_Float64 => Ok (new_base BT_Float64)
  | TV_Text => Ok (new_base BT_Text)
  | TV_Data => Ok (new_base BT_Data)
  | TV_Struct rbs => Ok (new_base (BT_Struct rbs))
  | TV_AnyPointer => Ok (new_base BT_AnyPointer)
  | TV_Capability => Ok (new_base BT_Capability)
  | TV_Enum es => Ok (new_base (BT_Enum es))
  | TV_List list => list_of list
  end.

(** Statics emitted by the code generator *)
Record RawStructSchema := {
  arena : GeneratedCodeArena;
  nonunion_members : list Z;
  members_by_discriminant : list Z;
  members_by_name : list Z
}.

(** What the function pointers and statics of generated code are: the
    functions panic when an index is out of range. *)
Class GeneratedCode := {
  raw_struct_schema : Z -> RawStructSchema;
  call_field_types : Z -> Z -> outcome Ty;
  call_annotation_types : Z -> option Z -> Z -> outcome Ty
}.

(** ** Facts *)

Definition type_ok (t : Ty) : Prop := u64 (list_count t).

Lemma which_list t element : which t = TV_List element ->
  0 < list_count t /\ base element = base t /\ list_count element = list_count t - 1.
Proof. unfold which. destruct (Z.ltb_spec 0 (list_count t)); [by intros [= <-]|by destruct (base t)]. Qed.

Lemma which_base t : list_count t = 0 -> forall element, which t <> TV_List element.
Proof. intros H element E. apply which_list in E. lia. Qed.

Lemma which_positive b n : 0 < n -> which {| base := b; list_count := n |} = TV_List {| base := b; list_count := n - 1 |}.
Proof. intros H. unfold which. cbn [list_count base]. by rewrite (proj2 (Z.ltb_lt _ _) H). Qed.

(** Folding a type and unfolding it again *)
Lemma type_from_which t : type_ok t -> type_from (which t) = Ok t.
Proof.
  unfold type_ok, u64, in_width. intros Ht. destruct t as [b n]. cbn [list_count] in Ht. unfold which. cbn [list_count base].
  destruct (Z.ltb_spec 0 n).
  - cbn [type_from]. unfold list_of. cbn [list_count base]. rewrite uadd_ok by lia. cbn. do 2 f_equal. lia.
  - assert (n = 0) as -> by lia. by destruct b.
Qed.

Lemma which_from tv : (forall t, tv = TV_List t -> type_ok t /\ list_count t < 2 ^ 64 - 1) ->
  exists t, type_from tv = Ok t /\ which t = tv.
Proof.
  intros H. destruct tv; try (eexists; split; [reflexivity|reflexivity]).
  destruct (H _ eq_refl) as [Ht Hlt]. unfold type_ok, u64, in_width in Ht. unfold type_from, list_of. rewrite uadd_ok by lia.
  eexists; split; [reflexivity|]. unfold which. cbn [list_count base]. rewrite (proj2 (Z.ltb_lt _ _)) by lia.
  destruct element; cbn. do 2 f_equal. lia.
Qed.

(** The element of a list is stored as a pointer unless it is a plain value
    or a struct; the two views of a type agree. *)
Lemma pointer_elements t : is_pointer_type t = true -> expected_element_size t = Pointer \/ exists rs, which t = TV_Struct rs.
Proof.
  unfold is_pointer_type, expected_element_size, which. destruct (0 <? list_count t); [by left|].
  destruct (base t); try done; eauto.
Qed.

(** [loose_equals] compares the number of [List] around the base types, and
    the base types; but it has no case for two [Bool]s. *)
Definition base_loose_equals (a b : BaseType) : bool := loose_equals (new_base a) (new_base b).

Lemma loose_equals_lists t1 t2 : type_ok t1 -> type_ok t2 ->
  loose_equals t1 t2 = (list_count t1 =? list_count t2) && base_loose_equals (base t1) (base t2).
Proof.
  unfold loose_equals. remember (Z.to_nat (list_count t1)) as k eqn:Hk. revert t1 t2 Hk.
  induction k as [|k IH]; intros [b1 n1] [b2 n2] Hk H1 H2; unfold type_ok, u64, in_width in *; cbn [list_count base] in *.
  - assert (n1 = 0) as -> by lia. destruct (Z.eqb_spec 0 n2) as [<-|Hne].
    + reflexivity.
    + cbn [loose_equals_fuel]. rewrite (which_positive b2 n2) by lia. by destruct b1.
  - cbn [loose_equals_fuel]. rewrite (which_positive b1 n1) by lia.
    destruct (Z.ltb_spec 0 n2).
    + rewrite (which_positive b2 n2) by lia. rewrite IH by (cbn; lia). cbn [list_count base]. f_equal.
      destruct (Z.eqb_spec (n1 - 1) (n2 - 1)), (Z.eqb_spec n1 n2); (done || (exfalso; lia)).
    + assert (n2 = 0) as -> by lia. rewrite (proj2 (Z.eqb_neq n1 0)) by lia. by destruct b2.
Qed.

Lemma base_loose_equals_refl b : base_loose_equals b b = negb (match b with BT_Bool => true | _ => false end).
Proof. destruct b; unfold base_loose_equals; try reflexivity; cbn; apply Z.eqb_refl. Qed.

(** So every type equals itself except [Bool] and lists of it. *)
Lemma loose_equals_refl t : type_ok t -> loose_equals t t = negb (match base t with BT_Bool => true | _ => false end).
Proof. intros H. rewrite loose_equals_lists by done. by rewrite Z.eqb_refl, base_loose_equals_refl. Qed.

End Introspect.
