(* ===== verification/ListIter.v ===== *)
(** * Iteration over lists (capnp/src/traits.rs)

    [ListIter] and [ShortListIter] differ in the width of their indices. *)

From S2P Require Import Prelude.
From stdpp Require Import list.
#[local] Open Scope Z_scope.
#[local] Open Scope rust_scope.

Module ListIter.

Record Iter (T : Type) := { it_list : T; it_index : Z; it_size : Z }.
Arguments it_list {T}. Arguments it_index {T}. Arguments it_size {T}.
Arguments Build_Iter {T}.

Definition new {T} (l : T) (size : Z) : Iter T := {| it_list := l; it_index := 0; it_size := size |}.

Section iter.
Context {T U St : Type} (w : Z) (index_move : T -> Z -> ST St U).

Definition set_index (i : Z) (it : Iter T) : Iter T :=
  {| it_list := it_list it; it_index := i; it_size := it_size it |}.
Definition set_size (n : Z) (it : Iter T) : Iter T :=
  {| it_list := it_list it; it_index := it_index it; it_size := n |}.

Definition next (it : Iter T) : ST St (option U * Iter T) :=
  if it_index it <? it_size it then
    result ← index_move (it_list it) (it_index it);
    index ← lift (uadd w (it_index it) 1);
    ret (Some result, set_index index it)
  else ret (None, it).

(** The bounds of [Iterator::size_hint] *)
Definition size_hint (it : Iter T) : Z * option Z := (it_size it, Some (it_size it)).

Definition nth (it : Iter T) (p : Z) : ST St (option U * Iter T) :=
  i ← lift (uadd w (it_index it) (wrap w p));
  if i <? it_size it then
    result ← index_move (it_list it) i;
    index ← lift (uadd w i 1);
    ret (Some result, set_index index it)
  else ret (None, set_index (it_size it) it).

(** [ExactSizeIterator::len] *)
Definition len (it : Iter T) : outcome Z := usub (it_size it) (it_index it).

Definition next_back (it : Iter T) : ST St (option U * Iter T) :=
  if it_index it <? it_size it then
    let size := it_size it - 1 in
    result ← index_move (it_list it) size;
    ret (Some result, set_size size it)
  else ret (None, it).

(** [for x in iter { .. }]: everything [next] gives *)
Fixpoint collect (fuel : nat) (it : Iter T) : ST St (list U) :=
  match fuel with
  | O => lift OutOfFuel
  | S fuel =>
      '(r, it) ← next it;
      match r with
      | None => ret []
      | Some x => xs ← collect fuel it; ret (x :: xs)
      end
  end.

(** ** Taking from both ends *)

Inductive End := Front | Back.
Definition take (e : End) : Iter T -> ST St (option U * Iter T) := match e with Front => next | Back => next_back end.

(** A schedule of calls: what [next] gave, what [next_back] gave. *)
Fixpoint run (es : list End) (it : Iter T) : ST St (list U * list U * Iter T) :=
  match es with
  | [] => ret ([], [], it)
  | e :: es =>
      '(r, it) ← take e it;
      '(fs, bs, it) ← run es it;
      match e, r with
      | _, None => ret (fs, bs, it)
      | Front, Some x => ret (x :: fs, bs, it)
      | Back, Some x => ret (fs, x :: bs, it)
      end
  end.

Context (f : Z -> U).

Definition elements (lo : Z) (n : nat) : list U := map (fun i => f (lo + Z.of_nat i)) (seq 0 n).

Lemma elements_cons lo n : elements lo (S n) = f lo :: elements (lo + 1) n.
Proof.
  unfold elements. cbn [seq map]. f_equal; [f_equal; lia|]. rewrite <- (seq_shift n 0), map_map.
  apply map_ext. intros i. f_equal. lia.
Qed.
Lemma elements_snoc lo n : elements lo (S n) = elements lo n ++ [f (lo + Z.of_nat n)].
Proof. unfold elements. rewrite seq_S, map_app. done. Qed.
Lemma elements_length lo n : length (elements lo n) = n.
Proof. unfold elements. by rewrite length_map, length_seq. Qed.
Lemma elements_lookup lo n i : (i < n)%nat -> elements lo n !! i = Some (f (lo + Z.of_nat i)).
Proof. intros H. unfold elements. rewrite list_lookup_fmap, lookup_seq_lt by done. done. Qed.

(** The list gives its elements without failing. *)
Hypothesis move_ok : forall l i s, 0 <= i -> index_move l i s = (Ok (f i), s).

Definition iter_ok (it : Iter T) : Prop := 0 <= it_index it <= it_size it /\ it_size it < 2 ^ w.
Definition remaining (it : Iter T) : nat := Z.to_nat (it_size it - it_index it).

Lemma next_step it s : iter_ok it -> it_index it < it_size it ->
  next it s = (Ok (Some (f (it_index it)), set_index (it_index it + 1) it), s).
Proof.
  intros [Hi Hs] Hlt. unfold next. rewrite (proj2 (Z.ltb_lt _ _) Hlt), (ST_bind_ok _ _ _ _ _ (move_ok _ (it_index it) s ltac:(lia))).
  by rewrite uadd_ok by lia.
Qed.
Lemma next_back_step it s : iter_ok it -> it_index it < it_size it ->
  next_back it s = (Ok (Some (f (it_size it - 1)), set_size (it_size it - 1) it), s).
Proof.
  intros [Hi Hs] Hlt. unfold next_back. rewrite (proj2 (Z.ltb_lt _ _) Hlt). cbv zeta.
  by rewrite (ST_bind_ok _ _ _ _ _ (move_ok _ (it_size it - 1) s ltac:(lia))).
Qed.
Lemma take_end e it s : ~ it_index it < it_size it -> take e it s = (Ok (None, it), s).
Proof. intros H. destruct e; cbn [take]; unfold next, next_back; by rewrite (proj2 (Z.ltb_ge _ _)) by lia. Qed.

Lemma run_ends es : forall it s, iter_ok it -> exists a b it',
  run es it s = (Ok (elements (it_index it) a, rev (elements (it_size it - Z.of_nat b) b), it'), s) /\
  (a + b)%nat = Nat.min (length es) (remaining it) /\ iter_ok it' /\
  it_index it' = it_index it + Z.of_nat a /\ it_size it' = it_size it - Z.of_nat b.
Proof.
  induction es as [|e es IH]; intros it s Hit.
  { exists 0%nat, 0%nat, it. cbn. split; [done|]. split; [done|]. split; [done|]. lia. }
  pose proof Hit as [Hi Hs]. cbn [run length]. destruct (Z.lt_ge_cases (it_index it) (it_size it)) as [Hlt|Hge].
  - destruct e; cbn [take].
    + rewrite (ST_bind_ok _ _ _ _ _ (next_step it s Hit Hlt)).
      destruct (IH (set_index (it_index it + 1) it) s) as (a & b & it' & E & Hab & Hok & Hix & Hsz); [split; cbn; lia|].
      rewrite (ST_bind_ok _ _ _ _ _ E). exists (S a), b, it'. rewrite elements_cons.
      unfold remaining in *. cbn [set_index it_index it_size] in *. split; [done|]. split; [lia|]. split; [done|]. lia.
    + rewrite (ST_bind_ok _ _ _ _ _ (next_back_step it s Hit Hlt)).
      destruct (IH (set_size (it_size it - 1) it) s) as (a & b & it' & E & Hab & Hok & Hix & Hsz); [split; cbn; lia|].
      rewrite (ST_bind_ok _ _ _ _ _ E). exists a, (S b), it'. rewrite elements_snoc, rev_app_distr.
      unfold remaining in *. cbn [set_size it_index it_size rev app] in *.
      replace (it_size it - Z.of_nat (S b)) with (it_size it - 1 - Z.of_nat b) by lia.
      replace (it_size it - 1 - Z.of_nat b + Z.of_nat b) with (it_size it - 1) by lia.
      split; [done|]. split; [lia|]. split; [done|]. lia.
  - rewrite (ST_bind_ok _ _ _ _ _ (take_end e it s ltac:(lia))).
    destruct (IH it s Hit) as (a & b & it' & E & Hab & Hrest). rewrite (ST_bind_ok _ _ _ _ _ E).
    exists a, b, it'. split; [by destruct e|]. split; [unfold remaining in *; lia|done].
Qed.

Lemma collect_all it s : forall fuel, iter_ok it -> (remaining it < fuel)%nat ->
  collect fuel it s = (Ok (elements (it_index it) (remaining it)), s).
Proof.
  intros fuel Hit. remember (remaining it) as n eqn:Hn. revert fuel it Hit Hn.
  induction n as [|n IH]; intros [|fuel] it Hit Hn Hf; try lia; pose proof Hit as [Hi Hs]; unfold remaining in *; cbn [collect].
  - by rewrite (ST_bind_ok _ _ _ _ _ (take_end Front it s ltac:(lia))).
  - rewrite (ST_bind_ok _ _ _ _ _ (next_step it s Hit ltac:(lia))).
    rewrite (ST_bind_ok _ _ _ _ _ (IH fuel (set_index (it_index it + 1) it) ltac:(split; cbn; lia) ltac:(cbn; lia) ltac:(lia))).
    by rewrite elements_cons.
Qed.

(** Skipping [p] elements is [next] called [p] times more. *)
Lemma nth_step it p s : iter_ok it -> 0 <= p -> it_index it + p < 2 ^ w ->
  nth it p s =
  (Ok (if it_index it + p <? it_size it then (Some (f (it_index it + p)), set_index (it_index it + p + 1) it)
       else (None, set_index (it_size it) it)), s).
Proof.
  intros [Hi Hs] Hp Hlt. unfold nth. rewrite wrap_small by lia. rewrite uadd_ok by done. rewrite (lift_bind_ok _ _ _ _ eq_refl).
  destruct (Z.ltb_spec (it_index it + p) (it_size it)); [|done].
  rewrite (ST_bind_ok _ _ _ _ _ (move_ok _ (it_index it + p) s ltac:(lia))). by rewrite uadd_ok by lia.
Qed.
End iter.
End ListIter.
