(* ===== verification/TypedLists.v ===== *)
(** * The traits behind typed lists and pointers (capnp/src/traits.rs and
    [PrimitiveElement] of layout.rs)

    A typed list or pointer wraps a reader or builder of layout.rs.  The traits
    are classes ([PrimitiveElement], [FromPointerReader], [FromPointerBuilder],
    [SetterInput]), over a phantom type that stands for the Cap'n Proto type. *)

From S2P Require Import Prelude Mem ReadLimiter Segments WirePointer Arena Readers.
From S2P Require Import Allocators BuilderArena Builders ListIter.
From coqutil Require Import Word.LittleEndianList.
#[local] Open Scope Z_scope.
#[local] Open Scope rust_scope.

Module TypedLists.

(** [rust_assert] before the rest of a function *)
Definition in_range {S A} (index len : Z) (k : ST S A) : ST S A :=
  lift (rust_assert (index <? len)) ;; k.

(** [Some(f(index))] if the index is in range, [None] otherwise *)
Definition try_range {S A} (index len : Z) (k : ST S A) : ST S (option A) :=
  if index <? len then x ← k; ret (Some x) else ret None.

(** ** Traits *)

(** [layout::PrimitiveElement]: values of type [T] in lists *)
Class PrimitiveElement (T : Type) := {
  element_get : mem -> ListReader -> Z -> outcome T;
  element_get_from_builder : forall A `{Allocator A}, ListBuilder -> Z -> B A T;
  element_set : forall A `{Allocator A}, ListBuilder -> Z -> T -> B A unit;
  element_size : ElementSize
}.

Class FromPointerReader (R : Type) := {
  get_from_pointer : mem -> gmap Z CapTable -> PointerReader -> option Z -> ST ReadLimiter R
}.
Class FromPointerBuilder (Bd : Type) := {
  init_pointer : forall A `{Allocator A}, PointerBuilder -> Z -> B A Bd;
  builder_from_pointer : forall A `{Allocator A}, PointerBuilder -> option default_words -> B A Bd
}.
(** A value of type [V] can be stored where a [Receiver] is expected. *)
Class SetterInput (Receiver V : Type) := {
  set_pointer_builder : forall A `{Allocator A}, PointerBuilder -> V -> bool -> B A unit
}.
Arguments element_get_from_builder {T _} A {_}.
Arguments element_set {T _} A {_}.
Arguments init_pointer {Bd _} A {_}.
Arguments builder_from_pointer {Bd _} A {_}.
Arguments set_pointer_builder Receiver {V _} A {_}.

(** ** Plain values: the instances of [PrimitiveElement] *)

(** [u8], [u16], [u32], [u64]; [f32] and [f64] as their bits *)
Inductive Unsigned (n : Z) := U (value : Z).
(** [i8], [i16], [i32], [i64] *)
Inductive Signed (n : Z) := I (value : Z).
Arguments U {n}. Arguments I {n}.
Definition unsigned {n} (x : Unsigned n) : Z := let 'U v := x in v.
Definition signed {n} (x : Signed n) : Z := let 'I v := x in v.

(** The [n]-byte word [x] as a signed integer *)
Definition as_signed (n x : Z) : Z := if x <? 2 ^ (8 * n - 1) then x else x - 2 ^ (8 * n).

Definition size_of (n : Z) : ElementSize :=
  match n with 1 => Byte | 2 => TwoBytes | 4 => FourBytes | 8 => EightBytes | _ => Void end.

#[global] Instance unsigned_element n : PrimitiveElement (Unsigned n) := {
  element_get m r i := v ← primitive_get m n r i; Ok (U v);
  element_get_from_builder A H b i := v ← primitive_get_from_builder n b i; ret (U v);
  element_set A H b i x := primitive_set n b i (unsigned x);
  element_size := size_of n
}.
#[global] Instance signed_element n : PrimitiveElement (Signed n) := {
  element_get m r i := v ← primitive_get m n r i; Ok (I (as_signed n v));
  element_get_from_builder A H b i := v ← primitive_get_from_builder n b i; ret (I (as_signed n v));
  element_set A H b i x := primitive_set n b i (signed x);
  element_size := size_of n
}.
#[global] Instance bool_element : PrimitiveElement bool := {
  element_get m r i := bool_get m r i;
  element_get_from_builder A H b i := bool_get_from_builder b i;
  element_set A H b i x := bool_set b i x;
  element_size := Bit
}.
#[global] Instance unit_element : PrimitiveElement unit := {
  element_get m r i := Ok tt;
  element_get_from_builder A H b i := ret tt;
  element_set A H b i x := ret tt;
  element_size := Void
}.

End TypedLists.
