(* ===== verification/TypedPointers.v ===== *)
(** * Texts, data and any pointers (capnp/src/text.rs, data.rs,
    any_pointer.rs) *)

From S2P Require Import Prelude Mem ReadLimiter Segments WirePointer Arena Readers.
From S2P Require Import Allocators BuilderArena Builders ListIter TypedLists.
#[local] Open Scope Z_scope.
#[local] Open Scope rust_scope.
Import TypedLists.

Module TypedPointers.

(** ** [text] and [data] *)

(** [text::Reader], [data::Reader] and [data::Builder] are all a slice. *)
Inductive TextReader := Text (bytes : ByteSlice).
Inductive DataReader := Data (bytes : ByteSlice).
Inductive DataBuilder := DataB (bytes : ByteSlice).
Definition text_bytes (t : TextReader) : ByteSlice := let 'Text b := t in b.
Definition data_bytes (d : DataReader) : ByteSlice := let 'Data b := d in b.
Inductive TextOwned := text_owned.
Inductive DataOwned := data_owned.

#[global] Instance text_reader : FromPointerReader TextReader := {
  get_from_pointer m tables p default := b ← get_text m p default; ret (Text b)
}.
#[global] Instance data_reader : FromPointerReader DataReader := {
  get_from_pointer m tables p default := b ← get_data m p default; ret (Data b)
}.
#[global] Instance text_builder : FromPointerBuilder TextBuilder := {
  init_pointer A _ p size := init_text p size;
  builder_from_pointer A _ p default := pb_get_text p default
}.
#[global] Instance data_builder : FromPointerBuilder DataBuilder := {
  init_pointer A _ p size := b ← init_data p size; ret (DataB b);
  builder_from_pointer A _ p default := b ← pb_get_data p default; ret (DataB b)
}.

(** The bytes of a slice, read from the memory the builder works in *)
Definition slice_of {A} `{Allocator A} (b : ByteSlice) : B A (list byte) :=
  on_mem (fun m => load_bytes m (bs_ptr b) (bs_len b)).

#[global] Instance set_text_reader : SetterInput TextOwned TextReader := {
  set_pointer_builder A _ p value canonicalize := bs ← slice_of (text_bytes value); set_text p bs
}.
(** [&str] *)
#[global] Instance set_str : SetterInput TextOwned (list byte) := {
  set_pointer_builder A _ p value canonicalize := set_text p value
}.
#[global] Instance set_data_reader : SetterInput DataOwned DataReader := {
  set_pointer_builder A _ p value canonicalize := bs ← slice_of (data_bytes value); set_data p bs
}.

(** [PartialOrd] of [&str] and [text::Reader]: the order of byte sequences *)
Fixpoint bytes_compare (a b : list byte) : comparison :=
  match a, b with
  | [], [] => Eq
  | [], _ => Lt
  | _, [] => Gt
  | x :: a, y :: b =>
      match Z.compare (byte.unsigned x) (byte.unsigned y) with Eq => bytes_compare a b | c => c end
  end.

(** ** [any_pointer] *)

Inductive AnyReader := Any (reader : PointerReader).
Inductive AnyBuilder := AnyB (builder : PointerBuilder).
Definition any_reader (a : AnyReader) : PointerReader := let 'Any r := a in r.
Definition any_builder (a : AnyBuilder) : PointerBuilder := let 'AnyB b := a in b.
Inductive AnyOwned := any_owned.

Section any_reader.
Context (m : mem) (tables : gmap Z CapTable).

Definition any_is_null (a : AnyReader) : outcome bool := PointerReader_is_null m (any_reader a).
Definition target_size (a : AnyReader) : ST ReadLimiter MessageSize := PointerReader_total_size m (any_reader a).
Definition get_as (R : Type) `{FromPointerReader R} (a : AnyReader) : ST ReadLimiter R :=
  get_from_pointer m tables (any_reader a) None.
Definition get_as_capability (a : AnyReader) : ST ReadLimiter ClientHook :=
  get_capability m tables (any_reader a).

(** [PipelineOp] *)
Inductive PipelineOp := Noop | GetPointerField (index : Z).
Fixpoint pipelined_pointer (ops : list PipelineOp) (pointer : PointerReader) : ST ReadLimiter PointerReader :=
  match ops with
  | [] => ret pointer
  | Noop :: ops => pipelined_pointer ops pointer
  | GetPointerField idx :: ops => s ← get_struct m pointer None; pipelined_pointer ops (get_pointer_field s idx)
  end.
Definition get_pipelined_cap (a : AnyReader) (ops : list PipelineOp) : ST ReadLimiter ClientHook :=
  pointer ← pipelined_pointer ops (any_reader a);
  get_capability m tables pointer.
End any_reader.

#[global] Instance any_from_pointer : FromPointerReader AnyReader := {
  get_from_pointer m tables p default := match default with Some _ => lift Panic | None => ret (Any p) end
}.

Section any_builder.
Context {A : Type} `{Allocator A}.

Definition any_builder_is_null (a : AnyBuilder) : B A bool := PointerBuilder_is_null (any_builder a).
Definition any_target_size (a : AnyBuilder) : B A MessageSize :=
  r ← PointerBuilder_as_reader (any_builder a);
  on_limiter (fun m _ => PointerReader_total_size m r).
Definition builder_get_as (Bd : Type) `{FromPointerBuilder Bd} (a : AnyBuilder) : B A Bd :=
  builder_from_pointer A (any_builder a) None.
Definition init_as (Bd : Type) `{FromPointerBuilder Bd} (a : AnyBuilder) : B A Bd :=
  init_pointer A (any_builder a) 0.
Definition initn_as (Bd : Type) `{FromPointerBuilder Bd} (a : AnyBuilder) (size : Z) : B A Bd :=
  init_pointer A (any_builder a) size.
Definition set_as (Receiver : Type) {V} `{SetterInput Receiver V} (a : AnyBuilder) (value : V) : B A unit :=
  set_pointer_builder Receiver A (any_builder a) value false.
Definition set_as_capability (a : AnyBuilder) (value : ClientHook) : B A unit := set_capability (any_builder a) value.
Definition any_clear (a : AnyBuilder) : B A unit := clear (any_builder a).
Definition any_into_reader (a : AnyBuilder) : B A AnyReader :=
  r ← PointerBuilder_as_reader (any_builder a); ret (Any r).
End any_builder.

#[global] Instance any_from_builder : FromPointerBuilder AnyBuilder := {
  init_pointer A _ p len :=
    null ← PointerBuilder_is_null p;
    (if negb null then clear p else ret tt) ;;
    ret (AnyB p);
  builder_from_pointer A _ p default := match default with Some _ => lift Panic | None => ret (AnyB p) end
}.
#[global] Instance set_any : SetterInput AnyOwned AnyReader := {
  set_pointer_builder A _ p value canonicalize := copy_from p (any_reader value) canonicalize
}.
End TypedPointers.
