(* ===== verification/PrimitiveList.v ===== *)
(** * Lists of plain values (capnp/src/primitive_list.rs) *)

From S2P Require Import Prelude Mem ReadLimiter Segments WirePointer Arena Readers.
From S2P Require Import Allocators BuilderArena Builders ListIter TypedLists.
#[local] Open Scope Z_scope.
#[local] Open Scope rust_scope.
Import TypedLists.

Module PrimitiveList.
(** [Reader<T>] and [Builder<T>] *)
Inductive Reader (T : Type) := R (reader : ListReader).
Inductive Builder (T : Type) := Bu (builder : ListBuilder).
(** [Owned<T>] *)
Inductive Owned (T : Type) := O.
Arguments R {T}. Arguments Bu {T}.
Definition reader {T} (r : Reader T) : ListReader := let 'R l := r in l.
Definition builder {T} (b : Builder T) : ListBuilder := let 'Bu l := b in l.

Section primitive_list.
Context {T : Type} `{PrimitiveElement T}.

#[global] Instance reader_from_pointer : FromPointerReader (Reader T) := {
  get_from_pointer m tables p default := l ← get_list m p element_size default; ret (R l)
}.
#[global] Instance builder_from_pointer : FromPointerBuilder (Builder T) := {
  init_pointer A _ p size := l ← init_list p element_size size; ret (Bu l);
  builder_from_pointer A _ p default := l ← pb_get_list p element_size default; ret (Bu l)
}.

Definition len (r : Reader T) : Z := lr_element_count (reader r).
Definition is_empty (r : Reader T) : bool := len r =? 0.
Definition get (m : mem) (r : Reader T) (index : Z) : outcome T :=
  if negb (index <? len r) then Panic else element_get m (reader r) index.
Definition try_get (m : mem) (r : Reader T) (index : Z) : outcome (option T) :=
  if index <? len r then x ← element_get m (reader r) index; Ok (Some x) else Ok None.
Definition iter (r : Reader T) : ListIter.Iter (Reader T) := ListIter.new r (len r).
Definition index_move {S} (m : mem) (r : Reader T) (index : Z) : ST S T := lift (get m r index).

(** The slice is its address and its length in elements; alignment and byte
    order are checked at compile time. *)
Definition as_slice (r : Reader T) : outcome (option (Z * Z)) :=
  if bool_decide (lr_element_size (reader r) = Bit) then Ok None
  else if bool_decide (lr_element_size (reader r) = element_size) then
    bytes ← into_raw_bytes (reader r);
    let bits_per_element := data_bits_per_element element_size in
    slice_length ← (if 0 <? bits_per_element then n ← umul 64 8 (bs_len bytes); Ok (n / bits_per_element)
                    else Ok (len r));
    if slice_length =? 0 then Ok (Some (0, 0)) else Ok (Some (bs_ptr bytes, slice_length))
  else Ok None.

Context {A : Type} `{Allocator A}.

Definition builder_len (b : Builder T) : Z := lb_element_count (builder b).
Definition into_reader (b : Builder T) : B A (Reader T) := r ← ListBuilder_into_reader (builder b); ret (R r).
Definition set (b : Builder T) (index : Z) (value : T) : B A unit :=
  in_range index (builder_len b) (element_set A (builder b) index value).
Definition builder_get (b : Builder T) (index : Z) : B A T :=
  in_range index (builder_len b) (element_get_from_builder A (builder b) index).
Definition builder_try_get (b : Builder T) (index : Z) : B A (option T) :=
  try_range index (builder_len b) (element_get_from_builder A (builder b) index).

Definition builder_as_slice (b : Builder T) : outcome (option (Z * Z)) :=
  if bool_decide (lb_element_size (builder b) = Bit) then Ok None
  else if bool_decide (lb_element_size (builder b) = element_size) then
    bytes ← lb_as_raw_bytes (builder b);
    let bits_per_element := data_bits_per_element element_size in
    slice_length ← (if 0 <? bits_per_element then n ← umul 64 8 (bs_len bytes); Ok (n / bits_per_element)
                    else Ok (builder_len b));
    if slice_length =? 0 then Ok (Some (0, 0)) else Ok (Some (bs_ptr bytes, slice_length))
  else Ok None.
End primitive_list.

(** [for (idx, v) in value.iter().enumerate() { set(&builder, idx as u32, *v) }] *)
Fixpoint set_all {T A} `{PrimitiveElement T} `{Allocator A} (l : ListBuilder) (idx : Z) (values : list T) : B A unit :=
  match values with
  | [] => ret tt
  | v :: values => element_set A l (wrap32 idx) v ;; set_all l (idx + 1) values
  end.

#[global] Instance set_reader {T} : SetterInput (Owned T) (Reader T) := {
  set_pointer_builder A _ p value canonicalize := set_list p (reader value) canonicalize
}.
(** [SetterInput<Owned<T>> for &[T]] *)
#[global] Instance set_slice {T} `{PrimitiveElement T} : SetterInput (Owned T) (list T) := {
  set_pointer_builder A _ p value canonicalize :=
    l ← init_list p element_size (wrap32 (Z.of_nat (length value))); set_all l 0 value
}.
End PrimitiveList.
