(* ===== verification/EnumList.v ===== *)
(** * Lists of enumerants (capnp/src/enum_list.rs)

    The reader and the builder are those of layout.rs. *)

From S2P Require Import Prelude Mem ReadLimiter Segments WirePointer Arena Readers.
From S2P Require Import Allocators BuilderArena Builders ListIter TypedLists.
#[local] Open Scope Z_scope.
#[local] Open Scope rust_scope.
Import TypedLists.

Module EnumList.
(** An enum type of generated code: [TryFrom<u16, Error = NotInSchema>] and
    [Into<u16>] *)
Class Enumerant (T : Type) := { try_from : Z -> option T; into_u16 : T -> Z }.

(** [Result<T, NotInSchema>] of an element *)
Definition convert {T} `{Enumerant T} (x : Z) : T + Z :=
  match try_from x with Some t => inl t | None => inr x end.

Section enum_list.
Context {T : Type} `{Enumerant T}.
Definition reader_from_pointer (m : mem) (p : PointerReader) (default : option Z) : ST ReadLimiter ListReader :=
  get_list m p TwoBytes default.
Definition get (m : mem) (r : ListReader) (index : Z) : outcome (T + Z) :=
  if negb (index <? lr_element_count r) then Panic else v ← primitive_get m 2 r index; Ok (convert v).
Definition try_get (m : mem) (r : ListReader) (index : Z) : outcome (option (T + Z)) :=
  if index <? lr_element_count r then v ← primitive_get m 2 r index; Ok (Some (convert v)) else Ok None.
Definition index_move {S} (m : mem) (r : ListReader) (index : Z) : ST S (T + Z) := lift (get m r index).

Context {A : Type} `{Allocator A}.
Definition init (p : PointerBuilder) (size : Z) : B A ListBuilder := init_list p TwoBytes size.
Definition builder_from_pointer (p : PointerBuilder) (default : option default_words) : B A ListBuilder :=
  pb_get_list p TwoBytes default.
Definition set (b : ListBuilder) (index : Z) (value : T) : B A unit :=
  in_range index (lb_element_count b) (primitive_set 2 b index (into_u16 value)).
Definition builder_get (b : ListBuilder) (index : Z) : B A (T + Z) :=
  in_range index (lb_element_count b) (v ← primitive_get_from_builder 2 b index; ret (convert v)).
Definition builder_try_get (b : ListBuilder) (index : Z) : B A (option (T + Z)) :=
  try_range index (lb_element_count b) (v ← primitive_get_from_builder 2 b index; ret (convert v)).
Fixpoint set_all (l : ListBuilder) (idx : Z) (values : list T) : B A unit :=
  match values with
  | [] => ret tt
  | v :: values => primitive_set 2 l (wrap32 idx) (into_u16 v) ;; set_all l (idx + 1) values
  end.
(** [SetterInput<Owned<T>> for &[T]] *)
Definition set_slice (p : PointerBuilder) (value : list T) : B A unit :=
  l ← init_list p TwoBytes (wrap32 (Z.of_nat (length value))); set_all l 0 value.
End enum_list.
End EnumList.
