(* ===== verification/StructList.v ===== *)
(** * Lists of structs (capnp/src/struct_list.rs) *)

From S2P Require Import Prelude Mem ReadLimiter Segments WirePointer Arena Readers.
From S2P Require Import Allocators BuilderArena Builders ListIter TypedLists TypedPointers.
#[local] Open Scope Z_scope.
#[local] Open Scope rust_scope.
Import TypedLists TypedPointers.

Module StructList.
(** [HasStructSize] of the builder of a struct type [T] *)
Class HasStructSize (T : Type) := STRUCT_SIZE : StructSize.

Section struct_list.
Context {T : Type} `{HasStructSize T}.
(** [T::Reader] and [T::Builder] are a [StructReader] and a [StructBuilder]. *)
Inductive Reader := R (reader : ListReader).
Inductive Builder := Bu (builder : ListBuilder).
Definition reader (r : Reader) : ListReader := let 'R l := r in l.
Definition builder (b : Builder) : ListBuilder := let 'Bu l := b in l.

#[global] Instance reader_from_pointer : FromPointerReader Reader := {
  get_from_pointer m tables p default := l ← get_list m p InlineComposite default; ret (R l)
}.
#[global] Instance struct_list_builder : FromPointerBuilder Builder := {
  init_pointer A _ p size := l ← init_struct_list p size (STRUCT_SIZE (T := T)); ret (Bu l);
  builder_from_pointer A _ p default := l ← pb_get_struct_list p (STRUCT_SIZE (T := T)) default; ret (Bu l)
}.

Definition len (r : Reader) : Z := lr_element_count (reader r).
Definition get (r : Reader) (index : Z) : outcome StructReader :=
  if negb (index <? len r) then Panic else get_struct_element (reader r) index.
Definition try_get (r : Reader) (index : Z) : outcome (option StructReader) :=
  if index <? len r then s ← get_struct_element (reader r) index; Ok (Some s) else Ok None.
Definition iter (r : Reader) : ListIter.Iter Reader := ListIter.new r (len r).
Definition index_move {S} (r : Reader) (index : Z) : ST S StructReader := lift (get r index).

Context {A : Type} `{Allocator A}.
Definition builder_len (b : Builder) : Z := lb_element_count (builder b).
Definition into_reader (b : Builder) : B A Reader := r ← ListBuilder_into_reader (builder b); ret (R r).
Definition set_with_caveats (b : Builder) (index : Z) (value : StructReader) : B A unit :=
  in_range index (builder_len b) (
    s ← lift (lb_get_struct_element (builder b) index);
    copy_content_from s value).
Definition builder_get (b : Builder) (index : Z) : B A StructBuilder :=
  in_range index (builder_len b) (lift (lb_get_struct_element (builder b) index)).
Definition builder_try_get (b : Builder) (index : Z) : B A (option StructBuilder) :=
  try_range index (builder_len b) (lift (lb_get_struct_element (builder b) index)).
Definition set_reader (p : PointerBuilder) (value : Reader) (canonicalize : bool) : B A unit :=
  set_list p (reader value) canonicalize.
End struct_list.
End StructList.
