(* ===== verification/PointerList.v ===== *)
(** * Lists of lists (capnp/src/list_list.rs)

    The other lists of pointers have its reader and its builder. *)

From S2P Require Import Prelude Mem ReadLimiter Segments WirePointer Arena Readers.
From S2P Require Import Allocators BuilderArena Builders ListIter TypedLists TypedPointers.
#[local] Open Scope Z_scope.
#[local] Open Scope rust_scope.
Import TypedLists TypedPointers.

(** Lists with elements of type [T]: [Rd] is [T::Reader], [Bd] is
    [T::Builder]. *)
Module PointerList.
Inductive Reader := R (reader : ListReader).
Inductive Builder := Bu (builder : ListBuilder).
Definition reader (r : Reader) : ListReader := let 'R l := r in l.
Definition builder (b : Builder) : ListBuilder := let 'Bu l := b in l.

#[global] Instance reader_from_pointer : FromPointerReader Reader := {
  get_from_pointer m tables p default := l ← get_list m p Pointer default; ret (R l)
}.
#[global] Instance pointer_list_builder : FromPointerBuilder Builder := {
  init_pointer A _ p size := l ← init_list p Pointer size; ret (Bu l);
  builder_from_pointer A _ p default := l ← pb_get_list p Pointer default; ret (Bu l)
}.

Section reading.
Context (m : mem) (tables : gmap Z CapTable) (Rd : Type) `{FromPointerReader Rd}.

Definition len (r : Reader) : Z := lr_element_count (reader r).
Definition element (r : Reader) (index : Z) : ST ReadLimiter Rd :=
  p ← lift (get_pointer_element (reader r) index);
  get_from_pointer m tables p None.
Definition get (r : Reader) (index : Z) : ST ReadLimiter Rd := in_range index (len r) (element r index).
Definition try_get (r : Reader) (index : Z) : ST ReadLimiter (option Rd) := try_range index (len r) (element r index).
Definition iter (r : Reader) : ListIter.Iter Reader := ListIter.new r (len r).
End reading.

Section building.
Context {A : Type} `{Allocator A} (Bd : Type) `{FromPointerBuilder Bd}.

Definition builder_len (b : Builder) : Z := lb_element_count (builder b).
Definition into_reader (b : Builder) : B A Reader := r ← ListBuilder_into_reader (builder b); ret (R r).

(** [init] has no check that the index is in range. *)
Definition init (b : Builder) (index size : Z) : B A Bd :=
  p ← lift (lb_get_pointer_element (builder b) index);
  init_pointer A p size.
Definition builder_element (b : Builder) (index : Z) : B A Bd :=
  p ← lift (lb_get_pointer_element (builder b) index);
  builder_from_pointer A p None.
Definition builder_get (b : Builder) (index : Z) : B A Bd := in_range index (builder_len b) (builder_element b index).
Definition builder_try_get (b : Builder) (index : Z) : B A (option Bd) :=
  try_range index (builder_len b) (builder_element b index).
End building.

Section setting.
Context {A : Type} `{Allocator A}.
Definition set (Receiver : Type) {V} `{SetterInput Receiver V} (b : Builder) (index : Z) (value : V) : B A unit :=
  in_range index (builder_len b) (
    p ← lift (lb_get_pointer_element (builder b) index);
    set_pointer_builder Receiver A p value false).
Definition set_reader (p : PointerBuilder) (value : Reader) (canonicalize : bool) : B A unit :=
  set_list p (reader value) canonicalize.
End setting.
End PointerList.
