(* ===== verification/PointerLists.v ===== *)
(** * Lists of texts, data, any pointers and capabilities
    (capnp/src/text_list.rs, data_list.rs, any_pointer_list.rs,
    capability_list.rs)

    Their readers and builders are lists of pointers; the names carry the kind
    of element. *)

From S2P Require Import Prelude Mem ReadLimiter Segments WirePointer Arena Readers.
From S2P Require Import Allocators BuilderArena Builders ListIter TypedLists TypedPointers PointerList.
#[local] Open Scope Z_scope.
#[local] Open Scope rust_scope.
Import TypedLists TypedPointers.

Module PointerLists.

(** ** Lists of texts (text_list.rs) *)

Definition text_element (m : mem) (tables : gmap Z CapTable) (r : PointerList.Reader) (index : Z) : ST ReadLimiter TextReader :=
  p ← lift (get_pointer_element (PointerList.reader r) index); get_from_pointer m tables p None.
Definition text_get (m : mem) (tables : gmap Z CapTable) (r : PointerList.Reader) (index : Z) : ST ReadLimiter TextReader :=
  in_range index (PointerList.len r) (text_element m tables r index).
Definition text_try_get (m : mem) (tables : gmap Z CapTable) (r : PointerList.Reader) (index : Z) :
    ST ReadLimiter (option TextReader) :=
  try_range index (PointerList.len r) (text_element m tables r index).

Section text_list.
Context {A : Type} `{Allocator A}.
Definition text_builder_element (b : PointerList.Builder) (index : Z) : B A TextBuilder :=
  p ← lift (lb_get_pointer_element (PointerList.builder b) index); builder_from_pointer A p None.
Definition text_builder_get (b : PointerList.Builder) (index : Z) : B A TextBuilder :=
  in_range index (PointerList.builder_len b) (text_builder_element b index).
Definition text_builder_try_get (b : PointerList.Builder) (index : Z) : B A (option TextBuilder) :=
  try_range index (PointerList.builder_len b) (text_builder_element b index).
(** [text_list::Builder::set] unwraps what the setter returns. *)
Definition text_set {V} `{SetterInput TextOwned V} (b : PointerList.Builder) (index : Z) (value : V) : B A unit :=
  in_range index (PointerList.builder_len b) (
    p ← lift (lb_get_pointer_element (PointerList.builder b) index);
    unwrap_result (set_pointer_builder TextOwned A p value false)).
(** [SetterInput<Owned> for &[T]] where [T: AsRef<str>] *)
Fixpoint text_set_all (l : ListBuilder) (idx : Z) (values : list (list byte)) : B A unit :=
  match values with
  | [] => ret tt
  | v :: values => p ← lift (lb_get_pointer_element l (wrap32 idx)); set_text p v ;; text_set_all l (idx + 1) values
  end.
Definition text_set_slice (p : PointerBuilder) (value : list (list byte)) : B A unit :=
  l ← init_list p Pointer (wrap32 (Z.of_nat (length value))); text_set_all l 0 value.
End text_list.

(** ** Lists of data (data_list.rs) *)

Definition data_element (m : mem) (tables : gmap Z CapTable) (r : PointerList.Reader) (index : Z) : ST ReadLimiter DataReader :=
  p ← lift (get_pointer_element (PointerList.reader r) index); get_from_pointer m tables p None.
Definition data_get (m : mem) (tables : gmap Z CapTable) (r : PointerList.Reader) (index : Z) : ST ReadLimiter DataReader :=
  in_range index (PointerList.len r) (data_element m tables r index).
Definition data_try_get (m : mem) (tables : gmap Z CapTable) (r : PointerList.Reader) (index : Z) :
    ST ReadLimiter (option DataReader) :=
  try_range index (PointerList.len r) (data_element m tables r index).

Section data_list.
Context {A : Type} `{Allocator A}.
Definition data_builder_element (b : PointerList.Builder) (index : Z) : B A DataBuilder :=
  p ← lift (lb_get_pointer_element (PointerList.builder b) index); builder_from_pointer A p None.
Definition data_builder_get (b : PointerList.Builder) (index : Z) : B A DataBuilder :=
  in_range index (PointerList.builder_len b) (data_builder_element b index).
Definition data_builder_try_get (b : PointerList.Builder) (index : Z) : B A (option DataBuilder) :=
  try_range index (PointerList.builder_len b) (data_builder_element b index).
Definition data_set (b : PointerList.Builder) (index : Z) (value : list byte) : B A unit :=
  in_range index (PointerList.builder_len b) (
    p ← lift (lb_get_pointer_element (PointerList.builder b) index);
    set_data p value).
End data_list.

(** ** Lists of any pointers (any_pointer_list.rs) *)

Definition any_get (r : PointerList.Reader) (index : Z) : outcome AnyReader :=
  if negb (index <? PointerList.len r) then Panic else p ← get_pointer_element (PointerList.reader r) index; Ok (Any p).
Definition any_try_get (r : PointerList.Reader) (index : Z) : outcome (option AnyReader) :=
  if index <? PointerList.len r then p ← get_pointer_element (PointerList.reader r) index; Ok (Some (Any p)) else Ok None.
Definition any_builder_get (b : PointerList.Builder) (index : Z) : outcome AnyBuilder :=
  if negb (index <? PointerList.builder_len b) then Panic
  else p ← lb_get_pointer_element (PointerList.builder b) index; Ok (AnyB p).
Definition any_builder_try_get (b : PointerList.Builder) (index : Z) : outcome (option AnyBuilder) :=
  if index <? PointerList.builder_len b then p ← lb_get_pointer_element (PointerList.builder b) index; Ok (Some (AnyB p))
  else Ok None.

(** ** Lists of capabilities (capability_list.rs) *)

(** [FromClientHook::new] wraps the hook. *)
Section capability_list.
Context (m : mem) (tables : gmap Z CapTable).
Definition cap_element (r : PointerList.Reader) (index : Z) : ST ReadLimiter ClientHook :=
  p ← lift (get_pointer_element (PointerList.reader r) index); get_capability m tables p.
Definition cap_get (r : PointerList.Reader) (index : Z) : ST ReadLimiter ClientHook :=
  in_range index (PointerList.len r) (cap_element r index).
Definition cap_try_get (r : PointerList.Reader) (index : Z) : ST ReadLimiter (option ClientHook) :=
  try_range index (PointerList.len r) (cap_element r index).
End capability_list.

Section capability_builder.
Context {A : Type} `{Allocator A}.
Definition cap_set (b : PointerList.Builder) (index : Z) (value : ClientHook) : B A unit :=
  in_range index (PointerList.builder_len b) (
    p ← lift (lb_get_pointer_element (PointerList.builder b) index); set_capability p value).
Definition cap_builder_element (b : PointerList.Builder) (index : Z) : B A ClientHook :=
  p ← lift (lb_get_pointer_element (PointerList.builder b) index); pb_get_capability p.
Definition cap_builder_get (b : PointerList.Builder) (index : Z) : B A ClientHook :=
  in_range index (PointerList.builder_len b) (cap_builder_element b index).
Definition cap_builder_try_get (b : PointerList.Builder) (index : Z) : B A (option ClientHook) :=
  try_range index (PointerList.builder_len b) (cap_builder_element b index).
End capability_builder.

End PointerLists.
