(* ===== verification/TypedProps.v ===== *)
(** * Theorems about typed lists *)

From S2P Require Import Prelude ReadLimiter Segments Mem WirePointer Arena Readers ReadersSafe Allocators.
From S2P Require Import AllocatorsOk BuilderArena Builders BuilderArenaOk BuilderOps BuilderObjects.
From S2P Require Import BuilderProps ListIter TypedLists TypedPointers PrimitiveList PointerList.
From coqutil Require Import Word.LittleEndianList.
From stdpp Require Import list.
#[local] Open Scope Z_scope.
#[local] Open Scope rust_scope.
Import TypedLists.
Import TypedLists TypedPointers.

(** ** Elements of typed lists behave like variables

    [PrimitiveElementOk] is what a list promises of the values it holds; the
    plain types, signed and unsigned, booleans and the unit type keep it, and
    a slice stored as a list is what is read back. *)

(** The length of the words of a list, in bytes *)
Definition list_size (lb : ListBuilder) : Z := 8 * ((lb_element_count lb * lb_step lb + 63) / 64).

Class PrimitiveElementOk (T : Type) `{PrimitiveElement T} := {
  value_ok : T -> Prop;
  element_plain : element_size (T := T) <> InlineComposite;
  element_set_ok : forall A `{AllocatorOk A} (w : World A) (lb : ListBuilder) (i : Z) (v : T),
    world_ok w -> lb_ok w lb -> lb_step lb = element_step (element_size (T := T)) ->
    0 <= i < lb_element_count lb -> value_ok v ->
    exists m, element_set A lb i v w = (Ok tt, upd m w) /\ wrote (wmem w) m (lb_ptr lb) (list_size lb) /\
      forall l j, 0 <= j < lb_element_count lb ->
        element_get m (list_view (upd m w) lb l) j =
          if j =? i then Ok v else element_get (wmem w) (list_view w lb l) j
}.

Lemma list_write_evolves {A} `{AllocatorOk A} (w : World A) lb m : world_ok w -> lb_ok w lb ->
  wrote (wmem w) m (lb_ptr lb) (list_size lb) ->
  evolves w (upd m w) (fun i => lb_ptr lb <= i < lb_ptr lb + list_size lb).
Proof.
  intros Hw (amount & Hin & Hr & _) Hwr. apply upd_evolves; [done|done|].
  intros i Hi. apply (in_seg_used w _ _ _ _ Hin). unfold list_size in Hi. zlia.
Qed.

(** ** Plain values *)

Lemma size_of_step n : primitive_width n -> element_step (size_of n) = 8 * n.
Proof. by intros [->|[->|[->| ->]]]. Qed.
Lemma size_of_plain n : size_of n <> InlineComposite.
Proof. unfold size_of. by repeat case_match. Qed.

Lemma word_set_ok {A} `{AllocatorOk A} (w : World A) lb n i v : primitive_width n ->
  world_ok w -> lb_ok w lb -> lb_step lb = 8 * n -> 0 <= i < lb_element_count lb -> 0 <= v < 2 ^ (8 * n) ->
  exists m, primitive_set n lb i v w = (Ok tt, upd m w) /\ wrote (wmem w) m (lb_ptr lb) (list_size lb) /\
    forall l j, 0 <= j < lb_element_count lb ->
      primitive_get m n (list_view (upd m w) lb l) j = if j =? i then Ok v else primitive_get (wmem w) n (list_view w lb l) j.
Proof.
  intros Hn Hw Hb Hs Hi Hv. destruct (primitive_set_ok w lb n i v Hw Hb Hn Hs Hi Hv) as (m & Hm & E & Hwr & Hl).
  exists m. split; [done|]. split.
  - eapply wrote_sub; [exact Hwr| |]; unfold list_size; rewrite ?Hs; destruct Hn as [->|[->|[->| ->]]]; zlia.
  - intros l j Hj. destruct (element_address w lb n j Hw Hb Hn Hs Hj) as (F1 & F2).
    unfold primitive_get. cbn [list_view lr_step lr_ptr]. rewrite F1. cbn [bind outcome_monad]. rewrite F2.
    destruct (Z.eqb_spec j i) as [->|Hne]; [done|].
    apply load_same, (wrote_same _ _ _ _ _ _ Hwr). destruct Hn as [->|[->|[->| ->]]]; lia.
Qed.

(** Storing [v] stores its low bytes. *)
Lemma store_wrapped m a n v : 0 <= n -> store m a n v = store m a n (wrap (8 * n) v).
Proof.
  intros Hn. unfold store. destruct (a mod n =? 0); [|done]. f_equal. rewrite (le_split_mod v). f_equal.
  unfold wrap. do 2 f_equal. lia.
Qed.
Lemma primitive_set_wrapped {A} `{Allocator A} n lb i v (w : World A) : 0 <= n ->
  primitive_set n lb i v w = primitive_set n lb i (wrap (8 * n) v) w.
Proof.
  intros Hn. unfold primitive_set. apply ST_bind_ext. intros bits s. unfold wput, on_heap.
  rewrite (ST_bind_ext _ _ (fun h => m ← lift (store (hmem h) (lb_ptr lb + wrap32 (bits / BITS_PER_BYTE)) n (wrap (8 * n) v));
    put_state (set_hmem m h))); [done|]. intros h s'. by rewrite store_wrapped.
Qed.

Definition signed_range (n v : Z) : Prop := - 2 ^ (8 * n - 1) <= v < 2 ^ (8 * n - 1).

Lemma as_signed_wrap n v : 0 < n -> signed_range n v -> as_signed n (wrap (8 * n) v) = v.
Proof.
  intros Hn [Hlo Hhi]. unfold as_signed, wrap. pose proof (Z.pow_succ_r 2 (8 * n - 1) ltac:(lia)) as Hp.
  replace (Z.succ (8 * n - 1)) with (8 * n) in Hp by lia. set (q := 2 ^ (8 * n - 1)) in *.
  assert (0 < q) by (unfold q; apply Z.pow_pos_nonneg; lia). rewrite Hp.
  destruct (Z.lt_ge_cases v 0).
  - replace (v mod (2 * q)) with (v + 2 * q) by (apply Z.mod_unique with (-1); lia).
    destruct (Z.ltb_spec (v + 2 * q) q); lia.
  - rewrite Z.mod_small by lia. destruct (Z.ltb_spec v q); lia.
Qed.

Class Width (n : Z) := width_ok : primitive_width n.
#[export] Instance width_1 : Width 1. Proof. by left. Defined.
#[export] Instance width_2 : Width 2. Proof. by right; left. Defined.
#[export] Instance width_4 : Width 4. Proof. by right; right; left. Defined.
#[export] Instance width_8 : Width 8. Proof. by right; right; right. Defined.

Lemma width_pos n : primitive_width n -> 0 < n.
Proof. intros [->|[->|[->| ->]]]; lia. Qed.

#[export] Program Instance unsigned_ok n `{Width n} : PrimitiveElementOk (Unsigned n) := {
  value_ok x := 0 <= unsigned x < 2 ^ (8 * n)
}.
Next Obligation. intros n _. apply size_of_plain. Qed.
Next Obligation.
  intros n Hn A HA HO w lb i [v] Hw Hb Hs Hi Hv. cbn [element_size unsigned_element] in Hs. rewrite size_of_step in Hs by done.
  destruct (word_set_ok w lb n i v Hn Hw Hb Hs Hi Hv) as (m & Hm & E & Hg). exists m. split; [done|]. split; [done|].
  intros l j Hj. cbn [element_get unsigned_element]. rewrite Hg by done. by destruct (j =? i).
Qed.

#[export] Program Instance signed_ok n `{Width n} : PrimitiveElementOk (Signed n) := {
  value_ok x := signed_range n (signed x)
}.
Next Obligation. intros n _. apply size_of_plain. Qed.
Next Obligation.
  intros n Hn A HA HO w lb i [v] Hw Hb Hs Hi Hv. cbn [element_size signed_element] in Hs. rewrite size_of_step in Hs by done.
  pose proof (width_pos n Hn). cbn [signed] in Hv.
  destruct (word_set_ok w lb n i (wrap (8 * n) v) Hn Hw Hb Hs Hi (wrap_range (8 * n) v ltac:(lia))) as (m & Hm & E & Hg).
  exists m. cbn [element_set signed_element signed]. rewrite primitive_set_wrapped by lia. split; [done|]. split; [done|].
  intros l j Hj. cbn [element_get signed_element]. rewrite Hg by done. destruct (j =? i); [|done].
  cbn [bind outcome_monad]. by rewrite as_signed_wrap.
Qed.

(** ** Booleans *)

#[export] Program Instance bool_ok : PrimitiveElementOk bool := { value_ok _ := True }.
Next Obligation. done. Qed.
Next Obligation.
  intros A HA HO w lb i v Hw Hb Hs Hi _. cbn [element_size bool_element] in Hs. change (element_step Bit) with 1 in Hs.
  destruct Hb as (amount & Hin & Hr & Hc & _). rewrite Hs in Hr. cbn [element_set element_get bool_element].
  destruct (set_bit_at_ok w (lb_ptr lb + i / 8) (i mod 8) v Hw) as (m & Hm & E & Hwr & Hbits).
  { apply (in_seg_used w _ _ _ _ Hin). zlia. }
  { zlia. }
  exists m. unfold bool_set. rewrite Hs, umul_ok, (lift_bind_ok _ _ _ _ eq_refl), Z.mul_1_r by lia. split; [done|]. split.
  - eapply wrote_sub; [exact Hwr| |]; unfold list_size; rewrite ?Hs; zlia.
  - intros l j Hj. unfold bool_get. cbn [list_view lr_step lr_ptr]. rewrite Hs, umul_ok by lia. cbn [bind outcome_monad].
    rewrite Z.mul_1_r. unfold BITS_PER_BYTE. destruct (Z.eq_dec (j / 8) (i / 8)) as [Ee|Hne].
    + rewrite Ee. destruct (Hbits (j mod 8) ltac:(zlia)) as (b & Hb1 & Hb2). rewrite Hb1, Hb2.
      destruct (Z.eqb_spec (j mod 8) (i mod 8)), (Z.eqb_spec j i); try done; exfalso; zlia.
    + rewrite (proj2 (Z.eqb_neq j i)) by (intros ->; done). apply load_bit_same, (wrote_same _ _ _ _ _ _ Hwr). lia.
Qed.

#[export] Program Instance unit_ok : PrimitiveElementOk unit := { value_ok _ := True }.
Next Obligation. done. Qed.
Next Obligation.
  intros A HA HO w lb i [] Hw Hb Hs Hi _. exists (wmem w). cbn [element_set element_get unit_element].
  assert (upd (wmem w) w = w) as -> by (destruct w as [[] ? ? ?]; done).
  split; [done|]. split; [apply wrote_refl|]. intros l j _. by destruct (j =? i).
Qed.

(** ** A slice stored as a list *)

Section slices.
Context {T : Type} `{PrimitiveElementOk T} {A : Type} `{AllocatorOk A}.

Lemma set_all_ok (lb : ListBuilder) (vs : list T) : forall (w : World A) (done todo : list T),
  world_ok w -> lb_ok w lb -> lb_step lb = element_step (element_size (T := T)) ->
  vs = done ++ todo -> lb_element_count lb = Z.of_nat (length vs) -> Forall value_ok vs ->
  (forall l j v, done !! j = Some v -> element_get (wmem w) (list_view w lb l) (Z.of_nat j) = Ok v) ->
  exists m, PrimitiveList.set_all lb (Z.of_nat (length done)) todo w = (Ok tt, upd m w) /\
    wrote (wmem w) m (lb_ptr lb) (list_size lb) /\
    forall l j v, vs !! j = Some v -> element_get m (list_view (upd m w) lb l) (Z.of_nat j) = Ok v.
Proof.
  intros w done todo. revert w done. induction todo as [|v todo IH]; intros w done Hw Hb Hs Hvs Hc Hok Hdone.
  { exists (wmem w). assert (upd (wmem w) w = w) as -> by (destruct w as [[] ? ? ?]; done).
    split; [done|]. split; [apply wrote_refl|]. by rewrite app_nil_r in Hvs; subst. }
  cbn [PrimitiveList.set_all]. assert (Hlen : (length vs = length done + S (length todo))%nat) by (rewrite Hvs, length_app; done).
  assert (Hr : lb_element_count lb < 2 ^ 29) by (destruct Hb as (? & _ & _ & ? & _); lia).
  rewrite wrap32_small by lia.
  assert (Hv : value_ok v).
  { rewrite Forall_forall in Hok. apply Hok. rewrite Hvs. apply elem_of_app. right. apply elem_of_cons. by left. }
  destruct (element_set_ok A w lb (Z.of_nat (length done)) v Hw Hb Hs ltac:(lia) Hv) as (m & Hm & Hwr & Hg).
  rewrite (ST_bind_ok _ _ _ _ _ Hm).
  destruct (IH (upd m w) (done ++ [v])) as (m' & Hm' & Hwr' & Hall); try done.
  - by apply (list_write_evolves w lb m).
  - by rewrite <- app_assoc.
  - intros l j x Hj. change (wmem (upd m w)) with m. rewrite Hg by (apply lookup_lt_Some in Hj; rewrite length_app in Hj; cbn in Hj; lia).
    apply lookup_app_Some in Hj as [Hj|[Hge Hj]].
    + rewrite (proj2 (Z.eqb_neq _ _)) by (apply lookup_lt_Some in Hj; lia). by apply Hdone.
    + apply list_lookup_singleton_Some in Hj as [Hj <-]. by rewrite (proj2 (Z.eqb_eq _ _)) by lia.
  - rewrite length_app in Hm'. cbn [length] in Hm'. replace (Z.of_nat (length done + 1)) with (Z.of_nat (length done) + 1) in Hm' by lia.
    rewrite upd_upd in Hm'. exists m'. split; [done|]. split; [by eapply wrote_trans|done].
Qed.

(** What an iterator over the list gives *)
Lemma iterate_ok (w : World A) lb l (vs : list T) : lb_element_count lb = Z.of_nat (length vs) -> Z.of_nat (length vs) < 2 ^ 32 ->
  (forall j v, vs !! j = Some v -> element_get (wmem w) (list_view w lb l) (Z.of_nat j) = Ok v) ->
  forall fuel, (length vs < fuel)%nat ->
  ListIter.collect 32 (PrimitiveList.index_move (S := unit) (wmem w)) fuel (PrimitiveList.iter (PrimitiveList.R (list_view w lb l))) tt =
    (Ok vs, tt).
Proof.
  intros Hc Hlt Hel.
  cut (forall fuel i rest, vs = firstn i vs ++ rest -> (i + length rest = length vs)%nat -> (length rest < fuel)%nat ->
    ListIter.collect 32 (PrimitiveList.index_move (S := unit) (wmem w)) fuel
      {| ListIter.it_list := PrimitiveList.R (T := T) (list_view w lb l); ListIter.it_index := Z.of_nat i;
         ListIter.it_size := Z.of_nat (length vs) |} tt = (Ok rest, tt)).
  { intros Hgo fuel Hf. unfold PrimitiveList.iter, ListIter.new, PrimitiveList.len. cbn [PrimitiveList.reader list_view lr_element_count].
    rewrite Hc. apply (Hgo fuel 0%nat vs); [done|done|lia]. }
  induction fuel as [|fuel IH]; intros i rest Hvs Hlen Hf; [lia|]. cbn [ListIter.collect].
  unfold ListIter.next at 1. cbn [ListIter.it_index ListIter.it_size ListIter.it_list].
  destruct rest as [|v rest]; cbn [length] in *.
  - by rewrite (proj2 (Z.ltb_ge _ _)) by lia.
  - rewrite (proj2 (Z.ltb_lt _ _)) by lia.
    assert (Hi : vs !! i = Some v).
    { rewrite Hvs, lookup_app_r; rewrite length_firstn, Nat.min_l by lia; [by rewrite Nat.sub_diag|lia]. }
    unfold PrimitiveList.index_move at 1, PrimitiveList.get, PrimitiveList.len.
    cbn [PrimitiveList.reader list_view lr_element_count]. rewrite Hc, (proj2 (Z.ltb_lt _ _)) by lia. cbn [negb].
    change {| lr_arena := _ |} with (list_view w lb l). rewrite (Hel i v Hi), ST_bind_assoc, (lift_bind_ok _ _ _ _ eq_refl).
    rewrite uadd_ok, ST_bind_assoc, (lift_bind_ok _ _ _ _ eq_refl), ST_ret_bind by lia.
    unfold ListIter.set_index. cbn [ListIter.it_list ListIter.it_size].
    replace (Z.of_nat i + 1) with (Z.of_nat (S i)) by lia.
    rewrite (ST_bind_ok _ _ _ _ _ (IH (S i) rest ltac:(rewrite Hvs at 1; rewrite (take_S_r _ _ _ Hi), <- app_assoc; done) ltac:(lia) ltac:(lia))).
    done.
Qed.
End slices.

(** C36: A slice stored in a pointer is what a client reads back from it: for
    every type of plain values (integers of both signs and all widths, floats
    as their bits, booleans, the unit type), storing a slice at a null pointer
    takes the words it needs and changes nothing else in use, and iterating
    over the list found at that pointer gives the elements of the slice. *)
Theorem slice_roundtrip {T} `{PrimitiveElementOk T} {A} `{AllocatorOk A} (w : World A) (p : PointerBuilder) (vs : list T) :
  vacant w p -> Z.of_nat (length vs) < 2 ^ 29 -> Forall value_ok vs ->
  gives (set_pointer_builder (PrimitiveList.Owned T) A p vs false) w
    (list_words (Z.of_nat (length vs)) (element_size (T := T)) + 1) (fun _ w' =>
    evolves w w' (fun i => pb_pointer p <= i < pb_pointer p + 8) /\
    exists r, read_at p (fun m rd => get_from_pointer (R := PrimitiveList.Reader T) m ∅ rd None) w' = (Ok r, w') /\
      PrimitiveList.len r = Z.of_nat (length vs) /\
      ListIter.collect 32 (PrimitiveList.index_move (S := unit) (wmem w')) (S (length vs)) (PrimitiveList.iter r) tt = (Ok vs, tt)).
Proof.
  intros Hv Hlen Hok. cbn [set_pointer_builder PrimitiveList.set_slice]. rewrite wrap32_small by lia.
  eapply gives_bind; [apply (init_list_gives w p _ _ Hv (element_plain (T := T))); lia|].
  intros lb w1 (ptr & id' & -> & L). set (lb := plain_list p _ _ ptr id').
  assert (Hb : lb_ok w1 lb) by (eapply plain_list_ok; [exact L|lia]).
  pose proof (ev_ok _ _ _ (lm_evolves _ _ _ _ _ _ _ _ L)) as Hw1.
  destruct (set_all_ok lb vs w1 [] vs Hw1 Hb eq_refl eq_refl eq_refl Hok) as (m & Hset & Hwr & Hall).
  { intros l j v Hj. by rewrite lookup_nil in Hj. }
  destruct (list_made_write w w1 p _ _ _ ptr id' m Hv L Hwr) as [Hev Hat].
  exists tt, (upd m w1). split; [exact Hset|]. split; [done|]. exists (PrimitiveList.R (list_view (upd m w1) lb 0x7ffffffe)).
  split; [|split; [done|by apply (iterate_ok (upd m w1)); [done|lia|apply Hall|lia]]].
  apply read_at_ok. intros l. cbn [get_from_pointer PrimitiveList.reader_from_pointer].
  rewrite (ST_bind_ok _ _ _ _ _ (get_list_at (upd m w1) p _ _ ptr id' l (ev_ok _ _ _ Hev)
    (evolves_in_seg _ _ _ _ _ _ Hev (vc_in _ _ Hv)) Hat (element_plain (T := T)) ltac:(lia))). done.
Qed.

Lemma slice_roundtrip_witness : vacant root_world root_pointer /\
  gives (set_pointer_builder (PrimitiveList.Owned (Signed 2)) HeapAllocator root_pointer [I (-1); I 300; I (-32768)] false) root_world
    (list_words 3 TwoBytes + 1) (fun _ w' =>
    evolves root_world w' (fun i => 4096 <= i < 4096 + 8) /\
    exists r, read_at root_pointer (fun m rd => get_from_pointer (R := PrimitiveList.Reader (Signed 2)) m ∅ rd None) w' = (Ok r, w') /\
      PrimitiveList.len r = 3 /\
      ListIter.collect 32 (PrimitiveList.index_move (S := unit) (wmem w')) 4 (PrimitiveList.iter r) tt =
        (Ok [I (-1); I 300; I (-32768)], tt)).
Proof.
  split; [exact root_vacant|].
  apply (slice_roundtrip (T := Signed 2) root_world root_pointer [I (-1); I 300; I (-32768)] root_vacant); [done|].
  repeat constructor; done.
Defined.

(** C1: An iterator can be taken from both ends: in whatever order a client
    calls [next] and [next_back], the calls from the front give the elements
    from the first on, those from the back give the elements from the last
    down, and together they give as many as there were calls, until there are
    none left: no element twice, none left out. *)
Theorem iterator_from_both_ends {T U St} (w : Z) (index_move : T -> Z -> ST St U) (f : Z -> U) (l : T) (n : Z)
    (es : list ListIter.End) (s : St) :
  (forall l i s, 0 <= i -> index_move l i s = (Ok (f i), s)) -> 0 <= n < 2 ^ w ->
  exists front back it', (front + back)%nat = Nat.min (length es) (Z.to_nat n) /\
    ListIter.run w index_move es (ListIter.new l n) s =
      (Ok (map (fun i => f (Z.of_nat i)) (seq 0 front),
           map (fun i => f (n - 1 - Z.of_nat i)) (seq 0 back), it'), s).
Proof.
  intros Hm Hn. destruct (ListIter.run_ends w index_move f Hm es (ListIter.new l n) s) as (a & b & it' & E & Hab & _).
  { split; cbn; lia. }
  exists a, b, it'. split; [rewrite Hab; unfold ListIter.remaining; cbn; lia|]. rewrite E. do 4 f_equal.
  cbn [ListIter.new ListIter.it_size]. clear. induction b as [|b IH]; [done|].
  rewrite (ListIter.elements_cons f), seq_S, map_app. cbn [rev map].
  replace (n - Z.of_nat (S b) + 1) with (n - Z.of_nat b) by lia. rewrite IH. do 3 f_equal. lia.
Qed.

Lemma iterator_from_both_ends_witness : exists front back it', (front + back)%nat = 3%nat /\
  ListIter.run 16 (fun (_ : unit) i (s : unit) => (Ok (10 * i), s)) [ListIter.Front; ListIter.Back; ListIter.Back; ListIter.Front]
    (ListIter.new tt 3) tt =
    (Ok (map (fun i => 10 * Z.of_nat i) (seq 0 front), map (fun i => 10 * (3 - 1 - Z.of_nat i)) (seq 0 back), it'), tt).
Proof.
  apply (iterator_from_both_ends 16 (fun (_ : unit) i (s : unit) => (Ok (10 * i), s)) (fun i => 10 * i) tt 3
    [ListIter.Front; ListIter.Back; ListIter.Back; ListIter.Front] tt); [done|lia].
Defined.

(** ** What the wrappers do not do *)

(** [size_hint] still counts the elements that are gone. *)
Example size_hint_counts_what_is_gone :
  match ListIter.next 32 (fun (_ : unit) i (s : unit) => (Ok i, s)) (ListIter.new tt 3) tt with
  | (Ok (Some 0, it), _) => ListIter.size_hint it = (3, Some 3) /\ ListIter.len it = Ok 2
  | _ => False
  end.
Proof. vm_compute. done. Qed.

(** [nth] takes its argument modulo [2^32]. *)
Example nth_wraps_its_argument :
  fst (ListIter.nth 32 (fun (_ : unit) i (s : unit) => (Ok i, s)) (ListIter.new tt 3) (2 ^ 32) tt) =
    Ok (Some 0, {| ListIter.it_list := tt; ListIter.it_index := 1; ListIter.it_size := 3 |}).
Proof. vm_compute. done. Qed.

(** A list of two pointers; [init] of element 2, which there is not, goes
    outside the memory of the message, where [get] panics. *)
Definition lists_world : World HeapAllocator := snd (init_list root_pointer Pointer 2 root_world).
Definition lists_builder : PointerList.Builder :=
  PointerList.Bu (plain_list root_pointer Pointer 2 4120 1).
Example lists_made : init_list root_pointer Pointer 2 root_world = (Ok (PointerList.builder lists_builder), lists_world).
Proof. vm_compute. reflexivity. Qed.
Example init_past_the_end :
  fst (PointerList.init TextBuilder lists_builder 2 3 lists_world) = UB /\
  fst (PointerList.builder_get TextBuilder lists_builder 2 lists_world) = Panic.
Proof. vm_compute. done. Qed.
