(* ===== verification/SchemaCapnp.v ===== *)
(** * Readers of schema.capnp (capnp/src/schema_capnp.rs)

    The accessors that reflection (schema.rs, dynamic_value.rs,
    dynamic_struct.rs) and the code generator (capnpc/src) use: each reader is
    a [StructReader], each accessor a field at the offset the code generator
    gave it. *)

From S2P Require Import Prelude Mem ReadLimiter Segments WirePointer Arena Readers TypedLists TypedPointers StructList.
#[local] Open Scope Z_scope.
#[local] Open Scope rust_scope.
Import TypedLists TypedPointers.

Module SchemaCapnp.

(** [impl From<NotInSchema> for Error] *)
Definition not_in_schema {A} (x : Z) : outcome A := Err (EnumValueOrUnionDiscriminantNotPresent x).

Section accessors.
Context (m : mem) (tables : gmap Z CapTable).

(** A struct list at pointer field [n] *)
Definition list_field (r : StructReader) (n : Z) : ST ReadLimiter ListReader :=
  l ← get_from_pointer (R := StructList.Reader) m tables (get_pointer_field r n) None;
  ret (StructList.reader l).
Definition struct_field (r : StructReader) (n : Z) : ST ReadLimiter StructReader :=
  get_struct m (get_pointer_field r n) None.
Definition text_field (r : StructReader) (n : Z) : ST ReadLimiter TextReader :=
  get_from_pointer m tables (get_pointer_field r n) None.

(** [node] *)
Inductive NodeWhich :=
| NW_File | NW_Struct (r : StructReader) | NW_Enum (r : StructReader) | NW_Interface (r : StructReader)
| NW_Const (r : StructReader) | NW_Annotation (r : StructReader).
Definition node_which (r : StructReader) : outcome NodeWhich :=
  d ← get_data_field m 2 r 6;
  match d with
  | 0 => Ok NW_File
  | 1 => Ok (NW_Struct r)
  | 2 => Ok (NW_Enum r)
  | 3 => Ok (NW_Interface r)
  | 4 => Ok (NW_Const r)
  | 5 => Ok (NW_Annotation r)
  | x => not_in_schema x
  end.
Definition node_get_annotations (r : StructReader) : ST ReadLimiter ListReader := list_field r 2.

(** [node::struct_] *)
Definition get_data_word_count (r : StructReader) : outcome Z := get_data_field m 2 r 7.
Definition get_pointer_count (r : StructReader) : outcome Z := get_data_field m 2 r 12.
Definition get_discriminant_count (r : StructReader) : outcome Z := get_data_field m 2 r 15.
Definition get_discriminant_offset (r : StructReader) : outcome Z := get_data_field m 4 r 8.
Definition struct_get_fields (r : StructReader) : ST ReadLimiter ListReader := list_field r 3.

(** [node::enum_] *)
Definition enum_get_enumerants (r : StructReader) : ST ReadLimiter ListReader := list_field r 3.

(** [field] *)
Definition field_get_name (r : StructReader) : ST ReadLimiter TextReader := text_field r 0.
Definition field_get_annotations (r : StructReader) : ST ReadLimiter ListReader := list_field r 1.
Definition get_discriminant_value (r : StructReader) : outcome Z := get_data_field_mask m 2 r 1 65535.
Definition NO_DISCRIMINANT : Z := 65535.
Inductive FieldWhich := FW_Slot (r : StructReader) | FW_Group (r : StructReader).
Definition field_which (r : StructReader) : outcome FieldWhich :=
  d ← get_data_field m 2 r 4;
  match d with
  | 0 => Ok (FW_Slot r)
  | 1 => Ok (FW_Group r)
  | x => not_in_schema x
  end.

(** [field::slot] *)
Definition slot_get_offset (r : StructReader) : outcome Z := get_data_field m 4 r 1.
Definition slot_get_default_value (r : StructReader) : ST ReadLimiter StructReader := struct_field r 3.

(** [enumerant] *)
Definition enumerant_get_name (r : StructReader) : ST ReadLimiter TextReader := text_field r 0.
Definition enumerant_get_annotations (r : StructReader) : ST ReadLimiter ListReader := list_field r 1.

(** [value]; a text or data value is the result of reading it. *)
Inductive ValueWhich :=
| VW_Void | VW_Bool (b : bool)
| VW_Int8 (x : Z) | VW_Int16 (x : Z) | VW_Int32 (x : Z) | VW_Int64 (x : Z)
| VW_Uint8 (x : Z) | VW_Uint16 (x : Z) | VW_Uint32 (x : Z) | VW_Uint64 (x : Z)
| VW_Float32 (bits : Z) | VW_Float64 (bits : Z)
| VW_Text (t : TextReader + ErrorKind) | VW_Data (d : DataReader + ErrorKind)
| VW_List (l : AnyReader) | VW_Enum (d : Z) | VW_Struct (s : AnyReader) | VW_Interface | VW_AnyPointer (a : AnyReader).

(** A [Result] kept as a value *)
Definition keep_result {S A} (c : ST S A) : ST S (A + ErrorKind) := fun s =>
  match c s with
  | (Ok a, s) => (Ok (inl a), s)
  | (Err e, s) => (Ok (inr e), s)
  | (Panic, s) => (Panic, s)
  | (UB, s) => (UB, s)
  | (OutOfFuel, s) => (OutOfFuel, s)
  end.
(** [x?] for such a value *)
Definition question {S A} (x : A + ErrorKind) : ST S A := match x with inl a => ret a | inr e => fails e end.

Definition signed_field (n : Z) (r : StructReader) (offset : Z) : outcome Z :=
  v ← get_data_field m n r offset; Ok (as_signed n v).

Definition value_which (r : StructReader) : ST ReadLimiter ValueWhich :=
  d ← lift (get_data_field m 2 r 0);
  match d with
  | 0 => ret VW_Void
  | 1 => b ← lift (get_bool_field m r 16); ret (VW_Bool b)
  | 2 => x ← lift (signed_field 1 r 2); ret (VW_Int8 x)
  | 3 => x ← lift (signed_field 2 r 1); ret (VW_Int16 x)
  | 4 => x ← lift (signed_field 4 r 1); ret (VW_Int32 x)
  | 5 => x ← lift (signed_field 8 r 1); ret (VW_Int64 x)
  | 6 => x ← lift (get_data_field m 1 r 2); ret (VW_Uint8 x)
  | 7 => x ← lift (get_data_field m 2 r 1); ret (VW_Uint16 x)
  | 8 => x ← lift (get_data_field m 4 r 1); ret (VW_Uint32 x)
  | 9 => x ← lift (get_data_field m 8 r 1); ret (VW_Uint64 x)
  | 10 => x ← lift (get_data_field m 4 r 1); ret (VW_Float32 x)
  | 11 => x ← lift (get_data_field m 8 r 1); ret (VW_Float64 x)
  | 12 => t ← keep_result (get_from_pointer m tables (get_pointer_field r 0) None); ret (VW_Text t)
  | 13 => t ← keep_result (get_from_pointer m tables (get_pointer_field r 0) None); ret (VW_Data t)
  | 14 => ret (VW_List (Any (get_pointer_field r 0)))
  | 15 => x ← lift (get_data_field m 2 r 1); ret (VW_Enum x)
  | 16 => ret (VW_Struct (Any (get_pointer_field r 0)))
  | 17 => ret VW_Interface
  | 18 => ret (VW_AnyPointer (Any (get_pointer_field r 0)))
  | x => lift (not_in_schema x)
  end.

(** [annotation] *)
Definition annotation_get_id (r : StructReader) : outcome Z := get_data_field m 8 r 0.
Definition annotation_get_value (r : StructReader) : ST ReadLimiter StructReader := struct_field r 0.

(** ** For the code generator *)

(** [node], [node::parameter], [node::nested_node], [node::annotation] *)
Definition node_get_id (r : StructReader) : outcome Z := get_data_field m 8 r 0.
Definition node_get_scope_id (r : StructReader) : outcome Z := get_data_field m 8 r 2.
Definition get_nested_nodes (r : StructReader) : ST ReadLimiter ListReader := list_field r 1.
Definition get_parameters (r : StructReader) : ST ReadLimiter ListReader := list_field r 5.
Definition get_is_generic (r : StructReader) : outcome bool := get_bool_field m r 288.
Definition parameter_get_name (r : StructReader) : ST ReadLimiter TextReader := text_field r 0.
Definition nested_node_get_name (r : StructReader) : ST ReadLimiter TextReader := text_field r 0.
Definition nested_node_get_id (r : StructReader) : outcome Z := get_data_field m 8 r 0.
Definition annotation_node_get_type (r : StructReader) : ST ReadLimiter StructReader := struct_field r 3.

(** [node::interface], [method] *)
Definition get_methods (r : StructReader) : ST ReadLimiter ListReader := list_field r 3.
Definition get_param_struct_type (r : StructReader) : outcome Z := get_data_field m 8 r 1.
Definition get_result_struct_type (r : StructReader) : outcome Z := get_data_field m 8 r 2.

(** [field::slot], [field::group] *)
Definition slot_get_type (r : StructReader) : ST ReadLimiter StructReader := struct_field r 2.
Definition get_had_explicit_default (r : StructReader) : outcome bool := get_bool_field m r 128.
Definition group_get_type_id (r : StructReader) : outcome Z := get_data_field m 8 r 2.

(** [type_] *)
Inductive TypeWhich :=
| TW_Void | TW_Bool | TW_Int8 | TW_Int16 | TW_Int32 | TW_Int64 | TW_Uint8 | TW_Uint16 | TW_Uint32 | TW_Uint64
| TW_Float32 | TW_Float64 | TW_Text | TW_Data
| TW_List (r : StructReader) | TW_Enum (r : StructReader) | TW_Struct (r : StructReader) | TW_Interface (r : StructReader)
| TW_AnyPointer (r : StructReader).
Definition type_which (r : StructReader) : outcome TypeWhich :=
  d ← get_data_field m 2 r 0;
  match d with
  | 0 => Ok TW_Void
  | 1 => Ok TW_Bool
  | 2 => Ok TW_Int8
  | 3 => Ok TW_Int16
  | 4 => Ok TW_Int32
  | 5 => Ok TW_Int64
  | 6 => Ok TW_Uint8
  | 7 => Ok TW_Uint16
  | 8 => Ok TW_Uint32
  | 9 => Ok TW_Uint64
  | 10 => Ok TW_Float32
  | 11 => Ok TW_Float64
  | 12 => Ok TW_Text
  | 13 => Ok TW_Data
  | 14 => Ok (TW_List r)
  | 15 => Ok (TW_Enum r)
  | 16 => Ok (TW_Struct r)
  | 17 => Ok (TW_Interface r)
  | 18 => Ok (TW_AnyPointer r)
  | x => not_in_schema x
  end.
Definition get_element_type (r : StructReader) : ST ReadLimiter StructReader := struct_field r 0.
(** [type_::enum_], [type_::struct_] and [type_::interface] *)
Definition type_get_type_id (r : StructReader) : outcome Z := get_data_field m 8 r 1.
Definition type_get_brand (r : StructReader) : ST ReadLimiter StructReader := struct_field r 0.
(** [type_::any_pointer], [type_::any_pointer::parameter] *)
Inductive AnyPointerWhich := APW_Unconstrained | APW_Parameter (r : StructReader) | APW_ImplicitMethodParameter.
Definition any_pointer_which (r : StructReader) : outcome AnyPointerWhich :=
  d ← get_data_field m 2 r 4;
  match d with
  | 0 => Ok APW_Unconstrained
  | 1 => Ok (APW_Parameter r)
  | 2 => Ok APW_ImplicitMethodParameter
  | x => not_in_schema x
  end.
Definition parameter_get_scope_id (r : StructReader) : outcome Z := get_data_field m 8 r 2.
Definition get_parameter_index (r : StructReader) : outcome Z := get_data_field m 2 r 5.

(** [brand], [brand::scope], [brand::binding] *)
Definition get_scopes (r : StructReader) : ST ReadLimiter ListReader := list_field r 0.
Definition scope_get_scope_id (r : StructReader) : outcome Z := get_data_field m 8 r 0.
Inductive ScopeWhich := SW_Bind (l : ListReader + ErrorKind) | SW_Inherit.
Definition scope_which (r : StructReader) : ST ReadLimiter ScopeWhich :=
  d ← lift (get_data_field m 2 r 4);
  match d with
  | 0 => l ← keep_result (list_field r 0); ret (SW_Bind l)
  | 1 => ret SW_Inherit
  | x => lift (not_in_schema x)
  end.
Inductive BindingWhich := BW_Unbound | BW_Type (t : StructReader + ErrorKind).
Definition binding_which (r : StructReader) : ST ReadLimiter BindingWhich :=
  d ← lift (get_data_field m 2 r 0);
  match d with
  | 0 => ret BW_Unbound
  | 1 => t ← keep_result (struct_field r 0); ret (BW_Type t)
  | x => lift (not_in_schema x)
  end.
Definition annotation_get_brand (r : StructReader) : ST ReadLimiter StructReader := struct_field r 1.

(** [code_generator_request], [requested_file], [requested_file::import] *)
Definition get_nodes (r : StructReader) : ST ReadLimiter ListReader := list_field r 0.
Definition get_requested_files (r : StructReader) : ST ReadLimiter ListReader := list_field r 1.
Definition requested_file_get_id (r : StructReader) : outcome Z := get_data_field m 8 r 0.
Definition get_filename (r : StructReader) : ST ReadLimiter TextReader := text_field r 0.
Definition get_imports (r : StructReader) : ST ReadLimiter ListReader := list_field r 1.
Definition import_get_id (r : StructReader) : outcome Z := get_data_field m 8 r 0.
Definition import_get_name (r : StructReader) : ST ReadLimiter TextReader := text_field r 0.

End accessors.
End SchemaCapnp.
