(* ===== verification/Schema.v ===== *)
(** * Schemas of struct and enum types (capnp/src/schema.rs)

    A schema is a message in static memory with tables the code generator
    computed.  Reading it charges no limit, so the read limit threaded through
    the definitions is that of the message the caller reads. *)

From S2P Require Import Prelude Mem ReadLimiter Segments WirePointer Arena Readers TypedLists TypedPointers StructList.
From S2P Require Import ListIter Introspect SchemaCapnp.
From stdpp Require Import list.
#[local] Open Scope Z_scope.
#[local] Open Scope rust_scope.
Import TypedLists TypedPointers Introspect SchemaCapnp.

Module Schema.

Record StructSchema := { raw : RawBrandedStructSchema; proto : StructReader }.
Record EnumSchema := { enum_raw : RawEnumSchema; enum_proto : StructReader }.
Record Field := { field_proto : StructReader; index : Z; ty : Ty; parent : StructSchema }.
Record FieldList := { fields : ListReader; fields_parent : StructSchema }.
Record FieldSubset := { subset_fields : ListReader; indices : list Z; subset_parent : StructSchema }.
Record Enumerant := { ordinal : Z; containing_enum : EnumSchema; enumerant_proto : StructReader }.
Record EnumerantList := { enumerants : ListReader; enumerants_parent : EnumSchema }.
Record Annotation := { annotation_proto : StructReader; annotation_ty : Ty }.
Record AnnotationList := { annotations : ListReader; child_index : option Z; get_annotation_type : Z }.

(** [struct_list::Reader::get] *)
Definition struct_list_get (l : ListReader) (i : Z) : outcome StructReader := StructList.get (StructList.R l) i.

Section schema.
Context `{GeneratedCode} (m : mem) (tables : gmap Z CapTable).

Definition statics (s : StructSchema) : RawStructSchema := raw_struct_schema (generic (raw s)).

(** [StructSchema::new]: [.unwrap()] twice *)
Definition StructSchema_new (r : RawBrandedStructSchema) : ST ReadLimiter StructSchema :=
  root ← unwrap_result (get_root_from_arena (generated_arena (arena (raw_struct_schema (generic r)))));
  p ← unwrap_result (get_struct m root None);
  ret {| raw := r; proto := p |}.

Definition get_fields (s : StructSchema) : ST ReadLimiter FieldList :=
  w ← lift (node_which m (proto s));
  match w with
  | NW_Struct st => l ← struct_get_fields m tables st; ret {| fields := l; fields_parent := s |}
  | _ => lift Panic
  end.

Definition FieldList_len (l : FieldList) : Z := wrap16 (lr_element_count (fields l)).
Definition FieldList_get (l : FieldList) (i : Z) : outcome Field :=
  p ← struct_list_get (fields l) i;
  t ← call_field_types (field_types (raw (fields_parent l))) i;
  Ok {| field_proto := p; index := i; ty := t; parent := fields_parent l |}.
Definition FieldList_iter (l : FieldList) : ListIter.Iter FieldList := ListIter.new l (FieldList_len l).

Definition get_field_by_discriminant (s : StructSchema) (discriminant : Z) : ST ReadLimiter (option Field) :=
  match members_by_discriminant (statics s) !! Z.to_nat discriminant with
  | None => ret None
  | Some idx => l ← get_fields s; f ← lift (FieldList_get l idx); ret (Some f)
  end.

(** The bytes of a text *)
Definition text_of (t : TextReader) : outcome (list byte) := load_bytes m (bs_ptr (text_bytes t)) (bs_len (text_bytes t)).
Definition field_name (f : Field) : ST ReadLimiter (list byte) :=
  t ← field_get_name m tables (field_proto f); lift (text_of t).

(** [find_field_by_name]: [while lower < upper] *)
Fixpoint search_by_name (fuel : nat) (s : StructSchema) (l : FieldList) (name : list byte) (lower upper : Z) :
    ST ReadLimiter (option Field) :=
  match fuel with
  | O => lift OutOfFuel
  | S fuel =>
      if lower <? upper then
        let mid := (lower + upper) / 2 in
        match members_by_name (statics s) !! Z.to_nat mid with
        | None => lift Panic
        | Some candidate_index =>
            candidate ← lift (FieldList_get l candidate_index);
            candidate_name ← field_name candidate;
            match bytes_compare name candidate_name with
            | Eq => f ← lift (FieldList_get l candidate_index); ret (Some f)
            | Gt => search_by_name fuel s l name (mid + 1) upper
            | Lt => search_by_name fuel s l name lower mid
            end
        end
      else ret None
  end.
Definition find_field_by_name (s : StructSchema) (name : list byte) : ST ReadLimiter (option Field) :=
  l ← get_fields s;
  let n := length (members_by_name (statics s)) in
  search_by_name (S n) s l name 0 (Z.of_nat n).

Definition get_field_by_name (s : StructSchema) (name : list byte) : ST ReadLimiter Field :=
  o ← find_field_by_name s name;
  match o with Some f => ret f | None => fails FieldNotFound end.

Definition get_union_fields (s : StructSchema) : ST ReadLimiter FieldSubset :=
  w ← lift (node_which m (proto s));
  match w with
  | NW_Struct st =>
      l ← struct_get_fields m tables st;
      ret {| subset_fields := l; indices := members_by_discriminant (statics s); subset_parent := s |}
  | _ => lift Panic
  end.
Definition get_non_union_fields (s : StructSchema) : ST ReadLimiter FieldSubset :=
  w ← lift (node_which m (proto s));
  match w with
  | NW_Struct st =>
      l ← struct_get_fields m tables st;
      ret {| subset_fields := l; indices := nonunion_members (statics s); subset_parent := s |}
  | _ => lift Panic
  end.

Definition FieldSubset_len (l : FieldSubset) : Z := wrap16 (Z.of_nat (length (indices l))).
Definition FieldSubset_get (l : FieldSubset) (i : Z) : outcome Field :=
  idx ← match indices l !! Z.to_nat i with Some x => Ok x | None => Panic end;
  p ← struct_list_get (subset_fields l) idx;
  t ← call_field_types (field_types (raw (subset_parent l))) idx;
  Ok {| field_proto := p; index := idx; ty := t; parent := subset_parent l |}.
Definition FieldSubset_iter (l : FieldSubset) : ListIter.Iter FieldSubset := ListIter.new l (FieldSubset_len l).

(** ** Enums *)

Definition EnumSchema_new (r : RawEnumSchema) : ST ReadLimiter EnumSchema :=
  p ← unwrap_result (get_struct m (get_root_unchecked (encoded_node r)) None);
  ret {| enum_raw := r; enum_proto := p |}.
Definition get_enumerants (s : EnumSchema) : ST ReadLimiter EnumerantList :=
  w ← lift (node_which m (enum_proto s));
  match w with
  | NW_Enum e => l ← enum_get_enumerants m tables e; ret {| enumerants := l; enumerants_parent := s |}
  | _ => lift Panic
  end.
Definition EnumerantList_len (l : EnumerantList) : Z := wrap16 (lr_element_count (enumerants l)).
Definition EnumerantList_get (l : EnumerantList) (i : Z) : outcome Enumerant :=
  p ← struct_list_get (enumerants l) i;
  Ok {| ordinal := i; containing_enum := enumerants_parent l; enumerant_proto := p |}.
Definition EnumerantList_iter (l : EnumerantList) : ListIter.Iter EnumerantList := ListIter.new l (EnumerantList_len l).

(** ** Annotations *)

Definition struct_get_annotations (s : StructSchema) : ST ReadLimiter AnnotationList :=
  l ← node_get_annotations m tables (proto s);
  ret {| annotations := l; child_index := None; get_annotation_type := annotation_types (raw s) |}.
Definition Field_get_annotations (f : Field) : ST ReadLimiter AnnotationList :=
  l ← field_get_annotations m tables (field_proto f);
  ret {| annotations := l; child_index := Some (index f); get_annotation_type := annotation_types (raw (parent f)) |}.
Definition enum_get_annotations (s : EnumSchema) : ST ReadLimiter AnnotationList :=
  l ← node_get_annotations m tables (enum_proto s);
  ret {| annotations := l; child_index := None; get_annotation_type := enum_annotation_types (enum_raw s) |}.
Definition Enumerant_get_annotations (e : Enumerant) : ST ReadLimiter AnnotationList :=
  l ← enumerant_get_annotations m tables (enumerant_proto e);
  ret {| annotations := l; child_index := Some (ordinal e);
         get_annotation_type := enum_annotation_types (enum_raw (containing_enum e)) |}.

Definition AnnotationList_len (l : AnnotationList) : Z := lr_element_count (annotations l).
Definition AnnotationList_get (l : AnnotationList) (i : Z) : outcome Annotation :=
  p ← struct_list_get (annotations l) i;
  t ← call_annotation_types (get_annotation_type l) (child_index l) i;
  Ok {| annotation_proto := p; annotation_ty := t |}.
Definition AnnotationList_iter (l : AnnotationList) : ListIter.Iter AnnotationList := ListIter.new l (AnnotationList_len l).

Definition annotation_id (a : Annotation) : outcome Z := annotation_get_id m (annotation_proto a).
(** [self.iter().find(|&annotation| annotation.get_id() == id)] *)
Fixpoint find_annotation (fuel : nat) (it : ListIter.Iter AnnotationList) (id : Z) : outcome (option Annotation) :=
  match fuel with
  | O => OutOfFuel
  | S fuel =>
      '(r, it) ← fst (ListIter.next 32 (fun l i (s : unit) => (AnnotationList_get l i, s)) it tt);
      match r with
      | None => Ok None
      | Some a => x ← annotation_id a; if x =? id then Ok (Some a) else find_annotation fuel it id
      end
  end.
Definition AnnotationList_find (l : AnnotationList) (id : Z) : outcome (option Annotation) :=
  find_annotation (S (Z.to_nat (AnnotationList_len l))) (AnnotationList_iter l) id.
End schema.
End Schema.
