(* ===== verification/DynamicValue.v ===== *)
(** * Dynamically typed values, reading (capnp/src/dynamic_value.rs,
    dynamic_struct.rs, dynamic_list.rs) *)

From S2P Require Import Prelude Mem ReadLimiter Segments WirePointer Arena Readers TypedLists TypedPointers.
From S2P Require Import ListIter Introspect SchemaCapnp Schema.
From stdpp Require Import list.
#[local] Open Scope Z_scope.
#[local] Open Scope rust_scope.
Import TypedLists TypedPointers Introspect SchemaCapnp Schema.

Module DynamicValue.

(** [dynamic_struct::Reader], [dynamic_list::Reader], [dynamic_value::Enum] *)
Record StructValue := { ds_reader : StructReader; ds_schema : StructSchema }.
Record ListValue := { dl_reader : ListReader; dl_element_type : Ty }.
Record EnumValue := { ev_value : Z; ev_schema : EnumSchema }.

(** [dynamic_value::Reader]; a float is its bits. *)
Inductive Value :=
| V_Void | V_Bool (b : bool)
| V_Int8 (x : Z) | V_Int16 (x : Z) | V_Int32 (x : Z) | V_Int64 (x : Z)
| V_UInt8 (x : Z) | V_UInt16 (x : Z) | V_UInt32 (x : Z) | V_UInt64 (x : Z)
| V_Float32 (bits : Z) | V_Float64 (bits : Z)
| V_Enum (e : EnumValue) | V_Text (t : TextReader) | V_Data (d : DataReader)
| V_Struct (s : StructValue) | V_List (l : ListValue) | V_AnyPointer (a : AnyReader) | V_Capability.

Section values.
Context `{GeneratedCode} (m : mem) (tables : gmap Z CapTable).

(** [schema.into()] *)
Definition struct_value (r : StructReader) (rs : RawBrandedStructSchema) : ST ReadLimiter Value :=
  s ← StructSchema_new m rs; ret (V_Struct {| ds_reader := r; ds_schema := s |}).
Definition enum_value (v : Z) (re : RawEnumSchema) : ST ReadLimiter Value :=
  s ← EnumSchema_new m re; ret (V_Enum {| ev_value := v; ev_schema := s |}).
Definition list_value (r : ListReader) (element_type : Ty) : Value :=
  V_List {| dl_reader := r; dl_element_type := element_type |}.

(** [dynamic_value::Reader::new] *)
Definition Value_new (value : StructReader) (t : Ty) : ST ReadLimiter Value :=
  v ← value_which m tables value;
  match v, which t with
  | VW_Void, _ => ret V_Void
  | VW_Bool b, _ => ret (V_Bool b)
  | VW_Int8 x, _ => ret (V_Int8 x)
  | VW_Int16 x, _ => ret (V_Int16 x)
  | VW_Int32 x, _ => ret (V_Int32 x)
  | VW_Int64 x, _ => ret (V_Int64 x)
  | VW_Uint8 x, _ => ret (V_UInt8 x)
  | VW_Uint16 x, _ => ret (V_UInt16 x)
  | VW_Uint32 x, _ => ret (V_UInt32 x)
  | VW_Uint64 x, _ => ret (V_UInt64 x)
  | VW_Float32 x, _ => ret (V_Float32 x)
  | VW_Float64 x, _ => ret (V_Float64 x)
  | VW_Enum d, TV_Enum e => enum_value d e
  | VW_Text t, _ => t ← question t; ret (V_Text t)
  | VW_Data d, _ => d ← question d; ret (V_Data d)
  | VW_Struct d, TV_Struct schema => r ← get_struct m (any_reader d) None; struct_value r schema
  | VW_List l, TV_List element_type =>
      r ← get_list m (any_reader l) (expected_element_size element_type) None;
      ret (list_value r element_type)
  | VW_Interface, TV_Capability => ret V_Capability
  | VW_AnyPointer a, TV_AnyPointer => ret (V_AnyPointer a)
  | _, _ => fails TypeMismatch
  end.

(** [Annotation::get_value] *)
Definition Annotation_get_value (a : Annotation) : ST ReadLimiter Value :=
  v ← annotation_get_value m (annotation_proto a); Value_new v (annotation_ty a).

(** [Enum::get_enumerant] *)
Definition get_enumerant (e : EnumValue) : ST ReadLimiter (option Enumerant) :=
  l ← get_enumerants m tables (ev_schema e);
  if ev_value e <? EnumerantList_len l then x ← lift (EnumerantList_get l (ev_value e)); ret (Some x) else ret None.

(** ** [dynamic_struct::Reader] *)

Definition has_discriminant_value (f : StructReader) : outcome bool :=
  d ← get_discriminant_value m f; Ok (negb (d =? NO_DISCRIMINANT)).

Definition struct_size_from_schema (s : StructSchema) : outcome StructSize :=
  w ← node_which m (proto s);
  match w with
  | NW_Struct st => d ← get_data_word_count m st; p ← get_pointer_count m st; Ok {| data := d; pointers := p |}
  | _ => Err NotAStruct
  end.

(** [assert!(core::ptr::eq(self.schema.raw.generic, field.parent.raw.generic))] *)
Definition same_struct (s : StructSchema) (f : Field) : outcome unit :=
  rust_assert (generic (raw s) =? generic (raw (parent f))).

(** [get_data_field_mask::<iN>] *)
Definition get_signed_field_mask (n : Z) (r : StructReader) (offset mask : Z) : outcome Z :=
  v ← get_data_field m n r offset; Ok (Z.lxor (as_signed n v) mask).

(** The pointer of a field, or that of its default value if it is null *)
Definition pointer_or_default (p : PointerReader) (default : option PointerReader) : outcome PointerReader :=
  null ← PointerReader_is_null m p;
  Ok (match null, default with true, Some d => d | _, _ => p end).

(** The fields that are pointers, in [get]: [default] is the default value. *)
Definition get_text_field (r : StructReader) (offset : Z) (dval : ValueWhich) : ST ReadLimiter Value :=
  let p := get_pointer_field r offset in
  null ← lift (PointerReader_is_null m p);
  t ← match null, dval with
      | true, VW_Text t => question t
      | _, _ => get_from_pointer m tables p None
      end;
  ret (V_Text t).
Definition get_data_field_value (r : StructReader) (offset : Z) (dval : ValueWhich) : ST ReadLimiter Value :=
  let p := get_pointer_field r offset in
  null ← lift (PointerReader_is_null m p);
  d ← match null, dval with
      | true, VW_Data d => question d
      | _, _ => get_from_pointer m tables p None
      end;
  ret (V_Data d).
Definition get_struct_field (r : StructReader) (offset : Z) (schema : RawBrandedStructSchema) (dval : ValueWhich) :
    ST ReadLimiter Value :=
  p ← lift (pointer_or_default (get_pointer_field r offset)
              (match dval with VW_Struct s => Some (any_reader s) | _ => None end));
  s ← get_struct m p None;
  struct_value s schema.
Definition get_list_field (r : StructReader) (offset : Z) (element_type : Ty) (dval : ValueWhich) : ST ReadLimiter Value :=
  p ← lift (pointer_or_default (get_pointer_field r offset)
              (match dval with VW_List l => Some (any_reader l) | _ => None end));
  l ← get_list m p (expected_element_size element_type) None;
  ret (list_value l element_type).

(** A slot in [get] *)
Definition get_slot (r : StructReader) (t : Ty) (offset : Z) (dval : ValueWhich) : ST ReadLimiter Value :=
  match which t, dval with
  | TV_Void, _ => ret V_Void
  | TV_Bool, VW_Bool b => v ← lift (get_bool_field_mask m r offset b); ret (V_Bool v)
  | TV_Int8, VW_Int8 x => v ← lift (get_signed_field_mask 1 r offset x); ret (V_Int8 v)
  | TV_Int16, VW_Int16 x => v ← lift (get_signed_field_mask 2 r offset x); ret (V_Int16 v)
  | TV_Int32, VW_Int32 x => v ← lift (get_signed_field_mask 4 r offset x); ret (V_Int32 v)
  | TV_Int64, VW_Int64 x => v ← lift (get_signed_field_mask 8 r offset x); ret (V_Int64 v)
  | TV_UInt8, VW_Uint8 x => v ← lift (get_data_field_mask m 1 r offset x); ret (V_UInt8 v)
  | TV_UInt16, VW_Uint16 x => v ← lift (get_data_field_mask m 2 r offset x); ret (V_UInt16 v)
  | TV_UInt32, VW_Uint32 x => v ← lift (get_data_field_mask m 4 r offset x); ret (V_UInt32 v)
  | TV_UInt64, VW_Uint64 x => v ← lift (get_data_field_mask m 8 r offset x); ret (V_UInt64 v)
  | TV_Float32, VW_Float32 x => v ← lift (get_data_field_mask m 4 r offset x); ret (V_Float32 v)
  | TV_Float64, VW_Float64 x => v ← lift (get_data_field_mask m 8 r offset x); ret (V_Float64 v)
  | TV_Enum schema, VW_Enum d => v ← lift (get_data_field_mask m 2 r offset d); enum_value v schema
  | TV_Text, _ => get_text_field r offset dval
  | TV_Data, _ => get_data_field_value r offset dval
  | TV_Struct schema, _ => get_struct_field r offset schema dval
  | TV_List element_type, _ => get_list_field r offset element_type dval
  | TV_AnyPointer, VW_AnyPointer a =>
      p ← lift (pointer_or_default (get_pointer_field r offset) (Some (any_reader a)));
      ret (V_AnyPointer (Any p))
  | TV_Capability, VW_Interface => ret V_Capability
  | _, _ => fails FieldAndDefaultMismatch
  end.

(** [dynamic_struct::Reader::get] *)
Definition get (s : StructValue) (f : Field) : ST ReadLimiter Value :=
  lift (same_struct (ds_schema s) f) ;;
  w ← lift (field_which m (field_proto f));
  match w with
  | FW_Slot slot =>
      offset ← lift (slot_get_offset m slot);
      default_value ← slot_get_default_value m slot;
      dval ← value_which m tables default_value;
      get_slot (ds_reader s) (ty f) offset dval
  | FW_Group _ =>
      match which (ty f) with
      | TV_Struct schema => struct_value (ds_reader s) schema
      | _ => fails GroupFieldButTypeIsNotStruct
      end
  end.

Definition get_named (s : StructValue) (name : list byte) : ST ReadLimiter Value :=
  f ← get_field_by_name m tables (ds_schema s) name; get s f.

(** [dynamic_struct::Reader::which] *)
Definition which_field (s : StructValue) : ST ReadLimiter (option Field) :=
  w ← lift (node_which m (proto (ds_schema s)));
  match w with
  | NW_Struct st =>
      count ← lift (get_discriminant_count m st);
      if count =? 0 then ret None
      else
        o ← lift (get_discriminant_offset m st);
        discrim ← lift (get_data_field m 2 (ds_reader s) o);
        get_field_by_discriminant m tables (ds_schema s) discrim
  | _ => fails NotAStruct
  end.

(** The second half of [has] *)
Definition has_pointer (s : StructValue) (f : Field) : outcome bool :=
  w ← field_which m (field_proto f);
  match w with
  | FW_Group _ => Ok true
  | FW_Slot slot =>
      if is_pointer_type (ty f) then
        o ← slot_get_offset m slot;
        null ← PointerReader_is_null m (get_pointer_field (ds_reader s) o);
        Ok (negb null)
      else Ok true
  end.

(** [dynamic_struct::Reader::has] *)
Definition has (s : StructValue) (f : Field) : outcome bool :=
  same_struct (ds_schema s) f ;;
  d ← has_discriminant_value (field_proto f);
  if d : bool then
    w ← node_which m (proto (ds_schema s));
    match w with
    | NW_Struct st =>
        o ← get_discriminant_offset m st;
        discrim ← get_data_field m 2 (ds_reader s) o;
        v ← get_discriminant_value m (field_proto f);
        if negb (discrim =? v) then Ok false else has_pointer s f
    | _ => Err NotAStruct
    end
  else has_pointer s f.

Definition has_named (s : StructValue) (name : list byte) : ST ReadLimiter bool :=
  f ← get_field_by_name m tables (ds_schema s) name; lift (has s f).

(** ** [dynamic_list::Reader] *)

Definition ListValue_len (l : ListValue) : Z := lr_element_count (dl_reader l).
Definition ListValue_is_empty (l : ListValue) : bool := ListValue_len l =? 0.

Definition element {T} `{PrimitiveElement T} (l : ListValue) (i : Z) : ST ReadLimiter T :=
  lift (element_get m (dl_reader l) i).

Definition list_get (l : ListValue) (i : Z) : ST ReadLimiter Value :=
  lift (rust_assert (i <? ListValue_len l)) ;;
  match which (dl_element_type l) with
  | TV_Void => ret V_Void
  | TV_Bool => x ← element (T := bool) l i; ret (V_Bool x)
  | TV_Int8 => x ← element (T := Signed 1) l i; ret (V_Int8 (signed x))
  | TV_Int16 => x ← element (T := Signed 2) l i; ret (V_Int16 (signed x))
  | TV_Int32 => x ← element (T := Signed 4) l i; ret (V_Int32 (signed x))
  | TV_Int64 => x ← element (T := Signed 8) l i; ret (V_Int64 (signed x))
  | TV_UInt8 => x ← element (T := Unsigned 1) l i; ret (V_UInt8 (unsigned x))
  | TV_UInt16 => x ← element (T := Unsigned 2) l i; ret (V_UInt16 (unsigned x))
  | TV_UInt32 => x ← element (T := Unsigned 4) l i; ret (V_UInt32 (unsigned x))
  | TV_UInt64 => x ← element (T := Unsigned 8) l i; ret (V_UInt64 (unsigned x))
  | TV_Float32 => x ← element (T := Unsigned 4) l i; ret (V_Float32 (unsigned x))
  | TV_Float64 => x ← element (T := Unsigned 8) l i; ret (V_Float64 (unsigned x))
  | TV_Enum e => x ← element (T := Unsigned 2) l i; enum_value (unsigned x) e
  | TV_Text =>
      p ← lift (get_pointer_element (dl_reader l) i);
      t ← get_from_pointer m tables p None; ret (V_Text t)
  | TV_Data =>
      p ← lift (get_pointer_element (dl_reader l) i);
      d ← get_from_pointer m tables p None; ret (V_Data d)
  | TV_List element_type =>
      p ← lift (get_pointer_element (dl_reader l) i);
      r ← get_list m p (expected_element_size element_type) None;
      ret (list_value r element_type)
  | TV_Struct ss => r ← lift (get_struct_element (dl_reader l) i); struct_value r ss
  | TV_AnyPointer => p ← lift (get_pointer_element (dl_reader l) i); ret (V_AnyPointer (Any p))
  | TV_Capability => ret V_Capability
  end.

Definition list_iter (l : ListValue) : ListIter.Iter ListValue := ListIter.new l (ListValue_len l).
End values.

(** ** Downcasts: [DowncastReader] *)

Class Downcast (T : Type) := downcast_reader : Value -> outcome T.
#[export] Instance downcast_void : Downcast unit := fun v => match v with V_Void => Ok tt | _ => Panic end.
#[export] Instance downcast_bool : Downcast bool := fun v => match v with V_Bool x => Ok x | _ => Panic end.
#[export] Instance downcast_enum : Downcast EnumValue := fun v => match v with V_Enum x => Ok x | _ => Panic end.
#[export] Instance downcast_text : Downcast TextReader := fun v => match v with V_Text x => Ok x | _ => Panic end.
#[export] Instance downcast_data : Downcast DataReader := fun v => match v with V_Data x => Ok x | _ => Panic end.
#[export] Instance downcast_list : Downcast ListValue := fun v => match v with V_List x => Ok x | _ => Panic end.
#[export] Instance downcast_dynamic_struct : Downcast StructValue := fun v => match v with V_Struct x => Ok x | _ => Panic end.
#[export] Instance downcast_any : Downcast AnyReader := fun v => match v with V_AnyPointer x => Ok x | _ => Panic end.
(** [i8] to [i64] and [u8] to [u64] *)
#[export] Instance downcast_signed n : Downcast (Signed n) := fun v =>
  match v, n with
  | V_Int8 x, 1 | V_Int16 x, 2 | V_Int32 x, 4 | V_Int64 x, 8 => Ok (I x)
  | _, _ => Panic
  end.
#[export] Instance downcast_unsigned n : Downcast (Unsigned n) := fun v =>
  match v, n with
  | V_UInt8 x, 1 | V_UInt16 x, 2 | V_UInt32 x, 4 | V_UInt64 x, 8 => Ok (U x)
  | _, _ => Panic
  end.
(** [f32] and [f64], by their bits *)
Inductive Float (n : Z) := F (bits : Z).
Arguments F {n} _.
#[export] Instance downcast_float n : Downcast (Float n) := fun v =>
  match v, n with
  | V_Float32 x, 4 | V_Float64 x, 8 => Ok (F x)
  | _, _ => Panic
  end.

(** [dynamic_struct::Reader::downcast::<T>] and [downcast_struct], for a [T]
    whose type is [t] *)
Definition downcast_struct (t : Ty) (v : Value) : outcome StructReader :=
  s ← downcast_reader v;
  rust_assert (loose_equals (new_base (BT_Struct (raw (ds_schema s)))) t) ;;
  Ok (ds_reader s).

(** The [DowncastReader] of the typed lists, for elements of type [t] *)
Definition downcast_typed_list (t : Ty) (v : Value) : outcome ListReader :=
  l ← downcast_reader v;
  rust_assert (loose_equals (dl_element_type l) t) ;;
  Ok (dl_reader l).

(** [From<primitive_list::Reader<T>> for dynamic_value::Reader] and the like,
    for elements of type [t] *)
Definition value_from_list (t : Ty) (r : ListReader) : Value := list_value r t.

End DynamicValue.
