(* ===== verification/DynamicSafe.v ===== *)
(** * Reading through a schema is type safe

    Schemas are what the code generator emits, so what is assumed of them is
    stated once, in [GeneratedOk]; then a value read dynamically has the type
    its schema gives it, and is safe to read on. *)

From S2P Require Import Prelude Mem ReadLimiter Segments WirePointer Arena Readers ReadersSafe TypedLists TypedPointers.
From S2P Require Import StructList ListIter Introspect SchemaCapnp Schema DynamicValue.
From stdpp Require Import list.
#[local] Open Scope Z_scope.
#[local] Open Scope rust_scope.
Import TypedLists TypedPointers Introspect SchemaCapnp Schema DynamicValue.

(** ** Reading with a limiter that may stop it *)

(** Neither a panic nor an access out of bounds, and [P] of the result *)
Definition sound {A} (o : outcome A) (P : A -> Prop) : Prop :=
  match o with Ok a => P a | Err _ => True | _ => False end.
Definition reads {A} (c : ST ReadLimiter A) (P : A -> Prop) : Prop := forall l, limiter_ok l ->
  wp c (fun a l' => P a /\ limiter_ok l') (fun _ l' => limiter_ok l') l.

Lemma sound_bind {A B} (o : outcome A) (k : A -> outcome B) P Q :
  sound o P -> (forall a, P a -> sound (k a) Q) -> sound (bind o k) Q.
Proof. destruct o; cbn; auto. Qed.
Lemma sound_mono {A} (o : outcome A) (P Q : A -> Prop) : sound o P -> (forall a, P a -> Q a) -> sound o Q.
Proof. destruct o; cbn; auto. Qed.
Lemma sound_assert (b : bool) : b = true -> sound (rust_assert b) (fun _ => True).
Proof. by intros ->. Qed.

Lemma reads_ret {A} (a : A) (P : A -> Prop) : P a -> reads (ret a) P.
Proof. intros HP l Hl. by apply wp_ret. Qed.
Lemma reads_lift {A} (o : outcome A) P : sound o P -> reads (lift o) P.
Proof. intros Ho l Hl. apply wp_lift. destruct o; cbn in *; done. Qed.
Lemma reads_fails {A} e (P : A -> Prop) : reads (fails e) P.
Proof. intros l Hl. by apply wp_fails. Qed.
Lemma reads_bind {A B} (c : ST ReadLimiter A) (k : A -> ST ReadLimiter B) P Q :
  reads c P -> (forall a, P a -> reads (k a) Q) -> reads (bind c k) Q.
Proof.
  intros Hc Hk l Hl. apply wp_bind. eapply wp_mono; [by apply Hc| |done]. cbn beta. intros a l' [HP Hl']. by apply Hk.
Qed.
Lemma reads_mono {A} (c : ST ReadLimiter A) (P Q : A -> Prop) : reads c P -> (forall a, P a -> Q a) -> reads c Q.
Proof. intros Hc HPQ l Hl. eapply wp_mono; [by apply Hc| |done]. intros a l' [HP Hl']. split; auto. Qed.

Lemma spent_limiter metered l e l' : spent metered l e l' -> limiter_ok l'.
Proof. by intros (n & _ & H & _). Qed.

(** ** An arena that charges is an arena *)

#[export] Instance unmetered_arena m b ar : ArenaOk m b ar -> ArenaOk m false ar.
Proof.
  intros [H1 H2 H3 H4].
  assert (Hpaid : forall l l' n, paid b l l' n -> paid false l l' n) by (by intros l l' n (? & ? & ?)).
  constructor; [done|done| |].
  - intros id p n l Hid Hl Hal Hp Hb Hn. eapply wp_mono; [by apply H3|cbn beta|done]. intros _ l' []; auto.
  - intros n l Hl Hn. eapply wp_mono; [by apply H4|cbn beta|done]. auto.
Qed.
Lemma unmetered_struct m b r : sr_ok m b r -> sr_ok m false r.
Proof.
  intros (H1 & H2 & H3). split; [done|]. split; [done|]. destruct H3 as [|[Ha Hid]]; [by left|right].
  split; [by eapply unmetered_arena|done].
Qed.

(** ** The readers of layout.rs *)

Section readers.
Context (m : mem) (Hzero : zero_ok m).

Definition reader_ok (r : StructReader) : Prop := sr_ok m false r /\ sr_nesting_limit r < 2 ^ 31.
Definition pointer_ok (p : PointerReader) : Prop := pr_ok m false p /\ pr_nesting_limit p < 2 ^ 31.
(** A list whose elements can be read as [e] *)
Definition elements_ok (e : ElementSize) (r : ListReader) : Prop :=
  lr_ok m false r /\ (lr_element_count r = 0 \/ fits (Some e) r).

Lemma reads_struct p : pointer_ok p -> reads (get_struct m p None) reader_ok.
Proof.
  intros [Hp Hn] l Hl. eapply wp_mono; [by apply (get_struct_safe m false)|cbn beta|by intros e l'; apply spent_limiter].
  intros s l' [[Hs Hns] Hl']. split; [split; [done|lia]|done].
Qed.
Lemma reads_list p e : pointer_ok p -> reads (get_list m p e None) (elements_ok e).
Proof.
  intros [Hp Hn] l Hl. eapply wp_mono; [by apply (get_list_safe m false)|cbn beta|by intros ? l'; apply spent_limiter]. done.
Qed.
Lemma reads_text p : pointer_ok p -> reads (get_text m p None) (text_ok m).
Proof.
  intros [Hp Hn] l Hl. eapply wp_mono; [by apply (get_text_safe m false)|cbn beta|by intros ? l'; apply spent_limiter]. done.
Qed.
Lemma reads_data p : pointer_ok p -> reads (get_data m p None) (bytes_ok m).
Proof.
  intros [Hp Hn] l Hl. eapply wp_mono; [by apply (get_data_safe m false)|cbn beta|by intros ? l'; apply spent_limiter]. done.
Qed.

Lemma field_pointer r i : reader_ok r -> 0 <= i -> pointer_ok (get_pointer_field r i).
Proof.
  intros [Hr Hn] Hi. split; [by apply get_pointer_field_safe|]. unfold get_pointer_field. destruct (i <? _); [done|cbn; lia].
Qed.
Lemma data_field r n o : reader_ok r -> (n = 1 \/ n = 2 \/ n = 4 \/ n = 8) -> 0 <= o < 2 ^ 32 ->
  sound (get_data_field m n r o) (fun v => 0 <= v < 2 ^ (8 * n)).
Proof. intros [Hr _] Hn Ho. destruct (get_data_field_safe m false r n o Hr Hn Ho) as (v & -> & Hv & _). done. Qed.
Lemma bool_field r o : reader_ok r -> sound (get_bool_field m r o) (fun _ => True).
Proof. intros [Hr _]. by destruct (get_bool_field_safe m false r o Hr) as (b & ->). Qed.

Lemma null_test p : pointer_ok p -> sound (PointerReader_is_null m p) (fun _ => True).
Proof.
  intros [Hp _]. unfold PointerReader_is_null. destruct (Z.eqb_spec (pr_pointer p) 0); [done|].
  destruct Hp as [|(Hw & _)]; [done|]. by destruct (load_wp_ok m _ Hw) as (w & -> & _).
Qed.

Lemma list_element r e i : elements_ok e r -> 0 <= i < lr_element_count r ->
  sound (get_struct_element r i) reader_ok.
Proof.
  intros [Hr _] Hi. destruct (get_struct_element_safe m false r i Hr Hi) as (s & E & Hs). rewrite E. split; [done|].
  unfold get_struct_element in E. apply outcome_bind_ok in E as (bits & _ & E). apply outcome_bind_ok in E as (n & Hn & [= <-]).
  cbn.
  destruct Hr as (_ & Hnest & _). unfold isub32 in Hn. case_match; [|done]. injection Hn as <-. lia.
Qed.
Lemma pointer_element r i : elements_ok Pointer r -> 0 <= i < lr_element_count r ->
  sound (get_pointer_element r i) pointer_ok.
Proof.
  intros [Hr [|(_ & Hf & _)]] Hi; [lia|]. destruct (get_pointer_element_safe m false r i Hr Hi) as (p & E & Hp); [cbn in Hf; lia|].
  rewrite E. split; [done|]. unfold get_pointer_element in E.
  apply outcome_bind_ok in E as (bits & _ & E). apply outcome_bind_ok in E as (o & _ & [= <-]). cbn. apply Hr.
Qed.
Lemma plain_element r e n i : elements_ok e r -> 0 <= i < lr_element_count r -> (n = 1 \/ n = 2 \/ n = 4 \/ n = 8) ->
  data_bits_per_element e = 8 * n -> sound (primitive_get m n r i) (fun v => 0 <= v < 2 ^ (8 * n)).
Proof.
  intros [Hr [|(Hd & _)]] Hi Hn He; [lia|].
  destruct (primitive_get_safe m false r n i Hr Hi Hn) as (v & -> & Hv); [lia|]. done.
Qed.
Lemma bit_element r i : elements_ok Bit r -> 0 <= i < lr_element_count r -> sound (bool_get m r i) (fun _ => True).
Proof.
  intros [Hr [|(Hd & _)]] Hi; [lia|]. destruct (bool_get_safe m false r i Hr Hi) as (b & ->); [|done].
  destruct Hr as (_ & _ & Hs & _). cbn in Hd. destruct Hs as [(d & p & ? & ? & ? & ? & ?)|(? & ? & ?)]; lia.
Qed.
End readers.

(** ** The typed readers *)

Section typed_readers.
Context (m : mem) (tables : gmap Z CapTable) (Hzero : zero_ok m).

Lemma reads_wrapped {A B} (c : ST ReadLimiter A) (f : A -> B) P (Q : B -> Prop) :
  reads c P -> (forall a, P a -> Q (f a)) -> reads (bind c (fun a => ret (f a))) Q.
Proof. intros Hc HQ. eapply reads_bind; [done|]. intros a Ha. by apply reads_ret, HQ. Qed.

Lemma reads_struct_list p : pointer_ok m p -> reads (get_from_pointer (R := StructList.Reader) m tables p None)
  (fun l => elements_ok m InlineComposite (StructList.reader l)).
Proof. intros Hp. by eapply reads_wrapped; [by apply reads_list|]. Qed.
Lemma reads_text_pointer p : pointer_ok m p -> reads (get_from_pointer (R := TextReader) m tables p None)
  (fun t => text_ok m (text_bytes t)).
Proof. intros Hp. by eapply reads_wrapped; [by apply reads_text|]. Qed.
Lemma reads_data_pointer p : pointer_ok m p -> reads (get_from_pointer (R := DataReader) m tables p None)
  (fun d => bytes_ok m (data_bytes d)).
Proof. intros Hp. by eapply reads_wrapped; [by apply reads_data|]. Qed.
End typed_readers.

(** ** Generated code *)

(** The struct and enum types a program has *)
Class KnownTypes := { known_struct : RawBrandedStructSchema -> Prop; known_enum : RawEnumSchema -> Prop }.

Section generated.
Context `{GeneratedCode, KnownTypes} (m : mem) (tables : gmap Z CapTable).

Definition base_known (b : BaseType) : Prop :=
  match b with BT_Struct r => known_struct r | BT_Enum e => known_enum e | _ => True end.
Definition type_known (t : Ty) : Prop := type_ok t /\ base_known (base t).

(** The schemas of the program are those the constructors give. *)
Definition schema_ok (s : StructSchema) : Prop :=
  known_struct (raw s) /\ forall l, StructSchema_new m (raw s) l = (Ok s, l).
Definition enum_schema_ok (s : EnumSchema) : Prop :=
  known_enum (enum_raw s) /\ forall l, EnumSchema_new m (enum_raw s) l = (Ok s, l).
(** The members the code generator lists in a table *)
Definition listed (s : StructSchema) (i : Z) : Prop :=
  i ∈ nonunion_members (statics s) ++ members_by_discriminant (statics s) ++ members_by_name (statics s).

(** What the code generator promises of the statics it emits: every type has
    its schema; that of a struct is in memory, and is the node of a struct;
    the tables of members, and the function that gives types, cover the fields
    there are, and mention types the program has. *)
Record GeneratedOk : Prop := {
  struct_segment r : known_struct r ->
    let a := arena (raw_struct_schema (generic r)) in segment_ok m (words_ptr a) (words_len a);
  struct_schema r : known_struct r -> exists p, forall l, StructSchema_new m r l = (Ok {| raw := r; proto := p |}, l);
  struct_node s : schema_ok s -> node_which m (proto s) = Ok (NW_Struct (proto s));
  enum_schema e : known_enum e -> exists p, forall l, EnumSchema_new m e l = (Ok {| enum_raw := e; enum_proto := p |}, l);
  member_types s fl l l' i : schema_ok s -> get_fields m tables s l = (Ok fl, l') ->
    0 <= i < lr_element_count (fields fl) -> exists t, call_field_types (field_types (raw s)) i = Ok t /\ type_known t;
  member_tables s fl l l' i : schema_ok s -> get_fields m tables s l = (Ok fl, l') ->
    listed s i -> 0 <= i < lr_element_count (fields fl)
}.

Context (Hzero : zero_ok m) (Hgen : GeneratedOk).

Lemma schema_eq s1 s2 : schema_ok s1 -> schema_ok s2 -> raw s1 = raw s2 -> s1 = s2.
Proof.
  intros [_ H1] [_ H2] E. rewrite E in H1. specialize (H1 (ReadLimiter_new None)). rewrite H2 in H1. by injection H1.
Qed.

Lemma reads_struct_schema r : known_struct r -> reads (StructSchema_new m r) (fun s => raw s = r /\ schema_ok s).
Proof.
  intros Hr l Hl. destruct (struct_schema Hgen r Hr) as (p & Hp). unfold wp. rewrite Hp. split; [|done].
  split; [done|]. by split.
Qed.
Lemma reads_enum_schema e : known_enum e -> reads (EnumSchema_new m e) (fun s => enum_raw s = e /\ enum_schema_ok s).
Proof.
  intros Hr l Hl. destruct (enum_schema Hgen e Hr) as (p & Hp). unfold wp. rewrite Hp. split; [|done].
  split; [done|]. by split.
Qed.

Lemma reads_generated_root a : segment_ok m (words_ptr a) (words_len a) ->
  reads (get_root_from_arena (generated_arena a)) (pointer_ok m).
Proof.
  intros Hs l Hl. pose proof (generated_arena_ok m a Hs) as Ha. pose proof (get_segment_law 0 ltac:(done)) as Hget.
  unfold get_root_from_arena, PointerReader_get_root. apply wp_bind, wp_lift.
  destruct (arena_get_segment (generated_arena a) 0) as [[start len]| | | |] eqn:E; try done.
  destruct Hget as (Hp & Hal & Hlen & Hv & Hb).
  apply wp_bind, (bounds_check_wp m false _); [done|done|unfold location_ok; lia|lia| |done].
  intros l' Hw [Hl' _]. apply wp_ret. split; [|done]. split; [|cbn; lia]. right. cbn. done.
Qed.

Lemma unwrapped {A} (c : ST ReadLimiter A) (P : A -> Prop) x l1 l2 :
  reads c P -> limiter_ok l1 -> unwrap_result c l1 = (Ok x, l2) -> P x /\ limiter_ok l2.
Proof.
  intros Hc H1 E. specialize (Hc l1 H1). unfold unwrap_result, wp in *. destruct (c l1) as [[] l3]; try done.
  by injection E as <- <-.
Qed.

(** The schema of a struct is read from its segment. *)
Lemma schema_reader s : schema_ok s -> reader_ok m (proto s).
Proof.
  intros [Hr Hs]. pose proof (struct_segment Hgen _ Hr) as Hseg. specialize (Hs (ReadLimiter_new None)).
  assert (Hl : limiter_ok (ReadLimiter_new None)) by (by apply ReadLimiter_new_ok). unfold StructSchema_new in Hs.
  apply ST_bind_inv in Hs as (p & l1 & E1 & Hs). apply ST_bind_inv in Hs as (q & l2 & E2 & Hs).
  injection Hs as Hs. subst l2. rewrite <- Hs. cbn [proto].
  apply (unwrapped _ _ _ _ _ (reads_generated_root _ Hseg) Hl) in E1 as [Hp Hl1].
  by eapply (unwrapped _ _ _ _ _ (reads_struct m Hzero p Hp) Hl1) in E2 as [Hq _].
Qed.

(** ** Fields *)

Definition field_ok (f : Field) : Prop := reader_ok m (field_proto f) /\ type_known (ty f) /\ schema_ok (parent f).
Definition fields_ok (fl : FieldList) : Prop :=
  elements_ok m InlineComposite (fields fl) /\ schema_ok (fields_parent fl) /\
  (forall i, 0 <= i < lr_element_count (fields fl) -> exists t,
     call_field_types (field_types (raw (fields_parent fl))) i = Ok t /\ type_known t) /\
  (forall i, listed (fields_parent fl) i -> 0 <= i < lr_element_count (fields fl)).

Lemma reads_result {A} (c : ST ReadLimiter A) P : reads c P -> reads c (fun a => P a /\ exists l l', c l = (Ok a, l')).
Proof.
  intros Hc l Hl. specialize (Hc l Hl). unfold wp in *. destruct (c l) as [[a| | | |] l'] eqn:E; try done.
  destruct Hc as [HP Hl']. eauto 10.
Qed.

Lemma reads_list_field r n : reader_ok m r -> 0 <= n -> reads (list_field m tables r n) (elements_ok m InlineComposite).
Proof.
  intros Hr Hn. eapply reads_bind; [by apply reads_struct_list, field_pointer|]. intros l Hl. by apply reads_ret.
Qed.

Lemma reads_get_fields s : schema_ok s -> reads (get_fields m tables s) (fun fl => fields_ok fl /\ fields_parent fl = s).
Proof.
  intros Hs. assert (Hf : reads (get_fields m tables s) (fun fl => elements_ok m InlineComposite (fields fl) /\ fields_parent fl = s)).
  { unfold get_fields. rewrite (struct_node Hgen s Hs). apply (reads_bind _ _ (fun w => w = NW_Struct (proto s))); [by apply reads_lift|].
    intros w ->. eapply reads_wrapped; [apply reads_list_field; [by apply schema_reader|lia]|done]. }
  eapply reads_mono; [apply (reads_result _ _ Hf)|cbn beta]. intros fl [[Hl Hp] (l & l' & E)]. split; [|done].
  unfold fields_ok. rewrite Hp. split; [done|]. split; [done|]. split; intros i Hi.
  - by eapply (member_types Hgen).
  - by eapply (member_tables Hgen).
Qed.

Lemma field_at fl i : fields_ok fl -> 0 <= i < lr_element_count (fields fl) ->
  exists f, FieldList_get fl i = Ok f /\ field_ok f /\ parent f = fields_parent fl.
Proof.
  intros (Hl & Hs & Ht & _) Hi. unfold FieldList_get, struct_list_get, StructList.get. cbn [StructList.reader StructList.len].
  unfold StructList.len. cbn [StructList.reader]. rewrite (proj2 (Z.ltb_lt i _)) by lia. cbn [negb].
  pose proof (list_element m _ _ i Hl Hi) as Hr. destruct (get_struct_element _ _) as [r| | | |] eqn:E; try done.
  - destruct (Ht i Hi) as (t & Hty & Hk). cbn [bind outcome_monad]. rewrite Hty. cbn. eexists. split; [done|]. done.
  - exfalso. destruct Hl as [Hl _]. destruct (get_struct_element_safe m false _ i Hl Hi) as (x & Hx & _). by rewrite E in Hx.
Qed.

Definition found (s : StructSchema) (o : option Field) : Prop :=
  match o with Some f => field_ok f /\ parent f = s | None => True end.

Lemma reads_field fl i : fields_ok fl -> 0 <= i < lr_element_count (fields fl) ->
  reads (lift (FieldList_get fl i)) (fun f => (field_ok f /\ parent f = fields_parent fl) /\ FieldList_get fl i = Ok f).
Proof. intros Hfl Hi. apply reads_lift. by destruct (field_at fl i Hfl Hi) as (f & -> & Hf). Qed.
Lemma field_index fl i f : FieldList_get fl i = Ok f -> index f = i.
Proof.
  unfold FieldList_get. destruct (struct_list_get _ _); try done. cbn [bind outcome_monad].
  by destruct (call_field_types _ _); try done; intros [= <-].
Qed.

(** The field is the one that the generated code lists for a discriminant. *)
Definition lists (s : StructSchema) (d : Z) (f : Field) : Prop :=
  members_by_discriminant (statics s) !! Z.to_nat d = Some (index f).

Lemma reads_by_discriminant s d : schema_ok s -> reads (get_field_by_discriminant m tables s d)
  (fun o => found s o /\ match o with Some f => lists s d f | None => True end).
Proof.
  intros Hs. unfold get_field_by_discriminant. destruct (_ !! _) as [i|] eqn:E; [|by apply reads_ret].
  eapply reads_bind; [by apply reads_get_fields|]. intros fl [Hfl Hp].
  eapply reads_bind; [apply (reads_field fl i); [done|]|].
  - apply Hfl. unfold listed. rewrite Hp, !elem_of_app. right. left. by eapply list_elem_of_lookup_2.
  - intros f [[Hf Hpf] Hget]. apply reads_ret. apply field_index in Hget as <-. split; [split; congruence|done].
Qed.

(** The bytes of a text can be looked at. *)
Lemma text_bytes_ok t : text_ok m (text_bytes t) -> sound (text_of m t) (fun bs => Z.of_nat (length bs) = bs_len (text_bytes t)).
Proof.
  intros [[Hlen Hv] _]. unfold text_of. destruct Hv as [E|Hv].
  - rewrite E. done.
  - destruct (load_bytes_ok m _ _ (proj1 Hlen) Hv) as (bs & -> & Hl & _). done.
Qed.
Lemma reads_field_name f : field_ok f -> reads (field_name m tables f) (fun _ => True).
Proof.
  intros (Hf & _). unfold field_name, field_get_name, text_field. eapply reads_bind; [apply reads_text_pointer, field_pointer; [done|done|lia]|]. intros t Ht.
  apply reads_lift. by eapply sound_mono; [by apply text_bytes_ok|].
Qed.

(** The name of a field, in the schema *)
Definition has_name (f : Field) (name : list byte) : Prop := exists l l', field_name m tables f l = (Ok name, l').
Definition found_named (s : StructSchema) (name : list byte) (o : option Field) : Prop :=
  match o with Some f => (field_ok f /\ parent f = s) /\ has_name f name | None => True end.

Lemma bytes_compare_eq a : forall b, bytes_compare a b = Eq -> a = b.
Proof.
  induction a as [|x a IH]; intros [|y b]; cbn; try done.
  destruct (Z.compare_spec (byte.unsigned x) (byte.unsigned y)) as [E| |]; try done.
  intros Hab. rewrite (IH b Hab). f_equal. rewrite <- (byte.of_Z_unsigned x), E. apply byte.of_Z_unsigned.
Qed.

Lemma reads_search fuel : forall s fl name lower upper, fields_ok fl -> fields_parent fl = s ->
  0 <= lower -> upper <= Z.of_nat (length (members_by_name (statics s))) -> (Z.to_nat (upper - lower) < fuel)%nat ->
  reads (search_by_name m tables fuel s fl name lower upper) (found_named s name).
Proof.
  induction fuel as [|fuel IH]; intros s fl name lower upper Hfl Hp Hlo Hup Hf; [lia|]. cbn [search_by_name].
  destruct (Z.ltb_spec lower upper); [|by apply reads_ret]. cbv zeta. set (mid := (lower + upper) / 2).
  assert (Hmid : lower <= mid < upper) by (unfold mid; zlia).
  destruct (lookup_lt_is_Some_2 (members_by_name (statics s)) (Z.to_nat mid)) as [i Hi]; [lia|]. rewrite Hi.
  assert (Hin : 0 <= i < lr_element_count (fields fl)).
  { apply Hfl. unfold listed. rewrite Hp, !elem_of_app. right. right. by eapply list_elem_of_lookup_2. }
  eapply reads_bind; [by apply (reads_field fl i)|]. intros c [[Hc Hpc] Hget].
  eapply reads_bind; [by apply reads_result, reads_field_name|]. intros n [_ Hn].
  destruct (bytes_compare name n) eqn:En.
  - apply bytes_compare_eq in En as <-. rewrite Hget. apply reads_ret. split; [split; congruence|done].
  - apply IH; [done|done|lia|lia|lia].
  - apply IH; [done|done|lia|lia|lia].
Qed.
Lemma reads_find_field s name : schema_ok s -> reads (find_field_by_name m tables s name) (found_named s name).
Proof.
  intros Hs. eapply reads_bind; [by apply reads_get_fields|]. intros fl [Hfl Hp].
  apply (reads_search _ s fl); [done|done|lia|lia|lia].
Qed.
Lemma reads_named_field s name : schema_ok s ->
  reads (get_field_by_name m tables s name) (fun f => (field_ok f /\ parent f = s) /\ has_name f name).
Proof.
  intros Hs. eapply reads_bind; [by apply reads_find_field|]. intros [f|] Hf; [by apply reads_ret|apply reads_fails].
Qed.

(** ** Values *)

(** Integers of [n] bytes *)
Definition signed_in (n x : Z) : Prop := - 2 ^ (8 * n - 1) <= x < 2 ^ (8 * n - 1).
Definition unsigned_in (n x : Z) : Prop := 0 <= x < 2 ^ (8 * n).

(** A default value, as the schema has it *)
Definition default_ok (v : ValueWhich) : Prop :=
  match v with
  | VW_Int8 x => signed_in 1 x | VW_Int16 x => signed_in 2 x | VW_Int32 x => signed_in 4 x | VW_Int64 x => signed_in 8 x
  | VW_Uint8 x => unsigned_in 1 x | VW_Uint16 x => unsigned_in 2 x | VW_Uint32 x => unsigned_in 4 x
  | VW_Uint64 x => unsigned_in 8 x | VW_Float32 x => unsigned_in 4 x | VW_Float64 x => unsigned_in 8 x
  | VW_Enum x => unsigned_in 2 x
  | VW_Text (inl t) => text_ok m (text_bytes t)
  | VW_Data (inl d) => bytes_ok m (data_bytes d)
  | VW_List a | VW_Struct a | VW_AnyPointer a => pointer_ok m (any_reader a)
  | _ => True
  end.

Definition struct_value_ok (s : StructValue) : Prop := reader_ok m (ds_reader s) /\ schema_ok (ds_schema s).
Definition list_value_ok (l : ListValue) : Prop :=
  elements_ok m (expected_element_size (dl_element_type l)) (dl_reader l) /\ type_known (dl_element_type l).

(** A value has a type: it is of that kind, in range, and safe to read on. *)
Definition has_type (t : Ty) (v : Value) : Prop :=
  match which t, v with
  | TV_Void, V_Void | TV_Bool, V_Bool _ | TV_Capability, V_Capability => True
  | TV_Int8, V_Int8 x => signed_in 1 x | TV_Int16, V_Int16 x => signed_in 2 x
  | TV_Int32, V_Int32 x => signed_in 4 x | TV_Int64, V_Int64 x => signed_in 8 x
  | TV_UInt8, V_UInt8 x => unsigned_in 1 x | TV_UInt16, V_UInt16 x => unsigned_in 2 x
  | TV_UInt32, V_UInt32 x => unsigned_in 4 x | TV_UInt64, V_UInt64 x => unsigned_in 8 x
  | TV_Float32, V_Float32 x => unsigned_in 4 x | TV_Float64, V_Float64 x => unsigned_in 8 x
  | TV_Text, V_Text t => text_ok m (text_bytes t)
  | TV_Data, V_Data d => bytes_ok m (data_bytes d)
  | TV_Enum e, V_Enum x => unsigned_in 2 (ev_value x) /\ enum_raw (ev_schema x) = e /\ enum_schema_ok (ev_schema x)
  | TV_Struct rs, V_Struct s => raw (ds_schema s) = rs /\ struct_value_ok s
  | TV_List e, V_List l => dl_element_type l = e /\ list_value_ok l
  | TV_AnyPointer, V_AnyPointer a => pointer_ok m (any_reader a)
  | _, _ => False
  end.

Lemma as_signed_in n x : 0 < n -> unsigned_in n x -> signed_in n (as_signed n x).
Proof.
  unfold unsigned_in, signed_in, as_signed. intros Hn Hx.
  replace (2 ^ (8 * n)) with (2 * 2 ^ (8 * n - 1)) in * by (rewrite <- Z.pow_succ_r by lia; f_equal; lia).
  destruct (Z.ltb_spec x (2 ^ (8 * n - 1))); lia.
Qed.

(** A number is in the range of [k + 1]-bit integers if it is 0 or -1 when
    shifted by [k]. *)
Lemma shiftr_range k x : 0 <= k -> - 2 ^ k <= x < 2 ^ k <-> Z.shiftr x k = 0 \/ Z.shiftr x k = -1.
Proof.
  intros Hk. rewrite Z.shiftr_div_pow2 by done. pose proof (Z.pow_pos_nonneg 2 k ltac:(lia) Hk).
  pose proof (Z.div_mod x (2 ^ k) ltac:(lia)). pose proof (Z.mod_pos_bound x (2 ^ k) ltac:(lia)).
  assert (x / 2 ^ k <= -2 \/ x / 2 ^ k = -1 \/ x / 2 ^ k = 0 \/ 1 <= x / 2 ^ k) as [?|[?|[?|?]]] by lia; split; nia.
Qed.
Lemma lxor_signed n x y : 0 < n -> signed_in n x -> signed_in n y -> signed_in n (Z.lxor x y).
Proof.
  unfold signed_in. intros Hn Hx Hy. apply shiftr_range in Hx, Hy; try lia. apply shiftr_range; [lia|].
  rewrite Z.shiftr_lxor. destruct Hx as [-> | ->], Hy as [-> | ->]; cbn; auto.
Qed.
Lemma lxor_unsigned n x y : 0 < n -> unsigned_in n x -> unsigned_in n y -> unsigned_in n (Z.lxor x y).
Proof.
  unfold unsigned_in. intros Hn Hx Hy. split; [apply Z.lxor_nonneg; lia|].
  destruct (Z.eq_dec (Z.lxor x y) 0) as [->|Hne]; [apply Z.pow_pos_nonneg; lia|].
  assert (0 <= Z.lxor x y) by (apply Z.lxor_nonneg; lia). apply Z.log2_lt_pow2; [lia|].
  assert (Hlog : forall z, 0 <= z < 2 ^ (8 * n) -> Z.log2 z < 8 * n).
  { intros z Hz. destruct (Z.eq_dec z 0) as [->|]; [cbn; lia|]. apply Z.log2_lt_pow2; lia. }
  pose proof (Z.log2_lxor x y ltac:(lia) ltac:(lia)). pose proof (Hlog x Hx). pose proof (Hlog y Hy). lia.
Qed.

Lemma reads_signed n r o : reader_ok m r -> (n = 1 \/ n = 2 \/ n = 4 \/ n = 8) -> 0 <= o < 2 ^ 32 ->
  sound (signed_field m n r o) (signed_in n).
Proof.
  intros Hr Hn Ho. eapply sound_bind; [by apply data_field|]. intros v Hv. apply as_signed_in; [lia|exact Hv].
Qed.
Lemma signed_masked n r o x : reader_ok m r -> (n = 1 \/ n = 2 \/ n = 4 \/ n = 8) -> 0 <= o < 2 ^ 32 -> signed_in n x ->
  sound (get_signed_field_mask m n r o x) (signed_in n).
Proof.
  intros Hr Hn Ho Hx. eapply sound_bind; [by apply data_field|]. intros v Hv. cbn.
  apply lxor_signed; [lia|apply as_signed_in; [lia|exact Hv]|done].
Qed.
Lemma unsigned_masked n r o x : reader_ok m r -> (n = 1 \/ n = 2 \/ n = 4 \/ n = 8) -> 0 <= o < 2 ^ 32 -> unsigned_in n x ->
  sound (get_data_field_mask m n r o x) (unsigned_in n).
Proof.
  intros Hr Hn Ho Hx. eapply sound_bind; [by apply data_field|]. intros v Hv. cbn. apply lxor_unsigned; [lia|exact Hv|done].
Qed.
Lemma bool_masked r o b : reader_ok m r -> sound (get_bool_field_mask m r o b) (fun _ => True).
Proof. intros Hr. by eapply sound_bind; [by apply bool_field|]. Qed.

(** Reading one plain value, and wrapping it *)
Lemma reads_outcome {A B} (o : outcome A) (f : A -> B) P (Q : B -> Prop) :
  sound o P -> (forall a, P a -> Q (f a)) -> reads (bind (lift o) (fun a => ret (f a))) Q.
Proof. intros Ho HQ. by eapply reads_wrapped; [by apply reads_lift|]. Qed.

Lemma reads_kept {A B} (c : ST ReadLimiter A) (f : A + ErrorKind -> B) P (Q : B -> Prop) :
  reads c P -> (forall a, P a -> Q (f (inl a))) -> (forall e, Q (f (inr e))) ->
  reads (bind (keep_result c) (fun x => ret (f x))) Q.
Proof.
  intros Hc H1 H2. apply (reads_wrapped _ f (fun x => Q (f x))); [|done]. intros l Hl. specialize (Hc l Hl).
  unfold wp, keep_result in *. destruct (c l) as [[] l']; try done. destruct Hc as [Ha Hl']. split; [by apply H1|done].
Qed.

Lemma reads_value_which r : reader_ok m r -> reads (value_which m tables r) default_ok.
Proof.
  intros Hr. unfold value_which. eapply reads_bind; [apply reads_lift, data_field; [done|lia|lia]|]. intros d Hd.
  assert (Hp : pointer_ok m (get_pointer_field r 0)) by (by apply field_pointer; [|lia]).
  repeat case_match; subst; first
    [ by apply reads_ret
    | by apply reads_lift
    | eapply reads_kept; [by (apply reads_text_pointer || apply reads_data_pointer)|done|done]
    | eapply reads_outcome; [apply reads_signed; [done|lia|lia]|done]
    | eapply reads_outcome; [apply data_field; [done|lia|lia]|done]
    | eapply reads_outcome; [by apply bool_field|done] ].
Qed.

(** ** [dynamic_struct::Reader] *)

Lemma reads_struct_value r rs : reader_ok m r -> known_struct rs ->
  reads (struct_value m r rs) (fun v => exists s, v = V_Struct {| ds_reader := r; ds_schema := s |} /\ raw s = rs /\ schema_ok s).
Proof. intros Hr Hrs. eapply reads_wrapped; [by apply reads_struct_schema|]. intros s [? ?]. eauto. Qed.
Lemma reads_enum_value x e : known_enum e ->
  reads (enum_value m x e) (fun v => exists s, v = V_Enum {| ev_value := x; ev_schema := s |} /\ enum_raw s = e /\ enum_schema_ok s).
Proof. intros He. eapply reads_wrapped; [by apply reads_enum_schema|]. intros s [? ?]. eauto. Qed.

Lemma which_known t : type_known t ->
  match which t with TV_Struct rs => known_struct rs | TV_Enum e => known_enum e | TV_List e => type_known e | _ => True end.
Proof.
  intros [Ht Hb]. destruct (which t) eqn:E; try done.
  - unfold which in E. destruct (0 <? _); [done|]. destruct (base t) eqn:Eb; try done. injection E as <-. exact Hb.
  - unfold which in E. destruct (0 <? _); [done|]. destruct (base t) eqn:Eb; try done. injection E as <-. exact Hb.
  - apply which_list in E as (Hn & Hbase & Hc). split; [unfold type_ok, u64, in_width in *; lia|]. by rewrite Hbase.
Qed.

Lemma reads_pointer_or_default p d : pointer_ok m p -> match d with Some q => pointer_ok m q | None => True end ->
  sound (pointer_or_default m p d) (pointer_ok m).
Proof.
  intros Hp Hd. eapply sound_bind; [by apply null_test|]. intros b _. cbn. by destruct b, d.
Qed.

Lemma reads_question {A} (x : A + ErrorKind) P : match x with inl a => P a | inr _ => True end -> reads (question x) P.
Proof. destruct x; intros Hx; [by apply reads_ret|apply reads_fails]. Qed.

Section fields.
Context (r : StructReader) (offset : Z) (dval : ValueWhich).
Context (Hr : reader_ok m r) (Ho : 0 <= offset < 2 ^ 32) (Hd : default_ok dval).
Let p := get_pointer_field r offset.

Lemma slot_pointer : pointer_ok m p.
Proof. apply field_pointer; [done|lia]. Qed.

Lemma reads_text_slot : reads (get_text_field m tables r offset dval) (fun v => exists t, v = V_Text t /\ text_ok m (text_bytes t)).
Proof.
  pose proof slot_pointer as Hp. unfold get_text_field. fold p. eapply reads_bind; [by apply reads_lift, null_test|]. intros b _.
  apply (reads_wrapped _ _ (fun t => text_ok m (text_bytes t))); [|eauto].
  destruct b, dval; try by apply reads_text_pointer. by apply reads_question.
Qed.
Lemma reads_data_slot : reads (get_data_field_value m tables r offset dval) (fun v => exists d, v = V_Data d /\ bytes_ok m (data_bytes d)).
Proof.
  pose proof slot_pointer as Hp. unfold get_data_field_value. fold p. eapply reads_bind; [by apply reads_lift, null_test|]. intros b _.
  apply (reads_wrapped _ _ (fun d => bytes_ok m (data_bytes d))); [|eauto].
  destruct b, dval; try by apply reads_data_pointer. by apply reads_question.
Qed.
Lemma reads_struct_slot rs : known_struct rs -> reads (get_struct_field m r offset rs dval)
  (fun v => exists s, v = V_Struct s /\ raw (ds_schema s) = rs /\ struct_value_ok s).
Proof.
  intros Hk. pose proof slot_pointer as Hp. eapply reads_bind.
  - apply reads_lift, reads_pointer_or_default; [done|]. by destruct dval.
  - intros q Hq. eapply reads_bind; [by apply reads_struct|]. intros sr Hsr.
    eapply reads_mono; [by apply reads_struct_value|]. intros v (s & -> & Hs & Hok). by eexists.
Qed.
Lemma reads_list_slot e : type_known e -> reads (get_list_field m r offset e dval)
  (fun v => exists l, v = V_List l /\ dl_element_type l = e /\ list_value_ok l).
Proof.
  intros Hk. pose proof slot_pointer as Hp. eapply reads_bind.
  - apply reads_lift, reads_pointer_or_default; [done|]. by destruct dval.
  - intros q Hq. eapply reads_wrapped; [by apply reads_list|]. intros l Hl. by eexists.
Qed.

Lemma reads_slot t : type_known t -> reads (get_slot m tables r t offset dval) (has_type t).
Proof.
  intros Ht. pose proof (which_known t Ht) as Hk. pose proof slot_pointer as Hp. unfold get_slot, has_type.
  destruct (which t) eqn:Ew; try by apply reads_ret.
  all: first
    [ eapply reads_mono; [by apply reads_text_slot|]; by intros v (x & -> & Hx)
    | eapply reads_mono; [by apply reads_data_slot|]; by intros v (x & -> & Hx)
    | eapply reads_mono; [by apply reads_struct_slot|]; by intros v (x & -> & Hx)
    | eapply reads_mono; [by apply reads_list_slot|]; by intros v (x & -> & Hx)
    | destruct dval; try (apply reads_fails); cbn [default_ok] in Hd ].
  all: try by apply reads_ret.
  all: try (eapply reads_outcome; [apply signed_masked; [done|lia|done|exact Hd]|done]).
  all: try (eapply reads_outcome; [apply unsigned_masked; [done|lia|done|exact Hd]|done]).
  - by eapply reads_outcome; [by apply bool_masked|].
  - eapply reads_outcome; [by apply reads_pointer_or_default|]. intros q Hq. exact Hq.
  - eapply reads_bind; [apply reads_lift, unsigned_masked; [done|lia|done|exact Hd]|]. intros x Hx.
    eapply reads_mono; [by apply reads_enum_value|]. by intros v (s & -> & Hs).
Qed.
End fields.

(** A field of the struct's own type *)
Definition field_of (s : StructSchema) (f : Field) : Prop := field_ok f /\ generic (raw (parent f)) = generic (raw s).

Lemma same_struct_ok s f : field_of s f -> same_struct s f = Ok tt.
Proof. intros [_ E]. unfold same_struct. by rewrite E, Z.eqb_refl. Qed.

Lemma reads_field_which r : reader_ok m r -> sound (field_which m r) (fun w => w = FW_Slot r \/ w = FW_Group r).
Proof.
  intros Hr. eapply sound_bind; [apply data_field; [done|lia|lia]|]. intros d Hd. repeat case_match; subst; cbn; auto.
Qed.
Lemma slot_offset_ok r : reader_ok m r -> sound (slot_get_offset m r) (fun o => 0 <= o < 2 ^ 32).
Proof. intros Hr. by apply data_field; [|lia|lia]. Qed.

Lemma reads_get s f : struct_value_ok s -> field_of (ds_schema s) f -> reads (get m tables s f) (has_type (ty f)).
Proof.
  intros [Hr Hs] Hf. pose proof Hf as [(Hp & Ht & _) _]. pose proof (which_known _ Ht) as Hk. unfold get.
  rewrite (same_struct_ok _ _ Hf). apply (reads_bind _ _ (fun _ => True)); [by apply reads_lift|]. intros _ _.
  eapply reads_bind; [by apply reads_lift, reads_field_which|]. intros w [-> | ->].
  - eapply reads_bind; [by apply reads_lift, slot_offset_ok|]. intros o Ho.
    apply (reads_bind _ _ (reader_ok m)); [by apply reads_struct; [|apply field_pointer; [|lia]]|]. intros d Hd.
    eapply reads_bind; [by apply reads_value_which|]. intros dv Hdv. by apply reads_slot.
  - unfold has_type. destruct (which (ty f)); try apply reads_fails.
    eapply reads_mono; [by apply reads_struct_value|]. intros v (x & -> & Hx & Hok). done.
Qed.

Lemma reads_get_named s name : struct_value_ok s ->
  reads (get_named m tables s name) (fun v => exists f, field_of (ds_schema s) f /\ has_name f name /\ has_type (ty f) v).
Proof.
  intros Hs. eapply reads_bind; [apply reads_named_field, Hs|]. intros f [[Hf Hp] Hn].
  assert (Hof : field_of (ds_schema s) f) by (split; [done|by rewrite Hp]).
  eapply reads_mono; [by apply reads_get|eauto].
Qed.

(** The member of the union that is set: the one listed for the discriminant
    in the struct. *)
Definition set_member (s : StructValue) (f : Field) : Prop := exists o d,
  get_discriminant_offset m (proto (ds_schema s)) = Ok o /\ get_data_field m 2 (ds_reader s) o = Ok d /\
  lists (ds_schema s) d f.

Lemma sound_result {A} (o : outcome A) P : sound o P -> sound o (fun a => P a /\ o = Ok a).
Proof. by destruct o. Qed.

Lemma reads_which_field s : struct_value_ok s -> reads (which_field m tables s)
  (fun o => match o with Some f => field_of (ds_schema s) f /\ set_member s f | None => True end).
Proof.
  intros [Hr Hs]. pose proof (schema_reader _ Hs) as Hp. unfold which_field. rewrite (struct_node Hgen _ Hs).
  apply (reads_bind _ _ (fun w => w = NW_Struct (proto (ds_schema s)))); [by apply reads_lift|]. intros w ->.
  eapply reads_bind; [apply reads_lift, data_field; [done|lia|lia]|]. intros n _. destruct (n =? 0); [by apply reads_ret|].
  eapply reads_bind; [apply reads_lift, sound_result, data_field; [done|lia|lia]|]. intros o [Ho Eo].
  eapply reads_bind; [apply reads_lift, sound_result, data_field; [done|lia|exact Ho]|]. intros d [_ Ed].
  eapply reads_mono; [by apply reads_by_discriminant|]. intros [f|] Hf; [|done]. destruct Hf as [[Hf Hpf] Hl].
  split; [split; [done|by rewrite Hpf]|]. by exists o, d.
Qed.

Lemma has_pointer_ok s f : struct_value_ok s -> field_ok f -> sound (has_pointer m s f) (fun _ => True).
Proof.
  intros [Hr Hs] (Hp & _). eapply sound_bind; [by apply reads_field_which|]. intros w [-> | ->]; [|done].
  destruct (is_pointer_type (ty f)); [|done]. eapply sound_bind; [by apply slot_offset_ok|]. intros o Ho.
  eapply sound_bind; [apply null_test, field_pointer; [done|apply Ho]|]. done.
Qed.
Lemma has_ok s f : struct_value_ok s -> field_of (ds_schema s) f -> sound (has m s f) (fun _ => True).
Proof.
  intros Hv Hf. pose proof Hv as [Hr Hs]. pose proof Hf as [Hok _]. pose proof Hok as (Hp & _).
  pose proof (schema_reader _ Hs) as Hps. unfold has. rewrite (same_struct_ok _ _ Hf). cbn [bind outcome_monad].
  assert (Hdv : sound (get_discriminant_value m (field_proto f)) (fun _ => True)).
  { by eapply sound_bind; [apply data_field; [done|lia|lia]|]. }
  apply (sound_bind _ _ (fun _ => True)); [by eapply sound_bind; [exact Hdv|]|].
  intros b _. destruct b; [|by apply has_pointer_ok]. rewrite (struct_node Hgen _ Hs). cbn [bind outcome_monad].
  eapply sound_bind; [apply data_field; [done|lia|lia]|]. intros o Ho.
  eapply sound_bind; [apply data_field; [done|lia|exact Ho]|]. intros x _.
  eapply sound_bind; [exact Hdv|]. intros v _. destruct (negb _); [done|by apply has_pointer_ok].
Qed.

(** ** [dynamic_list::Reader] *)

Lemma reads_element n l i e : elements_ok m e (dl_reader l) -> 0 <= i < ListValue_len l ->
  (n = 1 \/ n = 2 \/ n = 4 \/ n = 8) -> data_bits_per_element e = 8 * n ->
  reads (element m (T := Unsigned n) l i) (fun x => unsigned_in n (unsigned x)).
Proof.
  intros Hl Hi Hn He. apply reads_lift. cbn [element_get unsigned_element].
  eapply sound_bind; [eapply plain_element; [exact Hl|exact Hi|exact Hn|exact He]|]. done.
Qed.
Lemma reads_signed_element n l i e : elements_ok m e (dl_reader l) -> 0 <= i < ListValue_len l ->
  (n = 1 \/ n = 2 \/ n = 4 \/ n = 8) -> data_bits_per_element e = 8 * n ->
  reads (element m (T := Signed n) l i) (fun x => signed_in n (signed x)).
Proof.
  intros Hl Hi Hn He. apply reads_lift. cbn [element_get signed_element].
  eapply sound_bind; [eapply plain_element; [exact Hl|exact Hi|exact Hn|exact He]|]. intros v Hv. apply as_signed_in; [lia|exact Hv].
Qed.

(** The elements of a list of [t]: how [t] says they are stored *)
Lemma element_size_of t : expected_element_size t =
  match which t with
  | TV_Void => Void | TV_Bool => Bit
  | TV_Int8 | TV_UInt8 => Byte
  | TV_Int16 | TV_UInt16 | TV_Enum _ => TwoBytes
  | TV_Int32 | TV_UInt32 | TV_Float32 => FourBytes
  | TV_Int64 | TV_UInt64 | TV_Float64 => EightBytes
  | TV_Struct _ => InlineComposite
  | TV_Text | TV_Data | TV_AnyPointer | TV_Capability | TV_List _ => Pointer
  end.
Proof. unfold expected_element_size, which. destruct (0 <? list_count t); [done|]. by destruct (base t). Qed.

Lemma reads_list_get l i : list_value_ok l -> 0 <= i < ListValue_len l ->
  reads (list_get m tables l i) (has_type (dl_element_type l)).
Proof.
  intros [Hl Ht] Hi. pose proof (which_known _ Ht) as Hk. rewrite element_size_of in Hl. unfold list_get, has_type.
  apply (reads_bind _ _ (fun _ => True)); [apply reads_lift, sound_assert; lia|]. intros _ _.
  assert (Hptr : elements_ok m Pointer (dl_reader l) -> reads (lift (get_pointer_element (dl_reader l) i)) (pointer_ok m)).
  { intros Hp. by apply reads_lift, pointer_element. }
  destruct (which (dl_element_type l)) eqn:Ew; try by apply reads_ret.
  all: try (eapply reads_wrapped; [eapply reads_element; [exact Hl|exact Hi|lia|done]|done]).
  all: try (eapply reads_wrapped; [eapply reads_signed_element; [exact Hl|exact Hi|lia|done]|done]).
  - by eapply reads_outcome; [by apply bit_element|].
  - eapply reads_bind; [by apply Hptr|]. intros p Hp. by eapply reads_wrapped; [by apply reads_text_pointer|].
  - eapply reads_bind; [by apply Hptr|]. intros p Hp. by eapply reads_wrapped; [by apply reads_data_pointer|].
  - eapply reads_bind; [by apply reads_lift; eapply list_element|]. intros r Hr.
    eapply reads_mono; [by apply reads_struct_value|]. intros v (x & -> & Hx & Hok). done.
  - eapply reads_wrapped; [by apply Hptr|]. done.
  - eapply reads_bind; [eapply reads_element; [exact Hl|exact Hi|lia|done]|]. intros x Hx.
    eapply reads_mono; [by apply reads_enum_value|]. intros v (s & -> & Hs). done.
  - eapply reads_bind; [by apply Hptr|]. intros p Hp. eapply reads_wrapped; [by apply reads_list|]. done.
Qed.
End generated.
