(* ===== verification/DynamicProps.v ===== *)
(** * Theorems about schemas and dynamic values *)

From S2P Require Import Prelude ReadLimiter Segments Mem WirePointer Arena Readers ReadersSafe ReadingProps.
From S2P Require Import Builders Introspect TypedLists TypedPointers SchemaCapnp Schema DynamicValue.
From S2P Require Import DynamicSafe.
From stdpp Require Import list.
From coqutil Require Import Byte.
#[local] Open Scope Z_scope.
#[local] Open Scope rust_scope.
Import TypedLists TypedPointers Introspect SchemaCapnp Schema DynamicValue.

(** ** Looking up a field by its name

    [find_field_by_name] is a binary search in a table sorted by name; it
    finds what a scan of the table finds. *)

(** *** The order of byte strings *)

Lemma bytes_compare_refl a : bytes_compare a a = Eq.
Proof. induction a as [|x a IH]; [done|]. cbn. by rewrite Z.compare_refl. Qed.
Lemma bytes_compare_antisym a : forall b, bytes_compare b a = CompOpp (bytes_compare a b).
Proof.
  induction a as [|x a IH]; intros [|y b]; cbn; try done. rewrite (Z.compare_antisym (byte.unsigned x)).
  destruct (Z.compare _ _); [apply IH|done|done].
Qed.
Lemma bytes_compare_trans a : forall b c, bytes_compare a b = Lt -> bytes_compare b c = Lt -> bytes_compare a c = Lt.
Proof.
  induction a as [|x a IH]; intros [|y b] [|z c]; cbn; try done.
  destruct (Z.compare_spec (byte.unsigned x) (byte.unsigned y)) as [E| |]; try done;
    destruct (Z.compare_spec (byte.unsigned y) (byte.unsigned z)) as [E'| |]; try done; intros H1 H2.
  - rewrite E, E', Z.compare_refl. by eapply IH.
  - rewrite E. by rewrite (proj2 (Z.compare_lt_iff _ _)).
  - rewrite <- E'. by rewrite (proj2 (Z.compare_lt_iff _ _)).
  - rewrite (proj2 (Z.compare_lt_iff _ _)); [done|lia].
Qed.

(** *** Tables of members *)

(** The members of a table in its order, each with its name *)
Definition Members := list (list byte * Field).
Definition sorted (ms : Members) : Prop := forall j k a b, (j < k)%nat -> ms !! j = Some a -> ms !! k = Some b ->
  bytes_compare (fst a) (fst b) = Lt.

(** The specification: the first member with the name *)
Fixpoint scan (name : list byte) (ms : Members) : option Field :=
  match ms with
  | [] => None
  | (n, f) :: ms => if bool_decide (n = name) then Some f else scan name ms
  end.

Lemma scan_absent name ms : (forall k n f, ms !! k = Some (n, f) -> n <> name) -> scan name ms = None.
Proof.
  induction ms as [|[n f] ms IH]; intros H; [done|]. cbn. rewrite bool_decide_eq_false_2 by (by apply (H 0%nat n f)).
  apply IH. intros k. apply (H (S k)).
Qed.
Lemma scan_present name ms : forall k f, sorted ms -> ms !! k = Some (name, f) -> scan name ms = Some f.
Proof.
  induction ms as [|[n g] ms IH]; intros [|k] f Hs Hk; try done; cbn in Hk |- *.
  - injection Hk as -> ->. by rewrite bool_decide_eq_true_2.
  - rewrite bool_decide_eq_false_2.
    + apply (IH k f); [|done]. intros i j a b Hij Ha Hb. apply (Hs (S i) (S j)); [lia|done|done].
    + intros ->. pose proof (Hs 0%nat (S k) _ _ ltac:(lia) eq_refl Hk) as E. cbn in E. by rewrite bytes_compare_refl in E.
Qed.
(** A member whose name compares differently is not the one sought, nor is any
    on that side of it. *)
Lemma sorted_after ms k j a b name : sorted ms -> ms !! k = Some a -> ms !! j = Some b -> (j <= k)%nat ->
  bytes_compare name (fst a) = Gt -> fst b <> name.
Proof.
  intros Hs Ha Hb Hle Hc E. subst name. destruct (decide (j = k)) as [->|Hne].
  - assert (a = b) as -> by congruence. by rewrite bytes_compare_refl in Hc.
  - pose proof (Hs j k b a ltac:(lia) Hb Ha). congruence.
Qed.
Lemma sorted_before ms k j a b name : sorted ms -> ms !! k = Some a -> ms !! j = Some b -> (k <= j)%nat ->
  bytes_compare name (fst a) = Lt -> fst b <> name.
Proof.
  intros Hs Ha Hb Hle Hc E. subst name. destruct (decide (j = k)) as [->|Hne].
  - assert (a = b) as -> by congruence. by rewrite bytes_compare_refl in Hc.
  - pose proof (Hs k j a b ltac:(lia) Ha Hb) as E. rewrite (bytes_compare_antisym (fst a)), E in Hc. done.
Qed.

Section search.
Context `{GeneratedCode} (m : mem) (tables : gmap Z CapTable) (s : StructSchema) (fl : FieldList).

(** [ms] is the table [members_by_name] with the names and fields read: schema
    reads do not touch the limiter of the caller. *)
Definition names_table (ms : Members) : Prop :=
  length ms = length (members_by_name (statics s)) /\
  forall k n f, ms !! k = Some (n, f) -> exists i, members_by_name (statics s) !! k = Some i /\
    FieldList_get fl i = Ok f /\ forall l, field_name m tables f l = (Ok n, l).

Lemma search_by_name_scan ms name : names_table ms -> sorted ms -> forall fuel lower upper l,
  0 <= lower -> upper <= Z.of_nat (length ms) -> (Z.to_nat (upper - lower) < fuel)%nat ->
  (forall k f, ms !! k = Some (name, f) -> lower <= Z.of_nat k < upper) ->
  search_by_name m tables fuel s fl name lower upper l = (Ok (scan name ms), l).
Proof.
  intros [Hlen Hms] Hs. induction fuel as [|fuel IH]; intros lower upper l Hlo Hup Hf Hin; [lia|]. cbn [search_by_name].
  destruct (Z.ltb_spec lower upper) as [Hlt|Hge].
  2: { rewrite scan_absent; [done|]. intros k n f Hk ->. specialize (Hin k f Hk). lia. }
  cbv zeta. set (mid := (lower + upper) / 2). assert (Hmid : lower <= mid < upper) by (unfold mid; zlia).
  destruct (lookup_lt_is_Some_2 ms (Z.to_nat mid)) as [[n f] Hnf]; [lia|].
  destruct (Hms _ _ _ Hnf) as (i & Hi & Hget & Hname). rewrite Hi.
  rewrite (lift_bind_ok _ _ _ _ Hget), (ST_bind_ok _ _ _ _ _ (Hname l)).
  destruct (bytes_compare name n) eqn:Ec.
  - apply bytes_compare_eq in Ec as <-. rewrite (scan_present _ _ _ _ Hs Hnf). by rewrite (lift_bind_ok _ _ _ _ Hget).
  - apply IH; [lia|lia|lia|]. intros k g Hk. specialize (Hin k g Hk).
    assert (~ (Z.to_nat mid <= k)%nat); [|lia]. intros Hle. by apply (sorted_before ms _ k _ _ name Hs Hnf Hk Hle Ec).
  - apply IH; [lia|lia|lia|]. intros k g Hk. specialize (Hin k g Hk).
    assert (~ (k <= Z.to_nat mid)%nat); [|lia]. intros Hle. by apply (sorted_after ms _ k _ _ name Hs Hnf Hk Hle Ec).
Qed.
End search.

(** ** A program with one struct type, for the witnesses

    [struct Pair { a @0 :UInt16 = 7; b @1 :Text; c @2 :List(Pair); }]: its node
    is 37 words at 8192; the type is number 1, its functions are numbers 2
    and 3. *)

Definition pair_schema : RawBrandedStructSchema := {| generic := 1; field_types := 2; annotation_types := 3 |}.
Definition pair_words : list Z := [
  (* the root: a node of 5 words of data and 4 pointers *)
  0x0004000500000000;
  (* a struct of 1 word and 2 pointers, no union; its fields *)
  0; 0x0001000100000000; 0; 2; 0; 0; 0; 0; 0x0000009700000001;
  (* 3 fields of 2 words of data and 4 pointers: a name and a default value *)
  0x000400020000000c;
  0; 0; 0x000000120000003d; 0; 0; 0x000000010000003c;
  0; 0; 0x0000001200000029; 0; 0; 0x0001000100000028;
  0x100000000; 0; 0x0000001200000015; 0; 0; 0x0001000100000018;
  (* their names; the default values: 7, no text, no list *)
  0x61; 0x62; 0x63; 0x70007; 12; 0; 14; 0].
(** A message: [(a = 2, b = "hi", c = [()])] *)
Definition pair_message : list Z :=
  [0x2000100000000; 0x5; 0x1a00000005; 0x1f00000005; 0x6968; 0x2000100000004; 0x0; 0x0; 0x0].

Definition pair_mem : mem :=
  write_bytes (write_bytes (write_bytes ∅ zero_pointer (repeat Byte.x00 8)) 8192 (bytes_of_words pair_words))
    12288 (bytes_of_words pair_message).

#[local] Instance pair_code : GeneratedCode := {|
  raw_struct_schema _ := {| arena := {| words_ptr := 8192; words_len := 37 |}; nonunion_members := [0; 1; 2];
                            members_by_discriminant := []; members_by_name := [0; 1; 2] |};
  call_field_types _ i := match i with
    | 0 => Ok (new_base BT_UInt16) | 1 => Ok (new_base BT_Text) | 2 => list_of (new_base (BT_Struct pair_schema))
    | _ => Panic end;
  call_annotation_types _ _ _ := Panic
|}.
#[local] Instance pair_types : KnownTypes := {| known_struct r := r = pair_schema; known_enum _ := False |}.

Definition pair_limiter : ReadLimiter := ReadLimiter_new (Some 1000).
Definition run_schema : StructSchema :=
  match StructSchema_new pair_mem pair_schema pair_limiter with
  | (Ok s, _) => s | _ => {| raw := pair_schema; proto := StructReader_new_default |} end.
Definition pair_root : ST ReadLimiter StructReader :=
  r ← get_root_from_arena (generated_arena {| words_ptr := 12288; words_len := 9 |}); get_struct pair_mem r None.
Definition pair_reader : StructReader := match pair_root pair_limiter with (Ok s, _) => s | _ => StructReader_new_default end.
Definition pair_value : StructValue := {| ds_reader := pair_reader; ds_schema := run_schema |}.

Lemma pair_zero : zero_ok pair_mem.
Proof.
  split; [|vm_compute; reflexivity]. unfold words_ok, addressable, zero_pointer. repeat split; try lia.
  apply (proj1 (valid_nat_iff pair_mem 8 8)). vm_compute. reflexivity.
Qed.
Example pair_reads :
  match get_named pair_mem ∅ pair_value [Byte.x62] pair_limiter with
  | (Ok (V_Text t), _) => text_of pair_mem t = Ok [Byte.x68; Byte.x69]
  | _ => False
  end /\
  match get_named pair_mem ∅ pair_value [Byte.x61] pair_limiter with (Ok v, _) => v = V_UInt16 2 | _ => False end /\
  match (l ← get_named pair_mem ∅ pair_value [Byte.x63]; match l with V_List l => list_get pair_mem ∅ l 0 | _ => fails TypeMismatch end) pair_limiter with
  | (Ok (V_Struct s), l) => fst (get_named pair_mem ∅ s [Byte.x61] l) = Ok (V_UInt16 7)
  | _ => False
  end.
Proof. vm_compute. done. Qed.

(** The statics of this program keep the promises of [GeneratedOk]. *)
Definition pair_fields : FieldList :=
  match get_fields pair_mem ∅ run_schema pair_limiter with
  | (Ok fl, _) => fl | _ => {| fields := ListReader_new_default; fields_parent := run_schema |} end.
Lemma pair_schema_is l : StructSchema_new pair_mem pair_schema l = (Ok run_schema, l).
Proof. by destruct l. Qed.
Lemma pair_fields_are l : get_fields pair_mem ∅ run_schema l = (Ok pair_fields, l).
Proof. by destruct l. Qed.
Lemma pair_segment a n : 8192 <= a -> a mod 8 = 0 -> 0 <= n -> a + 8 * n <= 8192 + 8 * 37 \/ (12288 <= a /\ a + 8 * n <= 12288 + 8 * 9) ->
  segment_ok pair_mem a n.
Proof.
  intros Ha Hal Hn Hb. unfold segment_ok. split; [lia|]. split; [done|]. split; [lia|]. split; [|lia]. destruct Hb as [Hb|Hb].
  - apply (valid_sub _ 8192 296); try lia. apply (proj1 (valid_nat_iff pair_mem 296 8192)). vm_compute. reflexivity.
  - apply (valid_sub _ 12288 72); try lia. apply (proj1 (valid_nat_iff pair_mem 72 12288)). vm_compute. reflexivity.
Qed.
Lemma ok_result_inj {A S} (a b : A) (s s' : S) : (Ok a, s) = (Ok b, s') -> a = b.
Proof. by intros [=]. Qed.
Lemma pair_only s : schema_ok pair_mem s -> s = run_schema.
Proof.
  intros [Hr Hs]. rewrite Hr in Hs. symmetry. apply (ok_result_inj _ _ pair_limiter pair_limiter). rewrite <- Hs. symmetry. apply pair_schema_is.
Qed.
Lemma pair_count : lr_element_count (fields pair_fields) = 3.
Proof. reflexivity. Qed.
Lemma pair_types_known r i : 0 <= i < 3 -> exists t, call_field_types r i = Ok t /\ type_known t.
Proof.
  intros Hi. assert (i = 0 \/ i = 1 \/ i = 2) as [->|[->| ->]] by lia; eexists; (split; [reflexivity|]);
    (split; [unfold type_ok, u64, in_width; cbn; lia|done]).
Qed.
Lemma pair_listed s i : listed s i -> 0 <= i < 3.
Proof.
  unfold listed, statics. cbn [raw_struct_schema pair_code nonunion_members members_by_discriminant members_by_name].
  set_unfold. lia.
Qed.
Lemma pair_generated : GeneratedOk pair_mem ∅.
Proof.
  constructor.
  - intros r _. apply pair_segment; cbn; lia || reflexivity.
  - intros r ->. exists (proto run_schema). intros l. apply pair_schema_is.
  - intros s Hs. by rewrite (pair_only s Hs).
  - intros e [].
  - intros s fl l l' i Hs E Hi. rewrite (pair_only s Hs), pair_fields_are in E. apply ok_result_inj in E as <-.
    rewrite pair_count in Hi. by apply pair_types_known.
  - intros s fl l l' i Hs E Hi. rewrite (pair_only s Hs), pair_fields_are in E. apply ok_result_inj in E as <-.
    rewrite pair_count. by eapply pair_listed.
Qed.
Lemma reads_value {A} (c : ST ReadLimiter A) (P : A -> Prop) l d : reads c P -> limiter_ok l -> P d ->
  P (match c l with (Ok a, _) => a | _ => d end).
Proof. intros Hc Hl Hd. specialize (Hc l Hl). unfold wp in Hc. destruct (c l) as [[] l']; try done. apply Hc. Qed.
Lemma pair_value_ok : has_type pair_mem (new_base (BT_Struct pair_schema)) (V_Struct pair_value).
Proof.
  split; [done|]. split; [|split; [done|apply pair_schema_is]].
  assert (Hr : reads pair_root (reader_ok pair_mem)).
  { eapply reads_bind; [apply reads_generated_root, pair_segment; cbn; lia || reflexivity|].
    intros p Hp. by apply reads_struct; [apply pair_zero|]. }
  apply (reads_value _ _ pair_limiter StructReader_new_default Hr); [|split; [apply sr_ok_default|cbn; lia]]. split; [discriminate|reflexivity].
Qed.

(** The fields of the program, with their names *)
Definition pair_member (i : Z) : Field :=
  match FieldList_get pair_fields i with
  | Ok f => f | _ => {| field_proto := StructReader_new_default; index := i; ty := new_base BT_Void; parent := run_schema |} end.
Definition pair_members : Members := [([Byte.x61], pair_member 0); ([Byte.x62], pair_member 1); ([Byte.x63], pair_member 2)].
Lemma some_inj {A} (a b : A) : Some a = Some b -> b = a.
Proof. by intros [=]. Qed.
Lemma entry_inj (n1 n2 : list byte) (f1 f2 : Field) : Some (n1, f1) = Some (n2, f2) -> n2 = n1 /\ f2 = f1.
Proof. by intros [=]. Qed.
Lemma pair_table : names_table pair_mem ∅ run_schema pair_fields pair_members /\ sorted pair_members.
Proof.
  split; [split; [reflexivity|]|].
  - intros [|[|[|k]]] n f E; [| | |done]; apply entry_inj in E as [-> ->];
      eexists; (split; [reflexivity|]; split; [reflexivity|]); by intros [].
  - intros [|[|[|j]]] [|[|[|k]]] a b Hjk Ha Hb; try lia; try discriminate Ha; try discriminate Hb;
      apply some_inj in Ha as ->; apply some_inj in Hb as ->; reflexivity.
Qed.

(** Looking a field up by its name: the binary search of
    [find_field_by_name] ends, in at most one more round than the table has
    members, and finds exactly what a scan of the table for that name finds,
    when the table is sorted by name as the code generator sorts it. *)
Lemma field_lookup_is_scan `{GeneratedCode} (m : mem) (tables : gmap Z CapTable) (s : StructSchema) (fl : FieldList)
    (ms : Members) (name : list byte) (l : ReadLimiter) :
  (forall l, get_fields m tables s l = (Ok fl, l)) -> names_table m tables s fl ms -> sorted ms ->
  find_field_by_name m tables s name l = (Ok (scan name ms), l).
Proof.
  intros Hfl Hms Hs. unfold find_field_by_name. rewrite (ST_bind_ok _ _ _ _ _ (Hfl l)).
  pose proof (proj1 Hms) as Hlen. apply (search_by_name_scan m tables s fl ms name Hms Hs); [lia|lia|lia|].
  intros k f Hk. apply lookup_lt_Some in Hk. lia.
Qed.

Lemma field_lookup_is_scan_witness :
  find_field_by_name pair_mem ∅ run_schema [Byte.x62] pair_limiter = (Ok (scan [Byte.x62] pair_members), pair_limiter) /\
  scan [Byte.x62] pair_members = Some (pair_member 1).
Proof.
  split; [|reflexivity].
  apply (field_lookup_is_scan pair_mem ∅ run_schema pair_fields pair_members [Byte.x62] pair_limiter pair_fields_are);
    apply pair_table.
Defined.

(** ** Properties *)

(** What a name gets of a struct, given the table of its members: what a scan
    of the table finds, or the error for a name that is not there. *)
Lemma get_named_is_scan `{GeneratedCode} (m : mem) (tables : gmap Z CapTable) (v : StructValue) (fl : FieldList)
    (ms : Members) (name : list byte) (l : ReadLimiter) :
  (forall l, get_fields m tables (ds_schema v) l = (Ok fl, l)) -> names_table m tables (ds_schema v) fl ms -> sorted ms ->
  get_named m tables v name l =
  match scan name ms with Some f => get m tables v f l | None => (Err FieldNotFound, l) end.
Proof.
  intros Hfl Hms Hs. unfold get_named, get_field_by_name, bind. cbn [ST_monad].
  rewrite (field_lookup_is_scan m tables _ fl ms name l Hfl Hms Hs). by destruct (scan name ms).
Qed.

(** C37: Reading through a schema is type safe, in a program whose generated
    statics are what the code generator promises ([GeneratedOk]: the schemas
    of its types are in memory and describe structs, and the tables of members
    and types cover the fields): a value that has a type can be read on without
    a panic or an access out of bounds, and what is read has the type that the
    schema gives it.  Of a struct this holds for every field of its type; for a
    name, of which the value of a field with that name is read; and the member
    of its union that is set is the one listed for the discriminant that the
    struct has.  If its table of members is sorted by name, as the generator
    sorts it, a name gets what reading the member of that name in the table
    gets, and the error [FieldNotFound] if there is none.  Of a list it holds for every element; and the bytes of a
    text can be looked at.  Whatever happens the caller's read limit stays
    well-formed. *)
Theorem dynamic_reads_typed `{GeneratedCode, KnownTypes} (m : mem) (tables : gmap Z CapTable) (t : Ty) (v : Value) :
  zero_ok m -> GeneratedOk m tables -> has_type m t v ->
  match v with
  | V_Struct s =>
      (forall f, field_of m (ds_schema s) f ->
         reads (get m tables s f) (has_type m (ty f)) /\ sound (has m s f) (fun _ => True)) /\
      (forall name, reads (get_named m tables s name)
         (fun x => exists f, field_of m (ds_schema s) f /\ has_name m tables f name /\ has_type m (ty f) x)) /\
      (forall fl ms, (forall l, get_fields m tables (ds_schema s) l = (Ok fl, l)) ->
         names_table m tables (ds_schema s) fl ms -> sorted ms ->
         forall name l, get_named m tables s name l =
           match scan name ms with Some f => get m tables s f l | None => (Err FieldNotFound, l) end) /\
      reads (which_field m tables s)
        (fun o => match o with Some f => field_of m (ds_schema s) f /\ set_member m s f | None => True end)
  | V_List l => forall i, 0 <= i < ListValue_len l -> reads (list_get m tables l i) (has_type m (dl_element_type l))
  | V_Text x => sound (text_of m x) (fun bs => Z.of_nat (length bs) = bs_len (text_bytes x))
  | _ => True
  end.
Proof.
  intros Hz Hg Hv. unfold has_type in Hv. destruct v as [| | | | | | | | | | | | |x| |s|l| |]; try done.
  - apply text_bytes_ok. by destruct (which t).
  - assert (Hs : struct_value_ok m s) by (destruct (which t); tauto). split; [|split; [|split]].
    + intros f Hf. split; [by apply reads_get|by eapply has_ok].
    + intros name. by apply reads_get_named.
    + intros fl ms Hfl Hms Hsorted name l. by apply (get_named_is_scan m tables s fl).
    + by apply reads_which_field.
  - assert (Hl : list_value_ok m l) by (destruct (which t); tauto). intros i Hi. by eapply reads_list_get.
Qed.

(** The second member of the example is got by its name, and nothing by
    another. *)
Lemma dynamic_reads_typed_witness :
  reads (get_named pair_mem ∅ pair_value [Byte.x62])
    (fun x => exists f, field_of pair_mem run_schema f /\ has_name pair_mem ∅ f [Byte.x62] /\ has_type pair_mem (ty f) x) /\
  (forall l, get_named pair_mem ∅ pair_value [Byte.x62] l = get pair_mem ∅ pair_value (pair_member 1) l) /\
  (forall l, get_named pair_mem ∅ pair_value [Byte.x64] l = (Err FieldNotFound, l)) /\
  reads (which_field pair_mem ∅ pair_value)
    (fun o => match o with Some f => field_of pair_mem run_schema f /\ set_member pair_mem pair_value f | None => True end).
Proof.
  destruct (dynamic_reads_typed pair_mem ∅ (new_base (BT_Struct pair_schema)) (V_Struct pair_value) pair_zero pair_generated
    pair_value_ok) as (_ & Hn & Hs & Hw).
  destruct pair_table as [Hms Hsorted]. specialize (Hs pair_fields pair_members pair_fields_are Hms Hsorted).
  split; [exact (Hn _)|]. split; [exact (Hs [Byte.x62])|]. split; [exact (Hs [Byte.x64])|exact Hw].
Defined.
