(* ===== verification/DynamicBuilder.v ===== *)
(** * Dynamically typed values, building (capnp/src/dynamic_value.rs,
    dynamic_struct.rs, dynamic_list.rs)

    The message is built in the [World]; schemas are read from its memory. *)

From S2P Require Import Prelude Mem ReadLimiter Segments WirePointer Arena Readers.
From S2P Require Import Allocators BuilderArena Builders ListIter TypedLists TypedPointers Introspect SchemaCapnp Schema DynamicValue.
From stdpp Require Import list.
#[local] Open Scope Z_scope.
#[local] Open Scope rust_scope.
Import TypedLists TypedPointers Introspect SchemaCapnp Schema DynamicValue.

Module DynamicBuilder.

(** [dynamic_struct::Builder], [dynamic_list::Builder] *)
Record StructB := { db_builder : StructBuilder; db_schema : StructSchema }.
Record ListB := { dlb_builder : ListBuilder; dlb_element_type : Ty }.

(** [dynamic_value::Builder] *)
Inductive Builder :=
| B_Void | B_Bool (b : bool)
| B_Int8 (x : Z) | B_Int16 (x : Z) | B_Int32 (x : Z) | B_Int64 (x : Z)
| B_UInt8 (x : Z) | B_UInt16 (x : Z) | B_UInt32 (x : Z) | B_UInt64 (x : Z)
| B_Float32 (bits : Z) | B_Float64 (bits : Z)
| B_Enum (e : EnumValue) | B_Text (t : TextBuilder) | B_Data (d : DataBuilder)
| B_Struct (s : StructB) | B_List (l : ListB) | B_AnyPointer (a : AnyBuilder) | B_Capability.

Section building.
Context `{GeneratedCode} {A : Type} `{Allocator A}.

(** Reading a schema, and reading plain data of it *)
Definition on_schema {X} (f : mem -> gmap Z CapTable -> ST ReadLimiter X) : B A X := on_limiter f.
Definition on_proto {X} (f : mem -> outcome X) : B A X := on_mem f.

Definition struct_schema_of (r : RawBrandedStructSchema) : B A StructSchema := on_schema (fun m _ => StructSchema_new m r).
Definition enum_builder (v : Z) (re : RawEnumSchema) : B A Builder :=
  s ← on_schema (fun m _ => EnumSchema_new m re); ret (B_Enum {| ev_value := v; ev_schema := s |}).
Definition size_of_schema (r : RawBrandedStructSchema) : B A StructSize :=
  s ← struct_schema_of r; on_proto (fun m => struct_size_from_schema m s).

Definition reborrow_as_reader (s : StructB) : B A StructValue :=
  r ← StructBuilder_as_reader (db_builder s); ret {| ds_reader := r; ds_schema := db_schema s |}.
Definition ListB_into_reader (l : ListB) : B A ListValue :=
  r ← ListBuilder_into_reader (dlb_builder l); ret {| dl_reader := r; dl_element_type := dlb_element_type l |}.

(** [text::Builder::into_reader] *)
Definition text_into_reader (t : TextBuilder) : TextReader := Text (tb_bytes t).

(** [dynamic_value::Builder::into_reader] *)
Definition into_reader (b : Builder) : B A Value :=
  match b with
  | B_Void => ret V_Void
  | B_Bool b => ret (V_Bool b)
  | B_Int8 x => ret (V_Int8 x)
  | B_Int16 x => ret (V_Int16 x)
  | B_Int32 x => ret (V_Int32 x)
  | B_Int64 x => ret (V_Int64 x)
  | B_UInt8 x => ret (V_UInt8 x)
  | B_UInt16 x => ret (V_UInt16 x)
  | B_UInt32 x => ret (V_UInt32 x)
  | B_UInt64 x => ret (V_UInt64 x)
  | B_Float32 x => ret (V_Float32 x)
  | B_Float64 x => ret (V_Float64 x)
  | B_Enum e => ret (V_Enum e)
  | B_Text t => ret (V_Text (text_into_reader t))
  | B_Data d => ret (V_Data (let 'DataB bytes := d in Data bytes))
  | B_Struct s => r ← reborrow_as_reader s; ret (V_Struct r)
  | B_List l => r ← ListB_into_reader l; ret (V_List r)
  | B_AnyPointer a => r ← any_into_reader a; ret (V_AnyPointer r)
  | B_Capability => ret V_Capability
  end.

(** ** [dynamic_struct::Builder]: [get] *)

Definition sb_signed_field_mask (n : Z) (s : StructBuilder) (offset mask : Z) : B A Z :=
  v ← sb_get_data_field n s offset; ret (Z.lxor (as_signed n v) mask).

Definition get_text_slot (p : PointerBuilder) (dval : ValueWhich) : B A Builder :=
  null ← PointerBuilder_is_null p;
  (match null, dval with
   | true, VW_Text t => t ← question t; bs ← slice_of (text_bytes t); set_text p bs
   | _, _ => ret tt
   end) ;;
  t ← pb_get_text p None;
  ret (B_Text t).
Definition get_data_slot (p : PointerBuilder) (dval : ValueWhich) : B A Builder :=
  null ← PointerBuilder_is_null p;
  (match null, dval with
   | true, VW_Data d => d ← question d; bs ← slice_of (data_bytes d); set_data p bs
   | _, _ => ret tt
   end) ;;
  d ← pb_get_data p None;
  ret (B_Data (DataB d)).
Definition get_struct_slot (p : PointerBuilder) (schema : RawBrandedStructSchema) (dval : ValueWhich) : B A Builder :=
  null ← PointerBuilder_is_null p;
  (match null, dval with
   | true, VW_Struct s => copy_from p (any_reader s) false
   | _, _ => ret tt
   end) ;;
  size ← size_of_schema schema;
  b ← pb_get_struct p size None;
  s ← struct_schema_of schema;
  ret (B_Struct {| db_builder := b; db_schema := s |}).
Definition get_list_slot (p : PointerBuilder) (element_type : Ty) (dval : ValueWhich) : B A Builder :=
  null ← PointerBuilder_is_null p;
  (match null, dval with
   | true, VW_List l => copy_from p (any_reader l) false
   | _, _ => ret tt
   end) ;;
  l ← match which element_type with
      | TV_Struct ss => size ← size_of_schema ss; pb_get_struct_list p size None
      | _ => pb_get_list p (expected_element_size element_type) None
      end;
  ret (B_List {| dlb_builder := l; dlb_element_type := element_type |}).

Definition get_slot (b : StructBuilder) (t : Ty) (offset : Z) (dval : ValueWhich) : B A Builder :=
  let p := sb_get_pointer_field b offset in
  match which t, dval with
  | TV_Void, _ => ret B_Void
  | TV_Bool, VW_Bool d => v ← sb_get_bool_field_mask b offset d; ret (B_Bool v)
  | TV_Int8, VW_Int8 x => v ← sb_signed_field_mask 1 b offset x; ret (B_Int8 v)
  | TV_Int16, VW_Int16 x => v ← sb_signed_field_mask 2 b offset x; ret (B_Int16 v)
  | TV_Int32, VW_Int32 x => v ← sb_signed_field_mask 4 b offset x; ret (B_Int32 v)
  | TV_Int64, VW_Int64 x => v ← sb_signed_field_mask 8 b offset x; ret (B_Int64 v)
  | TV_UInt8, VW_Uint8 x => v ← sb_get_data_field_mask 1 b offset x; ret (B_UInt8 v)
  | TV_UInt16, VW_Uint16 x => v ← sb_get_data_field_mask 2 b offset x; ret (B_UInt16 v)
  | TV_UInt32, VW_Uint32 x => v ← sb_get_data_field_mask 4 b offset x; ret (B_UInt32 v)
  | TV_UInt64, VW_Uint64 x => v ← sb_get_data_field_mask 8 b offset x; ret (B_UInt64 v)
  | TV_Float32, VW_Float32 x => v ← sb_get_data_field_mask 4 b offset x; ret (B_Float32 v)
  | TV_Float64, VW_Float64 x => v ← sb_get_data_field_mask 8 b offset x; ret (B_Float64 v)
  | TV_Enum schema, VW_Enum d => v ← sb_get_data_field_mask 2 b offset d; enum_builder v schema
  | TV_Text, _ => get_text_slot p dval
  | TV_Data, _ => get_data_slot p dval
  | TV_Struct schema, _ => get_struct_slot p schema dval
  | TV_List element_type, _ => get_list_slot p element_type dval
  | TV_AnyPointer, VW_AnyPointer _ => ret (B_AnyPointer (AnyB p))
  | TV_Capability, VW_Interface => ret B_Capability
  | _, _ => fails FieldAndDefaultMismatch
  end.

Definition get (s : StructB) (f : Field) : B A Builder :=
  lift (same_struct (db_schema s) f) ;;
  w ← on_proto (fun m => field_which m (field_proto f));
  match w with
  | FW_Slot slot =>
      offset ← on_proto (fun m => slot_get_offset m slot);
      default_value ← on_schema (fun m _ => slot_get_default_value m slot);
      dval ← on_schema (fun m tables => value_which m tables default_value);
      get_slot (db_builder s) (ty f) offset dval
  | FW_Group _ =>
      match which (ty f) with
      | TV_Struct schema => sc ← struct_schema_of schema; ret (B_Struct {| db_builder := db_builder s; db_schema := sc |})
      | _ => fails GroupFieldButTypeIsNotStruct
      end
  end.

(** A field of the struct's schema, by its name: the [_named] functions *)
Definition named (s : StructB) (name : list byte) : B A Field :=
  on_schema (fun m tables => get_field_by_name m tables (db_schema s) name).
Definition get_named (s : StructB) (name : list byte) : B A Builder := f ← named s name; get s f.

Definition which_field (s : StructB) : B A (option Field) :=
  w ← on_proto (fun m => node_which m (proto (db_schema s)));
  match w with
  | NW_Struct st =>
      count ← on_proto (fun m => get_discriminant_count m st);
      if count =? 0 then ret None
      else
        o ← on_proto (fun m => get_discriminant_offset m st);
        discrim ← sb_get_data_field 2 (db_builder s) o;
        on_schema (fun m tables => get_field_by_discriminant m tables (db_schema s) discrim)
  | _ => fails NotAStruct
  end.

Definition has (s : StructB) (f : Field) : B A bool :=
  r ← reborrow_as_reader s; on_proto (fun m => DynamicValue.has m r f).
Definition has_named (s : StructB) (name : list byte) : B A bool := f ← named s name; has s f.

(** ** Changing a struct *)

Definition set_in_union (s : StructB) (f : Field) : B A unit :=
  d ← on_proto (fun m => has_discriminant_value m (field_proto f));
  if d : bool then
    w ← on_proto (fun m => node_which m (proto (db_schema s)));
    match w with
    | NW_Struct st =>
        o ← on_proto (fun m => get_discriminant_offset m st);
        v ← on_proto (fun m => get_discriminant_value m (field_proto f));
        set_data_field 2 (db_builder s) o v
    | _ => fails NotAStruct
    end
  else ret tt.

(** A slot in [clear] *)
Definition clear_slot (b : StructBuilder) (t : Ty) (offset : Z) : B A unit :=
  match which t with
  | TV_Void => ret tt
  | TV_Bool => set_bool_field b offset false
  | TV_Int8 | TV_UInt8 => set_data_field 1 b offset 0
  | TV_Int16 | TV_UInt16 | TV_Enum _ => set_data_field 2 b offset 0
  | TV_Int32 | TV_UInt32 | TV_Float32 => set_data_field 4 b offset 0
  | TV_Int64 | TV_UInt64 | TV_Float64 => set_data_field 8 b offset 0
  | TV_Text | TV_Data | TV_Struct _ | TV_List _ | TV_AnyPointer | TV_Capability => clear (sb_get_pointer_field b offset)
  end.

(** [for idx in 0..fields.len() { .. }] over the fields of a struct that are not
    in its union *)
Definition for_non_union (s : StructSchema) (body : Field -> B A unit) : B A unit :=
  l ← on_schema (fun m tables => get_non_union_fields m tables s);
  iter_range (Z.to_nat (FieldSubset_len l)) 0 (fun idx => f ← lift (FieldSubset_get l idx); body f).

(** [clear] calls itself on the fields of a group: [fuel] is how deep groups
    may nest. *)
Fixpoint clear_field (fuel : nat) (s : StructB) (f : Field) : B A unit :=
  match fuel with
  | O => lift OutOfFuel
  | S fuel =>
      lift (same_struct (db_schema s) f) ;;
      set_in_union s f ;;
      w ← on_proto (fun m => field_which m (field_proto f));
      match w with
      | FW_Slot slot => offset ← on_proto (fun m => slot_get_offset m slot); clear_slot (db_builder s) (ty f) offset
      | FW_Group _ =>
          match which (ty f) with
          | TV_Struct schema =>
              sc ← struct_schema_of schema;
              let group := {| db_builder := db_builder s; db_schema := sc |} in
              o ← on_schema (fun m tables => get_field_by_discriminant m tables sc 0);
              (match o with Some union_field => clear_field fuel group union_field | None => ret tt end) ;;
              for_non_union sc (clear_field fuel group)
          | _ => fails NotAStruct
          end
      end
  end.

Definition init_slot (b : StructBuilder) (t : Ty) (offset : Z) : B A Builder :=
  let p := sb_get_pointer_field b offset in
  match which t with
  | TV_Struct ss =>
      sc ← struct_schema_of ss;
      size ← size_of_schema ss;
      r ← init_struct p size;
      ret (B_Struct {| db_builder := r; db_schema := sc |})
  | TV_AnyPointer => clear p ;; ret (B_AnyPointer (AnyB p))
  | _ => fails InitIsOnlyValidForStructAndAnyPointerFields
  end.
Definition init_field (fuel : nat) (s : StructB) (f : Field) : B A Builder :=
  lift (same_struct (db_schema s) f) ;;
  set_in_union s f ;;
  w ← on_proto (fun m => field_which m (field_proto f));
  match w with
  | FW_Slot slot => offset ← on_proto (fun m => slot_get_offset m slot); init_slot (db_builder s) (ty f) offset
  | FW_Group _ =>
      clear_field fuel s f ;;
      match which (ty f) with
      | TV_Struct schema => sc ← struct_schema_of schema; ret (B_Struct {| db_builder := db_builder s; db_schema := sc |})
      | _ => fails NotAStruct
      end
  end.

(** A list, text or data of the given size at a pointer: [initn], and [init] of
    a list of lists *)
Definition initn_list (p : PointerBuilder) (element_type : Ty) (size : Z) : B A Builder :=
  l ← match which element_type with
      | TV_Struct ss => z ← size_of_schema ss; init_struct_list p size z
      | _ => init_list p (expected_element_size element_type) size
      end;
  ret (B_List {| dlb_builder := l; dlb_element_type := element_type |}).
Definition initn_text (p : PointerBuilder) (size : Z) : B A Builder := t ← init_text p size; ret (B_Text t).
Definition initn_data (p : PointerBuilder) (size : Z) : B A Builder := d ← init_data p size; ret (B_Data (DataB d)).

Definition initn_field (s : StructB) (f : Field) (size : Z) : B A Builder :=
  lift (same_struct (db_schema s) f) ;;
  set_in_union s f ;;
  w ← on_proto (fun m => field_which m (field_proto f));
  match w with
  | FW_Slot slot =>
      offset ← on_proto (fun m => slot_get_offset m slot);
      let p := sb_get_pointer_field (db_builder s) offset in
      match which (ty f) with
      | TV_List element_type => initn_list p element_type size
      | TV_Text => initn_text p size
      | TV_Data => initn_data p size
      | _ => fails InitnIsOnlyValidForListTextOrDataFields
      end
  | FW_Group _ => fails InitnIsOnlyValidForListTextOrDataFields
  end.

(** [any_pointer::Builder::set_as] of a dynamic value *)
Definition set_any (p : PointerBuilder) (value : Value) : B A unit :=
  match value with
  | V_Text t => set_pointer_builder TextOwned A p t false
  | V_Data d => set_pointer_builder DataOwned A p d false
  | V_Struct s => set_struct p (ds_reader s) false
  | V_List l => set_list p (dl_reader l) false
  | V_Capability => fails SettingDynamicCapabilitiesIsUnsupported
  | _ => fails CannotSetAnyPointerFieldToAPrimitiveValue
  end.

(** A slot in [set] *)
Definition set_slot (b : StructBuilder) (t : Ty) (offset : Z) (value : Value) (dval : ValueWhich) : B A unit :=
  let p := sb_get_pointer_field b offset in
  match which t, value, dval with
  | TV_Void, _, _ => ret tt
  | TV_Bool, V_Bool v, VW_Bool d => set_bool_field_mask b offset v d
  | TV_Int8, V_Int8 v, VW_Int8 d => set_data_field_mask 1 b offset v d
  | TV_Int16, V_Int16 v, VW_Int16 d => set_data_field_mask 2 b offset v d
  | TV_Int32, V_Int32 v, VW_Int32 d => set_data_field_mask 4 b offset v d
  | TV_Int64, V_Int64 v, VW_Int64 d => set_data_field_mask 8 b offset v d
  | TV_UInt8, V_UInt8 v, VW_Uint8 d => set_data_field_mask 1 b offset v d
  | TV_UInt16, V_UInt16 v, VW_Uint16 d => set_data_field_mask 2 b offset v d
  | TV_UInt32, V_UInt32 v, VW_Uint32 d => set_data_field_mask 4 b offset v d
  | TV_UInt64, V_UInt64 v, VW_Uint64 d => set_data_field_mask 8 b offset v d
  | TV_Float32, V_Float32 v, VW_Float32 d => set_data_field_mask 4 b offset v d
  | TV_Float64, V_Float64 v, VW_Float64 d => set_data_field_mask 8 b offset v d
  | TV_Enum _, V_Enum ev, VW_Enum d => set_data_field_mask 2 b offset (ev_value ev) d
  | TV_Text, V_Text tv, _ => bs ← slice_of (text_bytes tv); set_text p bs
  | TV_Data, V_Data v, _ => bs ← slice_of (data_bytes v); set_data p bs
  | TV_List _, V_List l, _ => set_list p (dl_reader l) false
  | TV_Struct _, V_Struct v, _ => set_struct p (ds_reader v) false
  | TV_AnyPointer, _, _ => set_any p value
  | TV_Capability, _, _ => fails SettingDynamicCapabilitiesIsUnsupported
  | _, _, _ => fails TypeMismatch
  end.

(** [set] calls itself on the fields of a group. *)
Fixpoint set_field (fuel : nat) (s : StructB) (f : Field) (value : Value) : B A unit :=
  match fuel with
  | O => lift OutOfFuel
  | S fuel =>
      lift (same_struct (db_schema s) f) ;;
      set_in_union s f ;;
      w ← on_proto (fun m => field_which m (field_proto f));
      match w with
      | FW_Slot slot =>
          default_value ← on_schema (fun m _ => slot_get_default_value m slot);
          offset ← on_proto (fun m => slot_get_offset m slot);
          dval ← on_schema (fun m tables => value_which m tables default_value);
          set_slot (db_builder s) (ty f) offset value dval
      | FW_Group _ =>
          match value with
          | V_Struct src =>
              b ← init_field fuel s f;
              match b with
              | B_Struct dst =>
                  o ← on_schema (fun m tables => DynamicValue.which_field m tables src);
                  (match o with
                   | Some union_field =>
                       v ← on_schema (fun m tables => DynamicValue.get m tables src union_field); set_field fuel dst union_field v
                   | None => ret tt
                   end) ;;
                  for_non_union (ds_schema src) (fun field =>
                    present ← on_proto (fun m => DynamicValue.has m src field);
                    if present : bool then
                      v ← on_schema (fun m tables => DynamicValue.get m tables src field); set_field fuel dst field v
                    else ret tt)
              | _ => fails NotAStruct
              end
          | _ => fails NotAStruct
          end
      end
  end.

Definition set_named (fuel : nat) (s : StructB) (name : list byte) (value : Value) : B A unit :=
  f ← named s name; set_field fuel s f value.
Definition init_named (fuel : nat) (s : StructB) (name : list byte) : B A Builder := f ← named s name; init_field fuel s f.
Definition initn_named (s : StructB) (name : list byte) (size : Z) : B A Builder := f ← named s name; initn_field s f size.
Definition clear_named (fuel : nat) (s : StructB) (name : list byte) : B A unit := f ← named s name; clear_field fuel s f.

(** ** [dynamic_list::Builder] *)

Definition ListB_len (l : ListB) : Z := lb_element_count (dlb_builder l).
Definition builder_element {T} `{PrimitiveElement T} (l : ListB) (i : Z) : B A T := element_get_from_builder A (dlb_builder l) i.
Definition pointer_at (l : ListB) (i : Z) : B A PointerBuilder := lift (lb_get_pointer_element (dlb_builder l) i).

Definition list_get (l : ListB) (i : Z) : B A Builder :=
  lift (rust_assert (i <? ListB_len l)) ;;
  match which (dlb_element_type l) with
  | TV_Void => ret B_Void
  | TV_Bool => x ← builder_element (T := bool) l i; ret (B_Bool x)
  | TV_Int8 => x ← builder_element (T := Signed 1) l i; ret (B_Int8 (signed x))
  | TV_Int16 => x ← builder_element (T := Signed 2) l i; ret (B_Int16 (signed x))
  | TV_Int32 => x ← builder_element (T := Signed 4) l i; ret (B_Int32 (signed x))
  | TV_Int64 => x ← builder_element (T := Signed 8) l i; ret (B_Int64 (signed x))
  | TV_UInt8 => x ← builder_element (T := Unsigned 1) l i; ret (B_UInt8 (unsigned x))
  | TV_UInt16 => x ← builder_element (T := Unsigned 2) l i; ret (B_UInt16 (unsigned x))
  | TV_UInt32 => x ← builder_element (T := Unsigned 4) l i; ret (B_UInt32 (unsigned x))
  | TV_UInt64 => x ← builder_element (T := Unsigned 8) l i; ret (B_UInt64 (unsigned x))
  | TV_Float32 => x ← builder_element (T := Unsigned 4) l i; ret (B_Float32 (unsigned x))
  | TV_Float64 => x ← builder_element (T := Unsigned 8) l i; ret (B_Float64 (unsigned x))
  | TV_Enum e => x ← builder_element (T := Unsigned 2) l i; enum_builder (unsigned x) e
  | TV_Text => p ← pointer_at l i; t ← pb_get_text p None; ret (B_Text t)
  | TV_Data => p ← pointer_at l i; d ← pb_get_data p None; ret (B_Data (DataB d))
  | TV_List element_type =>
      p ← pointer_at l i;
      r ← pb_get_list p (expected_element_size element_type) None;
      ret (B_List {| dlb_builder := r; dlb_element_type := element_type |})
  | TV_Struct ss =>
      r ← lift (lb_get_struct_element (dlb_builder l) i);
      s ← struct_schema_of ss;
      ret (B_Struct {| db_builder := r; db_schema := s |})
  | TV_AnyPointer => p ← pointer_at l i; ret (B_AnyPointer (AnyB p))
  | TV_Capability => ret B_Capability
  end.

Definition list_set (l : ListB) (i : Z) (value : Value) : B A unit :=
  lift (rust_assert (i <? ListB_len l)) ;;
  let lb := dlb_builder l in
  match which (dlb_element_type l), value with
  | TV_Void, _ => ret tt
  | TV_Bool, V_Bool b => element_set (T := bool) A lb i b
  | TV_Int8, V_Int8 x => element_set (T := Signed 1) A lb i (I x)
  | TV_Int16, V_Int16 x => element_set (T := Signed 2) A lb i (I x)
  | TV_Int32, V_Int32 x => element_set (T := Signed 4) A lb i (I x)
  | TV_Int64, V_Int64 x => element_set (T := Signed 8) A lb i (I x)
  | TV_UInt8, V_UInt8 x => element_set (T := Unsigned 1) A lb i (U x)
  | TV_UInt16, V_UInt16 x => element_set (T := Unsigned 2) A lb i (U x)
  | TV_UInt32, V_UInt32 x => element_set (T := Unsigned 4) A lb i (U x)
  | TV_UInt64, V_UInt64 x => element_set (T := Unsigned 8) A lb i (U x)
  | TV_Float32, V_Float32 x => element_set (T := Unsigned 4) A lb i (U x)
  | TV_Float64, V_Float64 x => element_set (T := Unsigned 8) A lb i (U x)
  | TV_Enum _, V_Enum e => element_set (T := Unsigned 2) A lb i (U (ev_value e))
  | TV_Text, V_Text t => p ← pointer_at l i; bs ← slice_of (text_bytes t); set_text p bs
  | TV_Data, V_Data d => p ← pointer_at l i; bs ← slice_of (data_bytes d); set_data p bs
  | TV_Struct ss, V_Struct s =>
      lift (rust_assert (generic ss =? generic (raw (ds_schema s)))) ;;
      r ← lift (lb_get_struct_element lb i);
      copy_content_from r (ds_reader s)
  | TV_List _, V_List v => p ← pointer_at l i; set_list p (dl_reader v) false
  | TV_AnyPointer, _ => fails ListAnyPointerNotSupported
  | TV_Capability, V_Capability => fails ListCapabilityNotSupported
  | _, _ => fails TypeMismatch
  end.

Definition list_init (l : ListB) (i size : Z) : B A Builder :=
  lift (rust_assert (i <? ListB_len l)) ;;
  match which (dlb_element_type l) with
  | TV_Text => p ← pointer_at l i; initn_text p size
  | TV_Data => p ← pointer_at l i; initn_data p size
  | TV_List inner => p ← pointer_at l i; initn_list p inner size
  | TV_AnyPointer => fails ListAnyPointerNotSupported
  | _ => fails ExpectedAListOrBlob
  end.
End building.

(** ** Downcasts: [DowncastBuilder] *)

Class DowncastBuilder (T : Type) := downcast_builder : Builder -> outcome T.
#[export] Instance downcast_void : DowncastBuilder unit := fun v => match v with B_Void => Ok tt | _ => Panic end.
#[export] Instance downcast_bool : DowncastBuilder bool := fun v => match v with B_Bool x => Ok x | _ => Panic end.
#[export] Instance downcast_enum : DowncastBuilder EnumValue := fun v => match v with B_Enum x => Ok x | _ => Panic end.
#[export] Instance downcast_text : DowncastBuilder TextBuilder := fun v => match v with B_Text x => Ok x | _ => Panic end.
#[export] Instance downcast_data : DowncastBuilder DataBuilder := fun v => match v with B_Data x => Ok x | _ => Panic end.
#[export] Instance downcast_list : DowncastBuilder ListB := fun v => match v with B_List x => Ok x | _ => Panic end.
#[export] Instance downcast_dynamic_struct : DowncastBuilder StructB := fun v => match v with B_Struct x => Ok x | _ => Panic end.
#[export] Instance downcast_any : DowncastBuilder AnyBuilder := fun v => match v with B_AnyPointer x => Ok x | _ => Panic end.
(** [i8] to [i64] and [u8] to [u64] *)
#[export] Instance downcast_signed n : DowncastBuilder (Signed n) := fun v =>
  match v, n with
  | B_Int8 x, 1 | B_Int16 x, 2 | B_Int32 x, 4 | B_Int64 x, 8 => Ok (I x)
  | _, _ => Panic
  end.
#[export] Instance downcast_unsigned n : DowncastBuilder (Unsigned n) := fun v =>
  match v, n with
  | B_UInt8 x, 1 | B_UInt16 x, 2 | B_UInt32 x, 4 | B_UInt64 x, 8 => Ok (U x)
  | _, _ => Panic
  end.
(** [f32] and [f64], by their bits *)
#[export] Instance downcast_float n : DowncastBuilder (Float n) := fun v =>
  match v, n with
  | B_Float32 x, 4 | B_Float64 x, 8 => Ok (F x)
  | _, _ => Panic
  end.

(** [dynamic_struct::Builder::downcast::<T>] for a [T] whose type is [t] *)
Definition downcast_struct (t : Ty) (v : Builder) : outcome StructBuilder :=
  s ← downcast_builder v;
  rust_assert (loose_equals (new_base (BT_Struct (raw (db_schema s)))) t) ;;
  Ok (db_builder s).

End DynamicBuilder.
