(* ===== verification/DynamicRoundtrip.v ===== *)
(** * What is set dynamically is what is read back *)

From S2P Require Import Prelude ReadLimiter Segments Mem WirePointer Arena Readers ReadersSafe ReadingProps.
From S2P Require Import Allocators AllocatorsOk BuilderArena Builders BuilderArenaOk BuilderOps.
From S2P Require Import BuilderObjects BuilderProps CanonicalPacked Introspect ListIter TypedLists.
From S2P Require Import TypedPointers StructList TypedProps SchemaCapnp Schema DynamicValue DynamicSafe.
From S2P Require Import DynamicProps DynamicBuilder.
From stdpp Require Import list.
#[local] Open Scope Z_scope.
#[local] Open Scope rust_scope.
Import TypedLists TypedPointers Introspect SchemaCapnp Schema DynamicValue.

(** ** Reading looks at no more memory than it needs

    What is read from part of memory is read from all of it: a reader given a
    larger memory does the same, unless it went outside the smaller one.  So a
    schema in static memory reads the same whatever the rest of memory holds. *)

(** [o'] is [o], or [o] is undefined. *)
Definition within {A} (o o' : outcome A) : Prop := o = UB \/ o' = o.
Definition runs_within {S A} (c c' : ST S A) : Prop := forall s, fst (c s) = UB \/ c' s = c s.

Lemma within_refl {A} (o : outcome A) : within o o.
Proof. by right. Qed.
Lemma within_bind {A B} (o o' : outcome A) (k k' : A -> outcome B) :
  within o o' -> (forall a, within (k a) (k' a)) -> within (bind o k) (bind o' k').
Proof. intros [-> | ->] Hk; [by left|]. destruct o; cbn; try apply Hk; by right. Qed.
Lemma within_ok {A} (o o' : outcome A) a : within o o' -> o = Ok a -> o' = Ok a.
Proof. intros [-> | ->]; done. Qed.

Lemma runs_refl {S A} (c : ST S A) : runs_within c c.
Proof. intros s. by right. Qed.
Lemma runs_lift {S A} (o o' : outcome A) : within o o' -> runs_within (S := S) (lift o) (lift o').
Proof. intros [-> | ->] s; [by left|by right]. Qed.
Lemma runs_within_bind {S A B} (c c' : ST S A) (k k' : A -> ST S B) :
  runs_within c c' -> (forall a, runs_within (k a) (k' a)) -> runs_within (bind c k) (bind c' k').
Proof.
  intros Hc Hk s. unfold bind; cbn [ST_monad]. destruct (Hc s) as [E|E].
  - left. destruct (c s) as [[] s']; try done.
  - rewrite E. destruct (c s) as [[] s']; try by right. apply Hk.
Qed.
Lemma runs_kept {S A} (c c' : ST S A) : runs_within c c' -> runs_within (keep_result c) (keep_result c').
Proof.
  intros Hc s. unfold keep_result. destruct (Hc s) as [E|E]; [|rewrite E; by right].
  left. destruct (c s) as [[] s']; try done.
Qed.
Lemma runs_unwrapped {S A} (c c' : ST S A) : runs_within c c' -> runs_within (unwrap_result c) (unwrap_result c').
Proof.
  intros Hc s. unfold unwrap_result. destruct (Hc s) as [E|E]; [|rewrite E; by right].
  left. destruct (c s) as [[] s']; try done.
Qed.
Lemma runs_ok {S A} (c c' : ST S A) s a s' : runs_within c c' -> c s = (Ok a, s') -> c' s = (Ok a, s').
Proof. intros Hc E. destruct (Hc s) as [F|F]; [by rewrite E in F|by rewrite F]. Qed.

(** Both sides do the same as long as they read the same memory. *)
Ltac same_reads :=
  repeat first
    [ apply within_refl | apply runs_refl
    | apply runs_within_bind; [|intros ?] | apply within_bind; [|intros ?]
    | apply runs_lift | apply runs_kept | apply runs_unwrapped
    | progress cbv zeta
    | match goal with
      | |- runs_within (match ?x with _ => _ end) _ => destruct x
      | |- within (match ?x with _ => _ end) _ => destruct x
      end ].

Create HintDb reads.

Section mono.
Context (m m' : mem) (Hsub : m ⊆ m').

Lemma load_bytes_nat_mono n : forall a bs, load_bytes_nat m a n = Some bs -> load_bytes_nat m' a n = Some bs.
Proof.
  induction n as [|n IH]; intros a bs; [done|]. cbn. destruct (m !! a) as [b|] eqn:E; [|done].
  rewrite (lookup_weaken _ _ _ _ E Hsub). destruct (load_bytes_nat m (a + 1) n) as [bs'|] eqn:E'; [|done]. by rewrite (IH _ _ E').
Qed.
Lemma load_bytes_mono a n : within (load_bytes m a n) (load_bytes m' a n).
Proof.
  unfold load_bytes. destruct (load_bytes_nat m a _) as [bs|] eqn:E; [|by left]. right. by rewrite (load_bytes_nat_mono _ _ _ E).
Qed.
Lemma load_mono a n : within (load m a n) (load m' a n).
Proof. unfold load. same_reads. apply load_bytes_mono. Qed.
Lemma load_wp_mono a : within (load_wp m a) (load_wp m' a).
Proof. unfold load_wp. same_reads; apply load_mono. Qed.

#[local] Hint Resolve load_bytes_mono load_mono load_wp_mono : reads.
Ltac reads_auto := same_reads; eauto with reads.

Lemma get_data_field_mono n r o : within (get_data_field m n r o) (get_data_field m' n r o).
Proof. unfold get_data_field. reads_auto. Qed.
Lemma load_bit_mono a i : within (load_bit m a i) (load_bit m' a i).
Proof. unfold load_bit. reads_auto. Qed.
#[local] Hint Resolve get_data_field_mono load_bit_mono : reads.
Lemma get_bool_field_mono r o : within (get_bool_field m r o) (get_bool_field m' r o).
Proof. unfold get_bool_field. reads_auto. Qed.
Lemma is_null_mono p : within (PointerReader_is_null m p) (PointerReader_is_null m' p).
Proof. unfold PointerReader_is_null. reads_auto. Qed.
#[local] Hint Resolve get_bool_field_mono is_null_mono : reads.

Lemma follow_fars_mono ar r id : runs_within (follow_fars m ar r id) (follow_fars m' ar r id).
Proof. unfold follow_fars, target_from_segment. reads_auto. Qed.
#[local] Hint Resolve follow_fars_mono : reads.
Lemma read_struct_mono ar id c r n : runs_within (read_struct_pointer_from m ar id c r n) (read_struct_pointer_from m' ar id c r n).
Proof. unfold read_struct_pointer_from. reads_auto. Qed.
Lemma read_list_mono ar id c r e n : runs_within (read_list_pointer_from m ar id c r e n) (read_list_pointer_from m' ar id c r e n).
Proof. unfold read_list_pointer_from, read_struct_list. reads_auto. Qed.
Lemma read_text_mono ar id r : runs_within (read_text_pointer_from m ar id r) (read_text_pointer_from m' ar id r).
Proof. unfold read_text_pointer_from. reads_auto. Qed.
Lemma read_data_mono ar id r : runs_within (read_data_pointer_from m ar id r) (read_data_pointer_from m' ar id r).
Proof. unfold read_data_pointer_from. reads_auto. Qed.
#[local] Hint Resolve read_struct_mono read_list_mono read_text_mono read_data_mono : reads.
Lemma get_struct_mono r d : runs_within (get_struct m r d) (get_struct m' r d).
Proof. unfold get_struct, read_struct_pointer. reads_auto. Qed.
Lemma get_list_mono r e d : runs_within (get_list m r e d) (get_list m' r e d).
Proof. unfold get_list, read_list_pointer. reads_auto. Qed.
Lemma get_text_mono r d : runs_within (get_text m r d) (get_text m' r d).
Proof. unfold get_text, read_text_pointer. reads_auto. Qed.
Lemma get_data_mono r d : runs_within (get_data m r d) (get_data m' r d).
Proof. unfold get_data, read_data_pointer. reads_auto. Qed.
#[local] Hint Resolve get_struct_mono get_list_mono get_text_mono get_data_mono : reads.

(** Schemas *)
Section schemas.
Context `{GeneratedCode} (tables : gmap Z CapTable).

Lemma list_field_mono r n : runs_within (list_field m tables r n) (list_field m' tables r n).
Proof. unfold list_field. cbn [get_from_pointer StructList.reader_from_pointer]. reads_auto. Qed.
Lemma node_which_mono r : within (node_which m r) (node_which m' r).
Proof. unfold node_which. reads_auto. Qed.
Lemma field_which_mono r : within (field_which m r) (field_which m' r).
Proof. unfold field_which. reads_auto. Qed.
#[local] Hint Resolve list_field_mono node_which_mono field_which_mono : reads.
Lemma value_which_mono r : runs_within (value_which m tables r) (value_which m' tables r).
Proof. unfold value_which, signed_field. cbn [get_from_pointer text_reader data_reader]. reads_auto. Qed.
Lemma struct_schema_mono r : runs_within (StructSchema_new m r) (StructSchema_new m' r).
Proof. unfold StructSchema_new. reads_auto. Qed.
Lemma enum_schema_mono r : runs_within (EnumSchema_new m r) (EnumSchema_new m' r).
Proof. unfold EnumSchema_new. reads_auto. Qed.
Lemma get_fields_mono s : runs_within (get_fields m tables s) (get_fields m' tables s).
Proof. unfold get_fields, struct_get_fields. reads_auto. Qed.
#[local] Hint Resolve value_which_mono struct_schema_mono enum_schema_mono get_fields_mono : reads.
Lemma by_discriminant_mono s d : runs_within (get_field_by_discriminant m tables s d) (get_field_by_discriminant m' tables s d).
Proof. unfold get_field_by_discriminant. reads_auto. Qed.
Lemma has_discriminant_mono r : within (has_discriminant_value m r) (has_discriminant_value m' r).
Proof. unfold has_discriminant_value, get_discriminant_value, get_data_field_mask. reads_auto. Qed.
Lemma discriminant_value_mono r : within (get_discriminant_value m r) (get_discriminant_value m' r).
Proof. unfold get_discriminant_value, get_data_field_mask. reads_auto. Qed.
End schemas.
End mono.

Ltac solve_width := unfold primitive_width; lia.

Section roundtrip.
Context `{GeneratedCode} {A : Type} `{AllocatorOk A}.
Implicit Types (w : World A) (sb : StructBuilder).

(** A field whose value is stored in the data section: the bits it takes, and
    the values it may have, with the default value [dval] of its slot *)
Definition bits_of (t : Ty) : Z := data_bits_per_element (expected_element_size t).
Definition plain_value (m : mem) (t : Ty) (v : Value) (dval : ValueWhich) : Prop :=
  match which t, v, dval with
  | TV_Void, V_Void, _ => True
  | TV_Bool, V_Bool _, VW_Bool _ => True
  | TV_Int8, V_Int8 x, VW_Int8 d => signed_in 1 x /\ signed_in 1 d
  | TV_Int16, V_Int16 x, VW_Int16 d => signed_in 2 x /\ signed_in 2 d
  | TV_Int32, V_Int32 x, VW_Int32 d => signed_in 4 x /\ signed_in 4 d
  | TV_Int64, V_Int64 x, VW_Int64 d => signed_in 8 x /\ signed_in 8 d
  | TV_UInt8, V_UInt8 x, VW_Uint8 d => unsigned_in 1 x /\ unsigned_in 1 d
  | TV_UInt16, V_UInt16 x, VW_Uint16 d => unsigned_in 2 x /\ unsigned_in 2 d
  | TV_UInt32, V_UInt32 x, VW_Uint32 d => unsigned_in 4 x /\ unsigned_in 4 d
  | TV_UInt64, V_UInt64 x, VW_Uint64 d => unsigned_in 8 x /\ unsigned_in 8 d
  | TV_Float32, V_Float32 x, VW_Float32 d => unsigned_in 4 x /\ unsigned_in 4 d
  | TV_Float64, V_Float64 x, VW_Float64 d => unsigned_in 8 x /\ unsigned_in 8 d
  | TV_Enum e, V_Enum x, VW_Enum d => unsigned_in 2 (ev_value x) /\ unsigned_in 2 d /\
      forall l, EnumSchema_new m e l = (Ok (ev_schema x), l)
  | _, _, _ => False
  end.

(** The bytes of the [bits]-bit field at [offset] *)
Definition field_bytes sb (bits offset i : Z) : Prop :=
  sb_data sb + bits * offset / 8 <= i < sb_data sb + (bits * (offset + 1) + 7) / 8.

(** The bit of the data section at [k] *)
Definition bit_at m sb k : outcome bool := load_bit m (sb_data sb + k / 8) (k mod 8).
(** The bits in [P] may have changed, and no others of the data section. *)
Definition bits_kept w w' sb (P : Z -> Prop) : Prop :=
  forall k, 0 <= k < sb_data_size sb -> ~ P k -> bit_at (wmem w') sb k = bit_at (wmem w) sb k.
Definition field_bits (bits offset k : Z) : Prop := bits * offset <= k < bits * (offset + 1).

(** What writing a field does: the bits of the field change, and a data field
    of another place keeps its value. *)
Definition field_set w w' sb (bits offset : Z) : Prop :=
  evolves w w' (field_bytes sb bits offset) /\ unchanged_outside (field_bytes sb bits offset) (wmem w) (wmem w') /\
  bits_kept w w' sb (field_bits bits offset) /\
  forall n o, primitive_width n -> 0 <= o -> (forall i, sb_data sb + n * o <= i < sb_data sb + n * o + n -> ~ field_bytes sb bits offset i) ->
    8 * n * (o + 1) <= sb_data_size sb -> load (wmem w') (sb_data sb + n * o) n = load (wmem w) (sb_data sb + n * o) n.

Lemma data_used w sb i : sb_ok w sb -> sb_data sb <= i < sb_data sb + sb_data_size sb / 8 -> used w i.
Proof.
  intros (d & Hd & Hdr & Hn & Hp & Hin) Hi. rewrite Hd in Hi. apply (in_seg_used w _ _ _ _ Hin). zlia.
Qed.

Lemma wrote_field_set w sb m' a n bits offset : sb_ok w sb -> evolves w (upd m' w) (fun i => a <= i < a + n) -> wrote (wmem w) m' a n ->
  (forall i, a <= i < a + n -> field_bytes sb bits offset i) -> bits_kept w (upd m' w) sb (field_bits bits offset) ->
  field_set w (upd m' w) sb bits offset.
Proof.
  intros Hs E Hwr Hb Hbits. assert (E' : evolves w (upd m' w) (field_bytes sb bits offset)).
  { eapply evolves_weaken; [exact E|]. intros i _. apply Hb. }
  split; [done|]. split; [|split; [done|]]; [intros i Hi; apply (wrote_outside _ _ _ _ Hwr); intros Hi'; by apply Hi, Hb|].
  intros n' o Hn Ho Hd Hr. apply load_same. intros i Hi. apply (ev_mem _ _ _ E'); [|by apply Hd].
  apply (data_used w sb i Hs). split; [destruct Hn as [->|[->|[->| ->]]]; lia|].
  assert (n' * o + n' <= sb_data_size sb / 8); [|lia]. apply Z.div_le_lower_bound; lia.
Qed.

(** Outside the bytes that change, every bit is kept. *)
Lemma evolves_bits w w' sb (P : Z -> Prop) (Q : Z -> Prop) : sb_ok w sb -> evolves w w' P ->
  (forall k, 0 <= k < sb_data_size sb -> ~ Q k -> ~ P (sb_data sb + k / 8)) -> bits_kept w w' sb Q.
Proof.
  intros Hs E HP k Hk HQ. unfold bit_at. apply load_bit_same. intros i Hi. assert (i = sb_data sb + k / 8) as -> by lia.
  apply (ev_mem _ _ _ E); [|by apply HP]. apply (data_used w sb _ Hs).
  destruct Hs as (d & Hd & Hdr & _). rewrite Hd in *. zlia.
Qed.

Lemma number_set w sb n o x : world_ok w -> sb_ok w sb -> primitive_width n -> 0 <= o -> 8 * n * (o + 1) <= sb_data_size sb ->
  exists m', set_data_field n sb o x w = (Ok tt, upd m' w) /\ field_set w (upd m' w) sb (8 * n) o /\
    load m' (sb_data sb + n * o) n = Ok (wrap (8 * n) x).
Proof.
  intros Hw Hs Hn Ho Hr. pose proof (width_pos n Hn).
  destruct (set_data_field_ok w sb n o (wrap (8 * n) x) Hw Hs Hn Ho Hr) as (m' & Hm & E & Hwr & Hl); [apply wrap_range; lia|].
  exists m'. split; [|split; [|done]].
  - rewrite <- Hm. unfold set_data_field, wput, on_heap.
    erewrite (ST_bind_ext _ _ (fun h => m ← lift (store (hmem h) _ n (wrap (8 * n) x)); put_state (set_hmem m h))); [done|].
    intros h s'. by rewrite store_wrapped by lia.
  - eapply wrote_field_set; [done|exact E|exact Hwr| |].
    + intros i Hi. unfold field_bytes. destruct Hn as [->|[->|[->| ->]]]; zlia.
    + eapply evolves_bits; [done|exact E|]. intros k Hk Hb Hi. apply Hb. unfold field_bits.
      destruct Hn as [->|[->|[->| ->]]]; zlia.
Qed.

Lemma bit_set w sb k b : world_ok w -> sb_ok w sb -> 0 <= k < sb_data_size sb ->
  exists m', set_bool_field sb k b w = (Ok tt, upd m' w) /\ field_set w (upd m' w) sb 1 k /\
    load_bit m' (sb_data sb + k / 8) (k mod 8) = Ok b.
Proof.
  intros Hw Hs Hk. destruct (set_bool_field_ok w sb k b Hw Hs Hk) as (m' & Hm & E & Hwr & Hb). exists m'. split; [done|]. split.
  - eapply wrote_field_set; [done|exact E|exact Hwr| |].
    + intros i Hi. unfold field_bytes. rewrite !Z.mul_1_l. zlia.
    + intros j Hj Hne. destruct (Hb j Hj) as (c & Hc & Hc'). unfold bit_at. change (wmem (upd m' w)) with m'.
      rewrite Hc, Hc'. destruct (Z.eqb_spec j k) as [->|]; [|done]. destruct Hne. unfold field_bits. lia.
  - destruct (Hb k Hk) as (c & _ & Hc). by rewrite Z.eqb_refl in Hc.
Qed.

Lemma masked_signed n x d : 0 < n -> signed_in n x -> signed_in n d ->
  Z.lxor (as_signed n (wrap (8 * n) (Z.lxor x d))) d = x.
Proof.
  intros Hn Hx Hd. rewrite as_signed_wrap by (try done; by apply lxor_signed). by rewrite Z.lxor_assoc, Z.lxor_nilpotent, Z.lxor_0_r.
Qed.
Lemma masked_unsigned n x d : 0 < n -> unsigned_in n x -> unsigned_in n d -> Z.lxor (wrap (8 * n) (Z.lxor x d)) d = x.
Proof.
  intros Hn Hx Hd. rewrite wrap_small by (by apply lxor_unsigned). by rewrite Z.lxor_assoc, Z.lxor_nilpotent, Z.lxor_0_r.
Qed.

Context (sb : StructBuilder) (offset : Z).

Lemma number_get w n l : sb_ok w sb -> primitive_width n -> 0 <= offset -> 8 * n * (offset + 1) <= sb_data_size sb ->
  get_data_field (wmem w) n (struct_view w sb l) offset = load (wmem w) (sb_data sb + n * offset) n.
Proof. intros. by apply view_data_field. Qed.

Lemma signed_slot w n x d : world_ok w -> sb_ok w sb -> primitive_width n -> 0 <= offset -> 8 * n * (offset + 1) <= sb_data_size sb ->
  signed_in n x -> signed_in n d ->
  exists m', set_data_field_mask n sb offset x d w = (Ok tt, upd m' w) /\ field_set w (upd m' w) sb (8 * n) offset /\
    forall nl, get_signed_field_mask m' n (struct_view (upd m' w) sb nl) offset d = Ok x.
Proof.
  intros Hw Hs Hn Ho Hr Hx Hd. destruct (number_set w sb n offset (Z.lxor x d) Hw Hs Hn Ho Hr) as (m' & E & Hf & Hl).
  exists m'. split; [done|]. split; [done|]. intros nl. unfold get_signed_field_mask.
  pose proof (number_get (upd m' w) n nl (sb_ok_evolves _ _ _ _ (proj1 Hf) Hs) Hn Ho Hr) as Hg.
  change (wmem (upd m' w)) with m' in Hg. rewrite Hg, Hl. cbn [bind outcome_monad].
  by rewrite masked_signed by (try done; by apply width_pos).
Qed.
Lemma unsigned_slot w n x d : world_ok w -> sb_ok w sb -> primitive_width n -> 0 <= offset -> 8 * n * (offset + 1) <= sb_data_size sb ->
  unsigned_in n x -> unsigned_in n d ->
  exists m', set_data_field_mask n sb offset x d w = (Ok tt, upd m' w) /\ field_set w (upd m' w) sb (8 * n) offset /\
    forall nl, get_data_field_mask m' n (struct_view (upd m' w) sb nl) offset d = Ok x.
Proof.
  intros Hw Hs Hn Ho Hr Hx Hd. destruct (number_set w sb n offset (Z.lxor x d) Hw Hs Hn Ho Hr) as (m' & E & Hf & Hl).
  exists m'. split; [done|]. split; [done|]. intros nl. unfold get_data_field_mask.
  pose proof (number_get (upd m' w) n nl (sb_ok_evolves _ _ _ _ (proj1 Hf) Hs) Hn Ho Hr) as Hg.
  change (wmem (upd m' w)) with m' in Hg. rewrite Hg, Hl. cbn [bind outcome_monad].
  by rewrite masked_unsigned by (try done; by apply width_pos).
Qed.
Lemma bool_slot w b d : world_ok w -> sb_ok w sb -> 0 <= offset < sb_data_size sb ->
  exists m', set_bool_field_mask sb offset b d w = (Ok tt, upd m' w) /\ field_set w (upd m' w) sb 1 offset /\
    forall nl, get_bool_field_mask m' (struct_view (upd m' w) sb nl) offset d = Ok b.
Proof.
  intros Hw Hs Hr. destruct (bit_set w sb offset (xorb b d) Hw Hs Hr) as (m' & E & Hf & Hl).
  exists m'. split; [done|]. split; [done|]. intros nl. unfold get_bool_field_mask.
  pose proof (view_bool_field (upd m' w) sb offset nl (sb_ok_evolves _ _ _ _ (proj1 Hf) Hs) Hr) as Hg.
  change (wmem (upd m' w)) with m' in Hg. unfold BITS_PER_BYTE in Hg. rewrite Hg, Hl. cbn [bind outcome_monad].
  by rewrite xorb_assoc, xorb_nilpotent, xorb_false_r.
Qed.

Lemma upd_same w : upd (wmem w) w = w.
Proof. by destruct w as [[] ? ? ?]. Qed.

(** Setting a plain field, and reading it from the struct *)
Lemma plain_set_get w t v dval : world_ok w -> sb_ok w sb -> plain_value (wmem w) t v dval ->
  0 <= offset -> bits_of t * (offset + 1) <= sb_data_size sb ->
  exists m', DynamicBuilder.set_slot sb t offset v dval w = (Ok tt, upd m' w) /\ field_set w (upd m' w) sb (bits_of t) offset /\
    (plain_value m' t v dval -> forall tables nl l,
       get_slot m' tables (struct_view (upd m' w) sb nl) t offset dval l = (Ok v, l)).
Proof.
  intros Hw Hs Hv Ho Hr. unfold bits_of in *. rewrite element_size_of in *. unfold DynamicBuilder.set_slot, plain_value, get_slot in *.
  destruct (which t) eqn:Ew, v; try done.
  1: { exists (wmem w). rewrite upd_same. split; [done|]. split; [|done]. split; [by apply evolves_refl|by repeat split]. }
  all: destruct dval; try done; cbn [data_bits_per_element] in *.
  all: lazymatch goal with
    | Hv : signed_in ?n ?x /\ signed_in _ ?d |- _ => destruct Hv as [Hx Hd];
        destruct (signed_slot w n x d Hw Hs ltac:(by solve_width) Ho Hr Hx Hd) as (m' & E & Hf & Hg)
    | Hv : unsigned_in ?n ?x /\ unsigned_in _ ?d |- _ => destruct Hv as [Hx Hd];
        destruct (unsigned_slot w n x d Hw Hs ltac:(by solve_width) Ho Hr Hx Hd) as (m' & E & Hf & Hg)
    | Hv : unsigned_in ?n ?x /\ unsigned_in _ ?d /\ _ |- _ => destruct Hv as (Hx & Hd & _);
        destruct (unsigned_slot w n x d Hw Hs ltac:(by solve_width) Ho Hr Hx Hd) as (m' & E & Hf & Hg)
    | b1 : bool, b2 : bool |- _ => idtac
    end.
  all: try (exists m'; split; [exact E|]; split; [exact Hf|]; intros _ tables nl l; by rewrite Hg).
  - destruct (bool_slot w b b0 Hw Hs ltac:(lia)) as (m' & E & Hf & Hg). exists m'. split; [exact E|]. split; [exact Hf|].
    intros _ tables nl l. by rewrite Hg.
  - exists m'. split; [exact E|]. split; [exact Hf|]. intros (_ & _ & He) tables nl l. rewrite Hg, (lift_bind_ok _ _ _ _ eq_refl).
    unfold enum_value. rewrite (ST_bind_ok _ _ _ _ _ (He l)). by destruct e.
Qed.

(** ** A field of a schema *)

Context (s : DynamicBuilder.StructB) (f : Field) (dval : ValueWhich).

(** What the schema says of a slot, whatever limit the reader of it has *)
Definition slot_at (m : mem) (tables : gmap Z CapTable) : Prop := exists slot default_value,
  field_which m (field_proto f) = Ok (FW_Slot slot) /\ slot_get_offset m slot = Ok offset /\
  forall l, slot_get_default_value m slot l = (Ok default_value, l) /\
            value_which m tables default_value l = (Ok dval, l).
(** What it says of the field's place in a union: the offset and the value of
    the discriminant, if it has one *)
Definition in_union (m : mem) (disc : option (Z * Z)) : Prop :=
  has_discriminant_value m (field_proto f) = Ok (bool_decide (is_Some disc)) /\
  forall o x, disc = Some (o, x) -> exists st, node_which m (proto (DynamicBuilder.db_schema s)) = Ok (NW_Struct st) /\
    get_discriminant_offset m st = Ok o /\ get_discriminant_value m (field_proto f) = Ok x.

Lemma on_schema_ok {X} (g : mem -> gmap Z CapTable -> ST ReadLimiter X) x w :
  g (wmem w) (caps w) (limiter w) = (Ok x, limiter w) -> DynamicBuilder.on_schema g w = (Ok x, w).
Proof. intros E. unfold DynamicBuilder.on_schema, on_limiter. unfold wmem in E. rewrite E. by destruct w. Qed.
Lemma on_proto_ok {X} (g : mem -> outcome X) x w : g (wmem w) = Ok x -> DynamicBuilder.on_proto g w = (Ok x, w).
Proof. intros E. unfold DynamicBuilder.on_proto, on_mem. unfold wmem in E. by rewrite E. Qed.

(** What a schema in part of memory says, it says in all of it. *)
Lemma plain_value_mono m m' t v : m ⊆ m' -> plain_value m t v dval -> plain_value m' t v dval.
Proof.
  intros Hm. unfold plain_value. destruct (which t), v; try done. destruct dval; try done.
  intros (Hx & Hd & He). split; [done|]. split; [done|]. intros l. eapply runs_ok; [by apply enum_schema_mono|done].
Qed.
Lemma slot_at_mono m m' tables : m ⊆ m' -> slot_at m tables -> slot_at m' tables.
Proof.
  intros Hm (slot & d & HS1 & HS2 & HS3). exists slot, d. split; [eapply within_ok; [by apply field_which_mono|done]|].
  split; [eapply within_ok; [by apply get_data_field_mono|done]|].
  intros l. destruct (HS3 l) as [HS4 HS5]. split; eapply runs_ok; [by apply get_struct_mono|done|by apply value_which_mono|done].
Qed.
Lemma in_union_mono m m' disc : m ⊆ m' -> in_union m disc -> in_union m' disc.
Proof.
  intros Hm [HS1 HS2]. split; [eapply within_ok; [by apply has_discriminant_mono|done]|].
  intros o x Hd. destruct (HS2 o x Hd) as (st & HS3 & HS4 & HS5). exists st.
  split_and!; (eapply within_ok; [|done]); [by apply node_which_mono|by apply get_data_field_mono|by apply discriminant_value_mono].
Qed.
Lemma in_union_u16 m o x : in_union m (Some (o, x)) -> wrap 16 x = x.
Proof.
  intros [_ HS1]. destruct (HS1 o x eq_refl) as (st & _ & _ & E).
  apply wrap_small. unfold get_discriminant_value, get_data_field_mask, get_data_field in E.
  apply outcome_bind_ok in E as (v & E & [= <-]). apply (lxor_unsigned 2); [lia| |unfold unsigned_in, NO_DISCRIMINANT; lia].
  unfold unsigned_in. apply outcome_bind_ok in E as (e & _ & E).
  apply outcome_bind_ok in E as (e' & _ & E). destruct (e' <=? _); [|injection E as <-; lia].
  by apply load_range in E.
Qed.

Lemma on_schema_bind {X Y} (g : mem -> gmap Z CapTable -> ST ReadLimiter X) x w (k : X -> B A Y) :
  g (wmem w) (caps w) (limiter w) = (Ok x, limiter w) -> bind (DynamicBuilder.on_schema g) k w = k x w.
Proof. intros E. by apply ST_bind_ok, on_schema_ok. Qed.
Lemma on_proto_bind {X Y} (g : mem -> outcome X) x w (k : X -> B A Y) :
  g (wmem w) = Ok x -> bind (DynamicBuilder.on_proto g) k w = k x w.
Proof. intros E. by apply ST_bind_ok, on_proto_ok. Qed.

(** The bytes of the discriminant at [disc] *)
Definition tag_bytes (disc : option (Z * Z)) (i : Z) : Prop :=
  match disc with
  | Some (o, _) => sb_data sb + 2 * o <= i < sb_data sb + 2 * o + 2
  | None => False
  end.

Definition tag_bits (disc : option (Z * Z)) (k : Z) : Prop :=
  match disc with Some (o, _) => field_bits 16 o k | None => False end.

Lemma union_set w disc : world_ok w -> sb_ok w sb -> DynamicBuilder.db_builder s = sb -> in_union (wmem w) disc ->
  (forall o x, disc = Some (o, x) -> 0 <= o /\ 16 * (o + 1) <= sb_data_size sb) ->
  exists m', DynamicBuilder.set_in_union s f w = (Ok tt, upd m' w) /\ evolves w (upd m' w) (tag_bytes disc) /\
    unchanged_outside (tag_bytes disc) (wmem w) m' /\
    forall o x, disc = Some (o, x) -> load m' (sb_data sb + 2 * o) 2 = Ok x.
Proof.
  intros Hw Hs Hsb Hu Hr. unfold DynamicBuilder.set_in_union. rewrite (on_proto_bind _ _ w _ (proj1 Hu)).
  destruct disc as [[o x]|]; cbn [is_Some tag_bytes].
  2: { exists (wmem w). rewrite upd_same, bool_decide_eq_false_2 by (by intros []). by split_and!; try apply evolves_refl. }
  rewrite bool_decide_eq_true_2 by done. destruct (proj2 Hu o x eq_refl) as (st & HS1 & HS2 & HS3).
  rewrite (on_proto_bind _ _ w _ HS1), (on_proto_bind _ _ w _ HS2), (on_proto_bind _ _ w _ HS3), Hsb.
  destruct (Hr o x eq_refl) as [Ho Hb].
  destruct (number_set w sb 2 o x Hw Hs ltac:(by solve_width) Ho ltac:(lia)) as (m' & E & Hf & Hl).
  exists m'. split; [done|]. unfold field_set, field_bytes in Hf.
  split; [eapply evolves_weaken; [apply Hf|]; intros i _; cbn; zlia|]. split.
  - intros i Hi. apply Hf. cbn in Hi. zlia.
  - intros ? ? [= <- <-]. change (8 * 2) with 16 in Hl. by rewrite (in_union_u16 _ _ _ Hu) in Hl.
Qed.

Lemma static_kept w m0 (P : Z -> Prop) m' : m0 ⊆ wmem w -> (forall i, is_Some (m0 !! i) -> ~ used w i) ->
  (forall i, P i -> used w i) -> unchanged_outside P (wmem w) m' -> m0 ⊆ m'.
Proof.
  intros Hm Hst HP Hu. apply map_subseteq_spec. intros i x Hi. rewrite Hu by (intros Hp; eapply Hst; [by eexists|by apply HP]).
  by apply (lookup_weaken _ _ _ _ Hi Hm).
Qed.
Lemma plain_not_pointer m v : plain_value m (ty f) v dval -> is_pointer_type (ty f) = false.
Proof.
  unfold plain_value, is_pointer_type, which. destruct (0 <? list_count (ty f)); [by destruct v|].
  destruct (base (ty f)); try done; by destruct v.
Qed.

(** [get] and [has] of a field whose slot has been read from the schema *)
Lemma get_of_slot w v : DynamicBuilder.db_builder s = sb ->
  same_struct (DynamicBuilder.db_schema s) f = Ok tt -> slot_at (wmem w) (caps w) ->
  (forall nl l, get_slot (wmem w) (caps w) (struct_view w sb nl) (ty f) offset dval l = (Ok v, l)) ->
  forall nl l, DynamicValue.get (wmem w) (caps w) {| ds_reader := struct_view w sb nl; ds_schema := DynamicBuilder.db_schema s |} f l = (Ok v, l).
Proof.
  intros Hsb Hss (slot & d & HS1 & HS2 & HS3) Hg nl l. destruct (HS3 l) as [HS4 HS5]. unfold DynamicValue.get. cbn [ds_schema ds_reader].
  rewrite (lift_bind_ok _ _ _ _ Hss), (lift_bind_ok _ _ _ _ HS1), (lift_bind_ok _ _ _ _ HS2).
  by rewrite (ST_bind_ok _ _ _ _ _ HS4), (ST_bind_ok _ _ _ _ _ HS5).
Qed.
Lemma has_of_slot w disc v nl : sb_ok w sb -> same_struct (DynamicBuilder.db_schema s) f = Ok tt -> slot_at (wmem w) (caps w) ->
  in_union (wmem w) disc -> plain_value (wmem w) (ty f) v dval ->
  (forall o x, disc = Some (o, x) -> 0 <= o /\ 16 * (o + 1) <= sb_data_size sb /\ load (wmem w) (sb_data sb + 2 * o) 2 = Ok x) ->
  DynamicValue.has (wmem w) {| ds_reader := struct_view w sb nl; ds_schema := DynamicBuilder.db_schema s |} f = Ok true.
Proof.
  intros Hs Hss (slot & d & HS1 & HS2 & HS3) [HS4 HS5] Hv Hd. unfold DynamicValue.has, DynamicValue.has_pointer. cbn [ds_schema ds_reader].
  rewrite Hss, HS4, HS1, (plain_not_pointer _ _ Hv). cbn [bind outcome_monad].
  destruct disc as [[o x]|]; [|by rewrite bool_decide_eq_false_2 by (by intros [])].
  rewrite bool_decide_eq_true_2 by done. destruct (HS5 o x eq_refl) as (st & -> & E1 & E2), (Hd o x eq_refl) as (Ho & Hr & Hl).
  cbn [bind outcome_monad]. rewrite E1, E2. cbn [bind outcome_monad].
  rewrite (view_data_field w sb 2 o) by (done || lia || solve_width). rewrite Hl. cbn [bind outcome_monad]. by rewrite Z.eqb_refl.
Qed.

(** A field in place: its schema, read from the static memory [m0], puts it in
    the data section of the struct being built, away from the discriminant
    that says it is set. *)
Record in_place (m0 : mem) (tables : gmap Z CapTable) (disc : option (Z * Z)) : Prop := {
  ip_struct : same_struct (DynamicBuilder.db_schema s) f = Ok tt;
  ip_slot : slot_at m0 tables;
  ip_union : in_union m0 disc;
  ip_offset : 0 <= offset;
  ip_inside : bits_of (ty f) * (offset + 1) <= sb_data_size sb;
  ip_tag : forall o x, disc = Some (o, x) -> 0 <= o /\ 16 * (o + 1) <= sb_data_size sb;
  ip_apart : forall i, tag_bytes disc i -> ~ field_bytes sb (bits_of (ty f)) offset i
}.

Lemma bits_positive t : 0 <= bits_of t.
Proof. unfold bits_of. destruct (expected_element_size t); cbn; lia. Qed.
Lemma field_bytes_used w i : sb_ok w sb -> 0 <= offset -> bits_of (ty f) * (offset + 1) <= sb_data_size sb ->
  field_bytes sb (bits_of (ty f)) offset i -> used w i.
Proof.
  intros Hs Ho Hr [Hl Hu]. apply (data_used w sb i Hs). pose proof (bits_positive (ty f)).
  destruct Hs as (d & Hd & Hdr & Hn & Hp & Hin).
  split; [assert (0 <= bits_of (ty f) * offset / 8) by (apply Z.div_pos; [by apply Z.mul_nonneg_nonneg|lia]); lia|].
  rewrite Hd in *.
  assert ((bits_of (ty f) * (offset + 1) + 7) / 8 <= (64 * d + 7) / 8) by (apply Z.div_le_mono; [lia|lia]). zlia.
Qed.

(** Setting a plain field: the discriminant, then the slot *)
Lemma set_plain fuel w m0 v disc : world_ok w -> DynamicBuilder.db_builder s = sb -> sb_ok w sb ->
  m0 ⊆ wmem w -> (forall i, is_Some (m0 !! i) -> ~ used w i) ->
  in_place m0 (caps w) disc -> plain_value m0 (ty f) v dval ->
  exists m1 m2, DynamicBuilder.set_field (S fuel) s f v w = (Ok tt, upd m2 w) /\
    evolves w (upd m1 w) (tag_bytes disc) /\ field_set (upd m1 w) (upd m2 w) sb (bits_of (ty f)) offset /\
    m0 ⊆ m2 /\ (forall o x, disc = Some (o, x) -> load m2 (sb_data sb + 2 * o) 2 = Ok x) /\
    forall nl l, get_slot m2 (caps w) (struct_view (upd m2 w) sb nl) (ty f) offset dval l = (Ok v, l).
Proof.
  intros Hw Hsb Hs Hm Hst [Hss Hslot Hu Ho Hr Ht Ha] Hv.
  destruct (union_set w disc Hw Hs Hsb (in_union_mono _ _ _ Hm Hu) Ht) as (m1 & E1 & Hev1 & Hout1 & Hl1).
  assert (Hm1 : m0 ⊆ m1).
  { apply (static_kept w m0 (tag_bytes disc) m1 Hm Hst); [|done]. intros i Hi. destruct disc as [[o x]|]; [|done].
    destruct (Ht o x eq_refl). apply (data_used w sb i Hs). unfold tag_bytes in Hi. zlia. }
  assert (Hs1 : sb_ok (upd m1 w) sb) by (by eapply sb_ok_evolves).
  destruct (plain_set_get (upd m1 w) (ty f) v dval (ev_ok _ _ _ Hev1) Hs1 (plain_value_mono m0 m1 (ty f) v Hm1 Hv) Ho Hr)
    as (m2 & E2 & Hf & Hg).
  assert (Hm2 : m0 ⊆ m2).
  { apply (static_kept (upd m1 w) m0 (field_bytes sb (bits_of (ty f)) offset) m2 Hm1 Hst); [|apply Hf].
    intros i. by apply field_bytes_used. }
  exists m1, m2. split.
  - cbn [DynamicBuilder.set_field]. rewrite (lift_bind_ok _ _ _ _ Hss), (ST_bind_ok _ _ _ _ _ E1).
    destruct (slot_at_mono _ _ _ Hm1 Hslot) as (slot & d & HS1 & HS2 & HS3).
    rewrite (on_proto_bind _ (FW_Slot slot)) by exact HS1. rewrite (on_schema_bind _ d) by apply HS3.
    rewrite (on_proto_bind _ offset) by exact HS2. rewrite (on_schema_bind _ dval) by apply HS3. by rewrite Hsb.
  - split; [done|]. split; [done|]. split; [done|]. split; [|intros nl l; apply Hg; by eapply plain_value_mono].
    intros o x Hd. destruct (Ht o x Hd) as [Ho' Hr']. rewrite <- (Hl1 o x Hd). apply Hf; [solve_width|lia| |lia].
    intros i Hi. apply Ha. by rewrite Hd.
Qed.
End roundtrip.

(** C40: Setting a field of a dynamic struct and getting it back.  For a field
    of a numeric, boolean, enum or void type [set] succeeds, and a reader of the
    struct then [has] the field (so the discriminant of its union says it is
    the member set) and [get]s the value that was set, whatever the default the
    stored bits are masked with.  Only the bytes of the field and of the
    discriminant change.  In the data section of the struct every bit that is
    not one of the field or of the discriminant is as it was, so the other
    bools in the byte of a bool keep their values, and so does every number
    in other bytes. *)
Theorem dynamic_set_get `{GeneratedCode} {A : Type} `{AllocatorOk A} (w : World A) (m0 : mem) (s : DynamicBuilder.StructB)
    (f : Field) (v : Value) (offset : Z) (dval : ValueWhich) (disc : option (Z * Z)) (fuel : nat) :
  let sb := DynamicBuilder.db_builder s in
  world_ok w -> sb_ok w sb -> m0 ⊆ wmem w -> (forall i, is_Some (m0 !! i) -> ~ used w i) ->
  in_place sb offset s f dval m0 (caps w) disc -> plain_value m0 (ty f) v dval ->
  exists w', DynamicBuilder.set_field (S fuel) s f v w = (Ok tt, w') /\
    evolves w w' (fun i => tag_bytes sb disc i \/ field_bytes sb (bits_of (ty f)) offset i) /\
    (forall k, 0 <= k < sb_data_size sb -> ~ field_bits (bits_of (ty f)) offset k -> ~ tag_bits disc k ->
       sb_get_bool_field sb k w' = (fst (sb_get_bool_field sb k w), w')) /\
    (forall nl, let r := {| ds_reader := struct_view w' sb nl; ds_schema := DynamicBuilder.db_schema s |} in
       DynamicValue.has (wmem w') r f = Ok true /\
       forall l, DynamicValue.get (wmem w') (caps w') r f l = (Ok v, l)) /\
    forall n o, primitive_width n -> 0 <= o -> 8 * n * (o + 1) <= sb_data_size sb ->
      (forall i, sb_data sb + n * o <= i < sb_data sb + n * o + n ->
         ~ tag_bytes sb disc i /\ ~ field_bytes sb (bits_of (ty f)) offset i) ->
      sb_get_data_field n sb o w' = (fst (sb_get_data_field n sb o w), w').
Proof.
  intros sb Hw Hs Hm Hst Hip Hv.
  destruct (set_plain sb offset s f dval fuel w m0 v disc Hw eq_refl Hs Hm Hst Hip Hv)
    as (m1 & m2 & E & Hev1 & Hf & Hm2 & Htag & Hg).
  assert (Hev : evolves w (upd m2 w) (fun i => tag_bytes sb disc i \/ field_bytes sb (bits_of (ty f)) offset i)).
  { eapply evolves_trans; [exact Hev1|exact (proj1 Hf)|tauto]. }
  assert (Hs2 : sb_ok (upd m2 w) sb) by (by eapply sb_ok_evolves).
  exists (upd m2 w). split; [done|]. split; [done|]. split; [|split].
  - intros k Hk Hf' Ht. unfold sb_get_bool_field, on_mem, BITS_PER_BYTE. cbn. f_equal.
    transitivity (bit_at (wmem (upd m1 w)) sb k); [by apply Hf|].
    apply (evolves_bits w (upd m1 w) sb (tag_bytes sb disc) (tag_bits disc) Hs Hev1); [|done|done].
    intros k' Hk' Hnot Hi. apply Hnot. destruct disc as [[o x]|]; [|done].
    unfold tag_bits, tag_bytes, field_bits in *. zlia.
  - intros nl r. destruct Hip as [Hss Hslot Hu Ho Hr Ht Ha]. pose proof (slot_at_mono _ _ _ _ _ _ Hm2 Hslot) as Hslot2. split.
    + apply (has_of_slot sb offset s f dval (upd m2 w) disc v nl Hs2 Hss Hslot2); [by eapply in_union_mono|by eapply plain_value_mono|].
      intros o x Hd. destruct (Ht o x Hd). split_and!; try done. by apply Htag.
    + by apply (get_of_slot sb offset s f dval (upd m2 w) v eq_refl Hss Hslot2).
  - intros n o Hn Ho Hr Hi. unfold sb_get_data_field, on_mem. cbn. f_equal.
    transitivity (load (wmem (upd m1 w)) (sb_data sb + n * o) n).
    + apply Hf; try done. intros i Hii. by apply Hi.
    + apply load_same. intros i Hii. apply (ev_mem _ _ _ Hev1); [|by apply Hi].
      apply (data_used w sb i Hs). destruct Hn as [->|[->|[->| ->]]]; zlia.
Qed.

(** ** An example: [struct Tagged { union { a @0 :UInt16 = 7; b @1 :Text; .. } }],
    with the discriminant in the second 16 bits.  Its schema is static memory
    at 256. *)

Definition tagged_words : list Z := <[4%nat := 0x0002000000000002]> (<[5%nat := 1]> (<[11%nat := 0xffff0000]> (<[17%nat := 0xfffe0001]> pair_words))).
Definition tagged_mem : mem :=
  write_bytes (write_bytes ∅ zero_pointer (repeat Byte.x00 8)) 256 (bytes_of_words tagged_words).
#[local] Instance tagged_code : GeneratedCode := {|
  raw_struct_schema _ := {| arena := {| words_ptr := 256; words_len := 37 |}; nonunion_members := [2];
                            members_by_discriminant := [0; 1]; members_by_name := [0; 1; 2] |};
  call_field_types _ i := match i with
    | 0 => Ok (new_base BT_UInt16) | 1 => Ok (new_base BT_Text) | 2 => list_of (new_base (BT_Struct pair_schema))
    | _ => Panic end;
  call_annotation_types _ _ _ := Panic
|}.

Definition tagged_start : World HeapAllocator :=
  {| heap := {| hmem := tagged_mem; brk := 4096 |}; warena := BuilderArenaImpl_new small_allocator; caps := ∅;
     limiter := pair_limiter |}.
Definition tagged_root : World HeapAllocator := snd (builder_root tagged_start).
Definition tagged_world : World HeapAllocator := snd (init_struct root_pointer {| data := 2; pointers := 0 |} tagged_root).

Definition tagged_schema : StructSchema :=
  match StructSchema_new tagged_mem pair_schema pair_limiter with
  | (Ok s, _) => s | _ => {| raw := pair_schema; proto := StructReader_new_default |} end.
Definition tagged_fields : FieldList :=
  match get_fields tagged_mem ∅ tagged_schema pair_limiter with
  | (Ok fl, _) => fl | _ => {| fields := ListReader_new_default; fields_parent := tagged_schema |} end.
Definition tagged_field : Field :=
  match FieldList_get tagged_fields 0 with
  | Ok f => f | _ => {| field_proto := StructReader_new_default; index := 0; ty := new_base BT_Void; parent := tagged_schema |} end.
Definition tagged_default : StructReader :=
  match slot_get_default_value tagged_mem (field_proto tagged_field) pair_limiter with
  | (Ok r, _) => r | _ => StructReader_new_default end.
Definition tagged_builder : DynamicBuilder.StructB :=
  {| DynamicBuilder.db_builder := example_builder; DynamicBuilder.db_schema := tagged_schema |}.

Lemma tagged_start_ok : world_ok tagged_start.
Proof.
  split.
  - exists small_allocator. split; [done|]. split; cbn.
    + split; [cbn; lia|]. split; [done|]. intros i Hi. destruct (tagged_mem !! i) eqn:E; [|done]. exfalso.
      assert (map_Forall (fun k _ => k < 4096) tagged_mem) as Hf by (refine (bool_decide_unpack _ _); vm_compute; done).
      specialize (Hf _ _ E). cbn in *. lia.
    + lia.
    + unfold SUGGESTED_FIRST_SEGMENT_WORDS. lia.
    + intros s Hs. by apply elem_of_nil in Hs.
    + done.
  - intros s Hs. by apply elem_of_nil in Hs.
Qed.

Lemma tagged_root_made : builder_root tagged_start = (Ok root_pointer, tagged_root).
Proof. vm_compute. reflexivity. Qed.
Lemma tagged_made : init_struct root_pointer {| data := 2; pointers := 0 |} tagged_root = (Ok example_builder, tagged_world).
Proof. vm_compute. reflexivity. Qed.
Lemma tagged_builder_ok : world_ok tagged_world /\ sb_ok tagged_world example_builder.
Proof.
  assert (Hv : vacant tagged_root root_pointer).
  { pose proof (root_made tagged_start tagged_start_ok eq_refl) as G. unfold gives in G. rewrite tagged_root_made in G. apply G. }
  pose proof (init_struct_gives tagged_root root_pointer {| data := 2; pointers := 0 |} Hv) as G.
  unfold gives in G. rewrite tagged_made in G.
  destruct G as (E & Hs & _); [unfold u16, in_width; cbn; lia..|]. split; [apply E|by eapply struct_at_ok].
Qed.
Lemma tagged_static : tagged_mem ⊆ wmem tagged_world /\ forall i, is_Some (tagged_mem !! i) -> ~ used tagged_world i.
Proof.
  assert (Hl : map_Forall (fun k (_ : byte) => k < 4096) tagged_mem) by (refine (bool_decide_unpack _ _); vm_compute; done).
  split.
  - refine (bool_decide_unpack _ _). vm_compute. done.
  - intros i [x Hx] (s & Hs & Hi). specialize (Hl _ _ Hx). cbn in Hl.
    assert (Hg : Forall (fun s => 4096 <= seg_ptr s) (segs tagged_world)) by (refine (bool_decide_unpack _ _); vm_compute; done).
    rewrite Forall_forall in Hg. specialize (Hg s Hs). destruct Hi as [Hi _]. lia.
Qed.
Lemma tagged_in_place :
  in_place example_builder 0 tagged_builder tagged_field (VW_Uint16 7) tagged_mem ∅ (Some (1, 0)).
Proof.
  constructor.
  - reflexivity.
  - exists (field_proto tagged_field), tagged_default. split; [reflexivity|]. split; [reflexivity|].
    intros l. by destruct l.
  - split; [reflexivity|]. intros o x [= <- <-]. exists (proto tagged_schema). split_and!; reflexivity.
  - lia.
  - vm_compute. discriminate.
  - intros o x [= <- <-]. cbn. lia.
  - intros i. unfold tag_bytes, field_bytes. change (bits_of (ty tagged_field)) with 16. cbn. zlia.
Qed.

Lemma dynamic_set_get_witness : exists w',
  DynamicBuilder.set_field 1 tagged_builder tagged_field (V_UInt16 513) tagged_world = (Ok tt, w') /\
  (forall k, 32 <= k < 128 -> sb_get_bool_field example_builder k w' = (fst (sb_get_bool_field example_builder k tagged_world), w')) /\
  forall nl, let r := {| ds_reader := struct_view w' example_builder nl; ds_schema := tagged_schema |} in
    DynamicValue.has (wmem w') r tagged_field = Ok true /\
    forall l, DynamicValue.get (wmem w') (caps w') r tagged_field l = (Ok (V_UInt16 513), l).
Proof.
  destruct (dynamic_set_get tagged_world tagged_mem tagged_builder tagged_field (V_UInt16 513) 0 (VW_Uint16 7) (Some (1, 0)) 0)
    as (w' & E & _ & Hbits & Hr & _).
  - apply tagged_builder_ok.
  - apply tagged_builder_ok.
  - apply tagged_static.
  - apply tagged_static.
  - exact tagged_in_place.
  - assert (ty tagged_field = new_base BT_UInt16) as -> by reflexivity.
    cbn [plain_value which new_base]. split; (split; [lia|reflexivity]).
  - exists w'. split; [exact E|]. split; [|exact Hr].
    intros k Hk. apply Hbits; [cbn; lia|change (bits_of (ty tagged_field)) with 16|]; unfold tag_bits, field_bits; lia.
Defined.

(** A [set] that fails has written the discriminant: a value of the wrong type
    leaves the member set, and what it holds is its old bytes. *)
Definition tagged_text_field : Field :=
  match FieldList_get tagged_fields 1 with
  | Ok f => f | _ => {| field_proto := StructReader_new_default; index := 0; ty := new_base BT_Void; parent := tagged_schema |} end.
Lemma failed_set_changes_member :
  fst (DynamicBuilder.set_field 1 tagged_builder tagged_text_field (V_Bool true) tagged_world) = Err TypeMismatch /\
  fst (sb_get_data_field 2 example_builder 1 tagged_world) = Ok 0 /\
  fst (sb_get_data_field 2 example_builder 1
         (snd (DynamicBuilder.set_field 1 tagged_builder tagged_text_field (V_Bool true) tagged_world))) = Ok 1.
Proof. split_and!; reflexivity. Qed.
