(* ===== verification/CodegenText.v ===== *)
(** * Names and text of the code generator (capnpc/src/codegen.rs)

    A [String] is a list of chars, which are code points.  What Unicode says of
    the chars above ASCII is the class [Unicode]. *)

From S2P Require Import Prelude.
From coqutil Require Import Byte.
From stdpp Require Import list strings.
From Stdlib Require Import DecimalString DecimalZ.
#[local] Open Scope Z_scope.
#[local] Open Scope rust_scope.

Module CodegenText.

Definition Str := list Z.
Fixpoint str (s : string) : Str :=
  match s with
  | EmptyString => []
  | String c s => Z.of_N (Ascii.N_of_ascii c) :: str s
  end.

(** ** Chars *)

(** [char::is_uppercase] and [char::is_alphanumeric] outside ASCII *)
Class Unicode := { wide_uppercase : Z -> bool; wide_alphanumeric : Z -> bool }.

Definition between (a c b : Z) : bool := (a <=? c) && (c <=? b).
Definition is_ascii_upper (c : Z) : bool := between 65 c 90.
Definition is_ascii_lower (c : Z) : bool := between 97 c 122.
Definition is_ascii_digit (c : Z) : bool := between 48 c 57.
Definition to_ascii_lowercase (c : Z) : Z := if is_ascii_upper c then c + 32 else c.
Definition to_ascii_uppercase (c : Z) : Z := if is_ascii_lower c then c - 32 else c.
Definition is_uppercase `{Unicode} (c : Z) : bool := if c <? 128 then is_ascii_upper c else wide_uppercase c.
Definition is_alphanumeric `{Unicode} (c : Z) : bool :=
  if c <? 128 then is_ascii_upper c || is_ascii_lower c || is_ascii_digit c else wide_alphanumeric c.
Definition underscore : Z := 95.

(** [str::from_utf8]: the chars of a [&str], which is its bytes *)
Definition cont (b : byte) : bool := between 128 (byte.unsigned b) 191.
Definition sextet (b : byte) : Z := byte.unsigned b mod 64.
Definition invalid (pos : Z) (len : option Z) : Str + Utf8Error := inr {| valid_up_to := pos; error_len := len |}.
Definition char_then (c : Z) (rest : Str + Utf8Error) : Str + Utf8Error :=
  match rest with inl s => inl (c :: s) | inr e => inr e end.
Fixpoint from_utf8_at (pos : Z) (bs : list byte) : Str + Utf8Error :=
  match bs with
  | [] => inl []
  | b0 :: r0 =>
      let x := byte.unsigned b0 in
      if x <? 128 then char_then x (from_utf8_at (pos + 1) r0)
      else if between 194 x 223 then
        match r0 with
        | [] => invalid pos None
        | b1 :: r1 =>
            if cont b1 then char_then (64 * (x - 192) + sextet b1) (from_utf8_at (pos + 2) r1) else invalid pos (Some 1)
        end
      else if between 224 x 239 then
        match r0 with
        | [] => invalid pos None
        | b1 :: r1 =>
            let lo := if x =? 224 then 160 else 128 in
            let hi := if x =? 237 then 159 else 191 in
            if negb (between lo (byte.unsigned b1) hi) then invalid pos (Some 1)
            else match r1 with
                 | [] => invalid pos None
                 | b2 :: r2 =>
                     if cont b2 then char_then (4096 * (x - 224) + 64 * sextet b1 + sextet b2) (from_utf8_at (pos + 3) r2)
                     else invalid pos (Some 2)
                 end
        end
      else if between 240 x 244 then
        match r0 with
        | [] => invalid pos None
        | b1 :: r1 =>
            let lo := if x =? 240 then 144 else 128 in
            let hi := if x =? 244 then 143 else 191 in
            if negb (between lo (byte.unsigned b1) hi) then invalid pos (Some 1)
            else match r1 with
                 | [] => invalid pos None
                 | b2 :: r2 =>
                     if negb (cont b2) then invalid pos (Some 2)
                     else match r2 with
                          | [] => invalid pos None
                          | b3 :: r3 =>
                              if cont b3 then
                                char_then (262144 * (x - 240) + 4096 * sextet b1 + 64 * sextet b2 + sextet b3)
                                  (from_utf8_at (pos + 4) r3)
                              else invalid pos (Some 3)
                          end
                 end
        end
      else invalid pos (Some 1)
  end.
Definition from_utf8 (bs : list byte) : Str + Utf8Error := from_utf8_at 0 bs.

(** ** Names *)

Definition snake_to_upper_case (s : Str) : Str :=
  map (fun c => if c =? underscore then underscore else to_ascii_uppercase c) s.

(** The loop of [camel_to_snake_case] *)
Fixpoint snake_chars `{Unicode} (first_char : bool) (s : Str) : Str :=
  match s with
  | [] => []
  | c :: s =>
      (if is_uppercase c && negb first_char then [underscore] else []) ++ to_ascii_lowercase c :: snake_chars false s
  end.
Definition camel_to_snake_case `{Unicode} (s : Str) : Str := snake_chars true s.

Definition capitalize_first_letter (s : Str) : outcome Str :=
  match s with [] => Panic | c :: s => Ok (to_ascii_uppercase c :: s) end.

Definition RUST_KEYWORDS : list Str := map str [
  "abstract"; "alignof"; "as"; "be"; "become"; "box"; "break"; "const"; "continue"; "crate";
  "do"; "else"; "enum"; "extern"; "false"; "final"; "fn"; "for"; "if"; "impl"; "in"; "let";
  "loop"; "macro"; "match"; "mod"; "move"; "mut"; "offsetof"; "once"; "override"; "priv"; "proc";
  "pub"; "pure"; "ref"; "return"; "self"; "sizeof"; "static"; "struct"; "super"; "trait"; "true";
  "type"; "typeof"; "unsafe"; "unsized"; "use"; "virtual"; "where"; "while"; "yield"]%string.

Definition module_name `{Unicode} (camel_case : Str) : Str :=
  let name := camel_to_snake_case camel_case in
  if bool_decide (name ∈ RUST_KEYWORDS) then name ++ [underscore] else name.

Inductive NameKind := Module_ | Verbatim.
Definition capnp_name_to_rust_name `{Unicode} (capnp_name : Str) (kind : NameKind) : Str :=
  match kind with Module_ => module_name capnp_name | Verbatim => capnp_name end.

(** ** Numbers *)

(** [to_string] of an integer *)
Definition decimal (x : Z) : Str := str (NilZero.string_of_int (Z.to_int x)).

Definition hex_char (d : Z) : Z := if d <? 10 then 48 + d else 87 + d.
(** The digits of [{value:x}] *)
Fixpoint hex_digits (fuel : nat) (x : Z) (acc : Str) : Str :=
  match fuel with
  | O => acc
  | S fuel =>
      let acc := hex_char (x mod 16) :: acc in
      if x <? 16 then acc else hex_digits fuel (x / 16) acc
  end.

(** [place] counts the digits that are left. *)
Fixpoint separate (later_loop : bool) (place : nat) (digits : Str) : Str :=
  match digits with
  | [] => []
  | ch :: digits =>
      (if later_loop && (place mod 4 =? 0)%nat then [underscore] else []) ++ ch :: separate true (place - 1) digits
  end.
Definition format_u64 (value : Z) : Str :=
  let hex := hex_digits 16 value [] in
  str "0x" ++ separate false (length hex) hex.

(** ** Formatted text *)

Inductive FormattedText :=
| Indent (ft : FormattedText)
| Branch (fts : list FormattedText)
| Line (s : Str)
| BlankLine.

Definition spaces (n : nat) : Str := repeat 32 n.
Fixpoint to_lines (ft : FormattedText) (indent : nat) : list Str :=
  match ft with
  | Indent ft => to_lines ft (indent + 1)
  | Branch fts => flat_map (fun ft => to_lines ft indent) fts
  | Line s => [spaces (indent * 2) ++ s]
  | BlankLine => [[]]
  end.
(** [join] *)
Fixpoint join (sep : Str) (l : list Str) : Str :=
  match l with
  | [] => []
  | [s] => s
  | s :: l => s ++ sep ++ join sep l
  end.
Definition stringify (ft : FormattedText) : Str := join [10] (to_lines ft 0) ++ [10].

(** ** [format!] *)

(** A template: [{}] is the next argument, [{n}] the [n]-th, [{name}] one with
    a name; [{{] and [}}] are braces. *)
Inductive FormatState := F_text | F_spec (rev_spec : Str) | F_close.
Definition is_number (spec : Str) : bool := match spec with [] => false | _ => forallb is_ascii_digit spec end.
Definition number_of (spec : Str) : nat := Z.to_nat (fold_left (fun n c => 10 * n + (c - 48)) spec 0).
Definition named_argument (names : list (Str * Str)) (spec : Str) : Str :=
  match List.find (fun p => bool_decide (p.1 = spec)) names with Some p => p.2 | None => [] end.
Fixpoint format_from (names : list (Str * Str)) (args rest : list Str) (st : FormatState) (template : Str) : Str :=
  match template with
  | [] => []
  | c :: template =>
      match st with
      | F_text =>
          if c =? 123 then format_from names args rest (F_spec []) template
          else if c =? 125 then format_from names args rest F_close template
          else c :: format_from names args rest F_text template
      | F_close => c :: format_from names args rest F_text template
      | F_spec spec =>
          if c =? 125 then
            let spec := rev spec in
            match spec with
            | [] => default [] (head rest) ++ format_from names args (tail rest) F_text template
            | _ =>
                (if is_number spec then default [] (args !! number_of spec) else named_argument names spec) ++
                format_from names args rest F_text template
            end
          else match spec with
               | [] => if c =? 123 then c :: format_from names args rest F_text template
                       else format_from names args rest (F_spec [c]) template
               | _ => format_from names args rest (F_spec (c :: spec)) template
               end
      end
  end.
Definition format (names : list (Str * Str)) (template : string) (args : list Str) : Str :=
  format_from names args args F_text (str template).

(** ** Facts about names *)

Section names.
Context `{Unicode}.

Definition is_ascii (c : Z) : Prop := 0 <= c < 128.
(** A name of a Cap'n Proto schema: ASCII, no underscore *)
Definition schema_name (s : Str) : Prop := Forall (fun c => is_ascii c /\ c <> underscore) s.

Lemma uppercase_ascii c : is_ascii c -> is_uppercase c = is_ascii_upper c.
Proof. intros Hc. unfold is_uppercase, is_ascii in *. by rewrite (proj2 (Z.ltb_lt _ _)) by lia. Qed.
Lemma upper_lower c : is_ascii_upper c = true -> to_ascii_uppercase (to_ascii_lowercase c) = c /\ to_ascii_lowercase c <> underscore.
Proof.
  unfold to_ascii_lowercase, to_ascii_uppercase, is_ascii_upper, is_ascii_lower, between, underscore. intros E. rewrite E.
  apply andb_prop in E as [E1%Z.leb_le E2%Z.leb_le]. rewrite !(proj2 (Z.leb_le _ _)) by lia. cbn [andb]. lia.
Qed.

(** The inverse of [snake_chars false] on schema names *)
Fixpoint unsnake (s : Str) : Str :=
  match s with
  | [] => []
  | c :: s' =>
      if c =? underscore then match s' with [] => [] | c' :: s'' => to_ascii_uppercase c' :: unsnake s'' end
      else c :: unsnake s'
  end.
Lemma unsnake_snake s : schema_name s -> unsnake (snake_chars false s) = s.
Proof.
  induction 1 as [|c s [Hc Hu] _ IH]; [done|]. cbn [snake_chars]. rewrite uppercase_ascii by done.
  destruct (is_ascii_upper c) eqn:E; cbn [negb andb app unsnake].
  - rewrite Z.eqb_refl, IH. by rewrite (proj1 (upper_lower c E)).
  - unfold to_ascii_lowercase. rewrite E. rewrite (proj2 (Z.eqb_neq _ _)) by done. by rewrite IH.
Qed.
Lemma snake_inj s t : schema_name s -> schema_name t -> camel_to_snake_case s = camel_to_snake_case t ->
  map to_ascii_lowercase (firstn 1 s) = map to_ascii_lowercase (firstn 1 t) /\ skipn 1 s = skipn 1 t.
Proof.
  intros Hs Ht E. unfold camel_to_snake_case in E.
  destruct s as [|c s], t as [|d t]; cbn [snake_chars] in E; rewrite ?andb_false_r in E; cbn [negb app] in E;
    rewrite ?andb_false_r in E; try discriminate; [done|].
  cbn [app] in E. injection E as E1 E2. cbn. split; [by rewrite E1|].
  inversion Hs; inversion Ht; subst. by rewrite <- (unsnake_snake s), <- (unsnake_snake t), E2.
Qed.
(** What [camel_to_snake_case] gives does not end with an underscore. *)
Lemma snake_no_trailing b s u : schema_name s -> snake_chars b s <> u ++ [underscore].
Proof.
  intros Hs. revert b u. induction Hs as [|c s [Hc Hu] Hs IH]; intros b u E; [by destruct u|]. cbn [snake_chars] in E.
  assert (Hl : to_ascii_lowercase c <> underscore).
  { destruct (is_ascii_upper c) eqn:Ec; [by apply upper_lower|]. unfold to_ascii_lowercase. by rewrite Ec. }
  rewrite app_comm_cons, app_assoc in E || idtac.
  assert (E' : (if is_uppercase c && negb b then [underscore] else []) ++ [to_ascii_lowercase c] ++ snake_chars false s = u ++ [underscore]) by exact E.
  rewrite app_assoc in E'. destruct (snake_chars false s) as [|x l] eqn:El using rev_ind.
  - rewrite app_nil_r in E'. by apply app_inj_tail in E' as [_ ?].
  - clear IHl. rewrite app_assoc in E'. apply app_inj_tail in E' as [_ ->]. by apply (IH false l).
Qed.

Lemma keyword_underscore k : k ∈ RUST_KEYWORDS -> k ++ [underscore] ∉ RUST_KEYWORDS.
Proof.
  assert (Hf : Forall (fun k => k ++ [underscore] ∉ RUST_KEYWORDS) RUST_KEYWORDS) by (refine (bool_decide_unpack _ _); vm_compute; exact I).
  intros Hk. by apply (proj1 (Forall_forall _ _) Hf).
Qed.
Lemma module_name_not_keyword s : module_name s ∉ RUST_KEYWORDS.
Proof. unfold module_name. case_bool_decide as E; [by apply keyword_underscore|done]. Qed.
Lemma module_name_inj s t : schema_name s -> schema_name t -> module_name s = module_name t ->
  camel_to_snake_case s = camel_to_snake_case t.
Proof.
  intros Hs Ht. unfold module_name. do 2 case_bool_decide; intros E; try done.
  - by apply app_inj_tail in E as [? _].
  - symmetry in E. exfalso. by eapply snake_no_trailing in E.
  - exfalso. by eapply snake_no_trailing in E.
Qed.
End names.

(** ** Facts about numbers *)

Definition hex_value (c : Z) : Z := if c <? 58 then c - 48 else c - 87.
(** The value of a hexadecimal literal without its prefix, with underscores in it *)
Fixpoint parse_hex (acc : Z) (s : Str) : Z :=
  match s with
  | [] => acc
  | c :: s => if c =? underscore then parse_hex acc s else parse_hex (16 * acc + hex_value c) s
  end.

Lemma hex_char_value d : 0 <= d < 16 -> hex_value (hex_char d) = d /\ hex_char d <> underscore.
Proof. intros Hd. unfold hex_value, hex_char, underscore. destruct (Z.ltb_spec d 10); [destruct (Z.ltb_spec (48 + d) 58)|destruct (Z.ltb_spec (87 + d) 58)]; lia. Qed.
Lemma parse_hex_digits fuel : forall x acc, 0 <= x < 16 ^ Z.of_nat fuel -> (0 < fuel)%nat ->
  parse_hex 0 (hex_digits fuel x acc) = parse_hex x acc.
Proof.
  induction fuel as [|fuel IH]; intros x acc Hx Hf; [lia|]. cbn [hex_digits].
  destruct (hex_char_value (x mod 16)) as [Hv Hu]; [apply Z.mod_pos_bound; lia|].
  assert (Hstep : forall a, parse_hex a (hex_char (x mod 16) :: acc) = parse_hex (16 * a + x mod 16) acc).
  { intros a. cbn [parse_hex]. by rewrite (proj2 (Z.eqb_neq _ _)), Hv by done. }
  destruct (Z.ltb_spec x 16).
  - rewrite Hstep. f_equal. rewrite Z.mod_small; lia.
  - rewrite Nat2Z.inj_succ, Z.pow_succ_r in Hx by lia. destruct fuel as [|fuel]; [cbn in Hx; lia|].
    rewrite IH; [|split; [apply Z.div_pos; lia|apply Z.div_lt_upper_bound; lia]|lia].
    rewrite Hstep. f_equal. symmetry. apply Z_div_mod_eq_full.
Qed.
Lemma parse_separated s : forall b n v, parse_hex v (separate b n s) = parse_hex v s.
Proof.
  induction s as [|c s IH]; intros b n v; [done|]. cbn [separate parse_hex].
  destruct (b && _); cbn [app parse_hex]; [rewrite Z.eqb_refl|]; destruct (c =? underscore); apply IH.
Qed.
Lemma format_u64_value v : u64 v -> exists digits, format_u64 v = str "0x" ++ digits /\ parse_hex 0 digits = v.
Proof.
  unfold u64, in_width. intros Hv. eexists. split; [reflexivity|]. rewrite parse_separated, parse_hex_digits; [done| |lia].
  change (16 ^ Z.of_nat 16) with (2 ^ 64). lia.
Qed.

(** ** Facts about formatted text *)

(** The lines of a text at an indentation are its lines further left, each
    moved to the right unless it is blank. *)
Definition shift (n : nat) (s : Str) : Str := match s with [] => [] | _ => spaces (n * 2) ++ s end.

Section text_ind.
Context (P : FormattedText -> Prop) (HI : forall ft, P ft -> P (Indent ft)) (HB : forall fts, Forall P fts -> P (Branch fts))
  (HL : forall s, P (Line s)) (HBl : P BlankLine).
Fixpoint text_ind' (ft : FormattedText) : P ft :=
  match ft with
  | Indent ft => HI ft (text_ind' ft)
  | Branch fts => HB fts (list_ind (Forall P) (Forall_nil_2 P) (fun x l H => Forall_cons_2 P x l (text_ind' x) H) fts)
  | Line s => HL s
  | BlankLine => HBl
  end.
End text_ind.

(** No line is empty: a blank line is [BlankLine]. *)
Fixpoint full_lines (ft : FormattedText) : Prop :=
  match ft with
  | Indent ft => full_lines ft
  | Branch fts => foldr (fun ft P => full_lines ft /\ P) True fts
  | Line s => s <> []
  | BlankLine => True
  end.
Lemma to_lines_shift ft : full_lines ft -> forall n k, to_lines ft (n + k) = map (shift n) (to_lines ft k).
Proof.
  induction ft as [ft IH|fts IH|s|] using text_ind'; intros Hf n k; cbn [to_lines full_lines] in *.
  - rewrite <- Nat.add_assoc. by apply IH.
  - induction IH as [|ft fts Hft _ IHs]; [done|]. destruct Hf as [Hf Hfs]. cbn [flat_map]. rewrite map_app, Hft by done.
    f_equal. by apply IHs.
  - unfold shift. cbn [map]. f_equal. destruct (spaces (k * 2) ++ s) eqn:E; [by apply app_nil in E as [_ ?]|].
    rewrite <- E, app_assoc. f_equal. unfold spaces. rewrite <- repeat_app. f_equal. lia.
  - done.
Qed.

End CodegenText.
