(* ===== verification/Codegen.v ===== *)
(** * The code generator: context, types and tables (capnpc/src/codegen.rs,
    codegen_types.rs)

    The request is a message, read through the accessors of schema.capnp; the
    memory it is in does not change, the read limit does.  A [&str] is its
    bytes. *)

From S2P Require Import Prelude Mem ReadLimiter Segments WirePointer Arena Readers TypedLists TypedPointers StructList.
From S2P Require Import SchemaCapnp Schema CodegenText.
From stdpp Require Import gmap list strings.
#[local] Open Scope Z_scope.
#[local] Open Scope rust_scope.
Import TypedLists TypedPointers SchemaCapnp CodegenText.

Module Codegen.

(** [Error::failed] *)
Definition failed {S A} : ST S A := fails Failed.

(** [for x in list], with an accumulator for what the body changes *)
Fixpoint fold_from {S A} (n : nat) (i : Z) (l : ListReader) (body : Z -> StructReader -> A -> ST S A) (acc : A) : ST S A :=
  match n with
  | O => ret acc
  | S n => x ← lift (Schema.struct_list_get l i); acc ← body i x acc; fold_from n (i + 1) l body acc
  end.
Definition fold_list {S A} (l : ListReader) (body : Z -> StructReader -> A -> ST S A) (acc : A) : ST S A :=
  fold_from (Z.to_nat (lr_element_count l)) 0 l body acc.

Record GeneratorContext := {
  node_map : gmap Z StructReader;
  scope_map : gmap Z (list Str);
  node_parents : gmap Z Z;
  capnp_root : Str
}.

(** [codegen_types::Leaf] *)
Inductive Leaf :=
| L_Reader (lifetime : Str) | L_Builder (lifetime : Str)
| L_Owned | L_Client | L_Server | L_ServerDispatch | L_Pipeline | L_GetType.
Definition bare_name (l : Leaf) : Str :=
  match l with
  | L_Reader _ => str "Reader"
  | L_Builder _ => str "Builder"
  | L_Owned => str "Owned"
  | L_Client => str "Client"
  | L_Server => str "Server"
  | L_ServerDispatch => str "ServerDispatch"
  | L_GetType => str "get_type"
  | L_Pipeline => str "Pipeline"
  end.
(** [Display for Leaf] *)
Definition leaf_text (l : Leaf) : Str :=
  match l with
  | L_Reader lt => str "Reader<" ++ lt ++ str ">"
  | L_Builder lt => str "Builder<" ++ lt ++ str ">"
  | _ => bare_name l
  end.

(** [codegen_types::TypeParameterTexts] *)
Record TypeParameterTexts := {
  expanded_list : list Str;
  params : Str;
  where_clause : Str;
  where_clause_with_static : Str;
  pipeline_where_clause : Str;
  phantom_data_value : Str;
  phantom_data_type : Str
}.

Section codegen.
Context `{Unicode} (m : mem) (tables : gmap Z CapTable).

(** [text::Reader::to_str] *)
Definition to_str (t : TextReader) : ST ReadLimiter (list byte) :=
  bs ← lift (Schema.text_of m t);
  match from_utf8 bs with inl _ => ret bs | inr e => fails (TextContainsNonUtf8Data e) end.
Definition chars (bs : list byte) : Str := match from_utf8 bs with inl s => s | inr _ => [] end.

(** ** Names and annotations *)

Definition NAME_ANNOTATION_ID : Z := 0xc2fe4c6d100166d0.
Definition PARENT_MODULE_ANNOTATION_ID : Z := 0xabee386cd1450364.
Definition OPTION_ANNOTATION_ID : Z := 0xabfef22c4ee1964e.

(** The text in an annotation *)
Definition annotation_text (annotation : StructReader) : ST ReadLimiter (list byte) :=
  value ← annotation_get_value m annotation;
  w ← value_which m tables value;
  match w with
  | VW_Text t => t ← question t; to_str t
  | _ => failed
  end.
Definition name_annotation_value (annotation : StructReader) : ST ReadLimiter (list byte) :=
  name ← annotation_text annotation;
  if forallb (fun c => (c =? underscore) || is_alphanumeric c) (chars name) then ret name else failed.

(** The value of the first name annotation of a list, if there is one *)
Fixpoint renamed (n : nat) (i : Z) (annotations : ListReader) : ST ReadLimiter (option (list byte)) :=
  match n with
  | O => ret None
  | S n =>
      a ← lift (Schema.struct_list_get annotations i);
      id ← lift (annotation_get_id m a);
      if id =? NAME_ANNOTATION_ID then v ← name_annotation_value a; ret (Some v) else renamed n (i + 1) annotations
  end.
Definition rename (annotations : ListReader) : ST ReadLimiter (option (list byte)) :=
  renamed (Z.to_nat (lr_element_count annotations)) 0 annotations.
Definition get_field_name (field : StructReader) : ST ReadLimiter (list byte) :=
  annotations ← field_get_annotations m tables field;
  r ← rename annotations;
  match r with
  | Some name => ret name
  | None => t ← field_get_name m tables field; to_str t
  end.
Definition get_enumerant_name (enumerant : StructReader) : ST ReadLimiter (list byte) :=
  annotations ← enumerant_get_annotations m tables enumerant;
  r ← rename annotations;
  match r with
  | Some name => ret name
  | None => t ← enumerant_get_name m tables enumerant; to_str t
  end.

(** [split] at every ["::"] *)
Fixpoint split_modules (cur s : Str) : list Str :=
  match s with
  | [] => [rev cur]
  | 58 :: 58 :: s => split_modules [] s
  | c :: s => split_modules (c :: cur) s
  end.
Definition get_parent_module (annotation : StructReader) : ST ReadLimiter (list Str) :=
  t ← annotation_text annotation; ret (split_modules [] (chars t)).

(** [iter().any(..)] *)
Fixpoint any_annotation (n : nat) (i id : Z) (annotations : ListReader) : outcome bool :=
  match n with
  | O => Ok false
  | S n =>
      a ← Schema.struct_list_get annotations i;
      x ← annotation_get_id m a;
      if x =? id then Ok true else any_annotation n (i + 1) id annotations
  end.

(** ** Types *)

Definition is_pointer (t : StructReader) : outcome bool :=
  w ← type_which m t;
  Ok (match w with TW_Text | TW_Data | TW_List _ | TW_Struct _ | TW_Interface _ | TW_AnyPointer _ => true | _ => false end).
Definition is_prim (t : StructReader) : outcome bool :=
  w ← type_which m t;
  Ok (match w with
      | TW_Int8 | TW_Int16 | TW_Int32 | TW_Int64 | TW_Uint8 | TW_Uint16 | TW_Uint32 | TW_Uint64
      | TW_Float32 | TW_Float64 | TW_Void | TW_Bool => true
      | _ => false
      end).
Definition is_parameter (t : StructReader) : outcome bool :=
  w ← type_which m t;
  match w with
  | TW_AnyPointer p => a ← any_pointer_which m p; Ok (match a with APW_Parameter _ => true | _ => false end)
  | _ => Ok false
  end.
Definition is_branded (t : StructReader) : ST ReadLimiter bool :=
  w ← lift (type_which m t);
  match w with
  | TW_Struct st =>
      brand ← type_get_brand m st;
      scopes ← get_scopes m tables brand;
      ret (negb (lr_element_count scopes =? 0))
  | _ => ret false
  end.
Definition is_option_field (field : StructReader) : ST ReadLimiter bool :=
  annotations ← field_get_annotations m tables field;
  enabled ← lift (any_annotation (Z.to_nat (lr_element_count annotations)) 0 OPTION_ANNOTATION_ID annotations);
  if enabled : bool then
    w ← lift (field_which m field);
    supported ← match w with
      | FW_Group _ => ret false
      | FW_Slot slot =>
          ty ← slot_get_type m slot;
          pointer ← lift (is_pointer ty);
          if pointer : bool then
            w ← lift (type_which m ty); ret (match w with TW_Interface _ => false | _ => true end)
          else ret false
      end;
    if supported : bool then ret enabled else failed
  else ret enabled.

(** [f32::classify] is [Zero] for both zeroes. *)
Definition float_default (sign_bit bits : Z) (suffix : Str) : option Str :=
  if bits mod sign_bit =? 0 then None else Some (decimal bits ++ suffix).
Definition int_default (x : Z) : option Str := if x =? 0 then None else Some (decimal x).
Definition prim_default (value : StructReader) : ST ReadLimiter (option Str) :=
  w ← value_which m tables value;
  match w with
  | VW_Bool b => ret (if b then Some (str "true") else None)
  | VW_Int8 x | VW_Int16 x | VW_Int32 x | VW_Int64 x
  | VW_Uint8 x | VW_Uint16 x | VW_Uint32 x | VW_Uint64 x => ret (int_default x)
  | VW_Float32 x => ret (float_default (2 ^ 31) x (str "u32"))
  | VW_Float64 x => ret (float_default (2 ^ 63) x (str "u64"))
  | _ => failed
  end.

(** ** Parameters and scopes *)

Context (ctx : GeneratorContext).

(** [ctx.node_map[&id]] panics when there is no such node. *)
Definition node_at {S} (id : Z) : ST S StructReader :=
  match node_map ctx !! id with Some n => ret n | None => lift Panic end.

(** The names of a list of parameters, pushed on [acc] in order *)
Definition parameter_names (parameters : ListReader) : ST ReadLimiter (list Str) :=
  fold_list parameters (fun _ p acc => t ← parameter_get_name m tables p; s ← to_str t; ret (acc ++ [chars s])) [].
(** [parameters.into_iter().rev()] *)
Fixpoint pushed_back (n : nat) (parameters : ListReader) (result : list Str) : ST ReadLimiter (list Str) :=
  match n with
  | O => ret result
  | S n =>
      p ← lift (Schema.struct_list_get parameters (Z.of_nat n));
      t ← parameter_get_name m tables p; s ← to_str t;
      pushed_back n parameters (result ++ [chars s])
  end.
Fixpoint params_loop (fuel : nat) (node_id : Z) (result : list Str) : ST ReadLimiter (list Str) :=
  match fuel with
  | O => lift OutOfFuel
  | S fuel =>
      if node_id =? 0 then ret result
      else
        node ← node_at node_id;
        parameters ← get_parameters m tables node;
        result ← pushed_back (Z.to_nat (lr_element_count parameters)) parameters result;
        id ← lift (node_get_scope_id m node);
        params_loop fuel id result
  end.
Definition get_params (fuel : nat) (node_id : Z) : ST ReadLimiter (list Str) :=
  result ← params_loop fuel node_id []; ret (rev result).

(** [get_type_parameters] goes up through [node_parents]; its calls of
    [unwrap] panic. *)
Fixpoint type_parameters_loop (fuel : nat) (node_id : Z) (accumulator : list (list Str)) : ST ReadLimiter (list (list Str)) :=
  match fuel with
  | O => lift OutOfFuel
  | S fuel =>
      node ← node_at node_id;
      parameters ← unwrap_result (get_parameters m tables node);
      params ← unwrap_result (parameter_names parameters);
      let accumulator := accumulator ++ [params] in
      match node_parents ctx !! node_id with
      | None | Some 0 => ret accumulator
      | Some id => type_parameters_loop fuel id accumulator
      end
  end.
Definition get_type_parameters (fuel : nat) (node_id : Z) : ST ReadLimiter (list Str) :=
  accumulator ← type_parameters_loop fuel node_id []; ret (concat (rev accumulator)).

Definition get_last_name (id : Z) : ST ReadLimiter Str :=
  match scope_map ctx !! id with
  | None => failed
  | Some v => match last v with None => failed | Some n => ret n end
  end.
(** [self.scope_map[&type_id].join("::")] *)
Definition get_qualified_module {S} (type_id : Z) : ST S Str :=
  match scope_map ctx !! type_id with Some v => ret (join (str "::") v) | None => lift Panic end.

(** ** The text of types (codegen_types.rs) *)

Definition capnp (s : Str) : Str := capnp_root ctx ++ s.

(** What each scope of a brand says, by the id of the scope *)
Definition brand_scopes (brand : StructReader) : ST ReadLimiter (gmap Z StructReader) :=
  scopes ← get_scopes m tables brand;
  fold_list scopes (fun _ scope acc => id ← lift (scope_get_scope_id m scope); ret (<[id := scope]> acc)) ∅.

(** [type_string], given to the functions it calls that call it *)
Section branding.
Context (type_string : StructReader -> Leaf -> ST ReadLimiter Str).

Definition brand_arguments (scope : option StructReader) (parameters : ListReader) : ST ReadLimiter (list Str) :=
  let any := capnp (str "::any_pointer::Owned") in
  match scope with
  | None => ret (repeat any (Z.to_nat (lr_element_count parameters)))
  | Some scope =>
      w ← scope_which m tables scope;
      match w with
      | SW_Inherit => parameter_names parameters
      | SW_Bind bindings =>
          bindings ← question bindings;
          lift (rust_assert (lr_element_count bindings =? lr_element_count parameters)) ;;
          fold_list bindings (fun _ binding acc =>
            b ← binding_which m binding;
            match b with
            | BW_Unbound => ret (acc ++ [any])
            | BW_Type t => t ← question t; s ← type_string t L_Owned; ret (acc ++ [s])
            end) []
      end
  end.
Fixpoint branding_loop (fuel : nat) (scopes : gmap Z StructReader) (node_id : Z) (accumulator : list (list Str)) :
    ST ReadLimiter (list (list Str)) :=
  match fuel with
  | O => lift OutOfFuel
  | S fuel =>
      node ← node_at node_id;
      parameters ← get_parameters m tables node;
      arguments ← brand_arguments (scopes !! node_id) parameters;
      let accumulator := accumulator ++ [arguments] in
      match node_parents ctx !! node_id with
      | None | Some 0 => ret accumulator
      | Some id => branding_loop fuel scopes id accumulator
      end
  end.
Definition leaf_parameter (leaf : Leaf) : list (list Str) :=
  match leaf with L_Reader lt | L_Builder lt => [[lt]] | L_ServerDispatch => [[str "_T"]] | _ => [] end.
Definition do_branding (fuel : nat) (node_id : Z) (brand : StructReader) (leaf : Leaf) (the_mod : Str) : ST ReadLimiter Str :=
  scopes ← brand_scopes brand;
  accumulator ← branding_loop fuel scopes node_id [];
  let accumulated := concat (rev (accumulator ++ leaf_parameter leaf)) in
  let arguments := match accumulated with [] => [] | _ => str "<" ++ join (str ",") accumulated ++ str ">" end in
  let maybe_colons := match leaf with L_ServerDispatch | L_GetType => str "::" | _ => [] end in
  ret (the_mod ++ str "::" ++ bare_name leaf ++ maybe_colons ++ arguments).

(** The list types: [lifetime_comma] is the lifetime of the leaf. *)
Definition list_string (kind : Str) (module : Leaf) (inner : Str) : Str :=
  let lifetime_comma := match module with L_Reader (_ :: _ as lt) | L_Builder (_ :: _ as lt) => lt ++ str "," | _ => [] end in
  capnp (str "::" ++ kind ++ str "::" ++ bare_name module ++ str "<" ++ lifetime_comma ++ inner ++ str ">").
Definition type_string_list (element_type : StructReader) (module : Leaf) : ST ReadLimiter Str :=
  w ← lift (type_which m element_type);
  match w with
  | TW_Struct _ => inner ← type_string element_type L_Owned; ret (list_string (str "struct_list") module inner)
  | TW_Enum _ => inner ← type_string element_type L_Owned; ret (list_string (str "enum_list") module inner)
  | TW_List _ => inner ← type_string element_type L_Owned; ret (list_string (str "list_list") module inner)
  | TW_Text => ret (str "::capnp::text_list::" ++ leaf_text module)
  | TW_Data => ret (str "::capnp::data_list::" ++ leaf_text module)
  | TW_Interface _ => inner ← type_string element_type L_Client; ret (list_string (str "capability_list") module inner)
  | TW_AnyPointer _ => failed
  | _ => inner ← type_string element_type L_Owned; ret (list_string (str "primitive_list") module inner)
  end.
End branding.

Definition parameter_string (def : StructReader) (module : Leaf) : ST ReadLimiter Str :=
  scope ← lift (parameter_get_scope_id m def);
  the_struct ← node_at scope;
  parameters ← get_parameters m tables the_struct;
  i ← lift (get_parameter_index m def);
  parameter ← lift (Schema.struct_list_get parameters i);
  t ← parameter_get_name m tables parameter;
  name ← to_str t;
  let name := chars name in
  match module with
  | L_Owned => ret name
  | L_Reader lt => ret (str "<" ++ name ++ str " as " ++ capnp (str "::traits::Owned>::Reader<" ++ lt ++ str ">"))
  | L_Builder lt => ret (str "<" ++ name ++ str " as " ++ capnp (str "::traits::Owned>::Builder<" ++ lt ++ str ">"))
  | L_Pipeline => ret (str "<" ++ name ++ str " as " ++ capnp (str "::traits::Pipelined>::Pipeline"))
  | _ => fails Unimplemented
  end.
Definition any_pointer_string (pointer : StructReader) (module : Leaf) : ST ReadLimiter Str :=
  w ← lift (any_pointer_which m pointer);
  match w with
  | APW_Parameter def => parameter_string def module
  | _ => ret (capnp (str "::any_pointer::" ++ leaf_text module))
  end.

(** [fuel] is how deep types may nest, and how far scopes may be up. *)
Fixpoint type_string (fuel : nat) (t : StructReader) (module : Leaf) : ST ReadLimiter Str :=
  match fuel with
  | O => lift OutOfFuel
  | S fuel =>
      w ← lift (type_which m t);
      match w with
      | TW_Void => ret (str "()")
      | TW_Bool => ret (str "bool")
      | TW_Int8 => ret (str "i8")
      | TW_Int16 => ret (str "i16")
      | TW_Int32 => ret (str "i32")
      | TW_Int64 => ret (str "i64")
      | TW_Uint8 => ret (str "u8")
      | TW_Uint16 => ret (str "u16")
      | TW_Uint32 => ret (str "u32")
      | TW_Uint64 => ret (str "u64")
      | TW_Float32 => ret (str "f32")
      | TW_Float64 => ret (str "f64")
      | TW_Text => ret (capnp (str "::text::" ++ leaf_text module))
      | TW_Data => ret (capnp (str "::data::" ++ leaf_text module))
      | TW_Struct st | TW_Interface st =>
          id ← lift (type_get_type_id m st);
          brand ← type_get_brand m st;
          the_mod ← get_qualified_module id;
          do_branding (type_string fuel) (S fuel) id brand module the_mod
      | TW_List l => element_type ← get_element_type m l; type_string_list (type_string fuel) element_type module
      | TW_Enum en => id ← lift (type_get_type_id m en); get_qualified_module id
      | TW_AnyPointer pointer => any_pointer_string pointer module
      end
  end.

Definition joined (sep : Str) (f : Str -> Str) (l : list Str) : Str := join sep (map f l).
Definition no_parameters : TypeParameterTexts :=
  {| expanded_list := []; params := []; where_clause := []; where_clause_with_static := []; pipeline_where_clause := [];
     phantom_data_value := []; phantom_data_type := [] |}.
Definition parameters_texts (fuel : nat) (node : StructReader) : ST ReadLimiter TypeParameterTexts :=
  generic ← lift (get_is_generic m node);
  if generic : bool then
    id ← lift (node_get_id m node);
    ps ← get_type_parameters fuel id;
    let where_ f := str "where " ++ joined (str ", ") f ps ++ str " " in
    let type_parameters := join (str ",") ps in
    ret {| expanded_list := ps;
           params := type_parameters;
           where_clause := where_ (fun p => p ++ str ": " ++ capnp (str "::traits::Owned"));
           where_clause_with_static := where_ (fun p => p ++ str ":'static + " ++ capnp (str "::traits::Owned"));
           pipeline_where_clause := where_ (fun p => p ++ str ": " ++ capnp (str "::traits::Pipelined, <") ++ p ++ str " as " ++
             capnp (str "::traits::Pipelined>::Pipeline: ") ++ capnp (str "::capability::FromTypelessPipeline"));
           phantom_data_value := str "_phantom: ::core::marker::PhantomData,";
           phantom_data_type :=
             if (length ps =? 1)%nat then str "_phantom: ::core::marker::PhantomData<" ++ type_parameters ++ str ">"
             else str "_phantom: ::core::marker::PhantomData<(" ++ type_parameters ++ str ")>" |}
  else ret no_parameters.

(** ** Groups *)

(** [result.contains(&line)] for a line *)
Definition contains_line (s : Str) (result : list FormattedText) : bool :=
  existsb (fun ft => match ft with Line s' => bool_decide (s' = s) | _ => false end) result.
Definition push_line (s : Str) (result : list FormattedText) : list FormattedText :=
  if contains_line s result then result else result ++ [Line s].

(** The line that clears a slot, if it takes one, and whether that needs [clear] *)
Definition zero_slot (fuel : nat) (slot : StructReader) : ST ReadLimiter (option Str * bool) :=
  ty ← slot_get_type m slot;
  w ← lift (type_which m ty);
  offset ← lift (slot_get_offset m slot);
  let offset := decimal offset in
  match w with
  | TW_Void => ret (None, false)
  | TW_Bool => ret (Some (str "self.builder.set_bool_field(" ++ offset ++ str ", false);"), false)
  | TW_Int8 | TW_Int16 | TW_Int32 | TW_Int64 | TW_Uint8 | TW_Uint16 | TW_Uint32 | TW_Uint64 | TW_Float32 | TW_Float64 =>
      ty ← slot_get_type m slot;
      s ← type_string fuel ty (L_Builder (str "'a"));
      ret (Some (str "self.builder.set_data_field::<" ++ s ++ str ">(" ++ offset ++ str ", 0" ++ s ++ str ");"), false)
  | TW_Enum _ => ret (Some (str "self.builder.set_data_field::<u16>(" ++ offset ++ str ", 0u16);"), false)
  | _ => ret (Some (str "self.builder.reborrow().get_pointer_field(" ++ offset ++ str ").clear();"), true)
  end.
(** The second component is [clear]. *)
Fixpoint zero_fields_of_group (fuel : nat) (node_id : Z) (clear : bool) : ST ReadLimiter (FormattedText * bool) :=
  match fuel with
  | O => lift OutOfFuel
  | S fuel =>
      node ← node_at node_id;
      w ← lift (node_which m node);
      match w with
      | NW_Struct st =>
          count ← lift (get_discriminant_count m st);
          result ← (if negb (count =? 0) then
                      o ← lift (get_discriminant_offset m st);
                      ret [Line (str "self.builder.set_data_field::<u16>(" ++ decimal o ++ str ", 0);")]
                    else ret []);
          fields ← struct_get_fields m tables st;
          r ← fold_list fields (fun _ field acc =>
            let '(result, clear) := acc in
            w ← lift (field_which m field);
            match w with
            | FW_Group group =>
                id ← lift (group_get_type_id m group);
                '(ft, clear) ← zero_fields_of_group fuel id clear;
                ret (result ++ [ft], clear)
            | FW_Slot slot =>
                '(s, needs_clear) ← zero_slot fuel slot;
                ret (match s with Some s => push_line s result | None => result end, clear || needs_clear)
            end) (result, clear);
          let '(result, clear) := r in
          ret (Branch result, clear)
      | _ => failed
      end
  end.

(** ** Tables of a struct *)

Definition struct_of (node : StructReader) : ST ReadLimiter StructReader :=
  w ← lift (node_which m node);
  match w with NW_Struct st => ret st | _ => failed end.

(** [sort] and [sort_by_key] are stable: an insertion sort. *)
Fixpoint insert_by {X} (before : X -> X -> bool) (x : X) (l : list X) : list X :=
  match l with
  | [] => [x]
  | y :: l => if before y x then y :: insert_by before x l else x :: y :: l
  end.
(** [before y x]: [y], which comes later in the input, belongs before [x]. *)
Definition sort_by {X} (before : X -> X -> bool) (l : list X) : list X := foldr (insert_by before) [] l.

Definition static_table (name : Str) (members : list Z) : FormattedText :=
  Line (str "pub static " ++ name ++ str " : &[u16] = &[" ++ join (str ",") (map decimal members) ++ str "];").

(** The discriminants of the fields: those without, and those with, in order *)
Definition members_of_union (st : StructReader) : ST ReadLimiter (list Z * list (Z * Z)) :=
  fields ← struct_get_fields m tables st;
  fold_list fields (fun index field acc =>
    let '(nonunion, union) := acc in
    disc ← lift (get_discriminant_value m field);
    if disc =? NO_DISCRIMINANT then ret (nonunion ++ [index], union) else ret (nonunion, union ++ [(disc, index)]))
    ([], []).
Definition pair_before (y x : Z * Z) : bool := (y.1 <? x.1) || (y.1 =? x.1) && (y.2 <? x.2).
(** [assert_eq!(idx, disc)] for each member *)
Fixpoint discriminants_dense (idx : Z) (members : list (Z * Z)) : bool :=
  match members with [] => true | (disc, _) :: members => (idx =? disc) && discriminants_dense (idx + 1) members end.
(** The two tables of [generate_members_by_discriminant] *)
Definition members_by_discriminant_tables (node : StructReader) : ST ReadLimiter (list Z * list Z) :=
  st ← struct_of node;
  '(nonunion, union) ← members_of_union st;
  let union := sort_by pair_before union in
  lift (rust_assert (discriminants_dense 0 union)) ;;
  ret (nonunion, map snd union).
Definition generate_members_by_discriminant (node : StructReader) : ST ReadLimiter FormattedText :=
  '(nonunion, union) ← members_by_discriminant_tables node;
  ret (Branch [static_table (str "NONUNION_MEMBERS") nonunion; static_table (str "MEMBERS_BY_DISCRIMINANT") union]).

(** The table of [generate_members_by_name]; a field whose name cannot be read
    is left out. *)
Definition name_before (y x : list byte * Z) : bool := match bytes_compare y.1 x.1 with Lt => true | _ => false end.
Definition named_members (st : StructReader) : ST ReadLimiter (list (list byte * Z)) :=
  fields ← struct_get_fields m tables st;
  fold_list fields (fun index field acc =>
    name ← keep_result (get_field_name field);
    ret (match name with inl name => acc ++ [(name, index)] | inr _ => acc end)) [].
Definition members_by_name_table (node : StructReader) : ST ReadLimiter (list Z) :=
  st ← struct_of node; members ← named_members st; ret (map snd (sort_by name_before members)).
Definition generate_members_by_name (node : StructReader) : ST ReadLimiter FormattedText :=
  table ← members_by_name_table node; ret (Branch [static_table (str "MEMBERS_BY_NAME") table]).

(** ** Functions of a struct *)

Definition introspect_line (pattern typ : Str) : FormattedText :=
  Line (pattern ++ str " => <" ++ typ ++ str " as " ++ capnp (str "::introspect::Introspect>::introspect(),")).
Definition group_type (fuel : nat) (group : StructReader) : ST ReadLimiter Str :=
  id ← lift (group_get_type_id m group);
  ps ← get_params fuel id;
  the_mod ← get_qualified_module id;
  ret (the_mod ++ str "::Owned" ++ match ps with [] => [] | _ => str "<" ++ join (str ",") ps ++ str ">" end).
(** A function over the fields or annotations of a node: [params] if it is generic *)
Definition function_text (fuel : nat) (node : StructReader) (name args : Str) (body : FormattedText) : ST ReadLimiter FormattedText :=
  generic ← lift (get_is_generic m node);
  if negb generic then
    ret (Branch [Line (str "pub fn " ++ name ++ str "(" ++ args ++ str ") -> " ++ capnp (str "::introspect::Type {"));
                 Indent body; Line (str "}")])
  else
    ps ← parameters_texts fuel node;
    ret (Branch [Line (str "pub fn " ++ name ++ str "<" ++ params ps ++ str ">(" ++ args ++ str ") -> " ++
                       capnp (str "::introspect::Type ") ++ where_clause ps ++ str " {");
                 Indent body; Line (str "}")]).
Definition generate_get_field_types (fuel : nat) (node : StructReader) : ST ReadLimiter FormattedText :=
  st ← struct_of node;
  fields ← struct_get_fields m tables st;
  branches ← fold_list fields (fun index field acc =>
    w ← lift (field_which m field);
    typ ← match w with
          | FW_Slot slot => raw_type ← slot_get_type m slot; type_string fuel raw_type L_Owned
          | FW_Group group => group_type fuel group
          end;
    ret (acc ++ [introspect_line (decimal index) typ])) [];
  let panic := capnp (str "::introspect::panic_invalid_field_index(index)") in
  let body := match branches with
    | [] => Line panic
    | _ => Branch [Line (str "match index {"); Indent (Branch (branches ++ [Line (str "_ => " ++ panic ++ str ",")])); Line (str "}")]
    end in
  function_text fuel node (str "get_field_types") (str "index: u16") body.

(** The pattern [({child_index:?}, {index})] *)
Definition annotation_pattern (child_index : option Z) (index : Z) : Str :=
  str "(" ++ match child_index with None => str "None" | Some i => str "Some(" ++ decimal i ++ str ")" end ++
  str ", " ++ decimal index ++ str ")".
Definition annotation_branch (fuel : nat) (annotation : StructReader) (child_index : option Z) (index : Z) :
    ST ReadLimiter FormattedText :=
  id ← lift (annotation_get_id m annotation);
  annotation_decl ← node_at id;
  w ← lift (node_which m annotation_decl);
  match w with
  | NW_Annotation a =>
      generic ← lift (get_is_generic m annotation_decl);
      if generic : bool then
        brand ← annotation_get_brand m annotation;
        the_mod ← get_qualified_module id;
        func ← do_branding (type_string fuel) fuel id brand L_GetType the_mod;
        ret (Line (annotation_pattern child_index index ++ str " => " ++ func ++ str "(),"))
      else
        ty ← annotation_node_get_type m a;
        s ← type_string fuel ty L_Owned;
        ret (introspect_line (annotation_pattern child_index index) s)
  | _ => failed
  end.
(** The branches for a list of annotations, after those in [branches] *)
Definition annotation_branches (fuel : nat) (child_index : option Z) (annotations : ListReader) (branches : list FormattedText) :
    ST ReadLimiter (list FormattedText) :=
  fold_list annotations (fun idx a acc => ft ← annotation_branch fuel a child_index (wrap32 idx); ret (acc ++ [ft])) branches.
Definition generate_get_annotation_types (fuel : nat) (node : StructReader) : ST ReadLimiter FormattedText :=
  annotations ← node_get_annotations m tables node;
  branches ← annotation_branches fuel None annotations [];
  w ← lift (node_which m node);
  branches ← match w with
    | NW_Struct s =>
        fields ← struct_get_fields m tables s;
        fold_list fields (fun fidx field acc =>
          annotations ← field_get_annotations m tables field; annotation_branches fuel (Some (wrap16 fidx)) annotations acc) branches
    | NW_Enum e =>
        enumerants ← enum_get_enumerants m tables e;
        fold_list enumerants (fun fidx enumerant acc =>
          annotations ← enumerant_get_annotations m tables enumerant; annotation_branches fuel (Some (wrap16 fidx)) annotations acc)
          branches
    | _ => ret branches
    end;
  let panic := capnp (str "::introspect::panic_invalid_annotation_indices(child_index, index)") in
  let body := match branches with
    | [] => Line panic
    | _ => Indent (Branch [Line (str "match (child_index, index) {");
                           Indent (Branch (branches ++ [Line (str "_ => " ++ panic ++ str ",")])); Line (str "}")])
    end in
  function_text fuel node (str "get_annotation_types") (str "child_index: Option<u16>, index: u32") body.

(** ** Parameters that a type uses *)

Section used.
Context (used_params_of_type : StructReader -> gset Str -> ST ReadLimiter (gset Str)).
Definition used_params_of_scope (scope : option StructReader) (parameters : ListReader) (used_params : gset Str) :
    ST ReadLimiter (gset Str) :=
  match scope with
  | None => ret used_params
  | Some scope =>
      w ← scope_which m tables scope;
      match w with
      | SW_Inherit => names ← parameter_names parameters; ret (list_to_set names ∪ used_params)
      | SW_Bind bindings =>
          bindings ← question bindings;
          lift (rust_assert (lr_element_count bindings =? lr_element_count parameters)) ;;
          fold_list bindings (fun _ binding acc =>
            b ← binding_which m binding;
            match b with BW_Unbound => ret acc | BW_Type t => t ← question t; used_params_of_type t acc end) used_params
      end
  end.
Fixpoint used_params_of_brand (fuel : nat) (scopes : gmap Z StructReader) (node_id : Z) (used_params : gset Str) :
    ST ReadLimiter (gset Str) :=
  match fuel with
  | O => lift OutOfFuel
  | S fuel =>
      match node_map ctx !! node_id with
      | None => ret used_params
      | Some node =>
          parameters ← get_parameters m tables node;
          used_params ← used_params_of_scope (scopes !! node_id) parameters used_params;
          id ← lift (node_get_scope_id m node);
          used_params_of_brand fuel scopes id used_params
      end
  end.
End used.

Fixpoint used_params_of_type (fuel : nat) (ty : StructReader) (used_params : gset Str) : ST ReadLimiter (gset Str) :=
  match fuel with
  | O => lift OutOfFuel
  | S fuel =>
      w ← lift (type_which m ty);
      match w with
      | TW_List ls => et ← get_element_type m ls; used_params_of_type fuel et used_params
      | TW_Enum x | TW_Struct x | TW_Interface x =>
          id ← lift (type_get_type_id m x);
          brand ← type_get_brand m x;
          scopes ← brand_scopes brand;
          used_params_of_brand (used_params_of_type fuel) (S fuel) scopes id used_params
      | TW_AnyPointer ap =>
          w ← lift (any_pointer_which m ap);
          match w with
          | APW_Parameter def => name ← parameter_string def L_Owned; ret ({[name]} ∪ used_params)
          | _ => ret used_params
          end
      | _ => ret used_params
      end
  end.
Fixpoint used_params_of_group (fuel : nat) (group_id : Z) (used_params : gset Str) : ST ReadLimiter (gset Str) :=
  match fuel with
  | O => lift OutOfFuel
  | S fuel =>
      node ← node_at group_id;
      st ← struct_of node;
      fields ← struct_get_fields m tables st;
      fold_list fields (fun _ field acc =>
        w ← lift (field_which m field);
        match w with
        | FW_Group group => id ← lift (group_get_type_id m group); used_params_of_group fuel id acc
        | FW_Slot slot => ty ← slot_get_type m slot; used_params_of_type (S fuel) ty acc
        end) used_params
  end.
End codegen.

(** ** The context *)

Section context.
Context `{Unicode} (m : mem) (tables : gmap Z CapTable).

Definition set_scope (id : Z) (names : list Str) (ctx : GeneratorContext) : GeneratorContext :=
  {| node_map := node_map ctx; scope_map := <[id := names]> (scope_map ctx); node_parents := node_parents ctx;
     capnp_root := capnp_root ctx |}.
Definition set_parent (id parent : Z) (ctx : GeneratorContext) : GeneratorContext :=
  {| node_map := node_map ctx; scope_map := scope_map ctx; node_parents := <[id := parent]> (node_parents ctx);
     capnp_root := capnp_root ctx |}.
Definition add_node (node : StructReader) (id : Z) (ctx : GeneratorContext) : GeneratorContext :=
  {| node_map := <[id := node]> (node_map ctx); scope_map := scope_map ctx; node_parents := node_parents ctx;
     capnp_root := capnp_root ctx |}.

(** The name and the ancestors of a node after its annotations *)
Definition annotated_scope (annotations : ListReader) (ancestors : list Str) (name : Str) : ST ReadLimiter (list Str * Str) :=
  fold_list annotations (fun _ a acc =>
    let '(ancestors, name) := acc in
    id ← lift (annotation_get_id m a);
    if id =? NAME_ANNOTATION_ID then v ← name_annotation_value m tables a; ret (ancestors, chars v)
    else if id =? PARENT_MODULE_ANNOTATION_ID then
      match ancestors with
      | [] => lift Panic
      | head :: _ => parents ← get_parent_module m tables a; ret (head :: parents, name)
      end
    else ret (ancestors, name)) (ancestors, name).
Fixpoint populate_scope_map (fuel : nat) (ctx : GeneratorContext) (ancestors : list Str) (name : Str) (kind : NameKind)
    (node_id : Z) : ST ReadLimiter GeneratorContext :=
  match fuel with
  | O => lift OutOfFuel
  | S fuel =>
      match node_map ctx !! node_id with
      | None => ret ctx
      | Some node =>
          annotations ← node_get_annotations m tables node;
          '(ancestors, name) ← annotated_scope annotations ancestors name;
          let scope_names := ancestors ++ [capnp_name_to_rust_name name kind] in
          let ctx := set_scope node_id scope_names ctx in
          nested ← get_nested_nodes m tables node;
          ctx ← fold_list nested (fun _ nested_node ctx =>
            id ← lift (nested_node_get_id m nested_node);
            match node_map ctx !! id with
            | None => ret ctx
            | Some n =>
                w ← keep_result (lift (node_which m n));
                t ← nested_node_get_name m tables nested_node;
                s ← to_str m t;
                populate_scope_map fuel ctx scope_names (chars s) (match w with inl (NW_Enum _) => Verbatim | _ => Module_ end) id
            end) ctx;
          w ← keep_result (lift (node_which m node));
          match w with
          | inl (NW_Struct st) =>
              fields ← struct_get_fields m tables st;
              fold_list fields (fun _ field ctx =>
                w ← keep_result (lift (field_which m field));
                match w with
                | inl (FW_Group group) =>
                    name ← get_field_name m tables field;
                    id ← lift (group_get_type_id m group);
                    populate_scope_map fuel ctx scope_names (chars name) Module_ id
                | _ => ret ctx
                end) ctx
          | _ => ret ctx
          end
      end
  end.

(** [Path::file_stem]: the last component without its extension *)
Fixpoint components (cur s : Str) : list Str :=
  match s with
  | [] => [rev cur]
  | 47 :: s => rev cur :: components [] s
  | c :: s => components (c :: cur) s
  end.
Definition normal_components (path : Str) : list Str :=
  List.filter (fun c => negb (bool_decide (c = [] \/ c = str "."))) (components [] path).
(** The part of a name before its last dot; [seen] is what precedes, reversed. *)
Fixpoint before_last_dot (seen s : Str) : option Str :=
  match s with
  | [] => None
  | c :: s => match before_last_dot (c :: seen) s with Some x => Some x | None => if c =? 46 then Some (rev seen) else None end
  end.
Definition file_stem (path : Str) : option Str :=
  match last (normal_components path) with
  | None => None
  | Some name =>
      if bool_decide (name = str "..") then None
      else Some (match before_last_dot [] name with None | Some [] => name | Some stem => stem end)
  end.
Definition path_to_stem_string (path : Str) : ST ReadLimiter Str :=
  match file_stem path with Some stem => ret stem | None => failed end.

(** [format!("{}_capnp", stem.replace('-', "_"))] *)
Definition file_module (stem : Str) : Str := map (fun c => if c =? 45 then underscore else c) stem ++ str "_capnp".

(** The anonymous structs of an interface's methods get it as their parent. *)
Definition adopt (id parent : Z) (ctx : GeneratorContext) : GeneratorContext :=
  match node_parents ctx !! id with Some 0 => set_parent id parent ctx | _ => ctx end.
Definition adopt_methods (node : StructReader) (ctx : GeneratorContext) : ST ReadLimiter GeneratorContext :=
  w ← keep_result (lift (node_which m node));
  match w with
  | inl (NW_Interface i) =>
      id ← lift (node_get_id m node);
      methods ← get_methods m tables i;
      fold_list methods (fun _ method ctx =>
        p ← lift (get_param_struct_type m method);
        r ← lift (get_result_struct_type m method);
        ret (adopt r id (adopt p id ctx))) ctx
  | _ => ret ctx
  end.
Definition populate_file (fuel : nat) (default_scope : list Str) (crates_provide : gmap Z Str) (file : StructReader)
    (ctx : GeneratorContext) : ST ReadLimiter GeneratorContext :=
  id ← lift (requested_file_get_id m file);
  imports ← get_imports m tables file;
  ctx ← fold_list imports (fun _ import ctx =>
    t ← import_get_name m tables import;
    name ← to_str m t;
    stem ← path_to_stem_string (chars name);
    import_id ← lift (import_get_id m import);
    let scope := match crates_provide !! import_id with Some krate => [str "::" ++ krate] | None => default_scope end in
    populate_scope_map fuel ctx scope (file_module stem) Verbatim import_id) ctx;
  t ← get_filename m tables file;
  name ← to_str m t;
  stem ← path_to_stem_string (chars name);
  populate_scope_map fuel ctx default_scope (file_module stem) Verbatim id.

(** [GeneratorContext::new_from_code_generation_command] *)
Definition new_context (fuel : nat) (request : StructReader) (default_parent_module : list Str) (root : Str)
    (crates_provide : gmap Z Str) : ST ReadLimiter GeneratorContext :=
  let ctx := {| node_map := ∅; scope_map := ∅; node_parents := ∅; capnp_root := root |} in
  let default_scope := str "crate" :: default_parent_module in
  nodes ← get_nodes m tables request;
  ctx ← fold_list nodes (fun _ node ctx =>
    id ← lift (node_get_id m node);
    scope ← lift (node_get_scope_id m node);
    ret (set_parent id scope (add_node node id ctx))) ctx;
  nodes ← get_nodes m tables request;
  ctx ← fold_list nodes (fun _ node ctx => adopt_methods node ctx) ctx;
  files ← get_requested_files m tables request;
  fold_list files (fun _ file ctx => populate_file fuel default_scope crates_provide file ctx) ctx.
End context.
End Codegen.
