(* ===== verification/CodegenProps.v ===== *)
(** * Theorems about the code generator

    The names it gives to modules, and the tables of a struct that it emits:
    they are what reflection (schema.rs) needs to find fields. *)

From S2P Require Import Prelude ReadLimiter Segments Mem WirePointer Arena Readers Introspect TypedLists TypedPointers.
From S2P Require Import ReadingProps SchemaCapnp Schema DynamicSafe CodegenText Codegen DynamicProps.
From coqutil Require Import Byte.
From stdpp Require Import gmap list strings sorting.
#[local] Open Scope Z_scope.
#[local] Open Scope rust_scope.
Import TypedLists TypedPointers Introspect SchemaCapnp Schema CodegenText Codegen.

(** ** Sorting *)

Section sorting.
Context {X : Type} (before : X -> X -> bool).
Lemma insert_by_perm x l : insert_by before x l ≡ₚ x :: l.
Proof. induction l as [|y l IH]; [done|]. cbn. destruct (before y x); [|done]. rewrite IH. apply Permutation_swap. Qed.
Lemma sort_by_perm l : sort_by before l ≡ₚ l.
Proof. induction l as [|x l IH]; [done|]. cbn. by rewrite insert_by_perm, IH. Qed.
End sorting.

Definition name_lt (a b : list byte * Z) : Prop := bytes_compare a.1 b.1 = Lt.
Lemma insert_name_sorted x l : StronglySorted name_lt l -> (forall y, y ∈ l -> y.1 <> x.1) ->
  StronglySorted name_lt (insert_by name_before x l).
Proof.
  induction 1 as [|y l Hl IH Hy]; intros Hx; cbn; [by repeat constructor|].
  destruct (name_before y x) eqn:E; unfold name_before in E.
  - constructor; [apply IH; intros z Hz; apply Hx; set_solver|]. rewrite insert_by_perm. constructor; [|done].
    unfold name_lt. by destruct (bytes_compare y.1 x.1).
  - assert (Hlt : name_lt x y).
    { unfold name_lt. rewrite (bytes_compare_antisym y.1). destruct (bytes_compare y.1 x.1) eqn:Ec; try done.
      apply bytes_compare_eq in Ec. exfalso. by apply (Hx y); [set_solver|]. }
    constructor; [by constructor|]. constructor; [done|]. eapply Forall_impl; [exact Hy|]. intros z Hz. by eapply bytes_compare_trans.
Qed.
Lemma sort_name_sorted l : NoDup (l.*1) -> StronglySorted name_lt (sort_by name_before l).
Proof.
  induction l as [|x l IH]; intros Hd; cbn; [constructor|]. apply NoDup_cons in Hd as [Hx Hd].
  apply (insert_name_sorted x (sort_by name_before l)); [by apply IH|]. intros y Hy E. apply Hx. rewrite sort_by_perm in Hy. rewrite <- E.
  by apply list_elem_of_fmap_2.
Qed.
Lemma strongly_sorted_lookup {X} (R : X -> X -> Prop) l : StronglySorted R l -> forall j k a b, (j < k)%nat ->
  l !! j = Some a -> l !! k = Some b -> R a b.
Proof.
  induction 1 as [|x l Hl IH Hx]; intros [|j] [|k] a b Hjk Ha Hb; try done; try lia; cbn in Ha, Hb.
  - injection Ha as ->. rewrite Forall_forall in Hx. by eapply Hx, list_elem_of_lookup_2.
  - apply (IH j k); [lia|done|done].
Qed.

(** ** The table of names *)

(** The names of the fields, each with its index *)
Definition numbered (names : list (list byte)) : list (list byte * Z) := imap (fun i n => (n, Z.of_nat i)) names.

Lemma numbered_lookup names k : numbered names !! k = (fun n => (n, Z.of_nat k)) <$> names !! k.
Proof. apply list_lookup_imap. Qed.
Lemma numbered_names names : (numbered names).*1 = names.
Proof. apply list_eq. intros k. rewrite list_lookup_fmap, numbered_lookup. by destruct (names !! k). Qed.
Lemma numbered_elem names n i : (n, i) ∈ numbered names <-> 0 <= i /\ names !! Z.to_nat i = Some n.
Proof.
  rewrite list_elem_of_lookup. setoid_rewrite numbered_lookup. split.
  - intros (k & E). destruct (names !! k) eqn:Ek; [|done]. injection E as <- <-. by rewrite Nat2Z.id; split; [lia|].
  - intros [Hi E]. exists (Z.to_nat i). rewrite E. cbn. by rewrite Z2Nat.id.
Qed.
Lemma sorted_table_lookup names k n i : sort_by name_before (numbered names) !! k = Some (n, i) ->
  0 <= i /\ names !! Z.to_nat i = Some n.
Proof. intros E. apply list_elem_of_lookup_2 in E. rewrite sort_by_perm in E. by apply numbered_elem in E. Qed.

Section names_found.
Context `{GeneratedCode} (m : mem) (tables : gmap Z CapTable) (s : StructSchema) (fl : FieldList) (names : list (list byte)).

(** The fields of a list have the names, in order. *)
Definition fields_named : Prop := forall i name, names !! i = Some name ->
  exists f, FieldList_get fl (Z.of_nat i) = Ok f /\ forall l, field_name m tables f l = (Ok name, l).

Definition field_number (i : Z) : Field :=
  match FieldList_get fl i with
  | Ok f => f | _ => {| field_proto := StructReader_new_default; index := i; ty := new_base BT_Void; parent := s |} end.
Definition named_table : Members := (fun p => (p.1, field_number p.2)) <$> sort_by name_before (numbered names).
Lemma named_table_lookup k n f : named_table !! k = Some (n, f) <->
  exists i, sort_by name_before (numbered names) !! k = Some (n, i) /\ f = field_number i.
Proof.
  unfold named_table, Members. setoid_rewrite list_lookup_fmap_Some. split.
  - intros ([n' i] & [= -> ->] & E). by exists i.
  - intros (i & E & ->). by exists (n, i).
Qed.

Lemma field_number_get i name : fields_named -> names !! i = Some name ->
  FieldList_get fl (Z.of_nat i) = Ok (field_number (Z.of_nat i)) /\
  forall l, field_name m tables (field_number (Z.of_nat i)) l = (Ok name, l).
Proof. intros Hn E. destruct (Hn i name E) as (f & Hf & Hl). unfold field_number. by rewrite Hf. Qed.
Lemma named_table_ok : fields_named -> members_by_name (statics s) = map snd (sort_by name_before (numbered names)) ->
  names_table m tables s fl named_table.
Proof.
  intros Hn Ht. unfold names_table, named_table. rewrite Ht. split; [by rewrite length_fmap, length_map|]. intros k n f E.
  apply named_table_lookup in E as (i & Ek & ->).
  exists i. change (map snd ?l) with (snd <$> l). rewrite list_lookup_fmap, Ek. split; [done|]. destruct (sorted_table_lookup _ _ _ _ Ek) as [Hi E].
  destruct (field_number_get _ _ Hn E) as [Hg Hl]. rewrite Z2Nat.id in Hg, Hl by done. done.
Qed.
Lemma named_table_sorted : NoDup names -> sorted named_table.
Proof.
  intros Hd j k [a f] [b g] Hjk (i & Ex & _)%named_table_lookup (i' & Ey & _)%named_table_lookup.
  assert (Hs : StronglySorted name_lt (sort_by name_before (numbered names))) by (apply sort_name_sorted; by rewrite numbered_names).
  exact (strongly_sorted_lookup _ _ Hs _ _ _ _ Hjk Ex Ey).
Qed.
Lemma scan_named i name : NoDup names -> names !! i = Some name -> scan name named_table = Some (field_number (Z.of_nat i)).
Proof.
  intros Hd E. assert (Hin : (name, Z.of_nat i) ∈ sort_by name_before (numbered names)).
  { rewrite sort_by_perm. apply numbered_elem. by rewrite Nat2Z.id; split; [lia|]. }
  apply list_elem_of_lookup in Hin as [k Hk]. apply (scan_present _ _ k); [by apply named_table_sorted|].
  apply named_table_lookup. by eexists.
Qed.
Lemma scan_unnamed name : name ∉ names -> scan name named_table = None.
Proof.
  intros Hn. apply scan_absent. intros k n f E ->. apply Hn. apply named_table_lookup in E as (i & Ek & _). apply sorted_table_lookup in Ek as [_ E].
  by eapply list_elem_of_lookup_2.
Qed.
End names_found.

(** ** The tables of discriminants *)

(** The discriminants of the fields of a list, in order *)
Definition discriminants_are (m : mem) (fs : ListReader) (discs : list Z) : Prop :=
  length discs = Z.to_nat (lr_element_count fs) /\
  forall i d, discs !! i = Some d -> exists f, Schema.struct_list_get fs (Z.of_nat i) = Ok f /\ get_discriminant_value m f = Ok d.
(** What the loop collects from fields with these discriminants, the first
    of them number [i] *)
Fixpoint nonunion_from (i : Z) (discs : list Z) : list Z :=
  match discs with
  | [] => []
  | d :: discs => (if d =? NO_DISCRIMINANT then [i] else []) ++ nonunion_from (i + 1) discs
  end.
Fixpoint union_from (i : Z) (discs : list Z) : list (Z * Z) :=
  match discs with
  | [] => []
  | d :: discs => (if d =? NO_DISCRIMINANT then [] else [(d, i)]) ++ union_from (i + 1) discs
  end.

Lemma nonunion_from_elem discs : forall i j, j ∈ nonunion_from i discs <->
  exists k, j = i + Z.of_nat k /\ discs !! k = Some NO_DISCRIMINANT.
Proof.
  induction discs as [|d discs IH]; intros i j; cbn [nonunion_from].
  - split; [by intros ?%elem_of_nil|]. by intros (k & _ & E).
  - rewrite elem_of_app, IH. split.
    + intros [E|(k & -> & E)]; [|exists (S k); split; [lia|done]].
      destruct (Z.eqb_spec d NO_DISCRIMINANT) as [->|]; [|by apply elem_of_nil in E].
      apply list_elem_of_singleton in E as ->. exists 0%nat. split; [lia|done].
    + intros ([|k] & -> & E); [left|right; exists k; split; [lia|done]]. injection E as ->. rewrite Z.eqb_refl.
      apply list_elem_of_singleton. lia.
Qed.
Lemma union_from_elem discs : forall i d j, (d, j) ∈ union_from i discs <->
  d <> NO_DISCRIMINANT /\ exists k, j = i + Z.of_nat k /\ discs !! k = Some d.
Proof.
  induction discs as [|e discs IH]; intros i d j; cbn [union_from].
  - split; [by intros ?%elem_of_nil|]. by intros (_ & k & _ & E).
  - rewrite elem_of_app, IH. split.
    + intros [E|(Hd & k & -> & E)]; [|split; [done|]; exists (S k); split; [lia|done]].
      destruct (Z.eqb_spec e NO_DISCRIMINANT) as [->|]; [by apply elem_of_nil in E|].
      apply list_elem_of_singleton in E as [= -> ->]. split; [done|]. exists 0%nat. split; [lia|done].
    + intros (Hd & [|k] & -> & E); [left|right; split; [done|]; exists k; split; [lia|done]]. injection E as ->.
      rewrite (proj2 (Z.eqb_neq _ _) Hd). apply list_elem_of_singleton. f_equal. lia.
Qed.
Lemma dense_lookup l : forall idx k d j, discriminants_dense idx l = true -> l !! k = Some (d, j) -> d = idx + Z.of_nat k.
Proof.
  induction l as [|[e i] l IH]; intros idx [|k] d j Hd E; try done; cbn in Hd, E; apply andb_prop in Hd as [H1%Z.eqb_eq H2].
  - injection E as -> ->. lia.
  - rewrite (IH _ _ _ _ H2 E). lia.
Qed.
(** In a dense table of members a member is where its discriminant says. *)
Lemma dense_table discs d i : 0 <= d -> discriminants_dense 0 (sort_by pair_before (union_from 0 discs)) = true ->
  map snd (sort_by pair_before (union_from 0 discs)) !! Z.to_nat d = Some i <->
  d <> NO_DISCRIMINANT /\ 0 <= i /\ discs !! Z.to_nat i = Some d.
Proof.
  intros Hd Hdense. change (map snd ?l) with (snd <$> l). rewrite list_lookup_fmap_Some. split.
  - intros ([e j] & E & Hk). cbn in E. subst j. pose proof (dense_lookup _ _ _ _ _ Hdense Hk) as ->.
    apply list_elem_of_lookup_2 in Hk. rewrite sort_by_perm in Hk. apply union_from_elem in Hk as (Hne & k & -> & Hk).
    replace (0 + Z.of_nat (Z.to_nat d)) with d in * by lia. split; [done|]. split; [lia|]. by replace (Z.to_nat _) with k by lia.
  - intros (Hne & Hi & Hk). assert (Hin : (d, i) ∈ sort_by pair_before (union_from 0 discs)).
    { rewrite sort_by_perm. apply union_from_elem. split; [done|]. exists (Z.to_nat i). split; [lia|done]. }
    apply list_elem_of_lookup in Hin as [k Hin]. pose proof (dense_lookup _ _ _ _ _ Hdense Hin) as ->.
    exists (0 + Z.of_nat k, i). split; [done|]. by replace (Z.to_nat _) with k by lia.
Qed.

Section members.
Context (m : mem) (tables : gmap Z CapTable).

Lemma members_loop fs n : forall discs i non un l,
  length discs = n ->
  (forall k d, discs !! k = Some d -> exists f, Schema.struct_list_get fs (i + Z.of_nat k) = Ok f /\ get_discriminant_value m f = Ok d) ->
  fold_from n i fs (fun index field acc =>
    let '(nonunion, union) := acc in
    disc ← lift (get_discriminant_value m field);
    if disc =? NO_DISCRIMINANT then ret (nonunion ++ [index], union) else ret (nonunion, union ++ [(disc, index)])) (non, un) l =
  (Ok (non ++ nonunion_from i discs, un ++ union_from i discs), l) :> (_ * ReadLimiter).
Proof.
  induction n as [|n IH]; intros [|d discs] i non un l Hn Hd; try discriminate; cbn [fold_from nonunion_from union_from].
  { by rewrite !app_nil_r. }
  injection Hn as Hn. destruct (Hd 0%nat d eq_refl) as (f & Hf & Hv). rewrite Z.add_0_r in Hf.
  assert (Hrest : forall k d, discs !! k = Some d -> exists f, Schema.struct_list_get fs (i + 1 + Z.of_nat k) = Ok f /\
    get_discriminant_value m f = Ok d).
  { intros k e E. destruct (Hd (S k) e E) as (g & Hg & Hge). exists g. split; [|done]. rewrite <- Hg. f_equal. lia. }
  rewrite (lift_bind_ok _ _ _ _ Hf). cbv beta iota. rewrite ST_bind_assoc, (lift_bind_ok _ _ _ _ Hv).
  destruct (d =? NO_DISCRIMINANT); rewrite ST_ret_bind, (IH discs) by done; do 2 f_equal; cbn [app]; f_equal;
    rewrite ?app_nil_r, <- ?app_assoc; done.
Qed.
(** The tables of a struct whose fields have these discriminants *)
Lemma tables_of_discriminants node st fs discs l l1 : node_which m node = Ok (NW_Struct st) ->
  struct_get_fields m tables st l = (Ok fs, l1) -> discriminants_are m fs discs ->
  members_by_discriminant_tables m tables node l =
    (if discriminants_dense 0 (sort_by pair_before (union_from 0 discs))
     then (Ok (nonunion_from 0 discs, map snd (sort_by pair_before (union_from 0 discs))), l1) else (Panic, l1)).
Proof.
  intros Hw Hf [Hn Hd]. unfold members_by_discriminant_tables, struct_of, members_of_union, fold_list.
  rewrite ST_bind_assoc, (lift_bind_ok _ _ _ _ Hw). cbv beta iota. rewrite ST_ret_bind, ST_bind_assoc, (ST_bind_ok _ _ _ _ _ Hf).
  rewrite (ST_bind_ok _ _ _ _ _ (members_loop fs _ discs 0 [] [] l1 Hn Hd)). cbv zeta beta iota. cbn [app].
  by destruct (discriminants_dense _ _).
Qed.
Lemma table_of_names `{Unicode} node st names l l1 : node_which m node = Ok (NW_Struct st) ->
  named_members m tables st l = (Ok names, l1) ->
  members_by_name_table m tables node l = (Ok (map snd (sort_by name_before names)), l1).
Proof.
  intros Hw Hn. unfold members_by_name_table, struct_of. rewrite ST_bind_assoc, (lift_bind_ok _ _ _ _ Hw). cbv beta iota.
  by rewrite ST_ret_bind, (ST_bind_ok _ _ _ _ _ Hn).
Qed.
End members.

(** ** Properties *)

(** The module that a node becomes is never a keyword of [RUST_KEYWORDS], and
    two names of a schema (ASCII, no underscore) become the same module only
    when they are equal but for the case of the first letter: so siblings,
    whose names Cap'n Proto has begin with an upper case letter, never
    clash. *)
Lemma module_names_distinct `{Unicode} (s t : Str) : schema_name s -> schema_name t ->
  module_name s ∉ RUST_KEYWORDS /\
  (module_name s = module_name t ->
     map to_ascii_lowercase (firstn 1 s) = map to_ascii_lowercase (firstn 1 t) /\ skipn 1 s = skipn 1 t).
Proof.
  intros Hs Ht. split; [apply module_name_not_keyword|]. intros E. by apply snake_inj, module_name_inj.
Qed.

(** C38: The code generator and reflection agree on names.  When the table
    MEMBERS_BY_NAME that the code generator writes for a struct is what the
    program has, and the fields read at run time have the names that the code
    generator read, all different, then looking a name up finds the field
    that has it, and finds none when no field has it. *)
Theorem generated_names_found `{Unicode, GeneratedCode} (m1 : mem) (tables1 : gmap Z CapTable) (node st : StructReader)
    (l1 l1' l1'' : ReadLimiter) (m : mem) (tables : gmap Z CapTable) (s : StructSchema) (fl : FieldList)
    (names : list (list byte)) :
  node_which m1 node = Ok (NW_Struct st) ->
  named_members m1 tables1 st l1 = (Ok (numbered names), l1') ->
  members_by_name_table m1 tables1 node l1 = (Ok (members_by_name (statics s)), l1'') ->
  NoDup names ->
  (forall l, get_fields m tables s l = (Ok fl, l)) -> fields_named m tables fl names ->
  forall name l,
    (forall i, names !! i = Some name ->
       exists f, FieldList_get fl (Z.of_nat i) = Ok f /\ find_field_by_name m tables s name l = (Ok (Some f), l)) /\
    (name ∉ names -> find_field_by_name m tables s name l = (Ok None, l)).
Proof.
  intros Hw Hm Ht Hd Hfl Hn name l. rewrite (table_of_names _ _ _ _ _ _ _ Hw Hm) in Ht. injection Ht as Ht _. symmetry in Ht.
  pose proof (named_table_ok m tables s fl names Hn Ht) as Hok. pose proof (named_table_sorted s fl names Hd) as Hs.
  assert (Hfind : find_field_by_name m tables s name l = (Ok (scan name (named_table s fl names)), l)).
  { unfold find_field_by_name. rewrite (ST_bind_ok _ _ _ _ _ (Hfl l)). pose proof (proj1 Hok) as Hlen.
    apply (search_by_name_scan m tables s fl _ name Hok Hs); [lia|lia|lia|]. intros k f Hk. apply lookup_lt_Some in Hk. lia. }
  rewrite Hfind. split.
  - intros i Hi. exists (field_number s fl (Z.of_nat i)). rewrite (scan_named s fl names i name Hd Hi). split; [|done].
    apply (field_number_get m tables s fl names i name Hn Hi).
  - intros Ha. by rewrite scan_unnamed.
Qed.

(** The code generator and reflection agree on unions.  When the tables that
    the code generator writes for a struct are what the program has, and the
    fields read at run time have the discriminants that the code generator
    read, looking a discriminant up finds a field with it, which is the only
    one, and finds none when no field has it; and the fields that are not
    members of the union are those listed as such. *)
Lemma generated_discriminants_found `{GeneratedCode} (m1 : mem) (tables1 : gmap Z CapTable) (node st : StructReader)
    (fs : ListReader) (discs : list Z) (l1 l1' l1'' : ReadLimiter) (m : mem) (tables : gmap Z CapTable) (s : StructSchema)
    (fl : FieldList) :
  node_which m1 node = Ok (NW_Struct st) -> struct_get_fields m1 tables1 st l1 = (Ok fs, l1') ->
  discriminants_are m1 fs discs ->
  members_by_discriminant_tables m1 tables1 node l1 =
    (Ok (nonunion_members (statics s), members_by_discriminant (statics s)), l1'') ->
  (forall l, get_fields m tables s l = (Ok fl, l)) -> discriminants_are m (fields fl) discs ->
  (forall i, 0 <= i < Z.of_nat (length discs) -> exists f, FieldList_get fl i = Ok f) ->
  (forall i, i ∈ nonunion_members (statics s) <-> 0 <= i /\ discs !! Z.to_nat i = Some NO_DISCRIMINANT) /\
  forall d l, 0 <= d < NO_DISCRIMINANT ->
    (forall i, discs !! i = Some d -> exists f, FieldList_get fl (Z.of_nat i) = Ok f /\
       get_discriminant_value m (field_proto f) = Ok d /\ get_field_by_discriminant m tables s d l = (Ok (Some f), l)) /\
    (d ∉ discs -> get_field_by_discriminant m tables s d l = (Ok None, l)).
Proof.
  intros Hw Hf Hd Ht Hfl Hdr Hget. rewrite (tables_of_discriminants _ _ _ _ _ _ _ _ Hw Hf Hd) in Ht.
  destruct (discriminants_dense _ _) eqn:Edense; [|done]. injection Ht as Hnon Hun _. rewrite <- Hnon. split.
  { intros i. rewrite nonunion_from_elem. split.
    - intros (k & -> & E). rewrite Z.add_0_l, Nat2Z.id. by split; [lia|].
    - intros [Hi E]. exists (Z.to_nat i). split; [lia|done]. }
  intros d l Hb. unfold get_field_by_discriminant. rewrite <- Hun. split.
  - intros i Hi. assert (E : map snd (sort_by pair_before (union_from 0 discs)) !! Z.to_nat d = Some (Z.of_nat i)).
    { apply dense_table; [lia|done|]. rewrite Nat2Z.id. repeat split; [lia|lia|done]. }
    rewrite E, (ST_bind_ok _ _ _ _ _ (Hfl l)). destruct (Hget (Z.of_nat i)) as [f Hgf]; [apply lookup_lt_Some in Hi; lia|].
    exists f. rewrite (lift_bind_ok _ _ _ _ Hgf). split; [done|]. split; [|done].
    destruct (proj2 Hdr i d Hi) as (p & Hp & Hv). unfold FieldList_get in Hgf. rewrite Hp in Hgf. cbn in Hgf.
    destruct (call_field_types _ _); try done. cbn in Hgf. injection Hgf as <-. done.
  - intros Ha. destruct (_ !! _) as [i|] eqn:E; [|done]. apply dense_table in E as (_ & _ & E); [|lia|done].
    exfalso. by eapply Ha, list_elem_of_lookup_2.
Qed.

(** ** Witnesses *)

#[local] Instance ascii_only : Unicode := {| wide_uppercase _ := false; wide_alphanumeric _ := false |}.
#[local] Existing Instance pair_code.
Definition pair_names : list (list byte) := [[Byte.x61]; [Byte.x62]; [Byte.x63]].
Definition pair_struct : StructReader := proto run_schema.

Lemma pair_fields_named : fields_named pair_mem ∅ pair_fields pair_names.
Proof.
  intros [|[|[|i]]] name E; [| | |done]; apply some_inj in E as ->;
    [exists (pair_member 0)|exists (pair_member 1)|exists (pair_member 2)]; (split; [reflexivity|]); by intros [].
Qed.
Definition pair_st : StructReader :=
  match node_which pair_mem pair_struct with Ok (NW_Struct st) => st | _ => StructReader_new_default end.
Lemma pair_named : named_members pair_mem ∅ pair_st pair_limiter = (Ok (numbered pair_names), pair_limiter).
Proof. vm_compute. reflexivity. Qed.
Lemma pair_no_d : [Byte.x64] ∉ pair_names.
Proof. set_unfold; intuition discriminate. Qed.
Lemma generated_names_found_witness :
  (exists f, FieldList_get pair_fields 1 = Ok f /\
     find_field_by_name pair_mem ∅ run_schema [Byte.x62] pair_limiter = (Ok (Some f), pair_limiter)) /\
  find_field_by_name pair_mem ∅ run_schema [Byte.x64] pair_limiter = (Ok None, pair_limiter).
Proof.
  assert (Hd : NoDup pair_names) by (repeat constructor; set_unfold; intuition discriminate).
  pose proof (generated_names_found pair_mem ∅ pair_struct pair_st pair_limiter _ _ pair_mem ∅ run_schema pair_fields pair_names
    eq_refl pair_named (table_of_names pair_mem ∅ pair_struct pair_st _ _ _ eq_refl pair_named) Hd pair_fields_are pair_fields_named) as Hall.
  split; [|exact (proj2 (Hall [Byte.x64] pair_limiter) pair_no_d)].
  exact (proj1 (Hall [Byte.x62] pair_limiter) 1%nat eq_refl).
Defined.

(** A program with a union: [struct Choice { x @0; union { y @1; z @2; } w @3 }] with the discriminant
    of [y] after that of [z]: its node is 35 words at 8192. *)

Definition choice_schema : RawBrandedStructSchema := {| generic := 1; field_types := 2; annotation_types := 3 |}.
Definition choice_words : list Z := [
  0x0004000500000000;
  0; 0x0001000100000000; 0; 0x0002000000000002; 0; 0; 0; 0; 0x000000c700000001;
  (* 4 fields of 2 words of data and 4 pointers *)
  0x0004000200000010;
  0; 0; 0; 0; 0; 0;
  0xfffe0000; 0; 0; 0; 0; 0;
  0xffff0000; 0; 0; 0; 0; 0;
  0; 0; 0; 0; 0; 0].
Definition choice_mem : mem :=
  write_bytes (write_bytes ∅ zero_pointer (repeat Byte.x00 8)) 8192 (bytes_of_words choice_words).
#[local] Instance choice_code : GeneratedCode := {|
  raw_struct_schema _ := {| arena := {| words_ptr := 8192; words_len := 35 |}; nonunion_members := [0; 3];
                            members_by_discriminant := [2; 1]; members_by_name := [0; 1; 2; 3] |};
  call_field_types _ i := Ok (new_base BT_Void);
  call_annotation_types _ _ _ := Panic
|}.
Definition choice_node : StructSchema :=
  match StructSchema_new choice_mem choice_schema pair_limiter with
  | (Ok s, _) => s | _ => {| raw := choice_schema; proto := StructReader_new_default |} end.
Definition choice_fields : FieldList :=
  match get_fields choice_mem ∅ choice_node pair_limiter with
  | (Ok fl, _) => fl | _ => {| fields := ListReader_new_default; fields_parent := choice_node |} end.
Example choice_tables : members_by_discriminant_tables choice_mem ∅ (proto choice_node) pair_limiter = (Ok ([0; 3], [2; 1]), pair_limiter).
Proof. reflexivity. Qed.

Lemma choice_statics : members_by_discriminant_tables choice_mem ∅ (proto choice_node) pair_limiter =
  (Ok (nonunion_members (statics choice_node), members_by_discriminant (statics choice_node)), pair_limiter).
Proof. reflexivity. Qed.
Definition choice_discriminants : list Z := [NO_DISCRIMINANT; 1; 0; NO_DISCRIMINANT].
Definition choice_member (i : Z) : StructReader :=
  match Schema.struct_list_get (fields choice_fields) i with Ok f => f | _ => StructReader_new_default end.
Lemma choice_discriminants_are : discriminants_are choice_mem (fields choice_fields) choice_discriminants.
Proof.
  split; [reflexivity|]. intros [|[|[|[|i]]]] d E; [| | | |done]; apply some_inj in E as ->;
    [exists (choice_member 0)|exists (choice_member 1)|exists (choice_member 2)|exists (choice_member 3)];
    (split; [reflexivity|vm_compute; reflexivity]).
Qed.
Lemma choice_fields_are l : get_fields choice_mem ∅ choice_node l = (Ok choice_fields, l).
Proof. by destruct l. Qed.
Lemma choice_fields_exist i : 0 <= i < Z.of_nat (length choice_discriminants) -> exists f, FieldList_get choice_fields i = Ok f.
Proof.
  intros Hi. change (Z.of_nat (length choice_discriminants)) with 4 in Hi.
  exists {| field_proto := choice_member i; index := i; ty := new_base BT_Void; parent := choice_node |}.
  assert (i = 0 \/ i = 1 \/ i = 2 \/ i = 3) as [->|[->|[->| ->]]] by lia; reflexivity.
Qed.
Definition choice_st : StructReader :=
  match node_which choice_mem (proto choice_node) with Ok (NW_Struct st) => st | _ => StructReader_new_default end.
Lemma choice_struct : node_which choice_mem (proto choice_node) = Ok (NW_Struct choice_st).
Proof. reflexivity. Qed.
Lemma choice_list : struct_get_fields choice_mem ∅ choice_st pair_limiter = (Ok (fields choice_fields), pair_limiter).
Proof. reflexivity. Qed.
Lemma choice_0 : 0 <= 0 < NO_DISCRIMINANT.
Proof. done. Qed.
Lemma choice_2 : 0 <= 2 < NO_DISCRIMINANT.
Proof. done. Qed.
Lemma choice_no_2 : 2 ∉ choice_discriminants.
Proof. unfold choice_discriminants, NO_DISCRIMINANT. set_unfold. lia. Qed.
Lemma generated_discriminants_found_witness :
  (exists f, FieldList_get choice_fields 2 = Ok f /\ get_discriminant_value choice_mem (field_proto f) = Ok 0 /\
     get_field_by_discriminant choice_mem ∅ choice_node 0 pair_limiter = (Ok (Some f), pair_limiter)) /\
  get_field_by_discriminant choice_mem ∅ choice_node 2 pair_limiter = (Ok None, pair_limiter).
Proof.
  destruct (generated_discriminants_found choice_mem ∅ (proto choice_node) choice_st (fields choice_fields) choice_discriminants
    pair_limiter _ _ choice_mem ∅ choice_node choice_fields choice_struct choice_list choice_discriminants_are choice_statics choice_fields_are
    choice_discriminants_are choice_fields_exist) as [_ Hall].
  split; [exact (proj1 (Hall 0 pair_limiter choice_0) 2%nat eq_refl)|exact (proj2 (Hall 2 pair_limiter choice_2) choice_no_2)].
Defined.

(** The table is sorted by the names that $Rust.name gives, but searched by
    the names of the schema: renaming [a] to [z] moves it behind [b] and [c],
    and a search for [a] does not find it. *)
Definition renamed_code : GeneratedCode := {|
  raw_struct_schema _ := {| arena := {| words_ptr := 8192; words_len := 37 |}; nonunion_members := [0; 1; 2];
                            members_by_discriminant := [];
                            members_by_name := map snd (sort_by name_before [([Byte.x7a], 0); ([Byte.x62], 1); ([Byte.x63], 2)]) |};
  call_field_types _ i := Ok (new_base BT_UInt16);
  call_annotation_types _ _ _ := Panic
|}.
Lemma renamed_field_not_found :
  members_by_name (@statics renamed_code run_schema) = [1; 2; 0] /\
  @find_field_by_name renamed_code pair_mem ∅ run_schema [Byte.x61] pair_limiter = (Ok None, pair_limiter).
Proof. split; reflexivity. Qed.
