(* ===== verification/CodegenFields.v ===== *)
(** * The code generator: accessors of fields (capnpc/src/codegen.rs,
    pointer_constants.rs)

    The text of getters, setters, initialisers, unions and pipelines.  A
    [format!] of the code is [F] with the same template, with the values it
    captures by name as arguments.  Constants of pointer type are encoded by a
    message builder, which is dropped: the memory it used is not kept. *)

From S2P Require Import Prelude Mem ReadLimiter Segments WirePointer Arena Readers Allocators BuilderArena Builders.
From S2P Require Import TypedLists TypedPointers PointerList PointerLists StructList Canonical SchemaCapnp Schema CodegenText Codegen.
From stdpp Require Import gmap list strings.
#[local] Open Scope Z_scope.
#[local] Open Scope rust_scope.
Import Canonicalize TypedLists TypedPointers SchemaCapnp CodegenText Codegen.

Module CodegenFields.

(** [for x in list] over a slice *)
Fixpoint fold_slice {S X A} (body : X -> A -> ST S A) (l : list X) (acc : A) : ST S A :=
  match l with [] => ret acc | x :: l => acc ← body x acc; fold_slice body l acc end.

(** A builder of its own, used and dropped *)
Definition with_builder {X} (h : Heap) (tables : gmap Z CapTable) (allocator : HeapAllocator) (c : B HeapAllocator X) :
    ST ReadLimiter X := fun rl =>
  let w := {| heap := h; warena := BuilderArenaImpl_new allocator; caps := tables; limiter := rl |} in
  let '(r, w') := c w in (r, limiter w').

Section fields.
Context `{Unicode} (h : Heap) (tables : gmap Z CapTable) (ctx : GeneratorContext) (fuel : nat).
#[local] Abbreviation m := (hmem h).

(** [fmt!], and [format!], which does not use the name *)
Definition F (template : string) (args : list Str) : Str := format [(str "capnp", capnp_root ctx)] template args.
Definition L (template : string) (args : list Str) : FormattedText := Line (F template args).
(** [line] *)
Definition plain (s : string) : FormattedText := Line (str s).
Definition angled (args : list Str) : Str := match args with [] => [] | _ => F "<{}>" [join (str ",") args] end.
Definition after_comma (args : list Str) : Str := match args with [] => [] | _ => F ",{}" [join (str ",") args] end.

(** ** Encoded constants (pointer_constants.rs) *)

Fixpoint words_lines (n : nat) (bytes : list byte) : list FormattedText :=
  match n with
  | O => []
  | S n => L "{capnp}::word({}, {}, {}, {}, {}, {}, {}, {})," (map (fun b => decimal (byte.unsigned b)) (firstn 8 bytes)) ::
           words_lines n (skipn 8 bytes)
  end.
(** [set_root] is what [message.set_root(value)] does with the value. *)
Definition word_array_declaration_aux (name : Str) (set_root : PointerBuilder -> B HeapAllocator unit) (total_size : MessageSize)
    (public : bool) : ST ReadLimiter FormattedText :=
  size ← lift (uadd 32 (wrap32 (word_count total_size)) 1);
  allocator ← lift (with_first_segment_words size HeapAllocator_new);
  words ← with_builder h tables allocator (
    root ← builder_root;
    set_root root ;;
    segments ← get_segments_for_output;
    words ← lift (unwrap (head segments));
    ret (slice_bytes words));
  let count := Z.of_nat (length words) / 8 in
  ret (Branch [L "{}static {}: [{capnp}::Word; {}] = [" [if public then str "pub " else []; name; decimal count];
               Indent (Branch (words_lines (Z.to_nat count) words)); plain "];"]).
Definition word_array_declaration (name : Str) (value : AnyReader) (public : bool) : ST ReadLimiter FormattedText :=
  let 'Any value := value in
  size ← PointerReader_total_size m value;
  word_array_declaration_aux name (fun root => copy_from root value false) size public.
Definition node_word_array_declaration (name : Str) (value : StructReader) (public : bool) : ST ReadLimiter FormattedText :=
  size ← StructReader_total_size m value;
  word_array_declaration_aux name (fun root => set_struct root value false) size public.
Definition generate_pointer_constant (styled_name : Str) (typ : StructReader) (value : AnyReader) : ST ReadLimiter FormattedText :=
  ty ← type_string m tables ctx fuel typ L_Owned;
  words ← word_array_declaration (str "WORDS") value false;
  ret (Branch [
    L "pub static {}: {capnp}::constant::Reader<{}> = {{" [styled_name; ty];
    Indent (Branch [
      words;
      L "static ARENA: {capnp}::private::arena::GeneratedCodeArena = {capnp}::private::arena::GeneratedCodeArena::new(&WORDS);" [];
      L "{capnp}::constant::Reader::new(&ARENA)" []]);
    plain "};"]).

(** ** Getters *)

Definition Getter : Type := Str * FormattedText * option FormattedText.

Definition group_getter (group : StructReader) (is_reader is_fn : bool) : ST ReadLimiter Getter :=
  id ← lift (group_get_type_id m group);
  params ← get_params m tables ctx fuel id;
  let params_string := after_comma params in
  the_mod ← get_qualified_module ctx id;
  let result_type :=
    if is_reader then F "{}::Reader<'a{}>" [the_mod; params_string] else F "{}::Builder<'a{}>" [the_mod; params_string] in
  let result_type := if is_fn then F "-> {}" [result_type] else result_type in
  let getter_code := if is_reader then plain "self.reader.into()" else plain "self.builder.into()" in
  ret (result_type, getter_code, None).

(** [primitive_case]; for floats, of the bits *)
Definition primitive_case (typ member offset : Str) (default : Z) : Str :=
  if default =? 0 then F "self.{}.get_data_field::<{}>({})" [member; typ; offset]
  else F "self.{}.get_data_field_mask::<{}>({}, {})" [member; typ; offset; decimal default].

(** Whether the getter gives a [Result], and the type it gives *)
Definition getter_type (raw_type : StructReader) (typ : Str) : ST ReadLimiter (bool * Str) :=
  w ← lift (type_which m raw_type);
  let other :=
    prim ← lift (is_prim m raw_type);
    ret (if prim : bool then (false, typ) else (true, F "{capnp}::Result<{}>" [typ])) in
  match w with
  | TW_Enum _ => ret (true, F "::core::result::Result<{},{capnp}::NotInSchema>" [typ])
  | TW_AnyPointer _ =>
      parameter ← lift (is_parameter m raw_type);
      if negb parameter then ret (false, typ) else other
  | TW_Interface _ => client ← type_string m tables ctx fuel raw_type L_Client; ret (true, F "{capnp}::Result<{}>" [client])
  | _ => other
  end.

(** Text, data, lists and structs: the expression, and the constant of the default *)
Definition pointer_getter (reg_field default_value : StructReader) (default_name member offset : Str) (is_reader : bool) :
    ST ReadLimiter (Str * option FormattedText) :=
  explicit ← lift (get_had_explicit_default m reg_field);
  '(default, default_decl) ← (
    if explicit : bool then
      a ← lift (PointerLists.any_get (PointerList.R (get_pointer_section_as_list default_value)) 0);
      decl ← word_array_declaration default_name a true;
      ret (F "::core::option::Option::Some(&_private::{}[..])" [default_name], Some decl)
    else ret (str "::core::option::Option::None", None));
  ret (if is_reader then
         F "{capnp}::traits::FromPointerReader::get_from_pointer(&self.{}.get_pointer_field({}), {})" [member; offset; default]
       else F "{capnp}::traits::FromPointerBuilder::get_from_pointer(self.{}.get_pointer_field({}), {})" [member; offset; default],
       default_decl).

Definition any_pointer_getter (raw_type : StructReader) (module_string member offset : Str) (is_reader : bool) : outcome Str :=
  parameter ← is_parameter m raw_type;
  Ok (if negb parameter then F "{capnp}::any_pointer::{}::new(self.{}.get_pointer_field({}))" [module_string; member; offset]
      else if is_reader then
        F "{capnp}::traits::FromPointerReader::get_from_pointer(&self.{}.get_pointer_field({}), ::core::option::Option::None)"
          [member; offset]
      else
        F "{capnp}::traits::FromPointerBuilder::get_from_pointer(self.{}.get_pointer_field({}), ::core::option::Option::None)"
          [member; offset]).

(** The expression of the getter, by type and default *)
Definition getter_fragment (reg_field raw_type default_value : StructReader) (default : ValueWhich)
    (typ default_name module_string offset : Str) (is_reader is_fn : bool) : ST ReadLimiter (Str * option FormattedText) :=
  let member := camel_to_snake_case module_string in
  w ← lift (type_which m raw_type);
  match w, default with
  | TW_Void, VW_Void => ret (if is_fn then [] else str "()", None)
  | TW_Bool, VW_Bool b =>
      ret (if b then F "self.{}.get_bool_field_mask({}, true)" [member; offset]
           else F "self.{}.get_bool_field({})" [member; offset], None)
  | TW_Int8, VW_Int8 i | TW_Int16, VW_Int16 i | TW_Int32, VW_Int32 i | TW_Int64, VW_Int64 i
  | TW_Uint8, VW_Uint8 i | TW_Uint16, VW_Uint16 i | TW_Uint32, VW_Uint32 i | TW_Uint64, VW_Uint64 i
  | TW_Float32, VW_Float32 i | TW_Float64, VW_Float64 i => ret (primitive_case typ member offset i, None)
  | TW_Enum _, VW_Enum d =>
      ret (if d =? 0 then F "::core::convert::TryInto::try_into(self.{}.get_data_field::<u16>({}))" [member; offset]
           else F "::core::convert::TryInto::try_into(self.{}.get_data_field_mask::<u16>({}, {}))" [member; offset; decimal d],
           None)
  | TW_Text, VW_Text _ | TW_Data, VW_Data _ | TW_List _, VW_List _ | TW_Struct _, VW_Struct _ =>
      pointer_getter reg_field default_value default_name member offset is_reader
  | TW_Interface _, VW_Interface =>
      ret (F "match self.{}.get_pointer_field({}).get_capability() {{ ::core::result::Result::Ok(c) => ::core::result::Result::Ok({capnp}::capability::FromClientHook::new(c)), ::core::result::Result::Err(e) => ::core::result::Result::Err(e)}}"
             [member; offset], None)
  | TW_AnyPointer _, VW_AnyPointer _ =>
      s ← lift (any_pointer_getter raw_type module_string member offset is_reader); ret (s, None)
  | _, _ => failed
  end.

Definition option_getter (fragment member offset : Str) (is_fallible : bool) : FormattedText :=
  Branch [
    L "if self.{}.is_pointer_field_null({}) {{" [member; offset];
    Indent (if is_fallible then plain "core::result::Result::Ok(core::option::Option::None)"
            else plain "::core::option::Option::None");
    plain "} else {";
    Indent (if is_fallible then L "{}.map(::core::option::Option::Some)" [fragment]
            else L "::core::option::Option::Some({})" [fragment]);
    plain "}"].

Definition slot_getter (field reg_field : StructReader) (is_reader is_fn : bool) : ST ReadLimiter Getter :=
  offset ← lift (slot_get_offset m reg_field);
  let offset := decimal offset in
  let module_string := if is_reader then str "Reader" else str "Builder" in
  let module := if is_reader then L_Reader (str "'a") else L_Builder (str "'a") in
  let member := camel_to_snake_case module_string in
  raw_type ← slot_get_type m reg_field;
  inner_type ← type_string m tables ctx fuel raw_type module;
  default_value ← slot_get_default_value m reg_field;
  default ← value_which m tables default_value;
  name ← get_field_name m tables field;
  let default_name := F "DEFAULT_{}" [snake_to_upper_case (camel_to_snake_case (chars name))] in
  should_get_option ← is_option_field m tables field;
  let typ := if should_get_option : bool then F "Option<{}>" [inner_type] else inner_type in
  '(is_fallible, result_type) ← getter_type raw_type typ;
  let result_type :=
    if is_fn then if bool_decide (result_type = str "()") then [] else F "-> {}" [result_type] else result_type in
  '(fragment, default_decl) ← getter_fragment reg_field raw_type default_value default typ default_name module_string offset is_reader is_fn;
  let getter_code := if should_get_option then option_getter fragment member offset is_fallible else Line fragment in
  ret (result_type, getter_code, default_decl).

Definition getter_text (field : StructReader) (is_reader is_fn : bool) : ST ReadLimiter Getter :=
  w ← lift (field_which m field);
  match w with
  | FW_Group group => group_getter group is_reader is_fn
  | FW_Slot reg_field => slot_getter field reg_field is_reader is_fn
  end.

(** ** Setters and initialisers *)

(** What the arms of [generate_setter] produce: [s_interior] and
    [i_interior] follow the lines that set the discriminant, [initn] is the
    function for a field whose type is a parameter. *)
Record SetterText := {
  s_param : Str;
  s_interior : list FormattedText;
  i_interior : list FormattedText;
  i_params : list Str;
  i_mut : bool;
  return_result : bool;
  initn : option (Str * FormattedText);
  reader_type : option Str;
  builder_type : option Str
}.
Definition only_set (interior : list FormattedText) (ty : Str) : SetterText :=
  {| s_param := str "value"; s_interior := interior; i_interior := []; i_params := []; i_mut := false;
     return_result := false; initn := None; reader_type := Some ty; builder_type := None |}.
Definition set_and_init (interior init : list FormattedText) (params : list Str) (result : bool) (reader builder : Str) : SetterText :=
  {| s_param := str "value"; s_interior := interior; i_interior := init; i_params := params; i_mut := false;
     return_result := result; initn := None; reader_type := Some reader; builder_type := Some builder |}.
Definition only_init (init : list FormattedText) (mut : bool) (ty : Str) : SetterText :=
  {| s_param := str "value"; s_interior := []; i_interior := init; i_params := []; i_mut := mut;
     return_result := false; initn := None; reader_type := None; builder_type := Some ty |}.

Definition set_pointer_line (offset : Str) : FormattedText :=
  L "{capnp}::traits::SetterInput::set_pointer_builder(self.builder.reborrow().get_pointer_field({}), value, false)" [offset].
Definition group_setter (group : StructReader) : ST ReadLimiter SetterText :=
  id ← lift (group_get_type_id m group);
  params ← get_params m tables ctx fuel id;
  the_mod ← get_qualified_module ctx id;
  '(zeroed, initter_mut) ← zero_fields_of_group m tables ctx fuel id false;
  ret (only_init [zeroed; plain "self.builder.into()"] initter_mut (F "{}::Builder<'a{}>" [the_mod; after_comma params])).
Definition bool_setter (reg_field : StructReader) (offset : Str) : ST ReadLimiter SetterText :=
  v ← slot_get_default_value m reg_field;
  d ← prim_default m tables v;
  ret (only_set [match d with
                 | None => L "self.builder.set_bool_field({}, value);" [offset]
                 | Some s => L "self.builder.set_bool_field_mask({}, value, {});" [offset; s]
                 end] (str "bool")).
Definition prim_setter (reg_field typ : StructReader) (offset : Str) : ST ReadLimiter SetterText :=
  tstr ← type_string m tables ctx fuel typ (L_Reader (str "'a"));
  v ← slot_get_default_value m reg_field;
  d ← prim_default m tables v;
  ret (only_set [match d with
                 | None => L "self.builder.set_data_field::<{}>({}, value);" [tstr; offset]
                 | Some s => L "self.builder.set_data_field_mask::<{}>({}, value, {});" [tstr; offset; s]
                 end] tstr).
Definition text_setter (offset : Str) : SetterText :=
  set_and_init
    [L "{capnp}::traits::SetterInput::set_pointer_builder(self.builder.reborrow().get_pointer_field({}), value, false).unwrap()" [offset]]
    [L "self.builder.get_pointer_field({}).init_text(size)" [offset]] [str "size: u32"] false
    (F "impl {capnp}::traits::SetterInput<{capnp}::text::Owned>" []) (F "{capnp}::text::Builder<'a>" []).
Definition data_setter (offset : Str) : SetterText :=
  set_and_init
    [L "self.builder.reborrow().get_pointer_field({}).set_data(value);" [offset]]
    [L "self.builder.get_pointer_field({}).init_data(size)" [offset]] [str "size: u32"] false
    (F "{capnp}::data::Reader<'_>" []) (F "{capnp}::data::Builder<'a>" []).
(** Whether lists of this type have several [SetterInput]s *)
Definition many_inputs (et : TypeWhich) : bool :=
  match et with
  | TW_Void | TW_Bool | TW_Int8 | TW_Int16 | TW_Int32 | TW_Int64 | TW_Uint8 | TW_Uint16 | TW_Uint32 | TW_Uint64
  | TW_Float32 | TW_Float64 | TW_Enum _ | TW_Text => true
  | _ => false
  end.
Definition list_setter (reg_field ls : StructReader) (offset : Str) : ST ReadLimiter SetterText :=
  et ← get_element_type m ls;
  w ← lift (type_which m et);
  mr ← (if many_inputs w then
          t ← slot_get_type m reg_field;
          s ← type_string m tables ctx fuel t L_Owned; ret (F "impl {capnp}::traits::SetterInput<{}>" [s])
        else t ← slot_get_type m reg_field; type_string m tables ctx fuel t (L_Reader (str "'_")));
  t ← slot_get_type m reg_field;
  b ← type_string m tables ctx fuel t (L_Builder (str "'a"));
  ret (set_and_init [set_pointer_line offset]
         [L "{capnp}::traits::FromPointerBuilder::init_pointer(self.builder.get_pointer_field({}), size)" [offset]]
         [str "size: u32"] true mr b).
Definition enum_setter (reg_field e : StructReader) (offset : Str) : ST ReadLimiter SetterText :=
  id ← lift (type_get_type_id m e);
  the_mod ← get_qualified_module ctx id;
  explicit ← lift (get_had_explicit_default m reg_field);
  interior ← (
    if negb explicit then ret (L "self.builder.set_data_field::<u16>({}, value as u16);" [offset])
    else
      v ← slot_get_default_value m reg_field;
      w ← value_which m tables v;
      match w with
      | VW_Enum d => ret (L "self.builder.set_data_field_mask::<u16>({}, value as u16, {});" [offset; decimal d])
      | _ => failed
      end);
  ret (only_set [interior] the_mod).
Definition struct_setter (typ : StructReader) (offset : Str) : ST ReadLimiter SetterText :=
  r ← type_string m tables ctx fuel typ (L_Reader (str "'_"));
  b ← type_string m tables ctx fuel typ (L_Builder (str "'a"));
  ret (set_and_init [set_pointer_line offset]
         [L "{capnp}::traits::FromPointerBuilder::init_pointer(self.builder.get_pointer_field({}), 0)" [offset]] [] true r b).
Definition interface_setter (typ : StructReader) (offset : Str) : ST ReadLimiter SetterText :=
  ty ← type_string m tables ctx fuel typ L_Client;
  ret (only_set [L "self.builder.reborrow().get_pointer_field({}).set_capability(value.client.hook);" [offset]] ty).
Definition any_pointer_setter (typ : StructReader) (offset : Str) : ST ReadLimiter SetterText :=
  parameter ← lift (is_parameter m typ);
  if parameter : bool then
    builder_type ← type_string m tables ctx fuel typ (L_Builder (str "'a"));
    owned ← type_string m tables ctx fuel typ L_Owned;
    ret {| s_param := str "value"; s_interior := [set_pointer_line offset];
           i_interior := [L "{capnp}::any_pointer::Builder::new(self.builder.get_pointer_field({})).init_as()" [offset]];
           i_params := []; i_mut := false; return_result := true;
           initn := Some (builder_type,
             L "{capnp}::any_pointer::Builder::new(self.builder.get_pointer_field({})).initn_as(length)" [offset]);
           reader_type := Some (F "impl {capnp}::traits::SetterInput<{}>" [owned]); builder_type := Some builder_type |}
  else
    ret (only_init [L "let mut result = {capnp}::any_pointer::Builder::new(self.builder.get_pointer_field({}));" [offset];
                    plain "result.clear();"; plain "result"] false (F "{capnp}::any_pointer::Builder<'a>" [])).
Definition slot_setter (reg_field : StructReader) : ST ReadLimiter SetterText :=
  offset ← lift (slot_get_offset m reg_field);
  let offset := decimal offset in
  typ ← slot_get_type m reg_field;
  w ← unwrap_result (lift (type_which m typ));
  match w with
  | TW_Void => ret {| s_param := str "_value"; s_interior := []; i_interior := []; i_params := []; i_mut := false;
                      return_result := false; initn := None; reader_type := Some (str "()"); builder_type := None |}
  | TW_Bool => bool_setter reg_field offset
  | TW_Int8 | TW_Int16 | TW_Int32 | TW_Int64 | TW_Uint8 | TW_Uint16 | TW_Uint32 | TW_Uint64 | TW_Float32 | TW_Float64 =>
      prim_setter reg_field typ offset
  | TW_Text => ret (text_setter offset)
  | TW_Data => ret (data_setter offset)
  | TW_List ls => list_setter reg_field ls offset
  | TW_Enum e => enum_setter reg_field e offset
  | TW_Struct _ => struct_setter typ offset
  | TW_Interface _ => interface_setter typ offset
  | TW_AnyPointer _ => any_pointer_setter typ offset
  end.

(** The functions that [generate_setter] writes: [discriminant] sets the
    discriminant, if the field has one. *)
Definition setter_functions (discriminant : list FormattedText) (styled_name : Str) (t : SetterText) : list FormattedText :=
  match initn t with
  | None => []
  | Some (builder_type, body) =>
      [plain "#[inline]"; L "pub fn initn_{}(self, length: u32) -> {} {{" [styled_name; builder_type];
       Indent (Branch discriminant); Indent body; plain "}"]
  end ++
  match reader_type t with
  | None => []
  | Some reader_type =>
      let return_type := if return_result t then F "-> {capnp}::Result<()>" [] else [] in
      [plain "#[inline]"; L "pub fn set_{}(&mut self, {}: {}) {} {{" [styled_name; s_param t; reader_type; return_type];
       Indent (Branch (discriminant ++ s_interior t)); plain "}"]
  end ++
  match builder_type t with
  | None => []
  | Some builder_type =>
      let args := join (str ", ") (i_params t) in
      let mutable := if i_mut t then str "mut " else [] in
      [plain "#[inline]"; L "pub fn init_{}({}self, {}) -> {} {{" [styled_name; mutable; args; builder_type];
       Indent (Branch (discriminant ++ i_interior t)); plain "}"]
  end.
Definition generate_setter (discriminant_offset : Z) (styled_name : Str) (field : StructReader) : ST ReadLimiter FormattedText :=
  discriminant_value ← lift (get_discriminant_value m field);
  let discriminant :=
    if negb (discriminant_value =? NO_DISCRIMINANT) then
      [L "self.builder.set_data_field::<u16>({}, {});" [decimal discriminant_offset; decimal discriminant_value]]
    else [] in
  w ← lift (field_which m field);
  t ← match w with FW_Group group => group_setter group | FW_Slot reg_field => slot_setter reg_field end;
  ret (Branch (setter_functions discriminant styled_name t)).

(** ** Unions *)

(** What the loop over the fields of a union accumulates; [ty_params] is the
    number of type parameters of [Which]. *)
Record UnionText := {
  getter_interior : list FormattedText;
  enum_interior : list FormattedText;
  default_decls : list FormattedText;
  ty_params : nat;
  ty_args : list Str;
  used_params : gset Str
}.
Definition type_param (n : nat) : Str := F "A{}" [decimal (Z.of_nat n)].
(** Whether a variant of this type is a parameter of [Which] *)
Definition is_type_argument (w : TypeWhich + ErrorKind) : bool :=
  match w with inl (TW_Text | TW_Data | TW_List _ | TW_Struct _ | TW_AnyPointer _) => true | _ => false end.
Definition union_field (is_reader : bool) (field : StructReader) (u : UnionText) : ST ReadLimiter UnionText :=
  dvalue ← lift (get_discriminant_value m field);
  field_name ← get_field_name m tables field;
  enumerant_name ← lift (capitalize_first_letter (chars field_name));
  '(ty, get, maybe_default_decl) ← getter_text field is_reader false;
  let getter := Branch [L "{} => {{" [decimal dvalue]; Indent (L "::core::result::Result::Ok({}(" [enumerant_name]);
                        Indent (Indent get); Indent (plain "))"); plain "}"] in
  w ← keep_result (lift (field_which m field));
  '(is_argument, used) ← match w with
    | inl (FW_Group group) =>
        id ← lift (group_get_type_id m group);
        used ← used_params_of_group m tables ctx fuel id (used_params u); ret (true, used)
    | inl (FW_Slot reg_field) =>
        fty ← slot_get_type m reg_field;
        used ← used_params_of_type m tables ctx fuel fty (used_params u);
        w ← keep_result (lift (type_which m fty));
        ret (is_type_argument w, used)
    | inr _ => ret (false, used_params u)
    end;
  let ty1 := if is_argument : bool then type_param (ty_params u) else ty in
  ret {| getter_interior := getter_interior u ++ [getter];
         enum_interior := enum_interior u ++ [L "{}({})," [enumerant_name; ty1]];
         default_decls := default_decls u ++ match maybe_default_decl with Some d => [d] | None => [] end;
         ty_params := if is_argument then S (ty_params u) else ty_params u;
         ty_args := if is_argument then ty_args u ++ [ty] else ty_args u;
         used_params := used |}.
Definition generate_union (discriminant_offset : Z) (fields : list StructReader) (is_reader : bool) (params : TypeParameterTexts) :
    ST ReadLimiter (FormattedText * FormattedText * FormattedText * list FormattedText) :=
  u ← fold_slice (union_field is_reader) fields
        {| getter_interior := []; enum_interior := []; default_decls := []; ty_params := 0; ty_args := []; used_params := ∅ |};
  let enum_name := F "Which{}" [angled (map type_param (seq 0 (ty_params u)))] in
  let getter_interior := getter_interior u ++ [L "x => ::core::result::Result::Err({capnp}::NotInSchema(x))" []] in
  let result := Branch [Branch [L "pub enum {} {{" [enum_name]; Indent (Branch (enum_interior u)); plain "}"]] in
  let field_name := if is_reader then str "reader" else str "builder" in
  let concrete_type := F "Which{}{}" [
    if is_reader then str "Reader" else str "Builder";
    match ty_params u with
    | O => []
    | S _ => F "<'a,{}>" [join (str ",") (List.filter (fun s => bool_decide (s ∈ used_params u)) (expanded_list params))]
    end] in
  let typedef := L "pub type {} = Which{};" [concrete_type; angled (ty_args u)] in
  let getter_result := Branch [
    plain "#[inline]";
    L "pub fn which(self) -> ::core::result::Result<{}, {capnp}::NotInSchema> {{" [concrete_type];
    Indent (Branch [L "match self.{}.get_data_field::<u16>({}) {{" [field_name; decimal discriminant_offset];
                    Indent (Branch getter_interior); plain "}"]);
    plain "}"] in
  ret (result, getter_result, typedef, default_decls u).

(** ** Presence and pipelines *)

Definition generate_haser (discriminant_offset : Z) (styled_name : Str) (field : StructReader) (is_reader : bool) :
    ST ReadLimiter FormattedText :=
  let member := if is_reader then str "reader" else str "builder" in
  discriminant_value ← lift (get_discriminant_value m field);
  let interior :=
    if negb (discriminant_value =? NO_DISCRIMINANT) then
      [L "if self.{}.get_data_field::<u16>({}) != {} {{ return false; }}"
         [member; decimal discriminant_offset; decimal discriminant_value]]
    else [] in
  w ← keep_result (lift (field_which m field));
  match w with
  | inl (FW_Slot reg_field) =>
      ty ← slot_get_type m reg_field;
      pointer ← lift (is_pointer m ty);
      if pointer : bool then
        offset ← lift (slot_get_offset m reg_field);
        let test := if is_reader then L "!self.{}.get_pointer_field({}).is_null()" [member; decimal offset]
                    else L "!self.{}.is_pointer_field_null({})" [member; decimal offset] in
        ret (Branch [plain "#[inline]"; L "pub fn has_{}(&self) -> bool {{" [styled_name];
                     Indent (Branch (interior ++ [test])); plain "}"])
      else ret (Branch [])
  | _ => ret (Branch [])
  end.

Definition generate_pipeline_getter (field : StructReader) : ST ReadLimiter FormattedText :=
  name ← get_field_name m tables field;
  let getter ty body := Branch [L "pub fn get_{}(&self) -> {} {{" [camel_to_snake_case (chars name); ty]; Indent body; plain "}"] in
  w ← lift (field_which m field);
  match w with
  | FW_Group group =>
      id ← lift (group_get_type_id m group);
      params ← get_params m tables ctx fuel id;
      the_mod ← get_qualified_module ctx id;
      ret (getter (F "{}::Pipeline{}" [the_mod; angled params])
             (L "{capnp}::capability::FromTypelessPipeline::new(self._typeless.noop())" []))
  | FW_Slot reg_field =>
      typ ← slot_get_type m reg_field;
      w ← lift (type_which m typ);
      match w with
      | TW_Struct _ | TW_AnyPointer _ =>
          ty ← type_string m tables ctx fuel typ L_Pipeline;
          offset ← lift (slot_get_offset m reg_field);
          ret (getter ty (L "{capnp}::capability::FromTypelessPipeline::new(self._typeless.get_pointer_field({}))" [decimal offset]))
      | TW_Interface _ =>
          ty ← type_string m tables ctx fuel typ L_Client;
          offset ← lift (slot_get_offset m reg_field);
          ret (getter ty (L "{capnp}::capability::FromClientHook::new(self._typeless.get_pointer_field({}).as_cap())" [decimal offset]))
      | _ => ret (Branch [])
      end
  end.

(** ** Parameters of a brand *)

(** The set is of scopes and indices of their parameters.  [order] is the
    order in which a [HashSet] gives its elements. *)
Section helpers.
Context (of_type : gset (Z * Z) -> StructReader -> ST ReadLimiter (gset (Z * Z))).
Definition get_ty_params_of_brand_helper (accumulator : gset (Z * Z)) (brand : StructReader) : ST ReadLimiter (gset (Z * Z)) :=
  scopes ← get_scopes m tables brand;
  fold_list scopes (fun _ scope acc =>
    scope_id ← lift (scope_get_scope_id m scope);
    w ← scope_which m tables scope;
    match w with
    | SW_Bind bind =>
        bindings ← question bind;
        fold_list bindings (fun _ binding acc =>
          b ← binding_which m binding;
          match b with BW_Unbound => ret acc | BW_Type t => t ← question t; of_type acc t end) acc
    | SW_Inherit =>
        node ← node_at ctx scope_id;
        parameters ← get_parameters m tables node;
        ret (list_to_set (map (fun idx => (scope_id, wrap16 (Z.of_nat idx)))
               (seq 0 (Z.to_nat (lr_element_count parameters)))) ∪ acc)
    end) accumulator.
End helpers.
Fixpoint get_ty_params_of_type_helper (fuel : nat) (accumulator : gset (Z * Z)) (typ : StructReader) :
    ST ReadLimiter (gset (Z * Z)) :=
  match fuel with
  | O => lift OutOfFuel
  | S fuel =>
      w ← lift (type_which m typ);
      match w with
      | TW_AnyPointer p =>
          w ← lift (any_pointer_which m p);
          match w with
          | APW_Parameter p =>
              scope ← lift (parameter_get_scope_id m p);
              index ← lift (get_parameter_index m p);
              ret ({[(scope, index)]} ∪ accumulator)
          | _ => ret accumulator
          end
      | TW_List ls => et ← get_element_type m ls; get_ty_params_of_type_helper fuel accumulator et
      | TW_Enum x | TW_Struct x | TW_Interface x =>
          brand ← type_get_brand m x; get_ty_params_of_brand_helper (get_ty_params_of_type_helper fuel) accumulator brand
      | _ => ret accumulator
      end
  end.
Definition get_ty_params_of_brand (order : gset (Z * Z) -> list (Z * Z)) (brand : StructReader) : ST ReadLimiter Str :=
  acc ← get_ty_params_of_brand_helper (get_ty_params_of_type_helper fuel) ∅ brand;
  fold_slice (fun p result =>
    let '(scope_id, parameter_index) := p in
    node ← node_at ctx scope_id;
    parameters ← get_parameters m tables node;
    p ← lift (Schema.struct_list_get parameters parameter_index);
    t ← parameter_get_name m tables p;
    s ← to_str m t;
    ret (result ++ chars s ++ str ",")) (order acc) [].
End fields.
End CodegenFields.
