(* ===== verification/CodegenFieldsProps.v ===== *)
(** * Theorems about the accessors that the code generator writes

    The text of an accessor is given a meaning, as an operation on structs;
    what the setter of a field writes is what its getter reads. *)

From S2P Require Import Prelude Mem ReadLimiter Segments WirePointer Arena Readers Allocators AllocatorsOk BuilderArena BuilderArenaOk Builders.
From S2P Require Import BuilderOps BuilderObjects ReadingProps TypedLists SchemaCapnp Schema DynamicValue DynamicSafe DynamicRoundtrip.
From S2P Require Import CodegenText Codegen CodegenFields.
From coqutil Require Import Byte.
From stdpp Require Import gmap list strings.
#[local] Open Scope Z_scope.
#[local] Open Scope rust_scope.
Import TypedLists SchemaCapnp DynamicValue CodegenText Codegen CodegenFields.

(** ** The meaning of accessors *)

(** The numbers of Rust: width, and whether they are signed.  A float is its
    bits. *)
Definition rust_number (w : TypeWhich) : option (string * Z * bool) :=
  match w with
  | TW_Int8 => Some ("i8"%string, 1, true) | TW_Int16 => Some ("i16"%string, 2, true)
  | TW_Int32 => Some ("i32"%string, 4, true) | TW_Int64 => Some ("i64"%string, 8, true)
  | TW_Uint8 => Some ("u8"%string, 1, false) | TW_Uint16 => Some ("u16"%string, 2, false)
  | TW_Uint32 => Some ("u32"%string, 4, false) | TW_Uint64 => Some ("u64"%string, 8, false)
  | TW_Float32 => Some ("f32"%string, 4, false) | TW_Float64 => Some ("f64"%string, 8, false)
  | _ => None
  end.
(** How a type other than [Bool] is stored: an enum is the number of its
    enumerant. *)
Definition stored (w : TypeWhich) : option (Z * bool) :=
  match w with
  | TW_Enum _ => Some (2, false)
  | _ => match rust_number w with Some (_, n, signed) => Some (n, signed) | None => None end
  end.
(** The types of the data section *)
Definition is_data (w : TypeWhich) : bool := match w with TW_Bool => true | _ => bool_decide (is_Some (stored w)) end.
(** The default of such a type, if it is of the type *)
Definition default_of (w : TypeWhich) (d : ValueWhich) : option Z :=
  match w, d with
  | TW_Int8, VW_Int8 x | TW_Int16, VW_Int16 x | TW_Int32, VW_Int32 x | TW_Int64, VW_Int64 x
  | TW_Uint8, VW_Uint8 x | TW_Uint16, VW_Uint16 x | TW_Uint32, VW_Uint32 x | TW_Uint64, VW_Uint64 x
  | TW_Float32, VW_Float32 x | TW_Float64, VW_Float64 x | TW_Enum _, VW_Enum x => Some x
  | _, _ => None
  end.

Inductive Datum := D_bool (b : bool) | D_number (x : Z).

Definition get_number (signed : bool) (n offset mask : Z) (m : mem) (r : StructReader) : outcome Datum :=
  x ← (if signed then get_signed_field_mask m n r offset mask else get_data_field_mask m n r offset mask); Ok (D_number x).
Definition get_bool (offset : Z) (mask : bool) (m : mem) (r : StructReader) : outcome Datum :=
  b ← get_bool_field_mask m r offset mask; Ok (D_bool b).

(** The calls of getters, as text; none has a mask that is zero. *)
Definition bool_call (o : Z) (mask : bool) : Str :=
  if mask then str "self.reader.get_bool_field_mask(" ++ decimal o ++ str ", true)"
  else str "self.reader.get_bool_field(" ++ decimal o ++ str ")".
Definition number_call (ty : string) (o mask : Z) : Str :=
  if mask =? 0 then str "self.reader.get_data_field::<" ++ str ty ++ str ">(" ++ decimal o ++ str ")"
  else str "self.reader.get_data_field_mask::<" ++ str ty ++ str ">(" ++ decimal o ++ str ", " ++ decimal mask ++ str ")".
Definition enum_call (o mask : Z) : Str := str "::core::convert::TryInto::try_into(" ++ number_call "u16" o mask ++ str ")".
(** [reads text get]: the expression [text] of a getter calls [get] of the
    struct reader.  What an enum's getter gives is the enumerant of the number
    that it reads. *)
Inductive reads : Str -> (mem -> StructReader -> outcome Datum) -> Prop :=
| R_bool o mask : reads (bool_call o mask) (get_bool o mask)
| R_number w ty n signed o mask : rust_number w = Some (ty, n, signed) ->
    reads (number_call ty o mask) (get_number signed n o mask)
| R_enum o mask : reads (enum_call o mask) (get_number false 2 o mask).

Definition Writer : Type := forall A, Allocator A -> StructBuilder -> Datum -> B A unit.
Definition put_number (n offset mask : Z) : Writer := fun A _ sb v =>
  match v with D_number x => set_data_field_mask n sb offset x mask | _ => lift Panic end.
Definition put_bool (offset : Z) (mask : bool) : Writer := fun A _ sb v =>
  match v with D_bool b => set_bool_field_mask sb offset b mask | _ => lift Panic end.

(** The statements of setters.  The literal of the mask of a float is given
    its type. *)
Definition mask_literal (w : TypeWhich) (d : Z) : Str :=
  decimal d ++ match w with TW_Float32 => str "u32" | TW_Float64 => str "u64" | _ => [] end.
Definition bool_statement (o : Z) (mask : bool) : Str :=
  if mask then str "self.builder.set_bool_field_mask(" ++ decimal o ++ str ", value, true);"
  else str "self.builder.set_bool_field(" ++ decimal o ++ str ", value);".
Definition number_statement (ty value : string) (o : Z) (mask : option Str) : Str :=
  match mask with
  | None => str "self.builder.set_data_field::<" ++ str ty ++ str ">(" ++ decimal o ++ str ", " ++ str value ++ str ");"
  | Some s =>
      str "self.builder.set_data_field_mask::<" ++ str ty ++ str ">(" ++ decimal o ++ str ", " ++ str value ++ str ", " ++ s ++ str ");"
  end.
Inductive writes : Str -> Writer -> Prop :=
| W_bool o mask : writes (bool_statement o mask) (put_bool o mask)
| W_number w ty n signed o : rust_number w = Some (ty, n, signed) ->
    writes (number_statement ty "value" o None) (put_number n o 0)
| W_number_mask w ty n signed o x : rust_number w = Some (ty, n, signed) ->
    writes (number_statement ty "value" o (Some (mask_literal w x))) (put_number n o x)
| W_enum o : writes (number_statement "u16" "value as u16" o None) (put_number 2 o 0)
| W_enum_mask o x : writes (number_statement "u16" "value as u16" o (Some (decimal x))) (put_number 2 o x).

(** The values of a type, and its width in bits *)
Definition datum_of (w : TypeWhich) (v : Datum) : Prop :=
  match w, v with
  | TW_Bool, D_bool _ => True
  | _, D_number x => match stored w with Some (n, signed) => if signed then signed_in n x else unsigned_in n x | None => False end
  | _, _ => False
  end.
Definition bits_of_type (w : TypeWhich) : Z :=
  match w with TW_Bool => 1 | _ => match stored w with Some (n, _) => 8 * n | None => 0 end end.

(** The default is the negative zero of a float type. *)
Definition negative_zero (default : ValueWhich) : bool :=
  match default with VW_Float32 x => x =? 2 ^ 31 | VW_Float64 x => x =? 2 ^ 63 | _ => false end.
Definition negated (default : ValueWhich) (v : Datum) : Datum :=
  match default, v with
  | VW_Float32 _, D_number x => D_number (Z.lxor x (2 ^ 31))
  | VW_Float64 _, D_number x => D_number (Z.lxor x (2 ^ 63))
  | _, _ => v
  end.

(** ** The accessors of a field, by its type, default and offset *)

Definition getter_expression (w : TypeWhich) (d : ValueWhich) (o : Z) : Str :=
  match w, d with
  | TW_Bool, VW_Bool b => bool_call o b
  | TW_Enum _, VW_Enum x => enum_call o x
  | _, _ => match rust_number w, default_of w d with Some (ty, _, _), Some x => number_call ty o x | _, _ => [] end
  end.
Definition access (w : TypeWhich) (d : ValueWhich) (o : Z) : mem -> StructReader -> outcome Datum :=
  match w, d with
  | TW_Bool, VW_Bool b => get_bool o b
  | _, _ => match stored w, default_of w d with Some (n, signed), Some x => get_number signed n o x | _, _ => fun _ _ => Panic end
  end.

(** The setter of an enum has a mask if the default is [explicit], that of a
    number if the default is not zero. *)
Definition setter_statement (w : TypeWhich) (d : ValueWhich) (explicit : bool) (o : Z) : Str :=
  match w, d with
  | TW_Bool, VW_Bool b => bool_statement o b
  | TW_Enum _, VW_Enum x => number_statement "u16" "value as u16" o (if explicit then Some (decimal x) else None)
  | _, _ =>
      match rust_number w, default_of w d with
      | Some (ty, _, _), Some x =>
          number_statement ty "value" o (if (x =? 0) || negative_zero d then None else Some (mask_literal w x))
      | _, _ => []
      end
  end.
Definition update (w : TypeWhich) (d : ValueWhich) (o : Z) : Writer :=
  match w, d with
  | TW_Bool, VW_Bool b => put_bool o b
  | _, _ =>
      match stored w, default_of w d with
      | Some (n, _), Some x => put_number n o (if negative_zero d then 0 else x)
      | _, _ => fun _ _ _ _ => lift Panic
      end
  end.

(** The function that sets a field: first its discriminant, if it has one *)
Definition setter_function (discriminant_offset discriminant : Z) (name ty statement : Str) : FormattedText :=
  Branch [Line (str "#[inline]"); Line (str "pub fn set_" ++ name ++ str "(&mut self, value: " ++ ty ++ str ")  {");
          Indent (Branch ((if discriminant =? NO_DISCRIMINANT then []
                           else [Line (str "self.builder.set_data_field::<u16>(" ++ decimal discriminant_offset ++ str ", " ++
                                       decimal discriminant ++ str ");")]) ++ [Line statement]));
          Line (str "}")].
(** The name of a type in Rust: that of an enum is its path. *)
Definition type_name (h : Heap) (ctx : GeneratorContext) (w : TypeWhich) (ty : Str) : Prop :=
  match w with
  | TW_Bool => ty = str "bool"
  | TW_Enum e => exists id path, type_get_type_id (hmem h) e = Ok id /\ scope_map ctx !! id = Some path /\ ty = join (str "::") path
  | _ => match rust_number w with Some (name, _, _) => ty = str name | None => False end
  end.
Definition result_type (ctx : GeneratorContext) (w : TypeWhich) (ty : Str) : Str :=
  match w with
  | TW_Enum _ => str "-> ::core::result::Result<" ++ ty ++ str "," ++ capnp_root ctx ++ str "::NotInSchema>"
  | _ => str "-> " ++ ty
  end.

(** ** The operations *)

Section access.
Context {A : Type} `{AllocatorOk A}.

Lemma set_get_number w sb n o d signed x : world_ok w -> sb_ok w sb -> primitive_width n -> 0 <= o ->
  8 * n * (o + 1) <= sb_data_size sb ->
  (if signed : bool then signed_in n x else unsigned_in n x) -> (if signed then signed_in n d else unsigned_in n d) ->
  exists m', put_number n o d A _ sb (D_number x) w = (Ok tt, upd m' w) /\
    forall nl, get_number signed n o d m' (struct_view (upd m' w) sb nl) = Ok (D_number x).
Proof.
  intros Hw Hs Hn Ho Hr Hx Hd. unfold get_number. destruct signed.
  - destruct (signed_slot sb o w n x d) as (m' & E & _ & Hg); try done. exists m'. split; [exact E|]. intros nl. by rewrite Hg.
  - destruct (unsigned_slot sb o w n x d) as (m' & E & _ & Hg); try done. exists m'. split; [exact E|]. intros nl. by rewrite Hg.
Qed.
(** Written without the mask that is read *)
Lemma set_get_unmasked w sb n o d x : world_ok w -> sb_ok w sb -> primitive_width n -> 0 <= o ->
  8 * n * (o + 1) <= sb_data_size sb -> unsigned_in n x -> unsigned_in n d ->
  exists m', put_number n o 0 A _ sb (D_number x) w = (Ok tt, upd m' w) /\
    forall nl, get_number false n o d m' (struct_view (upd m' w) sb nl) = Ok (D_number (Z.lxor x d)).
Proof.
  intros Hw Hs Hn Ho Hr Hx Hd. assert (0 < n) by (destruct Hn as [->|[->|[->| ->]]]; lia).
  destruct (unsigned_slot sb o w n (Z.lxor x d) d) as (m' & E & _ & Hg); try done; [by apply lxor_unsigned|].
  exists m'. split; [|intros nl; unfold get_number; by rewrite Hg].
  cbn [put_number]. rewrite <- E. unfold set_data_field_mask. by rewrite Z.lxor_0_r, Z.lxor_assoc, Z.lxor_nilpotent, Z.lxor_0_r.
Qed.
Lemma set_get_bool w sb o d b : world_ok w -> sb_ok w sb -> 0 <= o < sb_data_size sb ->
  exists m', put_bool o d A _ sb (D_bool b) w = (Ok tt, upd m' w) /\
    forall nl, get_bool o d m' (struct_view (upd m' w) sb nl) = Ok (D_bool b).
Proof.
  intros Hw Hs Hr. destruct (bool_slot sb o w b d) as (m' & E & _ & Hg); try done.
  exists m'. split; [exact E|]. intros nl. unfold get_bool. by rewrite Hg.
Qed.
End access.

(** ** What is read twice

    The limit on reads decides whether a read succeeds, not what it gives. *)

Definition same_where {X} (P : X -> Prop) (c : ST ReadLimiter X) : Prop :=
  forall l1 l2 a b s1 s2, c l1 = (Ok a, s1) -> c l2 = (Ok b, s2) -> P a -> a = b.
Definition same {X} (c : ST ReadLimiter X) : Prop := same_where (fun _ => True) c.
Lemma same_ret {X} P (a : X) : same_where P (ret a).
Proof. intros l1 l2 x y s1 s2 [= <- <-] [= <- <-]. done. Qed.
Lemma same_lift {X} P (c : outcome X) : same_where P (lift c).
Proof. intros l1 l2 x y s1 s2 [E1 _]%lift_inv [E2 _]%lift_inv. congruence. Qed.
Lemma same_fails {X} P e : same_where (X := X) P (fails e).
Proof. by intros l1 l2 x y s1 s2. Qed.
Lemma same_unit P c : same_where (X := unit) P c.
Proof. by intros l1 l2 [] [] s1 s2. Qed.
Lemma same_bind {X Y} P (c : ST ReadLimiter X) (k : X -> ST ReadLimiter Y) :
  same c -> (forall a, same_where P (k a)) -> same_where P (bind c k).
Proof.
  intros Hc Hk l1 l2 a b s1 s2 (x & t1 & E1 & F1)%ST_bind_inv (y & t2 & E2 & F2)%ST_bind_inv HP.
  assert (x = y) as <- by by eapply Hc. by eapply Hk.
Qed.
(** A result that the property excludes *)
Lemma same_other {X Y} (P : Y -> Prop) (c : ST ReadLimiter X) (f : X -> Y) :
  (forall x, ~ P (f x)) -> same_where P (bind c (fun x => ret (f x))).
Proof. intros Hn l1 l2 a b s1 s2 (x & t1 & E1 & [= <- <-])%ST_bind_inv _ HP. by destruct (Hn x). Qed.
Ltac same_value :=
  repeat match goal with
  | |- same _ => unfold same
  | |- same_where _ (ret _) => apply same_ret
  | |- same_where _ (lift _) => apply same_lift
  | |- same_where _ (fails _) => apply same_fails
  | |- same_where (X := unit) _ _ => apply same_unit
  | |- same_where _ (bind _ _) => first [apply same_other; intros; by intros ? | apply same_bind; [|intros]]
  | |- same_where _ (let '(_, _) := ?p in _) => destruct p
  | |- same_where _ (if ?b then _ else _) => destruct b
  | |- same_where _ (match ?x with _ => _ end) => destruct x
  end.

Lemma follow_fars_same m arena reff seg : same (follow_fars m arena reff seg).
Proof. unfold follow_fars. same_value. Qed.
Lemma struct_field_same m r n : same (struct_field m r n).
Proof.
  unfold struct_field, get_struct, read_struct_pointer, read_struct_pointer_from. same_value; try apply follow_fars_same.
Qed.
Definition is_number_default (v : ValueWhich) : Prop :=
  match v with VW_Text _ | VW_Data _ => False | _ => True end.
Lemma value_which_same m tables r : same_where is_number_default (value_which m tables r).
Proof. unfold value_which. same_value. Qed.

(** ** What is generated for a data field *)

Lemma field_range m n r o v : 0 < n -> get_data_field m n r o = Ok v -> unsigned_in n v.
Proof.
  intros Hn E. unfold get_data_field in E. apply outcome_bind_ok in E as (a & _ & E). apply outcome_bind_ok in E as (b & _ & E).
  destruct (b <=? _); [by eapply load_range; [lia|]|]. injection E as <-. unfold unsigned_in. lia.
Qed.
Lemma signed_field_range m n r o v : 0 < n -> signed_field m n r o = Ok v -> signed_in n v.
Proof.
  intros Hn E. apply outcome_bind_ok in E as (a & E & [= <-]). apply as_signed_in; [done|]. by eapply field_range.
Qed.
Lemma value_in_range m tables r l d l' : value_which m tables r l = (Ok d, l') ->
  match d with
  | VW_Int8 x => signed_in 1 x | VW_Int16 x => signed_in 2 x | VW_Int32 x => signed_in 4 x | VW_Int64 x => signed_in 8 x
  | VW_Uint8 x => unsigned_in 1 x | VW_Uint16 x => unsigned_in 2 x | VW_Uint32 x => unsigned_in 4 x
  | VW_Uint64 x => unsigned_in 8 x | VW_Float32 x => unsigned_in 4 x | VW_Float64 x => unsigned_in 8 x
  | VW_Enum x => unsigned_in 2 x
  | _ => True
  end.
Proof.
  intros E. unfold value_which in E. apply ST_bind_inv in E as (t & s & _ & E).
  repeat match type of E with context [match ?x with _ => _ end] => destruct x end;
    try (by injection E as <- _); try discriminate E;
    apply ST_bind_inv in E as (x & s' & Ex & [= <- _]); try done; apply lift_inv in Ex as [Ex _];
    first [by eapply field_range|by eapply signed_field_range].
Qed.

(** A template without names means the same whatever the names are. *)
Fixpoint unnamed (st : FormatState) (template : Str) : bool :=
  match template with
  | [] => true
  | c :: template =>
      match st with
      | F_text => unnamed (if c =? 123 then F_spec [] else if c =? 125 then F_close else F_text) template
      | F_close => unnamed F_text template
      | F_spec spec =>
          if c =? 125 then (match rev spec with [] => true | s => is_number s end) && unnamed F_text template
          else match spec with
               | [] => unnamed (if c =? 123 then F_text else F_spec [c]) template
               | _ => unnamed (F_spec (c :: spec)) template
               end
      end
  end.
Lemma format_unnamed names names' args template : forall rest st, unnamed st template = true ->
  format_from names args rest st template = format_from names' args rest st template.
Proof.
  induction template as [|c template IH]; intros rest st Hu; [done|]. cbn [format_from unnamed] in *.
  destruct st as [|spec|]; [|destruct (c =? 125)|by rewrite IH].
  - destruct (c =? 123); [by apply IH|]. destruct (c =? 125); [by apply IH|]. by rewrite IH.
  - destruct (rev spec) as [|x l]; cbv beta iota zeta.
    + apply andb_prop in Hu as [_ Hu]. by rewrite IH.
    + apply andb_prop in Hu as [Hn Hu]. by rewrite Hn, IH.
  - destruct spec; [destruct (c =? 123)|]; by rewrite IH.
Qed.

(** The texts of the templates, written out *)
Lemma written_number a b : format [] "self.{}.get_data_field::<{}>({})" [str "reader"; a; b] =
  str "self.reader.get_data_field::<" ++ a ++ str ">(" ++ b ++ str ")".
Proof. vm_compute. reflexivity. Qed.
Lemma written_number_mask a b c : format [] "self.{}.get_data_field_mask::<{}>({}, {})" [str "reader"; a; b; c] =
  str "self.reader.get_data_field_mask::<" ++ a ++ str ">(" ++ b ++ str ", " ++ c ++ str ")".
Proof. vm_compute. reflexivity. Qed.
Section generated.
Context `{Unicode} (h : Heap) (tables : gmap Z CapTable) (ctx : GeneratorContext) (fuel : nat).
#[local] Abbreviation m := (hmem h).

Lemma F_unnamed template args : unnamed F_text (str template) = true -> F ctx template args = format [] template args.
Proof. intros Hu. by apply format_unnamed. Qed.
Lemma primitive_call t o x : primitive_case ctx (str t) (str "reader") (decimal o) x = number_call t o x.
Proof.
  unfold primitive_case, number_call. rewrite !F_unnamed, written_number, written_number_mask by done. done.
Qed.
Lemma bool_getter o (b : bool) :
  (if b then F ctx "self.{}.get_bool_field_mask({}, true)" [str "reader"; decimal o]
   else F ctx "self.{}.get_bool_field({})" [str "reader"; decimal o]) = bool_call o b.
Proof. destruct b; vm_compute; reflexivity. Qed.
Lemma enum_getter o d :
  (if d =? 0 then F ctx "::core::convert::TryInto::try_into(self.{}.get_data_field::<u16>({}))" [str "reader"; decimal o]
   else F ctx "::core::convert::TryInto::try_into(self.{}.get_data_field_mask::<u16>({}, {}))" [str "reader"; decimal o; decimal d]) =
  enum_call o d.
Proof. unfold enum_call, number_call. destruct (d =? 0); rewrite <- !app_assoc; vm_compute; reflexivity. Qed.
Lemma function_text offset dv name ty line :
  Branch (setter_functions ctx (if negb (dv =? NO_DISCRIMINANT)
    then [L ctx "self.builder.set_data_field::<u16>({}, {});" [decimal offset; decimal dv]] else []) name
    (only_set [Line line] ty)) = setter_function offset dv name ty line.
Proof. unfold setter_function. destruct (dv =? NO_DISCRIMINANT); vm_compute; reflexivity. Qed.

Lemma type_name_of ty module w l s l' :
  type_which m ty = Ok w -> is_data w = true -> type_string m tables ctx fuel ty module l = (Ok s, l') -> type_name h ctx w s.
Proof.
  intros Ew Hd E. destruct fuel as [|f]; [done|]. cbn [type_string] in E.
  apply ST_bind_inv in E as (w' & s1 & Ew' & E). apply lift_inv in Ew' as [Ew' ->]. rewrite Ew in Ew'. injection Ew' as <-.
  destruct w; try discriminate Hd; try (by injection E as <- <-).
  apply ST_bind_inv in E as (id & s2 & Eid & E). apply lift_inv in Eid as [Eid ->]. unfold get_qualified_module in E.
  destruct (scope_map ctx !! id) as [path|] eqn:Ep; [|done]. injection E as <- <-. by exists id, path.
Qed.
Lemma type_name_one w s t : type_name h ctx w s -> type_name h ctx w t -> s = t.
Proof.
  unfold type_name. destruct w; cbn; try congruence; try done. intros (i & p & E1 & E2 & ->) (j & q & E3 & E4 & ->). congruence.
Qed.
Lemma not_option field slot ty w l b l1 l2 l3 : field_which m field = Ok (FW_Slot slot) -> slot_get_type m slot l2 = (Ok ty, l3) ->
  type_which m ty = Ok w -> is_data w = true -> is_option_field m tables field l = (Ok b, l1) -> b = false.
Proof.
  intros Ef Et Ew Hw E. unfold is_option_field in E.
  apply ST_bind_inv in E as (an & s1 & _ & E). apply ST_bind_inv in E as (en & s2 & _ & E).
  destruct en; [|by injection E as <- _]. exfalso.
  apply ST_bind_inv in E as (fw & s3 & Ef' & E). apply lift_inv in Ef' as [Ef' ->]. rewrite Ef in Ef'. injection Ef' as <-.
  apply ST_bind_inv in E as (sup & s4 & Es & E).
  apply ST_bind_inv in Es as (ty' & s5 & Et' & Es). assert (ty' = ty) as -> by by eapply struct_field_same.
  apply ST_bind_inv in Es as (p & s6 & Ep & Es). apply lift_inv in Ep as [Ep ->]. unfold is_pointer in Ep. rewrite Ew in Ep.
  assert (p = false) as ->. { injection Ep as <-. by destruct w. }
  injection Es as <- <-. discriminate E.
Qed.

(** A slot of a data type with a default; that of an enum is zero if it is not
    explicit. *)
Definition data_slot (slot : StructReader) (w : TypeWhich) (d : ValueWhich) : Prop :=
  (exists ty l l', slot_get_type m slot l = (Ok ty, l') /\ type_which m ty = Ok w) /\ is_data w = true /\
  (exists v l l', slot_get_default_value m slot l = (Ok v, l') /\ exists k k', value_which m tables v k = (Ok d, k')) /\
  match w, d with TW_Enum _, VW_Enum x => get_had_explicit_default m slot = Ok false -> x = 0 | _, _ => True end.
(** The default is of the type. *)
Definition fits (w : TypeWhich) (d : ValueWhich) : Prop :=
  match w, d with TW_Bool, VW_Bool _ => True | _, _ => is_Some (default_of w d) end.

Lemma arrow_text x : F ctx "-> {}" [x] = str "-> " ++ x.
Proof. rewrite <- (app_nil_r x) at 2. vm_compute. reflexivity. Qed.
Lemma enum_result_text t : F ctx "::core::result::Result<{},{capnp}::NotInSchema>" [t] =
  str "::core::result::Result<" ++ t ++ str "," ++ capnp_root ctx ++ str "::NotInSchema>".
Proof. vm_compute. reflexivity. Qed.
Lemma result_text w t : is_data w = true -> type_name h ctx w t ->
  (let r := match w with TW_Enum _ => F ctx "::core::result::Result<{},{capnp}::NotInSchema>" [t] | _ => t end in
   if bool_decide (r = str "()") then [] else F ctx "-> {}" [r]) = result_type ctx w t.
Proof.
  intros Hd Ht. cbv zeta. rewrite arrow_text.
  destruct w; try discriminate Hd; cbn in Ht; try (rewrite Ht; vm_compute; reflexivity).
  rewrite enum_result_text, bool_decide_eq_false_2; [reflexivity|]. intros Hx. discriminate Hx.
Qed.

Lemma getter_type_of ty w typ l : type_which m ty = Ok w -> is_data w = true ->
  getter_type h tables ctx fuel ty typ l =
  (Ok (match w with TW_Enum _ => true | _ => false end,
       match w with TW_Enum _ => F ctx "::core::result::Result<{},{capnp}::NotInSchema>" [typ] | _ => typ end), l).
Proof. intros Ew Hd. unfold getter_type, is_prim. rewrite Ew. destruct w; try discriminate Hd; reflexivity. Qed.
Lemma reader_member : camel_to_snake_case (str "Reader") = str "reader".
Proof. vm_compute. reflexivity. Qed.
Lemma getter_of_data field slot w d l ty text decl l' : field_which m field = Ok (FW_Slot slot) -> data_slot slot w d ->
  getter_text h tables ctx fuel field true true l = (Ok (ty, text, decl), l') ->
  exists o t, slot_get_offset m slot = Ok o /\ type_name h ctx w t /\ ty = result_type ctx w t /\ decl = None /\
    text = Line (getter_expression w d o) /\ fits w d.
Proof.
  intros Ef ((ty0 & l1 & l2 & Et & Ew) & Hdata & (v & l3 & l4 & Ev & k & k' & Ed) & _) E. unfold getter_text in E.
  apply ST_bind_inv in E as (fw & s1 & Ef' & E). apply lift_inv in Ef' as [Ef' ->]. rewrite Ef in Ef'. injection Ef' as <-.
  unfold slot_getter in E.
  apply ST_bind_inv in E as (o & s1 & Eo & E). apply lift_inv in Eo as [Eo ->].
  apply ST_bind_inv in E as (ty1 & s1 & Et1 & E). assert (ty1 = ty0) as -> by by eapply struct_field_same.
  apply ST_bind_inv in E as (inner & s2 & Ei & E). pose proof (type_name_of _ _ _ _ _ _ Ew Hdata Ei) as Hname.
  apply ST_bind_inv in E as (v1 & s3 & Ev1 & E). assert (v1 = v) as -> by by eapply struct_field_same.
  apply ST_bind_inv in E as (d1 & s4 & Ed1 & E).
  apply ST_bind_inv in E as (name & s5 & _ & E).
  apply ST_bind_inv in E as (opt & s6 & Eopt & E). assert (opt = false) as -> by by eapply not_option.
  apply ST_bind_inv in E as ([fallible result] & s7 & Etype & E).
  apply ST_bind_inv in E as ([fragment decl'] & s8 & Efrag & E). injection E as <- <- <- _.
  exists o, inner. split; [done|]. split; [done|].
  rewrite (getter_type_of _ _ _ _ Ew Hdata) in Etype. injection Etype as _ <- _.
  split; [by apply result_text|].
  unfold getter_fragment in Efrag. apply ST_bind_inv in Efrag as (w1 & s9 & Ew1 & Efrag). apply lift_inv in Ew1 as [Ew1 ->].
  rewrite Ew in Ew1. injection Ew1 as <-.
  assert (Hn : is_number_default d1) by (destruct w; try discriminate Hdata; by destruct d1).
  assert (d1 = d) as ->. { eapply value_which_same; [exact Ed1|exact Ed|exact Hn]. }
  change (if true then str "Reader" else str "Builder") with (str "Reader") in Efrag. rewrite reader_member in Efrag.
  destruct w; try discriminate Hdata; destruct d; try discriminate Efrag; injection Efrag as <- <- _;
    (split; [reflexivity|]); (split; [apply (f_equal Line)|first [exact I|by eexists]]);
    match goal with
    | |- _ = getter_expression TW_Bool _ _ => exact (bool_getter o _)
    | |- _ = getter_expression (TW_Enum _) _ _ => exact (enum_getter o _)
    | |- _ => cbn -[str] in Hname; subst inner; exact (primitive_call _ o _)
    end.
Qed.

(** The setter's mask *)
Definition setter_mask (w : TypeWhich) (x : Z) : option Str :=
  match w with
  | TW_Float32 => float_default (2 ^ 31) x (str "u32")
  | TW_Float64 => float_default (2 ^ 63) x (str "u64")
  | _ => int_default x
  end.
Definition default_range (d : ValueWhich) : Prop :=
  match d with VW_Float32 x => unsigned_in 4 x | VW_Float64 x => unsigned_in 8 x | _ => True end.
Lemma float_mask k x s : 0 < k -> 0 <= x < 2 * k -> float_default k x s = if (x =? 0) || (x =? k) then None else Some (decimal x ++ s).
Proof.
  intros Hk Hx. unfold float_default. destruct (Z.eqb_spec x 0) as [->|H0]; [by rewrite Zmod_0_l|].
  destruct (Z.eqb_spec x k) as [->|H1]; [by rewrite Z_mod_same_full|]. cbn [orb].
  destruct (Z.eqb_spec (x mod k) 0) as [E|]; [|done]. exfalso. apply Z.mod_divide in E as [q ->]; [|lia]. assert (q = 1) as -> by nia. lia.
Qed.
Lemma mask_of_setter w d t x : rust_number w = Some t -> default_of w d = Some x -> default_range d ->
  setter_mask w x = if (x =? 0) || negative_zero d then None else Some (mask_literal w x).
Proof.
  unfold setter_mask, mask_literal, int_default. intros Hw Hd Hr.
  destruct w, d; try discriminate Hd; try discriminate Hw; injection Hd as ->; cbn [negative_zero]; rewrite ?orb_false_r, ?app_nil_r;
    try (by destruct (x =? 0)); apply float_mask; unfold default_range, unsigned_in in Hr; lia.
Qed.
Lemma bool_text o (b : bool) : match (if b then Some (str "true") else None) with
    | None => L ctx "self.builder.set_bool_field({}, value);" [decimal o]
    | Some s => L ctx "self.builder.set_bool_field_mask({}, value, {});" [decimal o; s]
    end = Line (bool_statement o b).
Proof. destruct b; vm_compute; reflexivity. Qed.
Lemma number_text t o mask : match mask with
    | None => L ctx "self.builder.set_data_field::<{}>({}, value);" [str t; decimal o]
    | Some s => L ctx "self.builder.set_data_field_mask::<{}>({}, value, {});" [str t; decimal o; s]
    end = Line (number_statement t "value" o mask).
Proof. destruct mask; vm_compute; reflexivity. Qed.

Lemma enum_text o mask : match mask with
    | None => L ctx "self.builder.set_data_field::<u16>({}, value as u16);" [decimal o]
    | Some s => L ctx "self.builder.set_data_field_mask::<u16>({}, value as u16, {});" [decimal o; s]
    end = Line (number_statement "u16" "value as u16" o mask).
Proof. destruct mask; vm_compute; reflexivity. Qed.
Lemma enum_setter_of slot r v d l1 l2 k1 k2 o l t l' : slot_get_default_value m slot l1 = (Ok v, l2) ->
  value_which m tables v k1 = (Ok (VW_Enum d), k2) ->
  enum_setter h tables ctx slot r (decimal o) l = (Ok t, l') ->
  exists explicit ty, get_had_explicit_default m slot = Ok explicit /\ type_name h ctx (TW_Enum r) ty /\
    t = only_set [Line (number_statement "u16" "value as u16" o (if explicit then Some (decimal d) else None))] ty.
Proof.
  intros Ev Ed E. unfold enum_setter in E.
  apply ST_bind_inv in E as (id & s1 & Eid & E). apply lift_inv in Eid as [Eid ->].
  apply ST_bind_inv in E as (ty & s2 & Ety & E). unfold get_qualified_module in Ety.
  destruct (scope_map ctx !! id) as [path|] eqn:Ep; [|done]. injection Ety as <- <-.
  apply ST_bind_inv in E as (explicit & s3 & Ex & E). apply lift_inv in Ex as [Ex ->].
  apply ST_bind_inv in E as (line & s4 & El & E). injection E as <- _.
  exists explicit, (join (str "::") path). split; [done|]. split; [by exists id, path|]. f_equal. f_equal.
  rewrite <- enum_text. destruct explicit; cbn [negb] in El; [|by injection El as <- _].
  apply ST_bind_inv in El as (v1 & s5 & Ev1 & El). assert (v1 = v) as -> by by eapply struct_field_same.
  apply ST_bind_inv in El as (d1 & s6 & Ed1 & El).
  assert (d1 = VW_Enum d) as ->. { symmetry. eapply value_which_same; [exact Ed|exact Ed1|done]. }
  by injection El as <- _.
Qed.
Lemma setter_of_data field slot w d offset name l ft l' : field_which m field = Ok (FW_Slot slot) -> data_slot slot w d ->
  fits w d -> default_range d -> generate_setter h tables ctx fuel offset name field l = (Ok ft, l') ->
  exists o dv t explicit, slot_get_offset m slot = Ok o /\ get_discriminant_value m field = Ok dv /\ type_name h ctx w t /\
    match w with TW_Enum _ => get_had_explicit_default m slot = Ok explicit | _ => True end /\
    ft = setter_function offset dv name t (setter_statement w d explicit o).
Proof.
  intros Ef ((ty0 & l1 & l2 & Et & Ew) & Hdata & (v & l3 & l4 & Ev & k & k' & Ed) & _) Hdef Hr E. unfold generate_setter in E.
  apply ST_bind_inv in E as (dv & s1 & Edv & E). apply lift_inv in Edv as [Edv ->].
  apply ST_bind_inv in E as (fw & s1 & Ef' & E). apply lift_inv in Ef' as [Ef' ->]. rewrite Ef in Ef'. injection Ef' as <-.
  apply ST_bind_inv in E as (t & s1 & Eslot & E). injection E as <- <-. unfold slot_setter in Eslot.
  apply ST_bind_inv in Eslot as (o & s2 & Eo & Eslot). apply lift_inv in Eo as [Eo ->]. exists o, dv.
  apply ST_bind_inv in Eslot as (ty1 & s2 & Et1 & Eslot). assert (ty1 = ty0) as -> by by eapply struct_field_same.
  apply ST_bind_inv in Eslot as (w1 & s3 & Ew1 & Eslot). unfold unwrap_result, lift in Ew1. rewrite Ew in Ew1. injection Ew1 as <- <-.
  assert (Hprim : forall x s3 s4, prim_default m tables v s3 = (Ok x, s4) ->
    match d with VW_Bool b => x = if b then Some (str "true") else None | _ => forall y p, rust_number w = Some p -> default_of w d = Some y -> x = setter_mask w y end).
  { intros x s4 s5 Ep. unfold prim_default in Ep. apply ST_bind_inv in Ep as (d1 & s6 & Ed1 & Ep).
    assert (d1 = d) as ->. { eapply value_which_same; [exact Ed1|exact Ed|]. by destruct d1. }
    destruct d; try discriminate Ep; injection Ep as <- <-; try done; intros y p; destruct w; try done; by intros _ [= <-]. }
  destruct w; try discriminate Hdata; unfold bool_setter, prim_setter in Eslot.
  1: { destruct d; try by destruct Hdef.
    apply ST_bind_inv in Eslot as (v1 & s4 & Ev1 & Eslot). assert (v1 = v) as -> by by eapply struct_field_same.
    apply ST_bind_inv in Eslot as (x & s5 & Ex & Eslot). injection Eslot as <- <-. rewrite (Hprim _ _ _ Ex) in *.
    exists (str "bool"), false. split_and!; try done. rewrite bool_text. apply function_text. }
  all: try solve [apply ST_bind_inv in Eslot as (tstr & s4 & Ets & Eslot);
    pose proof (type_name_of _ _ _ _ _ _ Ew Hdata Ets) as Hname;
    apply ST_bind_inv in Eslot as (v1 & s5 & Ev1 & Eslot); assert (v1 = v) as -> by (by eapply struct_field_same);
    apply ST_bind_inv in Eslot as (x & s6 & Ex & Eslot); injection Eslot as <- <-;
    destruct Hdef as [y Hy]; destruct d; try discriminate Hy; rewrite (Hprim _ _ _ Ex y _ eq_refl Hy);
    erewrite mask_of_setter; [|reflexivity|exact Hy|exact Hr]; cbn -[str] in Hname; subst tstr; rewrite number_text;
    eexists _, false; split_and!; [done|done|reflexivity|done|]; unfold setter_statement; cbn [rust_number]; rewrite Hy; apply function_text].
  destruct d; try by destruct Hdef.
  destruct (enum_setter_of _ _ _ _ _ _ _ _ _ _ _ _ Ev Ed Eslot) as (explicit & ty & Ex & Hty & ->).
  exists ty, explicit. split_and!; try done. apply function_text.
Qed.
End generated.

(** The texts have the meanings that [access] and [update] give. *)
Lemma getter_meaning w d o : is_data w = true -> fits w d -> reads (getter_expression w d o) (access w d o).
Proof.
  intros Hw Hf.
  assert (Hn : forall t n signed x, rust_number w = Some (t, n, signed) -> reads (number_call t o x) (get_number signed n o x)).
  { intros t n signed x Ht. by apply (R_number w). }
  destruct w; try discriminate Hw; destruct d; cbn in Hf; try (by apply is_Some_None in Hf);
    unfold getter_expression, access; cbn [rust_number stored default_of];
    first [apply R_bool|apply R_enum|by apply Hn].
Qed.
Lemma setter_meaning w d explicit o : is_data w = true -> fits w d ->
  match w, d with TW_Enum _, VW_Enum x => explicit = false -> x = 0 | _, _ => True end ->
  writes (setter_statement w d explicit o) (update w d o).
Proof.
  intros Hw Hf Hx.
  assert (Hn : forall t n signed x, rust_number w = Some (t, n, signed) ->
    writes (number_statement t "value" o (if (x =? 0) || negative_zero d then None else Some (mask_literal w x)))
      (put_number n o (if negative_zero d then 0 else x))).
  { intros t n signed x Ht. destruct (Z.eqb_spec x 0) as [->|_]; destruct (negative_zero d); cbn [orb];
      first [by eapply W_number|by eapply W_number_mask]. }
  destruct w; try discriminate Hw; destruct d; cbn in Hf; try (by apply is_Some_None in Hf);
    unfold setter_statement, update; cbn [rust_number stored default_of];
    first [apply W_bool|by eapply Hn|idtac].
  cbn [negative_zero]. destruct explicit; [apply W_enum_mask|]. rewrite (Hx eq_refl). apply W_enum.
Qed.

Section agree.
Context {A : Type} `{AllocatorOk A}.

(** A value that is written is what is read; for a float whose default is the
    negative zero, negated. *)
Definition reads_back (w : TypeWhich) (d : ValueWhich) (o : Z) (read : mem -> StructReader -> outcome Datum) (write : Writer) : Prop :=
  forall w0 sb v, world_ok w0 -> sb_ok w0 sb -> bits_of_type w * (o + 1) <= sb_data_size sb -> datum_of w v ->
  exists m', write A _ sb v w0 = (Ok tt, upd m' w0) /\
    forall nl, read m' (struct_view (upd m' w0) sb nl) = Ok (if negative_zero d then negated d v else v).

Lemma numbers_read_back w d n signed o x : stored w = Some (n, signed) -> default_of w d = Some x ->
  (if signed then signed_in n x else unsigned_in n x) -> 0 <= o ->
  reads_back w d o (get_number signed n o x) (put_number n o (if negative_zero d then 0 else x)).
Proof.
  intros Hn Hd Hx Ho w0 sb v Hw Hs Hb Hv.
  assert (Hp : primitive_width n) by (unfold primitive_width; destruct w; try discriminate Hn; injection Hn as <- _; lia).
  assert (Hbits : 8 * n * (o + 1) <= sb_data_size sb).
  { unfold bits_of_type in Hb. rewrite Hn in Hb. by destruct w. }
  assert (exists y, v = D_number y /\ if signed then signed_in n y else unsigned_in n y) as (y & -> & Hy).
  { unfold datum_of in Hv. rewrite Hn in Hv. destruct w; try discriminate Hn; destruct v as [b|y]; try done; by exists y. }
  destruct (negative_zero d) eqn:Ez; [|by apply set_get_number].
  assert (signed = false) as ->. { destruct w, d; try discriminate; by injection Hn as _ <-. }
  destruct (set_get_unmasked w0 sb n o x y) as (m' & E & Hg); try done. exists m'. split; [exact E|]. intros nl. rewrite Hg.
  destruct w, d; try discriminate Ez; try discriminate Hd; injection Hd as ->; apply Z.eqb_eq in Ez; by rewrite Ez.
Qed.
Lemma bools_read_back b o : 0 <= o -> reads_back TW_Bool (VW_Bool b) o (get_bool o b) (put_bool o b).
Proof.
  intros Ho w0 sb [v|x] Hw Hs Hb Hv; [|done]. cbn [bits_of_type] in Hb. cbn [negative_zero]. apply set_get_bool; try done. lia.
Qed.
Lemma accessors_read_back w d o : is_data w = true -> fits w d ->
  match stored w, default_of w d with
  | Some (n, signed), Some x => if signed then signed_in n x else unsigned_in n x
  | _, _ => True
  end -> 0 <= o -> reads_back w d o (access w d o) (update w d o).
Proof.
  intros Hw Hf Hr Ho. pose proof (fun n signed x => numbers_read_back w d n signed o x) as Hn.
  destruct w; try discriminate Hw; destruct d; cbn in Hf; try (by apply is_Some_None in Hf);
    unfold access, update; cbn [stored rust_number default_of] in *;
    first [by apply bools_read_back|by apply (Hn _ _ _ eq_refl eq_refl)].
Qed.
End agree.

(** C39: The setter and the getter that are generated for a field of the data
    section (a bool, a number or an enum) are those of the schema, and agree.
    The getter's body is one call on the reader, of the type, at the offset
    and with the default of the schema as mask ([getter_expression]); its
    result is of that type.  The setter is one function of that type, which
    stores the field's discriminant at the given offset, if it has one, and
    then makes one call on the builder, of the same type and at the same
    offset ([setter_function], [setter_statement]).  The meaning of these calls
    ([access], [update]) is such that what is set in any struct that is big
    enough is what is read, over any allocator that keeps its contract.  The
    exception is a float whose default is the negative zero: it reads as its
    negation.  (An enum whose default is not explicit has to have the default
    0, as the compiler gives it: its setter has a mask if the default is
    explicit, its getter if it is not 0.) *)
Theorem generated_accessors_agree `{Unicode} (h : Heap) (tables : gmap Z CapTable) (ctx : GeneratorContext) (fuel : nat)
    (field slot : StructReader) (w : TypeWhich) (d : ValueWhich) (l l1 k k1 : ReadLimiter) (ty name : Str) (offset : Z)
    (getter setter : FormattedText) (decl : option FormattedText) :
  field_which (hmem h) field = Ok (FW_Slot slot) -> data_slot h tables slot w d ->
  getter_text h tables ctx fuel field true true l = (Ok (ty, getter, decl), l1) ->
  generate_setter h tables ctx fuel offset name field k = (Ok setter, k1) ->
  exists o discriminant rust_type explicit,
    slot_get_offset (hmem h) slot = Ok o /\ get_discriminant_value (hmem h) field = Ok discriminant /\
    type_name h ctx w rust_type /\
    match w with TW_Enum _ => get_had_explicit_default (hmem h) slot = Ok explicit | _ => True end /\
    ty = result_type ctx w rust_type /\ getter = Line (getter_expression w d o) /\ decl = None /\
    setter = setter_function offset discriminant name rust_type (setter_statement w d explicit o) /\
    reads (getter_expression w d o) (access w d o) /\ writes (setter_statement w d explicit o) (update w d o) /\
    forall A (HA : Allocator A) (HOk : AllocatorOk A), reads_back w d o (access w d o) (update w d o).
Proof.
  intros Ef Hslot Eg Es.
  destruct (getter_of_data _ _ _ _ _ _ _ _ _ _ _ _ _ Ef Hslot Eg) as (o & t & Eo & Ht & -> & -> & -> & Hfits).
  pose proof Hslot as (_ & Hdata & (v & _ & _ & _ & q & q' & Ed) & Hzero). pose proof (value_in_range _ _ _ _ _ _ Ed) as Hrange.
  destruct (setter_of_data _ _ _ _ _ _ _ _ _ _ _ _ _ Ef Hslot Hfits ltac:(by destruct d) Es)
    as (o' & dv & t' & explicit & Eo' & Edv & Ht' & Hx & ->).
  rewrite Eo in Eo'. injection Eo' as <-. assert (t' = t) as -> by by eapply type_name_one.
  assert (Ho : 0 <= o) by (by apply (field_range _ 4) in Eo; [destruct Eo|]).
  exists o, dv, t, explicit. do 8 (split; [done|]). split; [by apply getter_meaning|]. split.
  - apply setter_meaning; [done|done|]. destruct w, d; try done. intros ->. by apply Hzero.
  - intros A HA HOk. apply accessors_read_back; [done|done| |done].
    destruct w; try discriminate Hdata; destruct d; try done; exact Hrange.
Qed.

(** ** Two fields *)

(** [age @0 : T = value], at offset 5, with its type and its default *)
Definition field_words (type_tag value : Z) : list Z :=
  [0x0004000300000000; 0x500000000; 0; 1; 0x220000000d; 0; 0x0001000300000008; 0x0001000200000014; 0x656761;
   type_tag; 0; 0; 0; value; 0; 0].
Definition field_mem (type_tag value : Z) : mem :=
  write_bytes (write_bytes ∅ zero_pointer (repeat Byte.x00 8)) 8192 (bytes_of_words (field_words type_tag value)).
Definition field_heap (type_tag value : Z) : Heap := {| hmem := field_mem type_tag value; brk := 16384 |}.
Definition field_limiter : ReadLimiter := ReadLimiter_new (Some 1000).
Definition field_reader (type_tag value : Z) : StructReader :=
  match (r ← get_root_from_arena (generated_arena {| words_ptr := 8192; words_len := 16 |});
         get_struct (field_mem type_tag value) r None) field_limiter with
  | (Ok s, _) => s | _ => StructReader_new_default
  end.
#[local] Instance ascii_only : Unicode := {| wide_uppercase _ := false; wide_alphanumeric _ := false |}.
Definition field_ctx : GeneratorContext := {| node_map := ∅; scope_map := ∅; node_parents := ∅; capnp_root := str "::capnp" |}.

(** [UInt16 = 7] *)
Definition number_heap : Heap := field_heap 7 0x70007.
Definition number_field : StructReader := field_reader 7 0x70007.
Definition run_getter (h : Heap) (field : StructReader) := getter_text h ∅ field_ctx 5 field true true field_limiter.
Definition run_setter (h : Heap) (field : StructReader) := generate_setter h ∅ field_ctx 5 0 (str "age") field field_limiter.
Definition text_of_getter (r : outcome Getter * ReadLimiter) : FormattedText := match r with (Ok (_, ft, _), _) => ft | _ => BlankLine end.
Definition text_of_setter (r : outcome FormattedText * ReadLimiter) : FormattedText := match r with (Ok ft, _) => ft | _ => BlankLine end.
Example number_getter : text_of_getter (run_getter number_heap number_field) = Line (str "self.reader.get_data_field_mask::<u16>(5, 7)").
Proof. vm_compute. reflexivity. Qed.
Example number_setter : stringify (text_of_setter (run_setter number_heap number_field)) =
  str "#[inline]" ++ [10] ++ str "pub fn set_age(&mut self, value: u16)  {" ++ [10] ++
  str "  self.builder.set_data_field_mask::<u16>(5, value, 7);" ++ [10] ++ str "}" ++ [10].
Proof. vm_compute. reflexivity. Qed.

(** The readers and results that come up in the runs *)
Definition value_of {X Y} (x : X) (r : outcome X * Y) : X := match r with (Ok a, _) => a | _ => x end.
Definition slot_type (h : Heap) (field : StructReader) := slot_get_type (hmem h) field field_limiter.
Definition slot_default (h : Heap) (field : StructReader) := slot_get_default_value (hmem h) field field_limiter.
Definition is_ok {X Y} (r : outcome X * Y) : bool := match r with (Ok _, _) => true | _ => false end.
Lemma ok_run {X Y} (x : X) (r : outcome X * Y) : is_ok r = true -> r = (Ok (value_of x r), snd r).
Proof. by destruct r as [[] y]. Qed.
Lemma ok_result {X Y} (a : X) (r : outcome X * Y) : fst r = Ok a -> r = (Ok a, snd r).
Proof. destruct r. cbn. by intros ->. Qed.
Lemma number_data : data_slot number_heap ∅ number_field TW_Uint16 (VW_Uint16 7).
Proof.
  split; [|split; [reflexivity|split; [|done]]].
  - exists (value_of StructReader_new_default (slot_type number_heap number_field)), field_limiter, (snd (slot_type number_heap number_field)).
    split; [apply ok_run|]; vm_compute; reflexivity.
  - exists (value_of StructReader_new_default (slot_default number_heap number_field)), field_limiter,
      (snd (slot_default number_heap number_field)). split; [apply ok_run; vm_compute; reflexivity|].
    eexists field_limiter, _. apply ok_result. vm_compute. reflexivity.
Qed.
Definition no_getter : Getter := ([], BlankLine, None).
Definition number_getter_type : Str := fst (fst (value_of no_getter (run_getter number_heap number_field))).
Definition number_getter_text : Str := str "self.reader.get_data_field_mask::<u16>(5, 7)".
Definition number_getter_end : ReadLimiter := snd (run_getter number_heap number_field).
Definition number_setter_text : FormattedText := value_of BlankLine (run_setter number_heap number_field).
Definition number_setter_end : ReadLimiter := snd (run_setter number_heap number_field).
Lemma number_getter_runs : getter_text number_heap ∅ field_ctx 5 number_field true true field_limiter =
  (Ok (number_getter_type, Line number_getter_text, None), number_getter_end).
Proof. refine (ok_result _ _ _). vm_compute. reflexivity. Qed.
Lemma number_setter_runs : generate_setter number_heap ∅ field_ctx 5 0 (str "age") number_field field_limiter =
  (Ok number_setter_text, number_setter_end).
Proof. refine (ok_run BlankLine _ _). vm_compute. reflexivity. Qed.
Lemma number_offset : slot_get_offset (hmem number_heap) number_field = Ok 5.
Proof. vm_compute. reflexivity. Qed.
Lemma number_discriminant : get_discriminant_value (hmem number_heap) number_field = Ok NO_DISCRIMINANT.
Proof. vm_compute. reflexivity. Qed.
Lemma number_is_slot : field_which (hmem number_heap) number_field = Ok (FW_Slot number_field).
Proof.
  unfold field_which. assert (E : get_data_field (hmem number_heap) 2 number_field 4 = Ok 0) by (vm_compute; reflexivity).
  by rewrite E.
Qed.

Lemma generated_accessors_agree_witness :
  getter_expression TW_Uint16 (VW_Uint16 7) 5 = number_getter_text /\
  setter_statement TW_Uint16 (VW_Uint16 7) false 5 = str "self.builder.set_data_field_mask::<u16>(5, value, 7);" /\
  number_getter_type = str "-> u16" /\
  number_setter_text = setter_function 0 NO_DISCRIMINANT (str "age") (str "u16") (setter_statement TW_Uint16 (VW_Uint16 7) false 5) /\
  reads_back (A := HeapAllocator) TW_Uint16 (VW_Uint16 7) 5 (access TW_Uint16 (VW_Uint16 7) 5) (update TW_Uint16 (VW_Uint16 7) 5).
Proof.
  destruct (generated_accessors_agree number_heap ∅ field_ctx 5 number_field number_field TW_Uint16 (VW_Uint16 7)
    field_limiter number_getter_end field_limiter number_setter_end number_getter_type (str "age") 0
    (Line number_getter_text) number_setter_text None number_is_slot number_data number_getter_runs number_setter_runs)
    as (o & dv & t & explicit & Ho & Hdv & Ht & _ & Hty & Hget & _ & Hset & _ & _ & Hback).
  rewrite number_offset in Ho. injection Ho as <-. rewrite number_discriminant in Hdv. injection Hdv as <-.
  cbn -[str] in Ht. subst t.
  split; [vm_compute; reflexivity|]. split; [vm_compute; reflexivity|]. split; [exact Hty|]. split; [exact Hset|].
  exact (Hback HeapAllocator _ _).
Defined.

(** A [Float32] whose default is the negative zero: its getter has a mask, and
    its setter has none. *)
Definition float_heap : Heap := field_heap 10 0x800000000000000a.
Definition float_field : StructReader := field_reader 10 0x800000000000000a.
Lemma negative_zero_unmasked :
  text_of_getter (run_getter float_heap float_field) = Line (str "self.reader.get_data_field_mask::<f32>(5, 2147483648)") /\
  text_of_setter (run_setter float_heap float_field) =
    Branch [Line (str "#[inline]"); Line (str "pub fn set_age(&mut self, value: f32)  {");
            Indent (Branch [Line (str "self.builder.set_data_field::<f32>(5, value);")]); Line (str "}")].
Proof. split; vm_compute; reflexivity. Qed.
